(* ===== verification/_CoqProject ===== *)
-Q . S2P
Prelude.v
GoStrings.v
GoFloat.v
GoTime.v
GoBase64.v
Timeutil.v
Subscriptions.v
Saga.v
JobQueue.v
Scheduler.v
Worker.v
Lockout.v
RateLimit.v
Inflight.v
EventCache.v
Idempotency.v
Pagination.v
Fraud.v
Fees.v
Reconciliation.v
HashRing.v
Outbox.v
Cdc.v
Rsql.v
WebhookVerify.v
FeatureFlags.v
PartitionRollover.v
Leader.v
Rls.v
DbAccess.v
Sharded.v
Caches.v
AuditLog.v
Migrations.v
DataLoader.v
RequestParams.v
AdminSigning.v
Auth.v
Routes.v
TailSampling.v
Secrets.v
AppConfig.v
Claims.v
OutboxWorker.v
WebhookInbox.v
Statements.v
TenantExport.v
Publishers.v
Encryption.v
BillingStore.v
SubscriptionApi.v
PeriodicJobs.v
HttpPool.v
GoRegexp.v
GoNet.v
Redaction.v
Middleware.v
Compression.v
PgStores.v
PgRepos.v
GraphQL.v
Health.v
DbPool.v
Passhash.v
AdminApi.v
DeployLint.v
Adr.v
LabelGuard.v
ObjectStorage.v
AccountApi.v
