(* ===== verification/Prelude.v ===== *)
(** * Stellabill backend: a verification development

    Stellabill is the Go backend of a subscription-billing product. HTTP
    handlers (src/internal/handlers) sit behind middleware (rate limits, load
    shedding, idempotency, webhook replay protection, login lockout, fraud
    signals); they call services (src/internal/service) that read and write
    repositories (src/internal/repository). Longer work runs as sagas
    (src/internal/saga), as jobs with a store, a scheduler and workers
    (src/internal/worker), through a transactional outbox
    (src/internal/outbox), and as a reconciliation of the database with
    contract snapshots (src/internal/reconciliation).

    ** How the code is modelled

    Definitions are executable. A struct is a [Record]; a set of string
    constants is an [Inductive], or the strings themselves where the code
    compares strings; a map is a [gmap]; [int] and [int64] are [Z], with
    wrap-around written out by [wrap64] where a computation can leave the
    range; [float64] is the Standard Library's [SpecFloat] with rounding after
    every operation. A [time.Time] is a number of nanoseconds. A function that
    returns [(T, error)] returns a [result]; a method with a pointer receiver
    takes and returns the receiver's record. A method that holds its mutex is
    one atomic step, and what goroutines do together is a step relation or a
    sequence of such steps. Clock readings are arguments, or drawn from the
    world the code runs in. What Go leaves open (the order of [range] over a
    map, the order of equal elements in [sort.Slice]) is the class
    [GoRuntime]: theorems hold for every choice. Code outside the repository
    (the decimal package, [golang.org/x/time/rate], JSON and base64, HMAC)
    and interfaces with several implementations (repositories, executors,
    publishers) are classes with laws or parameters; witnesses instantiate
    them.

    ** Files

    - [Prelude]: results, machine integers, time, the runtime class, lists,
      tactics and hints. [GoStrings], [GoFloat], [GoTime], [GoBase64]: what
      the code uses of strings, strconv, fmt, math and float64 (with how far a
      rounding can go up), the civil calendar and RFC 3339, unpadded base64. [GoRegexp]: regular expressions
      with groups, a matcher proved against their meaning; [GoNet]: addresses
      and networks.
    - [Timeutil] (timeutil/timeutil.go, clock.go): timestamps and clocks.
    - [Subscriptions]: module [StateMachine] (subscriptions/state_machine.go),
      [Repository] (repository/models.go, interfaces.go, mock.go; the
      interface is the class [SubscriptionRepository] with its laws, which the
      in-memory repository discharges here and that of PostgreSQL in
      [PgRepos]), [Service]
      (service/subscription_service.go, proved against the class).
    - [Saga]: [Policies] (saga/policies.go), [SagaTypes] (saga.go),
      [MemoryStore] (store_memory.go), [Coordinator] (coordinator.go), [Flows]
      (flows.go, on top of the subscription service).
    - [JobQueue] (worker/job.go, store_memory.go), [Scheduler]
      (worker/scheduler.go), [Worker] (worker/worker.go, a step relation over
      the shared store).
    - [Lockout] (security/lockout.go and Login of handlers/admin.go).
    - [RateLimit]: [TokenBuckets] and [APILimiter] (middleware/ratelimit.go),
      [TenantLimiter] (middleware/tenant_ratelimit.go).
    - [Inflight] (middleware/inflight.go), [EventCache]
      (middleware/webhook_event_cache.go), [Idempotency]
      (middleware/idempotency.go, idempotency_store.go and the cleanup job of
      worker/scheduler.go).
    - [Pagination]: [Cursors] (pagination/cursor.go, scoped_cursor.go),
      [Offsets] (offset.go), [Limits] (limit.go).
    - [Fraud]: [Window] (security/fraud/window.go), [Collectors] (fraud.go).
    - [Fees] (money arithmetic of service/fees_service.go).
    - [Reconciliation] (reconciliation/reconciliation.go, service.go and the
      in-memory store and adapter).
    - [HashRing] (outbox/hash.go), [Outbox] (outbox/types.go, repository.go,
      dispatcher.go: tables as finite maps, queries as the functions their
      text denotes, database failures as an input), [Sharded]
      (outbox/sharded_dispatcher.go, postgres_pgx_repository.go).
    - [Cdc]: [PgOutput] (cdc/pgoutput.go), [Sinks] (sink.go, kafka_sink.go),
      [Consumer] (consumer.go).
    - [Rsql] (requestparams/rsql.go), [RequestParams]
      (requestparams/requestparams.go, handlers/etag.go, fields.go).
    - [WebhookVerify] (middleware/webhook_verification.go), [AdminSigning]
      (middleware/request_signing.go), both on top of [EventCache].
    - [FeatureFlags] (featureflags/featureflags.go, middleware/featureflags.go).
    - [Leader] (worker/leader.go; advisory locks are a class with laws that
      [Sharded] uses too), [PartitionRollover]
      (worker/partition_rollover_job.go).
    - [Rls] (db/rls.go), [DbAccess] (db/breaker.go, router.go), [Migrations]
      (migrations/migrations.go, runner.go).
    - [Caches] (cache/cache.go, redis.go and the cached repositories),
      [DataLoader] (repository/loader.go), on top of [Subscriptions].
    - [AuditLog] (audit/types.go, sink.go, logger.go, exporter.go,
      worker/audit_exporter.go).
    - [Auth] (auth/roles.go, middleware.go, claims.go, jwt.go, verifier.go,
      jwks_cache.go, opa.go), [Routes] (routes/routes.go, middleware/auth.go),
      [TailSampling] (tracing/tail_sampling.go).
    - [Secrets] (secrets/: environment, chain and Vault providers), [AppConfig]
      (config/config.go, config_dump.go, on top of [Secrets]).
    - [Claims]: work claimed by at most one worker, a generic invariant that
      [OutboxWorker] (worker/outbox_worker.go) and [WebhookInbox]
      (worker/webhook_inbox.go) instantiate.
    - [Statements] (service/statement_service.go, statement_export.go,
      handlers/statements.go), [TenantExport] (service/tenant_export.go,
      handlers/tenant_export.go).
    - [Publishers] (outbox/publisher.go, kafka_publisher.go,
      slack_publisher.go, redis_publisher.go, chaos_publisher.go, limiter.go,
      attempts.go; the class [Json] is what publishers need of encoded
      envelopes), [Encryption] (outbox/subscriber_key.go, sensitive.go,
      jwe_publisher.go, signer.go, service.go).
    - [BillingStore] (repositories/subscriptions.go, plans.go, mock.go),
      [SubscriptionApi] (handlers/subscriptions.go, plans.go, mergepatch.go;
      the websocket hub), [PeriodicJobs] (worker/fee_revenue_refresh_job.go,
      analyze_job.go, kpi_refresh_job.go, deadletter_watcher.go,
      statement_archive_job.go), [HttpPool] (httpx/client.go,
      integrations/pagerduty/client.go).
    - [Redaction] (security/redactor.go, zapredactor.go,
      middleware/requestid.go, recovery.go), [Middleware]
      (middleware/cors.go, security.go, deprecation.go, fault_injection.go,
      ip_restriction.go, request_size.go), [Compression]
      (middleware/gzip_policy.go).
    - [PgStores] (the idempotency store of PostgreSQL and
      saga/store_postgres.go, as transactions that interleave), [PgRepos]
      (repository/postgres_subscription_repo.go, postgres_plan_repo.go,
      statements.go, partition.go and their generated queries), [DbPool]
      (db/pool.go; a hedged read is a step relation).
    - [GraphQL] (graphql/limits.go, resolvers.go, handler.go), [Health]
      (handlers/health.go, startup/), [Passhash] (security/passhash.go),
      [AdminApi] (errcode/registry.go, handlers/errors.go, reconciliation.go,
      outbox.go, webhook_attempts.go, webhooks.go, feature_flags.go).
    - [ObjectStorage] (storage/s3/client.go, cache/memory_object_store.go),
      [AccountApi] (handlers/subscriber_keys.go, idempotency.go, swap.go,
      service/swap_service.go, worker/executor.go, audit/middleware.go),
      [LabelGuard] (metrics/guard.go), [DeployLint]
      (deploylint/deploylint.go), [Adr] (adr/adr.go).

    ** What the theorems show

    - Subscriptions: the status machine is exactly its lifecycle; a status
      change does one lifecycle step or nothing, on every branch, and an error
      names the condition that failed; calls one
      after the other stay on the lifecycle, overlapping calls need not; a
      detail is shown to its owner only.
    - Sagas: the recorded outcome of a run, compensation latest first, bounded
      retries, and that the cancellation flow cannot be rolled back.
    - Jobs: locks exclude other workers until they expire; the order of due
      jobs; the scheduler's choice, its cycle and its starvation guard; the
      worker's bounds in every interleaving, retries with quadratic delays up
      to the dead letter when executions do not overlap, and a double
      execution within one worker.
    - Middleware: lockout durations, token buckets that admit at most their
      burst and their rate times the elapsed time, isolation of tenants, exact shedding, rejection of replays, at most one
      execution per idempotency key in every interleaving.
    - Pagination: walking by cursors or offsets returns every item once in
      order; the previous link leads back; scoped cursors belong to their
      tenant.
    - Fraud, fees, reconciliation: window counts up to one bucket, spacing of
      emissions, parts that add up to the rounded amount, tax and net that add
      up to the amount, matched exactly when equal.
    - Outbox: what a drain without failures delivers, the events a publisher loses or
      dead-letters on a transient failure, and the stability of the hash ring
      under resizing.

    - Change data capture: every frame decodes, encoded messages decode to
      the changes they describe, and what a confirmed position promises.
    - Filters and parameters: the parser answers on every input and inverts
      printing; compiled filters use allowed fields only; sanitised queries
      keep to their rules; tags lead back to their version.
    - Signatures: accepted requests are authentic and, as far as the
      configuration of the provider asks for it, recent and new, and which
      captured or forged requests get in the way.
    - Database: statements run under the tenant of their caller, one leader
      and one owner per shard, partitions and migrations end in the state
      asked for, a breaker that reports commits that never ran.
    - Caches, batching, audit: batched reads equal plain reads, and so do
      cached ones when calls do not overlap, even after failed deletions; a
      stampede loads once when the loader succeeds; the audit chain of events
      that survive JSON verifies and its last hash pins it.
    - Authentication: accepted tokens are signed by the right kind of key, and
      what the route table lets through without one.
    - Secrets and configuration: one request per key in every interleaving,
      accepted configurations are valid, credentials are not dumped.
    - Workers: claims are exclusive, webhooks of a source are handled in
      order, one export per tenant, archived statements are not lost unless
      the answer to an update is, and which rows are stuck or published again.
    - Statements and exports: what a caller may see and what an export holds.
    - Publishers and encryption: sensitive events leave sealed or not at all,
      and where sealed data is lost; the limiter, attempts and signatures.
    - Billing and endpoints: what is due, what a cancellation does, pages
      and statuses, the order of live events; hosts do not disturb each other
      in the HTTP pool.
    - PostgreSQL: within the lifetime of a key at most one of the interleaved
      requests on it runs at a time and at most one succeeds, one write per
      version of a row, which migrations and queries cannot run.
    - Responses and logs: a response written in pieces reaches the client
      whole, compressed or not; named secrets without separators do not
      survive masking, and which paths around the masking remain; the headers every middleware sets.
    - Reads and passwords: what a hedged read returns in every interleaving; a
      password verifies against its own hash; readiness follows the checks
      that answer.
    - Webhooks, uploads and release checks: an event is accepted once; an
      upload succeeds exactly when an attempt does; the text that is signed
      determines what is sent; which policies, workflows, provenances and
      records are accepted, exactly.

    Where the code deviates from its comments or from its purpose the theorem
    states what the code does.

    ** Fuel and bounds

    Loops over slices and counted loops are structural. Fuel appears where Go
    loops without a counter, and is always enough: trimming removes a byte per
    round ([GoStrings]); binary search and binary exponentiation halve their
    interval or exponent ([HashRing], [GoFloat]); the retry loop of a saga
    step ends within MaxAttempts ([Saga]); page walks take the number of
    pages the theorem names ([Pagination]); the idempotency cleanup ends
    within one round more than there are entries ([Idempotency]); the parser of
    filters and the frame decoder take fuel bounded by the length of their
    input, which is proved to suffice ([Rsql], [Cdc]); the matcher of
    regular expressions repeats only while the text gets shorter ([GoRegexp]);
    uploads take the attempts their configuration allows ([ObjectStorage]).

    ** Not modelled

    Telemetry (logger, metrics, spans, the head sampler), wiring (cmd/server
    and the constructors of services), command-line tools and test support,
    the GraphQL schema, the SPIFFE verifier, OpenAPI validation and the
    struct-tag validators, which call libraries; JWTMiddleware, which does not
    parse; middleware that only logs or passes values on; request binding and
    JSON rendering. Of modelled files, what is left out is named in the header
    of the file that models them. *)
From stdpp Require Import base gmap strings list sorting.
From Stdlib Require Import ZArith Lia.

#[global] Open Scope Z_scope.

(** ** Results

    A Go function that returns [(T, error)] becomes a function into
    [result E T]; an operation that returns only an [error] returns
    [option E], where [None] is Go's [nil]. *)
Inductive result (E A : Type) : Type :=
| Ok (a : A)
| Err (e : E).
Arguments Ok {E A} a.
Arguments Err {E A} e.

Declare Scope go_scope.
Delimit Scope go_scope with go.

(** [let? x := c in k] is Go's [x, err := c; if err != nil { return err }; k]. *)
Notation "'let?' x := c 'in' k" :=
  (match c with Ok x => k | Err e => Err e end)
  (at level 200, x pattern, c at level 200, k at level 200, right associativity) : go_scope.

Definition is_ok {E A} (r : result E A) : bool :=
  match r with Ok _ => true | Err _ => false end.

(** ** Machine integers

    Go's [int] and [int64] are 64-bit two's complement. *)
Definition min_int64 : Z := - 2 ^ 63.
Definition max_int64 : Z := 2 ^ 63 - 1.
Definition wrap64 (z : Z) : Z := (z + 2 ^ 63) mod 2 ^ 64 - 2 ^ 63.
Definition in_int64 (z : Z) : Prop := min_int64 ≤ z ≤ max_int64.

Lemma wrap64_bounds z : in_int64 (wrap64 z).
Proof.
  unfold in_int64, wrap64, min_int64, max_int64.
  pose proof (Z.mod_pos_bound (z + 2 ^ 63) (2 ^ 64) ltac:(lia)). lia.
Qed.

Lemma wrap64_id z : in_int64 z → wrap64 z = z.
Proof.
  unfold in_int64, wrap64, min_int64, max_int64. intros H.
  rewrite Z.mod_small by lia. lia.
Qed.

(** ** Time

    A [time.Time] is an instant: a number of nanoseconds since the Unix
    epoch. Go's zero value is midnight of 1 January of year 1. A
    [time.Duration] is an [int64] number of nanoseconds; [t.Sub(u)]
    saturates at the ends of that range. *)
Notation Time := Z (only parsing).
Notation Duration := Z (only parsing).

Module Time.
Definition zero : Z := - 62135596800 * 1000000000.
Definition IsZero (t : Z) : bool := t =? zero.
Definition After (t u : Z) : bool := u <? t.
Definition Before (t u : Z) : bool := t <? u.
Definition Add (t : Z) (d : Z) : Z := t + d.
Definition Sub (t u : Z) : Z := Z.max min_int64 (Z.min max_int64 (t - u)).
Definition Millisecond : Z := 1000000.
Definition Second : Z := 1000 * Millisecond.
Definition Minute : Z := 60 * Second.
Definition Hour : Z := 60 * Minute.
End Time.

(** Reads the comparisons of [Time] as propositions on [Z]. *)
Lemma After_true t u : Time.After t u = true ↔ u < t.
Proof. apply Z.ltb_lt. Qed.
Lemma After_false t u : Time.After t u = false ↔ t ≤ u.
Proof. apply Z.ltb_ge. Qed.
Lemma Before_true t u : Time.Before t u = true ↔ t < u.
Proof. apply Z.ltb_lt. Qed.
Lemma Before_false t u : Time.Before t u = false ↔ u ≤ t.
Proof. apply Z.ltb_ge. Qed.

(** ** What Go leaves unspecified

    [for k, v := range m] visits a map in an order of the runtime's choice,
    and [sort.Slice] may order equal elements either way. Both are
    parameters of the operations that use them, and every theorem holds for
    every choice the language allows. *)
Record strict_weak {A} (less : A → A → bool) : Prop := {
  sw_irrefl : ∀ x, less x x = false;
  sw_trans : ∀ x y z, less x y = true → less y z = true → less x z = true;
  sw_neg_trans : ∀ x y z, less x y = false → less y z = false → less x z = false;
}.

(** [sorted_by less l]: no element of [l] is less than an earlier one. *)
Definition sorted_by {A} (less : A → A → bool) : list A → Prop :=
  StronglySorted (λ x y, less y x = false).

Class GoRuntime := {
  map_range : ∀ {A}, gmap string A → list (string * A);
  sort_slice : ∀ {A}, (A → A → bool) → list A → list A;
  map_range_perm : ∀ A (m : gmap string A), map_range m ≡ₚ map_to_list m;
  sort_slice_perm : ∀ A (less : A → A → bool) l, sort_slice less l ≡ₚ l;
  sort_slice_sorted : ∀ A (less : A → A → bool) l,
    strict_weak less → sorted_by less (sort_slice less l);
}.

Section reference_runtime.
Context {A : Type} (less : A → A → bool).

Definition not_after (x y : A) : Prop := less y x = false.

#[local] Instance not_after_dec : RelDecision not_after.
Proof. intros x y. unfold not_after. apply _. Defined.

Definition reference_sort (l : list A) : list A := merge_sort not_after l.

Lemma reference_sort_perm l : reference_sort l ≡ₚ l.
Proof. apply merge_sort_Permutation. Qed.

Lemma reference_sort_sorted l : strict_weak less → sorted_by less (reference_sort l).
Proof.
  intros [Hirr Htr Hneg]. apply StronglySorted_merge_sort.
  - intros x y z; unfold not_after; eauto.
  - intros x y. unfold not_after.
    destruct (less y x) eqn:E; [right | by left].
    destruct (less x y) eqn:E'; [|done].
    pose proof (Htr _ _ _ E E') as Hc. by rewrite Hirr in Hc.
Qed.
End reference_runtime.

(** One choice the language allows: insertion order of the finite map and a
    stable sort. Concrete runs are evaluated with it. *)
#[export] Instance reference_runtime : GoRuntime := {
  map_range := λ A m, map_to_list m;
  sort_slice := @reference_sort;
  map_range_perm := λ A m, Permutation_refl _;
  sort_slice_perm := @reference_sort_perm;
  sort_slice_sorted := @reference_sort_sorted;
}.

Section range_facts.
Context `{GoRuntime} {A : Type}.
Implicit Types (m : gmap string A).

Lemma elem_of_map_range m k x : (k, x) ∈ map_range m ↔ m !! k = Some x.
Proof. by rewrite (map_range_perm A m), elem_of_map_to_list. Qed.

Lemma NoDup_map_range m : NoDup (map_range m).
Proof. rewrite (map_range_perm A m). apply NoDup_map_to_list. Qed.

Lemma NoDup_map_range_keys m : NoDup (map_range m).*1.
Proof. rewrite (map_range_perm A m). apply NoDup_fst_map_to_list. Qed.

Lemma length_map_range m : length (map_range m) = size m.
Proof. rewrite (map_range_perm A m). apply length_map_to_list. Qed.

Lemma elem_of_sort_slice (less : A → A → bool) l x : x ∈ sort_slice less l ↔ x ∈ l.
Proof. by rewrite (sort_slice_perm A less l). Qed.
End range_facts.

(** A key built by comparing one integer, then another, orders strictly
    and weakly. *)
Lemma strict_weak_lex {A} (f g : A → Z) :
  strict_weak (λ x y, if f x =? f y then g x <? g y else f x <? f y).
Proof.
  split.
  - intros x. rewrite Z.eqb_refl. lia.
  - intros x y z. repeat case_match; lia.
  - intros x y z. repeat case_match; lia.
Qed.

Lemma strict_weak_key {A} (g : A → Z) : strict_weak (λ x y, g x <? g y).
Proof. split; intros; lia. Qed.

(** ** Lists *)
Lemma sorted_by_take {A} (less : A → A → bool) n l :
  sorted_by less l → sorted_by less (take n l).
Proof.
  revert n. induction l as [|x l IH]; intros [|n] Hs; simpl; try constructor.
  - apply IH. by inversion Hs.
  - inversion Hs; subst. by apply Forall_take.
Qed.

Lemma sorted_by_head {A} (less : A → A → bool) x l y :
  sorted_by less (x :: l) → y ∈ l → less y x = false.
Proof.
  intros Hs Hy. inversion Hs as [|? ? _ Hall]; subst.
  rewrite Forall_forall in Hall. by apply Hall.
Qed.

Lemma elem_of_take_inv {A} n (l : list A) x : x ∈ take n l → x ∈ l.
Proof. intros H. rewrite <- (take_drop n l). apply elem_of_app. by left. Qed.

(** [for _, x := range l { if p(x) { return true } }] *)
Fixpoint any {A} (p : A → bool) (l : list A) : bool :=
  match l with
  | [] => false
  | x :: l => if p x then true else any p l
  end.

Lemma any_true {A} (p : A → bool) l : any p l = true ↔ ∃ x, x ∈ l ∧ p x = true.
Proof.
  induction l as [|y l IH]; simpl.
  - split; [done|]. intros (x & Hx & _). by apply elem_of_nil in Hx.
  - destruct (p y) eqn:Ey.
    + split; [|done]. intros _. exists y. split; [left|done].
    + rewrite IH. split.
      * intros (x & Hx & Hp). exists x. split; [by right|done].
      * intros (x & Hx & Hp). apply elem_of_cons in Hx as [->|Hx]; [congruence|eauto].
Qed.

(** ** The elements a map holds, as a bag *)
Section bags.
Context {K : Type} `{Countable K} {X A : Type} (f : X → list A).

Definition bag (m : gmap K X) : list A := concat (map f (map_to_list m).*2).

Lemma bag_delete m k : bag m ≡ₚ (match m !! k with Some x => f x | None => [] end ++ bag (delete k m))%list.
Proof.
  unfold bag. destruct (m !! k) as [x|] eqn:E; [|by rewrite delete_id].
  rewrite <- (insert_delete_id m k x E) at 1. rewrite map_to_list_insert by apply lookup_delete_eq. done.
Qed.

Lemma bag_insert m k x : bag (<[k := x]> m) ≡ₚ (f x ++ bag (delete k m))%list.
Proof. rewrite (bag_delete _ k), lookup_insert_eq. by rewrite delete_insert_eq. Qed.

Lemma elem_of_bag m ch : ch ∈ bag m ↔ ∃ k x, m !! k = Some x ∧ ch ∈ f x.
Proof.
  unfold bag. rewrite list_elem_of_In, in_concat. split.
  - intros (l & Hl & Hch). apply in_map_iff in Hl as (x & <- & Hx). apply list_elem_of_In in Hx, Hch.
    apply list_elem_of_fmap in Hx as ([k y] & -> & Hk%elem_of_map_to_list). eauto.
  - intros (k & x & Hk & Hch). exists (f x). split; [|by apply list_elem_of_In]. apply in_map, list_elem_of_In.
    apply list_elem_of_fmap. exists (k, x). split; [done|]. by apply elem_of_map_to_list.
Qed.
End bags.

(** ** Tactics and hint databases *)

(** Case analysis on every [match] and [if] of the hypotheses, discarding
    the branches whose equations clash. *)
Ltac break_hyps :=
  repeat match goal with
  | H : context [match ?x with _ => _ end] |- _ => destruct x eqn:?; simplify_eq/=
  end.

(** Case analysis on every [match] and [if] of the goal. *)
Ltac break_goal :=
  repeat (case_match; simplify_eq/=).

Ltac deex :=
  repeat match goal with
  | H : ∃ _, _ |- _ => destruct H
  | H : _ ∧ _ |- _ => destruct H
  end.

Create HintDb go discriminated.
Create HintDb go_time.
#[export] Hint Resolve wrap64_bounds NoDup_map_range NoDup_map_range_keys : go.
#[export] Hint Resolve strict_weak_lex strict_weak_key sorted_by_take : go.
#[export] Hint Rewrite After_true After_false Before_true Before_false : go_time.
