(* ===== verification/GoStrings.v ===== *)
(** * Byte strings: the parts of [strings] and [strconv] the sources call

    A Go string is a sequence of bytes; here it is a [string], whose
    characters are bytes. *)
From stdpp Require Import base strings list numbers.
From Stdlib Require Import ZArith Lia Ascii String.
From S2P Require Import Prelude.

Definition byte_of (n : nat) : ascii := ascii_of_nat n.
Definition code (c : ascii) : Z := Z.of_nat (nat_of_ascii c).
Definition bytes (l : list nat) : string := string_of_list_ascii (map byte_of l).

(** ** [strings.TrimSpace]

    The UTF-8 encodings of the code points for which [unicode.IsSpace]
    holds. *)
Definition space_encodings : list string :=
  [bytes [9%nat]; bytes [10%nat]; bytes [11%nat]; bytes [12%nat]; bytes [13%nat];
   bytes [32%nat]; bytes [194; 133]%nat; bytes [194; 160]%nat;
   bytes [225; 154; 128]%nat] ++
  map (λ k, bytes [226; 128; 128 + k]%nat) (seq 0 11) ++
  [bytes [226; 128; 168]%nat; bytes [226; 128; 169]%nat; bytes [226; 128; 175]%nat;
   bytes [226; 129; 159]%nat; bytes [227; 128; 128]%nat].

Definition drop_str (n : nat) (s : string) : string :=
  substring n (String.length s - n) s.

Definition has_suffix (p s : string) : bool :=
  Nat.leb (String.length p) (String.length s) &&
  bool_decide (drop_str (String.length s - String.length p) s = p).

Fixpoint trim_left_fuel (fuel : nat) (s : string) : string :=
  match fuel with
  | O => s
  | S fuel =>
      match List.find (λ p, prefix p s) space_encodings with
      | Some p => trim_left_fuel fuel (drop_str (String.length p) s)
      | None => s
      end
  end.

Fixpoint trim_right_fuel (fuel : nat) (s : string) : string :=
  match fuel with
  | O => s
  | S fuel =>
      match List.find (λ p, has_suffix p s) space_encodings with
      | Some p => trim_right_fuel fuel (substring 0 (String.length s - String.length p) s)
      | None => s
      end
  end.

(** Every step removes at least one byte, so the length is enough fuel. *)
Definition TrimSpace (s : string) : string :=
  let s := trim_left_fuel (String.length s) s in
  trim_right_fuel (String.length s) s.

(** ** [strconv.ParseInt(s, 10, 64)] and [strconv.Atoi] *)
Definition digit_val (c : ascii) : option Z :=
  if bool_decide (48 ≤ code c ≤ 57) then Some (code c - 48) else None.

Fixpoint parse_digits (acc : Z) (s : string) : option Z :=
  match s with
  | EmptyString => Some acc
  | String c s =>
      match digit_val c with
      | Some d => parse_digits (acc * 10 + d) s
      | None => None
      end
  end.

Definition ParseInt (s : string) : option Z :=
  let '(neg, body) :=
    match s with
    | String "-" s' => (true, s')
    | String "+" s' => (false, s')
    | _ => (false, s)
    end in
  match body with
  | EmptyString => None
  | _ =>
      match parse_digits 0 body with
      | None => None
      | Some n =>
          let v := if neg : bool then - n else n in
          if bool_decide (min_int64 ≤ v ≤ max_int64) then Some v else None
      end
  end.

Lemma ParseInt_bounds s v : ParseInt s = Some v → in_int64 v.
Proof.
  unfold ParseInt, in_int64. intros Hp. break_hyps;
  repeat match goal with H : bool_decide _ = true |- _ => apply bool_decide_eq_true in H end;
  done.
Qed.
#[export] Hint Resolve ParseInt_bounds : go.

(** ** Decimal rendering, [fmt]'s [%d] *)
Fixpoint format_digits (fuel : nat) (n : Z) (acc : string) : string :=
  match fuel with
  | O => acc
  | S fuel =>
      let acc := String (ascii_of_nat (Z.to_nat (48 + n mod 10))) acc in
      if n / 10 =? 0 then acc else format_digits fuel (n / 10) acc
  end.

(** Sixty-four digits are more than any 64-bit integer has. *)
Definition Itoa (n : Z) : string :=
  if n <? 0 then String "-" (format_digits 64 (- n) "") else format_digits 64 n "".

Example TrimSpace_ex :
  TrimSpace (" a b" ++ bytes [194; 160; 9]%nat)%string = "a b"%string.
Proof. vm_compute. reflexivity. Qed.
Example ParseInt_ex :
  map ParseInt ["+12"; "-7"; "9223372036854775808"; ""; "1_0"; "-"]%string =
  [Some 12; Some (-7); None; None; None; None].
Proof. vm_compute. reflexivity. Qed.
Example Itoa_ex : map Itoa [0; -120; 4096] = ["0"; "-120"; "4096"]%string.
Proof. vm_compute. reflexivity. Qed.

(** ** Concatenation *)
Lemma length_append (a b : string) :
  String.length (a +:+ b) = (String.length a + String.length b)%nat.
Proof. induction a as [|c a IH]; [done|]. exact (f_equal S IH). Qed.

Lemma string_app_inj_r (a b c : string) : (a +:+ c = b +:+ c)%string → a = b.
Proof.
  intros Heq. assert (String.length a = String.length b) as Hl.
  { apply (f_equal String.length) in Heq. rewrite !length_append in Heq. lia. }
  revert b Hl Heq. induction a as [|x a IH]; intros [|y b] Hl Heq; try done.
  change (String x (a +:+ c) = String y (b +:+ c))%string in Heq.
  injection Heq as -> Heq. f_equal. apply IH; [by injection Hl|done].
Qed.

Lemma string_app_assoc (a b c : string) : ((a +:+ b) +:+ c = a +:+ (b +:+ c))%string.
Proof. induction a as [|x a IH]; [done|]. exact (f_equal (String x) IH). Qed.

(** ** Runes

    [for _, c := range s]: the UTF-8 decoding of a string, one rune per
    well-formed sequence and U+FFFD for each byte that starts none. *)
Definition RuneError : Z := 65533.

Definition is_cont (lo hi : Z) (c : ascii) : bool := (lo <=? code c) && (code c <=? hi).

(** The bounds of the second byte that may follow the lead byte [b], and how
    many bytes the sequence has. *)
Definition lead (b : Z) : option (nat * Z * Z) :=
  if (194 <=? b) && (b <=? 223) then Some (2%nat, 128, 191)
  else if b =? 224 then Some (3%nat, 160, 191)
  else if b =? 237 then Some (3%nat, 128, 159)
  else if (225 <=? b) && (b <=? 239) then Some (3%nat, 128, 191)
  else if b =? 240 then Some (4%nat, 144, 191)
  else if (241 <=? b) && (b <=? 243) then Some (4%nat, 128, 191)
  else if b =? 244 then Some (4%nat, 128, 143)
  else None.

Fixpoint runes (s : string) : list Z :=
  match s with
  | EmptyString => []
  | String c0 s1 =>
      let b0 := code c0 in
      if b0 <? 128 then b0 :: runes s1
      else match lead b0, s1 with
      | Some (2%nat, lo, hi), String c1 s2 =>
          if is_cont lo hi c1 then Z.land b0 31 * 64 + Z.land (code c1) 63 :: runes s2
          else RuneError :: runes s1
      | Some (3%nat, lo, hi), String c1 (String c2 s3) =>
          if is_cont lo hi c1 && is_cont 128 191 c2 then
            Z.land b0 15 * 4096 + Z.land (code c1) 63 * 64 + Z.land (code c2) 63 :: runes s3
          else RuneError :: runes s1
      | Some (4%nat, lo, hi), String c1 (String c2 (String c3 s4)) =>
          if is_cont lo hi c1 && is_cont 128 191 c2 && is_cont 128 191 c3 then
            Z.land b0 7 * 262144 + Z.land (code c1) 63 * 4096 + Z.land (code c2) 63 * 64 +
              Z.land (code c3) 63 :: runes s4
          else RuneError :: runes s1
      | _, _ => RuneError :: runes s1
      end
  end.

Example runes_ex :
  runes (bytes [97; 226; 130; 172; 195; 169; 240; 159; 152; 128; 255; 226; 130]%nat) =
  [97; 8364; 233; 128512; RuneError; RuneError; RuneError].
Proof. vm_compute. reflexivity. Qed.

(** ** Strings that [TrimSpace] keeps *)
Lemma has_suffix_last p s c :
  has_suffix p s = true → p ≠ EmptyString → get (String.length s - 1) s = Some c →
  get (String.length p - 1) p = Some c.
Proof.
  unfold has_suffix, drop_str. intros [Hle Heq]%andb_true_iff Hp Hc.
  apply Nat.leb_le in Hle. apply bool_decide_eq_true in Heq.
  assert (0 < String.length p)%nat by (destruct p; simpl in *; [done|lia]).
  rewrite <- Heq at 2. rewrite substring_correct1 by lia. rewrite <- Hc. f_equal. lia.
Qed.

(** No space starts with the byte [a] and none ends with the byte [b]. *)
Definition edges_ok (a b : ascii) : bool :=
  forallb (λ p, negb (bool_decide (p = EmptyString)) && bool_decide (get 0 p ≠ Some a) &&
                negb (bool_decide (get (String.length p - 1) p = Some b))) space_encodings.

Lemma find_none_forall {A} (f : A → bool) l : (∀ x, In x l → f x = false) → List.find f l = None.
Proof.
  induction l as [|x l IH]; intros Hno; [done|]. cbn [List.find].
  rewrite (Hno x) by (by left). apply IH. intros y Hy. apply Hno. by right.
Qed.

Lemma TrimSpace_edges a s b :
  edges_ok a b = true → TrimSpace (String a (s +:+ String b EmptyString)) = String a (s +:+ String b EmptyString).
Proof.
  intros Hok. unfold edges_ok in Hok. rewrite forallb_forall in Hok.
  set (t := String a (s +:+ String b EmptyString)). unfold TrimSpace.
  assert (trim_left_fuel (String.length t) t = t) as ->.
  { change (String.length t) with (S (String.length (s +:+ String b EmptyString))).
    cbn [trim_left_fuel]. rewrite find_none_forall; [done|]. intros p Hp. specialize (Hok p Hp).
    rewrite !andb_true_iff, !negb_true_iff in Hok. destruct Hok as [[Hne Hg] _].
    apply bool_decide_eq_false in Hne. apply bool_decide_eq_true in Hg.
    destruct p as [|c p]; [done|]. unfold t. cbn [prefix]. destruct (ascii_dec c a) as [->|]; [|done].
    by destruct Hg. }
  assert (get (String.length t - 1) t = Some b) as Hlast.
  { unfold t. cbn [String.length]. rewrite length_append. cbn [String.length].
    replace (S (String.length s + 1) - 1)%nat with (S (String.length s)) by lia. cbn [get]. clear.
    induction s as [|c s IH]; [done|]. exact IH. }
  destruct (String.length t) as [|n] eqn:El; [done|]. cbn [trim_right_fuel].
  rewrite find_none_forall; [done|]. intros p Hp. specialize (Hok p Hp).
  rewrite !andb_true_iff, !negb_true_iff in Hok. destruct Hok as [[Hne _] Hb].
  apply bool_decide_eq_false in Hne, Hb.
  destruct (has_suffix p t) eqn:E; [|done]. exfalso.
  apply Hb. eapply has_suffix_last; [exact E|done|]. by rewrite El.
Qed.

Lemma TrimSpace_parens s : TrimSpace ("(" +:+ s +:+ ")")%string = ("(" +:+ s +:+ ")")%string.
Proof. apply (TrimSpace_edges "(" s ")"). vm_compute. reflexivity. Qed.

(** ** Searching and splitting *)
Definition HasPrefix (s p : string) : bool := prefix p s.
Definition TrimPrefix (s p : string) : string :=
  if HasPrefix s p then drop_str (String.length p) s else s.

Fixpoint contains_char (c : ascii) (s : string) : bool :=
  match s with
  | EmptyString => false
  | String c' s => bool_decide (c' = c) || contains_char c s
  end.

(** [strings.Split(s, sep)] for a separator of one byte. *)
Fixpoint split_char (c : ascii) (s : string) : list string :=
  match s with
  | EmptyString => [EmptyString]
  | String c' s =>
      if bool_decide (c' = c) then EmptyString :: split_char c s
      else match split_char c s with
           | p :: ps => String c' p :: ps
           | [] => [String c' EmptyString]
           end
  end.

Fixpoint Join (l : list string) (sep : string) : string :=
  match l with
  | [] => EmptyString
  | [s] => s
  | s :: l => s +:+ sep +:+ Join l sep
  end.

Lemma split_char_clean c s p : In p (split_char c s) → contains_char c p = false.
Proof.
  revert p. induction s as [|c' s IH]; intros p; simpl.
  - intros [<-|[]]. done.
  - case_bool_decide as E.
    + intros [<-|Hp]; [done|by apply IH].
    + destruct (split_char c s) as [|q qs] eqn:Eq.
      * intros [<-|[]]. simpl. by rewrite bool_decide_false.
      * intros [<-|Hp]; [|apply IH; by right]. simpl. rewrite bool_decide_false by done.
        apply IH. by left.
Qed.

Lemma split_char_join c s : Join (split_char c s) (String c EmptyString) = s.
Proof.
  induction s as [|c' s IH]; [done|]. cbn [split_char].
  assert (split_char c s ≠ []) as Hne.
  { destruct s as [|c2 s2]; [done|]. simpl. case_bool_decide; [done|]. by destruct (split_char c s2). }
  case_bool_decide as E.
  - subst. destruct (split_char c s) as [|q qs] eqn:Eq; [done|]. rewrite <- IH. done.
  - destruct (split_char c s) as [|q [|q2 qs]] eqn:Eq; [done| |]; rewrite <- IH; done.
Qed.

Lemma contains_char_app c a b : contains_char c (a +:+ b) = contains_char c a || contains_char c b.
Proof.
  induction a as [|x a IH]; [done|].
  change (contains_char c (String x a +:+ b)) with (bool_decide (x = c) || contains_char c (a +:+ b)).
  rewrite IH. simpl. by rewrite orb_assoc.
Qed.

Lemma contains_char_drop c n s : contains_char c s = false → contains_char c (drop_str n s) = false.
Proof.
  unfold drop_str. revert n. induction s as [|x s IH]; intros [|n] Hs; try done.
  - clear IH. cbn [String.length Nat.sub substring]. revert Hs. simpl.
    intros [-> Hs]%orb_false_iff. simpl. revert Hs. induction s as [|y s IHs]; [done|].
    simpl. intros [-> Hs]%orb_false_iff. simpl. by apply IHs.
  - cbn [String.length Nat.sub substring]. apply IH. by apply orb_false_iff in Hs as [_ ?].
Qed.

(** [strings.Fields(s)]: the maximal runs without white space. *)
Fixpoint fields_fuel (fuel : nat) (s : string) (run : string) : list string :=
  let emit := λ l, if decide (run = EmptyString) then l else run :: l in
  match fuel with
  | O => emit []
  | S fuel =>
      match s with
      | EmptyString => emit []
      | String c s' =>
          match List.find (λ p, prefix p s) space_encodings with
          | Some p => emit (fields_fuel fuel (drop_str (String.length p) s) EmptyString)
          | None => fields_fuel fuel s' (run +:+ String c EmptyString)
          end
      end
  end.

(** Every step reads at least one byte. *)
Definition Fields (s : string) : list string := fields_fuel (S (String.length s)) s EmptyString.

Example Fields_ex : Fields " ab  c " = ["ab"; "c"]%string.
Proof. vm_compute. reflexivity. Qed.

(** ** [encoding/hex] *)
Definition hex_digit (n : nat) : ascii := byte_of (if Nat.ltb n 10 then 48 + n else 87 + n)%nat.

Definition hex_val (c : ascii) : option nat :=
  let n := nat_of_ascii c in
  if (Nat.leb 48 n && Nat.leb n 57)%nat then Some (n - 48)%nat
  else if (Nat.leb 97 n && Nat.leb n 102)%nat then Some (n - 87)%nat
  else if (Nat.leb 65 n && Nat.leb n 70)%nat then Some (n - 55)%nat
  else None.

Fixpoint hex_encode (s : string) : string :=
  match s with
  | EmptyString => EmptyString
  | String c s =>
      let n := nat_of_ascii c in
      String (hex_digit (n / 16)) (String (hex_digit (n mod 16)) (hex_encode s))
  end.

Fixpoint hex_decode (s : string) : option string :=
  match s with
  | EmptyString => Some EmptyString
  | String a (String b s) =>
      match hex_val a, hex_val b, hex_decode s with
      | Some x, Some y, Some r => Some (String (byte_of (x * 16 + y)) r)
      | _, _, _ => None
      end
  | String _ EmptyString => None
  end.

Lemma hex_roundtrip s : hex_decode (hex_encode s) = Some s.
Proof.
  induction s as [|c s IH]; [done|]. cbn [hex_encode]. cbn [hex_decode]. rewrite IH.
  destruct c as [[] [] [] [] [] [] [] []]; reflexivity.
Qed.

Lemma hex_encode_clean c s :
  hex_val c = None → contains_char c (hex_encode s) = false.
Proof.
  intros Hc. induction s as [|x s IH]; [done|]. cbn [hex_encode contains_char]. rewrite IH.
  assert (∀ n, (n < 16)%nat → hex_digit n ≠ c) as Hd.
  { intros n Hn <-. revert Hc. do 16 (destruct n as [|n]; [done|]). lia. }
  rewrite !bool_decide_false; [done| |]; apply Hd.
  - apply Nat.mod_upper_bound. lia.
  - apply Nat.Div0.div_lt_upper_bound. destruct x as [[] [] [] [] [] [] [] []]; vm_compute; lia.
Qed.

(** ** Parts of a string *)
Definition part_of (a s : string) : Prop := ∃ x y, s = x +:+ a +:+ y.

Lemma append_nil_r (s : string) : s +:+ EmptyString = s.
Proof. induction s as [|c s IH]; [done|]. exact (f_equal (String c) IH). Qed.

Lemma part_of_refl s : part_of s s.
Proof. exists EmptyString, EmptyString. by rewrite append_nil_r. Qed.

Lemma part_of_trans a b s : part_of a b → part_of b s → part_of a s.
Proof.
  intros (x & y & ->) (u & v & ->). exists (u +:+ x), (y +:+ v). by rewrite !string_app_assoc.
Qed.

Lemma prefix_app p s : prefix p s = true → s = p +:+ drop_str (String.length p) s.
Proof.
  unfold drop_str. revert s. induction p as [|c p IH]; intros s Hp.
  - cbn [String.length]. rewrite Nat.sub_0_r. clear Hp. induction s as [|x s IHs]; [done|].
    exact (f_equal (String x) IHs).
  - destruct s as [|x s]; [done|]. cbn [prefix] in Hp. destruct (ascii_dec c x) as [->|]; [|done].
    exact (f_equal (String x) (IH s Hp)).
Qed.

Lemma TrimPrefix_app p s : TrimPrefix (p +:+ s) p = s.
Proof.
  assert (prefix p (p +:+ s) = true) as Hp.
  { induction p as [|c p IH]; [by destruct s|]. change (String c p +:+ s) with (String c (p +:+ s)).
    cbn [prefix]. by destruct (ascii_dec c c). }
  unfold TrimPrefix, HasPrefix. rewrite Hp. pose proof (prefix_app _ _ Hp) as E.
  symmetry. revert E. generalize (drop_str (String.length p) (p +:+ s)) as d. intros d. clear.
  induction p as [|c p IH]; [done|]. change (String c (p +:+ s) = String c (p +:+ d) → s = d).
  intros [=E]. by apply IH.
Qed.

Lemma TrimPrefix_part s p : part_of (TrimPrefix s p) s.
Proof.
  unfold TrimPrefix, HasPrefix. destruct (prefix p s) eqn:E; [|apply part_of_refl].
  exists p, EmptyString. rewrite append_nil_r. by apply prefix_app.
Qed.

Lemma split_char_part c s p : In p (split_char c s) → part_of p s.
Proof.
  rewrite <- (split_char_join c s) at 2. generalize (split_char c s) as l.
  induction l as [|q l IH]; [done|]. intros [->|Hp].
  - destruct l as [|q2 l]; [apply part_of_refl|].
    exists EmptyString, (String c EmptyString +:+ Join (q2 :: l) (String c EmptyString)). done.
  - destruct l as [|q2 l]; [done|]. destruct (IH Hp) as (x & y & E).
    exists (q +:+ String c EmptyString +:+ x), y. rewrite !string_app_assoc, <- E. done.
Qed.

(** ** Case mapping of ASCII text *)
Definition upper_char (c : ascii) : ascii :=
  if bool_decide (97 ≤ code c ≤ 122) then byte_of (nat_of_ascii c - 32) else c.
Definition lower_char (c : ascii) : ascii :=
  if bool_decide (65 ≤ code c ≤ 90) then byte_of (nat_of_ascii c + 32) else c.

Fixpoint map_string (f : ascii → ascii) (s : string) : string :=
  match s with EmptyString => EmptyString | String c s => String (f c) (map_string f s) end.

Definition ToUpper : string → string := map_string upper_char.
Definition ToLower : string → string := map_string lower_char.

Lemma ToLower_idemp s : ToLower (ToLower s) = ToLower s.
Proof.
  induction s as [|c s IH]; [done|]. unfold ToLower in *. cbn [map_string]. rewrite IH. f_equal.
  destruct c as [[] [] [] [] [] [] [] []]; reflexivity.
Qed.

(** [strings.Contains(s, sub)]. *)
Fixpoint Contains (s sub : string) : bool :=
  prefix sub s || match s with EmptyString => false | String _ s => Contains s sub end.

Lemma Contains_part s sub : Contains s sub = true → part_of sub s.
Proof.
  induction s as [|c s IH]; cbn [Contains].
  - rewrite orb_false_r. intros H. apply prefix_app in H. exists EmptyString. eexists. exact H.
  - intros [H|H]%orb_true_iff.
    + apply prefix_app in H. exists EmptyString. eexists. exact H.
    + destruct (IH H) as (x & y & ->). exists (String c x), y. done.
Qed.

(** [strings.Cut(s, sep)] for a separator of one byte; what [SplitN(s, sep, 2)]
    gives when the separator occurs. *)
Fixpoint cut_char (c : ascii) (s : string) : option (string * string) :=
  match s with
  | EmptyString => None
  | String c' s =>
      if bool_decide (c' = c) then Some (EmptyString, s)
      else match cut_char c s with Some (a, b) => Some (String c' a, b) | None => None end
  end.

Lemma cut_char_spec c s a b :
  cut_char c s = Some (a, b) → s = a +:+ String c b ∧ contains_char c a = false.
Proof.
  revert a. induction s as [|x s IH]; intros a H; simpl in H; [done|].
  case_bool_decide as E; [by simplify_eq|].
  destruct (cut_char c s) as [[a' b']|]; [|done]. simplify_eq.
  destruct (IH a' eq_refl) as [-> Hc]. split; [done|]. simpl. by rewrite bool_decide_false, Hc.
Qed.

(** [strconv.ParseBool]. *)
Definition ParseBool (s : string) : option bool :=
  if bool_decide (s ∈ ["1"; "t"; "T"; "true"; "TRUE"; "True"]%string) then Some true
  else if bool_decide (s ∈ ["0"; "f"; "F"; "false"; "FALSE"; "False"]%string) then Some false
  else None.

(** ** Binary texts of positive numbers

    An injective writing of anything countable, for examples that need a
    concrete serialisation. *)
Fixpoint digits (p : positive) : string :=
  match p with
  | xH => ""
  | xO p => String "0" (digits p)
  | xI p => String "1" (digits p)
  end.
Fixpoint undigits (s : string) : positive :=
  match s with
  | EmptyString => xH
  | String c s => if decide (c = "0"%char) then xO (undigits s) else xI (undigits s)
  end.
Lemma undigits_digits p : undigits (digits p) = p.
Proof. induction p as [p IH|p IH|]; simpl; by rewrite ?IH. Qed.

(** ** Decimal texts read back *)
Lemma digit_val_digit d : 0 ≤ d < 10 → digit_val (ascii_of_nat (Z.to_nat (48 + d))) = Some d.
Proof.
  intros Hd. assert (d ∈ [0; 1; 2; 3; 4; 5; 6; 7; 8; 9]) as Hin by (rewrite !elem_of_cons; lia).
  repeat (apply elem_of_cons in Hin as [->|Hin]; [vm_compute; reflexivity|]). by apply elem_of_nil in Hin.
Qed.

Lemma parse_format fuel n acc :
  0 ≤ n < 10 ^ Z.of_nat fuel → (0 < fuel)%nat →
  parse_digits 0 (format_digits fuel n acc) = parse_digits n acc.
Proof.
  revert n acc. induction fuel as [|fuel IH]; intros n acc Hn Hf; [lia|]. cbn [format_digits].
  assert (0 ≤ n mod 10 < 10) by (apply Z.mod_pos_bound; lia).
  assert (n = 10 * (n / 10) + n mod 10) by (apply Z.div_mod; lia).
  assert (parse_digits (n / 10) (String (ascii_of_nat (Z.to_nat (48 + n mod 10))) acc) = parse_digits n acc) as Hd.
  { cbn [parse_digits]. rewrite digit_val_digit by done. f_equal. lia. }
  destruct (Z.eqb_spec (n / 10) 0) as [E|E]; [by rewrite E in Hd|].
  rewrite IH; [done| |].
  - split; [apply Z.div_pos; lia|]. apply Z.div_lt_upper_bound; [lia|].
    rewrite Nat2Z.inj_succ, Z.pow_succ_r in Hn by lia. lia.
  - destruct fuel; [|lia]. rewrite Z.pow_1_r in Hn. assert (n / 10 = 0) by (apply Z.div_small; lia). lia.
Qed.

(** The text is digits only, and not empty. *)
Lemma format_digits_head fuel n acc :
  0 ≤ n → (0 < fuel)%nat →
  ∃ c s, format_digits fuel n acc = String c s ∧ is_Some (digit_val c).
Proof.
  revert n acc. induction fuel as [|fuel IH]; intros n acc Hn Hf; [lia|]. cbn [format_digits].
  assert (is_Some (digit_val (ascii_of_nat (Z.to_nat (48 + n mod 10))))) as Hd.
  { rewrite digit_val_digit by (apply Z.mod_pos_bound; lia). done. }
  destruct (Z.eqb_spec (n / 10) 0) as [E|E]; [eauto|].
  destruct fuel as [|fuel]; [cbn; eauto|]. apply IH; [apply Z.div_pos; lia|lia].
Qed.

Lemma format_digits_clean c fuel n acc :
  digit_val c = None → contains_char c acc = false → contains_char c (format_digits fuel n acc) = false.
Proof.
  intros Hc. revert n acc. induction fuel as [|fuel IH]; intros n acc Ha; [done|]. cbn [format_digits].
  assert (contains_char c (String (ascii_of_nat (Z.to_nat (48 + n mod 10))) acc) = false) as Hs.
  { cbn [contains_char]. rewrite Ha, orb_false_r. apply bool_decide_eq_false. intros E.
    rewrite <- E, digit_val_digit in Hc by (apply Z.mod_pos_bound; lia). done. }
  destruct (n / 10 =? 0); [done|]. by apply IH.
Qed.

Lemma ParseInt_digits c s n :
  is_Some (digit_val c) → parse_digits 0 (String c s) = Some n → in_int64 n → ParseInt (String c s) = Some n.
Proof.
  intros [d Hd] Hp Hn. unfold ParseInt.
  assert (c ≠ "-"%char ∧ c ≠ "+"%char) as [H1 H2] by (split; intros ->; done).
  assert (match String c s with String "-" s' => (true, s') | String "+" s' => (false, s') | _ => (false, String c s) end
          = (false, String c s)) as ->.
  { destruct c as [[] [] [] [] [] [] [] []]; try reflexivity; exfalso; (by apply H1) || (by apply H2). }
  rewrite Hp. by rewrite bool_decide_eq_true_2.
Qed.

Lemma ParseInt_Itoa n : 0 ≤ n ≤ max_int64 → ParseInt (Itoa n) = Some n.
Proof.
  intros Hn. unfold Itoa. replace (n <? 0) with false by lia.
  destruct (format_digits_head 64 n "" ltac:(lia) ltac:(lia)) as (c & s & E & Hd). rewrite E.
  apply ParseInt_digits; [done| |unfold in_int64, min_int64, max_int64 in *; lia].
  rewrite <- E. rewrite parse_format; [done| |lia]. unfold max_int64 in Hn. split; [lia|].
  assert (2 ^ 63 - 1 < 10 ^ Z.of_nat 64) by (vm_compute; done). lia.
Qed.

Lemma Itoa_clean c n : 0 ≤ n → digit_val c = None → contains_char c (Itoa n) = false.
Proof. intros Hn Hc. unfold Itoa. replace (n <? 0) with false by lia. by apply format_digits_clean. Qed.

(** ** [TrimSpace] trims once *)
Definition no_lead (s : string) : Prop := List.find (λ p, prefix p s) space_encodings = None.
Definition no_trail (s : string) : Prop := List.find (λ p, has_suffix p s) space_encodings = None.

Lemma space_encodings_nonempty p : In p space_encodings → (0 < String.length p)%nat.
Proof.
  intros Hp. assert (forallb (λ p, (0 <? String.length p)%nat) space_encodings = true) as Hall by reflexivity.
  rewrite forallb_forall in Hall. by apply Nat.ltb_lt, Hall.
Qed.

Lemma length_substring0 n s : (n ≤ String.length s)%nat → String.length (substring 0 n s) = n.
Proof.
  revert n. induction s as [|c s IH]; intros [|n] Hn; simpl in *; try done; [lia|]. by rewrite IH by lia.
Qed.

Lemma prefix_substring0 p n s : prefix p (substring 0 n s) = true → prefix p s = true.
Proof.
  revert n s. induction p as [|c p IH]; intros n s Hp; [by destruct s|].
  destruct s as [|x s], n as [|n]; simpl in *; try done. destruct (ascii_dec c x); [|done]. by eapply IH.
Qed.

Lemma trim_left_no_lead fuel s : (String.length s ≤ fuel)%nat → no_lead (trim_left_fuel fuel s).
Proof.
  revert s. induction fuel as [|fuel IH]; intros s Hs.
  { destruct s; [reflexivity|simpl in Hs; lia]. }
  cbn [trim_left_fuel]. destruct (List.find (λ p, prefix p s) space_encodings) as [p|] eqn:E; [|done].
  apply List.find_some in E as [Hin Hp]. apply IH. pose proof (space_encodings_nonempty p Hin).
  apply prefix_app in Hp. rewrite Hp in Hs. rewrite length_append in Hs. lia.
Qed.

Lemma trim_right_no_trail fuel s : (String.length s ≤ fuel)%nat → no_trail (trim_right_fuel fuel s).
Proof.
  revert s. induction fuel as [|fuel IH]; intros s Hs.
  { destruct s; [reflexivity|simpl in Hs; lia]. }
  cbn [trim_right_fuel]. destruct (List.find (λ p, has_suffix p s) space_encodings) as [p|] eqn:E; [|done].
  apply List.find_some in E as [Hin _]. apply IH. pose proof (space_encodings_nonempty p Hin).
  rewrite length_substring0; lia.
Qed.

Lemma trim_right_keeps_lead fuel s : no_lead s → no_lead (trim_right_fuel fuel s).
Proof.
  revert s. induction fuel as [|fuel IH]; intros s Hs; [done|]. cbn [trim_right_fuel].
  destruct (List.find _ _) as [p|]; [|done]. apply IH. apply find_none_forall. intros q Hq.
  destruct (prefix q (substring 0 (String.length s - String.length p) s)) eqn:E; [|done].
  apply prefix_substring0 in E. by rewrite (List.find_none _ _ Hs q Hq) in E.
Qed.

Lemma TrimSpace_idemp s : TrimSpace (TrimSpace s) = TrimSpace s.
Proof.
  assert (no_lead (TrimSpace s) ∧ no_trail (TrimSpace s)) as [Hl Ht].
  { unfold TrimSpace. split; [by apply trim_right_keeps_lead, trim_left_no_lead|by apply trim_right_no_trail]. }
  unfold TrimSpace at 1. unfold no_lead, no_trail in *.
  assert (∀ n, trim_left_fuel n (TrimSpace s) = TrimSpace s) as ->.
  { intros [|n]; [done|]. cbn [trim_left_fuel]. by rewrite Hl. }
  destruct (String.length (TrimSpace s)); [done|]. cbn [trim_right_fuel]. by rewrite Ht.
Qed.

(** ** Splitting what was joined *)
Lemma split_char_app c a b :
  contains_char c a = false → split_char c (a +:+ String c b) = a :: split_char c b.
Proof.
  induction a as [|x a IH]; intros Ha; cbn [split_char contains_char] in *.
  - change (EmptyString +:+ String c b) with (String c b). cbn [split_char]. by rewrite bool_decide_true.
  - apply orb_false_iff in Ha as [Hx Ha]. change (String x a +:+ String c b) with (String x (a +:+ String c b)).
    cbn [split_char]. by rewrite Hx, IH.
Qed.

Lemma split_char_none c a : contains_char c a = false → split_char c a = [a].
Proof.
  induction a as [|x a IH]; intros Ha; cbn [split_char contains_char] in *; [done|].
  apply orb_false_iff in Ha as [Hx Ha]. by rewrite Hx, IH.
Qed.

(** ** Cutting at what is there *)
Lemma prefix_long sub s t : (String.length sub ≤ String.length s)%nat → HasPrefix (s +:+ t) sub = HasPrefix s sub.
Proof.
  unfold HasPrefix. revert s. induction sub as [|c sub IH]; intros s Hl; [by destruct s, t|].
  destruct s as [|c' s]; cbn in Hl; [lia|]. change (String c' s +:+ t) with (String c' (s +:+ t)). cbn. destruct (ascii_dec c c'); [|done]. apply IH. lia.
Qed.
Lemma drop_prefix a b : drop_str (String.length a) (a +:+ b) = b.
Proof.
  unfold drop_str. rewrite length_append. replace (String.length a + String.length b - String.length a)%nat with (String.length b) by lia.
  induction a as [|c a IH]; [|exact IH]. change (EmptyString +:+ b) with b. cbn [String.length]. clear.
  induction b as [|c b IH]; [done|]. cbn. by rewrite IH.
Qed.
Lemma prefix_self a b : HasPrefix (a +:+ b) a = true.
Proof. unfold HasPrefix. induction a as [|c a IH]; [by destruct b|].
  change (String c a +:+ b) with (String c (a +:+ b)). cbn. destruct (ascii_dec c c); [exact IH|done]. Qed.
Lemma cut_first c a b : contains_char c a = false → cut_char c (a +:+ String c b) = Some (a, b).
Proof.
  induction a as [|x a IH]; [intros _; change (EmptyString +:+ String c b) with (String c b); cbn; by rewrite bool_decide_true|]. cbn [contains_char]. intros [Hx Ha]%orb_false_iff.
  change (String x a +:+ String c b) with (String x (a +:+ String c b)). cbn [cut_char]. rewrite Hx.
  by rewrite IH.
Qed.
Lemma split_join c l : l ≠ [] → (∀ p, p ∈ l → contains_char c p = false) → split_char c (Join l (String c EmptyString)) = l.
Proof.
  induction l as [|p l IH]; [done|]. intros _ Hc. destruct l as [|q l].
  - cbn. apply split_char_none, Hc. by left.
  - change (Join (p :: q :: l) (String c EmptyString)) with (p +:+ String c EmptyString +:+ Join (q :: l) (String c EmptyString)).
    change (String c EmptyString +:+ Join (q :: l) (String c EmptyString)) with (String c (Join (q :: l) (String c EmptyString))).
    rewrite split_char_app by (apply Hc; by left). f_equal. apply IH; [done|]. intros r Hr. apply Hc. by right.
Qed.
