(* ===== verification/GoFloat.v ===== *)
(** * [float64]

    IEEE 754 binary64 as the Standard Library's [SpecFloat] computes it, with
    rounding to nearest even after every operation (no fused
    multiply-add), and Go's conversions from and to [int64]. *)
From stdpp Require Import base numbers.
From Stdlib Require Import ZArith Lia.
From Stdlib Require Import SpecFloat.
From S2P Require Import Prelude.

Notation float64 := spec_float (only parsing).

Definition f_of_int (z : Z) : float64 := binary_normalize 53 1024 z 0 false.
Definition f_add (x y : float64) : float64 := SFadd 53 1024 x y.
Definition f_sub (x y : float64) : float64 := SFsub 53 1024 x y.
Definition f_mul (x y : float64) : float64 := SFmul 53 1024 x y.
Definition f_div (x y : float64) : float64 := SFdiv 53 1024 x y.
Definition f_lt (x y : float64) : bool := SFltb x y.
Definition f_le (x y : float64) : bool := SFleb x y.

(** A decimal literal [m / d], rounded once. *)
Definition f_lit (m d : Z) : float64 := f_div (f_of_int m) (f_of_int d).

(** Truncation toward zero; [None] for infinities and NaN. *)
Definition f_trunc (x : float64) : option Z :=
  match x with
  | S754_zero _ => Some 0
  | S754_finite s m e =>
      let v := if 0 <=? e then Z.pos m * 2 ^ e else Z.pos m / 2 ^ (- e) in
      Some (if s : bool then - v else v)
  | _ => None
  end.

(** [int64(x)]: the value truncated when it fits, otherwise the result the
    amd64 instruction gives. *)
Definition int64_of_float (x : float64) : Z :=
  match f_trunc x with
  | Some v => if bool_decide (min_int64 ≤ v ≤ max_int64) then v else min_int64
  | None => min_int64
  end.

(** [d.Seconds()] of a [time.Duration]. *)
Definition f_seconds (d : Duration) : float64 :=
  f_add (f_of_int (Z.quot d Time.Second))
        (f_div (f_of_int (Z.rem d Time.Second)) (f_of_int 1000000000)).

Lemma int64_of_float_bounds x : in_int64 (int64_of_float x).
Proof.
  unfold int64_of_float, in_int64, min_int64, max_int64.
  destruct (f_trunc x) as [v|]; [|lia].
  case_bool_decide; unfold min_int64, max_int64 in *; lia.
Qed.
#[export] Hint Resolve int64_of_float_bounds : go.

Example float_ex :
  int64_of_float (f_mul (f_seconds (2500 * Time.Millisecond)) (f_of_int 10)) = 25 ∧
  f_lt (f_add (f_lit 1 10) (f_lit 2 10)) (f_lit 3 10) = false ∧
  f_lt (f_lit 3 10) (f_add (f_lit 1 10) (f_lit 2 10)) = true.
Proof. vm_compute. auto. Qed.

(** [math.Ceil]; [None] for infinities and NaN. *)
Definition f_ceil (x : float64) : option Z :=
  match x with
  | S754_zero _ => Some 0
  | S754_finite s m e =>
      Some (if 0 <=? e then (if s : bool then - (Z.pos m * 2 ^ e) else Z.pos m * 2 ^ e)
            else if s : bool then - (Z.pos m / 2 ^ (- e)) else - ((- Z.pos m) / 2 ^ (- e)))
  | _ => None
  end.

(** [int(math.Ceil(x))] *)
Definition int64_of_ceil (x : float64) : Z :=
  match f_ceil x with
  | Some v => if bool_decide (min_int64 ≤ v ≤ max_int64) then v else min_int64
  | None => min_int64
  end.

Definition f_finite (x : float64) : bool :=
  match x with S754_zero _ | S754_finite _ _ _ => true | _ => false end.

Lemma int64_mul_zero x s : f_finite x = true → int64_of_float (f_mul (S754_zero s) x) = 0.
Proof. by destruct x. Qed.

Lemma f_seconds_0 : f_seconds 0 = S754_zero false.
Proof. vm_compute. reflexivity. Qed.

(** No time elapsed adds nothing, whatever the rate. *)
Lemma int64_of_elapsed_0 x : int64_of_float (f_mul (f_seconds 0) x) ≤ 0.
Proof.
  rewrite f_seconds_0. unfold int64_of_float.
  destruct x; simpl; unfold min_int64, max_int64; try lia; by rewrite bool_decide_true.
Qed.

Example ceil_ex :
  map int64_of_ceil [f_seconds (1500 * Time.Millisecond); f_seconds (-1500 * Time.Millisecond);
                     f_of_int 7; f_lit 1 3] = [2; -1; 7; 1].
Proof. vm_compute. reflexivity. Qed.

(** [math.Pow(x, float64(y))] for an integer [1 <= y < 2^53]: the special
    cases and the binary exponentiation on the fraction and the exponent
    that the Go implementation performs. Every round halves [i]. *)
Fixpoint f_pow_loop (fuel : nat) (i : Z) (x1 : float64) (xe : Z) (a1 : float64) (ae : Z)
    : float64 * Z :=
  match fuel with
  | O => (a1, ae)
  | S fuel =>
      if i =? 0 then (a1, ae)
      else if (xe <? - 2 ^ 12) || (2 ^ 12 <? xe) then (a1, ae + xe)
      else
        let '(a1, ae) := if Z.odd i then (f_mul a1 x1, ae + xe) else (a1, ae) in
        let x1 := f_mul x1 x1 in
        let xe := 2 * xe in
        let '(x1, xe) := if f_lt x1 (f_lit 1 2) then (f_add x1 x1, xe - 1) else (x1, xe) in
        f_pow_loop fuel (i / 2) x1 xe a1 ae
  end.

Definition f_pow (x : float64) (y : Z) : float64 :=
  if (y =? 0) || SFeqb x (f_of_int 1) then f_of_int 1
  else if y =? 1 then x
  else match x with
  | S754_nan => S754_nan
  | S754_zero s => S754_zero (s && Z.odd y)
  | S754_infinity s => S754_infinity (s && Z.odd y)
  | S754_finite _ _ _ =>
      let '(x1, xe) := SFfrexp 53 1024 x in
      let '(a1, ae) := f_pow_loop 64 y x1 xe (f_of_int 1) 0 in
      SFldexp 53 1024 a1 ae
  end.

Example f_pow_ex :
  map (λ n, int64_of_float (f_pow (f_of_int 2) n)) [0; 1; 2; 5; 11] = [1; 2; 4; 32; 2048] ∧
  int64_of_float (f_mul (f_pow (f_lit 3 2) 3) (f_of_int 1000)) = 3375 ∧
  f_pow (f_of_int (-2)) 2000 = S754_infinity false.
Proof. vm_compute. auto. Qed.

(** ** How far a rounding can go up

    What the operations return is at most the exact result and one part in
    [2^52] more. Values are compared as integers, in units of [2^-1100]. *)
Definition pw (e : Z) : Z := 2 ^ (e + 1100).
Lemma pw_pos e : -1100 ≤ e → 0 < pw e.
Proof. intros He. unfold pw. apply Z.pow_pos_nonneg; lia. Qed.
Lemma pw_add e n : -1100 ≤ e → 0 ≤ n → pw (e + n) = pw e * 2 ^ n.
Proof. intros He Hn. unfold pw. rewrite <- Z.pow_add_r by lia. f_equal. lia. Qed.

Lemma digits2_bounds p : 2 ^ (Z.pos (digits2_pos p) - 1) ≤ Z.pos p < 2 ^ Z.pos (digits2_pos p).
Proof.
  induction p as [p IH|p IH|]; cbn [digits2_pos]; [| |lia];
    rewrite Pos2Z.inj_succ, Z.sub_1_r, Z.pred_succ in *; rewrite Z.pow_succ_r by lia;
    replace (2 ^ Z.pos (digits2_pos p)) with (2 * 2 ^ (Z.pos (digits2_pos p) - 1)) in *
      by (rewrite <- Z.pow_succ_r by lia; f_equal; lia); lia.
Qed.

Lemma shr_1_half r : 0 ≤ shr_m r → shr_m (shr_1 r) = shr_m r / 2.
Proof.
  destruct r as [[|[p|p|]|p] b c]; cbn; intros H; [done| | |done|lia].
  - rewrite Pos2Z.inj_xI. apply (Z.div_unique_pos _ _ _ 1); lia.
  - rewrite Pos2Z.inj_xO. apply (Z.div_unique_pos _ _ _ 0); lia.
Qed.
Lemma iter_shr p : ∀ r, 0 ≤ shr_m r → shr_m (iter_pos shr_1 p r) = shr_m r / 2 ^ Z.pos p.
Proof.
  induction p as [p IH|p IH|]; intros r Hr; cbn [iter_pos].
  - rewrite !IH, shr_1_half; rewrite ?IH, ?shr_1_half;
      repeat first [done | apply Z.div_pos | rewrite shr_1_half | lia].
    rewrite !Zdiv.Zdiv_Zdiv by lia. f_equal. replace (Z.pos p~1) with (1 + Z.pos p + Z.pos p) by lia. rewrite !Z.pow_add_r by lia. lia.
  - rewrite !IH; rewrite ?IH; repeat first [done | apply Z.div_pos | lia].
    rewrite Zdiv.Zdiv_Zdiv by lia. f_equal. replace (Z.pos p~0) with (Z.pos p + Z.pos p) by lia. rewrite Z.pow_add_r by lia. lia.
  - by rewrite shr_1_half.
Qed.
Lemma shr_le r e n r' e' :
  shr r e n = (r', e') → 0 ≤ shr_m r → -1100 ≤ e →
  0 ≤ shr_m r' ∧ e ≤ e' ∧ shr_m r' * pw e' ≤ shr_m r * pw e.
Proof.
  unfold shr. intros H Hr He. destruct n as [|p|p]; simplify_eq; [lia| |lia].
  rewrite iter_shr, pw_add by lia. split; [apply Z.div_pos; lia|]. split; [lia|].
  pose proof (pw_pos e He). pose proof (Z.mul_div_le (shr_m r) (2 ^ Z.pos p) ltac:(lia)). nia.
Qed.

Lemma round_le m l : 0 ≤ m → (l = loc_Exact ∨ 2 ^ 52 ≤ m) →
  0 ≤ round_nearest_even m l ∧ round_nearest_even m l * 2 ^ 52 ≤ m * (2 ^ 52 + 1).
Proof. intros Hm [->|Hl]; cbn [round_nearest_even]; [lia|]. unfold round_nearest_even. repeat case_match; lia. Qed.

Lemma loc_record m l : shr_m (shr_record_of_loc m l) = m ∧ loc_of_shr_record (shr_record_of_loc m l) = l.
Proof. by destruct l as [|[]]. Qed.

Lemma round_aux_up s mx ex lx :
  0 < mx → -1000 ≤ ex → (lx = loc_Exact ∨ 2 ^ 52 ≤ mx) →
  match binary_round_aux 53 1024 s mx ex lx with
  | S754_finite s' m e => s' = s ∧ ex ≤ e ∧ Z.pos m * pw e * 2 ^ 52 ≤ mx * pw ex * (2 ^ 52 + 1)
  | S754_infinity s' | S754_zero s' => s' = s
  | S754_nan => True
  end.
Proof.
  intros Hm He Hl. unfold binary_round_aux. destruct (shr_fexp 53 1024 mx ex lx) as [r1 e1] eqn:E1.
  assert (0 ≤ shr_m r1 ∧ ex ≤ e1 ∧ shr_m r1 * pw e1 ≤ mx * pw ex ∧
    (loc_of_shr_record r1 = loc_Exact ∨ 2 ^ 52 ≤ shr_m r1)) as (H0 & H1 & H2 & H3).
  { unfold shr_fexp in E1. destruct mx as [|p|p]; [lia| |lia]. pose proof (digits2_bounds p) as Hd.
    destruct (loc_record (Z.pos p) lx) as [Er El]. set (r0 := shr_record_of_loc (Z.pos p) lx) in *.
    destruct (shr_le _ _ _ _ _ E1) as (? & ? & ?); [lia..|]. rewrite Er in *. split_and!; [done..|].
    cbn [Zdigits2] in E1. unfold fexp, emin in E1.
    replace (Z.max (Z.pos (digits2_pos p) + ex - 53) (3 - 1024 - 53) - ex) with (Z.pos (digits2_pos p) - 53) in E1 by lia.
    destruct (Z.pos (digits2_pos p) - 53) as [|n|n] eqn:En; cbn [shr] in E1; simplify_eq; rewrite ?Er, ?El; try done.
    right. rewrite iter_shr, Er by lia. apply Z.div_le_lower_bound; [lia|]. rewrite <- Z.pow_add_r by lia.
    etrans; [|apply Hd]. apply Z.pow_le_mono_r; lia. }
  destruct (round_le _ _ H0 H3) as [H4 H5]. set (q := round_nearest_even _ _) in *.
  destruct (shr_fexp 53 1024 q e1 loc_Exact) as [r2 e2] eqn:E2. unfold shr_fexp in E2.
  destruct (shr_le _ _ _ _ _ E2) as (H6 & H7 & H8); [by cbn|lia|]. cbn [shr_record_of_loc shr_m] in H8.
  pose proof (pw_pos e1 ltac:(lia)). destruct (shr_m r2) as [|m|m]; [done| |done].
  destruct (e2 <=? 1024 - 53); [|done]. split_and!; [done|lia|]. nia.
Qed.

Lemma iter_xO d : ∀ m, Z.pos (Pos.iter xO m d) = Z.pos m * 2 ^ Z.pos d.
Proof.
  induction d as [|d IH] using Pos.peano_ind; intros m; [cbn; lia|].
  rewrite Pos.iter_succ, Pos2Z.inj_xO, IH, Pos2Z.inj_succ, Z.pow_succ_r by lia. lia.
Qed.
Lemma shl_align_exact m e e' mz ez :
  shl_align m e e' = (mz, ez) → -1100 ≤ e → -1100 ≤ e' → ez = Z.min e e' ∧ Z.pos mz * pw ez = Z.pos m * pw e.
Proof.
  unfold shl_align. intros H He He'. destruct (e' - e) as [|p|p] eqn:Ed; simplify_eq; [split; [lia|done]..|].
  split; [lia|]. rewrite iter_xO. replace e with (ez + Z.pos p) by lia. rewrite pw_add by lia. lia.
Qed.
Lemma round_up s m ex :
  -900 ≤ ex →
  match binary_round 53 1024 s m ex with
  | S754_finite s' m' e => s' = s ∧ ex - 52 ≤ e ∧ Z.pos m' * pw e * 2 ^ 52 ≤ Z.pos m * pw ex * (2 ^ 52 + 1)
  | S754_infinity s' | S754_zero s' => s' = s
  | S754_nan => True
  end.
Proof.
  intros He. unfold binary_round. destruct (shl_align m ex _) as [mz ez] eqn:E.
  unfold fexp, emin in E. apply shl_align_exact in E as [-> <-]; [|lia..].
  pose proof (round_aux_up s (Z.pos mz) (Z.min ex (Z.max (Z.pos (digits2_pos m) + ex - 53) (3 - 1024 - 53))) loc_Exact
    ltac:(lia) ltac:(lia) ltac:(by left)) as H.
  destruct (binary_round_aux _ _ _ _ _ _); [done..|]. destruct H as (-> & ? & ?). split_and!; [done|lia|done].
Qed.

(** ** Signs *)
Definition signed (b : bool) (x : float64) : Prop :=
  match x with S754_finite s _ _ | S754_infinity s => s = b | _ => True end.
Lemma signed_round_aux s m e l : signed s (binary_round_aux 53 1024 s m e l).
Proof. unfold binary_round_aux. repeat case_match; done. Qed.
Lemma signed_round s m e : signed s (binary_round 53 1024 s m e).
Proof. unfold binary_round. case_match. apply signed_round_aux. Qed.
Lemma signed_of_int (b : bool) z : (if b then z ≤ 0 else 0 ≤ z) → signed b (f_of_int z).
Proof. intros Hz. unfold f_of_int, binary_normalize. destruct b, z; try lia; try done; apply signed_round. Qed.
Lemma signed_div b x m e : signed b x → signed b (f_div x (S754_finite false m e)).
Proof.
  destruct x as [s|s| |s m' e']; cbn [f_div SFdiv signed]; rewrite ?xorb_false_r; try done. intros ->.
  case_match. case_match. apply signed_round_aux.
Qed.
Lemma signed_add b x y : signed b x → signed b y → signed b (f_add x y).
Proof.
  unfold f_add. destruct x as [s|s| |s m e], y as [s'|s'| |s' m' e']; cbn [SFadd signed]; try done; try (by destruct s, s').
  intros -> ->. cbv zeta. set (ez := Z.min e e'). generalize (fst (shl_align m e ez)), (fst (shl_align m' e' ez)).
  intros p q. destruct b; cbn [cond_Zopp binary_normalize Z.opp Z.add]; apply signed_round.
Qed.
Lemma signed_mul a b x y : signed a x → signed b y → signed (xorb a b) (f_mul x y).
Proof.
  unfold f_mul. destruct x as [s|s| |s m e], y as [s'|s'| |s' m' e']; cbn [SFmul signed]; try done; intros -> ->; try done.
  apply signed_round_aux.
Qed.
Lemma signed_int64 x : signed true x → int64_of_float x ≤ 0.
Proof.
  unfold int64_of_float. destruct x as [s|s| |s m e]; cbn [f_trunc signed]; unfold min_int64, max_int64; intros Hs;
    try (by rewrite bool_decide_true); try lia. subst s.
  assert (0 ≤ if 0 <=? e then Z.pos m * 2 ^ e else Z.pos m / 2 ^ (- e)).
  { case_match; [apply Z.mul_nonneg_nonneg; [lia|apply Z.pow_nonneg; lia]|].
    apply Z.div_pos; [lia|]. apply Z.pow_pos_nonneg; lia. }
  case_bool_decide; lia.
Qed.

(** ** Upper bounds

    [x] is not negative and at most [num / den], with an exponent not below
    [- E]; overflow is possible. *)
Definition below (x : float64) (num den E : Z) : Prop :=
  match x with
  | S754_finite s m e => s = false ∧ - E ≤ e ∧ Z.pos m * pw e * den ≤ num
  | S754_infinity s => s = false
  | _ => True
  end.
Lemma below_of_int z : 0 ≤ z → below (f_of_int z) (z * pw 0 * (2 ^ 52 + 1)) (2 ^ 52) 52.
Proof.
  intros Hz. unfold f_of_int, binary_normalize. destruct z as [|p|p]; [done| |lia].
  pose proof (round_up false p 0 ltac:(lia)) as H. by destruct (binary_round _ _ _ _ _).
Qed.
Lemma below_add x y n1 n2 d E :
  0 ≤ n1 → 0 ≤ n2 → 0 < d → E ≤ 800 → below x n1 d E → below y n2 d E →
  below (f_add x y) ((n1 + n2) * (2 ^ 52 + 1)) (d * 2 ^ 52) (E + 52).
Proof.
  intros H1 H2 Hd HE. unfold f_add. destruct x as [s|s| |s m e], y as [s'|s'| |s' m' e']; cbn [SFadd below]; try done; try (by destruct s, s').
  - intros _ (-> & ? & Hy). split_and!; [done|lia|]. nia.
  - intros (-> & ? & Hx) _. split_and!; [done|lia|]. nia.
  - intros (-> & He & Hx) (-> & He' & Hy). cbv zeta.
    destruct (shl_align m e (Z.min e e')) as [p1 z1] eqn:E1, (shl_align m' e' (Z.min e e')) as [p2 z2] eqn:E2.
    apply shl_align_exact in E1 as [-> E1], E2 as [-> E2]; [|lia..]. cbn [fst cond_Zopp].
    change (binary_normalize 53 1024 (Z.pos p1 + Z.pos p2) (Z.min e e') false) with (binary_round 53 1024 false (p1 + p2) (Z.min e e')).
    replace (Z.min e (Z.min e e')) with (Z.min e e') in E1 by lia. replace (Z.min e' (Z.min e e')) with (Z.min e e') in E2 by lia.
    pose proof (round_up false (p1 + p2) (Z.min e e') ltac:(lia)) as H. destruct (binary_round _ _ _ _ _) as [| | |s0 m0 e0]; [done..|].
    destruct H as (-> & ? & Hm). split_and!; [done|lia|]. rewrite Pos2Z.inj_add, Z.mul_add_distr_r, E1, E2 in Hm.
    pose proof (Z.mul_le_mono_nonneg_r _ _ d ltac:(lia) Hm) as Hmd. nia.
Qed.
Lemma pw_mul a b : -1100 ≤ a → -1100 ≤ b → -1100 ≤ a + b → pw a * pw b = pw (a + b) * pw 0.
Proof. intros. unfold pw. rewrite <- !Z.pow_add_r by lia. f_equal. lia. Qed.
Lemma below_mul x y n1 d1 E1 n2 d2 E2 :
  0 ≤ n1 → 0 ≤ n2 → 0 < d1 → 0 < d2 → 0 ≤ E1 → 0 ≤ E2 → E1 + E2 ≤ 900 → below x n1 d1 E1 → below y n2 d2 E2 →
  below (f_mul x y) (n1 * n2 * (2 ^ 52 + 1)) (d1 * d2 * 2 ^ 52 * pw 0) (E1 + E2).
Proof.
  intros H1 H2 Hd1 Hd2 HE1 HE2 HE. unfold f_mul. destruct x as [s|s| |s m e], y as [s'|s'| |s' m' e']; cbn [SFmul below]; try done.
  { by intros -> ->. }
  { by intros -> (-> & _). }
  { by intros (-> & _) ->. }
  intros (-> & He & Hx) (-> & He' & Hy). cbn [xorb].
  pose proof (round_aux_up false (Z.pos (m * m')) (e + e') loc_Exact ltac:(lia) ltac:(lia) ltac:(by left)) as H.
  destruct (binary_round_aux _ _ _ _ _ _) as [| | |s0 m0 e0]; try done. destruct H as (-> & ? & Hm). split_and!; [done|lia|].
  rewrite Pos2Z.inj_mul in Hm. pose proof (pw_mul e e' ltac:(lia) ltac:(lia) ltac:(lia)) as Hp.
  pose proof (pw_pos 0 ltac:(lia)). pose proof (pw_pos e ltac:(lia)). pose proof (pw_pos e' ltac:(lia)).
  assert (Z.pos m * pw e * d1 * (Z.pos m' * pw e' * d2) ≤ n1 * n2) as Hxy by (apply Z.mul_le_mono_nonneg; nia).
  apply (Z.mul_le_mono_nonneg_r _ _ (d1 * d2 * pw 0)) in Hm; [|nia].
  apply (Z.mul_le_mono_nonneg_r _ _ (2 ^ 52 + 1)) in Hxy; [|lia].
  etrans; [|exact Hxy]. replace (Z.pos m0 * pw e0 * (d1 * d2 * 2 ^ 52 * pw 0)) with (Z.pos m0 * pw e0 * 2 ^ 52 * (d1 * d2 * pw 0)) by ring.
  etrans; [exact Hm|]. apply Z.eq_le_incl.
  transitivity (Z.pos m * Z.pos m' * (pw (e + e') * pw 0) * (2 ^ 52 + 1) * d1 * d2); [ring|rewrite <- Hp; ring].
Qed.
Lemma below_int64 x n d E : 0 ≤ n → 0 < d → E ≤ 1100 → below x n d E → int64_of_float x * pw 0 * d ≤ n.
Proof.
  intros Hn Hd HE Hx. pose proof (pw_pos 0 ltac:(lia)). assert (0 < pw 0 * d) by nia.
  assert (min_int64 * pw 0 * d ≤ n) as Hmin by (unfold min_int64; nia).
  unfold int64_of_float. destruct x as [s|s| |s m e]; cbn [f_trunc below] in *; [case_bool_decide; lia|done|done|].
  destruct Hx as (-> & He & Hx). case_bool_decide; [|done]. clear Hmin. etrans; [|exact Hx].
  apply Z.mul_le_mono_nonneg_r; [lia|]. destruct (Z.leb_spec 0 e).
  - rewrite <- Z.mul_assoc, (Z.mul_comm (2 ^ e)), <- pw_add by lia. by replace (0 + e) with e by lia.
  - pose proof (pw_pos e ltac:(lia)). replace (pw 0) with (pw e * 2 ^ (- e)) by (rewrite <- pw_add by lia; f_equal; lia).
    pose proof (Z.mul_div_le (Z.pos m) (2 ^ (- e)) ltac:(apply Z.pow_pos_nonneg; lia)). nia.
Qed.
(** Division by a number with a full significand. *)
Lemma below_div x n d E m2 e2 :
  0 ≤ n → 0 < d → 0 ≤ E ≤ 100 → -100 ≤ e2 ≤ 0 → digits2_pos m2 = 53%positive → below x n d E →
  below (f_div x (S754_finite false m2 e2)) (n * (2 ^ 52 + 1) * pw 0) (d * 2 ^ 52 * (Z.pos m2 * pw e2)) (E + 105).
Proof.
  intros Hn Hd HE He2 Hd2. unfold f_div. destruct x as [s|s| |s m1 e1]; cbn [SFdiv below]; rewrite ?xorb_false_r; try done.
  intros (-> & He & Hx). cbn [xorb]. unfold SFdiv_core_binary. cbn [Zdigits2]. rewrite Hd2. cbv zeta.
  pose proof (digits2_bounds m1) as Hb1. pose proof (digits2_bounds m2) as Hb2. rewrite Hd2 in Hb2.
  set (d1 := Z.pos (digits2_pos m1)) in *. assert (1 ≤ d1) by lia.
  unfold fexp, emin. set (e' := Z.min _ _). set (k := e1 - e2 - e').
  assert (0 ≤ k ∧ 53 ≤ d1 - 53 + k ∧ e1 - 105 ≤ e' ∧ -1000 ≤ e') as (Hk & Hk2 & He' & He'') by lia.
  assert (match k with Z0 => Z.pos m1 | Zpos _ => Z.shiftl (Z.pos m1) k | Zneg _ => 0 end = Z.pos m1 * 2 ^ k) as ->.
  { destruct k; [lia|apply Z.shiftl_mul_pow2; lia|lia]. }
  pose proof (Zdiv.Z_div_mod (Z.pos m1 * 2 ^ k) (Z.pos m2) ltac:(lia)) as Hq. destruct (Z.div_eucl _ _) as [q r]. destruct Hq as [Hq Hr].
  assert (2 ^ 52 ≤ q) as Hq52.
  { assert (2 ^ 52 * 2 ^ 53 ≤ Z.pos m1 * 2 ^ k) as Hle.
    { rewrite <- Z.pow_add_r by lia. etrans; [|apply Z.mul_le_mono_nonneg_r; [apply Z.pow_nonneg; lia|apply Hb1]].
      rewrite <- Z.pow_add_r by lia. apply Z.pow_le_mono_r; lia. }
    nia. }
  pose proof (round_aux_up false q e' (new_location (Z.pos m2) r) ltac:(lia) ltac:(lia) ltac:(by right)) as H0.
  destruct (binary_round_aux _ _ _ _ _ _) as [| | |s0 m0 e0]; [done..|]. destruct H0 as (-> & ? & Hm). split_and!; [done|lia|].
  pose proof (pw_pos e' ltac:(lia)). pose proof (pw_pos e2 ltac:(lia)). pose proof (pw_pos 0 ltac:(lia)).
  assert (pw e' * 2 ^ k * pw e2 = pw e1 * pw 0) as Hp.
  { rewrite <- pw_add by lia. replace (e' + k) with (e1 - e2) by lia. rewrite pw_mul by lia. f_equal. f_equal. lia. }
  assert (q * pw e' * (Z.pos m2 * pw e2) ≤ Z.pos m1 * (pw e1 * pw 0)) as Hqe.
  { rewrite <- Hp. assert (q * Z.pos m2 ≤ Z.pos m1 * 2 ^ k) as Hqm by lia.
    apply (Z.mul_le_mono_nonneg_r _ _ (pw e' * pw e2)) in Hqm; [|nia].
    etrans; [|etrans; [exact Hqm|]]; apply Z.eq_le_incl; ring. }
  apply (Z.mul_le_mono_nonneg_r _ _ (d * (Z.pos m2 * pw e2))) in Hm; [|nia].
  apply (Z.mul_le_mono_nonneg_r _ _ (d * (2 ^ 52 + 1))) in Hqe; [|nia].
  apply (Z.mul_le_mono_nonneg_r _ _ ((2 ^ 52 + 1) * pw 0)) in Hx; [|nia].
  replace (n * (2 ^ 52 + 1) * pw 0) with (n * ((2 ^ 52 + 1) * pw 0)) by ring.
  etrans; [|etrans; [exact Hm|etrans; [|etrans; [exact Hqe|etrans; [|exact Hx]]]]]; apply Z.eq_le_incl; ring.
Qed.

Lemma billion : f_of_int 1000000000 = S754_finite false 8388608000000000 (-23).
Proof. vm_compute. reflexivity. Qed.
Lemma billion_value : Z.pos 8388608000000000 * pw (-23) = 1000000000 * pw 0.
Proof. unfold pw. replace (0 + 1100) with (-23 + 1100 + 23) by lia. rewrite (Z.pow_add_r 2 (-23 + 1100) 23) by lia. lia. Qed.

#[local] Ltac nonneg :=
  repeat first [apply Z.mul_pos_pos | apply Z.mul_nonneg_nonneg | apply Z.add_nonneg_nonneg | assumption | apply Z.lt_le_incl]; lia.

(** ** Elapsed time by a rate

    [int64(d.Seconds() * float64(rate))] is at most [d * rate / 10^9], but
    for one part in [2^49], and nothing for a duration that is not positive. *)
Lemma elapsed_tokens d r :
  0 ≤ d → 0 ≤ r →
  int64_of_float (f_mul (f_seconds d) (f_of_int r)) * 1000000000 * 2 ^ 49 ≤ d * r * (2 ^ 49 + 1).
Proof.
  intros Hd Hr. unfold f_seconds. rewrite billion. change Time.Second with 1000000000.
  pose proof (Z.quot_rem' d 1000000000) as Hqr. pose proof (Z.quot_pos d 1000000000 Hd ltac:(lia)) as Hq.
  pose proof (Z.rem_nonneg d 1000000000 ltac:(lia) Hd) as Hm.
  set (q := Z.quot d 1000000000) in *. set (m := Z.rem d 1000000000) in *. clearbody q m.
  pose proof (pw_pos 0 ltac:(lia)) as H0. remember (pw 0) as w eqn:Ew.
  pose proof (below_of_int q Hq) as Bq. pose proof (below_of_int m Hm) as Bm. pose proof (below_of_int r Hr) as Br. rewrite <- Ew in Bq, Bm, Br.
  apply (below_div _ _ _ _ 8388608000000000 (-23)) in Bm; [|nonneg|lia|lia|lia|reflexivity]. rewrite billion_value, <- Ew in Bm. change (52 + 105) with 157 in Bm.
  set (P := 2 ^ 52 + 1) in *. set (Q := 2 ^ 52) in *.
  assert (0 < Q) as HQ by (unfold Q; lia). assert (0 < P) as HP by (unfold P; lia).
  assert (below (f_of_int q) (q * w * P * (Q * 1000000000 * w)) (Q * Q * (1000000000 * w)) 157) as Bq'.
  { revert Bq. destruct (f_of_int q) as [| | |s x e]; try done. cbn [below]. intros (-> & ? & Hb). split_and!; [done|lia|].
    apply (Z.mul_le_mono_nonneg_r _ _ (Q * 1000000000 * w)) in Hb; [|nonneg].
    etrans; [|exact Hb]. apply Z.eq_le_incl. ring. }
  assert (0 ≤ q * w * P * (Q * 1000000000 * w)) as Hn1 by nonneg. assert (0 ≤ m * w * P * P * w) as Hn2 by nonneg.
  assert (0 < Q * Q * (1000000000 * w)) as Hn3 by nonneg. assert (0 ≤ r * w * P) as Hn4 by nonneg.
  pose proof (below_add _ _ _ _ _ 157 Hn1 Hn2 Hn3 ltac:(lia) Bq' Bm) as Bs. fold Q in Bs. fold P in Bs. change (157 + 52) with 209 in Bs.
  assert (0 ≤ (q * w * P * (Q * 1000000000 * w) + m * w * P * P * w) * P) as Hn5 by nonneg.
  assert (0 < Q * Q * (1000000000 * w) * Q) as Hn6 by nonneg.
  pose proof (below_mul _ _ _ _ 209 _ _ 52 Hn5 Hn4 Hn6 HQ ltac:(lia) ltac:(lia) ltac:(lia) Bs Br) as Bp. fold Q in Bp. fold P in Bp. rewrite <- Ew in Bp.
  apply below_int64 in Bp; [|nonneg|nonneg|lia]. rewrite <- Ew in Bp. clear Ew. set (t := int64_of_float _) in *.
  assert (t * 1000000000 * Q ^ 5 ≤ d * r * P ^ 5) as Ht.
  { apply (Z.mul_le_mono_pos_r _ _ (w * w * w)); [nonneg|]. etrans; [|etrans; [exact Bp|]]; [apply Z.eq_le_incl; ring|].
    assert (q * w * P * (Q * 1000000000 * w) + m * w * P * P * w ≤ d * (P * P * w * w)) as Hs.
    { rewrite Hqr. assert (q * 1000000000 * (P * w * w) * Q ≤ q * 1000000000 * (P * w * w) * P)
        by (apply Z.mul_le_mono_nonneg_l; [nonneg|unfold P, Q; lia]). lia. }
    apply (Z.mul_le_mono_nonneg_r _ _ (P * (r * w * P) * P)) in Hs; [|nonneg].
    etrans; [|etrans; [exact Hs|]]; apply Z.eq_le_incl; ring. }
  apply (Z.mul_le_mono_pos_r _ _ (Q ^ 5)); [unfold Q; lia|].
  apply (Z.mul_le_mono_nonneg_r _ _ (2 ^ 49)) in Ht; [|lia].
  assert (d * r * (P ^ 5 * 2 ^ 49) ≤ d * r * ((2 ^ 49 + 1) * Q ^ 5)) as Hr5
    by (apply Z.mul_le_mono_nonneg_l; [nia|apply Z.leb_le; vm_compute; reflexivity]).
  etrans; [|etrans; [exact Ht|etrans; [|etrans; [exact Hr5|]]]]; apply Z.eq_le_incl; ring.
Qed.
Lemma elapsed_negative d r : d ≤ 0 → 0 ≤ r → int64_of_float (f_mul (f_seconds d) (f_of_int r)) ≤ 0.
Proof.
  intros Hd Hr. apply signed_int64, (signed_mul true false); [|by apply (signed_of_int false)].
  unfold f_seconds. rewrite billion. change Time.Second with 1000000000. apply signed_add.
  - apply (signed_of_int true). pose proof (Z.quot_opp_l (- d) 1000000000 ltac:(lia)) as E. rewrite Z.opp_involutive in E.
    pose proof (Z.quot_pos (- d) 1000000000 ltac:(lia) ltac:(lia)). lia.
  - apply signed_div, (signed_of_int true). apply Z.rem_nonpos; lia.
Qed.
