(* ===== verification/GoTime.v ===== *)
(** * Go's civil calendar and the RFC 3339 layout

    The parts of the [time] package the sources call: the proleptic Gregorian
    calendar behind [Time.Date] and [time.Date], and [time.Parse] and
    [Time.Format] with the layouts [time.RFC3339] and [time.RFC3339Nano]. An
    instant is a number of nanoseconds since the Unix epoch; all calendar
    fields are those of UTC. *)
From Stdlib Require Import ZArith Lia Ascii String.
From stdpp Require Import base strings list numbers.
From S2P Require Import Prelude GoStrings.
#[local] Open Scope string_scope.
#[local] Open Scope Z_scope.

(** ** Days and dates

    Years are counted from March, so that the leap day ends the year; an era
    is 400 years or 146097 days. *)
Definition is_leap (y : Z) : bool := (y mod 4 =? 0) && (negb (y mod 100 =? 0) || (y mod 400 =? 0)).

Definition days_in (m y : Z) : Z :=
  if m =? 2 then if is_leap y then 29 else 28
  else if bool_decide (m ∈ [4; 6; 9; 11]) then 30 else 31.

(** Days before year [n] of an era, and before the month [p] that counts
    from March. *)
Definition year_start (n : Z) : Z := 365 * n + n / 4 - n / 100.
Definition month_start (p : Z) : Z := (153 * p + 2) / 5.

Definition days_from_civil (y m d : Z) : Z :=
  let y := if m <=? 2 then y - 1 else y in
  (y / 400) * 146097 + year_start (y mod 400) +
  month_start (m + (if m <=? 2 then 9 else -3)) + (d - 1) - 719468.

(** The century, the four-year cycle and the year within it: only the last
    one of each may run one day over. *)
Definition year_of_era (doe : Z) : Z :=
  let c := Z.min 3 (doe / 36524) in
  let r := doe - 36524 * c in
  let q := r / 1461 in
  100 * c + 4 * q + Z.min 3 ((r - 1461 * q) / 365).

Definition civil_from_days (z : Z) : Z * Z * Z :=
  let z := z + 719468 in
  let doe := z mod 146097 in
  let yoe := year_of_era doe in
  let doy := doe - year_start yoe in
  let p := (5 * doy + 2) / 153 in
  let m := if p <? 10 then p + 3 else p - 9 in
  (yoe + (z / 146097) * 400 + (if m <=? 2 then 1 else 0), m, doy - month_start p + 1).

Definition valid_date (y m d : Z) : Prop := 1 ≤ m ≤ 12 ∧ 1 ≤ d ≤ days_in m y.

#[local] Ltac Zify.zify_post_hook ::= Z.to_euclidean_division_equations.

Lemma year_start_parts c q k :
  0 ≤ c ≤ 3 → 0 ≤ q ≤ 24 → 0 ≤ k ≤ 3 →
  year_start (100 * c + 4 * q + k) = 36524 * c + 1461 * q + 365 * k.
Proof.
  intros Hc Hq Hk. unfold year_start.
  assert ((100 * c + 4 * q + k) / 4 = 25 * c + q) as -> by lia.
  assert ((100 * c + 4 * q + k) / 100 = c) as -> by lia. lia.
Qed.

(** The last day of a March year exists in leap years only. *)
Lemma is_leap_parts e c q k :
  0 ≤ c ≤ 3 → 0 ≤ q ≤ 24 → 0 ≤ k ≤ 3 →
  is_leap (100 * c + 4 * q + k + e * 400 + 1) = true ↔ k = 3 ∧ (q = 24 → c = 3).
Proof.
  intros Hc Hq Hk. unfold is_leap.
  rewrite andb_true_iff, orb_true_iff, negb_true_iff, !Z.eqb_eq, Z.eqb_neq. lia.
Qed.

(** A day of an era, by its parts. *)
Lemma year_of_era_parts c q k doy :
  0 ≤ c ≤ 3 → 0 ≤ q ≤ 24 → 0 ≤ k ≤ 3 → 0 ≤ doy ≤ 365 →
  (doy = 365 → k = 3 ∧ (q = 24 → c = 3)) →
  year_of_era (36524 * c + 1461 * q + 365 * k + doy) = 100 * c + 4 * q + k.
Proof.
  intros Hc Hq Hk Hd Hl. unfold year_of_era. cbv zeta.
  assert (Z.min 3 ((36524 * c + 1461 * q + 365 * k + doy) / 36524) = c) as ->.
  { destruct (decide (doy = 365)) as [E|]; [|lia]. destruct (Hl E) as [-> Hqc].
    destruct (decide (q = 24)) as [->|]; [rewrite (Hqc eq_refl); subst; reflexivity|lia]. }
  assert ((36524 * c + 1461 * q + 365 * k + doy - 36524 * c) / 1461 = q) as -> by lia.
  lia.
Qed.

Lemma era_parts doe :
  0 ≤ doe < 146097 →
  ∃ c q k doy, 0 ≤ c ≤ 3 ∧ 0 ≤ q ≤ 24 ∧ 0 ≤ k ≤ 3 ∧ 0 ≤ doy ≤ 365 ∧
    (doy = 365 → k = 3 ∧ (q = 24 → c = 3)) ∧ doe = 36524 * c + 1461 * q + 365 * k + doy.
Proof.
  intros Hd. set (c := Z.min 3 (doe / 36524)). set (r := doe - 36524 * c).
  assert (0 ≤ c ≤ 3) by (unfold c; lia).
  assert (0 ≤ r ≤ 36524 ∧ (r = 36524 → c = 3)) by (unfold r, c; lia).
  set (q := r / 1461). set (s := r - 1461 * q). assert (0 ≤ q ≤ 24) by (unfold q; lia).
  assert (0 ≤ s ≤ 1460) by (unfold s, q; lia).
  set (k := Z.min 3 (s / 365)). exists c, q, k, (s - 365 * k).
  assert (0 ≤ k ≤ 3) by (unfold k; lia). assert (0 ≤ s - 365 * k ≤ 365) by (unfold k; lia).
  assert (s - 365 * k = 365 → k = 3 ∧ s = 1460) by (unfold k; lia).
  split_and!; try lia; unfold s, r in *; lia.
Qed.

Lemma days_in_bound m y : 28 ≤ days_in m y ≤ 31.
Proof. unfold days_in. repeat case_match; lia. Qed.

(** Months from March: [month_start] and its inverse. *)
Lemma month_parts p d :
  0 ≤ p ≤ 11 → 0 ≤ d → month_start p + d < month_start (p + 1) →
  (5 * (month_start p + d) + 2) / 153 = p.
Proof. unfold month_start. intros. lia. Qed.

Lemma month_of_doy doy :
  0 ≤ doy ≤ 365 → let p := (5 * doy + 2) / 153 in
  0 ≤ p ≤ 11 ∧ month_start p ≤ doy < month_start (p + 1).
Proof. unfold month_start. intros. cbv zeta. lia. Qed.

Lemma days_in_month_start p y :
  0 ≤ p ≤ 11 → let m := if p <? 10 then p + 3 else p - 9 in
  days_in m y = if p =? 11 then if is_leap y then 29 else 28
                else month_start (p + 1) - month_start p.
Proof.
  intros Hp. assert (In p [0;1;2;3;4;5;6;7;8;9;10;11]) as Hin by (simpl; lia).
  repeat (destruct Hin as [<-|Hin]; [reflexivity|]). destruct Hin.
Qed.

(** The date of a day, from its era, its place in the era and its month. *)
Lemma civil_parts e c q k p d :
  0 ≤ c ≤ 3 → 0 ≤ q ≤ 24 → 0 ≤ k ≤ 3 → 0 ≤ p ≤ 11 → 0 ≤ d →
  month_start p + d < month_start (p + 1) →
  (month_start p + d = 365 → k = 3 ∧ (q = 24 → c = 3)) → month_start p + d ≤ 365 →
  let m := if p <? 10 then p + 3 else p - 9 in
  let y := 100 * c + 4 * q + k + e * 400 + (if m <=? 2 then 1 else 0) in
  let z := e * 146097 + (36524 * c + 1461 * q + 365 * k) + month_start p + d - 719468 in
  civil_from_days z = (y, m, d + 1) ∧ days_from_civil y m (d + 1) = z.
Proof.
  intros Hc Hq Hk Hp Hd Hm Hl Hu m y z.
  assert (0 ≤ month_start p) by (unfold month_start; lia).
  assert (m + (if m <=? 2 then 9 else -3) = p) as Hmp.
  { unfold m. destruct (Z.ltb_spec p 10); [|destruct (Z.leb_spec (p - 9) 2); lia].
    destruct (Z.leb_spec (p + 3) 2); lia. }
  split.
  - unfold civil_from_days. cbv zeta.
    replace (z + 719468) with
      (36524 * c + 1461 * q + 365 * k + (month_start p + d) + e * 146097) by (unfold z; lia).
    rewrite Z_mod_plus_full, Z_div_plus_full by lia.
    rewrite (Z.mod_small (36524 * c + _ + _ + _)), (Z.div_small (36524 * c + _ + _ + _))
      by (destruct (decide (month_start p + d = 365)) as [E|]; [destruct (Hl E)|]; lia).
    rewrite year_of_era_parts by lia. rewrite year_start_parts by lia.
    replace (36524 * c + 1461 * q + 365 * k + (month_start p + d) -
             (36524 * c + 1461 * q + 365 * k)) with (month_start p + d) by lia.
    rewrite month_parts by lia. fold m. unfold y. assert (month_start p + d - month_start p + 1 = d + 1) as -> by lia. reflexivity.
  - unfold days_from_civil. cbv zeta. rewrite Hmp.
    assert ((if m <=? 2 then y - 1 else y) = 100 * c + 4 * q + k + e * 400) as ->
      by (unfold y; destruct (m <=? 2); lia).
    rewrite Z_mod_plus_full, Z_div_plus_full by lia.
    rewrite (Z.mod_small (100 * c + _ + _)), (Z.div_small (100 * c + _ + _)) by lia.
    rewrite year_start_parts by lia. unfold z. lia.
Qed.

(** The calendar is a bijection between days and valid dates. *)
Lemma civil_from_days_correct z :
  let '(y, m, d) := civil_from_days z in days_from_civil y m d = z ∧ valid_date y m d.
Proof.
  destruct (era_parts ((z + 719468) mod 146097)) as (c & q & k & doy & Hc & Hq & Hk & Hd & Hl & E);
    [apply Z.mod_pos_bound; lia|].
  pose proof (month_of_doy doy Hd) as [Hp [Hp1 Hp2]]. set (p := (5 * doy + 2) / 153) in *.
  pose proof (civil_parts ((z + 719468) / 146097) c q k p (doy - month_start p)
    Hc Hq Hk Hp ltac:(lia) ltac:(lia) ltac:(intros; apply Hl; lia) ltac:(lia)) as [Hciv Hday].
  cbv zeta in Hciv, Hday.
  replace ((z + 719468) / 146097 * 146097 + (36524 * c + 1461 * q + 365 * k) + month_start p +
           (doy - month_start p) - 719468) with z in Hciv, Hday
    by (pose proof (Z_div_mod_eq_full (z + 719468) 146097); lia).
  rewrite Hciv. split; [done|]. set (m := if p <? 10 then p + 3 else p - 9) in *.
  split; [unfold m; destruct (Z.ltb_spec p 10); lia|].
  unfold m at 1. rewrite days_in_month_start by done.
  destruct (Z.eqb_spec p 11) as [E11|]; [|lia].
  assert (m = 2) as -> by (unfold m; rewrite E11; reflexivity). rewrite E11 in *.
  change (month_start 11) with 337 in *. change (2 <=? 2) with true. cbv iota.
  destruct (is_leap _) eqn:El; [lia|].
  destruct (decide (doy = 365)) as [Ed|]; [|lia].
  rewrite (proj2 (is_leap_parts _ c q k Hc Hq Hk) (Hl Ed)) in El. done.
Qed.

Lemma civil_of_days_from_civil y m d :
  valid_date y m d → civil_from_days (days_from_civil y m d) = (y, m, d).
Proof.
  intros [Hm Hd].
  set (y' := if m <=? 2 then y - 1 else y). set (p := m + (if m <=? 2 then 9 else -3)).
  assert (0 ≤ p ≤ 11) as Hp by (unfold p; destruct (Z.leb_spec m 2); lia).
  assert (m = if p <? 10 then p + 3 else p - 9) as Em
    by (unfold p; destruct (Z.leb_spec m 2); case_match; lia).
  set (n := y' mod 400). assert (0 ≤ n < 400) by (apply Z.mod_pos_bound; lia).
  set (c := n / 100). set (q := (n mod 100) / 4). set (k := n mod 4).
  assert (n = 100 * c + 4 * q + k) as En by (unfold c, q, k; lia).
  assert (0 ≤ c ≤ 3) as Hc by (unfold c; lia). assert (0 ≤ q ≤ 24) as Hq by (unfold q; lia).
  assert (0 ≤ k ≤ 3) as Hk by (unfold k; lia).
  assert (y = 100 * c + 4 * q + k + (y' / 400) * 400 + (if m <=? 2 then 1 else 0)) as Ey.
  { rewrite <- En. unfold n. pose proof (Z_div_mod_eq_full y' 400). unfold y' in *.
    destruct (m <=? 2); lia. }
  rewrite Em, days_in_month_start in Hd by done.
  assert (month_start p + (d - 1) < month_start (p + 1) ∧ month_start p + (d - 1) ≤ 365 ∧
          (month_start p + (d - 1) = 365 → k = 3 ∧ (q = 24 → c = 3))) as (H1 & H2 & H3).
  { destruct (Z.eqb_spec p 11) as [E11|].
    - rewrite E11 in *. change (month_start 11) with 337. change (month_start (11 + 1)) with 367.
      destruct (is_leap y) eqn:El; [|split_and!; lia]. split_and!; [lia|lia|]. intros _.
      assert (m = 2) as E2 by (rewrite Em; reflexivity). rewrite E2 in Ey.
      rewrite Ey in El. change (2 <=? 2) with true in El. cbv iota in El.
      by apply is_leap_parts in El.
    - assert (month_start (p + 1) ≤ 337) by (unfold month_start; lia). split_and!; lia. }
  pose proof (civil_parts (y' / 400) c q k p (d - 1) Hc Hq Hk Hp ltac:(lia) H1 H3 H2) as [Hciv Hday].
  cbv zeta in Hciv, Hday. rewrite <- Em, <- Ey in Hciv, Hday.
  replace (d - 1 + 1) with d in Hciv, Hday by lia. by rewrite Hday, Hciv.
Qed.

(** ** Instants and calendar fields *)
Definition Day : Z := 86400 * Time.Second.

Definition Unix (t : Time) : Z := t / Time.Second.
Definition UnixSeconds (s : Z) : Time := s * Time.Second.

(** [Time.Date] and [Time.Clock]. *)
Definition civil (t : Time) : Z * Z * Z := civil_from_days (t / Day).
Definition clock (t : Time) : Z * Z * Z :=
  let s := t / Time.Second mod 86400 in (s / 3600, s / 60 mod 60, s mod 60).

(** [time.Date]: months and days out of range roll over. *)
Definition Date (y m d hh mi ss ns : Z) : Time :=
  (((days_from_civil (y + (m - 1) / 12) ((m - 1) mod 12 + 1) 1 + (d - 1)) * 24 + hh) * 3600 +
   mi * 60 + ss) * Time.Second + ns.

Definition AddDate (t : Time) (years months days : Z) : Time :=
  let '(y, m, d) := civil t in
  let '(hh, mi, ss) := clock t in
  Date (y + years) (m + months) (d + days) hh mi ss (t mod Time.Second).

Lemma days_from_civil_linear y m d k :
  days_from_civil y m (d + k) = days_from_civil y m d + k.
Proof. unfold days_from_civil. lia. Qed.

Lemma Date_valid y m d hh mi ss ns :
  1 ≤ m ≤ 12 →
  Date y m d hh mi ss ns =
  (days_from_civil y m d * 86400 + hh * 3600 + mi * 60 + ss) * Time.Second + ns.
Proof.
  intros Hm. unfold Date. rewrite Z.div_small, Z.mod_small by lia.
  rewrite Z.add_0_r, Z.sub_add. replace d with (1 + (d - 1)) at 2 by lia.
  rewrite days_from_civil_linear. lia.
Qed.

(** The fields of an instant give it back. *)
Lemma Date_fields t :
  let '(y, m, d) := civil t in let '(hh, mi, ss) := clock t in
  Date y m d hh mi ss (t mod Time.Second) = t.
Proof.
  unfold civil, clock. pose proof (civil_from_days_correct (t / Day)) as Hc.
  destruct (civil_from_days (t / Day)) as [[y m] d]. destruct Hc as [Hd [Hm _]].
  rewrite Date_valid, Hd by done. unfold Day, Time.Second, Time.Millisecond. lia.
Qed.

(** ** [time.Parse(time.RFC3339, s)]

    The strict reader and the general one it falls back to accept the same
    instants where both accept; the general one also takes one digit for the
    hour, a comma before the fraction and zone offsets up to 24:60. A fraction
    is read although the layout has none, so [time.RFC3339Nano] parses
    alike. *)
Definition getnum (fixed : bool) (s : string) : option (Z * string) :=
  match s with
  | EmptyString => None
  | String c1 s1 =>
      match digit_val c1 with
      | None => None
      | Some a =>
          match s1 with
          | String c2 s2 =>
              match digit_val c2 with
              | Some b => Some (a * 10 + b, s2)
              | None => if fixed then None else Some (a, s1)
              end
          | EmptyString => if fixed then None else Some (a, s1)
          end
      end
  end.

Definition literal (c : ascii) (s : string) : option string :=
  match s with String c' s => if decide (c' = c) then Some s else None | EmptyString => None end.

Definition in_range (lo hi : Z) (r : Z * string) : option (Z * string) :=
  if (lo <=? fst r) && (fst r <=? hi) then Some r else None.

Definition get_year (s : string) : option (Z * string) :=
  '(a, s) ← getnum true s; '(b, s) ← getnum true s; Some (a * 100 + b, s).

Fixpoint span_digits (s : string) : list Z * string :=
  match s with
  | EmptyString => ([], EmptyString)
  | String c s' =>
      match digit_val c with
      | Some d => let '(ds, r) := span_digits s' in (d :: ds, r)
      | None => ([], s)
      end
  end.

Definition decimal (ds : list Z) : Z := foldl (λ a d, a * 10 + d) 0 ds.

(** [parseNanoseconds]: nine digits at most are used. *)
Definition nanoseconds (ds : list Z) : Z :=
  let ds := take 9 ds in decimal ds * 10 ^ (9 - Z.of_nat (List.length ds)).

Definition get_fraction (s : string) : Z * string :=
  match s with
  | String c s' =>
      if bool_decide (c = "."%char) || bool_decide (c = ","%char) then
        match span_digits s' with
        | ([], _) => (0, s)
        | (ds, r) => (nanoseconds ds, r)
        end
      else (0, s)
  | EmptyString => (0, s)
  end.

(** The offset of the zone in seconds. *)
Definition get_zone (s : string) : option (Z * string) :=
  match s with
  | String "Z" s => Some (0, s)
  | String c s =>
      '(hr, s) ← getnum true s; s ← literal ":" s; '(mm, s) ← getnum true s;
      if (hr <=? 24) && (mm <=? 60) then
        if decide (c = "+"%char) then Some ((hr * 60 + mm) * 60, s)
        else if decide (c = "-"%char) then Some (- ((hr * 60 + mm) * 60), s) else None
      else None
  | EmptyString => None
  end.

Definition ParseRFC3339 (s : string) : option Time :=
  '(y, s) ← get_year s; s ← literal "-" s;
  '(m, s) ← getnum true s ≫= in_range 1 12; s ← literal "-" s;
  '(d, s) ← getnum true s; s ← literal "T" s;
  '(hh, s) ← getnum false s ≫= in_range 0 23; s ← literal ":" s;
  '(mi, s) ← getnum true s ≫= in_range 0 59; s ← literal ":" s;
  '(ss, s) ← getnum true s ≫= in_range 0 59;
  let '(ns, s) := get_fraction s in
  '(off, s) ← get_zone s;
  match s with
  | EmptyString =>
      if (1 <=? d) && (d <=? days_in m y) then Some (Date y m d hh mi ss ns - off * Time.Second)
      else None
  | _ => None
  end.

(** ** [t.UTC().Format(time.RFC3339)] *)
Definition digit_char (d : Z) : ascii := byte_of (Z.to_nat (48 + d)).
Definition pad2 (n : Z) (k : string) : string := String (digit_char (n / 10)) (String (digit_char (n mod 10)) k).

(** [appendInt(b, year, 4)]. *)
Definition pad_year (y : Z) (k : string) : string :=
  if (0 <=? y) && (y <=? 9999) then pad2 (y / 100) (pad2 (y mod 100) k)
  else if y <? 0 then
    if - y <=? 9999 then String "-" (pad2 (- y / 100) (pad2 (- y mod 100) k)) else Itoa y +:+ k
  else Itoa y +:+ k.

Definition FormatRFC3339 (t : Time) : string :=
  let '(y, m, d) := civil t in
  let '(hh, mi, ss) := clock t in
  pad_year y (String "-" (pad2 m (String "-" (pad2 d (String "T" (pad2 hh (String ":"
    (pad2 mi (String ":" (pad2 ss "Z"))))))))))%string.

Example ParseRFC3339_ex :
  map ParseRFC3339 ["1970-01-02T00:00:01.5Z"; "2024-02-29T7:04:05,25+01:00"; "2023-02-29T00:00:00Z";
                    "2024-02-29T00:00:00"; "2024-1-29T00:00:00Z"]%string =
  [Some (86401500000000); Some 1709186645250000000; None; None; None].
Proof. vm_compute. reflexivity. Qed.

Example FormatRFC3339_ex : FormatRFC3339 1709186645250000000 = "2024-02-29T06:04:05Z".
Proof. vm_compute. reflexivity. Qed.

Lemma digit_val_char d : 0 ≤ d ≤ 9 → digit_val (digit_char d) = Some d.
Proof.
  intros Hd. assert (In d [0;1;2;3;4;5;6;7;8;9]) as Hin by (simpl; lia).
  repeat (destruct Hin as [<-|Hin]; [reflexivity|]). destruct Hin.
Qed.

Lemma getnum_pad2 fixed n k : 0 ≤ n ≤ 99 → getnum fixed (pad2 n k) = Some (n, k).
Proof.
  intros Hn. unfold pad2, getnum. rewrite !digit_val_char by lia.
  do 2 f_equal. lia.
Qed.

Lemma get_year_pad y k : 0 ≤ y ≤ 9999 → get_year (pad_year y k) = Some (y, k).
Proof.
  intros Hy. unfold get_year, pad_year.
  replace ((0 <=? y) && (y <=? 9999)) with true by lia.
  rewrite getnum_pad2 by lia. cbn -[getnum pad2]. rewrite getnum_pad2 by lia.
  cbn -[getnum pad2 Z.mul Z.add]. do 2 f_equal. lia.
Qed.

Lemma in_range_ok lo hi n s : lo ≤ n ≤ hi → in_range lo hi (n, s) = Some (n, s).
Proof. intros Hn. unfold in_range. simpl. by replace ((lo <=? n) && (n <=? hi)) with true by lia. Qed.

Lemma literal_hit c s : literal c (String c s) = Some s.
Proof. simpl. by rewrite decide_True. Qed.

Lemma option_bind_Some {A B} (x : A) (f : A → option B) : (Some x ≫= f) = f x.
Proof. reflexivity. Qed.

Lemma clock_bounds t : let '(hh, mi, ss) := clock t in 0 ≤ hh ≤ 23 ∧ 0 ≤ mi ≤ 59 ∧ 0 ≤ ss ≤ 59.
Proof. unfold clock. lia. Qed.

(** Parsing a printed instant gives it back, to the second, in the years the
    layout can write. *)
Lemma ParseRFC3339_Format t :
  0 ≤ fst (fst (civil t)) ≤ 9999 →
  ParseRFC3339 (FormatRFC3339 t) = Some (t - t mod Time.Second).
Proof.
  intros Hy. unfold FormatRFC3339. pose proof (Date_fields t) as Ht.
  pose proof (clock_bounds t) as Hclk. unfold civil in *.
  pose proof (civil_from_days_correct (t / Day)) as Hc.
  destruct (civil_from_days (t / Day)) as [[y m] d]. destruct Hc as [_ [Hm Hd]].
  destruct (clock t) as [[hh mi] ss]. destruct Hclk as (Hh & Hmi & Hs). simpl in Hy.
  pose proof (days_in_bound m y). unfold ParseRFC3339.
  rewrite get_year_pad by done.
  repeat first [ rewrite option_bind_Some; cbv beta iota | rewrite literal_hit
               | rewrite getnum_pad2 by lia | rewrite in_range_ok by lia ].
  change (get_fraction "Z") with (0, "Z"). cbv beta iota. change (get_zone "Z") with (Some (0, "")).
  rewrite option_bind_Some. cbv beta iota.
  replace ((1 <=? d) && (d <=? days_in m y)) with true by lia. f_equal.
  unfold Date in *. clear - Ht. set (r := t mod Time.Second) in *. lia.
Qed.

(** The layout prints whole seconds. *)
Lemma FormatRFC3339_second t : FormatRFC3339 (t - t mod Time.Second) = FormatRFC3339 t.
Proof.
  unfold FormatRFC3339, civil, clock.
  assert ((t - t mod Time.Second) / Time.Second = t / Time.Second) as ->
    by (unfold Time.Second, Time.Millisecond; lia).
  assert ((t - t mod Time.Second) / Day = t / Day) as -> by (unfold Day, Time.Second, Time.Millisecond; lia).
  done.
Qed.

(** ** Months

    Months are numbered through: number [12 * y + m - 1] is month [m] of year
    [y]. *)
Definition month_day (i : Z) : Z := days_from_civil (i / 12) (i mod 12 + 1) 1.
Definition month_time (i : Z) : Time := month_day i * Day.
Definition month_number (t : Time) : Z := let '(y, m, _) := civil t in 12 * y + m - 1.

Lemma Date_month y m d hh mi ss ns :
  Date y m d hh mi ss ns =
  month_time (12 * y + m - 1) + (((d - 1) * 24 + hh) * 3600 + mi * 60 + ss) * Time.Second + ns.
Proof.
  unfold Date, month_time, month_day, Day.
  replace ((12 * y + m - 1) / 12) with (y + (m - 1) / 12) by lia.
  replace ((12 * y + m - 1) mod 12) with ((m - 1) mod 12) by lia. lia.
Qed.

Lemma year_start_linear y :
  (y / 400) * 146097 + year_start (y mod 400) = 365 * y + y / 4 - y / 100 + y / 400.
Proof. unfold year_start. lia. Qed.

Lemma leap_step y :
  y / 4 - y / 100 + y / 400 =
  (y - 1) / 4 - (y - 1) / 100 + (y - 1) / 400 + (if is_leap y then 1 else 0).
Proof.
  assert (∀ n, 0 < n → y / n = (y - 1) / n + (if y mod n =? 0 then 1 else 0)) as Hstep.
  { intros n Hn. destruct (Z.eqb_spec (y mod n) 0) as [E|E].
    - pose proof (Z_div_mod_eq_full y n). symmetry. rewrite E in *.
      assert ((y - 1) / n = y / n - 1); [|lia]. symmetry. apply (Z.div_unique_pos _ _ _ (n - 1)); lia.
    - pose proof (Z_div_mod_eq_full y n). pose proof (Z.mod_pos_bound y n Hn).
      rewrite Z.add_0_r. apply (Z.div_unique_pos _ _ _ (y mod n - 1)); lia. }
  rewrite (Hstep 4), (Hstep 100), (Hstep 400) by lia. unfold is_leap.
  destruct (Z.eqb_spec (y mod 4) 0), (Z.eqb_spec (y mod 100) 0), (Z.eqb_spec (y mod 400) 0);
    cbn [andb orb negb]; lia.
Qed.

(** The next month starts when this one ends. *)
Lemma days_from_civil_next y m :
  1 ≤ m ≤ 12 →
  days_from_civil (y + m / 12) (m mod 12 + 1) 1 = days_from_civil y m 1 + days_in m y.
Proof.
  intros Hm. set (p := m + (if m <=? 2 then 9 else -3)).
  assert (0 ≤ p ≤ 11) as Hp by (unfold p; destruct (Z.leb_spec m 2); lia).
  assert (days_in m y = if p =? 11 then if is_leap y then 29 else 28
                        else month_start (p + 1) - month_start p) as ->.
  { rewrite <- days_in_month_start by done. f_equal. unfold p.
    destruct (Z.leb_spec m 2); case_match; lia. }
  unfold days_from_civil. rewrite !year_start_linear. fold p.
  pose proof (leap_step y). pose proof (leap_step (y + 1)).
  destruct (Z.eqb_spec m 12) as [->|Hne].
  - change p with 9. change (12 mod 12 + 1) with 1. change (1 <=? 2) with true. change (12 <=? 2) with false. cbv iota.
    change (9 =? 11) with false. cbv iota. unfold month_start. change (12 / 12) with 1. lia.
  - assert (m / 12 = 0) as -> by lia. assert (m mod 12 = m) as -> by lia. rewrite Z.add_0_r.
    destruct (Z.eqb_spec p 11) as [E|E].
    + assert (m = 2) as -> by (unfold p in E; destruct (Z.leb_spec m 2); lia).
      rewrite E. change (2 + 1 <=? 2) with false. change (2 <=? 2) with true. cbv iota.
      change (month_start (2 + 1 + -3)) with 0. change (month_start 11) with 337.
      destruct (is_leap y); lia.
    + assert (m ≠ 2) by (intros ->; by apply E).
      assert ((m + 1 <=? 2) = (m <=? 2)) as -> by (destruct (Z.leb_spec m 2), (Z.leb_spec (m + 1) 2); done || lia).
      replace (m + 1 + (if m <=? 2 then 9 else -3)) with (p + 1) by (unfold p; lia).
      destruct (m <=? 2); lia.
Qed.

Lemma month_day_next i : month_day i + 28 ≤ month_day (i + 1) ≤ month_day i + 31.
Proof.
  unfold month_day.
  pose proof (days_from_civil_next (i / 12) (i mod 12 + 1) ltac:(lia)) as Hn.
  replace ((i + 1) / 12) with (i / 12 + (i mod 12 + 1) / 12) by lia.
  replace ((i + 1) mod 12 + 1) with ((i mod 12 + 1) mod 12 + 1) by lia.
  rewrite Hn. pose proof (days_in_bound (i mod 12 + 1) (i / 12)). lia.
Qed.

Lemma month_day_lt i j : i < j → month_day i + 28 ≤ month_day j.
Proof.
  intros Hij. assert (∃ n, j = i + 1 + Z.of_nat n) as [n ->] by (exists (Z.to_nat (j - i - 1)); lia).
  clear Hij. induction n as [|n IH].
  - replace (i + 1 + Z.of_nat 0) with (i + 1) by lia. pose proof (month_day_next i). lia.
  - replace (i + 1 + Z.of_nat (S n)) with (i + 1 + Z.of_nat n + 1) by lia.
    pose proof (month_day_next (i + 1 + Z.of_nat n)). lia.
Qed.

Lemma month_time_lt i j : i < j ↔ month_time i < month_time j.
Proof.
  unfold month_time, Day, Time.Second, Time.Millisecond. split.
  - intros H%month_day_lt. lia.
  - intros H. destruct (decide (i < j)); [done|exfalso].
    destruct (decide (i = j)) as [->|]; [lia|]. pose proof (month_day_lt j i ltac:(lia)). lia.
Qed.

(** An instant lies in its month. *)
Lemma month_number_bounds t :
  month_time (month_number t) ≤ t < month_time (month_number t + 1).
Proof.
  unfold month_number, civil. pose proof (civil_from_days_correct (t / Day)) as Hc.
  destruct (civil_from_days (t / Day)) as [[y m] d]. destruct Hc as [Hd [Hm Hdd]].
  assert (month_day (12 * y + m - 1) = days_from_civil y m 1) as E1.
  { unfold month_day. replace ((12 * y + m - 1) / 12) with y by lia.
    by replace ((12 * y + m - 1) mod 12 + 1) with m by lia. }
  assert (month_day (12 * y + m - 1 + 1) = days_from_civil y m 1 + days_in m y) as E2.
  { rewrite <- days_from_civil_next by done. unfold month_day.
    replace ((12 * y + m - 1 + 1) / 12) with (y + m / 12) by lia.
    by replace ((12 * y + m - 1 + 1) mod 12) with (m mod 12) by lia. }
  unfold month_time. rewrite E1, E2.
  replace (days_from_civil y m d) with (days_from_civil y m 1 + (d - 1)) in Hd
    by (rewrite <- days_from_civil_linear; f_equal; lia).
  unfold Day, Time.Second, Time.Millisecond in *. lia.
Qed.

Lemma month_number_unique t i : month_time i ≤ t < month_time (i + 1) → month_number t = i.
Proof.
  intros Hi. pose proof (month_number_bounds t) as Hn.
  destruct (Z.lt_total (month_number t) i) as [H|[H|H]]; [|done|]; exfalso.
  - destruct (decide (month_number t + 1 = i)) as [E|]; [rewrite E in Hn; lia|].
    pose proof (proj1 (month_time_lt (month_number t + 1) i) ltac:(lia)). lia.
  - destruct (decide (i + 1 = month_number t)) as [E|]; [rewrite E in Hi; lia|].
    pose proof (proj1 (month_time_lt (i + 1) (month_number t)) ltac:(lia)). lia.
Qed.

(** The calendar fields of the first instant of a month. *)
Lemma civil_month_time i : civil (month_time i) = (i / 12, i mod 12 + 1, 1).
Proof.
  unfold civil, month_time. rewrite Z.div_mul by (unfold Day, Time.Second, Time.Millisecond; lia).
  apply civil_of_days_from_civil. pose proof (days_in_bound (i mod 12 + 1) (i / 12)).
  split; lia.
Qed.

Lemma clock_month_time i : clock (month_time i) = (0, 0, 0).
Proof.
  unfold clock, month_time. replace (month_day i * Day) with (month_day i * 86400 * Time.Second)
    by (unfold Day; lia).
  rewrite Z.div_mul by (unfold Time.Second, Time.Millisecond; lia). by rewrite Z_mod_mult.
Qed.

Lemma AddDate_month t n : AddDate t 0 n 0 = t + (month_time (month_number t + n) - month_time (month_number t)).
Proof.
  pose proof (Date_fields t) as Ht. unfold AddDate, month_number.
  destruct (civil t) as [[y m] d], (clock t) as [[hh mi] ss]. rewrite Date_month in *.
  replace (12 * (y + 0) + (m + n) - 1) with (12 * y + m - 1 + n) by lia. lia.
Qed.
