(* ===== verification/GoBase64.v ===== *)
(** * Unpadded URL-safe base64

    [base64.RawURLEncoding] of the standard library: [EncodeToString] and
    [DecodeString], which skips line breaks and ignores the unused bits of
    the last character. *)
From Stdlib Require Import ZArith Lia Ascii String.
From stdpp Require Import base strings list numbers.
From S2P Require Import Prelude GoStrings.
#[local] Open Scope string_scope.
#[local] Open Scope Z_scope.

Definition byte_char (n : Z) : ascii := byte_of (Z.to_nat n).

(** The alphabet, and a character's place in it. *)
Definition enc_char (n : Z) : ascii :=
  byte_char (if n <? 26 then n + 65 else if n <? 52 then n + 71 else if n <? 62 then n - 4
             else if n =? 62 then 45 else 95).
Definition dec_char (c : ascii) : option Z :=
  let n := code c in
  if (65 <=? n) && (n <=? 90) then Some (n - 65)
  else if (97 <=? n) && (n <=? 122) then Some (n - 71)
  else if (48 <=? n) && (n <=? 57) then Some (n + 4)
  else if n =? 45 then Some 62 else if n =? 95 then Some 63 else None.

Fixpoint EncodeToString (s : string) : string :=
  match s with
  | String a (String b (String c s)) =>
      let v := code a * 65536 + code b * 256 + code c in
      String (enc_char (v / 262144)) (String (enc_char (v / 4096 mod 64))
        (String (enc_char (v / 64 mod 64)) (String (enc_char (v mod 64)) (EncodeToString s))))
  | String a (String b EmptyString) =>
      let v := code a * 65536 + code b * 256 in
      String (enc_char (v / 262144)) (String (enc_char (v / 4096 mod 64)) (String (enc_char (v / 64 mod 64)) ""))
  | String a EmptyString =>
      let v := code a * 65536 in String (enc_char (v / 262144)) (String (enc_char (v / 4096 mod 64)) "")
  | EmptyString => ""
  end.

Definition line_break (c : ascii) : bool := (code c =? 10) || (code c =? 13).
Fixpoint skip_breaks (s : string) : string :=
  match s with
  | EmptyString => ""
  | String c s => if line_break c then skip_breaks s else String c (skip_breaks s)
  end.

Fixpoint decode_groups (s : string) : option string :=
  match s with
  | EmptyString => Some ""
  | String a EmptyString => None
  | String a (String b EmptyString) =>
      match dec_char a, dec_char b with
      | Some a, Some b => Some (String (byte_char ((a * 262144 + b * 4096) / 65536)) "")
      | _, _ => None
      end
  | String a (String b (String c EmptyString)) =>
      match dec_char a, dec_char b, dec_char c with
      | Some a, Some b, Some c =>
          let v := a * 262144 + b * 4096 + c * 64 in
          Some (String (byte_char (v / 65536)) (String (byte_char (v / 256 mod 256)) ""))
      | _, _, _ => None
      end
  | String a (String b (String c (String d s))) =>
      match dec_char a, dec_char b, dec_char c, dec_char d, decode_groups s with
      | Some a, Some b, Some c, Some d, Some r =>
          let v := a * 262144 + b * 4096 + c * 64 + d in
          Some (String (byte_char (v / 65536)) (String (byte_char (v / 256 mod 256)) (String (byte_char (v mod 256)) r)))
      | _, _, _, _, _ => None
      end
  end.

Definition DecodeString (s : string) : option string := decode_groups (skip_breaks s).

(** ** Round trip *)
Lemma enc_char_table :
  forallb (λ n, bool_decide (dec_char (enc_char n) = Some n) && negb (line_break (enc_char n)) &&
                negb (bool_decide (enc_char n = "."%char))) (seqZ 0 64) = true.
Proof. vm_compute. reflexivity. Qed.

Lemma enc_char_spec n :
  0 ≤ n < 64 → dec_char (enc_char n) = Some n ∧ line_break (enc_char n) = false ∧ enc_char n ≠ "."%char.
Proof.
  intros Hn. pose proof (proj1 (forallb_forall _ _) enc_char_table n) as Ht.
  apply andb_prop in Ht as [Ht H3]; [|apply list_elem_of_In, elem_of_seqZ; lia].
  apply andb_prop in Ht as [H1 H2]. apply bool_decide_eq_true in H1. apply negb_true_iff in H2, H3.
  by apply bool_decide_eq_false in H3.
Qed.

Lemma code_bounds c : 0 ≤ code c < 256.
Proof. unfold code. pose proof (nat_ascii_bounded c). lia. Qed.

Lemma byte_char_code c : byte_char (code c) = c.
Proof. unfold byte_char, code, byte_of. rewrite Nat2Z.id. apply ascii_nat_embedding. Qed.

Ltac sextets :=
  repeat match goal with
  | |- context [dec_char (enc_char ?n)] =>
      rewrite (proj1 (enc_char_spec n ltac:(Z.to_euclidean_division_equations; lia)))
  | |- context [line_break (enc_char ?n)] =>
      rewrite (proj1 (proj2 (enc_char_spec n ltac:(Z.to_euclidean_division_equations; lia))))
  end.

(** Induction by groups of three bytes. *)
Lemma string_ind3 (P : string → Prop) :
  P "" → (∀ a, P (String a "")) → (∀ a b, P (String a (String b ""))) →
  (∀ a b c s, P s → P (String a (String b (String c s)))) → ∀ s, P s.
Proof.
  intros H0 H1 H2 H3. fix IH 1. intros [|a [|b [|c s]]]; [done|apply H1|apply H2|apply H3, IH].
Qed.

Lemma skip_breaks_encoded s : skip_breaks (EncodeToString s) = EncodeToString s.
Proof.
  induction s as [|a|a b|a b c s IH] using string_ind3; [done| | |]; cbn [EncodeToString skip_breaks];
    pose proof (code_bounds a); try pose proof (code_bounds b); try pose proof (code_bounds c); cbv zeta; sextets;
    by rewrite ?IH.
Qed.

Lemma regroup v :
  v / 262144 * 262144 + v / 4096 mod 64 * 4096 + v / 64 mod 64 * 64 + v mod 64 = v.
Proof.
  pose proof (Z.div_mod v 64 ltac:(lia)). pose proof (Z.div_mod (v / 64) 64 ltac:(lia)).
  pose proof (Z.div_mod (v / 64 / 64) 64 ltac:(lia)).
  rewrite !Z.div_div in * by lia. change (64 * 64) with 4096 in *. change (4096 * 64) with 262144 in *. lia.
Qed.

Lemma bytes_of a b c :
  0 ≤ a < 256 → 0 ≤ b < 256 → 0 ≤ c < 256 →
  (a * 65536 + b * 256 + c) / 65536 = a ∧ (a * 65536 + b * 256 + c) / 256 mod 256 = b ∧
  (a * 65536 + b * 256 + c) mod 256 = c.
Proof.
  intros Ha Hb Hc. split_and!.
  - symmetry. apply (Z.div_unique _ _ a (b * 256 + c)); lia.
  - rewrite <- (Z.div_unique (a * 65536 + b * 256 + c) 256 (a * 256 + b) c) by lia.
    symmetry. apply (Z.mod_unique _ _ a b); lia.
  - symmetry. apply (Z.mod_unique _ _ (a * 256 + b) c); lia.
Qed.

Lemma base64_roundtrip s : DecodeString (EncodeToString s) = Some s.
Proof.
  unfold DecodeString. rewrite skip_breaks_encoded.
  induction s as [|a|a b|a b c s IH] using string_ind3; [done| | |]; cbn [EncodeToString decode_groups];
    pose proof (code_bounds a) as Ha; try pose proof (code_bounds b) as Hb; try pose proof (code_bounds c) as Hc;
    cbv zeta; sextets.
  - pose proof (regroup (code a * 65536)) as Hr. destruct (bytes_of (code a) 0 0) as (H1 & _ & _); [lia..|].
    replace (code a * 65536 + 0 * 256 + 0) with (code a * 65536) in H1 by lia.
    replace (_ * 262144 + _ * 4096) with (code a * 65536); [by rewrite H1, byte_char_code|].
    rewrite <- Hr at 1. Z.to_euclidean_division_equations. lia.
  - pose proof (regroup (code a * 65536 + code b * 256)) as Hr.
    destruct (bytes_of (code a) (code b) 0) as (H1 & H2 & _); [lia..|]. rewrite Z.add_0_r in H1, H2.
    replace (_ * 262144 + _ * 4096 + _ * 64) with (code a * 65536 + code b * 256);
      [by rewrite H1, H2, !byte_char_code|].
    rewrite <- Hr at 1. Z.to_euclidean_division_equations. lia.
  - rewrite IH, regroup. destruct (bytes_of (code a) (code b) (code c)) as (-> & -> & ->); [lia..|].
    by rewrite !byte_char_code.
Qed.

(** The text of a segment has no dot. *)
Lemma EncodeToString_no_dot s : contains_char "."%char (EncodeToString s) = false.
Proof.
  assert (∀ n r, 0 ≤ n < 64 → contains_char "."%char r = false → contains_char "."%char (String (enc_char n) r) = false)
    as Hc.
  { intros n r Hn Hr. cbn [contains_char]. rewrite Hr. destruct (enc_char_spec n Hn) as (_ & _ & Hd).
    rewrite bool_decide_false; [done|]. congruence. }
  induction s as [|a|a b|a b c s IH] using string_ind3; [done| | |]; cbn [EncodeToString];
    pose proof (code_bounds a) as Ha; try pose proof (code_bounds b) as Hb; try pose proof (code_bounds c) as Hc';
    cbv zeta; repeat (apply Hc; [Z.to_euclidean_division_equations; lia|]); done.
Qed.
