(* ===== verification/Timeutil.v ===== *)
(** * Clocks and timestamps

    Models [internal/timeutil/timeutil.go] and [clock.go]. The layout parser
    and printer of Go's [time] package ([time.Parse] and [Time.Format] with
    [time.RFC3339]) are parameters, which [GoTime] instantiates. Instants carry no zone, so [UTC()] is the
    identity on them. *)
From Stdlib Require Import Ascii.
From stdpp Require Import base strings.
From Stdlib Require Import ZArith Lia.
From S2P Require Import Prelude GoStrings GoTime.

(** ** timeutil.go *)
Definition NormalizeUTC (t : Time) : Time := t.

Definition NormalizePtrUTC (t : option Time) : option Time :=
  match t with None => None | Some t => Some (NormalizeUTC t) end.

Section rfc3339.
(** [time.Parse(time.RFC3339, raw)] and [t.Format(time.RFC3339)] of a UTC
    instant. *)
Context (parse : string → option Time) (format : Time → string).

Definition ParseRFC3339ToUTC (raw : string) : option Time := parse raw.

Definition FormatRFC3339UTC (t : Time) : string := format (NormalizeUTC t).

Definition FormatRFC3339UTCPtr (t : option Time) : option string :=
  match t with None => None | Some t => Some (FormatRFC3339UTC t) end.

Definition NormalizeRFC3339StringToUTC (raw : string) : option string :=
  if decide (TrimSpace raw = ""%string) then Some ""%string
  else match ParseRFC3339ToUTC raw with
  | None => None
  | Some ts => Some (FormatRFC3339UTC ts)
  end.

End rfc3339.

(** ** clock.go: the manually driven clock *)
Record FakeClock := { now : Time }.

Definition NewFakeClock (start : Time) : FakeClock := {| now := NormalizeUTC start |}.
Definition FakeClock_Now (f : FakeClock) : Time := now f.
Definition FakeClock_Set (f : FakeClock) (t : Time) : FakeClock := {| now := NormalizeUTC t |}.
Definition FakeClock_Advance (f : FakeClock) (d : Duration) : FakeClock :=
  {| now := Time.Add (now f) d |}.

Lemma FakeClock_Advance_sum f ds :
  now (foldl FakeClock_Advance f ds) = now f + foldr Z.add 0 ds.
Proof.
  revert f. induction ds as [|d ds IH]; intros f; simpl; [lia|].
  rewrite IH. simpl. unfold Time.Add. lia.
Qed.

(** ** Normalisation with Go's own layout *)
Lemma FormatRFC3339_not_blank t :
  0 ≤ fst (fst (civil t)) ≤ 9999 → TrimSpace (FormatRFC3339 t) ≠ ""%string.
Proof.
  intros Hy. unfold FormatRFC3339. destruct (civil t) as [[y m] d], (clock t) as [[hh mi] ss].
  simpl in Hy. unfold pad_year. replace ((0 <=? y) && (y <=? 9999)) with true by lia.
  set (n := y / 100 / 10). unfold pad2 at 1. fold n.
  match goal with |- TrimSpace (String ?a ?s) ≠ _ =>
    assert (∃ r, s = (r +:+ String "Z"%char ""))%string as [r ->] end.
  { unfold pad2. eexists (String _ (String _ (String _ (String _ (String _ (String _ (String _ (String _
      (String _ (String _ (String _ (String _ (String _ (String _ (String _ (String _ (String _
      (String _ EmptyString)))))))))))))))))). reflexivity. }
  rewrite TrimSpace_edges; [done|].
  assert (In n [0;1;2;3;4;5;6;7;8;9]) as Hin.
  { assert (0 ≤ n ≤ 9); [|simpl; lia]. unfold n. rewrite Z.div_div by lia.
    split; [apply Z.div_pos; lia|]. assert (y / (100 * 10) < 10); [|lia].
    apply Z.div_lt_upper_bound; lia. }
  repeat (destruct Hin as [<-|Hin]; [vm_compute; reflexivity|]). destruct Hin.
Qed.

(** Normalising a timestamp keeps the instant it names, to the second, and
    is idempotent: whatever zone, fraction or digits the text [raw] of an
    instant of the years 0 to 9999 has, its normal form parses to the same
    second and is its own normal form. *)
Theorem normalise_stable raw t :
  ParseRFC3339 raw = Some t → TrimSpace raw ≠ ""%string → 0 ≤ fst (fst (civil t)) ≤ 9999 →
  let normalise := NormalizeRFC3339StringToUTC ParseRFC3339 FormatRFC3339 in
  ∃ s, normalise raw = Some s ∧ ParseRFC3339 s = Some (t - t mod Time.Second) ∧
    normalise s = Some s.
Proof.
  intros Hp Hb Hy normalise. unfold normalise, NormalizeRFC3339StringToUTC, ParseRFC3339ToUTC.
  exists (FormatRFC3339 t). pose proof (ParseRFC3339_Format t Hy) as Hf.
  rewrite decide_False, Hp by done. split; [done|]. split; [done|].
  rewrite decide_False by (by apply FormatRFC3339_not_blank). rewrite Hf.
  unfold FormatRFC3339UTC, NormalizeUTC. by rewrite FormatRFC3339_second.
Qed.

Lemma normalise_stable_witness :
  ∃ s, NormalizeRFC3339StringToUTC ParseRFC3339 FormatRFC3339 "2024-02-29T7:04:05,25+01:00" = Some s ∧
    ParseRFC3339 s = Some 1709186645000000000 ∧
    NormalizeRFC3339StringToUTC ParseRFC3339 FormatRFC3339 s = Some s.
Proof.
  apply (normalise_stable _ 1709186645250000000); [vm_compute; reflexivity|by vm_compute|].
  vm_compute. split; discriminate.
Defined.
