(* ===== verification/Subscriptions.v ===== *)
(** * Subscriptions: status machine, repository and service

    - [StateMachine] models [internal/subscriptions/state_machine.go];
    - [Repository] models the rows of [internal/repository/models.go], the
      part of the [SubscriptionRepository] and [PlanRepository] interfaces
      the service uses, and [MockSubscriptionRepo] / [MockPlanRepo] of
      [internal/repository/mock.go];
    - [Service] models [internal/service/subscription_service.go] against
      the repository interface.

    Contexts, tracing spans and log lines have no influence on the results
    and are left out. *)
From stdpp Require Import base gmap strings list relations.
From Stdlib Require Import ZArith Lia.
From S2P Require Import Prelude GoStrings Timeutil.

Module StateMachine.
Open Scope string_scope.

Definition StatusPending := "pending".
Definition StatusActive := "active".
Definition StatusPaused := "paused".
Definition StatusCancelled := "cancelled".
Definition StatusExpired := "expired".

Definition allowedTransitions : gmap string (list string) :=
  list_to_map [
    (StatusPending, [StatusActive; StatusCancelled]);
    (StatusActive, [StatusPaused; StatusCancelled; StatusExpired]);
    (StatusPaused, [StatusActive; StatusCancelled]);
    (StatusCancelled, []);
    (StatusExpired, [])].

Definition knownStatuses : gmap string bool :=
  list_to_map [
    (StatusPending, true); (StatusActive, true); (StatusPaused, true);
    (StatusCancelled, true); (StatusExpired, true)].

(** [knownStatuses[s]]: a missing key reads as [false]. *)
Definition IsKnownStatus (s : string) : bool := default false (knownStatuses !! s).

(** The two [fmt.Errorf] messages of [CanTransition]. *)
Inductive transition_error :=
| UnknownCurrentStateErr (from : string)
| InvalidTransitionErr (from to : string).

Definition CanTransition (from to : string) : option transition_error :=
  if decide (from = to) then None
  else match allowedTransitions !! from with
  | None => Some (UnknownCurrentStateErr from)
  | Some allowed =>
      if any (λ a, bool_decide (a = to)) allowed then None
      else Some (InvalidTransitionErr from to)
  end.

(** ** The lifecycle the map describes *)
Inductive status := Pending | Active | Paused | Cancelled | Expired.

#[export] Instance status_eq_dec : EqDecision status.
Proof. solve_decision. Defined.

Definition to_string (s : status) : string :=
  match s with
  | Pending => StatusPending | Active => StatusActive | Paused => StatusPaused
  | Cancelled => StatusCancelled | Expired => StatusExpired
  end.

Inductive lifecycle : status → status → Prop :=
| activate : lifecycle Pending Active
| abandon : lifecycle Pending Cancelled
| pause : lifecycle Active Paused
| cancel : lifecycle Active Cancelled
| expire : lifecycle Active Expired
| resume : lifecycle Paused Active
| cancel_paused : lifecycle Paused Cancelled.
#[export] Hint Constructors lifecycle : go.

Definition terminal (s : status) : bool :=
  match s with Cancelled | Expired => true | _ => false end.

#[export] Instance to_string_inj : Inj (=) (=) to_string.
Proof. intros [] []; done. Qed.

Lemma IsKnownStatus_spec s : IsKnownStatus s = true ↔ ∃ a, s = to_string a.
Proof.
  unfold IsKnownStatus, knownStatuses, list_to_map; simpl. split.
  - rewrite !lookup_insert. intros H. repeat case_decide; simplify_eq/=.
    + by exists Pending.
    + by exists Active.
    + by exists Paused.
    + by exists Cancelled.
    + by exists Expired.
  - intros [[] ->]; done.
Qed.

Lemma terminal_lifecycle a b : terminal a = true → ¬ lifecycle a b.
Proof. intros Ht Hs. by inversion Hs; subst. Qed.

Lemma CanTransition_to_string a b :
  CanTransition (to_string a) (to_string b) = None ↔ a = b ∨ lifecycle a b.
Proof.
  split.
  - destruct a, b; vm_compute; intros; simplify_eq; auto with go.
  - intros [->|H]; [by destruct b|]. by destruct H.
Qed.

Lemma CanTransition_terminal a t :
  terminal a = true → to_string a ≠ t →
  CanTransition (to_string a) t = Some (InvalidTransitionErr (to_string a) t).
Proof.
  intros Ht Hne. unfold CanTransition. rewrite decide_False by done. by destruct a.
Qed.

Lemma lifecycle_terminal_rtc a b : terminal a = true → rtc lifecycle a b → b = a.
Proof.
  intros Ht Hr. inversion Hr as [|? c ? Hs]; subst; [done|].
  by apply terminal_lifecycle in Hs.
Qed.

Lemma known_allowed s : IsKnownStatus s = true ↔ is_Some (allowedTransitions !! s).
Proof.
  rewrite IsKnownStatus_spec. split.
  - intros [[] ->]; vm_compute; eauto.
  - unfold allowedTransitions, list_to_map; simpl. rewrite !lookup_insert.
    intros [x Hx]. repeat case_decide; simplify_eq/=.
    + by exists Pending.
    + by exists Active.
    + by exists Paused.
    + by exists Cancelled.
    + by exists Expired.
Qed.
Lemma allowed_edge a l to : allowedTransitions !! to_string a = Some l → to ∈ l → ∃ b, to = to_string b ∧ lifecycle a b.
Proof.
  intros Hl Hin. destruct a; vm_compute in Hl; simplify_eq;
  repeat (apply elem_of_cons in Hin as [->|Hin]); try by apply elem_of_nil in Hin.
  - exists Active; auto with go.
  - exists Cancelled; auto with go.
  - exists Paused; auto with go.
  - exists Cancelled; auto with go.
  - exists Expired; auto with go.
  - exists Active; auto with go.
  - exists Cancelled; auto with go.
Qed.
End StateMachine.

Module Repository.
Record SubscriptionRow := {
  ID : string;
  PlanID : string;
  TenantID : string;
  CustomerID : string;
  Status : string;
  Amount : string;
  Currency : string;
  Interval : string;
  NextBilling : string;
  UpdatedAt : Time;
  Version : Z;
  DeletedAt : option Time;
}.

(** A row after a status write: the status, and the two columns a repository
    may maintain by itself. *)
Definition written (s : string) (u : Time) (v : Z) (r : SubscriptionRow) : SubscriptionRow :=
  {| ID := ID r; PlanID := PlanID r; TenantID := TenantID r;
     CustomerID := CustomerID r; Status := s; Amount := Amount r;
     Currency := Currency r; Interval := Interval r;
     NextBilling := NextBilling r; UpdatedAt := u;
     Version := v; DeletedAt := DeletedAt r |}.
Definition with_Status (s : string) (r : SubscriptionRow) : SubscriptionRow :=
  written s (UpdatedAt r) (Version r) r.

Record PlanRow := {
  plan_ID : string;
  plan_TenantID : string;
  plan_Name : string;
  plan_Amount : string;
  plan_Currency : string;
  plan_Interval : string;
  plan_Description : string;
  plan_UpdatedAt : Time;
  plan_Version : Z;
}.

(** [ErrNotFound], or any other error of the storage layer. *)
Inductive repo_error := ErrNotFound | StorageErr (msg : string).

(** What the service needs of a [SubscriptionRepository]: a tenant-scoped
    read and a tenant-scoped status write over a store of type [S]. *)
Class SubscriptionRepository (S : Type) := {
  FindByIDAndTenant : S → string → string → result repo_error SubscriptionRow;
  UpdateStatus : S → string → string → string → S * option repo_error;
}.

(** The promises of that interface the service relies on: a successful status
    write changes the status of the row and, at most, the two columns the
    repository maintains itself ([updated_at] and [version], which the
    PostgreSQL queries set and the mock leaves alone). *)
Class SubscriptionRepositoryLaws (S : Type) `{SubscriptionRepository S} := {
  find_scoped : ∀ s id t row,
    FindByIDAndTenant s id t = Ok row → TenantID row = t;
  update_find : ∀ s s' id t st row,
    FindByIDAndTenant s id t = Ok row →
    UpdateStatus s id t st = (s', None) →
    ∃ u v, FindByIDAndTenant s' id t = Ok (written st u v row);
  update_frame : ∀ s s' id t st e id' t',
    UpdateStatus s id t st = (s', e) → id ≠ id' ∨ t ≠ t' →
    FindByIDAndTenant s' id' t' = FindByIDAndTenant s id' t';
  update_failed : ∀ s s' id t st e,
    UpdateStatus s id t st = (s', Some e) → s' = s;
}.

(** *** [MockSubscriptionRepo]

    The records are pointers: [UpdateStatus] mutates the row the map holds. *)
Definition MockSubscriptionRepo := gmap string SubscriptionRow.

Definition NewMockSubscriptionRepo (rows : list SubscriptionRow) : MockSubscriptionRepo :=
  foldl (λ m r, <[ID r := r]> m) ∅ rows.

Definition Mock_FindByID (m : MockSubscriptionRepo) (id : string)
    : result repo_error SubscriptionRow :=
  match m !! id with None => Err ErrNotFound | Some row => Ok row end.

Definition Mock_FindByIDAndTenant (m : MockSubscriptionRepo) (id tenantID : string)
    : result repo_error SubscriptionRow :=
  match m !! id with
  | None => Err ErrNotFound
  | Some row => if decide (TenantID row ≠ tenantID) then Err ErrNotFound else Ok row
  end.

Definition Mock_FindByIDsAndTenant `{GoRuntime} (m : MockSubscriptionRepo)
    (ids : list string) (tenantID : string) : list SubscriptionRow :=
  filter (λ r, ID r ∈ ids ∧ (tenantID = ""%string ∨ TenantID r = tenantID))
    (map_range m).*2.

Definition Mock_ListByTenant `{GoRuntime} (m : MockSubscriptionRepo)
    (tenantID : string) : list SubscriptionRow :=
  filter (λ r, TenantID r = tenantID) (map_range m).*2.

Definition Mock_UpdateStatus (m : MockSubscriptionRepo) (id tenantID status : string)
    : MockSubscriptionRepo * option repo_error :=
  match m !! id with
  | None => (m, Some ErrNotFound)
  | Some row =>
      if decide (TenantID row ≠ tenantID) then (m, Some ErrNotFound)
      else (<[id := with_Status status row]> m, None)
  end.

#[export] Instance mock_repository : SubscriptionRepository MockSubscriptionRepo := {
  FindByIDAndTenant := Mock_FindByIDAndTenant;
  UpdateStatus := Mock_UpdateStatus;
}.

#[export] Instance mock_repository_laws : SubscriptionRepositoryLaws MockSubscriptionRepo.
Proof.
  split; simpl; unfold Mock_FindByIDAndTenant, Mock_UpdateStatus, MockSubscriptionRepo in *.
  - intros s id t row Hf. break_hyps. by apply dec_stable.
  - intros s s' id t st row Hf Hu. break_hyps. exists (UpdatedAt row), (Version row).
    rewrite lookup_insert_eq. simpl. by rewrite decide_False.
  - intros s s' id t st e id' t' Hu Hne.
    destruct (s !! id) as [row|] eqn:Hrow; [|by simplify_eq].
    destruct (decide (TenantID row = t)) as [<-|Ht];
      [rewrite decide_False in Hu by auto | by rewrite decide_True in Hu; simplify_eq].
    simplify_eq.
    destruct (decide (id = id')) as [<-|Hid]; [|by rewrite lookup_insert_ne].
    destruct Hne as [?|Hne]; [done|].
    rewrite lookup_insert_eq, Hrow; simpl. by rewrite !decide_True.
  - intros s s' id t st e Hu. by break_hyps.
Qed.

(** *** [MockPlanRepo] *)
Definition MockPlanRepo := gmap string PlanRow.

Definition MockPlan_FindByID (m : MockPlanRepo) (id : string) : result repo_error PlanRow :=
  match m !! id with None => Err ErrNotFound | Some row => Ok row end.

Definition MockPlan_FindByIDs `{GoRuntime} (m : MockPlanRepo) (ids : list string)
    : list PlanRow :=
  filter (λ r, plan_ID r ∈ ids) (map_range m).*2.

Definition MockPlan_FindByIDsAndTenant `{GoRuntime} (m : MockPlanRepo)
    (ids : list string) (tenantID : string) : list PlanRow :=
  filter (λ r, plan_ID r ∈ ids ∧ (tenantID = ""%string ∨ plan_TenantID r = tenantID))
    (map_range m).*2.

Definition MockPlan_List `{GoRuntime} (m : MockPlanRepo) : list PlanRow := (map_range m).*2.

(** *** [MockStatementRepo] *)
Record StatementRow := {
  stmt_ID : string;
  stmt_TenantID : string;
  SubscriptionID : string;
  stmt_CustomerID : string;
  PeriodStart : string;
  PeriodEnd : string;
  IssuedAt : string;
  TotalAmount : string;
  stmt_Currency : string;
  Kind : string;
  stmt_Status : string;
  stmt_DeletedAt : option Time;
}.

Definition with_stmt_Status (x : string) (r : StatementRow) : StatementRow :=
  {| stmt_ID := stmt_ID r; stmt_TenantID := stmt_TenantID r;
     SubscriptionID := SubscriptionID r; stmt_CustomerID := stmt_CustomerID r;
     PeriodStart := PeriodStart r; PeriodEnd := PeriodEnd r; IssuedAt := IssuedAt r;
     TotalAmount := TotalAmount r; stmt_Currency := stmt_Currency r; Kind := Kind r;
     stmt_Status := x; stmt_DeletedAt := stmt_DeletedAt r |}.

Record MockStatementRepo := {
  stmt_records : gmap string StatementRow;
  listErr : option repo_error;
  findErr : option repo_error;
  createErr : option repo_error;
}.

Definition stmt_FindByID (m : MockStatementRepo) (id : string)
    : result repo_error StatementRow :=
  match findErr m with
  | Some e => Err e
  | None => match stmt_records m !! id with None => Err ErrNotFound | Some row => Ok row end
  end.

Definition stmt_set (m : MockStatementRepo) (rs : gmap string StatementRow) : MockStatementRepo :=
  {| stmt_records := rs; listErr := listErr m; findErr := findErr m; createErr := createErr m |}.

Definition stmt_Create (m : MockStatementRepo) (stmt : StatementRow)
    : MockStatementRepo * option repo_error :=
  match createErr m with
  | Some e => (m, Some e)
  | None => (stmt_set m (<[stmt_ID stmt := stmt]> (stmt_records m)), None)
  end.

Definition stmt_UpdateArchivedData (m : MockStatementRepo) (id : string) (stmt : StatementRow)
    : MockStatementRepo * option repo_error :=
  match stmt_records m !! id with
  | Some _ => (stmt_set m (<[id := stmt]> (stmt_records m)), None)
  | None => (m, Some ErrNotFound)
  end.

(** The part of [StatementQuery] the mock filters on. *)
Record StatementQuery := {
  q_SubscriptionID : string;
  q_Kind : string;
  q_Status : string;
  StartAfter : string;
  EndBefore : string;
  Limit : Z;
}.

Definition stmt_matches (customerID : string) (q : StatementQuery) (r : StatementRow) : bool :=
  bool_decide (stmt_CustomerID r = customerID) &&
  (bool_decide (q_SubscriptionID q = ""%string) ||
   bool_decide (SubscriptionID r = q_SubscriptionID q)) &&
  (bool_decide (q_Kind q = ""%string) || bool_decide (Kind r = q_Kind q)) &&
  (bool_decide (q_Status q = ""%string) || bool_decide (stmt_Status r = q_Status q)) &&
  (bool_decide (StartAfter q = ""%string) || negb (String.ltb (PeriodStart r) (StartAfter q))) &&
  (bool_decide (EndBefore q = ""%string) || negb (String.ltb (EndBefore q) (PeriodEnd r))).

Definition stmt_ListByCustomerID `{GoRuntime} (m : MockStatementRepo) (customerID : string)
    (q : StatementQuery) : result repo_error (list StatementRow * Z) :=
  match listErr m with
  | Some e => Err e
  | None =>
      let out := List.filter (stmt_matches customerID q) (map_range (stmt_records m)).*2 in
      let totalCount := Z.of_nat (length out) in
      let limit := if Limit q <=? 0 then 10 else Limit q in
      Ok (take (Z.to_nat limit) out, totalCount)
  end.

Lemma Mock_ListByTenant_isolated `{GoRuntime} m t row :
  row ∈ Mock_ListByTenant m t ↔ TenantID row = t ∧ ∃ id, m !! id = Some row.
Proof.
  unfold Mock_ListByTenant. rewrite list_elem_of_filter, list_elem_of_fmap. split.
  - intros [Ht ([k r] & -> & Hr)]. apply elem_of_map_range in Hr. eauto.
  - intros [Ht [id Hid]]. split; [done|]. exists (id, row).
    split; [done|]. by apply elem_of_map_range.
Qed.
End Repository.

Module Service.
Import StateMachine Repository.

(** The sentinel errors of [internal/service/errors.go]; the wrapped ones
    carry what [fmt.Errorf] adds. *)
Inductive service_error :=
| SvcNotFound
| SvcDeleted
| SvcForbidden
| SvcBillingParse
| SvcInvalidTransition (e : transition_error)
| SvcUnknownCurrentState (s : string)
| SvcInvalidStatus (s : string)
| SvcRepo (e : repo_error).

Record SubscriptionStatusChange := {
  change_ID : string;
  change_Status : string;
  change_PreviousStatus : string;
  change_Changed : bool;
}.

Section change_status.
Context {S : Type} `{SubscriptionRepository S}.

Definition find_error (e : repo_error) : service_error :=
  match e with ErrNotFound => SvcNotFound | e => SvcRepo e end.

(** The reads and checks of [ChangeStatus], up to the write: the row to
    update, or an early return. *)
Definition ChangeStatus_check (s : S) (tenantID subscriptionID targetStatus : string)
    : result service_error (SubscriptionRow * bool) :=
  if negb (IsKnownStatus targetStatus) then Err (SvcInvalidStatus targetStatus)
  else match FindByIDAndTenant s subscriptionID tenantID with
  | Err e => Err (find_error e)
  | Ok row =>
      match DeletedAt row with
      | Some _ => Err SvcDeleted
      | None =>
          if negb (IsKnownStatus (Status row)) then
            Err (SvcUnknownCurrentState (Status row))
          else if decide (Status row = targetStatus) then Ok (row, false)
          else match CanTransition (Status row) targetStatus with
          | Some e => Err (SvcInvalidTransition e)
          | None => Ok (row, true)
          end
      end
  end.

(** The write of [ChangeStatus], for the row the check returned. *)
Definition ChangeStatus_write (s : S) (tenantID subscriptionID targetStatus : string)
    (row : SubscriptionRow) (changed : bool)
    : S * result service_error SubscriptionStatusChange :=
  if changed then
    match UpdateStatus s subscriptionID tenantID targetStatus with
    | (s', Some e) => (s', Err (SvcRepo e))
    | (s', None) =>
        (s', Ok {| change_ID := ID row; change_Status := targetStatus;
                   change_PreviousStatus := Status row; change_Changed := true |})
    end
  else
    (s, Ok {| change_ID := ID row; change_Status := Status row;
              change_PreviousStatus := Status row; change_Changed := false |}).

Definition ChangeStatus (s : S) (tenantID actorID subscriptionID targetStatus : string)
    : S * result service_error SubscriptionStatusChange :=
  match ChangeStatus_check s tenantID subscriptionID targetStatus with
  | Err e => (s, Err e)
  | Ok (row, changed) =>
      ChangeStatus_write s tenantID subscriptionID targetStatus row changed
  end.
End change_status.

(** ** [GetDetail] *)
Record PlanMetadata := {
  pm_PlanID : string;
  pm_Name : string;
  pm_Amount : string;
  pm_Currency : string;
  pm_Interval : string;
  pm_Description : string;
}.

Record BillingSummary := {
  AmountCents : Z;
  bill_Currency : string;
  NextBillingDate : option string;
}.

Record SubscriptionDetail := {
  detail_ID : string;
  detail_PlanID : string;
  Customer : string;
  detail_Status : string;
  detail_Interval : string;
  Plan : option PlanMetadata;
  detail_Billing : BillingSummary;
}.

(** The request-scoped batching loader, when the context carries one. *)
Record Loader := {
  LoadSubscription : string → string → result repo_error SubscriptionRow;
  LoadPlan : string → string → result repo_error PlanRow;
}.

Section get_detail.
Context {S : Type} `{SubscriptionRepository S}.
(** [planRepo.FindByID], [strings.ToUpper] and the RFC 3339 functions of
    the [time] package. *)
Context (FindPlan : string → result repo_error PlanRow)
        (ToUpper : string → string)
        (parse : string → option Time) (format : Time → string).

Definition fetch_row (s : S) (loader : option Loader) (tenantID subscriptionID : string)
    : result service_error SubscriptionRow :=
  match match loader with
        | Some l => LoadSubscription l tenantID subscriptionID
        | None => FindByIDAndTenant s subscriptionID tenantID
        end with
  | Ok r => Ok r
  | Err e => Err (find_error e)
  end.

(** The plan, when it exists; a missing plan only adds a warning. *)
Definition fetch_plan (loader : option Loader) (tenantID planID : string)
    : result service_error (option PlanRow * list string) :=
  match match loader with
        | Some l => LoadPlan l tenantID planID
        | None => FindPlan planID
        end with
  | Ok pr => Ok (Some pr, [])
  | Err ErrNotFound => Ok (None, ["plan not found"%string])
  | Err e => Err (SvcRepo e)
  end.

Definition plan_metadata (p : PlanRow) : PlanMetadata :=
  {| pm_PlanID := plan_ID p; pm_Name := plan_Name p; pm_Amount := plan_Amount p;
     pm_Currency := plan_Currency p; pm_Interval := plan_Interval p;
     pm_Description := plan_Description p |}.

Definition next_billing (raw : string) : option string :=
  if decide (raw = ""%string) then None
  else Some (default raw (NormalizeRFC3339StringToUTC parse format raw)).

Definition GetDetail (s : S) (loader : option Loader)
    (tenantID callerID subscriptionID : string)
    : result service_error (SubscriptionDetail * list string) :=
  (let? row := fetch_row s loader tenantID subscriptionID in
   if decide (is_Some (DeletedAt row)) then Err SvcDeleted
   else if decide (callerID ≠ CustomerID row) then Err SvcForbidden
   else
     let? (planRow, warnings) := fetch_plan loader tenantID (PlanID row) in
     match ParseInt (Amount row) with
     | None => Err SvcBillingParse
     | Some amountCents =>
         Ok ({| detail_ID := ID row; detail_PlanID := PlanID row;
                Customer := CustomerID row; detail_Status := Status row;
                detail_Interval := Interval row;
                Plan := plan_metadata <$> planRow;
                detail_Billing :=
                  {| AmountCents := amountCents;
                     bill_Currency := ToUpper (Currency row);
                     NextBillingDate := next_billing (NextBilling row) |} |},
             warnings)
     end)%go.
End get_detail.

(** ** Properties of the status change *)
Section change_status_facts.
Context {S : Type} `{SubscriptionRepositoryLaws S}.
Implicit Types (s : S).

Lemma check_Ok s t id tgt row changed :
  ChangeStatus_check s t id tgt = Ok (row, changed) →
  FindByIDAndTenant s id t = Ok row ∧ DeletedAt row = None ∧
  ∃ a b, Status row = to_string a ∧ tgt = to_string b ∧
    (if changed then lifecycle a b else a = b).
Proof.
  unfold ChangeStatus_check. intros Hc.
  destruct (IsKnownStatus tgt) eqn:Ht; simpl in Hc; [|done].
  destruct (FindByIDAndTenant s id t) as [r|] eqn:Hf; [|done].
  destruct (DeletedAt r) eqn:Hd; [done|].
  destruct (IsKnownStatus (Status r)) eqn:Hk; simpl in Hc; [|done].
  apply IsKnownStatus_spec in Ht as [b ->]. apply IsKnownStatus_spec in Hk as [a Ha].
  rewrite Ha in Hc. case_decide as Heq; simplify_eq.
  - split_and!; [done..|]. by exists b, b.
  - destruct (CanTransition _ _) eqn:Hct; simplify_eq.
    apply CanTransition_to_string in Hct as [->|Hl]; [done|].
    split_and!; [done..|]. by exists a, b.
Qed.

Lemma ChangeStatus_Err s s' t ac id tgt e :
  ChangeStatus s t ac id tgt = (s', Err e) → s' = s.
Proof.
  unfold ChangeStatus, ChangeStatus_write. intros Hc. break_hyps; try done.
  by eapply update_failed.
Qed.

(** Why a status change is refused: the first condition, in this order, that
    the request or the stored row fails. *)
Definition refused (s : S) (t id tgt : string) (e : service_error) : Prop :=
  match e with
  | SvcInvalidStatus x => x = tgt ∧ ∀ b, tgt ≠ to_string b
  | SvcNotFound => (∃ b, tgt = to_string b) ∧ FindByIDAndTenant s id t = Err ErrNotFound
  | SvcDeleted =>
      (∃ b, tgt = to_string b) ∧ ∃ row, FindByIDAndTenant s id t = Ok row ∧ is_Some (DeletedAt row)
  | SvcUnknownCurrentState x =>
      (∃ b, tgt = to_string b) ∧
      ∃ row, FindByIDAndTenant s id t = Ok row ∧ DeletedAt row = None ∧ x = Status row ∧
        ∀ a, Status row ≠ to_string a
  | SvcInvalidTransition x =>
      ∃ row a b, FindByIDAndTenant s id t = Ok row ∧ DeletedAt row = None ∧
        Status row = to_string a ∧ tgt = to_string b ∧ a ≠ b ∧ ¬ lifecycle a b ∧
        x = InvalidTransitionErr (to_string a) (to_string b)
  | SvcRepo x =>
      (∃ b, tgt = to_string b) ∧ x ≠ ErrNotFound ∧ FindByIDAndTenant s id t = Err x ∨
      ∃ row a b, FindByIDAndTenant s id t = Ok row ∧ DeletedAt row = None ∧
        Status row = to_string a ∧ tgt = to_string b ∧ lifecycle a b ∧
        UpdateStatus s id t tgt = (s, Some x)
  | SvcForbidden | SvcBillingParse => False
  end.

Lemma CanTransition_refused a b e :
  to_string a ≠ to_string b → CanTransition (to_string a) (to_string b) = Some e →
  a ≠ b ∧ ¬ lifecycle a b ∧ e = InvalidTransitionErr (to_string a) (to_string b).
Proof.
  intros Hne Hc. split_and!; [congruence|..].
  - intros Hl. assert (CanTransition (to_string a) (to_string b) = None) as Hn
      by (apply CanTransition_to_string; auto). congruence.
  - unfold CanTransition in Hc. rewrite decide_False in Hc by done.
    destruct a; vm_compute in Hc |- *; destruct b; simplify_eq; done.
Qed.

Lemma unknown_status x : IsKnownStatus x = false → ∀ a, x ≠ to_string a.
Proof.
  intros Hx a ->. assert (IsKnownStatus (to_string a) = true) by (apply IsKnownStatus_spec; eauto).
  congruence.
Qed.

Lemma check_Err s t id tgt e : ChangeStatus_check s t id tgt = Err e → refused s t id tgt e.
Proof.
  unfold ChangeStatus_check. intros Hc.
  destruct (IsKnownStatus tgt) eqn:Ht; simpl in Hc;
    [|injection Hc as <-; split; [done|by apply unknown_status]].
  apply IsKnownStatus_spec in Ht as [b ->].
  destruct (FindByIDAndTenant s id t) as [row|x] eqn:Hf.
  2:{ injection Hc as <-. destruct x; simpl; eauto 10. }
  destruct (DeletedAt row) eqn:Hd; [injection Hc as <-; simpl; eauto 10|].
  destruct (IsKnownStatus (Status row)) eqn:Hk; simpl in Hc;
    [|injection Hc as <-; simpl; split; eauto 10 using unknown_status].
  apply IsKnownStatus_spec in Hk as [a Ha]. case_decide as Hab; [done|].
  destruct (CanTransition _ _) eqn:Hct; [|done]. injection Hc as <-.
  rewrite Ha in Hab, Hct. apply CanTransition_refused in Hct as (? & ? & ->); [|done].
  simpl. exists row, a, b. done.
Qed.

Lemma ChangeStatus_refused s s' t ac id tgt e :
  ChangeStatus s t ac id tgt = (s', Err e) → refused s t id tgt e.
Proof.
  unfold ChangeStatus, ChangeStatus_write. intros Hc.
  destruct (ChangeStatus_check s t id tgt) as [[row []]|] eqn:Hk;
    [|done|by injection Hc as _ <-; apply check_Err].
  destruct (UpdateStatus s id t tgt) as [s2 [x|]] eqn:Hu; [|done]. injection Hc as <- <-.
  apply check_Ok in Hk as (Hf & Hd & a & b & Ha & -> & Hab).
  right. exists row, a, b. rewrite Hu, (update_failed _ _ _ _ _ _ Hu). done.
Qed.

Lemma ChangeStatus_Ok s s' t ac id tgt c :
  ChangeStatus s t ac id tgt = (s', Ok c) →
  ∃ row a b,
    FindByIDAndTenant s id t = Ok row ∧ DeletedAt row = None ∧
    Status row = to_string a ∧ tgt = to_string b ∧
    c = {| change_ID := ID row; change_Status := to_string b;
           change_PreviousStatus := to_string a;
           change_Changed := negb (bool_decide (a = b)) |} ∧
    (a = b ∧ s' = s ∨
     lifecycle a b ∧ ∃ u v, FindByIDAndTenant s' id t = Ok (written tgt u v row)).
Proof.
  unfold ChangeStatus, ChangeStatus_write. intros Hc.
  destruct (ChangeStatus_check s t id tgt) as [[row changed]|] eqn:Hk; [|done].
  apply check_Ok in Hk as (Hf & Hd & a & b & Ha & -> & Hab).
  exists row, a, b. split_and!; [done..| |]; destruct changed; simplify_eq.
  - destruct (UpdateStatus _ _ _ _) as [s2 [e|]] eqn:Hu; simplify_eq.
    rewrite Ha, bool_decide_false; [done|]. intros ->. by inversion Hab.
  - by rewrite Ha, bool_decide_true.
  - destruct (UpdateStatus _ _ _ _) as [s2 [e|]] eqn:Hu; simplify_eq.
    right. split; [done|]. by eapply update_find.
  - by left.
Qed.

Lemma ChangeStatus_frame s s' t ac id tgt r id' t' :
  ChangeStatus s t ac id tgt = (s', r) → id ≠ id' ∨ t ≠ t' →
  FindByIDAndTenant s' id' t' = FindByIDAndTenant s id' t'.
Proof.
  unfold ChangeStatus, ChangeStatus_write. intros Hc Hne.
  break_hyps; try done; by eapply update_frame.
Qed.

(** A sequence of calls, each made after the previous one returned. *)
Inductive calls : S → S → Prop :=
| calls_nil s : calls s s
| calls_cons s s1 s2 t ac id tgt r :
    ChangeStatus s t ac id tgt = (s1, r) → calls s1 s2 → calls s s2.

Definition status_of s id t : option status :=
  match FindByIDAndTenant s id t with
  | Ok row => List.find (λ a, bool_decide (Status row = to_string a))
                [Pending; Active; Paused; Cancelled; Expired]
  | Err _ => None
  end.

Lemma status_of_Some s id t a :
  status_of s id t = Some a ↔
  ∃ row, FindByIDAndTenant s id t = Ok row ∧ Status row = to_string a.
Proof.
  unfold status_of. destruct (FindByIDAndTenant s id t) as [row|].
  - split.
    + intros Hf. apply List.find_some in Hf as [_ Hb].
      apply bool_decide_eq_true in Hb. eauto.
    + intros (? & [= <-] & ->). by destruct a.
  - split; [done|]. by intros (? & ? & _).
Qed.

Lemma ChangeStatus_status s s' t ac id tgt r id' t' a :
  ChangeStatus s t ac id tgt = (s', r) → status_of s id' t' = Some a →
  ∃ b, status_of s' id' t' = Some b ∧ rtc lifecycle a b.
Proof.
  intros Hc Hs. destruct (decide (id = id' ∧ t = t')) as [[<- <-]|Hne].
  - destruct r as [c|e].
    + apply ChangeStatus_Ok in Hc as (row & a' & b & Hf & _ & Ha & -> & -> & Hc).
      apply status_of_Some in Hs as (row' & Hf' & Ha'). rewrite Hf in Hf'. simplify_eq.
      rewrite Ha in Ha'. simplify_eq.
      destruct Hc as [[-> ->]|(Hl & u & v & Hf')].
      * exists b. split; [|done]. apply status_of_Some. eauto.
      * exists b. split; [|by apply rtc_once]. apply status_of_Some. eauto.
    + apply ChangeStatus_Err in Hc as ->. eauto using rtc_refl.
  - exists a. split; [|done]. apply status_of_Some in Hs as (row & Hf & Ha).
    apply status_of_Some. exists row. split; [|done]. rewrite <- Hf.
    eapply ChangeStatus_frame; [done|].
    destruct (decide (id = id')); [right; naive_solver|by left].
Qed.
End change_status_facts.

(** ** Concurrent calls

    The service reads the row, checks the transition and writes the new
    status in separate repository calls, with no lock or version test in
    between. A thread is one request; the store is shared. *)
Inductive thread :=
| Called (tgt : string)
| Checked (tgt : string) (row : SubscriptionRow) (changed : bool)
| Returned (r : result service_error SubscriptionStatusChange).

Section interleaving.
Context {S : Type} `{SubscriptionRepository S} (t id : string).

Inductive thread_step : S * thread → S * thread → Prop :=
| step_check s tgt row changed :
    ChangeStatus_check s t id tgt = Ok (row, changed) →
    thread_step (s, Called tgt) (s, Checked tgt row changed)
| step_reject s tgt e :
    ChangeStatus_check s t id tgt = Err e →
    thread_step (s, Called tgt) (s, Returned (Err e))
| step_write s tgt row changed s' r :
    ChangeStatus_write s t id tgt row changed = (s', r) →
    thread_step (s, Checked tgt row changed) (s', Returned r).

(** One of two threads moves. *)
Inductive pair_step : S * thread * thread → S * thread * thread → Prop :=
| pair_left s t1 t2 s' t1' :
    thread_step (s, t1) (s', t1') → pair_step (s, t1, t2) (s', t1', t2)
| pair_right s t1 t2 s' t2' :
    thread_step (s, t2) (s', t2') → pair_step (s, t1, t2) (s', t1, t2').

(** A thread that runs alone is a call of [ChangeStatus]. *)
Lemma thread_alone s ac tgt s' r :
  ChangeStatus s t ac id tgt = (s', r) ↔ rtc thread_step (s, Called tgt) (s', Returned r).
Proof.
  unfold ChangeStatus. split.
  - destruct (ChangeStatus_check s t id tgt) as [[row ch]|e] eqn:Hc.
    + intros Hw. eapply rtc_l; [by apply step_check|]. by apply rtc_once, step_write.
    + intros [= <- <-]. by apply rtc_once, step_reject.
  - intros Hr. inversion Hr as [|? ? ? Hs1 Hr1]; subst.
    inversion Hs1 as [? ? row ch Hc|? ? e Hc|]; subst; rewrite Hc.
    + inversion Hr1 as [|? ? ? Hs2 Hr2]; subst. inversion Hs2; subst.
      inversion Hr2 as [|? ? ? Hs3]; subst; [done|]. inversion Hs3.
    + inversion Hr1 as [|? ? ? Hs2]; subst; [done|]. inversion Hs2.
Qed.
End interleaving.

(** A row and a store for concrete runs. *)
Definition sample_row (st : string) : SubscriptionRow :=
  {| ID := "sub-1"; PlanID := "plan-1"; TenantID := "t-1"; CustomerID := "c-1";
     Status := st; Amount := "1999"; Currency := "usd"; Interval := "month";
     NextBilling := ""; UpdatedAt := 0; Version := 1; DeletedAt := None |}%string.
Definition sample_store (st : string) : MockSubscriptionRepo :=
  NewMockSubscriptionRepo [sample_row st].

(** C1: a transition is accepted exactly when it is the identity or one of
    the seven edges of the subscription lifecycle, and the error tells an
    unknown current state from a forbidden edge. *)
Theorem CanTransition_refines_lifecycle from to :
  (CanTransition from to = None ↔
     from = to ∨ ∃ a b, from = to_string a ∧ to = to_string b ∧ lifecycle a b) ∧
  (CanTransition from to = Some (UnknownCurrentStateErr from) ↔
     from ≠ to ∧ IsKnownStatus from = false) ∧
  (∀ f t, CanTransition from to = Some (InvalidTransitionErr f t) →
     f = from ∧ t = to ∧ IsKnownStatus from = true).
Proof.
  destruct (decide (from = to)) as [<-|Hne].
  - unfold CanTransition. rewrite decide_True by done. naive_solver.
  - destruct (IsKnownStatus from) eqn:Hk.
    + pose proof Hk as [l Hl]%known_allowed. apply IsKnownStatus_spec in Hk as [a ->].
      unfold CanTransition. rewrite decide_False, Hl by done.
      destruct (any _ l) eqn:Ha.
      * apply any_true in Ha as (x & Hx & ->%bool_decide_eq_true).
        destruct (allowed_edge _ _ _ Hl Hx) as (b & -> & Hb). naive_solver.
      * split_and!; [|naive_solver..]. split; [done|].
        intros [?|(a' & b & Haa & -> & Hb)]; [done|]. simplify_eq.
        assert (CanTransition (to_string a') (to_string b) = None) as Hc
          by (apply CanTransition_to_string; auto).
        unfold CanTransition in Hc. rewrite decide_False, Hl, Ha in Hc; done.
    + destruct (allowedTransitions !! from) eqn:Hl.
      { assert (IsKnownStatus from = true) by (apply known_allowed; eauto). congruence. }
      unfold CanTransition. rewrite decide_False, Hl by done. split_and!; [|naive_solver..].
      split; [done|]. intros [?|(a & b & -> & _)]; [done|].
      assert (IsKnownStatus (to_string a) = true) by (apply IsKnownStatus_spec; eauto). congruence.
Qed.

(** C2: [ChangeStatus] on every branch. An error leaves the store as it was
    and names the first condition that failed: an unknown target, a missing
    row, a failed read, a soft-deleted row, an unknown stored status, a
    forbidden edge or a failed write. A success means the row is there and
    not deleted; it reports the status the row had, moves it along one
    lifecycle edge (or not at all, when it is already there) changing nothing
    else but the two columns the repository maintains, and touches no other
    subscription and no other tenant. *)
Theorem ChangeStatus_correct {S} `{SubscriptionRepositoryLaws S} (s s' : S) t ac id tgt r :
  ChangeStatus s t ac id tgt = (s', r) →
  match r with
  | Err e => s' = s ∧ refused s t id tgt e
  | Ok c =>
      ∃ row a b,
        FindByIDAndTenant s id t = Ok row ∧ TenantID row = t ∧ DeletedAt row = None ∧
        Status row = to_string a ∧ tgt = to_string b ∧ change_ID c = ID row ∧
        change_PreviousStatus c = to_string a ∧ change_Status c = to_string b ∧
        change_Changed c = negb (bool_decide (a = b)) ∧
        (a = b ∧ s' = s ∨
         lifecycle a b ∧ ∃ u v, FindByIDAndTenant s' id t = Ok (written tgt u v row))
  end ∧
  ∀ id' t', id ≠ id' ∨ t ≠ t' →
    FindByIDAndTenant s' id' t' = FindByIDAndTenant s id' t'.
Proof.
  intros Hc. split; [|intros ? ?; by eapply ChangeStatus_frame].
  destruct r as [c|e]; [|split; [by eapply ChangeStatus_Err|by eapply ChangeStatus_refused]].
  apply ChangeStatus_Ok in Hc as (row & a & b & Hf & Hd & Ha & -> & -> & Hc).
  exists row, a, b. split_and!; try done. by eapply find_scoped.
Qed.

Lemma ChangeStatus_correct_witness :
  let r := ChangeStatus (sample_store StatusActive) "t-1" "ops" "sub-1" StatusPaused in
  is_ok (snd r) = true ∧
  ∃ u v, FindByIDAndTenant (fst r) "sub-1" "t-1"
    = Ok (written StatusPaused u v (sample_row StatusActive)).
Proof.
  intros r. split; [vm_compute; reflexivity|].
  pose proof (ChangeStatus_correct _ _ _ _ _ _ _ (surjective_pairing r)) as [Hr _].
  assert (snd r = Ok {| change_ID := "sub-1"; change_Status := StatusPaused;
    change_PreviousStatus := StatusActive; change_Changed := true |}) as Hs
    by (vm_compute; reflexivity).
  rewrite Hs in Hr.
  destruct Hr as (row & a & b & Hf & _ & _ & Ha & _ & _ & _ & _ & Hch & [[He _]|[_ Hw]]).
  - rewrite bool_decide_true in Hch by exact He. discriminate.
  - assert (FindByIDAndTenant (sample_store StatusActive) "sub-1" "t-1"
      = Ok (sample_row StatusActive)) as Hf' by (vm_compute; reflexivity).
    rewrite Hf' in Hf. injection Hf as <-. exact Hw.
Defined.

(** C3: under any sequence of calls that do not overlap, each subscription's
    status follows the lifecycle, so a cancelled or expired subscription
    keeps its status for ever. *)
Theorem ChangeStatus_calls_follow_lifecycle {S} `{SubscriptionRepositoryLaws S}
    (s s' : S) id t a :
  calls s s' → status_of s id t = Some a →
  ∃ b, status_of s' id t = Some b ∧ rtc lifecycle a b ∧ (terminal a = true → b = a).
Proof.
  intros Hc. revert a. induction Hc as [s|s s1 s2 t' ac id' tgt r Hc _ IH]; intros a Ha.
  - exists a. split_and!; [done|apply rtc_refl|done].
  - destruct (ChangeStatus_status _ _ _ _ _ _ _ _ _ _ Hc Ha) as (b & Hb & Hab).
    destruct (IH _ Hb) as (d & Hd & Hbd & _). exists d.
    assert (rtc lifecycle a d) by (by etrans).
    split_and!; [done..|]. eauto using lifecycle_terminal_rtc.
Qed.

Lemma ChangeStatus_calls_follow_lifecycle_witness :
  calls (sample_store StatusCancelled)
    (fst (ChangeStatus (sample_store StatusCancelled) "t-1" "ops" "sub-1" StatusActive)) ∧
  ∃ b, status_of (fst (ChangeStatus (sample_store StatusCancelled) "t-1" "ops" "sub-1"
         StatusActive)) "sub-1" "t-1" = Some b ∧ b = Cancelled.
Proof.
  assert (Hc : calls (sample_store StatusCancelled)
    (fst (ChangeStatus (sample_store StatusCancelled) "t-1" "ops" "sub-1" StatusActive))).
  { eapply calls_cons; [apply surjective_pairing|apply calls_nil]. }
  split; [exact Hc|].
  destruct (ChangeStatus_calls_follow_lifecycle _ _ "sub-1" "t-1" Cancelled Hc) as (b & Hb & _ & Ht).
  - vm_compute. reflexivity.
  - exists b. split; [exact Hb|]. apply Ht. reflexivity.
Defined.

(** Calls that overlap escape the lifecycle. Two requests on one active
    subscription, one cancelling and one pausing it, can both succeed, and
    the subscription goes from cancelled back to paused. *)
Theorem ChangeStatus_overlap_revives :
  ∃ (m1 m2 : MockSubscriptionRepo) (th1 th2 : thread) (c1 c2 : SubscriptionStatusChange),
    rtc (pair_step "t-1" "sub-1")
      (sample_store StatusActive, Called StatusCancelled, Called StatusPaused)
      (m1, th1, th2) ∧
    status_of m1 "sub-1" "t-1" = Some Cancelled ∧
    rtc (pair_step "t-1" "sub-1") (m1, th1, th2)
      (m2, Returned (Ok c1), Returned (Ok c2)) ∧
    status_of m2 "sub-1" "t-1" = Some Paused ∧ ¬ lifecycle Cancelled Paused.
Proof.
  set (m0 := sample_store StatusActive).
  set (w1 := ChangeStatus_write m0 "t-1" "sub-1" StatusCancelled (sample_row StatusActive) true).
  set (w2 := ChangeStatus_write (fst w1) "t-1" "sub-1" StatusPaused (sample_row StatusActive) true).
  assert (∃ c1, snd w1 = Ok c1) as [c1 Hc1] by (vm_compute; eauto).
  assert (∃ c2, snd w2 = Ok c2) as [c2 Hc2] by (vm_compute; eauto).
  exists (fst w1), (fst w2), (Returned (Ok c1)),
    (Checked StatusPaused (sample_row StatusActive) true), c1, c2. split_and!.
  - eapply rtc_l; [apply pair_left, step_check; vm_compute; reflexivity|].
    eapply rtc_l; [apply pair_right, step_check; vm_compute; reflexivity|].
    apply rtc_once, pair_left, step_write. rewrite <- Hc1. apply surjective_pairing.
  - vm_compute. reflexivity.
  - apply rtc_once, pair_right, step_write. rewrite <- Hc2. apply surjective_pairing.
  - vm_compute. reflexivity.
  - by inversion 1.
Qed.

(** a subscription detail is returned only for a live row that the
    repository (or the loader) finds under the caller's tenant and that the
    caller owns, and its amount fits an [int64]. *)
Theorem GetDetail_authorised {S} `{SubscriptionRepositoryLaws S}
    FindPlan ToUpper parse format (s : S) loader tenantID callerID subscriptionID d ws :
  GetDetail FindPlan ToUpper parse format s loader tenantID callerID subscriptionID
    = Ok (d, ws) →
  ∃ row,
    match loader with
    | Some l => LoadSubscription l tenantID subscriptionID = Ok row
    | None => FindByIDAndTenant s subscriptionID tenantID = Ok row ∧ TenantID row = tenantID
    end ∧
    DeletedAt row = None ∧ CustomerID row = callerID ∧ Customer d = callerID ∧
    detail_ID d = ID row ∧ in_int64 (AmountCents (detail_Billing d)) ∧
    (Plan d = None ↔ ws = ["plan not found"%string]).
Proof.
  unfold GetDetail, fetch_row, fetch_plan. intros Hg.
  destruct (match loader with Some l => _ | None => _ end) as [row|] eqn:Hrow; [|done].
  case_decide as Hdel; [done|]. case_decide as Hown; [done|].
  exists row.
  destruct (match loader with Some l => LoadPlan _ _ _ | None => _ end) as [pr|[]];
    [|..]; simplify_eq; destruct (ParseInt (Amount row)) eqn:Hp; simplify_eq/=.
  all: split_and!; try done; eauto with go.
  all: try (by destruct (DeletedAt row) eqn:?; [destruct Hdel; eauto|]).
  all: try (destruct loader; [done|split; [done|by eapply find_scoped]]).
Qed.

Lemma GetDetail_authorised_witness :
  ∃ d ws, GetDetail (λ _, Err ErrNotFound) id (λ _, None) (λ _, ""%string)
            (sample_store StatusActive) None "t-1" "c-1" "sub-1" = Ok (d, ws) ∧
          Customer d = "c-1"%string.
Proof.
  destruct (GetDetail (λ _, Err ErrNotFound) id (λ _, None) (λ _, ""%string)
            (sample_store StatusActive) None "t-1" "c-1" "sub-1") as [[d ws]|] eqn:E.
  - exists d, ws. split; [reflexivity|].
    destruct (GetDetail_authorised _ _ _ _ _ _ _ _ _ _ _ E) as (? & _ & _ & _ & Hc & _).
    exact Hc.
  - vm_compute in E. discriminate.
Defined.
End Service.
