(* ===== verification/Saga.v ===== *)
(** * Sagas: coordinator, store, retry policy and the cancellation flow

    - [Policies] models [internal/saga/policies.go];
    - [SagaTypes] models the types of [internal/saga/saga.go] and the store
      interface; [MemoryStore] models [internal/saga/store_memory.go];
    - [Coordinator] models [internal/saga/coordinator.go];
    - [Flows] models [internal/saga/flows.go] on top of the subscription
      service of [Subscriptions].

    A step is a Go closure: here a function on the saga's context (the map
    every step of the saga shares) and on the world outside the saga. The
    prometheus counters are left out. *)
From stdpp Require Import base gmap strings list relations sorting.
From Stdlib Require Import ZArith Lia SpecFloat.
From S2P Require Import Prelude GoFloat Subscriptions.
From Stdlib Require String.

Module Policies.
Record RetryPolicy := {
  MaxAttempts : Z;
  BaseDelay : Duration;
  MaxDelay : Duration;
  Jitter : float64;
}.

Definition DefaultRetry : RetryPolicy :=
  {| MaxAttempts := 3; BaseDelay := 100 * Time.Millisecond;
     MaxDelay := 2 * Time.Second; Jitter := f_lit 2 10 |}.

Definition DefaultRetryPolicy : RetryPolicy := DefaultRetry.

(** [None] is the nil policy. *)
Definition ShouldRetry (p : option RetryPolicy) (retries : Z) : bool :=
  match p with
  | None => false
  | Some p => (retries <? MaxAttempts p) && (0 <=? retries)
  end.

(** [rnd] is the value of [rand.Float64()]. *)
Definition NextDelay (p : option RetryPolicy) (retries : Z) (rnd : float64) : Duration :=
  match p with
  | None => 0
  | Some p =>
      let base := f_mul (f_of_int (BaseDelay p)) (f_of_int retries) in
      if f_le base (f_of_int 0) then 0
      else
        let span := f_mul base (Jitter p) in
        let delay := int64_of_float
          (f_add (f_sub base span) (f_mul (f_mul (f_of_int 2) span) rnd)) in
        if (0 <? MaxDelay p) && (MaxDelay p <? delay) then MaxDelay p else delay
  end.

Lemma NextDelay_capped p r rnd :
  0 < MaxDelay p → NextDelay (Some p) r rnd ≤ MaxDelay p.
Proof. intros H. unfold NextDelay. repeat case_match; lia. Qed.
End Policies.

Module SagaTypes.
Import Policies.

Inductive StepStatus :=
| StepPending | StepRunning | StepRetrying | StepCompleted | StepFailed
| StepCompensating | StepCompensated | StepCompensationFailed.

(** [SagaUnset] is the empty string, the status of a saga not begun. *)
Inductive SagaStatus :=
| SagaUnset | SagaRunning | SagaCompleted | SagaFailed | SagaCompensating | SagaCompensated.

#[export] Instance StepStatus_eq_dec : EqDecision StepStatus.
Proof. solve_decision. Defined.
#[export] Instance SagaStatus_eq_dec : EqDecision SagaStatus.
Proof. solve_decision. Defined.

(** A value of type [any] in the saga's context. *)
Inductive value := VString (s : string) | VBool (b : bool) | VOther (n : Z).

(** The context is a map shared by reference between the steps. *)
Definition SagaContext := gmap string value.
Definition NewSagaContext (initial : option SagaContext) : SagaContext := default ∅ initial.
Definition ctx_Set (k : string) (v : value) (sc : SagaContext) : SagaContext := <[k := v]> sc.
Definition ctx_Get (k : string) (sc : SagaContext) : option value := sc !! k.

Inductive saga_error :=
| StepErr (msg : string)
| StoreNotFound
| StoreErr (msg : string)
| ContextDone
| NoSagaID
| NoSteps (id : string)
| LoadFailed (e : saga_error)
| ReconstructFailed (e : saga_error)
| ServiceFailed (op : string) (e : Service.service_error)
| RepoFailed (op : string) (e : Repository.repo_error).

Definition StepFn (W : Type) : Type := SagaContext → W → SagaContext * W * option saga_error.

Record Step (W : Type) := {
  Key : string;
  ExecuteFn : StepFn W;
  Compensate : option (StepFn W);
  Policy : option RetryPolicy;
}.
Arguments Key {W} _.
Arguments ExecuteFn {W} _.
Arguments Compensate {W} _.
Arguments Policy {W} _.

Record StepResult := {
  sr_SagaID : string;
  StepKey : string;
  sr_Status : StepStatus;
  ErrorMessage : option saga_error;
  ExecutedAt : option Time;
  CompensatedAt : option Time;
  RetryAttempt : Z;
}.

Record Saga (W : Type) := {
  saga_ID : string;
  Name : string;
  saga_Status : SagaStatus;
  Context : SagaContext;
  Steps : list (Step W);
  CreatedAt : Time;
  saga_UpdatedAt : Time;
}.
Arguments saga_ID {W} _.
Arguments Name {W} _.
Arguments saga_Status {W} _.
Arguments Context {W} _.
Arguments Steps {W} _.
Arguments CreatedAt {W} _.
Arguments saga_UpdatedAt {W} _.

Section setters.
Context {W : Type}.
Definition set_Status (st : SagaStatus) (s : Saga W) : Saga W :=
  {| saga_ID := saga_ID s; Name := Name s; saga_Status := st; Context := Context s;
     Steps := Steps s; CreatedAt := CreatedAt s; saga_UpdatedAt := saga_UpdatedAt s |}.
Definition set_Context (c : SagaContext) (s : Saga W) : Saga W :=
  {| saga_ID := saga_ID s; Name := Name s; saga_Status := saga_Status s; Context := c;
     Steps := Steps s; CreatedAt := CreatedAt s; saga_UpdatedAt := saga_UpdatedAt s |}.
Definition set_times (c u : Time) (s : Saga W) : Saga W :=
  {| saga_ID := saga_ID s; Name := Name s; saga_Status := saga_Status s;
     Context := Context s; Steps := Steps s; CreatedAt := c; saga_UpdatedAt := u |}.
End setters.

(** The [Store] interface over a store of type [St]. *)
Class Store (W St : Type) := {
  Save : Saga W → St → St * option saga_error;
  Load : string → St → result saga_error (Saga W * list StepResult);
  SaveStepResult : string → StepResult → St → St * option saga_error;
}.
End SagaTypes.

Module MemoryStore.
Import SagaTypes.

Record memoryStore (W : Type) := {
  sagas : gmap string (Saga W);
  results : gmap string (gmap string StepResult);
}.
Arguments sagas {W} _.
Arguments results {W} _.

Section store.
Context {W : Type} `{GoRuntime}.
Implicit Types (s : memoryStore W).

Definition NewMemoryStore : memoryStore W := {| sagas := ∅; results := ∅ |}.

Definition mem_Save (saga : Saga W) s : memoryStore W * option saga_error :=
  ({| sagas := <[saga_ID saga := saga]> (sagas s); results := results s |}, None).

Definition mem_Load (sagaID : string) s
    : result saga_error (Saga W * list StepResult) :=
  match sagas s !! sagaID with
  | None => Err StoreNotFound
  | Some saga =>
      Ok (saga, match results s !! sagaID with
                | Some stepMap => (map_range stepMap).*2
                | None => []
                end)
  end.

Definition mem_SaveStepResult (sagaID : string) (sr : StepResult) s
    : memoryStore W * option saga_error :=
  match sagas s !! sagaID with
  | None => (s, Some StoreNotFound)
  | Some _ =>
      let stepMap := default ∅ (results s !! sagaID) in
      ({| sagas := sagas s;
          results := <[sagaID := <[StepKey sr := sr]> stepMap]> (results s) |}, None)
  end.

(** The pass of the inner loop of [sortByCreatedAt]: [x] is [sagas[i]],
    the list is what follows it; an element created before [x] is swapped
    into position [i]. *)
Fixpoint bubble (x : Saga W) (l : list (Saga W)) : Saga W * list (Saga W) :=
  match l with
  | [] => (x, [])
  | y :: l =>
      if Time.Before (CreatedAt y) (CreatedAt x) then
        let '(m, l') := bubble y l in (m, x :: l')
      else
        let '(m, l') := bubble x l in (m, y :: l')
  end.

Fixpoint sort_loop (n : nat) (l : list (Saga W)) : list (Saga W) :=
  match n, l with
  | S n, x :: l => let '(m, l') := bubble x l in m :: sort_loop n l'
  | _, _ => l
  end.

Definition sortByCreatedAt (l : list (Saga W)) : list (Saga W) :=
  sort_loop (length l) l.

Definition mem_ListRunning s : list (Saga W) :=
  sortByCreatedAt
    (filter (λ saga, saga_Status saga = SagaRunning ∨ saga_Status saga = SagaCompensating)
      (map_range (sagas s)).*2).

Definition mem_Reset s : memoryStore W := NewMemoryStore.

Lemma bubble_spec x l m l' :
  bubble x l = (m, l') →
  m :: l' ≡ₚ x :: l ∧ ∀ y, y ∈ l' → CreatedAt m ≤ CreatedAt y.
Proof.
  revert x m l'. induction l as [|y l IH]; intros x m l' Hb; simpl in Hb.
  { simplify_eq. split; [done|]. intros y Hy. by apply elem_of_nil in Hy. }
  assert (∀ z m' l2, bubble z l = (m', l2) → CreatedAt m' ≤ CreatedAt z) as Hle.
  { intros z m' l2 Hz. destruct (IH _ _ _ Hz) as [Hp Hmin].
    assert (z ∈ m' :: l2) as [->|Hin]%elem_of_cons by (rewrite Hp; left); [done|auto]. }
  destruct (Time.Before _ _) eqn:Hlt; [apply Before_true in Hlt|apply Before_false in Hlt].
  - destruct (bubble y l) as [m' l2] eqn:Hy. simplify_eq.
    destruct (IH _ _ _ Hy) as [Hp Hmin]. apply Hle in Hy. split.
    + by rewrite (Permutation_swap x m l2), Hp.
    + intros z [->|Hz]%elem_of_cons; [lia|auto].
  - destruct (bubble x l) as [m' l2] eqn:Hx. simplify_eq.
    destruct (IH _ _ _ Hx) as [Hp Hmin]. apply Hle in Hx. split.
    + rewrite (Permutation_swap y m l2), Hp. apply Permutation_swap.
    + intros z [->|Hz]%elem_of_cons; [lia|auto].
Qed.

Lemma length_bubble x l : length (bubble x l).2 = length l.
Proof.
  revert x. induction l as [|y l IH]; intros x; simpl; [done|].
  case_match; [pose proof (IH y) as Hl; destruct (bubble y l)
              |pose proof (IH x) as Hl; destruct (bubble x l)]; simpl in *; lia.
Qed.

Lemma sort_loop_spec n l :
  (length l ≤ n)%nat →
  sort_loop n l ≡ₚ l ∧ StronglySorted (λ x y, CreatedAt x ≤ CreatedAt y) (sort_loop n l).
Proof.
  revert l. induction n as [|n IH]; intros [|x l] Hn; simpl in *;
    try (by split; [done|constructor]); [lia|].
  pose proof (length_bubble x l) as Hlen. destruct (bubble x l) as [m l'] eqn:Hb.
  apply bubble_spec in Hb as [Hp Hmin]. simpl in Hlen.
  destruct (IH l') as [Hp' Hs]; [lia|]. split; [by rewrite Hp'|].
  constructor; [done|]. apply Forall_forall. intros y Hy. apply Hmin. by rewrite <- Hp'.
Qed.

#[export] Instance memory_store : Store W (memoryStore W) := {
  Save := mem_Save;
  Load := mem_Load;
  SaveStepResult := mem_SaveStepResult;
}.

End store.

(** [ListRunning] returns exactly the stored sagas that are running or
    compensating, each once, ordered by creation time: the hand-written
    exchange sort sorts. *)
Theorem ListRunning_correct {W} `{GoRuntime} (s : memoryStore W) :
  StronglySorted (λ x y, CreatedAt x ≤ CreatedAt y) (mem_ListRunning s) ∧
  mem_ListRunning s ≡ₚ
    filter (λ g, saga_Status g = SagaRunning ∨ saga_Status g = SagaCompensating)
      (map_to_list (sagas s)).*2 ∧
  ∀ g, g ∈ mem_ListRunning s ↔
    (∃ id, sagas s !! id = Some g) ∧
    (saga_Status g = SagaRunning ∨ saga_Status g = SagaCompensating).
Proof.
  unfold mem_ListRunning, sortByCreatedAt.
  set (l := filter _ (map_range (sagas s)).*2).
  destruct (sort_loop_spec (length l) l) as [Hp Hs]; [done|].
  split_and!; [done|by rewrite Hp; unfold l; rewrite map_range_perm|].
  intros g. rewrite Hp. unfold l. rewrite list_elem_of_filter, list_elem_of_fmap.
  split.
  - intros [Hg ([k g'] & -> & Hin)]. apply elem_of_map_range in Hin. eauto.
  - intros [[id Hid] Hg]. split; [done|]. exists (id, g). by rewrite elem_of_map_range.
Qed.
End MemoryStore.

Module Coordinator.
Import Policies SagaTypes MemoryStore.

Section coordinator.
Context {W St : Type} `{Store W St}.
(** [time.Now()], [rand.Float64()] and the [select] between [ctx.Done()]
    and [time.After(delay)], which either fails or lets the delay pass. *)
Context (now : W → Time) (rnd : W → float64)
        (wait : Duration → W → W * option saga_error).

(** Everything one call of the coordinator reads and writes: the store, the
    world, and the [*Saga] it was given. *)
Record sys := { st : St; wd : W; sg : Saga W }.

Definition save_result (s : sys) (sr : StepResult) : sys * option saga_error :=
  let '(st', e) := SaveStepResult (saga_ID (sg s)) sr (st s) in
  ({| st := st'; wd := wd s; sg := sg s |}, e).

Definition save (s : sys) : sys * option saga_error :=
  let g := set_times (CreatedAt (sg s)) (now (wd s)) (sg s) in
  let '(st', e) := Save g (st s) in
  ({| st := st'; wd := wd s; sg := g |}, e).

Definition begin (s : sys) : sys * option saga_error :=
  let n := now (wd s) in
  let g := set_Status SagaRunning (sg s) in
  let created := if Time.IsZero (CreatedAt g) then n else CreatedAt g in
  let g := set_times created n g in
  let '(st', e) := Save g (st s) in
  ({| st := st'; wd := wd s; sg := g |}, e).

Definition with_status (x : SagaStatus) (s : sys) : sys :=
  {| st := st s; wd := wd s; sg := set_Status x (sg s) |}.

(** Calls a closure of a step on the saga's context. *)
Definition call (f : StepFn W) (s : sys) : sys * option saga_error :=
  let '(c, w, e) := f (Context (sg s)) (wd s) in
  ({| st := st s; wd := w; sg := set_Context c (sg s) |}, e).

Definition step_result (s : sys) (k : string) (x : StepStatus) (e : option saga_error)
    (ex co : option Time) (r : Z) : StepResult :=
  {| sr_SagaID := saga_ID (sg s); StepKey := k; sr_Status := x; ErrorMessage := e;
     ExecutedAt := ex; CompensatedAt := co; RetryAttempt := r |}.

Fixpoint runStep_loop (fuel : nat) (step : Step W) (n : Time) (retries : Z) (s : sys)
    : option (sys * option saga_error) :=
  match fuel with
  | O => None
  | S fuel =>
      let '(s, err) := call (ExecuteFn step) s in
      match err with
      | None =>
          Some (save_result s (step_result s (Key step) StepCompleted None (Some n) None 0))
      | Some err =>
          if bool_decide (Policy step = None) || negb (ShouldRetry (Policy step) (retries + 1))
          then
            let '(s, _) := save_result s
              (step_result s (Key step) StepFailed (Some err) (Some n) None 0) in
            Some (s, Some err)
          else
            let retries := retries + 1 in
            match save_result s
              (step_result s (Key step) StepRetrying None (Some n) None retries) with
            | (s, Some rerr) => Some (s, Some rerr)
            | (s, None) =>
                let delay := NextDelay (Policy step) retries (rnd (wd s)) in
                match wait delay (wd s) with
                | (w, Some e) => Some ({| st := st s; wd := w; sg := sg s |}, Some e)
                | (w, None) =>
                    runStep_loop fuel step n retries {| st := st s; wd := w; sg := sg s |}
                end
            end
      end
  end.

(** A step is attempted at most [MaxAttempts] times, and at least once. *)
Definition attempts_bound (step : Step W) : nat :=
  match Policy step with
  | None => 1
  | Some p => Nat.max 1 (Z.to_nat (MaxAttempts p))
  end.

Definition runStep (step : Step W) (s : sys) : sys * option saga_error :=
  default (s, None) (runStep_loop (attempts_bound step) step (now (wd s)) 0 s).

(** The loop [for j := failedIdx - 1; j >= 0; j--], over the steps already
    executed, latest first. Returns whether a compensation failed. *)
Fixpoint compensate_loop (l : list (Step W)) (s : sys) : sys * bool :=
  match l with
  | [] => (s, false)
  | step :: l =>
      let compAt := now (wd s) in
      match Compensate step with
      | None =>
          let '(s, _) := save_result s
            (step_result s (Key step) StepCompensated None None (Some compAt) 0) in
          compensate_loop l s
      | Some f =>
          match call f s with
          | (s, Some cerr) =>
              let '(s, _) := save_result s
                (step_result s (Key step) StepCompensationFailed (Some cerr) None
                  (Some compAt) 0) in
              (s, true)
          | (s, None) =>
              let '(s, _) := save_result s
                (step_result s (Key step) StepCompensated None None (Some compAt) 0) in
              compensate_loop l s
          end
      end
  end.

Definition failAndCompensate (failedIdx : nat) (s : sys) : sys :=
  let '(s, compFailed) := compensate_loop (reverse (take failedIdx (Steps (sg s)))) s in
  let s := with_status (if compFailed : bool then SagaFailed else SagaCompensated) s in
  fst (save s).

(** [runFrom] from index [i], whose remaining steps are [rest]. *)
Fixpoint runFrom_loop (done : gmap string bool) (i : nat) (rest : list (Step W)) (s : sys)
    : sys * option saga_error :=
  match rest with
  | [] => (s, None)
  | step :: rest =>
      if default false (done !! Key step) then runFrom_loop done (S i) rest s
      else match runStep step s with
      | (s, Some err) => (failAndCompensate i s, Some err)
      | (s, None) => runFrom_loop done (S i) rest s
      end
  end.

Definition runFrom (done : gmap string bool) (s : sys) : sys * option saga_error :=
  runFrom_loop done 0 (Steps (sg s)) s.

Definition run_and_complete (done : gmap string bool) (s : sys) : sys * option saga_error :=
  match begin s with
  | (s, Some e) => (s, Some e)
  | (s, None) =>
      match runFrom done s with
      | (s, None) => save (with_status SagaCompleted s)
      | (s, Some e) => (s, Some e)
      end
  end.

Definition Execute (s : sys) : sys * option saga_error :=
  if decide (saga_ID (sg s) = ""%string) then (s, Some NoSagaID)
  else match Steps (sg s) with
  | [] => (s, Some (NoSteps (saga_ID (sg s))))
  | _ => run_and_complete ∅ s
  end.

(** [done[sr.StepKey] = sr.Status == StepCompleted] for each result. *)
Definition done_map (results : list StepResult) : gmap string bool :=
  foldl (λ m sr, <[StepKey sr := bool_decide (sr_Status sr = StepCompleted)]> m) ∅ results.

(** [constructor] is [None] when the coordinator was built without one. *)
Definition Resume (constructor : option (Saga W → result saga_error (Saga W)))
    (sagaID : string) (store : St) (w : W) : St * W * option saga_error :=
  match Load sagaID store with
  | Err e => (store, w, Some (LoadFailed e))
  | Ok (saga, results) =>
      match match constructor with Some f => f saga | None => Ok saga end with
      | Err e => (store, w, Some (ReconstructFailed e))
      | Ok saga =>
          match Steps saga with
          | [] => (store, w, Some (NoSteps sagaID))
          | _ =>
              let '(s, e) := run_and_complete (done_map results)
                {| st := store; wd := w; sg := saga |} in
              (st s, wd s, e)
          end
      end
  end.
End coordinator.
Arguments sys : clear implicits.

(** ** The retry loop *)
Section retry.
Context {W St : Type} `{Store W St}.
Context (now : W → Time) (rnd : W → float64)
        (wait : Duration → W → W * option saga_error).
Implicit Types (s : sys W St) (step : Step W).

Lemma should_retry_bound step retries :
  0 ≤ retries →
  bool_decide (Policy step = None) || negb (ShouldRetry (Policy step) (retries + 1)) = false →
  (Z.to_nat retries + 2 ≤ attempts_bound step)%nat.
Proof.
  intros Hr Hb. unfold attempts_bound, ShouldRetry in *.
  destruct (Policy step); [|by rewrite bool_decide_true in Hb]. lia.
Qed.

(** The fuel of [runStep] is never used up. *)
Lemma runStep_loop_total fuel step n retries s :
  0 ≤ retries → (1 ≤ fuel)%nat → (attempts_bound step ≤ fuel + Z.to_nat retries)%nat →
  is_Some (runStep_loop rnd wait fuel step n retries s).
Proof.
  revert retries s. induction fuel as [|fuel IH]; [lia|].
  intros retries s Hr _ Hb. simpl.
  destruct (call (ExecuteFn step) s) as [s1 [err|]]; [|eauto].
  destruct (_ || _) eqn:Hre.
  - destruct (save_result s1 _). eauto.
  - apply should_retry_bound in Hre; [|done].
    destruct (save_result s1 _) as [s2 [rerr|]]; [eauto|].
    destruct (wait _ _) as [w [e|]]; [eauto|]. apply IH; lia.
Qed.

Lemma runStep_loop_fuel step n s :
  is_Some (runStep_loop rnd wait (attempts_bound step) step n 0 s).
Proof.
  apply runStep_loop_total; [done| |lia].
  unfold attempts_bound. destruct (Policy step); lia.
Qed.

(** [tries w] counts the executions of the step in the world. *)
Lemma runStep_loop_attempts (tries : W → nat) fuel step n retries s s' e :
  (∀ c w c' w' r, ExecuteFn step c w = (c', w', r) → tries w' = S (tries w)) →
  (∀ d w w' r, wait d w = (w', r) → tries w' = tries w) →
  0 ≤ retries →
  runStep_loop rnd wait fuel step n retries s = Some (s', e) →
  (tries (wd s) < tries (wd s'))%nat ∧
  (tries (wd s') + Z.to_nat retries ≤ tries (wd s) + Nat.max (attempts_bound step) (S (Z.to_nat retries)))%nat.
Proof.
  intros Hx Hw. revert retries s. induction fuel as [|fuel IH]; [done|].
  intros retries s Hr Hl. simpl in Hl. unfold call, save_result in Hl.
  destruct (ExecuteFn step _ _) as [[c w] r] eqn:He. apply Hx in He.
  destruct r as [err|]; simpl in Hl.
  2: { destruct (SaveStepResult _ _ _); simplify_eq/=. lia. }
  destruct (_ || _) eqn:Hre.
  { destruct (SaveStepResult _ _ _); simplify_eq/=. lia. }
  apply should_retry_bound in Hre; [|done].
  destruct (SaveStepResult _ _ _) as [st1 [rerr|]]; simplify_eq/=; [lia|].
  destruct (wait _ w) as [w2 [e2|]] eqn:Hwt; apply Hw in Hwt; simplify_eq/=; [lia|].
  apply IH in Hl; [|lia]. simpl in Hl. lia.
Qed.
End retry.

(** ** Runs on the in-memory store *)
Section memory.
Context {W : Type} `{GoRuntime}.
Context (now : W → Time) (rnd : W → float64)
        (wait : Duration → W → W * option saga_error).
Implicit Types (s : sys W (memoryStore W)) (step : Step W).

Definition known s : Prop := is_Some (sagas (st s) !! saga_ID (sg s)).

(** The recorded status of each step, by key. *)
Definition statuses s : gmap string StepStatus :=
  sr_Status <$> default ∅ (results (st s) !! saga_ID (sg s)).

(** The recorded status of the saga. *)
Definition recorded s : option SagaStatus :=
  saga_Status <$> sagas (st s) !! saga_ID (sg s).

(** What every operation keeps: the saga's identity and its steps. *)
Definition same_saga s s' : Prop :=
  saga_ID (sg s') = saga_ID (sg s) ∧ Steps (sg s') = Steps (sg s).

#[local] Instance same_saga_preorder : PreOrder same_saga.
Proof. unfold same_saga. split; [done|]. intros ??? [] []. split; congruence. Qed.

Lemma statuses_wd s w : statuses {| st := st s; wd := w; sg := sg s |} = statuses s.
Proof. done. Qed.

Lemma save_result_memory s sr s' e :
  known s → save_result s sr = (s', e) →
  e = None ∧ known s' ∧ same_saga s s' ∧
  statuses s' = <[StepKey sr := sr_Status sr]> (statuses s).
Proof.
  unfold known, save_result, statuses, same_saga. intros [g Hg] Hs. simpl in Hs.
  unfold mem_SaveStepResult in Hs. rewrite Hg in Hs. simplify_eq/=.
  rewrite Hg, lookup_insert_eq. split_and!; eauto.
  simpl. by rewrite fmap_insert.
Qed.

Lemma save_result_frame s sr s' e :
  save_result s sr = (s', e) → wd s' = wd s ∧ sg s' = sg s.
Proof. unfold save_result. destruct (SaveStepResult _ _ _). by intros [= <- <-]. Qed.

Lemma call_memory s f s' e :
  call f s = (s', e) → known s →
  known s' ∧ same_saga s s' ∧ statuses s' = statuses s.
Proof.
  unfold call, known, statuses, same_saga. destruct (f _ _) as [[c w] r].
  intros [= <- <-]. done.
Qed.

Lemma save_memory s s' e :
  save now s = (s', e) →
  e = None ∧ known s' ∧ same_saga s s' ∧ statuses s' = statuses s ∧
  recorded s' = Some (saga_Status (sg s)).
Proof.
  unfold save, known, same_saga, statuses, recorded. simpl. intros [= <- <-]. simpl.
  rewrite lookup_insert_eq. by split_and!; eauto.
Qed.

Lemma begin_memory s s' e :
  begin now s = (s', e) →
  e = None ∧ known s' ∧ same_saga s s' ∧ statuses s' = statuses s.
Proof.
  unfold begin, known, same_saga, statuses. simpl. intros [= <- <-]. simpl.
  rewrite lookup_insert_eq. by split_and!; eauto.
Qed.

Definition step_outcome (e : option saga_error) (x : StepStatus) : Prop :=
  match e with
  | None => x = StepCompleted
  | Some _ => x = StepFailed ∨ x = StepRetrying
  end.

Lemma runStep_loop_memory fuel step n retries s s' e :
  known s → runStep_loop rnd wait fuel step n retries s = Some (s', e) →
  known s' ∧ same_saga s s' ∧
  ∃ x, statuses s' = <[Key step := x]> (statuses s) ∧ step_outcome e x.
Proof.
  revert retries s. induction fuel as [|fuel IH]; [done|].
  intros retries s Hk Hl. simpl in Hl.
  destruct (call (ExecuteFn step) s) as [s1 r] eqn:Hc.
  apply call_memory in Hc as (Hk1 & Hs1 & Hst1); [|done].
  destruct r as [err|].
  2: { simplify_eq. destruct (save_result s1 _) as [s2 e2] eqn:Hr. simplify_eq.
       apply save_result_memory in Hr as (-> & Hk2 & Hs2 & Hst2); [|done].
       split_and!; [done|by etrans|]. exists StepCompleted. by rewrite Hst2, Hst1. }
  destruct (_ || _).
  { destruct (save_result s1 _) as [s2 e2] eqn:Hr. simplify_eq.
    apply save_result_memory in Hr as (_ & Hk2 & Hs2 & Hst2); [|done].
    split_and!; [done|by etrans|]. exists StepFailed. rewrite Hst2, Hst1. by split; [|left]. }
  destruct (save_result s1 _) as [s2 e2] eqn:Hr.
  apply save_result_memory in Hr as (-> & Hk2 & Hs2 & Hst2); [|done].
  assert (same_saga s s2) by (by etrans).
  destruct (wait _ _) as [w [e3|]].
  { simplify_eq. split_and!; [done..|]. exists StepRetrying.
    rewrite statuses_wd, Hst2, Hst1. by split; [|right]. }
  apply IH in Hl as (Hk3 & Hs3 & x & Hx & Ho); [|done].
  split_and!; [done|by etrans; [|done]|]. exists x. split; [|done].
  by rewrite Hx, statuses_wd, Hst2, Hst1, insert_insert_eq.
Qed.

Lemma runStep_memory step s s' e :
  known s → runStep now rnd wait step s = (s', e) →
  known s' ∧ same_saga s s' ∧
  ∃ x, statuses s' = <[Key step := x]> (statuses s) ∧ step_outcome e x.
Proof.
  unfold runStep. intros Hk Hr.
  destruct (runStep_loop_fuel rnd wait step (now (wd s)) s) as [r Hl].
  rewrite Hl in Hr. simpl in Hr. subst r. by eapply runStep_loop_memory.
Qed.

(** What compensating the steps [l], latest first, does to the recorded
    statuses: the steps of a prefix are compensated; the prefix is all of
    [l], or it ends before a step whose compensation failed, and the steps
    after that one are left as they were. *)
Definition compensation_effect (l : list (Step W)) (failed : bool)
    (m m' : gmap string StepStatus) : Prop :=
  ∃ l1 l2, l = l1 ++ l2 ∧
    (∀ x, x ∈ l1 → m' !! Key x = Some StepCompensated) ∧
    (∀ k, k ∉ Key <$> l → m' !! k = m !! k) ∧
    match failed with
    | false => l2 = []
    | true => ∃ y l3, l2 = y :: l3 ∧ m' !! Key y = Some StepCompensationFailed ∧
        ∀ x, x ∈ l3 → m' !! Key x = m !! Key x
    end.

Lemma compensation_nil m : compensation_effect [] false m m.
Proof. exists [], []. split_and!; [done|set_solver|done..]. Qed.

Lemma compensation_cons step l b m m' :
  Key step ∉ Key <$> l →
  compensation_effect l b (<[Key step := StepCompensated]> m) m' →
  compensation_effect (step :: l) b m m'.
Proof.
  intros Hni (l1 & l2 & -> & Hcomp & Hrest & Hb). exists (step :: l1), l2.
  split_and!; [done| | |].
  - intros x [->|Hx]%elem_of_cons; [|by apply Hcomp].
    by rewrite Hrest, lookup_insert_eq.
  - intros k Hnk. rewrite fmap_cons, not_elem_of_cons in Hnk. destruct Hnk as [Hne Hnk].
    by rewrite Hrest, lookup_insert_ne.
  - destruct b; [|done]. destruct Hb as (y & l3 & -> & Hy & H3).
    exists y, l3. split_and!; [done..|]. intros x Hx. rewrite H3 by done.
    apply lookup_insert_ne. intros Heq. apply Hni. rewrite Heq.
    apply list_elem_of_fmap_2. set_solver.
Qed.

Lemma compensation_failed step l m :
  Key step ∉ Key <$> l →
  compensation_effect (step :: l) true m (<[Key step := StepCompensationFailed]> m).
Proof.
  intros Hni. exists [], (step :: l). split_and!; [done|set_solver| |].
  - intros k Hnk. rewrite fmap_cons, not_elem_of_cons in Hnk. destruct Hnk.
    by rewrite lookup_insert_ne.
  - exists step, l. split_and!; [done|apply lookup_insert_eq|].
    intros x Hx. apply lookup_insert_ne. intros Heq. apply Hni. rewrite Heq.
    by apply list_elem_of_fmap_2.
Qed.

Lemma compensate_loop_memory l s s' b :
  known s → NoDup (Key <$> l) → compensate_loop now l s = (s', b) →
  known s' ∧ same_saga s s' ∧ compensation_effect l b (statuses s) (statuses s').
Proof.
  revert s. induction l as [|step l IH]; intros s Hk Hnd Hl; simpl in Hl.
  { simplify_eq. split_and!; [done..|]. apply compensation_nil. }
  simpl in Hnd. apply NoDup_cons in Hnd as [Hni Hnd].
  destruct (Compensate step) as [f|].
  - destruct (call f s) as [s1 [cerr|]] eqn:Hc;
      apply call_memory in Hc as (Hk1 & Hs1 & Hst1); [|done| |done];
      destruct (save_result s1 _) as [s2 e2] eqn:Hr;
      apply save_result_memory in Hr as (_ & Hk2 & Hs2 & Hst2); try done;
      rewrite Hst1 in Hst2; simpl in Hst2.
    + simplify_eq. split_and!; [done|by etrans|]. rewrite Hst2. by apply compensation_failed.
    + destruct (IH s2 Hk2 Hnd Hl) as (Hk3 & Hs3 & He). rewrite Hst2 in He.
      split_and!; [done|by do 2 (etrans; [done|])|]. by apply compensation_cons.
  - destruct (save_result s _) as [s2 e2] eqn:Hr.
    apply save_result_memory in Hr as (_ & Hk2 & Hs2 & Hst2); [|done].
    destruct (IH s2 Hk2 Hnd Hl) as (Hk3 & Hs3 & He). rewrite Hst2 in He.
    split_and!; [done|by etrans|]. by apply compensation_cons.
Qed.

(** The recorded outcome of a failed run whose failing step follows
    [before]. *)
Definition rolled_back (before : list (Step W)) (m m' : gmap string StepStatus)
    (x : option SagaStatus) : Prop :=
  ∃ b : bool, x = Some (if b then SagaFailed else SagaCompensated) ∧
    compensation_effect (reverse before) b m m'.

Lemma failAndCompensate_memory before rest s s' :
  known s → Steps (sg s) = before ++ rest → NoDup (Key <$> before) →
  failAndCompensate now (length before) s = s' →
  same_saga s s' ∧ rolled_back before (statuses s) (statuses s') (recorded s').
Proof.
  unfold failAndCompensate. intros Hk Hsteps Hnd Hf.
  rewrite Hsteps, take_app_length in Hf.
  destruct (compensate_loop now (reverse before) s) as [s1 b] eqn:Hc.
  apply compensate_loop_memory in Hc as (Hk1 & Hs1 & He);
    [|done|by rewrite fmap_reverse, reverse_Permutation].
  destruct (save now (with_status _ s1)) as [s2 e2] eqn:Hs.
  apply save_memory in Hs as (_ & _ & Hs2 & Hst2 & Hrec). simpl in Hf. subst s'.
  split; [by etrans; [done|]|]. exists b. split; [done|].
  by rewrite Hst2.
Qed.

Lemma runFrom_loop_memory before rest s s' e :
  known s → Steps (sg s) = before ++ rest → NoDup (Key <$> before ++ rest) →
  (∀ x, x ∈ before → statuses s !! Key x = Some StepCompleted) →
  runFrom_loop now rnd wait ∅ (length before) rest s = (s', e) →
  same_saga s s' ∧
  match e with
  | None => known s' ∧ ∀ x, x ∈ before ++ rest → statuses s' !! Key x = Some StepCompleted
  | Some _ => ∃ done step after m x,
      before ++ rest = done ++ step :: after ∧
      (∀ y, y ∈ done → m !! Key y = Some StepCompleted) ∧
      m !! Key step = Some x ∧ (x = StepFailed ∨ x = StepRetrying) ∧
      rolled_back done m (statuses s') (recorded s')
  end.
Proof.
  revert before s. induction rest as [|step rest IH]; intros before s Hk Hsteps Hnd Hdone Hr.
  { simpl in Hr. simplify_eq. split; [done|]. split; [done|].
    intros x Hx. rewrite app_nil_r in Hx. auto. }
  simpl in Hr. rewrite lookup_empty in Hr. simpl in Hr.
  destruct (runStep now rnd wait step s) as [s1 r] eqn:Hrun.
  apply runStep_memory in Hrun as (Hk1 & Hs1 & x & Hst1 & Hx); [|done].
  assert (Steps (sg s1) = before ++ step :: rest) as Hsteps1 by (destruct Hs1; congruence).
  rewrite fmap_app, fmap_cons in Hnd. pose proof Hnd as (Hndb & Hdisj & Hndr)%NoDup_app.
  assert (∀ y, y ∈ before → statuses s1 !! Key y = Some StepCompleted) as Hdone1.
  { intros y Hy. rewrite Hst1, lookup_insert_ne; [auto|]. intros Heq.
    apply (Hdisj (Key y)); [by apply list_elem_of_fmap_2|]. rewrite <- Heq. set_solver. }
  destruct r as [err|]; simplify_eq/=.
  - destruct (failAndCompensate_memory before (step :: rest) s1 _ Hk1 Hsteps1 Hndb eq_refl)
      as [Hs2 Hrb].
    split; [by etrans|]. exists before, step, rest, (statuses s1), x.
    split_and!; [done..| |done|done]. by rewrite Hst1, lookup_insert_eq.
  - replace (S (length before)) with (length (before ++ [step])) in Hr
      by (rewrite length_app; simpl; lia).
    apply IH in Hr; [|done|by rewrite <- app_assoc| |].
    + rewrite <- app_assoc in Hr. destruct Hr as [Hs2 Hr]. split; [by etrans|done].
    + rewrite <- app_assoc; simpl. by rewrite fmap_app, fmap_cons.
    + intros y [Hy| ->%list_elem_of_singleton]%elem_of_app; [auto|].
      rewrite Hst1, lookup_insert_eq. congruence.
Qed.
End memory.
(** Without a retry policy a step is executed once. *)
Lemma runStep_once {W St} `{Store W St} now rnd wait (step : Step W) (s : sys W St) :
  Policy step = None →
  runStep now rnd wait step s =
    let '(s1, err) := call (ExecuteFn step) s in
    match err with
    | None => save_result s1 (step_result s1 (Key step) StepCompleted None (Some (now (wd s))) None 0)
    | Some err =>
        (fst (save_result s1 (step_result s1 (Key step) StepFailed (Some err)
           (Some (now (wd s))) None 0)), Some err)
    end.
Proof.
  intros Hp. unfold runStep, attempts_bound. rewrite Hp. simpl. rewrite Hp.
  destruct (call _ s) as [s1 [err|]]; [|done].
  rewrite bool_decide_true by done. simpl. by destruct (save_result s1 _).
Qed.

Lemma save_wd {W} `{GoRuntime} now (s : sys W (memoryStore W)) :
  wd (fst (save now s)) = wd s.
Proof. done. Qed.

(** The second step failed and the first one cannot be compensated. *)
Lemma failAndCompensate_stuck {W} `{GoRuntime} now step rest f
    (s s1 : sys W (memoryStore W)) e :
  known s → Steps (sg s) = step :: rest → Compensate step = Some f →
  call f s = (s1, Some e) →
  recorded (failAndCompensate now 1 s) = Some SagaFailed ∧
  statuses (failAndCompensate now 1 s) !! Key step = Some StepCompensationFailed ∧
  wd (failAndCompensate now 1 s) = wd s1.
Proof.
  intros Hk Hst Hf Hc. unfold failAndCompensate. rewrite Hst.
  change (reverse (take 1 (step :: rest))) with [step]. unfold compensate_loop.
  rewrite Hf, Hc. apply call_memory in Hc as (Hk1 & _ & Hm1); [|done].
  destruct (save_result s1 _) as [s2 e2] eqn:Hs2.
  pose proof (save_result_frame _ _ _ _ Hs2) as [Hw2 _].
  apply save_result_memory in Hs2 as (_ & Hk2 & _ & Hm2); [|done].
  cbv iota beta zeta. rewrite save_wd. destruct (save now _) as [s3 e3] eqn:Hs3.
  apply save_memory in Hs3 as (_ & _ & _ & Hm3 & Hrec). split_and!; [done| |done].
  simpl. rewrite Hm3. change (statuses (with_status SagaFailed s2)) with (statuses s2).
  rewrite Hm2. apply lookup_insert_eq.
Qed.

(** C5: a run of [Execute] on the in-memory store. If it returns no error the
    saga is recorded as completed and every step as completed. If it returns
    an error, one step is recorded as failed or retrying, and the steps
    before it were completed and then compensated latest first: all of them
    (the saga is recorded as compensated), or down to one whose compensation
    failed, the ones before that left completed (recorded as failed). *)
Theorem Execute_outcome {W} `{GoRuntime} now rnd wait (s s' : sys W (memoryStore W)) e :
  saga_ID (sg s) ≠ ""%string → Steps (sg s) ≠ [] → NoDup (Key <$> Steps (sg s)) →
  Execute now rnd wait s = (s', e) →
  match e with
  | None =>
      recorded s' = Some SagaCompleted ∧
      ∀ x, x ∈ Steps (sg s) → statuses s' !! Key x = Some StepCompleted
  | Some _ => ∃ done step after m x,
      Steps (sg s) = done ++ step :: after ∧
      (∀ y, y ∈ done → m !! Key y = Some StepCompleted) ∧
      m !! Key step = Some x ∧ (x = StepFailed ∨ x = StepRetrying) ∧
      rolled_back done m (statuses s') (recorded s')
  end.
Proof.
  intros Hid Hne Hnd. unfold Execute. rewrite decide_False by done.
  destruct (Steps (sg s)) as [|step0 steps] eqn:Hsteps; [done|].
  unfold run_and_complete. destruct (begin now s) as [s0 e0] eqn:Hb.
  apply begin_memory in Hb as (-> & Hk & [_ Hst] & _). rewrite Hsteps in Hst.
  destruct (runFrom now rnd wait ∅ s0) as [s1 r] eqn:Hrun.
  unfold runFrom in Hrun. rewrite Hst in Hrun.
  pose proof (runFrom_loop_memory now rnd wait [] _ s0 s1 r Hk Hst Hnd) as Hr.
  destruct Hr as [_ Hr]; [intros x Hx; by apply elem_of_nil in Hx|done|].
  destruct r as [err|]; [by intros [= <- <-]|].
  destruct (save now (with_status SagaCompleted s1)) as [s2 e2] eqn:Hs2.
  apply save_memory in Hs2 as (-> & _ & _ & Hm & Hrec). intros [= <- <-].
  split; [done|]. intros x Hx. rewrite Hm. by apply Hr.
Qed.

(** A saga of two steps over a world that is just a log; the second step
    fails. *)
Definition log_step (k : string) (ok : bool) : Step (list string) :=
  {| Key := k;
     ExecuteFn := λ c w, (c, w ++ [("do " +:+ k)%string],
                          if ok then None else Some (StepErr k));
     Compensate := Some (λ c w, (c, w ++ [("undo " +:+ k)%string], None));
     Policy := None |}.
Definition log_saga (steps : list (Step (list string))) : sys (list string) (memoryStore (list string)) :=
  {| st := NewMemoryStore; wd := [];
     sg := {| saga_ID := "s-1"; Name := "demo"; saga_Status := SagaRunning; Context := ∅;
              Steps := steps; CreatedAt := Time.zero; saga_UpdatedAt := Time.zero |} |}.

Lemma Execute_outcome_witness :
  let r := Execute (λ _, 0) (λ _, f_of_int 0) (λ _ w, (w, None))
             (log_saga [log_step "a" true; log_step "b" true; log_step "c" false]) in
  wd (fst r) = ["do a"; "do b"; "do c"; "undo b"; "undo a"]%string ∧
  snd r = Some (StepErr "c") ∧ recorded (fst r) = Some SagaCompensated ∧
  ∃ done step after m x,
    [log_step "a" true; log_step "b" true; log_step "c" false] = done ++ step :: after ∧
    (∀ y, y ∈ done → m !! Key y = Some StepCompleted) ∧
    m !! Key step = Some x ∧ (x = StepFailed ∨ x = StepRetrying) ∧
    rolled_back done m (statuses (fst r)) (recorded (fst r)).
Proof.
  intros r.
  assert (snd r = Some (StepErr "c")) as He by (vm_compute; reflexivity).
  split; [vm_compute; reflexivity|]. split; [exact He|]. split; [vm_compute; reflexivity|].
  assert (Execute (λ _, 0) (λ _, f_of_int 0) (λ _ w, (w, None))
    (log_saga [log_step "a" true; log_step "b" true; log_step "c" false])
    = (fst r, Some (StepErr "c"))) as Hr by (rewrite <- He; apply surjective_pairing).
  apply (Execute_outcome (λ _, 0) (λ _, f_of_int 0) (λ _ w, (w, None))) in Hr.
  - exact Hr.
  - discriminate.
  - discriminate.
  - apply (bool_decide_unpack _). vm_compute. exact I.
Defined.

(** the retry loop of a step always returns, and it executes the step at
    least once and at most [MaxAttempts] times (once when there is no
    policy). [tries] counts executions in the world. *)
Theorem runStep_attempts {W St} `{Store W St} now rnd wait (tries : W → nat) step
    (s s' : sys W St) e :
  (∀ c w c' w' r, ExecuteFn step c w = (c', w', r) → tries w' = S (tries w)) →
  (∀ d w w' r, wait d w = (w', r) → tries w' = tries w) →
  runStep now rnd wait step s = (s', e) →
  runStep_loop rnd wait (attempts_bound step) step (now (wd s)) 0 s = Some (s', e) ∧
  (tries (wd s) < tries (wd s') ≤ tries (wd s) + attempts_bound step)%nat.
Proof.
  intros Hx Hw Hr. destruct (runStep_loop_fuel rnd wait step (now (wd s)) s) as [r Hl].
  unfold runStep in Hr. rewrite Hl in Hr. simpl in Hr. subst r. split; [done|].
  eapply runStep_loop_attempts in Hl; [|done..].
  assert (1 ≤ attempts_bound step)%nat by (unfold attempts_bound; destruct (Policy step); lia).
  lia.
Qed.

(** A step that always fails, over a world that counts its executions. *)
Definition failing_step : Step nat :=
  {| Key := "pay"; ExecuteFn := λ c w, (c, S w, Some (StepErr "declined"));
     Compensate := None; Policy := Some DefaultRetry |}.

Lemma runStep_attempts_witness :
  let s0 : sys nat (memoryStore nat) :=
    {| st := NewMemoryStore; wd := 0%nat;
       sg := {| saga_ID := "s-1"; Name := "demo"; saga_Status := SagaRunning; Context := ∅;
                Steps := [failing_step]; CreatedAt := Time.zero; saga_UpdatedAt := Time.zero |} |} in
  let s1 := fst (begin (λ _, 0) s0) in
  let r := runStep (λ _, 0) (λ _, f_of_int 0) (λ _ w, (w, None)) failing_step s1 in
  wd (fst r) = 3%nat ∧ (wd s1 < wd (fst r) ≤ wd s1 + attempts_bound failing_step)%nat.
Proof.
  intros s0 s1 r. split; [vm_compute; reflexivity|].
  apply (runStep_attempts (λ _, 0) (λ _, f_of_int 0) (λ _ w, (w, None)) id failing_step
           s1 (fst r) (snd r)).
  - intros c w c' w' e [= <- <- <-]. reflexivity.
  - intros d w w' e [= <- <-]. reflexivity.
  - apply surjective_pairing.
Defined.
End Coordinator.

Module Flows.
Import StateMachine Repository Service Policies SagaTypes MemoryStore Coordinator.
Open Scope string_scope.

Section flow.
Context {S : Type} `{SubscriptionRepositoryLaws S}.

(** The services the flow's closures capture, and the clock reading
    [time.Now().UTC().Format(time.RFC3339)] gives. *)
Record world := { subs : S; stmts : MockStatementRepo; clock : string }.

Definition change_status (tenantID actorID subscriptionID target : string) (w : world)
    : world * result service_error SubscriptionStatusChange :=
  let '(s', r) := ChangeStatus (subs w) tenantID actorID subscriptionID target in
  ({| subs := s'; stmts := stmts w; clock := clock w |}, r).

Context (sagaID tenantID actorID subscriptionID customerID refundAmount refundCurrency : string).

Definition refundStatementID : string := "stmt-" +:+ sagaID +:+ "-refund".

Definition cancel_execute : StepFn world := λ sc w,
  match change_status tenantID actorID subscriptionID "cancelled" w with
  | (w, Err e) => (sc, w, Some (ServiceFailed "cancel subscription" e))
  | (w, Ok c) => (ctx_Set "previous_status" (VString (change_PreviousStatus c)) sc, w, None)
  end.

Definition cancel_compensate : StepFn world := λ sc w,
  match ctx_Get "previous_status" sc with
  | None => (sc, w, Some (StepErr "previous status not found in saga context"))
  | Some (VString prev) =>
      match change_status tenantID actorID subscriptionID prev w with
      | (w, Err e) => (sc, w, Some (ServiceFailed "restore subscription status" e))
      | (w, Ok _) => (sc, w, None)
      end
  | Some _ => (sc, w, Some (StepErr "previous status is not a string"))
  end.

Definition refund_execute : StepFn world := λ sc w,
  let stmt := {| stmt_ID := refundStatementID; stmt_TenantID := "";
                 SubscriptionID := subscriptionID; stmt_CustomerID := customerID;
                 PeriodStart := clock w; PeriodEnd := clock w; IssuedAt := clock w;
                 TotalAmount := refundAmount; stmt_Currency := refundCurrency;
                 Kind := "refund"; stmt_Status := "issued"; stmt_DeletedAt := None |} in
  let '(m, e) := stmt_Create (stmts w) stmt in
  let w := {| subs := subs w; stmts := m; clock := clock w |} in
  match e with
  | Some e => (sc, w, Some (RepoFailed "create refund statement" e))
  | None => (ctx_Set "refund_created" (VBool true) sc, w, None)
  end.

Definition refund_compensate : StepFn world := λ sc w,
  match ctx_Get "refund_created" sc with
  | Some (VBool true) =>
      match stmt_FindByID (stmts w) refundStatementID with
      | Err ErrNotFound => (sc, w, None)
      | Err e => (sc, w, Some (RepoFailed "find refund statement for void" e))
      | Ok existing =>
          let '(m, e) := stmt_UpdateArchivedData (stmts w) refundStatementID
            (with_stmt_Status "voided" existing) in
          (sc, {| subs := subs w; stmts := m; clock := clock w |},
           RepoFailed "void refund statement" <$> e)
      end
  | _ => (sc, w, None)
  end.

Definition CancelSubscriptionFlow : Saga world :=
  {| saga_ID := sagaID;
     Name := "cancel_subscription_with_refund";
     saga_Status := SagaUnset;
     Context := NewSagaContext (Some (list_to_map [
       ("tenant_id", VString tenantID); ("actor_id", VString actorID);
       ("subscription_id", VString subscriptionID); ("customer_id", VString customerID);
       ("refund_amount", VString refundAmount); ("refund_currency", VString refundCurrency);
       ("refund_statement_id", VString refundStatementID)]));
     Steps := [
       {| Key := "cancel_subscription"; ExecuteFn := cancel_execute;
          Compensate := Some cancel_compensate; Policy := None |};
       {| Key := "create_refund_statement"; ExecuteFn := refund_execute;
          Compensate := Some refund_compensate; Policy := None |}];
     CreatedAt := Time.zero; saga_UpdatedAt := Time.zero |}.
End flow.
Arguments world : clear implicits.

Section cancel_flow.
Context {S : Type} `{SubscriptionRepositoryLaws S}.
Implicit Types (s : S).

Lemma ChangeStatus_accepts s s1 t ac id a b row :
  FindByIDAndTenant s id t = Ok row → DeletedAt row = None →
  Status row = to_string a → lifecycle a b →
  UpdateStatus s id t (to_string b) = (s1, None) →
  ChangeStatus s t ac id (to_string b) =
    (s1, Ok {| change_ID := ID row; change_Status := to_string b;
               change_PreviousStatus := to_string a; change_Changed := true |}).
Proof.
  intros Hf Hd Ha Hl Hu. unfold ChangeStatus, ChangeStatus_check.
  assert (∀ x, IsKnownStatus (to_string x) = true) as Hk
    by (intros x; apply IsKnownStatus_spec; eauto).
  rewrite Hk, Hf, Hd, Ha, Hk. simpl.
  rewrite decide_False by (intros ->%to_string_inj; by inversion Hl).
  rewrite (proj2 (CanTransition_to_string a b)) by auto. simpl.
  by rewrite Hu, Ha.
Qed.

Lemma ChangeStatus_terminal_rejects s t ac id a b row :
  FindByIDAndTenant s id t = Ok row → DeletedAt row = None →
  Status row = to_string a → terminal a = true → a ≠ b →
  ChangeStatus s t ac id (to_string b) =
    (s, Err (SvcInvalidTransition (InvalidTransitionErr (to_string a) (to_string b)))).
Proof.
  intros Hf Hd Ha Ht Hne. unfold ChangeStatus, ChangeStatus_check.
  assert (∀ x, IsKnownStatus (to_string x) = true) as Hk
    by (intros x; apply IsKnownStatus_spec; eauto).
  rewrite Hk, Hf, Hd, Ha, Hk. simpl.
  rewrite decide_False by (by intros ?%to_string_inj).
  by rewrite CanTransition_terminal by (done || by intros ?%to_string_inj).
Qed.


Context (tenantID actorID subscriptionID : string).

Lemma call_cancel_execute {St} (s : sys (world S) St) row a s1 :
  FindByIDAndTenant (subs (wd s)) subscriptionID tenantID = Ok row →
  DeletedAt row = None → Status row = to_string a → lifecycle a Cancelled →
  UpdateStatus (subs (wd s)) subscriptionID tenantID StatusCancelled = (s1, None) →
  call (cancel_execute tenantID actorID subscriptionID) s =
    ({| st := st s; wd := {| subs := s1; stmts := stmts (wd s); clock := clock (wd s) |};
        sg := set_Context (<["previous_status" := VString (to_string a)]> (Context (sg s))) (sg s) |},
     None).
Proof.
  intros Hf Hd Ha Hl Hu. unfold call, cancel_execute, change_status.
  change "cancelled" with (to_string Cancelled).
  by rewrite (ChangeStatus_accepts _ _ _ actorID _ _ Cancelled _ Hf Hd Ha Hl Hu).
Qed.

Lemma call_cancel_compensate {St} (s : sys (world S) St) row a :
  Context (sg s) !! "previous_status" = Some (VString (to_string a)) →
  FindByIDAndTenant (subs (wd s)) subscriptionID tenantID = Ok row →
  DeletedAt row = None → Status row = to_string Cancelled → a ≠ Cancelled →
  ∃ fin e, call (cancel_compensate tenantID actorID subscriptionID) s = (fin, Some e) ∧
    st fin = st s ∧ subs (wd fin) = subs (wd s).
Proof.
  intros Hp Hf Hd Ha Hne. unfold call, cancel_compensate, change_status, ctx_Get.
  rewrite Hp, (ChangeStatus_terminal_rejects _ _ actorID _ Cancelled a _ Hf Hd Ha) by done.
  by eexists _, _.
Qed.

Lemma call_refund_execute {St} (s : sys (world S) St) sagaID customerID amount currency e :
  createErr (stmts (wd s)) = Some e →
  call (refund_execute sagaID subscriptionID customerID amount currency) s =
    (s, Some (RepoFailed "create refund statement" e)).
Proof.
  intros He. unfold call, refund_execute, stmt_Create. rewrite He.
  by destruct s as [? [] []].
Qed.

(** C4: the rollback of the cancellation flow cannot succeed. When the
    refund statement cannot be created after the subscription was
    cancelled, the compensation asks the service to leave the cancelled
    state, the state machine refuses, the saga is recorded as failed and
    the customer is left cancelled without a refund. *)
Theorem CancelSubscriptionFlow_cannot_roll_back `{GoRuntime}
    (now : world S → Time) (rnd : world S → float64)
    (wait : Duration → world S → world S * option saga_error)
    (store : memoryStore (world S)) (w : world S)
    sagaID customerID amount currency row a s1 e :
  sagaID ≠ "" →
  FindByIDAndTenant (subs w) subscriptionID tenantID = Ok row →
  DeletedAt row = None → Status row = to_string a → lifecycle a Cancelled →
  UpdateStatus (subs w) subscriptionID tenantID StatusCancelled = (s1, None) →
  createErr (stmts w) = Some e →
  ∃ fin, Execute now rnd wait
      {| st := store; wd := w;
         sg := CancelSubscriptionFlow sagaID tenantID actorID subscriptionID customerID
                 amount currency |}
      = (fin, Some (RepoFailed "create refund statement" e)) ∧
    recorded fin = Some SagaFailed ∧
    statuses fin !! "cancel_subscription" = Some StepCompensationFailed ∧
    status_of (subs (wd fin)) subscriptionID tenantID = Some Cancelled.
Proof.
  intros Hid Hf Hd Ha Hl Hu He. destruct (update_find _ _ _ _ _ _ Hf Hu) as (u & v & Hf1).
  assert (a ≠ Cancelled) as Hne by (intros ->; inversion Hl).
  unfold Execute. rewrite decide_False by done. simpl Steps. cbv iota.
  unfold run_and_complete. destruct (begin now _) as [s0 e0] eqn:Hb.
  pose proof (begin_memory _ _ _ _ Hb) as (-> & Hk0 & [Hid0 Hst0] & _).
  assert (wd s0 = w) as Hw0 by (unfold begin in Hb; simpl in Hb; by simplify_eq).
  unfold runFrom. rewrite Hst0. simpl. rewrite !lookup_empty. simpl.
  rewrite runStep_once by done. simpl.
  erewrite call_cancel_execute by (rewrite ?Hw0; done). simpl.
  destruct (save_result _ _) as [s2 e2] eqn:Hs2.
  pose proof (save_result_frame _ _ _ _ Hs2) as [Hw2 Hg2].
  apply save_result_memory in Hs2 as (-> & Hk2 & _ & Hm2); [|done].
  rewrite runStep_once by done. simpl.
  erewrite call_refund_execute by (rewrite Hw2, <- He, Hw0; done).
  destruct (save_result s2 _) as [s3 e3] eqn:Hs3. simpl.
  pose proof (save_result_frame _ _ _ _ Hs3) as [Hw3 Hg3].
  apply save_result_memory in Hs3 as (_ & Hk3 & _ & Hm3); [|done].
  assert (Steps (sg s3) = Steps (sg s0)) as Hst3 by (by rewrite Hg3, Hg2).
  rewrite Hst0 in Hst3.
  destruct (call_cancel_compensate s3 (written StatusCancelled u v row) a)
    as (s4 & e4 & Hc4 & _ & Hw4); [..|done|done|done|].
  { rewrite Hg3, Hg2. apply lookup_insert_eq. }
  { by rewrite Hw3, Hw2. }
  destruct (failAndCompensate_stuck now _ _ _ _ _ _ Hk3 Hst3 eq_refl Hc4) as (Hr & Hm & Hw).
  eexists; split; [done|]. split_and!; [done..|].
  apply status_of_Some. exists (written StatusCancelled u v row). split; [|done].
  by rewrite Hw, Hw4, Hw3, Hw2.
Qed.
End cancel_flow.

Lemma CancelSubscriptionFlow_cannot_roll_back_witness :
  let w := {| subs := sample_store StatusActive;
              stmts := {| stmt_records := ∅; listErr := None; findErr := None;
                          createErr := Some (StorageErr "timeout") |};
              clock := "2026-01-01T00:00:00Z" |} in
  let r := Execute (λ _, 0) (λ _, f_of_int 0) (λ _ w, (w, None))
    {| st := NewMemoryStore; wd := w;
       sg := CancelSubscriptionFlow "saga-1" "t-1" "ops" "sub-1" "c-1" "500" "USD" |} in
  recorded (fst r) = Some SagaFailed ∧
  status_of (subs (wd (fst r))) "sub-1" "t-1" = Some Cancelled.
Proof.
  intros w r.
  destruct (CancelSubscriptionFlow_cannot_roll_back "t-1" "ops" "sub-1"
    (λ _, 0) (λ _, f_of_int 0) (λ _ w, (w, None)) NewMemoryStore w "saga-1" "c-1" "500" "USD"
    (sample_row StatusActive) Active
    (fst (UpdateStatus (subs w) "sub-1" "t-1" StatusCancelled)) (StorageErr "timeout"))
    as (fin & Hr & Hrec & _ & Hst).
  - discriminate.
  - vm_compute. reflexivity.
  - reflexivity.
  - reflexivity.
  - constructor.
  - assert (snd (UpdateStatus (subs w) "sub-1" "t-1" StatusCancelled) = None) as <-
      by (vm_compute; reflexivity).
    apply surjective_pairing.
  - reflexivity.
  - subst r. rewrite Hr. split; [exact Hrec|exact Hst].
Defined.
End Flows.
