(* ===== verification/JobQueue.v ===== *)
(** * Background jobs: the job record, the store and its locks

    Models [internal/worker/job.go] and [internal/worker/store_memory.go].
    Every operation takes the clock readings it makes ([s.clock.Now()]) as
    arguments. The store copies jobs in and out, so its operations work on
    values. Payload values ([interface{}]) are opaque strings. *)
From stdpp Require Import base gmap strings list sorting.
From Stdlib Require Import ZArith Lia.
From S2P Require Import Prelude.

Module JobTypes.
Inductive JobStatus :=
| JobPending | JobRunning | JobCompleted | JobFailed | JobDeadLetter.

#[export] Instance JobStatus_eq_dec : EqDecision JobStatus.
Proof. solve_decision. Defined.

(** [type Priority int]; lower is more urgent. *)
Notation Priority := Z (only parsing).
Definition PriorityHigh : Priority := 10.
Definition PriorityNormal : Priority := 20.
Definition PriorityLow : Priority := 30.

Definition laneOrder : list Priority := [PriorityHigh; PriorityNormal; PriorityLow].

(** [DefaultLaneWeights[p]]; a missing key reads as 0. *)
Definition DefaultLaneWeights : gmap Z Z :=
  list_to_map [(PriorityHigh, 3); (PriorityNormal, 2); (PriorityLow, 1)].

Record Job := {
  ID : string;
  SubscriptionID : string;
  Type_ : string;
  Status : JobStatus;
  Prio : Priority;
  ScheduledAt : Time;
  StartedAt : option Time;
  CompletedAt : option Time;
  Attempts : Z;
  MaxAttempts : Z;
  LastError : string;
  Payload : option (gmap string string);
  CreatedAt : Time;
  UpdatedAt : Time;
  ParentTraceID : string;
}.

Definition set_times (c u : Time) (j : Job) : Job :=
  {| ID := ID j; SubscriptionID := SubscriptionID j; Type_ := Type_ j; Status := Status j;
     Prio := Prio j; ScheduledAt := ScheduledAt j; StartedAt := StartedAt j;
     CompletedAt := CompletedAt j; Attempts := Attempts j; MaxAttempts := MaxAttempts j;
     LastError := LastError j; Payload := Payload j; CreatedAt := c; UpdatedAt := u;
     ParentTraceID := ParentTraceID j |}.

(** The comparison of [SortJobs]: priority, then scheduled time. *)
Definition job_less (x y : Job) : bool :=
  if Prio x =? Prio y then ScheduledAt x <? ScheduledAt y else Prio x <? Prio y.

Definition SortJobs `{GoRuntime} (jobs : list Job) : list Job := sort_slice job_less jobs.

Lemma job_less_strict_weak : strict_weak job_less.
Proof. apply strict_weak_lex. Qed.
#[export] Hint Resolve job_less_strict_weak : go.
End JobTypes.

Module JobStore.
Import JobTypes.

Inductive store_error := ErrJobNotFound | ErrLockNotHeld | ErrJobIDRequired.

Record lockInfo := { workerID : string; expiresAt : Time }.

Record MemoryStore := {
  jobs : gmap string Job;
  locks : gmap string lockInfo;
}.

Definition NewMemoryStore : MemoryStore := {| jobs := ∅; locks := ∅ |}.

Definition set_jobs (m : gmap string Job) (s : MemoryStore) : MemoryStore :=
  {| jobs := m; locks := locks s |}.
Definition set_locks (m : gmap string lockInfo) (s : MemoryStore) : MemoryStore :=
  {| jobs := jobs s; locks := m |}.

(** [Create] fills in the timestamps of the caller's job, returned beside
    the new store, and stores a copy under its ID, whatever was there. *)
Definition Create (now : Time) (job : Job) (s : MemoryStore)
    : MemoryStore * Job * option store_error :=
  if decide (ID job = ""%string) then (s, job, Some ErrJobIDRequired)
  else
    let c := if Time.IsZero (CreatedAt job) then now else CreatedAt job in
    let u := if Time.IsZero (UpdatedAt job) then now else UpdatedAt job in
    let job := set_times c u job in
    (set_jobs (<[ID job := job]> (jobs s)) s, job, None).

Definition Get (id : string) (s : MemoryStore) : result store_error Job :=
  match jobs s !! id with None => Err ErrJobNotFound | Some job => Ok job end.

Definition Update (now : Time) (job : Job) (s : MemoryStore)
    : MemoryStore * Job * option store_error :=
  match jobs s !! ID job with
  | None => (s, job, Some ErrJobNotFound)
  | Some _ =>
      let job := set_times (CreatedAt job) now job in
      (set_jobs (<[ID job := job]> (jobs s)) s, job, None)
  end.

(** A pending job whose time has come. *)
Definition due (now : Time) (job : Job) : bool :=
  bool_decide (Status job = JobPending) && negb (Time.After (ScheduledAt job) now).

Definition due_in (p : Priority) (now : Time) (job : Job) : bool :=
  bool_decide (Prio job = p) && due now job.

Section ops.
Context `{GoRuntime}.

(** [if len(l) > limit { l = l[:limit] }]: [None] is the run-time panic of
    a negative bound. *)
Definition clip {A} (limit : Z) (l : list A) : option (list A) :=
  if limit <? Z.of_nat (length l) then
    if limit <? 0 then None else Some (take (Z.to_nat limit) l)
  else Some l.

Definition ListPending (now : Time) (limit : Z) (s : MemoryStore) : option (list Job) :=
  clip limit (SortJobs (List.filter (due now) (map_range (jobs s)).*2)).

Definition by_schedule (x y : Job) : bool := ScheduledAt x <? ScheduledAt y.

Definition ListPendingByPriority (now : Time) (p : Priority) (limit : Z) (s : MemoryStore)
    : option (list Job) :=
  clip limit (sort_slice by_schedule (List.filter (due_in p now) (map_range (jobs s)).*2)).

Definition LaneDepth (now : Time) (p : Priority) (s : MemoryStore) : Z :=
  Z.of_nat (length (List.filter (due_in p now) (map_range (jobs s)).*2)).

Definition QueueDepth (now : Time) (s : MemoryStore) : Z :=
  Z.of_nat (length (List.filter (due now) (map_range (jobs s)).*2)).

Definition ListDeadLetter (s : MemoryStore) : list Job :=
  List.filter (λ j, bool_decide (Status j = JobDeadLetter)) (map_range (jobs s)).*2.

Definition OldestPending (now : Time) (s : MemoryStore) : option Job :=
  foldl (λ oldest job,
    if due now job then
      match oldest with
      | None => Some job
      | Some o => if Time.Before (CreatedAt job) (CreatedAt o) then Some job else oldest
      end
    else oldest) None (map_range (jobs s)).*2.
End ops.

(** [now] is read for the expiry test, [now'] for the new expiry. *)
Definition AcquireLock (now now' : Time) (jobID worker : string) (ttl : Duration)
    (s : MemoryStore) : MemoryStore * bool :=
  let grant locks' :=
    (set_locks (<[jobID := {| workerID := worker; expiresAt := Time.Add now' ttl |}]> locks') s,
     true) in
  match locks s !! jobID with
  | Some lock =>
      if Time.After now (expiresAt lock) then grant (delete jobID (locks s))
      else if decide (workerID lock ≠ worker) then (s, false)
      else grant (locks s)
  | None => grant (locks s)
  end.

Definition ReleaseLock (jobID worker : string) (s : MemoryStore)
    : MemoryStore * option store_error :=
  match locks s !! jobID with
  | None => (s, None)
  | Some lock =>
      if decide (workerID lock ≠ worker) then (s, Some ErrLockNotHeld)
      else (set_locks (delete jobID (locks s)) s, None)
  end.

(** ** Queries *)
Section query_facts.
Context `{GoRuntime}.
Implicit Types (s : MemoryStore).

Lemma elem_of_jobs s j : j ∈ (map_range (jobs s)).*2 ↔ ∃ id, jobs s !! id = Some j.
Proof.
  rewrite list_elem_of_fmap. split.
  - intros ([id j'] & -> & Hin). apply elem_of_map_range in Hin. eauto.
  - intros [id Hid]. exists (id, j). by rewrite elem_of_map_range.
Qed.

Lemma elem_of_lane s p now j :
  j ∈ List.filter (due_in p now) (map_range (jobs s)).*2 ↔
  (∃ id, jobs s !! id = Some j) ∧ Prio j = p ∧ Status j = JobPending ∧ ScheduledAt j ≤ now.
Proof.
  rewrite list_elem_of_In, filter_In, <- list_elem_of_In, elem_of_jobs.
  unfold due_in, due, Time.After.
  rewrite !andb_true_iff, !bool_decide_eq_true, negb_true_iff, Z.ltb_ge. done.
Qed.

Lemma clip_elem {A} limit (l l' : list A) x : clip limit l = Some l' → x ∈ l' → x ∈ l.
Proof.
  unfold clip. intros Hc Hx. repeat case_match; simplify_eq; [|done].
  by eapply elem_of_take_inv.
Qed.

Lemma clip_one {A} (l : list A) : clip 1 l = Some (take 1 l).
Proof.
  unfold clip. destruct (Z.ltb_spec 1 (Z.of_nat (length l))) as [|Hl]; [done|].
  destruct l as [|x [|y l]]; [done|done|]. rewrite !length_cons in Hl. lia.
Qed.

(** The job a lane serves first: a due job of the lane with the earliest
    scheduled time. *)
Definition lane_first s p now j : Prop :=
  (∃ id, jobs s !! id = Some j) ∧ Prio j = p ∧ due now j = true ∧
  ∀ id j', jobs s !! id = Some j' → Prio j' = p → due now j' = true →
    ScheduledAt j ≤ ScheduledAt j'.

Definition lane_empty s p now : Prop :=
  ∀ id j, jobs s !! id = Some j → due_in p now j = false.

Lemma due_spec now j : due now j = true ↔ Status j = JobPending ∧ ScheduledAt j ≤ now.
Proof.
  unfold due, Time.After.
  by rewrite andb_true_iff, bool_decide_eq_true, negb_true_iff, Z.ltb_ge.
Qed.

Lemma ListPendingByPriority_one now p s :
  (ListPendingByPriority now p 1 s = Some [] ∧ lane_empty s p now) ∨
  ∃ j, ListPendingByPriority now p 1 s = Some [j] ∧ lane_first s p now j.
Proof.
  unfold ListPendingByPriority. rewrite clip_one.
  set (l := List.filter (due_in p now) (map_range (jobs s)).*2).
  pose proof (sort_slice_perm _ by_schedule l) as Hp.
  pose proof (sort_slice_sorted _ by_schedule l (strict_weak_key _)) as Hs.
  destruct (sort_slice by_schedule l) as [|j l'].
  - left. split; [done|]. intros id j Hj. destruct (due_in p now j) eqn:Hd; [|done].
    assert (j ∈ l) as Hin.
    { unfold l. rewrite list_elem_of_In, filter_In, <- list_elem_of_In, elem_of_jobs. eauto. }
    rewrite <- Hp in Hin. by apply elem_of_nil in Hin.
  - right. exists j. split; [done|].
    assert (j ∈ l) as Hin by (rewrite <- Hp; left).
    apply elem_of_lane in Hin as (Hid & Hpr & Hst & Hsch).
    split_and!; [done|done|by apply due_spec|].
    intros id j' Hj' Hpr' Hdue'. apply due_spec in Hdue' as [Hst' Hsch'].
    assert (j' ∈ j :: l') as [->|Hin']%elem_of_cons; [|lia|].
    { rewrite Hp. apply elem_of_lane. eauto. }
    pose proof (sorted_by_head _ _ _ _ Hs Hin') as Hlt.
    unfold by_schedule in Hlt. lia.
Qed.
End query_facts.

(** ** Locks

    The operations other workers may run between two of a worker's own. *)
Inductive lock_op :=
| Acquire (now now' : Time) (job worker : string) (ttl : Duration)
| Release (job worker : string).

Definition run_op (s : MemoryStore) (op : lock_op) : MemoryStore :=
  match op with
  | Acquire n n' job w ttl => fst (AcquireLock n n' job w ttl s)
  | Release job w => fst (ReleaseLock job w s)
  end.

Definition op_worker (op : lock_op) : string :=
  match op with Acquire _ _ _ w _ | Release _ w => w end.

(** The clock readings of an operation do not exceed [t]. *)
Definition op_before (t : Time) (op : lock_op) : Prop :=
  match op with Acquire n _ _ _ _ => n ≤ t | Release _ _ => True end.

Lemma run_op_keeps s op job w t :
  locks s !! job = Some {| workerID := w; expiresAt := t |} →
  op_worker op ≠ w → op_before t op →
  locks (run_op s op) !! job = Some {| workerID := w; expiresAt := t |}.
Proof.
  intros Hl Hw Hb. destruct op as [n n' job' w' ttl|job' w']; simpl in *.
  - unfold AcquireLock. destruct (decide (job' = job)) as [->|Hne].
    + rewrite Hl. simpl. replace (Time.After n t) with false
        by (symmetry; apply After_false; done).
      by rewrite decide_True by congruence.
    + destruct (locks s !! job') as [lock|]; repeat case_match; simpl;
        rewrite ?lookup_insert_ne, ?lookup_delete_ne by done; done.
  - unfold ReleaseLock. destruct (decide (job' = job)) as [->|Hne].
    + rewrite Hl. simpl. by rewrite decide_True by congruence.
    + destruct (locks s !! job') as [lock|]; repeat case_match; simpl;
        rewrite ?lookup_delete_ne by done; done.
Qed.

Lemma run_ops_keep s ops job w t :
  locks s !! job = Some {| workerID := w; expiresAt := t |} →
  Forall (λ op, op_worker op ≠ w ∧ op_before t op) ops →
  locks (foldl run_op s ops) !! job = Some {| workerID := w; expiresAt := t |}.
Proof.
  intros Hl Hops. revert s Hl. induction Hops as [|op ops [Hw Hb] _ IH]; intros s Hl; [done|].
  simpl. apply IH. by apply run_op_keeps.
Qed.

Lemma AcquireLock_granted now now' job w ttl s s' :
  AcquireLock now now' job w ttl s = (s', true) →
  locks s' !! job = Some {| workerID := w; expiresAt := Time.Add now' ttl |} ∧ jobs s' = jobs s.
Proof.
  unfold AcquireLock. intros Ha. repeat case_match; simplify_eq/=; by rewrite lookup_insert_eq.
Qed.

(** A granted lock is exclusive until it expires. Once a worker holds the
    lock of a job, whatever other workers do in the meantime, every other
    worker's attempt on that job made no later than the expiry is refused. *)
Theorem AcquireLock_exclusive now now' job w ttl s s1 ops n n' w2 ttl2 :
  AcquireLock now now' job w ttl s = (s1, true) →
  Forall (λ op, op_worker op ≠ w ∧ op_before (Time.Add now' ttl) op) ops →
  w2 ≠ w → n ≤ Time.Add now' ttl →
  AcquireLock n n' job w2 ttl2 (foldl run_op s1 ops) = (foldl run_op s1 ops, false).
Proof.
  intros Ha Hops Hw Hn. apply AcquireLock_granted in Ha as [Hl _].
  apply (run_ops_keep _ ops) in Hl; [|done].
  unfold AcquireLock. rewrite Hl. simpl.
  rewrite (proj2 (After_false _ _)) by done. by rewrite decide_True by congruence.
Qed.

Lemma AcquireLock_exclusive_witness :
  let s1 := fst (AcquireLock 0 0 "j" "w1" 30 NewMemoryStore) in
  let s2 := run_op s1 (Acquire 5 5 "other" "w2" 30) in
  AcquireLock 30 30 "j" "w2" 30 s2 = (s2, false) ∧
  snd (AcquireLock 31 31 "j" "w2" 30 s2) = true.
Proof.
  intros s1 s2. split; [|vm_compute; reflexivity].
  apply (AcquireLock_exclusive 0 0 "j" "w1" 30 NewMemoryStore s1
           [Acquire 5 5 "other" "w2" 30] 30 30 "w2" 30).
  - assert (snd (AcquireLock 0 0 "j" "w1" 30 NewMemoryStore) = true) as <-
      by (vm_compute; reflexivity).
    apply surjective_pairing.
  - repeat constructor; simpl; unfold Time.Add; try lia; discriminate.
  - discriminate.
  - unfold Time.Add. lia.
Defined.

(** the pending queries. [ListPending] returns due jobs in priority and
    schedule order and drops none but by the limit; [QueueDepth] counts
    them. *)
Theorem ListPending_correct `{GoRuntime} now limit s :
  0 ≤ limit →
  ∃ l, ListPending now limit s = Some l ∧
    sorted_by job_less l ∧
    Z.of_nat (length l) = Z.min limit (QueueDepth now s) ∧
    (∀ j, j ∈ l → due now j = true ∧ ∃ id, jobs s !! id = Some j) ∧
    (QueueDepth now s ≤ limit → ∀ id j, jobs s !! id = Some j → due now j = true → j ∈ l).
Proof.
  intros Hlim. unfold ListPending, SortJobs, QueueDepth.
  set (d := List.filter (due now) (map_range (jobs s)).*2).
  pose proof (sort_slice_perm _ job_less d) as Hp.
  pose proof (sort_slice_sorted _ job_less d job_less_strict_weak) as Hs.
  assert (∀ j, j ∈ sort_slice job_less d ↔ (∃ id, jobs s !! id = Some j) ∧ due now j = true) as Hd.
  { intros j. rewrite Hp. unfold d.
    by rewrite list_elem_of_In, filter_In, <- list_elem_of_In, elem_of_jobs. }
  assert (length (sort_slice job_less d) = length d) as Hlen by (by rewrite Hp).
  unfold clip. rewrite Hlen. case_match eqn:Hc.
  - rewrite (proj2 (Z.ltb_ge limit 0)) by lia. eexists. split; [done|].
    split_and!; [by apply sorted_by_take|rewrite length_take; lia| |lia].
    intros j Hj%elem_of_take_inv. apply Hd in Hj. tauto.
  - eexists. split; [done|]. split_and!; [done|lia| |].
    + intros j Hj. apply Hd in Hj. tauto.
    + intros _ id j Hj Hdue. apply Hd. eauto.
Qed.

Definition sample_job (id : string) (p : Priority) (at_ : Time) : Job :=
  {| ID := id; SubscriptionID := "sub-1"; Type_ := "charge"; Status := JobPending; Prio := p;
     ScheduledAt := at_; StartedAt := None; CompletedAt := None; Attempts := 0;
     MaxAttempts := 3; LastError := ""; Payload := None; CreatedAt := at_; UpdatedAt := at_;
     ParentTraceID := "" |}.
Definition store_of (l : list Job) : MemoryStore :=
  {| jobs := list_to_map ((λ j, (ID j, j)) <$> l); locks := ∅ |}.

Lemma ListPending_correct_witness :
  let s := store_of [sample_job "a" 20 5; sample_job "b" 10 9; sample_job "c" 20 1;
                     sample_job "d" 10 99] in
  ListPending 10 2 s = Some [sample_job "b" 10 9; sample_job "c" 20 1] ∧
  ∃ l, ListPending 10 2 s = Some l ∧ Z.of_nat (length l) = Z.min 2 (QueueDepth 10 s).
Proof.
  intros s. split; [vm_compute; reflexivity|].
  destruct (ListPending_correct 10 2 s) as (l & Hl & _ & Hn & _); [lia|].
  exists l. split; [exact Hl|exact Hn].
Defined.
End JobStore.
