(* ===== verification/Scheduler.v ===== *)
(** * The job scheduler

    Models the [Scheduler] of [internal/worker/scheduler.go]: weighted
    round-robin lane selection with a starvation guard, and the functions
    that create jobs. One reading of the store's clock, [now], serves a whole
    call of [Next]. *)
From stdpp Require Import base gmap strings list.
From Stdlib Require Import ZArith Lia.
From S2P Require Import Prelude GoStrings JobQueue.
Import JobTypes JobStore.

Record Scheduler := {
  counter : Z;
  weights : gmap Z Z;
  totalWeight : Z;
  starvationCount : Z;
  starvationLimit : Z;
}.

Definition recalcWeight (w : gmap Z Z) : Z := map_fold (λ _ x n, wrap64 (n + x)) 0 w.

Definition NewScheduler : Scheduler :=
  {| counter := 0; weights := DefaultLaneWeights;
     totalWeight := recalcWeight DefaultLaneWeights;
     starvationCount := 0; starvationLimit := 10 |}.

Definition SetWeights (w : gmap Z Z) (s : Scheduler) : Scheduler :=
  {| counter := counter s; weights := w; totalWeight := recalcWeight w;
     starvationCount := starvationCount s; starvationLimit := starvationLimit s |}.

Definition SetStarvationLimit (n : Z) (s : Scheduler) : Scheduler :=
  {| counter := counter s; weights := weights s; totalWeight := totalWeight s;
     starvationCount := starvationCount s; starvationLimit := n |}.

(** The loop of [laneForIdx] over the lanes left. *)
Fixpoint lane_scan (w : gmap Z Z) (idx cumulative : Z) (lanes : list Z) : Z :=
  match lanes with
  | [] => PriorityNormal
  | p :: lanes =>
      let cumulative := wrap64 (cumulative + default 0 (w !! p)) in
      if idx <? cumulative then p else lane_scan w idx cumulative lanes
  end.

Definition laneForIdx (w : gmap Z Z) (idx : Z) (forceLow : bool) : Z :=
  if forceLow then PriorityLow else lane_scan w idx 0 laneOrder.

Section next.
Context `{GoRuntime}.

Definition tryLane (now : Time) (st : MemoryStore) (lane : Z) : option Job :=
  match ListPendingByPriority now lane 1 st with
  | Some (j :: _) => Some j
  | _ => None
  end.

Fixpoint pick_scan (now : Time) (st : MemoryStore) (lanes : list Z) : option Job :=
  match lanes with
  | [] => None
  | p :: lanes =>
      match tryLane now st p with Some j => Some j | None => pick_scan now st lanes end
  end.

Definition pickHighestPriority (now : Time) (st : MemoryStore) : option Job :=
  pick_scan now st laneOrder.

Definition lane_of (s : Scheduler) : Z :=
  let c := wrap64 (counter s + 1) in
  let tw := if totalWeight s =? 0 then 1 else totalWeight s in
  let idx := Z.rem (wrap64 (c - 1)) tw in
  laneForIdx (weights s) idx (starvationLimit s <=? starvationCount s).

Definition bump (c : Z) (s : Scheduler) : Scheduler :=
  {| counter := wrap64 (counter s + 1); weights := weights s; totalWeight := totalWeight s;
     starvationCount := c; starvationLimit := starvationLimit s |}.

Definition Next (now : Time) (st : MemoryStore) (s : Scheduler) : Scheduler * option Job :=
  let lane := lane_of s in
  match tryLane now st lane with
  | Some job =>
      (bump (if decide (lane ≠ PriorityLow) then wrap64 (starvationCount s + 1) else 0) s,
       Some job)
  | None => (bump (starvationCount s) s, pickHighestPriority now st)
  end.

(** Successive calls, each on the store as it is at that moment. *)
Fixpoint picks (s : Scheduler) (l : list (Time * MemoryStore)) : list (option Job) :=
  match l with
  | [] => []
  | (now, st) :: l => let '(s, j) := Next now st s in j :: picks s l
  end.
End next.

(** ** Job creation *)
Definition generateJobID (jobType : string) (now : Time) : string :=
  (jobType +:+ "-" +:+ Itoa (wrap64 now))%string.

Definition jobBase (now : Time) (jobType subscriptionID : string) (scheduledAt : Time)
    (maxAttempts priority : Z) : Job :=
  {| ID := generateJobID jobType now; SubscriptionID := subscriptionID; Type_ := jobType;
     Status := JobPending; Prio := priority; ScheduledAt := scheduledAt; StartedAt := None;
     CompletedAt := None; Attempts := 0; MaxAttempts := maxAttempts; LastError := "";
     Payload := None; CreatedAt := now; UpdatedAt := now; ParentTraceID := "" |}.

Definition schedule (jobType : string) (now storeNow : Time) (subscriptionID : string)
    (scheduledAt : Time) (maxAttempts priority : Z) (st : MemoryStore)
    : MemoryStore * result store_error Job :=
  match Create storeNow (jobBase now jobType subscriptionID scheduledAt maxAttempts priority) st with
  | (st, _, Some e) => (st, Err e)
  | (st, job, None) => (st, Ok job)
  end.

Definition ScheduleCharge := schedule "charge".
Definition ScheduleInvoice := schedule "invoice".
Definition ScheduleReminder := schedule "reminder".

(** ** Lane selection *)
Section facts.
Context `{GoRuntime}.
Implicit Types (s : Scheduler) (st : MemoryStore).

Lemma tryLane_spec now st p :
  match tryLane now st p with
  | Some j => lane_first st p now j
  | None => lane_empty st p now
  end.
Proof.
  unfold tryLane. destruct (ListPendingByPriority_one now p st) as [[-> He]|(j & -> & Hj)]; done.
Qed.

Lemma tryLane_None now st p : tryLane now st p = None ↔ lane_empty st p now.
Proof.
  pose proof (tryLane_spec now st p) as Ht. split; [by intros Hn; rewrite Hn in Ht|].
  intros He. destruct (tryLane now st p) as [j|]; [|done].
  destruct Ht as ([id Hid] & Hp & Hd & _). specialize (He _ _ Hid).
  unfold due_in in He. by rewrite bool_decide_true, Hd in He.
Qed.

Lemma pick_scan_spec now st lanes :
  match pick_scan now st lanes with
  | Some j => Prio j ∈ lanes ∧ lane_first st (Prio j) now j
  | None => ∀ p, p ∈ lanes → lane_empty st p now
  end.
Proof.
  induction lanes as [|p lanes IH]; simpl; [intros p Hp; by apply elem_of_nil in Hp|].
  destruct (tryLane now st p) as [j|] eqn:Ht.
  - pose proof (tryLane_spec now st p) as Hl. rewrite Ht in Hl.
    assert (Prio j = p) as <- by (by destruct Hl as (_ & ? & _)). split; [left|done].
  - destruct (pick_scan now st lanes) as [j|].
    + destruct IH. split; [by right|done].
    + intros q [->|Hq]%elem_of_cons; [by apply tryLane_None|by apply IH].
Qed.

Lemma pickHighest_high now st j :
  tryLane now st PriorityHigh = Some j → pickHighestPriority now st = Some j.
Proof. intros Hj. unfold pickHighestPriority. simpl. by rewrite Hj. Qed.

Lemma lane_scan_in w idx c lanes : lane_scan w idx c lanes ∈ PriorityNormal :: lanes.
Proof.
  revert c. induction lanes as [|p lanes IH]; intros c; simpl; [left|].
  case_match; [right; left|].
  specialize (IH (wrap64 (c + default 0 (w !! p)))). set_solver.
Qed.

Lemma lane_of_in s : lane_of s ∈ laneOrder.
Proof.
  unfold lane_of, laneForIdx. case_match; [unfold laneOrder; set_solver|].
  pose proof (lane_scan_in (weights s)
    (Z.rem (wrap64 (wrap64 (counter s + 1) - 1)) (if totalWeight s =? 0 then 1 else totalWeight s))
    0 laneOrder). unfold laneOrder in *. set_solver.
Qed.

Lemma Next_spec now st s :
  match snd (Next now st s) with
  | None => ∀ p, p ∈ laneOrder → lane_empty st p now
  | Some j =>
      Prio j ∈ laneOrder ∧ lane_first st (Prio j) now j ∧
      (¬ lane_empty st (lane_of s) now → Prio j = lane_of s)
  end.
Proof.
  unfold Next. pose proof (tryLane_spec now st (lane_of s)) as Ht.
  destruct (tryLane now st (lane_of s)) as [j|]; simpl.
  - assert (Prio j = lane_of s) as -> by (by destruct Ht as (_ & ? & _)).
    split_and!; [apply lane_of_in|done|done].
  - unfold pickHighestPriority. pose proof (pick_scan_spec now st laneOrder) as Hp.
    destruct (pick_scan now st laneOrder) as [j|]; [|done].
    destruct Hp. by split_and!.
Qed.

(** what [Next] returns. Nothing exactly when no due job has one of the
    three lane priorities; otherwise a due job of some lane with the earliest
    scheduled time there, and the lane is the weighted one whenever that lane
    has a due job. *)
Theorem Next_correct now st s :
  (snd (Next now st s) = None ↔ ∀ p, p ∈ laneOrder → lane_empty st p now) ∧
  ∀ j, snd (Next now st s) = Some j →
    Prio j ∈ laneOrder ∧ lane_first st (Prio j) now j ∧
    (¬ lane_empty st (lane_of s) now → Prio j = lane_of s).
Proof.
  pose proof (Next_spec now st s) as Hs. destruct (snd (Next now st s)) as [j|].
  - split; [|by intros ? [= <-]]. split; [done|]. intros He. exfalso.
    destruct Hs as (Hl & ([id Hid] & Hp & Hd & _) & _). specialize (He _ Hl id j Hid).
    unfold due_in in He. by rewrite bool_decide_true, Hd in He.
  - split; [|done]. by split.
Qed.

(** The lane that serves the pick of index [i], for the default weights. *)
Definition default_lane (i : Z) : Z :=
  if i mod 6 <? 3 then PriorityHigh else if i mod 6 <? 5 then PriorityNormal else PriorityLow.

(** The scheduler after [i] picks that the weighted lane served. *)
Definition after_picks (i : Z) s : Prop :=
  counter s = i ∧ weights s = DefaultLaneWeights ∧ totalWeight s = 6 ∧
  starvationLimit s = 10 ∧ starvationCount s = i mod 6.

Lemma default_total : recalcWeight DefaultLaneWeights = 6.
Proof. vm_compute. reflexivity. Qed.

Lemma after_picks_new : after_picks 0 NewScheduler.
Proof. split_and!; done. Qed.

Lemma default_scan idx :
  0 ≤ idx < 6 →
  lane_scan DefaultLaneWeights idx 0 laneOrder =
    if idx <? 3 then PriorityHigh else if idx <? 5 then PriorityNormal else PriorityLow.
Proof.
  intros Hi.
  assert (idx = 0 ∨ idx = 1 ∨ idx = 2 ∨ idx = 3 ∨ idx = 4 ∨ idx = 5) as Hc by lia.
  destruct Hc as [->|[->|[->|[->|[->| ->]]]]]; vm_compute; reflexivity.
Qed.

Lemma lane_of_default i s :
  after_picks i s → 0 ≤ i < max_int64 → lane_of s = default_lane i.
Proof.
  intros (Hc & Hw & Ht & Hl & Hs) Hi. unfold lane_of. rewrite Hc, Hw, Ht, Hl, Hs.
  unfold max_int64 in Hi.
  rewrite (wrap64_id (i + 1)) by (unfold in_int64, min_int64, max_int64; lia).
  replace (i + 1 - 1) with i by lia.
  rewrite (wrap64_id i) by (unfold in_int64, min_int64, max_int64; lia).
  pose proof (Z.mod_pos_bound i 6 ltac:(lia)).
  replace (10 <=? i mod 6) with false by (symmetry; apply Z.leb_gt; lia).
  change (6 =? 0) with false. cbv iota. rewrite Z.rem_mod_nonneg by lia.
  unfold laneForIdx. by apply default_scan.
Qed.

Lemma Next_default i s now st :
  after_picks i s → 0 ≤ i < max_int64 → ¬ lane_empty st (default_lane i) now →
  ∃ j, snd (Next now st s) = Some j ∧ Prio j = default_lane i ∧
       after_picks (i + 1) (fst (Next now st s)).
Proof.
  intros Ha Hi Hne. pose proof (lane_of_default i s Ha Hi) as Hlane.
  unfold Next. rewrite Hlane. pose proof (tryLane_spec now st (default_lane i)) as Ht.
  destruct (tryLane now st (default_lane i)) as [j|]; [|done].
  exists j. split_and!; [done|by destruct Ht as (_ & ? & _)|].
  destruct Ha as (Hc & Hw & Htw & Hl & Hs). simpl.
  unfold max_int64 in Hi. unfold after_picks. simpl. split_and!; [|done..|].
  - rewrite Hc. apply wrap64_id. unfold in_int64, min_int64, max_int64. lia.
  - rewrite Hs. unfold default_lane, PriorityHigh, PriorityNormal, PriorityLow in *.
    pose proof (Z.mod_pos_bound i 6 ltac:(lia)).
    rewrite (wrap64_id (i mod 6 + 1)) by (unfold in_int64, min_int64, max_int64; lia).
    destruct (decide (i mod 6 = 5)) as [H5|H5].
    + rewrite H5. simpl. rewrite Z.add_mod, H5 by lia. done.
    + rewrite decide_True.
      * Z.to_euclidean_division_equations. lia.
      * repeat case_match; lia.
Qed.

(** With a single due job in the store, [Next] picks it. *)
Lemma Next_singleton now st s j :
  jobs st = {[ID j := j]} → due now j = true → Prio j ∈ laneOrder →
  snd (Next now st s) = Some j.
Proof.
  intros Hj Hd Hp. pose proof (Next_spec now st s) as Hs.
  destruct (snd (Next now st s)) as [j'|].
  - destruct Hs as (_ & ([id Hid] & _) & _). rewrite Hj in Hid.
    by apply lookup_singleton_Some in Hid as [_ ->].
  - specialize (Hs _ Hp (ID j) j). unfold due_in in Hs.
    rewrite bool_decide_true, Hd, Hj in Hs by done. by rewrite lookup_singleton_eq in Hs; specialize (Hs eq_refl).
Qed.

(** The priorities of the jobs picked, [None] where nothing was due. *)
Definition pick_lanes s (l : list (Time * MemoryStore)) : list (option Z) :=
  map (option_map Prio) (picks s l).

Definition lane_busy (p : Z) (e : Time * MemoryStore) : Prop := ¬ lane_empty (snd e) p (fst e).

Lemma picks_cons s now st l :
  picks s ((now, st) :: l) = snd (Next now st s) :: picks (fst (Next now st s)) l.
Proof. simpl. by destruct (Next now st s). Qed.

Lemma picks_default i s l :
  after_picks i s → 0 ≤ i → i + Z.of_nat (length l) ≤ max_int64 →
  Forall (λ e, ∀ p, p ∈ laneOrder → lane_busy p e) l →
  pick_lanes s l = map (λ k, Some (default_lane k)) (seqZ i (Z.of_nat (length l))).
Proof.
  revert i s. induction l as [|[now st] l IH]; intros i s Ha Hi Hm Hb; [done|].
  apply Forall_cons in Hb as [Hb Hbs].
  destruct (Next_default i s now st Ha) as (j & Hj & Hp & Ha').
  { simpl in Hm. lia. }
  { apply Hb. unfold default_lane, laneOrder. repeat case_match; set_solver. }
  unfold pick_lanes in *. rewrite picks_cons, Hj. cbn [length] in *.
  rewrite seqZ_cons by lia. cbn [map option_map]. rewrite Hp. f_equal.
  rewrite (IH (i + 1)); [|done|lia|lia|done]. do 2 f_equal; lia.
Qed.

(** The weighted round robin. As long as all three lanes have a due job,
    a new scheduler serves them in the fixed cycle high, high, high, normal,
    normal, low, whatever the stores hold at each call; the counter does not
    overflow within [max_int64] calls. *)
Theorem round_robin l :
  Z.of_nat (length l) ≤ max_int64 →
  Forall (λ e, ∀ p, p ∈ laneOrder → lane_busy p e) l →
  pick_lanes NewScheduler l = map (λ i, Some (default_lane i)) (seqZ 0 (Z.of_nat (length l))).
Proof. intros Hl Hb. apply picks_default; [apply after_picks_new|done|lia|done]. Qed.

(** ** The starvation guard with an empty low lane *)
Definition guard_stuck s : Prop := starvationLimit s ≤ starvationCount s.

Lemma Next_stuck now st s :
  guard_stuck s → lane_empty st PriorityLow now → lane_busy PriorityHigh (now, st) →
  guard_stuck (fst (Next now st s)) ∧ option_map Prio (snd (Next now st s)) = Some PriorityHigh.
Proof.
  intros Hg He Hb. unfold Next.
  assert (lane_of s = PriorityLow) as ->.
  { unfold lane_of, laneForIdx. by rewrite (proj2 (Z.leb_le _ _) Hg). }
  rewrite (proj2 (tryLane_None now st PriorityLow) He). split; [done|]. simpl.
  pose proof (tryLane_spec now st PriorityHigh) as Ht.
  destruct (tryLane now st PriorityHigh) as [j|] eqn:Hj; [|done].
  rewrite (pickHighest_high _ _ _ Hj). simpl. by destruct Ht as (_ & -> & _).
Qed.

(** once the starvation guard is due and the low lane is empty, it stays
    due: every later pick falls through to the high lane, so the normal lane
    is never served while the high lane has work. *)
Theorem starvation_guard_sticks s l :
  guard_stuck s →
  Forall (λ e, lane_empty (snd e) PriorityLow (fst e) ∧ lane_busy PriorityHigh e) l →
  pick_lanes s l = replicate (length l) (Some PriorityHigh).
Proof.
  revert s. induction l as [|[now st] l IH]; intros s Hg Hl; [done|].
  apply Forall_cons in Hl as [[He Hb] Hl].
  destruct (Next_stuck now st s Hg He Hb) as [Hg' Hp].
  unfold pick_lanes in *. rewrite picks_cons. cbn [map length replicate].
  rewrite Hp. f_equal. by apply IH.
Qed.
End facts.

Lemma lane_empty_store_of l p now :
  forallb (λ j, negb (due_in p now j)) l = true → lane_empty (store_of l) p now.
Proof.
  intros Hf id j Hj. apply elem_of_list_to_map_2, list_elem_of_fmap in Hj as (j' & [= -> ->] & Hj).
  rewrite forallb_forall in Hf. specialize (Hf j'). apply negb_true_iff, Hf.
  by apply list_elem_of_In.
Qed.

Lemma lane_busy_job id j st p now :
  jobs st !! id = Some j → due_in p now j = true → lane_busy p (now, st).
Proof. intros Hj Hd He. specialize (He id j Hj). simpl in He. by rewrite Hd in He. Qed.

Definition three_lanes : MemoryStore :=
  store_of [sample_job "h" PriorityHigh 1; sample_job "n" PriorityNormal 2;
            sample_job "l" PriorityLow 3].

Lemma round_robin_witness :
  pick_lanes NewScheduler (replicate 7 (10, three_lanes)) = Some <$> [10; 10; 10; 20; 20; 30; 10].
Proof.
  rewrite round_robin; [vm_compute; reflexivity|vm_compute; discriminate|].
  apply Forall_replicate. intros p Hp. unfold laneOrder in Hp.
  repeat (apply elem_of_cons in Hp as [->|Hp]).
  - apply (lane_busy_job "h" (sample_job "h" PriorityHigh 1)); vm_compute; reflexivity.
  - apply (lane_busy_job "n" (sample_job "n" PriorityNormal 2)); vm_compute; reflexivity.
  - apply (lane_busy_job "l" (sample_job "l" PriorityLow 3)); vm_compute; reflexivity.
  - by apply elem_of_nil in Hp.
Defined.

Definition two_lanes : MemoryStore :=
  store_of [sample_job "h" PriorityHigh 1; sample_job "n" PriorityNormal 2].
Definition after_two_lanes (n : nat) : Scheduler :=
  Nat.iter n (λ s, fst (Next 10 two_lanes s)) NewScheduler.

(** Eleven calls on a store without low-priority jobs reach the state from
    which the normal lane is starved. *)
Lemma starvation_guard_sticks_witness :
  guard_stuck (after_two_lanes 11) ∧
  pick_lanes NewScheduler (replicate 11 (10, two_lanes)) =
    Some <$> [10; 10; 10; 20; 20; 10; 10; 10; 10; 20; 20] ∧
  pick_lanes (after_two_lanes 11) (replicate 1000 (10, two_lanes)) =
    replicate 1000 (Some PriorityHigh).
Proof.
  assert (guard_stuck (after_two_lanes 11)) as Hg by (vm_compute; discriminate).
  split_and!; [done|vm_compute; reflexivity|].
  rewrite (starvation_guard_sticks _ _ Hg); [by rewrite length_replicate|].
  apply Forall_replicate. split; [by apply lane_empty_store_of|].
  apply (lane_busy_job "h" (sample_job "h" PriorityHigh 1)); vm_compute; reflexivity.
Defined.

Lemma generateJobID_nonempty jobType now : generateJobID jobType now ≠ ""%string.
Proof. by destruct jobType. Qed.

(** Two jobs of one type scheduled at the same clock reading get the same
    identifier, and the store keeps only the second: the first is lost though
    both calls report success. *)
Theorem schedule_collision_loses_job jobType now n1 n2 sub1 sub2 at1 at2 m1 m2 p1 p2 st :
  let '(st1, r1) := schedule jobType now n1 sub1 at1 m1 p1 st in
  let '(st2, r2) := schedule jobType now n2 sub2 at2 m2 p2 st1 in
  ∃ j1 j2, r1 = Ok j1 ∧ r2 = Ok j2 ∧ ID j1 = ID j2 ∧ SubscriptionID j1 = sub1 ∧
    jobs st2 = <[ID j2 := j2]> (jobs st) ∧ SubscriptionID j2 = sub2.
Proof.
  unfold schedule, Create. simpl. rewrite !decide_False by apply generateJobID_nonempty.
  simpl. eexists _, _. split_and!; [reflexivity|reflexivity|reflexivity|reflexivity| |reflexivity].
  simpl. by rewrite insert_insert_eq.
Qed.

