(* ===== verification/Worker.v ===== *)
(** * The worker: dispatch, execution and retries

    Models [internal/worker/worker.go]: [pollAndDispatch] with its semaphore
    and the goroutines it starts, [executeJob] and the two handlers. The
    polling goroutine and the job goroutines interleave at their store
    operations, so the worker is a step relation over the shared store. The
    executor is an interface of the program: a run of [Execute] is an event
    whose outcome (no error, or an error text) any step may choose; executors
    do not write the job they are given. Tracing and logging are left out. *)
From stdpp Require Import base gmap strings list relations.
From Stdlib Require Import ZArith Lia.
From S2P Require Import Prelude GoStrings JobQueue Scheduler.
Import JobTypes JobStore.

Record Config := {
  WorkerID : string;
  PollInterval : Duration;
  LockTTL : Duration;
  CfgMaxAttempts : Z;
  BatchSize : Z;
  ShutdownTimeout : Duration;
  MaxConcurrency : Z;
  MaxQueueDepth : Z;
  LaneWeights : option (gmap Z Z);
}.

Definition generateWorkerID (now : Time) : string := ("worker-" +:+ Itoa (wrap64 now))%string.

Definition DefaultConfig (now : Time) : Config :=
  {| WorkerID := generateWorkerID now; PollInterval := 5 * Time.Second;
     LockTTL := 30 * Time.Second; CfgMaxAttempts := 3; BatchSize := 10;
     ShutdownTimeout := 30 * Time.Second; MaxConcurrency := 10; MaxQueueDepth := 1000;
     LaneWeights := None |}.

Record Metrics := {
  JobsProcessed : Z;
  JobsSucceeded : Z;
  JobsFailed : Z;
  JobsDeadLettered : Z;
  LastPollTime : Time;
  LanePickedTotal : gmap Z Z;
}.

(** A job goroutine: started but before its first store update, or inside
    [executor.Execute]. *)
Inductive task := Dispatched (job : Job) | Executing (job : Job).

(** The polling goroutine: waiting for the ticker, at the head of the
    dispatch loop with some iterations left, or at the semaphore with a locked
    job in hand. *)
Inductive poll_state := Idle | Polling (left : Z) | AtSemaphore (left : Z) (job : Job).

(** [calls] is the history of the jobs given to the executor. *)
Record Worker := {
  store : MemoryStore;
  scheduler : Scheduler;
  metrics : Metrics;
  loop : poll_state;
  tasks : list task;
  calls : list Job;
}.

Definition NewMetrics : Metrics :=
  {| JobsProcessed := 0; JobsSucceeded := 0; JobsFailed := 0; JobsDeadLettered := 0;
     LastPollTime := Time.zero; LanePickedTotal := ∅ |}.

Definition NewWorker (st : MemoryStore) (config : Config) : Worker :=
  {| store := st;
     scheduler := match LaneWeights config with
                  | None => NewScheduler
                  | Some w => SetWeights w NewScheduler
                  end;
     metrics := NewMetrics; loop := Idle; tasks := []; calls := [] |}.

Definition set_store (st : MemoryStore) (w : Worker) : Worker :=
  {| store := st; scheduler := scheduler w; metrics := metrics w; loop := loop w;
     tasks := tasks w; calls := calls w |}.
Definition set_metrics (m : Metrics) (w : Worker) : Worker :=
  {| store := store w; scheduler := scheduler w; metrics := m; loop := loop w;
     tasks := tasks w; calls := calls w |}.
Definition set_loop (l : poll_state) (w : Worker) : Worker :=
  {| store := store w; scheduler := scheduler w; metrics := metrics w; loop := l;
     tasks := tasks w; calls := calls w |}.
Definition set_tasks (ts : list task) (w : Worker) : Worker :=
  {| store := store w; scheduler := scheduler w; metrics := metrics w; loop := loop w;
     tasks := ts; calls := calls w |}.
Definition log_call (job : Job) (w : Worker) : Worker :=
  {| store := store w; scheduler := scheduler w; metrics := metrics w; loop := loop w;
     tasks := tasks w; calls := calls w ++ [job] |}.

Definition count_processed (m : Metrics) : Metrics :=
  {| JobsProcessed := JobsProcessed m + 1; JobsSucceeded := JobsSucceeded m;
     JobsFailed := JobsFailed m; JobsDeadLettered := JobsDeadLettered m;
     LastPollTime := LastPollTime m; LanePickedTotal := LanePickedTotal m |}.
Definition count_succeeded (m : Metrics) : Metrics :=
  {| JobsProcessed := JobsProcessed m; JobsSucceeded := JobsSucceeded m + 1;
     JobsFailed := JobsFailed m; JobsDeadLettered := JobsDeadLettered m;
     LastPollTime := LastPollTime m; LanePickedTotal := LanePickedTotal m |}.
Definition count_failed (m : Metrics) : Metrics :=
  {| JobsProcessed := JobsProcessed m; JobsSucceeded := JobsSucceeded m;
     JobsFailed := JobsFailed m + 1; JobsDeadLettered := JobsDeadLettered m;
     LastPollTime := LastPollTime m; LanePickedTotal := LanePickedTotal m |}.
Definition count_dead (m : Metrics) : Metrics :=
  {| JobsProcessed := JobsProcessed m; JobsSucceeded := JobsSucceeded m;
     JobsFailed := JobsFailed m; JobsDeadLettered := JobsDeadLettered m + 1;
     LastPollTime := LastPollTime m; LanePickedTotal := LanePickedTotal m |}.
Definition polled_at (now : Time) (m : Metrics) : Metrics :=
  {| JobsProcessed := JobsProcessed m; JobsSucceeded := JobsSucceeded m;
     JobsFailed := JobsFailed m; JobsDeadLettered := JobsDeadLettered m;
     LastPollTime := now; LanePickedTotal := LanePickedTotal m |}.
Definition count_picked (p : Z) (m : Metrics) : Metrics :=
  {| JobsProcessed := JobsProcessed m; JobsSucceeded := JobsSucceeded m;
     JobsFailed := JobsFailed m; JobsDeadLettered := JobsDeadLettered m;
     LastPollTime := LastPollTime m;
     LanePickedTotal := <[p := default 0 (LanePickedTotal m !! p) + 1]> (LanePickedTotal m) |}.

(** ** The job's own updates *)
Definition set_running (now : Time) (j : Job) : Job :=
  {| ID := ID j; SubscriptionID := SubscriptionID j; Type_ := Type_ j; Status := JobRunning;
     Prio := Prio j; ScheduledAt := ScheduledAt j; StartedAt := Some now;
     CompletedAt := CompletedAt j; Attempts := wrap64 (Attempts j + 1);
     MaxAttempts := MaxAttempts j; LastError := LastError j; Payload := Payload j;
     CreatedAt := CreatedAt j; UpdatedAt := UpdatedAt j; ParentTraceID := ParentTraceID j |}.
Definition set_completed (now : Time) (j : Job) : Job :=
  {| ID := ID j; SubscriptionID := SubscriptionID j; Type_ := Type_ j; Status := JobCompleted;
     Prio := Prio j; ScheduledAt := ScheduledAt j; StartedAt := StartedAt j;
     CompletedAt := Some now; Attempts := Attempts j; MaxAttempts := MaxAttempts j;
     LastError := ""; Payload := Payload j; CreatedAt := CreatedAt j;
     UpdatedAt := UpdatedAt j; ParentTraceID := ParentTraceID j |}.
Definition set_dead (now : Time) (err : string) (j : Job) : Job :=
  {| ID := ID j; SubscriptionID := SubscriptionID j; Type_ := Type_ j; Status := JobDeadLetter;
     Prio := Prio j; ScheduledAt := ScheduledAt j; StartedAt := StartedAt j;
     CompletedAt := Some now; Attempts := Attempts j; MaxAttempts := MaxAttempts j;
     LastError := err; Payload := Payload j; CreatedAt := CreatedAt j;
     UpdatedAt := UpdatedAt j; ParentTraceID := ParentTraceID j |}.
Definition backoff (attempts : Z) : Duration := wrap64 (wrap64 (attempts * attempts) * Time.Second).
Definition set_retry (now : Time) (err : string) (j : Job) : Job :=
  {| ID := ID j; SubscriptionID := SubscriptionID j; Type_ := Type_ j; Status := JobPending;
     Prio := Prio j; ScheduledAt := Time.Add now (backoff (Attempts j)); StartedAt := StartedAt j;
     CompletedAt := CompletedAt j; Attempts := Attempts j; MaxAttempts := MaxAttempts j;
     LastError := err; Payload := Payload j; CreatedAt := CreatedAt j;
     UpdatedAt := UpdatedAt j; ParentTraceID := ParentTraceID j |}.

Section worker.
Context `{GoRuntime} (config : Config).

(** [now] is [time.Now()] of the handler, [unow] the store's clock. *)
Definition handleJobSuccess (now unow : Time) (job : Job) (w : Worker) : Worker :=
  match Update unow (set_completed now job) (store w) with
  | (_, _, Some _) => w
  | (st, _, None) => set_metrics (count_succeeded (metrics w)) (set_store st w)
  end.

Definition handleJobFailure (now unow : Time) (job : Job) (execErr : string) (w : Worker)
    : Worker :=
  let '(job, w) :=
    if CfgMaxAttempts config <=? Attempts job then
      (set_dead now execErr job, set_metrics (count_dead (metrics w)) w)
    else (set_retry now execErr job, set_metrics (count_failed (metrics w)) w) in
  set_store (fst (fst (Update unow job (store w)))) w.

Definition release (job : Job) (w : Worker) : Worker :=
  set_store (fst (ReleaseLock (ID job) (WorkerID config) (store w))) w.

(** [executeJob] up to the call of the executor: the job it is given, or
    nothing when the update to running fails. *)
Definition executeJob_start (now unow : Time) (job : Job) (w : Worker) : Worker * option Job :=
  let w := set_metrics (count_processed (metrics w)) w in
  match Update unow (set_running now job) (store w) with
  | (_, _, Some _) => (release job w, None)
  | (st, job, None) => (log_call job (set_store st w), Some job)
  end.

(** The rest of [executeJob], after the executor returned. *)
Definition executeJob_finish (now unow : Time) (job : Job) (outcome : option string) (w : Worker)
    : Worker :=
  let w := match outcome with
           | Some err => handleJobFailure now unow job err w
           | None => handleJobSuccess now unow job w
           end in
  release job w.

(** The whole of [executeJob] with an executor and the clock readings. *)
Definition executeJob (Execute : Job → option string) (now1 unow1 now2 unow2 : Time) (job : Job)
    (w : Worker) : Worker :=
  match executeJob_start now1 unow1 job w with
  | (w, None) => w
  | (w, Some job) => executeJob_finish now2 unow2 job (Execute job) w
  end.

(** [GetMetrics]: the counters with the depth of the queue and of each lane
    and the age of the oldest due job; [now] stands for its clock readings. *)
Record MetricsSnapshot := {
  counters : Metrics;
  snapQueueDepth : Z;
  snapQueueLag : Duration;
  snapLaneDepth : list (Z * Z);
}.

Definition GetMetrics (now : Time) (w : Worker) : MetricsSnapshot :=
  {| counters := metrics w;
     snapQueueDepth := QueueDepth now (store w);
     snapQueueLag := match OldestPending now (store w) with
                     | Some oldest => Time.Sub now (CreatedAt oldest)
                     | None => 0
                     end;
     snapLaneDepth := (λ p, (p, LaneDepth now p (store w))) <$> laneOrder |}.

(** ** Polling *)
Definition poll_begin (now : Time) (w : Worker) : Worker :=
  if MaxQueueDepth config <? QueueDepth now (store w) then w
  else set_loop (Polling (BatchSize config)) (set_metrics (polled_at now (metrics w)) w).

(** One iteration of the loop up to the semaphore. *)
Definition poll_iter (now lnow lnow' : Time) (left : Z) (w : Worker) : Worker :=
  if left <=? 0 then set_loop Idle w
  else
    let '(sched, next) := Next now (store w) (scheduler w) in
    let w := {| store := store w; scheduler := sched; metrics := metrics w; loop := loop w;
                tasks := tasks w; calls := calls w |} in
    match next with
    | None => set_loop Idle w
    | Some job =>
        let w := set_metrics (count_picked (Prio job) (metrics w)) w in
        let '(st, acquired) :=
          AcquireLock lnow lnow' (ID job) (WorkerID config) (LockTTL config) (store w) in
        let w := set_store st w in
        if acquired then set_loop (AtSemaphore (left - 1) job) w
        else set_loop (Polling (left - 1)) w
    end.

(** [w.sem <- struct{}{}] succeeds and the goroutine starts. *)
Definition dispatch (left : Z) (job : Job) (w : Worker) : Worker :=
  set_loop (Polling left) (set_tasks (tasks w ++ [Dispatched job]) w).

Definition remove_task (i : nat) (w : Worker) : Worker :=
  set_tasks (take i (tasks w) ++ drop (S i) (tasks w)) w.

Definition start_task (now unow : Time) (i : nat) (job : Job) (w : Worker) : Worker :=
  match executeJob_start now unow job w with
  | (w, None) => remove_task i w
  | (w, Some job) => set_tasks (<[i := Executing job]> (tasks w)) w
  end.

Inductive step (w : Worker) : Worker → Prop :=
| step_tick now : loop w = Idle → step w (poll_begin now w)
| step_iter now lnow lnow' left : loop w = Polling left →
    step w (poll_iter now lnow lnow' left w)
| step_dispatch left job : loop w = AtSemaphore left job →
    Z.of_nat (length (tasks w)) < MaxConcurrency config → step w (dispatch left job w)
| step_start now unow i job : tasks w !! i = Some (Dispatched job) →
    step w (start_task now unow i job w)
| step_finish now unow i job outcome : tasks w !! i = Some (Executing job) →
    step w (executeJob_finish now unow job outcome (remove_task i w)).

Definition reachable (st : MemoryStore) : Worker → Prop := rtc step (NewWorker st config).
End worker.

(** ** Bounds on concurrency and the metrics *)
Definition is_executing (t : task) : Z := match t with Executing _ => 1 | Dispatched _ => 0 end.
Definition executing (ts : list task) : Z := foldr (λ t n, is_executing t + n) 0 ts.

Definition outcomes (m : Metrics) : Z := JobsSucceeded m + JobsFailed m + JobsDeadLettered m.

Definition worker_ok (config : Config) (w : Worker) : Prop :=
  Z.of_nat (length (tasks w)) ≤ MaxConcurrency config ∧
  outcomes (metrics w) + executing (tasks w) ≤ Z.of_nat (length (calls w)) ≤
    JobsProcessed (metrics w).

Lemma executing_app ts ts' : executing (ts ++ ts') = executing ts + executing ts'.
Proof. induction ts as [|t ts IH]; simpl; lia. Qed.

Lemma tasks_remove ts i t :
  ts !! i = Some t →
  executing (take i ts ++ drop (S i) ts) = executing ts - is_executing t ∧
  Z.of_nat (length (take i ts ++ drop (S i) ts)) = Z.of_nat (length ts) - 1.
Proof.
  intros Hi. pose proof (take_drop_middle ts i t Hi) as Hts.
  pose proof (f_equal executing Hts) as He. pose proof (f_equal length Hts) as Hl.
  rewrite executing_app in He |- *. rewrite length_app in Hl |- *.
  cbn [executing foldr length] in *. unfold executing in *. lia.
Qed.

Lemma tasks_replace ts i t t' :
  ts !! i = Some t → executing (<[i := t']> ts) = executing ts - is_executing t + is_executing t'.
Proof.
  intros Hi. pose proof (lookup_lt_Some _ _ _ Hi). rewrite insert_take_drop by done.
  pose proof (f_equal executing (take_drop_middle ts i t Hi)) as He.
  rewrite executing_app in He |- *. cbn [executing foldr] in *. unfold executing in *. lia.
Qed.

Section invariant.
Context `{GoRuntime} (config : Config).
Implicit Types (w : Worker) (j : Job).

Lemma worker_ok_start now unow i j w :
  tasks w !! i = Some (Dispatched j) → worker_ok config w →
  worker_ok config (start_task config now unow i j w).
Proof.
  intros Hi (Hl & Hc). pose proof (tasks_remove _ _ _ Hi) as [He Hn].
  unfold start_task, executeJob_start, worker_ok.
  destruct (Update _ _ _) as [[st j'] [e|]]; simpl.
  - unfold outcomes in *. simpl in *. lia.
  - rewrite length_insert, (tasks_replace _ _ _ _ Hi), length_app.
    unfold outcomes in *. simpl in *. lia.
Qed.

Lemma finish_metrics now unow j outcome w :
  let w' := executeJob_finish config now unow j outcome w in
  tasks w' = tasks w ∧ calls w' = calls w ∧ JobsProcessed (metrics w') = JobsProcessed (metrics w) ∧
  outcomes (metrics w') ≤ outcomes (metrics w) + 1.
Proof.
  unfold executeJob_finish, handleJobSuccess, handleJobFailure, outcomes.
  destruct outcome; simpl;
    [match goal with |- context [if ?b then _ else _] => destruct b end|destruct (Update _ _ _) as [[st j'] [e|]]]; simpl;
    split_and!; try done; lia.
Qed.

Lemma poll_iter_frame now l l' left w :
  let w' := poll_iter config now l l' left w in
  tasks w' = tasks w ∧ calls w' = calls w ∧ outcomes (metrics w') = outcomes (metrics w) ∧
  JobsProcessed (metrics w') = JobsProcessed (metrics w).
Proof.
  unfold poll_iter. case_match; [done|]. destruct (Next _ _ _) as [s [j|]]; [|done].
  simpl. by destruct (AcquireLock _ _ _ _ _ _) as [st []].
Qed.

Lemma worker_ok_step w w' : worker_ok config w → step config w w' → worker_ok config w'.
Proof.
  intros Hok Hst. destruct Hst as [now _|now l l' left _|left j _ Hlt|now unow i j Hi|now unow i j o Hi].
  - unfold poll_begin. by case_match.
  - pose proof (poll_iter_frame now l l' left w) as (Ht & Hc & Ho & Hp).
    unfold worker_ok. by rewrite Ht, Hc, Ho, Hp.
  - destruct Hok as (Hl & Hc). unfold worker_ok, dispatch. simpl.
    rewrite executing_app, length_app. simpl. lia.
  - by apply worker_ok_start.
  - destruct Hok as (Hl & Hc). pose proof (tasks_remove _ _ _ Hi) as [He Hn].
    pose proof (finish_metrics now unow j o (remove_task i w)) as (Ht & Hcs & Hp & Ho).
    unfold worker_ok. rewrite Ht, Hcs, Hp. simpl in *. lia.
Qed.

(** In every interleaving of the polling loop and the job goroutines,
    at most [MaxConcurrency] jobs are in flight, and the counters agree with
    what happened: the recorded outcomes and the running executions are at
    most the executor calls made, which are at most [JobsProcessed]. *)
Theorem worker_bounds st w :
  0 ≤ MaxConcurrency config → reachable config st w → worker_ok config w.
Proof.
  intros Hm Hr. assert (worker_ok config (NewWorker st config)) as Hok.
  { unfold worker_ok, outcomes. simpl. lia. }
  revert Hok. induction Hr as [|x y z Hxy _ IH]; [done|].
  intros Hok. by apply IH, (worker_ok_step x).
Qed.
End invariant.

(** ** The same job executed twice *)
Section duplicate.
Context `{GoRuntime} (config : Config).

(** One loop iteration on a store whose only job [j] is due and whose lock is
    free or the worker's own. *)
Definition own_lock (id : string) (st : MemoryStore) : Prop :=
  ∀ l, locks st !! id = Some l → workerID l = WorkerID config.

Lemma AcquireLock_own n n' id st :
  own_lock id st →
  ∃ st', AcquireLock n n' id (WorkerID config) (LockTTL config) st = (st', true) ∧
    jobs st' = jobs st ∧ own_lock id st'.
Proof.
  intros Ho. unfold AcquireLock. destruct (locks st !! id) as [l|] eqn:Hl.
  - specialize (Ho l Hl). rewrite decide_False by tauto.
    case_match; eexists; (split_and!; [done|done|]); intros l'; simpl;
      rewrite lookup_insert_eq; by intros [= <-].
  - eexists; (split_and!; [done|done|]); intros l'; simpl;
      rewrite lookup_insert_eq; by intros [= <-].
Qed.

Lemma poll_iter_singleton now n n' left j w :
  jobs (store w) = {[ID j := j]} → due now j = true → Prio j ∈ laneOrder →
  own_lock (ID j) (store w) → 0 < left →
  let w' := poll_iter config now n n' left w in
  jobs (store w') = {[ID j := j]} ∧ own_lock (ID j) (store w') ∧
  loop w' = AtSemaphore (left - 1) j ∧ tasks w' = tasks w ∧ calls w' = calls w.
Proof.
  intros Hj Hd Hp Ho Hl. unfold poll_iter. rewrite (proj2 (Z.leb_gt _ _) Hl).
  pose proof (Next_singleton now (store w) (scheduler w) j Hj Hd Hp) as Hn.
  destruct (Next now (store w) (scheduler w)) as [s r]. simpl in Hn. subst r. simpl.
  destruct (AcquireLock_own n n' (ID j) (store w) Ho) as (st' & -> & Hjs & Ho').
  simpl. by rewrite Hjs.
Qed.

Lemma start_task_singleton now unow i j w :
  (∃ j0, jobs (store w) !! ID j = Some j0) →
  let r := set_times (CreatedAt j) unow (set_running now j) in
  let w' := start_task config now unow i j w in
  tasks w' = <[i := Executing r]> (tasks w) ∧ calls w' = calls w ++ [r] ∧
  jobs (store w') = <[ID j := r]> (jobs (store w)) ∧ loop w' = loop w.
Proof.
  intros [j0 Hj0]. unfold start_task, executeJob_start, Update. simpl. by rewrite Hj0.
Qed.

Lemma poll_begin_singleton now j :
  due now j = true → 1 ≤ MaxQueueDepth config →
  let w := poll_begin config now (NewWorker (store_of [j]) config) in
  store w = store_of [j] ∧ loop w = Polling (BatchSize config) ∧ tasks w = [] ∧ calls w = [].
Proof.
  intros Hd Hq. unfold poll_begin.
  assert (QueueDepth now (store_of [j]) ≤ 1) as Hle.
  { unfold QueueDepth. pose proof (length_map_range (jobs (store_of [j]))) as Hl.
    simpl in Hl. rewrite insert_empty, map_size_singleton in Hl.
    pose proof (List.filter_length_le (due now) (map_range (jobs (store_of [j]))).*2).
    rewrite length_fmap in *. simpl in *. rewrite insert_empty in *. lia. }
  simpl in *. by rewrite (proj2 (Z.ltb_ge _ _)) by lia.
Qed.

(** A tick and two iterations put the same job into two goroutines. *)
Lemma double_dispatch now j :
  due now j = true → Prio j ∈ laneOrder →
  2 ≤ BatchSize config → 2 ≤ MaxConcurrency config → 1 ≤ MaxQueueDepth config →
  ∃ w, reachable config (store_of [j]) w ∧ tasks w = [Dispatched j; Dispatched j] ∧
    calls w = [] ∧ jobs (store w) = {[ID j := j]}.
Proof.
  intros Hd Hp Hb Hm Hq.
  destruct (poll_begin_singleton now j Hd Hq) as (Hs1 & Hl1 & Ht1 & Hc1).
  set (w1 := poll_begin config now (NewWorker (store_of [j]) config)) in *.
  assert (jobs (store w1) = {[ID j := j]}) as Hj1 by (rewrite Hs1; simpl; by rewrite insert_empty).
  destruct (poll_iter_singleton now now now (BatchSize config) j w1 Hj1 Hd Hp)
    as (Hj2 & Ho2 & Hl2 & Ht2 & Hc2); [|lia|].
  { rewrite Hs1. intros l. simpl. by rewrite lookup_empty. }
  set (w2 := poll_iter config now now now (BatchSize config) w1) in *.
  set (w3 := dispatch (BatchSize config - 1) j w2).
  destruct (poll_iter_singleton now now now (BatchSize config - 1) j w3 Hj2 Hd Hp Ho2)
    as (Hj4 & Ho4 & Hl4 & Ht4 & Hc4); [lia|].
  set (w4 := poll_iter config now now now (BatchSize config - 1) w3) in *.
  exists (dispatch (BatchSize config - 1 - 1) j w4). split_and!; [| | |done].
  - unfold reachable. eapply rtc_l; [by apply (step_tick _ _ now)|]. fold w1.
    eapply rtc_l; [by apply (step_iter _ _ now now now), Hl1|]. fold w2.
    eapply rtc_l; [apply step_dispatch; [exact Hl2|rewrite Ht2, Ht1; simpl; lia]|]. fold w3.
    eapply rtc_l; [by apply (step_iter _ _ now now now)|]. fold w4.
    apply rtc_once, step_dispatch; [exact Hl4|rewrite Ht4; simpl; rewrite Ht2, Ht1; simpl; lia].
  - simpl. rewrite Ht4. simpl. by rewrite Ht2, Ht1.
  - simpl. rewrite Hc4. simpl. by rewrite Hc2, Hc1.
Qed.

(** The worker can run one job twice at the same time. The job stays
    pending until its goroutine's first update, and the lock is re-entrant for
    its own worker, so the next iteration of the same poll picks and locks it
    again: both goroutines reach the executor with the same attempt number. *)
Theorem duplicate_execution now j :
  due now j = true → Prio j ∈ laneOrder →
  2 ≤ BatchSize config → 2 ≤ MaxConcurrency config → 1 ≤ MaxQueueDepth config →
  ∃ w r, reachable config (store_of [j]) w ∧
    tasks w = [Executing r; Executing r] ∧ calls w = [r; r] ∧
    ID r = ID j ∧ Attempts r = wrap64 (Attempts j + 1).
Proof.
  intros Hd Hp Hb Hm Hq.
  destruct (double_dispatch now j Hd Hp Hb Hm Hq) as (w & Hr & Ht & Hc & Hj).
  destruct (start_task_singleton now now 0 j w) as (Ht1 & Hc1 & Hj1 & _).
  { exists j. rewrite Hj. apply lookup_singleton_eq. }
  set (w1 := start_task config now now 0 j w) in *.
  destruct (start_task_singleton now now 1 j w1) as (Ht2 & Hc2 & _ & _).
  { rewrite Hj1. eexists. apply lookup_insert_eq. }
  eexists (start_task config now now 1 j w1), _.
  split_and!; [| |by rewrite Hc2, Hc1, Hc|done|done].
  - unfold reachable in *. eapply rtc_r; [eapply rtc_r; [exact Hr|]|].
    + apply (step_start _ _ now now 0 j). by rewrite Ht.
    + apply (step_start _ _ now now 1 j). fold w1. by rewrite Ht1, Ht.
  - by rewrite Ht2, Ht1, Ht.
Qed.
End duplicate.

Definition two_slots : Config :=
  {| WorkerID := "w"; PollInterval := 5 * Time.Second; LockTTL := 30 * Time.Second;
     CfgMaxAttempts := 3; BatchSize := 2; ShutdownTimeout := 30 * Time.Second;
     MaxConcurrency := 2; MaxQueueDepth := 1000; LaneWeights := None |}.

Lemma duplicate_execution_witness :
  ∃ w r, reachable two_slots (store_of [sample_job "j" PriorityHigh 1]) w ∧
    calls w = [r; r] ∧ ID r = "j"%string ∧ Attempts r = 1.
Proof.
  destruct (duplicate_execution two_slots 5 (sample_job "j" PriorityHigh 1)) as
    (w & r & Hr & _ & Hc & Hi & Ha); [reflexivity|left|simpl; lia..|].
  exists w, r. split_and!; [exact Hr|exact Hc|exact Hi|exact Ha].
Defined.

Lemma worker_bounds_witness :
  worker_ok two_slots (poll_begin two_slots 5 (NewWorker (store_of []) two_slots)).
Proof.
  apply (worker_bounds two_slots (store_of [])); [simpl; lia|].
  apply rtc_once. by apply step_tick.
Defined.

(** ** Retries and the dead-letter state *)
Lemma backoff_quadratic n : 0 ≤ n ≤ 96000 → backoff n = n * n * 1000000000.
Proof.
  intros Hn. unfold backoff, Time.Second, Time.Millisecond.
  rewrite (wrap64_id (n * n)), wrap64_id; [lia|..];
    unfold in_int64, min_int64, max_int64; nia.
Qed.

Section retries.
Context `{GoRuntime} (config : Config) (err : string).

(** The clock readings of one execution. *)
Record readings := { r_start : Time; r_start_store : Time; r_end : Time; r_end_store : Time }.

(** One execution, by an executor that fails, of the job as stored. *)
Definition failing_round (id : string) (w : Worker) (t : readings) : Worker :=
  match Get id (store w) with
  | Err _ => w
  | Ok j => executeJob config (λ _, Some err) (r_start t) (r_start_store t) (r_end t)
              (r_end_store t) j w
  end.

(** The stored job after [n] failed executions, the last at time [t]: due [n]
    squared seconds later, or dead. Times are in nanoseconds. *)
Definition failed_times (n : Z) (t : Time) (j : Job) : Prop :=
  Attempts j = n ∧ LastError j = err ∧
  if n <? CfgMaxAttempts config
  then Status j = JobPending ∧ ScheduledAt j = t + n * n * 1000000000
  else Status j = JobDeadLetter ∧ CompletedAt j = Some t.

Lemma failing_round_spec id w t j :
  jobs (store w) !! id = Some j → ID j = id → 0 ≤ Attempts j < 96000 →
  ∃ j', jobs (store (failing_round id w t)) !! id = Some j' ∧ ID j' = id ∧
    failed_times (Attempts j + 1) (r_end t) j' ∧
    length (calls (failing_round id w t)) = S (length (calls w)).
Proof.
  intros Hj <- Ha. unfold failing_round, Get. rewrite Hj.
  unfold executeJob, executeJob_start, Update. simpl. rewrite Hj. simpl.
  unfold executeJob_finish, handleJobFailure, release. simpl.
  assert (wrap64 (Attempts j + 1) = Attempts j + 1) as Hw
    by (apply wrap64_id; unfold in_int64, min_int64, max_int64 in *; lia).
  rewrite Hw. unfold failed_times. rewrite Z.ltb_antisym.
  pose proof (backoff_quadratic (Attempts j + 1) ltac:(lia)) as Hq.
  destruct (CfgMaxAttempts config <=? Attempts j + 1); simpl.
  - unfold Update. simpl. rewrite lookup_insert_eq. simpl. unfold ReleaseLock. simpl.
    repeat case_match; simpl; rewrite lookup_insert_eq, length_app; simpl;
      eexists; split_and!; try done; simpl; rewrite ?Hw, ?Hq; done || lia.
  - unfold Update. simpl. rewrite lookup_insert_eq. simpl. unfold ReleaseLock. simpl.
    repeat case_match; simpl; rewrite lookup_insert_eq, length_app; simpl;
      eexists; split_and!; try done; simpl; rewrite ?Hw, ?Hq; done || lia.
Qed.

(** C37: retries are bounded. Take a new job whose executions follow one
    another, each on the job as the one before left it, and all fail. After
    the [n]-th execution, for [n] below [MaxAttempts], the job is pending again
    and due [n] squared seconds after the failure; the [MaxAttempts]-th
    dead-letters it. Each execution calls the executor once. [MaxAttempts] is
    the worker's setting, at most 96000 so that the delay fits a duration; the
    job's own is not read. *)
Theorem retries_exhausted id j w ts t :
  jobs (store w) !! id = Some j → ID j = id → Attempts j = 0 →
  Z.of_nat (length ts) < CfgMaxAttempts config ≤ 96000 →
  let w' := foldl (failing_round id) w (ts ++ [t]) in
  ∃ j', jobs (store w') !! id = Some j' ∧
    failed_times (Z.of_nat (length ts) + 1) (r_end t) j' ∧
    length (calls w') = (length (calls w) + length ts + 1)%nat.
Proof.
  intros Hj Hid Ha Hn. simpl. rewrite foldl_app. simpl.
  assert (∃ j1, jobs (store (foldl (failing_round id) w ts)) !! id = Some j1 ∧ ID j1 = id ∧
    Attempts j1 = Z.of_nat (length ts) ∧
    length (calls (foldl (failing_round id) w ts)) = (length (calls w) + length ts)%nat)
    as (j1 & Hj1 & Hid1 & Ha1 & Hc1).
  { clear t. induction ts as [|t ts IH] using rev_ind; [exists j; simpl; split_and!; lia || done|].
    rewrite length_app in *. simpl in *.
    destruct IH as (j1 & Hj1 & Hid1 & Ha1 & Hc1); [lia|]. rewrite foldl_app. simpl.
    destruct (failing_round_spec id _ t j1 Hj1 Hid1) as (j2 & Hj2 & Hid2 & (Ha2 & _) & Hc2); [lia|].
    exists j2. split_and!; [done|done|lia|lia]. }
  destruct (failing_round_spec id _ t j1 Hj1 Hid1) as (j2 & Hj2 & _ & Hf & Hc2); [lia|].
  exists j2. rewrite Ha1 in Hf. split_and!; [done|done|lia].
Qed.
End retries.

Lemma retries_exhausted_witness :
  let j := sample_job "j" PriorityHigh 1 in
  let r t := {| r_start := t; r_start_store := t; r_end := t; r_end_store := t |} in
  let w' := foldl (failing_round two_slots "boom" "j") (NewWorker (store_of [j]) two_slots)
              ([r 5; r 10] ++ [r 20]) in
  ∃ j', jobs (store w') !! "j"%string = Some j' ∧ failed_times two_slots "boom" 3 20 j' ∧
    Status j' = JobDeadLetter.
Proof.
  intros j r w'.
  destruct (retries_exhausted two_slots "boom" "j" j (NewWorker (store_of [j]) two_slots)
    [r 5; r 10] (r 20)) as (j' & Hj' & Hf & _); [vm_compute; reflexivity|done|done|done|].
  exists j'. split_and!; [exact Hj'|exact Hf|]. apply Hf.
Defined.
