(* ===== verification/Lockout.v ===== *)
(** * Admin login lockout

    Models [internal/security/lockout.go] (the per-source, per-account
    exponential lockout) and the [Login] handler of [internal/handlers/admin.go]
    that uses it. Every operation takes the clock readings it makes; the
    prometheus counter and the audit log are left out. *)
From stdpp Require Import base gmap strings list.
From Stdlib Require Import ZArith Lia.
From S2P Require Import Prelude.

Definition DefaultBaseLockout : Duration := 1 * Time.Second.
Definition DefaultMaxLockout : Duration := 15 * Time.Minute.
Definition defaultCleanupEvery : Duration := Time.Minute.

Record lockoutEntry := {
  attempts : Z;
  lockedAt : Time;
  lockoutFor : Duration;
}.

Record LockoutTracker := {
  entries : gmap string lockoutEntry;
  baseLockout : Duration;
  maxLockout : Duration;
  lastCleanup : Time;
  cleanupEvery : Duration;
}.

(** [NewLockoutTracker(WithBaseLockout(base), WithMaxLockout(max))]. *)
Definition NewLockoutTracker (base max : Duration) (now : Time) : LockoutTracker :=
  {| entries := ∅; baseLockout := base; maxLockout := max; lastCleanup := now;
     cleanupEvery := defaultCleanupEvery |}.

Definition lockoutKey (source account : string) : string :=
  (source +:+ "|" +:+ account)%string.

Definition set_entries (m : gmap string lockoutEntry) (lt : LockoutTracker) : LockoutTracker :=
  {| entries := m; baseLockout := baseLockout lt; maxLockout := maxLockout lt;
     lastCleanup := lastCleanup lt; cleanupEvery := cleanupEvery lt |}.

Definition expiry (e : lockoutEntry) : Time := Time.Add (lockedAt e) (lockoutFor e).

Definition cleanupLocked (now : Time) (lt : LockoutTracker) : LockoutTracker :=
  if Time.Sub now (lastCleanup lt) <? cleanupEvery lt then lt
  else {| entries := filter (λ '(_, e), Time.After now (expiry e) = false) (entries lt);
          baseLockout := baseLockout lt; maxLockout := maxLockout lt;
          lastCleanup := now; cleanupEvery := cleanupEvery lt |}.

(** The doubling loop of [RecordFailure] with [n] iterations left. *)
Fixpoint double_loop (n : nat) (max duration : Duration) : Duration :=
  match n with
  | O => duration
  | S n =>
      let duration := wrap64 (duration * 2) in
      if max <=? duration then max else double_loop n max duration
  end.

(** [cnow] is read by the cleanup, [now] for the new lock. *)
Definition RecordFailure (cnow now : Time) (source account : string) (lt : LockoutTracker)
    : LockoutTracker :=
  let lt := cleanupLocked cnow lt in
  let k := lockoutKey source account in
  let n := wrap64 (default 0 (attempts <$> entries lt !! k) + 1) in
  let duration := double_loop (Z.to_nat (n - 1)) (maxLockout lt) (baseLockout lt) in
  set_entries (<[k := {| attempts := n; lockedAt := now; lockoutFor := duration |}]> (entries lt)) lt.

(** The part of [IsLocked] under the read lock; [None] when the entry is
    absent. *)
Definition IsLocked_read (now : Time) (source account : string) (lt : LockoutTracker)
    : option bool :=
  match entries lt !! lockoutKey source account with
  | None => None
  | Some e => Some (Time.Before now (expiry e))
  end.

(** The part under the write lock. *)
Definition IsLocked_evict (now : Time) (source account : string) (lt : LockoutTracker)
    : LockoutTracker :=
  let k := lockoutKey source account in
  match entries lt !! k with
  | None => lt
  | Some e => if Time.After now (expiry e) then set_entries (delete k (entries lt)) lt else lt
  end.

Definition IsLocked (now : Time) (source account : string) (lt : LockoutTracker)
    : LockoutTracker * bool :=
  match IsLocked_read now source account lt with
  | None => (lt, false)
  | Some true => (lt, true)
  | Some false => (IsLocked_evict now source account lt, false)
  end.

Definition Reset (source account : string) (lt : LockoutTracker) : LockoutTracker :=
  set_entries (delete (lockoutKey source account) (entries lt)) lt.

Definition LockoutRemaining (now : Time) (source account : string) (lt : LockoutTracker)
    : Duration :=
  match entries lt !! lockoutKey source account with
  | None => 0
  | Some e =>
      if Time.Before now (expiry e) then
        let d := Time.Sub (expiry e) now in d - Z.rem d Time.Second
      else 0
  end.

Definition Attempts (source account : string) (lt : LockoutTracker) : Z :=
  match entries lt !! lockoutKey source account with None => 0 | Some e => attempts e end.

(** ** The login handler *)
Inductive login_response :=
| BadRequest | RateLimited (seconds : Z) | Unauthorized | Authenticated.

(** The clock readings of one request, in order. *)
Record login_clock := { t_locked : Time; t_remaining : Time; t_cleanup : Time; t_record : Time }.

Definition Login (expectedToken : string) (t : login_clock) (source username token : string)
    (lt : LockoutTracker) : LockoutTracker * login_response :=
  if bool_decide (username = "") || bool_decide (token = "") then (lt, BadRequest)
  else
    match IsLocked (t_locked t) source username lt with
    | (lt, true) =>
        (lt, RateLimited (Z.quot (LockoutRemaining (t_remaining t) source username lt) Time.Second))
    | (lt, false) =>
        if negb (bool_decide (expectedToken = "")) && bool_decide (expectedToken = token) then
          (Reset source username lt, Authenticated)
        else (RecordFailure (t_cleanup t) (t_record t) source username lt, Unauthorized)
    end.

(** ** The lockout duration *)
Lemma double_loop_spec n max d :
  0 < d ≤ max → max < 2 ^ 62 →
  double_loop n max d = Z.min (d * 2 ^ Z.of_nat n) max.
Proof.
  revert d. induction n as [|n IH]; intros d Hd Hm; cbn [double_loop]; [lia|].
  rewrite wrap64_id by (unfold in_int64, min_int64, max_int64; lia).
  rewrite Nat2Z.inj_succ, Z.pow_succ_r by lia.
  pose proof (Z.pow_pos_nonneg 2 (Z.of_nat n) ltac:(lia) ltac:(lia)).
  destruct (max <=? d * 2) eqn:Hc; [nia|]. rewrite IH by lia. f_equal. lia.
Qed.

Lemma lookup_cleanup cnow lt k e :
  entries (cleanupLocked cnow lt) !! k = Some e → entries lt !! k = Some e.
Proof. unfold cleanupLocked. case_match; [done|]. simpl. by intros [? _]%map_lookup_filter_Some. Qed.

Lemma lookup_cleanup_live cnow lt k e :
  entries lt !! k = Some e → cnow ≤ expiry e → entries (cleanupLocked cnow lt) !! k = Some e.
Proof.
  intros He Hx. unfold cleanupLocked. case_match; [done|]. simpl.
  apply map_lookup_filter_Some. split; [done|]. by apply After_false.
Qed.

Lemma cleanup_params cnow lt :
  baseLockout (cleanupLocked cnow lt) = baseLockout lt ∧
  maxLockout (cleanupLocked cnow lt) = maxLockout lt.
Proof. unfold cleanupLocked. by case_match. Qed.

(** The failures a cleanup leaves on record for a pair. *)
Definition surviving (cnow : Time) (source account : string) (lt : LockoutTracker) : Z :=
  Attempts source account (cleanupLocked cnow lt).

(** [RecordFailure] locks the pair out. With a base of at most the
    maximum, the failure that follows [n] recorded ones locks for
    [min (base * 2^n) max]: [IsLocked] answers true exactly until that much
    time has passed since the failure. *)
Theorem RecordFailure_locks cnow now source account lt t :
  0 < baseLockout lt ≤ maxLockout lt → maxLockout lt < 2 ^ 62 →
  0 ≤ surviving cnow source account lt < max_int64 →
  let d := Z.min (baseLockout lt * 2 ^ surviving cnow source account lt) (maxLockout lt) in
  let lt' := RecordFailure cnow now source account lt in
  snd (IsLocked t source account lt') = (t <? now + d) ∧
  Attempts source account lt' = surviving cnow source account lt + 1.
Proof.
  intros Hb Hm Hn. unfold surviving, Attempts, RecordFailure in *.
  destruct (cleanup_params cnow lt) as [Hcb Hcm].
  set (lt0 := cleanupLocked cnow lt) in *. set (k := lockoutKey source account) in *.
  set (n := match entries lt0 !! k with None => 0 | Some e => attempts e end) in *.
  assert (default 0 (attempts <$> entries lt0 !! k) = n) as -> by (unfold n; by destruct (_ !! _)).
  rewrite wrap64_id by (unfold in_int64, min_int64, max_int64 in *; lia).
  simpl. rewrite Hcb, Hcm, double_loop_spec by done.
  replace (Z.of_nat (Z.to_nat (n + 1 - 1))) with n by lia.
  unfold IsLocked, IsLocked_read, expiry, Time.Before, Time.Add. simpl. fold k.
  rewrite !lookup_insert_eq. simpl. split; [|done]. by case_match.
Qed.

Lemma RecordFailure_locks_witness :
  let lt := RecordFailure 5 5 "ip" "root" (NewLockoutTracker 10 1000 0) in
  snd (IsLocked 25 "ip" "root" (RecordFailure 6 6 "ip" "root" lt)) = true ∧
  snd (IsLocked 26 "ip" "root" (RecordFailure 6 6 "ip" "root" lt)) = false.
Proof.
  intros lt.
  assert (∀ t, snd (IsLocked t "ip" "root" (RecordFailure 6 6 "ip" "root" lt)) = (t <? 6 + 20)) as Hl.
  { intros t. apply (RecordFailure_locks 6 6 "ip" "root" lt t);
      [split; vm_compute; congruence|vm_compute; congruence|split; vm_compute; congruence]. }
  split; [apply (Hl 25)|apply (Hl 26)].
Defined.

(** ** Logins in sequence *)
Section logins.
Context (expectedToken source username : string) (base max : Duration).

Definition k := lockoutKey source username.

(** A request: its clock readings and the token it offers. *)
Definition login (lt : LockoutTracker) (r : login_clock * string) : LockoutTracker :=
  fst (Login expectedToken (fst r) source username (snd r) lt).

(** No request of the run reads the clock at the exact instant at which the
    current lockout ends. *)
Fixpoint off_expiry (lt : LockoutTracker) (rs : list (login_clock * string)) : Prop :=
  match rs with
  | [] => True
  | r :: rs =>
      (∀ e, entries lt !! k = Some e → t_locked (fst r) ≠ expiry e) ∧ off_expiry (login lt r) rs
  end.

Definition base_only (lt : LockoutTracker) : Prop :=
  baseLockout lt = base ∧
  ∀ e, entries lt !! k = Some e → attempts e = 1 ∧ lockoutFor e = base.

Lemma IsLocked_base_only t lt :
  base_only lt → (∀ e, entries lt !! k = Some e → t ≠ expiry e) →
  let '(lt', locked) := IsLocked t source username lt in
  base_only lt' ∧ (locked = false → entries lt' !! k = None).
Proof.
  intros Hbo Hoff. unfold IsLocked, IsLocked_read, IsLocked_evict. fold k.
  destruct (entries lt !! k) as [e|] eqn:He; [|by split].
  specialize (Hoff _ eq_refl). destruct (Time.Before t (expiry e)) eqn:Hbf; [by split|].
  apply Before_false in Hbf. rewrite (proj2 (After_true _ _)) by lia.
  split; [split; [apply Hbo|]|intros _]; simpl.
  - intros e'. by rewrite lookup_delete_eq.
  - by rewrite lookup_delete_eq.
Qed.

Lemma login_base_only lt r :
  base_only lt → (∀ e, entries lt !! k = Some e → t_locked (fst r) ≠ expiry e) →
  base_only (login lt r).
Proof.
  intros Hb Hoff. unfold login, Login. case_match; [done|].
  pose proof (IsLocked_base_only (t_locked (fst r)) lt Hb Hoff) as Hi.
  destruct (IsLocked _ _ _ lt) as [lt' []]; [by destruct Hi|].
  destruct Hi as [[Hbase _] He]. specialize (He eq_refl). case_match; simpl.
  - split; [done|]. intros e. simpl. fold k. by rewrite lookup_delete_eq.
  - destruct (cleanup_params (t_cleanup (fst r)) lt') as [Hcb _].
    split; [etrans; [exact Hcb|exact Hbase]|]. intros e. unfold RecordFailure. cbn [entries set_entries]. fold k.
    destruct (entries (cleanupLocked _ lt') !! k) as [e'|] eqn:He'.
    { apply lookup_cleanup in He'. congruence. }
    rewrite lookup_insert_eq. intros [= <-]. simpl. by rewrite Hcb.
Qed.

(** through the login handler the lockout does not grow. [IsLocked]
    forgets a pair as soon as its lockout has expired, and the handler asks it
    before recording a failure, so however many logins fail one after the
    other, the record shows one attempt and the base duration. *)
Theorem Login_lockout_never_grows now rs :
  off_expiry (NewLockoutTracker base max now) rs →
  base_only (foldl login (NewLockoutTracker base max now) rs).
Proof.
  assert (base_only (NewLockoutTracker base max now)) as Hb.
  { split; [done|]. intros e. simpl. by rewrite lookup_empty. }
  revert Hb. generalize (NewLockoutTracker base max now) as lt.
  induction rs as [|r rs IH]; intros lt Hb Ho; [done|].
  destruct Ho as [Ho Hs]. simpl. by apply IH; [apply login_base_only|].
Qed.
End logins.

Definition at_ (t : Time) : login_clock * string :=
  ({| t_locked := t; t_remaining := t; t_cleanup := t; t_record := t |}, "wrong"%string).

Lemma Login_lockout_never_grows_witness :
  let rs := [at_ 1; at_ 12; at_ 45] in
  let lt := foldl (login "secret" "ip" "root") (NewLockoutTracker 10 1000 0) rs in
  base_only "ip" "root" 10 lt ∧ Attempts "ip" "root" lt = 1 ∧
  LockoutRemaining 46 "ip" "root" lt = 0.
Proof.
  intros rs lt. split; [|split; vm_compute; reflexivity].
  apply (Login_lockout_never_grows "secret" "ip" "root" 10 1000 0 rs).
  repeat (split; [intros e; vm_compute; intros [= <-]; discriminate|]). exact I.
Defined.
