(* ===== verification/RateLimit.v ===== *)
(** * Rate limiting

    Models [internal/middleware/ratelimit.go] (token buckets per client and
    route) and [internal/middleware/tenant_ratelimit.go] (limiters per tenant
    in hashed shards). Operations take the clock readings they make. The
    limiter of [golang.org/x/time/rate] is third-party code and enters as the
    class [RateLimiter]. *)
From stdpp Require Import base gmap strings list.
From Stdlib Require Import ZArith Lia SpecFloat.
From S2P Require Import Prelude GoStrings GoFloat.

Record RateLimitSnapshot := { Limit : Z; Remaining : Z; Reset : Time }.

(** The headers [emitRateLimitHeaders] sets; [Retry-After] only when nothing
    remains. *)
Record rate_headers := {
  h_limit : Z;
  h_remaining : Z;
  h_reset : Z;
  h_retry_after : option Z;
}.

Definition emitRateLimitHeaders (now : Time) (s : RateLimitSnapshot) : rate_headers :=
  let limit := if Limit s <? 0 then 0 else Limit s in
  let remaining := if Remaining s <? 0 then 0 else Remaining s in
  {| h_limit := limit; h_remaining := remaining; h_reset := Reset s / Time.Second;
     h_retry_after :=
       if remaining =? 0 then
         let retryAfter := int64_of_ceil (f_seconds (Time.Sub (Reset s) now)) in
         Some (if retryAfter <? 1 then 1 else retryAfter)
       else None |}.

Lemma retry_after_refused now s :
  Remaining s = 0 → h_remaining (emitRateLimitHeaders now s) = 0 ∧ ∃ n, h_retry_after (emitRateLimitHeaders now s) = Some n ∧ 1 ≤ n.
Proof.
  intros Hr. unfold emitRateLimitHeaders. rewrite Hr. split; [done|]. cbn. eexists. split; [reflexivity|].
  generalize (int64_of_ceil (f_seconds (Time.Sub (Reset s) now))) as n. intros n. destruct (Z.ltb_spec n 1); lia.
Qed.

Module TokenBuckets.
Record TokenBucket := {
  capacity : Z;
  tokens : Z;
  refillRate : Z;
  lastRefill : Time;
  burstCapacity : Z;
}.

Definition NewTokenBucket (now : Time) (capacity refillRate burstCapacity : Z) : TokenBucket :=
  {| capacity := capacity; tokens := burstCapacity; refillRate := refillRate;
     lastRefill := now; burstCapacity := burstCapacity |}.

Definition tokensToAdd (now : Time) (tb : TokenBucket) : Z :=
  int64_of_float (f_mul (f_seconds (Time.Sub now (lastRefill tb))) (f_of_int (refillRate tb))).

Definition refill (now : Time) (tb : TokenBucket) : TokenBucket :=
  let add := tokensToAdd now tb in
  if 0 <? add then
    let t := wrap64 (tokens tb + add) in
    {| capacity := capacity tb;
       tokens := if burstCapacity tb <? t then burstCapacity tb else t;
       refillRate := refillRate tb; lastRefill := now; burstCapacity := burstCapacity tb |}
  else tb.

Definition take_token (tb : TokenBucket) : TokenBucket * bool :=
  if 1 <=? tokens tb then
    ({| capacity := capacity tb; tokens := tokens tb - 1; refillRate := refillRate tb;
        lastRefill := lastRefill tb; burstCapacity := burstCapacity tb |}, true)
  else (tb, false).

(** One request on its own. The mutex is free between the two halves, see
    [run] for requests that overlap. *)
Definition allowRequest (now : Time) (tb : TokenBucket) : TokenBucket * bool :=
  take_token (refill now tb).

(** A bucket just created admits its first request. *)
Lemma allow_fresh now capacity rate burst :
  1 ≤ burst →
  allowRequest now (NewTokenBucket now capacity rate burst) =
    ({| capacity := capacity; tokens := burst - 1; refillRate := rate; lastRefill := now;
        burstCapacity := burst |}, true).
Proof.
  intros Hb. unfold allowRequest, refill, tokensToAdd. simpl.
  replace (Time.Sub now now) with 0 by (unfold Time.Sub, min_int64, max_int64; lia).
  pose proof (int64_of_elapsed_0 (f_of_int rate)).
  rewrite (proj2 (Z.ltb_ge _ _)) by done. unfold take_token. simpl.
  by rewrite (proj2 (Z.leb_le _ _)) by done.
Qed.

(** ** A bucket under many requests

    [allowRequest] locks the mutex twice, so the two halves of concurrent
    requests come in any order: a refill with its reading of the clock, and a
    try for a token. *)
Inductive bucket_op := Refill (t : Time) | Take.
Fixpoint run (tb : TokenBucket) (ops : list bucket_op) : TokenBucket * Z :=
  match ops with
  | [] => (tb, 0)
  | Refill t :: ops => run (refill t tb) ops
  | Take :: ops =>
      let '(tb, ok) := take_token tb in
      let '(tb, n) := run tb ops in (tb, (if ok : bool then 1 else 0) + n)
  end.

(** The clock has not passed [latest]. *)
Definition read_by (latest : Time) (o : bucket_op) : Prop := match o with Refill t => t ≤ latest | Take => True end.

(** Requests that do not overlap. *)
Lemma allow_run t tb :
  run tb [Refill t; Take] = let '(tb', ok) := allowRequest t tb in (tb', if ok then 1 else 0).
Proof. simpl. unfold allowRequest. destruct (take_token _) as [tb' []]; done. Qed.

Definition well_formed (tb : TokenBucket) : Prop :=
  0 ≤ burstCapacity tb ∧ tokens tb ≤ burstCapacity tb ∧
  in_int64 (tokens tb) ∧ in_int64 (burstCapacity tb).

Lemma wrap64_add_le a b :
  in_int64 a → 0 ≤ b ≤ max_int64 → in_int64 (wrap64 (a + b)) ∧ Z.max 0 (wrap64 (a + b)) ≤ Z.max 0 a + b.
Proof.
  intros Ha Hb. split; [apply wrap64_bounds|].
  destruct (decide (a + b ≤ max_int64)) as [Hle|Hgt].
  - rewrite wrap64_id; [lia|]. unfold in_int64, min_int64 in *. lia.
  - assert (wrap64 (a + b) = a + b - 2 ^ 64) as ->.
    { unfold wrap64, in_int64, min_int64, max_int64 in *.
      rewrite <- (Z.mod_unique (a + b + 2 ^ 63) (2 ^ 64) 1 (a + b - 2 ^ 63)); lia. }
    unfold in_int64, min_int64, max_int64 in *. lia.
Qed.

Lemma refill_spec now tb :
  well_formed tb →
  well_formed (refill now tb) ∧ burstCapacity (refill now tb) = burstCapacity tb ∧
  Z.max 0 (tokens (refill now tb)) ≤ Z.max 0 (tokens tb) + Z.max 0 (tokensToAdd now tb).
Proof.
  intros Hwf. pose proof Hwf as (Hb & Ht & Hi & Hib). unfold refill. case_match eqn:Ha; [|split; [done|split; [done|lia]]].
  pose proof (int64_of_float_bounds
    (f_mul (f_seconds (Time.Sub now (lastRefill tb))) (f_of_int (refillRate tb)))) as Hf.
  fold (tokensToAdd now tb) in Hf.
  destruct (wrap64_add_le (tokens tb) (tokensToAdd now tb)) as [Hw Hle];
    [done|unfold in_int64 in Hf; lia|].
  unfold well_formed. simpl. case_match; split_and!; done || lia.
Qed.

Lemma take_spec tb :
  well_formed tb →
  let '(tb', ok) := take_token tb in
  well_formed tb' ∧ burstCapacity tb' = burstCapacity tb ∧ refillRate tb' = refillRate tb ∧ lastRefill tb' = lastRefill tb ∧
  (if ok : bool then 1 else 0) + Z.max 0 (tokens tb') ≤ Z.max 0 (tokens tb).
Proof.
  intros Hwf. unfold take_token. destruct (1 <=? tokens tb) eqn:Hc; [|split_and!; [done..|lia]].
  destruct Hwf as (H0 & H1 & H2 & H3). unfold well_formed, in_int64, min_int64, max_int64 in *.
  simpl. split_and!; done || lia.
Qed.

(** A refill pays for its tokens with the time it moves [lastRefill] by. *)
Lemma refill_paid now tb :
  well_formed tb → 0 ≤ refillRate tb →
  refillRate (refill now tb) = refillRate tb ∧
  lastRefill tb ≤ lastRefill (refill now tb) ≤ Z.max (lastRefill tb) now ∧
  (Z.max 0 (tokens (refill now tb)) - Z.max 0 (tokens tb)) * 1000000000 * 2 ^ 49 ≤
    (lastRefill (refill now tb) - lastRefill tb) * refillRate tb * (2 ^ 49 + 1).
Proof.
  intros Hwf Hr. destruct (refill_spec now tb Hwf) as (_ & _ & Hle). unfold refill in *.
  destruct (0 <? tokensToAdd now tb) eqn:Ha; [|split_and!; [done|lia|lia|lia]].
  assert (0 < Time.Sub now (lastRefill tb)) as Hd.
  { apply Z.nle_gt. intros Hd. pose proof (elapsed_negative _ _ Hd Hr). unfold tokensToAdd in Ha. lia. }
  pose proof (elapsed_tokens (Time.Sub now (lastRefill tb)) (refillRate tb) ltac:(lia) Hr) as Hp.
  fold (tokensToAdd now tb) in Hp. cbn [refillRate lastRefill tokens] in *.
  assert (Time.Sub now (lastRefill tb) ≤ now - lastRefill tb) as Hs by (unfold Time.Sub, min_int64, max_int64 in *; lia).
  assert (lastRefill tb < now) by lia. split_and!; [done|lia|lia|].
  etrans; [|etrans; [exact Hp|]]; [lia|]. apply Z.mul_le_mono_nonneg_r; [lia|]. by apply Z.mul_le_mono_nonneg_r.
Qed.

Lemma run_paid ops : ∀ tb, well_formed tb → 0 ≤ refillRate tb →
  let '(tb', n) := run tb ops in
  well_formed tb' ∧ burstCapacity tb' = burstCapacity tb ∧ refillRate tb' = refillRate tb ∧ 0 ≤ n ∧
  lastRefill tb ≤ lastRefill tb' ∧
  (∀ latest, lastRefill tb ≤ latest → Forall (read_by latest) ops → lastRefill tb' ≤ latest) ∧
  (n + Z.max 0 (tokens tb') - Z.max 0 (tokens tb)) * 1000000000 * 2 ^ 49 ≤
    (lastRefill tb' - lastRefill tb) * refillRate tb * (2 ^ 49 + 1).
Proof.
  induction ops as [|[t|] ops IH]; intros tb Hwf Hr; cbn [run].
  - split_and!; try done; try lia.
  - destruct (refill_spec t tb Hwf) as (Hwf1 & Hb1 & _). destruct (refill_paid t tb Hwf Hr) as (Hr1 & Hl1 & Hp1).
    specialize (IH (refill t tb) Hwf1 ltac:(lia)). destruct (run (refill t tb) ops) as [tb' n].
    destruct IH as (Hwf2 & Hb2 & Hr2 & Hn & Hl2 & Hl3 & Hp2). rewrite Hr1 in Hp2.
    split_and!; [done|congruence|congruence|done|lia| |lia].
    intros latest Hlat [Ht Hts]%Forall_cons. apply Hl3; [|done]. cbn in Ht. lia.
  - pose proof (take_spec tb Hwf) as Ht. destruct (take_token tb) as [tb1 ok]. destruct Ht as (Hwf1 & Hb1 & Hr1 & Hl1 & Hle).
    specialize (IH tb1 Hwf1 ltac:(lia)). destruct (run tb1 ops) as [tb' n].
    destruct IH as (Hwf2 & Hb2 & Hr2 & Hn & Hl2 & Hl3 & Hp2). rewrite Hr1, Hl1 in *.
    split_and!; [done|congruence|congruence|destruct ok; lia|lia| |lia].
    intros latest Hlat [_ Hts]%Forall_cons. apply Hl3; [lia|done].
Qed.

(** C38: what a bucket admits. From a full bucket, whatever the interleaving of
    the refills and the takes of concurrent requests and whatever the clock
    readings (going backwards included), up to a latest one, the requests
    admitted are at most the burst plus the rate times the time elapsed: in
    nanoseconds, and but for one part in [2^49] that rounding may add. The
    bucket never holds more than its burst. *)
Theorem admitted_bounded now capacity rate burst ops latest :
  0 ≤ burst ≤ max_int64 → 0 ≤ rate → now ≤ latest → Forall (read_by latest) ops →
  let '(tb', n) := run (NewTokenBucket now capacity rate burst) ops in
  (n - burst) * 1000000000 * 2 ^ 49 ≤ (latest - now) * rate * (2 ^ 49 + 1) ∧
  0 ≤ n ∧ tokens tb' ≤ burst ∧ burstCapacity tb' = burst.
Proof.
  intros Hb Hr Hl Hts.
  pose proof (run_paid ops (NewTokenBucket now capacity rate burst)) as Hrun. destruct (run _ ops) as [tb' n].
  destruct Hrun as ((_ & Ht & _) & Hbc & _ & Hn & _ & Hlast & Hp);
    [unfold well_formed, in_int64, min_int64, max_int64 in *; simpl; lia|done|].
  cbn [NewTokenBucket tokens lastRefill refillRate burstCapacity] in *. split_and!; [|lia..].
  specialize (Hlast latest Hl Hts). etrans; [|etrans; [exact Hp|]]; [lia|].
  apply Z.mul_le_mono_nonneg_r; [lia|]. apply Z.mul_le_mono_nonneg_r; lia.
Qed.

(** Two requests whose halves interleave, and one a second later: of a bucket
    of three at two a second, five tries out of seven are admitted. *)
Lemma admitted_bounded_witness :
  let s := Time.Second in
  let ops := [Refill 0; Refill 0; Take; Take; Refill 0; Take; Take; Refill s; Take; Refill s; Take; Take] in
  snd (run (NewTokenBucket 0 2 2 3) ops) = 5 ∧
  (5 - 3) * 1000000000 * 2 ^ 49 ≤ (s - 0) * 2 * (2 ^ 49 + 1).
Proof.
  intros s ops. assert (snd (run (NewTokenBucket 0 2 2 3) ops) = 5) as Hn by (vm_compute; reflexivity).
  split; [exact Hn|].
  assert (Forall (read_by s) ops) as Hts by (repeat constructor; vm_compute; discriminate).
  pose proof (admitted_bounded 0 2 2 3 ops s ltac:(unfold max_int64; lia) ltac:(lia) ltac:(vm_compute; discriminate) Hts) as Hb.
  destruct (run (NewTokenBucket 0 2 2 3) ops) as [tb' n]. change (n = 5) in Hn. subst n. exact (proj1 Hb).
Defined.
End TokenBuckets.

Module APILimiter.
Import TokenBuckets.

Inductive RateLimitMode := ModeIP | ModeUser | ModeHybrid | ModeOther (m : string).

Record RouteSpecificConfig := { Path : string; RouteRPS : Z; RouteBurst : Z }.

Record RateLimiterConfig := {
  Mode : RateLimitMode;
  RequestsPerSec : Z;
  BurstSize : Z;
  WhitelistPaths : list string;
  Enabled : bool;
  RouteConfigs : gmap string RouteSpecificConfig;
}.

Record APIRateLimiter := {
  config : RateLimiterConfig;
  buckets : gmap string TokenBucket;
}.

(** What the middleware reads of a request: [c.ClientIP()] and the caller the
    authentication middleware stored, when it did. *)
Record Request := {
  URLPath : string;
  callerID : option string;
  XForwardedFor : string;
  XRealIP : string;
  ClientIP : string;
}.

Definition NewAPIRateLimiter (c : RateLimiterConfig) : APIRateLimiter :=
  {| config := c; buckets := ∅ |}.

Definition getBucket (now : Time) (key path : string) (rl : APIRateLimiter)
    : APIRateLimiter * TokenBucket :=
  let bucketKey := (key +:+ ":" +:+ path)%string in
  match buckets rl !! bucketKey with
  | Some b => (rl, b)
  | None =>
      let '(rps, burst) :=
        match RouteConfigs (config rl) !! path with
        | Some rc => (RouteRPS rc, RouteBurst rc)
        | None => (RequestsPerSec (config rl), BurstSize (config rl))
        end in
      let b := NewTokenBucket now rps rps burst in
      ({| config := config rl; buckets := <[bucketKey := b]> (buckets rl) |}, b)
  end.

(** The text before the first comma. *)
Fixpoint before_comma (s : string) : string :=
  match s with
  | EmptyString => EmptyString
  | String c s => if bool_decide (code c = 44) then EmptyString else String c (before_comma s)
  end.

Definition getClientIP (r : Request) : string :=
  if bool_decide (XForwardedFor r ≠ "") then before_comma (XForwardedFor r)
  else if bool_decide (XRealIP r ≠ "") then XRealIP r
  else ClientIP r.

Definition getKey (rl : APIRateLimiter) (r : Request) : string :=
  match Mode (config rl) with
  | ModeIP => getClientIP r
  | ModeUser => match callerID r with Some u => u | None => getClientIP r end
  | ModeHybrid => (default "anonymous" (callerID r) +:+ ":" +:+ getClientIP r)%string
  | ModeOther _ => getClientIP r
  end.

Definition isWhitelisted (rl : APIRateLimiter) (path : string) : bool :=
  any (λ w, bool_decide (path = w)) (WhitelistPaths (config rl)).

(** The defaults [RateLimitMiddleware] fills in. *)
Definition normalise (c : RateLimiterConfig) : RateLimiterConfig :=
  let rps := if RequestsPerSec c <=? 0 then 10 else RequestsPerSec c in
  {| Mode := match Mode c with ModeOther "" => ModeIP | m => m end;
     RequestsPerSec := rps;
     BurstSize := if BurstSize c <=? 0 then wrap64 (rps * 2) else BurstSize c;
     WhitelistPaths := WhitelistPaths c; Enabled := Enabled c; RouteConfigs := RouteConfigs c |}.

(** The time at which [missing] tokens will have been added, not before
    [now]. *)
Definition reset_time (now : Time) (missing : Z) (tb : TokenBucket) : Time :=
  let secs := int64_of_float (f_div (f_of_int missing) (f_of_int (refillRate tb))) in
  let t := Time.Add (lastRefill tb) (wrap64 (secs * Time.Second)) in
  if Time.Before t now then Time.Add now Time.Second else t.

Inductive decision := Skipped | Rejected (h : rate_headers) | Passed (h : rate_headers).

(** One request; [now] stands for every clock reading of the request. *)
Definition serve (now : Time) (r : Request) (rl : APIRateLimiter) : APIRateLimiter * decision :=
  if negb (Enabled (config rl)) || isWhitelisted rl (URLPath r) then (rl, Skipped)
  else
    let key := getKey rl r in
    let path := URLPath r in
    let '(rl, bucket) := getBucket now key path rl in
    let '(bucket, ok) := allowRequest now bucket in
    let rl := {| config := config rl;
                 buckets := <[(key +:+ ":" +:+ path)%string := bucket]> (buckets rl) |} in
    if ok : bool then
      let limit := burstCapacity bucket in
      let remaining := tokens bucket in
      (rl, Passed (emitRateLimitHeaders now
             {| Limit := limit; Remaining := remaining;
                Reset := reset_time now (wrap64 (limit - remaining)) bucket |}))
    else
      (rl, Rejected (emitRateLimitHeaders now
             {| Limit := burstCapacity bucket; Remaining := 0;
                Reset := reset_time now (wrap64 (capacity bucket - tokens bucket)) bucket |})).

Definition RateLimitMiddleware (c : RateLimiterConfig) : APIRateLimiter :=
  NewAPIRateLimiter (normalise c).

Fixpoint serve_all (rl : APIRateLimiter) (rs : list (Time * Request)) : list decision :=
  match rs with
  | [] => []
  | (now, r) :: rs => let '(rl, d) := serve now r rl in d :: serve_all rl rs
  end.

Definition admitted (d : decision) : bool := match d with Passed _ => true | _ => false end.

(** ** A client that chooses its own key *)
Definition spoofed (path : string) (r : Request) : Prop :=
  URLPath r = path ∧ XForwardedFor r ≠ ""%string.

Definition fresh_in (path : string) (rl : APIRateLimiter) (ips : list string) : Prop :=
  ∀ ip, ip ∈ ips → buckets rl !! (ip +:+ ":" +:+ path)%string = None.

Lemma serve_spoofed now path r rl ips :
  Mode (config rl) = ModeIP → Enabled (config rl) = true → isWhitelisted rl path = false →
  RouteConfigs (config rl) = ∅ → 1 ≤ BurstSize (config rl) ≤ max_int64 →
  spoofed path r → NoDup (getClientIP r :: ips) → fresh_in path rl (getClientIP r :: ips) →
  let '(rl', d) := serve now r rl in
  admitted d = true ∧ config rl' = config rl ∧ fresh_in path rl' ips.
Proof.
  intros Hm He Hw Hr Hb [Hp Hx] Hnd Hf. unfold serve. rewrite He, Hp, Hw. simpl.
  unfold getKey. rewrite Hm. set (k := (getClientIP r +:+ ":" +:+ path)%string).
  unfold getBucket. fold k. pose proof (Hf (getClientIP r) ltac:(left)) as Hnone. fold k in Hnone. rewrite Hnone.
  rewrite Hr, lookup_empty.
  rewrite (allow_fresh now _ _ _ (proj1 Hb)).
  simpl. split_and!; [done|done|]. intros ip Hip. simpl.
  assert (k ≠ (ip +:+ ":" +:+ path)%string) as Hne.
  { intros Heq%string_app_inj_r. apply NoDup_cons in Hnd as [Hn _]. by rewrite Heq in Hn. }
  rewrite !lookup_insert_ne by done. apply Hf. by right.
Qed.

(** a client behind no proxy picks its own rate-limit key. In IP mode any
    number of requests to one route that carry pairwise different
    X-Forwarded-For addresses are all admitted, at any times. *)
Theorem forwarded_for_bypass c path rs :
  let rl := RateLimitMiddleware c in
  Mode (config rl) = ModeIP → Enabled c = true → isWhitelisted rl path = false →
  RouteConfigs c = ∅ → BurstSize (config rl) ≤ max_int64 → 1 ≤ BurstSize (config rl) →
  Forall (λ e, spoofed path (snd e)) rs → NoDup (getClientIP ∘ snd <$> rs) →
  Forall (λ d, admitted d = true) (serve_all rl rs).
Proof.
  intros rl Hm He Hw Hr Hmax Hmin Hs Hnd.
  assert (fresh_in path rl (getClientIP ∘ snd <$> rs)) as Hf by (intros ip _; apply lookup_empty).
  assert (Enabled (config rl) = true ∧ RouteConfigs (config rl) = ∅) as [He' Hr'] by done.
  clearbody rl. revert rl Hm He' Hw Hr' Hmax Hmin Hf Hnd.
  induction Hs as [|[now r] rs Hsp _ IH]; intros rl Hm He' Hw Hr' Hmax Hmin Hf Hnd; [constructor|].
  simpl in *. pose proof (serve_spoofed now path r rl _ Hm He' Hw Hr' (conj Hmin Hmax) Hsp Hnd Hf) as Hsv.
  destruct (serve now r rl) as [rl' d]. destruct Hsv as (Hd & Hc & Hf').
  constructor; [done|]. apply IH; rewrite ?Hc; try done.
  - unfold isWhitelisted in *. by rewrite Hc.
  - by apply NoDup_cons in Hnd as [_ ?].
Qed.

Definition spoof (ip : string) : Time * Request :=
  (0, {| URLPath := "/api"; callerID := None; XForwardedFor := ip; XRealIP := ""; ClientIP := "9.9.9.9" |}).
Definition one_per_client : RateLimiterConfig :=
  {| Mode := ModeIP; RequestsPerSec := 1; BurstSize := 1; WhitelistPaths := []; Enabled := true;
     RouteConfigs := ∅ |}.

Lemma forwarded_for_bypass_witness :
  Forall (λ d, admitted d = true)
    (serve_all (RateLimitMiddleware one_per_client) (spoof <$> ["1"; "2"; "3, 9"; "4"]%string)) ∧
  map admitted (serve_all (RateLimitMiddleware one_per_client) (spoof <$> ["1"; "1"]%string)) =
    [true; false].
Proof.
  split; [|vm_compute; reflexivity].
  apply (forwarded_for_bypass one_per_client "/api");
    [reflexivity|reflexivity|reflexivity|reflexivity|unfold max_int64; simpl; lia|simpl; lia| |].
  - repeat constructor; simpl; discriminate.
  - vm_compute. apply (bool_decide_unpack _). vm_compute. exact I.
Defined.
End APILimiter.

Module TenantLimiter.

(** [rate.Limiter]: the operations the middleware calls. [Allow] reads the
    clock. *)
Class RateLimiter (L : Type) := {
  NewLimiter : Z → Z → L;
  Allow_ : Time → L → L * bool;
  Burst : L → Z;
  LimitInt : L → Z;
}.

Section tenants.
Context `{RateLimiter L} `{GoRuntime}.

Record tenantLimiter := { limiter : L; lastAccess : Time }.

Definition numShards : Z := 32.
Definition limiterTTL : Duration := 5 * Time.Minute.

Record TenantRateLimiter := {
  shards : list (gmap string tenantLimiter);
  rps : Z;
  burst : Z;
  idleTTL : Duration;
}.

Definition NewTenantRateLimiterWithIdleTTL (rps burst : Z) (idleTTL : Duration)
    : TenantRateLimiter :=
  {| shards := replicate (Z.to_nat numShards) ∅; rps := rps; burst := burst;
     idleTTL := if idleTTL <=? 0 then limiterTTL else idleTTL |}.

Definition NewTenantRateLimiter (rps burst : Z) : TenantRateLimiter :=
  NewTenantRateLimiterWithIdleTTL rps burst limiterTTL.

Definition tenant_hash (tenantID : string) : Z :=
  foldl (λ hash c, wrap64 (wrap64 (hash * 31) + c)) 0 (runes tenantID).

(** The index of [getShard]; indexing [trl.shards] with it panics outside
    the slice. *)
Definition shard_index (tenantID : string) : Z :=
  let hash := tenant_hash tenantID in
  let hash := if hash <? 0 then wrap64 (- hash) else hash in
  Z.rem hash numShards.

Definition getShard (tenantID : string) (trl : TenantRateLimiter)
    : option (gmap string tenantLimiter) :=
  let i := shard_index tenantID in
  if i <? 0 then None else shards trl !! Z.to_nat i.

Definition set_shard (tenantID : string) (m : gmap string tenantLimiter)
    (trl : TenantRateLimiter) : TenantRateLimiter :=
  {| shards := <[Z.to_nat (shard_index tenantID) := m]> (shards trl); rps := rps trl;
     burst := burst trl; idleTTL := idleTTL trl |}.

(** [None] is the panic of an index out of range. The double-checked lookup
    is one lookup, for the write lock is held around the creation. *)
Definition getLimiter (now : Time) (tenantID : string) (trl : TenantRateLimiter)
    : option (TenantRateLimiter * tenantLimiter) :=
  match getShard tenantID trl with
  | None => None
  | Some sh =>
      let l :=
        match sh !! tenantID with
        | Some l => {| limiter := limiter l; lastAccess := now |}
        | None => {| limiter := NewLimiter (rps trl) (burst trl); lastAccess := now |}
        end in
      Some (set_shard tenantID (<[tenantID := l]> sh) trl, l)
  end.

(** The limiter object is shared: what [Allow] does to it shows in the map. *)
Definition Allow (now anow : Time) (tenantID : string) (trl : TenantRateLimiter)
    : option (TenantRateLimiter * bool) :=
  match getLimiter now tenantID trl with
  | None => None
  | Some (trl, l) =>
      let '(lim, ok) := Allow_ anow (limiter l) in
      match getShard tenantID trl with
      | None => None
      | Some sh =>
          Some (set_shard tenantID
                  (<[tenantID := {| limiter := lim; lastAccess := lastAccess l |}]> sh) trl, ok)
      end
  end.

Definition evictIdleLimiters (now : Time) (trl : TenantRateLimiter) : TenantRateLimiter :=
  {| shards := (λ sh, filter (λ '(_, l), ¬ idleTTL trl < Time.Sub now (lastAccess l)) sh)
                 <$> shards trl;
     rps := rps trl; burst := burst trl; idleTTL := idleTTL trl |}.

Definition Len (trl : TenantRateLimiter) : Z :=
  foldr (λ sh n, Z.of_nat (size sh) + n) 0 (shards trl).

(** [now] is read by [getLimiter], [enow] for the elapsed time and [rnow] for
    the reset time. *)
Definition getRateLimitSnapshot (now enow rnow : Time) (tenantID : string)
    (trl : TenantRateLimiter) : option (TenantRateLimiter * RateLimitSnapshot) :=
  match getLimiter now tenantID trl with
  | None => None
  | Some (trl, l) =>
      let burst := Burst (limiter l) in
      let limit := LimitInt (limiter l) in
      let tokensToAdd :=
        int64_of_float (f_mul (f_seconds (Time.Sub enow (lastAccess l))) (f_of_int limit)) in
      let remaining := wrap64 (burst - tokensToAdd) in
      let remaining := if remaining <? 0 then 0 else remaining in
      let remaining := if burst <? remaining then burst else remaining in
      let tokensNeeded := wrap64 (burst - remaining) in
      let reset :=
        if (0 <? tokensNeeded) && (0 <? limit) then
          Time.Add rnow (wrap64 (int64_of_float (f_div (f_of_int tokensNeeded) (f_of_int limit))
                                 * Time.Second))
        else Time.Add rnow Time.Second in
      Some (trl, {| Limit := burst; Remaining := remaining; Reset := reset |})
  end.

(** ** The middleware *)
Record TenantRateLimitConfig := { t_Enabled : bool; t_RPS : Z; t_Burst : Z; t_IdleTTL : Duration }.
Definition with_defaults (c : TenantRateLimitConfig) : Z * Z :=
  let rps := if t_RPS c <=? 0 then 5 else t_RPS c in
  (rps, if t_Burst c <=? 0 then wrap64 (rps * 2) else t_Burst c).
(** [None] is the middleware that does nothing. *)
Definition TenantRateLimitMiddleware (c : TenantRateLimitConfig) : option TenantRateLimiter :=
  if negb (t_Enabled c) then None
  else let '(rps, burst) := with_defaults c in Some (NewTenantRateLimiterWithIdleTTL rps burst (t_IdleTTL c)).
Inductive tenant_decision := TenantSkipped | TenantRejected (h : rate_headers) | TenantPassed (h : rate_headers).
(** One request; [now] stands for every clock reading of the request, and the
    outer [None] is a panic. *)
Definition tenant_serve (now : Time) (tenantID : option string) (m : option TenantRateLimiter)
    : option (option TenantRateLimiter * tenant_decision) :=
  match m with
  | None => Some (None, TenantSkipped)
  | Some trl =>
      let t := default "anonymous"%string tenantID in
      match Allow now now t trl with
      | None => None
      | Some (trl, ok) =>
          match getRateLimitSnapshot now now now t trl with
          | None => None
          | Some (trl, snap) =>
              Some (Some trl,
                if ok : bool then TenantPassed (emitRateLimitHeaders now snap)
                else TenantRejected (emitRateLimitHeaders now {| Limit := Limit snap; Remaining := 0; Reset := Reset snap |}))
          end
      end
  end.

(** ** Shards *)
Definition well_sharded (trl : TenantRateLimiter) : Prop :=
  length (shards trl) = Z.to_nat numShards.

(** The limiter a tenant has, if any. *)
Definition limiter_of (tenantID : string) (trl : TenantRateLimiter) : option tenantLimiter :=
  sh ← getShard tenantID trl; sh !! tenantID.

Lemma shard_index_bounds tenantID : 0 ≤ shard_index tenantID < numShards.
Proof.
  unfold shard_index, numShards.
  assert (in_int64 (tenant_hash tenantID)) as Hh.
  { unfold tenant_hash. induction (runes tenantID) as [|c l _] using rev_ind.
    - unfold in_int64, min_int64, max_int64. simpl. lia.
    - rewrite foldl_app. apply wrap64_bounds. }
  revert Hh. generalize (tenant_hash tenantID) as h. intros h Hh.
  unfold in_int64, min_int64, max_int64 in Hh. cbv zeta.
  destruct (h <? 0) eqn:Hneg; [|pose proof (Z.rem_bound_pos h 32); lia].
  destruct (decide (h = - 2 ^ 63)) as [->|Hne]; [by vm_compute|].
  rewrite wrap64_id by (unfold in_int64, min_int64, max_int64; lia).
  pose proof (Z.rem_bound_pos (- h) 32). lia.
Qed.

Lemma getShard_Some tenantID trl :
  well_sharded trl → ∃ sh, getShard tenantID trl = Some sh.
Proof.
  intros Hw. unfold getShard. pose proof (shard_index_bounds tenantID).
  rewrite (proj2 (Z.ltb_ge _ _)) by lia. apply lookup_lt_is_Some. rewrite Hw. lia.
Qed.

Lemma getShard_set t t' m trl :
  well_sharded trl →
  getShard t' (set_shard t m trl) =
    if decide (shard_index t = shard_index t') then Some m else getShard t' trl.
Proof.
  intros Hw. unfold getShard, set_shard. simpl.
  pose proof (shard_index_bounds t). pose proof (shard_index_bounds t').
  rewrite (proj2 (Z.ltb_ge _ _)) by lia. case_decide as He.
  - rewrite He. apply list_lookup_insert_eq. rewrite Hw. lia.
  - apply list_lookup_insert_ne. lia.
Qed.

Lemma well_sharded_set t m trl : well_sharded trl → well_sharded (set_shard t m trl).
Proof. unfold well_sharded, set_shard. simpl. by rewrite length_insert. Qed.

(** Writing one tenant's entry touches that tenant only. *)
Lemma limiter_of_set t t' sh l trl :
  well_sharded trl → getShard t trl = Some sh →
  limiter_of t' (set_shard t (<[t := l]> sh) trl) =
    if decide (t = t') then Some l else limiter_of t' trl.
Proof.
  intros Hw Hs. unfold limiter_of. rewrite getShard_set by done.
  destruct (decide (t = t')) as [<-|Hne].
  - rewrite decide_True by done. simpl. apply lookup_insert_eq.
  - case_decide as He; [|done]. simpl. rewrite lookup_insert_ne by done.
    assert (getShard t' trl = Some sh) as -> by (unfold getShard in *; by rewrite <- He).
    done.
Qed.

Lemma getLimiter_spec now t trl :
  well_sharded trl →
  ∃ trl' l, getLimiter now t trl = Some (trl', l) ∧ well_sharded trl' ∧
    limiter l = default (NewLimiter (rps trl) (burst trl)) (limiter <$> limiter_of t trl) ∧
    lastAccess l = now ∧ rps trl' = rps trl ∧ burst trl' = burst trl ∧
    (∀ t', limiter_of t' trl' = if decide (t = t') then Some l else limiter_of t' trl).
Proof.
  intros Hw. unfold getLimiter. destruct (getShard_Some t trl Hw) as [sh Hs]. rewrite Hs.
  eexists _, _. split_and!; [done|by apply well_sharded_set| | |done|done|].
  - unfold limiter_of. rewrite Hs. simpl. by destruct (sh !! t).
  - by destruct (sh !! t).
  - intros t'. by apply limiter_of_set.
Qed.

Lemma Allow_spec now anow t trl :
  well_sharded trl →
  let lim := default (NewLimiter (rps trl) (burst trl)) (limiter <$> limiter_of t trl) in
  ∃ trl', Allow now anow t trl = Some (trl', snd (Allow_ anow lim)) ∧ well_sharded trl' ∧
    limiter_of t trl' = Some {| limiter := fst (Allow_ anow lim); lastAccess := now |} ∧
    ∀ t', t' ≠ t → limiter_of t' trl' = limiter_of t' trl.
Proof.
  intros Hw lim. unfold Allow.
  destruct (getLimiter_spec now t trl Hw) as (trl1 & l & -> & Hw1 & Hl & Ha & _ & _ & Ho).
  fold lim in Hl. rewrite Hl, Ha. destruct (Allow_ anow lim) as [lim' ok].
  destruct (getShard_Some t trl1 Hw1) as [sh Hs]. rewrite Hs.
  eexists. split_and!; [done|by apply well_sharded_set| |]; simpl.
  - rewrite limiter_of_set by done. by rewrite decide_True.
  - intros t' Hne. rewrite limiter_of_set by done. rewrite decide_False by done.
    rewrite Ho. by rewrite decide_False.
Qed.

(** tenants are rate limited in isolation. For every tenant identifier
    (any bytes) the shard index is in range, so [Allow] does not panic; the
    answer is that of the tenant's own limiter, a new one when it has none,
    and no other tenant's limiter or access time changes. *)
Theorem Allow_isolated now anow t trl :
  well_sharded trl →
  let lim := default (NewLimiter (rps trl) (burst trl)) (limiter <$> limiter_of t trl) in
  ∃ trl', Allow now anow t trl = Some (trl', snd (Allow_ anow lim)) ∧ well_sharded trl' ∧
    limiter_of t trl' = Some {| limiter := fst (Allow_ anow lim); lastAccess := now |} ∧
    ∀ t', t' ≠ t → limiter_of t' trl' = limiter_of t' trl.
Proof. apply Allow_spec. Qed.

(** A request is answered without a panic, as the limiter of its tenant
    decides, with a time to wait when it is refused; the tenant's limiter is
    asked once and no other limiter changes. *)
Theorem tenant_request now tenantID trl :
  well_sharded trl →
  let t := default "anonymous"%string tenantID in
  let lim := default (NewLimiter (rps trl) (burst trl)) (limiter <$> limiter_of t trl) in
  ∃ trl' d, tenant_serve now tenantID (Some trl) = Some (Some trl', d) ∧ well_sharded trl' ∧
    match d with
    | TenantPassed _ => snd (Allow_ now lim) = true
    | TenantRejected h => snd (Allow_ now lim) = false ∧ h_remaining h = 0 ∧ ∃ n, h_retry_after h = Some n ∧ 1 ≤ n
    | TenantSkipped => False
    end ∧
    limiter <$> limiter_of t trl' = Some (fst (Allow_ now lim)) ∧
    ∀ t', t' ≠ t → limiter_of t' trl' = limiter_of t' trl.
Proof.
  intros Hw t lim. unfold tenant_serve. fold t. destruct (Allow_spec now now t trl Hw) as (trl1 & -> & Hw1 & Ht & Ho). fold lim in Ht |- *.
  unfold getRateLimitSnapshot. destruct (getLimiter_spec now t trl1 Hw1) as (trl2 & l & -> & Hw2 & Hl & _ & _ & _ & Ho2).
  rewrite Ht in Hl. cbn in Hl. eexists trl2, _. split; [reflexivity|]. split; [done|]. split; [|split].
  - destruct (snd (Allow_ now lim)); [done|]. split; [done|]. by apply retry_after_refused.
  - rewrite Ho2, decide_True by done. cbn. by rewrite Hl.
  - intros t' Hne. rewrite Ho2, decide_False by done. by apply Ho.
Qed.

(** The remaining quota in the response headers is always the full burst:
    [getRateLimitSnapshot] stamps the access time before it measures the time
    since the last access. This holds however many requests the tenant has
    just made. *)
Theorem snapshot_always_full now rnow t trl :
  well_sharded trl → f_finite (f_of_int (LimitInt (default (NewLimiter (rps trl) (burst trl))
                        (limiter <$> limiter_of t trl)))) = true →
  let b := Burst (default (NewLimiter (rps trl) (burst trl)) (limiter <$> limiter_of t trl)) in
  0 ≤ b ≤ max_int64 →
  ∃ trl', getRateLimitSnapshot now now rnow t trl =
    Some (trl', {| Limit := b; Remaining := b; Reset := Time.Add rnow Time.Second |}).
Proof.
  intros Hw Hfin b Hb. unfold getRateLimitSnapshot.
  destruct (getLimiter_spec now t trl Hw) as (trl1 & l & -> & _ & Hl & Ha & _).
  rewrite Hl, Ha. fold b. replace (Time.Sub now now) with 0 by (unfold Time.Sub, min_int64, max_int64; lia).
  rewrite f_seconds_0, (int64_mul_zero _ _ Hfin).
  rewrite Z.sub_0_r, wrap64_id by (unfold in_int64, min_int64; lia).
  rewrite (proj2 (Z.ltb_ge b 0)) by lia. cbv iota. rewrite Z.ltb_irrefl, Z.sub_diag. cbv iota.
  eexists. reflexivity.
Qed.

(** Idle eviction. After a sweep a tenant has a limiter exactly when it
    had one and its last access is at most the TTL ago; what stays is
    unchanged. *)
Theorem evict_idle_exact now t trl :
  limiter_of t (evictIdleLimiters now trl) =
    match limiter_of t trl with
    | Some l => if idleTTL trl <? Time.Sub now (lastAccess l) then None else Some l
    | None => None
    end.
Proof.
  unfold limiter_of, getShard, evictIdleLimiters. simpl.
  case_match; [done|]. rewrite list_lookup_fmap.
  destruct (shards trl !! _) as [sh|]; simpl; [|done].
  rewrite map_lookup_filter. destruct (sh !! t) as [l|]; simpl; [|done].
  destruct (idleTTL trl <? Time.Sub now (lastAccess l)) eqn:Hc.
  - by rewrite option_guard_False by lia.
  - by rewrite option_guard_True by lia.
Qed.
End tenants.

(** A limiter that counts down from its burst and never refills. *)
#[local] Instance counting_limiter : RateLimiter (Z * Z) := {
  NewLimiter := λ rate burst, (burst, burst);
  Allow_ := λ _ l, if 0 <? fst l then ((fst l - 1, snd l), true) else (l, false);
  Burst := snd;
  LimitInt := λ _, 5;
}.

Definition drained : TenantRateLimiter :=
  default (NewTenantRateLimiter 5 2)
    (fst <$> (Allow 1 1 "acme" (default (NewTenantRateLimiter 5 2)
                (fst <$> Allow 1 1 "acme" (NewTenantRateLimiter 5 2))))).

Lemma drained_sharded : well_sharded drained.
Proof. vm_compute. reflexivity. Qed.

Lemma Allow_isolated_witness :
  snd <$> Allow 2 2 "acme" drained = Some false ∧
  ∃ trl', Allow 2 2 "acme" drained = Some (trl', false) ∧
    limiter_of "globex" trl' = limiter_of "globex" drained.
Proof.
  assert (snd (Allow_ 2 (default (NewLimiter (rps drained) (burst drained))
    (limiter <$> limiter_of "acme" drained))) = false) as Hf by (vm_compute; reflexivity).
  destruct (Allow_isolated 2 2 "acme" drained drained_sharded) as (trl' & Ha & _ & _ & Ho).
  rewrite Hf in Ha. rewrite Ha. split; [reflexivity|]. exists trl'. split; [reflexivity|].
  apply Ho. discriminate.
Defined.

Lemma snapshot_always_full_witness :
  snd <$> getRateLimitSnapshot 2 2 2 "acme" drained =
    Some {| Limit := 2; Remaining := 2; Reset := 2 + Time.Second |}.
Proof.
  destruct (snapshot_always_full 2 2 "acme" drained drained_sharded) as (trl' & Hs).
  - vm_compute. reflexivity.
  - split; vm_compute; discriminate.
  - rewrite Hs. vm_compute. reflexivity.
Defined.
End TenantLimiter.
