(* ===== verification/Inflight.v ===== *)
(** * Load shedding by in-flight requests

    Models [internal/middleware/inflight.go]: one counting semaphore per
    route, created on demand, and the middleware that sheds what exceeds it.
    Reading and decoding the YAML file are left out: the decoded
    configuration is the input. *)
From stdpp Require Import base gmap strings list.
From Stdlib Require Import ZArith Lia.
From S2P Require Import Prelude.

Record ConcurrencyConfig := {
  DefaultLimit : Z;
  Routes : gmap string Z;
  RetryAfter : Z;
  Enabled : bool;
}.

(** The configuration before decoding, and the defaults after it. *)
Definition initial_config : ConcurrencyConfig :=
  {| DefaultLimit := 0; Routes := ∅; RetryAfter := 5; Enabled := true |}.
Definition finish_config (cfg : ConcurrencyConfig) : ConcurrencyConfig :=
  {| DefaultLimit := DefaultLimit cfg; Routes := Routes cfg;
     RetryAfter := if RetryAfter cfg <=? 0 then 5 else RetryAfter cfg;
     Enabled := Enabled cfg |}.

(** [ParseConcurrencyConfig] over a YAML decoder that updates the struct it
    is given. *)
Definition ParseConcurrencyConfig {E} (unmarshal : string → ConcurrencyConfig → result E ConcurrencyConfig)
    (data : string) : result E ConcurrencyConfig :=
  (let? cfg := unmarshal data initial_config in Ok (finish_config cfg))%go.

(** A buffered channel used as a semaphore: its capacity and how many tokens
    are in it. *)
Record sem := { cap : Z; held : Z }.

Record InflightLimiter := {
  config : ConcurrencyConfig;
  semaphores : gmap string sem;
}.

Definition new_sem (limit : Z) : sem := {| cap := limit; held := 0 |}.

Definition NewInflightLimiter (cfg : option ConcurrencyConfig) : InflightLimiter :=
  let cfg := default initial_config cfg in
  {| config := cfg;
     semaphores := omap (λ limit, if 0 <? limit then Some (new_sem limit) else None) (Routes cfg) |}.

Definition set_sem (route : string) (s : sem) (l : InflightLimiter) : InflightLimiter :=
  {| config := config l; semaphores := <[route := s]> (semaphores l) |}.

(** [None]: the route is not limited. *)
Definition getSemaphore (route : string) (l : InflightLimiter) : InflightLimiter * option sem :=
  if negb (Enabled (config l)) then (l, None)
  else
    match semaphores l !! route with
    | Some s => (l, Some s)
    | None =>
        let limit := match Routes (config l) !! route with
                     | Some limit => limit
                     | None => DefaultLimit (config l)
                     end in
        if limit <=? 0 then (l, None)
        else (set_sem route (new_sem limit) l, Some (new_sem limit))
    end.

Inductive admission := Unlimited | Acquired | Shed (retryAfter : Z).

Definition route_label (fullPath : string) : string :=
  if bool_decide (fullPath = "") then "unmatched_route" else fullPath.

(** The middleware up to [c.Next()]. *)
Definition enter (fullPath : string) (l : InflightLimiter) : InflightLimiter * admission :=
  if negb (Enabled (config l)) then (l, Unlimited)
  else
    let route := route_label fullPath in
    match getSemaphore route l with
    | (l, None) => (l, Unlimited)
    | (l, Some s) =>
        if held s <? cap s then
          (set_sem route {| cap := cap s; held := held s + 1 |} l, Acquired)
        else (l, Shed (RetryAfter (config l)))
    end.

(** The deferred release of a request that acquired a token. *)
Definition leave (fullPath : string) (l : InflightLimiter) : InflightLimiter :=
  let route := route_label fullPath in
  match semaphores l !! route with
  | Some s => set_sem route {| cap := cap s; held := held s - 1 |} l
  | None => l
  end.

(** ** Runs: requests begin and end in any order *)
Record system := { limiter : InflightLimiter; active : list string }.

Inductive step (s : system) : system → Prop :=
| step_enter path l : enter path (limiter s) = (l, Acquired) →
    step s {| limiter := l; active := path :: active s |}
| step_pass path l a : enter path (limiter s) = (l, a) → a ≠ Acquired →
    step s {| limiter := l; active := active s |}
| step_leave path before after : active s = before ++ path :: after →
    step s {| limiter := leave path (limiter s); active := before ++ after |}.

Definition start (cfg : option ConcurrencyConfig) : system :=
  {| limiter := NewInflightLimiter cfg; active := [] |}.

Fixpoint on_route (route : string) (l : list string) : Z :=
  match l with
  | [] => 0
  | p :: l => (if decide (route_label p = route) then 1 else 0) + on_route route l
  end.

Definition limit_for (cfg : ConcurrencyConfig) (route : string) : Z :=
  default (DefaultLimit cfg) (Routes cfg !! route).

(** Every semaphore has the configured capacity and one token per request in
    flight on its route; a route without one has nothing tracked. *)
Definition in_step (cfg : ConcurrencyConfig) (s : system) : Prop :=
  config (limiter s) = cfg ∧
  ∀ route, match semaphores (limiter s) !! route with
           | Some sm => cap sm = limit_for cfg route ∧ 0 < cap sm ∧
                        held sm = on_route route (active s) ∧ held sm ≤ cap sm
           | None => on_route route (active s) = 0
           end.

Lemma on_route_app route l l' : on_route route (l ++ l') = on_route route l + on_route route l'.
Proof. induction l; simpl; lia. Qed.

Lemma on_route_nonneg route l : 0 ≤ on_route route l.
Proof. induction l; simpl; [lia|case_decide; lia]. Qed.

Lemma in_step_start cfg : in_step (default initial_config cfg) (start cfg).
Proof.
  split; [done|]. intros route. simpl. rewrite lookup_omap.
  destruct (Routes _ !! route) as [limit|] eqn:Hr; simpl; [|done].
  destruct (0 <? limit) eqn:Hl; simpl; [|done].
  unfold limit_for. rewrite Hr. simpl. lia.
Qed.

(** What [getSemaphore] returns on an enabled limiter. *)
Lemma getSemaphore_spec cfg s route l' r :
  in_step cfg s → Enabled cfg = true → getSemaphore route (limiter s) = (l', r) →
  in_step cfg {| limiter := l'; active := active s |} ∧
  match r with
  | None => semaphores l' !! route = None ∧ limit_for cfg route ≤ 0
  | Some sm => semaphores l' !! route = Some sm
  end.
Proof.
  intros [Hc Hs] He. unfold getSemaphore. rewrite Hc, He. simpl.
  pose proof (Hs route) as Hr. destruct (semaphores (limiter s) !! route) as [sm|] eqn:Hsm.
  { intros [= <- <-]. by split. }
  change (match Routes cfg !! route with
    | Some limit => limit | None => DefaultLimit cfg end) with
    (default (DefaultLimit cfg) (Routes cfg !! route)). fold (limit_for cfg route).
  case_match eqn:Hl; intros [= <- <-].
  { split; [by split|]. split; [done|lia]. }
  split; [|simpl; by rewrite lookup_insert_eq].
  split; [done|]. intros route'. simpl. destruct (decide (route = route')) as [<-|Hne].
  - rewrite lookup_insert_eq. simpl. lia.
  - rewrite lookup_insert_ne by done. apply Hs.
Qed.

Lemma in_step_enter cfg s path l a :
  in_step cfg s → enter path (limiter s) = (l, a) →
  in_step cfg {| limiter := l;
                 active := match a with Acquired => path :: active s | _ => active s end |}.
Proof.
  intros Hin. unfold enter. pose proof Hin as [Hc _]. rewrite Hc.
  destruct (Enabled cfg) eqn:He; simpl; [|intros [= <- <-]; by destruct s].
  destruct (getSemaphore (route_label path) (limiter s)) as [l' r] eqn:Hg.
  destruct (getSemaphore_spec cfg s _ _ _ Hin He Hg) as [[Hc' Hs'] Hr].
  destruct r as [sm|]; [|intros [= <- <-]; by split].
  case_match eqn:Hh; intros [= <- <-]; [|by split].
  split; [done|]. intros route. simpl. specialize (Hs' route). simpl in Hs'.
  case_decide as Hd.
  - subst route. rewrite lookup_insert_eq. rewrite Hr in Hs'. simpl. lia.
  - rewrite lookup_insert_ne by done. by rewrite Z.add_0_l.
Qed.

Lemma in_step_leave cfg s path before after :
  in_step cfg s → active s = before ++ path :: after →
  in_step cfg {| limiter := leave path (limiter s); active := before ++ after |}.
Proof.
  intros [Hc Hs] Ha. unfold leave.
  pose proof (Hs (route_label path)) as Hr. rewrite Ha, on_route_app in Hr. simpl in Hr.
  rewrite decide_True in Hr by done.
  pose proof (on_route_nonneg (route_label path) before).
  pose proof (on_route_nonneg (route_label path) after).
  destruct (semaphores (limiter s) !! route_label path) as [sm|] eqn:Hsm; [|lia].
  split; [done|]. intros route. specialize (Hs route). rewrite Ha in Hs. simpl.
  rewrite on_route_app in *. simpl in Hs. case_decide as Hd.
  - subst route. rewrite lookup_insert_eq. simpl. lia.
  - rewrite lookup_insert_ne by done. by rewrite Z.add_0_l in Hs.
Qed.

Lemma in_step_run cfg s : rtc step (start cfg) s → in_step (default initial_config cfg) s.
Proof.
  intros Hr. pose proof (in_step_start cfg) as Hin. revert Hin.
  induction Hr as [|x y z Hxy _ IH]; [done|]. intros Hin. apply IH.
  destruct Hxy as [path l He|path l a He Hne|path b a Ha].
  - exact (in_step_enter _ _ _ _ _ Hin He).
  - pose proof (in_step_enter _ _ _ _ _ Hin He) as Hi. by destruct a.
  - by apply in_step_leave.
Qed.

(** Load shedding is exact. However requests begin and end, on a route
    with a positive limit at most that many are in flight, and a new request
    is shed exactly when the route is full, leaving the limiter unchanged; a
    route without a positive limit is never shed. *)
Theorem shedding_exact cfg s path :
  rtc step (start (Some cfg)) s → Enabled cfg = true →
  let route := route_label path in
  let r := enter path (limiter s) in
  (0 < limit_for cfg route →
     on_route route (active s) ≤ limit_for cfg route ∧
     (on_route route (active s) < limit_for cfg route → snd r = Acquired) ∧
     (on_route route (active s) = limit_for cfg route → r = (limiter s, Shed (RetryAfter cfg)))) ∧
  (limit_for cfg route ≤ 0 → snd r = Unlimited).
Proof.
  intros Hr He route r. apply in_step_run in Hr. simpl in Hr. pose proof Hr as [Hc Hs].
  unfold r, enter. rewrite Hc, He. simpl. fold route.
  destruct (getSemaphore route (limiter s)) as [l' o] eqn:Hg.
  destruct (getSemaphore_spec cfg s _ _ _ Hr He Hg) as [[Hc' Hs'] Ho].
  specialize (Hs' route). simpl in Hs'.
  destruct o as [sm|]; [|split; [lia|done]].
  rewrite Ho in Hs'. destruct Hs' as (Hcap & Hpos & Hheld & Hle). rewrite Hheld, Hcap.
  split; [|lia]. intros Hl. split; [lia|]. split; intros Hn.
  - by rewrite (proj2 (Z.ltb_lt _ _)).
  - simpl in Hc'. rewrite Hn, Z.ltb_irrefl, Hc'. f_equal. unfold getSemaphore in Hg. rewrite Hc, He in Hg.
    simpl in Hg. pose proof (Hs route) as Hsr.
    destruct (semaphores (limiter s) !! route); [congruence|lia].
Qed.

Definition one_slot : ConcurrencyConfig :=
  {| DefaultLimit := 0; Routes := {["/pay" := 1]}; RetryAfter := 5; Enabled := true |}.

Lemma shedding_exact_witness :
  let s1 := {| limiter := fst (enter "/pay" (limiter (start (Some one_slot))));
               active := ["/pay"%string] |} in
  enter "/pay" (limiter s1) = (limiter s1, Shed 5).
Proof.
  intros s1. destruct (shedding_exact one_slot s1 "/pay") as [Hl _].
  - apply rtc_once. apply (step_enter (start (Some one_slot)) "/pay").
    assert (snd (enter "/pay" (limiter (start (Some one_slot)))) = Acquired) as <-
      by (vm_compute; reflexivity).
    apply surjective_pairing.
  - reflexivity.
  - destruct Hl as (_ & _ & Hf); [vm_compute; reflexivity|]. apply Hf. vm_compute. reflexivity.
Defined.
