(* ===== verification/EventCache.v ===== *)
(** * Webhook replay protection

    Models [internal/middleware/webhook_event_cache.go]: the cache of event
    identifiers seen within a time window. Each operation takes the readings
    of [time.Now()] it makes. *)
From stdpp Require Import base gmap strings list.
From Stdlib Require Import ZArith Lia.
From S2P Require Import Prelude.

Inductive event_error := ErrEventIDAlreadySeen | ErrEventIDEmpty.

Record EventIDCache := {
  entries : gmap string Time;
  ttl : Duration;
}.

Definition NewEventIDCache (ttl : Duration) : EventIDCache :=
  {| entries := ∅; ttl := if ttl <=? 0 then 5 * Time.Minute else ttl |}.

Definition set_entries (m : gmap string Time) (c : EventIDCache) : EventIDCache :=
  {| entries := m; ttl := ttl c |}.

Definition cleanupExpiredLocked (now : Time) (c : EventIDCache) : EventIDCache :=
  set_entries (filter (λ '(_, expiry), ¬ expiry < now) (entries c)) c.

(** The readings of the cleanup, of the expiry test and of the store. *)
Record readings := { t_clean : Time; t_check : Time; t_store : Time }.

Definition CheckAndStore (t : readings) (eventID : string) (c : EventIDCache)
    : EventIDCache * option event_error :=
  if decide (eventID = ""%string) then (c, Some ErrEventIDEmpty)
  else
    let c := cleanupExpiredLocked (t_clean t) c in
    let store c := (set_entries (<[eventID := Time.Add (t_store t) (ttl c)]> (entries c)) c, None) in
    match entries c !! eventID with
    | Some expiry =>
        if Time.Before (t_check t) expiry then (c, Some ErrEventIDAlreadySeen)
        else store (set_entries (delete eventID (entries c)) c)
    | None => store c
    end.

Definition Has (now : Time) (eventID : string) (c : EventIDCache) : bool :=
  match entries c !! eventID with Some expiry => Time.Before now expiry | None => false end.

Definition Remove (eventID : string) (c : EventIDCache) : EventIDCache :=
  set_entries (delete eventID (entries c)) c.

Definition Len (now : Time) (c : EventIDCache) : EventIDCache * Z :=
  let c := cleanupExpiredLocked now c in (c, Z.of_nat (size (entries c))).

Definition Clear (c : EventIDCache) : EventIDCache := set_entries ∅ c.

(** ** Histories

    The operations a server makes while it handles webhooks: deliveries, and
    the queries that may clean up. *)
Inductive op := Deliver (t : readings) (id : string) | Query (now : Time) | Drop (id : string).

Definition run_op (c : EventIDCache) (o : op) : EventIDCache :=
  match o with
  | Deliver t id => fst (CheckAndStore t id c)
  | Query now => fst (Len now c)
  | Drop id => Remove id c
  end.

(** The operation reads the clock no later than [x] and does not drop
    [id]. *)
Definition within (id : string) (x : Time) (o : op) : Prop :=
  match o with
  | Deliver t _ => t_clean t < x ∧ t_check t < x
  | Query now => now < x
  | Drop id' => id' ≠ id
  end.

Lemma lookup_sweep now c id x :
  entries c !! id = Some x → now ≤ x → entries (cleanupExpiredLocked now c) !! id = Some x.
Proof. intros Hx Hn. simpl. apply map_lookup_filter_Some. split; [done|lia]. Qed.

Lemma lookup_sweep_inv now c id x :
  entries (cleanupExpiredLocked now c) !! id = Some x → entries c !! id = Some x ∧ now ≤ x.
Proof. intros [? ?]%map_lookup_filter_Some. split; [done|lia]. Qed.

Lemma history_op_keeps id x c o :
  entries c !! id = Some x → within id x o → entries (run_op c o) !! id = Some x.
Proof.
  intros Hx Hw. destruct o as [t id'|now|id']; simpl in Hw.
  - destruct Hw as [Hw1 Hw2]. simpl. unfold CheckAndStore. case_decide; [done|]. cbv zeta.
    pose proof (lookup_sweep (t_clean t) c id x Hx ltac:(lia)) as Hc.
    destruct (decide (id' = id)) as [->|Hne].
    + rewrite Hc. by rewrite (proj2 (Before_true _ _)).
    + destruct (entries (cleanupExpiredLocked (t_clean t) c) !! id');
        [case_match|]; simpl; rewrite ?lookup_insert_ne, ?lookup_delete_ne by done; done.
  - apply lookup_sweep; [done|lia].
  - simpl. by rewrite lookup_delete_ne.
Qed.

Lemma history_keeps id x c os :
  entries c !! id = Some x → Forall (within id x) os → entries (foldl run_op c os) !! id = Some x.
Proof.
  intros Hx Hos. revert c Hx. induction Hos as [|o os Ho _ IH]; intros c Hx; [done|].
  simpl. apply IH. by apply history_op_keeps.
Qed.

Lemma CheckAndStore_stored t id c c' :
  CheckAndStore t id c = (c', None) →
  id ≠ ""%string ∧ entries c' !! id = Some (Time.Add (t_store t) (ttl c)).
Proof.
  unfold CheckAndStore. case_decide; [done|]. cbv zeta. intros Hc. split; [done|].
  repeat case_match; simplify_eq/=; by rewrite lookup_insert_eq.
Qed.

(** replay protection. After an event was accepted at [t], whatever other
    deliveries and queries happen, every delivery of the same identifier
    whose clock readings come before the end of the window is rejected, and
    the window lasts the full TTL. *)
Theorem replay_rejected t id c c' os t2 :
  CheckAndStore t id c = (c', None) →
  Forall (within id (t_store t + ttl c)) os →
  t_clean t2 < t_store t + ttl c → t_check t2 < t_store t + ttl c →
  snd (CheckAndStore t2 id (foldl run_op c' os)) = Some ErrEventIDAlreadySeen.
Proof.
  intros Hs Hos H1 H2. destruct (CheckAndStore_stored _ _ _ _ Hs) as [Hne He].
  apply (history_keeps _ _ _ os) in He; [|done].
  unfold CheckAndStore. rewrite decide_False by done. cbv zeta.
  rewrite (lookup_sweep (t_clean t2) _ _ _ He) by (unfold Time.Add; lia).
  by rewrite (proj2 (Before_true _ _)) by done.
Qed.

(** No false rejection. A delivery is rejected as a replay only while an
    accepted delivery of the same identifier is unexpired: on every cache, the
    answer is [ErrEventIDAlreadySeen] exactly when an entry of that
    identifier exists whose expiry lies beyond both clock readings of the
    check; otherwise a non-empty identifier is accepted. *)
Theorem CheckAndStore_exact t id c :
  id ≠ ""%string →
  snd (CheckAndStore t id c) =
    match entries c !! id with
    | Some x => if (t_clean t <=? x) && (t_check t <? x) then Some ErrEventIDAlreadySeen else None
    | None => None
    end.
Proof.
  intros Hne. unfold CheckAndStore. rewrite decide_False by done. cbv zeta.
  destruct (entries (cleanupExpiredLocked (t_clean t) c) !! id) as [x|] eqn:Hx.
  - apply lookup_sweep_inv in Hx as [-> Hle]. rewrite (proj2 (Z.leb_le _ _) Hle).
    unfold Time.Before. simpl. by case_match.
  - destruct (entries c !! id) as [x|] eqn:Hc; [|done].
    destruct (t_clean t <=? x) eqn:Hl; [|done].
    rewrite (lookup_sweep (t_clean t) _ _ _ Hc) in Hx by lia. done.
Qed.

Definition at_ (t : Time) : readings := {| t_clean := t; t_check := t; t_store := t |}.

Lemma replay_rejected_witness :
  let c1 := fst (CheckAndStore (at_ 0) "evt" (NewEventIDCache 10)) in
  let c2 := run_op (run_op c1 (Deliver (at_ 3) "other")) (Query 8) in
  snd (CheckAndStore (at_ 9) "evt" c2) = Some ErrEventIDAlreadySeen ∧
  snd (CheckAndStore (at_ 10) "evt" c2) = None.
Proof.
  intros c1 c2. split; [|vm_compute; reflexivity].
  apply (replay_rejected (at_ 0) "evt" (NewEventIDCache 10) c1
           [Deliver (at_ 3) "other"; Query 8] (at_ 9)).
  - assert (snd (CheckAndStore (at_ 0) "evt" (NewEventIDCache 10)) = None) as <-
      by (vm_compute; reflexivity).
    apply surjective_pairing.
  - repeat constructor; simpl; lia.
  - simpl. lia.
  - simpl. lia.
Defined.

Lemma CheckAndStore_exact_witness :
  let c := fst (CheckAndStore (at_ 0) "evt" (NewEventIDCache 10)) in
  snd (CheckAndStore (at_ 10) "evt" c) = None.
Proof.
  intros c. rewrite (CheckAndStore_exact (at_ 10) "evt" c); [vm_compute; reflexivity|discriminate].
Defined.
