(* ===== verification/Idempotency.v ===== *)
(** * Idempotent requests

    Models [internal/middleware/idempotency.go] (the middleware),
    the store interface and the in-memory store of
    [internal/middleware/idempotency_store.go], and the cleanup job of
    [internal/worker/scheduler.go]. Requests run concurrently: the middleware
    is a step relation in which a request begins (its [GetOrInsert]) and, when
    it was let through, ends with whatever response its handler wrote. The
    payload hash is an opaque string; response writing is left out. *)
From stdpp Require Import base gmap strings list relations.
From Stdlib Require Import ZArith Lia.
From S2P Require Import Prelude GoStrings.

Inductive idem_error := ErrRequestMismatch.

Record IdempotencyRecord := {
  UsedAt : Time;
  RecExpiresAt : Time;
  RecStatusCode : Z;
  RecPayloadHash : string;
}.

(** What a request is bound to. *)
Record fingerprint := { method : string; path : string; payloadHash : string }.

#[export] Instance fingerprint_eq_dec : EqDecision fingerprint.
Proof. solve_decision. Defined.

Record InMemoryIdempotencyEntry := {
  request : fingerprint;
  statusCode : Z;
  responseBody : string;
  createdAt : Time;
  expiresAt : Time;
}.

Notation InMemoryIdempotencyStore := (gmap string InMemoryIdempotencyEntry) (only parsing).

Definition NewInMemoryIdempotencyStore : InMemoryIdempotencyStore := ∅.

(** The answer of [GetOrInsert] without an error: its three shapes. *)
Inductive lookup_answer := Fresh | InFlight | Replay (status : Z) (body : string).

Definition mapKey (scope key : string) : string := (scope +:+ "/" +:+ key)%string.

Definition GetOrInsert (now : Time) (scope key : string) (f : fingerprint) (ttl : Duration)
    (s : InMemoryIdempotencyStore) : InMemoryIdempotencyStore * result idem_error lookup_answer :=
  let k := mapKey scope key in
  let fresh s :=
    (<[k := {| request := f; statusCode := 0; responseBody := ""; createdAt := now;
               expiresAt := Time.Add now ttl |}]> s, Ok Fresh) in
  match s !! k with
  | None => fresh s
  | Some entry =>
      if Time.After now (expiresAt entry) then fresh (delete k s)
      else if statusCode entry =? 0 then (s, Ok InFlight)
      else if decide (request entry ≠ f) then (s, Err ErrRequestMismatch)
      else (s, Ok (Replay (statusCode entry) (responseBody entry)))
  end.

Definition UpdateResponse (scope key : string) (status : Z) (body : string)
    (s : InMemoryIdempotencyStore) : InMemoryIdempotencyStore :=
  let k := mapKey scope key in
  match s !! k with
  | None => s
  | Some e => <[k := {| request := request e; statusCode := status; responseBody := body;
                        createdAt := createdAt e; expiresAt := expiresAt e |}]> s
  end.

Definition Lookup (scope key : string) (s : InMemoryIdempotencyStore) : option IdempotencyRecord :=
  match s !! mapKey scope key with
  | None => None
  | Some e => Some {| UsedAt := createdAt e; RecExpiresAt := expiresAt e;
                      RecStatusCode := statusCode e; RecPayloadHash := payloadHash (request e) |}
  end.

Definition Delete (scope key : string) (s : InMemoryIdempotencyStore) : InMemoryIdempotencyStore :=
  delete (mapKey scope key) s.

Section cleanup.
Context `{GoRuntime}.

(** The loop of [DeleteExpiredBatch] over the entries left to visit. *)
Fixpoint delete_loop (now : Time) (batchSize deleted : Z)
    (l : list (string * InMemoryIdempotencyEntry)) (s : InMemoryIdempotencyStore)
    : InMemoryIdempotencyStore * Z :=
  match l with
  | [] => (s, deleted)
  | (k, e) :: l =>
      if batchSize <=? deleted then (s, deleted)
      else if Time.After now (expiresAt e) then
        delete_loop now batchSize (deleted + 1) l (delete k s)
      else delete_loop now batchSize deleted l s
  end.

Definition DeleteExpiredBatch (now : Time) (batchSize : Z) (s : InMemoryIdempotencyStore)
    : InMemoryIdempotencyStore * Z :=
  delete_loop now batchSize 0 (map_range s) s.

Definition CountExpiredPending (now : Time) (s : InMemoryIdempotencyStore) : Z :=
  Z.of_nat (length (List.filter (λ ke, Time.After now (expiresAt (snd ke))) (map_range s))).

(** [IdempotencyCleanupJob.Run]: the rounds are numbered, [clock i] is the
    store's clock in round [i] and [expired i] whether the context is done by
    then. [None] when [fuel] rounds do not end it. *)
Fixpoint cleanup_run (fuel : nat) (clock : nat → Time) (expired : nat → bool) (i : nat)
    (s : InMemoryIdempotencyStore) : option InMemoryIdempotencyStore :=
  match fuel with
  | O => None
  | S fuel =>
      if expired i then Some s
      else
        let '(s, deleted) := DeleteExpiredBatch (clock i) 5000 s in
        if deleted =? 0 then Some s else cleanup_run fuel clock expired (S i) s
  end.
End cleanup.

(** ** The middleware *)
Record Request := {
  Method : string;
  IdempotencyKey : string;
  tenantID : option string;
  callerID : option string;
  Path : string;
  BodyHash : string;
}.

Definition DefaultIdempotencyTTL : Duration := 24 * Time.Hour.

Definition scope_of (r : Request) : string :=
  match tenantID r, callerID r with
  | Some t, Some c => (t +:+ ":" +:+ c)%string
  | Some t, None => (t +:+ ":anonymous")%string
  | None, Some c => ("anonymous:" +:+ c)%string
  | None, None => "anonymous"
  end.

Definition fingerprint_of (r : Request) : fingerprint :=
  {| method := Method r; path := Path r; payloadHash := BodyHash r |}.

(** What the middleware does before the handler: bypass it, answer by
    itself, or let the request through under a reserved key. *)
Inductive verdict :=
| Bypass
| Answer (status : Z)
| Replayed (status : Z) (body : string)
| Proceed.

Definition is_safe_method (m : string) : bool :=
  bool_decide (m = "GET") || bool_decide (m = "HEAD") || bool_decide (m = "OPTIONS").

Definition Idempotency_before (now : Time) (r : Request) (s : InMemoryIdempotencyStore)
    : InMemoryIdempotencyStore * verdict :=
  if is_safe_method (Method r) then (s, Bypass)
  else if decide (IdempotencyKey r = ""%string) then (s, Answer 400)
  else if (255 <? Z.of_nat (String.length (IdempotencyKey r))) then (s, Answer 400)
  else
    match GetOrInsert now (scope_of r) (IdempotencyKey r) (fingerprint_of r)
            DefaultIdempotencyTTL s with
    | (s, Err ErrRequestMismatch) => (s, Answer 422)
    | (s, Ok InFlight) => (s, Answer 409)
    | (s, Ok (Replay st body)) => (s, Replayed st body)
    | (s, Ok Fresh) => (s, Proceed)
    end.

(** After the handler wrote [status] and [body]. *)
Definition Idempotency_after (r : Request) (status : Z) (body : string)
    (s : InMemoryIdempotencyStore) : InMemoryIdempotencyStore :=
  if (200 <=? status) && (status <? 300)
  then UpdateResponse (scope_of r) (IdempotencyKey r) status body s
  else Delete (scope_of r) (IdempotencyKey r) s.

(** ** Concurrent requests

    [running] holds the requests inside their handlers, [succeeded] the
    history of the executions that ended with a 2xx status, latest first. *)
Record system := {
  keys : InMemoryIdempotencyStore;
  running : list Request;
  succeeded : list (Request * Z * string);
}.

Definition key_of (r : Request) : string := mapKey (scope_of r) (IdempotencyKey r).

(** One step at a time between [lo] and [hi]. *)
Inductive step (lo hi : Time) (s : system) : system → Prop :=
| step_proceed now r m : lo ≤ now ≤ hi →
    Idempotency_before now r (keys s) = (m, Proceed) →
    step lo hi s {| keys := m; running := r :: running s; succeeded := succeeded s |}
| step_answer now r m v : lo ≤ now ≤ hi →
    Idempotency_before now r (keys s) = (m, v) → v ≠ Proceed →
    step lo hi s {| keys := m; running := running s; succeeded := succeeded s |}
| step_finish r before after status body : running s = before ++ r :: after →
    step lo hi s
      {| keys := Idempotency_after r status body (keys s); running := before ++ after;
         succeeded := if (200 <=? status) && (status <? 300)
                      then (r, status, body) :: succeeded s else succeeded s |}.

Definition start : system := {| keys := ∅; running := []; succeeded := [] |}.

(** How many requests with store key [k] are inside their handlers. *)
Fixpoint running_on (k : string) (l : list Request) : nat :=
  match l with
  | [] => 0
  | r :: l => (if decide (key_of r = k) then 1 else 0) + running_on k l
  end.

Fixpoint successes_on (k : string) (l : list (Request * Z * string)) : list (Z * string) :=
  match l with
  | [] => []
  | (r, st, b) :: l => if decide (key_of r = k) then (st, b) :: successes_on k l
                       else successes_on k l
  end.

(** The entry of every key tells what happened under it. *)
Definition tracks (lo : Time) (s : system) : Prop :=
  ∀ k, match keys s !! k with
       | None => running_on k (running s) = 0%nat ∧ successes_on k (succeeded s) = []
       | Some e =>
           lo + DefaultIdempotencyTTL ≤ expiresAt e ∧
           if decide (statusCode e = 0)
           then running_on k (running s) = 1%nat ∧ successes_on k (succeeded s) = []
           else running_on k (running s) = 0%nat ∧
                successes_on k (succeeded s) = [(statusCode e, responseBody e)]
       end.

Lemma running_on_app k l l' : running_on k (l ++ l') = (running_on k l + running_on k l')%nat.
Proof. induction l; simpl; lia. Qed.

(** [GetOrInsert] before the expiry of every entry. *)
Lemma GetOrInsert_live lo now hi scope key f s :
  tracks lo s → now ≤ hi → hi ≤ lo + DefaultIdempotencyTTL →
  GetOrInsert now scope key f DefaultIdempotencyTTL (keys s) =
    match keys s !! mapKey scope key with
    | None => (<[mapKey scope key :=
                  {| request := f; statusCode := 0; responseBody := ""; createdAt := now;
                     expiresAt := Time.Add now DefaultIdempotencyTTL |}]> (keys s), Ok Fresh)
    | Some e => (keys s, if statusCode e =? 0 then Ok InFlight
                         else if decide (request e ≠ f) then Err ErrRequestMismatch
                         else Ok (Replay (statusCode e) (responseBody e)))
    end.
Proof.
  intros Ht Hn Hh. unfold GetOrInsert. specialize (Ht (mapKey scope key)).
  destruct (keys s !! mapKey scope key) as [e|]; [|done].
  rewrite (proj2 (After_false _ _)) by lia. by repeat case_match.
Qed.

(** A request is let through exactly under a key that has no entry. *)
Lemma before_spec lo hi now r s m v :
  tracks lo s → now ≤ hi → hi ≤ lo + DefaultIdempotencyTTL →
  Idempotency_before now r (keys s) = (m, v) →
  (v = Proceed ∧ keys s !! key_of r = None ∧
     m = <[key_of r := {| request := fingerprint_of r; statusCode := 0; responseBody := "";
                          createdAt := now; expiresAt := Time.Add now DefaultIdempotencyTTL |}]>
           (keys s)) ∨
  (v ≠ Proceed ∧ m = keys s).
Proof.
  intros Ht Hn Hh. unfold Idempotency_before.
  case_match; [intros [= <- <-]; by right|]. case_decide; [intros [= <- <-]; by right|].
  case_match; [intros [= <- <-]; by right|].
  rewrite (GetOrInsert_live lo now hi) by done. fold (key_of r).
  destruct (keys s !! key_of r) as [e|].
  - repeat case_match; intros [= <- <-]; by right.
  - intros [= <- <-]. by left.
Qed.

Lemma tracks_proceed lo hi now r s m :
  tracks lo s → lo ≤ now ≤ hi → hi ≤ lo + DefaultIdempotencyTTL →
  Idempotency_before now r (keys s) = (m, Proceed) →
  tracks lo {| keys := m; running := r :: running s; succeeded := succeeded s |}.
Proof.
  intros Ht Hn Hh Hb.
  destruct (before_spec lo hi now r s m Proceed Ht ltac:(lia) Hh Hb) as [(_ & Hk & ->)|[? _]]; [|done].
  intros k. specialize (Ht k). simpl. destruct (decide (key_of r = k)) as [<-|Hne].
  - rewrite lookup_insert_eq. simpl. rewrite Hk in Ht. unfold Time.Add. split; [lia|].
    destruct Ht as [-> ->]. done.
  - rewrite lookup_insert_ne by done. exact Ht.
Qed.

Lemma tracks_finish lo r before after status body s :
  tracks lo s → running s = before ++ r :: after →
  tracks lo {| keys := Idempotency_after r status body (keys s); running := before ++ after;
               succeeded := if (200 <=? status) && (status <? 300)
                            then (r, status, body) :: succeeded s else succeeded s |}.
Proof.
  intros Ht Hr. pose proof (Ht (key_of r)) as Hk. rewrite Hr, running_on_app in Hk.
  simpl in Hk. rewrite decide_True in Hk by done.
  destruct (keys s !! key_of r) as [e|] eqn:He; [|lia].
  destruct Hk as [Hx Hk]. case_decide as H0; [|lia].
  intros k. specialize (Ht k). rewrite Hr, running_on_app in Ht. simpl in Ht. simpl.
  rewrite running_on_app. unfold Idempotency_after, UpdateResponse, Delete. fold (key_of r).
  destruct ((200 <=? status) && (status <? 300)) eqn:Hs; simpl.
  - rewrite He. destruct (decide (key_of r = k)) as [<-|Hne].
    + rewrite lookup_insert_eq. simpl. split; [done|].
      rewrite decide_False by lia. destruct Hk as [Hk ->]. split; [lia|done].
    + rewrite lookup_insert_ne by done. exact Ht.
  - destruct (decide (key_of r = k)) as [<-|Hne].
    + rewrite lookup_delete_eq. split; [lia|]. tauto.
    + rewrite lookup_delete_ne by done. exact Ht.
Qed.

Lemma tracks_run lo hi s :
  hi ≤ lo + DefaultIdempotencyTTL → rtc (step lo hi) start s → tracks lo s.
Proof.
  intros Hh Hr. assert (tracks lo start) as Hs by (intros k; simpl; by rewrite lookup_empty).
  revert Hs. induction Hr as [|x y z Hxy _ IH]; [done|]. intros Hs. apply IH.
  destruct Hxy as [now r m Hn Hb|now r m v Hn Hb Hv|r b a st body Hrun].
  - by apply (tracks_proceed lo hi now).
  - destruct (before_spec lo hi now r x m v Hs ltac:(lia) Hh Hb) as [[? _]|[_ ->]]; [done|].
    exact Hs.
  - by apply tracks_finish.
Qed.

(** C39: at most once. In every interleaving of requests within one TTL, no
    two requests with one key are inside the handler at the same time and at
    most one execution per key succeeds; after it, a duplicate with the same
    method, path and body is answered with that very response and a
    different request with an error, without running the handler. *)
Theorem at_most_once lo hi s r now :
  hi ≤ lo + DefaultIdempotencyTTL → rtc (step lo hi) start s → lo ≤ now ≤ hi →
  (running_on (key_of r) (running s) ≤ 1)%nat ∧
  (length (successes_on (key_of r) (succeeded s)) ≤ 1)%nat ∧
  (running_on (key_of r) (running s) = 1%nat →
     snd (Idempotency_before now r (keys s)) ≠ Proceed) ∧
  (∀ st body, successes_on (key_of r) (succeeded s) = [(st, body)] →
     snd (Idempotency_before now r (keys s)) ≠ Proceed ∧
     ∃ e, keys s !! key_of r = Some e ∧ statusCode e = st ∧ responseBody e = body ∧
       GetOrInsert now (scope_of r) (IdempotencyKey r) (fingerprint_of r) DefaultIdempotencyTTL (keys s) =
         (keys s, if decide (request e = fingerprint_of r) then Ok (Replay st body)
                  else Err ErrRequestMismatch)).
Proof.
  intros Hh Hr Hn. pose proof (tracks_run lo hi s Hh Hr) as Ht.
  assert (snd (Idempotency_before now r (keys s)) = Proceed → keys s !! key_of r = None) as Hp.
  { destruct (Idempotency_before now r (keys s)) as [m v] eqn:Hb. simpl. intros ->.
    destruct (before_spec lo hi now r s m Proceed Ht ltac:(lia) Hh Hb) as [(_ & Hk & _)|[? _]]; done. }
  pose proof (Ht (key_of r)) as Hk.
  destruct (keys s !! key_of r) as [e|] eqn:He.
  - destruct Hk as [Hx Hk]. case_decide as H0; destruct Hk as [Hk1 Hk2]; rewrite Hk1, Hk2;
      (split_and!; [lia|simpl; lia|intros _ ?; by specialize (Hp ltac:(done))|]); [done|].
    intros st body [= <- <-]. split; [intros ?; by specialize (Hp ltac:(done))|].
    exists e. split_and!; [done..|]. rewrite (GetOrInsert_live lo now hi) by (done || lia).
    fold (key_of r). rewrite He. rewrite (proj2 (Z.eqb_neq _ _)) by done.
    f_equal. by repeat case_decide.
  - destruct Hk as [-> ->]. split_and!; [lia|simpl; lia|done|done].
Qed.

Definition post : Request :=
  {| Method := "POST"; IdempotencyKey := "k1"; tenantID := Some "t"%string;
     callerID := Some "c"%string; Path := "/pay"; BodyHash := "h" |}.

Definition after_post : system :=
  {| keys := Idempotency_after post 201 "done" (fst (Idempotency_before 1 post ∅));
     running := []; succeeded := [(post, 201, "done"%string)] |}.

Lemma at_most_once_witness :
  rtc (step 0 100) start after_post ∧
  successes_on (key_of post) (succeeded after_post) = [(201, "done"%string)] ∧
  snd (Idempotency_before 5 post (keys after_post)) ≠ Proceed.
Proof.
  assert (rtc (step 0 100) start after_post) as Hr.
  { eapply rtc_l; [apply (step_proceed 0 100 start 1 post (fst (Idempotency_before 1 post ∅)));
      [lia|]|].
    { assert (snd (Idempotency_before 1 post ∅) = Proceed) as <- by (vm_compute; reflexivity).
      apply surjective_pairing. }
    apply rtc_once.
    exact (step_finish 0 100
      {| keys := fst (Idempotency_before 1 post ∅); running := [post]; succeeded := [] |}
      post [] [] 201 "done" eq_refl). }
  split; [exact Hr|]. split; [vm_compute; reflexivity|].
  destruct (at_most_once 0 100 after_post post 5) as (_ & _ & _ & Hs);
    [vm_compute; discriminate|exact Hr|lia|].
  apply (Hs 201 "done"%string). vm_compute. reflexivity.
Defined.

(** Keys of different callers can coincide. The store key joins scope and
    key with a slash, so a caller whose name extends another's by a slash and
    some text shares that other caller's entries under shifted keys: every
    operation on one is the same operation on the other. *)
Theorem scope_collision now scope x key f ttl st body s :
  GetOrInsert now (scope +:+ "/" +:+ x)%string key f ttl s =
    GetOrInsert now scope (x +:+ "/" +:+ key)%string f ttl s ∧
  UpdateResponse (scope +:+ "/" +:+ x)%string key st body s =
    UpdateResponse scope (x +:+ "/" +:+ key)%string st body s ∧
  Delete (scope +:+ "/" +:+ x)%string key s = Delete scope (x +:+ "/" +:+ key)%string s.
Proof.
  assert (mapKey (scope +:+ "/" +:+ x) key = mapKey scope (x +:+ "/" +:+ key))%string as Hk
    by (unfold mapKey; by rewrite !string_app_assoc).
  unfold GetOrInsert, UpdateResponse, Delete. by rewrite Hk.
Qed.

(** ** Cleanup *)
Section cleanup_facts.
Context `{GoRuntime}.
Implicit Types (s : InMemoryIdempotencyStore).

(** What one batch does to a store [s] while it visits [l]. *)
Lemma delete_loop_spec now b d l s s' d' :
  delete_loop now b d l s = (s', d') → NoDup l.*1 → (∀ k e, (k, e) ∈ l → s !! k = Some e) →
  d ≤ d' ∧ s' ⊆ s ∧ Z.of_nat (size s') + d' = Z.of_nat (size s) + d ∧
  (∀ k e, s !! k = Some e → s' !! k = None → Time.After now (expiresAt e) = true) ∧
  (d' < b → ∀ k e, (k, e) ∈ l → s' !! k = Some e → Time.After now (expiresAt e) = false).
Proof.
  revert d s. induction l as [|[k e] l IH]; intros d s Hl Hnd Hin; simpl in Hl.
  { simplify_eq. split_and!; [lia|done|lia|congruence|]. intros _ k e Hke. by apply elem_of_nil in Hke. }
  apply NoDup_cons in Hnd as [Hni Hnd].
  pose proof (Hin k e ltac:(left)) as Hk.
  destruct (b <=? d) eqn:Hb.
  { simplify_eq. split_and!; [lia|done|lia|congruence|lia]. }
  destruct (Time.After now (expiresAt e)) eqn:He.
  - assert (Hin' : ∀ k' e', (k', e') ∈ l → delete k s !! k' = Some e').
    { intros k' e' Hke. rewrite lookup_delete_ne; [apply Hin; by right|].
      intros ->. apply Hni. apply list_elem_of_fmap. by exists (k', e'). }
    destruct (IH (d + 1) (delete k s) Hl Hnd Hin') as (H1 & H2 & H3 & H4 & H5).
    assert (Z.of_nat (size s) = Z.of_nat (size (delete k s)) + 1) as Hsz.
    { rewrite map_size_delete_Some by eauto.
      assert (size s ≠ 0%nat) by (intros H0%map_size_empty_inv; by rewrite H0, lookup_empty in Hk).
      lia. }
    split_and!; [lia|etrans; [exact H2|apply delete_subseteq]|lia| |].
    + intros k' e' Hs Hs'. destruct (decide (k = k')) as [<-|Hne]; [congruence|].
      apply (H4 k' e'); [by rewrite lookup_delete_ne|done].
    + intros Hlt k' e' [[= -> ->]|Hke]%elem_of_cons Hs'; [|by apply (H5 Hlt k' e')].
      eapply lookup_weaken in Hs'; [|exact H2]. by rewrite lookup_delete_eq in Hs'.
  - destruct (IH d s Hl Hnd ltac:(intros; apply Hin; by right)) as (H1 & H2 & H3 & H4 & H5).
    split_and!; [lia|done|lia|done|].
    intros Hlt k' e' [[= -> ->]|Hke]%elem_of_cons Hs'; [done|by apply (H5 Hlt k' e')].
Qed.

Lemma DeleteExpiredBatch_spec now b s s' d :
  DeleteExpiredBatch now b s = (s', d) →
  0 ≤ d ∧ s' ⊆ s ∧ Z.of_nat (size s') + d = Z.of_nat (size s) ∧
  (∀ k e, s !! k = Some e → s' !! k = None → Time.After now (expiresAt e) = true) ∧
  (d < b → ∀ k e, s' !! k = Some e → Time.After now (expiresAt e) = false).
Proof.
  intros Hd. destruct (delete_loop_spec now b 0 (map_range s) s s' d Hd) as (H1 & H2 & H3 & H4 & H5).
  - apply NoDup_map_range_keys.
  - intros k e. apply elem_of_map_range.
  - split_and!; [done|done|lia|done|]. intros Hlt k e He. apply (H5 Hlt k e); [|done].
    apply elem_of_map_range. by eapply lookup_weaken.
Qed.

(** the cleanup job ends and is exact. With the context alive, one round
    more than there are entries is enough; then no entry that had expired by
    the last round's clock reading remains, and only entries expired at some
    round's reading were removed. *)
Theorem cleanup_exact clock s :
  ∃ s' n, cleanup_run (S (size s)) clock (λ _, false) 0 s = Some s' ∧
    (∀ k e, s' !! k = Some e → s !! k = Some e ∧ clock n ≤ expiresAt e) ∧
    (∀ k e, s !! k = Some e → s' !! k = None → ∃ i, expiresAt e < clock i).
Proof.
  assert (∀ fuel i s, (size s < fuel)%nat →
    ∃ s' n, cleanup_run fuel clock (λ _, false) i s = Some s' ∧
      (∀ k e, s' !! k = Some e → s !! k = Some e ∧ clock n ≤ expiresAt e) ∧
      (∀ k e, s !! k = Some e → s' !! k = None → ∃ i, expiresAt e < clock i)) as Hrun;
    [|apply Hrun; lia].
  clear s. induction fuel as [|fuel IH]; intros i s Hf; [lia|]. simpl.
  destruct (DeleteExpiredBatch (clock i) 5000 s) as [s1 d] eqn:Hd.
  apply DeleteExpiredBatch_spec in Hd as (H0 & Hsub & Hsz & Hdel & Hleft).
  destruct (d =? 0) eqn:Hz.
  - exists s1, i. split_and!; [done| |].
    + intros k e He. split; [by eapply lookup_weaken|]. apply After_false. apply (Hleft ltac:(lia) k e He).
    + intros k e He Hn. exists i. apply After_true. by apply (Hdel k e).
  - destruct (IH (S i) s1) as (s' & n & Hs' & Hk & Hg); [lia|].
    exists s', n. split_and!; [done| |].
    + intros k e He. destruct (Hk k e He). split; [by eapply lookup_weaken|done].
    + intros k e He Hn. destruct (s1 !! k) as [e1|] eqn:H1.
      * assert (e1 = e) as -> by (eapply lookup_weaken in H1; [|exact Hsub]; congruence). eauto.
      * exists i. apply After_true. by apply (Hdel k e).
Qed.
End cleanup_facts.
