(* ===== verification/Pagination.v ===== *)
(** * Pagination

    Models [internal/pagination]: opaque cursors and the page walk over a
    sorted slice ([cursor.go]), tenant-scoped signed cursors
    ([scoped_cursor.go]), offset pagination ([offset.go]) and the limit
    parameter ([limit.go]).

    The wire form of a cursor is base64 over JSON. The class [Wire]
    states what the pagination relies on: decoding inverts encoding for the
    cursors JSON can represent (valid UTF-8), and an encoding is not empty.
    Go compares strings byte by byte; [Ord.compare] is that order.
    Indices are natural numbers: the limits reach these functions through
    [ParseLimit], so the index arithmetic of [int] does not overflow. *)
From stdpp Require Import base strings list sorting.
From Stdlib Require Import ZArith Lia Ascii.
From Stdlib Require String.
From S2P Require Import Prelude GoStrings.

(** ** The order of strings *)
Module Ord.
(** Three-way comparison of byte strings. *)
Fixpoint compare (a b : string) : comparison :=
  match a, b with
  | EmptyString, EmptyString => Eq
  | EmptyString, _ => Lt
  | _, EmptyString => Gt
  | String.String x a, String.String y b =>
      match Z.compare (code x) (code y) with Eq => compare a b | c => c end
  end.

Definition ltb (a b : string) : bool := match compare a b with Lt => true | _ => false end.

Lemma compare_antisym a b : compare b a = CompOpp (compare a b).
Proof.
  revert b. induction a as [|x a IH]; intros [|y b]; try done. simpl.
  rewrite Z.compare_antisym. destruct (code x ?= code y) eqn:E; simpl; auto.
Qed.

Lemma compare_eq a b : compare a b = Eq ↔ a = b.
Proof.
  split; [|intros ->; induction b as [|y b IH]; [done|]; simpl; by rewrite Z.compare_refl].
  revert b. induction a as [|x a IH]; intros [|y b]; try done. simpl.
  destruct (code x ?= code y) eqn:E; try done. intros Hc. apply IH in Hc as ->.
  apply Z.compare_eq in E. unfold code in E. apply Nat2Z.inj in E.
  rewrite <- (Ascii.ascii_nat_embedding x), <- (Ascii.ascii_nat_embedding y). by rewrite E.
Qed.

Lemma compare_le_trans a b c : compare a b ≠ Gt → compare b c ≠ Gt → compare a c ≠ Gt.
Proof.
  revert b c. induction a as [|x a IH]; intros [|y b] [|z c]; simpl; try done.
  destruct (Z.compare_spec (code x) (code y)), (Z.compare_spec (code y) (code z)),
    (Z.compare_spec (code x) (code z)); try done; try lia. apply IH.
Qed.
End Ord.

Module Cursors.

Record Cursor := { ID : string; SortValue : string }.

Definition empty_cursor : Cursor := {| ID := ""; SortValue := "" |}.

#[export] Instance Cursor_eq_dec : EqDecision Cursor.
Proof. solve_decision. Defined.

(** Base64 over JSON, as one pair of functions. *)
Class Wire (A : Type) := {
  wire_encode : A → string;
  wire_decode : string → option A;
  representable : A → Prop;
  wire_roundtrip : ∀ c, representable c → wire_decode (wire_encode c) = Some c;
  wire_nonempty : ∀ c, wire_encode c ≠ ""%string;
}.

Inductive cursor_error := ErrInvalidCursor | ErrCursorSignature | ErrCursorTenant.

Section cursor.
Context `{!Wire Cursor}.

Definition Encode (c : Cursor) : string :=
  if bool_decide (ID c = "") && bool_decide (SortValue c = "") then "" else wire_encode c.

Definition Decode (s : string) : result cursor_error Cursor :=
  if decide (s = ""%string) then Ok empty_cursor
  else match wire_decode s with Some c => Ok c | None => Err ErrInvalidCursor end.

Record Page (T : Type) := {
  Items : list T;
  NextCursor : string;
  PreviousCursor : string;
  HasMore : bool;
}.
Arguments Items {T} _.
Arguments NextCursor {T} _.
Arguments PreviousCursor {T} _.
Arguments HasMore {T} _.

Section paginate.
Context {T : Type} (key : T → Cursor).

(** [sv > cursor.SortValue || (sv == cursor.SortValue && id > cursor.ID)] *)
Definition after (c : Cursor) (k : Cursor) : bool :=
  Ord.ltb (SortValue c) (SortValue k) ||
  (bool_decide (SortValue k = SortValue c) && Ord.ltb (ID c) (ID k)).

(** The index of the first item after the cursor. *)
Fixpoint find_start (c : Cursor) (i : nat) (items : list T) : option nat :=
  match items with
  | [] => None
  | x :: items => if after c (key x) then Some i else find_start c (S i) items
  end.

Definition previousCursor (items : list T) (startIdx limit : nat) : string :=
  if Nat.leb startIdx 0 then ""
  else if Nat.leb (startIdx - limit) 0 then ""
  else match items !! (startIdx - limit - 1)%nat with
       | Some anchor => Encode (key anchor)
       | None => ""
       end.

(** The page that starts at [startIdx]. *)
Definition page_at (items : list T) (limit startIdx : nat) : Page T :=
  let endIdx := (startIdx + limit)%nat in
  let hasMore := negb (Nat.leb (length items) endIdx) in
  let endIdx := if hasMore then endIdx else length items in
  let pageItems := take (endIdx - startIdx) (drop startIdx items) in
  {| Items := pageItems;
     NextCursor := if hasMore then
                     match last pageItems with Some x => Encode (key x) | None => "" end
                   else "";
     PreviousCursor := previousCursor items startIdx limit;
     HasMore := hasMore |}.

Definition PaginateSlice (items : list T) (cursor : Cursor) (limit : Z) : Page T :=
  let limit := Z.to_nat (if limit <=? 0 then 10 else limit) in
  if bool_decide (ID cursor = "") && bool_decide (SortValue cursor = "") then
    page_at items limit 0
  else
    match find_start cursor 0 items with
    | Some startIdx => page_at items limit startIdx
    | None => {| Items := []; NextCursor := ""; PreviousCursor := ""; HasMore := false |}
    end.

(** A client that follows [NextCursor] for at most [fuel] pages; [None] when a
    cursor does not decode or the fuel runs out. *)
Fixpoint walk (fuel : nat) (items : list T) (cursor : string) (limit : Z) : option (list T) :=
  match fuel with
  | O => None
  | S fuel =>
      match Decode cursor with
      | Err _ => None
      | Ok c =>
          let p := PaginateSlice items c limit in
          if HasMore p then
            match walk fuel items (NextCursor p) limit with
            | Some rest => Some (Items p ++ rest)
            | None => None
            end
          else Some (Items p)
      end
  end.

(** ** Cursors of items *)
Definition cursor_lt (a b : Cursor) : Prop := after a b = true.

Lemma after_asym a b : after a b = true → after b a = false.
Proof.
  unfold after, Ord.ltb. rewrite (Ord.compare_antisym (SortValue a) (SortValue b)).
  rewrite (Ord.compare_antisym (ID a) (ID b)).
  assert (∀ x y, Ord.compare x y ≠ Eq → bool_decide (y = x) = false) as Hne.
  { intros x y Hc. apply bool_decide_eq_false. intros ->. by apply Hc, Ord.compare_eq. }
  destruct (Ord.compare (SortValue a) (SortValue b)) eqn:Ev; cbn [CompOpp orb].
  - destruct (Ord.compare (ID a) (ID b)); simpl; rewrite ?andb_false_r; done.
  - intros _. rewrite (Hne (SortValue b) (SortValue a)); [done|].
    by rewrite Ord.compare_antisym, Ev.
  - rewrite (Hne (SortValue a) (SortValue b)) by congruence. done.
Qed.

Lemma after_irrefl a : after a a = false.
Proof. destruct (after a a) eqn:E; [|done]. pose proof (after_asym _ _ E). congruence. Qed.

(** The slice is sorted strictly, as a primary key makes it, and every key
    is representable and not empty. *)
Definition sound_items (items : list T) : Prop :=
  StronglySorted cursor_lt (key <$> items) ∧
  ∀ x, x ∈ items → representable (key x) ∧ key x ≠ empty_cursor.

Lemma Encode_item c : c ≠ empty_cursor → Encode c = wire_encode c.
Proof.
  intros Hne. unfold Encode. repeat case_bool_decide; try done. destruct c. simpl in *. by subst.
Qed.

Lemma Decode_Encode c : representable c → c ≠ empty_cursor → Decode (Encode c) = Ok c.
Proof.
  intros Hr Hne. rewrite Encode_item by done. unfold Decode.
  rewrite decide_False by apply wire_nonempty. by rewrite wire_roundtrip.
Qed.

Lemma find_start_skip c i l l' :
  Forall (λ x, after c (key x) = false) l →
  find_start c i (l ++ l') = find_start c (i + length l) l'.
Proof.
  intros Hl. revert i. induction Hl as [|x l Hx _ IH]; intros i; simpl.
  - by rewrite Nat.add_0_r.
  - rewrite Hx, IH. f_equal. lia.
Qed.

(** The search for the cursor of item [i] stops at item [i + 1]. *)
Lemma find_start_item items i x :
  StronglySorted cursor_lt (key <$> items) → items !! i = Some x →
  find_start (key x) 0 items = if decide (S i < length items)%nat then Some (S i) else None.
Proof.
  intros Hs Hx. rewrite <- (take_drop_middle items i x Hx) at 1.
  pose proof (lookup_lt_Some _ _ _ Hx) as Hlt.
  rewrite <- (take_drop_middle items i x Hx), fmap_app, fmap_cons in Hs.
  apply StronglySorted_app in Hs as (Hcross & _ & Hs2).
  rewrite (cons_middle x), app_assoc, find_start_skip.
  - rewrite length_app, length_take. simpl.
    replace (i `min` length items + 1)%nat with (S i) by lia.
    destruct (drop (S i) items) as [|y rest] eqn:Hd; simpl.
    + apply (f_equal length) in Hd. rewrite length_drop in Hd. simpl in Hd.
      rewrite decide_False by lia. done.
    + apply (f_equal length) in Hd. rewrite length_drop in Hd. simpl in Hd.
      apply StronglySorted_inv in Hs2 as [_ Hall]. apply Forall_cons in Hall as [Hy _].
      rewrite Hy, decide_True by lia. done.
  - apply Forall_app. split; [|by repeat constructor; apply after_irrefl].
    apply Forall_forall. intros y Hy. apply after_asym. apply Hcross.
    + by apply list_elem_of_fmap_2.
    + left.
Qed.

Lemma PaginateSlice_item items i x limit :
  sound_items items → items !! i = Some x →
  PaginateSlice items (key x) limit =
    if decide (S i < length items)%nat
    then page_at items (Z.to_nat (if limit <=? 0 then 10 else limit)) (S i)
    else {| Items := []; NextCursor := ""; PreviousCursor := ""; HasMore := false |}.
Proof.
  intros [Hs Hk] Hx. destruct (Hk x) as [_ Hne]; [by eapply list_elem_of_lookup_2|].
  unfold PaginateSlice.
  destruct (bool_decide (ID (key x) = "") && bool_decide (SortValue (key x) = "")) eqn:He.
  { apply andb_true_iff in He as [?%bool_decide_eq_true ?%bool_decide_eq_true].
    destruct Hne. destruct (key x). simpl in *. by subst. }
  rewrite (find_start_item _ _ _ Hs Hx). by destruct (decide (S i < length items)%nat).
Qed.

Lemma page_at_spec (items : list T) limit start :
  page_at items limit start =
    {| Items := take limit (drop start items);
       NextCursor := if decide (start + limit < length items)%nat then
                       match last (take limit (drop start items)) with
                       | Some x => Encode (key x) | None => "" end
                     else "";
       PreviousCursor := previousCursor items start limit;
       HasMore := bool_decide (start + limit < length items)%nat |}.
Proof.
  unfold page_at. destruct (Nat.leb_spec (length items) (start + limit)) as [Hle|Hgt]; simpl.
  - rewrite decide_False, bool_decide_false by lia.
    f_equal. rewrite !take_ge by (rewrite length_drop; lia). done.
  - rewrite decide_True, bool_decide_true by lia.
    replace (start + limit - start)%nat with limit by lia. done.
Qed.

(** The last item of a full page that is not the last page. *)
Lemma page_last (items : list T) limit start :
  (0 < limit)%nat → (start + limit < length items)%nat →
  ∃ x, last (take limit (drop start items)) = Some x ∧ items !! (start + limit - 1)%nat = Some x.
Proof.
  intros Hl Hlt. destruct (lookup_lt_is_Some_2 items (start + limit - 1)) as [x Hx]; [lia|].
  exists x. split; [|done]. rewrite last_lookup, length_take, length_drop.
  rewrite lookup_take_lt by lia. rewrite lookup_drop.
  replace (start + Nat.pred (limit `min` (length items - start)))%nat
    with (start + limit - 1)%nat by lia. done.
Qed.

(** [cur] is the cursor of the page that starts at [start]. *)
Definition cursor_for (items : list T) (start : nat) (cur : string) : Prop :=
  match start with
  | O => cur = ""%string
  | S i => ∃ x, items !! i = Some x ∧ cur = Encode (key x)
  end.

(** The page size in force. *)
Definition page_size (limit : Z) : nat := Z.to_nat (if limit <=? 0 then 10 else limit).

Lemma page_size_pos limit : (0 < page_size limit)%nat.
Proof. unfold page_size. case_match; lia. Qed.

Lemma page_for items start cur limit :
  sound_items items → cursor_for items start cur → (start = 0 ∨ start < length items)%nat →
  ∃ c, Decode cur = Ok c ∧ PaginateSlice items c limit = page_at items (page_size limit) start.
Proof.
  intros Hs Hc Hlt. destruct start as [|i]; simpl in Hc.
  - subst cur. by exists empty_cursor.
  - destruct Hc as (x & Hx & ->). exists (key x).
    destruct Hs as [Hsort Hk]. destruct (Hk x) as [Hr Hne]; [by eapply list_elem_of_lookup_2|].
    split; [by apply Decode_Encode|].
    rewrite (PaginateSlice_item items i x limit) by done. rewrite decide_True by lia. done.
Qed.

Lemma walk_from fuel items start cur limit :
  sound_items items → cursor_for items start cur → (start = 0 ∨ start < length items)%nat →
  (0 < fuel)%nat → (length items - start ≤ fuel * page_size limit)%nat →
  walk fuel items cur limit = Some (drop start items).
Proof.
  intros Hs. revert start cur. induction fuel as [|fuel IH]; intros start cur Hc Hlt Hf Hn; [lia|].
  pose proof (page_size_pos limit) as Hl. simpl.
  destruct (page_for items start cur limit Hs Hc Hlt) as (c & -> & ->).
  rewrite page_at_spec. cbn [HasMore Items NextCursor].
  set (L := page_size limit) in *. case_bool_decide as Hm.
  - rewrite decide_True by done. destruct (page_last items L start Hl Hm) as (x & -> & Hx).
    rewrite (IH (start + L)%nat).
    + f_equal. rewrite <- (take_drop L (drop start items)) at 2. by rewrite drop_drop.
    + destruct (start + L)%nat as [|i] eqn:Hi; [lia|]. simpl. exists x.
      split; [|done]. replace i with (S i - 1)%nat by lia. done.
    + lia.
    + simpl in Hn. destruct fuel; lia.
    + simpl in Hn. lia.
  - rewrite take_ge by (rewrite length_drop; lia). done.
Qed.

(** Following the cursors visits every item once. Over a slice sorted
    strictly by sort value and identifier, a client that starts without a
    cursor and follows [NextCursor] until [HasMore] is false receives exactly
    the slice, in order, within the number of pages the size requires. *)
Theorem walk_all items limit fuel :
  sound_items items → (0 < fuel)%nat → (length items ≤ fuel * page_size limit)%nat →
  walk fuel items "" limit = Some items.
Proof.
  intros Hs Hf Hn. rewrite (walk_from fuel items 0); [done|done|done|by left|done|lia].
Qed.

(** going back. From any page, [PreviousCursor] decodes to a cursor whose
    page starts one page size earlier, or at the first item when fewer
    precede. *)
Theorem previous_page items start cur limit c :
  sound_items items → cursor_for items start cur → (start < length items)%nat →
  Decode cur = Ok c →
  ∃ c', Decode (PreviousCursor (PaginateSlice items c limit)) = Ok c' ∧
    Items (PaginateSlice items c' limit) =
      take (page_size limit) (drop (start - page_size limit) items).
Proof.
  intros Hs Hc Hlt Hd. pose proof (page_size_pos limit) as Hl.
  destruct (page_for items start cur limit Hs Hc (or_intror Hlt)) as (c1 & Hd1 & Hp).
  rewrite Hd in Hd1. injection Hd1 as <-. rewrite Hp, page_at_spec. cbn [PreviousCursor].
  set (L := page_size limit) in *.
  assert (cursor_for items (start - L) (previousCursor items start L)) as Hprev.
  { unfold previousCursor. destruct (Nat.leb_spec start 0) as [H0|H0].
    { by replace (start - L)%nat with 0%nat by lia. }
    destruct (Nat.leb_spec (start - L) 0) as [H1|H1].
    { by replace (start - L)%nat with 0%nat by lia. }
    destruct (start - L)%nat as [|i] eqn:Hi; [lia|].
    destruct (lookup_lt_is_Some_2 items i) as [x Hx]; [lia|]. simpl.
    rewrite Nat.sub_0_r, Hx. eauto. }
  destruct (page_for items (start - L) _ limit Hs Hprev) as (c' & Hd' & Hp'); [lia|].
  exists c'. split; [done|]. by rewrite Hp', page_at_spec.
Qed.
End paginate.
End cursor.
Arguments Items {T} _.
Arguments NextCursor {T} _.
Arguments PreviousCursor {T} _.
Arguments HasMore {T} _.

(** ** Tenant-scoped cursors *)
Record ScopedCursor := { sID : string; sSortValue : string; sTenantID : string; sSig : string }.

Section scoped.
(** [mac] is the hex-encoded HMAC-SHA256 under the configured secret. *)
Context `{!Wire ScopedCursor} (mac : string → string).

Definition signCursor (id sortValue tenantID : string) : string :=
  mac (id +:+ "|" +:+ sortValue +:+ "|" +:+ tenantID)%string.

Definition EncodeScopedCursor (id sortValue tenantID : string) : string :=
  if bool_decide (id = "") && bool_decide (sortValue = "") then ""
  else wire_encode {| sID := id; sSortValue := sortValue; sTenantID := tenantID;
                      sSig := signCursor id sortValue tenantID |}.

Definition DecodeScopedCursor (encoded expectedTenantID : string) : result cursor_error Cursor :=
  if decide (encoded = ""%string) then Ok empty_cursor
  else match wire_decode encoded with
  | None => Err ErrInvalidCursor
  | Some sc =>
      if decide (sSig sc ≠ signCursor (sID sc) (sSortValue sc) (sTenantID sc)) then
        Err ErrCursorSignature
      else if decide (sTenantID sc ≠ expectedTenantID) then Err ErrCursorTenant
      else Ok {| ID := sID sc; SortValue := sSortValue sc |}
  end.

(** scoped cursors stay in their tenant. A cursor issued for one tenant
    decodes to its position for that tenant and is refused for every other;
    and whatever text is presented, what is accepted carries the expected
    tenant under a valid signature. *)
Theorem scoped_cursor_tenant id sv t expected :
  representable {| sID := id; sSortValue := sv; sTenantID := t; sSig := signCursor id sv t |} →
  (id ≠ "" ∨ sv ≠ "")%string →
  DecodeScopedCursor (EncodeScopedCursor id sv t) expected =
    (if decide (t = expected) then Ok {| ID := id; SortValue := sv |} else Err ErrCursorTenant) ∧
  ∀ s c, s ≠ ""%string → DecodeScopedCursor s expected = Ok c →
    ∃ sc, wire_decode s = Some sc ∧ sTenantID sc = expected ∧
      sSig sc = signCursor (ID c) (SortValue c) expected.
Proof.
  intros Hr Hne. split.
  - unfold EncodeScopedCursor.
    replace (bool_decide (id = "") && bool_decide (sv = "")) with false
      by (repeat case_bool_decide; naive_solver).
    unfold DecodeScopedCursor. rewrite decide_False by apply wire_nonempty.
    rewrite wire_roundtrip by done. simpl. rewrite decide_False by tauto.
    repeat case_decide; done.
  - intros s c Hs. unfold DecodeScopedCursor. rewrite decide_False by done.
    destruct (wire_decode s) as [sc|]; [|done]. case_decide as Hsig; [done|].
    case_decide as Ht; [done|]. intros [= <-]. exists sc. simpl.
    split_and!; [done|by destruct (decide (sTenantID sc = expected))|].
    destruct (decide (sTenantID sc = expected)) as [<-|]; [|done].
    by destruct (decide (sSig sc = signCursor (sID sc) (sSortValue sc) (sTenantID sc))).
Qed.

(** The signed text does not delimit its fields. A cursor issued to a
    tenant whose name contains the separator also signs the same position,
    with bytes moved between the fields, for the tenant named by the rest, so
    the re-encoded cursor is accepted there. *)
Theorem scoped_cursor_forgery id sv t1 t2 :
  let forged := {| sID := id; sSortValue := (sv +:+ "|" +:+ t1)%string; sTenantID := t2;
                   sSig := signCursor id sv (t1 +:+ "|" +:+ t2)%string |} in
  representable forged →
  DecodeScopedCursor (wire_encode forged) t2 =
    Ok {| ID := id; SortValue := (sv +:+ "|" +:+ t1)%string |}.
Proof.
  intros forged Hr. unfold DecodeScopedCursor. rewrite decide_False by apply wire_nonempty.
  rewrite wire_roundtrip by done. simpl. rewrite decide_False.
  - by rewrite decide_False by tauto.
  - intros Hc. apply Hc. unfold signCursor. f_equal. by rewrite !string_app_assoc.
Qed.
End scoped.

(** ** A concrete wire form

    Each byte of all fields but the last is preceded by ["1"], and ["0"] ends
    a field. *)
Fixpoint field (a : string) (rest : string) : string :=
  match a with
  | EmptyString => String.String "0"%char rest
  | String.String c a => String.String "1"%char (String.String c (field a rest))
  end.

Fixpoint unfield (fuel : nat) (s : string) : option (string * string) :=
  match fuel, s with
  | S fuel, String.String "0"%char rest => Some (EmptyString, rest)
  | S fuel, String.String "1"%char (String.String c s) =>
      '(a, rest) ← unfield fuel s; Some (String.String c a, rest)
  | _, _ => None
  end.

Lemma unfield_field a rest fuel :
  (String.length a < fuel)%nat → unfield fuel (field a rest) = Some (a, rest).
Proof.
  revert fuel. induction a as [|c a IH]; intros [|fuel] Hf; simpl in *; try lia; [done|].
  by rewrite IH by lia.
Qed.

Lemma length_field a rest : (String.length a < String.length (field a rest))%nat.
Proof. induction a; simpl; lia. Qed.

#[local] Instance plain_cursor_wire : Wire Cursor.
Proof.
  refine {| wire_encode := λ c, field (ID c) (SortValue c);
            wire_decode := λ s, '(a, b) ← unfield (String.length s) s;
                                  Some {| ID := a; SortValue := b |};
            representable := λ _, True |}.
  - intros [a b] _. simpl. rewrite unfield_field by apply length_field. done.
  - intros [[|c a] b]; done.
Defined.

#[local] Instance plain_scoped_wire : Wire ScopedCursor.
Proof.
  refine {| wire_encode := λ c, field (sID c) (field (sSortValue c) (field (sTenantID c) (sSig c)));
            wire_decode := λ s,
              '(a, s) ← unfield (String.length s) s;
              '(b, s) ← unfield (String.length s) s;
              '(c, s) ← unfield (String.length s) s;
              Some {| sID := a; sSortValue := b; sTenantID := c; sSig := s |};
            representable := λ _, True |}.
  - intros [a b c d] _. simpl. do 3 (rewrite unfield_field by apply length_field; simpl). done.
  - intros [[|x a] b c d]; done.
Defined.

Definition item (n : string) : Cursor := {| ID := n; SortValue := "2024" |}.
Definition five : list Cursor := item <$> ["a"; "b"; "c"; "d"; "e"]%string.

Lemma five_sound : sound_items (λ c : Cursor, c) five.
Proof.
  split.
  - unfold five. simpl. repeat constructor.
  - intros x Hx. split; [exact I|]. unfold five in Hx. simpl in Hx.
    repeat (apply elem_of_cons in Hx as [->|Hx]; [discriminate|]). by apply elem_of_nil in Hx.
Qed.

Lemma walk_all_witness : walk (λ c : Cursor, c) 3 five "" 2 = Some five.
Proof.
  apply (walk_all (λ c : Cursor, c) five 2 3); [exact five_sound|lia|vm_compute; lia].
Defined.

Lemma previous_page_witness :
  ∃ c', Decode (PreviousCursor (PaginateSlice (λ c : Cursor, c) five (item "d") 2)) = Ok c' ∧
    Items (PaginateSlice (λ c : Cursor, c) five c' 2) = [item "c"; item "d"].
Proof.
  apply (previous_page (λ c : Cursor, c) five 4 (Encode (item "d")) 2 (item "d"));
    [exact five_sound|exists (item "d"); done|vm_compute; lia|reflexivity].
Defined.

Lemma scoped_cursor_tenant_witness :
  DecodeScopedCursor (λ s, s) (EncodeScopedCursor (λ s, s) "id" "v" "t1") "t2" = Err ErrCursorTenant.
Proof.
  destruct (scoped_cursor_tenant (λ s, s) "id" "v" "t1" "t2") as [Hd _]; [exact I|by left|].
  rewrite Hd. reflexivity.
Defined.

Lemma scoped_cursor_forgery_witness :
  DecodeScopedCursor (λ s, s)
    (wire_encode {| sID := "id"; sSortValue := "v|evil"; sTenantID := "victim";
                    sSig := signCursor (λ s, s) "id" "v" "evil|victim" |}) "victim" =
    Ok {| ID := "id"; SortValue := "v|evil" |}.
Proof. apply (scoped_cursor_forgery (λ s, s) "id" "v" "evil" "victim"). exact I. Defined.
End Cursors.

(** ** Offset pagination *)
Module Offsets.

Record ListMetadata := { Total : Z; NextOffset : Z; HasMore : bool }.

(** [strings.EqualFold(s, "desc")]: rune by rune, under simple folding; the
    long s folds to s. *)
Definition is_desc (s : string) : bool :=
  match runes s with
  | [d; e; x; c] =>
      bool_decide (d ∈ [68; 100]) && bool_decide (e ∈ [69; 101]) &&
      bool_decide (x ∈ [83; 115; 383]) && bool_decide (c ∈ [67; 99])
  | _ => false
  end.

Section list.
Context {T : Type} (getSortVal : T → string → string).

(** The comparison function given to [slices.SortStableFunc]. *)
Definition sort_cmp (sortBy sortOrder : string) (a b : T) : comparison :=
  let c := Ord.compare (getSortVal a sortBy) (getSortVal b sortBy) in
  if is_desc sortOrder then CompOpp c else c.

(** Insertion keeps equal elements in their order, as the stable sort does. *)
Fixpoint insert_stable (cmp : T → T → comparison) (x : T) (l : list T) : list T :=
  match l with
  | [] => [x]
  | y :: l => match cmp x y with Gt => y :: insert_stable cmp x l | _ => x :: y :: l end
  end.
Definition sort_stable (cmp : T → T → comparison) (l : list T) : list T :=
  foldr (insert_stable cmp) [] l.

(** The page, its metadata, and the caller's slice, which the sort has
    rearranged in place. *)
Definition PaginateList (items : list T) (offset limit : Z) (sortBy sortOrder : string)
    : list T * ListMetadata * list T :=
  let limit := if limit <=? 0 then 10 else if 100 <? limit then 100 else limit in
  let offset := if offset <? 0 then 0 else offset in
  let items := if decide (sortBy = ""%string) then items
               else sort_stable (sort_cmp sortBy sortOrder) items in
  let total := Z.of_nat (length items) in
  if (total =? 0) || (total <=? offset) then
    ([], {| Total := total; NextOffset := 0; HasMore := false |}, items)
  else
    let hasMore := negb (total <=? offset + limit) in
    let endIdx := if hasMore then offset + limit else total in
    (take (Z.to_nat (endIdx - offset)) (drop (Z.to_nat offset) items),
     {| Total := total; NextOffset := if hasMore then endIdx else 0; HasMore := hasMore |}, items).

(** A client that follows [NextOffset] while [HasMore], each time over the
    slice as the previous call left it. *)
Fixpoint walk_offsets (fuel : nat) (items : list T) (offset limit : Z) (sortBy sortOrder : string)
    : option (list T) :=
  match fuel with
  | O => None
  | S fuel =>
      let '(page, meta, items) := PaginateList items offset limit sortBy sortOrder in
      if HasMore meta then
        rest ← walk_offsets fuel items (NextOffset meta) limit sortBy sortOrder;
        Some (page ++ rest)
      else Some page
  end.

Lemma insert_stable_perm cmp x l : insert_stable cmp x l ≡ₚ x :: l.
Proof.
  induction l as [|y l IH]; simpl; [done|]. destruct (cmp x y); [done|done|].
  rewrite IH. constructor.
Qed.

Lemma sort_stable_perm cmp l : sort_stable cmp l ≡ₚ l.
Proof.
  induction l as [|x l IH]; simpl; [done|]. unfold sort_stable in *. simpl.
  by rewrite insert_stable_perm, IH.
Qed.

(** A comparison function of a total preorder. *)
Record preorder_cmp (cmp : T → T → comparison) : Prop := {
  cmp_antisym : ∀ x y, cmp y x = CompOpp (cmp x y);
  cmp_trans : ∀ x y z, cmp x y ≠ Gt → cmp y z ≠ Gt → cmp x z ≠ Gt;
}.

Lemma sort_cmp_preorder sortBy sortOrder : preorder_cmp (sort_cmp sortBy sortOrder).
Proof.
  unfold sort_cmp. split.
  - intros x y. rewrite (Ord.compare_antisym (getSortVal x sortBy)). by case_match.
  - intros x y z. case_match; [|apply Ord.compare_le_trans].
    rewrite <- !Ord.compare_antisym. intros H1 H2. exact (Ord.compare_le_trans _ _ _ H2 H1).
Qed.

Definition ordered (cmp : T → T → comparison) : list T → Prop :=
  StronglySorted (λ x y, cmp x y ≠ Gt).

Lemma insert_stable_ordered cmp x l :
  preorder_cmp cmp → ordered cmp l → ordered cmp (insert_stable cmp x l).
Proof.
  intros [Ha Ht] Hl. induction Hl as [|y l Hl IH Hall]; simpl; [by repeat constructor|].
  destruct (cmp x y) eqn:Hc.
  - constructor; [by constructor|]. constructor; [congruence|].
    eapply Forall_impl; [exact Hall|]. intros z Hz. apply (Ht x y z); congruence.
  - constructor; [by constructor|]. constructor; [congruence|].
    eapply Forall_impl; [exact Hall|]. intros z Hz. apply (Ht x y z); congruence.
  - constructor; [exact IH|]. rewrite insert_stable_perm. constructor; [|done].
    rewrite Ha, Hc. done.
Qed.

Lemma sort_stable_ordered cmp l : preorder_cmp cmp → ordered cmp (sort_stable cmp l).
Proof.
  intros Hp. induction l as [|x l IH]; [constructor|]. by apply insert_stable_ordered.
Qed.

(** A stable sort leaves a sorted slice as it is. *)
Lemma sort_stable_id cmp l : ordered cmp l → sort_stable cmp l = l.
Proof.
  intros Hl. induction Hl as [|x l _ IH Hall]; [done|].
  unfold sort_stable in *. simpl. rewrite IH. destruct Hall as [|y l Hy _]; [done|].
  simpl. by destruct (cmp x y).
Qed.

(** The slice after the sort, if one is asked for. *)
Definition sorted_items (sortBy sortOrder : string) (items : list T) : list T :=
  if decide (sortBy = ""%string) then items else sort_stable (sort_cmp sortBy sortOrder) items.

Lemma sorted_items_idem sortBy sortOrder items :
  sorted_items sortBy sortOrder (sorted_items sortBy sortOrder items) =
    sorted_items sortBy sortOrder items.
Proof.
  unfold sorted_items. case_decide; [done|].
  apply sort_stable_id, sort_stable_ordered, sort_cmp_preorder.
Qed.

Definition clamp_limit (limit : Z) : Z :=
  if limit <=? 0 then 10 else if 100 <? limit then 100 else limit.

Lemma walk_offsets_from fuel items offset limit sortBy sortOrder :
  let l := sorted_items sortBy sortOrder items in
  0 ≤ offset → (offset = 0 ∨ offset < Z.of_nat (length l)) → (0 < fuel)%nat →
  Z.of_nat (length l) - offset ≤ Z.of_nat fuel * clamp_limit limit →
  walk_offsets fuel items offset limit sortBy sortOrder = Some (drop (Z.to_nat offset) l).
Proof.
  cbv zeta. revert items offset. induction fuel as [|fuel IH]; intros items offset H0 Hlt Hf Hn; [lia|].
  assert (1 ≤ clamp_limit limit) as HL by (unfold clamp_limit; repeat case_match; lia).
  simpl. unfold PaginateList. fold (clamp_limit limit). fold (sorted_items sortBy sortOrder items).
  pose proof (sorted_items_idem sortBy sortOrder items) as Hid.
  set (l := sorted_items sortBy sortOrder items) in *. set (L := clamp_limit limit) in *.
  rewrite (proj2 (Z.ltb_ge offset 0)) by lia.
  destruct ((Z.of_nat (length l) =? 0) || (Z.of_nat (length l) <=? offset)) eqn:He.
  { simpl. rewrite drop_ge; [done|]. apply orb_true_iff in He. lia. }
  destruct (Z.of_nat (length l) <=? offset + L) eqn:Hle; simpl.
  - rewrite take_ge; [done|]. rewrite length_drop. lia.
  - rewrite IH; rewrite ?Hid; [|lia|lia|lia|lia]. simpl. f_equal.
    rewrite <- (take_drop (Z.to_nat (offset + L - offset)) (drop (Z.to_nat offset) l)) at 2.
    rewrite drop_drop. do 2 f_equal. lia.
Qed.

(** offset pages partition the sorted list. Following [NextOffset] from 0
    returns the items exactly once each, ordered by the requested column and
    direction, although every call sorts the caller's slice in place
    again. *)
Theorem walk_offsets_all items limit sortBy sortOrder fuel :
  (0 < fuel)%nat → Z.of_nat (length items) ≤ Z.of_nat fuel * clamp_limit limit →
  ∃ l, walk_offsets fuel items 0 limit sortBy sortOrder = Some l ∧ l ≡ₚ items ∧
    (sortBy ≠ ""%string → ordered (sort_cmp sortBy sortOrder) l).
Proof.
  intros Hf Hn. exists (sorted_items sortBy sortOrder items).
  assert (sorted_items sortBy sortOrder items ≡ₚ items) as Hp
    by (unfold sorted_items; case_decide; [done|apply sort_stable_perm]).
  split_and!; [|done|].
  - apply walk_offsets_from; [lia|by left|done|]. rewrite Hp. lia.
  - intros Hne. unfold sorted_items. rewrite decide_False by done.
    apply sort_stable_ordered, sort_cmp_preorder.
Qed.
End list.

Lemma walk_offsets_all_witness :
  ∃ l, walk_offsets (λ s _, s) 2 ["b"; "c"; "a"]%string 0 2 "name" "DESC" = Some l ∧
    l ≡ₚ ["b"; "c"; "a"]%string ∧ l = ["c"; "b"; "a"]%string.
Proof.
  destruct (walk_offsets_all (λ s _, s) ["b"; "c"; "a"]%string 2 "name" "DESC" 2)
    as (l & Hl & Hp & _); [lia|vm_compute; discriminate|].
  exists l. split_and!; [exact Hl|exact Hp|]. vm_compute in Hl. congruence.
Defined.
End Offsets.

(** ** The limit parameter *)
Module Limits.
Definition DefaultLimit : Z := 20.
Definition MaxLimit : Z := 100.

Inductive limit_error := ErrInvalidLimit.

Definition ParseLimit (raw : string) (defaultLimit : Z) : result limit_error Z :=
  if decide (raw = ""%string) then Ok defaultLimit
  else if decide (TrimSpace raw = ""%string) then Err ErrInvalidLimit
  else match ParseInt raw with
  | None => Err ErrInvalidLimit
  | Some limit =>
      if limit <=? 0 then Ok defaultLimit
      else if MaxLimit <? limit then Err ErrInvalidLimit
      else Ok limit
  end.

(** The limit in force is the default or lies between 1 and 100, and a
    larger number is an error: it is not clamped to [MaxLimit]. *)
Theorem ParseLimit_exact raw d :
  (∀ n, ParseLimit raw d = Ok n → n = d ∨ 1 ≤ n ≤ MaxLimit) ∧
  (∀ n, ParseInt raw = Some n → TrimSpace raw ≠ ""%string → MaxLimit < n →
     ParseLimit raw d = Err ErrInvalidLimit).
Proof.
  unfold ParseLimit, MaxLimit. split.
  - intros n. repeat case_decide; try done; [intros [= <-]; by left|].
    destruct (ParseInt raw) as [v|]; [|done].
    destruct (v <=? 0) eqn:E0; [intros [= <-]; by left|].
    destruct (100 <? v) eqn:E1; [done|]. intros [= <-]. lia.
  - intros n Hp Ht Hn. rewrite Hp. destruct (decide (raw = ""%string)) as [->|]; [done|].
    rewrite decide_False by done. rewrite (proj2 (Z.leb_gt _ _)) by lia.
    by rewrite (proj2 (Z.ltb_lt _ _)) by lia.
Qed.

Example ParseLimit_ex :
  map (λ s, ParseLimit s DefaultLimit) [""; " "; "0"; "100"; "101"; "x"; "-5"]%string =
  [Ok 20; Err ErrInvalidLimit; Ok 20; Ok 100; Err ErrInvalidLimit; Err ErrInvalidLimit; Ok 20].
Proof. vm_compute. reflexivity. Qed.
End Limits.
