(* ===== verification/Fraud.v ===== *)
(** * Fraud signals

    Models [internal/security/fraud]: the sliding window counter
    ([window.go]) and the per-tenant collector with thresholds and cooldown
    ([fraud.go]). The two slices of a window have one length and are one list
    of slots. Event counts are unbounded integers: they do not reach 2^63.
    The emitter is an interface; an emission is the event it is given. *)
From stdpp Require Import base gmap strings list sorting.
From Stdlib Require Import ZArith Lia.
From S2P Require Import Prelude.

Module Window.

Record slot := { events : Z; since : Time }.

Record slidingWindow := {
  window : Duration;
  bucketSpan : Duration;
  buckets : list slot;
}.

Definition empty_slot : slot := {| events := 0; since := Time.zero |}.

Definition newSlidingWindow (window : Duration) (buckets : Z) : slidingWindow :=
  let buckets := if buckets <? 1 then 1 else buckets in
  let window := if window <=? 0 then Time.Second else window in
  {| window := window; bucketSpan := Z.quot window buckets;
     buckets := replicate (Z.to_nat buckets) empty_slot |}.

(** [None] is the panic of a division by a zero span. *)
Definition bucketIndex (w : slidingWindow) (t : Time) : option Z :=
  if bucketSpan w =? 0 then None
  else
    let len := Z.of_nat (length (buckets w)) in
    let idx := Z.rem (Z.quot (wrap64 t) (bucketSpan w)) len in
    Some (if idx <? 0 then idx + len else idx).

Definition bucketStart (w : slidingWindow) (t : Time) : Time :=
  wrap64 (Z.quot (wrap64 t) (bucketSpan w) * bucketSpan w).

Definition roll_slot (w : slidingWindow) (now : Time) (s : slot) : slot :=
  if Time.IsZero (since s) then s
  else if window w <=? Time.Sub now (since s) then empty_slot else s.

Definition set_buckets (l : list slot) (w : slidingWindow) : slidingWindow :=
  {| window := window w; bucketSpan := bucketSpan w; buckets := l |}.

Definition roll (now : Time) (w : slidingWindow) : slidingWindow :=
  set_buckets (roll_slot w now <$> buckets w) w.

Definition slot_sum (w : slidingWindow) (now : Time) (s : slot) : Z :=
  if Time.IsZero (since s) then 0
  else if Time.Sub now (since s) <? window w then events s else 0.

Definition sum (w : slidingWindow) (now : Time) : Z :=
  foldr (λ s total, slot_sum w now s + total) 0 (buckets w).

Definition add (now : Time) (n : Z) (w : slidingWindow) : option (slidingWindow * Z) :=
  let w := roll now w in
  match bucketIndex w now with
  | None => None
  | Some idx =>
      let start := bucketStart w now in
      let i := Z.to_nat idx in
      match buckets w !! i with
      | None => None
      | Some s =>
          let s := if decide (since s ≠ start) then {| events := 0; since := start |} else s in
          let w := set_buckets (<[i := {| events := events s + n; since := since s |}]> (buckets w)) w in
          Some (w, sum w now)
      end
  end.

Definition count (now : Time) (w : slidingWindow) : slidingWindow * Z :=
  let w := roll now w in (w, sum w now).

Definition empty (now : Time) (w : slidingWindow) : slidingWindow * bool :=
  let '(w, n) := count now w in (w, n =? 0).

(** ** Exactness *)

(** A window whose span divides it, with no slot written yet or as the
    operations leave it. *)
Record regular (w : slidingWindow) : Prop := {
  span_pos : 0 < bucketSpan w;
  some_bucket : (0 < length (buckets w))%nat;
  span_divides : window w = bucketSpan w * Z.of_nat (length (buckets w));
}.

Definition in_range (t : Time) : Prop := 0 ≤ t ≤ max_int64.

(** The number of the bucket span an instant falls into. *)
Definition span_no (w : slidingWindow) (t : Time) : Z := t / bucketSpan w.
Definition live (w : slidingWindow) (now t : Time) : Prop :=
  now - span_no w t * bucketSpan w < window w.

#[local] Instance live_dec w now t : Decision (live w now t).
Proof. unfold live. apply _. Defined.

(** The events of a history in slot [i], in one span, and the live ones. *)
Definition slot_of (w : slidingWindow) (t : Time) : Z :=
  span_no w t mod Z.of_nat (length (buckets w)).
Definition in_span (w : slidingWindow) (q : Z) (h : list (Time * Z)) : Z :=
  foldr (λ '(t, n) total, (if decide (span_no w t = q) then n else 0) + total) 0 h.
Definition live_in (w : slidingWindow) (now i : Z) (h : list (Time * Z)) : Z :=
  foldr (λ '(t, n) total, (if decide (slot_of w t = i ∧ live w now t) then n else 0) + total) 0 h.
Definition live_total (w : slidingWindow) (now : Time) (h : list (Time * Z)) : Z :=
  foldr (λ '(t, n) total, (if decide (live w now t) then n else 0) + total) 0 h.

(** What slot [i] holds after the history [h], at time [now]. *)
Definition slot_ok (w : slidingWindow) (now : Time) (h : list (Time * Z)) (i : Z) (s : slot) : Prop :=
  (s = empty_slot ∧ ∀ t n, (t, n) ∈ h → slot_of w t = i → ¬ live w now t) ∨
  (∃ q, 0 ≤ q ∧ q * bucketSpan w ≤ now ∧ since s = q * bucketSpan w ∧
     q mod Z.of_nat (length (buckets w)) = i ∧ events s = in_span w q h ∧
     ∀ t n, (t, n) ∈ h → slot_of w t = i → span_no w t = q ∨ ¬ live w now t).

Definition window_ok (w : slidingWindow) (now : Time) (h : list (Time * Z)) : Prop :=
  regular w ∧ in_range now ∧ (∀ t n, (t, n) ∈ h → 0 ≤ t ≤ now) ∧
  ∀ i s, buckets w !! i = Some s → slot_ok w now h (Z.of_nat i) s.

Lemma span_start_bounds w t : 0 < bucketSpan w → span_no w t * bucketSpan w ≤ t < (span_no w t + 1) * bucketSpan w.
Proof. intros Hs. unfold span_no. pose proof (Z.div_mod t (bucketSpan w)). pose proof (Z.mod_pos_bound t (bucketSpan w)). lia. Qed.

Lemma bucketIndex_eq w t : regular w → in_range t → bucketIndex w t = Some (slot_of w t).
Proof.
  intros [Hs Hb _] Ht. unfold bucketIndex, slot_of, span_no, in_range in *.
  rewrite (proj2 (Z.eqb_neq _ _)) by lia.
  rewrite wrap64_id by (unfold in_int64, min_int64; lia).
  rewrite Z.quot_div_nonneg by lia. rewrite Z.rem_mod_nonneg by (try apply Z.div_pos; lia).
  pose proof (Z.mod_pos_bound (t / bucketSpan w) (Z.of_nat (length (buckets w)))).
  by rewrite (proj2 (Z.ltb_ge _ _)) by lia.
Qed.

Lemma bucketStart_eq w t : regular w → in_range t → bucketStart w t = span_no w t * bucketSpan w.
Proof.
  intros [Hs Hb _] Ht. pose proof (span_start_bounds w t Hs). unfold bucketStart, in_range in *.
  rewrite (wrap64_id t) by (unfold in_int64, min_int64; lia).
  rewrite Z.quot_div_nonneg by lia. fold (span_no w t). apply wrap64_id.
  assert (0 ≤ span_no w t) by (unfold span_no; apply Z.div_pos; lia).
  unfold in_int64, min_int64. nia.
Qed.

Lemma Sub_in_range now s : in_range now → in_range s → s ≤ now → Time.Sub now s = now - s.
Proof. unfold in_range, Time.Sub, min_int64, max_int64. lia. Qed.

(** Dead events stay dead as time passes. *)
Lemma live_mono w now now' t : now ≤ now' → live w now' t → live w now t.
Proof. unfold live. lia. Qed.

Lemma since_not_zero w q : 0 < bucketSpan w → 0 ≤ q → Time.IsZero (q * bucketSpan w) = false.
Proof. intros. unfold Time.IsZero, Time.zero. apply Z.eqb_neq. nia. Qed.

(** A slot's share of the sum is that of its live events. *)
Lemma in_span_live w now q i h :
  q mod Z.of_nat (length (buckets w)) = i → now - q * bucketSpan w < window w →
  (∀ t n, (t, n) ∈ h → slot_of w t = i → span_no w t = q ∨ ¬ live w now t) →
  in_span w q h = live_in w now i h.
Proof.
  intros Hq Hlive Hh. induction h as [|[t n] h IH]; [done|]. simpl.
  rewrite IH by (intros; eapply Hh; [by right|done]). f_equal.
  specialize (Hh t n ltac:(left)). unfold slot_of, live in *.
  repeat case_decide; try done.
  - exfalso. subst q. tauto.
  - exfalso. destruct Hh; tauto.
Qed.

Lemma dead_live_in w now i h :
  (∀ t n, (t, n) ∈ h → slot_of w t = i → ¬ live w now t) → live_in w now i h = 0.
Proof.
  intros Hh. induction h as [|[t n] h IH]; [done|]. simpl.
  rewrite IH by (intros; eapply Hh; [by right|done]).
  rewrite decide_False; [done|]. intros [Hs Hl]. exact (Hh t n ltac:(left) Hs Hl).
Qed.

Lemma slot_ok_sum w now h i s :
  regular w → in_range now → slot_ok w now h i s → slot_sum w now s = live_in w now i h.
Proof.
  intros Hr Hn [[-> Hd]|(q & Hq & Hle & Hsince & Hmod & He & Hh)].
  - rewrite dead_live_in by done. done.
  - pose proof (span_pos _ Hr) as Hsp.
    unfold slot_sum. rewrite Hsince, since_not_zero by done.
    rewrite Sub_in_range by (unfold in_range in *; nia).
    destruct (now - q * bucketSpan w <? window w) eqn:Hl.
    + rewrite He. apply in_span_live; [done|lia|done].
    + symmetry. apply dead_live_in. intros t n Ht Hs. destruct (Hh t n Ht Hs) as [<-|]; [|done].
      unfold live. lia.
Qed.

Lemma sum_live_in w now h l k :
  (∀ i s, l !! i = Some s → slot_sum w now s = live_in w now (k + Z.of_nat i) h) →
  foldr (λ s total, slot_sum w now s + total) 0 l =
    foldr (λ i total, live_in w now i h + total) 0 (seqZ k (Z.of_nat (length l))).
Proof.
  revert k. induction l as [|s l IH]; intros k Hl; [done|]. cbn [length].
  rewrite seqZ_cons by lia. simpl. rewrite (Hl 0%nat s) by done. f_equal; [f_equal; lia|].
  rewrite (IH (Z.succ k)); [f_equal; f_equal; lia|].
  intros i s' Hs'. rewrite (Hl (S i) s') by done. f_equal. lia.
Qed.

(** Summing over the slots counts each event in its one slot. *)
Lemma live_in_total w now h :
  (0 < length (buckets w))%nat →
  foldr (λ i total, live_in w now i h + total) 0 (seqZ 0 (Z.of_nat (length (buckets w)))) =
    live_total w now h.
Proof.
  intros Hb. set (B := Z.of_nat (length (buckets w))).
  assert (∀ (f g : Z → Z) l, foldr (λ i total, f i + g i + total) 0 l =
    foldr (λ i total, f i + total) 0 l + foldr (λ i total, g i + total) 0 l) as Hplus.
  { intros f g l. induction l; simpl; lia. }
  induction h as [|[t n] h IH].
  - simpl. induction (seqZ 0 B); simpl; lia.
  - simpl. rewrite Hplus, IH. f_equal.
    assert (0 ≤ slot_of w t < B) as Hs by (apply Z.mod_pos_bound; lia).
    assert (∀ l, NoDup l → foldr (λ i total, (if decide (slot_of w t = i ∧ live w now t) then n else 0) + total) 0 l =
      if decide (slot_of w t ∈ l ∧ live w now t) then n else 0) as Hone.
    { clear. intros l. induction 1 as [|i l Hi _ IH]; cbn [foldr].
      - rewrite decide_False; [done|]. intros [Hin _]. by apply elem_of_nil in Hin.
      - rewrite IH. repeat case_decide; try lia; set_solver. }
    rewrite Hone by apply NoDup_seqZ. repeat case_decide; try done; exfalso.
    + tauto.
    + match goal with H : ¬ (_ ∧ _) |- _ => apply H end. split; [|done]. apply elem_of_seqZ. lia.
Qed.

Lemma window_ok_sum w now h : window_ok w now h → sum w now = live_total w now h.
Proof.
  intros (Hr & Hn & Hh & Hs). unfold sum. rewrite (sum_live_in w now h _ 0).
  - apply live_in_total, Hr.
  - intros i s Hi. simpl. by apply slot_ok_sum, Hs.
Qed.

(** The predicates depend on the shape of the window only. *)
Definition same_shape (w w' : slidingWindow) : Prop :=
  window w = window w' ∧ bucketSpan w = bucketSpan w' ∧
  length (buckets w) = length (buckets w').

Lemma slot_ok_shape w w' now h i s : same_shape w w' → slot_ok w now h i s → slot_ok w' now h i s.
Proof.
  destruct w as [x y l], w' as [x' y' l']. intros (Hx & Hy & Hl). simpl in *. subst x' y'.
  unfold slot_ok, live, slot_of, in_span, span_no. simpl. by rewrite Hl.
Qed.

Lemma regular_shape w w' : same_shape w w' → regular w → regular w'.
Proof. intros (Hx & Hy & Hl) [H1 H2 H3]. split; congruence. Qed.

Lemma live_total_shape w w' now h : same_shape w w' → live_total w now h = live_total w' now h.
Proof.
  destruct w as [x y l], w' as [x' y' l']. intros (Hx & Hy & Hl). simpl in *. subst x' y'.
  unfold live_total. induction h as [|[t n] h IH]; [done|]. simpl. rewrite IH.
  unfold live, span_no. simpl. by repeat case_decide.
Qed.

Lemma roll_slot_ok w now now' h i s :
  regular w → in_range now' → now ≤ now' →
  slot_ok w now h i s → slot_ok w now' h i (roll_slot w now' s).
Proof.
  intros Hr Hn Hle [[-> Hd]|(q & Hq & Hq' & Hsince & Hmod & He & Hh)].
  - left. split; [done|]. intros t n Ht Hs Hl. apply (Hd t n Ht Hs). by eapply live_mono.
  - pose proof (span_pos _ Hr) as Hsp. unfold roll_slot.
    rewrite Hsince, since_not_zero by done. rewrite Sub_in_range by (unfold in_range in *; nia).
    destruct (window w <=? now' - q * bucketSpan w) eqn:Hdead.
    + left. split; [done|]. intros t n Ht Hs Hl. destruct (Hh t n Ht Hs) as [Heq|Hnl].
      * unfold live in Hl. rewrite Heq in Hl. lia.
      * apply Hnl. by eapply live_mono.
    + right. exists q. split_and!; [done|lia|done|done|done|].
      intros t n Ht Hs. destruct (Hh t n Ht Hs) as [|Hnl]; [by left|right].
      intros Hl. apply Hnl. by eapply live_mono.
Qed.

Lemma roll_ok w now now' h :
  window_ok w now h → in_range now' → now ≤ now' →
  same_shape w (roll now' w) ∧ window_ok (roll now' w) now' h.
Proof.
  intros (Hr & Hn & Hh & Hs) Hn' Hle.
  assert (same_shape w (roll now' w)) as Hsh by (split_and!; simpl; rewrite ?length_fmap; done).
  split; [done|]. split_and!; [by eapply regular_shape|done| |].
  - intros t n Ht. destruct (Hh t n Ht). lia.
  - intros i s Hi. simpl in Hi. rewrite list_lookup_fmap in Hi.
    destruct (buckets w !! i) as [s0|] eqn:Hs0; [|done]. simplify_eq/=.
    eapply slot_ok_shape; [exact Hsh|]. by apply (roll_slot_ok w now); [..|apply Hs].
Qed.

(** The spans that share a slot are a whole window apart. *)
Lemma same_slot_dead w now q :
  regular w → 0 ≤ q → q * bucketSpan w ≤ now →
  q mod Z.of_nat (length (buckets w)) = slot_of w now → q ≠ span_no w now →
  window w ≤ now - q * bucketSpan w.
Proof.
  intros [Hs Hb Hw] Hq Hle Hm Hne. unfold slot_of in Hm.
  pose proof (span_start_bounds w now Hs) as Hn.
  set (B := Z.of_nat (length (buckets w))) in *. set (q' := span_no w now) in *.
  assert (q ≤ q') by nia. pose proof (Z.div_mod q B ltac:(lia)). pose proof (Z.div_mod q' B ltac:(lia)).
  assert (q / B < q' / B) by nia. nia.
Qed.

Lemma now_live w now : regular w → live w now now.
Proof.
  intros [Hs Hb Hw]. unfold live. pose proof (span_start_bounds w now Hs). nia.
Qed.

Lemma no_events_in_span w q h :
  (∀ t n, (t, n) ∈ h → span_no w t ≠ q) → in_span w q h = 0.
Proof.
  intros Hh. induction h as [|[t n] h IH]; [done|]. simpl.
  rewrite IH by (intros; eapply Hh; by right). rewrite decide_False; [done|]. apply (Hh t n). left.
Qed.

(** The slot the new event goes into. *)
Lemma current_slot_ok w now n h s :
  regular w → in_range now → slot_ok w now h (slot_of w now) s →
  let s' := if decide (since s ≠ span_no w now * bucketSpan w)
            then {| events := 0; since := span_no w now * bucketSpan w |} else s in
  slot_ok w now ((now, n) :: h) (slot_of w now) {| events := events s' + n; since := since s' |}.
Proof.
  intros Hr Hn Hok. pose proof (span_pos _ Hr) as Hsp. pose proof (now_live w now Hr) as Hlive.
  pose proof (span_start_bounds w now Hsp) as Hb.
  assert (0 ≤ span_no w now) as H0 by (unfold in_range, span_no in *; apply Z.div_pos; lia).
  assert (∀ t m, (t, m) ∈ h → slot_of w t = slot_of w now → span_no w t = span_no w now ∨ ¬ live w now t) as Hh.
  { intros t m Ht Hs. destruct Hok as [[_ Hd]|(q & Hq & Hle & _ & Hmod & _ & Hh)]; [right; by eapply Hd|].
    destruct (Hh t m Ht Hs) as [Heq|]; [|by right]. destruct (decide (q = span_no w now)) as [->|Hne]; [by left|].
    right. pose proof (same_slot_dead w now q Hr Hq Hle Hmod Hne). unfold live. rewrite Heq. lia. }
  assert (events (if decide (since s ≠ span_no w now * bucketSpan w)
            then {| events := 0; since := span_no w now * bucketSpan w |} else s) = in_span w (span_no w now) h) as Hev.
  { destruct Hok as [[-> Hd]|(q & Hq & Hle & Hsince & Hmod & He & Hqh)].
    - rewrite decide_True by (simpl; unfold Time.zero; nia). symmetry. apply no_events_in_span.
      intros t m Ht Hs. apply (Hd t m Ht); unfold slot_of, live in *; by rewrite Hs.
    - rewrite Hsince. destruct (decide (q = span_no w now)) as [->|Hne].
      + by rewrite decide_False by tauto.
      + rewrite decide_True by nia. symmetry. apply no_events_in_span. intros t m Ht Hs.
        destruct (Hqh t m Ht) as [|Hnl]; [unfold slot_of; by rewrite Hs|congruence|].
        apply Hnl. unfold live in *. by rewrite Hs. }
  right. exists (span_no w now). split_and!; [done|lia| |done| |].
  - simpl. by case_decide as Hd; [|destruct (decide (since s = span_no w now * bucketSpan w))].
  - cbn [events]. rewrite Hev. unfold in_span. cbn [foldr]. rewrite decide_True by done. lia.
  - intros t m [[= -> ->]|Ht]%elem_of_cons; [by left|by apply (Hh t m)].
Qed.

Lemma add_ok w now now' n h :
  window_ok w now h → in_range now' → now ≤ now' →
  ∃ w' total, add now' n w = Some (w', total) ∧ same_shape w w' ∧
    window_ok w' now' ((now', n) :: h) ∧ total = live_total w now' ((now', n) :: h).
Proof.
  intros Hok Hn' Hle. destruct (roll_ok w now now' h Hok Hn' Hle) as [Hsh (Hr & _ & Hh & Hs)].
  unfold add. set (w1 := roll now' w) in *.
  rewrite bucketIndex_eq, bucketStart_eq by done.
  assert (0 ≤ slot_of w1 now' < Z.of_nat (length (buckets w1))) as Hslot
    by (apply Z.mod_pos_bound; pose proof (some_bucket _ Hr); lia).
  destruct (lookup_lt_is_Some_2 (buckets w1) (Z.to_nat (slot_of w1 now'))) as [s Hlk]; [lia|].
  rewrite Hlk. set (s' := if decide _ then _ else _).
  set (w2 := set_buckets _ w1).
  assert (same_shape w1 w2) as Hsh2 by (split_and!; simpl; rewrite ?length_insert; done).
  assert (window_ok w2 now' ((now', n) :: h)) as Hok2.
  { split_and!; [by eapply regular_shape|done| |].
    - intros t m [[= -> ->]|Ht]%elem_of_cons; [unfold in_range in Hn'; lia|by apply (Hh t m)].
    - intros i si Hi. apply (slot_ok_shape w1 w2); [done|]. unfold w2 in Hi. clearbody w1.
      cbn [buckets set_buckets] in Hi.
      destruct (decide (Z.to_nat (slot_of w1 now') = i)) as [<-|Hne].
      + rewrite list_lookup_insert_eq in Hi by lia. injection Hi as <-. rewrite Z2Nat.id by lia.
        apply current_slot_ok; [done|done|]. specialize (Hs _ _ Hlk). by rewrite Z2Nat.id in Hs by lia.
      + rewrite list_lookup_insert_ne in Hi by done.
        destruct (Hs i si Hi) as [[-> Hd]|(q & Hq & Hqn & Hsince & Hmod & He & Hqh)].
        * left. split; [done|]. intros t m [[= -> ->]|Ht]%elem_of_cons; [lia|by apply (Hd t m)].
        * right. exists q. split_and!; try done.
          -- unfold in_span. cbn [foldr]. rewrite decide_False; [exact He|].
             intros Hq'. apply Hne. unfold slot_of. rewrite Hq', Hmod. lia.
          -- intros t m [[= -> ->]|Ht]%elem_of_cons; [lia|by apply (Hqh t m)]. }
  exists w2, (sum w2 now'). split_and!; [done| |done|].
  - destruct Hsh as (? & ? & ?), Hsh2 as (? & ? & ?). split_and!; congruence.
  - rewrite (window_ok_sum _ _ _ Hok2). apply live_total_shape.
    destruct Hsh as (? & ? & ?), Hsh2 as (? & ? & ?). split_and!; congruence.
Qed.

Fixpoint adds (w : slidingWindow) (evs : list (Time * Z)) : option slidingWindow :=
  match evs with
  | [] => Some w
  | (t, n) :: evs => match add t n w with Some (w, _) => adds w evs | None => None end
  end.

Lemma adds_ok w now h evs :
  window_ok w now h → StronglySorted Z.le (now :: evs.*1) → Forall (in_range ∘ fst) evs →
  ∃ w' now', adds w evs = Some w' ∧ same_shape w w' ∧ window_ok w' now' (reverse evs ++ h) ∧
    (∀ t, Forall (λ u, u ≤ t) (now :: evs.*1) → now' ≤ t).
Proof.
  revert w now h. induction evs as [|[t n] evs IH]; intros w now h Hok Hsort Hr.
  { exists w, now. split_and!; [done|by split_and!|done|]. intros t Ht. by apply Forall_cons in Ht as [? _]. }
  apply StronglySorted_inv in Hsort as [Hsort Hall]. simpl in Hsort, Hall.
  apply Forall_cons in Hall as [Hle _]. apply Forall_cons in Hr as [Hrt Hr]. simpl.
  destruct (add_ok w now t n h Hok Hrt Hle) as (w1 & total & -> & Hsh1 & Hok1 & _).
  destruct (IH w1 t _ Hok1 Hsort Hr) as (w2 & now' & -> & Hsh2 & Hok2 & Hlast).
  exists w2, now'. split_and!; [done| | |].
  - destruct Hsh1 as (? & ? & ?), Hsh2 as (? & ? & ?). split_and!; congruence.
  - rewrite reverse_cons, <- (assoc_L (++)). exact Hok2.
  - intros u Hu. apply Hlast. by apply Forall_cons in Hu as [_ Hu].
Qed.

Lemma new_window_ok W B :
  1 ≤ B → 0 < W → (B | W) → window_ok (newSlidingWindow W B) 0 [].
Proof.
  intros HB HW [s Hs]. unfold newSlidingWindow.
  rewrite (proj2 (Z.ltb_ge B 1)), (proj2 (Z.leb_gt W 0)) by lia.
  assert (Z.quot W B = s) as Hq by (rewrite Hs, Z.quot_mul by lia; done). rewrite Hq.
  split_and!.
  - split; simpl; rewrite ?length_replicate; nia.
  - unfold in_range, max_int64. lia.
  - intros t n Ht. by apply elem_of_nil in Ht.
  - intros i x Hx. apply lookup_replicate in Hx as [-> _]. left. split; [done|].
    intros t n Ht. by apply elem_of_nil in Ht.
Qed.

(** Events less than [d] before [now]. *)
Definition recent (now : Time) (d : Duration) (h : list (Time * Z)) : Z :=
  foldr (λ '(t, n) total, (if decide (now - t < d) then n else 0) + total) 0 h.

Lemma live_total_between w now h :
  regular w → (∀ t n, (t, n) ∈ h → 0 ≤ n) →
  recent now (window w - bucketSpan w + 1) h ≤ live_total w now h ≤ recent now (window w) h.
Proof.
  intros Hr Hn. induction h as [|[t n] h IH]; [simpl; lia|]. simpl.
  specialize (IH ltac:(intros t' n' Ht'; eapply Hn; by right)).
  pose proof (Hn t n ltac:(left)). pose proof (span_start_bounds w t (span_pos _ Hr)).
  unfold live. repeat case_decide; lia.
Qed.

(** The sliding window counts what it says. With bucket spans that divide
    the window and a clock that does not go back, the count [add] returns is
    exactly the events whose bucket span began less than a window ago; so it
    includes every event of the last window less one span, and none older
    than the window. *)
Theorem window_counts W B evs t n :
  1 ≤ B → 0 < W → (B | W) →
  StronglySorted Z.le (0 :: (evs ++ [(t, n)]).*1) → Forall (in_range ∘ fst) (evs ++ [(t, n)]) →
  Forall (λ e, 0 ≤ snd e) (evs ++ [(t, n)]) →
  let h := (t, n) :: reverse evs in
  ∃ w w' total, adds (newSlidingWindow W B) evs = Some w ∧ add t n w = Some (w', total) ∧
    total = live_total (newSlidingWindow W B) t h ∧
    recent t (W - W / B + 1) h ≤ total ≤ recent t W h.
Proof.
  intros HB HW Hdiv Hsort Hr Hn h. pose proof (new_window_ok W B HB HW Hdiv) as Hok.
  rewrite fmap_app in Hsort. simpl in Hsort.
  change (StronglySorted Z.le ((0 :: evs.*1) ++ [t])) in Hsort.
  apply StronglySorted_app in Hsort as (Hc & Hs1 & _).
  apply Forall_app in Hr as [Hr1 Hr2]. apply Forall_cons in Hr2 as [Hrt _].
  destruct (adds_ok _ _ _ evs Hok Hs1 Hr1) as (w & now & Hw & Hsh & Hok' & Hlast).
  rewrite app_nil_r in Hok'.
  destruct (add_ok w now t n (reverse evs) Hok' Hrt) as (w' & total & Ha & _ & _ & Ht).
  { apply Hlast, Forall_forall. intros u Hu. apply Hc; [done|left]. }
  exists w, w', total. split; [done|]. split; [done|].
  assert (same_shape w (newSlidingWindow W B)) as Hsh'
    by (destruct Hsh as (? & ? & ?); split_and!; congruence).
  rewrite (live_total_shape _ _ _ _ Hsh') in Ht. split; [exact Ht|]. fold h in Ht. rewrite Ht.
  destruct Hok as (Hreg & _).
  pose proof (live_total_between (newSlidingWindow W B) t h Hreg) as Hb.
  assert (window (newSlidingWindow W B) = W ∧ bucketSpan (newSlidingWindow W B) = W / B) as [Ew Es].
  { unfold newSlidingWindow. rewrite (proj2 (Z.ltb_ge B 1)), (proj2 (Z.leb_gt W 0)) by lia.
    simpl. rewrite Z.quot_div_nonneg by lia. done. }
  rewrite Ew, Es in Hb. apply Hb. intros u m Hu.
  rewrite Forall_forall in Hn. apply (Hn (u, m)). apply elem_of_app.
  apply elem_of_cons in Hu as [[= -> ->]|Hu]; [right; left|left]. by rewrite elem_of_reverse in Hu.
Qed.

Lemma window_counts_witness :
  let evs := [(3, 1); (7, 2); (12, 1)] in
  ∃ w w' total, adds (newSlidingWindow 10 5) evs = Some w ∧ add 14 1 w = Some (w', total) ∧
    total = 4 ∧ recent 14 (10 - 10 / 5 + 1) ((14, 1) :: reverse evs) ≤ total.
Proof.
  intros evs. destruct (window_counts 10 5 evs 14 1) as (w & w' & total & Hw & Ha & Ht & Hb).
  - lia.
  - lia.
  - exists 2. reflexivity.
  - unfold evs. simpl. repeat constructor; lia.
  - unfold evs. repeat constructor; unfold in_range, max_int64; simpl; lia.
  - unfold evs. repeat constructor; simpl; lia.
  - exists w, w', total. split_and!; [exact Hw|exact Ha| |apply Hb]. rewrite Ht. vm_compute. reflexivity.
Defined.
End Window.

Module Collectors.
Import Window.

Notation Signal := string (only parsing).
Definition SignalAuthFailRate : Signal := "auth_fail_rate".
Definition SignalSubscriptionIDMisses : Signal := "subscription_id_misses".
Definition SignalPlanChurnRate : Signal := "plan_churn_rate".
Definition AuditAction : string := "fraud.signal.detected".

Record AuditEvent := {
  Action : string;
  EventSignal : Signal;
  TenantHash : string;
  EventCount : Z;
  EventThreshold : Z;
  EventWindow : Duration;
  DetectedAt : Time;
}.

Record SignalConfig := {
  CfgWindow : Duration;
  CfgBuckets : Z;
  Threshold : Z;
  Cooldown : Duration;
}.

Record Config := {
  Signals : option (gmap Signal SignalConfig);
  HashSecret : string;
  IdleTTL : Duration;
}.

Definition default_signals : gmap Signal SignalConfig :=
  list_to_map [
    (SignalAuthFailRate,
      {| CfgWindow := Time.Minute; CfgBuckets := 12; Threshold := 20; Cooldown := Time.Minute |});
    (SignalSubscriptionIDMisses,
      {| CfgWindow := 5 * Time.Minute; CfgBuckets := 10; Threshold := 30;
         Cooldown := 2 * Time.Minute |});
    (SignalPlanChurnRate,
      {| CfgWindow := Time.Hour; CfgBuckets := 12; Threshold := 6;
         Cooldown := 10 * Time.Minute |})].

Definition DefaultConfig : Config :=
  {| Signals := Some default_signals; HashSecret := "stellabill-fraud-default"; IdleTTL := 0 |}.

Record signalState := {
  swindow : slidingWindow;
  lastEmit : Time;
  lastActive : Time;
}.

Notation tenantState := (gmap Signal signalState) (only parsing).

Record Collector := {
  signals : gmap Signal SignalConfig;
  hasEmitter : bool;
  secret : string;
  idleTTL : Duration;
  tenants : gmap string tenantState;
}.

(** The longest window; the order of the map does not matter. *)
Definition longest_window (m : gmap Signal SignalConfig) : Duration :=
  map_fold (λ _ sc idle, Z.max (CfgWindow sc) idle) 0 m.

Definition NewCollector (cfg : Config) (hasEmitter : bool) : Collector :=
  let sigs := default default_signals (Signals cfg) in
  let idle := if IdleTTL cfg <=? 0 then
                let idle := longest_window sigs in
                if idle <=? 0 then Time.Minute else idle
              else IdleTTL cfg in
  {| signals := sigs; hasEmitter := hasEmitter;
     secret := if decide (HashSecret cfg = ""%string) then "stellabill-fraud-default"
               else HashSecret cfg;
     idleTTL := idle; tenants := ∅ |}.

Definition set_tenants (m : gmap string tenantState) (c : Collector) : Collector :=
  {| signals := signals c; hasEmitter := hasEmitter c; secret := secret c; idleTTL := idleTTL c;
     tenants := m |}.

Section collector.
(** [hmac secret text]: the hex-encoded HMAC-SHA256. *)
Context `{GoRuntime} (hmac : string → string → string).

Definition hashTenant (c : Collector) (tenant : string) : string := hmac (secret c) tenant.

Definition tenantStateFor (tenant : string) (c : Collector) : tenantState :=
  default ∅ (tenants c !! tenant).

Definition signal_state (c : Collector) (tenant : string) (signal : Signal) : option signalState :=
  tenantStateFor tenant c !! signal.

(** [None] is the panic of a window without a span. The event is what the
    emitter receives; the call returns true exactly when there is one. *)
Definition observeN (now : Time) (tenant : string) (signal : Signal) (n : Z) (c : Collector)
    : option (Collector * option AuditEvent) :=
  if bool_decide (tenant = "") || (n <=? 0) then Some (c, None)
  else match signals c !! signal with
  | None => Some (c, None)
  | Some sc =>
      let ts := tenantStateFor tenant c in
      let st := default {| swindow := newSlidingWindow (CfgWindow sc) (CfgBuckets sc);
                           lastEmit := Time.zero; lastActive := Time.zero |} (ts !! signal) in
      match add now n (swindow st) with
      | None => None
      | Some (w, total) =>
          let store emit :=
            set_tenants (<[tenant := <[signal := {| swindow := w; lastEmit := emit;
                                                    lastActive := now |}]> ts]> (tenants c)) c in
          if (Threshold sc <=? 0) || (total <? Threshold sc) then Some (store (lastEmit st), None)
          else if negb (Time.IsZero (lastEmit st)) && (0 <? Cooldown sc) &&
                  (Time.Sub now (lastEmit st) <? Cooldown sc)
          then Some (store (lastEmit st), None)
          else if hasEmitter c then
            Some (store now,
                  Some {| Action := AuditAction; EventSignal := signal;
                          TenantHash := hashTenant c tenant; EventCount := total;
                          EventThreshold := Threshold sc; EventWindow := CfgWindow sc;
                          DetectedAt := now |})
          else Some (store now, None)
      end
  end.

Definition Observe (now : Time) (tenant : string) (signal : Signal) := observeN now tenant signal 1.

Definition Count (now : Time) (tenant : string) (signal : Signal) (c : Collector) : Collector * Z :=
  if decide (tenant = ""%string) then (c, 0)
  else match signals c !! signal, tenants c !! tenant with
  | Some _, Some ts =>
      match ts !! signal with
      | None => (c, 0)
      | Some st =>
          let '(w, n) := count now (swindow st) in
          (set_tenants (<[tenant := <[signal := {| swindow := w; lastEmit := lastEmit st;
                                                   lastActive := lastActive st |}]> ts]>
                          (tenants c)) c, n)
      end
  | _, _ => (c, 0)
  end.

(** The inner loop of [EvictIdle] over the signals left to visit; [empty]
    rolls the windows it looks at. *)
Fixpoint idle_scan (now : Time) (ttl : Duration) (l : list (Signal * signalState))
    (ts : tenantState) : tenantState * bool :=
  match l with
  | [] => (ts, true)
  | (sg, st) :: l =>
      if Time.Sub now (lastActive st) <? ttl then (ts, false)
      else
        let '(w, e) := empty now (swindow st) in
        let ts := <[sg := {| swindow := w; lastEmit := lastEmit st;
                             lastActive := lastActive st |}]> ts in
        if e then idle_scan now ttl l ts else (ts, false)
  end.

Fixpoint evict_loop (now : Time) (l : list (string * tenantState)) (evicted : Z) (c : Collector)
    : Collector * Z :=
  match l with
  | [] => (c, evicted)
  | (tenant, ts) :: l =>
      match idle_scan now (idleTTL c) (map_range ts) ts with
      | (_, true) => evict_loop now l (evicted + 1) (set_tenants (delete tenant (tenants c)) c)
      | (ts, false) => evict_loop now l evicted (set_tenants (<[tenant := ts]> (tenants c)) c)
      end
  end.

Definition EvictIdle (now : Time) (c : Collector) : Collector * Z :=
  evict_loop now (map_range (tenants c)) 0 c.

(** ** Cooldown *)

(** A run of observations: each with its clock reading, tenant, signal and
    count. *)
Record observation := { o_now : Time; o_tenant : string; o_signal : Signal; o_n : Z }.

Fixpoint observe_all (c : Collector) (os : list observation) : option (list (string * AuditEvent)) :=
  match os with
  | [] => Some []
  | o :: os =>
      match observeN (o_now o) (o_tenant o) (o_signal o) (o_n o) c with
      | None => None
      | Some (c, e) =>
          match observe_all c os with
          | None => None
          | Some es => Some (match e with Some e => (o_tenant o, e) :: es | None => es end)
          end
      end
  end.

(** The instants at which events of one tenant and signal were emitted. *)
Fixpoint emissions (tenant : string) (signal : Signal) (es : list (string * AuditEvent)) : list Time :=
  match es with
  | [] => []
  | (t, e) :: es =>
      if decide (t = tenant ∧ EventSignal e = signal)
      then DetectedAt e :: emissions tenant signal es else emissions tenant signal es
  end.

Definition last_emit (c : Collector) (tenant : string) (signal : Signal) : Time :=
  default Time.zero (lastEmit <$> signal_state c tenant signal).

Definition cooled (d : Duration) (t1 t2 : Time) : Prop := d ≤ Time.Sub t2 t1.

Lemma last_emit_store tn sg w e a c tn' sg' :
  last_emit (set_tenants (<[tn := <[sg := {| swindow := w; lastEmit := e; lastActive := a |}]>
               (tenantStateFor tn c)]> (tenants c)) c) tn' sg' =
    if decide (tn = tn' ∧ sg = sg') then e else last_emit c tn' sg'.
Proof.
  unfold last_emit, signal_state, tenantStateFor. simpl.
  destruct (decide (tn = tn')) as [<-|Hne].
  - rewrite lookup_insert_eq. simpl. destruct (decide (sg = sg')) as [<-|Hne'].
    + rewrite lookup_insert_eq. by rewrite decide_True.
    + rewrite lookup_insert_ne by done. by rewrite decide_False by tauto.
  - rewrite lookup_insert_ne by done. by rewrite decide_False by tauto.
Qed.

(** One observation: the state of other pairs is untouched; an emission
    comes after the cooldown and is remembered. *)
Lemma observeN_emit now tn sg n c c' e tn' sg' sc :
  signals c !! sg' = Some sc → hasEmitter c = true → 0 < Cooldown sc →
  observeN now tn sg n c = Some (c', e) →
  signals c' = signals c ∧ hasEmitter c' = true ∧
  match e with
  | Some ev =>
      EventSignal ev = sg ∧ DetectedAt ev = now ∧
      if decide (tn = tn' ∧ sg = sg')
      then (Time.IsZero (last_emit c tn' sg') = false → cooled (Cooldown sc) (last_emit c tn' sg') now) ∧
           last_emit c' tn' sg' = now
      else last_emit c' tn' sg' = last_emit c tn' sg'
  | None => last_emit c' tn' sg' = last_emit c tn' sg'
  end.
Proof.
  intros Hsc He Hcd. unfold observeN. case_match eqn:Hg; [intros [= <- <-]; done|].
  destruct (signals c !! sg) as [sc0|] eqn:Hsg; [|intros [= <- <-]; done].
  set (st := default _ (tenantStateFor tn c !! sg)).
  assert (lastEmit st = last_emit c tn sg) as Hst.
  { unfold st, last_emit, signal_state. by destruct (tenantStateFor tn c !! sg). }
  destruct (add now n (swindow st)) as [[w total]|]; [|done].
  case_match eqn:Hthr.
  { intros [= <- <-]. split_and!; [done|done|]. rewrite last_emit_store.
    destruct (decide (tn = tn' ∧ sg = sg')) as [[<- <-]|]; [exact Hst|reflexivity]. }
  case_match eqn:Hcool.
  { intros [= <- <-]. split_and!; [done|done|]. rewrite last_emit_store.
    destruct (decide (tn = tn' ∧ sg = sg')) as [[<- <-]|]; [exact Hst|reflexivity]. }
  rewrite He. intros [= <- <-]. split_and!; [done|done|done|done|].
  rewrite last_emit_store. destruct (decide (tn = tn' ∧ sg = sg')) as [[<- <-]|]; [|reflexivity].
  split; [|done]. intros Hz. unfold cooled. rewrite Hst, Hz in Hcool.
  replace sc0 with sc in * by congruence. simpl in Hcool.
  rewrite (proj2 (Z.ltb_lt _ _) Hcd) in Hcool. simpl in Hcool. lia.
Qed.

Lemma emissions_from c os es tn sg sc :
  signals c !! sg = Some sc → hasEmitter c = true → 0 < Cooldown sc →
  Forall (λ o, 0 ≤ o_now o) os → observe_all c os = Some es →
  Sorted (cooled (Cooldown sc)) (emissions tn sg es) ∧
  (Time.IsZero (last_emit c tn sg) = false →
     HdRel (cooled (Cooldown sc)) (last_emit c tn sg) (emissions tn sg es)).
Proof.
  intros Hsc He Hcd Hos. revert c es Hsc He. induction Hos as [|o os Ho _ IH]; intros c es Hsc He Hrun.
  { simpl in Hrun. simplify_eq. split; [constructor|]. intros _. constructor. }
  simpl in Hrun. destruct (observeN _ _ _ _ c) as [[c1 e]|] eqn:Hob; [|done].
  destruct (observe_all c1 os) as [es1|] eqn:Hrun1; [|done].
  destruct (observeN_emit _ _ _ _ _ _ _ tn sg sc Hsc He Hcd Hob) as (Hs1 & He1 & Hev).
  rewrite <- Hs1 in Hsc. destruct (IH c1 es1 Hsc He1 Hrun1) as [Hsorted Hhd].
  destruct e as [ev|]; injection Hrun as <-; [|by rewrite <- Hev].
  destruct Hev as (Hsg & Hat & Hev). simpl. rewrite Hsg, Hat.
  destruct (decide (o_tenant o = tn ∧ o_signal o = sg)); [|by rewrite <- Hev].
  destruct Hev as [Hgap Hlast]. rewrite Hlast in Hhd.
  assert (Time.IsZero (o_now o) = false) as Hz by (unfold Time.IsZero, Time.zero; lia).
  split; [by constructor; [|apply Hhd]|]. intros Hnz. constructor. by apply Hgap.
Qed.

(** no event storms. Whatever the observations of all tenants and
    signals, two successive events emitted for one tenant and one signal are
    at least that signal's cooldown apart. *)
Theorem emissions_spaced cfg os es tenant signal sc :
  signals (NewCollector cfg true) !! signal = Some sc → 0 < Cooldown sc →
  Forall (λ o, 0 ≤ o_now o) os → observe_all (NewCollector cfg true) os = Some es →
  Sorted (cooled (Cooldown sc)) (emissions tenant signal es).
Proof.
  intros Hsc Hcd Hos Hrun.
  destruct (emissions_from (NewCollector cfg true) os es tenant signal sc) as [Hs _]; done.
Qed.
End collector.

Definition hit (t : Time) : observation :=
  {| o_now := t * Time.Second; o_tenant := "acme"; o_signal := "plan_churn_rate"; o_n := 6 |}.

Lemma emissions_spaced_witness :
  let os := [hit 1; hit 2; hit 700; hit 701] in
  ∃ es, observe_all (λ _ t, t) (NewCollector DefaultConfig true) os = Some es ∧
    emissions "acme" "plan_churn_rate" es = [Time.Second; 700 * Time.Second] ∧
    Sorted (cooled (10 * Time.Minute)) (emissions "acme" "plan_churn_rate" es).
Proof.
  intros os.
  destruct (observe_all (λ _ t, t) (NewCollector DefaultConfig true) os) as [es|] eqn:Hes.
  - exists es. split; [reflexivity|]. split.
    + assert (Some es = observe_all (λ _ t, t) (NewCollector DefaultConfig true) os) as He by done.
      vm_compute in He. injection He as ->. vm_compute. reflexivity.
    + apply (emissions_spaced (λ _ t, t) DefaultConfig os es "acme" "plan_churn_rate"
        {| CfgWindow := Time.Hour; CfgBuckets := 12; Threshold := 6; Cooldown := 10 * Time.Minute |});
        [vm_compute; reflexivity|vm_compute; reflexivity|unfold os, hit; repeat constructor; simpl; unfold Time.Second, Time.Millisecond; lia|exact Hes].
  - exfalso. vm_compute in Hes. discriminate.
Defined.
End Collectors.
