(* ===== verification/Fees.v ===== *)
(** * Fees: proration and tax

    Models the money arithmetic of [internal/service/fees_service.go]. Amounts
    are decimals of the third-party package [shopspring/decimal]; the class
    [Decimal] states what the code relies on, through the rational number
    [val d] a decimal denotes: addition, subtraction, multiplication and
    shifts are exact, [Div] rounds to sixteen decimals, [RoundBank] rounds
    half to even. The in-memory fee history and its float trends are left
    out. *)
From stdpp Require Import base gmap strings list.
From Stdlib Require Import ZArith Lia QArith Qround Qabs Qpower Lqa.
From S2P Require Import Prelude.

#[local] Open Scope Z_scope.

(** [pow10 k], for any integer [k]. *)
Definition pow10 (k : Z) : Q := Qpower 10 k.

Class Decimal (D : Type) := {
  val : D → Q;
  NewFromInt : Z → D;
  IsNegative : D → bool;
  LessThan : D → D → bool;
  Add : D → D → D;
  Sub : D → D → D;
  Mul : D → D → D;
  Div : D → D → D;
  Shift : D → Z → D;
  Floor : D → D;
  IntPart : D → Z;
  RoundBank : D → Z → D;
}.

Class DecimalLaws (D : Type) `{Decimal D} := {
  val_int z : val (NewFromInt z) == inject_Z z;
  val_neg d : IsNegative d = true ↔ (val d < 0)%Q;
  val_lt a b : LessThan a b = true ↔ (val a < val b)%Q;
  val_add a b : val (Add a b) == val a + val b;
  val_sub a b : val (Sub a b) == val a - val b;
  val_mul a b : val (Mul a b) == val a * val b;
  val_shift d k : val (Shift d k) == val d * pow10 k;
  val_floor d : val (Floor d) == inject_Z (Qfloor (val d));
  (** [IntPart] of a whole number within [int64]. *)
  intpart_int d z : val d == inject_Z z → in_int64 z → IntPart d = z;
  (** A quotient is the nearest multiple of 10^-16. *)
  val_div a b : ~ val b == 0 →
    ∃ k : Z, val (Div a b) == inject_Z k * pow10 (-16) ∧
      (Qabs (val (Div a b) - val a / val b) <= (1 # 2) * pow10 (-16))%Q;
  (** Rounding to the nearest multiple of 10^-s, ties to the even one. *)
  val_round d s :
    ∃ k : Z, val (RoundBank d s) == inject_Z k * pow10 (- s) ∧
      (Qabs (val (RoundBank d s) - val d) <= (1 # 2) * pow10 (- s))%Q ∧
      (Qabs (val (RoundBank d s) - val d) == (1 # 2) * pow10 (- s) → Z.even k = true);
}.

(** ** Currencies *)
Definition CurrencyScale : gmap string Z :=
  list_to_map
    (((λ c, (c, 0)) <$> ["JPY"; "KRW"; "VND"; "CLP"; "GNF"; "MGA"; "PYG"; "RWF"; "UGX"; "XAF";
                         "XOF"; "XPF"]%string) ++
     ((λ c, (c, 3)) <$> ["BHD"; "IQD"; "JOD"; "KWD"; "LYD"; "OMR"; "TND"]%string)).

Definition scaleForCurrency (currency : string) : Z := default 2 (CurrencyScale !! currency).

Inductive fee_error := ErrInvalidAmount | ErrInvalidTaxRate | ErrInvalidParts.

Section fees.
Context {D : Type} `{Decimal D}.

Definition RoundMoney (amount : D) (currency : string) : D :=
  RoundBank amount (scaleForCurrency currency).

Definition ProrateFee (amount : D) (currency : string) (parts : Z) : result fee_error (list D) :=
  if IsNegative amount then Err ErrInvalidAmount
  else if parts <=? 0 then Err ErrInvalidParts
  else
    let rounded := RoundMoney amount currency in
    let scale := scaleForCurrency currency in
    let minor := Shift rounded scale in
    let partsD := NewFromInt parts in
    let base := Floor (Div minor partsD) in
    let remainder := Sub minor (Mul base partsD) in
    let remainderInt := IntPart remainder in
    Ok ((λ i, Shift (if i <? remainderInt then Add base (NewFromInt 1) else base) (- scale))
          <$> seqZ 0 parts).

Definition TaxSplit (amount : D) (currency : string) (rate : D) : result fee_error (D * D) :=
  if IsNegative amount then Err ErrInvalidAmount
  else if LessThan rate (NewFromInt 0) || LessThan (NewFromInt 1) rate then Err ErrInvalidTaxRate
  else
    let tax := RoundMoney (Mul amount rate) currency in
    Ok (tax, Sub amount tax).

(** ** Whole numbers of minor units *)
Context `{!DecimalLaws D}.

Lemma pow10_pos k : (0 < pow10 k)%Q.
Proof. apply Qpower_0_lt. reflexivity. Qed.

Lemma pow10_inv k : pow10 k * pow10 (- k) == 1.
Proof.
  unfold pow10. rewrite <- Qpower_plus by discriminate. by replace (k + - k) with 0 by lia.
Qed.

Definition e16 : positive := 10000000000000000.

Lemma pow10_m16 : pow10 (-16) == 1 # e16.
Proof. vm_compute. reflexivity. Qed.

(** The rounded quotient, in whole numbers. *)
Lemma quotient_bound (k' k : Z) (p : positive) :
  (Qabs (inject_Z k' * (1 # e16) - inject_Z k / inject_Z (Zpos p)) <= (1 # 2) * (1 # e16))%Q →
  - Zpos p ≤ 2 * (k' * Zpos p - k * Zpos e16) ≤ Zpos p.
Proof.
  rewrite Qabs_Qle_condition. unfold Qle, Qdiv, Qinv, Qmult, Qminus, Qplus, Qopp, inject_Z, e16.
  simpl. lia.
Qed.

(** Rounding the quotient to sixteen decimals does not change its integer
    part for divisors below 10^16. *)
Lemma quotient_floor (k' k p : Z) :
  0 < p ≤ Zpos e16 → - p ≤ 2 * (k' * p - k * Zpos e16) ≤ p → k' / Zpos e16 = k / p.
Proof.
  intros Hp Hk. pose proof (Z.div_mod k p ltac:(lia)) as Hd. pose proof (Z.mod_pos_bound k p ltac:(lia)) as Hm.
  set (q := k / p) in *. set (r := k mod p) in *. unfold e16 in *.
  symmetry. apply (Z.div_unique_pos k' 10000000000000000 q (k' - 10000000000000000 * q)); [|lia].
  assert (k * 10000000000000000 = p * (q * 10000000000000000) + r * 10000000000000000) by lia.
  split.
  - assert (- p ≤ 2 * p * (k' - q * 10000000000000000)) by nia. nia.
  - assert (0 < 2 * p * ((q + 1) * 10000000000000000 - k')) by nia. nia.
Qed.

Lemma RoundMoney_minor amount currency :
  (0 <= val amount)%Q →
  ∃ k, 0 ≤ k ∧ val (RoundMoney amount currency) == inject_Z k * pow10 (- scaleForCurrency currency).
Proof.
  intros Ha. unfold RoundMoney. set (s := scaleForCurrency currency).
  destruct (val_round amount s) as (k & Hk & Hd & _). exists k. split; [|done].
  apply Qabs_Qle_condition in Hd as [Hd _]. rewrite Hk in Hd.
  pose proof (pow10_pos (- s)) as Hp. set (u := pow10 (- s)) in *.
  assert (0 <= inject_Z k + (1 # 2))%Q as Hq.
  { apply Qnot_lt_le. intros Hlt. nra. }
  unfold Qle, inject_Z, Qplus in Hq. simpl in Hq. lia.
Qed.

(** The quotient and the remainder in minor units. *)
Lemma minor_division minor k p :
  val minor == inject_Z k → 0 < p ≤ Zpos e16 →
  val (Floor (Div minor (NewFromInt p))) == inject_Z (k / p) ∧
  IntPart (Sub minor (Mul (Floor (Div minor (NewFromInt p))) (NewFromInt p))) = k mod p.
Proof.
  intros Hm Hp.
  assert (val (Floor (Div minor (NewFromInt p))) == inject_Z (k / p)) as Hf.
  { destruct (val_div minor (NewFromInt p)) as (k' & Hk' & Hd).
    { rewrite val_int. unfold Qeq, inject_Z. simpl. lia. }
    rewrite val_floor, Hk'. rewrite Hk', Hm, val_int, pow10_m16 in Hd.
    destruct p as [|pp|pp]; [lia| |lia]. apply quotient_bound in Hd.
    apply (quotient_floor k' k (Zpos pp) Hp) in Hd. rewrite <- Hd, pow10_m16.
    rewrite Zdiv_Qdiv. apply inject_Z_injective. apply Qfloor_comp.
    unfold Qeq, Qdiv, Qmult, Qinv, inject_Z. simpl. lia. }
  split; [done|]. apply intpart_int.
  - rewrite val_sub, val_mul, val_int, Hm, Hf, <- inject_Z_mult.
    unfold Qminus. rewrite <- inject_Z_opp, <- inject_Z_plus. apply inject_Z_injective.
    pose proof (Z.div_mod k p ltac:(lia)). lia.
  - pose proof (Z.mod_pos_bound k p ltac:(lia)). unfold in_int64, min_int64, max_int64, e16 in *. lia.
Qed.

Definition total (l : list D) : Q := foldr (λ d q, val d + q)%Q 0%Q l.

(** The parts as numbers of minor units: the quotient, and one more for the
    first [r]. *)
Lemma parts_total (f : Z → D) q r u a n :
  (∀ i, val (f i) == inject_Z (q + if i <? r then 1 else 0) * u) → a ≤ r → 0 ≤ n →
  total (f <$> seqZ a n) == inject_Z (q * n + Z.min n (r - a)) * u.
Proof.
  intros Hf Ha Hn. revert a Ha. apply (natlike_ind (λ n, ∀ a, a ≤ r →
    total (f <$> seqZ a n) == inject_Z (q * n + Z.min n (r - a)) * u)); [..|done].
  - intros a Ha. rewrite seqZ_nil by lia. simpl. replace (q * 0 + Z.min 0 (r - a)) with 0 by lia.
    unfold inject_Z. ring.
  - clear n Hn. intros n Hn IH a Ha. rewrite seqZ_cons by lia. simpl. rewrite Hf.
    replace (Z.pred (Z.succ n)) with n by lia.
    destruct (decide (Z.succ a ≤ r)) as [Hle|Hgt].
    + rewrite (IH (Z.succ a)) by done. rewrite (proj2 (Z.ltb_lt a r)) by lia.
      rewrite <- Qmult_plus_distr_l, <- inject_Z_plus. f_equiv. apply inject_Z_injective. lia.
    + assert (a = r) as -> by lia. rewrite Z.ltb_irrefl.
      assert (∀ m b, 0 ≤ m → r ≤ b → total (f <$> seqZ b m) == inject_Z (q * m) * u) as Hrest.
      { clear IH. intros m b Hm. revert b. apply (natlike_ind (λ m, ∀ b, r ≤ b →
          total (f <$> seqZ b m) == inject_Z (q * m) * u)); [..|done].
        - intros b _. rewrite seqZ_nil by lia. simpl. replace (q * 0) with 0 by lia.
          unfold inject_Z. ring.
        - intros m' Hm' IH b Hb. rewrite seqZ_cons by lia. simpl. rewrite Hf.
          replace (Z.pred (Z.succ m')) with m' by lia. rewrite IH by lia.
          rewrite (proj2 (Z.ltb_ge b r)) by lia.
          rewrite <- Qmult_plus_distr_l, <- inject_Z_plus. f_equiv. apply inject_Z_injective. lia. }
      rewrite Hrest by lia. rewrite <- Qmult_plus_distr_l, <- inject_Z_plus. f_equiv.
      apply inject_Z_injective. lia.
Qed.

(** Proration loses nothing. A non-negative amount split into up to 10^16
    parts gives that many parts, each a whole number of minor units that
    differs from the others by at most one, the larger ones first, and they
    add up to exactly the amount rounded to the currency. *)
Theorem ProrateFee_exact amount currency parts :
  IsNegative amount = false → 0 < parts ≤ Zpos e16 →
  ∃ l k, ProrateFee amount currency parts = Ok l ∧ Z.of_nat (length l) = parts ∧ 0 ≤ k ∧
    val (RoundMoney amount currency) == inject_Z k * pow10 (- scaleForCurrency currency) ∧
    total l == val (RoundMoney amount currency) ∧
    ∀ i d, l !! i = Some d →
      val d == inject_Z (k / parts + if Z.of_nat i <? k mod parts then 1 else 0) *
               pow10 (- scaleForCurrency currency).
Proof.
  intros Hneg Hp. set (s := scaleForCurrency currency).
  assert (0 <= val amount)%Q as Ha.
  { apply Qnot_lt_le. intros Hlt%val_neg. congruence. }
  destruct (RoundMoney_minor amount currency Ha) as (k & Hk & Hround). fold s in Hround.
  assert (val (Shift (RoundMoney amount currency) s) == inject_Z k) as Hminor.
  { rewrite val_shift, Hround, <- Qmult_assoc, (Qmult_comm (pow10 (- s))), pow10_inv. ring. }
  destruct (minor_division _ k parts Hminor Hp) as [Hbase Hrem].
  unfold ProrateFee. rewrite Hneg, (proj2 (Z.leb_gt parts 0)) by lia. fold s. rewrite Hrem.
  set (base := Floor _) in *.
  set (f := λ i, Shift (if i <? k mod parts then Add base (NewFromInt 1) else base) (- s)).
  assert (∀ i, val (f i) == inject_Z (k / parts + if i <? k mod parts then 1 else 0) * pow10 (- s)) as Hf.
  { intros i. unfold f. rewrite val_shift. f_equiv. destruct (i <? k mod parts).
    - rewrite val_add, val_int, Hbase. by rewrite inject_Z_plus.
    - rewrite Hbase. apply inject_Z_injective. lia. }
  exists (f <$> seqZ 0 parts), k. split_and!; [done| |done|done| |].
  - rewrite length_fmap, length_seqZ. lia.
  - pose proof (Z.mod_pos_bound k parts ltac:(lia)) as Hm. pose proof (Z.div_mod k parts ltac:(lia)) as Hd.
    rewrite (parts_total f (k / parts) (k mod parts) (pow10 (- s)) 0 parts Hf) by lia.
    rewrite Hround. f_equiv. apply inject_Z_injective. lia.
  - intros i d Hi. rewrite list_lookup_fmap in Hi.
    apply fmap_Some in Hi as (j & Hj & ->). apply lookup_seqZ in Hj as [-> _]. apply Hf.
Qed.

(** tax and net add up. For a non-negative amount and a rate between 0 and
    1, [TaxSplit] succeeds, the tax is a non-negative whole number of minor
    units within half a unit of the exact tax, and tax plus net is exactly
    the amount; so the net falls below zero by at most half a minor unit. *)
Theorem TaxSplit_exact amount currency rate :
  IsNegative amount = false → LessThan rate (NewFromInt 0) = false →
  LessThan (NewFromInt 1) rate = false →
  let unit := pow10 (- scaleForCurrency currency) in
  ∃ tax net k, TaxSplit amount currency rate = Ok (tax, net) ∧
    val tax + val net == val amount ∧ 0 ≤ k ∧ val tax == inject_Z k * unit ∧
    (Qabs (val tax - val amount * val rate) <= (1 # 2) * unit)%Q ∧
    (- ((1 # 2) * unit) <= val net)%Q.
Proof.
  intros Hneg H0 H1 unit. unfold TaxSplit. rewrite Hneg, H0, H1. simpl.
  assert (0 <= val amount)%Q as Ha by (apply Qnot_lt_le; intros Hlt%val_neg; congruence).
  assert (0 <= val rate)%Q as Hr0.
  { apply Qnot_lt_le. intros Hlt. assert (LessThan rate (NewFromInt 0) = true) as Hc; [|congruence].
    apply val_lt. by rewrite val_int. }
  assert (val rate <= 1)%Q as Hr1.
  { apply Qnot_lt_le. intros Hlt. assert (LessThan (NewFromInt 1) rate = true) as Hc; [|congruence].
    apply val_lt. by rewrite val_int. }
  set (exact := Mul amount rate).
  assert (val exact == val amount * val rate) as He by apply val_mul.
  assert (0 <= val exact)%Q as Hexact by (rewrite He; nra).
  assert (val exact <= val amount)%Q as Hle by (rewrite He; nra).
  destruct (RoundMoney_minor exact currency Hexact) as (k & Hk & Hround). fold unit in Hround.
  destruct (val_round exact (scaleForCurrency currency)) as (_ & _ & Hd & _).
  fold unit (RoundMoney exact currency) in Hd.
  exists (RoundMoney exact currency), (Sub amount (RoundMoney exact currency)), k.
  pose proof Hd as Hd'. rewrite He in Hd'.
  split_and!; [done|rewrite val_sub; ring|done|done|exact Hd'|].
  rewrite val_sub. apply Qabs_Qle_condition in Hd as [_ Hd]. lra.
Qed.

(** The net can be negative. A tax of 100% on six thousandths of a
    two-decimal currency rounds up to one hundredth and leaves a net of minus
    four thousandths, in any library that obeys the laws. *)
Theorem TaxSplit_negative_net :
  ∃ tax net, TaxSplit (Shift (NewFromInt 6) (-3)) "USD" (NewFromInt 1) = Ok (tax, net) ∧
    val tax == 1 # 100 ∧ val net == - (4 # 1000).
Proof.
  set (amount := Shift (NewFromInt 6) (-3)).
  assert (val amount == 6 # 1000) as Ha by (unfold amount; rewrite val_shift, val_int; vm_compute; done).
  assert (scaleForCurrency "USD" = 2) as Hs by (vm_compute; reflexivity).
  unfold TaxSplit.
  replace (IsNegative amount) with false by
    (symmetry; apply not_true_iff_false; rewrite val_neg, Ha; vm_compute; done).
  replace (LessThan (NewFromInt 1) (NewFromInt 0)) with false by
    (symmetry; apply not_true_iff_false; rewrite val_lt, !val_int; vm_compute; done).
  replace (LessThan (NewFromInt 1) (NewFromInt 1)) with false by
    (symmetry; apply not_true_iff_false; rewrite val_lt, !val_int; vm_compute; done).
  simpl. unfold RoundMoney. rewrite Hs.
  destruct (val_round (Mul amount (NewFromInt 1)) 2) as (k & Hk & Hd & _).
  assert (pow10 (- (2)) == 1 # 100) as Hu by (vm_compute; reflexivity).
  assert (val (RoundBank (Mul amount (NewFromInt 1)) 2) == 1 # 100) as Ht.
  { rewrite Hk, Hu, val_mul, val_int, Ha in Hd. rewrite Hk, Hu.
    apply Qabs_Qle_condition in Hd. revert Hd.
    unfold Qle, Qeq, Qmult, Qminus, Qplus, Qopp, inject_Z. simpl. lia. }
  eexists _, _. split; [done|]. split; [done|]. rewrite val_sub, Ht, Ha. vm_compute. reflexivity.
Qed.
End fees.

(** ** A library that obeys the laws

    Rational numbers themselves, rounded half to even where a decimal is. *)
Module Rationals.

Definition half_even (y : Q) : Z :=
  let f := Qfloor y in
  match Qcompare (y - inject_Z f) (1 # 2) with
  | Lt => f
  | Gt => f + 1
  | Eq => if Z.even f then f else f + 1
  end.

Definition round_to (s : Z) (x : Q) : Q := inject_Z (half_even (x * pow10 s)) * pow10 (- s).

#[local] Instance rational : Decimal Q := {
  val := λ q, q;
  NewFromInt := inject_Z;
  IsNegative := λ q, negb (Qle_bool 0 q);
  LessThan := λ a b, negb (Qle_bool b a);
  Add := Qplus; Sub := Qminus; Mul := Qmult;
  Div := λ a b, round_to 16 (a / b);
  Shift := λ q k, (q * pow10 k)%Q;
  Floor := λ q, inject_Z (Qfloor q);
  IntPart := Qfloor;
  RoundBank := λ q s, round_to s q;
}.

Lemma half_even_spec y :
  (Qabs (inject_Z (half_even y) - y) <= 1 # 2)%Q ∧
  (Qabs (inject_Z (half_even y) - y) == 1 # 2 → Z.even (half_even y) = true).
Proof.
  pose proof (Qfloor_le y) as H1. pose proof (Qlt_floor y) as H2. unfold half_even.
  set (f := Qfloor y) in *. rewrite inject_Z_plus in H2. change (inject_Z 1) with 1%Q in H2.
  destruct (Qcompare_spec (y - inject_Z f) (1 # 2)) as [He|Hl|Hg].
  - destruct (Z.even f) eqn:Hev.
    + split; [apply Qabs_Qle_condition; lra|done].
    + rewrite inject_Z_plus. change (inject_Z 1) with 1%Q.
      split; [apply Qabs_Qle_condition; lra|]. intros _.
      rewrite Z.even_add, Hev. done.
  - split; [apply Qabs_Qle_condition; lra|]. intros Ha. exfalso. revert Ha.
    apply Qabs_case; intros; lra.
  - rewrite inject_Z_plus. change (inject_Z 1) with 1%Q.
    split; [apply Qabs_Qle_condition; lra|]. intros Ha. exfalso. revert Ha.
    apply Qabs_case; intros; lra.
Qed.

Lemma round_to_spec s x :
  (Qabs (round_to s x - x) <= (1 # 2) * pow10 (- s))%Q ∧
  (Qabs (round_to s x - x) == (1 # 2) * pow10 (- s) → Z.even (half_even (x * pow10 s)) = true).
Proof.
  unfold round_to. pose proof (pow10_pos (- s)) as Hp. pose proof (pow10_inv s) as Hi.
  destruct (half_even_spec (x * pow10 s)) as [Hd He].
  set (k := inject_Z (half_even (x * pow10 s))) in *.
  assert (k * pow10 (- s) - x == (k - x * pow10 s) * pow10 (- s)) as Heq.
  { transitivity (k * pow10 (- s) - x * (pow10 s * pow10 (- s)))%Q; [rewrite Hi; ring|ring]. }
  assert (Qabs (k * pow10 (- s) - x) == Qabs (k - x * pow10 s) * pow10 (- s)) as Habs.
  { rewrite Heq, Qabs_Qmult. f_equiv. apply Qabs_pos. lra. }
  rewrite Habs. split.
  - apply Qmult_le_compat_r; [done|lra].
  - intros Hq. apply He. apply (Qmult_inj_r _ _ (pow10 (- s))); [lra|done].
Qed.

#[local] Instance rational_laws : DecimalLaws Q.
Proof.
  split.
  - intros z. reflexivity.
  - intros d. cbn [IsNegative val rational].
    rewrite negb_true_iff, <- not_true_iff_false, Qle_bool_iff. split; [apply Qnot_le_lt|apply Qlt_not_le].
  - intros a b. cbn [LessThan val rational].
    rewrite negb_true_iff, <- not_true_iff_false, Qle_bool_iff. split; [apply Qnot_le_lt|apply Qlt_not_le].
  - intros a b. reflexivity.
  - intros a b. reflexivity.
  - intros a b. reflexivity.
  - intros d k. reflexivity.
  - intros d. reflexivity.
  - intros d z Hd _. cbn [IntPart val rational] in *. by rewrite Hd, Qfloor_Z.
  - intros a b _. exists (half_even (a / b * pow10 16)). split; [reflexivity|].
    exact (proj1 (round_to_spec 16 (a / b))).
  - intros d s. exists (half_even (d * pow10 s)). split; [reflexivity|]. exact (round_to_spec s d).
Qed.

Lemma ProrateFee_exact_witness :
  ∃ l k, ProrateFee (D := Q) (10 # 1) "USD" 3 = Ok l ∧ total l == 10 # 1 ∧ 0 ≤ k ∧
    (∀ d, l !! 0%nat = Some d → val d == 334 # 100) ∧ (∀ d, l !! 2%nat = Some d → val d == 333 # 100).
Proof.
  destruct (ProrateFee_exact (D := Q) (10 # 1) "USD" 3) as (l & k & Hl & _ & Hk & Hround & Ht & Hi);
    [reflexivity|unfold e16; lia|].
  assert (k = 1000) as ->.
  { assert (val (RoundMoney (D := Q) (10 # 1) "USD") == 10 # 1) as Hv by (vm_compute; reflexivity).
    assert (pow10 (- scaleForCurrency "USD") == 1 # 100) as Hu by (vm_compute; reflexivity).
    rewrite Hv, Hu in Hround. unfold Qeq, Qmult, inject_Z in Hround. simpl in Hround. lia. }
  exists l, 1000. split_and!; [exact Hl| |done| |].
  - rewrite Ht. vm_compute. reflexivity.
  - intros d Hd. rewrite (Hi 0%nat d Hd). vm_compute. reflexivity.
  - intros d Hd. rewrite (Hi 2%nat d Hd). vm_compute. reflexivity.
Defined.

Lemma TaxSplit_exact_witness :
  ∃ tax net, TaxSplit (D := Q) (1999 # 100) "USD" (2 # 10) = Ok (tax, net) ∧
    val tax + val net == 1999 # 100.
Proof.
  destruct (TaxSplit_exact (D := Q) (1999 # 100) "USD" (2 # 10)) as (tax & net & k & Hs & Hsum & _);
    [reflexivity..|].
  exists tax, net. split; [exact Hs|exact Hsum].
Defined.
End Rationals.
