(* ===== verification/Reconciliation.v ===== *)
(** * Reconciliation of backend subscriptions with contract snapshots

    Models [internal/reconciliation]: [Compare] ([reconciliation.go]), the
    retrying [Reconcile] ([service.go]), the in-memory store and adapter.
    Adapter and store are interfaces: an attempt's outcome is what they
    answered. Rendering of times in a report, metrics and the jitter of the
    waits are left out; a wait ends when the context is done. *)
From stdpp Require Import base gmap strings list.
From Stdlib Require Import ZArith Lia.
From S2P Require Import Prelude GoStrings.

Record Snapshot := {
  cSubscriptionID : string;
  cTenantID : string;
  cStatus : string;
  cAmount : Z;
  cCurrency : string;
  cInterval : string;
  cBalances : gmap string Z;
  ExportedAt : Time;
}.

Record BackendSubscription := {
  bSubscriptionID : string;
  bTenantID : string;
  bStatus : string;
  bAmount : Z;
  bCurrency : string;
  bInterval : string;
  bBalances : gmap string Z;
  UpdatedAt : Time;
}.

Record FieldMismatch := { Field : string; BackendValue : string; ContractValue : string }.

Record Report := {
  SubscriptionID : string;
  TenantID : string;
  Matched : bool;
  Mismatches : list FieldMismatch;
  Backend : BackendSubscription;
  Contract : option Snapshot;
}.

Section compare.
(** [show_time] is [t.UTC().String()]. *)
Context `{GoRuntime} (show_time : Time → string).

Definition money (amount : Z) (currency : string) : string :=
  (Itoa amount +:+ " " +:+ currency)%string.

Definition stale (b : BackendSubscription) (c : Snapshot) : bool :=
  Time.Before (ExportedAt c) (Time.Add (UpdatedAt b) (-24 * Time.Hour)).

Definition scalar_mismatches (b : BackendSubscription) (c : Snapshot) : list FieldMismatch :=
  (if stale b c then
     [{| Field := "snapshot_stale"; BackendValue := show_time (UpdatedAt b);
         ContractValue := show_time (ExportedAt c) |}] else []) ++
  (if decide (bStatus b ≠ cStatus c) then
     [{| Field := "status"; BackendValue := bStatus b; ContractValue := cStatus c |}] else []) ++
  (if decide (bAmount b ≠ cAmount c ∨ bCurrency b ≠ cCurrency c) then
     [{| Field := "amount"; BackendValue := money (bAmount b) (bCurrency b);
         ContractValue := money (cAmount c) (cCurrency c) |}] else []) ++
  (if decide (bInterval b ≠ cInterval c) then
     [{| Field := "interval"; BackendValue := bInterval b; ContractValue := cInterval c |}] else []).

Definition balance_field (k : string) : string := ("balances." +:+ k)%string.

(** The loop over the backend's balances, then the one over the contract's. *)
Definition backend_balances (b c : gmap string Z) : list FieldMismatch :=
  (map_range b) ≫= λ '(k, v),
    match c !! k with
    | Some cv => if decide (v ≠ cv) then
                   [{| Field := balance_field k; BackendValue := Itoa v; ContractValue := Itoa cv |}]
                 else []
    | None => [{| Field := balance_field k; BackendValue := Itoa v; ContractValue := "missing" |}]
    end.
Definition contract_balances (b c : gmap string Z) : list FieldMismatch :=
  (map_range c) ≫= λ '(k, cv),
    match b !! k with
    | Some _ => []
    | None => [{| Field := balance_field k; BackendValue := "missing"; ContractValue := Itoa cv |}]
    end.

Definition Compare (b : BackendSubscription) (contract : option Snapshot) : Report :=
  match contract with
  | None =>
      {| SubscriptionID := bSubscriptionID b; TenantID := bTenantID b; Matched := false;
         Mismatches := [{| Field := "contract_snapshot"; BackendValue := "present";
                           ContractValue := "missing" |}];
         Backend := b; Contract := None |}
  | Some c =>
      let ms := scalar_mismatches b c ++ backend_balances (bBalances b) (cBalances c) ++
                contract_balances (bBalances b) (cBalances c) in
      {| SubscriptionID := bSubscriptionID b; TenantID := bTenantID b;
         Matched := bool_decide (ms = []); Mismatches := ms; Backend := b; Contract := Some c |}
  end.

(** ** The service *)
Record RetryOptions := { MaxAttempts : Z; BaseDelay : Duration; MaxDelay : Duration }.

Definition default_options : RetryOptions :=
  {| MaxAttempts := 3; BaseDelay := 1 * Time.Second; MaxDelay := 30 * Time.Second |}.

Definition retry_delay (o : RetryOptions) (attempt : Z) : Duration :=
  let shifted := if 64 <=? attempt then 0 else wrap64 (2 ^ attempt) in
  let delay := wrap64 (BaseDelay o * shifted) in
  if MaxDelay o <? delay then MaxDelay o else delay.

(** Later snapshots of one subscription replace earlier ones. *)
Definition snap_map (snaps : list Snapshot) : gmap string Snapshot :=
  foldl (λ m s, <[cSubscriptionID s := s]> m) ∅ snaps.

Definition reports_for (subs : list BackendSubscription) (snaps : list Snapshot) : list Report :=
  (λ b, Compare b (snap_map snaps !! bSubscriptionID b)) <$> subs.

Inductive reconcile_error := AdapterFailed (e : string) | StoreFailed (e : string) | Cancelled.

(** What one attempt meets: the adapter's answer, the store's answer to the
    reports (ignored when there is no store), and whether the context ends
    during the wait that follows a failure. *)
Record attempt_env := {
  fetch : result string (list Snapshot);
  save : list Report → option string;
  cancelled : bool;
}.

(** The loop from attempt [i] with [todo] attempts to go. [nil, lastErr] is
    [Err] of an option: with no attempts at all the error is nil. *)
Fixpoint reconcile_loop (hasStore : bool) (env : nat → attempt_env) (subs : list BackendSubscription)
    (todo i : nat) (lastErr : option reconcile_error)
    : result (option reconcile_error) (list Report) :=
  match todo with
  | O => Err lastErr
  | S todo =>
      let wait e :=
        if bool_decide (todo ≠ 0%nat) && cancelled (env i) then Err (Some Cancelled)
        else reconcile_loop hasStore env subs todo (S i) (Some e) in
      match fetch (env i) with
      | Err e => wait (AdapterFailed e)
      | Ok snaps =>
          let reports := reports_for subs snaps in
          if hasStore then
            match save (env i) reports with
            | Some e => wait (StoreFailed e)
            | None => Ok reports
            end
          else Ok reports
      end
  end.

Definition Reconcile (hasStore : bool) (env : nat → attempt_env) (subs : list BackendSubscription)
    (o : RetryOptions) : result (option reconcile_error) (list Report) :=
  reconcile_loop hasStore env subs (Z.to_nat (MaxAttempts o)) 0 None.

(** ** In-memory store and adapter *)
Definition SaveReports (new reports : list Report) : list Report := reports ++ new.
Definition ListReports (reports : list Report) : list Report := reports.
Definition ListReportsByTenant (tenantID : string) (reports : list Report) : list Report :=
  List.filter (λ r, bool_decide (TenantID r = tenantID)) reports.

Definition NewMemoryAdapter (snaps : list Snapshot) : gmap string Snapshot := snap_map snaps.
Definition FetchSnapshots (a : gmap string Snapshot) : list Snapshot := (map_range a).*2.

(** ** Soundness and completeness of [Compare] *)
Definition agree (b : BackendSubscription) (c : Snapshot) : Prop :=
  bStatus b = cStatus c ∧ bAmount b = cAmount c ∧ bCurrency b = cCurrency c ∧
  bInterval b = cInterval c ∧ bBalances b = cBalances c ∧
  UpdatedAt b - 24 * Time.Hour ≤ ExportedAt c.

Lemma balances_nil (b c : gmap string Z) :
  backend_balances b c = [] → contract_balances b c = [] → b = c.
Proof.
  intros Hb Hc. apply map_eq. intros k. unfold backend_balances, contract_balances in *.
  destruct (b !! k) as [v|] eqn:Hk.
  - apply (f_equal (λ l, l)) in Hb. apply elem_of_map_range in Hk.
    assert (∀ x, x ∉ (map_range b ≫= λ '(k, v),
      match c !! k with
      | Some cv => if decide (v ≠ cv) then
          [{| Field := balance_field k; BackendValue := Itoa v; ContractValue := Itoa cv |}] else []
      | None => [{| Field := balance_field k; BackendValue := Itoa v; ContractValue := "missing" |}]
      end)) as Hno by (rewrite Hb; apply not_elem_of_nil).
    destruct (c !! k) as [cv|] eqn:Hck.
    + destruct (decide (v = cv)) as [->|Hne]; [done|]. exfalso.
      eapply Hno, list_elem_of_bind. exists (k, v). split; [|done].
      rewrite Hck, decide_True by done. left.
    + exfalso. eapply Hno, list_elem_of_bind. exists (k, v). split; [|done]. rewrite Hck. left.
  - destruct (c !! k) as [cv|] eqn:Hck; [|done]. exfalso. apply elem_of_map_range in Hck.
    assert (∀ x, x ∉ (map_range c ≫= λ '(k, cv),
      match b !! k with
      | Some _ => []
      | None => [{| Field := balance_field k; BackendValue := "missing"; ContractValue := Itoa cv |}]
      end)) as Hno by (rewrite Hc; apply not_elem_of_nil).
    eapply Hno, list_elem_of_bind. exists (k, cv). split; [|done]. rewrite Hk. left.
Qed.

Lemma balances_same (b : gmap string Z) : backend_balances b b = [] ∧ contract_balances b b = [].
Proof.
  assert (∀ l, (∀ k v, (k, v) ∈ l → b !! k = Some v) →
    (l ≫= λ '(k, v), match b !! k with
      | Some cv => if decide (v ≠ cv) then
          [{| Field := balance_field k; BackendValue := Itoa v; ContractValue := Itoa cv |}] else []
      | None => [{| Field := balance_field k; BackendValue := Itoa v; ContractValue := "missing" |}]
      end) = [] ∧
    (l ≫= λ '(k, cv), match b !! k with
      | Some _ => []
      | None => [{| Field := balance_field k; BackendValue := "missing"; ContractValue := Itoa cv |}]
      end) = []) as Hl.
  { intros l. induction l as [|[k v] l IH]; intros Hl; [done|]. simpl.
    rewrite (Hl k v) by left. rewrite decide_False by tauto. simpl.
    apply IH. intros; apply Hl. by right. }
  apply Hl. intros k v. apply elem_of_map_range.
Qed.

Lemma scalar_nil b c :
  scalar_mismatches b c = [] ↔
  bStatus b = cStatus c ∧ bAmount b = cAmount c ∧ bCurrency b = cCurrency c ∧
  bInterval b = cInterval c ∧ UpdatedAt b - 24 * Time.Hour ≤ ExportedAt c.
Proof.
  unfold scalar_mismatches, stale.
  destruct (Time.Before (ExportedAt c) (Time.Add (UpdatedAt b) (-24 * Time.Hour))) eqn:Hs.
  - apply Before_true in Hs. unfold Time.Add in Hs. split; [done|lia].
  - apply Before_false in Hs. unfold Time.Add in Hs.
    repeat case_decide; (split; [try done|]); try (intros ?; exfalso; naive_solver); try done.
    intros _. split_and!; try lia; try (by apply dec_stable); apply dec_stable; naive_solver.
Qed.

(** [Compare] reports a match exactly when the snapshot exists, is at most
    a day older than the backend record, and agrees with it on status,
    amount, currency, interval and every balance, for every order in which
    the maps are visited. The tenant is not compared. *)
Theorem Compare_matched b contract :
  Matched (Compare b contract) = true ↔ ∃ c, contract = Some c ∧ agree b c.
Proof.
  destruct contract as [c|]; simpl; [|split; [done|by intros (c & ? & _)]].
  rewrite bool_decide_eq_true. split.
  - intros Hm. apply app_eq_nil in Hm as [Hs Hm]. apply app_eq_nil in Hm as [Hb Hc].
    apply scalar_nil in Hs. exists c. split; [done|]. unfold agree.
    pose proof (balances_nil _ _ Hb Hc). naive_solver.
  - intros (c' & [= <-] & (H1 & H2 & H3 & H4 & H5 & H6)).
    rewrite (proj2 (scalar_nil b c)) by done. rewrite <- H5.
    destruct (balances_same (bBalances b)) as [-> ->]. done.
Qed.

Definition outcome_ok hasStore env subs (i todo : nat) (lastErr : option reconcile_error)
    (r : result (option reconcile_error) (list Report)) : Prop :=
  match r with
  | Ok reports => ∃ k snaps, (i ≤ k < i + todo)%nat ∧ fetch (env k) = Ok snaps ∧
      reports = reports_for subs snaps ∧ (hasStore = true → save (env k) reports = None)
  | Err e => (todo = 0%nat ∧ e = lastErr) ∨ ((0 < todo)%nat ∧ e ≠ None)
  end.

Lemma reconcile_loop_spec hasStore env subs todo i lastErr :
  outcome_ok hasStore env subs i todo lastErr (reconcile_loop hasStore env subs todo i lastErr).
Proof.
  revert i lastErr. induction todo as [|todo IH]; intros i lastErr; simpl; [by left|].
  assert (∀ e, outcome_ok hasStore env subs i (S todo) lastErr
    (if bool_decide (todo ≠ 0%nat) && cancelled (env i) then Err (Some Cancelled)
     else reconcile_loop hasStore env subs todo (S i) (Some e))) as Hwait.
  { intros e. destruct (bool_decide (todo ≠ 0%nat) && cancelled (env i)).
    - right. split; [lia|done].
    - specialize (IH (S i) (Some e)).
      destruct (reconcile_loop hasStore env subs todo (S i) (Some e)) as [rs|e']; simpl in *.
      + destruct IH as (k & snaps & Hk & Hf & Hr). exists k, snaps. split; [lia|done].
      + right. split; [lia|]. destruct IH as [[_ ->]|[_ ?]]; done. }
  destruct (fetch (env i)) as [snaps|e] eqn:Hf; [|apply Hwait].
  destruct hasStore; [|exists i, snaps; split_and!; [lia|lia|done..]].
  destruct (save (env i) (reports_for subs snaps)) as [e|] eqn:Hs; [apply Hwait|].
  exists i, snaps. split_and!; [lia|lia|done..].
Qed.

(** what [Reconcile] returns. With at least one attempt it either returns
    one report per subscription, in order, compared against the snapshots one
    attempt fetched and accepted by the store, or an error; with
    [MaxAttempts <= 0] it returns neither reports nor an error. *)
Theorem Reconcile_outcome hasStore env subs o :
  match Reconcile hasStore env subs o with
  | Ok reports =>
      ∃ k snaps, Z.of_nat k < MaxAttempts o ∧ fetch (env k) = Ok snaps ∧
        length reports = length subs ∧
        (∀ i b, subs !! i = Some b →
           reports !! i = Some (Compare b (snap_map snaps !! bSubscriptionID b))) ∧
        (hasStore = true → save (env k) reports = None)
  | Err e => if decide (MaxAttempts o ≤ 0) then e = None else e ≠ None
  end.
Proof.
  unfold Reconcile. pose proof (reconcile_loop_spec hasStore env subs (Z.to_nat (MaxAttempts o)) 0 None) as Hs.
  destruct (reconcile_loop _ _ _ _ _ _) as [rs|e]; simpl in Hs.
  - destruct Hs as (k & snaps & Hk & Hf & -> & Hst). exists k, snaps.
    split_and!; [lia|done|by unfold reports_for; rewrite length_fmap| |done].
    intros i b Hb. unfold reports_for. by rewrite list_lookup_fmap, Hb.
  - case_decide; destruct Hs as [[? ->]|[? ?]]; try done; lia.
Qed.
End compare.
