(* ===== verification/HashRing.v ===== *)
(** * The consistent-hash ring of the outbox

    Models [internal/outbox/hash.go]: the ring that maps a tenant to the
    partition its events are dispatched in, with the parts of the Standard
    Library it calls, [hash/fnv] (32-bit FNV-1a) and the binary search of
    [sort.Search]. Partition numbers and hash positions are integers; the
    conversion [uint32(p)] is written out. *)
From Stdlib Require Import ZArith Lia Ascii String.
From stdpp Require Import base gmap strings list numbers.
From S2P Require Import Prelude GoStrings.

(** ** [hash/fnv] and [sort.Search] *)
Definition offset32 : Z := 2166136261.
Definition prime32 : Z := 16777619.

Definition fnv32a (data : list Z) : Z :=
  foldl (λ h c, (Z.lxor h c * prime32) mod 2 ^ 32) offset32 data.

Definition string_bytes (s : string) : list Z := map code (list_ascii_of_string s).

(** [sort.Search(n, f)]: [for i < j { h := (i+j)/2; if !f(h) { i = h+1 } else { j = h } }]. *)
Fixpoint Search_loop (fuel : nat) (f : nat → bool) (i j : nat) : nat :=
  match fuel with
  | O => i
  | S fuel =>
      if (i <? j)%nat then
        let h := ((i + j) / 2)%nat in
        if f h then Search_loop fuel f i h else Search_loop fuel f (S h) j
      else i
  end.

(** The interval shrinks in every round, so [n] rounds end the loop. *)
Definition Search (n : nat) (f : nat → bool) : nat := Search_loop n f 0 n.

(** ** The ring *)
Record ConsistentHashRing := {
  ring : gmap Z Z;
  sorted : list Z;
  partitions : Z;
  replicas : Z;
}.

Definition appendUint32 (buf : list Z) (v : Z) : list Z :=
  buf ++ [Z.shiftr v 24 mod 256; Z.shiftr v 16 mod 256; Z.shiftr v 8 mod 256; v mod 256].

(** The hash of the [i]-th virtual node of [partition]. *)
Definition node_hash (partition i : Z) : Z :=
  let key := [] in
  let key := appendUint32 key (partition mod 2 ^ 32) in
  let key := appendUint32 key (i mod 2 ^ 32) in
  fnv32a key.

Definition add_node (partition : Z) (r : ConsistentHashRing) (i : Z) : ConsistentHashRing :=
  let hash := node_hash partition i in
  {| ring := <[hash := partition]> (ring r); sorted := sorted r ++ [hash];
     partitions := partitions r; replicas := replicas r |}.

Definition addPartition (r : ConsistentHashRing) (partition : Z) : ConsistentHashRing :=
  foldl (add_node partition) r (seqZ 0 (replicas r)).

Definition sort_positions `{GoRuntime} (r : ConsistentHashRing) : ConsistentHashRing :=
  {| ring := ring r; sorted := sort_slice Z.ltb (sorted r);
     partitions := partitions r; replicas := replicas r |}.

Definition NewConsistentHashRing `{GoRuntime} (partitions replicas : Z) : ConsistentHashRing :=
  let partitions := if partitions <=? 0 then 1 else partitions in
  let replicas := if replicas <=? 0 then 150 else replicas in
  let r := {| ring := ∅; sorted := []; partitions := partitions; replicas := replicas |} in
  sort_positions (foldl addPartition r (seqZ 0 partitions)).

(** [r.sorted[i]] and [r.ring[h]]; indices stay in range below, and a
    missing key reads as zero. *)
Definition position (r : ConsistentHashRing) (i : nat) : Z := nth i (sorted r) 0.
Definition partition_at (r : ConsistentHashRing) (h : Z) : Z := default 0 (ring r !! h).

Definition GetPartition (r : ConsistentHashRing) (tenantID : string) : Z :=
  if Nat.eqb (length (sorted r)) 0 then 0
  else
    let hash := fnv32a (string_bytes tenantID) in
    let idx := Search (length (sorted r)) (λ i, hash <=? position r i) in
    let idx := if (length (sorted r) <=? idx)%nat then 0%nat else idx in
    partition_at r (position r idx).

(** [Partitions]: the distinct partition numbers, ascending. *)
Definition Partitions `{GoRuntime} (r : ConsistentHashRing) : list Z :=
  sort_slice Z.ltb (elements (list_to_set (C := gset Z) (map_to_list (ring r)).*2)).

Definition NumPartitions (r : ConsistentHashRing) : Z := partitions r.

(** ** Binary search *)

(** [Search] finds the boundary of a monotone predicate. *)
Lemma Search_loop_spec fuel f i j n :
  (i ≤ j ≤ n)%nat → (j - i ≤ fuel)%nat →
  (∀ a b, (a ≤ b < n)%nat → f a = true → f b = true) →
  (∀ k, (k < i)%nat → f k = false) → (∀ k, (j ≤ k < n)%nat → f k = true) →
  let r := Search_loop fuel f i j in
  (r ≤ n)%nat ∧ (∀ k, (k < r)%nat → f k = false) ∧ (∀ k, (r ≤ k < n)%nat → f k = true).
Proof.
  intros Hij Hfuel Hmono. revert i j Hij Hfuel.
  induction fuel as [|fuel IH]; intros i j Hij Hfuel Hlo Hhi; cbn [Search_loop].
  { assert (i = j) as -> by lia. split_and!; [lia|done|done]. }
  destruct (Nat.ltb_spec i j); [|split_and!; [lia|done|intros; apply Hhi; lia]].
  pose proof (Nat.div_mod (i + j) 2 ltac:(lia)).
  pose proof (Nat.mod_upper_bound (i + j) 2 ltac:(lia)).
  set (h := ((i + j) / 2)%nat) in *. destruct (f h) eqn:Hh; apply IH; try lia; auto.
  - intros k Hk. apply (Hmono h); [lia|done].
  - intros k Hk. destruct (f k) eqn:Hfk; [|done].
    rewrite <- Hh. symmetry. apply (Hmono k); [lia|done].
Qed.

Lemma Search_spec n f :
  (∀ a b, (a ≤ b < n)%nat → f a = true → f b = true) →
  (Search n f ≤ n)%nat ∧ (∀ k, (k < Search n f)%nat → f k = false) ∧
  (∀ k, (Search n f ≤ k < n)%nat → f k = true).
Proof. intros Hm. apply Search_loop_spec; [lia|lia|done|lia|lia]. Qed.

(** ** The successor of a hash on the ring

    [successor l h x]: going clockwise from [h], the first position of [l]
    is [x]. *)
Definition successor (l : list Z) (h x : Z) : Prop :=
  x ∈ l ∧ ((h ≤ x ∧ ∀ y, y ∈ l → h ≤ y → x ≤ y) ∨
           ((∀ y, y ∈ l → y < h) ∧ ∀ y, y ∈ l → x ≤ y)).

Lemma successor_unique l h x y : successor l h x → successor l h y → x = y.
Proof.
  intros [Hx [[Hx1 Hx2]|[Hx1 Hx2]]] [Hy [[Hy1 Hy2]|[Hy1 Hy2]]].
  - specialize (Hx2 y Hy Hy1). specialize (Hy2 x Hx Hx1). lia.
  - specialize (Hy1 x Hx). lia.
  - specialize (Hx1 y Hy). lia.
  - specialize (Hx2 y Hy). specialize (Hy2 x Hx). lia.
Qed.

(** A successor among more positions that was there before was the
    successor before. *)
Lemma successor_mono l l' h x : l ⊆ l' → x ∈ l → successor l' h x → successor l h x.
Proof.
  intros Hsub Hx [_ Hs]. split; [done|].
  destruct Hs as [[H1 H2]|[H1 H2]]; [left|right]; split; auto.
Qed.

Lemma sorted_nth l i j :
  sorted_by Z.ltb l → (i ≤ j < length l)%nat → nth i l 0 ≤ nth j l 0.
Proof.
  intros Hs. revert i j. induction Hs as [|x l Hs IH Hall]; intros i j Hij; simpl in *; [lia|].
  destruct i as [|i], j as [|j]; simpl; [lia| |lia|apply IH; lia].
  rewrite List.Forall_forall in Hall. apply Z.ltb_ge, Hall, nth_In. lia.
Qed.

Lemma nth_elem l i : (i < length l)%nat → nth i l 0 ∈ l.
Proof. intros Hi. by apply list_elem_of_In, nth_In. Qed.

Lemma elem_nth (l : list Z) y : y ∈ l → ∃ k, (k < length l)%nat ∧ nth k l 0 = y.
Proof. intros Hy. apply list_elem_of_In in Hy. by apply In_nth. Qed.

(** [GetPartition] is the partition of the tenant's successor. *)
Lemma GetPartition_successor r t :
  sorted_by Z.ltb (sorted r) → sorted r ≠ [] →
  ∃ x, successor (sorted r) (fnv32a (string_bytes t)) x ∧ GetPartition r t = partition_at r x.
Proof.
  intros Hs Hne. unfold GetPartition.
  destruct (Nat.eqb_spec (length (sorted r)) 0) as [E|E].
  { by apply nil_length_inv in E. }
  set (h := fnv32a _). set (n := length (sorted r)) in *.
  destruct (Search_spec n (λ i, h <=? position r i)) as (Hle & Hlo & Hhi).
  { intros a b Hab Ha. apply Z.leb_le in Ha. apply Z.leb_le.
    pose proof (sorted_nth _ a b Hs Hab). unfold position in *. lia. }
  set (idx := Search n _) in *. eexists. split; [|done].
  destruct (Nat.leb_spec n idx) as [Hn|Hn]; (split; [apply nth_elem; lia|]).
  - right. split; intros y (k & Hk & <-)%elem_nth; [|apply sorted_nth; [done|lia]].
    specialize (Hlo k ltac:(lia)). apply Z.leb_gt in Hlo. done.
  - left. split; [apply Z.leb_le, Hhi; lia|]. intros y (k & Hk & <-)%elem_nth Hy.
    apply sorted_nth; [done|]. split; [|done]. apply Nat.nlt_ge. intros Hlt.
    specialize (Hlo k Hlt). apply Z.leb_gt in Hlo. unfold position in Hlo. lia.
Qed.

(** ** What a partition adds *)
#[local] Opaque node_hash fnv32a.

Definition nodes (replicas partition : Z) : list Z := node_hash partition <$> seqZ 0 replicas.

Lemma add_nodes_spec p ixs r :
  let r' := foldl (add_node p) r ixs in
  sorted r' = sorted r ++ (node_hash p <$> ixs) ∧ replicas r' = replicas r ∧
  partitions r' = partitions r ∧
  (∀ x, x ∈ node_hash p <$> ixs → ring r' !! x = Some p) ∧
  (∀ x, x ∉ node_hash p <$> ixs → ring r' !! x = ring r !! x).
Proof.
  induction ixs as [|i ixs IH] using rev_ind; simpl.
  { rewrite app_nil_r. split_and!; try done. intros x Hx. by apply elem_of_nil in Hx. }
  rewrite foldl_app, fmap_app. cbn [foldl]. cbv zeta in IH. revert IH.
  generalize (foldl (add_node p) r ixs) as r1. intros r1. unfold add_node.
  cbn [sorted replicas partitions ring fmap list_fmap]. destruct 1 as (-> & -> & -> & Hin & Hout).
  split_and!; [by rewrite app_assoc|done|done| |]; intros x Hx.
  - destruct (decide (x = node_hash p i)) as [E|Hne].
    { rewrite E. apply lookup_insert_eq. }
    rewrite lookup_insert_ne by congruence. apply Hin.
    apply elem_of_app in Hx as [Hx|Hx]; [done|]. by apply list_elem_of_singleton in Hx.
  - apply not_elem_of_app in Hx as [Hx Hi].
    rewrite lookup_insert_ne; [by apply Hout|]. intros E. apply Hi. rewrite <- E. by left.
Qed.

Lemma addPartition_spec r p :
  let r' := addPartition r p in
  sorted r' = sorted r ++ nodes (replicas r) p ∧ replicas r' = replicas r ∧
  partitions r' = partitions r ∧
  (∀ x, x ∈ nodes (replicas r) p → ring r' !! x = Some p) ∧
  (∀ x, x ∉ nodes (replicas r) p → ring r' !! x = ring r !! x).
Proof. apply add_nodes_spec. Qed.

(** Every position of the ring carries a partition below [n]. *)
Definition ring_ok (n : Z) (r : ConsistentHashRing) : Prop :=
  ∀ x, x ∈ sorted r → ∃ p, ring r !! x = Some p ∧ 0 ≤ p < n.

Lemma addPartition_ok n r p :
  ring_ok n r → 0 ≤ p → n ≤ p + 1 → ring_ok (p + 1) (addPartition r p).
Proof.
  intros Hok Hp Hn x Hx. destruct (addPartition_spec r p) as (Hs & _ & _ & Hin & Hout).
  destruct (decide (x ∈ nodes (replicas r) p)) as [Hx'|Hx'].
  { exists p. split; [by apply Hin|lia]. }
  rewrite Hs in Hx. apply elem_of_app in Hx as [Hx|Hx]; [|done].
  destruct (Hok x Hx) as (q & Hq & Hb). exists q. rewrite Hout by done. split; [done|lia].
Qed.

Definition empty_ring (n k : Z) : ConsistentHashRing :=
  {| ring := ∅; sorted := []; partitions := n; replicas := k |}.

(** The ring of [n] partitions before its positions are sorted. *)
Definition unsorted (m n k : Z) : ConsistentHashRing :=
  foldl addPartition (empty_ring m k) (seqZ 0 n).

Lemma unsorted_succ m n k :
  0 ≤ n → unsorted m (n + 1) k = addPartition (unsorted m n k) n.
Proof.
  intros Hn. unfold unsorted. rewrite seqZ_app by lia. by rewrite foldl_app.
Qed.

Lemma unsorted_facts m n k :
  0 ≤ n → replicas (unsorted m n k) = k ∧ ring_ok n (unsorted m n k) ∧
          (0 < n → 0 < k → sorted (unsorted m n k) ≠ []).
Proof.
  intros Hn. pattern n. apply natlike_ind; [| |done].
  { split_and!; [done| |lia]. intros x Hx. by apply elem_of_nil in Hx. }
  clear n Hn. intros n Hn (Hk & Hok & _). change (Z.succ n) with (n + 1).
  rewrite unsorted_succ by done.
  destruct (addPartition_spec (unsorted m n k) n) as (Hs & Hr & _).
  split_and!; [by rewrite Hr|by apply (addPartition_ok n); [| |lia]|].
  intros _ Hpos E. rewrite Hs, Hk in E. apply app_nil in E as [_ E].
  apply (f_equal length) in E. unfold nodes in E.
  rewrite length_fmap, length_seqZ in E. simpl in E. lia.
Qed.

(** The number of partitions recorded in the ring has no influence on it. *)
Lemma unsorted_partitions m m' n k :
  0 ≤ n → ring (unsorted m n k) = ring (unsorted m' n k) ∧
          sorted (unsorted m n k) = sorted (unsorted m' n k).
Proof.
  intros Hn. unfold unsorted. generalize (seqZ 0 n) as ps. intros ps.
  assert (∀ r r', ring r = ring r' → sorted r = sorted r' → replicas r = replicas r' →
    ring (foldl addPartition r ps) = ring (foldl addPartition r' ps) ∧
    sorted (foldl addPartition r ps) = sorted (foldl addPartition r' ps)) as H; [|by apply H].
  induction ps as [|p ps IH]; intros r r' H1 H2 H3; simpl; [done|].
  assert (∀ ixs, ring (foldl (add_node p) r ixs) = ring (foldl (add_node p) r' ixs) ∧
    sorted (foldl (add_node p) r ixs) = sorted (foldl (add_node p) r' ixs) ∧
    replicas (foldl (add_node p) r ixs) = replicas (foldl (add_node p) r' ixs)) as H.
  { intros ixs. revert r r' H1 H2 H3. induction ixs as [|i ixs IHi]; intros r r' H1 H2 H3; simpl.
    - done.
    - apply IHi; simpl; congruence. }
  unfold addPartition. rewrite H3. destruct (H (seqZ 0 (replicas r'))) as (? & ? & ?).
  by apply IH.
Qed.

Section resize.
Context `{GoRuntime}.

Lemma New_unsorted n k :
  0 < n → 0 < k → NewConsistentHashRing n k = sort_positions (unsorted n n k).
Proof.
  intros Hn Hk. unfold NewConsistentHashRing, unsorted.
  by rewrite !(proj2 (Z.leb_gt _ _)) by lia.
Qed.

Lemma GetPartition_new n k t :
  0 < n → 0 < k →
  ∃ x, successor (sorted (unsorted n n k)) (fnv32a (string_bytes t)) x ∧
       GetPartition (NewConsistentHashRing n k) t = partition_at (unsorted n n k) x.
Proof.
  intros Hn Hk. rewrite New_unsorted by done.
  destruct (GetPartition_successor (sort_positions (unsorted n n k)) t) as (x & Hx & ->).
  - apply sort_slice_sorted. apply (strict_weak_key (λ z, z)).
  - simpl. intros E. pose proof (sort_slice_perm Z Z.ltb (sorted (unsorted n n k))) as Hp.
    rewrite E in Hp. apply Permutation_nil_l in Hp.
    destruct (unsorted_facts n n k) as (_ & _ & Hne); [lia|]. by apply Hne.
  - exists x. split; [|done]. destruct Hx as [Hx Hs]. simpl in *.
    setoid_rewrite elem_of_sort_slice in Hs. by rewrite elem_of_sort_slice in Hx.
Qed.
End resize.

(** Adding a partition moves a tenant, if at all, to the new partition:
    the ring of [n + 1] partitions sends every tenant where the ring of [n]
    did or to partition [n], whatever hash collisions there are. And a ring
    of [n] partitions answers with a number below [n]. *)
Theorem GetPartition_resize `{GoRuntime} n k t :
  0 < n → 0 < k →
  0 ≤ GetPartition (NewConsistentHashRing n k) t < n ∧
  (GetPartition (NewConsistentHashRing (n + 1) k) t = GetPartition (NewConsistentHashRing n k) t ∨
   GetPartition (NewConsistentHashRing (n + 1) k) t = n).
Proof.
  intros Hn Hk. destruct (GetPartition_new n k t Hn Hk) as (x & Hx & ->).
  destruct (GetPartition_new (n + 1) k t ltac:(lia) Hk) as (y & Hy & ->).
  destruct (unsorted_facts n n k) as (Hrep & Hok & _); [lia|].
  destruct (unsorted_partitions (n + 1) n (n + 1) k) as [Hring Hsorted]; [lia|].
  unfold partition_at. rewrite Hring. rewrite Hsorted in Hy.
  rewrite unsorted_succ in Hy |- * by lia.
  destruct (addPartition_spec (unsorted n n k) n) as (Hs & _ & _ & Hin & Hout).
  split.
  { destruct (Hok x) as (p & -> & Hp); [apply Hx|done]. }
  destruct (decide (y ∈ nodes (replicas (unsorted n n k)) n)) as [Hny|Hny].
  { right. by rewrite Hin. }
  left. rewrite Hout by done. rewrite Hs in Hy.
  rewrite (successor_unique _ _ x y Hx); [done|].
  apply (successor_mono _ (sorted (unsorted n n k) ++ nodes (replicas (unsorted n n k)) n)); [|
    |done].
  - intros z Hz. apply elem_of_app. by left.
  - destruct Hy as [Hy _]. apply elem_of_app in Hy as [Hy|Hy]; done.
Qed.

Lemma GetPartition_resize_witness :
  0 ≤ GetPartition (NewConsistentHashRing 3 4) "tenant-a" < 3 ∧
  (GetPartition (NewConsistentHashRing (3 + 1) 4) "tenant-a" =
     GetPartition (NewConsistentHashRing 3 4) "tenant-a" ∨
   GetPartition (NewConsistentHashRing (3 + 1) 4) "tenant-a" = 3).
Proof. apply GetPartition_resize; lia. Defined.

Example fnv32a_ex : fnv32a (string_bytes "foobar") = 3214735720.
Proof. vm_compute. reflexivity. Qed.

Example GetPartition_ex :
  map (GetPartition (NewConsistentHashRing 3 4)) ["tenant-a"; "tenant-b"; "acme"; "globex"] =
    [0; 0; 1; 2] ∧
  Partitions (NewConsistentHashRing 4 150) = [0; 1; 2; 3].
Proof. vm_compute. auto. Qed.
