(* ===== verification/Outbox.v ===== *)
(** * The transactional outbox: repository and dispatcher

    Models [internal/outbox/types.go], the PostgreSQL repository of
    [internal/outbox/repository.go] and the per-publisher dispatcher of
    [internal/outbox/dispatcher.go].

    A table is a finite map from its primary key; a query is the function its
    text denotes. A UUID is a 128-bit number: PostgreSQL's order on [uuid] and
    Go's order on the canonical text agree with the order of numbers. The
    database stamps [updated_at] on every update. Which database calls fail is
    an input ([faults]); a transaction that fails leaves no trace. Publishers
    are an interface: a call of [Publish] is recorded in [sent] and answers
    whatever the world does. Logging, metrics and JSON are left out. *)
From stdpp Require Import base gmap strings list sorting pretty.
From Stdlib Require Import ZArith Lia.
From S2P Require Import Prelude GoFloat.

Notation UUID := Z (only parsing).

Inductive Status := StatusPending | StatusProcessing | StatusCompleted | StatusFailed.
#[export] Instance Status_eq_dec : EqDecision Status.
Proof. solve_decision. Defined.

Record Event := {
  ID : UUID;
  TenantID : string;
  EventType : string;
  EventData : string;
  AggregateID : option string;
  AggregateType : option string;
  OccurredAt : Time;
  EventStatus : Status;
  RetryCount : Z;
  EventMaxRetries : Z;
  NextRetryAt : option Time;
  ErrorMessage : option string;
  CreatedAt : Time;
  UpdatedAt : Time;
  Version : Z;
  DeduplicationID : option string;
  Partition : Z;
}.

(** A row after an [UPDATE]. *)
Definition update_row (status : Status) (retries : Z) (next : option Time)
    (msg : option string) (now : Time) (e : Event) : Event :=
  {| ID := ID e; TenantID := TenantID e; EventType := EventType e; EventData := EventData e;
     AggregateID := AggregateID e; AggregateType := AggregateType e;
     OccurredAt := OccurredAt e; EventStatus := status; RetryCount := retries;
     EventMaxRetries := EventMaxRetries e; NextRetryAt := next; ErrorMessage := msg;
     CreatedAt := CreatedAt e; UpdatedAt := now; Version := Version e;
     DeduplicationID := DeduplicationID e; Partition := Partition e |}.

(** The column [partition] is in neither column list: a stored row has its
    default 0, a scanned event the zero value. *)
Definition scanEvent (e : Event) : Event :=
  {| ID := ID e; TenantID := TenantID e; EventType := EventType e; EventData := EventData e;
     AggregateID := AggregateID e; AggregateType := AggregateType e;
     OccurredAt := OccurredAt e; EventStatus := EventStatus e; RetryCount := RetryCount e;
     EventMaxRetries := EventMaxRetries e; NextRetryAt := NextRetryAt e;
     ErrorMessage := ErrorMessage e; CreatedAt := CreatedAt e; UpdatedAt := UpdatedAt e;
     Version := Version e; DeduplicationID := DeduplicationID e; Partition := 0 |}.

(** ** Errors of publishers

    [Plain] is an error that wraps nothing, [Wrapped] one made by
    [fmt.Errorf] with [%w], carrying its whole text. *)
Inductive go_error :=
| Plain (text : string)
| Wrapped (text : string) (err : go_error)
| PermanentPublishError (Reason : string) (Err : option go_error).

Fixpoint Error (e : go_error) : string :=
  match e with
  | Plain t | Wrapped t _ => t
  | PermanentPublishError r None => r
  | PermanentPublishError r (Some e) => (r +:+ ": " +:+ Error e)%string
  end.

(** [errors.As] walks the chain of wrapped errors. *)
Fixpoint IsPermanentPublishError (e : go_error) : bool :=
  match e with
  | Plain _ => false
  | Wrapped _ e => IsPermanentPublishError e
  | PermanentPublishError _ _ => true
  end.

Definition TimeoutError (msg : string) : go_error := Plain msg.

(** ** The repository *)
Inductive repo_error :=
| DatabaseError (what : string)
| NoRowsAffected (what : string).

Record Database := {
  outbox_events : gmap UUID Event;
  outbox_publisher_progress : gmap string UUID;
  faults : list bool;
}.

Definition set_events (m : gmap UUID Event) (db : Database) : Database :=
  {| outbox_events := m; outbox_publisher_progress := outbox_publisher_progress db;
     faults := faults db |}.
Definition set_progress (p : gmap string UUID) (db : Database) : Database :=
  {| outbox_events := outbox_events db; outbox_publisher_progress := p; faults := faults db |}.
Definition set_faults (f : list bool) (db : Database) : Database :=
  {| outbox_events := outbox_events db;
     outbox_publisher_progress := outbox_publisher_progress db; faults := f |}.

(** One call: it fails when the next fault says so, and runs otherwise. *)
Definition call {A} (what : string) (q : Database → result repo_error A * Database)
    (db : Database) : result repo_error A * Database :=
  match faults db with
  | true :: fs => (Err (DatabaseError what), set_faults fs db)
  | _ :: fs => q (set_faults fs db)
  | [] => q db
  end.

Definition exec (what : string) (q : Database → Database) : Database → result repo_error unit * Database :=
  call what (λ db, (Ok tt, q db)).

(** [INSERT]: the primary key and the partial unique index on
    [deduplication_id] reject a duplicate. *)
Definition duplicate (event : Event) (m : gmap UUID Event) : bool :=
  bool_decide (is_Some (m !! ID event)) ||
  match DeduplicationID event with
  | None => false
  | Some d => any (λ r, bool_decide (DeduplicationID r.2 = Some d)) (map_to_list m)
  end.

Definition Store (event : Event) : Database → result repo_error unit * Database :=
  call "failed to store outbox event" (λ db,
    if duplicate event (outbox_events db)
    then (Err (DatabaseError "failed to store outbox event"), db)
    else (Ok tt, set_events (<[ID event := scanEvent event]> (outbox_events db)) db)).

Fixpoint BulkInsert (events : list Event) (db : Database) : result repo_error unit * Database :=
  match events with
  | [] => (Ok tt, db)
  | e :: es =>
      match Store e db with
      | (Err _, db) => (Err (DatabaseError "failed to bulk insert event"), db)
      | (Ok _, db) => BulkInsert es db
      end
  end.

(** [status = 'pending' OR (status = 'failed' AND next_retry_at <= now)] *)
Definition selectable (now : Time) (e : Event) : bool :=
  match EventStatus e with
  | StatusPending => true
  | StatusFailed => match NextRetryAt e with Some t => t <=? now | None => false end
  | _ => false
  end.

Definition limited (limit : Z) (l : list Event) (db : Database)
    : result repo_error (list Event) * Database :=
  if limit <? 0 then (Err (DatabaseError "LIMIT must not be negative"), db)
  else (Ok (scanEvent <$> take (Z.to_nat limit) l), db).

(** [ORDER BY occurred_at ASC] leaves the order of ties open. *)
Definition GetPendingEvents `{GoRuntime} (now : Time) (limit : Z) : Database → result repo_error (list Event) * Database :=
  call "failed to get pending events" (λ db,
    limited limit
      (sort_slice (λ a b, OccurredAt a <? OccurredAt b)
         (filter (λ e, selectable now e = true) (map_to_list (outbox_events db)).*2)) db).

Definition GetByID (id : UUID) : Database → result repo_error Event * Database :=
  call "failed to scan event" (λ db,
    (match outbox_events db !! id with
     | Some e => Ok (scanEvent e)
     | None => Err (NoRowsAffected "failed to scan event")
     end, db)).

Definition UpdateStatus (now : Time) (id : UUID) (status : Status) (msg : option string)
    : Database → result repo_error unit * Database :=
  exec "failed to update event status" (λ db,
    set_events (alter (λ e, update_row status (RetryCount e) (NextRetryAt e) msg now e) id
                  (outbox_events db)) db).

Definition MarkAsProcessing (now : Time) (id : UUID) : Database → result repo_error unit * Database :=
  call "failed to mark event as processing" (λ db,
    match outbox_events db !! id with
    | Some e =>
        if decide (EventStatus e = StatusPending) then
          (Ok tt, set_events (<[id := update_row StatusProcessing (RetryCount e) (NextRetryAt e)
                                  (ErrorMessage e) now e]> (outbox_events db)) db)
        else (Err (NoRowsAffected "event not found or not in pending status"), db)
    | None => (Err (NoRowsAffected "event not found or not in pending status"), db)
    end).

Definition IncrementRetryCount (now : Time) (id : UUID) (nextRetryAt : Time) (msg : option string)
    : Database → result repo_error unit * Database :=
  exec "failed to increment retry count" (λ db,
    set_events (alter (λ e, update_row StatusFailed (RetryCount e + 1) (Some nextRetryAt) msg now e)
                  id (outbox_events db)) db).

Definition stale (olderThan : Time) (e : Event) : bool :=
  bool_decide (EventStatus e = StatusCompleted) && (UpdatedAt e <? olderThan).

Definition DeleteCompletedEvents (olderThan : Time) : Database → result repo_error Z * Database :=
  call "failed to delete completed events" (λ db,
    let m := outbox_events db in
    let kept := filter (λ r, stale olderThan r.2 = false) m in
    (Ok (Z.of_nat (size m) - Z.of_nat (size kept)), set_events kept db)).

Definition RequeueEvent (now : Time) (id : UUID) : Database → result repo_error unit * Database :=
  call "failed to requeue event" (λ db,
    match outbox_events db !! id with
    | Some e =>
        if decide (EventStatus e = StatusFailed) then
          (Ok tt, set_events (<[id := update_row StatusPending 0 None None now e]> (outbox_events db)) db)
        else (Err (NoRowsAffected "event not found or not in failed status"), db)
    | None => (Err (NoRowsAffected "event not found or not in failed status"), db)
    end).

(** The view [dead_letter_events] holds the failed rows, latest first. *)
Definition ListDeadLetteredEvents `{GoRuntime} (limit : Z)
    : Database → result repo_error (list Event) * Database :=
  call "failed to list dead-lettered events" (λ db,
    limited limit
      (sort_slice (λ a b, OccurredAt b <? OccurredAt a)
         (filter (λ e, EventStatus e = StatusFailed) (map_to_list (outbox_events db)).*2)) db).

Definition EnsurePublisherProgressTable : Database → result repo_error unit * Database :=
  exec "failed to ensure publisher progress table" (λ db, db).

Definition GetPublisherProgress (publisher : string) : Database → result repo_error (option UUID) * Database :=
  call "failed to get publisher progress" (λ db, (Ok (outbox_publisher_progress db !! publisher), db)).

(** [p.last_event_id IS NULL OR e.id > p.last_event_id] *)
Definition above_mark (publisher : string) (db : Database) (id : UUID) : bool :=
  match outbox_publisher_progress db !! publisher with
  | None => true
  | Some last => last <? id
  end.

Definition by_id (a b : UUID * Event) : Prop := a.1 ≤ b.1.
#[export] Instance by_id_dec : RelDecision by_id.
Proof. intros a b. unfold by_id. apply _. Defined.

Definition pending_rows (now : Time) (publisher : string) (db : Database) : list (UUID * Event) :=
  merge_sort by_id
    (filter (λ r, selectable now r.2 && above_mark publisher db r.1 = true)
       (map_to_list (outbox_events db))).

Definition GetPendingEventsForPublisher (now : Time) (publisher : string) (limit : Z)
    : Database → result repo_error (list Event) * Database :=
  call "failed to get pending events for publisher" (λ db,
    limited limit (pending_rows now publisher db).*2 db).

(** [INSERT ... ON CONFLICT DO UPDATE]: the mark only moves forward. *)
Definition upsertPublisherProgress (publisher : string) (eventID : UUID) (db : Database) : Database :=
  let last :=
    match outbox_publisher_progress db !! publisher with
    | None => eventID
    | Some last => if last <? eventID then eventID else last
    end in
  set_progress (<[publisher := last]> (outbox_publisher_progress db)) db.

Fixpoint publisherProgressReached (eventID : UUID) (publishers : list string) (db : Database) : bool :=
  match publishers with
  | [] => true
  | p :: ps =>
      match outbox_publisher_progress db !! p with
      | None => false
      | Some lastID =>
          if lastID <? eventID then false else publisherProgressReached eventID ps db
      end
  end.

Definition markPublished (now : Time) (publisher : string) (event : Event)
    (publishers : list string) (db : Database) : Database :=
  let db := upsertPublisherProgress publisher (ID event) db in
  if publisherProgressReached (ID event) publishers db then
    set_events (alter (λ e, update_row StatusCompleted (RetryCount e) (NextRetryAt e) None now e)
                  (ID event) (outbox_events db)) db
  else db.

Definition MarkPublished (now : Time) (publisher : string) (event : Event)
    (publishers : list string) : Database → result repo_error unit * Database :=
  exec "failed to update publisher progress" (markPublished now publisher event publishers).

(** [NewEventWithDeduplication]; the identifier is what [uuid.New()] drew,
    [data] the encoded payload. *)
Definition NewEventWithDeduplication (id : UUID) (now : Time) (eventType data : string)
    (aggregateID aggregateType deduplicationID : option string) : Event :=
  {| ID := id; TenantID := ""; EventType := eventType; EventData := data;
     AggregateID := aggregateID; AggregateType := aggregateType; OccurredAt := now;
     EventStatus := StatusPending; RetryCount := 0; EventMaxRetries := 3; NextRetryAt := None;
     ErrorMessage := None; CreatedAt := now; UpdatedAt := now; Version := 1;
     DeduplicationID := deduplicationID; Partition := 0 |}.

Definition NewEvent (id : UUID) (now : Time) (eventType data : string)
    (aggregateID aggregateType : option string) : Event :=
  NewEventWithDeduplication id now eventType data aggregateID aggregateType None.

(** ** The dispatcher *)
Record DispatcherConfig := {
  PollInterval : Duration;
  BatchSize : Z;
  MaxRetries : Z;
  RetryBackoffFactor : float64;
  CleanupInterval : Duration;
  CompletedEventTTL : Duration;
  ProcessingTimeout : Duration;
  ShardCount : Z;
  OwnedShards : list Z;
  HeartbeatInterval : Duration;
}.

Definition DefaultDispatcherConfig : DispatcherConfig :=
  {| PollInterval := 5 * Time.Second; BatchSize := 10; MaxRetries := 3;
     RetryBackoffFactor := f_of_int 2; CleanupInterval := 1 * Time.Hour;
     CompletedEventTTL := 24 * Time.Hour; ProcessingTimeout := 30 * Time.Second;
     ShardCount := 0; OwnedShards := []; HeartbeatInterval := 30 * Time.Second |}.

(** The state the drains share: consecutive failures and the end of the
    backoff per publisher. A missing key reads as the zero value. *)
Record dispatcher := {
  publisherFailCount : gmap string Z;
  publisherNextAttempt : gmap string Time;
}.

Definition failCount (name : string) (d : dispatcher) : Z :=
  default 0 (publisherFailCount d !! name).
Definition nextAttempt (name : string) (d : dispatcher) : Time :=
  default Time.zero (publisherNextAttempt d !! name).

Definition set_failures (name : string) (n : Z) (next : Time) (d : dispatcher) : dispatcher :=
  {| publisherFailCount := <[name := n]> (publisherFailCount d);
     publisherNextAttempt := <[name := next]> (publisherNextAttempt d) |}.

(** What [select] finds first: the publisher's answer ([None] is [nil]) or
    the end of [ProcessingTimeout]. *)
Inductive outcome :=
| Replied (err : option go_error)
| Expired.

(** [time.Duration(backoff) * time.Second] with the backoff kept between one
    second and one hour. *)
Definition drain_backoff (factor : float64) (n : Z) : Duration :=
  let backoff := f_pow factor n in
  let backoff := if f_lt backoff (f_of_int 1) then f_of_int 1 else backoff in
  let backoff := if f_lt (f_of_int 3600) backoff then f_of_int 3600 else backoff in
  wrap64 (int64_of_float backoff * Time.Second).

(** [publisherMap] by the kind of publisher, and its names in order. *)
Inductive publisher_kind :=
| MultiPublisher (children : nat)
| ConsolePublisher
| HTTPPublisher
| OtherPublisher.

Definition publisher_name (i : nat) : string := ("publisher-" +:+ pretty i)%string.

Definition publisherNames `{GoRuntime} (p : publisher_kind) : list string :=
  sort_slice String.ltb
    match p with
    | MultiPublisher n => publisher_name <$> seq 0 n
    | ConsolePublisher => ["console"]
    | HTTPPublisher => ["http"]
    | OtherPublisher => ["default"]
    end.

Section drain.
(** [tick] reads the clock; [cancelled] is [d.ctx.Err() != nil]; [Publish]
    is the publisher called [name], with the timeout around it. *)
Context {W : Type} (tick : W → Time * W) (cancelled : W → bool)
  (Publish : string → Event → W → outcome * W).
Context (config : DispatcherConfig) (names : list string).

(** [sent] lists the calls of [Publish] so far. *)
Record sys := {
  disp : dispatcher;
  db : Database;
  world : W;
  sent : list (string * Event * outcome);
}.

Definition set_disp (d : dispatcher) (s : sys) : sys :=
  {| disp := d; db := db s; world := world s; sent := sent s |}.
Definition set_db (b : Database) (s : sys) : sys :=
  {| disp := disp s; db := b; world := world s; sent := sent s |}.
Definition read_clock (s : sys) : Time * sys :=
  let '(t, w) := tick (world s) in
  (t, {| disp := disp s; db := db s; world := w; sent := sent s |}).

(** A call whose error is only logged or dropped. *)
Definition run_call {A} (q : Database → result repo_error A * Database) (s : sys) : sys :=
  set_db (q (db s)).2 s.

Definition fail_event (event : Event) (err : go_error) (s : sys) : sys :=
  let '(t, s) := read_clock s in
  run_call (UpdateStatus t (ID event) StatusFailed (Some (Error err))) s.

Definition handleDrainPublishError (name : string) (event : Event) (err : go_error) (s : sys) : sys :=
  if IsPermanentPublishError err then fail_event event err s
  else
    let n := failCount name (disp s) + 1 in
    let s := set_disp {| publisherFailCount := <[name := n]> (publisherFailCount (disp s));
                         publisherNextAttempt := publisherNextAttempt (disp s) |} s in
    if MaxRetries config <=? n then
      let s := fail_event event err s in
      set_disp (set_failures name 0 Time.zero (disp s)) s
    else
      let '(t, s) := read_clock s in
      let next := Time.Add t (drain_backoff (RetryBackoffFactor config) n) in
      set_disp {| publisherFailCount := publisherFailCount (disp s);
                  publisherNextAttempt := <[name := next]> (publisherNextAttempt (disp s)) |} s.

(** One turn of the loop over the batch; [false] ends the drain. *)
Definition drain_event (name : string) (event : Event) (s : sys) : sys * bool :=
  let '(o, w) := Publish name event (world s) in
  let s := {| disp := disp s; db := db s; world := w;
              sent := sent s ++ [(name, event, o)] |} in
  match o with
  | Replied (Some err) =>
      if cancelled (world s) then (s, false)
      else (handleDrainPublishError name event err s, true)
  | Replied None =>
      let s := set_disp (set_failures name 0 Time.zero (disp s)) s in
      let '(t, s) := read_clock s in
      (run_call (MarkPublished t name event names) s, true)
  | Expired =>
      if cancelled (world s) then (s, false)
      else (handleDrainPublishError name event (TimeoutError "processing timeout") s, true)
  end.

Fixpoint drain_loop (name : string) (events : list Event) (s : sys) : sys :=
  match events with
  | [] => s
  | event :: events =>
      let '(s, continue) := drain_event name event s in
      if continue : bool then drain_loop name events s else s
  end.

Definition drainOnceForPublisher (name : string) (s : sys) : sys :=
  let next := nextAttempt name (disp s) in
  let '(waiting, s) :=
    if Time.IsZero next then (false, s)
    else let '(t, s) := read_clock s in (Time.Before t next, s) in
  if waiting : bool then s
  else
    let '(t, s) := read_clock s in
    let '(r, b) := GetPendingEventsForPublisher t name (BatchSize config) (db s) in
    let s := set_db b s in
    match r with
    | Err _ => s
    | Ok events => drain_loop name events s
    end.

Definition cleanupCompletedEvents (s : sys) : sys :=
  let '(t, s) := read_clock s in
  run_call (DeleteCompletedEvents (Time.Add t (- CompletedEventTTL config))) s.

(** ** Histories

    What happens to the outbox: a drain of some publisher, an event stored, a
    cleanup, an operator's requeue. *)
Inductive op :=
| Drain (name : string)
| StoreEvent (event : Event)
| Cleanup
| Requeue (id : UUID).

Definition apply (s : sys) (o : op) : sys :=
  match o with
  | Drain name => drainOnceForPublisher name s
  | StoreEvent e => run_call (Store e) s
  | Cleanup => cleanupCompletedEvents s
  | Requeue id => let '(t, s) := read_clock s in run_call (RequeueEvent t id) s
  end.
End drain.

(** ** Calls *)
Lemma set_faults_id d : set_faults (faults d) d = d.
Proof. by destruct d. Qed.

(** What holds of the database with any faults left, and after the query,
    holds after the call. *)
Lemma call_ind {A} (P : Database → Prop) what (q : Database → result repo_error A * Database) d :
  (∀ fs, P (set_faults fs d)) → (∀ fs, P (q (set_faults fs d)).2) → P (call what q d).2.
Proof.
  intros Hd Hq. unfold call. destruct (faults d) as [|[] fs] eqn:E; simpl; [|auto..].
  specialize (Hq (faults d)). by rewrite set_faults_id in Hq.
Qed.

Lemma call_no_faults {A} what (q : Database → result repo_error A * Database) d :
  faults d = [] → call what q d = q d.
Proof. intros E. unfold call. by rewrite E. Qed.

(** A row is stored under its identifier, and the mark of [name] has
    reached [m]. *)
Record marked (name : string) (m : UUID) (d : Database) : Prop := {
  marked_keyed : ∀ k e, outbox_events d !! k = Some e → ID e = k;
  marked_mark : ∃ m', outbox_publisher_progress d !! name = Some m' ∧ m ≤ m';
}.

Lemma marked_events name m d es :
  marked name m d → (∀ k e, es !! k = Some e → ID e = k) → marked name m (set_events es d).
Proof. intros [_ Hm] Hes. by split. Qed.

Lemma marked_faults name m fs d : marked name m d → marked name m (set_faults fs d).
Proof. intros [? ?]. by split. Qed.

Lemma keyed_alter (es : gmap UUID Event) f id :
  (∀ k e, es !! k = Some e → ID e = k) → (∀ e, ID (f e) = ID e) →
  ∀ k e, alter f id es !! k = Some e → ID e = k.
Proof.
  intros Hes Hf k e. destruct (decide (id = k)) as [->|Hne].
  - rewrite lookup_alter_eq. intros (e' & He & ->)%fmap_Some. rewrite Hf. by apply Hes.
  - rewrite lookup_alter_ne by done. apply Hes.
Qed.

Lemma keyed_insert (es : gmap UUID Event) e' :
  (∀ k e, es !! k = Some e → ID e = k) →
  ∀ k e, <[ID e' := e']> es !! k = Some e → ID e = k.
Proof. intros Hes k e. rewrite lookup_insert_Some. intros [[<- <-]|[_ He]]; auto. Qed.

Lemma upsert_marked name m p id d :
  marked name m d → marked name m (upsertPublisherProgress p id d).
Proof.
  intros [Hk (m' & Hm & Hle)]. split; [done|]. unfold upsertPublisherProgress. simpl.
  destruct (decide (p = name)) as [->|Hne].
  - rewrite lookup_insert_eq, Hm. eexists. split; [done|]. case_match; lia.
  - rewrite lookup_insert_ne by done. eauto.
Qed.

Lemma markPublished_marked name m t p e ps d :
  marked name m d → marked name m (markPublished t p e ps d).
Proof.
  intros Hd. apply (upsert_marked name m p (ID e)) in Hd. unfold markPublished.
  destruct (publisherProgressReached _ _ _); [|done].
  apply marked_events; [done|]. apply keyed_alter; [apply Hd|done].
Qed.
Create HintDb outbox discriminated.
#[local] Hint Resolve marked_faults markPublished_marked : outbox.

Lemma UpdateStatus_marked name m t id st msg d :
  marked name m d → marked name m (UpdateStatus t id st msg d).2.
Proof.
  intros Hd. unfold UpdateStatus, exec. apply call_ind; [auto with outbox|].
  intros fs. apply marked_events; [auto with outbox|]. apply keyed_alter; [apply Hd|done].
Qed.

Lemma MarkPublished_marked name m t p e ps d :
  marked name m d → marked name m (MarkPublished t p e ps d).2.
Proof.
  intros Hd. unfold MarkPublished, exec. apply call_ind; cbn [snd]; auto with outbox.
Qed.

Lemma Store_marked name m e d : marked name m d → marked name m (Store e d).2.
Proof.
  intros Hd. unfold Store. apply call_ind; [auto with outbox|]. intros fs.
  destruct (duplicate e _); simpl; [auto with outbox|].
  apply marked_events; [auto with outbox|].
  apply (keyed_insert _ (scanEvent e)). apply Hd.
Qed.

Lemma DeleteCompletedEvents_marked name m t d :
  marked name m d → marked name m (DeleteCompletedEvents t d).2.
Proof.
  intros Hd. unfold DeleteCompletedEvents. apply call_ind; [auto with outbox|]. intros fs.
  apply marked_events; [auto with outbox|]. intros k e [He _]%map_lookup_filter_Some.
  by apply Hd.
Qed.

Lemma RequeueEvent_marked name m t id d :
  marked name m d → marked name m (RequeueEvent t id d).2.
Proof.
  intros Hd. unfold RequeueEvent. apply call_ind; [auto with outbox|]. intros fs.
  change (outbox_events (set_faults fs d)) with (outbox_events d).
  destruct (outbox_events d !! id) as [e|] eqn:He; [|cbn [snd]; auto with outbox].
  destruct (decide _); cbn [snd]; [|auto with outbox]. apply marked_events; [auto with outbox|].
  rewrite <- (marked_keyed _ _ _ Hd _ _ He).
  apply (keyed_insert _ (update_row StatusPending 0 None None t e)). apply Hd.
Qed.

(** ** What a batch contains *)
#[export] Instance by_id_trans : Transitive by_id.
Proof. intros a b c. unfold by_id. lia. Qed.
#[export] Instance by_id_total : Total by_id.
Proof. intros a b. unfold by_id. lia. Qed.

(** The rows of a batch have different identifiers, in ascending order. *)
Definition ascending (rows : list (UUID * Event)) : Prop :=
  StronglySorted (λ a b, a.1 < b.1) rows.

Lemma pending_rows_ascending t name d : ascending (pending_rows t name d).
Proof.
  unfold ascending, pending_rows. set (l := filter _ _).
  assert (NoDup (merge_sort by_id l).*1) as Hnd.
  { rewrite merge_sort_Permutation. unfold l.
    eapply sublist_NoDup; [apply (NoDup_fst_map_to_list (outbox_events d))|].
    apply fmap_sublist, sublist_filter. }
  assert (StronglySorted by_id (merge_sort by_id l)) as Hs.
  { apply StronglySorted_merge_sort; apply _. }
  revert Hnd Hs. generalize (merge_sort by_id l) as rows. induction rows as [|x rows IH].
  { constructor. }
  intros [Hx Hnd]%NoDup_cons Hs. inversion Hs as [|? ? Hs' Hall]; subst.
  constructor; [by apply IH|]. apply Forall_forall. intros y Hy.
  rewrite Forall_forall in Hall. specialize (Hall y Hy). unfold by_id in Hall.
  assert (x.1 ≠ y.1); [|lia]. intros E. apply Hx. rewrite E. by apply list_elem_of_fmap_2.
Qed.

Lemma ascending_take n rows : ascending rows → ascending (take n rows).
Proof.
  unfold ascending. revert n. induction rows as [|x rows IH]; intros [|n] Hs; simpl;
    try constructor.
  - apply IH. by inversion Hs.
  - inversion Hs; subst. by apply Forall_take.
Qed.

Lemma elem_of_pending_rows t name d k e :
  (k, e) ∈ pending_rows t name d ↔
  outbox_events d !! k = Some e ∧ selectable t e = true ∧ above_mark name d k = true.
Proof.
  unfold pending_rows. rewrite merge_sort_Permutation, list_elem_of_filter, elem_of_map_to_list.
  simpl. rewrite andb_true_iff. tauto.
Qed.

Lemma GetPending_marked name m t p limit d events d' :
  marked name m d → GetPendingEventsForPublisher t p limit d = (Ok events, d') →
  marked name m d' ∧ (p = name → ∀ e, e ∈ events → m < ID e).
Proof.
  intros Hd Hget. split.
  { change d' with ((Ok (E := repo_error) events, d').2). rewrite <- Hget.
    unfold GetPendingEventsForPublisher. apply call_ind; [auto with outbox|]. intros fs.
    unfold limited. destruct (limit <? 0); simpl; auto with outbox. }
  intros -> e He.
  assert (∀ fs, limited limit (pending_rows t name (set_faults fs d)).*2 (set_faults fs d) =
    (Ok events, d') → m < ID e) as Hq.
  { intros fs. unfold limited. destruct (limit <? 0); [done|]. intros [= <- _].
    apply list_elem_of_fmap in He as (e' & -> & He'). apply elem_of_take_inv in He'.
    apply list_elem_of_fmap in He' as ([k e''] & -> & Hr).
    apply elem_of_pending_rows in Hr as (Hrow & _ & Habove).
    simpl. apply (marked_keyed _ _ _ Hd) in Hrow as ->.
    destruct (marked_mark _ _ _ Hd) as (m' & Hm & Hle).
    unfold above_mark in Habove. simpl in Habove. rewrite Hm in Habove. lia. }
  unfold GetPendingEventsForPublisher, call in Hget.
  destruct (faults d) as [|[] fs] eqn:E; [|done|by apply (Hq fs)].
  apply (Hq (faults d)). by rewrite set_faults_id.
Qed.

Lemma filter_none {A} (P : A → Prop) `{!∀ x, Decision (P x)} l :
  Forall (λ x, ¬ P x) l → filter P l = [].
Proof. induction 1; [done|]. by rewrite filter_cons_False. Qed.

(** ** No event at or below a mark is sent again *)
Section sends.
Context {W : Type} (tick : W → Time * W) (cancelled : W → bool)
  (Publish : string → Event → W → outcome * W).
Context (config : DispatcherConfig) (names : list string).

Notation drain_event := (drain_event tick cancelled Publish config names).
Notation drain_loop := (drain_loop tick cancelled Publish config names).
Notation drainOnce := (drainOnceForPublisher tick cancelled Publish config names).
Notation apply := (apply tick cancelled Publish config names).

Lemma read_clock_spec (s : sys (W := W)) :
  disp (read_clock tick s).2 = disp s ∧ db (read_clock tick s).2 = db s ∧
  sent (read_clock tick s).2 = sent s.
Proof. unfold read_clock. by destruct (tick (world s)). Qed.

Lemma fail_event_spec name m e err (s : sys (W := W)) :
  (marked name m (db s) → marked name m (db (fail_event tick e err s))) ∧
  sent (fail_event tick e err s) = sent s ∧ disp (fail_event tick e err s) = disp s.
Proof.
  unfold fail_event. pose proof (read_clock_spec s) as (Hd & Hb & Hs).
  destruct (read_clock tick s) as [t s1]. simpl in *. rewrite Hb.
  split_and!; [apply UpdateStatus_marked|done|done].
Qed.

Lemma handleError_spec name m p e err (s : sys (W := W)) :
  (marked name m (db s) → marked name m (db (handleDrainPublishError tick config p e err s))) ∧
  sent (handleDrainPublishError tick config p e err s) = sent s.
Proof.
  unfold handleDrainPublishError. destruct (IsPermanentPublishError err).
  { pose proof (fail_event_spec name m e err s). tauto. }
  set (s1 := set_disp _ s). destruct (_ <=? _).
  - pose proof (fail_event_spec name m e err s1). simpl. tauto.
  - pose proof (read_clock_spec s1) as (Hd & Hb & Hs).
    destruct (read_clock tick s1) as [t s2]. simpl in *. by rewrite Hb.
Qed.

Lemma drain_event_spec name m p e (s : sys (W := W)) :
  (marked name m (db s) → marked name m (db (drain_event p e s).1)) ∧
  ∃ o, sent (drain_event p e s).1 = sent s ++ [(p, e, o)].
Proof.
  unfold Outbox.drain_event. destruct (Publish p e (world s)) as [o w].
  set (s1 := {| disp := disp s |}).
  pose proof (λ err, handleError_spec name m p e err s1) as Herr.
  destruct o as [[err|]|].
  - destruct (cancelled _); simpl; [eauto|]. destruct (Herr err) as [? ->]. eauto.
  - set (s2 := set_disp _ s1). pose proof (read_clock_spec s2) as (Hd & Hb & Hs).
    destruct (read_clock tick s2) as [t s3]. simpl in *. rewrite Hb, Hs.
    split; [apply MarkPublished_marked|eauto].
  - destruct (cancelled _); simpl; [eauto|].
    destruct (Herr (TimeoutError "processing timeout")) as [? ->]. eauto.
Qed.

Lemma drain_loop_spec name m p events (s : sys (W := W)) :
  (marked name m (db s) → marked name m (db (drain_loop p events s))) ∧
  ∃ l, sent (drain_loop p events s) = sent s ++ l ∧
       Forall (λ x, x.1.1 = p ∧ x.1.2 ∈ events) l.
Proof.
  revert s. induction events as [|e events IH]; intros s; simpl.
  { split; [done|]. exists []. by rewrite app_nil_r. }
  destruct (drain_event_spec name m p e s) as (Hm & o & Hs).
  destruct (drain_event p e s) as [s1 b]; simpl in *. destruct b.
  - destruct (IH s1) as (Hm1 & l & -> & Hl). split; [auto|].
    exists ((p, e, o) :: l). rewrite Hs, <- app_assoc. split; [done|]. constructor.
    + split; [done|]. left.
    + eapply Forall_impl; [exact Hl|]. intros x [? ?]. split; [done|]. by right.
  - split; [done|]. exists [(p, e, o)]. split; [done|]. repeat constructor.
Qed.

(** The calls of [name] with an event at or below [m]. *)
Definition sent_below (name : string) (m : UUID) (s : sys (W := W)) :=
  filter (λ x, x.1.1 = name ∧ ID x.1.2 ≤ m) (sent s).

Lemma drainOnce_below name m p (s : sys (W := W)) :
  marked name m (db s) →
  marked name m (db (drainOnce p s)) ∧ sent_below name m (drainOnce p s) = sent_below name m s.
Proof.
  intros Hm. unfold drainOnceForPublisher.
  assert (∀ s1 : sys, db s1 = db s → sent s1 = sent s →
    let s2 :=
      let '(t, s1) := read_clock tick s1 in
      let '(r, b) := GetPendingEventsForPublisher t p (BatchSize config) (db s1) in
      match r with Err _ => set_db b s1 | Ok events => drain_loop p events (set_db b s1) end in
    marked name m (db s2) ∧ sent_below name m s2 = sent_below name m s) as Hbody.
  { intros s1 Hb Hs. pose proof (read_clock_spec s1) as (_ & Hb1 & Hs1).
    destruct (read_clock tick s1) as [t s2]. simpl in Hb1, Hs1.
    rewrite Hb in Hb1. rewrite Hs in Hs1. rewrite <- Hb1 in Hm. clear Hb Hs s1.
    destruct (GetPendingEventsForPublisher t p (BatchSize config) (db s2)) as [[events|err] b] eqn:E.
    - destruct (GetPending_marked _ _ _ _ _ _ _ _ Hm E) as [Hmb Hev].
      destruct (drain_loop_spec name m p events (set_db b s2)) as (Hm' & l & Hl & Hall).
      split; [by apply Hm'|]. unfold sent_below. rewrite Hl. simpl.
      rewrite Hs1, filter_app, (filter_none _ l); [apply app_nil_r|].
      eapply Forall_impl; [exact Hall|]. intros x [Hp Hin] [Hn Hle]. rewrite Hp in Hn.
      specialize (Hev Hn _ Hin). lia.
    - split; [|by unfold sent_below; simpl; rewrite Hs1].
      simpl. replace b with ((Err (A := list Event) err, b).2) by done. rewrite <- E.
      unfold GetPendingEventsForPublisher. apply call_ind; [auto with outbox|]. intros fs.
      unfold limited. destruct (_ <? 0); cbn [snd]; auto with outbox. }
  destruct (Time.IsZero (nextAttempt p (disp s))); [by apply Hbody|].
  pose proof (read_clock_spec s) as (_ & Hb & Hs).
  destruct (read_clock tick s) as [t s1]. simpl in Hb, Hs.
  destruct (Time.Before _ _); [|by apply Hbody].
  unfold sent_below. by rewrite Hb, Hs.
Qed.

(** A drain outside a backoff, with a database that answers. *)
Definition batch (name : string) (s : sys (W := W)) : list (UUID * Event) :=
  take (Z.to_nat (BatchSize config)) (pending_rows (tick (world s)).1 name (db s)).

Lemma drainOnce_batch name (s : sys (W := W)) :
  Time.IsZero (nextAttempt name (disp s)) = true → faults (db s) = [] → 0 ≤ BatchSize config →
  drainOnce name s =
  drain_loop name (scanEvent <$> (batch name s).*2) (read_clock tick s).2.
Proof.
  intros Hn Hf Hb. unfold drainOnceForPublisher, batch. rewrite Hn.
  unfold read_clock. destruct (tick (world s)) as [t w]. simpl.
  unfold GetPendingEventsForPublisher. rewrite call_no_faults by done. unfold limited.
  rewrite (proj2 (Z.ltb_ge _ _)) by done.
  by rewrite (fmap_take snd).
Qed.

Lemma apply_below name m o (s : sys (W := W)) :
  marked name m (db s) →
  marked name m (db (apply s o)) ∧ sent_below name m (apply s o) = sent_below name m s.
Proof.
  intros Hm. destruct o as [p|e| |id]; simpl; [by apply drainOnce_below| | |].
  - split; [by apply Store_marked|done].
  - unfold cleanupCompletedEvents. pose proof (read_clock_spec s) as (_ & Hb & Hs).
    destruct (read_clock tick s) as [t s1]. simpl in *. unfold sent_below. simpl.
    rewrite Hb, Hs. split; [by apply DeleteCompletedEvents_marked|done].
  - pose proof (read_clock_spec s) as (_ & Hb & Hs).
    destruct (read_clock tick s) as [t s1]. simpl in *. unfold sent_below. simpl.
    rewrite Hb, Hs. split; [by apply RequeueEvent_marked|done].
Qed.

Lemma history_below name m ops (s : sys (W := W)) :
  marked name m (db s) →
  marked name m (db (foldl apply s ops)) ∧
  sent_below name m (foldl apply s ops) = sent_below name m s.
Proof.
  revert s. induction ops as [|o ops IH]; intros s Hm; simpl; [done|].
  destruct (apply_below name m o s Hm) as [Hm' Heq].
  destruct (IH _ Hm') as [? Heq']. split; [done|]. by rewrite Heq', Heq.
Qed.

(** ** One event *)
Definition transient (o : outcome) : bool :=
  match o with
  | Replied (Some err) => negb (IsPermanentPublishError err)
  | Replied None => false
  | Expired => true
  end.

Lemma drain_event_ok name e (s : sys (W := W)) :
  (Publish name e (world s)).1 = Replied None → faults (db s) = [] →
  ∃ t s', drain_event name e s = (s', true) ∧ sent s' = sent s ++ [(name, e, Replied None)] ∧
    db s' = markPublished t name e names (db s).
Proof.
  intros Ho Hf. unfold Outbox.drain_event. destruct (Publish name e (world s)) as [o w].
  simpl in Ho. subst o. set (s2 := set_disp _ _).
  pose proof (read_clock_spec s2) as (_ & Hb & Hs). destruct (read_clock tick s2) as [t s3].
  simpl in Hb, Hs. exists t. eexists. split; [done|]. simpl. split; [done|].
  rewrite Hb. unfold MarkPublished, exec. by rewrite call_no_faults.
Qed.

(** A transient failure counts against the publisher; the one that reaches
    [MaxRetries] fails the event at hand. *)
Lemma handleError_transient name e err (s : sys (W := W)) :
  IsPermanentPublishError err = false → faults (db s) = [] →
  let n := failCount name (disp s) + 1 in
  let s' := handleDrainPublishError tick config name e err s in
  sent s' = sent s ∧
  if MaxRetries config <=? n then
    failCount name (disp s') = 0 ∧ ∃ t msg, db s' =
      set_events (alter (λ r, update_row StatusFailed (RetryCount r) (NextRetryAt r) msg t r) (ID e)
                    (outbox_events (db s))) (db s)
  else failCount name (disp s') = n ∧ db s' = db s.
Proof.
  intros Herr Hf n s'. subst s'. unfold handleDrainPublishError. rewrite Herr. fold n.
  set (s1 := set_disp _ s). destruct (MaxRetries config <=? n).
  - unfold fail_event. pose proof (read_clock_spec s1) as (Hd & Hb & Hs).
    destruct (read_clock tick s1) as [t s2]. simpl in Hd, Hb, Hs. simpl. split; [done|].
    split; [unfold failCount; simpl; by rewrite lookup_insert_eq|]. exists t, (Some (Error err)).
    rewrite Hb. unfold UpdateStatus, exec. by rewrite call_no_faults.
  - pose proof (read_clock_spec s1) as (Hd & Hb & Hs).
    destruct (read_clock tick s1) as [t s2]. simpl in Hd, Hb, Hs. simpl.
    split_and!; [done| |done]. unfold failCount. simpl. rewrite Hd. simpl.
    by rewrite lookup_insert_eq.
Qed.

Lemma drain_event_transient name e (s : sys (W := W)) :
  transient (Publish name e (world s)).1 = true → cancelled (Publish name e (world s)).2 = false →
  faults (db s) = [] →
  let n := failCount name (disp s) + 1 in
  ∃ s', drain_event name e s = (s', true) ∧
  if MaxRetries config <=? n then
    failCount name (disp s') = 0 ∧ ∃ t msg, db s' =
      set_events (alter (λ r, update_row StatusFailed (RetryCount r) (NextRetryAt r) msg t r) (ID e)
                    (outbox_events (db s))) (db s)
  else failCount name (disp s') = n ∧ db s' = db s.
Proof.
  intros Ho Hc Hf n. unfold Outbox.drain_event.
  destruct (Publish name e (world s)) as [o w]. simpl in Ho, Hc. set (s1 := {| disp := disp s |}).
  assert (∀ err, IsPermanentPublishError err = false →
    ∃ s', (handleDrainPublishError tick config name e err s1, true) = (s', true) ∧
    if MaxRetries config <=? n then
      failCount name (disp s') = 0 ∧ ∃ t msg, db s' =
        set_events (alter (λ r, update_row StatusFailed (RetryCount r) (NextRetryAt r) msg t r) (ID e)
                      (outbox_events (db s))) (db s)
    else failCount name (disp s') = n ∧ db s' = db s) as H.
  { intros err Herr. eexists. split; [done|].
    by destruct (handleError_transient name e err s1 Herr Hf) as [_ ?]. }
  destruct o as [[err|]|]; simpl in Ho |- *; [|done|].
  - rewrite Hc. apply H. by apply negb_true_iff.
  - rewrite Hc. by apply H.
Qed.

(** ** A whole batch *)

(** What became of the row of the event that failed as the [n]-th of its
    publisher. *)
Definition after_failure (M n : Z) (r r' : Event) : Prop :=
  if n mod M =? 0 then EventStatus r' = StatusFailed ∧ NextRetryAt r' = NextRetryAt r
  else r' = r.

Lemma transient_step name k e (s : sys (W := W)) :
  let M := MaxRetries config in
  let c := failCount name (disp s) in
  transient (Publish name e (world s)).1 = true → cancelled (Publish name e (world s)).2 = false →
  faults (db s) = [] → 0 ≤ c < M → ID e = k →
  ∃ s1, drain_event name e s = (s1, true) ∧ faults (db s1) = [] ∧
    failCount name (disp s1) = (c + 1) mod M ∧
    outbox_publisher_progress (db s1) = outbox_publisher_progress (db s) ∧
    (∀ k', k' ≠ k → outbox_events (db s1) !! k' = outbox_events (db s) !! k') ∧
    (∀ r, outbox_events (db s) !! k = Some r →
       ∃ r', outbox_events (db s1) !! k = Some r' ∧ after_failure M (c + 1) r r').
Proof.
  intros M c Ht Hcn Hf Hc He.
  destruct (drain_event_transient name e s Ht Hcn Hf) as (s1 & -> & Hs1).
  exists s1. rewrite He in Hs1. fold M c in Hs1. split; [done|]. unfold after_failure.
  destruct (Z.leb_spec M (c + 1)) as [Hle|Hlt].
  - destruct Hs1 as [-> (t & msg & ->)]. assert (c + 1 = M) as -> by lia.
    rewrite Z.mod_same by lia. split_and!; [done..| |].
    + intros k' Hk'. simpl. by rewrite lookup_alter_ne by done.
    + intros r Hr. simpl. rewrite lookup_alter_eq, Hr. by eexists.
  - destruct Hs1 as [-> ->]. rewrite Z.mod_small by lia. split_and!; [done..|].
    intros r Hr. exists r. by rewrite (proj2 (Z.eqb_neq _ _)) by lia.
Qed.

Lemma drain_loop_transient name :
  let M := MaxRetries config in 0 < M →
  (∀ e w, transient (Publish name e w).1 = true ∧ cancelled (Publish name e w).2 = false) →
  ∀ rows (s : sys (W := W)), faults (db s) = [] →
  0 ≤ failCount name (disp s) < M → NoDup rows.*1 → (∀ r, r ∈ rows → ID r.2 = r.1) →
  let s' := drain_loop name (scanEvent <$> rows.*2) s in
  outbox_publisher_progress (db s') = outbox_publisher_progress (db s) ∧
  (∀ k, k ∉ rows.*1 → outbox_events (db s') !! k = outbox_events (db s) !! k) ∧
  (∀ i k e r, rows !! i = Some (k, e) → outbox_events (db s) !! k = Some r →
     ∃ r', outbox_events (db s') !! k = Some r' ∧
       after_failure M (failCount name (disp s) + Z.of_nat i + 1) r r').
Proof.
  intros M HM Hpub. induction rows as [|[k e] rows IH]; intros s Hf Hc Hnd Hid; simpl.
  { split_and!; [done|done|]. intros i ? ? ? Hi. by rewrite lookup_nil in Hi. }
  apply NoDup_cons in Hnd as [Hk Hnd]. destruct (Hpub (scanEvent e) (world s)) as [Ht Hcn].
  destruct (transient_step name k (scanEvent e) s Ht Hcn Hf Hc)
    as (s1 & -> & Hf1 & Hm1 & Hp1 & Hne & Heq); [by apply (Hid (k, e)); left|].
  fold M in Hm1, Heq. set (c := failCount name (disp s)) in *.
  destruct (IH s1 Hf1) as (Hp & Hout & Hin); [|done| |].
  { rewrite Hm1. by apply Z.mod_pos_bound. }
  { intros r Hr. apply Hid. by right. }
  split_and!.
  - by etrans; [exact Hp|].
  - intros k' [Hk1 Hk2]%not_elem_of_cons. by etrans; [apply Hout|apply Hne].
  - intros [|i] k' e' r Hi Hr; simpl in Hi.
    + injection Hi as <- <-. destruct (Heq r Hr) as (r' & Hr' & Hif). exists r'.
      rewrite Z.add_0_r. split; [|done]. by etrans; [apply Hout|].
    + assert (k' ≠ k) as Hkk.
      { intros ->. apply Hk. apply list_elem_of_fmap. exists (k, e'). split; [done|].
        by eapply list_elem_of_lookup_2. }
      destruct (Hin i k' e' r Hi) as (r' & Hr' & Hif); [by rewrite Hne|].
      exists r'. split; [done|]. unfold after_failure in *. rewrite Hm1 in Hif.
      rewrite <- Z.add_assoc, Zplus_mod_idemp_l in Hif.
      by replace (c + Z.of_nat (S i) + 1) with (c + 1 + (Z.of_nat i + 1)) by lia.
Qed.

Lemma batch_facts name (s : sys (W := W)) :
  (∀ k e, outbox_events (db s) !! k = Some e → ID e = k) →
  NoDup (batch name s).*1 ∧ ascending (batch name s) ∧
  (∀ r, r ∈ batch name s → ID r.2 = r.1 ∧ outbox_events (db s) !! r.1 = Some r.2 ∧
     above_mark name (db s) r.1 = true).
Proof.
  intros Hk. assert (ascending (batch name s)) as Hasc.
  { apply ascending_take, pending_rows_ascending. }
  split_and!; [|done|].
  - revert Hasc. unfold ascending. generalize (batch name s) as rows.
    induction 1 as [|x rows Hs IH Hall]; simpl; constructor; [|done].
    intros (y & Hxy & Hy)%list_elem_of_fmap. rewrite Forall_forall in Hall.
    specialize (Hall y Hy). lia.
  - intros [k e] (Hr & _ & Ha)%elem_of_take_inv%elem_of_pending_rows. simpl. eauto.
Qed.

(** Every publish succeeds, and [name] is the only publisher. *)
Lemma markPublished_only t name e d :
  above_mark name d (ID e) = true →
  markPublished t name e [name] d =
  set_events (alter (λ r, update_row StatusCompleted (RetryCount r) (NextRetryAt r) None t r) (ID e)
                (outbox_events d))
    (set_progress (<[name := ID e]> (outbox_publisher_progress d)) d).
Proof.
  intros Ha. unfold markPublished, upsertPublisherProgress, above_mark in *. simpl.
  rewrite lookup_insert_eq.
  destruct (outbox_publisher_progress d !! name) as [last|].
  - rewrite Ha. by rewrite (proj2 (Z.ltb_ge _ _)) by lia.
  - by rewrite (proj2 (Z.ltb_ge _ _)) by lia.
Qed.

Lemma drain_loop_ok name :
  names = [name] →
  ∀ rows (s : sys (W := W)),
  (∀ r w, r ∈ rows → (Publish name (scanEvent r.2) w).1 = Replied None) →
  faults (db s) = [] → ascending rows →
  (∀ r, r ∈ rows → ID r.2 = r.1 ∧ outbox_events (db s) !! r.1 = Some r.2 ∧
     above_mark name (db s) r.1 = true) →
  let s' := drain_loop name (scanEvent <$> rows.*2) s in
  sent s' = sent s ++ ((λ r, (name, scanEvent r.2, Replied None)) <$> rows) ∧
  (∀ k, k ∉ rows.*1 → outbox_events (db s') !! k = outbox_events (db s) !! k) ∧
  (∀ k e, (k, e) ∈ rows → ∃ t, outbox_events (db s') !! k =
     Some (update_row StatusCompleted (RetryCount e) (NextRetryAt e) None t e)) ∧
  outbox_publisher_progress (db s') !! name =
    match last rows with
    | Some r => Some r.1
    | None => outbox_publisher_progress (db s) !! name
    end.
Proof.
  intros Hn. induction rows as [|[k e] rows IH]; intros s Hpub Hf Hasc Hr.
  { simpl. rewrite app_nil_r. split_and!; try done. intros ? ? H. by apply elem_of_nil in H. }
  inversion_clear Hasc as [|? ? Hasc' Hall]. rewrite Forall_forall in Hall. simpl in Hall.
  destruct (Hr (k, e) ltac:(left)) as (Hid & Hrow & Habove). simpl in Hid, Hrow, Habove.
  destruct (drain_event_ok name (scanEvent e) s (Hpub (k, e) _ ltac:(left)) Hf) as (t & s1 & Hev & Hs1 & Hd1).
  rewrite Hn, markPublished_only in Hd1 by (simpl; by rewrite Hid).
  change (ID (scanEvent e)) with (ID e) in Hd1. rewrite Hid in Hd1.
  destruct (IH s1) as (Hsent & Hout & Hin & Hmark).
  { intros r w Hin. apply Hpub. by right. }
  { by rewrite Hd1. }
  { done. }
  { intros r Hin. destruct (Hr r ltac:(by right)) as (? & Hrr & _). specialize (Hall r Hin).
    rewrite Hd1. unfold above_mark. simpl. rewrite lookup_insert_eq, lookup_alter_ne by lia.
    split_and!; [done|done|lia]. }
  assert (k ∉ rows.*1) as Hk.
  { intros (r & Hkr & Hin')%list_elem_of_fmap. specialize (Hall r Hin'). lia. }
  simpl. rewrite Hev. split_and!.
  - etrans; [exact Hsent|]. by rewrite Hs1, <- app_assoc.
  - intros k' [Hk1 Hk2]%not_elem_of_cons. etrans; [by apply Hout|].
    rewrite Hd1. simpl. by rewrite lookup_alter_ne by congruence.
  - intros k' e' [[= -> ->]|Hin']%elem_of_cons; [|by apply Hin].
    exists t. etrans; [by apply Hout|]. rewrite Hd1. simpl. by rewrite lookup_alter_eq, Hrow.
  - etrans; [exact Hmark|]. rewrite last_cons. destruct (last rows); [done|].
    rewrite Hd1. simpl. by rewrite lookup_insert_eq.
Qed.

(** Completing the rows of a batch keeps every row under its identifier. *)
Lemma drained_keyed rows (es es' : gmap UUID Event) :
  (∀ k e, es !! k = Some e → ID e = k) → (∀ r, r ∈ rows → ID r.2 = r.1) →
  (∀ k e, (k, e) ∈ rows → ∃ t, es' !! k =
     Some (update_row StatusCompleted (RetryCount e) (NextRetryAt e) None t e)) →
  (∀ k, k ∉ rows.*1 → es' !! k = es !! k) →
  ∀ k e, es' !! k = Some e → ID e = k.
Proof.
  intros Hes Hid Hin Hout k e He. destruct (decide (k ∈ rows.*1)) as [Hk|Hk].
  - apply list_elem_of_fmap in Hk as ([k' e'] & -> & Hr). destruct (Hin k' e' Hr) as (t & Ht).
    simpl in He. rewrite Ht in He. injection He as <-. by apply (Hid (k', e')).
  - rewrite Hout in He by done. by apply Hes.
Qed.

(** The first event of a batch fails for the moment, the others succeed. *)
Lemma drain_first_fails name k1 e1 rows (s : sys (W := W)) :
  names = [name] → Time.IsZero (nextAttempt name (disp s)) = true → faults (db s) = [] →
  0 ≤ BatchSize config → failCount name (disp s) + 1 < MaxRetries config →
  (∀ k e, outbox_events (db s) !! k = Some e → ID e = k) →
  batch name s = (k1, e1) :: rows → rows ≠ [] →
  (∀ e w, ID e = k1 → transient (Publish name e w).1 = true ∧ cancelled (Publish name e w).2 = false) →
  (∀ e w, ID e ≠ k1 → (Publish name e w).1 = Replied None) →
  let s1 := drainOnce name s in
  outbox_events (db s1) !! k1 = Some e1 ∧ marked name k1 (db s1).
Proof.
  intros Hn Hnext Hf Hb Hc Hk Hbatch Hne Hfail Hsucc. rewrite drainOnce_batch by done.
  destruct (batch_facts name s Hk) as (_ & Hasc & Hrows). rewrite Hbatch in Hasc, Hrows |- *.
  inversion_clear Hasc as [|? ? Hasc' Hall]. rewrite Forall_forall in Hall. simpl in Hall.
  destruct (Hrows (k1, e1) ltac:(left)) as (Hid & Hrow & _). simpl in Hid, Hrow.
  pose proof (read_clock_spec s) as (Hd & Hdb & _). set (s0 := (read_clock tick s).2) in *.
  destruct (Hfail (scanEvent e1) (world s0) Hid) as [Ht Hcn].
  destruct (drain_event_transient name (scanEvent e1) s0 Ht Hcn) as (s1 & Hev & Hs1).
  { by rewrite Hdb. }
  rewrite Hd, (proj2 (Z.leb_gt _ _)) in Hs1 by done. destruct Hs1 as [_ Hs1]. rewrite Hdb in Hs1.
  assert (∀ r, r ∈ rows → k1 < r.1 ∧ ID r.2 = r.1 ∧
    outbox_events (db s1) !! r.1 = Some r.2 ∧ above_mark name (db s1) r.1 = true) as Hrows1.
  { intros r Hr. rewrite Hs1. split; [by apply Hall|]. apply Hrows. by right. }
  destruct (drain_loop_ok name Hn rows s1) as (_ & Hout & Hin & Hmark).
  { intros r w Hr. destruct (Hrows1 r Hr) as (? & ? & _). apply Hsucc. simpl. lia. }
  { by rewrite Hs1. }
  { done. }
  { intros r Hr. by destruct (Hrows1 r Hr). }
  simpl. rewrite Hev. split.
  - etrans; [apply Hout|by rewrite Hs1].
    intros (r & -> & Hr)%list_elem_of_fmap. specialize (Hall r Hr). lia.
  - split.
    { apply (drained_keyed rows (outbox_events (db s))); [done| |done|].
      - intros r Hr. by destruct (Hrows1 r Hr) as (_ & ? & _).
      - intros k Hk'. etrans; [by apply Hout|]. by rewrite Hs1. }
    destruct (last rows) as [r|] eqn:Hl; [|by apply last_None in Hl].
    exists r.1. split; [exact Hmark|]. apply Z.lt_le_incl, Hall.
    apply last_Some in Hl as (l & ->). apply elem_of_app. right. by left.
Qed.
End sends.

(** C40: One drain delivers its whole batch. When there is one publisher, no
    backoff is pending for it, every call of the database and every [Publish]
    succeeds, and [BatchSize] is not negative, the drain calls [Publish] once for each of the first
    [BatchSize] due events above the publisher's mark, in ascending order of
    identifiers, completes exactly those rows, leaves every other row alone
    and moves the mark to the last of them. *)
Theorem drain_delivers {W} (tick : W → Time * W) cancelled Publish config name (s : sys) :
  (∀ k e, outbox_events (db s) !! k = Some e → ID e = k) →
  faults (db s) = [] → Time.IsZero (nextAttempt name (disp s)) = true → 0 ≤ BatchSize config →
  (∀ e w, (Publish name e w).1 = Replied None) →
  let rows := take (Z.to_nat (BatchSize config)) (pending_rows (tick (world s)).1 name (db s)) in
  let s' := drainOnceForPublisher tick cancelled Publish config [name] name s in
  ascending rows ∧
  sent s' = sent s ++ ((λ r, (name, scanEvent r.2, Replied None)) <$> rows) ∧
  (∀ k e, (k, e) ∈ rows → ∃ t, outbox_events (db s') !! k =
     Some (update_row StatusCompleted (RetryCount e) (NextRetryAt e) None t e)) ∧
  (∀ k, k ∉ rows.*1 → outbox_events (db s') !! k = outbox_events (db s) !! k) ∧
  outbox_publisher_progress (db s') !! name =
    match last rows with
    | Some r => Some r.1
    | None => outbox_publisher_progress (db s) !! name
    end.
Proof.
  intros Hk Hf Hn Hb Hpub rows s'. subst s'. rewrite drainOnce_batch by done.
  change (batch tick config name s) with rows.
  destruct (batch_facts tick config name s Hk) as (_ & Hasc & Hrows).
  change (batch tick config name s) with rows in Hasc, Hrows.
  destruct (read_clock_spec tick s) as (_ & Hdb & Hsent).
  destruct (drain_loop_ok tick cancelled Publish config [name] name eq_refl rows
              (read_clock tick s).2) as (H1 & H2 & H3 & H4); [auto|by rewrite Hdb|done| |].
  { by rewrite Hdb. }
  rewrite Hsent in H1. rewrite Hdb in H2, H4. done.
Qed.

(** Retries are counted per publisher, not per event. When every publish
    of a drain fails for the moment, the batch's events count one after the
    other, and the one on which the count reaches [MaxRetries] is
    dead-lettered, with no time for a retry set, whatever its own number of
    attempts; the others keep their rows. *)
Theorem failing_batch_dead_letters {W} (tick : W → Time * W) cancelled Publish config names name
    (s : sys) i k e :
  (∀ k e, outbox_events (db s) !! k = Some e → ID e = k) →
  faults (db s) = [] → Time.IsZero (nextAttempt name (disp s)) = true → 0 ≤ BatchSize config →
  0 ≤ failCount name (disp s) < MaxRetries config →
  (∀ e w, transient (Publish name e w).1 = true ∧ cancelled (Publish name e w).2 = false) →
  take (Z.to_nat (BatchSize config)) (pending_rows (tick (world s)).1 name (db s)) !! i = Some (k, e) →
  let s' := drainOnceForPublisher tick cancelled Publish config names name s in
  ∃ e', outbox_events (db s') !! k = Some e' ∧
    if (failCount name (disp s) + Z.of_nat i + 1) mod MaxRetries config =? 0
    then EventStatus e' = StatusFailed ∧ NextRetryAt e' = NextRetryAt e
    else e' = e.
Proof.
  intros Hk Hf Hn Hb Hc Hpub Hi s'. subst s'. rewrite drainOnce_batch by done.
  destruct (batch_facts tick config name s Hk) as (Hnd & _ & Hrows).
  destruct (read_clock_spec tick s) as (Hd & Hdb & _).
  destruct (drain_loop_transient tick cancelled Publish config names name ltac:(lia) Hpub
              (batch tick config name s) (read_clock tick s).2) as (_ & _ & Hin).
  - by rewrite Hdb.
  - by rewrite Hd.
  - done.
  - intros r Hr. by apply Hrows.
  - rewrite <- Hd. apply (Hin i k e e Hi). rewrite Hdb.
    apply list_elem_of_lookup_2 in Hi. by apply (Hrows (k, e)).
Qed.

(** An event that fails for the moment is lost when a later one of its
    batch succeeds. The drain leaves its row as it was, still due, but the
    mark has passed it: whatever drains, stores, cleanups and requeues
    follow, the publisher is never called with it again. *)
Theorem failed_event_skipped {W} (tick : W → Time * W) cancelled Publish config name
    (s : sys) k1 e1 rows :
  Time.IsZero (nextAttempt name (disp s)) = true → faults (db s) = [] → 0 ≤ BatchSize config →
  failCount name (disp s) + 1 < MaxRetries config →
  (∀ k e, outbox_events (db s) !! k = Some e → ID e = k) →
  take (Z.to_nat (BatchSize config)) (pending_rows (tick (world s)).1 name (db s)) = (k1, e1) :: rows →
  rows ≠ [] →
  (∀ e w, ID e = k1 → transient (Publish name e w).1 = true ∧ cancelled (Publish name e w).2 = false) →
  (∀ e w, ID e ≠ k1 → (Publish name e w).1 = Replied None) →
  let s1 := drainOnceForPublisher tick cancelled Publish config [name] name s in
  outbox_events (db s1) !! k1 = Some e1 ∧
  ∀ ops, sent_below name k1 (foldl (apply tick cancelled Publish config [name]) s1 ops) =
         sent_below name k1 s1.
Proof.
  intros Hn Hf Hb Hc Hk Hbatch Hne Hfail Hsucc s1.
  destruct (drain_first_fails tick cancelled Publish config [name] name k1 e1 rows s)
    as (Hrow & Hm); try done.
  split; [done|]. intros ops. by apply history_below.
Qed.

(** ** Concrete drains

    Two events wait; the publisher answers by identifier. *)
Module Runs.
Definition event (id : UUID) : Event := NewEvent id 0 "invoice.paid" "{}" None None.

Definition start : sys (W := unit) :=
  {| disp := {| publisherFailCount := ∅; publisherNextAttempt := ∅ |};
     db := {| outbox_events := <[1 := event 1]> {[2 := event 2]};
              outbox_publisher_progress := ∅; faults := [] |};
     world := tt; sent := [] |}.

Definition clock (w : unit) : Time * unit := (1000, w).
Definition never (w : unit) : bool := false.
Definition succeed (name : string) (e : Event) (w : unit) : outcome * unit := (Replied None, w).
Definition fail (name : string) (e : Event) (w : unit) : outcome * unit :=
  (Replied (Some (Plain "connection refused")), w).
Definition fail_first (name : string) (e : Event) (w : unit) : outcome * unit :=
  if ID e =? 1 then (Expired, w) else (Replied None, w).

Definition two_retries : DispatcherConfig :=
  {| PollInterval := 5 * Time.Second; BatchSize := 10; MaxRetries := 2;
     RetryBackoffFactor := f_of_int 2; CleanupInterval := 1 * Time.Hour;
     CompletedEventTTL := 24 * Time.Hour; ProcessingTimeout := 30 * Time.Second;
     ShardCount := 0; OwnedShards := []; HeartbeatInterval := 30 * Time.Second |}.

Lemma start_keyed k e : outbox_events (db start) !! k = Some e → ID e = k.
Proof.
  simpl. rewrite lookup_insert_Some, lookup_singleton_Some.
  intros [[<- <-]|[_ [<- <-]]]; reflexivity.
Qed.

Lemma drain_delivers_witness :
  let s' := drainOnceForPublisher clock never succeed DefaultDispatcherConfig ["console"] "console" start in
  sent s' = [("console", event 1, Replied None); ("console", event 2, Replied None)] ∧
  outbox_publisher_progress (db s') !! "console" = Some 2.
Proof.
  destruct (drain_delivers clock never succeed DefaultDispatcherConfig "console" start start_keyed)
    as (_ & Hs & _ & _ & Hm); [reflexivity|reflexivity|discriminate|reflexivity|].
  split; [exact Hs|exact Hm].
Defined.

Lemma failing_batch_dead_letters_witness :
  let s' := drainOnceForPublisher clock never fail two_retries ["console"] "console" start in
  ∃ e', outbox_events (db s') !! 2 = Some e' ∧ EventStatus e' = StatusFailed ∧ NextRetryAt e' = None.
Proof.
  apply (failing_batch_dead_letters clock never fail two_retries ["console"] "console" start
           1 2 (event 2) start_keyed); [reflexivity|reflexivity|discriminate| |by split|reflexivity].
  vm_compute. by split.
Defined.

Lemma failed_event_skipped_witness :
  let s1 := drainOnceForPublisher clock never fail_first DefaultDispatcherConfig ["console"] "console" start in
  outbox_events (db s1) !! 1 = Some (event 1) ∧
  ∀ ops, sent_below "console" 1
           (foldl (apply clock never fail_first DefaultDispatcherConfig ["console"]) s1 ops) =
         [("console", event 1, Expired)].
Proof.
  destruct (failed_event_skipped clock never fail_first DefaultDispatcherConfig "console" start
              1 (event 1) [(2, event 2)]) as [Hrow Hops];
    [reflexivity|reflexivity|discriminate|reflexivity|exact start_keyed|reflexivity|discriminate| | |].
  - intros e w Hid. unfold fail_first. by rewrite Hid.
  - intros e w Hid. unfold fail_first. by rewrite (proj2 (Z.eqb_neq _ _) Hid).
  - split; [exact Hrow|]. intros ops. etrans; [apply Hops|]. vm_compute. reflexivity.
Defined.

Example backoff_ex :
  map (λ n, drain_backoff (f_of_int 2) n / Time.Second) [1; 2; 3; 11; 12; 5000] =
  [2; 4; 8; 2048; 3600; 3600].
Proof. vm_compute. reflexivity. Qed.
End Runs.
