(* ===== verification/Cdc.v ===== *)
(** * Change data capture

    - [PgOutput] models [internal/cdc/pgoutput.go], the decoder of
      PostgreSQL's logical replication messages;
    - [Sinks] models [internal/cdc/sink.go] and the key and topic of
      [internal/cdc/kafka_sink.go];
    - [Consumer] models the batch handling, the reconnection loop and the
      status update of [internal/cdc/consumer.go].

    A byte is an [ascii]; positions are integers. Every index and slice
    expression is checked: [None] is the run-time panic of an index out of
    range (or a loop that did not end), [Some (Err e)] a returned error. *)
From stdpp Require Import base gmap strings list.
From Stdlib Require Import ZArith Lia Ascii String.
From S2P Require Import Prelude GoStrings.

Module PgOutput.
Notation bytes := (list ascii) (only parsing).
Notation length := List.length.
Notation concat := List.concat.

Definition len (d : bytes) : Z := Z.of_nat (length d).

(** [d[i]] and [d[a:b]] *)
Definition at_ (d : bytes) (i : Z) : option ascii :=
  if i <? 0 then None else d !! Z.to_nat i.

Definition slice (d : bytes) (a b : Z) : option bytes :=
  if (0 <=? a) && (a <=? b) && (b <=? len d)
  then Some (take (Z.to_nat (b - a)) (drop (Z.to_nat a) d)) else None.

(** [binary.BigEndian.Uint16], [Uint32] and [Uint64] of a slice that has that
    length. *)
Definition big_endian (d : bytes) : Z := foldl (λ n c, n * 256 + code c) 0 d.

(** [binary.BigEndian.PutUint16], [PutUint32] and [PutUint64] *)
Fixpoint put_uint (n : nat) (v : Z) : bytes :=
  match n with
  | O => []
  | S n => put_uint n (v / 256) ++ [ascii_of_nat (Z.to_nat (v mod 256))]
  end.

Definition NUL : ascii := ascii_of_nat 0.

(** [for pos < len(d) && d[pos] != 0 { pos++ }] *)
Fixpoint run_length (d : bytes) : Z :=
  match d with
  | [] => 0
  | c :: d => if decide (c = NUL) then 0 else 1 + run_length d
  end.
Definition scan_nul (d : bytes) (pos : Z) : Z := pos + run_length (drop (Z.to_nat pos) d).

Definition to_string (d : bytes) : string := string_of_list_ascii d.

(** ** Messages *)
Record colMeta := { col_name : string; typeOID : Z; isKey : bool; isNotNull : bool }.
Record relMeta := { rel_id : Z; namespace : string; rel_name : string; columns : list colMeta }.
Notation pgOutputDecoder := (gmap Z relMeta) (only parsing).

(** A [map[string]any] holds [nil] or a string per column. *)
Notation row := (gmap string (option string)) (only parsing).

Record Change := {
  Schema : string;
  Table : string;
  Op : string;
  Before : option row;
  After : option row;
  LSN : Z;
}.

Inductive decode_error :=
| TooShort (what : string)
| Unterminated (what : string)
| Missing (what : string)
| ExpectedNewTuple
| UnknownRelation (id : Z)
| UnexpectedMarker (column : Z).

(** What a decoding function does: panic, return an error, or return. *)
Notation M A := (option (result decode_error A)) (only parsing).
Notation "'let!' x := c 'in' k" :=
  (match c with Some x => k | None => None end)
  (at level 200, x pattern, c at level 200, k at level 200, right associativity).
Notation "'let?!' x := c 'in' k" :=
  (match c with Some (Ok x) => k | Some (Err e) => Some (Err e) | None => None end)
  (at level 200, x pattern, c at level 200, k at level 200, right associativity).

(** ** Tuples *)
Fixpoint tuple_loop (d : bytes) (cols : list colMeta) (i pos : Z) (res : row) : M (row * Z) :=
  match cols with
  | [] => Some (Ok (res, pos))
  | col :: cols =>
      if len d <=? pos then Some (Ok (res, pos))
      else
        let! marker := at_ d pos in
        if decide (marker = "n"%char ∨ marker = "u"%char) then
          tuple_loop d cols (i + 1) (pos + 1) (<[col_name col := None]> res)
        else if decide (marker = "t"%char) then
          let pos := pos + 1 in
          if len d <? pos + 4 then Some (Ok (res, pos))
          else
            let! lenBytes := slice d pos (pos + 4) in
            let valLen := big_endian lenBytes in
            let pos := pos + 4 in
            if len d <? pos + valLen then Some (Ok (res, pos))
            else
              let! value := slice d pos (pos + valLen) in
              tuple_loop d cols (i + 1) (pos + valLen)
                (<[col_name col := Some (to_string value)]> res)
        else Some (Err (UnexpectedMarker i))
  end.

(** The loop runs over [i < colCount && i < len(columns)]. *)
Definition decodeTuple (d : bytes) (cols : list colMeta) : M (row * Z) :=
  if len d <? 2 then Some (Err (TooShort "tuple"))
  else
    let! countBytes := slice d 0 2 in
    let colCount := big_endian countBytes in
    tuple_loop d (take (Z.to_nat colCount) cols) 0 2 ∅.

(** ** Relation *)
Fixpoint column_loop (d : bytes) (n : nat) (pos : Z) (cols : list colMeta) : M (list colMeta * Z) :=
  match n with
  | O => Some (Ok (cols, pos))
  | S n =>
      if len d <=? pos then Some (Ok (cols, pos))
      else
        let colNameStart := pos in
        let pos := scan_nul d pos in
        if len d <=? pos then Some (Ok (cols, pos))
        else
          let! nameBytes := slice d colNameStart pos in
          let pos := pos + 1 in
          if len d <? pos + 8 then Some (Ok (cols, pos))
          else
            let! oidBytes := slice d pos (pos + 4) in
            let pos := pos + 8 in
            if len d <=? pos then Some (Ok (cols, pos))
            else
              let! flags := at_ d pos in
              column_loop d n (pos + 1)
                (cols ++ [{| col_name := to_string nameBytes; typeOID := big_endian oidBytes;
                             isKey := Z.testbit (code flags) 0;
                             isNotNull := Z.testbit (code flags) 1 |}])
  end.

Definition decodeRelation (d : bytes) : M (relMeta * Z) :=
  if len d <? 10 then Some (Err (TooShort "relation"))
  else
    let! idBytes := slice d 1 5 in
    let nsEnd := scan_nul d 5 in
    if len d <=? nsEnd then Some (Err (Unterminated "namespace"))
    else
      let! ns := slice d 5 nsEnd in
      let nameStart := nsEnd + 1 in
      let nameEnd := scan_nul d nameStart in
      if len d <=? nameEnd then Some (Err (Unterminated "name"))
      else
        let! name := slice d nameStart nameEnd in
        let pos := nameEnd + 1 in
        if len d <=? pos then Some (Err (Missing "replica identity"))
        else
          let pos := pos + 1 in
          if len d <? pos + 2 then Some (Err (Missing "column count"))
          else
            let! countBytes := slice d pos (pos + 2) in
            let colCount := big_endian countBytes in
            let?! (cols, pos) := column_loop d (Z.to_nat colCount) (pos + 2) [] in
            Some (Ok ({| rel_id := big_endian idBytes; namespace := to_string ns;
                         rel_name := to_string name; columns := cols |}, pos)).

(** ** Row messages *)
Definition decodeInsert (rels : pgOutputDecoder) (d : bytes) : M (Change * Z) :=
  if len d <? 6 then Some (Err (TooShort "insert"))
  else
    let! idBytes := slice d 1 5 in
    let relID := big_endian idBytes in
    let! marker := at_ d 5 in
    if decide (marker ≠ "N"%char) then Some (Err ExpectedNewTuple)
    else match rels !! relID with
    | None => Some (Err (UnknownRelation relID))
    | Some rel =>
        let! rest := slice d 6 (len d) in
        let?! (after, n) := decodeTuple rest (columns rel) in
        Some (Ok ({| Schema := namespace rel; Table := rel_name rel; Op := "insert";
                     Before := None; After := Some after; LSN := 0 |}, 6 + n))
    end.

(** [if pos < len(data) { switch data[pos] { case 'K', 'O': ... } }] *)
Definition old_tuple (d : bytes) (rel : relMeta) (pos : Z) : M (option row * Z) :=
  if len d <=? pos then Some (Ok (None, pos))
  else
    let! marker := at_ d pos in
    if decide (marker = "K"%char ∨ marker = "O"%char) then
      let! rest := slice d (pos + 1) (len d) in
      let?! (before, n) := decodeTuple rest (columns rel) in
      Some (Ok (Some before, pos + (1 + n)))
    else Some (Ok (None, pos)).

(** [if pos < len(data) && data[pos] == 'N' { ... }] *)
Definition new_tuple (d : bytes) (rel : relMeta) (pos : Z) : M (option row * Z) :=
  if len d <=? pos then Some (Ok (None, pos))
  else
    let! marker := at_ d pos in
    if decide (marker = "N"%char) then
      let! rest := slice d (pos + 1) (len d) in
      let?! (after, n) := decodeTuple rest (columns rel) in
      Some (Ok (Some after, pos + (1 + n)))
    else Some (Ok (None, pos)).

Definition decodeUpdate (rels : pgOutputDecoder) (d : bytes) : M (Change * Z) :=
  if len d <? 6 then Some (Err (TooShort "update"))
  else
    let! idBytes := slice d 1 5 in
    let relID := big_endian idBytes in
    match rels !! relID with
    | None => Some (Err (UnknownRelation relID))
    | Some rel =>
        let?! (before, pos) := old_tuple d rel 5 in
        let?! (after, pos) := new_tuple d rel pos in
        Some (Ok ({| Schema := namespace rel; Table := rel_name rel; Op := "update";
                     Before := before; After := after; LSN := 0 |}, pos))
    end.

Definition decodeDelete (rels : pgOutputDecoder) (d : bytes) : M (Change * Z) :=
  if len d <? 6 then Some (Err (TooShort "delete"))
  else
    let! idBytes := slice d 1 5 in
    let relID := big_endian idBytes in
    match rels !! relID with
    | None => Some (Err (UnknownRelation relID))
    | Some rel =>
        let?! (before, pos) := old_tuple d rel 5 in
        Some (Ok ({| Schema := namespace rel; Table := rel_name rel; Op := "delete";
                     Before := before; After := None; LSN := 0 |}, pos))
    end.

(** ** The stream *)

(** What [decodeWAL] returns, and the relations it leaves in the decoder. *)
Record decoded := {
  relations : pgOutputDecoder;
  changes : list Change;
  lsn : Z;
  err : option (string * decode_error);
}.

(** [for i := 0; i < 2 && pos < len(remaining); i++ { skip to NUL; pos++ }] *)
Fixpoint skip_names (n : nat) (d : bytes) (pos : Z) : Z :=
  match n with
  | O => pos
  | S n => if len d <=? pos then pos else skip_names n d (scan_nul d pos + 1)
  end.

Fixpoint wal_loop (fuel : nat) (d : bytes) (baseLSN : Z) (rels : pgOutputDecoder)
    (cs : list Change) (maxLSN offset : Z) : option decoded :=
  match fuel with
  | O => None
  | S fuel =>
      let fin l := Some {| relations := rels; changes := cs; lsn := l; err := None |} in
      let fail what e := Some {| relations := rels; changes := cs; lsn := maxLSN; err := Some (what, e) |} in
      if len d <=? offset then fin (if maxLSN =? 0 then baseLSN else maxLSN)
      else
        let! remaining := slice d offset (len d) in
        let! msgType := at_ remaining 0 in
        let offset := offset + 1 in
        let change what r :=
          match r with
          | None => None
          | Some (Err e) => fail what e
          | Some (Ok (c, n)) => wal_loop fuel d baseLSN rels (cs ++ [c]) maxLSN (offset + (n - 1))
          end in
        if decide (msgType = "B"%char) then
          if len remaining <? 21 then fin maxLSN
          else wal_loop fuel d baseLSN rels cs maxLSN (offset + 20)
        else if decide (msgType = "C"%char) then
          if len remaining <? 26 then fin maxLSN
          else
            let! lsnBytes := slice remaining 2 10 in
            let commitLSN := big_endian lsnBytes in
            wal_loop fuel d baseLSN rels cs
              (if maxLSN <? commitLSN then commitLSN else maxLSN) (offset + 25)
        else if decide (msgType = "R"%char) then
          match decodeRelation remaining with
          | None => None
          | Some (Err e) => fail "relation" e
          | Some (Ok (rel, n)) =>
              wal_loop fuel d baseLSN (<[rel_id rel := rel]> rels) cs maxLSN (offset + (n - 1))
          end
        else if decide (msgType = "I"%char) then change "insert" (decodeInsert rels remaining)
        else if decide (msgType = "U"%char) then change "update" (decodeUpdate rels remaining)
        else if decide (msgType = "D"%char) then change "delete" (decodeDelete rels remaining)
        else if decide (msgType = "O"%char) then
          wal_loop fuel d baseLSN rels cs maxLSN (offset + (scan_nul remaining 9 + 1))
        else if decide (msgType = "Y"%char) then
          wal_loop fuel d baseLSN rels cs maxLSN (offset + skip_names 2 remaining 5)
        else wal_loop fuel d baseLSN rels cs maxLSN (len d)
  end.

(** Every round moves the offset forward, so one round per byte and a last
    one are enough. *)
Definition decodeWAL (rels : pgOutputDecoder) (walData : bytes) (baseLSN : Z) : option decoded :=
  if len walData =? 0 then Some {| relations := rels; changes := []; lsn := baseLSN; err := None |}
  else wal_loop (S (length walData)) walData baseLSN rels [] 0 0.

Definition decode (rels : pgOutputDecoder) (d : bytes) : option decoded :=
  if len d <? 25 then
    Some {| relations := rels; changes := []; lsn := 0; err := Some ("CopyData", TooShort "CopyData") |}
  else
    let! first := at_ d 0 in
    if decide (first ≠ "w"%char) then decodeWAL rels d 0
    else
      let! lsnBytes := slice d 1 9 in
      let! walData := slice d 25 (len d) in
      decodeWAL rels walData (big_endian lsnBytes).

(** ** Slices *)
Lemma len_nonneg d : 0 ≤ len d.
Proof. unfold len. lia. Qed.

Lemma len_app a b : len (a ++ b) = len a + len b.
Proof. unfold len. rewrite length_app. lia. Qed.

Lemma len_cons c d : len (c :: d) = 1 + len d.
Proof. unfold len. simpl. lia. Qed.
Lemma len_nil : len [] = 0.
Proof. done. Qed.

Lemma at_total d i : 0 ≤ i < len d → ∃ c, at_ d i = Some c.
Proof.
  intros Hi. unfold at_, len in *. rewrite (proj2 (Z.ltb_ge _ _)) by lia.
  apply lookup_lt_is_Some_2. lia.
Qed.

Lemma slice_total d a b : 0 ≤ a ≤ b → b ≤ len d → ∃ s, slice d a b = Some s ∧ len s = b - a.
Proof.
  intros Ha Hb. unfold slice.
  rewrite (proj2 (Z.leb_le 0 a)), (proj2 (Z.leb_le a b)), (proj2 (Z.leb_le b (len d))) by lia.
  eexists. split; [done|]. unfold len in *. rewrite length_take, length_drop. lia.
Qed.

Lemma at_app pre c rest : at_ (pre ++ c :: rest) (len pre) = Some c.
Proof.
  unfold at_, len. rewrite (proj2 (Z.ltb_ge _ _)) by lia. rewrite Nat2Z.id.
  by apply list_lookup_middle.
Qed.

Lemma slice_app pre mid rest : slice (pre ++ mid ++ rest) (len pre) (len pre + len mid) = Some mid.
Proof.
  unfold slice. rewrite !len_app. pose proof (len_nonneg pre). pose proof (len_nonneg mid).
  pose proof (len_nonneg rest).
  rewrite (proj2 (Z.leb_le 0 _)), (proj2 (Z.leb_le (len pre) _)), (proj2 (Z.leb_le (_ + _) _)) by lia.
  simpl. f_equal. unfold len. replace (Z.to_nat (Z.of_nat (length pre))) with (length pre) by lia.
  rewrite drop_app_length. replace (Z.to_nat _) with (length mid) by lia. apply take_app_length.
Qed.

Lemma slice_end pre rest : slice (pre ++ rest) (len pre) (len (pre ++ rest)) = Some rest.
Proof. rewrite <- (app_nil_r rest) at 1. rewrite len_app. apply slice_app. Qed.

Lemma big_endian_nonneg d : 0 ≤ big_endian d.
Proof.
  unfold big_endian. assert (∀ n, 0 ≤ n → 0 ≤ foldl (λ n c, n * 256 + code c) n d) as H.
  { induction d as [|c d IH]; intros n Hn; simpl; [done|]. apply IH. unfold code. lia. }
  apply H. lia.
Qed.

Lemma scan_nul_ge d pos : pos ≤ scan_nul d pos.
Proof.
  unfold scan_nul. generalize (drop (Z.to_nat pos) d) as l. intros l.
  assert (0 ≤ run_length l); [|lia]. induction l as [|c l IH]; simpl; [done|].
  case_decide; lia.
Qed.

(** ** No panic *)
Ltac total_at :=
  match goal with |- context [at_ ?d ?i] =>
    let c := fresh "c" in let H := fresh "Hat" in
    destruct (at_total d i) as (c & H); [lia|]; rewrite H end.
Ltac total_slice :=
  match goal with |- context [slice ?d ?a ?b] =>
    let s := fresh "s" in let H := fresh "Hsl" in let Hl := fresh "Hlen" in
    destruct (slice_total d a b) as (s & H & Hl); [lia|lia|]; rewrite H end.

(** A function that returns, with what it returns of the position. *)
Definition returns {A} (m : M (A * Z)) (P : Z → Prop) : Prop :=
  ∃ r, m = Some r ∧ ∀ x n, r = Ok (x, n) → P n.

Lemma returns_ok {A} (x : A) n (P : Z → Prop) : P n → returns (Some (Ok (x, n))) P.
Proof. intros Hp. eexists. split; [done|]. by intros ? ? [= <- <-]. Qed.
Lemma returns_err {A} e (P : Z → Prop) : returns (A := A) (Some (Err e)) P.
Proof. eexists. by split. Qed.
Lemma returns_bind {A B} (m : M (A * Z)) (k : A → Z → M (B * Z)) (P Q : Z → Prop) :
  returns m P → (∀ x n, P n → returns (k x n) Q) →
  returns (let?! (x, n) := m in k x n) Q.
Proof.
  intros ([[x n]|e] & -> & Hr) Hk; [apply Hk; by eapply Hr|apply returns_err].
Qed.
Lemma returns_weaken {A} (m : M (A * Z)) (P Q : Z → Prop) :
  returns m P → (∀ n, P n → Q n) → returns m Q.
Proof. intros (r & -> & Hr) Hpq. exists r. split; [done|]. eauto. Qed.
#[local] Hint Resolve returns_ok returns_err : core.

Lemma tuple_loop_returns d cols i pos res :
  0 ≤ pos → returns (tuple_loop d cols i pos res) (λ n, pos ≤ n).
Proof.
  revert i pos res. induction cols as [|col cols IH]; intros i pos res Hpos; simpl.
  { apply returns_ok. lia. }
  destruct (Z.leb_spec (len d) pos); [apply returns_ok; lia|]. total_at.
  case_decide; [eapply returns_weaken; [apply IH|]; simpl; lia|].
  case_decide; [|apply returns_err].
  destruct (Z.ltb_spec (len d) (pos + 1 + 4)); [apply returns_ok; lia|]. total_slice.
  pose proof (big_endian_nonneg s).
  destruct (Z.ltb_spec (len d) (pos + 1 + 4 + big_endian s)); [apply returns_ok; lia|]. total_slice.
  eapply returns_weaken; [apply IH|]; simpl; lia.
Qed.

Lemma decodeTuple_returns d cols : returns (decodeTuple d cols) (λ n, 0 ≤ n).
Proof.
  unfold decodeTuple. destruct (Z.ltb_spec (len d) 2); [apply returns_err|]. total_slice.
  eapply returns_weaken; [apply tuple_loop_returns|]; simpl; lia.
Qed.

Lemma column_loop_returns d n pos cols :
  0 ≤ pos → returns (column_loop d n pos cols) (λ n, pos ≤ n).
Proof.
  revert pos cols. induction n as [|n IH]; intros pos cols Hpos; cbn [column_loop].
  { apply returns_ok. lia. }
  destruct (Z.leb_spec (len d) pos); [apply returns_ok; lia|].
  pose proof (scan_nul_ge d pos) as Hs.
  destruct (Z.leb_spec (len d) (scan_nul d pos)); [apply returns_ok; lia|]. total_slice.
  destruct (Z.ltb_spec (len d) (scan_nul d pos + 1 + 8)); [apply returns_ok; lia|]. total_slice.
  destruct (Z.leb_spec (len d) (scan_nul d pos + 1 + 8)); [apply returns_ok; lia|]. total_at.
  eapply returns_weaken; [apply IH|]; simpl; lia.
Qed.

Lemma decodeRelation_returns d : returns (decodeRelation d) (λ n, 1 ≤ n).
Proof.
  unfold decodeRelation. destruct (Z.ltb_spec (len d) 10); [apply returns_err|]. total_slice.
  pose proof (scan_nul_ge d 5).
  destruct (Z.leb_spec (len d) (scan_nul d 5)); [apply returns_err|]. total_slice.
  pose proof (scan_nul_ge d (scan_nul d 5 + 1)).
  destruct (Z.leb_spec (len d) (scan_nul d (scan_nul d 5 + 1))); [apply returns_err|]. total_slice.
  destruct (Z.leb_spec (len d) (scan_nul d (scan_nul d 5 + 1) + 1)); [apply returns_err|].
  destruct (Z.ltb_spec (len d) (scan_nul d (scan_nul d 5 + 1) + 1 + 1 + 2)); [apply returns_err|].
  total_slice. eapply returns_bind; [apply column_loop_returns; lia|].
  intros cols n Hn. apply returns_ok. simpl in Hn. lia.
Qed.

Lemma old_tuple_returns d rel pos : 0 ≤ pos → returns (old_tuple d rel pos) (λ n, pos ≤ n).
Proof.
  intros Hpos. unfold old_tuple. destruct (Z.leb_spec (len d) pos); [apply returns_ok; lia|].
  total_at. case_decide; [|apply returns_ok; lia]. total_slice.
  eapply returns_bind; [apply decodeTuple_returns|]. intros x n Hn. apply returns_ok. simpl in Hn. lia.
Qed.

Lemma new_tuple_returns d rel pos : 0 ≤ pos → returns (new_tuple d rel pos) (λ n, pos ≤ n).
Proof.
  intros Hpos. unfold new_tuple. destruct (Z.leb_spec (len d) pos); [apply returns_ok; lia|].
  total_at. case_decide; [|apply returns_ok; lia]. total_slice.
  eapply returns_bind; [apply decodeTuple_returns|]. intros x n Hn. apply returns_ok. simpl in Hn. lia.
Qed.

Lemma decodeInsert_returns rels d : returns (decodeInsert rels d) (λ n, 1 ≤ n).
Proof.
  unfold decodeInsert. destruct (Z.ltb_spec (len d) 6); [apply returns_err|]. total_slice. total_at.
  case_decide; [apply returns_err|]. destruct (rels !! _); [|apply returns_err]. total_slice.
  eapply returns_bind; [apply decodeTuple_returns|]. intros x n Hn. apply returns_ok. simpl in Hn. lia.
Qed.

Lemma decodeUpdate_returns rels d : returns (decodeUpdate rels d) (λ n, 1 ≤ n).
Proof.
  unfold decodeUpdate. destruct (Z.ltb_spec (len d) 6); [apply returns_err|]. total_slice.
  destruct (rels !! _); [|apply returns_err].
  eapply returns_bind; [apply old_tuple_returns; lia|]. intros x n Hn. simpl in Hn.
  eapply returns_bind; [apply new_tuple_returns; lia|]. intros y n' Hn'. apply returns_ok. simpl in Hn'. lia.
Qed.

Lemma decodeDelete_returns rels d : returns (decodeDelete rels d) (λ n, 1 ≤ n).
Proof.
  unfold decodeDelete. destruct (Z.ltb_spec (len d) 6); [apply returns_err|]. total_slice.
  destruct (rels !! _); [|apply returns_err].
  eapply returns_bind; [apply old_tuple_returns; lia|]. intros x n Hn. apply returns_ok. simpl in Hn. lia.
Qed.

Lemma skip_names_ge n d pos : 0 ≤ pos → pos ≤ skip_names n d pos.
Proof.
  revert pos. induction n as [|n IH]; intros pos Hpos; cbn [skip_names]; [done|].
  destruct (len d <=? pos); [done|]. pose proof (scan_nul_ge d pos).
  specialize (IH (scan_nul d pos + 1)). lia.
Qed.

(** Enough fuel: more rounds than bytes are left. *)
Lemma wal_loop_total fuel d base rels cs m offset :
  0 ≤ offset → 0 < Z.of_nat fuel → len d - offset < Z.of_nat fuel →
  is_Some (wal_loop fuel d base rels cs m offset).
Proof.
  revert rels cs m offset. induction fuel as [|fuel IH]; intros rels cs m offset Ho H0 Hf; [lia|].
  cbn [wal_loop]. destruct (Z.leb_spec (len d) offset); [done|]. total_slice. total_at.
  assert (∀ rels cs m offset', offset < offset' →
    is_Some (wal_loop fuel d base rels cs m offset')) as Hnext.
  { intros. apply IH; lia. }
  repeat case_decide; try (apply Hnext; lia).
  - case_match; [done|]. apply Hnext. lia.
  - destruct (Z.ltb_spec (len s) 26); [done|]. total_slice. apply Hnext. lia.
  - destruct (decodeRelation_returns s) as ([[r n]|e] & -> & Hn); [|done].
    specialize (Hn r n eq_refl). simpl in Hn. apply Hnext. lia.
  - destruct (decodeInsert_returns rels s) as ([[r n]|e] & -> & Hn); [|done].
    specialize (Hn r n eq_refl). simpl in Hn. apply Hnext. lia.
  - destruct (decodeUpdate_returns rels s) as ([[r n]|e] & -> & Hn); [|done].
    specialize (Hn r n eq_refl). simpl in Hn. apply Hnext. lia.
  - destruct (decodeDelete_returns rels s) as ([[r n]|e] & -> & Hn); [|done].
    specialize (Hn r n eq_refl). simpl in Hn. apply Hnext. lia.
  - pose proof (scan_nul_ge s 9). apply Hnext. lia.
  - pose proof (skip_names_ge 2 s 5). apply Hnext. lia.
Qed.

(** The decoder never indexes out of range and always ends: whatever
    bytes the server sends, and whatever relations are known, [decode]
    returns changes or an error. *)
Theorem decode_total rels d : is_Some (decode rels d).
Proof.
  assert (∀ d base, is_Some (decodeWAL rels d base)) as Hwal.
  { intros d' base. unfold decodeWAL. case_match; [done|].
    apply wal_loop_total; [lia|lia|]. unfold len. lia. }
  unfold decode. destruct (Z.ltb_spec (len d) 25); [done|]. total_at.
  case_decide; [apply Hwal|]. total_slice. total_slice. apply Hwal.
Qed.

(** ** The messages PostgreSQL sends

    Row messages in the documented format of the logical replication
    protocol, version 1. A column value is NULL, unchanged (TOAST) or text. *)
Inductive value := Null | Unchanged | Text (t : string).

Inductive message :=
| Begin (final timestamp xid : Z)
| Commit (commit end_ timestamp : Z)
| Insert (rel : Z) (new : list value)
| Update (rel : Z) (old : option (bool * list value)) (new : list value)
| Delete (rel : Z) (full : bool) (old : list value).

Definition encode_value (v : value) : bytes :=
  match v with
  | Null => ["n"%char]
  | Unchanged => ["u"%char]
  | Text t => "t"%char :: put_uint 4 (Z.of_nat (String.length t)) ++ list_ascii_of_string t
  end.
Definition encode_tuple (vs : list value) : bytes :=
  put_uint 2 (Z.of_nat (length vs)) ++ concat (encode_value <$> vs).
Definition old_marker (full : bool) : ascii := if full then "O"%char else "K"%char.

Definition encode (m : message) : bytes :=
  match m with
  | Begin f t x => "B"%char :: put_uint 8 f ++ put_uint 8 t ++ put_uint 4 x
  | Commit c e t => "C"%char :: NUL :: put_uint 8 c ++ put_uint 8 e ++ put_uint 8 t
  | Insert r new => "I"%char :: put_uint 4 r ++ "N"%char :: encode_tuple new
  | Update r None new => "U"%char :: put_uint 4 r ++ "N"%char :: encode_tuple new
  | Update r (Some (full, old)) new =>
      "U"%char :: put_uint 4 r ++ old_marker full :: encode_tuple old ++ "N"%char :: encode_tuple new
  | Delete r full old => "D"%char :: put_uint 4 r ++ old_marker full :: encode_tuple old
  end.

(** What a message says: the row it describes, [nil] for NULL and for an
    unchanged value. *)
Definition value_of (v : value) : option string :=
  match v with Text t => Some t | _ => None end.
Definition row_of (cols : list colMeta) (vs : list value) : row :=
  foldl (λ r '(c, v), <[col_name c := value_of v]> r) ∅ (zip cols vs).

Definition change_of (rels : pgOutputDecoder) (m : message) : option Change :=
  let mk r op b a :=
    rel ← rels !! r;
    Some {| Schema := namespace rel; Table := rel_name rel; Op := op;
            Before := row_of (columns rel) <$> b; After := row_of (columns rel) <$> a; LSN := 0 |} in
  match m with
  | Begin _ _ _ | Commit _ _ _ => None
  | Insert r new => mk r "insert" None (Some new)
  | Update r old new => mk r "update" (snd <$> old) (Some new)
  | Delete r _ old => mk r "delete" (Some old) None
  end.

Definition lsn_after (m : Z) (msg : message) : Z :=
  match msg with Commit c _ _ => Z.max m c | _ => m end.

(** A tuple of a known relation: one value per column, lengths that fit. *)
Definition tuple_ok (rel : relMeta) (vs : list value) : Prop :=
  length vs = length (columns rel) ∧ Z.of_nat (length vs) < 2 ^ 16 ∧
  Forall (λ v, match v with Text t => Z.of_nat (String.length t) < 2 ^ 32 | _ => True end) vs.

Definition message_ok (rels : pgOutputDecoder) (m : message) : Prop :=
  match m with
  | Begin _ _ _ => True
  | Commit c _ _ => 0 ≤ c < 2 ^ 64
  | Insert r new => 0 ≤ r < 2 ^ 32 ∧ ∃ rel, rels !! r = Some rel ∧ tuple_ok rel new
  | Update r old new =>
      0 ≤ r < 2 ^ 32 ∧ ∃ rel, rels !! r = Some rel ∧ tuple_ok rel new ∧
      (∀ o, old = Some o → tuple_ok rel o.2)
  | Delete r _ old => 0 ≤ r < 2 ^ 32 ∧ ∃ rel, rels !! r = Some rel ∧ tuple_ok rel old
  end.

(** ** Integers and strings *)
Lemma length_put_uint n v : length (put_uint n v) = n.
Proof. revert v. induction n as [|n IH]; intros v; simpl; [done|]. rewrite length_app, IH. simpl. lia. Qed.

Lemma len_put_uint n v : len (put_uint n v) = Z.of_nat n.
Proof. unfold len. by rewrite length_put_uint. Qed.

Lemma big_endian_put n v : 0 ≤ v < 256 ^ Z.of_nat n → big_endian (put_uint n v) = v.
Proof.
  revert v. induction n as [|n IH]; intros v Hv; simpl.
  { simpl in Hv. unfold big_endian. simpl. lia. }
  unfold big_endian in *. rewrite foldl_app. simpl.
  rewrite IH.
  - unfold code. rewrite nat_ascii_embedding.
    + pose proof (Z.div_mod v 256 ltac:(lia)). pose proof (Z.mod_pos_bound v 256 ltac:(lia)). lia.
    + pose proof (Z.mod_pos_bound v 256 ltac:(lia)). lia.
  - rewrite Nat2Z.inj_succ, Z.pow_succ_r in Hv by lia. split; [apply Z.div_pos; lia|].
    apply Z.div_lt_upper_bound; lia.
Qed.

Lemma len_string t : len (list_ascii_of_string t) = Z.of_nat (String.length t).
Proof. unfold len. f_equal. induction t as [|c t IH]; [done|]. cbn. by rewrite IH. Qed.

Lemma to_string_of t : to_string (list_ascii_of_string t) = t.
Proof. apply string_of_list_ascii_of_string. Qed.

(** ** Tuples *)

(** Reading at a position that splits the data. *)
Lemma at_split d pre c rest p : d = pre ++ c :: rest → p = len pre → at_ d p = Some c.
Proof. intros -> ->. apply at_app. Qed.
Lemma slice_split d pre mid rest a b :
  d = pre ++ mid ++ rest → a = len pre → b = len pre + len mid → slice d a b = Some mid.
Proof. intros -> -> ->. apply slice_app. Qed.

Lemma tuple_step_plain c col cols pre rest i res :
  c = "n"%char ∨ c = "u"%char →
  tuple_loop (pre ++ c :: rest) (col :: cols) i (len pre) res =
  tuple_loop ((pre ++ [c]) ++ rest) cols (i + 1) (len (pre ++ [c])) (<[col_name col := None]> res).
Proof.
  intros Hc. cbn [tuple_loop]. rewrite (proj2 (Z.leb_gt _ _)) by (rewrite len_app; unfold len; simpl; lia).
  rewrite at_app, decide_True by done. rewrite <- app_assoc. by rewrite len_app.
Qed.

Lemma tuple_step_text t col cols pre rest i res :
  Z.of_nat (String.length t) < 2 ^ 32 →
  let enc := encode_value (Text t) in
  tuple_loop (pre ++ enc ++ rest) (col :: cols) i (len pre) res =
  tuple_loop ((pre ++ enc) ++ rest) cols (i + 1) (len (pre ++ enc)) (<[col_name col := Some t]> res).
Proof.
  intros Ht enc. set (body := list_ascii_of_string t). set (n := put_uint 4 (Z.of_nat (String.length t))).
  assert (enc = ["t"%char] ++ n ++ body) as Henc by done.
  assert (len n = 4) as Hn by apply len_put_uint.
  assert (big_endian n = len body) as Hbe.
  { unfold n, body. rewrite big_endian_put, len_string by (simpl; lia). done. }
  set (d := pre ++ enc ++ rest).
  assert (len d = len pre + 5 + len body + len rest) as Hd.
  { unfold d. rewrite Henc, !len_app, Hn. change (len ["t"%char]) with 1. lia. }
  pose proof (len_nonneg body). pose proof (len_nonneg rest). pose proof (len_nonneg pre).
  cbn [tuple_loop]. rewrite (proj2 (Z.leb_gt _ _)) by lia.
  rewrite (at_split d pre "t"%char (n ++ body ++ rest)); [|unfold d; rewrite Henc; by rewrite <- !app_assoc|done].
  rewrite decide_False by (intros [?|?]; done). rewrite decide_True by done.
  rewrite (proj2 (Z.ltb_ge _ _)) by lia.
  rewrite (slice_split d (pre ++ ["t"%char]) n (body ++ rest)).
  2: { unfold d. rewrite Henc. by rewrite <- !app_assoc. }
  2, 3: rewrite len_app; change (len ["t"%char]) with 1; lia.
  rewrite Hbe, (proj2 (Z.ltb_ge _ _)) by lia.
  rewrite (slice_split d (pre ++ ["t"%char] ++ n) body rest).
  2: { unfold d. rewrite Henc. by rewrite <- !app_assoc. }
  2, 3: rewrite !len_app, Hn; change (len ["t"%char]) with 1; lia.
  unfold body at 2. rewrite to_string_of, <- app_assoc. fold d. f_equal.
  rewrite Henc, !len_app, Hn. change (len ["t"%char]) with 1. lia.
Qed.

Lemma tuple_loop_encoded cols vs : length vs = length cols →
  Forall (λ v, match v with Text t => Z.of_nat (String.length t) < 2 ^ 32 | _ => True end) vs →
  ∀ pre rest i res,
  tuple_loop (pre ++ concat (encode_value <$> vs) ++ rest) cols i (len pre) res =
  Some (Ok (foldl (λ r '(c, v), <[col_name c := value_of v]> r) res (zip cols vs),
            len pre + len (concat (encode_value <$> vs)))).
Proof.
  revert vs. induction cols as [|col cols IH]; intros [|v vs] Hlen Hall pre rest i res; try done.
  { simpl. do 3 f_equal. unfold len. simpl. lia. }
  apply Forall_cons in Hall as [Hv Hall]. injection Hlen as Hlen.
  rewrite fmap_cons. cbn [concat]. rewrite <- app_assoc.
  destruct v as [| |t].
  1, 2: cbn [encode_value app]; rewrite tuple_step_plain by tauto; rewrite IH by done;
    cbn [zip zip_with foldl value_of]; rewrite len_app; do 3 f_equal; unfold len; simpl; lia.
  rewrite tuple_step_text, IH by done. cbn [zip zip_with foldl value_of].
  rewrite !len_app. do 3 f_equal. lia.
Qed.

Lemma decodeTuple_encoded rel vs rest :
  tuple_ok rel vs →
  decodeTuple (encode_tuple vs ++ rest) (columns rel) =
  Some (Ok (row_of (columns rel) vs, len (encode_tuple vs))).
Proof.
  intros (Hlen & Hcount & Hall). unfold decodeTuple, encode_tuple.
  set (n := put_uint 2 _). assert (len n = 2) as Hn by apply len_put_uint.
  rewrite <- app_assoc. set (d := n ++ _ ++ rest).
  assert (2 ≤ len d) by (unfold d; rewrite len_app; pose proof (len_nonneg (concat (encode_value <$> vs) ++ rest)); lia).
  rewrite (proj2 (Z.ltb_ge _ _)) by lia.
  rewrite (slice_split d [] n (concat (encode_value <$> vs) ++ rest)) by (done || lia).
  unfold n at 1. rewrite big_endian_put by (simpl; lia).
  rewrite take_ge by lia. unfold d. rewrite <- Hn.
  rewrite tuple_loop_encoded by done. by rewrite len_app.
Qed.

Ltac len_pos :=
  repeat match goal with
  | |- context [len ?d] =>
      lazymatch goal with
      | _ : 0 ≤ len d |- _ => fail
      | _ => pose proof (len_nonneg d)
      end
  end.

(** ** Row messages *)
Definition header (c : ascii) (r : Z) : bytes := c :: put_uint 4 r.

Lemma len_header c r : len (header c r) = 5.
Proof. unfold header. by rewrite len_cons, len_put_uint. Qed.

(** The relation identifier of a message. *)
Lemma header_id c r rest :
  0 ≤ r < 2 ^ 32 → ∃ s, slice (header c r ++ rest) 1 5 = Some s ∧ big_endian s = r.
Proof.
  intros Hr. exists (put_uint 4 r). split; [|by apply big_endian_put].
  by apply (slice_split _ [c] _ rest).
Qed.

Lemma old_tuple_encoded rel full vs pre rest :
  tuple_ok rel vs →
  old_tuple (pre ++ old_marker full :: encode_tuple vs ++ rest) rel (len pre) =
  Some (Ok (Some (row_of (columns rel) vs), len pre + (1 + len (encode_tuple vs)))).
Proof.
  intros Hok. unfold old_tuple.
  rewrite (proj2 (Z.leb_gt _ _)) by (rewrite len_app; repeat rewrite ?len_app, ?len_cons, ?len_nil; len_pos; lia).
  rewrite at_app, decide_True by (destruct full; auto).
  rewrite (slice_split _ (pre ++ [old_marker full]) (encode_tuple vs ++ rest) []).
  2: by rewrite app_nil_r, <- app_assoc.
  2: by rewrite len_app.
  2: { repeat rewrite ?len_app, ?len_cons, ?len_nil. lia. }
  by rewrite decodeTuple_encoded.
Qed.

(** An ['N'] is no old tuple. *)
Lemma old_tuple_skip rel pre rest :
  old_tuple (pre ++ "N"%char :: rest) rel (len pre) = Some (Ok (None, len pre)).
Proof.
  unfold old_tuple. rewrite (proj2 (Z.leb_gt _ _)) by (rewrite len_app; repeat rewrite ?len_app, ?len_cons, ?len_nil; len_pos; lia).
  rewrite at_app, decide_False by (intros [?|?]; done). done.
Qed.

Lemma new_tuple_encoded rel vs pre rest :
  tuple_ok rel vs →
  new_tuple (pre ++ "N"%char :: encode_tuple vs ++ rest) rel (len pre) =
  Some (Ok (Some (row_of (columns rel) vs), len pre + (1 + len (encode_tuple vs)))).
Proof.
  intros Hok. unfold new_tuple.
  rewrite (proj2 (Z.leb_gt _ _)) by (rewrite len_app; repeat rewrite ?len_app, ?len_cons, ?len_nil; len_pos; lia).
  rewrite at_app, decide_True by done.
  rewrite (slice_split _ (pre ++ ["N"%char]) (encode_tuple vs ++ rest) []).
  2: by rewrite app_nil_r, <- app_assoc.
  2: by rewrite len_app.
  2: { repeat rewrite ?len_app, ?len_cons, ?len_nil. lia. }
  by rewrite decodeTuple_encoded.
Qed.

Lemma decodeInsert_encoded rels r new rest :
  message_ok rels (Insert r new) →
  ∃ c, change_of rels (Insert r new) = Some c ∧
  decodeInsert rels (encode (Insert r new) ++ rest) = Some (Ok (c, len (encode (Insert r new)))).
Proof.
  intros (Hr & rel & Hrel & Hok). eexists. split; [simpl; by rewrite Hrel|].
  change (encode (Insert r new)) with (header "I" r ++ "N"%char :: encode_tuple new).
  rewrite <- app_assoc. cbn [app]. unfold decodeInsert.
  set (d := _ ++ "N"%char :: _).
  assert (len d = 6 + len (encode_tuple new ++ rest)) as Hd.
  { unfold d. rewrite len_app, len_header. repeat rewrite ?len_app, ?len_cons, ?len_nil. lia. }
  pose proof (len_nonneg (encode_tuple new ++ rest)).
  rewrite (proj2 (Z.ltb_ge _ _)) by lia.
  destruct (header_id "I" r ("N"%char :: encode_tuple new ++ rest) Hr) as (s & Hs & Hid).
  fold d in Hs. rewrite Hs, Hid. unfold d at 1. rewrite <- (len_header "I" r), at_app.
  rewrite decide_False by tauto. rewrite Hrel.
  rewrite (slice_split d (header "I" r ++ ["N"%char]) (encode_tuple new ++ rest) []).
  2: by rewrite app_nil_r, <- app_assoc.
  2: by rewrite len_app, len_header.
  2: { rewrite Hd, (len_app (header _ _)), len_header. done. }
  rewrite decodeTuple_encoded by done. do 3 f_equal. rewrite len_app, len_header.
  repeat rewrite ?len_app, ?len_cons, ?len_nil. lia.
Qed.

Lemma decodeUpdate_encoded rels r old new rest :
  message_ok rels (Update r old new) →
  ∃ c, change_of rels (Update r old new) = Some c ∧
  decodeUpdate rels (encode (Update r old new) ++ rest) =
  Some (Ok (c, len (encode (Update r old new)))).
Proof.
  intros (Hr & rel & Hrel & Hok & Hold). eexists. split; [simpl; by rewrite Hrel|].
  destruct old as [[full ov]|]; unfold decodeUpdate.
  - specialize (Hold _ eq_refl). simpl in Hold.
    change (encode _) with (header "U" r ++ old_marker full :: encode_tuple ov ++ "N"%char :: encode_tuple new).
    rewrite <- app_assoc. cbn [app]. rewrite <- app_assoc. cbn [app].
    rewrite (proj2 (Z.ltb_ge _ _)) by (rewrite len_app, len_header; repeat rewrite ?len_app, ?len_cons, ?len_nil; len_pos; lia).
    destruct (header_id "U" r (old_marker full :: encode_tuple ov ++ "N"%char :: encode_tuple new ++ rest) Hr)
      as (s & -> & ->).
    rewrite Hrel. change 5 with (Z.of_nat 5). rewrite <- (len_header "U" r) at 1.
    rewrite old_tuple_encoded by done.
    set (pre := header "U" r ++ old_marker full :: encode_tuple ov).
    assert (len (header "U" r) + (1 + len (encode_tuple ov)) = len pre) as ->.
    { unfold pre. rewrite !len_app, len_header. repeat rewrite ?len_app, ?len_cons, ?len_nil. lia. }
    replace (header "U" r ++ _) with (pre ++ "N"%char :: encode_tuple new ++ rest)
      by (unfold pre; by rewrite <- app_assoc).
    rewrite new_tuple_encoded by done. do 3 f_equal. unfold pre.
    repeat rewrite ?len_app, ?len_cons, ?len_nil. lia.
  - change (encode _) with (header "U" r ++ "N"%char :: encode_tuple new).
    rewrite <- app_assoc. cbn [app].
    rewrite (proj2 (Z.ltb_ge _ _)) by (rewrite len_app, len_header; repeat rewrite ?len_app, ?len_cons, ?len_nil; len_pos; lia).
    destruct (header_id "U" r ("N"%char :: encode_tuple new ++ rest) Hr) as (s & -> & ->).
    rewrite Hrel. rewrite <- (len_header "U" r) at 1. rewrite old_tuple_skip, new_tuple_encoded by done.
    do 3 f_equal. rewrite len_app. repeat rewrite ?len_app, ?len_cons, ?len_nil. lia.
Qed.

Lemma decodeDelete_encoded rels r full old rest :
  message_ok rels (Delete r full old) →
  ∃ c, change_of rels (Delete r full old) = Some c ∧
  decodeDelete rels (encode (Delete r full old) ++ rest) =
  Some (Ok (c, len (encode (Delete r full old)))).
Proof.
  intros (Hr & rel & Hrel & Hok). eexists. split; [simpl; by rewrite Hrel|].
  change (encode _) with (header "D" r ++ old_marker full :: encode_tuple old). unfold decodeDelete.
  rewrite <- app_assoc. cbn [app].
  rewrite (proj2 (Z.ltb_ge _ _)) by (rewrite len_app, len_header; repeat rewrite ?len_app, ?len_cons, ?len_nil; len_pos; lia).
  destruct (header_id "D" r (old_marker full :: encode_tuple old ++ rest) Hr) as (s & -> & ->).
  rewrite Hrel. rewrite <- (len_header "D" r) at 1. rewrite old_tuple_encoded by done.
  do 3 f_equal. rewrite len_app. repeat rewrite ?len_app, ?len_cons, ?len_nil. lia.
Qed.

(** ** The stream *)
Definition outcome_of (rels : pgOutputDecoder) (base : Z) (cs : list Change) (m : Z)
    (msgs : list message) : decoded :=
  let m' := foldl lsn_after m msgs in
  {| relations := rels; changes := cs ++ omap (change_of rels) msgs;
     lsn := if m' =? 0 then base else m'; err := None |}.

Lemma encode_cons m : ∃ c t, encode m = c :: t.
Proof. destruct m as [| | |? [[??]|]|]; simpl; eauto. Qed.

(** One round of the loop over the encoding of one message. *)
Lemma wal_step fuel rels base cs m pre msg rest :
  message_ok rels msg →
  wal_loop (S fuel) (pre ++ encode msg ++ rest) base rels cs m (len pre) =
  wal_loop fuel ((pre ++ encode msg) ++ rest) base rels
    (cs ++ option_list (change_of rels msg)) (lsn_after m msg) (len (pre ++ encode msg)).
Proof.
  intros Hok. destruct (encode_cons msg) as (c & t & Ht).
  pose proof (len_nonneg t). pose proof (len_nonneg rest). pose proof (len_nonneg pre).
  assert (0 < len (encode msg)) by (rewrite Ht, len_cons; lia).
  cbn [wal_loop]. rewrite (proj2 (Z.leb_gt _ _)) by (rewrite !len_app; lia).
  rewrite slice_end. rewrite Ht at 1. change (at_ ((c :: t) ++ rest) 0) with (Some c). cbn iota beta.
  rewrite <- app_assoc. rewrite (len_app pre (encode msg)).
  destruct msg as [f ts x|cl e ts|r new|r old new|r full old].
  - injection Ht as <- _. rewrite decide_True by done.
    assert (len (encode (Begin f ts x)) = 21) as Hl.
    { cbn [encode]. repeat rewrite ?len_cons, ?len_app, ?len_put_uint. lia. }
    rewrite (proj2 (Z.ltb_ge _ _)) by (rewrite len_app; lia). cbn [option_list change_of lsn_after].
    rewrite app_nil_r. f_equal. lia.
  - injection Ht as <- _. rewrite decide_False, decide_True by done.
    assert (len (encode (Commit cl e ts)) = 26) as Hl.
    { cbn [encode]. repeat rewrite ?len_cons, ?len_app, ?len_put_uint. lia. }
    rewrite (proj2 (Z.ltb_ge _ _)) by (rewrite len_app; lia).
    rewrite (slice_split _ ["C"%char; NUL] (put_uint 8 cl) (put_uint 8 e ++ put_uint 8 ts ++ rest)).
    2: { cbn [encode app]. by rewrite <- !app_assoc. }
    2, 3: repeat rewrite ?len_put_uint, ?len_cons, ?len_nil; lia.
    rewrite big_endian_put by (cbn [message_ok] in Hok; simpl; lia). cbn [option_list change_of lsn_after].
    rewrite app_nil_r. f_equal; [|lia]. destruct (Z.ltb_spec m cl); lia.
  - injection Ht as <- _. do 3 rewrite decide_False by done. rewrite decide_True by done.
    destruct (decodeInsert_encoded rels r new rest Hok) as (c & -> & ->).
    cbn [option_list lsn_after]. f_equal. lia.
  - assert (c = "U"%char) as -> by (by destruct old as [[??]|]; injection Ht).
    do 4 rewrite decide_False by done. rewrite decide_True by done.
    destruct (decodeUpdate_encoded rels r old new rest Hok) as (c & -> & ->).
    cbn [option_list lsn_after]. f_equal. lia.
  - injection Ht as <- _. do 5 rewrite decide_False by done. rewrite decide_True by done.
    destruct (decodeDelete_encoded rels r full old rest Hok) as (c & -> & ->).
    cbn [option_list lsn_after]. f_equal. lia.
Qed.

Lemma wal_loop_encoded rels base msgs :
  Forall (message_ok rels) msgs →
  ∀ fuel pre cs m, (length msgs < fuel)%nat →
  wal_loop fuel (pre ++ concat (encode <$> msgs)) base rels cs m (len pre) =
  Some (outcome_of rels base cs m msgs).
Proof.
  induction 1 as [|msg msgs Hok _ IH]; intros [|fuel] pre cs m Hf; simpl in Hf; [lia| |lia|].
  - cbn [fmap list_fmap concat wal_loop]. rewrite app_nil_r.
    rewrite (proj2 (Z.leb_le _ _)) by lia. unfold outcome_of. simpl. by rewrite app_nil_r.
  - rewrite fmap_cons. cbn [concat]. rewrite wal_step by done. rewrite IH by lia.
    unfold outcome_of. simpl. rewrite <- app_assoc. by destruct (change_of rels msg).
Qed.

Lemma length_encoded msgs : (length msgs ≤ length (concat (encode <$> msgs)))%nat.
Proof.
  induction msgs as [|m msgs IH]; [done|]. rewrite fmap_cons. cbn [concat]. rewrite length_app.
  destruct (encode_cons m) as (c & t & ->). cbn [length]. lia.
Qed.

(** The frame of a [CopyData] message that carries WAL data. *)
Definition frame (start end_ timestamp : Z) (wal : bytes) : bytes :=
  "w"%char :: put_uint 8 start ++ put_uint 8 end_ ++ put_uint 8 timestamp ++ wal.

(** C36: Decoding inverts PostgreSQL's encoding of row messages: for known
    relations, a frame that carries any sequence of Begin, Commit, Insert,
    Update and Delete messages decodes to exactly the changes they describe,
    in order and without error, and to the highest commit position, or the
    frame's own when none committed. *)
Theorem decode_encoded rels msgs start end_ ts :
  Forall (message_ok rels) msgs → 0 ≤ start < 2 ^ 64 →
  decode rels (frame start end_ ts (concat (encode <$> msgs))) =
  Some (outcome_of rels start [] 0 msgs).
Proof.
  intros Hok Hs. unfold decode, frame. set (wal := concat _).
  set (hd := put_uint 8 start ++ put_uint 8 end_ ++ put_uint 8 ts).
  assert (("w"%char :: put_uint 8 start ++ put_uint 8 end_ ++ put_uint 8 ts ++ wal) =
          ("w"%char :: hd) ++ wal) as ->.
  { unfold hd. cbn [app]. by rewrite <- !app_assoc. }
  assert (len ("w"%char :: hd) = 25) as Hhd.
  { unfold hd. repeat rewrite ?len_cons, ?len_app, ?len_put_uint. lia. }
  pose proof (len_nonneg wal). rewrite (proj2 (Z.ltb_ge _ _)) by (rewrite len_app; lia).
  change (at_ (("w"%char :: hd) ++ wal) 0) with (Some "w"%char). cbn iota beta.
  rewrite decide_False by tauto.
  rewrite (slice_split _ ["w"%char] (put_uint 8 start) (put_uint 8 end_ ++ put_uint 8 ts ++ wal)).
  2: { unfold hd. cbn [app]. by rewrite <- !app_assoc. }
  2, 3: repeat rewrite ?len_put_uint, ?len_cons, ?len_nil; lia.
  rewrite <- Hhd, slice_end, big_endian_put by (simpl; lia).
  unfold decodeWAL. destruct (Z.eqb_spec (len wal) 0) as [Hw|Hw].
  - pose proof (length_encoded msgs) as Hl. fold wal in Hl. unfold len in Hw.
    destruct msgs; [done|simpl in Hl; lia].
  - apply (wal_loop_encoded rels start msgs Hok _ [] [] 0).
    pose proof (length_encoded msgs) as Hl. fold wal in Hl. lia.
Qed.

Lemma decode_encoded_witness :
  let rel := {| rel_id := 7; namespace := "public"; rel_name := "plans";
                columns := [{| col_name := "id"; typeOID := 25; isKey := true; isNotNull := false |};
                            {| col_name := "name"; typeOID := 25; isKey := false; isNotNull := false |}] |} in
  let msgs := [Begin 1 2 3; Insert 7 [Text "p1"; Null]; Delete 7 false [Text "p0"; Null];
               Commit 99 100 101] in
  decode {[7 := rel]} (frame 5 6 7 (concat (encode <$> msgs))) =
  Some (outcome_of {[7 := rel]} 5 [] 0 msgs) ∧
  lsn (outcome_of {[7 := rel]} 5 [] 0 msgs) = 99.
Proof.
  split; [|reflexivity]. apply decode_encoded; [|lia].
  repeat apply Forall_cons_2; [done| | |by simpl; lia|by constructor];
    (split; [lia|]; eexists; split; [apply lookup_singleton_eq|]; repeat constructor; simpl; lia).
Defined.

(** ** Relation messages

    PostgreSQL sends each column as flags, name, type and modifier; the
    decoder reads name, type, modifier and flags. *)
Record pg_column := { pg_flags : ascii; pg_name : bytes; pg_type : Z; pg_mod : Z }.

Definition encode_body (c : pg_column) : bytes :=
  pg_name c ++ NUL :: put_uint 4 (pg_type c) ++ put_uint 4 (pg_mod c).
Definition encode_column (c : pg_column) : bytes := pg_flags c :: encode_body c.
Definition encode_relation (id : Z) (ns name : bytes) (identity : ascii) (cols : list pg_column) : bytes :=
  "R"%char :: put_uint 4 id ++ ns ++ NUL :: name ++ NUL :: identity ::
  put_uint 2 (Z.of_nat (length cols)) ++ concat (encode_column <$> cols).

Lemma run_length_name l rest : NUL ∉ l → run_length (l ++ NUL :: rest) = len l.
Proof.
  induction l as [|c l IH]; intros Hl; simpl; [done|]. apply not_elem_of_cons in Hl as [Hc Hl].
  rewrite decide_False by congruence. rewrite IH, len_cons by done. done.
Qed.

Lemma scan_nul_split d pre l rest p :
  d = pre ++ l ++ NUL :: rest → p = len pre → NUL ∉ l → scan_nul d p = len pre + len l.
Proof.
  intros -> -> Hl. unfold scan_nul, len at 2. rewrite Nat2Z.id, drop_app_length.
  by rewrite run_length_name.
Qed.

Lemma len_body c : len (encode_body c) = len (pg_name c) + 9.
Proof. unfold encode_body. rewrite len_app, len_cons, len_app, !len_put_uint. lia. Qed.

(** One turn of the column loop at a name: the column takes the byte after it
    for its flags, and is dropped when there is none. *)
Lemma column_step c pre tail n acc :
  NUL ∉ pg_name c →
  let d := pre ++ encode_body c ++ tail in
  match tail with
  | [] => ∃ p, column_loop d (S n) (len pre) acc = Some (Ok (acc, p))
  | f :: _ => ∃ col, col_name col = to_string (pg_name c) ∧
      column_loop d (S n) (len pre) acc = column_loop d n (len pre + len (encode_body c) + 1) (acc ++ [col])
  end.
Proof.
  intros Hc d. pose proof (len_nonneg pre). pose proof (len_nonneg (pg_name c)).
  pose proof (len_nonneg tail).
  assert (len d = len pre + len (pg_name c) + 9 + len tail) as Hd.
  { unfold d. rewrite !len_app, len_body. lia. }
  set (ints := put_uint 4 (pg_type c) ++ put_uint 4 (pg_mod c)).
  assert (d = pre ++ pg_name c ++ NUL :: ints ++ tail) as Hsplit.
  { unfold d, encode_body, ints. by rewrite <- !app_assoc. }
  assert (scan_nul d (len pre) = len pre + len (pg_name c)) as Hscan
    by by eapply scan_nul_split.
  cbn [column_loop]. rewrite (proj2 (Z.leb_gt (len d) (len pre))) by lia. rewrite Hscan.
  rewrite (proj2 (Z.leb_gt (len d) _)) by lia.
  rewrite (slice_split d pre (pg_name c) (NUL :: ints ++ tail)) by done.
  rewrite (proj2 (Z.ltb_ge (len d) _)) by lia.
  destruct (slice_total d (len pre + len (pg_name c) + 1) (len pre + len (pg_name c) + 1 + 4))
    as (oid & -> & _); [lia|lia|].
  destruct tail as [|f tail].
  - rewrite (proj2 (Z.leb_le (len d) _)) by (rewrite len_nil in Hd; lia). eauto.
  - rewrite len_cons in Hd. pose proof (len_nonneg tail).
    rewrite (proj2 (Z.leb_gt (len d) _)) by lia.
    destruct (at_total d (len pre + len (pg_name c) + 1 + 8)) as (fl & ->); [lia|].
    eexists. split; [|f_equal; rewrite len_body; lia]. done.
Qed.

(** From the first name on, the decoder is one byte out of step: each column
    gets the flags of the next, and the last one is dropped. *)
Lemma column_loop_shifted rest :
  ∀ c pre acc, NUL ∉ pg_name c → Forall (λ c, NUL ∉ pg_name c) rest →
  ∃ cols p, column_loop (pre ++ encode_body c ++ concat (encode_column <$> rest))
              (S (length rest)) (len pre) acc = Some (Ok (cols, p)) ∧
  col_name <$> cols =
    (col_name <$> acc) ++ (to_string <$> removelast (pg_name c :: (pg_name <$> rest))).
Proof.
  induction rest as [|c' rest IH]; intros c pre acc Hc Hall.
  - destruct (column_step c pre [] 0 acc Hc) as (p & Hp). cbn [fmap list_fmap concat].
    exists acc, p. split; [exact Hp|]. simpl. by rewrite app_nil_r.
  - apply Forall_cons in Hall as [Hc' Hall]. rewrite fmap_cons. cbn [concat].
    destruct (column_step c pre (encode_column c' ++ concat (encode_column <$> rest)) (S (length rest)) acc Hc)
      as (col & Hname & Heq).
    set (pre' := pre ++ encode_body c ++ [pg_flags c']).
    destruct (IH c' pre' (acc ++ [col]) Hc' Hall) as (cols & p & Hloop & Hcols).
    exists cols, p. split.
    + cbn [length]. etrans; [exact Heq|]. rewrite <- Hloop. f_equal.
      * unfold pre', encode_column. by rewrite <- !app_assoc.
      * unfold pre'. rewrite !len_app, len_cons, len_nil. lia.
    + rewrite Hcols, fmap_app, <- app_assoc. f_equal. cbn [fmap list_fmap app removelast].
      by rewrite Hname.
Qed.

(** What precedes the columns is read as it is sent. *)
Definition relation_head (id : Z) (ns name : bytes) (identity : ascii) (n : nat) : bytes :=
  header "R" id ++ ns ++ NUL :: name ++ NUL :: identity :: put_uint 2 (Z.of_nat n).

Lemma decodeRelation_head id ns name identity n cols :
  NUL ∉ ns → NUL ∉ name → 0 ≤ id < 2 ^ 32 → Z.of_nat n < 2 ^ 16 →
  let pre := relation_head id ns name identity n in
  decodeRelation (pre ++ cols) =
  (let?! (cs, p) := column_loop (pre ++ cols) n (len pre) [] in
   Some (Ok ({| rel_id := id; namespace := to_string ns; rel_name := to_string name;
                columns := cs |}, p))).
Proof.
  intros Hns Hname Hid Hn pre. unfold decodeRelation. set (count := put_uint 2 (Z.of_nat n)).
  assert (len count = 2) as Hc2 by apply len_put_uint.
  pose proof (len_nonneg ns). pose proof (len_nonneg name). pose proof (len_nonneg cols).
  set (pre2 := header "R" id ++ ns ++ [NUL]). set (pre3 := pre2 ++ name ++ [NUL; identity]).
  assert (len pre2 = 5 + len ns + 1) as Hpre2.
  { unfold pre2. rewrite !len_app, len_header, len_cons, len_nil. lia. }
  assert (len pre3 = 5 + len ns + 1 + len name + 1 + 1) as Hpre3.
  { unfold pre3. rewrite !len_app, !len_cons, len_nil. lia. }
  assert (pre = pre3 ++ count) as Hpre.
  { unfold pre, relation_head, pre3, pre2. by rewrite <- !app_assoc. }
  assert (len pre = 10 + len ns + len name) as Hlp by (rewrite Hpre, len_app; lia).
  set (d := pre ++ cols). assert (len d = len pre + len cols) as Hd by apply len_app.
  assert (d = pre2 ++ name ++ NUL :: identity :: count ++ cols) as Hd2.
  { unfold d. rewrite Hpre. unfold pre3. by rewrite <- !app_assoc. }
  assert (d = header "R" id ++ ns ++ NUL :: name ++ NUL :: identity :: count ++ cols) as Hd1.
  { rewrite Hd2. unfold pre2. by rewrite <- !app_assoc. }
  rewrite (proj2 (Z.ltb_ge (len d) 10)) by lia.
  destruct (header_id "R" id (ns ++ NUL :: name ++ NUL :: identity :: count ++ cols) Hid)
    as (s & Hs & Hsid). rewrite <- Hd1 in Hs. rewrite Hs, Hsid.
  assert (scan_nul d 5 = 5 + len ns) as Hscan1
    by (rewrite <- (len_header "R" id); by eapply scan_nul_split).
  rewrite Hscan1, (proj2 (Z.leb_gt (len d) _)) by lia.
  rewrite (slice_split d (header "R" id) ns (NUL :: name ++ NUL :: identity :: count ++ cols))
    by (try done; by rewrite len_header).
  assert (scan_nul d (5 + len ns + 1) = 5 + len ns + 1 + len name) as Hscan2
    by (rewrite <- Hpre2; by eapply scan_nul_split).
  rewrite Hscan2, (proj2 (Z.leb_gt (len d) _)) by lia.
  rewrite (slice_split d pre2 name (NUL :: identity :: count ++ cols)) by (try done; lia).
  rewrite (proj2 (Z.leb_gt (len d) _)) by lia. rewrite (proj2 (Z.ltb_ge (len d) _)) by lia.
  rewrite (slice_split d pre3 count cols); [|unfold d; by rewrite Hpre, <- app_assoc|lia|lia].
  unfold count at 1. rewrite big_endian_put, Nat2Z.id by (simpl; lia).
  by replace (5 + len ns + 1 + len name + 1 + 1 + 2) with (len pre) by lia.
Qed.

(** A relation message as PostgreSQL sends it is misread. When the first
    column belongs to the key (its flags are not zero), the decoder reports one
    column too few, gives the first one a name that starts with the flags
    byte, and loses the last. *)
Theorem relation_misread id ns name identity f n1 oid mod_ rest :
  NUL ∉ ns → NUL ∉ name → f ≠ NUL → NUL ∉ n1 → Forall (λ c, NUL ∉ pg_name c) rest →
  0 ≤ id < 2 ^ 32 → Z.of_nat (length rest) + 1 < 2 ^ 16 →
  let first := {| pg_flags := f; pg_name := n1; pg_type := oid; pg_mod := mod_ |} in
  ∃ rel p, decodeRelation (encode_relation id ns name identity (first :: rest)) = Some (Ok (rel, p)) ∧
    rel_id rel = id ∧ namespace rel = to_string ns ∧ rel_name rel = to_string name ∧
    (col_name <$> columns rel) = to_string <$> removelast ((f :: n1) :: (pg_name <$> rest)).
Proof.
  intros Hns Hname Hf Hn1 Hrest Hid Hcount first.
  set (pre := relation_head id ns name identity (S (length rest))).
  set (shifted := {| pg_flags := f; pg_name := f :: n1; pg_type := oid; pg_mod := mod_ |}).
  assert (encode_relation id ns name identity (first :: rest) =
          pre ++ encode_body shifted ++ concat (encode_column <$> rest)) as ->.
  { unfold encode_relation, pre, relation_head, header. rewrite fmap_cons. cbn [concat app length].
    change (encode_column first) with (encode_body shifted). repeat (rewrite <- !app_assoc; cbn [app]).
    done. }
  unfold pre. rewrite decodeRelation_head by (done || lia). fold pre.
  destruct (column_loop_shifted rest shifted pre []) as (res & p & -> & Hnames); [|done|].
  { apply not_elem_of_cons. split; [congruence|done]. }
  eexists _, p. split; [done|]. split_and!; [done..|exact Hnames].
Qed.

Lemma relation_misread_witness :
  let str := list_ascii_of_string in
  let id := {| pg_flags := ascii_of_nat 1; pg_name := str "id"; pg_type := 2950; pg_mod := 0 |} in
  let status := {| pg_flags := NUL; pg_name := str "status"; pg_type := 25; pg_mod := 0 |} in
  ∃ rel p, decodeRelation (encode_relation 7 (str "public") (str "plans") "d"%char [id; status]) =
    Some (Ok (rel, p)) ∧ (col_name <$> columns rel) = [to_string (ascii_of_nat 1 :: str "id")].
Proof.
  destruct (relation_misread 7 (list_ascii_of_string "public") (list_ascii_of_string "plans") "d"%char
              (ascii_of_nat 1) (list_ascii_of_string "id") 2950 0
              [{| pg_flags := NUL; pg_name := list_ascii_of_string "status"; pg_type := 25; pg_mod := 0 |}])
    as (rel & p & Hdec & _ & _ & _ & Hcols); [..|exists rel, p; by split].
  all: repeat apply Forall_cons_2; try apply Forall_nil_2;
    apply (bool_decide_eq_true_1 _); vm_compute; reflexivity.
Defined.
End PgOutput.

(** ** Sinks *)
Module Sinks.
Import PgOutput.

(** What the consumer asks of a sink: [true] is a nil error. *)
Class Sink (S : Type) := {
  WriteChange : Change → S → S * bool;
  Flush : S → S * bool;
  Close : S → S * bool;
}.

Record MemorySink := { captured : list Change; closed : bool }.
Definition NewMemorySink : MemorySink := {| captured := []; closed := false |}.

Definition Memory_WriteChange (c : Change) (s : MemorySink) : MemorySink * bool :=
  if closed s then (s, false)
  else ({| captured := captured s ++ [c]; closed := closed s |}, true).
Definition Memory_Flush (s : MemorySink) : MemorySink * bool := (s, true).
Definition Memory_Close (s : MemorySink) : MemorySink * bool :=
  ({| captured := captured s; closed := true |}, true).
Definition Changes (s : MemorySink) : list Change := captured s.

#[export] Instance memory_sink : Sink MemorySink := {
  WriteChange := Memory_WriteChange; Flush := Memory_Flush; Close := Memory_Close }.

(** The Kafka sink, over a writer that may fail: [writer_ok] says which of the
    coming writes succeed, and [sent] lists the topics and keys written. The
    JSON value is left out. *)
Record KafkaSink := {
  topicPref : string;
  kafka_closed : bool;
  writer_ok : list bool;
  sent : list (string * string);
}.

Definition NewKafkaSink (prefix : string) (writes : list bool) : KafkaSink :=
  {| topicPref := if decide (prefix = "") then "stellabill" else prefix; kafka_closed := false;
     writer_ok := writes; sent := [] |}.

Definition topicFor (s : KafkaSink) (schema table : string) : string :=
  (topicPref s +:+ "." +:+ schema +:+ "." +:+ table)%string.
Definition message_key (c : Change) : string :=
  (Schema c +:+ "/" +:+ Table c +:+ "/" +:+ Itoa (LSN c))%string.

Definition Kafka_WriteChange (c : Change) (s : KafkaSink) : KafkaSink * bool :=
  if kafka_closed s then (s, false)
  else match writer_ok s with
  | false :: w =>
      ({| topicPref := topicPref s; kafka_closed := kafka_closed s; writer_ok := w; sent := sent s |}, false)
  | w =>
      ({| topicPref := topicPref s; kafka_closed := kafka_closed s; writer_ok := tail w;
          sent := sent s ++ [(topicFor s (Schema c) (Table c), message_key c)] |}, true)
  end.
Definition Kafka_Flush (s : KafkaSink) : KafkaSink * bool := (s, true).
Definition Kafka_Close (s : KafkaSink) : KafkaSink * bool :=
  ({| topicPref := topicPref s; kafka_closed := true; writer_ok := writer_ok s; sent := sent s |}, true).

#[export] Instance kafka_sink : Sink KafkaSink := {
  WriteChange := Kafka_WriteChange; Flush := Kafka_Flush; Close := Kafka_Close }.
End Sinks.

(** ** The consumer *)
Module Consumer.
Import PgOutput Sinks.

Record ConsumerConfig := {
  ConnString : string;
  SlotName : string;
  PublicationName : string;
  StandbyTimeout : Duration;
  MaxReconnectAttempts : Z;
  ReconnectBackoff : Duration;
}.

Definition DefaultConsumerConfig : ConsumerConfig :=
  {| ConnString := ""; SlotName := "stellabill_cdc_slot"; PublicationName := "stellabill_cdc";
     StandbyTimeout := 10 * Time.Second; MaxReconnectAttempts := 10;
     ReconnectBackoff := 1 * Time.Second |}.

(** [None]: the connection string is required. *)
Definition NewConsumer (cfg : ConsumerConfig) : option ConsumerConfig :=
  if decide (ConnString cfg = "") then None
  else Some
    {| ConnString := ConnString cfg;
       SlotName := if decide (SlotName cfg = "") then "stellabill_cdc_slot" else SlotName cfg;
       PublicationName := if decide (PublicationName cfg = "") then "stellabill_cdc" else PublicationName cfg;
       StandbyTimeout := if StandbyTimeout cfg <=? 0 then 10 * Time.Second else StandbyTimeout cfg;
       MaxReconnectAttempts := MaxReconnectAttempts cfg;
       ReconnectBackoff := if ReconnectBackoff cfg <=? 0 then 1 * Time.Second else ReconnectBackoff cfg |}.

Definition updateLSN (lsn lastLSN : Z) : Z := if lastLSN <? lsn then lsn else lastLSN.

Definition set_lsn (l : Z) (c : Change) : Change :=
  {| Schema := Schema c; Table := Table c; Op := Op c; Before := Before c; After := After c; LSN := l |}.

Section consume.
Context {S : Type} `{Sink S}.

(** [for _, sink := range c.cfg.Sinks { if err := sink.WriteChange(...) ... }] *)
Fixpoint write_all (c : Change) (sinks : list S) : list S * bool :=
  match sinks with
  | [] => ([], true)
  | s :: sinks =>
      let '(s, ok) := WriteChange c s in
      let '(sinks, oks) := write_all c sinks in
      (s :: sinks, ok && oks)
  end.

(** [for _, change := range changes { ... }] *)
Fixpoint forward (newLSN : Z) (cs : list Change) (sinks : list S) (lastLSN : Z) : list S * Z :=
  match cs with
  | [] => (sinks, lastLSN)
  | c :: cs =>
      let '(sinks, allSinksOK) := write_all (set_lsn newLSN c) sinks in
      forward newLSN cs sinks (if allSinksOK : bool then updateLSN newLSN lastLSN else lastLSN)
  end.

Record consumer := { decoder : gmap Z relMeta; sinks : list S; lastLSN : Z }.

(** The case of a [CopyData] message; [None] is a panic of the decoder. *)
Definition handle_copy_data (data : list ascii) (c : consumer) : option consumer :=
  match decode (decoder c) data with
  | None => None
  | Some r =>
      match err r with
      | Some _ => Some {| decoder := relations r; sinks := sinks c; lastLSN := lastLSN c |}
      | None =>
          let '(ss, l) := forward (lsn r) (changes r) (sinks c) (lastLSN c) in
          Some {| decoder := relations r; sinks := ss; lastLSN := l |}
      end
  end.

(** The changes of a batch that every sink accepted. *)
Fixpoint accepted (newLSN : Z) (cs : list Change) (sinks : list S) : list bool :=
  match cs with
  | [] => []
  | c :: cs =>
      let '(sinks, ok) := write_all (set_lsn newLSN c) sinks in
      ok :: accepted newLSN cs sinks
  end.
End consume.
Arguments consumer : clear implicits.

(** The status update: ['r'], the position three times, the time in
    microseconds, and the request for a reply. Nothing is sent at position 0. *)
Definition standby_status (lastLSN micros : Z) : option (list ascii) :=
  if lastLSN =? 0 then None
  else Some ("r"%char :: put_uint 8 lastLSN ++ put_uint 8 lastLSN ++ put_uint 8 lastLSN ++
             put_uint 8 micros ++ [ascii_of_nat 1]).

(** ** Reconnection

    What a run of [runReplication] ended with. *)
Inductive run_result := RunNil | RunCancelled | RunFailed.
Inductive loop_result := LoopNil | LoopCancelled | LoopExceeded.

Definition reconnect_backoff (cfg : ConsumerConfig) (attempts : Z) : Duration :=
  let backoff := wrap64 (attempts * ReconnectBackoff cfg) in
  if 30 * Time.Second <? backoff then 30 * Time.Second else backoff.

(** [run i] is what the [i]-th run ends with and [done i] whether the context
    is done before it or during the wait after it. The loop's waits come with
    the result; [None] when [fuel] runs do not end it. *)
Fixpoint replicationLoop (fuel : nat) (cfg : ConsumerConfig) (run : nat → run_result)
    (done_before done_wait : nat → bool) (attempts : nat) : option (loop_result * list Duration) :=
  match fuel with
  | O => None
  | S fuel =>
      if done_before attempts then Some (LoopCancelled, [])
      else match run attempts with
      | RunNil => Some (LoopNil, [])
      | RunCancelled => Some (LoopCancelled, [])
      | RunFailed =>
          let n := Z.of_nat (S attempts) in
          if (0 <? MaxReconnectAttempts cfg) && (MaxReconnectAttempts cfg <=? n)
          then Some (LoopExceeded, [])
          else
            let backoff := reconnect_backoff cfg n in
            if done_wait attempts then Some (LoopCancelled, [backoff])
            else match replicationLoop fuel cfg run done_before done_wait (S attempts) with
            | Some (r, ws) => Some (r, backoff :: ws)
            | None => None
            end
      end
  end.

Section facts.
Context {S : Type} `{Sink S}.

Lemma forward_lsn newLSN cs (ss : list S) last :
  (forward newLSN cs ss last).2 =
  if existsb id (accepted newLSN cs ss) then Z.max last newLSN else last.
Proof.
  revert ss last. induction cs as [|c cs IH]; intros ss last; simpl; [done|].
  destruct (write_all (set_lsn newLSN c) ss) as [ss' ok]. rewrite IH. simpl.
  destruct ok; simpl; [|done]. unfold updateLSN.
  destruct (existsb id _), (Z.ltb_spec last newLSN); lia.
Qed.
End facts.

(** A batch confirms its position to the server as soon as one of its
    changes was written by every sink, however many others failed: the
    confirmed position moves to the batch's exactly when the writes of some
    change all succeeded. So a change whose write failed is passed over, and
    the server never sends it again. *)
Theorem confirmed_position {S} `{Sink S} (data : list ascii) (c : consumer S) r :
  decode (decoder c) data = Some r → err r = None →
  ∃ c', handle_copy_data data c = Some c' ∧
    lastLSN c' = if existsb id (accepted (lsn r) (changes r) (sinks c))
                 then Z.max (lastLSN c) (lsn r) else lastLSN c.
Proof.
  intros Hr He. unfold handle_copy_data. rewrite Hr, He.
  pose proof (forward_lsn (lsn r) (changes r) (sinks c) (lastLSN c)) as Hf.
  destruct (forward _ _ _ _) as [ss l]. simpl in Hf. eexists. by split.
Qed.

(** The first write fails and the second succeeds: the first row is lost. *)
Lemma confirmed_position_witness :
  let rel := {| rel_id := 7; namespace := "public"; rel_name := "plans";
                columns := [{| col_name := "id"; typeOID := 25; isKey := true; isNotNull := false |}] |} in
  let msgs := [Insert 7 [Text "p1"]; Insert 7 [Text "p2"]; Commit 99 100 101] in
  let c := {| decoder := {[7 := rel]}; sinks := [NewKafkaSink "" [false; true]]; lastLSN := 0 |} in
  ∃ c', handle_copy_data (frame 5 6 7 (concat (encode <$> msgs))) c = Some c' ∧ lastLSN c' = 99.
Proof.
  intros rel msgs c.
  destruct (confirmed_position (frame 5 6 7 (concat (encode <$> msgs))) c (outcome_of {[7 := rel]} 5 [] 0 msgs))
    as (c' & Hc & Hl); [|reflexivity|].
  - apply decode_encoded; [|lia].
    repeat apply Forall_cons_2; [| |by simpl; lia|by constructor];
      (split; [lia|]; eexists; split; [apply lookup_singleton_eq|]; repeat constructor; simpl; lia).
  - exists c'. split; [exact Hc|]. rewrite Hl. vm_compute. reflexivity.
Defined.

Lemma reconnect_backoff_le cfg n : reconnect_backoff cfg n ≤ 30 * Time.Second.
Proof. unfold reconnect_backoff. cbv zeta. destruct (Z.ltb_spec (30 * Time.Second) (wrap64 (n * ReconnectBackoff cfg))); lia. Qed.

Lemma replicationLoop_gives_up cfg run n attempts fuel :
  MaxReconnectAttempts cfg = Z.of_nat (attempts + S n) → (n < fuel)%nat →
  (∀ i, run i = RunFailed) →
  ∃ ws, replicationLoop fuel cfg run (λ _, false) (λ _, false) attempts = Some (LoopExceeded, ws) ∧
    length ws = n ∧ Forall (λ w, w ≤ 30 * Time.Second) ws.
Proof.
  revert attempts fuel. induction n as [|n IH]; intros attempts [|fuel] Hm Hf Hrun; try lia;
    cbn [replicationLoop]; rewrite Hrun.
  - exists []. rewrite (proj2 (Z.ltb_lt _ _)), (proj2 (Z.leb_le _ _)) by lia. done.
  - rewrite (proj2 (Z.ltb_lt _ _)), (proj2 (Z.leb_gt _ _)) by lia. cbn [andb].
    destruct (IH (S attempts) fuel) as (ws & -> & Hl & Hall); [lia|lia|done|].
    exists (reconnect_backoff cfg (Z.of_nat (S attempts)) :: ws). split_and!; [done|simpl; by rewrite Hl|].
    constructor; [apply reconnect_backoff_le|done].
Qed.

(** When every run fails, the loop gives up after exactly
    [MaxReconnectAttempts] runs, with waits of at most half a minute between
    them. *)
Theorem reconnect_attempts cfg run fuel :
  0 < MaxReconnectAttempts cfg → (Z.to_nat (MaxReconnectAttempts cfg) ≤ fuel)%nat →
  (∀ i, run i = RunFailed) →
  ∃ ws, replicationLoop fuel cfg run (λ _, false) (λ _, false) 0 = Some (LoopExceeded, ws) ∧
    Z.of_nat (length ws) = MaxReconnectAttempts cfg - 1 ∧ Forall (λ w, w ≤ 30 * Time.Second) ws.
Proof.
  intros Hm Hf Hrun.
  destruct (replicationLoop_gives_up cfg run (Z.to_nat (MaxReconnectAttempts cfg) - 1) 0 fuel)
    as (ws & Hws & Hl & Hall); [lia|lia|done|]. exists ws. split_and!; [done|lia|done].
Qed.
End Consumer.
