(* ===== verification/Rsql.v ===== *)
(** * The filter language

    Models [internal/requestparams/rsql.go]: the recursive-descent parser of
    RSQL filters and its compilation to parameterised SQL. The parser only
    moves forward, so its state is the rest of the input. A result of [None]
    means that the fuel ran out, which [parse_total] excludes. The query
    builder [squirrel] is third-party code: the filter compiles to the tree of
    builder values. *)
From Stdlib Require Import ZArith Lia Ascii String.
From stdpp Require Import base gmap strings list.
From S2P Require Import Prelude GoStrings.

Record FieldRule := { Indexed : bool; Column : string }.
Record ParseOptions := {
  AllowUnindexed : bool;
  AllowedFields : option (gmap string FieldRule);
}.

(** [rsqlNode]: a node is a predicate or a pair of children. *)
Inductive rsqlNode :=
| Predicate (field operator : string) (values : list string) (column : string)
| AndNode (left right : rsqlNode)
| OrNode (left right : rsqlNode).

Record RSQLFilter := { root : rsqlNode; raw : string }.

Inductive rsql_error :=
| FilterEmpty | UnexpectedEnd | ExpectedClose | ExpectedOpen | ExpectedCommaOrClose
| UnsupportedField (f : string) | NotIndexed (f : string)
| ExpectedOperator | InvalidOperator | UnsupportedOperator (op : string) | UnsupportedSyntax
| ExpectedField | ExpectedValue | DanglingEscape | InvalidUTF8.

Notation res A := (result rsql_error A) (only parsing).

Definition defaultAllowedFields : gmap string FieldRule :=
  <["amount" := {| Indexed := true; Column := "total_amount" |}]>
  (<["customer_id" := {| Indexed := true; Column := "customer_id" |}]>
  (<["kind" := {| Indexed := true; Column := "kind" |}]>
  (<["status" := {| Indexed := true; Column := "status" |}]>
  (<["subscription_id" := {| Indexed := true; Column := "subscription_id" |}]> ∅)))).

(** ** Scanning *)
Definition is_space (c : ascii) : bool :=
  bool_decide (c = " "%char) || bool_decide (c = ascii_of_nat 9) ||
  bool_decide (c = ascii_of_nat 10) || bool_decide (c = ascii_of_nat 13).

Fixpoint skipWhitespace (s : string) : string :=
  match s with
  | String c s' => if is_space c then skipWhitespace s' else s
  | EmptyString => s
  end.

(** [p.peekRune() == c], with the input after that byte. *)
Definition peek_is (c : ascii) (s : string) : option string :=
  match s with
  | String c' s' => if decide (c' = c) then Some s' else None
  | EmptyString => None
  end.

Definition is_ident (c : ascii) : bool :=
  let r := code c in
  ((97 <=? r) && (r <=? 122)) || ((65 <=? r) && (r <=? 90)) || ((48 <=? r) && (r <=? 57)) ||
  (r =? 46) || (r =? 95) || (r =? 45).

(** The longest prefix whose bytes satisfy [p], and the rest. *)
Fixpoint span (p : ascii → bool) (s : string) : string * string :=
  match s with
  | String c s' =>
      if p c then let '(a, b) := span p s' in (String c a, b) else (EmptyString, s)
  | EmptyString => (EmptyString, s)
  end.

Definition parseIdentifier (s : string) : res (string * string) :=
  match span is_ident s with
  | (EmptyString, _) => Err ExpectedField
  | r => Ok r
  end.

Definition known_operators : list string := ["gt"; "ge"; "lt"; "le"; "in"; "out"; "eq"; "ne"].

Definition parseOperator (s : string) : res (string * string) :=
  match skipWhitespace s with
  | EmptyString => Err ExpectedOperator
  | String c s =>
      if decide (c = "="%char) then
        match peek_is "=" s with
        | Some s => Ok ("eq", s)
        | None =>
            match span (λ c, negb (bool_decide (c = "="%char))) s with
            | (operator, String _ s) =>
                if decide (operator ∈ known_operators) then Ok (operator, s)
                else Err (UnsupportedOperator operator)
            | (_, EmptyString) => Err InvalidOperator
            end
        end
      else Err UnsupportedSyntax
  end.

(** [utf8.ValidString] *)
Fixpoint valid_utf8 (s : string) : bool :=
  match s with
  | EmptyString => true
  | String c0 s1 =>
      if code c0 <? 128 then valid_utf8 s1
      else match lead (code c0), s1 with
      | Some (2%nat, lo, hi), String c1 s2 => is_cont lo hi c1 && valid_utf8 s2
      | Some (3%nat, lo, hi), String c1 (String c2 s3) =>
          is_cont lo hi c1 && is_cont 128 191 c2 && valid_utf8 s3
      | Some (4%nat, lo, hi), String c1 (String c2 (String c3 s4)) =>
          is_cont lo hi c1 && is_cont 128 191 c2 && is_cont 128 191 c3 && valid_utf8 s4
      | _, _ => false
      end
  end.

Definition stops_value (c : ascii) : bool :=
  bool_decide (c = ";"%char) || bool_decide (c = ","%char) || bool_decide (c = ")"%char).

(** The loop of [parseValue], which builds the value. *)
Fixpoint value_loop (s : string) : res (string * string) :=
  match s with
  | EmptyString => Ok ("", s)
  | String c s' =>
      if stops_value c then Ok ("", s)
      else if decide (c = "\"%char) then
        match s' with
        | EmptyString => Err DanglingEscape
        | String c' s'' =>
            match value_loop s'' with
            | Ok (v, rest) => Ok (String c' v, rest)
            | Err e => Err e
            end
        end
      else match value_loop s' with
           | Ok (v, rest) => Ok (String c v, rest)
           | Err e => Err e
           end
  end.

Definition parseValue (s : string) : res (string * string) :=
  match skipWhitespace s with
  | EmptyString => Err ExpectedValue
  | s =>
      match value_loop s with
      | Err e => Err e
      | Ok (EmptyString, _) => Err ExpectedValue
      | Ok (v, rest) => if valid_utf8 v then Ok (v, rest) else Err InvalidUTF8
      end
  end.

(** The loop of [parseListValue]; every round consumes a byte at least. *)
Fixpoint list_loop (fuel : nat) (values : list string) (s : string) : option (res (list string * string)) :=
  match fuel with
  | O => None
  | S fuel =>
      if decide (s = "") then Some (Err ExpectedClose)
      else match peek_is ")" s with
      | Some s => Some (Ok (values, s))
      | None =>
          match parseValue s with
          | Err e => Some (Err e)
          | Ok (v, s) =>
              let values := values ++ [v] in
              let s := skipWhitespace s in
              match peek_is "," s with
              | Some s => list_loop fuel values (skipWhitespace s)
              | None =>
                  match peek_is ")" (skipWhitespace s) with
                  | Some s => Some (Ok (values, s))
                  | None => Some (Err ExpectedCommaOrClose)
                  end
              end
          end
      end
  end.

Definition parseListValue (s : string) : option (res (list string * string)) :=
  match peek_is "(" (skipWhitespace s) with
  | Some s => let s := skipWhitespace s in list_loop (S (String.length s)) [] s
  | None => Some (Err ExpectedOpen)
  end.

(** ** Predicates and expressions *)
Section parser.
Context (allowUnindexed : bool) (allowed : gmap string FieldRule).

Definition parsePredicate (s : string) : option (res (rsqlNode * string)) :=
  match parseIdentifier s with
  | Err e => Some (Err e)
  | Ok (field, s) =>
      match skipWhitespace s with
      | EmptyString => Some (Err UnexpectedEnd)
      | s =>
          match parseOperator s with
          | Err e => Some (Err e)
          | Ok (operator, s) =>
              let s := skipWhitespace s in
              match allowed !! field with
              | None => Some (Err (UnsupportedField field))
              | Some rule =>
                  if negb (Indexed rule) && negb allowUnindexed then Some (Err (NotIndexed field))
                  else if decide (operator = "in" ∨ operator = "out") then
                    match parseListValue s with
                    | Some (Ok (values, s)) => Some (Ok (Predicate field operator values (Column rule), s))
                    | Some (Err e) => Some (Err e)
                    | None => None
                    end
                  else match parseValue s with
                    | Ok (value, s) => Some (Ok (Predicate field operator [value] (Column rule), s))
                    | Err e => Some (Err e)
                    end
              end
          end
      end
  end.

(** [parseOr] and [parseAnd] with their loops, and [parsePrimary]. *)
Fixpoint parseOr (fuel : nat) (s : string) : option (res (rsqlNode * string)) :=
  match fuel with
  | O => None
  | S fuel =>
      match parseAnd fuel s with
      | Some (Ok (lhs, s)) => or_loop fuel lhs s
      | r => r
      end
  end
with or_loop (fuel : nat) (lhs : rsqlNode) (s : string) : option (res (rsqlNode * string)) :=
  match fuel with
  | O => None
  | S fuel =>
      match peek_is "," s with
      | None => Some (Ok (lhs, s))
      | Some s =>
          match parseAnd fuel s with
          | Some (Ok (rhs, s)) => or_loop fuel (OrNode lhs rhs) s
          | r => r
          end
      end
  end
with parseAnd (fuel : nat) (s : string) : option (res (rsqlNode * string)) :=
  match fuel with
  | O => None
  | S fuel =>
      match parsePrimary fuel s with
      | Some (Ok (lhs, s)) => and_loop fuel lhs s
      | r => r
      end
  end
with and_loop (fuel : nat) (lhs : rsqlNode) (s : string) : option (res (rsqlNode * string)) :=
  match fuel with
  | O => None
  | S fuel =>
      match peek_is ";" s with
      | None => Some (Ok (lhs, s))
      | Some s =>
          match parsePrimary fuel s with
          | Some (Ok (rhs, s)) => and_loop fuel (AndNode lhs rhs) s
          | r => r
          end
      end
  end
with parsePrimary (fuel : nat) (s : string) : option (res (rsqlNode * string)) :=
  match fuel with
  | O => None
  | S fuel =>
      match skipWhitespace s with
      | EmptyString => Some (Err UnexpectedEnd)
      | s =>
          match peek_is "(" s with
          | Some s =>
              match parseOr fuel s with
              | Some (Ok (node, s)) =>
                  match peek_is ")" (skipWhitespace s) with
                  | Some s => Some (Ok (node, s))
                  | None => Some (Err ExpectedClose)
                  end
              | r => r
              end
          | None => parsePredicate s
          end
      end
  end.
End parser.

(** Four calls per byte are enough: see [parse_total]. *)
Definition parse_fuel (s : string) : nat := 4 * String.length s + 4.

Definition ParseRSQLWithOptions (input : string) (opts : ParseOptions) : option (res RSQLFilter) :=
  match TrimSpace input with
  | EmptyString => Some (Err FilterEmpty)
  | trimmed =>
      let allowed := default defaultAllowedFields (AllowedFields opts) in
      match parseOr (AllowUnindexed opts) allowed (parse_fuel trimmed) trimmed with
      | Some (Ok (n, _)) => Some (Ok {| root := n; raw := trimmed |})
      | Some (Err e) => Some (Err e)
      | None => None
      end
  end.

Definition ParseRSQL (input : string) : option (res RSQLFilter) :=
  ParseRSQLWithOptions input {| AllowUnindexed := false; AllowedFields := None |}.

(** [Fingerprint]: sixteen hexadecimal digits of the hash [sha256_hex]. *)
Definition Fingerprint (sha256_hex : string → string) (f : option RSQLFilter) : string :=
  match f with
  | None => ""
  | Some f =>
      if decide (raw f = "") then "" else substring 0 16 (sha256_hex (TrimSpace (raw f)))
  end.

(** ** Compilation *)
Inductive Sqlizer :=
| Expr (sql : string) (args : list string)
| And (parts : list Sqlizer)
| Or (parts : list Sqlizer).

Definition join (sep : string) (l : list string) : string := String.concat sep l.

Definition in_list (column keyword : string) (values : list string) : Sqlizer :=
  Expr (column +:+ keyword +:+ join ", " (replicate (length values) "?") +:+ ")")%string values.

Definition predicateToSquirrel (field operator : string) (values : list string) (column : string)
    : result string Sqlizer :=
  let column := if decide (column = "") then field else column in
  let cmp op := match values with
                | v :: _ => Ok (Expr (column +:+ op)%string [v])
                | [] => Err "index out of range"
                end in
  if decide (operator = "eq") then cmp " = ?"
  else if decide (operator = "ne") then cmp " != ?"
  else if decide (operator = "gt") then cmp " > ?"
  else if decide (operator = "ge") then cmp " >= ?"
  else if decide (operator = "lt") then cmp " < ?"
  else if decide (operator = "le") then cmp " <= ?"
  else if decide (operator = "in") then Ok (in_list column " IN (" values)
  else if decide (operator = "out") then Ok (in_list column " NOT IN (" values)
  else Err "unsupported operator".

Fixpoint toSquirrel (n : rsqlNode) : result string Sqlizer :=
  match n with
  | Predicate f op vs c => predicateToSquirrel f op vs c
  | AndNode l r =>
      match toSquirrel l, toSquirrel r with
      | Ok a, Ok b => Ok (And [a; b])
      | Err e, _ | _, Err e => Err e
      end
  | OrNode l r =>
      match toSquirrel l, toSquirrel r with
      | Ok a, Ok b => Ok (Or [a; b])
      | Err e, _ | _, Err e => Err e
      end
  end.

Definition ToSquirrel (f : option RSQLFilter) : result string Sqlizer :=
  match f with None => Err "filter is empty" | Some f => toSquirrel (root f) end.

Example parse_ex :
  ParseRSQL " status==active;amount=gt=5,kind=in=(a, b) " =
  Some (Ok {| root := OrNode (AndNode (Predicate "status" "eq" ["active"] "status")
                                      (Predicate "amount" "gt" ["5"] "total_amount"))
                             (Predicate "kind" "in" ["a"; "b"] "kind");
              raw := "status==active;amount=gt=5,kind=in=(a, b)" |}).
Proof. vm_compute. reflexivity. Qed.

(** ** Every parser ends and moves forward *)
Notation len := String.length.

Lemma skipWhitespace_le s : (len (skipWhitespace s) ≤ len s)%nat.
Proof. induction s as [|c s IH]; simpl; [done|]. destruct (is_space c); simpl; lia. Qed.

Lemma span_length p s a b : span p s = (a, b) → len s = (len a + len b)%nat.
Proof.
  revert a b. induction s as [|c s IH]; intros a b; simpl.
  { by intros [= <- <-]. }
  destruct (p c); [|by intros [= <- <-]].
  destruct (span p s) as [a' b']. intros [= <- <-]. simpl. by rewrite (IH a' b').
Qed.

(** [r] consumed at least [k] bytes of [s] if it succeeded. *)
Definition shortens {A} (k : nat) (s : string) (r : res (A * string)) : Prop :=
  ∀ x s', r = Ok (x, s') → (len s' + k ≤ len s)%nat.
Definition ends {A} (k : nat) (s : string) (r : option (res (A * string))) : Prop :=
  ∃ r', r = Some r' ∧ shortens k s r'.

Lemma ends_err {A} k s e : ends (A := A) k s (Some (Err e)).
Proof. eexists. by split. Qed.
Lemma ends_ok {A} k s (x : A) s' : (len s' + k ≤ len s)%nat → ends k s (Some (Ok (x, s'))).
Proof. intros H. eexists. split; [done|]. by intros ? ? [= <- <-]. Qed.
Lemma ends_weaken {A} k k' s s' (r : option (res (A * string))) :
  ends k s r → (len s + k' ≤ len s' + k)%nat → ends k' s' r.
Proof. intros (r' & -> & H) Hle. exists r'. split; [done|]. intros x t E. specialize (H x t E). lia. Qed.
Lemma ends_inv {A} k s (r : option (res (A * string))) :
  ends k s r → (∃ e, r = Some (Err e)) ∨ ∃ x s', r = Some (Ok (x, s')) ∧ (len s' + k ≤ len s)%nat.
Proof. intros ([[x s']|e] & -> & H); [right|left]; eauto. Qed.

Lemma parseIdentifier_shortens s : shortens 1 s (parseIdentifier s).
Proof.
  unfold parseIdentifier. destruct (span is_ident s) as [a b] eqn:E.
  apply span_length in E. destruct a as [|c a]; [done|]. intros x s' [= <- <-]. simpl in E. lia.
Qed.

Lemma peek_is_length c s s' : peek_is c s = Some s' → len s = S (len s').
Proof. destruct s as [|c' s]; simpl; [done|]. case_decide; [|done]. by intros [= <-]. Qed.

Lemma parseOperator_shortens s : shortens 1 s (parseOperator s).
Proof.
  unfold parseOperator. pose proof (skipWhitespace_le s).
  destruct (skipWhitespace s) as [|c s1]; [done|]. case_decide; [|done]. simpl in *.
  destruct (peek_is "=" s1) as [s2|] eqn:E.
  - apply peek_is_length in E. intros x s' [= <- <-]. lia.
  - destruct (span _ s1) as [a [|c' b]] eqn:E'; [done|]. apply span_length in E'.
    case_decide; [|done]. intros x s' [= <- <-]. simpl in *. lia.
Qed.

Lemma value_loop_shortens s v s' : value_loop s = Ok (v, s') → (len s' + len v ≤ len s)%nat.
Proof.
  remember (len s)%nat as n eqn:Hn. revert s v s' Hn.
  induction n as [n IH] using lt_wf_ind. intros [|c s] v s' Hn; simpl.
  { intros [= <- <-]. simpl in *. lia. }
  simpl in Hn. destruct (stops_value c); [intros [= <- <-]; simpl; lia|].
  case_decide.
  - destruct s as [|c' s]; [done|]. simpl in Hn.
    destruct (value_loop s) as [[v1 s1]|] eqn:E; [|done]. intros [= <- <-].
    specialize (IH (len s) ltac:(lia) s v1 s1 eq_refl E). simpl. lia.
  - destruct (value_loop s) as [[v1 s1]|] eqn:E; [|done]. intros [= <- <-].
    specialize (IH (len s) ltac:(lia) s v1 s1 eq_refl E). simpl. lia.
Qed.

Lemma parseValue_shortens s : shortens 1 s (parseValue s).
Proof.
  unfold parseValue. pose proof (skipWhitespace_le s) as Hs.
  destruct (skipWhitespace s) as [|c s1]; [done|].
  destruct (value_loop (String c s1)) as [[v rest]|] eqn:E; [|done].
  apply value_loop_shortens in E. destruct v as [|c' v]; [done|].
  destruct (valid_utf8 _); [|done]. intros x s' [= <- <-]. simpl in *. lia.
Qed.

Lemma list_loop_ends fuel vs s : (len s < fuel)%nat → ends 1 s (list_loop fuel vs s).
Proof.
  revert vs s. induction fuel as [|fuel IH]; intros vs s Hf; [lia|]. cbn [list_loop].
  case_decide; [apply ends_err|].
  destruct (peek_is ")" s) as [s1|] eqn:E; [apply peek_is_length in E; apply ends_ok; lia|].
  pose proof (parseValue_shortens s) as Hv. destruct (parseValue s) as [[v s1]|]; [|apply ends_err].
  specialize (Hv v s1 eq_refl). pose proof (skipWhitespace_le s1).
  destruct (peek_is "," (skipWhitespace s1)) as [s2|] eqn:E2.
  - apply peek_is_length in E2. pose proof (skipWhitespace_le s2).
    eapply ends_weaken; [apply IH|]; lia.
  - pose proof (skipWhitespace_le (skipWhitespace s1)).
    destruct (peek_is ")" (skipWhitespace (skipWhitespace s1))) as [s3|] eqn:E3;
      [apply peek_is_length in E3; apply ends_ok; lia|apply ends_err].
Qed.

Lemma parseListValue_ends s : ends 1 s (parseListValue s).
Proof.
  unfold parseListValue. pose proof (skipWhitespace_le s).
  destruct (peek_is "(" (skipWhitespace s)) as [s1|] eqn:E; [|apply ends_err].
  apply peek_is_length in E. pose proof (skipWhitespace_le s1).
  eapply ends_weaken; [apply list_loop_ends|]; lia.
Qed.

Section total.
Context (unindexed : bool) (allowed : gmap string FieldRule).

Lemma parsePredicate_ends s : ends 1 s (parsePredicate unindexed allowed s).
Proof.
  unfold parsePredicate. pose proof (parseIdentifier_shortens s) as Hi.
  destruct (parseIdentifier s) as [[f s1]|]; [|apply ends_err]. specialize (Hi f s1 eq_refl).
  pose proof (skipWhitespace_le s1). destruct (skipWhitespace s1) as [|c s2] eqn:E; [apply ends_err|].
  rewrite <- E in *. pose proof (parseOperator_shortens (skipWhitespace s1)) as Ho.
  destruct (parseOperator (skipWhitespace s1)) as [[op s3]|]; [|apply ends_err].
  specialize (Ho op s3 eq_refl). pose proof (skipWhitespace_le s3).
  destruct (allowed !! f) as [rule|]; [|apply ends_err].
  destruct (negb (Indexed rule) && negb unindexed); [apply ends_err|]. case_decide.
  - destruct (ends_inv _ _ _ (parseListValue_ends (skipWhitespace s3))) as [(e & ->)|(vs & s4 & -> & Hl)];
      [apply ends_err|apply ends_ok; lia].
  - pose proof (parseValue_shortens (skipWhitespace s3)) as Hv.
    destruct (parseValue (skipWhitespace s3)) as [[v s4]|]; [|apply ends_err].
    specialize (Hv v s4 eq_refl). apply ends_ok. lia.
Qed.

(** The equations of the parsers. *)
Lemma parseOr_S fuel s :
  parseOr unindexed allowed (S fuel) s =
      match parseAnd unindexed allowed fuel s with
      | Some (Ok (lhs, s)) => or_loop unindexed allowed fuel lhs s
      | r => r
      end.
Proof. reflexivity. Qed.

Lemma or_loop_S fuel lhs s :
  or_loop unindexed allowed (S fuel) lhs s =
      match peek_is "," s with
      | None => Some (Ok (lhs, s))
      | Some s =>
          match parseAnd unindexed allowed fuel s with
          | Some (Ok (rhs, s)) => or_loop unindexed allowed fuel (OrNode lhs rhs) s
          | r => r
          end
      end.
Proof. reflexivity. Qed.

Lemma parseAnd_S fuel s :
  parseAnd unindexed allowed (S fuel) s =
      match parsePrimary unindexed allowed fuel s with
      | Some (Ok (lhs, s)) => and_loop unindexed allowed fuel lhs s
      | r => r
      end.
Proof. reflexivity. Qed.

Lemma and_loop_S fuel lhs s :
  and_loop unindexed allowed (S fuel) lhs s =
      match peek_is ";" s with
      | None => Some (Ok (lhs, s))
      | Some s =>
          match parsePrimary unindexed allowed fuel s with
          | Some (Ok (rhs, s)) => and_loop unindexed allowed fuel (AndNode lhs rhs) s
          | r => r
          end
      end.
Proof. reflexivity. Qed.

Lemma parsePrimary_S fuel s :
  parsePrimary unindexed allowed (S fuel) s =
      match skipWhitespace s with
      | EmptyString => Some (Err UnexpectedEnd)
      | s =>
          match peek_is "(" s with
          | Some s =>
              match parseOr unindexed allowed fuel s with
              | Some (Ok (node, s)) =>
                  match peek_is ")" (skipWhitespace s) with
                  | Some s => Some (Ok (node, s))
                  | None => Some (Err ExpectedClose)
                  end
              | r => r
              end
          | None => parsePredicate unindexed allowed s
          end
      end.
Proof. reflexivity. Qed.

(** Four units of fuel per byte pay for the calls between two bytes. *)
Lemma expression_ends fuel :
  (∀ s, (4 * len s + 4 ≤ fuel)%nat → ends 1 s (parseOr unindexed allowed fuel s)) ∧
  (∀ l s, (4 * len s + 1 ≤ fuel)%nat → ends 0 s (or_loop unindexed allowed fuel l s)) ∧
  (∀ s, (4 * len s + 3 ≤ fuel)%nat → ends 1 s (parseAnd unindexed allowed fuel s)) ∧
  (∀ l s, (4 * len s + 1 ≤ fuel)%nat → ends 0 s (and_loop unindexed allowed fuel l s)) ∧
  (∀ s, (4 * len s + 1 ≤ fuel)%nat → ends 1 s (parsePrimary unindexed allowed fuel s)).
Proof.
  induction fuel as [|fuel (IHor & IHol & IHand & IHal & IHp)].
  { split_and!; intros; lia. }
  split_and!.
  - intros s Hf. rewrite parseOr_S.
    destruct (ends_inv _ _ _ (IHand s ltac:(lia))) as [(e & ->)|(l & s1 & -> & Hl)]; [apply ends_err|].
    eapply ends_weaken; [apply IHol|]; lia.
  - intros l s Hf. rewrite or_loop_S.
    destruct (peek_is "," s) as [s1|] eqn:E; [apply peek_is_length in E|apply ends_ok; lia].
    destruct (ends_inv _ _ _ (IHand s1 ltac:(lia))) as [(e & ->)|(r & s2 & -> & Hl)]; [apply ends_err|].
    eapply ends_weaken; [apply IHol|]; lia.
  - intros s Hf. rewrite parseAnd_S.
    destruct (ends_inv _ _ _ (IHp s ltac:(lia))) as [(e & ->)|(l & s1 & -> & Hl)]; [apply ends_err|].
    eapply ends_weaken; [apply IHal|]; lia.
  - intros l s Hf. rewrite and_loop_S.
    destruct (peek_is ";" s) as [s1|] eqn:E; [apply peek_is_length in E|apply ends_ok; lia].
    destruct (ends_inv _ _ _ (IHp s1 ltac:(lia))) as [(e & ->)|(r & s2 & -> & Hl)]; [apply ends_err|].
    eapply ends_weaken; [apply IHal|]; lia.
  - intros s Hf. rewrite parsePrimary_S. pose proof (skipWhitespace_le s).
    destruct (skipWhitespace s) as [|c s0]; [apply ends_err|]. cbv zeta.
    destruct (peek_is "(" (String c s0)) as [s1|] eqn:E.
    + apply peek_is_length in E.
      destruct (ends_inv _ _ _ (IHor s1 ltac:(lia))) as [(e & ->)|(n & s2 & -> & Hl)]; [apply ends_err|].
      pose proof (skipWhitespace_le s2).
      destruct (peek_is ")" (skipWhitespace s2)) as [s3|] eqn:E3;
        [apply peek_is_length in E3; apply ends_ok; lia|apply ends_err].
    + eapply ends_weaken; [apply parsePredicate_ends|]. lia.
Qed.
End total.

(** C35: The parser ends on every input: it returns a filter or an error, with
    four calls per byte of the input at most between two bytes. *)
Theorem parse_total input opts : is_Some (ParseRSQLWithOptions input opts).
Proof.
  unfold ParseRSQLWithOptions. destruct (TrimSpace input) as [|c s] eqn:E; [done|]. rewrite <- E.
  destruct (expression_ends (AllowUnindexed opts) (default defaultAllowedFields (AllowedFields opts))
              (parse_fuel (TrimSpace input))) as (Hor & _).
  destruct (ends_inv _ _ _ (Hor (TrimSpace input) ltac:(unfold parse_fuel; lia)))
    as [(e & ->)|(n & s1 & -> & _)]; eauto.
Qed.

(** ** What a parsed filter contains *)
Section nodes.
Context (unindexed : bool) (allowed : gmap string FieldRule).

Definition is_list_operator (op : string) : bool := bool_decide (op = "in" ∨ op = "out").

(** A predicate on an allowed field, with the values its operator takes. *)
Definition predicate_ok (field op : string) (vs : list string) (column : string) : Prop :=
  op ∈ known_operators ∧
  (∃ rule, allowed !! field = Some rule ∧ column = Column rule ∧ (Indexed rule || unindexed) = true) ∧
  (is_list_operator op = false → length vs = 1%nat) ∧ Forall (λ v, v ≠ "" ∧ valid_utf8 v = true) vs.

Fixpoint node_ok (n : rsqlNode) : Prop :=
  match n with
  | Predicate f op vs c => predicate_ok f op vs c
  | AndNode l r | OrNode l r => node_ok l ∧ node_ok r
  end.

(** Whatever a parser returns satisfies [P]. *)
Definition yields {A} (P : A → Prop) (r : option (res (A * string))) : Prop :=
  ∀ x s, r = Some (Ok (x, s)) → P x.

Lemma parseOperator_known s op s' : parseOperator s = Ok (op, s') → op ∈ known_operators.
Proof.
  unfold parseOperator. destruct (skipWhitespace s) as [|c s1]; [done|]. case_decide; [|done].
  destruct (peek_is "=" s1).
  { intros [= <- _]. apply (bool_decide_eq_true_1 _). reflexivity. }
  destruct (span _ s1) as [a [|c' b]]; [done|]. case_decide; [|done]. by intros [= <- _].
Qed.

Lemma parseValue_valid s v s' : parseValue s = Ok (v, s') → v ≠ "" ∧ valid_utf8 v = true.
Proof.
  unfold parseValue. destruct (skipWhitespace s) as [|c s1]; [done|].
  destruct (value_loop (String c s1)) as [[v' rest]|]; [|done]. destruct v' as [|c' v']; [done|].
  destruct (valid_utf8 (String c' v')) eqn:E; [|done]. by intros [= <- _].
Qed.

Lemma list_loop_valid fuel vs s :
  Forall (λ v, v ≠ "" ∧ valid_utf8 v = true) vs →
  yields (Forall (λ v, v ≠ "" ∧ valid_utf8 v = true)) (list_loop fuel vs s).
Proof.
  revert vs s. induction fuel as [|fuel IH]; intros vs s Hvs x s'; [done|]. cbn [list_loop].
  case_decide; [done|]. destruct (peek_is ")" s); [by intros [= <- _]|].
  destruct (parseValue s) as [[v s1]|] eqn:E; [|done]. apply parseValue_valid in E. cbv zeta.
  assert (Forall (λ v, v ≠ "" ∧ valid_utf8 v = true) (vs ++ [v])).
  { apply Forall_app. split; [done|]. by constructor. }
  destruct (peek_is "," (skipWhitespace s1)); [by apply IH|].
  destruct (peek_is ")" _); [by intros [= <- _]|done].
Qed.

Lemma parsePredicate_node s : yields node_ok (parsePredicate unindexed allowed s).
Proof.
  intros n s'. unfold parsePredicate. destruct (parseIdentifier s) as [[f s1]|]; [|done].
  destruct (skipWhitespace s1) as [|c s2]; [done|]. cbv zeta.
  destruct (parseOperator (String c s2)) as [[op s3]|] eqn:Eop; [|done].
  apply parseOperator_known in Eop. destruct (allowed !! f) as [rule|] eqn:Ef; [|done].
  destruct (negb (Indexed rule) && negb unindexed) eqn:Ei; [done|].
  assert ((Indexed rule || unindexed) = true) as Hi by (by destruct (Indexed rule), unindexed).
  case_decide as Hop.
  - unfold parseListValue. destruct (peek_is "(" _) as [s4|]; [|done].
    destruct (list_loop _ [] _) as [[[vs s5]|]|] eqn:E; [|done..]. intros [= <- _].
    apply list_loop_valid in E; [|done]. split_and!; [done|eauto| |done].
    unfold is_list_operator. by rewrite bool_decide_true.
  - destruct (parseValue _) as [[v s4]|] eqn:E; [|done]. apply parseValue_valid in E.
    intros [= <- _]. split_and!; [done|eauto|done|by constructor].
Qed.

Lemma expression_node fuel :
  (∀ s, yields node_ok (parseOr unindexed allowed fuel s)) ∧
  (∀ l s, node_ok l → yields node_ok (or_loop unindexed allowed fuel l s)) ∧
  (∀ s, yields node_ok (parseAnd unindexed allowed fuel s)) ∧
  (∀ l s, node_ok l → yields node_ok (and_loop unindexed allowed fuel l s)) ∧
  (∀ s, yields node_ok (parsePrimary unindexed allowed fuel s)).
Proof.
  induction fuel as [|fuel (IHor & IHol & IHand & IHal & IHp)]; [by split_and!|]. split_and!.
  - intros s x s'. rewrite parseOr_S.
    destruct (parseAnd unindexed allowed fuel s) as [[[l s1]|]|] eqn:E; [|done..].
    apply IHol. by eapply IHand.
  - intros l s Hl x s'. rewrite or_loop_S. destruct (peek_is "," s) as [s1|]; [|by intros [= <- _]].
    destruct (parseAnd unindexed allowed fuel s1) as [[[r s2]|]|] eqn:E; [|done..].
    apply IHol. split; [done|]. by eapply IHand.
  - intros s x s'. rewrite parseAnd_S.
    destruct (parsePrimary unindexed allowed fuel s) as [[[l s1]|]|] eqn:E; [|done..].
    apply IHal. by eapply IHp.
  - intros l s Hl x s'. rewrite and_loop_S. destruct (peek_is ";" s) as [s1|]; [|by intros [= <- _]].
    destruct (parsePrimary unindexed allowed fuel s1) as [[[r s2]|]|] eqn:E; [|done..].
    apply IHal. split; [done|]. by eapply IHp.
  - intros s x s'. rewrite parsePrimary_S. destruct (skipWhitespace s) as [|c s1]; [done|]. cbv zeta.
    destruct (peek_is "(" (String c s1)) as [s2|]; [|apply parsePredicate_node].
    destruct (parseOr unindexed allowed fuel s2) as [[[n s3]|]|] eqn:E; [|done..].
    destruct (peek_is ")" _); [|done]. intros [= <- _]. by eapply IHor.
Qed.
End nodes.

(** ** The SQL of a filter *)

(** The text an operator adds to its column, for [n] values. *)
Definition template (op : string) (n : nat) : string :=
  if decide (op = "eq") then " = ?" else if decide (op = "ne") then " != ?"
  else if decide (op = "gt") then " > ?" else if decide (op = "ge") then " >= ?"
  else if decide (op = "lt") then " < ?" else if decide (op = "le") then " <= ?"
  else if decide (op = "in") then (" IN (" +:+ join ", " (replicate n "?") +:+ ")")%string
  else (" NOT IN (" +:+ join ", " (replicate n "?") +:+ ")")%string.

Fixpoint count_char (c : ascii) (s : string) : nat :=
  match s with
  | EmptyString => 0
  | String c' s => (if decide (c' = c) then 1 else 0) + count_char c s
  end.

Lemma count_char_app c a b : count_char c (a +:+ b) = (count_char c a + count_char c b)%nat.
Proof.
  induction a as [|c' a IH]; [done|]. change (String c' a +:+ b) with (String c' (a +:+ b)).
  cbn [count_char]. rewrite IH. lia.
Qed.

Lemma count_placeholders n : count_char "?" (join ", " (replicate n "?")) = n.
Proof.
  induction n as [|n IH]; [done|]. destruct n as [|n]; [done|].
  change (join ", " (replicate (S (S n)) "?")) with ("?" +:+ ", " +:+ join ", " (replicate (S n) "?"))%string.
  rewrite !count_char_app, IH. done.
Qed.

Lemma template_placeholders op n :
  op ∈ known_operators → (is_list_operator op = false → n = 1%nat) → count_char "?" (template op n) = n.
Proof.
  intros Hop Hn. unfold known_operators in Hop.
  repeat (apply elem_of_cons in Hop as [->|Hop]); [..|by apply elem_of_nil in Hop].
  all: try (rewrite Hn by reflexivity; reflexivity).
  all: unfold template; repeat case_decide; try done.
  all: rewrite !count_char_app, count_placeholders; simpl; lia.
Qed.

(** The expressions of a compiled filter, with their arguments. *)
Fixpoint exprs (q : Sqlizer) : list (string * list string) :=
  match q with
  | Expr sql args => [(sql, args)]
  | And qs | Or qs => List.concat (exprs <$> qs)
  end.

Definition safe_expr (unindexed : bool) (allowed : gmap string FieldRule) (e : string * list string) : Prop :=
  ∃ field rule op,
    allowed !! field = Some rule ∧ (Indexed rule || unindexed) = true ∧ op ∈ known_operators ∧
    e.1 = ((if decide (Column rule = "") then field else Column rule) +:+ template op (length e.2))%string ∧
    count_char "?" (template op (length e.2)) = length e.2.

(** Decides the equations between string literals. *)
Ltac decide_strings :=
  repeat match goal with |- context [decide (?a = ?b)] =>
    (rewrite (decide_True (P := a = b)) by reflexivity) ||
    (rewrite (decide_False (P := a = b)) by discriminate) end.
Ltac decide_strings_in H :=
  repeat match type of H with context [decide (?a = ?b)] =>
    (rewrite (decide_True (P := a = b)) in H by reflexivity) ||
    (rewrite (decide_False (P := a = b)) in H by discriminate) end.

Lemma predicate_safe unindexed allowed f op vs c :
  predicate_ok unindexed allowed f op vs c →
  ∃ q, predicateToSquirrel f op vs c = Ok q ∧ Forall (safe_expr unindexed allowed) (exprs q).
Proof.
  intros (Hop & (rule & Hrule & -> & Hi) & Hlen & _).
  assert (∀ sql, sql = ((if decide (Column rule = "") then f else Column rule) +:+ template op (length vs))%string →
    Forall (safe_expr unindexed allowed) (exprs (Expr sql vs))) as Hsafe.
  { intros sql ->. constructor; [|done]. exists f, rule, op.
    split_and!; [done|done|done|done|]. by apply template_placeholders. }
  assert (is_list_operator op = true ∨ ∃ v, vs = [v]) as Hvs.
  { destruct (is_list_operator op); [by left|right]. specialize (Hlen eq_refl).
    destruct vs as [|v [|]]; try done. eauto. }
  unfold template in Hsafe. unfold predicateToSquirrel, known_operators in *.
  repeat (apply elem_of_cons in Hop as [->|Hop]); [..|by apply elem_of_nil in Hop].
  all: decide_strings. all: decide_strings_in Hsafe.
  5, 6: eexists; split; [done|]; by apply Hsafe.
  all: destruct Hvs as [?|(v & ->)]; [done|]; eexists; split; [done|]; by apply Hsafe.
Qed.

Lemma node_safe unindexed allowed n :
  node_ok unindexed allowed n →
  ∃ q, toSquirrel n = Ok q ∧ Forall (safe_expr unindexed allowed) (exprs q).
Proof.
  induction n as [f op vs c|l IHl r IHr|l IHl r IHr]; simpl; [apply predicate_safe|..];
    intros [Hl Hr]; destruct (IHl Hl) as (ql & -> & Hql); destruct (IHr Hr) as (qr & -> & Hqr);
    (eexists; split; [done|]); simpl; rewrite app_nil_r; by apply Forall_app.
Qed.

(** C33: User input never reaches the SQL text. Whatever the input, a filter
    that parses compiles, and each expression of the compiled query is the
    column of an allowed (and, unless overridden, indexed) field followed by
    the fixed text of an operator, with as many placeholders as arguments. *)
Theorem compiled_filter_safe input opts f :
  ParseRSQLWithOptions input opts = Some (Ok f) →
  ∃ q, ToSquirrel (Some f) = Ok q ∧
    Forall (safe_expr (AllowUnindexed opts) (default defaultAllowedFields (AllowedFields opts))) (exprs q).
Proof.
  unfold ParseRSQLWithOptions. destruct (TrimSpace input) as [|c s]; [done|]. cbv zeta.
  set (allowed := default _ _).
  destruct (parseOr _ allowed _ _) as [[[n s1]|]|] eqn:E; [|done..]. intros [= <-].
  apply node_safe. by eapply (proj1 (expression_node (AllowUnindexed opts) allowed _)).
Qed.

Lemma compiled_filter_safe_witness :
  ∃ q, ToSquirrel (Some {| root := Predicate "status" "in" ["x'; DROP TABLE plans"; "b"] "status";
                           raw := "status=in=(x'\; DROP TABLE plans,b)" |}) = Ok q ∧
    Forall (safe_expr false defaultAllowedFields) (exprs q).
Proof.
  apply (compiled_filter_safe "status=in=(x'\; DROP TABLE plans,b)"
           {| AllowUnindexed := false; AllowedFields := None |}).
  vm_compute. reflexivity.
Defined.

(** ** Printing a filter *)
Fixpoint escape (v : string) : string :=
  match v with
  | EmptyString => EmptyString
  | String c v => String "\" (String c (escape v))
  end.

Fixpoint print_values (vs : list string) : string :=
  match vs with
  | [] => ")"
  | [v] => (escape v +:+ ")")%string
  | v :: vs => (escape v +:+ "," +:+ print_values vs)%string
  end.

(** Every child is parenthesised and every value escaped. *)
Fixpoint print (n : rsqlNode) : string :=
  match n with
  | Predicate f op vs _ =>
      (f +:+ "=" +:+ op +:+ "=" +:+
       (if is_list_operator op then "(" +:+ print_values vs else escape (default "" (head vs))))%string
  | AndNode l r => ("(" +:+ print l +:+ ");(" +:+ print r +:+ ")")%string
  | OrNode l r => ("(" +:+ print l +:+ "),(" +:+ print r +:+ ")")%string
  end.

(** Fields the grammar can name. *)
Fixpoint printable (n : rsqlNode) : Prop :=
  match n with
  | Predicate f _ _ _ => f ≠ "" ∧ Forall (λ c, is_ident c = true) (list_ascii_of_string f)
  | AndNode l r | OrNode l r => printable l ∧ printable r
  end.

Lemma string_cons_app c s t : (String c s +:+ t)%string = String c (s +:+ t).
Proof. done. Qed.
Lemma string_nil_app t : ("" +:+ t)%string = t.
Proof. done. Qed.

Lemma span_all p a c rest :
  Forall (λ c, p c = true) (list_ascii_of_string a) → p c = false →
  span p (a +:+ String c rest) = (a, String c rest).
Proof.
  intros Ha Hc. induction a as [|c' a IH].
  - rewrite string_nil_app. cbn [span]. by rewrite Hc.
  - rewrite string_cons_app. cbn [list_ascii_of_string] in Ha. apply Forall_cons in Ha as [Hp Ha].
    cbn [span]. by rewrite Hp, IH.
Qed.

(** What may follow a value. *)
Definition value_end (rest : string) : Prop :=
  match rest with EmptyString => True | String c _ => stops_value c = true end.

Lemma value_loop_escape v rest : value_end rest → value_loop (escape v +:+ rest) = Ok (v, rest).
Proof.
  intros Hr. induction v as [|c v IH].
  - change (escape "" +:+ rest) with rest. destruct rest as [|c r]; [done|]. cbn [value_loop].
    simpl in Hr. by rewrite Hr.
  - change (escape (String c v) +:+ rest) with (String "\" (String c (escape v +:+ rest))).
    cbn [value_loop]. change (stops_value "\") with false. cbn iota.
    rewrite decide_True by done. by rewrite IH.
Qed.

Lemma parseValue_escape v rest :
  v ≠ "" → valid_utf8 v = true → value_end rest → parseValue (escape v +:+ rest) = Ok (v, rest).
Proof.
  intros Hv Hu Hr. unfold parseValue.
  assert (skipWhitespace (escape v +:+ rest) = escape v +:+ rest) as -> by (by destruct v).
  pose proof (value_loop_escape v rest Hr) as Hl.
  destruct (escape v +:+ rest) as [|c s] eqn:E; [by destruct v|]. rewrite Hl.
  destruct v as [|c' v]; [done|]. by rewrite Hu.
Qed.

Lemma list_loop_print vs :
  Forall (λ v, v ≠ "" ∧ valid_utf8 v = true) vs →
  ∀ fuel acc rest, (length vs < fuel)%nat →
  list_loop fuel acc (print_values vs +:+ rest) = Some (Ok (acc ++ vs, rest)).
Proof.
  induction 1 as [|v vs [Hv Hu] Hvs IH]; intros [|fuel] acc rest Hf; try (simpl in Hf; lia).
  { by rewrite app_nil_r. }
  assert (∀ rest', value_end rest' → list_loop (S fuel) acc (escape v +:+ rest') =
    match peek_is "," (skipWhitespace rest') with
    | Some s => list_loop fuel (acc ++ [v]) (skipWhitespace s)
    | None => match peek_is ")" (skipWhitespace (skipWhitespace rest')) with
              | Some s => Some (Ok (acc ++ [v], s))
              | None => Some (Err ExpectedCommaOrClose)
              end
    end) as Hstep.
  { intros rest' Hr. cbn [list_loop]. rewrite decide_False by (by destruct v).
    replace (peek_is ")" (escape v +:+ rest')) with (@None string) by (by destruct v).
    by rewrite parseValue_escape. }
  destruct vs as [|v' vs].
  - change (print_values [v] +:+ rest)%string with ((escape v +:+ ")") +:+ rest)%string.
    rewrite string_app_assoc, Hstep by done. done.
  - change (print_values (v :: v' :: vs) +:+ rest)%string
      with ((escape v +:+ "," +:+ print_values (v' :: vs)) +:+ rest)%string.
    rewrite !string_app_assoc, Hstep by done.
    change (peek_is "," _) with (Some (print_values (v' :: vs) +:+ rest)%string). cbn iota.
    replace (skipWhitespace _) with (print_values (v' :: vs) +:+ rest)%string.
    2: { apply Forall_cons in Hvs as [[Hv' _] _]. destruct v'; [done|]. by destruct vs. }
    rewrite IH by (simpl in *; lia). by rewrite <- app_assoc.
Qed.

Section print.
Context (unindexed : bool) (allowed : gmap string FieldRule).

Lemma parseOperator_print op rest :
  op ∈ known_operators → parseOperator (String "=" (op +:+ "=" +:+ rest)) = Ok (op, rest).
Proof.
  intros Hop. unfold known_operators in Hop.
  repeat (apply elem_of_cons in Hop as [->|Hop]); [..|by apply elem_of_nil in Hop]; reflexivity.
Qed.

Lemma length_print_values vs : (length vs ≤ len (print_values vs))%nat.
Proof.
  induction vs as [|v [|v' vs] IH]; [simpl; lia|..].
  - change (print_values [v]) with (escape v +:+ ")")%string. rewrite length_append. simpl. lia.
  - change (print_values (v :: v' :: vs)) with (escape v +:+ "," +:+ print_values (v' :: vs))%string.
    rewrite !length_append. simpl length in *. simpl len in *. lia.
Qed.

Lemma parsePredicate_print f op vs c rest :
  predicate_ok unindexed allowed f op vs c → printable (Predicate f op vs c) → value_end rest →
  parsePredicate unindexed allowed (print (Predicate f op vs c) +:+ rest) =
  Some (Ok (Predicate f op vs c, rest)).
Proof.
  intros (Hop & (rule & Hrule & -> & Hi) & Hlen & Hvs) [Hf Hident] Hr.
  cbn [print]. set (vals := if is_list_operator op then _ else _).
  unfold parsePredicate, parseIdentifier.
  rewrite !string_app_assoc. set (tl := (op +:+ _)%string).
  change (f +:+ "=" +:+ tl)%string with (f +:+ String "=" tl)%string.
  rewrite (span_all is_ident f "="%char) by done. destruct f as [|fc f]; [done|].
  change (skipWhitespace (String "=" tl)) with (String "=" tl). cbv zeta. cbn iota. unfold tl.
  rewrite parseOperator_print by done. rewrite Hrule.
  replace (negb (Indexed rule) && negb unindexed) with false by (by destruct (Indexed rule), unindexed).
  unfold vals. unfold is_list_operator in *. destruct (bool_decide (op = "in" ∨ op = "out")) eqn:Hb.
  - apply bool_decide_eq_true in Hb. rewrite decide_True by done.
    change (("(" +:+ print_values vs) +:+ rest)%string with (String "(" (print_values vs +:+ rest)).
    unfold parseListValue.
    change (peek_is "(" _) with (Some (print_values vs +:+ rest)%string). cbv zeta. cbn iota.
    replace (skipWhitespace (print_values vs +:+ rest)) with (print_values vs +:+ rest)%string.
    2: { destruct vs as [|[|v0 v] vs]; [done| |by destruct vs].
         by apply Forall_cons in Hvs as [[? _] _]. }
    rewrite list_loop_print; [done|done|]. rewrite length_append. pose proof (length_print_values vs). lia.
  - apply bool_decide_eq_false in Hb. rewrite decide_False by done.
    specialize (Hlen eq_refl). destruct vs as [|v [|]]; try done.
    apply Forall_cons in Hvs as [[Hv Hu] _]. change (default "" (head [v])) with v.
    replace (skipWhitespace (escape v +:+ rest)) with (escape v +:+ rest)%string by (by destruct v).
    by rewrite parseValue_escape.
Qed.

(** Something that ends an expression follows. *)
Definition expr_end (rest : string) : Prop :=
  peek_is "," rest = None ∧ peek_is ";" rest = None ∧ value_end rest.

Lemma parens_end rest : expr_end (String ")" rest).
Proof. done. Qed.

Lemma length_app_cons a c b : len (a +:+ String c b) = (len a + S (len b))%nat.
Proof. by rewrite length_append. Qed.

(** A parenthesised expression, given the parse of what is inside. *)
Lemma parsePrimary_parens fuel inner n rest :
  parseOr unindexed allowed fuel (inner +:+ String ")" rest) = Some (Ok (n, String ")" rest)) →
  parsePrimary unindexed allowed (S fuel) (String "(" (inner +:+ String ")" rest)) = Some (Ok (n, rest)).
Proof.
  intros Hor. rewrite parsePrimary_S.
  change (skipWhitespace (String "(" ?x)) with (String "(" x).
  change (match String "(" (inner +:+ String ")" rest) with
          | EmptyString => Some (Err UnexpectedEnd)
          | _ => match parseOr unindexed allowed fuel (inner +:+ String ")" rest) with
                 | Some (Ok (node, s)) =>
                     match peek_is ")" (skipWhitespace s) with
                     | Some s => Some (Ok (node, s))
                     | None => Some (Err ExpectedClose)
                     end
                 | r => r
                 end
          end = Some (Ok (n, rest))).
  cbv iota. by rewrite Hor.
Qed.

(** An expression starts with an identifier or a parenthesis. *)
Lemma parsePrimary_predicate fuel f op vs c rest :
  predicate_ok unindexed allowed f op vs c → printable (Predicate f op vs c) → value_end rest →
  parsePrimary unindexed allowed (S fuel) (print (Predicate f op vs c) +:+ rest) =
  Some (Ok (Predicate f op vs c, rest)).
Proof.
  intros Hok Hp Hr. etrans; [|exact (parsePredicate_print f op vs c rest Hok Hp Hr)].
  rewrite parsePrimary_S. destruct Hp as [Hf Hident]. cbn [print].
  destruct f as [|fc f]; [done|]. cbn [list_ascii_of_string] in Hident.
  apply Forall_cons in Hident as [Hfc _]. rewrite !string_cons_app.
  match goal with |- context [skipWhitespace (String fc ?x)] => generalize x; intros t end.
  assert (skipWhitespace (String fc t) = String fc t) as ->.
  { cbn [skipWhitespace]. replace (is_space fc) with false; [done|].
    by destruct fc as [[] [] [] [] [] [] [] []]. }
  cbv zeta. cbn [peek_is]. rewrite decide_False; [done|]. intros ->. done.
Qed.

Lemma parseAnd_single fuel n s rest :
  parsePrimary unindexed allowed (S fuel) s = Some (Ok (n, rest)) → peek_is ";" rest = None →
  parseAnd unindexed allowed (S (S fuel)) s = Some (Ok (n, rest)).
Proof. intros Hp He. by rewrite parseAnd_S, Hp, and_loop_S, He. Qed.

Lemma parseOr_single fuel n s rest :
  parseAnd unindexed allowed (S fuel) s = Some (Ok (n, rest)) → peek_is "," rest = None →
  parseOr unindexed allowed (S (S fuel)) s = Some (Ok (n, rest)).
Proof. intros Hp He. by rewrite parseOr_S, Hp, or_loop_S, He. Qed.

Lemma parseOr_print n : node_ok unindexed allowed n → printable n →
  ∀ fuel rest, expr_end rest → (4 * len (print n +:+ rest) + 4 ≤ fuel)%nat →
  parseOr unindexed allowed fuel (print n +:+ rest) = Some (Ok (n, rest)).
Proof.
  induction n as [f op vs c|l IHl r IHr|l IHl r IHr]; intros Hok Hp fuel rest (Ho & Ha & Hv) Hf.
  - destruct fuel as [|[|[|fuel]]]; try lia. apply parseOr_single; [|done].
    apply parseAnd_single; [|done]. by apply parsePrimary_predicate.
  - destruct Hok as [Hokl Hokr], Hp as [Hpl Hpr]. cbn [print] in *.
    set (tail := String "(" (print r +:+ String ")" rest)).
    assert (("(" +:+ print l +:+ ");(" +:+ print r +:+ ")") +:+ rest =
            String "(" (print l +:+ String ")" (String ";" tail)))%string as E.
    { unfold tail. by rewrite !string_app_assoc. }
    rewrite E in Hf |- *. unfold tail in Hf. cbn [len] in Hf.
    rewrite !length_app_cons in Hf. cbn [len] in Hf. rewrite !length_app_cons in Hf.
    destruct fuel as [|[|[|[|fuel]]]]; try lia.
    apply parseOr_single; [|done]. rewrite parseAnd_S.
    rewrite (parsePrimary_parens _ (print l) l).
    2: { apply IHl; [done|done|done|]. unfold tail. rewrite length_app_cons. cbn [len].
         rewrite length_app_cons. lia. }
    rewrite and_loop_S. change (peek_is ";" (String ";" tail)) with (Some tail). cbn iota. unfold tail.
    destruct fuel as [|fuel]; [lia|].
    rewrite (parsePrimary_parens _ (print r) r).
    2: { apply IHr; [done|done|done|]. rewrite length_app_cons. lia. }
    rewrite and_loop_S. by rewrite Ha.
  - destruct Hok as [Hokl Hokr], Hp as [Hpl Hpr]. cbn [print] in *.
    set (tail := String "(" (print r +:+ String ")" rest)).
    assert (("(" +:+ print l +:+ "),(" +:+ print r +:+ ")") +:+ rest =
            String "(" (print l +:+ String ")" (String "," tail)))%string as E.
    { unfold tail. by rewrite !string_app_assoc. }
    rewrite E in Hf |- *. unfold tail in Hf. cbn [len] in Hf.
    rewrite !length_app_cons in Hf. cbn [len] in Hf. rewrite !length_app_cons in Hf.
    destruct fuel as [|[|[|[|fuel]]]]; try lia. rewrite parseOr_S.
    rewrite (parseAnd_single _ l _ (String "," tail)); [|apply parsePrimary_parens, IHl|]; try done.
    2: { unfold tail. rewrite length_app_cons. cbn [len]. rewrite length_app_cons. lia. }
    rewrite or_loop_S. change (peek_is "," (String "," tail)) with (Some tail). cbn iota. unfold tail.
    destruct fuel as [|fuel]; [lia|].
    rewrite (parseAnd_single _ r _ rest); [|apply parsePrimary_parens, IHr|]; try done.
    2: { rewrite length_app_cons. lia. }
    rewrite or_loop_S. by rewrite Ho.
Qed.

(** A parenthesised filter, with the parser's own fuel. *)
Lemma parseOr_group n rest : node_ok unindexed allowed n → printable n →
  peek_is "," rest = None → peek_is ";" rest = None →
  let t := String "(" (print n +:+ String ")" rest) in
  parseOr unindexed allowed (parse_fuel t) t = Some (Ok (n, rest)).
Proof.
  intros Hok Hp Ho Ha t.
  assert (∃ k, parse_fuel t = S (S (S k)) ∧ 4 * len (print n +:+ String ")" rest) + 4 ≤ k)%nat
    as (k & -> & Hk).
  { exists (4 * len (print n +:+ String ")" rest) + 5)%nat. unfold parse_fuel, t. cbn [len]. lia. }
  apply parseOr_single; [|done]. apply parseAnd_single; [|done].
  by apply parsePrimary_parens, parseOr_print.
Qed.
End print.

(** C34: Parsing inverts printing: every filter whose predicates name allowed
    fields and hold valid values is the parse of its own text, with all
    nesting, operators, escapes and value lists restored. *)
Theorem parse_print opts n :
  let allowed := default defaultAllowedFields (AllowedFields opts) in
  let text := ("(" +:+ print n +:+ ")")%string in
  node_ok (AllowUnindexed opts) allowed n → printable n →
  ParseRSQLWithOptions text opts = Some (Ok {| root := n; raw := text |}).
Proof.
  intros allowed text Hok Hp. unfold ParseRSQLWithOptions, text. rewrite TrimSpace_parens.
  fold text. change text with (String "(" (print n +:+ String ")" "")). fold allowed. cbv zeta.
  cbv iota. by rewrite (parseOr_group (AllowUnindexed opts) allowed n "").
Qed.

Lemma parse_print_witness :
  let n := OrNode (AndNode (Predicate "status" "eq" ["a;b"] "status")
                           (Predicate "amount" "le" [" 5 "] "total_amount"))
                  (Predicate "kind" "out" ["x"; "y)"] "kind") in
  let text := ("(" +:+ print n +:+ ")")%string in
  ParseRSQLWithOptions text {| AllowUnindexed := false; AllowedFields := None |} =
    Some (Ok {| root := n; raw := text |}).
Proof.
  apply parse_print; simpl; unfold predicate_ok; split_and!;
    try (eexists; split_and!; vm_compute; reflexivity);
    try (apply (bool_decide_eq_true_1 _); vm_compute; reflexivity); try done;
    repeat constructor; done.
Defined.

(** What follows a complete filter is ignored, unless it starts with an
    operator between filters: the text of a filter with anything that ends in
    a parenthesis behind it parses to the same filter. *)
Theorem trailing_input_ignored opts n junk :
  let allowed := default defaultAllowedFields (AllowedFields opts) in
  let text := ("(" +:+ (print n +:+ ")" +:+ junk) +:+ ")")%string in
  node_ok (AllowUnindexed opts) allowed n → printable n →
  peek_is "," (junk +:+ ")") = None → peek_is ";" (junk +:+ ")") = None →
  ParseRSQLWithOptions text opts = Some (Ok {| root := n; raw := text |}).
Proof.
  intros allowed text Hok Hp Ho Ha. unfold ParseRSQLWithOptions, text. rewrite TrimSpace_parens.
  fold text. set (rest := (junk +:+ ")")%string) in *.
  assert (text = String "(" (print n +:+ String ")" rest)) as ->.
  { unfold text, rest. by rewrite !string_app_assoc. }
  fold allowed. cbv zeta iota. by rewrite (parseOr_group (AllowUnindexed opts) allowed n rest).
Qed.
