(* ===== verification/WebhookVerify.v ===== *)
(** * Signed webhooks and signed admin requests

    Models [internal/middleware/webhook_verification.go]: the configuration
    of a webhook provider and its validation, the signature and timestamp
    checks, the two webhook middlewares, the admin request-signing middleware
    and the reader that gives the body back to the handlers. The replay cache
    is the one of [EventCache].

    The hash functions are parameters: [hmac] is [crypto/hmac] over the named
    hash and [sha256] is [crypto/sha256]; both give raw bytes. A request is
    what the middlewares read of it. *)
From Stdlib Require Import ZArith Lia Ascii String.
From stdpp Require Import base gmap strings list.
From S2P Require Import Prelude GoStrings GoTime EventCache.
#[local] Open Scope string_scope.
#[local] Open Scope Z_scope.
#[local] Open Scope go_scope.

(** ** Constants, errors and configuration *)
Definition WebhookSignatureHeader : string := "X-Webhook-Signature".
Definition DefaultSignatureHeader : string := "X-Webhook-Signature".
Definition DefaultTimestampHeader : string := "X-Webhook-Timestamp".
Definition DefaultEventIDHeader : string := "X-Webhook-Event-Id".
Definition DefaultSignatureVersion : string := "v2".
Definition DefaultTimestampSkew : Z := 300.
Definition DefaultMaxBodySize : Z := 1024 * 1024 * 5.
Definition StripeSignatureHeader : string := "Stripe-Signature".
Definition DefaultWebhookTolerance : Z := 300.

Inductive webhook_error :=
| ErrInvalidSignature
| ErrInvalidHex
| ErrUnsupportedHash
| ErrNoCompositeSignature
| ErrTimestampFormat
| ErrMissingSignature
| ErrMissingTimestamp
| ErrMissingEventID
| ErrTimestampTooOld
| ErrTimestampTooNew
| ErrReplayDetected
| ErrBodyTooLarge
| ErrReadBody (e : string).

Inductive config_error := ErrSecretRequired | ErrProviderRequired | ErrUnsupportedAlgorithm (a : string).

(** [SignatureAlgorithm] and [WebhookProvider] are strings. *)
Definition HMACSHA256 : string := "HMAC-SHA256".
Definition HMACSHA384 : string := "HMAC-SHA384".
Definition HMACSHA512 : string := "HMAC-SHA512".
Definition ProviderGeneric : string := "generic".
Definition ProviderStripe : string := "stripe".
Definition ProviderPayPal : string := "paypal".
Definition ProviderSquare : string := "square".
Definition ProviderGitHub : string := "github".

Record WebhookConfig := {
  Provider : string;
  SecretKey : string;
  SignatureHeader : string;
  TimestampHeader : string;
  EventIDHeader : string;
  SignatureVersion : string;
  Algorithm : string;
  Tolerance : Z;
  MaxBodySize : Z;
  RequireTimestamp : bool;
  RequireEventID : bool;
  EnableReplayProtection : bool;
}.

Definition DefaultWebhookConfig : WebhookConfig :=
  {| Provider := ProviderGeneric; SecretKey := "";
     SignatureHeader := DefaultSignatureHeader; TimestampHeader := DefaultTimestampHeader;
     EventIDHeader := DefaultEventIDHeader; SignatureVersion := DefaultSignatureVersion;
     Algorithm := HMACSHA256; Tolerance := DefaultTimestampSkew; MaxBodySize := DefaultMaxBodySize;
     RequireTimestamp := true; RequireEventID := true; EnableReplayProtection := true |}.

Definition ProviderConfig (provider : string) : WebhookConfig :=
  let cfg := DefaultWebhookConfig in
  if decide (provider = ProviderStripe) then
    {| Provider := provider; SecretKey := "test_secret";
       SignatureHeader := StripeSignatureHeader; TimestampHeader := ""; EventIDHeader := "";
       SignatureVersion := "v1"; Algorithm := HMACSHA256; Tolerance := DefaultWebhookTolerance;
       MaxBodySize := MaxBodySize cfg;
       RequireTimestamp := true; RequireEventID := false; EnableReplayProtection := false |}
  else if decide (provider = ProviderPayPal) then
    {| Provider := provider; SecretKey := "test_secret";
       SignatureHeader := "PAYPAL-TRANSMISSION-SIG"; TimestampHeader := "PAYPAL-TRANSMISSION-TIME";
       EventIDHeader := "PAYPAL-TRANSMISSION-ID";
       SignatureVersion := SignatureVersion cfg; Algorithm := HMACSHA256; Tolerance := 600;
       MaxBodySize := MaxBodySize cfg;
       RequireTimestamp := true; RequireEventID := true; EnableReplayProtection := true |}
  else if decide (provider = ProviderGitHub) then
    {| Provider := provider; SecretKey := "test_secret";
       SignatureHeader := "X-Hub-Signature-256"; TimestampHeader := "X-Hub-Request-Started";
       EventIDHeader := "X-GitHub-Delivery";
       SignatureVersion := "sha256="; Algorithm := HMACSHA256; Tolerance := 900;
       MaxBodySize := MaxBodySize cfg;
       RequireTimestamp := false; RequireEventID := true; EnableReplayProtection := true |}
  else if decide (provider = ProviderSquare) then
    {| Provider := provider; SecretKey := "test_secret";
       SignatureHeader := "x-square-hmacsha256-signature";
       TimestampHeader := "x-square-signature-timestamp"; EventIDHeader := "x-square-delivery-id";
       SignatureVersion := SignatureVersion cfg; Algorithm := HMACSHA256;
       Tolerance := DefaultWebhookTolerance; MaxBodySize := MaxBodySize cfg;
       RequireTimestamp := true; RequireEventID := true; EnableReplayProtection := true |}
  else
    {| Provider := provider; SecretKey := "test_secret";
       SignatureHeader := SignatureHeader cfg; TimestampHeader := TimestampHeader cfg;
       EventIDHeader := EventIDHeader cfg; SignatureVersion := SignatureVersion cfg;
       Algorithm := Algorithm cfg; Tolerance := Tolerance cfg; MaxBodySize := MaxBodySize cfg;
       RequireTimestamp := RequireTimestamp cfg; RequireEventID := RequireEventID cfg;
       EnableReplayProtection := EnableReplayProtection cfg |}.

Definition WithSecret (secret : string) (c : WebhookConfig) : WebhookConfig :=
  {| Provider := Provider c; SecretKey := secret; SignatureHeader := SignatureHeader c;
     TimestampHeader := TimestampHeader c; EventIDHeader := EventIDHeader c;
     SignatureVersion := SignatureVersion c; Algorithm := Algorithm c; Tolerance := Tolerance c;
     MaxBodySize := MaxBodySize c; RequireTimestamp := RequireTimestamp c;
     RequireEventID := RequireEventID c; EnableReplayProtection := EnableReplayProtection c |}.

(** [Validate] fills in the size and the tolerance of the configuration it
    accepts. *)
Definition Validate (c : WebhookConfig) : result config_error WebhookConfig :=
  if decide (SecretKey c = "") then Err ErrSecretRequired
  else if decide (Provider c = "") then Err ErrProviderRequired
  else if bool_decide (Algorithm c ∈ [HMACSHA256; HMACSHA384; HMACSHA512]) then
    Ok {| Provider := Provider c; SecretKey := SecretKey c; SignatureHeader := SignatureHeader c;
          TimestampHeader := TimestampHeader c; EventIDHeader := EventIDHeader c;
          SignatureVersion := SignatureVersion c; Algorithm := Algorithm c;
          Tolerance := if Tolerance c =? 0 then DefaultTimestampSkew else Tolerance c;
          MaxBodySize := if MaxBodySize c =? 0 then DefaultMaxBodySize else MaxBodySize c;
          RequireTimestamp := RequireTimestamp c; RequireEventID := RequireEventID c;
          EnableReplayProtection := EnableReplayProtection c |}
  else Err (ErrUnsupportedAlgorithm (Algorithm c)).

(** ** Timestamps

    [fmt.Sscanf(s, "%d", &n)]: white space is skipped, except a newline, which
    is an error; then comes an optional sign and at least one digit. What
    follows the digits stays unread. *)
Fixpoint skip_space (fuel : nat) (s : string) : option string :=
  match fuel with
  | O => Some s
  | S fuel =>
      match List.find (λ p, HasPrefix s p) space_encodings with
      | Some p => if decide (p = bytes [10%nat]) then None else skip_space fuel (drop_str (String.length p) s)
      | None => Some s
      end
  end.

Definition parseInt64 (s : string) : option Z :=
  match skip_space (String.length s) s with
  | None => None
  | Some s =>
      let '(neg, body) :=
        match s with
        | String "-" s' => (true, s')
        | String "+" s' => (false, s')
        | _ => (false, s)
        end in
      match span_digits body with
      | ([], _) => None
      | (ds, _) =>
          let v := if neg : bool then - decimal ds else decimal ds in
          if bool_decide (min_int64 ≤ v ≤ max_int64) then Some v else None
      end
  end.

Definition parseUnixTimestamp (timestamp : string) : option Z :=
  match parseInt64 timestamp with
  | Some secs =>
      if 10000000000 <? secs then
        if 1000000000000 <? secs then Some (secs / 1000000000) else Some (secs / 1000)
      else Some secs
  | None =>
      match ParseRFC3339 timestamp with
      | Some ts => Some (Unix ts)
      | None => match ParseRFC3339 timestamp with Some ts => Some (Unix ts) | None => None end
      end
  end.

Definition verifyTimestamp (now : Time) (timestamp : string) (tolerance : Z) : option webhook_error :=
  match parseUnixTimestamp timestamp with
  | None => Some ErrTimestampFormat
  | Some secs =>
      let now := Unix now in
      let minTime := wrap64 (now - tolerance) in
      let maxTime := wrap64 (now + tolerance) in
      if secs <? minTime then Some ErrTimestampTooOld
      else if maxTime <? secs then Some ErrTimestampTooNew
      else None
  end.

(** ** Requests and the answers of a middleware

    [Header.Get] is a function of the header's name; a body delivers [data]
    and then ends, or fails with an error. [EscapedPath] and [Query().Encode()]
    of the URL are fields. *)
Record Body := { data : string; fails : option string }.

Record Request := {
  req_Method : string;
  req_Host : string;
  req_EscapedPath : string;
  req_Query : string;
  req_Header : string → string;
  req_ContentLength : Z;
  req_Body : Body;
}.

Definition ReadAll (b : Body) : result string string :=
  match fails b with Some e => Err e | None => Ok (data b) end.

Section crypto.
Context (hmac : string → string → string → string) (sha256 : string → string).

(** ** Signatures *)

Definition strip_version (signature : string) (cfg : WebhookConfig) : string :=
  if negb (bool_decide (SignatureVersion cfg = "")) && HasPrefix signature (SignatureVersion cfg)
  then TrimPrefix signature (SignatureVersion cfg) else signature.

(** The part of [verifySignature] behind the composite case. *)
Definition verify_plain (payload signature : string) (cfg : WebhookConfig) : option webhook_error :=
  match hex_decode signature with
  | None => Some ErrInvalidHex
  | Some sigBytes =>
      if bool_decide (Algorithm cfg ∈ [HMACSHA256; HMACSHA384; HMACSHA512]) then
        if decide (sigBytes = hmac (Algorithm cfg) (SecretKey cfg) payload) then None
        else Some ErrInvalidSignature
      else Some ErrUnsupportedHash
  end.

(** The loop over the parts: the timestamp and the signature found last. *)
Fixpoint composite_parts (version : string) (parts : list string) (acc : string * string)
    : string * string :=
  match parts with
  | [] => acc
  | part :: parts =>
      let '(timestamp, sig) := acc in
      composite_parts version parts
        (if HasPrefix part "t=" then (TrimPrefix part "t=", sig)
         else if HasPrefix part (version +:+ "=") then (timestamp, TrimPrefix part (version +:+ "="))
         else if HasPrefix part "v1=" then (timestamp, TrimPrefix part "v1=")
         else acc)
  end.

(** [verifySignature] and [verifyCompositeSignature] call each other; [fuel]
    bounds the nesting, [None] is running out of it. *)
Fixpoint verify_fuel (fuel : nat) (now : Time) (payload signature : string) (cfg : WebhookConfig)
    : option (option webhook_error) :=
  match fuel with
  | O => None
  | S fuel =>
      if decide (signature = "") then Some (Some ErrMissingSignature)
      else
        let signature := strip_version signature cfg in
        if contains_char "," signature then
          let '(timestamp, sig) :=
            composite_parts (SignatureVersion cfg) (split_char "," signature) ("", "") in
          if decide (sig = "") then Some (Some ErrNoCompositeSignature)
          else
            match
              (if bool_decide (TimestampHeader cfg = "") && negb (bool_decide (timestamp = ""))
               then verifyTimestamp now timestamp (Tolerance cfg) else None)
            with
            | Some e => Some (Some e)
            | None =>
                if decide (timestamp = "") then verify_fuel fuel now payload sig cfg
                else verify_fuel fuel now (timestamp +:+ "." +:+ payload) sig cfg
            end
        else Some (verify_plain payload signature cfg)
  end.

Definition verifyCompositeSignature (verifySignature : string → string → option webhook_error)
    (now : Time) (payload signature : string) (cfg : WebhookConfig) : option webhook_error :=
  let '(timestamp, sig) :=
    composite_parts (SignatureVersion cfg) (split_char "," signature) ("", "") in
  if decide (sig = "") then Some ErrNoCompositeSignature
  else
    match
      (if bool_decide (TimestampHeader cfg = "") && negb (bool_decide (timestamp = ""))
       then verifyTimestamp now timestamp (Tolerance cfg) else None)
    with
    | Some e => Some e
    | None =>
        if decide (timestamp = "") then verifySignature payload sig
        else verifySignature (timestamp +:+ "." +:+ payload) sig
    end.

(** Two levels are enough, see [verifySignature_unfold]. *)
Definition verifySignature (now : Time) (payload signature : string) (cfg : WebhookConfig)
    : option webhook_error :=
  default (Some ErrInvalidSignature) (verify_fuel 2 now payload signature cfg).

(** ** The webhook middlewares *)

(** What a middleware does with a request: it answers it with a status and an
    error, or hands it on with the values it put into the context. *)
Inductive answer :=
| Abort_ (status : Z) (e : webhook_error)
| Next (event_id : option string) (provider : string) (verified : bool) (raw_body : string).

(** The clock is read by the check of the signed timestamp, by the check of
    the timestamp header and by the replay cache. *)
Record clock_readings := { r_sig : Time; r_stamp : Time; r_cache : readings }.

(** Replies of [WebhookVerification]. *)
Inductive basic_answer :=
| SecretNotConfigured | MissingSignatureHeader | BodyReadError | SignatureMismatch
| BasicNext (raw_body : string).

Definition WebhookVerification (secret : string) (r : Request) : basic_answer :=
  if decide (secret = "") then SecretNotConfigured
  else
    let sig := req_Header r WebhookSignatureHeader in
    if decide (sig = "") then MissingSignatureHeader
    else match ReadAll (req_Body r) with
    | Err _ => BodyReadError
    | Ok body =>
        if decide (sig = hex_encode (hmac HMACSHA256 secret body)) then BasicNext body
        else SignatureMismatch
    end.

(** The closure [WebhookVerificationMiddleware] returns, with its replay
    cache as state. *)
Definition handle (cfg : WebhookConfig) (t : clock_readings) (cache : option EventIDCache) (r : Request)
    : option EventIDCache * answer :=
  if wrap64 (MaxBodySize cfg) <? req_ContentLength r then (cache, Abort_ 413 ErrBodyTooLarge)
  else match ReadAll (req_Body r) with
  | Err e => (cache, Abort_ 400 (ErrReadBody e))
  | Ok rawBody =>
      let signature := req_Header r (SignatureHeader cfg) in
      if decide (signature = "") then (cache, Abort_ 401 ErrMissingSignature)
      else match verifySignature (r_sig t) rawBody signature cfg with
      | Some e => (cache, Abort_ 401 e)
      | None =>
          match
            (if RequireTimestamp cfg && negb (bool_decide (TimestampHeader cfg = "")) then
               let timestamp := req_Header r (TimestampHeader cfg) in
               if decide (timestamp = "") then Some ErrMissingTimestamp
               else verifyTimestamp (r_stamp t) timestamp (Tolerance cfg)
             else None)
          with
          | Some e => (cache, Abort_ 401 e)
          | None =>
              let next := λ id, Next id (Provider cfg) true rawBody in
              if RequireEventID cfg && negb (bool_decide (EventIDHeader cfg = "")) then
                let eventID := req_Header r (EventIDHeader cfg) in
                if decide (eventID = "") then (cache, Abort_ 401 ErrMissingEventID)
                else match cache with
                | None => (cache, next (Some eventID))
                | Some c =>
                    match CheckAndStore (r_cache t) eventID c with
                    | (c, Some _) => (Some c, Abort_ 401 ErrReplayDetected)
                    | (c, None) => (Some c, next (Some eventID))
                    end
                end
              else (cache, next None)
          end
      end
  end.

Definition WebhookVerificationMiddleware (cfg : WebhookConfig)
    : result config_error (option EventIDCache * (clock_readings → option EventIDCache → Request → option EventIDCache * answer)) :=
  let? cfg := Validate cfg in
  let replayCache :=
    if EnableReplayProtection cfg then Some (NewEventIDCache (5 * Time.Minute)) else None in
  Ok (replayCache, handle cfg).

(** ** Signed admin requests *)
Definition AdminSignatureHeader : string := "X-Stellabill-Signature".
Definition AdminDateHeader : string := "X-Stellabill-Date".
Definition AdminMaxBodySize : Z := DefaultMaxBodySize.
Definition AdminTimestampSkew : Z := 60.
Definition adminReplayCacheTTL : Duration := 5 * Time.Minute.

Inductive admin_error :=
| ErrAdminSigningNotConfigured
| ErrMissingAdminDate
| ErrInvalidAdminDate
| ErrMissingAdminSignature
| ErrInvalidAdminSignature
| ErrAdminReplayDetected
| ErrAdminBodyTooLarge
| ErrHostRequired
| ErrAdminReadBody (e : string).

Inductive admin_answer := AdminAbort (status : Z) (e : admin_error) | AdminNext (body : string).

(** [strings.Join(strings.Fields(v), " ")] *)
Definition squeeze (v : string) : string := Join (Fields v) " ".

Definition newline : string := bytes [10%nat].

(** One optional signed header: its line and its name. *)
Definition signed_header (r : Request) (header name : string) : string * string :=
  let v := TrimSpace (req_Header r header) in
  if decide (v = "") then ("", "")
  else (name +:+ ":" +:+ squeeze v +:+ newline, ";" +:+ name).

Definition canonicalAdminRequest (r : Request) (body : string) : result admin_error string :=
  if decide (req_Host r = "") then Err ErrHostRequired
  else
    let method := ToUpper (req_Method r) in (* tokens of ASCII bytes *)
    let method := if decide (method = "") then "GET" else method in
    let path := if decide (req_EscapedPath r = "") then "/" else req_EscapedPath r in
    let date := TrimSpace (req_Header r AdminDateHeader) in
    if decide (date = "") then Err ErrMissingAdminDate
    else
      let (ct, ct_name) := signed_header r "Content-Type" "content-type" in
      let (auth, auth_name) := signed_header r "Authorization" "authorization" in
      let (token, token_name) := signed_header r "X-Admin-Token" "x-admin-token" in
      let headers := "host:" +:+ squeeze (req_Host r) +:+ newline +:+
                     "x-stellabill-date:" +:+ squeeze date +:+ newline +:+ ct +:+ auth +:+ token in
      let signedHeaders := "host;x-stellabill-date" +:+ ct_name +:+ auth_name +:+ token_name in
      Ok (Join [method; path; req_Query r; headers; signedHeaders; hex_encode (sha256 body)] newline).

(** The readings of the clock: by the check of the date, then by the cache. *)
Record admin_readings := { a_date : Time; a_cache : readings }.

(** The closure [RequestSigning] returns. *)
Definition sign_handle (secret : string) (t : admin_readings) (cache : EventIDCache) (r : Request)
    : EventIDCache * admin_answer :=
  if decide (secret = "") then (cache, AdminAbort 503 ErrAdminSigningNotConfigured)
  else
    let date := TrimSpace (req_Header r AdminDateHeader) in
    if decide (date = "") then (cache, AdminAbort 401 ErrMissingAdminDate)
    else match verifyTimestamp (a_date t) date AdminTimestampSkew with
    | Some _ => (cache, AdminAbort 401 ErrInvalidAdminDate)
    | None =>
        let sig := TrimSpace (req_Header r AdminSignatureHeader) in
        if decide (sig = "") then (cache, AdminAbort 401 ErrMissingAdminSignature)
        else if AdminMaxBodySize <? req_ContentLength r then (cache, AdminAbort 413 ErrAdminBodyTooLarge)
        else if AdminMaxBodySize <? Z.of_nat (String.length (data (req_Body r))) then
          (cache, AdminAbort 413 ErrAdminBodyTooLarge)
        else match ReadAll (req_Body r) with
        | Err e => (cache, AdminAbort 400 (ErrAdminReadBody e))
        | Ok body =>
            match canonicalAdminRequest r body with
            | Err e => (cache, AdminAbort 400 e)
            | Ok canonical =>
                let expected := hex_encode (hmac HMACSHA256 secret canonical) in
                if decide (sig ≠ expected) then (cache, AdminAbort 401 ErrInvalidAdminSignature)
                else match CheckAndStore (a_cache t) ("admin:" +:+ expected) cache with
                | (c, Some _) => (c, AdminAbort 401 ErrAdminReplayDetected)
                | (c, None) => (c, AdminNext body)
                end
            end
        end
    end.

Definition RequestSigning (secret : string)
    : EventIDCache * (admin_readings → EventIDCache → Request → EventIDCache * admin_answer) :=
  (NewEventIDCache adminReplayCacheTTL, sign_handle secret).

End crypto.

(** ** The reader handed to the handlers *)
Record readSeekCloser := { rs_data : string; rs_pos : Z }.

Inductive seek_error := NegativePosition.

(** [Read] into a buffer of [n] bytes: the bytes copied, or end of file. *)
Definition Read (n : nat) (r : readSeekCloser) : option string * readSeekCloser :=
  if Z.of_nat (String.length (rs_data r)) <=? rs_pos r then (None, r)
  else
    let chunk := substring (Z.to_nat (rs_pos r)) n (rs_data r) in
    (Some chunk, {| rs_data := rs_data r; rs_pos := rs_pos r + Z.of_nat (String.length chunk) |}).

Definition Seek (offset whence : Z) (r : readSeekCloser) : result seek_error Z * readSeekCloser :=
  let newPos :=
    if whence =? 0 then offset
    else if whence =? 1 then wrap64 (rs_pos r + offset)
    else if whence =? 2 then wrap64 (Z.of_nat (String.length (rs_data r)) + offset)
    else 0 in
  if newPos <? 0 then (Err NegativePosition, r)
  else (Ok newPos, {| rs_data := rs_data r; rs_pos := newPos |}).

(** ** Timestamps *)
Lemma digit_val_inv c d : digit_val c = Some d → 0 ≤ d ≤ 9 ∧ code c = 48 + d.
Proof. unfold digit_val. case_bool_decide; [|done]. intros [= <-]. lia. Qed.

Lemma digit_not_space c d s : digit_val c = Some d → skip_space (String.length (String c s)) (String c s) = Some (String c s).
Proof.
  intros [Hd Hc]%digit_val_inv.
  change (match List.find (λ p, HasPrefix (String c s) p) space_encodings with
          | Some p => if decide (p = bytes [10%nat]) then None
                      else skip_space (String.length s) (drop_str (String.length p) (String c s))
          | None => Some (String c s)
          end = Some (String c s)).
  rewrite find_none_forall; [done|]. intros p Hp.
  assert (forallb (λ p, match p with
                        | String x _ => negb ((48 <=? code x) && (code x <=? 57))
                        | EmptyString => false end) space_encodings = true) as Hall
    by (vm_compute; reflexivity).
  rewrite forallb_forall in Hall. specialize (Hall p Hp).
  destruct p as [|x p]; [done|]. unfold HasPrefix. cbn [String.prefix].
  destruct (ascii_dec x c) as [->|]; [|done].
  exfalso. revert Hall. rewrite negb_true_iff. lia.
Qed.

(** A text that starts with a digit is read as the number its digits make. *)
Lemma parseInt64_digits c d s :
  digit_val c = Some d → decimal (fst (span_digits (String c s))) ≤ max_int64 →
  parseInt64 (String c s) = Some (decimal (fst (span_digits (String c s)))).
Proof.
  intros Hd Hmax. unfold parseInt64. rewrite (digit_not_space c d s Hd).
  destruct (digit_val_inv c d Hd) as [Hb Hc].
  assert (match String c s with
          | String "-" s' => (true, s')
          | String "+" s' => (false, s')
          | _ => (false, String c s)
          end = (false, String c s)) as ->.
  { assert (code c ≠ 45 ∧ code c ≠ 43) as [H1 H2] by lia. clear - H1 H2.
    destruct c as [[] [] [] [] [] [] [] []]; try reflexivity; vm_compute in H1, H2; done. }
  cbn [span_digits] in *. rewrite Hd in *. destruct (span_digits s) as [ds r] eqn:Es.
  simpl fst in *. rewrite bool_decide_true; [done|]. split; [|done].
  assert (∀ a ds, Forall (λ d, 0 ≤ d) ds → 0 ≤ a → 0 ≤ foldl (λ a d, a * 10 + d) a ds) as Hpos.
  { clear. intros a ds Hds. revert a. induction Hds; intros a Ha; simpl; [done|]. apply IHHds. lia. }
  assert (Forall (λ d, 0 ≤ d) ds) as Hds.
  { clear - Es. revert ds r Es. induction s as [|x s IH]; intros ds r E; simpl in E; [by simplify_eq|].
    destruct (digit_val x) as [dx|] eqn:Ex; [|by simplify_eq].
    destruct (span_digits s) as [ds' r']. simplify_eq. constructor; [|by eapply IH].
    apply digit_val_inv in Ex. lia. }
  transitivity 0; [unfold min_int64; lia|]. unfold decimal. simpl. apply Hpos; [done|lia].
Qed.

(** Texts of RFC 3339 instants start with the year and a dash, so they are
    taken for the number of their year: the layout is never tried with
    success. *)
Lemma getnum_fixed_inv s n r :
  getnum true s = Some (n, r) →
  ∃ c1 c2 a b, s = String c1 (String c2 r) ∧ digit_val c1 = Some a ∧ digit_val c2 = Some b ∧ n = a * 10 + b.
Proof.
  destruct s as [|c1 [|c2 s]]; simpl; [done| |]; destruct (digit_val c1) as [a|] eqn:E1; try done.
  destruct (digit_val c2) as [b|] eqn:E2; [|done]. intros [= <- <-]. eauto 10.
Qed.

Lemma rfc3339_read_as_year s ts :
  ParseRFC3339 s = Some ts → ∃ y, 0 ≤ y ≤ 9999 ∧ parseInt64 s = Some y.
Proof.
  unfold ParseRFC3339, get_year. intros H.
  destruct (getnum true s) as [[a r1]|] eqn:E1; [|done]. rewrite option_bind_Some in H. cbv beta iota in H.
  destruct (getnum true r1) as [[b r2]|] eqn:E2; [|done]. rewrite !option_bind_Some in H. cbv beta iota in H.
  destruct (literal "-" r2) as [r3|] eqn:E3; [|done]. clear H.
  apply getnum_fixed_inv in E1 as (c1 & c2 & d1 & d2 & -> & H1 & H2 & ->).
  apply getnum_fixed_inv in E2 as (c3 & c4 & d3 & d4 & -> & H3 & H4 & ->).
  destruct r2 as [|c r2]; simpl in E3; [done|]. case_decide as Ec; [|done]. subst c.
  assert (span_digits (String c1 (String c2 (String c3 (String c4 (String "-" r2))))) =
          ([d1; d2; d3; d4], String "-" r2)) as Es.
  { cbn [span_digits]. rewrite H1, H2, H3, H4. reflexivity. }
  pose proof (digit_val_inv _ _ H1). pose proof (digit_val_inv _ _ H2).
  pose proof (digit_val_inv _ _ H3). pose proof (digit_val_inv _ _ H4).
  exists (decimal [d1; d2; d3; d4]). unfold decimal in *. simpl foldl. split; [lia|].
  rewrite (parseInt64_digits c1 d1); rewrite ?Es; [done|done|].
  unfold decimal, max_int64. simpl foldl. lia.
Qed.

Lemma parseUnixTimestamp_numeric s n :
  parseUnixTimestamp s = Some n → ∃ k, parseInt64 s = Some k.
Proof.
  unfold parseUnixTimestamp. destruct (parseInt64 s) as [k|] eqn:E; [eauto|].
  destruct (ParseRFC3339 s) as [ts|] eqn:Er; [|done].
  apply rfc3339_read_as_year in Er as (y & _ & Hy). congruence.
Qed.


#[local] Ltac Zify.zify_post_hook ::= Z.to_euclidean_division_equations.

Lemma verifyTimestamp_window now s tol n :
  0 ≤ tol → 1000000000 + tol < Unix now → Unix now + tol ≤ 10000000000 →
  parseUnixTimestamp s = Some n →
  verifyTimestamp now s tol =
    if n <? Unix now - tol then Some ErrTimestampTooOld
    else if Unix now + tol <? n then Some ErrTimestampTooNew else None.
Proof.
  intros H0 H1 H2 Hn. unfold verifyTimestamp. rewrite Hn.
  rewrite !wrap64_id; [done| |]; unfold in_int64, min_int64, max_int64; lia.
Qed.

(** The leading digits of a text are a number of seconds within the tolerance
    of the clock, or a number of nanoseconds that is; and the clock stands,
    with the tolerance, between the years 2001 and 2286. *)
Definition stamp_within (now : Time) (s : string) (tol : Z) : Prop :=
  ∃ n, parseInt64 s = Some n ∧
    (Z.abs (n - Unix now) ≤ tol ∨ Z.abs (n / 1000000000 - Unix now) ≤ tol).
Definition sane_clock (now : Time) (tol : Z) : Prop :=
  1000000000 + tol < Unix now ∧ Unix now + tol ≤ 10000000000.

(** A timestamp is accepted exactly when it is within the tolerance so read.
    No other notation is: neither milliseconds nor RFC 3339 texts, which are
    read as the number of their year. *)
Theorem verifyTimestamp_exact now s tol :
  0 ≤ tol → sane_clock now tol → verifyTimestamp now s tol = None ↔ stamp_within now s tol.
Proof.
  intros H0 [H1 H2]. unfold stamp_within. split.
  - destruct (parseUnixTimestamp s) as [m|] eqn:Em; [|unfold verifyTimestamp; by rewrite Em].
    destruct (parseUnixTimestamp_numeric _ _ Em) as [n Hn].
    rewrite (verifyTimestamp_window _ _ _ m) by done. intros Hv. exists n. split; [done|].
    unfold parseUnixTimestamp in Em. rewrite Hn in Em.
    destruct (Z.ltb_spec m (Unix now - tol)); [done|]. destruct (Z.ltb_spec (Unix now + tol) m); [done|].
    destruct (Z.ltb_spec 10000000000 n); [|simplify_eq; lia].
    destruct (Z.ltb_spec 1000000000000 n); simplify_eq; lia.
  - intros (n & Hn & Hw).
    assert (∃ m, parseUnixTimestamp s = Some m ∧ Z.abs (m - Unix now) ≤ tol) as (m & Hm & Hmw).
    { unfold parseUnixTimestamp. rewrite Hn.
      destruct (Z.ltb_spec 10000000000 n); [|exists n; split; [done|lia]].
      destruct (Z.ltb_spec 1000000000000 n); eexists; (split; [done|lia]). }
    rewrite (verifyTimestamp_window _ _ _ m) by done.
    destruct (Z.ltb_spec m (Unix now - tol)); [lia|]. destruct (Z.ltb_spec (Unix now + tol) m); [lia|done].
Qed.

Lemma verifyTimestamp_exact_witness :
  verifyTimestamp (1700000000 * Time.Second) "1700000100 GMT" 300 = None ∧
  verifyTimestamp (1700000000 * Time.Second) "1700000000000" 300 ≠ None.
Proof.
  split.
  - apply verifyTimestamp_exact; [done|split; [vm_compute; reflexivity|vm_compute; discriminate]|].
    exists 1700000100. split; [vm_compute; reflexivity|left; vm_compute; discriminate].
  - intros Hv. apply verifyTimestamp_exact in Hv as (n & Hn & Hw);
      [|done|split; [vm_compute; reflexivity|vm_compute; discriminate]].
    vm_compute in Hn. injection Hn as <-. destruct Hw as [Hw|Hw]; vm_compute in Hw; by apply Hw.
Defined.

(** Current times in the two other notations the comments name are rejected
    as too old. *)
Theorem other_notations_too_old now s tol :
  0 ≤ tol ≤ 86400 → 1100000000 + tol < Unix now → Unix now + tol ≤ 10000000000 →
  (∃ ts, ParseRFC3339 s = Some ts) ∨ (∃ ms, parseInt64 s = Some ms ∧ ms / 1000 = Unix now) →
  verifyTimestamp now s tol = Some ErrTimestampTooOld.
Proof.
  intros H0 H1 H2 Hs.
  assert (∃ m, parseUnixTimestamp s = Some m ∧ m < Unix now - tol) as (m & Hm & Hlt).
  { unfold parseUnixTimestamp. destruct Hs as [[ts Hts]|(ms & Hms & E)].
    - destruct (rfc3339_read_as_year _ _ Hts) as (y & Hy & ->). exists y.
      destruct (Z.ltb_spec 10000000000 y); [lia|]. split; [done|lia].
    - rewrite Hms. destruct (Z.ltb_spec 10000000000 ms); [|lia].
      destruct (Z.ltb_spec 1000000000000 ms); eexists; (split; [done|lia]). }
  rewrite (verifyTimestamp_window _ _ _ m) by (done || lia).
  destruct (Z.ltb_spec m (Unix now - tol)); [done|lia].
Qed.

#[local] Ltac Zify.zify_post_hook ::= idtac.

(** ** Signatures *)
Section signatures.
Context (hmac : string → string → string → string) (sha256 : string → string).

Lemma TrimPrefix_clean c s p : contains_char c s = false → contains_char c (TrimPrefix s p) = false.
Proof. intros Hs. unfold TrimPrefix. case_match; [by apply contains_char_drop|done]. Qed.

Lemma strip_version_clean c s cfg :
  contains_char c s = false → contains_char c (strip_version s cfg) = false.
Proof. intros Hs. unfold strip_version. case_match; [by apply TrimPrefix_clean|done]. Qed.

Lemma strip_version_part s cfg : part_of (strip_version s cfg) s.
Proof. unfold strip_version. case_match; [apply TrimPrefix_part|apply part_of_refl]. Qed.

(** The signature found is a part of one of the parts. *)
Lemma composite_parts_sig version parts acc :
  let '(_, sig) := composite_parts version parts acc in
  sig = snd acc ∨ ∃ part p, In part parts ∧ sig = TrimPrefix part p.
Proof.
  revert acc. induction parts as [|part parts IH]; intros [ts sg]; simpl; [by left|].
  match goal with |- context [composite_parts version parts ?a] =>
    specialize (IH a); assert (snd a = sg ∨ ∃ p, snd a = TrimPrefix part p) as Ha end.
  { repeat case_match; simpl; eauto. }
  destruct (composite_parts version parts _) as [ts' sg'].
  destruct IH as [->|(q & p & Hq & ->)]; [|eauto 10].
  destruct Ha as [->|[p ->]]; [by left|eauto 10].
Qed.

Lemma composite_parts_stamp version parts acc :
  let '(ts, _) := composite_parts version parts acc in
  ts = fst acc ∨ ∃ part p, In part parts ∧ ts = TrimPrefix part p.
Proof.
  revert acc. induction parts as [|part parts IH]; intros [ts sg]; simpl; [by left|].
  match goal with |- context [composite_parts version parts ?a] =>
    specialize (IH a); assert (fst a = ts ∨ ∃ p, fst a = TrimPrefix part p) as Ha end.
  { repeat case_match; simpl; eauto. }
  destruct (composite_parts version parts _) as [ts' sg'].
  destruct IH as [->|(q & p & Hq & ->)]; [|eauto 10].
  destruct Ha as [->|[p ->]]; [by left|eauto 10].
Qed.

(** A signature without a comma is compared in one step. *)
Lemma verify_fuel_clean fuel now payload sig cfg :
  contains_char "," sig = false → sig ≠ "" →
  verify_fuel hmac (S fuel) now payload sig cfg =
    Some (verify_plain hmac payload (strip_version sig cfg) cfg).
Proof.
  intros Hc Hne. cbn [verify_fuel]. rewrite decide_False by done. cbv zeta.
  by rewrite strip_version_clean.
Qed.

Lemma composite_sig_clean version s acc :
  contains_char "," (snd acc) = false →
  contains_char "," (snd (composite_parts version (split_char "," s) acc)) = false.
Proof.
  intros Ha. pose proof (composite_parts_sig version (split_char "," s) acc) as Hs.
  destruct (composite_parts _ _ _) as [ts sg]. simpl.
  destruct Hs as [->|(part & p & Hp & ->)]; [done|].
  apply TrimPrefix_clean. by apply (split_char_clean _ s).
Qed.

(** The nesting ends: [verifySignature] satisfies the recursion the source
    writes, in which the composite case calls it again. *)
Lemma verifySignature_unfold now payload signature cfg :
  verifySignature hmac now payload signature cfg =
    if decide (signature = "") then Some ErrMissingSignature
    else
      let signature := strip_version signature cfg in
      if contains_char "," signature then
        verifyCompositeSignature (λ payload sig, verifySignature hmac now payload sig cfg)
          now payload signature cfg
      else verify_plain hmac payload signature cfg.
Proof.
  unfold verifySignature at 1.
  assert (∃ n, 2%nat = S n ∧ n = 1%nat) as (n & -> & En) by eauto.
  cbn [verify_fuel]. case_decide; [done|]. cbv zeta.
  destruct (contains_char "," (strip_version signature cfg)) eqn:Ec; [|done].
  unfold verifyCompositeSignature.
  pose proof (composite_sig_clean (SignatureVersion cfg) (strip_version signature cfg) ("", "") eq_refl) as Hcl.
  destruct (composite_parts _ _ _) as [ts sg]. simpl in Hcl. case_decide as Hne; [done|].
  match goal with |- context [match ?x with Some e => Some (Some e) | None => _ end] =>
    destruct x; [done|] end.
  assert (∀ p, verify_fuel hmac n now p sg cfg = Some (verifySignature hmac now p sg cfg)) as Hv.
  { intros p. rewrite En. unfold verifySignature. by rewrite !verify_fuel_clean. }
  destruct (decide (ts = "")); by rewrite Hv.
Qed.

Lemma verify_plain_None payload sig cfg :
  verify_plain hmac payload sig cfg = None →
  hex_decode sig = Some (hmac (Algorithm cfg) (SecretKey cfg) payload).
Proof.
  unfold verify_plain. intros H. destruct (hex_decode sig) as [b|]; [|done].
  case_bool_decide; [|done]. case_decide; [congruence|done].
Qed.

(** What an accepted signature header proves: some part of it is the HMAC of
    the payload, or of the payload behind a timestamp that is in the header
    too; that timestamp is within the tolerance when no other header is
    configured for it. *)
Definition signed_by (cfg : WebhookConfig) (now : Time) (payload header : string) : Prop :=
  ∃ sig signed, part_of sig header ∧
    hex_decode sig = Some (hmac (Algorithm cfg) (SecretKey cfg) signed) ∧
    (signed = payload ∨
     ∃ ts, ts ≠ "" ∧ part_of ts header ∧ signed = ts +:+ "." +:+ payload ∧
       (TimestampHeader cfg = "" → stamp_within now ts (Tolerance cfg))).

Lemma verifySignature_clean now payload sig cfg :
  contains_char "," sig = false → verifySignature hmac now payload sig cfg = None →
  ∃ s, part_of s sig ∧ hex_decode s = Some (hmac (Algorithm cfg) (SecretKey cfg) payload).
Proof.
  intros Hc. rewrite verifySignature_unfold. case_decide; [done|]. cbv zeta.
  rewrite strip_version_clean by done. intros Hv%verify_plain_None.
  eexists. split; [apply (strip_version_part sig cfg)|done].
Qed.

Lemma verifySignature_authentic now payload header cfg :
  0 ≤ Tolerance cfg → sane_clock now (Tolerance cfg) →
  verifySignature hmac now payload header cfg = None → signed_by cfg now payload header.
Proof.
  intros Htol Hclock. rewrite verifySignature_unfold. case_decide; [done|]. cbv zeta.
  pose proof (strip_version_part header cfg) as Hpart. set (s := strip_version header cfg) in *.
  destruct (contains_char "," s) eqn:Ec.
  2: { intros Hv%verify_plain_None. exists s, payload. eauto. }
  unfold verifyCompositeSignature.
  pose proof (composite_parts_sig (SignatureVersion cfg) (split_char "," s) ("", "")) as Hs.
  pose proof (composite_parts_stamp (SignatureVersion cfg) (split_char "," s) ("", "")) as Hst.
  pose proof (composite_sig_clean (SignatureVersion cfg) s ("", "") eq_refl) as Hcl.
  destruct (composite_parts _ _ _) as [ts sg]. simpl in Hs, Hst, Hcl. case_decide as Hne; [done|].
  assert (∀ part p, In part (split_char "," s) → part_of (TrimPrefix part p) header) as Hin.
  { intros part p Hp. eapply part_of_trans; [|exact Hpart]. eapply part_of_trans; [|exact (split_char_part _ _ _ Hp)].
    apply TrimPrefix_part. }
  destruct Hs as [?|(part & p & Hp & Esg)]; [done|].
  assert (part_of sg header) as Hsg by (rewrite Esg; by apply Hin).
  destruct (if _ && _ then _ else _) eqn:Et; [done|].
  destruct (decide (ts = "")) as [Ets|Ets].
  - intros (s' & Hs' & Hx)%verifySignature_clean; [|done]. exists s', payload.
    split; [by eapply part_of_trans|]. auto.
  - intros (s' & Hs' & Hx)%verifySignature_clean; [|done]. exists s', (ts +:+ "." +:+ payload).
    split; [by eapply part_of_trans|]. split; [done|]. right. exists ts. split_and!; [done| |done|].
    + destruct Hst as [?|(part' & p' & Hp' & ->)]; [done|by apply Hin].
    + intros Hth. rewrite bool_decide_true, bool_decide_false in Et by done. by apply verifyTimestamp_exact.
Qed.

(** With a timestamp header configured, the clock plays no part in the check of
    the signature. *)
Lemma verifySignature_time now now' payload header cfg :
  TimestampHeader cfg ≠ "" →
  verifySignature hmac now' payload header cfg = verifySignature hmac now payload header cfg.
Proof.
  intros Hth. rewrite !verifySignature_unfold. case_decide; [done|]. cbv zeta.
  destruct (contains_char "," _); [|done]. unfold verifyCompositeSignature.
  pose proof (composite_sig_clean (SignatureVersion cfg) (strip_version header cfg) ("", "") eq_refl) as Hcl.
  destruct (composite_parts _ _ _) as [ts sg]. simpl in Hcl. case_decide as Hne; [done|].
  rewrite bool_decide_false by done. simpl.
  destruct (decide (ts = "")); unfold verifySignature; by rewrite !verify_fuel_clean.
Qed.

(** ** The middleware *)

(** Case analysis on the branches of [handle]. *)
Lemma handle_next cfg t cache r cache' id p v body :
  handle hmac cfg t cache r = (cache', Next id p v body) →
  req_ContentLength r ≤ wrap64 (MaxBodySize cfg) ∧ ReadAll (req_Body r) = Ok body ∧
  v = true ∧ p = Provider cfg ∧
  verifySignature hmac (r_sig t) body (req_Header r (SignatureHeader cfg)) cfg = None ∧
  req_Header r (SignatureHeader cfg) ≠ "" ∧
  (RequireTimestamp cfg = true → TimestampHeader cfg ≠ "" →
   verifyTimestamp (r_stamp t) (req_Header r (TimestampHeader cfg)) (Tolerance cfg) = None) ∧
  (if RequireEventID cfg && negb (bool_decide (EventIDHeader cfg = ""))
   then id = Some (req_Header r (EventIDHeader cfg)) ∧ req_Header r (EventIDHeader cfg) ≠ "" ∧
        ∀ c, cache = Some c → ∃ c', cache' = Some c' ∧
          CheckAndStore (r_cache t) (req_Header r (EventIDHeader cfg)) c = (c', None)
   else id = None).
Proof.
  unfold handle. intros H. destruct (Z.ltb_spec (wrap64 (MaxBodySize cfg)) (req_ContentLength r)); [done|].
  destruct (ReadAll (req_Body r)) as [raw|e]; [|done].
  cbv zeta in H. case_decide as Hsig; [done|].
  destruct (verifySignature hmac _ _ _ _) eqn:Ev; [done|].
  destruct (if RequireTimestamp cfg && _ then _ else _) eqn:Et; [done|].
  assert (raw = body ∧ v = true ∧ p = Provider cfg) as (-> & -> & ->).
  { repeat case_match; simplify_eq; done. }
  split_and!; try done.
  - intros Hr Hh. rewrite Hr, bool_decide_false in Et by done. cbv zeta in Et. cbn [andb negb] in Et. 
    by destruct (decide (req_Header r (TimestampHeader cfg) = "")).
  - destruct (RequireEventID cfg && _); [|by simplify_eq].
    destruct (decide (req_Header r (EventIDHeader cfg) = "")); [done|].
    destruct cache as [c|]; [|by simplify_eq].
    destruct (CheckAndStore _ _ c) as [c' [|]] eqn:Ec; simplify_eq.
    split_and!; [done..|]. intros c0 [= <-]. eauto.
Qed.

(** C32: Nothing unsigned passes, whatever the provider's configuration. When
    the middleware hands a webhook on, the body it hands on is the one
    received, and part of the signature header is the HMAC, under the
    configured secret and hash, of that body or, in a composite signature, of
    the header's own timestamp, a dot and that body. The timestamp that the
    configuration asks for (that of its header or, when it names none, the
    one in a composite signature), read as seconds or as nanoseconds, is at
    most the tolerance away from the clock. When an event identifier is required there is one, and with
    replay protection on the cache did not hold it as still live; when none is
    required none is reported. (The clock stands between the years 2001 and
    2286.) *)
Theorem accepted_authentic cfg t cache r cache' id p v body :
  0 ≤ Tolerance cfg → sane_clock (r_sig t) (Tolerance cfg) → sane_clock (r_stamp t) (Tolerance cfg) →
  handle hmac cfg t cache r = (cache', Next id p v body) →
  fails (req_Body r) = None ∧ data (req_Body r) = body ∧
  signed_by cfg (r_sig t) body (req_Header r (SignatureHeader cfg)) ∧
  (RequireTimestamp cfg = true → TimestampHeader cfg ≠ "" →
   stamp_within (r_stamp t) (req_Header r (TimestampHeader cfg)) (Tolerance cfg)) ∧
  (if RequireEventID cfg && negb (bool_decide (EventIDHeader cfg = ""))
   then ∃ e, id = Some e ∧ e ≠ "" ∧ e = req_Header r (EventIDHeader cfg) ∧
     ∀ c x, cache = Some c → entries c !! e = Some x → x < t_clean (r_cache t) ∨ x ≤ t_check (r_cache t)
   else id = None).
Proof.
  intros Htol Hc1 Hc2 (_ & Hb & _ & _ & Hs & _ & Ht & He)%handle_next.
  unfold ReadAll in Hb. destruct (fails (req_Body r)) eqn:Ef; [done|]. injection Hb as Hb.
  split_and!; [done|done|by apply verifySignature_authentic| |].
  { intros H1 H2. apply verifyTimestamp_exact; [done..|]. by apply Ht. }
  destruct (RequireEventID cfg && _) eqn:Er; [|done].
  destruct He as (-> & Hne & Hc). eexists. split_and!; [done|done|done|]. intros c x -> Hx.
  destruct (Hc c eq_refl) as (c' & _ & Hcs).
  destruct (decide (x < t_clean (r_cache t))) as [|Hx1]; [by left|right].
  destruct (decide (x ≤ t_check (r_cache t))) as [|Hx2]; [done|exfalso].
  revert Hcs. unfold CheckAndStore. rewrite decide_False by done. cbv zeta.
  rewrite (lookup_sweep _ _ _ _ Hx) by lia. by rewrite (proj2 (Before_true _ _)) by lia.
Qed.

(** The request with other values of the two headers that are not signed. *)
Definition with_header (name value : string) (r : Request) : Request :=
  {| req_Method := req_Method r; req_Host := req_Host r; req_EscapedPath := req_EscapedPath r;
     req_Query := req_Query r;
     req_Header := λ h, if decide (h = name) then value else req_Header r h;
     req_ContentLength := req_ContentLength r; req_Body := req_Body r |}.

Lemma CheckAndStore_fresh t id c :
  id ≠ "" → entries c !! id = None → ∃ c', CheckAndStore t id c = (c', None).
Proof.
  intros Hne Hid. unfold CheckAndStore. rewrite decide_False by done. cbv zeta.
  replace (entries (cleanupExpiredLocked (t_clean t) c) !! id) with (@None Z); [eauto|].
  symmetry. apply map_lookup_filter_None. by left.
Qed.

(** The timestamp and the event identifier are not signed. Whoever holds
    one accepted delivery can have its body accepted again at any later time
    [t'], whatever the replay cache holds: the same body and signature go
    through with a fresh identifier and a current timestamp. *)
Theorem captured_delivery_replayed cfg t cache r cache' id p v body t' c' id' stamp' :
  handle hmac cfg t cache r = (cache', Next id p v body) →
  TimestampHeader cfg ≠ "" → RequireEventID cfg = true → EventIDHeader cfg ≠ "" →
  NoDup [SignatureHeader cfg; TimestampHeader cfg; EventIDHeader cfg] →
  id' ≠ "" → entries c' !! id' = None →
  stamp' ≠ "" → verifyTimestamp (r_stamp t') stamp' (Tolerance cfg) = None →
  ∃ c'', handle hmac cfg t' (Some c')
           (with_header (EventIDHeader cfg) id' (with_header (TimestampHeader cfg) stamp' r)) =
         (Some c'', Next (Some id') (Provider cfg) true body).
Proof.
  intros (Hlen & Hb & _ & _ & Hs & Hsig & _ & _)%handle_next Hth Hre Heh Hnd Hid Hfresh Hst Hvt.
  rewrite !NoDup_cons, !not_elem_of_cons in Hnd. destruct Hnd as ((Hst1 & Hse & _) & (Hte & _) & _).
  destruct (CheckAndStore_fresh (r_cache t') id' c' Hid Hfresh) as [c'' Hcs]. exists c''.
  unfold handle. cbn [with_header req_ContentLength req_Body req_Header].
  destruct (Z.ltb_spec (wrap64 (MaxBodySize cfg)) (req_ContentLength r)); [lia|].
  rewrite Hb. cbv zeta. rewrite !(decide_False (P := SignatureHeader cfg = _)) by done.
  rewrite decide_False by done.
  rewrite (verifySignature_time (r_sig t) (r_sig t')), Hs by done.
  rewrite (bool_decide_false (TimestampHeader cfg = "")) by done.
  rewrite (decide_False (P := TimestampHeader cfg = EventIDHeader cfg)) by done.
  rewrite (decide_True (P := TimestampHeader cfg = TimestampHeader cfg)) by done.
  rewrite Hre, (bool_decide_false (EventIDHeader cfg = "")) by done.
  rewrite (decide_True (P := EventIDHeader cfg = EventIDHeader cfg)) by done.
  rewrite !decide_False by done. rewrite Hvt, Hcs. by destruct (RequireTimestamp cfg).
Qed.
End signatures.

(** ** Signed admin requests *)
Section admin.
Context (hmac : string → string → string → string) (sha256 : string → string) (secret : string).
Implicit Types (r : Request) (c : EventIDCache).

(** A request between two others: its readings and the request. *)
Definition admin_history (c : EventIDCache) (hs : list (admin_readings * Request)) : EventIDCache :=
  foldl (λ c h, fst (sign_handle hmac sha256 secret h.1 c h.2)) c hs.

(** The cache is touched by [CheckAndStore] only. *)
Lemma sign_handle_cache t c r :
  fst (sign_handle hmac sha256 secret t c r) = c ∨
  ∃ id, fst (sign_handle hmac sha256 secret t c r) = run_op c (Deliver (a_cache t) id).
Proof.
  unfold sign_handle. cbv zeta.
  destruct (decide (secret = "")); [by left|].
  destruct (decide (TrimSpace (req_Header r AdminDateHeader) = "")); [by left|].
  destruct (verifyTimestamp _ _ _); [by left|].
  destruct (decide (TrimSpace (req_Header r AdminSignatureHeader) = "")); [by left|].
  destruct (AdminMaxBodySize <? req_ContentLength r); [by left|].
  destruct (AdminMaxBodySize <? _); [by left|].
  destruct (ReadAll (req_Body r)); [|by left].
  destruct (canonicalAdminRequest _ _ _); [|by left].
  destruct (decide (_ ≠ _)); [by left|].
  right. match goal with |- context [CheckAndStore _ ?id _] => exists id end.
  cbn [run_op]. by destruct (CheckAndStore _ _ _) as [? [|]].
Qed.

(** What an accepted request passed. *)
Lemma sign_handle_next t c r c' body :
  sign_handle hmac sha256 secret t c r = (c', AdminNext body) →
  verifyTimestamp (a_date t) (TrimSpace (req_Header r AdminDateHeader)) AdminTimestampSkew = None ∧
  body = data (req_Body r) ∧
  ∃ canonical, canonicalAdminRequest sha256 r body = Ok canonical ∧
    TrimSpace (req_Header r AdminSignatureHeader) = hex_encode (hmac HMACSHA256 secret canonical) ∧
    CheckAndStore (a_cache t) ("admin:" +:+ hex_encode (hmac HMACSHA256 secret canonical)) c = (c', None).
Proof.
  unfold sign_handle. cbv zeta. intros H.
  destruct (decide (secret = "")); [done|].
  destruct (decide (TrimSpace (req_Header r AdminDateHeader) = "")); [done|].
  destruct (verifyTimestamp _ _ _); [done|].
  destruct (decide (TrimSpace (req_Header r AdminSignatureHeader) = "")); [done|].
  destruct (AdminMaxBodySize <? req_ContentLength r); [done|].
  destruct (AdminMaxBodySize <? _); [done|].
  unfold ReadAll in *. destruct (fails (req_Body r)); [done|].
  destruct (canonicalAdminRequest sha256 r (data (req_Body r))) as [canonical|] eqn:Ec; [|done].
  destruct (decide (_ ≠ _)) as [|Hsig]; [done|]. apply dec_stable in Hsig.
  destruct (CheckAndStore _ _ c) as [c2 [|]] eqn:Es; [done|]. simplify_eq.
  split_and!; [done|done|]. exists canonical. split_and!; [done|exact Hsig|done].
Qed.

#[local] Ltac Zify.zify_post_hook ::= Z.to_euclidean_division_equations.

(** Two clocks that both find a date within the skew are close. *)
Lemma same_date_close t1 t2 date :
  0 ≤ Unix t1 < 2 ^ 62 → 0 ≤ Unix t2 < 2 ^ 62 →
  verifyTimestamp t1 date AdminTimestampSkew = None →
  verifyTimestamp t2 date AdminTimestampSkew = None →
  t2 < t1 + (2 * AdminTimestampSkew + 1) * Time.Second.
Proof.
  unfold verifyTimestamp. intros H1 H2. destruct (parseUnixTimestamp date) as [n|]; [|done].
  rewrite !wrap64_id by (unfold in_int64, min_int64, max_int64, AdminTimestampSkew; lia).
  cbv zeta. unfold AdminTimestampSkew, Unix, Time.Second, Time.Millisecond in *.
  repeat (case_match; [done|]). intros _ _.
  repeat match goal with H : (_ <? _) = false |- _ => apply Z.ltb_ge in H end. lia.
Qed.

#[local] Ltac Zify.zify_post_hook ::= idtac.

(** A signed admin request is carried out at most once. After a request
    was accepted, and after any other requests, one with the same canonical
    form and date is refused for ever: within two minutes by the replay cache
    and later by its date. The cache keeps signatures longer than the date
    stays valid, provided that less than 170 seconds pass between the date
    check of the second request and its replay check (its body arrives in
    between). *)
Theorem admin_request_once t1 t2 c c1 r1 r2 body hs :
  sign_handle hmac sha256 secret t1 c r1 = (c1, AdminNext body) →
  ttl c = adminReplayCacheTTL →
  canonicalAdminRequest sha256 r2 (data (req_Body r2)) = canonicalAdminRequest sha256 r1 (data (req_Body r1)) →
  TrimSpace (req_Header r2 AdminDateHeader) = TrimSpace (req_Header r1 AdminDateHeader) →
  0 ≤ Unix (a_date t1) < 2 ^ 62 → 0 ≤ Unix (a_date t2) < 2 ^ 62 →
  a_date t1 ≤ t_store (a_cache t1) →
  t_clean (a_cache t2) ≤ t_check (a_cache t2) < a_date t2 + 170 * Time.Second →
  Forall (λ h, t_clean (a_cache h.1) ≤ t_check (a_cache t2) ∧
               t_check (a_cache h.1) ≤ t_check (a_cache t2)) hs →
  ¬ ∃ c2 body2, sign_handle hmac sha256 secret t2 (admin_history c1 hs) r2 = (c2, AdminNext body2).
Proof.
  intros Ha Httl Hcan Hdate H1 H2 Hst Hck Hhs (c2 & body2 & Hb).
  apply sign_handle_next in Ha as (Hd1 & -> & can & Hcan1 & _ & Hs1).
  apply sign_handle_next in Hb as (Hd2 & -> & can2 & Hcan2 & _ & Hs2).
  rewrite Hcan, Hcan1 in Hcan2. injection Hcan2 as <-. rewrite Hdate in Hd2.
  pose proof (same_date_close _ _ _ H1 H2 Hd1 Hd2) as Hclose.
  destruct (CheckAndStore_stored _ _ _ _ Hs1) as [Hne He]. rewrite Httl in He.
  set (id := "admin:" +:+ _) in *. set (x := Time.Add (t_store (a_cache t1)) adminReplayCacheTTL) in *.
  assert (t_check (a_cache t2) < x) as Hx.
  { unfold x, Time.Add, adminReplayCacheTTL, AdminTimestampSkew, Time.Minute, Time.Second,
      Time.Millisecond in *. lia. }
  assert (entries (admin_history c1 hs) !! id = Some x) as Hk.
  { clear - He Hhs Hx. unfold admin_history. revert c1 He.
    induction Hhs as [|[t r] hs [Hc1 Hc2] _ IH]; intros c1 He; [done|]. simpl. apply IH.
    destruct (sign_handle_cache t c1 r) as [->|[id' ->]]; [done|].
    apply history_op_keeps; [done|]. simpl in *. lia. }
  revert Hs2. unfold CheckAndStore. rewrite decide_False by done. cbv zeta.
  rewrite (lookup_sweep _ _ _ _ Hk) by lia. by rewrite (proj2 (Before_true _ _)) by done.
Qed.
End admin.

(** ** The reader *)

(** Reading with a buffer of [n] bytes until the end of the file. *)
Fixpoint read_to_end (fuel : nat) (n : nat) (r : readSeekCloser) : string :=
  match fuel with
  | O => ""
  | S fuel => match Read n r with
              | (None, _) => ""
              | (Some chunk, r) => chunk +:+ read_to_end fuel n r
              end
  end.

Lemma substring_app_drop s n k :
  (n ≤ String.length s)%nat → substring n k s +:+ drop_str (n + String.length (substring n k s)) s = drop_str n s.
Proof.
  unfold drop_str. revert n k. induction s as [|c s IH]; intros n k Hn.
  - simpl in Hn. assert (n = 0)%nat as -> by lia. destruct k; reflexivity.
  - destruct n as [|n].
    + destruct k as [|k]; [done|]. cbn [substring String.length Nat.add Nat.sub].
      change (String c (substring 0 k s +:+ substring (0 + String.length (substring 0 k s))
        (String.length s - (0 + String.length (substring 0 k s))) s) =
        String c (substring 0 (String.length s) s)).
      f_equal. rewrite IH by lia. f_equal. lia.
    + cbn [substring String.length Nat.add Nat.sub]. apply IH. simpl in Hn. lia.
Qed.

(** Handlers read back the body that was verified: whatever the size of the
    buffer, reading to the end gives the bytes from the position on. *)
Theorem reader_gives_body fuel n r :
  (0 < n)%nat → 0 ≤ rs_pos r ≤ Z.of_nat (String.length (rs_data r)) →
  (String.length (rs_data r) < fuel + Z.to_nat (rs_pos r))%nat →
  read_to_end fuel n r = drop_str (Z.to_nat (rs_pos r)) (rs_data r).
Proof.
  intros Hn. revert r. induction fuel as [|fuel IH]; intros r Hp Hf; [lia|]. cbn [read_to_end].
  unfold Read. destruct (Z.leb_spec (Z.of_nat (String.length (rs_data r))) (rs_pos r)).
  - unfold drop_str. replace (String.length (rs_data r) - Z.to_nat (rs_pos r))%nat with 0%nat by lia.
    generalize (Z.to_nat (rs_pos r)) (rs_data r). clear.
    intros k s. revert k. induction s as [|c s IH]; intros [|k]; [done..|]. exact (IH k).
  - cbv zeta. set (chunk := substring _ _ _).
    assert (0 < String.length chunk ≤ String.length (rs_data r) - Z.to_nat (rs_pos r))%nat as Hc.
    { unfold chunk. assert (Z.to_nat (rs_pos r) < String.length (rs_data r))%nat as Hlt by lia.
      clear - Hn Hlt. revert Hlt. generalize (Z.to_nat (rs_pos r)) (rs_data r). intros k s.
      revert k n Hn. induction s as [|c s IH]; intros [|k] n Hn Hlt; simpl in Hlt; try lia.
      - destruct n as [|n]; [lia|]. cbn [substring String.length]. split; [lia|].
        assert (∀ n s, String.length (substring 0 n s) ≤ String.length s)%nat as Hle.
        { clear. intros n. induction n as [|n IHn]; intros [|c s]; simpl; try lia.
          specialize (IHn s). lia. }
        specialize (Hle n s). lia.
      - cbn [substring String.length]. specialize (IH k n Hn ltac:(lia)). lia. }
    rewrite IH; cbn [rs_data rs_pos]; [|lia|lia].
    rewrite Z2Nat.inj_add, Nat2Z.id by lia. unfold chunk. apply substring_app_drop. lia.
Qed.

(** ** Concrete deliveries

    A keyed function in place of HMAC. *)
Definition toy_hmac (alg key text : string) : string := key +:+ ":" +:+ text.

Definition example_headers (sig stamp id : string) (h : string) : string :=
  if decide (h = DefaultSignatureHeader) then sig
  else if decide (h = DefaultTimestampHeader) then stamp
  else if decide (h = DefaultEventIDHeader) then id
  else if decide (h = AdminSignatureHeader) then sig
  else if decide (h = AdminDateHeader) then stamp else "".

Definition example_request (sig stamp id body : string) : Request :=
  {| req_Method := "post"; req_Host := "api"; req_EscapedPath := "/x"; req_Query := "";
     req_Header := example_headers sig stamp id; req_ContentLength := 2;
     req_Body := {| data := body; fails := None |} |}.

Definition at_second (s : Z) : clock_readings :=
  {| r_sig := s * Time.Second; r_stamp := s * Time.Second; r_cache := at_ (s * Time.Second) |}.

Definition example_config : WebhookConfig := WithSecret "k" DefaultWebhookConfig.
Definition example_delivery : Request :=
  example_request (hex_encode "k:{}") "1700000000" "evt-1" "{}".

Lemma accepted_authentic_witness :
  signed_by toy_hmac example_config (1700000000 * Time.Second) "{}" (hex_encode "k:{}").
Proof.
  destruct (handle toy_hmac example_config (at_second 1700000000)
              (Some (NewEventIDCache 5)) example_delivery) as [cache' a] eqn:E.
  assert (a = Next (Some "evt-1") "generic" true "{}") as ->.
  { apply (f_equal snd) in E. vm_compute in E. by rewrite <- E. }
  assert (sane_clock (1700000000 * Time.Second) 300) as Hc by (vm_compute; split; [reflexivity|discriminate]).
  exact (proj1 (proj2 (proj2 (accepted_authentic toy_hmac example_config (at_second 1700000000) _ _ _ _ _ _ _
    ltac:(vm_compute; discriminate) Hc Hc E)))).
Defined.

Lemma captured_delivery_replayed_witness :
  ∃ c'', handle toy_hmac example_config (at_second 1800000000)
           (fst (handle toy_hmac example_config (at_second 1700000000)
                   (Some (NewEventIDCache (5 * Time.Minute))) example_delivery))
           (with_header DefaultEventIDHeader "evt-2" (with_header DefaultTimestampHeader "1800000000"
              example_delivery)) =
         (Some c'', Next (Some "evt-2") "generic" true "{}").
Proof.
  destruct (handle toy_hmac example_config (at_second 1700000000)
              (Some (NewEventIDCache (5 * Time.Minute))) example_delivery) as [cache' a] eqn:E.
  assert (a = Next (Some "evt-1") "generic" true "{}" ∧
          ∃ c, cache' = Some c ∧ entries c !! "evt-2" = None) as [-> (c & -> & Hc)].
  { split; [apply (f_equal snd) in E; vm_compute in E; by rewrite <- E|].
    apply (f_equal fst) in E. change (fst (cache', a)) with cache' in E. rewrite <- E. eexists.
    split; [vm_compute; reflexivity|vm_compute; reflexivity]. }
  apply (captured_delivery_replayed toy_hmac example_config _ _ _ _ _ _ _ "{}" _ c "evt-2" "1800000000" E);
    [discriminate|reflexivity|discriminate|apply (bool_decide_unpack _); vm_compute; exact I
    |discriminate|exact Hc|discriminate|vm_compute; reflexivity].
Defined.

Definition admin_at (s : Z) : admin_readings :=
  {| a_date := s * Time.Second; a_cache := at_ (s * Time.Second) |}.

(** A correctly signed admin request of a given date. *)
Definition example_admin (date : string) : Request :=
  let unsigned := example_request "" date "" "{}" in
  match canonicalAdminRequest (λ s, s) unsigned "{}" with
  | Ok canonical => example_request (hex_encode (toy_hmac HMACSHA256 "k" canonical)) date "" "{}"
  | Err _ => unsigned
  end.

Lemma admin_request_once_witness :
  let c := fst (RequestSigning toy_hmac (λ s, s) "k") in
  let c1 := fst (sign_handle toy_hmac (λ s, s) "k" (admin_at 1700000000) c (example_admin "1700000010")) in
  snd (sign_handle toy_hmac (λ s, s) "k" (admin_at 1700000000) c (example_admin "1700000010")) = AdminNext "{}" ∧
  ¬ ∃ c2 body2, sign_handle toy_hmac (λ s, s) "k" (admin_at 1700000060)
      (admin_history toy_hmac (λ s, s) "k" c1 [(admin_at 1700000030, example_admin "1700000031")])
      (example_admin "1700000010") = (c2, AdminNext body2).
Proof.
  intros c c1.
  assert (snd (sign_handle toy_hmac (λ s, s) "k" (admin_at 1700000000) c (example_admin "1700000010")) =
          AdminNext "{}") as Hs by (vm_compute; reflexivity).
  split; [exact Hs|].
  apply (admin_request_once toy_hmac (λ s, s) "k" (admin_at 1700000000) (admin_at 1700000060) c c1
           (example_admin "1700000010") (example_admin "1700000010") "{}").
  - rewrite <- Hs. apply surjective_pairing.
  - reflexivity.
  - reflexivity.
  - reflexivity.
  - vm_compute. split; [discriminate|reflexivity].
  - vm_compute. split; [discriminate|reflexivity].
  - vm_compute. discriminate.
  - vm_compute. split; [discriminate|reflexivity].
  - repeat constructor; vm_compute; discriminate.
Defined.

(** A signature written with its version, as the field's comment shows it
    ([v2=] and the digits), is never accepted under a version without the
    equals sign, which the default is: the sign stays and is no hex digit. *)
Theorem versioned_signature_refused hmac now payload digits cfg :
  SignatureVersion cfg = "v2" → contains_char "," digits = false →
  verifySignature hmac now payload ("v2=" +:+ digits) cfg = Some ErrInvalidHex.
Proof.
  intros Hv Hd. rewrite verifySignature_unfold. rewrite decide_False by done. cbv zeta.
  assert (strip_version ("v2=" +:+ digits) cfg = "=" +:+ digits) as ->.
  { unfold strip_version. rewrite Hv.
    change ("v2=" +:+ digits) with ("v2" +:+ ("=" +:+ digits)).
    replace (HasPrefix ("v2" +:+ ("=" +:+ digits)) "v2") with true.
    - cbn [negb andb bool_decide]. apply (TrimPrefix_app "v2" ("=" +:+ digits)).
    - unfold HasPrefix. cbn. by destruct digits. }
  rewrite contains_char_app, Hd. simpl. unfold verify_plain. destruct digits; reflexivity.
Qed.
