(* ===== verification/FeatureFlags.v ===== *)
(** * Feature flags

    Models [internal/featureflags/featureflags.go] (the manager: defaults,
    environment, database overrides, versioned updates, evaluation) and the
    gates of [internal/middleware/featureflags.go]. The environment is a list
    of assignments; [json.Unmarshal] of the flag object and the Unicode case
    mappings are parameters. *)
From Stdlib Require Import ZArith Lia Ascii String.
From stdpp Require Import base gmap strings list.
From S2P Require Import Prelude GoStrings.
#[local] Open Scope string_scope.
#[local] Open Scope Z_scope.

Record Flag := {
  Name : string;
  Enabled : bool;
  Description : string;
  UpdatedAt : Time;
  Version : Z;
}.

Record Manager := { flags : gmap string Flag; db : gmap string bool }.

Definition NewManager : Manager := {| flags := ∅; db := ∅ |}.

Definition set_flags (fs : gmap string Flag) (m : Manager) : Manager := {| flags := fs; db := db m |}.

(** ** Loading *)
Definition default_flag (now : Time) (name : string) (enabled : bool) (description : string) (version : Z)
    : string * Flag :=
  (name, {| Name := name; Enabled := enabled; Description := description; UpdatedAt := now; Version := version |}).

Definition defaultFlags (now : Time) : list (string * Flag) :=
  [default_flag now "subscriptions_enabled" true "Enable subscription management endpoints" 0;
   default_flag now "plans_enabled" true "Enable billing plans endpoints" 0;
   default_flag now "new_billing_flow" false "Enable new billing flow feature" 0;
   default_flag now "advanced_analytics" false "Enable advanced analytics endpoints" 0;
   default_flag now "fault_injection_enabled" false "Enable fault injection middleware for resilience testing" now;
   default_flag now "statements_partitioning_enabled" false
     "Enable partitioning of statements table by month for scale" 0].

Definition LoadDefaultFlags (now : Time) (m : Manager) : Manager :=
  set_flags (foldl (λ fs '(name, flag), <[name := flag]> fs) (flags m) (defaultFlags now)) m.

(** An assignment of the environment to one flag: an existing flag keeps its
    version. *)
Definition env_flag (now : Time) (description name : string) (enabled : bool) (m : Manager) : Manager :=
  match flags m !! name with
  | Some flag =>
      set_flags (<[name := {| Name := Name flag; Enabled := enabled; Description := Description flag;
                              UpdatedAt := now; Version := Version flag |}]> (flags m)) m
  | None =>
      set_flags (<[name := {| Name := name; Enabled := enabled; Description := description;
                              UpdatedAt := now; Version := now |}]> (flags m)) m
  end.

(** The environment: [os.Environ()] lists its assignments as [key=value],
    [os.LookupEnv] finds the value of a key. *)
Definition environment : Type := list (string * string).
Definition Environ (e : environment) : list string := map (λ '(k, v), k +:+ "=" +:+ v) e.
Fixpoint LookupEnv (e : environment) (key : string) : option string :=
  match e with
  | [] => None
  | (k, v) :: e => if decide (k = key) then Some v else LookupEnv e key
  end.
Definition Getenv (e : environment) (key : string) : string := default "" (LookupEnv e key).

Section flags.
Context `{GoRuntime} (Unmarshal : string → option (gmap string bool)).
Context (ToUpper ToLower : string → string).

Definition load_json (now : Time) (e : environment) (m : Manager) : Manager :=
  let flagsJSON := Getenv e "FEATURE_FLAGS" in
  if decide (flagsJSON = "") then m
  else match Unmarshal flagsJSON with
  | Some envFlags =>
      foldl (λ m '(name, enabled), env_flag now "Environment-defined flag" name enabled m) m (map_range envFlags)
  | None => m
  end.

Definition load_assignment (now : Time) (m : Manager) (env : string) : Manager :=
  if HasPrefix env "FF_" then
    match cut_char "=" env with
    | Some (key, flagValue) =>
        match ParseBool flagValue with
        | Some enabled => env_flag now "Environment flag" (ToLower (TrimPrefix key "FF_")) enabled m
        | None => m
        end
    | None => m
    end
  else m.

Definition LoadFromEnvironment (now : Time) (e : environment) (m : Manager) : Manager :=
  foldl (load_assignment now) (load_json now e m) (Environ e).

Definition ReloadFromEnvironment : Time → environment → Manager → Manager := LoadFromEnvironment.

(** The instance the package functions share, after its [once]. *)
Definition GetInstance (now : Time) (e : environment) : Manager :=
  LoadFromEnvironment now e (LoadDefaultFlags now NewManager).

Definition SetDBFlag (flagName : string) (enabled : bool) (m : Manager) : Manager :=
  {| flags := flags m; db := <[flagName := enabled]> (db m) |}.

(** ** Evaluation *)
Definition IsEnabled (e : environment) (m : Manager) (flagName : string) : bool :=
  let from_env :=
    match LookupEnv e ("FF_" +:+ ToUpper flagName) with
    | Some val => ParseBool val
    | None => None
    end in
  match from_env with
  | Some value => value
  | None =>
      match db m !! flagName with
      | Some value => value
      | None =>
          match flags m !! flagName with
          | Some flag =>
              let value := Enabled flag in
              if Contains (Name flag) "subscriptions" && negb value then true else value
          | None => false
          end
      end
  end.

Definition IsEnabledWithDefault (m : Manager) (flagName : string) (defaultValue : bool) : bool :=
  match flags m !! flagName with Some flag => Enabled flag | None => defaultValue end.

Definition GetFlag (m : Manager) (flagName : string) : option Flag := flags m !! flagName.
Definition GetAllFlags (m : Manager) : gmap string Flag := flags m.

(** ** Updates *)
Definition SetFlagWithVersion (now : Time) (flagName : string) (enabled : bool) (description : string)
    (version : Z) (m : Manager) : Manager * bool :=
  match flags m !! flagName with
  | Some flag =>
      if version <=? Version flag then (m, false)
      else
        (set_flags (<[flagName := {| Name := Name flag; Enabled := enabled;
                                     Description := if decide (description = "") then Description flag
                                                    else description;
                                     UpdatedAt := now; Version := version |}]> (flags m)) m, true)
  | None =>
      (set_flags (<[flagName := {| Name := flagName; Enabled := enabled; Description := description;
                                   UpdatedAt := now; Version := version |}]> (flags m)) m, true)
  end.

Definition SetFlag (now : Time) (flagName : string) (enabled : bool) (description : string) (m : Manager)
    : Manager :=
  fst (SetFlagWithVersion now flagName enabled description now m).

(** ** The gates of the middleware

    [Pass] lets the request through; the other answers end it. *)
Inductive gate :=
| Pass
| Misconfigured
| Unavailable (flagName : string)
| NoneAvailable (flagNames : list string)
| Missing (flagName : string) (flagNames : list string)
| Custom.

Record FeatureFlagOptions := { FlagName : string; DefaultEnabled : bool; CustomResponse : bool }.

Definition FeatureFlagWithOptions (m : Manager) (options : FeatureFlagOptions) : gate :=
  if decide (FlagName options = "") then Misconfigured
  else if IsEnabledWithDefault m (FlagName options) (DefaultEnabled options) then Pass
  else if CustomResponse options then Custom else Unavailable (FlagName options).

Definition FeatureFlag (m : Manager) (flagName : string) : gate :=
  FeatureFlagWithOptions m {| FlagName := flagName; DefaultEnabled := false; CustomResponse := false |}.

Definition FeatureFlagWithDefault (m : Manager) (flagName : string) (defaultEnabled : bool) : gate :=
  FeatureFlagWithOptions m
    {| FlagName := flagName; DefaultEnabled := defaultEnabled; CustomResponse := false |}.

(** [condition] is the answer of the function on the request, when there is
    one. *)
Definition ConditionalFeatureFlag (e : environment) (m : Manager) (flagName : string) (condition : option bool)
    : gate :=
  match condition with
  | Some false => Pass
  | _ => if IsEnabled e m flagName then Pass else Unavailable flagName
  end.

Definition RequireAnyFeatureFlag (e : environment) (m : Manager) (flagNames : list string) : gate :=
  match flagNames with
  | [] => Misconfigured
  | _ => if any (IsEnabled e m) flagNames then Pass else NoneAvailable flagNames
  end.

Fixpoint first_missing (e : environment) (m : Manager) (names all : list string) : gate :=
  match names with
  | [] => Pass
  | flagName :: names =>
      if negb (IsEnabled e m flagName) then Missing flagName all else first_missing e m names all
  end.

Definition RequireAllFeatureFlags (e : environment) (m : Manager) (flagNames : list string) : gate :=
  match flagNames with
  | [] => Misconfigured
  | _ => first_missing e m flagNames flagNames
  end.
End flags.

(** ** Last writer wins

    Managers are compared by what updates decide: the name, the state and the
    version of each flag. The time of the update and a description that an
    update may leave alone are not compared. *)
Definition core (f : Flag) : string * bool * Z := (Name f, Enabled f, Version f).

#[export] Instance manager_equiv : Equiv Manager :=
  λ m1 m2, core <$> flags m1 = core <$> flags m2 ∧ db m1 = db m2.

#[export] Instance manager_equivalence : Equivalence (≡@{Manager}).
Proof.
  split.
  - done.
  - intros m1 m2 [H1 H2]. done.
  - intros m1 m2 m3 [H1 H2] [H3 H4]. split; congruence.
Qed.

Record update := {
  u_now : Time; u_name : string; u_enabled : bool; u_description : string; u_version : Z;
}.

Definition apply_update (u : update) (m : Manager) : Manager :=
  fst (SetFlagWithVersion (u_now u) (u_name u) (u_enabled u) (u_description u) (u_version u) m).

(** The update on the compared part. *)
Definition core_update (u : update) (cs : gmap string (string * bool * Z)) : gmap string (string * bool * Z) :=
  match cs !! u_name u with
  | Some (n, _, v) => if u_version u <=? v then cs else <[u_name u := (n, u_enabled u, u_version u)]> cs
  | None => <[u_name u := (u_name u, u_enabled u, u_version u)]> cs
  end.

Lemma apply_update_core u m :
  core <$> flags (apply_update u m) = core_update u (core <$> flags m) ∧ db (apply_update u m) = db m.
Proof.
  unfold apply_update, SetFlagWithVersion, core_update. rewrite lookup_fmap.
  destruct (flags m !! u_name u) as [f|] eqn:Ef; simpl.
  - destruct (u_version u <=? Version f) eqn:Ev; simpl; [done|]. by rewrite fmap_insert.
  - by rewrite fmap_insert.
Qed.

#[export] Instance apply_update_proper u : Proper ((≡) ==> (≡)) (apply_update u).
Proof.
  intros m1 m2 [Hf Hd]. destruct (apply_update_core u m1) as [H1 H2], (apply_update_core u m2) as [H3 H4].
  split; congruence.
Qed.

Lemma core_update_comm u1 u2 cs :
  u_name u1 ≠ u_name u2 ∨ u_version u1 ≠ u_version u2 →
  core_update u1 (core_update u2 cs) = core_update u2 (core_update u1 cs).
Proof.
  intros Hne. destruct (decide (u_name u1 = u_name u2)) as [E|Hn].
  - destruct Hne as [?|Hv]; [done|]. unfold core_update. rewrite E.
    destruct (cs !! u_name u2) as [[[n b] v]|] eqn:Ec.
    + destruct (Z.leb_spec (u_version u2) v), (Z.leb_spec (u_version u1) v);
        rewrite ?Ec, ?lookup_insert_eq;
        repeat match goal with |- context [?a <=? ?b] => destruct (Z.leb_spec a b) end;
        try lia; try done; by rewrite !insert_insert_eq.
    + rewrite !lookup_insert_eq.
      destruct (Z.leb_spec (u_version u1) (u_version u2)), (Z.leb_spec (u_version u2) (u_version u1)); try lia;
        by rewrite insert_insert_eq.
  - unfold core_update. assert (u_name u2 ≠ u_name u1) by done.
    destruct (cs !! u_name u1) as [[[n1 b1] v1]|] eqn:E1, (cs !! u_name u2) as [[[n2 b2] v2]|] eqn:E2;
      repeat match goal with |- context [?a <=? ?b] => destruct (Z.leb_spec a b) end;
      rewrite ?lookup_insert_ne, ?E1, ?E2 by done;
      repeat match goal with |- context [?a <=? ?b] => destruct (Z.leb_spec a b) end;
      try lia; try done; by apply insert_insert_ne.
Qed.

(** Versioned updates converge. Whatever order the same updates arrive in,
    when no two updates of a flag carry the same version, the flags end in the
    same state and version: each in that of its newest update. *)
Theorem updates_converge us1 us2 m :
  us1 ≡ₚ us2 →
  (∀ i j u1 u2, i ≠ j → us1 !! i = Some u1 → us1 !! j = Some u2 →
     u_name u1 ≠ u_name u2 ∨ u_version u1 ≠ u_version u2) →
  foldr apply_update m us1 ≡ foldr apply_update m us2.
Proof.
  intros Hp Hd. refine (foldr_permutation (≡) apply_update m us1 us2 _ Hp).
  intros i u1 j u2 b Hij H1 H2. specialize (Hd i j u1 u2 Hij H1 H2).
  destruct (apply_update_core u1 (apply_update u2 b)) as [C1 D1].
  destruct (apply_update_core u2 (apply_update u1 b)) as [C2 D2].
  destruct (apply_update_core u2 b) as [C3 D3], (apply_update_core u1 b) as [C4 D4].
  split; [|congruence]. rewrite C1, C2, C3, C4. by apply core_update_comm.
Qed.

Lemma updates_converge_witness :
  let on v := {| u_now := v; u_name := "f"; u_enabled := true; u_description := ""; u_version := v |} in
  let off v := {| u_now := v; u_name := "f"; u_enabled := false; u_description := "x"; u_version := v |} in
  foldr apply_update NewManager [on 3; off 5; on 4] ≡ foldr apply_update NewManager [off 5; on 4; on 3].
Proof.
  intros on off. apply updates_converge; [solve_Permutation|].
  intros i j u1 u2 Hij H1 H2. right.
  destruct i as [|[|[|i]]], j as [|[|[|j]]]; simplify_eq/=; lia.
Defined.

(** The newest update decides: an update newer than everything the flag has
    seen takes effect, an older one changes nothing. *)
Lemma apply_update_newer u m f :
  flags m !! u_name u = Some f → Version f < u_version u →
  ∃ f', flags (apply_update u m) !! u_name u = Some f' ∧ Enabled f' = u_enabled u ∧
    Version f' = u_version u.
Proof.
  intros Hf Hv. unfold apply_update, SetFlagWithVersion. rewrite Hf.
  replace (u_version u <=? Version f) with false by lia. simpl. rewrite lookup_insert_eq. eauto.
Qed.

(** ** What the gates read *)
Section gates.
Context (ToUpper : string → string) (e : environment).

(** The two evaluations disagree. A flag switched off by a database
    override is off for [IsEnabled], and the route gate [FeatureFlag] still
    lets requests through; a protected flag switched off in the configuration
    is on for [IsEnabled], and [FeatureFlag] blocks it. *)
Theorem route_gate_ignores_layers m flagName f :
  flagName ≠ "" → LookupEnv e ("FF_" +:+ ToUpper flagName) = None → flags m !! flagName = Some f →
  (Enabled f = true →
   IsEnabled ToUpper e (SetDBFlag flagName false m) flagName = false ∧
   FeatureFlag (SetDBFlag flagName false m) flagName = Pass) ∧
  (Enabled f = false → Contains (Name f) "subscriptions" = true → db m !! flagName = None →
   IsEnabled ToUpper e m flagName = true ∧ FeatureFlag m flagName = Unavailable flagName).
Proof.
  intros Hne He Hf. unfold IsEnabled, FeatureFlag, FeatureFlagWithOptions, IsEnabledWithDefault.
  rewrite He. cbn [SetDBFlag flags db FlagName DefaultEnabled CustomResponse].
  rewrite lookup_insert_eq, Hf, !decide_False by done. split.
  - intros ->. done.
  - intros -> -> ->. done.
Qed.

Lemma RequireAll_exact m names :
  RequireAllFeatureFlags ToUpper e m names = Pass ↔
  names ≠ [] ∧ Forall (λ n, IsEnabled ToUpper e m n = true) names.
Proof.
  unfold RequireAllFeatureFlags. destruct names as [|n0 ns]; [by split; [|intros [? _]]|].
  generalize (n0 :: ns) at 2 as all. intros all. split.
  - intros H. split; [done|]. revert H. generalize (n0 :: ns). intros l. induction l as [|x l IH]; simpl;
      [constructor|]. destruct (IsEnabled ToUpper e m x) eqn:Ex; simpl; [|done]. by constructor; [|apply IH].
  - intros [_ H]. revert H. generalize (n0 :: ns). intros l H. induction H as [|x l Hx _ IH]; simpl; [done|].
    by rewrite Hx.
Qed.
End gates.

Lemma route_gate_ignores_layers_witness :
  let m := LoadDefaultFlags 7 NewManager in
  IsEnabled ToUpper [] (SetDBFlag "plans_enabled" false m) "plans_enabled" = false ∧
  FeatureFlag (SetDBFlag "plans_enabled" false m) "plans_enabled" = Pass.
Proof.
  intros m. eapply (route_gate_ignores_layers ToUpper [] m "plans_enabled");
    [discriminate|reflexivity|vm_compute; reflexivity|reflexivity].
Defined.
