(* ===== verification/PartitionRollover.v ===== *)
(** * Monthly partitions of the statements table

    Models [internal/worker/partition_rollover_job.go]: configuration, one
    rollover cycle (creating the partitions of the coming months and detaching
    old ones), its bookkeeping and the SQL its store sends; and the partition
    name of [internal/repository/partition.go].

    The database is a parameter: a class of the store's operations, which may
    fail, and a class of the laws they obey when they do not. *)
From Stdlib Require Import ZArith Lia Ascii String.
From stdpp Require Import base gmap strings list.
From S2P Require Import Prelude GoStrings GoTime.
#[local] Open Scope string_scope.
#[local] Open Scope Z_scope.

Record PartitionRolloverConfig := {
  PollInterval : Duration;
  RolloverTimeout : Duration;
  ShutdownTimeout : Duration;
  LookaheadMonths : Z;
  DetachThresholdMonths : Z;
  ParentTable : string;
  PartitionPrefix : string;
  Cooldown : Duration;
}.

Definition DefaultPartitionRolloverConfig : PartitionRolloverConfig :=
  {| PollInterval := 24 * Time.Hour; RolloverTimeout := 5 * Time.Minute;
     ShutdownTimeout := 30 * Time.Second; LookaheadMonths := 1; DetachThresholdMonths := 24;
     ParentTable := "statements_partitioned"; PartitionPrefix := "statements_p";
     Cooldown := 1 * Time.Hour |}.

Definition withDefaults (c : PartitionRolloverConfig) : PartitionRolloverConfig :=
  let d := DefaultPartitionRolloverConfig in
  let pos f := if f c <=? 0 then f d else f c in
  let nonempty f := if decide (f c = "") then f d else f c in
  {| PollInterval := pos PollInterval; RolloverTimeout := pos RolloverTimeout;
     ShutdownTimeout := pos ShutdownTimeout; LookaheadMonths := pos LookaheadMonths;
     DetachThresholdMonths := pos DetachThresholdMonths;
     ParentTable := nonempty ParentTable; PartitionPrefix := nonempty PartitionPrefix;
     Cooldown := pos Cooldown |}.

(** ** The store *)
Class PartitionRolloverStore (S : Type) := {
  LastRolloverAt : S → S * result string (option Time);
  MarkRolloverDone : Time → S → S * option string;
  PartitionExists : string → string → S → S * result string bool;
  CreatePartition : string → string → string → string → S → S * option string;
  DetachPartition : string → string → S → S * option string;
  ListPartitions : string → S → S * result string (list string);
}.

(** What the job relies on, for the children of one parent table and their
    bounds: a call that reports success did what it says, a call that fails
    left the children alone. *)
Class PartitionRolloverLaws (S : Type) `{PartitionRolloverStore S} (parent : string)
    (children : S → gmap string (string * string)) : Prop := {
  last_keeps s : children (fst (LastRolloverAt s)) = children s;
  mark_keeps at_ s : children (fst (MarkRolloverDone at_ s)) = children s;
  exists_keeps n s : children (fst (PartitionExists parent n s)) = children s;
  exists_ok n s b : snd (PartitionExists parent n s) = Ok b → b = bool_decide (is_Some (children s !! n));
  create_ok n f t s : snd (CreatePartition parent n f t s) = None →
    children (fst (CreatePartition parent n f t s)) = <[n := (f, t)]> (children s);
  create_err n f t s e : snd (CreatePartition parent n f t s) = Some e →
    children (fst (CreatePartition parent n f t s)) = children s;
  detach_ok n s : snd (DetachPartition parent n s) = None →
    children (fst (DetachPartition parent n s)) = delete n (children s);
  detach_err n s e : snd (DetachPartition parent n s) = Some e →
    children (fst (DetachPartition parent n s)) = children s;
  list_keeps s : children (fst (ListPartitions parent s)) = children s;
  list_ok s l : snd (ListPartitions parent s) = Ok l → l ≡ₚ (map_to_list (children s)).*1;
}.

(** ** Names *)
Definition partitionName (c : PartitionRolloverConfig) (t : Time) : string :=
  let '(y, m, _) := civil t in
  PartitionPrefix c +:+ Itoa y +:+ "_" +:+ pad2 m "".

(** [strings.TrimRight(s, "_")] *)
Fixpoint trim_underscores (s : string) : string :=
  match s with
  | EmptyString => EmptyString
  | String c s' =>
      match trim_underscores s' with
      | EmptyString => if decide (c = "_"%char) then EmptyString else String c EmptyString
      | r => String c r
      end
  end.

Definition defaultPartitionName (c : PartitionRolloverConfig) : string :=
  trim_underscores (PartitionPrefix c) +:+ "_default".

(** [time.Parse("2006_01", s)]: four digits of a year, an underscore and two
    digits of a month. *)
Definition parse_year_month (s : string) : option Time :=
  '(y, s) ← get_year s; s ← literal "_" s;
  '(m, s) ← getnum true s ≫= in_range 1 12;
  match s with EmptyString => Some (Date y m 1 0 0 0 0) | _ => None end.

Definition parsePartitionDate (c : PartitionRolloverConfig) (name : string) : option Time :=
  if HasPrefix name (PartitionPrefix c) then parse_year_month (TrimPrefix name (PartitionPrefix c))
  else None.

(** ** SQL of the production store *)

(** Every quote, the byte 34, is doubled. *)
Definition quote_byte : ascii := byte_of 34.
Fixpoint double_quotes (s : string) : string :=
  match s with
  | EmptyString => EmptyString
  | String c s =>
      if decide (c = quote_byte) then String c (String c (double_quotes s)) else String c (double_quotes s)
  end.

Definition quoteIdent (name : string) : string :=
  String quote_byte (double_quotes name +:+ String quote_byte EmptyString).

Definition create_query (parentTable name fromDate toDate : string) : string :=
  "CREATE TABLE " +:+ quoteIdent name +:+ " PARTITION OF " +:+ quoteIdent parentTable +:+
  " FOR VALUES FROM ('" +:+ fromDate +:+ "') TO ('" +:+ toDate +:+ "')".

Definition detach_query (parentTable name : string) : string :=
  "ALTER TABLE " +:+ quoteIdent parentTable +:+ " DETACH PARTITION " +:+ quoteIdent name.

(** ** The job *)
Section rollover.
Context {S : Type} `{PartitionRolloverStore S} (cfg : PartitionRolloverConfig).

(** The months to come, in order: [months] counts up from [m]. *)
Fixpoint create_loop (months : nat) (m : Z) (now : Time) (created : Z) (s : S) : S * result string Z :=
  match months with
  | O => (s, Ok created)
  | Datatypes.S months =>
      let '(y, mo, _) := civil now in
      let next := Date y (mo + m) 1 0 0 0 0 in
      let name := partitionName cfg next in
      match PartitionExists (ParentTable cfg) name s with
      | (s, Err e) => (s, Err ("check partition " +:+ name +:+ ": " +:+ e))
      | (s, Ok true) => create_loop months (m + 1) now created s
      | (s, Ok false) =>
          let fromDate := FormatRFC3339 next in
          let toDate := FormatRFC3339 (AddDate next 0 1 0) in
          match CreatePartition (ParentTable cfg) name fromDate toDate s with
          | (s, Some e) => (s, Err ("create partition " +:+ name +:+ ": " +:+ e))
          | (s, None) => create_loop months (m + 1) now (created + 1) s
          end
      end
  end.

Definition detachable (threshold : Time) (p : string) : bool :=
  if decide (p = defaultPartitionName cfg) then false
  else match parsePartitionDate cfg p with
  | Some parsed => Time.Before parsed threshold
  | None => false
  end.

Fixpoint detach_loop (partitions : list string) (threshold : Time) (detached : Z) (s : S)
    : S * result string Z :=
  match partitions with
  | [] => (s, Ok detached)
  | p :: partitions =>
      if detachable threshold p then
        match DetachPartition (ParentTable cfg) p s with
        | (s, Some e) => (s, Err ("detach partition " +:+ p +:+ ": " +:+ e))
        | (s, None) => detach_loop partitions threshold (detached + 1) s
        end
      else detach_loop partitions threshold detached s
  end.

Definition doRollover (now : Time) (s : S) : S * result string (Z * Z) :=
  match create_loop (Z.to_nat (LookaheadMonths cfg)) 1 now 0 s with
  | (s, Err e) => (s, Err e)
  | (s, Ok created) =>
      if 0 <? DetachThresholdMonths cfg then
        let threshold := AddDate now 0 (- DetachThresholdMonths cfg) 0 in
        match ListPartitions (ParentTable cfg) s with
        | (s, Err e) => (s, Err ("list partitions: " +:+ e))
        | (s, Ok partitions) =>
            match detach_loop partitions threshold 0 s with
            | (s, Err e) => (s, Err e)
            | (s, Ok detached) => (s, Ok (created, detached))
            end
        end
      else (s, Ok (created, 0))
  end.

(** The statistics of the job. *)
Record stats := {
  rolloverCount : Z;
  failedCount : Z;
  partitionsAdded : Z;
  partitionsGone : Z;
  lastRunTime : Time;
  lastRunError : option string;
  consecutiveErrs : Z;
}.

Definition recordError (err : string) (j : stats) : stats :=
  {| rolloverCount := rolloverCount j; failedCount := failedCount j + 1;
     partitionsAdded := partitionsAdded j; partitionsGone := partitionsGone j;
     lastRunTime := lastRunTime j; lastRunError := Some err;
     consecutiveErrs := consecutiveErrs j + 1 |}.

Definition runRolloverCycle (now : Time) (j : stats) (s : S) : S * stats * option string :=
  match LastRolloverAt s with
  | (s, Err e) => (s, j, Some ("read last rollover time: " +:+ e))
  | (s, Ok lastRun) =>
      let recent := match lastRun with Some at_ => Time.Sub now at_ <? Cooldown cfg | None => false end in
      if recent then (s, j, None)
      else match doRollover now s with
      | (s, Err e) => (s, j, Some ("rollover: " +:+ e))
      | (s, Ok (created, detached)) =>
          match MarkRolloverDone now s with
          | (s, Some e) => (s, j, Some ("mark rollover done: " +:+ e))
          | (s, None) =>
              (s, {| rolloverCount := rolloverCount j + 1; failedCount := failedCount j;
                     partitionsAdded := partitionsAdded j + created;
                     partitionsGone := partitionsGone j + detached;
                     lastRunTime := now; lastRunError := None; consecutiveErrs := 0 |}, None)
          end
      end
  end.

(** [rolloverOnce] without a leader guard (see [Leader] for the guard). *)
Definition rolloverOnce (now : Time) (j : stats) (s : S) : S * stats :=
  match runRolloverCycle now j s with
  | (s, j, None) => (s, j)
  | (s, j, Some e) => (s, recordError ("rollover: " +:+ e) j)
  end.

Definition Health (running : Z) (j : stats) : option string :=
  if negb (running =? 1) then Some "partition rollover job is not running"
  else if 5 <? consecutiveErrs j then
    Some ("partition rollover job has " +:+ Itoa (consecutiveErrs j) +:+ " consecutive errors")
  else None.
End rollover.

(** ** Names and months *)
Section facts.
Context {S : Type} `{PartitionRolloverStore S} (cfg : PartitionRolloverConfig).
Context (children : S → gmap string (string * string)).
Context `{!PartitionRolloverLaws S (ParentTable cfg) children}.
Implicit Types (s : S) (now : Time).

(** The name and the bounds of the partition of a month, by its number. *)
Definition name_of (i : Z) : string := partitionName cfg (month_time i).
Definition bounds_of (i : Z) : string * string :=
  (FormatRFC3339 (month_time i), FormatRFC3339 (month_time (i + 1))).

Lemma Date_first now k :
  (let '(y, m, _) := civil now in Date y (m + k) 1 0 0 0 0) = month_time (month_number now + k).
Proof.
  unfold month_number. destruct (civil now) as [[y m] d]. rewrite Date_month.
  replace (12 * y + (m + k) - 1) with (12 * y + m - 1 + k) by lia.
  change (((1 - 1) * 24 + 0) * 3600 + 0 * 60 + 0) with 0. lia.
Qed.

Lemma month_number_month i : month_number (month_time i) = i.
Proof.
  apply month_number_unique. split; [lia|]. apply (proj1 (month_time_lt _ _)). lia.
Qed.

Lemma AddDate_next_month i : AddDate (month_time i) 0 1 0 = month_time (i + 1).
Proof. rewrite AddDate_month, month_number_month. lia. Qed.

(** The partition of month [i] is there afterwards; an existing one is left
    as it was. *)
Definition ensure (cs : gmap string (string * string)) (i : Z) : gmap string (string * string) :=
  match cs !! name_of i with Some _ => cs | None => <[name_of i := bounds_of i]> cs end.

Lemma ensure_keeps cs i n b : cs !! n = Some b → ensure cs i !! n = Some b.
Proof.
  unfold ensure. intros Hn. destruct (cs !! name_of i) eqn:E; [done|].
  rewrite lookup_insert_ne; [done|]. intros <-. congruence.
Qed.

Lemma ensure_has cs i : is_Some (ensure cs i !! name_of i).
Proof. unfold ensure. destruct (cs !! name_of i) eqn:E; [by rewrite E|]. rewrite lookup_insert_eq. eauto. Qed.

Lemma ensure_new cs i n b :
  ensure cs i !! n = Some b → cs !! n = Some b ∨ (cs !! n = None ∧ n = name_of i ∧ b = bounds_of i).
Proof.
  unfold ensure. destruct (cs !! name_of i) eqn:E; [by left|].
  destruct (decide (n = name_of i)) as [->|].
  - rewrite lookup_insert_eq. intros [= <-]. by right.
  - rewrite lookup_insert_ne by done. by left.
Qed.

Definition ensure_all (cs : gmap string (string * string)) (js : list Z) := foldl ensure cs js.

Lemma ensure_all_keeps js cs n b : cs !! n = Some b → ensure_all cs js !! n = Some b.
Proof.
  revert cs. induction js as [|i js IH]; intros cs Hn; [done|]. simpl. apply IH. by apply ensure_keeps.
Qed.

Lemma ensure_all_has js cs i : i ∈ js → is_Some (ensure_all cs js !! name_of i).
Proof.
  revert cs. induction js as [|j js IH]; intros cs Hi; [by apply elem_of_nil in Hi|].
  apply elem_of_cons in Hi as [->|Hi]; simpl; [|by apply IH].
  destruct (ensure_has cs j) as [b Hb]. exists b. by apply (ensure_all_keeps js (ensure cs j)).
Qed.

Lemma ensure_all_new js cs n b :
  ensure_all cs js !! n = Some b →
  cs !! n = Some b ∨ (cs !! n = None ∧ ∃ i, i ∈ js ∧ n = name_of i ∧ b = bounds_of i).
Proof.
  revert cs. induction js as [|j js IH]; intros cs Hn; simpl in Hn; [by left|].
  destruct (IH _ Hn) as [Hj|(Hj & i & Hi & -> & ->)].
  - destruct (ensure_new _ _ _ _ Hj) as [?|(? & -> & ->)]; [by left|]. right. split; [done|].
    exists j. split; [left|done].
  - right. split; [|exists i; split; [by right|done]].
    destruct (cs !! name_of i) as [c|] eqn:E; [|done].
    by rewrite (ensure_keeps _ j _ _ E) in Hj.
Qed.

Lemma create_loop_ok months m now created s s' created' :
  create_loop cfg months m now created s = (s', Ok created') →
  children s' = ensure_all (children s) ((λ k, month_number now + k) <$> seqZ m (Z.of_nat months)) ∧
  created' = created + (Z.of_nat (size (children s')) - Z.of_nat (size (children s))).
Proof.
  revert m created s. induction months as [|months IH]; intros m created s Hc.
  - simpl in Hc. simplify_eq. split; [done|lia].
  - rewrite Nat2Z.inj_succ, seqZ_cons by lia. rewrite Z.pred_succ. cbn [fmap list_fmap foldl ensure_all].
    cbn [create_loop] in Hc. pose proof (Date_first now m) as Hd.
    destruct (civil now) as [[y mo] d]. rewrite Hd in Hc. cbv zeta in Hc.
    set (i := month_number now + m) in *. fold (name_of i) in Hc.
    destruct (PartitionExists (ParentTable cfg) (name_of i) s) as [s1 [ex|]] eqn:Ee; [|done].
    pose proof (exists_keeps (name_of i) s) as Hk. pose proof (exists_ok (name_of i) s ex) as Hex.
    rewrite Ee in Hk, Hex. simpl in Hk. specialize (Hex eq_refl).
    change (foldl ensure ?x ?l) with (ensure_all x l).
    destruct ex.
    + symmetry in Hex. apply bool_decide_eq_true in Hex as [b Hb].
      destruct (IH _ _ _ Hc) as [H1 H2]. rewrite Hk in H1, H2. split; [|done].
      unfold ensure. by rewrite Hb, H1.
    + symmetry in Hex. apply bool_decide_eq_false in Hex. apply eq_None_not_Some in Hex.
      destruct (CreatePartition _ _ _ _ s1) as [s2 [e|]] eqn:Ec; [done|].
      pose proof (create_ok (name_of i) _ _ s1 ltac:(by rewrite Ec)) as Hcr. rewrite Ec in Hcr. simpl in Hcr.
      rewrite AddDate_next_month, Hk in Hcr. fold (bounds_of i) in Hcr.
      destruct (IH _ _ _ Hc) as [H1 H2]. rewrite Hcr in H1, H2. unfold ensure. rewrite Hex.
      split; [done|]. rewrite map_size_insert_None in H2 by done. lia.
Qed.

Lemma detach_loop_ok ps threshold detached s s' detached' :
  NoDup ps → (∀ p, p ∈ ps → is_Some (children s !! p)) →
  detach_loop cfg ps threshold detached s = (s', Ok detached') →
  children s' = filter (λ '(n, _), ¬ (n ∈ ps ∧ detachable cfg threshold n = true)) (children s) ∧
  detached' = detached + (Z.of_nat (size (children s)) - Z.of_nat (size (children s'))).
Proof.
  revert detached s. induction ps as [|p ps IH]; intros detached s Hnd Hin Hd.
  - simpl in Hd. simplify_eq. split; [|lia]. symmetry. apply map_filter_id.
    intros n b _ [Hn _]. by apply elem_of_nil in Hn.
  - apply NoDup_cons in Hnd as [Hp Hnd]. cbn [detach_loop] in Hd.
    destruct (detachable cfg threshold p) eqn:Ep.
    + destruct (DetachPartition (ParentTable cfg) p s) as [s1 [e|]] eqn:Ed; [done|].
      pose proof (detach_ok p s ltac:(by rewrite Ed)) as Hs1. rewrite Ed in Hs1. simpl in Hs1.
      destruct (Hin p) as [b Hb]; [left|].
      assert (∀ q, q ∈ ps → is_Some (children s1 !! q)) as Hin1.
      { intros q Hq. rewrite Hs1, lookup_delete_ne by (intros ->; done). apply Hin. by right. }
      destruct (IH _ _ Hnd Hin1 Hd) as [H1 H2]. rewrite Hs1 in H1, H2. split.
      * rewrite H1. apply map_eq. intros n. apply option_eq. intros c.
        rewrite !map_lookup_filter_Some, lookup_delete_Some, elem_of_cons.
        split; intros Hx; [|split; [split|]]; naive_solver congruence.
      * rewrite map_size_delete in H2. rewrite Hb in H2. simpl in H2.
        assert (size (children s) ≠ 0%nat); [|lia]. apply map_size_ne_0_lookup. eauto.
    + assert (∀ q, q ∈ ps → is_Some (children s !! q)) as Hin1 by (intros q Hq; apply Hin; by right).
      destruct (IH _ _ Hnd Hin1 Hd) as [H1 H2]. split; [|done]. rewrite H1.
      apply map_filter_ext. intros n b _. rewrite elem_of_cons.
      split; intros Hx [Hy Hz]; apply Hx; split; try done; [|by right].
      destruct Hy as [->|?]; [congruence|done].
Qed.

Definition threshold_of now : Time := AddDate now 0 (- DetachThresholdMonths cfg) 0.

(** The children after a run that reports success. *)
Lemma doRollover_ok now s s' created detached :
  0 < DetachThresholdMonths cfg →
  doRollover cfg now s = (s', Ok (created, detached)) →
  let mid := ensure_all (children s)
               ((λ k, month_number now + k) <$> seqZ 1 (Z.of_nat (Z.to_nat (LookaheadMonths cfg)))) in
  children s' = filter (λ '(n, _), detachable cfg (threshold_of now) n = false) mid ∧
  created = Z.of_nat (size mid) - Z.of_nat (size (children s)) ∧
  detached = Z.of_nat (size mid) - Z.of_nat (size (children s')).
Proof.
  intros HD Hr. unfold doRollover in Hr. cbv zeta in Hr. unfold threshold_of.
  set (threshold := AddDate now 0 (- DetachThresholdMonths cfg) 0) in *. clearbody threshold.
  destruct (create_loop _ _ _ _ _ s) as [s1 [c|]] eqn:Ec; [|done].
  apply create_loop_ok in Ec as [H1 H2]. replace (0 <? DetachThresholdMonths cfg) with true in Hr by lia.
  destruct (ListPartitions (ParentTable cfg) s1) as [s2 [ps|]] eqn:El; [|done].
  pose proof (list_keeps s1) as Hk. pose proof (list_ok s1 ps) as Hl. rewrite El in Hk, Hl.
  simpl in Hk. specialize (Hl eq_refl).
  destruct (detach_loop _ ps _ _ s2) as [s3 [d|]] eqn:Ed; [|done]. simplify_eq.
  assert (∀ p, p ∈ ps ↔ is_Some (children s1 !! p)) as Hps.
  { intros p. rewrite Hl, list_elem_of_fmap. split.
    - intros ([n b] & -> & Hn%elem_of_map_to_list). eauto.
    - intros [b Hb]. exists (p, b). split; [done|]. by apply elem_of_map_to_list. }
  apply detach_loop_ok in Ed as [H3 H4].
  2: { rewrite Hl. apply NoDup_fst_map_to_list. }
  2: { intros p Hp. rewrite Hk. by apply Hps. }
  rewrite Hk in H3, H4. cbv zeta. rewrite <- H1. split_and!; [|lia|lia].
  rewrite H3. apply map_filter_ext. intros n b Hn. rewrite Hps.
  split; intros Hx.
  - destruct (detachable cfg threshold n) eqn:E; [|done]. exfalso. apply Hx. split; [by exists b|done].
  - intros [_ Hy]. congruence.
Qed.

(** ** Four-digit years *)
#[local] Ltac Zify.zify_post_hook ::= Z.to_euclidean_division_equations.

Lemma Itoa_four y : 1000 ≤ y ≤ 9999 → Itoa y = pad2 (y / 100) (pad2 (y mod 100) "").
Proof.
  intros Hy. unfold Itoa. replace (y <? 0) with false by lia. change 64%nat with (4 + 60)%nat.
  generalize 60%nat as fuel. intros fuel. simpl Nat.add.
  assert (∀ k n acc, format_digits (Datatypes.S k) n acc =
    if n / 10 =? 0 then String (ascii_of_nat (Z.to_nat (48 + n mod 10))) acc
    else format_digits k (n / 10) (String (ascii_of_nat (Z.to_nat (48 + n mod 10))) acc)) as Hs by done.
  rewrite Hs. replace (y / 10 =? 0) with false by lia.
  rewrite Hs. replace (y / 10 / 10 =? 0) with false by lia.
  rewrite Hs. replace (y / 10 / 10 / 10 =? 0) with false by lia.
  rewrite Hs. replace (y / 10 / 10 / 10 / 10 =? 0) with true by lia.
  unfold pad2, digit_char, byte_of.
  replace (y / 10 / 10 / 10 mod 10) with (y / 100 / 10) by lia.
  replace (y / 10 / 10 mod 10) with (y / 100 mod 10) by lia.
  replace (y / 10 mod 10) with (y mod 100 / 10) by lia.
  by replace (y mod 10) with (y mod 100 mod 10) by lia.
Qed.

(** The name of a month is read back as that month. *)
Lemma parse_name_of i : 12000 ≤ i < 120000 → parsePartitionDate cfg (name_of i) = Some (month_time i).
Proof.
  intros Hi. unfold parsePartitionDate, name_of, partitionName. rewrite civil_month_time.
  set (date := (Itoa (i / 12) +:+ "_" +:+ pad2 (i mod 12 + 1) "")%string).
  assert (HasPrefix (PartitionPrefix cfg +:+ date) (PartitionPrefix cfg) = true) as ->.
  { unfold HasPrefix. induction (PartitionPrefix cfg) as [|c p IH]; [by destruct date|].
    change (String c p +:+ date) with (String c (p +:+ date)). cbn [String.prefix].
    by destruct (ascii_dec c c). }
  rewrite TrimPrefix_app. unfold date, parse_year_month. rewrite Itoa_four by lia.
  change ((pad2 (i / 12 / 100) (pad2 (i / 12 mod 100) "") +:+ "_" +:+ pad2 (i mod 12 + 1) ""))
    with (pad2 (i / 12 / 100) (pad2 (i / 12 mod 100) (String "_" (pad2 (i mod 12 + 1) "")))).
  unfold get_year. rewrite getnum_pad2 by lia. rewrite !option_bind_Some. cbv beta iota.
  rewrite getnum_pad2 by lia. rewrite !option_bind_Some. cbv beta iota. rewrite literal_hit.
  rewrite option_bind_Some. cbv beta iota. rewrite getnum_pad2 by lia. rewrite option_bind_Some.
  rewrite in_range_ok by lia. rewrite option_bind_Some. cbv beta iota. f_equal.
  rewrite Date_month. replace (12 * (i / 12 / 100 * 100 + i / 12 mod 100) + (i mod 12 + 1) - 1) with i by lia.
  change (((1 - 1) * 24 + 0) * 3600 + 0 * 60 + 0) with 0. lia.
Qed.
#[local] Ltac Zify.zify_post_hook ::= idtac.

Lemma threshold_before now i :
  0 < DetachThresholdMonths cfg → month_number now < i → threshold_of now < month_time i.
Proof.
  intros HD Hi. unfold threshold_of. rewrite AddDate_month.
  pose proof (month_number_bounds now) as Hn.
  pose proof (proj1 (month_time_lt (month_number now - DetachThresholdMonths cfg) (month_number now)) ltac:(lia)).
  replace (month_number now + - DetachThresholdMonths cfg) with (month_number now - DetachThresholdMonths cfg) by lia.
  destruct (decide (month_number now + 1 = i)) as [<-|]; [lia|].
  pose proof (proj1 (month_time_lt (month_number now + 1) i) ltac:(lia)). lia.
Qed.

Lemma coming_month_kept now i :
  0 < DetachThresholdMonths cfg → month_number now < i → 12000 ≤ i < 120000 →
  detachable cfg (threshold_of now) (name_of i) = false.
Proof.
  intros HD Hi Hr. unfold detachable. case_decide; [done|]. rewrite parse_name_of by done.
  apply Before_false. pose proof (threshold_before now i HD Hi). lia.
Qed.

(** The bounds of a created partition read as the first instants of the month
    and of the next one. *)
Lemma bounds_parse i :
  12000 ≤ i < 119999 →
  ParseRFC3339 (fst (bounds_of i)) = Some (month_time i) ∧
  ParseRFC3339 (snd (bounds_of i)) = Some (month_time (i + 1)).
Proof.
  intros Hi. unfold bounds_of. simpl.
  assert (∀ j, 12000 ≤ j < 120000 → ParseRFC3339 (FormatRFC3339 (month_time j)) = Some (month_time j)) as Hp.
  { intros j Hj. rewrite ParseRFC3339_Format.
    - f_equal. assert (month_time j mod Time.Second = 0) as ->; [|lia].
      unfold month_time, Day. rewrite Z.mul_assoc. apply Z_mod_mult.
    - rewrite civil_month_time. cbn [fst]. split; [apply Z.div_pos; lia|].
      assert (j / 12 < 10000); [apply Z.div_lt_upper_bound; lia|lia]. }
  split; apply Hp; lia.
Qed.
End facts.

(** ** What a rollover guarantees *)
Section claims.
Context {S : Type} `{PartitionRolloverStore S} (cfg : PartitionRolloverConfig).
Context (children : S → gmap string (string * string)).
Context `{!PartitionRolloverLaws S (ParentTable cfg) children}.

(** A successful rollover leaves the table ready and loses nothing recent.
    Every one of the coming months has a partition, and one created by the
    job spans exactly that month. Of the partitions there were, exactly those
    named for a month that begins before the threshold are detached; the
    default partition and every table whose name is no month keep their place
    and their bounds. *)
Theorem rollover_result now s s' created detached :
  doRollover cfg now s = (s', Ok (created, detached)) →
  0 < DetachThresholdMonths cfg → 0 ≤ LookaheadMonths cfg →
  12000 ≤ month_number now → month_number now + LookaheadMonths cfg < 119999 →
  (∀ k, 1 ≤ k ≤ LookaheadMonths cfg →
     ∃ b, children s' !! name_of cfg (month_number now + k) = Some b ∧
       (children s !! name_of cfg (month_number now + k) = None →
        ParseRFC3339 (fst b) = Some (month_time (month_number now + k)) ∧
        ParseRFC3339 (snd b) = Some (month_time (month_number now + k + 1)))) ∧
  (∀ n b, children s !! n = Some b →
     children s' !! n = if detachable cfg (threshold_of cfg now) n then None else Some b).
Proof.
  intros Hr HD HL H1 H2. apply (doRollover_ok cfg children) in Hr as (Hc & _ & _); [|done]. cbv zeta in Hc.
  rewrite Z2Nat.id in Hc by done. set (js := _ <$> seqZ _ _) in Hc.
  assert (∀ k, 1 ≤ k ≤ LookaheadMonths cfg → month_number now + k ∈ js) as Hjs.
  { intros k Hk. apply list_elem_of_fmap. exists k. split; [done|]. apply elem_of_seqZ. lia. }
  split.
  - intros k Hk. destruct (ensure_all_has cfg js (children s) _ (Hjs k Hk)) as [b Hb]. exists b. split.
    + rewrite Hc. apply map_lookup_filter_Some. split; [done|]. apply coming_month_kept; lia.
    + intros Hnone. destruct (ensure_all_new cfg _ _ _ _ Hb) as [?|(_ & i & Hi & Hn & ->)]; [congruence|].
      apply list_elem_of_fmap in Hi as (k' & -> & Hk'%elem_of_seqZ).
      assert (month_number now + k' = month_number now + k) as ->.
      { apply (f_equal (parsePartitionDate cfg)) in Hn. rewrite !parse_name_of in Hn by lia.
        injection Hn as Hn. destruct (Z.lt_total (month_number now + k) (month_number now + k')) as [Hx|[Hx|Hx]];
          [|done|]; apply month_time_lt in Hx; lia. }
      apply bounds_parse. lia.
  - intros n b Hb. rewrite Hc. apply (ensure_all_keeps cfg js) in Hb.
    destruct (detachable cfg (threshold_of cfg now) n) eqn:E.
    + apply map_lookup_filter_None. right. intros c _. congruence.
    + apply map_lookup_filter_Some. done.
Qed.

(** The rollover is idempotent: run again in the same instant it creates
    and detaches nothing. *)
Theorem rollover_idempotent now s s1 s2 s3 created detached created2 detached2 :
  doRollover cfg now s = (s1, Ok (created, detached)) → children s2 = children s1 →
  doRollover cfg now s2 = (s3, Ok (created2, detached2)) →
  0 < DetachThresholdMonths cfg → 0 ≤ LookaheadMonths cfg →
  12000 ≤ month_number now → month_number now + LookaheadMonths cfg < 119999 →
  created2 = 0 ∧ detached2 = 0 ∧ children s3 = children s1.
Proof.
  intros Hr1 E Hr2 HD HL H1 H2.
  apply (doRollover_ok cfg children) in Hr1 as (Hc1 & _ & _); [|done].
  apply (doRollover_ok cfg children) in Hr2 as (Hc2 & Hn2 & Hd2); [|done]. cbv zeta in Hc1, Hc2, Hn2, Hd2.
  rewrite Z2Nat.id in Hc1, Hc2, Hn2, Hd2 by done. set (js := _ <$> seqZ _ _) in *.
  assert (ensure_all cfg (children s2) js = children s2) as Hens.
  { assert (∀ j, j ∈ js → is_Some (children s2 !! name_of cfg j)) as Hall.
    { intros j Hj. rewrite E, Hc1. destruct (ensure_all_has cfg js (children s) j Hj) as [b Hb].
      exists b. apply map_lookup_filter_Some. split; [done|].
      apply list_elem_of_fmap in Hj as (k & -> & Hk%elem_of_seqZ). apply coming_month_kept; lia. }
    clear - Hall. induction js as [|j js IH]; [done|]. cbn [ensure_all foldl]. unfold ensure at 2.
    destruct (Hall j) as [b Hb]; [left|]. rewrite Hb. apply IH. intros i Hi. apply Hall. by right. }
  rewrite Hens in *.
  assert (children s3 = children s2) as E3.
  { rewrite Hc2. apply map_filter_id. intros n b Hb. rewrite E, Hc1 in Hb.
    by apply map_lookup_filter_Some in Hb as [_ ?]. }
  split_and!; [lia| |congruence]. rewrite Hd2, E3. lia.
Qed.
End claims.

(** Detachment cannot be switched off, whatever the configuration says. *)
Theorem detachment_always_on cfg : 0 < DetachThresholdMonths (withDefaults cfg).
Proof. unfold withDefaults. simpl. destruct (Z.leb_spec (DetachThresholdMonths cfg) 0); lia. Qed.

(** A partition is detached by its first day: one of the month the threshold
    falls in goes although its later days are younger than the threshold. *)
Theorem young_rows_detached cfg now :
  12000 ≤ month_number now - DetachThresholdMonths cfg → month_number now < 120000 →
  0 < DetachThresholdMonths cfg →
  let i := month_number now - DetachThresholdMonths cfg in
  month_time i < threshold_of cfg now < month_time (i + 1) →
  name_of cfg i ≠ defaultPartitionName cfg →
  detachable cfg (threshold_of cfg now) (name_of cfg i) = true.
Proof.
  intros H1 H2 HD i Hi Hn. unfold detachable. rewrite decide_False by done.
  rewrite parse_name_of by (unfold i; lia). apply Before_true. lia.
Qed.

(** ** Quoted identifiers

    How PostgreSQL reads a quoted identifier: up to the first quote that is
    not doubled. *)
Fixpoint read_quoted (s : string) : option (string * string) :=
  match s with
  | EmptyString => None
  | String c s' =>
      if decide (c = quote_byte) then
        match s' with
        | String c' s'' =>
            if decide (c' = quote_byte) then
              match read_quoted s'' with Some (a, r) => Some (String c a, r) | None => None end
            else Some (EmptyString, s')
        | EmptyString => Some (EmptyString, EmptyString)
        end
      else match read_quoted s' with Some (a, r) => Some (String c a, r) | None => None end
  end.

Definition read_identifier (s : string) : option (string * string) :=
  match s with
  | String c s' => if decide (c = quote_byte) then read_quoted s' else None
  | EmptyString => None
  end.

(** No name breaks out of its quotes: whatever it holds, the identifier read
    from the statement is the name, and the rest is what the statement puts
    behind it. *)
Theorem quoteIdent_safe name rest :
  match rest with String c _ => c ≠ quote_byte | EmptyString => True end →
  read_identifier (quoteIdent name +:+ rest) = Some (name, rest).
Proof.
  intros Hr. unfold quoteIdent.
  change (String quote_byte (double_quotes name +:+ String quote_byte EmptyString) +:+ rest)
    with (String quote_byte ((double_quotes name +:+ String quote_byte EmptyString) +:+ rest)).
  cbn [read_identifier]. rewrite decide_True by done. rewrite string_app_assoc.
  change (String quote_byte EmptyString +:+ rest) with (String quote_byte rest).
  induction name as [|c name IH].
  - cbn [double_quotes]. change ("" +:+ String quote_byte rest) with (String quote_byte rest).
    cbn [read_quoted]. rewrite decide_True by done. destruct rest as [|c rest]; [done|].
    by rewrite decide_False.
  - cbn [double_quotes]. case_decide as Ec.
    + change (String c (String c (double_quotes name)) +:+ String quote_byte rest)
        with (String c (String c (double_quotes name +:+ String quote_byte rest))).
      cbn [read_quoted]. rewrite !decide_True by done. by rewrite IH.
    + change (String c (double_quotes name) +:+ String quote_byte rest)
        with (String c (double_quotes name +:+ String quote_byte rest)).
      cbn [read_quoted]. rewrite decide_False by done. by rewrite IH.
Qed.

(** ** A store

    The children of one parent table and the state row, without failures:
    it obeys the laws, so the theorems speak of something. *)
Record table_store := { tables : gmap string (string * string); state_row : option Time }.

#[export] Instance table_store_ops : PartitionRolloverStore table_store := {
  LastRolloverAt s := (s, Ok (state_row s));
  MarkRolloverDone at_ s := ({| tables := tables s; state_row := Some at_ |}, None);
  PartitionExists _ n s := (s, Ok (bool_decide (is_Some (tables s !! n))));
  CreatePartition _ n f t s :=
    match tables s !! n with
    | Some _ => (s, Some "relation already exists")
    | None => ({| tables := <[n := (f, t)]> (tables s); state_row := state_row s |}, None)
    end;
  DetachPartition _ n s :=
    match tables s !! n with
    | Some _ => ({| tables := delete n (tables s); state_row := state_row s |}, None)
    | None => (s, Some "relation is not a partition")
    end;
  ListPartitions _ s := (s, Ok (map_to_list (tables s)).*1);
}.

#[export] Instance table_store_laws parent : PartitionRolloverLaws table_store parent tables.
Proof.
  split; try done; simpl.
  - by intros n s b [= <-].
  - intros n f t s. by destruct (tables s !! n).
  - intros n f t s e. by destruct (tables s !! n).
  - intros n s. destruct (tables s !! n) eqn:E; simpl; [done|]. discriminate.
  - intros n s e. by destruct (tables s !! n).
  - by intros s l [= <-].
Qed.

Definition example_tables : table_store :=
  {| tables := <["statements_p2024_07" := ("", "")]> {["statements_p_default" := ("", "")]};
     state_row := None |}.

(** 15 August 2026. *)
Definition example_now : Time := Date 2026 8 15 12 0 0 0.

Lemma rollover_result_witness :
  let cfg := DefaultPartitionRolloverConfig in
  let r := doRollover cfg example_now example_tables in
  snd r = Ok (1, 1) ∧
  ∃ b, tables (fst r) !! "statements_p2026_09" = Some b ∧
    ParseRFC3339 (fst b) = Some (month_time (month_number example_now + 1)).
Proof.
  intros cfg r. assert (snd r = Ok (1, 1)) as Hs by (vm_compute; reflexivity). split; [exact Hs|].
  destruct (rollover_result cfg tables example_now example_tables (fst r) 1 1) as [Hk _].
  - rewrite <- Hs. apply surjective_pairing.
  - reflexivity.
  - discriminate.
  - vm_compute. discriminate.
  - vm_compute. reflexivity.
  - destruct (Hk 1) as (b & Hb & Hp); [vm_compute; split; discriminate|]. exists b.
    assert (name_of cfg (month_number example_now + 1) = "statements_p2026_09") as En
      by (vm_compute; reflexivity).
    rewrite En in Hb, Hp. split; [exact Hb|]. apply Hp. vm_compute. reflexivity.
Defined.

Lemma rollover_idempotent_witness :
  let cfg := DefaultPartitionRolloverConfig in
  let s1 := fst (doRollover cfg example_now example_tables) in
  let r2 := doRollover cfg example_now s1 in
  snd r2 = Ok (0, 0) ∧ tables (fst r2) = tables s1.
Proof.
  intros cfg s1 r2. assert (snd r2 = Ok (0, 0)) as Hs by (vm_compute; reflexivity). split; [exact Hs|].
  destruct (rollover_idempotent cfg tables example_now example_tables s1 s1 (fst r2) 1 1 0 0) as (_ & _ & E).
  - assert (snd (doRollover cfg example_now example_tables) = Ok (1, 1)) as <- by (vm_compute; reflexivity).
    apply surjective_pairing.
  - reflexivity.
  - rewrite <- Hs. apply surjective_pairing.
  - reflexivity.
  - discriminate.
  - vm_compute. discriminate.
  - vm_compute. reflexivity.
  - exact E.
Defined.
