(* ===== verification/Leader.v ===== *)
(** * Leader election for singleton jobs

    Models the [leaderGuard] of [internal/worker/leader.go], which runs a job
    under a PostgreSQL advisory lock, in several processes at once. The
    database's advisory locks are a class: each process has one session, a
    session may take a lock it already holds again, and gives it back once per
    time it took it. *)
From Stdlib Require Import ZArith Lia.
From stdpp Require Import base gmap strings list relations.
From S2P Require Import Prelude.

(** ** The lock functions of the database

    [try_lock] is [pg_try_advisory_lock] and [unlock] is
    [pg_advisory_unlock], each called in a session. *)
Class AdvisoryLocks (D : Type) := {
  try_lock : nat → Z → D → D * bool;
  unlock : nat → Z → D → D * bool;
  held : D → Z → nat → nat;  (* how often a session holds a lock *)
}.

Class AdvisoryLockLaws (D : Type) `{AdvisoryLocks D} : Prop := {
  try_lock_result i k d : snd (try_lock i k d) = true ↔ ∀ j, j ≠ i → held d k j = 0%nat;
  try_lock_held i k d j :
    held (fst (try_lock i k d)) k j =
      (if snd (try_lock i k d) then if decide (j = i) then S (held d k j) else held d k j else held d k j);
  unlock_held i k d j :
    held (fst (unlock i k d)) k j = (if decide (j = i) then pred (held d k j) else held d k j);
}.

(** ** The guard

    A call can also fail with an error, which changes nothing; [fails] says
    whether it does. *)
Inductive lock_result := LockAcquired | LockDenied | LockError.

Section leader.
Context {D : Type} `{AdvisoryLocks D}.

Definition AcquireLock (fails : bool) (session : nat) (key : Z) (d : D) : D * lock_result :=
  if fails then (d, LockError)
  else match try_lock session key d with
       | (d, true) => (d, LockAcquired)
       | (d, false) => (d, LockDenied)
       end.

Definition ReleaseLock (fails : bool) (session : nat) (key : Z) (d : D) : D :=
  if fails then d else fst (unlock session key d).

Record leaderGuard := { session : nat; key : Z; hold : bool; running : nat }.

Definition set_hold (b : bool) (g : leaderGuard) : leaderGuard :=
  {| session := session g; key := key g; hold := b; running := running g |}.
Definition set_running (n : nat) (g : leaderGuard) : leaderGuard :=
  {| session := session g; key := key g; hold := hold g; running := n |}.

Definition newLeaderGuard (session : nat) (key : Z) : leaderGuard :=
  {| session := session; key := key; hold := false; running := 0 |}.

(** [Run] up to the call of the job: [None] is an early return with an error
    ([errNotLeader] or that of the lock); otherwise the job is running. *)
Definition Run_begin (fails : bool) (g : leaderGuard) (d : D) : D * option leaderGuard :=
  match AcquireLock fails (session g) (key g) d with
  | (d, LockAcquired) => (d, Some (set_running (S (running g)) (set_hold true g)))
  | (d, _) => (d, None)
  end.

(** The deferred function, when the job has returned. *)
Definition Run_end (fails : bool) (g : leaderGuard) (d : D) : D * leaderGuard :=
  let g' := set_running (pred (running g)) (set_hold false g) in
  if hold g then (ReleaseLock fails (session g) (key g) d, g') else (d, g').

Definition Release (fails : bool) (g : leaderGuard) (d : D) : D * leaderGuard :=
  if hold g then (ReleaseLock fails (session g) (key g) d, set_hold false g) else (d, g).

(** ** Processes

    Process [i] has its guard for the job's lock and session [i]. *)
Record world := { locks : D; guards : gmap nat leaderGuard }.

Definition set_guard (i : nat) (g : leaderGuard) (d : D) (w : world) : world :=
  {| locks := d; guards := <[i := g]> (guards w) |}.

Inductive step (w : world) : world → Prop :=
| step_begin i g fails d g' :
    guards w !! i = Some g → Run_begin fails g (locks w) = (d, Some g') →
    step w (set_guard i g' d w)
| step_refused i g fails d :
    guards w !! i = Some g → Run_begin fails g (locks w) = (d, None) →
    step w (set_guard i g d w)
| step_end i g d g' :
    guards w !! i = Some g → (0 < running g)%nat → Run_end false g (locks w) = (d, g') →
    step w (set_guard i g' d w)
| step_release i g d g' :
    guards w !! i = Some g → Release false g (locks w) = (d, g') →
    step w (set_guard i g' d w).

(** The jobs' own discipline: one cycle at a time per process, and no
    [Release] while the cycle runs. *)
Inductive quiet_step (w : world) : world → Prop :=
| quiet_begin i g fails d g' :
    guards w !! i = Some g → running g = 0%nat → Run_begin fails g (locks w) = (d, Some g') →
    quiet_step w (set_guard i g' d w)
| quiet_refused i g fails d :
    guards w !! i = Some g → Run_begin fails g (locks w) = (d, None) →
    quiet_step w (set_guard i g d w)
| quiet_end i g d g' :
    guards w !! i = Some g → (0 < running g)%nat → Run_end false g (locks w) = (d, g') →
    quiet_step w (set_guard i g' d w)
| quiet_release i g d g' :
    guards w !! i = Some g → running g = 0%nat → Release false g (locks w) = (d, g') →
    quiet_step w (set_guard i g' d w).

Lemma quiet_is_step w w' : quiet_step w w' → step w w'.
Proof.
  destruct 1; [by eapply step_begin|by eapply step_refused|by eapply step_end|by eapply step_release].
Qed.

(** Every process knows its own session and the job's key; nobody holds the
    lock yet. *)
Definition initial (k : Z) (w : world) : Prop :=
  (∀ i g, guards w !! i = Some g → g = newLeaderGuard i k) ∧ ∀ i, held (locks w) k i = 0%nat.

Context `{!AdvisoryLockLaws D}.

(** A process holds the lock exactly while its job runs. *)
Definition lock_inv (k : Z) (w : world) : Prop :=
  (∀ i g, guards w !! i = Some g →
     session g = i ∧ key g = k ∧ (hold g = true ↔ running g = 1%nat) ∧ (running g ≤ 1)%nat ∧
     held (locks w) k i = running g) ∧
  (∀ i, guards w !! i = None → held (locks w) k i = 0%nat) ∧
  (∀ i j, i ≠ j → held (locks w) k i = 0%nat ∨ held (locks w) k j = 0%nat).

Lemma initial_inv k w : initial k w → lock_inv k w.
Proof.
  intros [Hg Hh]. split_and!.
  - intros i g Hi. rewrite (Hg i g Hi), Hh. simpl. split_and!; try done. lia.
  - intros i _. apply Hh.
  - intros i j _. left. apply Hh.
Qed.

Lemma Run_begin_some fails g d d' g' :
  Run_begin fails g d = (d', Some g') →
  g' = set_running (S (running g)) (set_hold true g) ∧
  (∀ j, j ≠ session g → held d (key g) j = 0%nat) ∧
  (∀ j, held d' (key g) j = if decide (j = session g) then S (held d (key g) j) else held d (key g) j).
Proof.
  unfold Run_begin, AcquireLock. destruct fails; [done|]. intros Hb.
  pose proof (try_lock_result (session g) (key g) d) as Hr.
  pose proof (try_lock_held (session g) (key g) d) as Hh.
  destruct (try_lock (session g) (key g) d) as [d1 [|]]; simplify_eq. simpl in Hr, Hh.
  split_and!; [done|by apply Hr|exact Hh].
Qed.

Lemma Run_begin_none fails g d d' :
  Run_begin fails g d = (d', None) → ∀ j, held d' (key g) j = held d (key g) j.
Proof.
  unfold Run_begin, AcquireLock. destruct fails; [by intros [= <-]|]. intros Hb.
  pose proof (try_lock_held (session g) (key g) d) as Hh.
  destruct (try_lock (session g) (key g) d) as [d1 [|]]; simplify_eq. exact Hh.
Qed.

Lemma quiet_step_inv k w w' : lock_inv k w → quiet_step w w' → lock_inv k w'.
Proof.
  intros (Hg & Hn & Hx) Hs.
  assert (∀ i g d g',
    guards w !! i = Some g → session g' = i → key g' = k →
    (hold g' = true ↔ running g' = 1%nat) → (running g' ≤ 1)%nat →
    (∀ j, held d k j = if decide (j = i) then running g' else held (locks w) k j) →
    ((0 < running g')%nat → ∀ j, j ≠ i → held (locks w) k j = 0%nat) →
    lock_inv k (set_guard i g' d w)) as Hupd.
  { intros i g d g' Hi Hs1 Hk Hh Hr Hd He. split_and!; simpl.
    - intros j gj. destruct (decide (j = i)) as [->|Hne].
      + rewrite lookup_insert_eq. intros [= <-]. rewrite Hd, decide_True by done. done.
      + rewrite lookup_insert_ne by done. intros Hj. rewrite Hd, decide_False by done. by apply Hg.
    - intros j Hj. apply lookup_insert_None in Hj as [Hj Hne]. rewrite Hd, decide_False by done. by apply Hn.
    - intros a b Hab. rewrite !Hd. destruct (decide (a = i)) as [->|Ha], (decide (b = i)) as [->|Hb]; try done.
      + destruct (decide (running g' = 0)%nat); [by left|]. right. apply He; [lia|done].
      + destruct (decide (running g' = 0)%nat); [by right|]. left. apply He; [lia|done].
      + by apply Hx. }
  destruct Hs as [i g fails d g' Hi H0 Hb|i g fails d Hi Hb|i g d g' Hi H0 Hb|i g d g' Hi H0 Hb];
    destruct (Hg i g Hi) as (Es & Ek & Hh & Hr & Hl).
  - destruct (Run_begin_some _ _ _ _ _ Hb) as (-> & He & Hd). rewrite Es, Ek in *.
    eapply Hupd; simpl; [exact Hi|done|done|split; [lia|done]|lia| |].
    + intros j. rewrite Hd. case_decide; [subst; lia|done].
    + intros _. exact He.
  - pose proof (Run_begin_none _ _ _ _ Hb) as Hd. rewrite Ek in Hd.
    eapply Hupd; [exact Hi|done|done|done|done| |].
    + intros j. rewrite Hd. case_decide; [by subst|done].
    + intros Hpos j Hne. destruct (Hx i j ltac:(done)) as [Hz|Hz]; [lia|done].
  - assert (running g = 1%nat) as E1 by lia. unfold Run_end in Hb. rewrite (proj2 Hh E1) in Hb.
    simplify_eq. eapply Hupd; simpl; [exact Hi|done|done|split; [done|lia]|lia| |].
    + intros j. unfold ReleaseLock. rewrite unlock_held. case_decide; [subst; lia|done].
    + lia.
  - unfold Release in Hb. destruct (hold g) eqn:Eh; simplify_eq.
    + assert (running g = 1%nat) by (by apply Hh). lia.
    + eapply Hupd; [exact Hi|done|done|by rewrite Eh|done| |lia].
      intros j. case_decide; [by subst|done].
Qed.

(** C30: At most one process runs the job. Under the jobs' discipline, in every
    reachable state no two processes run the job, and the lock is held by a
    process exactly while its job runs, so it is never left behind. *)
Theorem single_leader k w w' i j gi gj :
  initial k w → rtc quiet_step w w' →
  guards w' !! i = Some gi → guards w' !! j = Some gj → i ≠ j →
  (running gi = 0%nat ∨ running gj = 0%nat) ∧ held (locks w') k i = running gi.
Proof.
  intros Hi Hr Hgi Hgj Hne. assert (lock_inv k w') as (Hg & _ & Hx).
  { apply initial_inv in Hi. clear Hgi Hgj. induction Hr as [|w w1 w' Hs _ IH]; [done|].
    apply IH. by eapply quiet_step_inv. }
  destruct (Hg i gi Hgi) as (_ & _ & _ & _ & Ei), (Hg j gj Hgj) as (_ & _ & _ & _ & Ej).
  rewrite <- Ei, <- Ej. split; [by apply Hx|done].
Qed.

(** A job that outlives the shutdown timeout loses the lock while it still
    runs: [Stop] then calls [Release], and another process may become leader
    beside it. From every state in which process [i] runs the job and process
    [j] is idle, two steps lead to both running it. *)
Theorem release_allows_second_leader k w i j gi gj :
  lock_inv k w → i ≠ j →
  guards w !! i = Some gi → running gi = 1%nat →
  guards w !! j = Some gj → running gj = 0%nat →
  ∃ w1 w2 gi' gj', step w w1 ∧ step w1 w2 ∧
    guards w2 !! i = Some gi' ∧ guards w2 !! j = Some gj' ∧ running gi' = 1%nat ∧ running gj' = 1%nat.
Proof.
  intros (Hg & Hn & Hx) Hne Hi Hri Hj Hrj.
  destruct (Hg i gi Hi) as (Esi & Eki & Hhi & _ & Hli), (Hg j gj Hj) as (Esj & Ekj & _ & _ & Hlj).
  set (d1 := fst (unlock (session gi) (key gi) (locks w))).
  set (w1 := set_guard i (set_hold false gi) d1 w).
  assert (∀ a, held d1 k a = 0%nat) as Hfree.
  { intros a. unfold d1. rewrite Esi, Eki, unlock_held. case_decide as E; [subst; lia|].
    destruct (Hx i a ltac:(done)); [lia|done]. }
  assert (snd (try_lock (session gj) (key gj) d1) = true) as Ht.
  { apply try_lock_result. intros a _. rewrite Ekj. apply Hfree. }
  set (gj' := set_running (S (running gj)) (set_hold true gj)).
  exists w1, (set_guard j gj' (fst (try_lock (session gj) (key gj) d1)) w1), (set_hold false gi), gj'.
  split; [|split; [|split_and!]].
  - eapply (step_release w i gi); [done|]. unfold Release. by rewrite (proj2 Hhi Hri).
  - eapply (step_begin w1 j gj false); [simpl; by rewrite lookup_insert_ne|].
    unfold Run_begin, AcquireLock. change (locks w1) with d1.
    destruct (try_lock (session gj) (key gj) d1) as [d2 b]. simpl in *. by subst b.
  - simpl. by rewrite lookup_insert_ne, lookup_insert_eq.
  - simpl. by rewrite lookup_insert_eq.
  - done.
  - simpl. lia.
Qed.
End leader.

(** ** Advisory locks

    The lock table as a map from key and session to the number of times held:
    an instance of the laws. *)
Notation lock_table := (gmap (Z * nat) nat).
Definition times (d : lock_table) (k : Z) (i : nat) : nat := default 0%nat (d !! (k, i)).
Definition others_free (k : Z) (i : nat) (d : lock_table) : bool :=
  forallb (λ '((k', j), n), negb (bool_decide (k' = k)) || bool_decide (j = i) || bool_decide (n = 0%nat))
    (map_to_list d).

#[export] Instance lock_table_ops : AdvisoryLocks lock_table := {
  try_lock i k d :=
    if others_free k i d then (<[(k, i) := S (times d k i)]> d, true) else (d, false);
  unlock i k d :=
    if decide (times d k i = 0%nat) then (d, false) else (<[(k, i) := pred (times d k i)]> d, true);
  held := times;
}.

Lemma others_free_true k i d : others_free k i d = true ↔ ∀ j, j ≠ i → times d k j = 0%nat.
Proof.
  unfold others_free. rewrite forallb_forall. split.
  - intros Hall j Hj. unfold times. destruct (d !! (k, j)) as [n|] eqn:E; [|done]. simpl.
    assert (In ((k, j), n) (map_to_list d)) as Hin by (by apply list_elem_of_In, elem_of_map_to_list).
    specialize (Hall _ Hin). cbv beta iota in Hall. rewrite !orb_true_iff, negb_true_iff, bool_decide_eq_false, !bool_decide_eq_true in Hall.
    naive_solver.
  - intros Hall [[k' j] n] E. apply list_elem_of_In, elem_of_map_to_list in E.
    rewrite !orb_true_iff, negb_true_iff, bool_decide_eq_false, !bool_decide_eq_true.
    destruct (decide (k' = k)) as [->|]; [|auto]. destruct (decide (j = i)); [auto|]. right.
    specialize (Hall j ltac:(done)).
    assert (times d k j = n) as <-; [|done]. unfold times. change (d !! (k, j) = Some n) in E.
    exact (f_equal (default 0%nat) E).
Qed.

Lemma times_insert k i n d j : times (<[(k, i) := n]> d) k j = if decide (j = i) then n else times d k j.
Proof.
  unfold times. case_decide as E; [subst; by rewrite lookup_insert_eq|].
  rewrite lookup_insert_ne by congruence. done.
Qed.

#[export] Instance lock_table_laws : AdvisoryLockLaws lock_table.
Proof.
  split; simpl.
  - intros i k d. rewrite <- others_free_true. by destruct (others_free k i d).
  - intros i k d j. destruct (others_free k i d); simpl; [|done]. rewrite times_insert. by case_decide; subst.
  - intros i k d j. case_decide as E; simpl.
    + case_decide; [subst; lia|done].
    + rewrite times_insert. by case_decide; subst.
Qed.

Definition two_processes : world (D := lock_table) :=
  {| locks := ∅; guards := <[0%nat := newLeaderGuard 0 1001]> {[1%nat := newLeaderGuard 1 1001]} |}.

Definition first_leads : world (D := lock_table) :=
  {| locks := {[(1001, 0%nat) := 1%nat]};
     guards := <[0%nat := set_running 1 (set_hold true (newLeaderGuard 0 1001))]> (guards two_processes) |}.

Lemma two_processes_initial : initial 1001 two_processes.
Proof.
  split; [|done]. intros i g Hg. simpl in Hg.
  apply lookup_insert_Some in Hg as [[<- <-]|[_ Hg]]; [done|].
  by apply lookup_singleton_Some in Hg as [<- <-].
Qed.

Lemma first_leads_step : quiet_step two_processes first_leads.
Proof.
  exact (quiet_begin two_processes 0 (newLeaderGuard 0 1001) false {[(1001, 0%nat) := 1%nat]}
           (set_running 1 (set_hold true (newLeaderGuard 0 1001))) eq_refl eq_refl eq_refl).
Qed.

Lemma single_leader_witness :
  (running (set_running 1 (set_hold true (newLeaderGuard 0 1001))) = 0%nat ∨
   running (newLeaderGuard 1 1001) = 0%nat) ∧ held (locks first_leads) 1001 0 = 1%nat.
Proof.
  apply (single_leader 1001 two_processes first_leads 0 1
           (set_running 1 (set_hold true (newLeaderGuard 0 1001))) (newLeaderGuard 1 1001)).
  - exact two_processes_initial.
  - apply rtc_once, first_leads_step.
  - reflexivity.
  - reflexivity.
  - discriminate.
Defined.

Lemma release_allows_second_leader_witness :
  ∃ w1 w2 gi' gj', step first_leads w1 ∧ step w1 w2 ∧
    guards w2 !! 0%nat = Some gi' ∧ guards w2 !! 1%nat = Some gj' ∧
    running gi' = 1%nat ∧ running gj' = 1%nat.
Proof.
  eapply (release_allows_second_leader 1001 first_leads 0 1).
  - eapply quiet_step_inv; [|exact first_leads_step]. apply initial_inv, two_processes_initial.
  - discriminate.
  - reflexivity.
  - reflexivity.
  - reflexivity.
  - reflexivity.
Defined.
