(* ===== verification/Rls.v ===== *)
(** * Row-level security: tenant-scoped database access

    Models [internal/db/rls.go]: the wrappers that run every statement in a
    transaction with [app.tenant_id] set to the caller's tenant, over a pgx
    pool ([RLSPool]) and over [database/sql] ([RLSDB]).

    The driver is modelled by what the wrappers depend on: how many
    connections are out, in which transaction a connection is and which tenant
    is set there, and which statements ran under which tenant. Every call to
    the driver succeeds or fails as the script says. *)
From Stdlib Require Import ZArith Lia.
From stdpp Require Import base gmap strings list.
From S2P Require Import Prelude.
#[local] Open Scope string_scope.
#[local] Open Scope Z_scope.

(** ** The driver *)
Record driver := {
  limit : Z;                               (* connections the pool may hand out *)
  out : Z;                                 (* connections handed out *)
  script : list bool;                      (* which of the next calls succeed *)
  ran : list (option string * string);     (* statements, with the tenant set *)
}.

(** A connection: whether it was given back, and its open transaction with
    the tenant set in it. *)
Record conn := { released : bool; tx : option (option string) }.

Inductive db_error := ErrMissingTenantContext | ErrDriver (context : string).

Definition next_call (w : driver) : driver * bool :=
  match script w with
  | [] => (w, true)
  | b :: bs => ({| limit := limit w; out := out w; script := bs; ran := ran w |}, b)
  end.

Definition set_out (n : Z) (w : driver) : driver :=
  {| limit := limit w; out := n; script := script w; ran := ran w |}.
Definition log_stmt (tenant : option string) (sql : string) (w : driver) : driver :=
  {| limit := limit w; out := out w; script := script w; ran := (ran w ++ [(tenant, sql)])%list |}.

(** [pool.Acquire]: a pool without a free connection makes the caller wait
    until its context ends. *)
Definition acquire (w : driver) : driver * option conn :=
  if limit w <=? out w then (w, None)
  else match next_call w with
       | (w, true) => (set_out (out w + 1) w, Some {| released := false; tx := None |})
       | (w, false) => (w, None)
       end.

(** [conn.Release] does nothing the second time. *)
Definition release (c : conn) (w : driver) : driver * conn :=
  if released c then (w, c) else (set_out (out w - 1) w, {| released := true; tx := None |}).

Definition begin (c : conn) (w : driver) : driver * option conn :=
  match next_call w with
  | (w, true) => (w, Some {| released := released c; tx := Some None |})
  | (w, false) => (w, None)
  end.

(** [SET LOCAL app.tenant_id = $1] lasts until the end of the transaction. *)
Definition set_local (tenantID : string) (c : conn) (w : driver) : driver * option conn :=
  match next_call w with
  | (w, true) => (w, Some {| released := released c; tx := (λ _, Some tenantID) <$> tx c |})
  | (w, false) => (w, None)
  end.

(** A statement of the caller runs under the tenant set in the transaction. *)
Definition statement (sql : string) (c : conn) (w : driver) : driver * bool :=
  next_call (log_stmt (tx c ≫= id) sql w).

(** Ends of a transaction; both do nothing when it has ended. *)
Definition end_tx (c : conn) : conn := {| released := released c; tx := None |}.
Definition rollback (c : conn) (w : driver) : driver * conn :=
  match tx c with None => (w, c) | Some _ => let '(w, _) := next_call w in (w, end_tx c) end.
Definition commit (c : conn) (w : driver) : driver * conn * bool :=
  match tx c with
  | None => (w, c, false)
  | Some _ => let '(w, ok) := next_call w in (w, end_tx c, ok)
  end.

(** ** The caller's tenant

    The two keys under which the context may carry it; a value that is not a
    string counts as absent. *)
Record context := { DefaultTenantID : option string; MiddlewareTenantID : option string }.

Definition TenantIDFromContext (ctx : context) : result db_error string :=
  let value := λ v, match v with Some s => if decide (s = "") then None else Some s | None => None end in
  match value (DefaultTenantID ctx) with
  | Some s => Ok s
  | None => match value (MiddlewareTenantID ctx) with
            | Some s => Ok s
            | None => Err ErrMissingTenantContext
            end
  end.

Definition ContextWithTenantID (tenantID : string) : context :=
  {| DefaultTenantID := Some tenantID; MiddlewareTenantID := Some tenantID |}.

(** ** [RLSPool] *)
(** The start the calls share: a connection, a transaction and the tenant set
    in it; [what] names the transaction in the error. *)
Definition begin_scoped (what : string) (ctx : context) (w : driver) : driver * result db_error conn :=
  match TenantIDFromContext ctx with
  | Err e => (w, Err e)
  | Ok tenantID =>
      match acquire w with
      | (w, None) => (w, Err (ErrDriver "acquire"))
      | (w, Some c) =>
          match begin c w with
          | (w, None) => (fst (release c w), Err (ErrDriver what))
          | (w, Some c) =>
              match set_local tenantID c w with
              | (w, None) =>
                  let '(w, c) := rollback c w in (fst (release c w), Err (ErrDriver "set app.tenant_id"))
              | (w, Some c) => (w, Ok c)
              end
          end
      end
  end.

Definition Pool_Acquire : context → driver → driver * result db_error conn :=
  begin_scoped "begin rls transaction".

Definition ReleaseConnWithRollback (c : conn) (w : driver) : driver * conn :=
  let '(w, c) := rollback c w in release c w.

(** [defer conn.Release()] runs after [defer tx.Rollback()]. *)
Definition Pool_Exec (ctx : context) (sql : string) (w : driver) : driver * result db_error unit :=
  match TenantIDFromContext ctx with
  | Err e => (w, Err e)
  | Ok tenantID =>
      match acquire w with
      | (w, None) => (w, Err (ErrDriver "acquire"))
      | (w, Some c) =>
          match begin c w with
          | (w, None) => (fst (release c w), Err (ErrDriver "begin rls transaction"))
          | (w, Some c) =>
              let deferred := λ w c r, let '(w, c) := rollback c w in (fst (release c w), r) in
              match set_local tenantID c w with
              | (w, None) => deferred w c (Err (ErrDriver "set app.tenant_id"))
              | (w, Some c) =>
                  match statement sql c w with
                  | (w, false) => deferred w c (Err (ErrDriver "exec"))
                  | (w, true) =>
                      match commit c w with
                      | (w, c, false) => deferred w c (Err (ErrDriver "commit rls transaction"))
                      | (w, c, true) => deferred w c (Ok tt)
                      end
                  end
              end
          end
      end
  end.

Definition Pool_Query (ctx : context) (sql : string) (w : driver) : driver * result db_error conn :=
  match begin_scoped "begin rls transaction" ctx w with
  | (w, Err e) => (w, Err e)
  | (w, Ok c) =>
      match statement sql c w with
      | (w, false) => let '(w, c) := rollback c w in (fst (release c w), Err (ErrDriver "query"))
      | (w, true) => (w, Ok c)
      end
  end.

(** [QueryRow] answers a row or a row that fails; the statement's own error
    shows when the row is scanned. *)
Definition Pool_QueryRow (ctx : context) (sql : string) (w : driver) : driver * result db_error conn :=
  match begin_scoped "begin rls transaction" ctx w with
  | (w, Err e) => (w, Err e)
  | (w, Ok c) => (fst (statement sql c w), Ok c)
  end.

Definition Pool_BeginTx : context → driver → driver * result db_error conn :=
  begin_scoped "begin transaction".
Definition Pool_Begin : context → driver → driver * result db_error conn := Pool_BeginTx.

(** [rlsRows]: the rows left decide whether [Next] finds one. *)
Definition Rows_Next (rows : nat) (c : conn) (w : driver) : driver * conn * bool :=
  match rows with
  | O => let '(w, c) := rollback c w in let '(w, c) := release c w in (w, c, false)
  | S _ => (w, c, true)
  end.
Definition Rows_Close (c : conn) (w : driver) : driver * conn := (w, c).

Definition Row_Scan (c : conn) (w : driver) : driver * conn :=
  let '(w, c) := rollback c w in release c w.

(** A statement on a transaction that has ended fails. *)
Definition Tx_Exec (sql : string) (c : conn) (w : driver) : driver * bool :=
  match tx c with None => (w, false) | Some _ => statement sql c w end.
Definition Tx_Commit (c : conn) (w : driver) : driver * conn * bool :=
  let '(w, c, ok) := commit c w in let '(w, c) := release c w in (w, c, ok).
Definition Tx_Rollback (c : conn) (w : driver) : driver * conn :=
  let '(w, c) := rollback c w in release c w.

(** ** [RLSDB]

    A [database/sql] transaction holds its connection from [BeginTx] to
    [Commit] or [Rollback]. *)
Definition sql_begin (w : driver) : driver * option conn :=
  match acquire w with
  | (w, None) => (w, None)
  | (w, Some c) => (w, Some {| released := released c; tx := Some None |})
  end.
Definition sql_rollback (c : conn) (w : driver) : driver * conn :=
  let '(w, c) := rollback c w in release c w.
Definition sql_commit (c : conn) (w : driver) : driver * conn * bool :=
  let '(w, c, ok) := commit c w in let '(w, c) := release c w in (w, c, ok).

Definition DB_ExecContext (ctx : context) (sql : string) (w : driver) : driver * result db_error unit :=
  match TenantIDFromContext ctx with
  | Err e => (w, Err e)
  | Ok tenantID =>
      match sql_begin w with
      | (w, None) => (w, Err (ErrDriver "begin rls transaction"))
      | (w, Some c) =>
          match set_local tenantID c w with
          | (w, None) => (fst (sql_rollback c w), Err (ErrDriver "set app.tenant_id"))
          | (w, Some c) =>
              match statement sql c w with
              | (w, false) => (fst (sql_rollback c w), Err (ErrDriver "exec"))
              | (w, true) =>
                  match sql_commit c w with
                  | (w, c, false) => (fst (sql_rollback c w), Err (ErrDriver "commit rls transaction"))
                  | (w, c, true) => (fst (sql_rollback c w), Ok tt)
                  end
              end
          end
      end
  end.

Definition DB_BeginTx (ctx : context) (w : driver) : driver * result db_error conn :=
  match TenantIDFromContext ctx with
  | Err e => (w, Err e)
  | Ok tenantID =>
      match sql_begin w with
      | (w, None) => (w, Err (ErrDriver "begin"))
      | (w, Some c) =>
          match set_local tenantID c w with
          | (w, None) => (fst (sql_rollback c w), Err (ErrDriver "set app.tenant_id"))
          | (w, Some c) => (w, Ok c)
          end
      end
  end.

Definition DB_QueryContext (ctx : context) (sql : string) (w : driver) : driver * result db_error conn :=
  match DB_BeginTx ctx w with
  | (w, Err e) => (w, Err e)
  | (w, Ok c) =>
      match statement sql c w with
      | (w, false) => (fst (sql_rollback c w), Err (ErrDriver "query"))
      | (w, true) => (w, Ok c)
      end
  end.

(** [QueryRowContext] answers a [*sql.Row]: of the query in its transaction,
    which nobody ends, or of [SELECT 1 WHERE 1=0] on a connection without a
    tenant. That call is made of the driver, but as it reads no table it is
    not among the statements in [ran]. [tx.Rollback()] on the failed [BeginTx]
    of the first branch is a call on a nil transaction. *)
Inductive row := TxRow (c : conn) | EmptyRow | NilTransaction.

Definition DB_QueryRowContext (ctx : context) (sql : string) (w : driver) : driver * row :=
  match TenantIDFromContext ctx with
  | Err _ =>
      match sql_begin w with
      | (w, None) => (w, NilTransaction)
      | (w, Some c) => (fst (next_call (fst (sql_rollback c w))), EmptyRow)
      end
  | Ok tenantID =>
      match sql_begin w with
      | (w, None) => (fst (next_call w), EmptyRow)
      | (w, Some c) =>
          match set_local tenantID c w with
          | (w, None) => (fst (next_call (fst (sql_rollback c w))), EmptyRow)
          | (w, Some c) => (fst (statement sql c w), TxRow c)
          end
      end
  end.

(** [rlsSQLRows.Close], with its flag. *)
Definition SQLRows_Close (closed : bool) (c : conn) (w : driver) : driver * conn * bool :=
  if closed then (w, c, true) else let '(w, c) := sql_rollback c w in (w, c, true).

(** ** Facts about the driver's calls *)
Lemma next_call_keeps w :
  out (fst (next_call w)) = out w ∧ ran (fst (next_call w)) = ran w ∧ limit (fst (next_call w)) = limit w.
Proof. unfold next_call. by destruct (script w). Qed.

(** Splits the calls of a wrapper into the driver's answers. *)
Ltac answers :=
  repeat match goal with
  | H : context [next_call ?w] |- _ =>
      let H1 := fresh "Hout" in let H2 := fresh "Hran" in let H3 := fresh "Hlim" in
      destruct (next_call_keeps w) as (H1 & H2 & H3);
      destruct (next_call w) as [? []]; simpl in *; simplify_eq/=
  | |- context [next_call ?w] =>
      let H1 := fresh "Hout" in let H2 := fresh "Hran" in let H3 := fresh "Hlim" in
      destruct (next_call_keeps w) as (H1 & H2 & H3);
      destruct (next_call w) as [? []]; simpl in *; simplify_eq/=
  end.

(** What a call may do: run nothing, or the caller's statement once under the
    tenant of its context; and take [d] connections. *)
Definition effect (ctx : context) (sql : string) (d : Z) (w w' : driver) : Prop :=
  out w' = out w + d ∧ limit w' = limit w ∧
  (ran w' = ran w ∨ ∃ t, TenantIDFromContext ctx = Ok t ∧ ran w' = (ran w ++ [(Some t, sql)])%list).

Lemma acquire_spec w w' r :
  acquire w = (w', r) →
  ran w' = ran w ∧ limit w' = limit w ∧
  match r with
  | Some c => out w' = out w + 1 ∧ c = {| released := false; tx := None |} ∧ out w < limit w
  | None => out w' = out w
  end.
Proof.
  unfold acquire. destruct (Z.leb_spec (limit w) (out w)); [by intros [= <- <-]|].
  intros Ha. answers; split_and!; try done; lia.
Qed.

Lemma begin_scoped_spec what ctx w w' r :
  begin_scoped what ctx w = (w', r) →
  ran w' = ran w ∧ limit w' = limit w ∧
  match r with
  | Ok c => out w' = out w + 1 ∧ released c = false ∧
            ∃ t, TenantIDFromContext ctx = Ok t ∧ tx c = Some (Some t)
  | Err _ => out w' = out w
  end.
Proof.
  unfold begin_scoped. destruct (TenantIDFromContext ctx) as [t|e] eqn:Et; [|by intros [= <- <-]].
  destruct (acquire w) as [w1 [c|]] eqn:Ea; apply acquire_spec in Ea as (Hr & Hl & Ho);
    [|by intros [= <- <-]].
  destruct Ho as (Ho & -> & Hlt). unfold begin, set_local, rollback, release, set_out. simpl.
  intros Hb. answers; split_and!; simpl; try congruence; try lia. exists t. split; congruence.
Qed.

Lemma rollback_release_spec c w w' c' :
  (let '(w, c) := rollback c w in release c w) = (w', c') →
  ran w' = ran w ∧ limit w' = limit w ∧ released c' = true ∧
  out w' = (if released c then out w else out w - 1).
Proof.
  unfold rollback, release, set_out. destruct c as [rel [t|]]; simpl; intros H; answers;
    destruct rel; simplify_eq/=; split_and!; congruence || lia.
Qed.

Lemma sql_begin_spec w w' r :
  sql_begin w = (w', r) →
  ran w' = ran w ∧ limit w' = limit w ∧
  match r with
  | Some c => out w' = out w + 1 ∧ c = {| released := false; tx := Some None |} ∧ out w < limit w
  | None => out w' = out w
  end.
Proof.
  unfold sql_begin. destruct (acquire w) as [w1 [c|]] eqn:Ea; apply acquire_spec in Ea as (Hr & Hl & Ho);
    intros [= <- <-]; [|done]. by destruct Ho as (Ho & -> & Hlt).
Qed.

Lemma DB_BeginTx_spec ctx w w' r :
  DB_BeginTx ctx w = (w', r) →
  ran w' = ran w ∧ limit w' = limit w ∧
  match r with
  | Ok c => out w' = out w + 1 ∧ released c = false ∧
            ∃ t, TenantIDFromContext ctx = Ok t ∧ tx c = Some (Some t)
  | Err _ => out w' = out w
  end.
Proof.
  unfold DB_BeginTx. destruct (TenantIDFromContext ctx) as [t|e] eqn:Et; [|by intros [= <- <-]].
  destruct (sql_begin w) as [w1 [c|]] eqn:Ea; apply sql_begin_spec in Ea as (Hr & Hl & Ho);
    [|by intros [= <- <-]].
  destruct Ho as (Ho & -> & Hlt). unfold set_local, sql_rollback, rollback, release, set_out. simpl.
  intros Hb. answers; split_and!; simpl; try congruence; try lia. exists t. split; congruence.
Qed.

Lemma Pool_Exec_effect ctx sql w : effect ctx sql 0 w (fst (Pool_Exec ctx sql w)).
Proof.
  unfold Pool_Exec. destruct (TenantIDFromContext ctx) as [t|e] eqn:Et; [|split_and!; simpl; auto; lia].
  destruct (acquire w) as [w1 [c|]] eqn:Ea; apply acquire_spec in Ea as (Hr & Hl & Ho);
    [|split_and!; simpl; auto; lia].
  destruct Ho as (Ho & -> & Hlt).
  unfold begin, set_local, statement, commit, rollback, release, set_out, log_stmt. simpl.
  answers; split_and!; simpl; try congruence; try lia; try (by left; congruence);
    right; exists t; (split; [done|congruence]).
Qed.

Lemma DB_ExecContext_effect ctx sql w : effect ctx sql 0 w (fst (DB_ExecContext ctx sql w)).
Proof.
  unfold DB_ExecContext. destruct (TenantIDFromContext ctx) as [t|e] eqn:Et; [|split_and!; simpl; auto; lia].
  destruct (sql_begin w) as [w1 [c|]] eqn:Ea; apply sql_begin_spec in Ea as (Hr & Hl & Ho);
    [|split_and!; simpl; auto; lia].
  destruct Ho as (Ho & -> & Hlt).
  unfold set_local, statement, sql_commit, sql_rollback, commit, rollback, release, set_out, log_stmt. simpl.
  answers; split_and!; simpl; try congruence; try lia; try (by left; congruence);
    right; exists t; (split; [done|congruence]).
Qed.

(** A statement on a scoped transaction, and what its failure does. *)
Lemma statement_scoped sql c w w' ok t :
  statement sql c w = (w', ok) → tx c = Some (Some t) →
  out w' = out w ∧ limit w' = limit w ∧ ran w' = (ran w ++ [(Some t, sql)])%list.
Proof.
  unfold statement. intros Hs Ht. rewrite Ht in Hs. simpl in Hs.
  destruct (next_call_keeps (log_stmt (Some t) sql w)) as (H1 & H2 & H3). rewrite Hs in H1, H2, H3. done.
Qed.

Definition taken {A} (r : result db_error A) : Z := if is_ok r then 1 else 0.

Lemma Pool_Query_effect ctx sql w w' r :
  Pool_Query ctx sql w = (w', r) → effect ctx sql (taken r) w w'.
Proof.
  unfold Pool_Query. destruct (begin_scoped _ ctx w) as [w1 [c|e]] eqn:Eb;
    apply begin_scoped_spec in Eb as (Hr & Hl & Ho).
  2: { intros [= <- <-]. split_and!; simpl; auto; unfold taken; simpl; lia. }
  destruct Ho as (Ho & Hrel & t & Ht & Htx). destruct (statement sql c w1) as [w2 ok] eqn:Es.
  apply (statement_scoped _ _ _ _ _ t) in Es as (Hs1 & Hs2 & Hs3); [|done].
  destruct ok.
  - intros [= <- <-]. split_and!; unfold taken; simpl; try congruence; try lia.
    right. exists t. split; congruence.
  - destruct (rollback c w2) as [w3 c3] eqn:Er. intros [= <- <-].
    destruct (release c3 w3) as [w4 c4] eqn:El. simpl.
    destruct (rollback_release_spec c w2 w4 c4) as (H1 & H2 & _ & H4); [by rewrite Er|].
    rewrite Hrel in H4. split_and!; unfold taken; simpl; try congruence; try lia.
    right. exists t. split; congruence.
Qed.

Lemma DB_QueryContext_effect ctx sql w w' r :
  DB_QueryContext ctx sql w = (w', r) → effect ctx sql (taken r) w w'.
Proof.
  unfold DB_QueryContext. destruct (DB_BeginTx ctx w) as [w1 [c|e]] eqn:Eb;
    apply DB_BeginTx_spec in Eb as (Hr & Hl & Ho).
  2: { intros [= <- <-]. split_and!; simpl; auto; unfold taken; simpl; lia. }
  destruct Ho as (Ho & Hrel & t & Ht & Htx). destruct (statement sql c w1) as [w2 ok] eqn:Es.
  apply (statement_scoped _ _ _ _ _ t) in Es as (Hs1 & Hs2 & Hs3); [|done].
  destruct ok.
  - intros [= <- <-]. split_and!; unfold taken; simpl; try congruence; try lia.
    right. exists t. split; congruence.
  - intros [= <- <-]. unfold sql_rollback. destruct (let '(w, c) := rollback c w2 in release c w) as [w4 c4] eqn:El.
    destruct (rollback_release_spec c w2 w4 c4 El) as (H1 & H2 & _ & H4). simpl.
    rewrite Hrel in H4. split_and!; unfold taken; simpl; try congruence; try lia.
    right. exists t. split; congruence.
Qed.

Lemma Pool_QueryRow_effect ctx sql w w' r :
  Pool_QueryRow ctx sql w = (w', r) → effect ctx sql (taken r) w w'.
Proof.
  unfold Pool_QueryRow. destruct (begin_scoped _ ctx w) as [w1 [c|e]] eqn:Eb;
    apply begin_scoped_spec in Eb as (Hr & Hl & Ho); intros [= <- <-].
  2: { split_and!; simpl; auto; unfold taken; simpl; lia. }
  destruct Ho as (Ho & Hrel & t & Ht & Htx). destruct (statement sql c w1) as [w2 ok] eqn:Es.
  apply (statement_scoped _ _ _ _ _ t) in Es as (Hs1 & Hs2 & Hs3); [|done].
  split_and!; unfold taken; simpl; try congruence; try lia. right. exists t. split; congruence.
Qed.

(** ** The two kinds of call *)
Definition row_taken (r : row) : Z := match r with TxRow _ => 1 | _ => 0 end.

Lemma DB_QueryRowContext_effect ctx sql w w' r :
  DB_QueryRowContext ctx sql w = (w', r) → effect ctx sql (row_taken r) w w'.
Proof.
  unfold DB_QueryRowContext. destruct (TenantIDFromContext ctx) as [t|e] eqn:Et;
  (destruct (sql_begin w) as [w1 [c|]] eqn:Ea; apply sql_begin_spec in Ea as (Hr & Hl & Ho);
     [destruct Ho as (Ho & -> & Hlt)|]);
  unfold set_local, statement, sql_rollback, rollback, release, set_out, log_stmt; simpl;
  intros Hq; answers; simplify_eq/=; split_and!; simpl; try congruence; try lia; try (by left; congruence);
    right; exists t; (split; [done|congruence]).
Qed.

(** The calls a request makes on the two wrappers. *)
Inductive call :=
| PoolExec (ctx : context) (sql : string)
| PoolQuery (ctx : context) (sql : string)
| PoolQueryRow (ctx : context) (sql : string)
| DBExec (ctx : context) (sql : string)
| DBQuery (ctx : context) (sql : string)
| DBQueryRow (ctx : context) (sql : string).

Definition run_call (w : driver) (c : call) : driver :=
  match c with
  | PoolExec ctx sql => fst (Pool_Exec ctx sql w)
  | PoolQuery ctx sql => fst (Pool_Query ctx sql w)
  | PoolQueryRow ctx sql => fst (Pool_QueryRow ctx sql w)
  | DBExec ctx sql => fst (DB_ExecContext ctx sql w)
  | DBQuery ctx sql => fst (DB_QueryContext ctx sql w)
  | DBQueryRow ctx sql => fst (DB_QueryRowContext ctx sql w)
  end.

Definition call_of (c : call) : context * string :=
  match c with
  | PoolExec ctx sql | PoolQuery ctx sql | PoolQueryRow ctx sql
  | DBExec ctx sql | DBQuery ctx sql | DBQueryRow ctx sql => (ctx, sql)
  end.

Lemma run_call_effect w c : ∃ d, effect (call_of c).1 (call_of c).2 d w (run_call w c).
Proof.
  destruct c as [ctx sql|ctx sql|ctx sql|ctx sql|ctx sql|ctx sql]; simpl.
  - eexists. apply Pool_Exec_effect.
  - destruct (Pool_Query ctx sql w) eqn:E. eexists. by eapply Pool_Query_effect.
  - destruct (Pool_QueryRow ctx sql w) eqn:E. eexists. by eapply Pool_QueryRow_effect.
  - eexists. apply DB_ExecContext_effect.
  - destruct (DB_QueryContext ctx sql w) eqn:E. eexists. by eapply DB_QueryContext_effect.
  - destruct (DB_QueryRowContext ctx sql w) eqn:E. eexists. by eapply DB_QueryRowContext_effect.
Qed.

(** C31: Tenant isolation. Whatever calls requests of any tenants make, and
    whichever driver calls fail on the way, every statement the database runs
    belongs to one of the calls and runs under the tenant of that call's
    context; a call without a tenant runs nothing. *)
Theorem statements_scoped w cs tenant sql :
  (tenant, sql) ∈ ran (foldl run_call w cs) →
  (tenant, sql) ∈ ran w ∨
  ∃ c t, c ∈ cs ∧ (call_of c).2 = sql ∧ TenantIDFromContext (call_of c).1 = Ok t ∧ tenant = Some t.
Proof.
  revert w. induction cs as [|c cs IH]; intros w Hin; [by left|]. simpl in Hin.
  destruct (IH _ Hin) as [Hw|(c' & t & Hc & Hx)].
  - destruct (run_call_effect w c) as (d & _ & _ & [Hr|(t & Ht & Hr)]); rewrite Hr in Hw; [by left|].
    apply elem_of_app in Hw as [Hw|Hw%list_elem_of_singleton]; [by left|]. simplify_eq.
    right. exists c, t. split_and!; [left|done..].
  - right. exists c', t. split; [by right|done].
Qed.

Lemma statements_scoped_witness :
  let w := {| limit := 4; out := 0; script := [true; true; false]; ran := [] |} in
  let cs := [PoolExec (ContextWithTenantID "t1") "UPDATE"; DBExec (ContextWithTenantID "t2") "DELETE";
             PoolExec {| DefaultTenantID := None; MiddlewareTenantID := Some "" |} "DROP"] in
  ran (foldl run_call w cs) = [(Some "t2", "DELETE")] ∧
  ((Some "t2", "DELETE") ∈ ran w ∨
   ∃ c t, c ∈ cs ∧ (call_of c).2 = "DELETE" ∧ TenantIDFromContext (call_of c).1 = Ok t ∧ Some "t2" = Some t).
Proof.
  intros w cs. assert (ran (foldl run_call w cs) = [(Some "t2", "DELETE")]) as E by (vm_compute; reflexivity).
  split; [exact E|]. apply (statements_scoped w cs). rewrite E. by apply list_elem_of_singleton.
Defined.

(** Connections are given back. [Exec] on either wrapper returns its
    connection on every path; the calls that hand a transaction out take
    exactly one when they succeed and none when they fail, and committing,
    rolling back or scanning gives it back, once. *)
Theorem connections_balanced ctx sql w :
  out (fst (Pool_Exec ctx sql w)) = out w ∧
  out (fst (DB_ExecContext ctx sql w)) = out w ∧
  (∀ c, match Pool_BeginTx ctx w with
        | (w', Ok c') => out w' = out w + 1 ∧
            out (fst (fst (Tx_Commit c' w'))) = out w ∧ out (fst (Tx_Rollback c' w')) = out w
        | (w', Err _) => out w' = out w
        end ∧
        out (fst (Row_Scan (snd (Row_Scan c w)) (fst (Row_Scan c w)))) = out (fst (Row_Scan c w))).
Proof.
  split_and!; [destruct (Pool_Exec_effect ctx sql w); lia|destruct (DB_ExecContext_effect ctx sql w); lia|].
  intros c. split.
  - unfold Pool_BeginTx. destruct (begin_scoped _ ctx w) as [w1 [c1|e]] eqn:Eb;
      apply begin_scoped_spec in Eb as (Hr & Hl & Ho); [|done].
    destruct Ho as (Ho & Hrel & t & Ht & Htx). split_and!; [done| |].
    + unfold Tx_Commit, commit, release, end_tx, set_out. rewrite Htx. answers; rewrite Hrel; simpl; lia.
    + unfold Tx_Rollback. destruct (let '(w, c) := rollback c1 w1 in release c w) as [w2 c2] eqn:E.
      apply rollback_release_spec in E as (_ & _ & _ & E). rewrite Hrel in E. simpl. lia.
  - unfold Row_Scan. destruct (let '(w, c) := rollback c w in release c w) as [w1 c1] eqn:E1. simpl.
    destruct (let '(w, c) := rollback c1 w1 in release c w) as [w2 c2] eqn:E2.
    apply rollback_release_spec in E1 as (_ & _ & H1 & _), E2 as (_ & _ & _ & H2).
    rewrite H1 in H2. done.
Qed.

(** [RLSDB.QueryRowContext] never ends its transaction, so every call that
    answers a row keeps a connection for good: after as many calls as the pool
    has connections, every further call fails, on either wrapper. *)
Theorem query_row_exhausts_pool ctx t sql n :
  TenantIDFromContext ctx = Ok t → 0 ≤ n →
  let w0 := {| limit := n; out := 0; script := []; ran := [] |} in
  let w := foldl run_call w0 (replicate (Z.to_nat n) (DBQueryRow ctx sql)) in
  out w = n ∧
  ∀ ctx' sql', is_ok (snd (Pool_Exec ctx' sql' w)) = false ∧ is_ok (snd (DB_ExecContext ctx' sql' w)) = false.
Proof.
  intros Ht Hn w0 w.
  assert (∀ k m, 0 ≤ m → m + Z.of_nat k ≤ n → ∀ r,
    let w := foldl run_call {| limit := n; out := m; script := []; ran := r |}
               (replicate k (DBQueryRow ctx sql)) in
    out w = m + Z.of_nat k ∧ limit w = n) as Hk.
  { induction k as [|k IH]; intros m Hm Hk r; [simpl; lia|].
    assert (run_call {| limit := n; out := m; script := []; ran := r |} (DBQueryRow ctx sql) =
            {| limit := n; out := m + 1; script := []; ran := (r ++ [(Some t, sql)])%list |}) as E.
    { cbn [run_call]. unfold DB_QueryRowContext, sql_begin, acquire. rewrite Ht. simpl.
      by destruct (Z.leb_spec n m); [lia|]. }
    cbn [replicate foldl]. rewrite E. destruct (IH (m + 1) ltac:(lia) ltac:(lia) (r ++ [(Some t, sql)])%list) as [H1 H2].
    split; [|done]. rewrite H1. lia. }
  destruct (Hk (Z.to_nat n) 0 ltac:(lia) ltac:(lia) []) as [Ho Hl]. fold w0 in Ho, Hl. fold w in Ho, Hl.
  split; [lia|]. intros ctx' sql'.
  unfold Pool_Exec, DB_ExecContext, sql_begin, acquire.
  destruct (Z.leb_spec (limit w) (out w)); [|lia]. by destruct (TenantIDFromContext ctx').
Qed.

Lemma query_row_exhausts_pool_witness :
  let w0 := {| limit := 3; out := 0; script := []; ran := [] |} in
  let w := foldl run_call w0 (replicate 3 (DBQueryRow (ContextWithTenantID "t") "SELECT")) in
  out w = 3 ∧ is_ok (snd (Pool_Exec (ContextWithTenantID "u") "SELECT" w)) = false.
Proof.
  destruct (query_row_exhausts_pool (ContextWithTenantID "t") "t" "SELECT" 3) as [H1 H2];
    [reflexivity|lia|]. split; [exact H1|]. apply H2.
Defined.
