(* ===== verification/DbAccess.v ===== *)
(** * Circuit breaker and read routing in front of the database

    Models [internal/db/breaker.go] (a pool behind [gobreaker]) and
    [internal/db/router.go] (reads go to a replica while it is healthy). The
    breaker package is a class: it admits a request or turns it away, and is
    told how an admitted one ended. *)
From Stdlib Require Import ZArith Lia Ascii String.
From stdpp Require Import base strings list.
From S2P Require Import Prelude GoStrings.
#[local] Open Scope string_scope.
#[local] Open Scope Z_scope.

(** ** The breaker *)
Module Breaker.

Inductive breaker_error := ErrOpenState | ErrTooManyRequests.

Class CircuitBreaker (B : Type) := {
  beforeRequest : Time → B → B * option breaker_error;
  report : Time → bool → B → B;
}.

(** Errors of a call: the breaker's, the database's, and the transaction
    being over ([pgx.ErrTxClosed]). *)
Inductive error := Rejected (e : breaker_error) | CircuitOpen (e : breaker_error) | Database (e : string)
                 | TxClosed | NotInitialized.

Section pool.
(** [B] is the breaker, [W] the database. The clock is read when a request
    starts and when it ends. *)
Context {B W : Type} `{CircuitBreaker B}.

Definition operation (A : Type) : Type := W → W * result error A.

(** [breaker.Execute]: the request runs when it is admitted; [IsSuccessful]
    is [err == nil]. *)
Definition Execute {A} (t1 t2 : Time) (fn : operation A) (b : B) (w : W) : B * W * result error A :=
  match beforeRequest t1 b with
  | (b, Some e) => (b, w, Err (Rejected e))
  | (b, None) => let '(w, r) := fn w in (report t2 (is_ok r) b, w, r)
  end.

Definition wrap_open {A} (r : result error A) : result error A :=
  match r with Err (Rejected ErrOpenState) => Err (CircuitOpen ErrOpenState) | r => r end.

(** [execute], [PingContext] and [Ping] name the open circuit. *)
Definition execute (b : option B) (t1 t2 : Time) (fn : operation unit) (w : W)
    : option B * W * result error unit :=
  match b with
  | None => (None, w, Err NotInitialized)
  | Some b => let '(b, w, r) := Execute t1 t2 fn b w in (Some b, w, wrap_open r)
  end.
Definition PingContext (ping : operation unit) (t1 t2 : Time) (b : B) (w : W) : B * W * result error unit :=
  let '(b, w, r) := Execute t1 t2 ping b w in (b, w, wrap_open r).
Definition Ping : operation unit → Time → Time → B → W → B * W * result error unit := PingContext.

(** [Query], [Exec], [Begin] and [Acquire] of the pool, and [Query] and [Exec]
    of a transaction: the error of [Execute] is returned. *)
Definition reported {A} (fn : operation A) (t1 t2 : Time) (b : B) (w : W) : B * W * result error A :=
  Execute t1 t2 fn b w.
Definition Pool_Query {A} : operation A → Time → Time → B → W → B * W * result error A := reported.
Definition Pool_Exec {A} : operation A → Time → Time → B → W → B * W * result error A := reported.
Definition Pool_Begin {A} : operation A → Time → Time → B → W → B * W * result error A := reported.
Definition Pool_Acquire {A} : operation A → Time → Time → B → W → B * W * result error A := reported.
Definition Tx_Query {A} : operation A → Time → Time → B → W → B * W * result error A := reported.
Definition Tx_Exec {A} : operation A → Time → Time → B → W → B * W * result error A := reported.

(** [Scan], [Commit], [Prepare], [CopyFrom] and the nested [Begin]: the result
    of [Execute] is dropped, and what is returned are variables the request
    assigns; [zero] is their initial value. *)
Definition captured {A} (zero : A) (fn : operation A) (t1 t2 : Time) (b : B) (w : W)
    : B * W * result error A :=
  match beforeRequest t1 b with
  | (b, Some _) => (b, w, Ok zero)
  | (b, None) => let '(w, r) := fn w in (report t2 (is_ok r) b, w, r)
  end.
Definition Row_Scan (scan : operation unit) : Time → Time → B → W → B * W * result error unit := captured tt scan.
Definition Tx_Commit (commit : operation unit) : Time → Time → B → W → B * W * result error unit :=
  captured tt commit.
Definition Tx_Prepare {A} (prepare : operation (option A))
    : Time → Time → B → W → B * W * result error (option A) := captured None prepare.
Definition Tx_CopyFrom (copy : operation Z) : Time → Time → B → W → B * W * result error Z := captured 0 copy.
(** A nested transaction is [None] when the variable was never assigned. *)
Definition Tx_Begin {A} (begin : operation (option A))
    : Time → Time → B → W → B * W * result error (option A) := captured None begin.

(** [Rollback] counts the end of a closed transaction as a success and still
    returns the error. *)
Definition Tx_Rollback (rollback : operation unit) (t1 t2 : Time) (b : B) (w : W)
    : B * W * result error unit :=
  match beforeRequest t1 b with
  | (b, Some _) => (b, w, Ok tt)
  | (b, None) =>
      let '(w, r) := rollback w in
      let ok := match r with Ok _ => true | Err TxClosed => true | Err _ => false end in
      (report t2 ok b, w, r)
  end.

(** Pool operations report what happened: success means the operation was
    admitted, ran and succeeded; a request that was turned away did not touch
    the database. *)
Lemma reported_exact {A} (fn : operation A) t1 t2 b w :
  let '(_, w', r) := reported fn t1 t2 b w in
  match r with
  | Ok a => snd (beforeRequest t1 b) = None ∧ fn w = (w', Ok a)
  | Err (Rejected e) => snd (beforeRequest t1 b) = Some e ∧ w' = w ∨ fn w = (w', r)
  | Err _ => fn w = (w', r)
  end.
Proof.
  unfold reported, Execute. destruct (beforeRequest t1 b) as [b' [e|]]; [by left|].
  destruct (fn w) as [w' [a|[]]] eqn:E; simpl; auto.
Qed.

(** While the circuit is open, [Commit] answers nil without committing:
    whenever the breaker turns the request away, the database is untouched
    and the caller is told that the transaction was committed; a scan is
    reported as successful in the same way, and a nested [Begin] answers a
    transaction that does not exist. *)
Theorem rejected_commit_reports_success (commit scan : operation unit) {A} (begin : operation (option A))
    t1 t2 b w e :
  snd (beforeRequest t1 b) = Some e →
  (let '(_, w', r) := Tx_Commit commit t1 t2 b w in w' = w ∧ r = Ok tt) ∧
  (let '(_, w', r) := Row_Scan scan t1 t2 b w in w' = w ∧ r = Ok tt) ∧
  (let '(_, w', r) := Tx_Begin begin t1 t2 b w in w' = w ∧ r = Ok None).
Proof.
  intros He. unfold Tx_Commit, Row_Scan, Tx_Begin, captured.
  destruct (beforeRequest t1 b) as [b' [e'|]]; [done|discriminate].
Qed.

Lemma admitted_commit_exact (commit : operation unit) t1 t2 b w :
  snd (beforeRequest t1 b) = None →
  let '(_, w', r) := Tx_Commit commit t1 t2 b w in commit w = (w', r).
Proof.
  intros Ha. unfold Tx_Commit, captured. destruct (beforeRequest t1 b) as [b' [|]]; [done|].
  by destruct (commit w).
Qed.
End pool.

(** A breaker that opens after one failure and stays open until a time. *)
Record trip := { open_until : Time }.
#[export] Instance trip_breaker : CircuitBreaker trip := {
  beforeRequest now b := if now <? open_until b then (b, Some ErrOpenState) else (b, None);
  report now ok b := if ok then b else {| open_until := now + 30 * Time.Second |};
}.

(** A database with a committed and a pending value. *)
Definition commit_pending : operation (W := Z * option Z) unit :=
  λ w, match snd w with Some v => ((v, None), Ok tt) | None => (w, Err TxClosed) end.

Lemma rejected_commit_reports_success_witness :
  let '(_, w', r) := Tx_Commit commit_pending 5 6 {| open_until := 10 |} (1, Some 2) in
  w' = (1, Some 2) ∧ r = Ok tt.
Proof.
  exact (proj1 (rejected_commit_reports_success commit_pending commit_pending (A := unit)
    (λ w, (w, Ok None)) 5 6 {| open_until := 10 |} (1, Some 2) ErrOpenState eq_refl)).
Defined.
End Breaker.

(** ** The read router *)
Module Router.

Inductive target := Primary | Replica.

(** Which backends exist is fixed; [ping] is the answer of the replica's
    health check, [None] when it has none. *)
Record ReadRouter := {
  has_replica : bool;
  has_replica2 : bool;
  replicaDown : bool;
  lastCheck : Time;
  pingTimeout : Duration;
  healthCheckFreq : Duration;
  hedgeDelay : Duration;
}.

Definition NewReadRouterWithReplicas (replica replica2 : bool) : ReadRouter :=
  {| has_replica := replica; has_replica2 := replica2; replicaDown := false; lastCheck := Time.zero;
     pingTimeout := 50 * Time.Millisecond; healthCheckFreq := 5 * Time.Second;
     hedgeDelay := 50 * Time.Millisecond |}.

Definition NewReadRouter (replica : bool) : ReadRouter := NewReadRouterWithReplicas replica false.

Definition checked (now : Time) (down : bool) (r : ReadRouter) : ReadRouter :=
  {| has_replica := has_replica r; has_replica2 := has_replica2 r; replicaDown := down; lastCheck := now;
     pingTimeout := pingTimeout r; healthCheckFreq := healthCheckFreq r; hedgeDelay := hedgeDelay r |}.

(** The context as the router sees it: absent, or with a freshness token. *)
Inductive ctx := NilContext | Context (token : option string).

(** [Reader] reads the clock before the lock, at the check under the lock and
    when it records the check. *)
Record reader_times := { t_down : Time; t_stale : Time; t_locked : Time; t_check : Time }.

Definition Reader (c : ctx) (t : reader_times) (ping_fails : bool) (r : ReadRouter) : ReadRouter * target :=
  match c with
  | NilContext => (r, Primary)
  | Context token =>
      let fresh := match token with Some s => negb (bool_decide (s = "")) | None => false end in
      if fresh then (r, Primary)
      else if negb (has_replica r) then (r, Primary)
      else
        let last := lastCheck r in
        if replicaDown r && (Time.Sub (t_down t) last <? healthCheckFreq r) then (r, Primary)
        else
          let '(r, isDown) :=
            if healthCheckFreq r <=? Time.Sub (t_stale t) last then
              let r := if healthCheckFreq r <=? Time.Sub (t_locked t) (lastCheck r)
                       then checked (t_check t) ping_fails r else r in
              (r, replicaDown r)
            else (r, replicaDown r) in
          (r, if isDown then Primary else Replica)
  end.

Definition forbidden_words : list string :=
  ["INSERT"; "UPDATE"; "DELETE"; "MERGE"; "TRUNCATE"; "CREATE"; "ALTER"; "DROP"; "REPLACE"; "CALL"; "DO"; "COPY"].

Definition shouldHedge (query : string) : bool :=
  let q := TrimSpace query in
  if decide (q = "") then false
  else if Contains q ";" then false
  else
    let upper := ToUpper q in
    if negb (HasPrefix upper "SELECT") then false
    else if any (Contains upper) forbidden_words then false
    else negb (Contains upper "FOR UPDATE") && negb (Contains upper "FOR SHARE").

(** Where a call goes: writes to the primary, reads to the reader's choice. *)
Definition ExecContext_target : target := Primary.
Definition hedged (c : ctx) (query : string) (t : reader_times) (ping_fails : bool) (r : ReadRouter)
    : ReadRouter * bool :=
  let '(r, selected) := Reader c t ping_fails r in
  (r, match selected with Primary => false | Replica => shouldHedge query && has_replica2 r end).

(** The clock's readings within one call do not run backwards. *)
Definition ordered (t : reader_times) : Prop :=
  t_down t ≤ t_stale t ≤ t_locked t ∧ t_locked t ≤ t_check t.

(** Reads that must see the caller's writes never go to the replica. *)
Lemma fresh_reads_primary token t p r : token ≠ "" → snd (Reader (Context (Some token)) t p r) = Primary.
Proof. intros Ht. simpl. by rewrite bool_decide_false. Qed.

(** A failed health check keeps every reader on the primary for the whole
    check interval; afterwards the replica is used only when a new check
    succeeded. *)
Theorem down_replica_avoided c t p r :
  replicaDown r = true → ordered t → lastCheck r ≤ t_down t →
  snd (Reader c t p r) = Replica →
  lastCheck r + healthCheckFreq r ≤ t_locked t ∧ p = false ∧
  replicaDown (fst (Reader c t p r)) = false ∧ lastCheck (fst (Reader c t p r)) = t_check t.
Proof.
  intros Hd (Ho1 & Ho2) Hl. unfold Reader. destruct c as [|token]; [done|].
  destruct (match token with Some s => _ | None => _ end); [done|].
  destruct (has_replica r); [|done]. simpl. rewrite Hd. simpl.
  destruct (Z.ltb_spec (Time.Sub (t_down t) (lastCheck r)) (healthCheckFreq r)); [done|].
  destruct (Z.leb_spec (healthCheckFreq r) (Time.Sub (t_stale t) (lastCheck r))).
  - destruct (Z.leb_spec (healthCheckFreq r) (Time.Sub (t_locked t) (lastCheck r))).
    + cbn [replicaDown checked fst snd]. destruct p; [done|]. intros _. split_and!; try done.
      unfold Time.Sub, max_int64, min_int64 in *. lia.
    + simpl. rewrite ?Hd. done.
  - simpl. rewrite ?Hd. done.
Qed.
End Router.
