(* ===== verification/Sharded.v ===== *)
(** * The sharded outbox dispatcher

    Models [internal/outbox/sharded_dispatcher.go] (shard ownership by
    advisory locks, fetching the events of the owned shards, draining them)
    and the queries it makes of [internal/outbox/postgres_pgx_repository.go],
    the repository that knows shards. Events, the other repository, the
    failure state and the record of what was published are those of [Outbox];
    the locks are those of [Leader]. *)
From Stdlib Require Import ZArith Lia.
From stdpp Require Import base gmap strings list sorting relations.
From S2P Require Import Prelude GoFloat Leader Outbox.
#[local] Open Scope string_scope.
#[local] Open Scope Z_scope.

(** ** Construction *)
Inductive shard_error :=
| ShardCountNotPositive
| NoOwnedShards
| NoDatabase
| ShardOutOfRange (s : Z)
| LockFailed (s : Z)
| NoShardsAcquired.

Record shardedDispatcher := {
  config : DispatcherConfig;
  ownedShards : gset Z;
  ownedShardsList : list Z;
}.

Fixpoint check_shards (count : Z) (shards : list Z) (owned : gset Z) : result shard_error (gset Z) :=
  match shards with
  | [] => Ok owned
  | s :: shards =>
      if (s <? 0) || (count <=? s) then Err (ShardOutOfRange s)
      else check_shards count shards ({[s]} ∪ owned)
  end.

Definition with_intervals (c : DispatcherConfig) : DispatcherConfig :=
  {| PollInterval := PollInterval c; BatchSize := BatchSize c; MaxRetries := MaxRetries c;
     RetryBackoffFactor := RetryBackoffFactor c;
     CleanupInterval := if CleanupInterval c <=? 0 then Time.Hour else CleanupInterval c;
     CompletedEventTTL := if CompletedEventTTL c <=? 0 then 24 * Time.Hour else CompletedEventTTL c;
     ProcessingTimeout := ProcessingTimeout c; ShardCount := ShardCount c; OwnedShards := OwnedShards c;
     HeartbeatInterval := if HeartbeatInterval c <=? 0 then 30 * Time.Second else HeartbeatInterval c |}.

Definition NewShardedDispatcher (has_db : bool) (c : DispatcherConfig) : result shard_error shardedDispatcher :=
  if ShardCount c <=? 0 then Err ShardCountNotPositive
  else match OwnedShards c with
  | [] => Err NoOwnedShards
  | _ =>
      if negb has_db then Err NoDatabase
      else match check_shards (ShardCount c) (OwnedShards c) ∅ with
      | Err e => Err e
      | Ok owned =>
          Ok {| config := with_intervals c; ownedShards := owned; ownedShardsList := OwnedShards c |}
      end
  end.

(** ** Ownership *)
Section ownership.
Context {D : Type} `{AdvisoryLocks D}.

(** The loop of [acquireShardLocks]; [fails] tells whether a query fails. The
    shards given up before a failure stay given up. *)
Fixpoint acquire_loop (fails : Z → bool) (session : nat) (shards : list Z) (owned : gset Z) (d : D)
    : D * gset Z * option shard_error :=
  match shards with
  | [] => (d, owned, None)
  | shard :: shards =>
      match AcquireLock (fails shard) session shard d with
      | (d, LockError) => (d, owned, Some (LockFailed shard))
      | (d, LockDenied) => acquire_loop fails session shards (owned ∖ {[shard]}) d
      | (d, LockAcquired) => acquire_loop fails session shards owned d
      end
  end.

Definition set_owned (owned : gset Z) (l : list Z) (s : shardedDispatcher) : shardedDispatcher :=
  {| config := config s; ownedShards := owned; ownedShardsList := l |}.

(** The list is rebuilt from the set, in order. *)
Definition sorted_shards (owned : gset Z) : list Z := merge_sort Z.le (elements owned).

Definition acquireShardLocks (fails : Z → bool) (session : nat) (s : shardedDispatcher) (d : D)
    : D * shardedDispatcher * option shard_error :=
  match acquire_loop fails session (ownedShardsList s) (ownedShards s) d with
  | (d, owned, Some e) => (d, set_owned owned (ownedShardsList s) s, Some e)
  | (d, owned, None) =>
      let l := sorted_shards owned in
      (d, set_owned owned l s, if bool_decide (l = []) then Some NoShardsAcquired else None)
  end.

Definition releaseAllLocks (fails : Z → bool) (session : nat) (s : shardedDispatcher) (d : D) : D :=
  foldl (λ d shard, ReleaseLock (fails shard) session shard d) d (ownedShardsList s).

(** [verifyLockHealth]: a lost connection gives the shards up. *)
Definition verifyLockHealth (ping_fails : bool) (s : shardedDispatcher) : shardedDispatcher :=
  if ping_fails then set_owned ∅ [] s else s.

Definition currentShards (s : shardedDispatcher) : list Z := ownedShardsList s.
End ownership.

(** ** The pgx repository

    Rows carry their partition; the two calls of the per-publisher protocol
    are not implemented there. *)
Definition in_shards (shards : list Z) (e : Event) : bool := bool_decide (Partition e ∈ shards).

(** An [INSERT] with a list of columns, a [VALUES] list of placeholders and
    arguments: the server refuses lists of different lengths, the driver an
    argument count that is not the number of placeholders. *)
Definition pgx_insert (columns placeholders args : nat) (what : string) (q : Database → Database)
    : Database → result repo_error unit * Database :=
  call what (λ db,
    if (columns =? placeholders)%nat && (placeholders =? args)%nat then (Ok tt, q db)
    else (Err (DatabaseError what), db)).

Definition pgx_Store (event : Event) : Database → result repo_error unit * Database :=
  pgx_insert 17 16 17 "failed to store outbox event"
    (λ db, set_events (<[ID event := event]> (outbox_events db)) db).

(** [CopyFrom] inserts all rows or none, with the column [partition] left at
    its default. *)
Fixpoint copy_rows (events : list Event) (m : gmap Z Event) : option (gmap Z Event) :=
  match events with
  | [] => Some m
  | e :: events => if duplicate e m then None else copy_rows events (<[ID e := scanEvent e]> m)
  end.

Definition pgx_BulkInsert (events : list Event) : Database → result repo_error unit * Database :=
  match events with
  | [] => λ db, (Ok tt, db)
  | [e] => pgx_Store e
  | _ =>
      call "failed to bulk insert outbox events" (λ db,
        match copy_rows events (outbox_events db) with
        | Some m => (Ok tt, set_events m db)
        | None => (Err (DatabaseError "failed to bulk insert outbox events"), db)
        end)
  end.

(** Rows of [columns] columns scanned into [destinations] variables. *)
Definition pgx_scan (columns destinations : nat) (rows : list Event) : result repo_error (list Event) :=
  match rows with
  | [] => Ok []
  | _ => if (columns =? destinations)%nat then Ok rows else Err (DatabaseError "failed to scan event")
  end.

(** The view [dead_letter_events] holds the failed rows. *)
Definition pgx_ListDeadLetteredEvents (limit : Z) : Database → result repo_error (list Event) * Database :=
  call "failed to list dead-lettered events" (λ db,
    if limit <? 0 then (Err (DatabaseError "LIMIT must not be negative"), db)
    else (pgx_scan 16 18 (take (Z.to_nat limit)
            (filter (λ e, EventStatus e = StatusFailed) (map_to_list (outbox_events db)).*2)), db)).

Definition pgx_GetPendingEvents `{GoRuntime} (now : Time) (limit : Z)
    : Database → result repo_error (list Event) * Database :=
  call "failed to get pending events" (λ db,
    if limit <? 0 then (Err (DatabaseError "LIMIT must not be negative"), db)
    else (Ok (take (Z.to_nat limit)
                (sort_slice (λ a b, OccurredAt a <? OccurredAt b)
                   (filter (λ e, selectable now e = true) (map_to_list (outbox_events db)).*2))), db)).

Definition GetPendingEventsForShards `{GoRuntime} (now : Time) (shards : list Z) (limit : Z)
    : Database → result repo_error (list Event) * Database :=
  match shards with
  | [] => pgx_GetPendingEvents now limit
  | _ =>
      call "failed to get pending events for shards" (λ db,
        if limit <? 0 then (Err (DatabaseError "LIMIT must not be negative"), db)
        else (Ok (take (Z.to_nat limit)
                    (sort_slice (λ a b, OccurredAt a <? OccurredAt b)
                       (filter (λ e, in_shards shards e && selectable now e = true)
                          (map_to_list (outbox_events db)).*2))), db))
  end.

Definition pgx_GetPendingEventsForPublisher (publisher : string) (limit : Z) (db : Database)
    : result repo_error (list Event) * Database := (Ok [], db).

Definition pgx_MarkPublished (publisher : string) (event : Event) (publishers : list string) (db : Database)
    : result repo_error unit * Database := (Ok tt, db).

(** ** Draining *)

(** The fallback keeps fetched events of the shards, up to the batch size. *)
Fixpoint filter_batch (batch : Z) (shards : list Z) (events filtered : list Event) : list Event :=
  match events with
  | [] => filtered
  | e :: events =>
      let filtered := if in_shards shards e then (filtered ++ [e])%list else filtered in
      if batch <=? Z.of_nat (length filtered) then filtered else filter_batch batch shards events filtered
  end.

(** [sharded] tells whether the repository implements [ShardedRepository]:
    the pgx repository does, that of [Outbox] does not. *)
Definition fetchEvents `{GoRuntime} (sharded : bool) (batch : Z) (now : Time) (shards : list Z)
    : Database → result repo_error (list Event) * Database :=
  if sharded then GetPendingEventsForShards now shards batch
  else λ db,
    match GetPendingEvents now (wrap64 (batch * Z.of_nat (length shards))) db with
    | (Err e, db) => (Err e, db)
    | (Ok events, db) => (Ok (filter_batch batch shards events []), db)
    end.

Section drain.
Context `{GoRuntime}.
Context {W : Type} (tick : W → Time * W) (Publish : string → Event → W → outcome * W).
Context (cfg : DispatcherConfig) (names : list string) (sharded : bool).

Definition mark (t : Time) (name : string) (event : Event) : Database → result repo_error unit * Database :=
  if sharded then pgx_MarkPublished name event names else MarkPublished t name event names.

(** One event: failures are handled as in the plain dispatcher, a timeout is
    only logged. *)
Definition shard_event (name : string) (event : Event) (s : sys (W := W)) : sys :=
  let '(o, w) := Publish name event (world s) in
  let s := {| disp := disp s; db := db s; world := w; sent := (sent s ++ [(name, event, o)])%list |} in
  match o with
  | Replied (Some err) => handleDrainPublishError tick cfg name event err s
  | Replied None =>
      let s := set_disp (set_failures name 0 Time.zero (disp s)) s in
      let '(t, s) := read_clock tick s in
      run_call (mark t name event) s
  | Expired => s
  end.

Definition shard_loop (name : string) (events : list Event) (s : sys (W := W)) : sys :=
  foldl (λ s e, shard_event name e s) s events.

Definition shard_drain (shards : list Z) (name : string) (s : sys (W := W)) : sys :=
  let next := nextAttempt name (disp s) in
  let '(waiting, s) :=
    if Time.IsZero next then (false, s)
    else let '(t, s) := read_clock tick s in (Time.Before t next, s) in
  if waiting : bool then s
  else match shards with
  | [] => s
  | _ =>
      let '(t, s) := read_clock tick s in
      let '(r, b) := fetchEvents sharded (BatchSize cfg) t shards (db s) in
      let s := set_db b s in
      match r with
      | Err _ => s
      | Ok events => shard_loop name events s
      end
  end.
End drain.

(** ** Starting and stopping *)
Section lifecycle.
Context {D : Type} `{AdvisoryLocks D}.

(** The dedicated connection [lockConn], with its database session. *)
Inductive lock_conn := NoConn | OpenConn (session : nat) | ClosedConn.

(** An instance of the service: [running] is the flag of the dispatcher,
    [draining] tells whether its goroutines run. *)
Record instance := {
  shard_disp : shardedDispatcher;
  lockConn : lock_conn;
  running : bool;
  draining : bool;
}.

(** Which steps of [Start] fail: the connection, the lock queries, the
    progress table; and the unlock queries of the cleanup. *)
Record start_faults := { no_conn : bool; lock_fails : Z → bool; no_table : bool; unlock_fails : Z → bool }.

(** Closing the connection returns it to the pool; the session and its locks
    stay. Unlocking over a closed connection fails. *)
Definition Start (f : start_faults) (session : nat) (x : instance) (d : D) : D * instance * bool :=
  if running x then (d, x, true)
  else if no_conn f then
    (d, {| shard_disp := shard_disp x; lockConn := NoConn; running := true; draining := false |}, false)
  else match acquireShardLocks (lock_fails f) session (shard_disp x) d with
  | (d, sd, Some _) =>
      (d, {| shard_disp := sd; lockConn := ClosedConn; running := true; draining := false |}, false)
  | (d, sd, None) =>
      if no_table f then
        (releaseAllLocks (unlock_fails f) session sd d,
         {| shard_disp := sd; lockConn := ClosedConn; running := true; draining := false |}, false)
      else (d, {| shard_disp := sd; lockConn := OpenConn session; running := true; draining := true |}, true)
  end.

Definition Stop (f : start_faults) (x : instance) (d : D) : D * instance :=
  if running x then
    (match lockConn x with
     | OpenConn session => releaseAllLocks (unlock_fails f) session (shard_disp x) d
     | _ => d
     end,
     {| shard_disp := shard_disp x; lockConn := NoConn; running := false; draining := false |})
  else (d, x).

(** A turn of [heartbeatLoop]. *)
Definition heartbeat (ping_fails : bool) (x : instance) : instance :=
  {| shard_disp := match lockConn x with
                   | NoConn => shard_disp x
                   | _ => verifyLockHealth ping_fails (shard_disp x)
                   end;
     lockConn := lockConn x; running := running x; draining := draining x |}.

(** A failed [Start] leaves the flag set: the next [Start] answers success and
    does nothing, so the instance stays idle and counts as running. *)
Theorem failed_start_counts_as_running f g session session' x d d' x' :
  running x = false → Start f session x d = (d', x', false) →
  running x' = true ∧ draining x' = false ∧ Start g session' x' d' = (d', x', true).
Proof.
  intros Hr Hs. unfold Start in Hs. rewrite Hr in Hs.
  assert (running x' = true ∧ draining x' = false) as [H1 H2].
  { destruct (no_conn f); [by simplify_eq|].
    destruct (acquireShardLocks _ _ _ _) as [[d1 sd] [e|]]; [by simplify_eq|].
    destruct (no_table f); by simplify_eq. }
  split_and!; [done|done|]. unfold Start. by rewrite H1.
Qed.

Record cluster := { lock_db : D; instances : gmap nat instance }.

Definition set_instance (i : nat) (x : instance) (d : D) (c : cluster) : cluster :=
  {| lock_db := d; instances := <[i := x]> (instances c) |}.

(** The pool gives a started instance some session of its own process;
    [owner] tells which process a session belongs to. *)
Inductive cluster_step (owner : nat → nat) (c : cluster) : cluster → Prop :=
| cluster_start i x f session d x' ok :
    instances c !! i = Some x → owner session = i → Start f session x (lock_db c) = (d, x', ok) →
    cluster_step owner c (set_instance i x' d c)
| cluster_stop i x f d x' :
    instances c !! i = Some x → Stop f x (lock_db c) = (d, x') →
    cluster_step owner c (set_instance i x' d c)
| cluster_heartbeat i x ping_fails :
    instances c !! i = Some x →
    cluster_step owner c (set_instance i (heartbeat ping_fails x) (lock_db c) c).

(** Freshly constructed dispatchers; no lock is held. *)
Definition fresh_cluster (c : cluster) : Prop :=
  (∀ i x, instances c !! i = Some x →
     lockConn x = NoConn ∧ running x = false ∧ draining x = false ∧
     ∀ s, s ∈ ownedShards (shard_disp x) ↔ s ∈ ownedShardsList (shard_disp x)) ∧
  ∀ s i, held (lock_db c) s i = 0%nat.
End lifecycle.

Arguments cluster D : clear implicits.

Section exclusive.
Context {D : Type} `{AdvisoryLocks D, !AdvisoryLockLaws D}.
(** Locks of different keys do not interfere. *)
Context (try_lock_other : ∀ i k k' d j, k ≠ k' → held (fst (try_lock i k d)) k' j = held d k' j).
Context (unlock_other : ∀ i k k' d j, k ≠ k' → held (fst (unlock i k d)) k' j = held d k' j).
Implicit Types (d : D) (s : Z) (i : nat).

Definition exclusive d : Prop := ∀ s i j, i ≠ j → held d s i = 0%nat ∨ held d s j = 0%nat.

(** What one process may do to the locks: others' are untouched, and it gains
    one only when nobody else holds it. *)
Definition own_change i d d' : Prop :=
  exclusive d' ∧ ∀ s j, j ≠ i → held d' s j = held d s j.

Lemma AcquireLock_change fails i k d d' r :
  exclusive d → AcquireLock fails i k d = (d', r) →
  own_change i d d' ∧ (∀ s, (held d s i ≤ held d' s i)%nat) ∧ (r = LockAcquired → (0 < held d' k i)%nat).
Proof.
  intros Hx. unfold AcquireLock. destruct fails.
  { intros [= <- <-]. split_and!; [by split|done|done]. }
  pose proof (try_lock_result i k d) as Hr. pose proof (try_lock_held i k d) as Hh.
  pose proof (λ k' j Hk, try_lock_other i k k' d j Hk) as Ho.
  destruct (try_lock i k d) as [d1 [|]]; intros [= <- <-]; simpl in Hr, Hh, Ho.
  - assert (∀ s j, j ≠ i → held d1 s j = held d s j) as Hj.
    { intros s j Hne. destruct (decide (k = s)) as [<-|]; [|by apply Ho].
      rewrite Hh. by rewrite decide_False. }
    split_and!; [split; [|done]| |].
    + intros s a b Hab. destruct (decide (k = s)) as [<-|Hne].
      * destruct (decide (a = i)) as [->|Ha].
        -- right. rewrite Hj by done. by apply Hr.
        -- left. rewrite Hj by done. by apply Hr.
      * rewrite !Ho by done. by apply Hx.
    + intros s. destruct (decide (k = s)) as [<-|Hne]; [|by rewrite Ho].
      rewrite Hh, decide_True by done. lia.
    + intros _. rewrite Hh, decide_True by done. lia.
  - assert (∀ s j, held d1 s j = held d s j) as Hj.
    { intros s j. destruct (decide (k = s)) as [<-|]; [apply Hh|by apply Ho]. }
    split_and!; [split|intros s; by rewrite Hj|done].
    + intros s a b Hab. rewrite !Hj. by apply Hx.
    + intros s j _. apply Hj.
Qed.

Lemma acquire_loop_change fails i l owned d d' owned' r :
  exclusive d → acquire_loop fails i l owned d = (d', owned', r) →
  own_change i d d' ∧ (∀ s, (held d s i ≤ held d' s i)%nat) ∧
  (∀ s, s ∈ owned' → s ∈ owned ∧ (r = None → s ∈ l → (0 < held d' s i)%nat)).
Proof.
  revert owned d. induction l as [|k l IH]; intros owned d Hx Hl; cbn [acquire_loop] in Hl.
  - simplify_eq. split_and!; [by split|done|]. intros s Hs. split; [done|].
    intros _ Hn. by apply elem_of_nil in Hn.
  - destruct (AcquireLock (fails k) i k d) as [d1 a] eqn:Ea.
    destruct (AcquireLock_change _ _ _ _ _ _ Hx Ea) as ([Hx1 Ho1] & Hm1 & Hacq).
    destruct a; [| |by simplify_eq; split_and!; [split|done|]];
      destruct (IH _ _ Hx1 Hl) as ([Hx2 Ho2] & Hm2 & Hr);
      (split_and!; [split; [done|]; intros s j Hj; by rewrite Ho2, Ho1
                   |intros s; specialize (Hm1 s); specialize (Hm2 s); lia|]);
      intros s Hs; destruct (Hr s Hs) as [H1 H2].
    + split; [done|]. intros E [->|Hin]%elem_of_cons; [|by apply H2].
      specialize (Hm2 k). specialize (Hacq eq_refl). lia.
    + apply elem_of_difference in H1 as [H1 Hk]. split; [done|].
      intros E [->|Hin]%elem_of_cons; [by apply not_elem_of_singleton in Hk|by apply H2].
Qed.

Lemma releaseAllLocks_change fails i sd d :
  exclusive d → own_change i d (releaseAllLocks fails i sd d).
Proof.
  unfold releaseAllLocks. generalize (ownedShardsList sd) as l. intros l. revert d.
  induction l as [|k l IH]; intros d Hx; [by split|]. simpl.
  assert (own_change i d (ReleaseLock (fails k) i k d)) as [Hx1 Ho1].
  { unfold ReleaseLock. destruct (fails k); [by split|].
    assert (∀ s j, held (fst (unlock i k d)) s j ≤ held d s j ∧
                   (j ≠ i → held (fst (unlock i k d)) s j = held d s j))%nat as Hh.
    { intros s j. destruct (decide (k = s)) as [<-|Hne].
      - rewrite unlock_held. case_decide; split; try done; lia.
      - rewrite unlock_other by done. done. }
    split; [|intros s j Hj; by apply Hh]. intros s a b Hab.
    pose proof (proj1 (Hh s a)). pose proof (proj1 (Hh s b)). destruct (Hx s a b Hab); [left|right]; lia. }
  destruct (IH _ Hx1) as [Hx2 Ho2]. split; [done|]. intros s j Hj. by rewrite Ho2, Ho1.
Qed.

(** What an instance may rely on: a draining one holds the locks of its shards
    in a session of its own. *)
Definition instance_ok (owner : nat → nat) (i : nat) d (x : instance) : Prop :=
  (∀ s, s ∈ ownedShards (shard_disp x) → s ∈ ownedShardsList (shard_disp x)) ∧
  (∀ ses, lockConn x = OpenConn ses → owner ses = i) ∧
  (draining x = true → ∃ ses, lockConn x = OpenConn ses ∧
     ∀ s, s ∈ ownedShardsList (shard_disp x) → (0 < held d s ses)%nat).

Definition shards_inv (owner : nat → nat) (c : cluster D) : Prop :=
  exclusive (lock_db c) ∧ ∀ i x, instances c !! i = Some x → instance_ok owner i (lock_db c) x.

Lemma own_change_refl ses d : exclusive d → own_change ses d d.
Proof. by split. Qed.

Lemma set_instance_inv owner ses x d c :
  shards_inv owner c → own_change ses (lock_db c) d → instance_ok owner (owner ses) d x →
  shards_inv owner (set_instance (owner ses) x d c).
Proof.
  intros [Hx Hi] [Hx' Ho] Hok. split; [done|]. intros j y. simpl.
  destruct (decide (j = owner ses)) as [->|Hne].
  - rewrite lookup_insert_eq. by intros [= <-].
  - rewrite lookup_insert_ne by done. intros Hy. destruct (Hi j y Hy) as (H1 & H2 & H3).
    split_and!; [done|done|]. intros Hd. destruct (H3 Hd) as (ses' & Hc & Hh). exists ses'.
    split; [done|]. intros s Hs. rewrite Ho; [by apply Hh|].
    intros ->. by apply Hne, eq_sym, H2.
Qed.

(** A step that leaves the locks alone. *)
Lemma set_instance_idle owner i x c :
  shards_inv owner c → instance_ok owner i (lock_db c) x →
  shards_inv owner (set_instance i x (lock_db c) c).
Proof.
  intros [Hx Hi] Hok. split; [done|]. intros j y. simpl. destruct (decide (j = i)) as [->|Hne].
  - rewrite lookup_insert_eq. by intros [= <-].
  - rewrite lookup_insert_ne by done. apply Hi.
Qed.

Lemma elem_of_sorted_shards s owned : s ∈ sorted_shards owned ↔ s ∈ owned.
Proof. unfold sorted_shards. by rewrite merge_sort_Permutation, elem_of_elements. Qed.

Lemma Start_inv owner c i x f session d x' ok :
  shards_inv owner c → instances c !! i = Some x → owner session = i →
  Start f session x (lock_db c) = (d, x', ok) → shards_inv owner (set_instance i x' d c).
Proof.
  intros Hinv Hi0 <- Hst. pose proof Hinv as [Hx Hi]. pose proof (Hi _ _ Hi0) as Hok.
  unfold Start in Hst. destruct (running x). { simplify_eq. by apply set_instance_idle. }
  destruct Hok as (Hs1 & _). destruct (no_conn f). { simplify_eq. by apply set_instance_idle. }
  unfold acquireShardLocks in Hst.
  destruct (acquire_loop (lock_fails f) session _ _ _) as [[d1 owned] e] eqn:Ea.
  destruct (acquire_loop_change _ _ _ _ _ _ _ _ Hx Ea) as (Hch & Hm & Hr).
  assert (∀ s, s ∈ owned → s ∈ ownedShardsList (shard_disp x)) as Hsub by (intros s Hs; by apply Hs1, Hr).
  destruct e as [e|]. { simplify_eq. apply set_instance_inv; try done. }
  assert (∀ s, s ∈ owned → s ∈ sorted_shards owned) as Hsort by (intros s Hs; by apply elem_of_sorted_shards).
  destruct (bool_decide _). { simplify_eq. by apply set_instance_inv. }
  destruct (no_table f); simplify_eq; apply set_instance_inv; try done.
  - destruct (releaseAllLocks_change (unlock_fails f) session
                (set_owned owned (sorted_shards owned) (shard_disp x)) d1) as [H1 H2]; [apply Hch|].
    split; [done|]. intros s j Hj. rewrite H2 by done. by apply Hch.
  - split_and!; simpl; [done|by intros ? [= <-]|]. intros _. exists session. split; [done|].
    intros s Hs%elem_of_sorted_shards. by apply Hr, Hsub.
Qed.

Lemma cluster_step_inv owner c c' : shards_inv owner c → cluster_step owner c c' → shards_inv owner c'.
Proof.
  intros Hinv Hs. pose proof Hinv as [Hx Hi].
  destruct Hs as [i x f session d x' ok Hi0 Ho Hst|i x f d x' Hi0 Hst|i x ping Hi0].
  - by eapply Start_inv.
  - destruct (Hi i x Hi0) as (Hs1 & Hs2 & Hs3). unfold Stop in Hst.
    destruct (running x); simplify_eq; [|by apply set_instance_idle].
    destruct (lockConn x) as [|ses|]; [by apply set_instance_idle| |by apply set_instance_idle].
    rewrite <- (Hs2 ses eq_refl). apply set_instance_inv; [done|by apply releaseAllLocks_change|done].
  - destruct (Hi i x Hi0) as (Hs1 & Hs2 & Hs3). apply set_instance_idle; [done|].
    unfold heartbeat. destruct (lockConn x) eqn:Ec; [by split_and!| |]; destruct ping; try by split_and!.
    + split_and!; simpl; [done|done|]. intros Hd. destruct (Hs3 Hd) as (s0 & H1 & _). exists s0.
      split; [done|]. intros s Hn. by apply elem_of_nil in Hn.
    + split_and!; simpl; [done|done|]. intros Hd. by destruct (Hs3 Hd) as (s0 & ? & _).
Qed.

(** C29: Shards are processed by one instance at a time. However the instances
    of a cluster start, stop and check their connections, and whichever of
    their queries fail, no shard is owned by two instances that are draining,
    as long as no session is lost (PostgreSQL drops the locks of a lost
    session before the next heartbeat notices). *)
Theorem shards_disjoint owner c c' i j x y s :
  fresh_cluster c → rtc (cluster_step owner) c c' → i ≠ j →
  instances c' !! i = Some x → instances c' !! j = Some y → draining x = true → draining y = true →
  ~ (s ∈ currentShards (shard_disp x) ∧ s ∈ currentShards (shard_disp y)).
Proof.
  intros Hf Hr Hne Hx Hy Hdx Hdy [Hsx Hsy].
  assert (shards_inv owner c) as Hc.
  { destruct Hf as [H1 H2]. split; [intros a b e _; left; apply H2|]. intros a z Hz.
    destruct (H1 a z Hz) as (Hn & _ & Hd & Ho). split_and!; [intros b; apply Ho|congruence|congruence]. }
  assert (shards_inv owner c') as [Hex Hinv].
  { clear - Hc Hr try_lock_other unlock_other AdvisoryLockLaws0. induction Hr as [|c c1 c' Hst _ IH]; [done|].
    apply IH. by eapply cluster_step_inv. }
  destruct (Hinv i x Hx) as (_ & Ho1 & H1), (Hinv j y Hy) as (_ & Ho2 & H2).
  destruct (H1 Hdx) as (a & Ha & Hha), (H2 Hdy) as (b & Hb & Hhb).
  specialize (Hha s Hsx). specialize (Hhb s Hsy).
  assert (a ≠ b) as Hab by (intros ->; apply Hne; by rewrite <- (Ho1 b Ha), <- (Ho2 b Hb)).
  destruct (Hex s a b Hab); lia.
Qed.
End exclusive.

(** ** What the repositories make of it *)

(** The statement of [Store] names 17 columns and 16 placeholders: it fails
    for every event, and with it a [BulkInsert] of one event. *)
Theorem pgx_store_fails event db :
  (pgx_Store event db).1 = Err (DatabaseError "failed to store outbox event") ∧
  outbox_events (pgx_Store event db).2 = outbox_events db ∧
  pgx_BulkInsert [event] db = pgx_Store event db.
Proof.
  split_and!; [| |done]; unfold pgx_Store, pgx_insert, call; by destruct (faults db) as [|[|] ?].
Qed.

Lemma list_filter_agree {A} (P1 P2 : A → Prop) `{∀ x, Decision (P1 x), ∀ x, Decision (P2 x)} (l : list A) :
  (∀ x, x ∈ l → P1 x ↔ P2 x) → filter P1 l = filter P2 l.
Proof.
  induction l as [|x l IH]; intros Hl; [done|]. rewrite !filter_cons, IH by set_solver.
  pose proof (Hl x ltac:(set_solver)). by repeat case_decide; naive_solver.
Qed.

Section republish.
Context `{GoRuntime}.
Context {W : Type} (tick : W → Time * W) (Publish : string → Event → W → outcome * W).
Context (cfg : DispatcherConfig) (names : list string) (name : string) (shards : list Z).
Hypothesis publishes : ∀ e w, (Publish name e w).1 = Replied None.

Definition deliveries (events : list Event) : list (string * Event * outcome) :=
  (λ e, (name, e, Replied None)) <$> events.

Lemma shard_loop_sent events s :
  let s' := shard_loop tick Publish cfg names true name events s in
  sent s' = (sent s ++ deliveries events)%list ∧ db s' = db s ∧
  (Time.IsZero (nextAttempt name (disp s)) = true → Time.IsZero (nextAttempt name (disp s')) = true).
Proof.
  revert s. induction events as [|e events IH]; intros s; simpl; [by rewrite app_nil_r|].
  set (s1 := shard_event tick Publish cfg names true name e s).
  assert (sent s1 = (sent s ++ [(name, e, Replied None)])%list ∧ db s1 = db s ∧
          Time.IsZero (nextAttempt name (disp s1)) = true) as (H1 & H2 & H3).
  { subst s1. unfold shard_event. specialize (publishes e (world s)).
    destruct (Publish name e (world s)) as [o w]. simpl in publishes. subst o.
    unfold read_clock. simpl. destruct (tick w) as [t w']. simpl.
    split; [done|]. split; [done|].
    unfold nextAttempt, set_failures. simpl. by rewrite lookup_insert_eq. }
  destruct (IH s1) as (E1 & E2 & E3). unfold shard_loop in *.
  rewrite E1, E2, H1, H2, <- app_assoc. split_and!; [done|done|]. intros _. by apply E3.
Qed.

(** With the repository that knows shards, publishing is never recorded:
    as long as its calls succeed, every drain sends the same batch of pending
    events of the shards to the publisher again, and no row changes. *)
Theorem sharded_republishes_forever n (s : sys) events :
  Time.IsZero (nextAttempt name (disp s)) = true → faults (db s) = [] → shards ≠ [] →
  (∀ k e, outbox_events (db s) !! k = Some e → EventStatus e = StatusPending) →
  (GetPendingEventsForShards (tick (world s)).1 shards (BatchSize cfg) (db s)).1 = Ok events →
  let s' := Nat.iter n (shard_drain tick Publish cfg names true shards name) s in
  sent s' = (sent s ++ concat (replicate n (deliveries events)))%list ∧ db s' = db s.
Proof.
  intros Hz Hf Hsh Hp Hev. destruct shards as [|s0 sh] eqn:Es; [done|]. rewrite <- Es in *.
  assert (∀ t, GetPendingEventsForShards t shards (BatchSize cfg) (db s) = (Ok events, db s)) as Hget.
  { intros t. revert Hev. rewrite Es. unfold GetPendingEventsForShards, call. rewrite Hf.
    destruct (_ <? 0); [done|]. simpl. intros [= <-]. do 4 f_equal.
    apply list_filter_agree. intros e He. unfold selectable.
    apply list_elem_of_fmap in He as ([k e'] & -> & Hk%elem_of_map_to_list). simpl.
    by rewrite (Hp k e' Hk). }
  assert (∀ s1, db s1 = db s → Time.IsZero (nextAttempt name (disp s1)) = true →
    let s2 := shard_drain tick Publish cfg names true shards name s1 in
    sent s2 = (sent s1 ++ deliveries events)%list ∧ db s2 = db s ∧
    Time.IsZero (nextAttempt name (disp s2)) = true) as Hone.
  { intros s1 Hd Hz1. unfold shard_drain. rewrite Hz1, Es. rewrite <- Es. unfold read_clock.
    destruct (tick (world s1)) as [t w]. unfold fetchEvents. cbn [db]. rewrite Hd, Hget.
    destruct (shard_loop_sent events (set_db (db s) {| disp := disp s1; db := db s; world := w; sent := sent s1 |}))
      as (E1 & E2 & E3). rewrite E1, E2. split_and!; [done|done|]. by apply E3. }
  clear Hev. cut (let s' := Nat.iter n (shard_drain tick Publish cfg names true shards name) s in
    sent s' = (sent s ++ concat (replicate n (deliveries events)))%list ∧ db s' = db s ∧
    Time.IsZero (nextAttempt name (disp s')) = true); [simpl; tauto|].
  induction n as [|n IH]; simpl; [by rewrite app_nil_r|]. destruct IH as (E1 & E2 & E3).
  destruct (Hone _ E2 E3) as (F1 & F2 & F3). split_and!; [|done|done].
  rewrite F1, E1, <- app_assoc. f_equal.
  change (deliveries events ++ concat (replicate n (deliveries events)))%list
    with (concat (replicate (S n) (deliveries events))).
  by rewrite replicate_S_end, concat_app, concat_cons, app_nil_r.
Qed.
End republish.

(** The other repository reads every event with partition 0, so an instance
    that does not own shard 0 finds nothing to send. *)
Theorem fallback_finds_nothing `{GoRuntime} batch now shards db events db' :
  0 ∉ shards → fetchEvents false batch now shards db = (Ok events, db') → events = [].
Proof.
  intros H0. unfold fetchEvents, GetPendingEvents, call, limited.
  assert (∀ l acc, filter_batch batch shards (scanEvent <$> l) acc = acc) as Hfb.
  { intros l. induction l as [|e l IH]; intros acc; [done|]. rewrite fmap_cons. cbn [filter_batch].
    assert (in_shards shards (scanEvent e) = false) as -> by by apply bool_decide_eq_false_2.
    cbv zeta. rewrite IH. by destruct (_ <=? _). }
  destruct (faults db) as [|[|] fs]; [| done |];
    (destruct (_ <? 0); [done|]); rewrite Hfb; by intros [= <- _].
Qed.

(** ** Concrete runs *)
Module Runs.
Import Outbox.Runs.

Definition sharded_config (shards : list Z) : DispatcherConfig :=
  {| PollInterval := 5 * Time.Second; BatchSize := 10; MaxRetries := 2;
     RetryBackoffFactor := f_of_int 2; CleanupInterval := 1 * Time.Hour;
     CompletedEventTTL := 24 * Time.Hour; ProcessingTimeout := 30 * Time.Second;
     ShardCount := 2; OwnedShards := shards; HeartbeatInterval := 30 * Time.Second |}.

Definition idle (owned : gset Z) (shards : list Z) : instance :=
  {| shard_disp := {| config := sharded_config shards; ownedShards := owned; ownedShardsList := shards |};
     lockConn := NoConn; running := false; draining := false |}.
Definition no_start_faults : start_faults :=
  {| no_conn := false; lock_fails := λ _, false; no_table := false; unlock_fails := λ _, false |}.

Definition two_instances : cluster lock_table :=
  {| lock_db := ∅; instances := <[0%nat := idle {[0]} [0]]> {[1%nat := idle {[0; 1]} [0; 1]]} |}.

Definition started (session : nat) (x : instance) (c : cluster lock_table) : cluster lock_table :=
  let '(d, x, _) := Start no_start_faults session x (lock_db c) in set_instance session x d c.
Definition both_started : cluster lock_table :=
  started 1 (idle {[0; 1]} [0; 1]) (started 0 (idle {[0]} [0]) two_instances).

Lemma lock_other (i : nat) (k k' : Z) (d : lock_table) (j : nat) :
  k ≠ k' → held (fst (try_lock i k d)) k' j = held d k' j ∧ held (fst (unlock i k d)) k' j = held d k' j.
Proof.
  intros Hk. simpl. unfold times.
  destruct (others_free k i d), (decide (default 0%nat (d !! (k, i)) = 0%nat)); simpl;
    rewrite ?lookup_insert_ne by congruence; done.
Qed.

Lemma two_instances_fresh : fresh_cluster two_instances.
Proof.
  split; [|done]. intros i x Hi. simpl in Hi.
  apply lookup_insert_Some in Hi as [[<- <-]|[_ [<- <-]%lookup_singleton_Some]]; simpl;
    (split_and!; [done|done|done|]); set_solver.
Qed.

Lemma shards_disjoint_witness :
  (currentShards ∘ shard_disp <$> instances both_started !! 0%nat) = Some [0] ∧
  (currentShards ∘ shard_disp <$> instances both_started !! 1%nat) = Some [1] ∧
  ~ (0 ∈ [0] ∧ 0 ∈ [1]).
Proof.
  split; [vm_compute; reflexivity|]. split; [vm_compute; reflexivity|].
  destruct (instances both_started !! 0%nat) as [x|] eqn:Ex; [|by vm_compute in Ex].
  destruct (instances both_started !! 1%nat) as [y|] eqn:Ey; [|by vm_compute in Ey].
  assert (currentShards (shard_disp x) = [0] ∧ draining x = true) as [Hx Dx]
    by (vm_compute in Ex; by simplify_eq).
  assert (currentShards (shard_disp y) = [1] ∧ draining y = true) as [Hy Dy]
    by (vm_compute in Ey; by simplify_eq).
  pose proof (shards_disjoint (λ i k k' d j Hk, proj1 (lock_other i k k' d j Hk))
           (λ i k k' d j Hk, proj2 (lock_other i k k' d j Hk)) id two_instances both_started
           0%nat 1%nat x y 0 two_instances_fresh) as Hn.
  rewrite <- Hx, <- Hy. apply Hn; [|done|done|done|done|done].
  eapply rtc_l; [by eapply (cluster_start id two_instances 0%nat (idle {[0]} [0]) no_start_faults 0%nat)|].
  eapply rtc_l; [by eapply (cluster_start id _ 1%nat (idle {[0; 1]} [0; 1]) no_start_faults 1%nat)|].
  apply rtc_refl.
Defined.

Lemma sharded_republishes_forever_witness :
  let s' := Nat.iter 3 (shard_drain clock succeed (sharded_config [0]) ["console"] true [0] "console") start in
  sent s' = concat (replicate 3 [("console", event 2, Replied None); ("console", event 1, Replied None)]).
Proof.
  destruct (sharded_republishes_forever clock succeed (sharded_config [0]) ["console"] "console" [0]
              (λ _ _, eq_refl) 3 start [event 2; event 1]) as [H _];
    [reflexivity|reflexivity|done| |vm_compute; reflexivity|exact H].
  intros k e. simpl. rewrite lookup_insert_Some, lookup_singleton_Some.
  intros [[<- <-]|[_ [<- <-]]]; reflexivity.
Defined.

Lemma fallback_finds_nothing_witness :
  (fetchEvents false 10 1000 [1] (db start)).1 = Ok [].
Proof.
  destruct (fetchEvents false 10 1000 [1] (db start)) as [[events|e] d] eqn:E; [|by vm_compute in E].
  simpl. f_equal. eapply (fallback_finds_nothing _ _ [1]); [|exact E]. set_solver.
Defined.
End Runs.
