(* ===== verification/Caches.v ===== *)
(** * Caches and the repositories behind them

    Models [internal/cache/cache.go] (the in-memory cache and the guard against
    stampedes), [internal/cache/redis.go] and the caching repositories of
    [internal/repository/cached_subscription_repo.go] and
    [cached_plan_repo.go]. The backend is the interface of [Subscriptions].
    A deletion that fails is the cache with another [Delete] ([deaf]).

    A cache is an interface whose two implementations are instances. JSON is a
    pair of functions per type; the theorems assume that reading undoes
    writing. The clock readings of an operation are an argument of it. The
    counters of hits and misses are kept, timing headers are not. *)
From Stdlib Require Import ZArith Lia Ascii String Sorted.
From stdpp Require Import base gmap strings list relations.
From S2P Require Import Prelude GoStrings Subscriptions.
Import Subscriptions.Repository.
#[local] Open Scope string_scope.
#[local] Open Scope Z_scope.

(** ** The cache interface

    [Get] answers [None] for a miss; its [Err] is an error of the cache. The
    implementations report failures of [Set] and [Delete] by nothing the
    callers look at. *)
Class Cache (C : Type) := {
  Get : Time → string → C → C * result unit (option string);
  Set_ : Time → string → string → Duration → C → C;
  Delete : string → C → C;
  (** what a [Get] may find *)
  contents : C → gmap string string;
}.

(** A cache that carries out its operations; it may forget entries, and what
    it does not find it no longer has. *)
Class ReliableCache (C : Type) `{Cache C} : Prop := {
  get_contents : ∀ t k c, contents (fst (Get t k c)) ⊆ contents c;
  get_found : ∀ t k c v, snd (Get t k c) = Ok (Some v) → contents c !! k = Some v;
  get_missed : ∀ t k c r, snd (Get t k c) = r → (∀ v, r ≠ Ok (Some v)) → contents (fst (Get t k c)) !! k = None;
  set_contents : ∀ t k v ttl c, contents (Set_ t k v ttl c) ⊆ <[k := v]> (contents c);
  delete_contents : ∀ k c, contents (Delete k c) ⊆ delete k (contents c);
}.

(** The same cache while the deletions of some keys fail: the callers drop
    the error. *)
Definition deaf {C} `{Cache C} (lost : list string) : Cache C := {|
  Get := Get; Set_ := Set_; contents := contents;
  Delete k c := if decide (k ∈ lost) then c else Delete k c;
|}.

(** *** [InMemory]

    A value is the output of a [json.Marshal], so it is never a nil slice,
    which the callers would take for a miss. *)
Record inmemoryItem := { value : string; exp : Time }.
Record InMemory := { items : gmap string inmemoryItem }.

Definition NewInMemory : InMemory := {| items := ∅ |}.

Definition InMemory_Get (now : Time) (key : string) (m : InMemory) : InMemory * result unit (option string) :=
  match items m !! key with
  | None => (m, Ok None)
  | Some it =>
      if negb (Time.IsZero (exp it)) && Time.After now (exp it)
      then ({| items := delete key (items m) |}, Ok None)
      else (m, Ok (Some (value it)))
  end.

Definition InMemory_Set (now : Time) (key v : string) (ttl : Duration) (m : InMemory) : InMemory :=
  let it := {| value := v; exp := if 0 <? ttl then Time.Add now ttl else Time.zero |} in
  {| items := <[key := it]> (items m) |}.

Definition InMemory_Delete (key : string) (m : InMemory) : InMemory :=
  {| items := delete key (items m) |}.

#[export] Instance inmemory_cache : Cache InMemory := {
  Get := InMemory_Get; Set_ := InMemory_Set; Delete := InMemory_Delete;
  contents m := value <$> items m;
}.

#[export] Instance inmemory_reliable : ReliableCache InMemory.
Proof.
  split; simpl.
  - intros t k m. unfold InMemory_Get. destruct (items m !! k); [|done].
    destruct (_ && _); [|done]. simpl. rewrite fmap_delete. apply delete_subseteq.
  - intros t k m v. unfold InMemory_Get. rewrite lookup_fmap. destruct (items m !! k); [|done].
    destruct (_ && _); [done|]. by intros [= <-].
  - intros t k m r <-. unfold InMemory_Get. destruct (items m !! k) eqn:E.
    + destruct (_ && _); simpl; intros Hr; [by rewrite fmap_delete, lookup_delete_eq|by edestruct Hr].
    + intros _. simpl. by rewrite lookup_fmap, E.
  - intros t k v ttl m. by rewrite fmap_insert.
  - intros k m. by rewrite fmap_delete.
Qed.

(** *** [Redis]

    The server keeps the entries; [up] tells which of the coming calls reach
    it. Errors are swallowed: a failed [Get] is a miss, a failed [Set] or
    [Delete] does nothing. *)
Record Redis := { server : InMemory; up : list bool }.

Definition redis_call (r : Redis) : bool * Redis :=
  match up r with
  | b :: bs => (b, {| server := server r; up := bs |})
  | [] => (true, r)
  end.

Definition Redis_Get (now : Time) (key : string) (r : Redis) : Redis * result unit (option string) :=
  let '(ok, r) := redis_call r in
  if ok then let '(m, v) := InMemory_Get now key (server r) in ({| server := m; up := up r |}, v)
  else (r, Ok None).

Definition Redis_Set (now : Time) (key v : string) (ttl : Duration) (r : Redis) : Redis :=
  let '(ok, r) := redis_call r in
  if ok then {| server := InMemory_Set now key v ttl (server r); up := up r |} else r.

Definition Redis_Delete (key : string) (r : Redis) : Redis :=
  let '(ok, r) := redis_call r in
  if ok then {| server := InMemory_Delete key (server r); up := up r |} else r.

#[export] Instance redis_cache : Cache Redis := {
  Get := Redis_Get; Set_ := Redis_Set; Delete := Redis_Delete;
  contents r := value <$> items (server r);
}.

(** ** [GuardedCache.GetOrLoad], called alone

    [t1] and [t2] are the readings of the two lookups, [t3] that of the
    store; the loader changes nothing. *)
Definition hit (r : result unit (option string)) : option string :=
  match r with Ok v => v | Err _ => None end.

Definition GetOrLoad {C E} `{Cache C} (t1 t2 t3 : Time) (key : string) (ttl : Duration)
    (loader : result E string) (c : C) : C * result E string :=
  let '(c, r) := Get t1 key c in
  match hit r with
  | Some v => (c, Ok v)
  | None =>
      let '(c, r) := Get t2 key c in
      match hit r with
      | Some v => (c, Ok v)
      | None =>
          match loader with
          | Err e => (c, Err e)
          | Ok v => (Set_ t3 key v ttl c, Ok v)
          end
      end
  end.

(** ** Reading through the cache

    [FindByID], [FindByIDAndTenant] and [List] share one body. *)
Record cacheEnvelope := { Data : string; StoredAt : Time }.

Record cached (C : Type) := {
  cache : C;
  ttl : Duration;
  hits : Z;
  misses : Z;
  stales : Z;
  invalidatedAt : gmap string Time;
}.
Arguments cache {C} _.
Arguments ttl {C} _.
Arguments hits {C} _.
Arguments misses {C} _.
Arguments stales {C} _.
Arguments invalidatedAt {C} _.

Definition NewCached {C} (c : C) (ttl : Duration) : cached C :=
  {| cache := c; ttl := ttl; hits := 0; misses := 0; stales := 0; invalidatedAt := ∅ |}.

Definition set_cache {C} (c : C) (r : cached C) : cached C :=
  {| cache := c; ttl := ttl r; hits := hits r; misses := misses r; stales := stales r;
     invalidatedAt := invalidatedAt r |}.
Definition count {C} (h m s : Z) (r : cached C) : cached C :=
  {| cache := cache r; ttl := ttl r; hits := hits r + h; misses := misses r + m; stales := stales r + s;
     invalidatedAt := invalidatedAt r |}.

(** Readings of the lookups, of the loader's stamp and of the store. *)
Record read_times := {
  t_fast : Time; t_stale : Time; t_first : Time; t_second : Time; t_stored : Time; t_set : Time }.

Section through.
Context {C : Type} `{Cache C}.
Context (marshal_envelope : cacheEnvelope → string) (unmarshal_envelope : string → option cacheEnvelope).

Definition isStale (key : string) (env : cacheEnvelope) (r : cached C) : bool :=
  match invalidatedAt r !! key with
  | Some t => Time.Before (StoredAt env) t
  | None => false
  end.

Definition readEnvelope (now : Time) (key : string) (r : cached C) : cached C * option cacheEnvelope :=
  let '(c, v) := Get now key (cache r) in
  (set_cache c r, match hit v with Some v => unmarshal_envelope v | None => None end).

Section body.
Context {A E : Type} (marshal : A → string) (unmarshal : string → option A).

(** What the loader returns for the answer of the backend. *)
Definition load (t : Time) (answer : result E A) : result E string :=
  match answer with
  | Ok a => Ok (marshal_envelope {| Data := marshal a; StoredAt := t |})
  | Err e => Err e
  end.

(** [Err None] is an error of JSON, [Err (Some e)] one of the backend. *)
Definition open_envelope (v : string) : result (option E) A :=
  match unmarshal_envelope v with
  | None => Err None
  | Some env => match unmarshal (Data env) with None => Err None | Some a => Ok a end
  end.

(** After the fast path: purge what is stale, then load under the guard. *)
Definition refresh (t : read_times) (key : string) (answer : result E A) (r : cached C)
    : cached C * result (option E) A :=
  let '(r, e) := readEnvelope (t_stale t) key r in
  let r := match e with
           | Some env => if isStale key env r then set_cache (Delete key (cache r)) (count 0 0 1 r) else r
           | None => r
           end in
  let r := count 0 1 0 r in
  let '(c, v) := GetOrLoad (t_first t) (t_second t) (t_set t) key (ttl r) (load (t_stored t) answer) (cache r) in
  (set_cache c r, match v with Err e => Err (Some e) | Ok v => open_envelope v end).

Definition read_through (t : read_times) (key : string) (answer : result E A) (r : cached C)
    : cached C * result (option E) A :=
  let '(r, e) := readEnvelope (t_fast t) key r in
  match e with
  | Some env =>
      if isStale key env r then refresh t key answer r
      else match unmarshal (Data env) with
           | Some a => (count 1 0 0 r, Ok a)
           | None => refresh t key answer (set_cache (Delete key (cache r)) r)
           end
  | None => refresh t key answer r
  end.
End body.

Definition invalidate (now : Time) (k1 k2 : string) (r : cached C) : cached C :=
  {| cache := Delete k2 (Delete k1 (cache r)); ttl := ttl r; hits := hits r; misses := misses r;
     stales := stales r; invalidatedAt := <[k2 := now]> (<[k1 := now]> (invalidatedAt r)) |}.

(** ** [CachedSubscriptionRepo] *)
Definition cacheKey (id : string) : string := "sub:byid:" +:+ id.
Definition tenantCacheKey (id tenantID : string) : string := "sub:byidandtenant:" +:+ id +:+ ":" +:+ tenantID.

Section subscriptions.
Context {B : Type} `{SubscriptionRepository B} (FindByID : B → string → result repo_error SubscriptionRow).
Context (marshal_row : SubscriptionRow → string) (unmarshal_row : string → option SubscriptionRow).

Definition Cached_FindByID (t : read_times) (id : string) (b : B) (r : cached C)
    : cached C * result (option repo_error) SubscriptionRow :=
  read_through marshal_row unmarshal_row t (cacheKey id) (FindByID b id) r.

Definition Cached_FindByIDAndTenant (t : read_times) (id tenantID : string) (b : B) (r : cached C)
    : cached C * result (option repo_error) SubscriptionRow :=
  read_through marshal_row unmarshal_row t (tenantCacheKey id tenantID) (FindByIDAndTenant b id tenantID) r.

Definition Cached_Delete (now : Time) (id tenantID : string) (r : cached C) : cached C :=
  invalidate now (cacheKey id) (tenantCacheKey id tenantID) r.

Definition Cached_UpdateStatus (now : Time) (id tenantID status : string) (b : B) (r : cached C)
    : B * cached C * option repo_error :=
  match UpdateStatus b id tenantID status with
  | (b, Some e) => (b, r, Some e)
  | (b, None) => (b, Cached_Delete now id tenantID r, None)
  end.
End subscriptions.

(** ** [CachedPlanRepo] *)
Definition planKey (id : string) : string := "plan:byid:" +:+ id.
Definition listKey : string := "plan:list:all".

Definition Plan_FindByID {E} (marshal_plan : PlanRow → string) (unmarshal_plan : string → option PlanRow)
    (t : read_times) (id : string) (answer : result E PlanRow) (r : cached C)
    : cached C * result (option E) PlanRow :=
  read_through marshal_plan unmarshal_plan t (planKey id) answer r.

Definition Plan_List {E} (marshal_plans : list PlanRow → string) (unmarshal_plans : string → option (list PlanRow))
    (t : read_times) (answer : result E (list PlanRow)) (r : cached C)
    : cached C * result (option E) (list PlanRow) :=
  read_through marshal_plans unmarshal_plans t listKey answer r.

Definition Plan_Delete (now : Time) (id : string) (r : cached C) : cached C :=
  invalidate now (planKey id) listKey r.
End through.

(** ** Reads are as good as the backend's

    Under a reliable cache: as long as calls do not overlap. *)
Section coherence.
Context {C : Type} `{ReliableCache C}.
Context (marshal_envelope : cacheEnvelope → string) (unmarshal_envelope : string → option cacheEnvelope).
Hypothesis envelope_roundtrip : ∀ e, unmarshal_envelope (marshal_envelope e) = Some e.

Section one_key.
Context {A E : Type} (marshal : A → string) (unmarshal : string → option A).
Hypothesis roundtrip : ∀ a, unmarshal (marshal a) = Some a.
Context (key : string) (answer : result E A).

Definition lift_error {X} (r : result E X) : result (option E) X :=
  match r with Ok x => Ok x | Err e => Err (Some e) end.

(** Each value cached under the key is an envelope whose stamp and row are
    [Q]-related. *)
Definition holding (Q : Time → A → Prop) (c : C) : Prop :=
  ∀ v, contents c !! key = Some v →
    ∃ a st, v = marshal_envelope {| Data := marshal a; StoredAt := st |} ∧ Q st a.

(** Nothing appears under another key. *)
Definition apart (c c' : C) : Prop :=
  ∀ k v, k ≠ key → contents c' !! k = Some v → contents c !! k = Some v.
#[local] Instance apart_preorder : PreOrder apart.
Proof. split; [by intros c k v|]. intros c1 c2 c3 H1 H2 k v Hk Hv. by apply H1, H2. Qed.

Lemma apart_subseteq c c' : contents c' ⊆ contents c → apart c c'.
Proof. intros Hs k v _ Hv. by apply (lookup_weaken _ _ _ _ Hv). Qed.
Lemma holding_subseteq Q c c' : contents c' ⊆ contents c → holding Q c → holding Q c'.
Proof. intros Hs Hh v Hv. by apply Hh, (lookup_weaken _ _ _ _ Hv). Qed.
Lemma holding_impl (Q Q' : Time → A → Prop) c : (∀ st a, Q st a → Q' st a) → holding Q c → holding Q' c.
Proof. intros Hq Hh v Hv. destruct (Hh v Hv) as (a & st & -> & ?). eauto. Qed.
Lemma holding_absent Q c : contents c !! key = None → holding Q c.
Proof. intros Hn v Hv. congruence. Qed.
Lemma Get_holding Q t c : holding Q c → holding Q (fst (Get t key c)).
Proof. apply holding_subseteq, get_contents. Qed.
Lemma Get_apart t c : apart c (fst (Get t key c)).
Proof. apply apart_subseteq, get_contents. Qed.
Lemma Delete_apart c : apart c (Delete key c).
Proof. apply apart_subseteq. etrans; [apply delete_contents|apply delete_subseteq]. Qed.
Lemma Delete_absent c : contents (Delete key c) !! key = None.
Proof.
  destruct (contents (Delete key c) !! key) as [v|] eqn:Ec; [|done].
  pose proof (lookup_weaken _ _ _ _ Ec (delete_contents key c)) as Hd. by rewrite lookup_delete_eq in Hd.
Qed.

Lemma hit_holding Q t c v :
  holding Q c → hit (snd (Get t key c)) = Some v →
  ∃ a st, v = marshal_envelope {| Data := marshal a; StoredAt := st |} ∧ Q st a.
Proof.
  intros Hh Hv. destruct (snd (Get t key c)) as [o|] eqn:Eg; [|done]. simpl in Hv. subst o.
  apply get_found in Eg. by apply Hh.
Qed.
Lemma miss_absent t c : hit (snd (Get t key c)) = None → contents (fst (Get t key c)) !! key = None.
Proof. intros Hm. eapply get_missed; [done|]. intros v Hv. by rewrite Hv in Hm. Qed.

Lemma open_marshalled a st :
  open_envelope (E := E) unmarshal_envelope unmarshal (marshal_envelope {| Data := marshal a; StoredAt := st |}) = Ok a.
Proof. unfold open_envelope. rewrite envelope_roundtrip. simpl. by rewrite roundtrip. Qed.

(** [P] holds of the stamps. *)
Context (P : Time → Prop).
Definition current (st : Time) (a : A) : Prop := P st ∧ answer = Ok a.
Definition marked (r : cached C) (st : Time) (a : A) : Prop :=
  P st ∧ (isStale key {| Data := marshal a; StoredAt := st |} r = true ∨ answer = Ok a).

Lemma GetOrLoad_spec t1 t2 t3 st d c c' r :
  P st → holding current c →
  GetOrLoad t1 t2 t3 key d (load marshal_envelope marshal st answer) c = (c', r) →
  holding current c' ∧ apart c c' ∧
  match r with Err e => Err (Some e) | Ok v => open_envelope unmarshal_envelope unmarshal v end =
  lift_error answer.
Proof.
  intros HP Hf. unfold GetOrLoad.
  pose proof (Get_holding _ t1 _ Hf) as Hf1. pose proof (Get_apart t1 c) as K1. pose proof (hit_holding current t1 c) as F1.
  destruct (Get t1 key c) as [c1 r1]. simpl in *. destruct (hit r1) as [v|].
  { intros [= <- <-]. destruct (F1 v Hf eq_refl) as (a & st' & -> & _ & ->). by rewrite open_marshalled. }
  pose proof (Get_holding _ t2 _ Hf1) as Hf2. pose proof (Get_apart t2 c1) as K2. pose proof (hit_holding current t2 c1) as F2.
  destruct (Get t2 key c1) as [c2 r2]. simpl in *.
  assert (apart c c2) as K by (by etrans). destruct (hit r2) as [v|].
  { intros [= <- <-]. destruct (F2 v Hf1 eq_refl) as (a & st' & -> & _ & ->). by rewrite open_marshalled. }
  unfold load. destruct answer as [a|e] eqn:Ea; intros [= <- <-]; [|done].
  pose proof (set_contents t3 key (marshal_envelope {| Data := marshal a; StoredAt := st |}) d c2) as Hs.
  split_and!; [| |apply open_marshalled].
  - intros v Hv. apply (lookup_weaken _ _ _ _ Hv) in Hs. rewrite lookup_insert_eq in Hs. simplify_eq.
    exists a, st. done.
  - etrans; [exact K|]. intros k v Hk Hv. apply (lookup_weaken _ _ _ _ Hv) in Hs. by rewrite lookup_insert_ne in Hs.
Qed.

Lemma readEnvelope_spec t r r' e :
  holding (marked r) (cache r) → readEnvelope unmarshal_envelope t key r = (r', e) →
  holding (marked r) (cache r') ∧ apart (cache r) (cache r') ∧ r' = set_cache (cache r') r ∧
  match e with
  | Some env => ∃ a st, env = {| Data := marshal a; StoredAt := st |} ∧ marked r st a ∧
      ∀ v, contents (cache r') !! key = Some v → v = marshal_envelope env
  | None => contents (cache r') !! key = None
  end.
Proof.
  intros Hf. unfold readEnvelope. pose proof (Get_apart t (cache r)) as K. pose proof (Get_holding _ t _ Hf) as Hf1.
  pose proof (get_contents t key (cache r)) as Hsub. pose proof (miss_absent t (cache r)) as M.
  pose proof (hit_holding (marked r) t (cache r)) as F. pose proof (get_found t key (cache r)) as G.
  destruct (Get t key (cache r)) as [c v]. simpl in *. intros [= <- <-]. split_and!; [done..|].
  destruct (hit v) as [x|] eqn:Ev; [|by apply M].
  destruct (F x Hf eq_refl) as (a & st & -> & Hq). rewrite envelope_roundtrip. exists a, st.
  split_and!; [done..|]. intros w Hw. apply (lookup_weaken _ _ _ _ Hw) in Hsub.
  destruct v as [o|]; [|done]. simpl in Ev. subst o. rewrite (G _ eq_refl) in Hsub. by simplify_eq.
Qed.

Lemma refresh_spec t r r' ans :
  P (t_stored t) → holding (marked r) (cache r) →
  refresh marshal_envelope unmarshal_envelope marshal unmarshal t key answer r = (r', ans) →
  holding (marked r) (cache r') ∧ apart (cache r) (cache r') ∧ invalidatedAt r' = invalidatedAt r ∧ ans = lift_error answer.
Proof.
  intros HP Hf. unfold refresh.
  destruct (readEnvelope _ _ _ _) as [r1 e] eqn:E1.
  destruct (readEnvelope_spec _ _ _ _ Hf E1) as (Hf1 & K1 & Hr1 & He).
  set (r2 := match e with Some _ => _ | None => _ end).
  assert (holding current (cache r2) ∧ apart (cache r1) (cache r2) ∧ invalidatedAt r2 = invalidatedAt r) as (Hf2 & K2 & Hi).
  { unfold r2. rewrite Hr1. destruct e as [env|].
    - destruct He as (a & st & -> & [HPst Hm] & Honly). unfold isStale in *. simpl in *.
      destruct (match invalidatedAt r !! key with Some _ => _ | None => _ end); simpl.
      + split_and!; [apply holding_absent, Delete_absent|apply Delete_apart|done].
      + destruct Hm as [?|Hm]; [done|]. split_and!; [|done..].
        intros v Hv. exists a, st. split; [by apply Honly|done].
    - simpl. split_and!; [by apply holding_absent|done..]. }
  clearbody r2. destruct (GetOrLoad _ _ _ _ _ _ _) as [c v] eqn:E2.
  destruct (GetOrLoad_spec _ _ _ _ _ _ _ _ HP Hf2 E2) as (Hf3 & K3 & Hv).
  intros [= <- <-]. split_and!; [|by do 2 (etrans; [eassumption|])|done..].
  revert Hf3. apply holding_impl. intros st a [? ?]. split; [done|by right].
Qed.

Lemma read_through_spec t r r' ans :
  P (t_stored t) → holding (marked r) (cache r) →
  read_through marshal_envelope unmarshal_envelope marshal unmarshal t key answer r = (r', ans) →
  holding (marked r) (cache r') ∧ apart (cache r) (cache r') ∧ invalidatedAt r' = invalidatedAt r ∧ ans = lift_error answer.
Proof.
  intros HP Hf. unfold read_through. destruct (readEnvelope _ _ _ _) as [r1 e] eqn:E1.
  destruct (readEnvelope_spec _ _ _ _ Hf E1) as (Hf1 & K1 & Hr1 & He).
  assert (∀ r' ans, refresh marshal_envelope unmarshal_envelope marshal unmarshal t key answer r1 = (r', ans) →
    holding (marked r) (cache r') ∧ apart (cache r) (cache r') ∧ invalidatedAt r' = invalidatedAt r ∧ ans = lift_error answer) as Hre.
  { intros r2 ans2 Hr2. apply refresh_spec in Hr2 as (Hf2 & K2 & Hi & ->); [|done|by rewrite Hr1 in Hf1 |- *].
    rewrite Hr1 in Hf2, Hi. split_and!; [done|by etrans|done..]. }
  destruct e as [env|]; [|by apply Hre].
  destruct He as (a & st & -> & [HPst Hm] & _).
  destruct (isStale key _ r1) eqn:Est; [by apply Hre|]. simpl. rewrite roundtrip.
  intros [= <- <-]. rewrite Hr1 in Est |- *. destruct Hm as [Hm|Hm]; [unfold isStale in *; simpl in *; congruence|].
  rewrite Hr1 in Hf1, K1. split_and!; [done..|by rewrite Hm].
Qed.
End one_key.

(** *** Whole histories *)
Context {B : Type} `{SubscriptionRepositoryLaws B} (FindByID : B → string → result repo_error SubscriptionRow).
Hypothesis update_find_other : ∀ b b' id t st e id',
  UpdateStatus b id t st = (b', e) → id ≠ id' → FindByID b' id' = FindByID b id'.
Context (marshal_row : SubscriptionRow → string) (unmarshal_row : string → option SubscriptionRow).
Hypothesis row_roundtrip : ∀ a, unmarshal_row (marshal_row a) = Some a.

(** A read, or a status change of which the deletions of the keys [lost] do
    not get through. *)
Inductive op :=
| Read (t : read_times) (id : string)
| ReadScoped (t : read_times) (id tenantID : string)
| Write (now : Time) (lost : list string) (id tenantID status : string).

Definition op_id (o : op) : string :=
  match o with Read _ id => id | ReadScoped _ id _ => id | Write _ _ id _ _ => id end.

(** The stamp of a call. *)
Definition op_stamp (o : op) : Time :=
  match o with Read t _ => t_stored t | ReadScoped t _ _ => t_stored t | Write now _ _ _ _ => now end.

(** A write that may leave entries behind is stamped later than the calls
    before it. *)
Definition outlives (st : Time) (o : op) : Prop :=
  match o with Write now lost _ _ _ => lost = [] ∨ st < now | _ => True end.
Definition clocked (os : list op) : Prop := StronglySorted (λ o o', outlives (op_stamp o) o') os.

Definition answer : Type := result (option repo_error) SubscriptionRow + option repo_error.

Definition run_cached (o : op) (b : B) (r : cached C) : B * cached C * answer :=
  match o with
  | Read t id =>
      let '(r, a) := Cached_FindByID marshal_envelope unmarshal_envelope FindByID marshal_row unmarshal_row
                       t id b r in (b, r, inl a)
  | ReadScoped t id tn =>
      let '(r, a) := Cached_FindByIDAndTenant marshal_envelope unmarshal_envelope marshal_row unmarshal_row
                       t id tn b r in (b, r, inl a)
  | Write now lost id tn st =>
      let '(b, r, e) := Cached_UpdateStatus (H := deaf lost) now id tn st b r in (b, r, inr e)
  end.

Fixpoint run_all (os : list op) (b : B) (r : cached C) : list answer :=
  match os with
  | [] => []
  | o :: os => let '(b, r, a) := run_cached o b r in a :: run_all os b r
  end.

(** The same calls made of the backend itself. *)
Definition run_backend (o : op) (b : B) : B * answer :=
  match o with
  | Read _ id => (b, inl (lift_error (FindByID b id)))
  | ReadScoped _ id tn => (b, inl (lift_error (FindByIDAndTenant b id tn)))
  | Write _ _ id tn st => let '(b, e) := UpdateStatus b id tn st in (b, inr e)
  end.

Fixpoint backend_all (os : list op) (b : B) : list answer :=
  match os with
  | [] => []
  | o :: os => let '(b, a) := run_backend o b in a :: backend_all os b
  end.

Definition clean (id : string) : Prop := contains_char ":"%char id = false.

(** What is cached is what the backend answers, or is marked as stale, and
    carries a stamp the writes to come outlive. *)
Definition coherent (os : list op) (b : B) (r : cached C) : Prop :=
  (∀ id, holding marshal_row (cacheKey id)
     (marked marshal_row (cacheKey id) (FindByID b id) (λ st, Forall (outlives st) os) r) (cache r)) ∧
  (∀ id tn, clean id → holding marshal_row (tenantCacheKey id tn)
     (marked marshal_row (tenantCacheKey id tn) (FindByIDAndTenant b id tn) (λ st, Forall (outlives st) os) r) (cache r)).

Lemma clean_split id id' tn tn' :
  clean id → clean id' → (id +:+ ":" +:+ tn = id' +:+ ":" +:+ tn')%string → id = id' ∧ tn = tn'.
Proof.
  unfold clean. revert id'. induction id as [|a id IH]; intros [|a' id'] Hc Hc' Heq; simpl in *.
  - by simplify_eq.
  - injection Heq as <- _. done.
  - injection Heq as -> _. done.
  - injection Heq as <- Heq. apply orb_false_iff in Hc as [_ Hc], Hc' as [_ Hc'].
    by destruct (IH id' Hc Hc' Heq) as [-> ->].
Qed.

Lemma keys_apart id id' tn : cacheKey id ≠ tenantCacheKey id' tn.
Proof. done. Qed.

Lemma cacheKey_inj id id' : cacheKey id = cacheKey id' → id = id'.
Proof. unfold cacheKey. cbn. intros Heq. by injection Heq. Qed.

Lemma tenantCacheKey_inj id id' tn tn' :
  clean id → clean id' → tenantCacheKey id tn = tenantCacheKey id' tn' → id = id' ∧ tn = tn'.
Proof.
  unfold tenantCacheKey. cbn. intros Hc Hc' Heq. injection Heq as Heq. by apply clean_split.
Qed.

(** A read of one key leaves the other keys coherent. *)
Lemma read_coherent o os b r r' key a :
  coherent (o :: os) b r →
  (∀ id, cacheKey id = key → a = FindByID b id) →
  (∀ id tn, clean id → tenantCacheKey id tn = key → a = FindByIDAndTenant b id tn) →
  holding marshal_row key (marked marshal_row key a (λ st, Forall (outlives st) os) r) (cache r') →
  apart key (cache r) (cache r') → invalidatedAt r' = invalidatedAt r →
  coherent os b r'.
Proof.
  intros [Hc1 Hc2] Hk1 Hk2 Hf Ko Hi.
  assert (∀ k x st row, marked marshal_row k x (λ st, Forall (outlives st) (o :: os)) r st row →
    marked (E := repo_error) marshal_row k x (λ st, Forall (outlives st) os) r' st row) as Hw.
  { intros k x st row [HP Hm]. split; [by inversion HP|]. unfold isStale in *. by rewrite Hi. }
  assert (∀ x st row, marked marshal_row key x (λ st, Forall (outlives st) os) r st row →
    marked (E := repo_error) marshal_row key x (λ st, Forall (outlives st) os) r' st row) as Hw'.
  { intros x st row [HP Hm]. split; [done|]. unfold isStale in *. by rewrite Hi. }
  split.
  - intros id. destruct (decide (cacheKey id = key)) as [E|E].
    + rewrite E, <- (Hk1 id E). revert Hf. apply holding_impl. intros; by apply Hw'.
    + intros v Hv. apply Ko in Hv; [|done]. destruct (Hc1 id v Hv) as (x & st & -> & Hm). eauto.
  - intros id tn Hc. destruct (decide (tenantCacheKey id tn = key)) as [E|E].
    + rewrite E, <- (Hk2 id tn Hc E). revert Hf. apply holding_impl. intros; by apply Hw'.
    + intros v Hv. apply Ko in Hv; [|done]. destruct (Hc2 id tn Hc v Hv) as (x & st & -> & Hm). eauto.
Qed.

Lemma deaf_Delete lost k c : contents (Delete (Cache := deaf lost) k c) ⊆ contents c ∧
  (k ∉ lost → contents (Delete (Cache := deaf lost) k c) !! k = None).
Proof.
  simpl. case_decide; [done|]. split; [|intros _; apply Delete_absent].
  etrans; [apply delete_contents|apply delete_subseteq].
Qed.

(** After an invalidation, what is left under the two keys is marked. *)
Lemma invalidate_left now lost k1 k2 r k v :
  contents (cache (invalidate (H := deaf lost) now k1 k2 r)) !! k = Some v →
  contents (cache r) !! k = Some v ∧
  (k = k1 ∨ k = k2 → lost ≠ [] ∧
     invalidatedAt (invalidate (H := deaf lost) now k1 k2 r) !! k = Some now).
Proof.
  unfold invalidate. cbn [cache invalidatedAt]. intros Hv.
  destruct (deaf_Delete lost k1 (cache r)) as [S1 D1].
  destruct (deaf_Delete lost k2 (Delete (Cache := deaf lost) k1 (cache r))) as [S2 D2].
  pose proof (lookup_weaken _ _ _ _ Hv S2) as Hv1.
  split; [by apply (lookup_weaken _ _ _ _ Hv1)|]. intros Hk. split.
  - intros ->. destruct Hk as [->| ->]; [rewrite D1 in Hv1|rewrite D2 in Hv]; set_solver.
  - destruct (decide (k = k2)) as [->|Hne]; [by rewrite lookup_insert_eq|].
    rewrite lookup_insert_ne by done. destruct Hk as [->|?]; [|done]. by rewrite lookup_insert_eq.
Qed.

(** So an invalidation keeps the entries of a key coherent: it marks them,
    or the answer of the backend for that key is as before. *)
Lemma invalidate_holding now lost id tn st os r k1 k2 k (x x' : result repo_error SubscriptionRow) :
  (k ≠ k1 → k ≠ k2 → x' = x) →
  holding marshal_row k (marked marshal_row k x (λ u, Forall (outlives u) (Write now lost id tn st :: os)) r) (cache r) →
  let r' := invalidate (H := deaf lost) now k1 k2 r in
  holding marshal_row k (marked marshal_row k x' (λ u, Forall (outlives u) os) r') (cache r').
Proof.
  intros Hx Hh r' v Hv. apply invalidate_left in Hv as [Hv Hk]. destruct (Hh v Hv) as (a & u & -> & HP & Hm).
  exists a, u. split; [done|]. inversion HP as [|?? Hu HP']; subst. split; [done|].
  destruct (decide (k = k1 ∨ k = k2)) as [E|E].
  - destruct (Hk E) as [Hl Hi]. left. unfold isStale. fold r' in Hi. rewrite Hi. simpl.
    destruct Hu as [?|Hu]; [done|]. unfold Time.Before. by apply Z.ltb_lt.
  - rewrite Hx by tauto. destruct Hm as [Hm|Hm]; [left|by right]. revert Hm. unfold isStale, r', invalidate. simpl.
    by rewrite !lookup_insert_ne by naive_solver.
Qed.

Lemma invalidate_coherent now lost b b' id tn st os r :
  clean id → coherent (Write now lost id tn st :: os) b r → UpdateStatus b id tn st = (b', None) →
  coherent os b' (Cached_Delete (H := deaf lost) now id tn r).
Proof.
  intros Hc [Hc1 Hc2] Hu. split.
  - intros id'. eapply invalidate_holding; [|apply Hc1]. intros K1 _.
    apply (update_find_other _ _ _ _ _ _ id' Hu). congruence.
  - intros id' tn' Hc'. eapply invalidate_holding; [|by apply Hc2]. intros _ K2.
    apply (update_frame _ _ _ _ _ _ id' tn' Hu).
    destruct (decide (id = id')) as [<-|]; [|by left]. right. intros <-. done.
Qed.

Lemma coherent_tail o os b r : coherent (o :: os) b r → coherent os b r.
Proof.
  intros [Hc1 Hc2]. split; [intros id; generalize (Hc1 id)|intros id tn Hc; generalize (Hc2 id tn Hc)];
    apply holding_impl; intros st a [HP Hm]; (split; [by inversion HP|done]).
Qed.

Lemma run_coherent o os b r b' r' a :
  clean (op_id o) → Forall (outlives (op_stamp o)) os → coherent (o :: os) b r →
  run_cached o b r = (b', r', a) → coherent os b' r' ∧ run_backend o b = (b', a).
Proof.
  intros Hc Hst Hco. pose proof (coherent_tail _ _ _ _ Hco) as Hct.
  destruct o as [t id|t id tn|now lost id tn st]; simpl in *.
  - unfold Cached_FindByID. destruct (read_through _ _ _ _ _ _ _ _) as [r1 ans] eqn:E.
    destruct (read_through_spec _ _ row_roundtrip _ _ _ _ _ _ _ Hst (proj1 Hct id) E) as (Hf & K & Hi & ->).
    intros [= <- <- <-]. split; [|done]. eapply read_coherent; [done| | |done..].
    + by intros id' <-%cacheKey_inj.
    + intros id' tn _ Heq. by destruct (keys_apart id id' tn).
  - unfold Cached_FindByIDAndTenant. destruct (read_through _ _ _ _ _ _ _ _) as [r1 ans] eqn:E.
    destruct (read_through_spec _ _ row_roundtrip _ _ _ _ _ _ _ Hst (proj2 Hct id tn Hc) E) as (Hf & K & Hi & ->).
    intros [= <- <- <-]. split; [|done]. eapply read_coherent; [done| | |done..].
    + intros id' Heq. by destruct (keys_apart id' id tn).
    + intros id' tn' Hc' Heq. by apply tenantCacheKey_inj in Heq as [-> ->].
  - unfold Cached_UpdateStatus. destruct (UpdateStatus b id tn st) as [b1 [e|]] eqn:E; intros [= <- <- <-].
    + split; [|done]. by rewrite (update_failed _ _ _ _ _ _ E).
    + split; [|done]. by eapply invalidate_coherent.
Qed.

(** C6: Read-your-writes through the cache. Take any history of reads and
    status changes made through the caching repository one after the other,
    from an empty cache that keeps its contract, on identifiers without a
    colon, with a backend changed by nobody else. Some deletions of a status
    change may fail, as long as that change is stamped later than the calls
    before it. Then each call returns exactly what the backend would have
    returned: an entry that a failed deletion left behind is recognised as
    stale by its stamp and replaced, whatever the cache has forgotten in
    between. *)
Theorem cached_reads_coherent os b r :
  contents (cache r) = ∅ → Forall (λ o, clean (op_id o)) os → clocked os →
  run_all os b r = backend_all os b.
Proof.
  intros Hempty Hos.
  assert (coherent os b r) as Hco.
  { split; intros; apply holding_absent; by rewrite Hempty, lookup_empty. }
  clear Hempty. revert b r Hco. induction Hos as [|o os Hc _ IH]; intros b r Hco Hck; [done|]. simpl.
  inversion Hck as [|?? Hck' Hall]; subst. destruct (run_cached o b r) as [[b' r'] a] eqn:E.
  destruct (run_coherent o os b r b' r' a Hc Hall Hco E) as [Hco' ->]. f_equal. by apply IH.
Qed.
End coherence.

(** ** What the cache does not guard against *)
Section gaps.
Context (marshal_envelope : cacheEnvelope → string) (unmarshal_envelope : string → option cacheEnvelope).
Hypothesis envelope_roundtrip : ∀ e, unmarshal_envelope (marshal_envelope e) = Some e.
Context (marshal_row : SubscriptionRow → string) (unmarshal_row : string → option SubscriptionRow).
Hypothesis row_roundtrip : ∀ a, unmarshal_row (marshal_row a) = Some a.
Context {B : Type} `{SubscriptionRepository B} (FindByID : B → string → result repo_error SubscriptionRow).

#[local] Notation read := (read_through marshal_envelope unmarshal_envelope marshal_row unmarshal_row).
Definition envelope (row : SubscriptionRow) (st : Time) : string :=
  marshal_envelope {| Data := marshal_row row; StoredAt := st |}.

(** Not expired at [now]. *)
Definition live_at (now : Time) (it : inmemoryItem) : Prop :=
  (negb (Time.IsZero (exp it)) && Time.After now (exp it)) = false.

Lemma live_Get now key m it :
  items m !! key = Some it → live_at now it → InMemory_Get now key m = (m, Ok (Some (value it))).
Proof. intros Hk Hl. unfold InMemory_Get. by rewrite Hk, Hl. Qed.

Lemma read_hit {E} t key (a : result E SubscriptionRow) (r : cached InMemory) it row st :
  items (cache r) !! key = Some it → value it = envelope row st → live_at (t_fast t) it →
  isStale key {| Data := marshal_row row; StoredAt := st |} r = false →
  snd (read t key a r) = Ok row.
Proof.
  intros Hk Hv Hl Hs. unfold read_through, readEnvelope. simpl Get.
  rewrite (live_Get _ _ _ _ Hk Hl), Hv. simpl. unfold envelope. rewrite envelope_roundtrip.
  unfold isStale in *. simpl in *. by rewrite Hs, row_roundtrip.
Qed.

Lemma read_miss {E} t key (r : cached InMemory) row :
  items (cache r) !! key = None →
  read t key (Ok row : result E _) r =
  (set_cache (InMemory_Set (t_set t) key (envelope row (t_stored t)) (ttl r) (cache r)) (count 0 1 0 r), Ok row).
Proof.
  intros Hk. assert (∀ t, InMemory_Get t key (cache r) = (cache r, Ok None)) as Hg.
  { intros t0. unfold InMemory_Get. by rewrite Hk. }
  unfold read_through, refresh, readEnvelope, GetOrLoad. simpl Get.
  repeat (rewrite !Hg; simpl). unfold open_envelope. rewrite envelope_roundtrip. simpl.
  by rewrite row_roundtrip.
Qed.

(** The reader has found nothing cached and has read the backend; a writer
    changes the status and invalidates; then the reader stamps and stores
    what it has read. *)
Definition overlapped (tw t_stored t_set : Time) (id tn : string) (read : result repo_error SubscriptionRow)
    (r : cached InMemory) : cached InMemory :=
  let r := Cached_Delete tw id tn r in
  match load marshal_envelope marshal_row t_stored read with
  | Ok v => set_cache (InMemory_Set t_set (cacheKey id) v (ttl r) (cache r)) r
  | Err _ => r
  end.

(** A status change that overlaps a read is lost to the cache. When the
    writer updates the row and invalidates between the reader's query and its
    store, the old row is stamped later than the invalidation, and every read
    until it expires returns it, whatever the backend holds by then. *)
Theorem overlapping_update_cached b b' id tn st row r tw t_stored t_set t :
  FindByID b id = Ok row → UpdateStatus b id tn st = (b', None) →
  tw ≤ t_stored → (ttl r ≤ 0 ∨ t_fast t ≤ t_set + ttl r) →
  let r' := overlapped tw t_stored t_set id tn (FindByID b id) r in
  snd (Cached_FindByID marshal_envelope unmarshal_envelope FindByID marshal_row unmarshal_row t id b' r') = Ok row.
Proof.
  intros Hf Hu Htw Httl r'. unfold Cached_FindByID. unfold r', overlapped. rewrite Hf. simpl load. cbv iota.
  eapply read_hit with (st := t_stored); [simpl; by rewrite lookup_insert_eq|done| |].
  - unfold live_at. simpl. destruct (Z.ltb_spec 0 (ttl r)); simpl; [|done].
    destruct Httl; [lia|]. apply andb_false_iff. right. unfold Time.After, Time.Add. apply Z.ltb_ge. lia.
  - unfold isStale. simpl. rewrite lookup_insert_ne by done. rewrite lookup_insert_eq.
    unfold Time.Before. apply Z.ltb_ge. done.
Qed.

(** Tenants are told apart by a colon that identifiers may contain. After
    tenant [y] has read its subscription ["id:x"], tenant ["x:y"] asking for
    ["id"] is given that row from the cache, whatever the backend answers. *)
Theorem colon_crosses_tenants b b' id x y row t t' r :
  FindByIDAndTenant b (id +:+ ":" +:+ x)%string y = Ok row →
  items (cache r) !! tenantCacheKey (id +:+ ":" +:+ x) y = None →
  invalidatedAt r !! tenantCacheKey (id +:+ ":" +:+ x) y = None →
  (ttl r ≤ 0 ∨ t_fast t' ≤ t_set t + ttl r) →
  let '(r', _) := Cached_FindByIDAndTenant marshal_envelope unmarshal_envelope marshal_row unmarshal_row
                    t (id +:+ ":" +:+ x)%string y b r in
  snd (Cached_FindByIDAndTenant marshal_envelope unmarshal_envelope marshal_row unmarshal_row
         t' id (x +:+ ":" +:+ y)%string b' r') = Ok row.
Proof.
  intros Hf Hk Hi Httl. unfold Cached_FindByIDAndTenant. rewrite Hf, read_miss by done.
  assert (tenantCacheKey id (x +:+ ":" +:+ y) = tenantCacheKey (id +:+ ":" +:+ x) y) as ->.
  { unfold tenantCacheKey. by rewrite <- !string_app_assoc. }
  eapply read_hit with (st := t_stored t); [simpl; by rewrite lookup_insert_eq|done| |].
  - unfold live_at. simpl. destruct (Z.ltb_spec 0 (ttl r)); simpl; [|done].
    destruct Httl; [lia|]. apply andb_false_iff. right. unfold Time.After, Time.Add. apply Z.ltb_ge. lia.
  - unfold isStale. simpl. by rewrite Hi.
Qed.

(** A deletion that fails is noticed on the next read, and the old row is
    returned all the same: the purge fails again, and the guarded load finds
    the entry it was meant to replace. *)
Theorem stale_noticed_and_served b b' id tn st row (r : cached Redis) it stamp tw t rest :
  items (server (cache r)) !! cacheKey id = Some it → value it = envelope row stamp →
  (∀ now, live_at now it) → stamp < tw →
  UpdateStatus b id tn st = (b', None) →
  up (cache r) = ([false; false; true; true; false; true] ++ rest)%list →
  let '(_, r', _) := Cached_UpdateStatus tw id tn st b r in
  let '(r'', a) := Cached_FindByID marshal_envelope unmarshal_envelope FindByID marshal_row unmarshal_row
                     t id b' r' in
  a = Ok row ∧ stales r'' = stales r + 1.
Proof.
  intros Hk Hv Hl Hs Hu Hup. unfold Cached_UpdateStatus. rewrite Hu. unfold Cached_Delete, invalidate.
  destruct r as [[srv u] d h m s iv]. simpl in *. subst u.
  unfold Cached_FindByID. assert (cacheKey id ≠ tenantCacheKey id tn) as Hne by done.
  revert Hk Hne. generalize (cacheKey id) as k, (tenantCacheKey id tn) as k'. intros k k' Hk Hne.
  unfold read_through, refresh, readEnvelope, GetOrLoad. simpl Get. simpl Delete.
  unfold Redis_Get, Redis_Delete, redis_call. simpl. rewrite (live_Get _ _ _ _ Hk (Hl _)). simpl.
  assert (∀ c h m s, isStale (C := Redis) k {| Data := marshal_row row; StoredAt := stamp |}
    {| cache := c; ttl := d; hits := h; misses := m; stales := s;
       invalidatedAt := <[k' := tw]> (<[k := tw]> iv) |} = true) as Hst.
  { intros. unfold isStale. simpl. rewrite lookup_insert_ne by done. rewrite lookup_insert_eq.
    unfold Time.Before. by apply Z.ltb_lt. }
  assert (unmarshal_envelope (envelope row stamp) = Some {| Data := marshal_row row; StoredAt := stamp |}) as He
    by apply envelope_roundtrip.
  unfold set_cache. simpl. rewrite Hv, He. rewrite Hst. simpl.
  rewrite ?(live_Get _ _ _ _ Hk (Hl _)). simpl. rewrite ?Hv, He, Hst. simpl.
  rewrite (live_Get _ _ _ _ Hk (Hl _)). simpl. rewrite Hv.
  split; [|simpl; lia]. unfold open_envelope. rewrite He. simpl. by rewrite row_roundtrip.
Qed.
End gaps.

(** ** Stampedes: concurrent calls of [GetOrLoad] for one key

    A call is a thread; its steps are the lookups, the per-key lock, the
    loader and the store. [readings] are the times the clock may show, and
    [results] what the loader may return. *)
Section stampede.
Context {E : Type} (readings : Time → Prop) (results : result E string → Prop).
Context (key : string) (expiry : Duration).

Inductive phase :=
| FirstGet
| WantLock
| SecondGet
| Loading
| Storing (v : string)
| Done (r : result E string).

Record flight := {
  store : InMemory;
  lock : option nat;
  threads : list phase;
  loaded : list (result E string);
}.

Definition move (i : nat) (p : phase) (c : InMemory) (l : option nat) (s : flight) : flight :=
  {| store := c; lock := l; threads := <[i := p]> (threads s); loaded := loaded s |}.
Definition record_load (r : result E string) (s : flight) : flight :=
  {| store := store s; lock := lock s; threads := threads s; loaded := (loaded s ++ [r])%list |}.

Inductive flight_step (s : flight) : flight → Prop :=
| first_get i t :
    readings t → threads s !! i = Some FirstGet →
    flight_step s
      (let '(c, r) := InMemory_Get t key (store s) in
       move i (match hit r with Some v => Done (Ok v) | None => WantLock end) c (lock s) s)
| take_lock i :
    threads s !! i = Some WantLock → lock s = None →
    flight_step s (move i SecondGet (store s) (Some i) s)
| second_get i t :
    readings t → threads s !! i = Some SecondGet →
    flight_step s
      (let '(c, r) := InMemory_Get t key (store s) in
       match hit r with
       | Some v => move i (Done (Ok v)) c None s
       | None => move i Loading c (lock s) s
       end)
| run_loader i r :
    results r → threads s !! i = Some Loading →
    flight_step s
      (match r with
       | Ok v => move i (Storing v) (store s) (lock s) (record_load r s)
       | Err e => move i (Done r) (store s) None (record_load r s)
       end)
| store_loaded i t v :
    readings t → threads s !! i = Some (Storing v) →
    flight_step s (move i (Done (Ok v)) (InMemory_Set t key v expiry (store s)) None s).

Definition holds_lock (p : phase) : bool :=
  match p with SecondGet | Loading | Storing _ => true | _ => false end.

Definition arriving (n : nat) (m : InMemory) : flight :=
  {| store := m; lock := None; threads := replicate n FirstGet; loaded := [] |}.

(** The lock is held exactly by the thread between the two unlocks. *)
Definition locked (s : flight) : Prop :=
  (∀ i p, threads s !! i = Some p → holds_lock p = true → lock s = Some i) ∧
  (∀ i, lock s = Some i → ∃ p, threads s !! i = Some p ∧ holds_lock p = true).

Lemma locked_move s i q p c l :
  locked s → threads s !! i = Some q →
  (l = if holds_lock p then Some i else if holds_lock q then None else lock s) →
  (holds_lock q = true ∨ holds_lock p = false ∨ lock s = None) → locked (move i p c l s).
Proof.
  intros [H1 H2] Hi -> Hor. pose proof (lookup_lt_Some _ _ _ Hi) as Hlt.
  assert (∀ j p', j ≠ i → <[i := p]> (threads s) !! j = Some p' → threads s !! j = Some p') as Hother.
  { intros j p' Hne. by rewrite list_lookup_insert_ne. }
  assert (<[i := p]> (threads s) !! i = Some p) as Hself by by apply list_lookup_insert_eq.
  split; simpl.
  - intros j p' Hj Hp'. destruct (decide (j = i)) as [->|Hne]; [simplify_eq; by rewrite Hp'|].
    pose proof (H1 j p' (Hother j p' Hne Hj) Hp') as Hl.
    destruct (holds_lock q) eqn:Eq; [specialize (H1 i q Hi Eq); congruence|].
    destruct (holds_lock p) eqn:Ep; [|done]. by destruct Hor as [?|[?|?]]; congruence.
  - intros j Hl. destruct (holds_lock p) eqn:Ep; [simplify_eq; eauto|].
    destruct (holds_lock q) eqn:Eq; [done|]. destruct (H2 j Hl) as (p' & Hj & Hp').
    exists p'. split; [|done]. rewrite list_lookup_insert_ne; [done|]. intros ->. congruence.
Qed.

Lemma locked_step s s' : locked s → flight_step s s' → locked s'.
Proof.
  intros Hl Hs. pose proof Hl as [H1 _].
  destruct Hs as [i t _ Hi|i Hi Hn|i t _ Hi|i r _ Hi|i t v _ Hi].
  - destruct (InMemory_Get t key (store s)) as [c r]. eapply locked_move; [done|done| |].
    + by destruct (hit r).
    + right; left. by destruct (hit r).
  - eapply locked_move; [done|done|done|tauto].
  - destruct (InMemory_Get t key (store s)) as [c r].
    destruct (hit r); (eapply locked_move; [done|done| |by left]); [done|]. by apply (H1 i SecondGet).
  - assert (locked (record_load r s)) as Hl' by done.
    destruct r; (eapply locked_move; [done|exact Hi| |by left]); [|done]. by apply (H1 i Loading).
  - eapply locked_move; [done|done|done|by left].
Qed.

(** How far the key has come: not loaded, loaded and about to be stored, or
    stored. *)
Definition waiting (p : phase) : Prop := p = FirstGet ∨ p = WantLock.

Definition stage (s : flight) : Prop :=
  (loaded s = [] ∧ items (store s) !! key = None ∧
   ∀ i p, threads s !! i = Some p → waiting p ∨ p = SecondGet ∨ p = Loading) ∨
  (∃ v, loaded s = [Ok v] ∧
    ((items (store s) !! key = None ∧ is_Some (lock s) ∧
      ∀ i p, threads s !! i = Some p → waiting p ∨ p = Storing v) ∨
     (∃ it, items (store s) !! key = Some it ∧ value it = v ∧ (∀ t, readings t → live_at t it) ∧
      ∀ i p, threads s !! i = Some p → waiting p ∨ p = SecondGet ∨ p = Done (Ok v)))).

Lemma threads_move (P : phase → Prop) i p (l : list phase) :
  (∀ j q, l !! j = Some q → P q) → P p → ∀ j q, <[i := p]> l !! j = Some q → P q.
Proof.
  intros Hall Hp j q Hq. apply list_lookup_insert_Some in Hq as [(-> & <- & _)|[_ Hq]]; eauto.
Qed.

Lemma others_wait s i q j p :
  locked s → threads s !! i = Some q → holds_lock q = true → threads s !! j = Some p → j ≠ i →
  holds_lock p = false.
Proof.
  intros [H1 _] Hi Hq Hj Hne. destruct (holds_lock p) eqn:Ep; [|done].
  pose proof (H1 i q Hi Hq). pose proof (H1 j p Hj Ep). congruence.
Qed.

Hypothesis entries_last : ∀ t u, readings t → readings u → expiry ≤ 0 ∨ u ≤ t + expiry.
Hypothesis loader_succeeds : ∀ r, results r → ∃ v, r = Ok v.

Lemma get_missing t m : items m !! key = None → InMemory_Get t key m = (m, Ok None).
Proof. intros Hk. unfold InMemory_Get. by rewrite Hk. Qed.

Lemma stored_live t u v m :
  readings t → readings u →
  ∃ it, items (InMemory_Set t key v expiry m) !! key = Some it ∧ value it = v ∧ live_at u it.
Proof.
  intros Ht Hu. eexists. split; [simpl; by rewrite lookup_insert_eq|]. split; [done|].
  unfold live_at. simpl. destruct (Z.ltb_spec 0 expiry); simpl; [|done].
  apply andb_false_iff. right. unfold Time.After, Time.Add. apply Z.ltb_ge.
  destruct (entries_last t u Ht Hu); lia.
Qed.

Lemma stage_step s s' : locked s → stage s → flight_step s s' → stage s'.
Proof.
  intros Hlk Hst Hs.
  destruct Hst as [(Hl & Hk & Hp)|(v & Hl & [(Hk & Hlock & Hp)|(it & Hk & Hv & Hlive & Hp)])].
  - destruct Hs as [i t Ht Hi|i Hi Hn|i t Ht Hi|i r Hr Hi|i t v Ht Hi].
    + rewrite get_missing by done. left. split_and!; [done|done|]. simpl; apply threads_move; [done|]. left. by right.
    + left. split_and!; [done|done|]. simpl; apply threads_move; [done|tauto].
    + rewrite get_missing by done. left. split_and!; [done|done|]. simpl; apply threads_move; [done|tauto].
    + destruct (loader_succeeds r Hr) as [v ->]. right. exists v. split; [simpl; by rewrite Hl|]. left.
      split_and!; [done|simpl; by rewrite (proj1 Hlk i Loading Hi)|].
      intros j p Hj. simpl in Hj. apply list_lookup_insert_Some in Hj as [(-> & <- & _)|[Hne Hj]]; [by right|].
      left. pose proof (others_wait s i Loading j p Hlk Hi eq_refl Hj (not_eq_sym Hne)).
      by destruct (Hp j p Hj) as [?|[->| ->]].
    + by destruct (Hp i _ Hi) as [[|]|[|]].
  - right. exists v. destruct Hs as [i t Ht Hi|i Hi Hn|i t Ht Hi|i r Hr Hi|i t v' Ht Hi].
    + rewrite get_missing by done. split; [done|]. left. split_and!; [done|done|].
      simpl; apply threads_move; [done|]. left. by right.
    + destruct Hlock. congruence.
    + by destruct (Hp i _ Hi) as [[|]|].
    + by destruct (Hp i _ Hi) as [[|]|].
    + destruct (Hp i _ Hi) as [[|]|]; [done|done|]. simplify_eq. split; [done|]. right.
      destruct (stored_live t t v (store s) Ht Ht) as (it & Hit & Hv & _). exists it.
      split_and!; [done|done| |].
      * intros u Hu. destruct (stored_live t u v (store s) Ht Hu) as (it' & Hit' & _ & Hl'). congruence.
      * intros j p Hj. simpl in Hj. apply list_lookup_insert_Some in Hj as [(-> & <- & _)|[Hne Hj]]; [tauto|].
        pose proof (others_wait s i (Storing v) j p Hlk Hi eq_refl Hj (not_eq_sym Hne)).
        destruct (Hp j p Hj) as [?| ->]; [by left|done].
  - right. exists v. destruct Hs as [i t Ht Hi|i Hi Hn|i t Ht Hi|i r Hr Hi|i t v' Ht Hi].
    + rewrite (live_Get _ _ _ _ Hk (Hlive t Ht)). simpl. rewrite Hv. split; [done|]. right. exists it.
      split_and!; [done|done|done|]. simpl; apply threads_move; [done|tauto].
    + split; [done|]. right. exists it. split_and!; [done|done|done|]. simpl; apply threads_move; [done|tauto].
    + rewrite (live_Get _ _ _ _ Hk (Hlive t Ht)). simpl. rewrite Hv. split; [done|]. right. exists it.
      split_and!; [done|done|done|]. simpl; apply threads_move; [done|tauto].
    + by destruct (Hp i _ Hi) as [[|]|[|]].
    + by destruct (Hp i _ Hi) as [[|]|[|]].
Qed.

(** Steps a thread has left. *)
Definition left_to_do (p : phase) : nat :=
  match p with FirstGet => 5 | WantLock => 4 | SecondGet => 3 | Loading => 2 | Storing _ => 1 | Done _ => 0 end.
Definition work (s : flight) : nat := sum_list_with left_to_do (threads s).

Lemma work_move i p q c l s :
  threads s !! i = Some q → (left_to_do p < left_to_do q)%nat → (work (move i p c l s) < work s)%nat.
Proof.
  intros Hi Hlt. unfold work, move. cbn [threads]. pose proof (lookup_lt_Some _ _ _ Hi).
  rewrite insert_take_drop by done. rewrite <- (take_drop_middle _ _ _ Hi) at 3.
  rewrite !sum_list_with_app. simpl. lia.
Qed.

Lemma work_step s s' : flight_step s s' → (work s' < work s)%nat.
Proof.
  destruct 1 as [i t _ Hi|i Hi _|i t _ Hi|i r _ Hi|i t v _ Hi].
  - destruct (InMemory_Get t key (store s)) as [c r]. eapply work_move; [done|]. destruct (hit r); simpl; lia.
  - eapply work_move; [done|]. simpl. lia.
  - destruct (InMemory_Get t key (store s)) as [c r]. destruct (hit r); (eapply work_move; [done|]); simpl; lia.
  - destruct r; (eapply (work_move _ _ _ _ _ (record_load _ s)); [exact Hi|]); simpl; lia.
  - eapply work_move; [done|]. simpl. lia.
Qed.

Lemma never_stuck s t r :
  locked s → readings t → results r →
  (∃ s', flight_step s s') ∨ ∀ i p, threads s !! i = Some p → ∃ r, p = Done r.
Proof.
  intros [_ H2] Ht Hr. destruct (lock s) as [k|] eqn:El.
  - left. destruct (H2 k eq_refl) as (p & Hk & Hp). destruct p; try done; eexists;
      [by eapply second_get|by eapply run_loader|by eapply store_loaded].
  - destruct (decide (Exists (λ p, left_to_do p ≠ 0%nat) (threads s))) as [Hex|Hall].
    + left. apply Exists_exists in Hex as (p & [i Hi]%list_elem_of_lookup & Hp).
      destruct p; try done; eexists;
        [by eapply first_get|by eapply take_lock|by eapply second_get|by eapply run_loader|by eapply store_loaded].
    + right. intros i p Hi. destruct p; eauto; exfalso; apply Hall, Exists_exists;
        eexists; (split; [by eapply list_elem_of_lookup_2|done]).
Qed.

(** C10: A stampede costs one load. When any number of calls for a key that is
    missing at first run in any interleaving, every run of the loader would
    succeed and an entry does not expire meanwhile, then the loader runs at most once and every call that returns
    gets its value; no state but the last is stuck, and every run ends. *)
Theorem stampede_loads_once n m s t r :
  items m !! key = None → rtc flight_step (arriving n m) s → readings t → results r →
  (length (loaded s) ≤ 1)%nat ∧
  (∀ i a, threads s !! i = Some (Done a) → loaded s = [a]) ∧
  ((∃ s', flight_step s s') ∨ ∀ i p, threads s !! i = Some p → ∃ a, p = Done a) ∧
  (∀ s', flight_step s s' → (work s' < work s)%nat).
Proof.
  intros Hm Hrun Ht Hr.
  assert (locked s ∧ stage s) as [Hl Hst].
  { assert (∀ i p, replicate n FirstGet !! i = Some p → p = FirstGet) as Hrep.
    { intros i p. by intros [-> _]%lookup_replicate. }
    assert (locked (arriving n m) ∧ stage (arriving n m)) as H0.
    { split; [split; [|done]; intros i p Hi Hp; by rewrite (Hrep i p Hi) in Hp|].
      left. split_and!; [done|done|]. intros i p Hi. left. left. by apply (Hrep i). }
    clear Hm. induction Hrun as [|s1 s2 s3 Hs _ IH]; [done|]. destruct H0. apply IH.
    split; [by eapply locked_step|by eapply stage_step]. }
  split_and!; [| |by eapply never_stuck|apply work_step].
  - destruct Hst as [(-> & _)|(v & -> & _)]; simpl; lia.
  - intros i a Hi. destruct Hst as [(_ & _ & Hp)|(v & -> & [(_ & _ & Hp)|(it & _ & _ & _ & Hp)])];
      destruct (Hp i _ Hi) as [[|]|]; destruct_or?; by simplify_eq.
Qed.
End stampede.

(** ** Concrete runs

    Rows and envelopes written as their numbers, in binary. *)
Module Runs.
Definition row_fields (r : SubscriptionRow) :=
  (ID r, PlanID r, TenantID r, CustomerID r, Status r, Amount r, (Currency r, Interval r, NextBilling r,
   UpdatedAt r, Version r, DeletedAt r)).
#[local] Instance row_countable_eq : EqDecision SubscriptionRow.
Proof. solve_decision. Defined.
#[local] Instance row_countable : Countable SubscriptionRow.
Proof.
  refine (inj_countable' row_fields
    (λ '(a, b, c, d, e, f, (g, h, i, j, k, l)), {| ID := a; PlanID := b; TenantID := c; CustomerID := d;
       Status := e; Amount := f; Currency := g; Interval := h; NextBilling := i; UpdatedAt := j;
       Version := k; DeletedAt := l |}) _). by intros [].
Defined.

Definition row_json (r : SubscriptionRow) : string := digits (encode r).
Definition row_of_json (s : string) : option SubscriptionRow := decode (undigits s).
Definition envelope_json (e : cacheEnvelope) : string := digits (encode (Data e, StoredAt e)).
Definition envelope_of_json (s : string) : option cacheEnvelope :=
  (λ '(d, t), {| Data := d; StoredAt := t |}) <$> decode (undigits s).

Lemma row_json_roundtrip r : row_of_json (row_json r) = Some r.
Proof. unfold row_of_json, row_json. by rewrite undigits_digits, decode_encode. Qed.
Lemma envelope_json_roundtrip e : envelope_of_json (envelope_json e) = Some e.
Proof. unfold envelope_of_json, envelope_json. rewrite undigits_digits, decode_encode. by destruct e. Qed.

Definition row (id tenant status : string) : SubscriptionRow :=
  {| ID := id; PlanID := "p1"; TenantID := tenant; CustomerID := "c1"; Status := status; Amount := "1999";
     Currency := "USD"; Interval := "month"; NextBilling := ""; UpdatedAt := 0; Version := 1;
     DeletedAt := None |}.
Definition backend : MockSubscriptionRepo := {[ "s1" := row "s1" "acme" "active" ]}.
Definition empty_cache : cached InMemory := NewCached NewInMemory Time.Minute.
Definition at_time (t : Time) : read_times :=
  {| t_fast := t; t_stale := t; t_first := t; t_second := t; t_stored := t; t_set := t |}.

Lemma mock_find_other (b b' : MockSubscriptionRepo) id t st e id' :
  UpdateStatus b id t st = (b', e) → id ≠ id' → Mock_FindByID b' id' = Mock_FindByID b id'.
Proof.
  unfold UpdateStatus, mock_repository, Mock_UpdateStatus, Mock_FindByID, MockSubscriptionRepo in *.
  intros Hu Hne. destruct (b !! id) as [r|]; [|by simplify_eq].
  case_decide; simplify_eq; [done|]. by rewrite lookup_insert_ne.
Qed.

Lemma cached_reads_coherent_witness :
  let os := [Read (at_time 1) "s1"; Write 2 [cacheKey "s1"] "s1" "acme" "cancelled"; Read (at_time 3) "s1";
             ReadScoped (at_time 4) "s1" "other"] in
  run_all envelope_json envelope_of_json Mock_FindByID row_json row_of_json os backend empty_cache =
  [inl (Ok (row "s1" "acme" "active")); inr None; inl (Ok (row "s1" "acme" "cancelled"));
   inl (Err (Some ErrNotFound))].
Proof.
  intros os. etrans.
  - apply (cached_reads_coherent envelope_json envelope_of_json envelope_json_roundtrip
             Mock_FindByID mock_find_other row_json row_of_json row_json_roundtrip os backend empty_cache);
      [reflexivity|repeat constructor|].
    repeat constructor; try exact I; right; reflexivity.
  - vm_compute. reflexivity.
Defined.

Lemma overlapping_update_cached_witness :
  let r' := overlapped envelope_json row_json 2 3 3 "s1" "acme" (Mock_FindByID backend "s1") empty_cache in
  let b' := fst (Mock_UpdateStatus backend "s1" "acme" "cancelled") in
  Mock_FindByID b' "s1" = Ok (row "s1" "acme" "cancelled") ∧
  snd (Cached_FindByID envelope_json envelope_of_json Mock_FindByID row_json row_of_json (at_time 4) "s1" b' r') =
  Ok (row "s1" "acme" "active").
Proof.
  intros r' b'. split; [vm_compute; reflexivity|].
  apply (overlapping_update_cached envelope_json envelope_of_json envelope_json_roundtrip row_json row_of_json
           row_json_roundtrip Mock_FindByID backend b' "s1" "acme" "cancelled" (row "s1" "acme" "active")
           empty_cache 2 3 3 (at_time 4)); [reflexivity|reflexivity|lia|right].
  vm_compute. discriminate.
Defined.

Lemma colon_crosses_tenants_witness :
  let b : MockSubscriptionRepo := {[ "s1:eu" := row "s1:eu" "acme" "active" ]} in
  let '(r', _) := Cached_FindByIDAndTenant envelope_json envelope_of_json row_json row_of_json
                    (at_time 1) "s1:eu" "acme" b empty_cache in
  snd (Cached_FindByIDAndTenant envelope_json envelope_of_json row_json row_of_json
         (at_time 2) "s1" "eu:acme" b r') = Ok (row "s1:eu" "acme" "active").
Proof.
  apply (colon_crosses_tenants envelope_json envelope_of_json envelope_json_roundtrip row_json row_of_json
           row_json_roundtrip {[ "s1:eu" := row "s1:eu" "acme" "active" ]}
           {[ "s1:eu" := row "s1:eu" "acme" "active" ]} "s1" "eu" "acme" (row "s1:eu" "acme" "active")
           (at_time 1) (at_time 2) empty_cache); [reflexivity|reflexivity|reflexivity|right].
  vm_compute. discriminate.
Defined.

(** Two calls: the first misses, loads and stores, the second finds it. *)
Lemma stampede_loads_once_witness :
  ∃ s : flight (E := unit), threads s = [Done (Ok "v"); WantLock] ∧ (length (loaded s) ≤ 1)%nat ∧ loaded s = [Ok "v"].
Proof.
  pose (now := λ t : Time, t = 5). pose (res := λ r : result unit string, r = Ok "v").
  eexists {| store := InMemory_Set 5 "k" "v" 0 NewInMemory; lock := None;
             threads := [Done (Ok "v"); WantLock]; loaded := [Ok "v"] |}. split; [reflexivity|].
  destruct (stampede_loads_once now res "k" 0 (λ _ _ _ _, or_introl (Z.le_refl 0)) (λ r Hr, ex_intro _ "v" Hr)
              2 NewInMemory
              {| store := InMemory_Set 5 "k" "v" 0 NewInMemory; lock := None;
                 threads := [Done (Ok "v"); WantLock]; loaded := [Ok "v"] |} 5 (Ok "v"))
    as (H1 & H2 & _); [reflexivity| |reflexivity|reflexivity|].
  - eapply rtc_l; [by apply (first_get now res "k" 0 _ 0%nat 5)|].
    eapply rtc_l; [by apply (first_get now res "k" 0 _ 1%nat 5)|].
    eapply rtc_l; [by apply (take_lock now res "k" 0 _ 0%nat)|].
    eapply rtc_l; [by apply (second_get now res "k" 0 _ 0%nat 5)|].
    eapply rtc_l; [by apply (run_loader now res "k" 0 _ 0%nat (Ok "v"))|].
    eapply rtc_l; [by apply (store_loaded now res "k" 0 _ 0%nat 5 "v")|].
    apply rtc_refl.
  - split; [exact H1|by apply (H2 0%nat)].
Defined.
End Runs.
