(* ===== verification/AuditLog.v ===== *)
(** * The audit log

    Models [internal/audit]: the event and the sinks with their hash chain and
    its verification (types.go, sink.go), the logger with its redaction
    (logger.go), the write-once exporter (exporter.go), and the nightly export
    of [internal/worker/audit_exporter.go].

    SHA-256, JSON and the printing of metadata values are parameters. JSON
    does not give every event back as it was, so the theorems name the events
    it keeps ([stable]). The log is its complete lines and the unfinished one
    behind them: JSON texts contain no line break. Which file operations fail
    is an input. *)
From Stdlib Require Import ZArith Lia Ascii String.
From stdpp Require Import base gmap strings list.
From S2P Require Import Prelude GoStrings.
#[local] Open Scope string_scope.
#[local] Open Scope Z_scope.

(** ** Events *)
Record AuditEvent {V : Type} := {
  Timestamp : Time;
  RequestID : string;
  Actor : string;
  Action : string;
  Resource : string;
  Outcome : string;
  Metadata : option (gmap string V);
  PrevHash : string;
  Hash : string;
}.
Arguments AuditEvent V : clear implicits.

Definition set_hashes {V} (prev h : string) (e : AuditEvent V) : AuditEvent V :=
  {| Timestamp := Timestamp e; RequestID := RequestID e; Actor := Actor e; Action := Action e;
     Resource := Resource e; Outcome := Outcome e; Metadata := Metadata e; PrevHash := prev; Hash := h |}.
Definition set_content {V} (t : Time) (m : option (gmap string V)) (e : AuditEvent V) : AuditEvent V :=
  {| Timestamp := t; RequestID := RequestID e; Actor := Actor e; Action := Action e;
     Resource := Resource e; Outcome := Outcome e; Metadata := m; PrevHash := PrevHash e; Hash := Hash e |}.

(** *** Redaction *)
Definition sensitiveKeys : list string := ["password"; "token"; "secret"; "auth"; "key"; "cvv"; "card"].

Section redaction.
Context {V : Type} (show : V → string) (redactedValue : V).

Definition isSensitive (k : string) (v : V) : bool :=
  existsb (λ sk, Contains (ToLower k) sk || Contains (ToLower (show v)) "bearer") sensitiveKeys.

Definition redact (meta : option (gmap string V)) : option (gmap string V) :=
  match meta with
  | None => None
  | Some meta => Some (map_imap (λ k v, Some (if isSensitive k v then redactedValue else v)) meta)
  end.

(** Redaction keeps the keys and every value whose key and text are harmless,
    and no other value. *)
Lemma redact_exact meta k :
  ∃ m, redact (Some meta) = Some m ∧
    m !! k = (λ v, if isSensitive k v then redactedValue else v) <$> meta !! k.
Proof. eexists. split; [done|]. rewrite map_lookup_imap. by destruct (meta !! k). Qed.
End redaction.

(** ** Sinks *)
Inductive sink_error :=
| OpenFailed
| ReadFailed
| LineTooLong
| BadLastLine
| WriteFailed.

(** A sink stamps the event it is given and keeps it. *)
Class Sink (V S : Type) := {
  WriteEvent : AuditEvent V → S → S * result sink_error (AuditEvent V);
}.

(** The file, as its complete lines and what follows the last line break. *)
Record logfile := { lines : list string; tail : string }.

(** What happens to one call: errors of the two opens, and how much of the
    line a failing write leaves behind. *)
Inductive write_outcome := WriteAll | WriteFails (written : nat).
Record io := { read_open : bool; open_fails : bool; outcome : write_outcome }.

Definition append_line (o : write_outcome) (l : string) (f : logfile) : logfile * bool :=
  match o with
  | WriteAll => ({| lines := (lines f ++ [tail f +:+ l])%list; tail := "" |}, true)
  | WriteFails n => ({| lines := lines f; tail := tail f +:+ substring 0 n l |}, false)
  end.

(** [bufio.Scanner]: lines up to 65535 bytes; a longer one ends the scan with
    an error. *)
Definition max_line : nat := 65535.
Fixpoint scan (ls : list string) : list string * bool :=
  match ls with
  | [] => ([], true)
  | l :: ls =>
      if (String.length l <=? max_line)%nat then let '(ls, ok) := scan ls in (l :: ls, ok) else ([], false)
  end.
Definition all_lines (f : logfile) : list string :=
  (lines f ++ (if decide (tail f = "") then [] else [tail f]))%list.

Section chain.
Context {V : Type} (json : AuditEvent V → string) (unjson : string → option (AuditEvent V)) (sha256 : string → string).

Definition ComputeHash (e : AuditEvent V) : string := sha256 (json (set_hashes (PrevHash e) "" e)).

(** The event as a sink writes it after [prev]. *)
Definition chained (prev : string) (e : AuditEvent V) : AuditEvent V :=
  let e := set_hashes prev (Hash e) e in set_hashes prev (ComputeHash e) e.

(** *** [FileSink] *)
Record FileSink := { lastHash : string; init : bool }.
Definition NewFileSink : FileSink := {| lastHash := ""; init := false |}.

(** The last line that is not empty. *)
Definition last_line (ls : list string) : string :=
  foldl (λ last l, if decide (l = "") then last else l) "" ls.

(** [None] is a file that does not exist. *)
Definition loadLastHashLocked (i : io) (f : option logfile) (s : FileSink) : result sink_error FileSink :=
  match f with
  | None => Ok {| lastHash := lastHash s; init := true |}
  | Some f =>
      if read_open i then Err OpenFailed
      else
        let '(ls, ok) := scan (all_lines f) in
        if negb ok then Err LineTooLong
        else
          let l := last_line ls in
          if decide (l = "") then Ok {| lastHash := lastHash s; init := true |}
          else match unjson l with
               | None => Err BadLastLine
               | Some e => Ok {| lastHash := Hash e; init := true |}
               end
  end.

Definition File_WriteEvent (i : io) (e : AuditEvent V) (f : option logfile) (s : FileSink)
    : option logfile * FileSink * result sink_error (AuditEvent V) :=
  match (if init s then Ok s else loadLastHashLocked i f s) with
  | Err err => (f, s, Err err)
  | Ok s =>
      let e := chained (lastHash s) e in
      if open_fails i then (f, s, Err OpenFailed)
      else
        let '(f', ok) := append_line (outcome i) (json e) (default {| lines := []; tail := "" |} f) in
        if ok then (Some f', {| lastHash := Hash e; init := true |}, Ok e)
        else (Some f', s, Err WriteFailed)
  end.

(** *** [MemorySink] *)
Record MemorySink := { entries : list (AuditEvent V); mem_lastHash : string }.

Definition Memory_WriteEvent (e : AuditEvent V) (s : MemorySink) : MemorySink * result sink_error (AuditEvent V) :=
  let e := chained (mem_lastHash s) e in
  ({| entries := (entries s ++ [e])%list; mem_lastHash := Hash e |}, Ok e).

Definition Entries (s : MemorySink) : list (AuditEvent V) := entries s.

#[local] Instance memory_sink : Sink V MemorySink := { WriteEvent := Memory_WriteEvent }.

(** *** [Verify] *)
Inductive verify_error :=
| InvalidJSON (line : Z)
| BrokenChain (line : Z)
| HashMismatch (line : Z)
| ScanError.

(** The first fault, or the hash at the end. *)
Fixpoint verify_loop (line : Z) (expectedPrev : string) (ls : list string) : result verify_error string :=
  match ls with
  | [] => Ok expectedPrev
  | l :: ls =>
      if decide (l = "") then verify_loop (line + 1) expectedPrev ls
      else match unjson l with
           | None => Err (InvalidJSON line)
           | Some e =>
               if decide (PrevHash e ≠ expectedPrev) then Err (BrokenChain line)
               else if decide (ComputeHash e ≠ Hash e) then Err (HashMismatch line)
               else verify_loop (line + 1) (Hash e) ls
           end
  end.

Definition Verify (f : logfile) : option verify_error :=
  let '(ls, ok) := scan (all_lines f) in
  match verify_loop 1 "" ls with
  | Err e => Some e
  | Ok _ => if ok then None else Some ScanError
  end.
End chain.

(** ** The logger

    [now] is the time taken when the event has none. *)
Definition Log {V S} `{Sink V S} (show : V → string) (redactedValue : V) (now : Time)
    (event : AuditEvent V) (s : S) : S * result sink_error (AuditEvent V) :=
  let t := if Time.IsZero (Timestamp event) then now else Timestamp event in
  WriteEvent (set_content t (redact show redactedValue (Metadata event)) event) s.

(** ** The chain is unbroken *)
Section facts.
Context {V : Type} (json : AuditEvent V → string) (unjson : string → option (AuditEvent V)) (sha256 : string → string).
#[local] Notation ComputeHash := (ComputeHash json sha256).
#[local] Notation chained := (chained json sha256).
#[local] Notation verify_loop := (verify_loop json unjson sha256).
#[local] Notation Verify := (Verify json unjson sha256).
#[local] Notation File_WriteEvent := (File_WriteEvent json unjson sha256).

(** JSON gives back an event with the same hashes and the same text. *)
Definition stable (e : AuditEvent V) : Prop :=
  ∃ e', unjson (json e) = Some e' ∧ PrevHash e' = PrevHash e ∧ Hash e' = Hash e ∧
    json (set_hashes (PrevHash e') "" e') = json (set_hashes (PrevHash e) "" e).

Definition hash_like (h : string) : Prop := h = "" ∨ ∃ x, h = sha256 x.

(** The log can hold the event, whatever hash comes before it. *)
Definition loggable (e : AuditEvent V) : Prop :=
  ∀ prev, hash_like prev → stable (chained prev e) ∧ json (chained prev e) ≠ "" ∧
    (String.length (json (chained prev e)) ≤ max_line)%nat.

Lemma verify_loop_app n p ls1 ls2 :
  verify_loop n p (ls1 ++ ls2) =
  match verify_loop n p ls1 with
  | Ok h => verify_loop (n + Z.of_nat (length ls1)) h ls2
  | Err e => Err e
  end.
Proof.
  revert n p. induction ls1 as [|l ls1 IH]; intros n p; simpl; [by rewrite Z.add_0_r|].
  assert (∀ n p, verify_loop (n + 1) p (ls1 ++ ls2) =
    match verify_loop (n + 1) p ls1 with
    | Ok h => verify_loop (n + Z.of_nat (S (length ls1))) h ls2
    | Err e => Err e
    end) as Hn.
  { intros m q. rewrite IH. by replace (m + 1 + Z.of_nat (length ls1)) with (m + Z.of_nat (S (length ls1))) by lia. }
  destruct (decide (l = "")); [apply Hn|]. destruct (unjson l) as [e|]; [|done].
  destruct (decide (PrevHash e ≠ p)); [done|]. destruct (decide (ComputeHash e ≠ Hash e)); [done|]. apply Hn.
Qed.

Lemma chained_hashes prev e : PrevHash (chained prev e) = prev ∧ Hash (chained prev e) = ComputeHash (chained prev e).
Proof. done. Qed.

Lemma verify_chained n prev e :
  loggable e → hash_like prev → verify_loop n prev [json (chained prev e)] = Ok (Hash (chained prev e)).
Proof.
  intros He Hprev. destruct (He prev Hprev) as ((e' & Hj & Hp & Hh & Hc) & Hne & _). simpl verify_loop.
  rewrite decide_False, Hj by done.
  rewrite decide_False by (rewrite Hp; tauto).
  rewrite decide_False; [by rewrite Hh|].
  rewrite Hh. unfold AuditLog.ComputeHash. rewrite Hc. tauto.
Qed.

Lemma scan_short ls : Forall (λ l, (String.length l ≤ max_line)%nat) ls → scan ls = (ls, true).
Proof.
  induction 1 as [|l ls Hl _ IH]; [done|]. cbn [scan]. rewrite IH.
  by rewrite (proj2 (Nat.leb_le _ _) Hl).
Qed.

Lemma last_line_snoc ls l : l ≠ "" → last_line (ls ++ [l]) = l.
Proof. intros Hl. unfold last_line. rewrite foldl_app. simpl. by rewrite decide_False. Qed.

(** *** Histories of one log file: writes, and restarts of the process *)
Inductive log_op := LogWrite (i : io) (e : AuditEvent V) | Restart.

Record log_state := { file : option logfile; sink : FileSink; accepted : list (AuditEvent V) }.

Definition log_step (s : log_state) (o : log_op) : log_state :=
  match o with
  | LogWrite i e =>
      let '(f, k, r) := File_WriteEvent i e (file s) (sink s) in
      {| file := f; sink := k;
         accepted := match r with Ok e => (accepted s ++ [e])%list | Err _ => accepted s end |}
  | Restart => {| file := file s; sink := NewFileSink; accepted := accepted s |}
  end.

Definition new_log : log_state := {| file := None; sink := NewFileSink; accepted := [] |}.

(** No write stops half way. *)
Definition whole_writes (o : log_op) : Prop :=
  match o with LogWrite i e => outcome i = WriteAll ∨ outcome i = WriteFails 0 | Restart => True end.
Definition op_loggable (o : log_op) : Prop :=
  match o with LogWrite _ e => loggable e | Restart => True end.

Definition kept (e : AuditEvent V) : Prop := stable e ∧ hash_like (Hash e).

(** The hash the chain has come to. *)
Definition head (s : log_state) : string :=
  match last (accepted s) with Some e => Hash e | None => "" end.

Definition chain_ok (s : log_state) : Prop :=
  let f := default {| lines := []; tail := "" |} (file s) in
  tail f = "" ∧ lines f = json <$> accepted s ∧
  Forall (λ l, l ≠ "" ∧ (String.length l ≤ max_line)%nat) (lines f) ∧
  verify_loop 1 "" (lines f) = Ok (head s) ∧
  lastHash (sink s) = (if init (sink s) then head s else "").

Lemma loads_head i s s' :
  chain_ok s → Forall kept (accepted s) → init (sink s) = false →
  loadLastHashLocked unjson i (file s) (sink s) = Ok s' → s' = {| lastHash := head s; init := true |}.
Proof.
  intros (Ht & Hl & Hf & Hv & Hk) Hst Hi. rewrite Hi in Hk. unfold loadLastHashLocked, head in *.
  destruct (file s) as [f|]; simpl in *.
  - destruct (read_open i); [done|]. unfold all_lines. rewrite Ht, decide_True, app_nil_r by done.
    rewrite scan_short by (eapply Forall_impl; [exact Hf|]; by intros ? []). simpl. rewrite Hl in Hf |- *.
    destruct (decide (accepted s = [])) as [->|Hacc]; [by rewrite Hk; intros [= <-]|].
    destruct (exists_last Hacc) as (es & e & Eacc). rewrite Eacc in *.
    rewrite last_snoc, fmap_app. simpl. rewrite fmap_app in Hf. apply Forall_app in Hf as [_ Hf].
    apply Forall_singleton in Hf as [Hne _]. rewrite last_line_snoc, decide_False by done.
    apply Forall_app in Hst as [_ Hst]. apply Forall_singleton in Hst as [(e' & He' & _ & Hh & _) _].
    rewrite He', <- Hh. by intros [= <-].
  - destruct (accepted s); [|done]. simpl. rewrite Hk. by intros [= <-].
Qed.

Lemma log_step_ok s o :
  chain_ok s → Forall kept (accepted s) → whole_writes o → op_loggable o →
  chain_ok (log_step s o) ∧ Forall kept (accepted (log_step s o)).
Proof.
  intros Hok Hst Hw Hlog. destruct o as [i e|]; [|split; [|done]; by destruct Hok as (? & ? & ? & ? & ?)].
  simpl in *. unfold AuditLog.File_WriteEvent.
  destruct (if init (sink s) then Ok (sink s) else _) as [k|err] eqn:Ek.
  2: { split; [|done]. destruct s; exact Hok. }
  assert (k = {| lastHash := head s; init := true |}) as ->.
  { destruct (init (sink s)) eqn:Ei; [|by eapply loads_head].
    injection Ek as <-. destruct Hok as (_ & _ & _ & _ & Hk). rewrite Ei in Hk.
    destruct (sink s). simpl in *. by subst. }
  destruct Hok as (Ht & Hl & Hf & Hv & Hk). set (f := default _ (file s)) in *. simpl.
  destruct (open_fails i); [by split|].
  destruct Hw as [-> | ->]; simpl; [|].
  2: { assert (∀ x, substring 0 0 x = "") as Hsub by by intros []. rewrite Hsub, Ht. split; [|done].
       unfold chain_ok, head in *. simpl. by split_and!. }
  assert (hash_like (head s)) as Hhead.
  { unfold head. destruct (last (accepted s)) as [e0|] eqn:El; [|by left].
    apply last_Some in El as [es El]. rewrite El in Hst. apply Forall_app in Hst as [_ Hst].
    by apply Forall_singleton in Hst as [_ Hst]. }
  destruct (Hlog (head s) Hhead) as (Hs & Hne & Hlen).
  split; [|apply Forall_app; rewrite Forall_singleton; split; [done|split; [done|right; by eexists]]].
  unfold chain_ok, head. simpl. rewrite Ht, last_snoc. split_and!; [done| | | |done].
  - by rewrite Hl, fmap_app.
  - apply Forall_app. by rewrite Forall_singleton.
  - rewrite verify_loop_app, Hv. by apply verify_chained.
Qed.

Lemma log_run_ok ops s :
  chain_ok s → Forall kept (accepted s) → Forall whole_writes ops → Forall op_loggable ops →
  chain_ok (foldl log_step s ops).
Proof.
  intros Hok Hst Hw. revert s Hok Hst. induction Hw as [|o ops Ho _ IH]; intros s Hok Hst Hlog; [done|].
  apply Forall_cons in Hlog as [Hlo Hlog]. destruct (log_step_ok s o Hok Hst Ho Hlo) as [H1 H2].
  by apply IH.
Qed.

(** C11: The audit log verifies. Whatever is logged through a file sink, with
    any failing opens and writes and any restarts of the process in between,
    the file holds exactly the accepted events, in order, and verification
    finds the chain unbroken; as long as no write stops half way and every
    event survives JSON and fits a line of the scanner. *)
Theorem log_verifies ops :
  Forall whole_writes ops → Forall op_loggable ops →
  let s := foldl log_step new_log ops in
  match file s with
  | None => accepted s = []
  | Some f => lines f = json <$> accepted s ∧ Verify f = None
  end.
Proof.
  intros Hw Hlog s. assert (chain_ok s) as (Ht & Hl & Hf & Hv & _) by (by apply log_run_ok).
  destruct (file s) as [f|]; simpl in *; [|by destruct (accepted s)]. split; [done|].
  unfold AuditLog.Verify, all_lines. rewrite Ht, decide_True, app_nil_r by done.
  rewrite scan_short by (eapply Forall_impl; [exact Hf|]; by intros ? []). by rewrite Hv.
Qed.

(** *** What verification tells *)

(** A hash is not empty, and the text of an event tells the hash before it. *)
Hypothesis sha_nonempty : ∀ x, sha256 x ≠ "".
Hypothesis json_prev : ∀ e e', json e = json e' → PrevHash e = PrevHash e'.

(** Lines that decode to events of the same text, hashes included. *)
Definition same_line (l1 l2 : string) : Prop :=
  ∃ e1 e2, unjson l1 = Some e1 ∧ unjson l2 = Some e2 ∧ Hash e1 = Hash e2 ∧
    json (set_hashes (PrevHash e1) "" e1) = json (set_hashes (PrevHash e2) "" e2).

Definition collision : Prop := ∃ x y, x ≠ y ∧ sha256 x = sha256 y.

Lemma verify_snoc n ls l h :
  verify_loop n "" (ls ++ [l]) = Ok h → l ≠ "" →
  ∃ e p, unjson l = Some e ∧ verify_loop n "" ls = Ok p ∧ PrevHash e = p ∧ h = Hash e ∧ ComputeHash e = Hash e.
Proof.
  rewrite verify_loop_app. destruct (verify_loop n "" ls) as [p|]; [|done]. simpl. intros Hv Hl.
  rewrite decide_False in Hv by done. destruct (unjson l) as [e|]; [|done].
  destruct (decide (PrevHash e ≠ p)) as [|Hp]; [done|]. destruct (decide (ComputeHash e ≠ Hash e)) as [|Hh]; [done|].
  simplify_eq. exists e, p. split_and!; [done|done| |done|]; by apply dec_stable.
Qed.

Lemma verify_nonempty n ls l h : verify_loop n "" (ls ++ [l]) = Ok h → l ≠ "" → h ≠ "".
Proof.
  intros Hv Hl. destruct (verify_snoc _ _ _ _ Hv Hl) as (e & p & _ & _ & _ & -> & <-). apply sha_nonempty.
Qed.

(** The last hash pins the whole log. Two logs that both verify and end in
    the same hash hold the same lines, event by event, or they exhibit two
    texts with the same SHA-256: nobody can change, insert, drop or reorder an
    event before a hash that is kept elsewhere without finding a collision. *)
Theorem last_hash_pins_log n m ls1 ls2 h :
  verify_loop n "" ls1 = Ok h → verify_loop m "" ls2 = Ok h →
  Forall (λ l, l ≠ "") ls1 → Forall (λ l, l ≠ "") ls2 →
  Forall2 same_line ls1 ls2 ∨ collision.
Proof.
  revert ls2 h. induction ls1 as [|l1 ls1 IH] using rev_ind; intros ls2 h H1 H2 F1 F2;
    (destruct (decide (ls2 = [])) as [->|Hn2]; [|destruct (exists_last Hn2) as (ls2' & l2 & ->)]).
  - by left.
  - apply Forall_app in F2 as [_ [Hl2 _]%Forall_cons]. simpl in H1. injection H1 as <-.
    by destruct (verify_nonempty _ _ _ _ H2 Hl2).
  - apply Forall_app in F1 as [_ [Hl1 _]%Forall_cons]. simpl in H2. injection H2 as <-.
    by destruct (verify_nonempty _ _ _ _ H1 Hl1).
  - apply Forall_app in F1 as [F1 [Hl1 _]%Forall_cons]. apply Forall_app in F2 as [F2 [Hl2 _]%Forall_cons].
    destruct (verify_snoc _ _ _ _ H1 Hl1) as (e1 & p1 & Hj1 & Hv1 & Hp1 & Hh1 & Hc1).
    destruct (verify_snoc _ _ _ _ H2 Hl2) as (e2 & p2 & Hj2 & Hv2 & Hp2 & Hh2 & Hc2).
    set (t1 := json (set_hashes (PrevHash e1) "" e1)). set (t2 := json (set_hashes (PrevHash e2) "" e2)).
    assert (sha256 t1 = sha256 t2) as Ht by (unfold AuditLog.ComputeHash in *; subst t1 t2; congruence).
    destruct (decide (t1 = t2)) as [He|He]; [|right; by exists t1, t2].
    assert (p1 = p2) as -> by (apply json_prev in He; simpl in He; congruence).
    destruct (IH _ _ Hv1 Hv2 F1 F2) as [Hall|]; [|by right]. left.
    apply Forall2_app; [done|]. constructor; [|done]. exists e1, e2. split_and!; [done|done|congruence|done].
Qed.

(** A log cut short verifies all the same. *)
Lemma truncation_verifies n ls ls' h :
  verify_loop n "" (ls ++ ls') = Ok h → ∃ p, verify_loop n "" ls = Ok p.
Proof. rewrite verify_loop_app. destruct (verify_loop n "" ls); [eauto|done]. Qed.

(** Half a line at the end of the file silences the log for good: after a
    restart no event can be written any more. *)
Theorem partial_write_silences_log i e f s :
  init s = false → tail f ≠ "" → unjson (tail f) = None →
  Forall (λ l, (String.length l ≤ max_line)%nat) (all_lines f) →
  ∃ err, File_WriteEvent i e (Some f) s = (Some f, s, Err err).
Proof.
  intros Hi Ht Hj Hall. unfold AuditLog.File_WriteEvent. rewrite Hi. simpl.
  destruct (read_open i); [eauto|]. rewrite scan_short by done. simpl. unfold all_lines.
  rewrite (decide_False (P := tail f = "")), last_line_snoc, decide_False, Hj by done. eauto.
Qed.
End facts.

(** ** [WORMExporter]

    [hash] stands for [computeEventHash] with the exporter's secret. Rotation
    takes the buffer under the lock, verifies and uploads it outside; so it is
    two steps, between which other calls may run. *)
Section exporter.
Context {V : Type} (hash : AuditEvent V → string).

Record WORMExporter := { buffer : list (AuditEvent V); uploaded : list (list (AuditEvent V)); lastExport : Time }.

Definition NewWORMExporter (now : Time) : WORMExporter := {| buffer := []; uploaded := []; lastExport := now |}.

Definition shouldRotate (maxSize : Z) (rotateTime : Duration) (now : Time) (x : WORMExporter) : bool :=
  ((0 <? maxSize) && (maxSize <=? Z.of_nat (length (buffer x)))) ||
  ((0 <? rotateTime) && (rotateTime <=? Time.Sub now (lastExport x))).

(** The check of the segment: hashes, and links within the segment. *)
Fixpoint segment_ok (prev : option string) (events : list (AuditEvent V)) : bool :=
  match events with
  | [] => true
  | e :: es =>
      bool_decide (Hash e = hash e) &&
      (match prev with None => true | Some h => bool_decide (PrevHash e = h) end) &&
      segment_ok (Some (Hash e)) es
  end.

(** Taking the buffer; [None] is the early return of an empty one. *)
Definition rotate_begin (now : Time) (x : WORMExporter) : WORMExporter * option (list (AuditEvent V)) :=
  match buffer x with
  | [] => (x, None)
  | events => ({| buffer := []; uploaded := uploaded x; lastExport := now |}, Some events)
  end.

Inductive rotation := Returned (ok : bool) | Panicked.

Definition restoreAndError (events : list (AuditEvent V)) (x : WORMExporter) : WORMExporter :=
  {| buffer := (events ++ buffer x)%list; uploaded := uploaded x; lastExport := lastExport x |}.

(** Verifying and uploading; [fails] tells whether marshalling, signing or the
    upload fails, which puts the events back in front of the buffer. *)
Definition rotate_end (fails : bool) (events : list (AuditEvent V)) (x : WORMExporter)
    : WORMExporter * rotation :=
  if negb (segment_ok None events) then (x, Panicked)
  else if fails then
    (restoreAndError events x, Returned false)
  else
    ({| buffer := buffer x; uploaded := (uploaded x ++ [events])%list; lastExport := lastExport x |}, Returned true).

Definition Rotate (now : Time) (fails : bool) (x : WORMExporter) : WORMExporter * rotation :=
  match rotate_begin now x with
  | (x, None) => (x, Returned true)
  | (x, Some events) => rotate_end fails events x
  end.

Definition add_event (e : AuditEvent V) (x : WORMExporter) : WORMExporter :=
  {| buffer := (buffer x ++ [e])%list; uploaded := uploaded x; lastExport := lastExport x |}.

Definition Export_WriteEvent (maxSize : Z) (rotateTime : Duration) (now : Time) (fails : bool) (e : AuditEvent V)
    (x : WORMExporter) : WORMExporter * rotation :=
  let x := add_event e x in
  if shouldRotate maxSize rotateTime now x then Rotate now fails x else (x, Returned true).

(** Events whose hashes are right and linked. *)
Fixpoint linked (prev : option string) (es : list (AuditEvent V)) : Prop :=
  match es with
  | [] => True
  | e :: es =>
      Hash e = hash e ∧ (match prev with None => True | Some h => PrevHash e = h end) ∧ linked (Some (Hash e)) es
  end.

Lemma linked_segment prev es : linked prev es → segment_ok prev es = true.
Proof.
  revert prev. induction es as [|e es IH]; intros prev; simpl; [done|]. intros (H1 & H2 & H3).
  rewrite bool_decide_true, IH by done. destruct prev; [|done]. by rewrite bool_decide_true.
Qed.

Lemma linked_weaken prev es : linked prev es → linked None es.
Proof. destruct es; simpl; tauto. Qed.

Lemma linked_app prev es1 es2 : linked prev (es1 ++ es2) → linked prev es1 ∧ linked None es2.
Proof.
  revert prev. induction es1 as [|e es1 IH]; intros prev; simpl; [intros H; by eapply conj, linked_weaken|].
  intros (H1 & H2 & H3). destruct (IH _ H3). tauto.
Qed.

Definition exported (x : WORMExporter) : list (AuditEvent V) := (concat (uploaded x) ++ buffer x)%list.

Lemma Rotate_keeps now fails x x' r :
  linked None (exported x) → Rotate now fails x = (x', r) → exported x' = exported x ∧ r ≠ Panicked.
Proof.
  intros Hl. unfold Rotate, rotate_begin, exported in *. destruct (buffer x) as [|e es] eqn:Eb.
  { intros [= <- <-]. by rewrite Eb. }
  apply linked_app in Hl as [_ Hl]. unfold rotate_end. rewrite (linked_segment _ _ Hl). simpl.
  destruct fails; intros [= <- <-]; (split; [|done]); simpl; [by rewrite app_nil_r|].
  rewrite concat_app. simpl. by rewrite !app_nil_r.
Qed.

(** A history of calls, one after the other. *)
Inductive export_op := ExportWrite (now : Time) (fails : bool) (e : AuditEvent V) | ExportRotate (now : Time) (fails : bool).
Definition export_step (maxSize : Z) (rotateTime : Duration) (o : export_op) (x : WORMExporter) : WORMExporter * rotation :=
  match o with
  | ExportWrite now fails e => Export_WriteEvent maxSize rotateTime now fails e x
  | ExportRotate now fails => Rotate now fails x
  end.
Fixpoint export_run (maxSize : Z) (rotateTime : Duration) (os : list export_op) (x : WORMExporter)
    : WORMExporter * list rotation :=
  match os with
  | [] => (x, [])
  | o :: os =>
      let '(x, r) := export_step maxSize rotateTime o x in
      let '(x, rs) := export_run maxSize rotateTime os x in (x, r :: rs)
  end.
Definition written (os : list export_op) : list (AuditEvent V) :=
  omap (λ o, match o with ExportWrite _ _ e => Some e | _ => None end) os.

(** The exporter loses nothing. When the events written are linked, and
    calls do not overlap, no rotation panics, and the uploaded segments
    followed by the buffer are exactly the events written, in order, whatever
    signatures and uploads fail on the way. *)
Theorem exporter_keeps_events maxSize rotateTime os now x rs :
  linked None (written os) → export_run maxSize rotateTime os (NewWORMExporter now) = (x, rs) →
  exported x = written os ∧ Forall (λ r, r ≠ Panicked) rs.
Proof.
  cut (∀ os x0 x rs, linked None (exported x0 ++ written os) →
    export_run maxSize rotateTime os x0 = (x, rs) →
    exported x = (exported x0 ++ written os)%list ∧ Forall (λ r, r ≠ Panicked) rs).
  { intros Hall Hl Hr. by apply (Hall os (NewWORMExporter now)). }
  clear. intros os. induction os as [|o os IH]; intros x0 x rs Hl Hr; simpl in *.
  { simplify_eq. by rewrite app_nil_r. }
  destruct (export_step maxSize rotateTime o x0) as [x1 r] eqn:E1.
  destruct (export_run _ _ os x1) as [x2 rs2] eqn:E2. injection Hr as <- <-.
  assert ((exported x1 ++ written os)%list = (exported x0 ++ written (o :: os))%list ∧ r ≠ Panicked) as [He Hp].
  { destruct o as [t fails e|t fails]; simpl in *.
    - unfold Export_WriteEvent in E1. assert (exported (add_event e x0) = (exported x0 ++ [e])%list) as Ha.
      { unfold exported. simpl. by rewrite app_assoc. }
      replace (exported x0 ++ e :: written os)%list with (exported (add_event e x0) ++ written os)%list in Hl |- *
        by (by rewrite Ha, <- app_assoc).
      destruct (shouldRotate _ _ _ _); [|by simplify_eq].
      apply Rotate_keeps in E1 as [-> ?]; [done|]. by apply linked_app in Hl as [? _].
    - apply Rotate_keeps in E1 as [-> ?]; [done|]. by apply linked_app in Hl as [? _]. }
  destruct (IH x1 x2 rs2) as [Hx Hrs]; [by rewrite He|done|]. split; [by rewrite Hx, He|by constructor].
Qed.

(** Overlapping rotations break the chain they guard: while one rotation
    uploads [a], another takes and uploads [b], written meanwhile; then the
    first upload fails and puts [a] back. The next rotation, with the event
    [c] that follows [b], panics, and both events are gone. *)
Theorem overlapping_rotation_panics now x a b c :
  buffer x = [a] → linked None [a; b; c] → Hash b ≠ Hash a →
  let '(x1, first) := rotate_begin now x in
  let '(x2, _) := Rotate now false (add_event b x1) in
  let '(x3, _) := rotate_end true (default [] first) x2 in
  let '(x4, r) := Rotate now false (add_event c x3) in
  r = Panicked ∧ buffer x4 = [] ∧ uploaded x4 = (uploaded x ++ [[b]])%list.
Proof.
  intros Hb (Ha & _ & Hb' & Hpb & Hc' & Hpc & _) Hne. unfold rotate_begin. rewrite Hb. simpl.
  unfold Rotate, rotate_begin, rotate_end. simpl. rewrite (bool_decide_true (Hash b = hash b)) by done. simpl.
  rewrite (bool_decide_true (Hash a = hash a)) by done. simpl.
  rewrite (bool_decide_true (Hash a = hash a)), (bool_decide_false (PrevHash c = Hash a)) by congruence.
  rewrite andb_false_r. by simpl.
Qed.
End exporter.

(** ** The nightly export *)
Section nightly.
Context {V : Type} (unjson : string → option (AuditEvent V)).

Record export_record := {
  x_timestamp : Time; x_actor : string; x_action : string; x_resource : string; x_outcome : string;
  x_reason : option V; x_before : option V; x_after : option V; x_hash : string;
}.

Definition meta (k : string) (e : AuditEvent V) : option V :=
  match Metadata e with Some m => m !! k | None => None end.

Definition to_record (e : AuditEvent V) : export_record :=
  {| x_timestamp := Timestamp e; x_actor := Actor e; x_action := Action e; x_resource := Resource e;
     x_outcome := Outcome e; x_reason := meta "reason" e; x_before := meta "before_enabled" e;
     x_after := meta "after_enabled" e; x_hash := Hash e |}.

(** The records written: those of the toggles among the lines that parse; the
    flag is false when a line was too long. *)
Definition AuditExporter_Run (f : option logfile) : list export_record * bool :=
  match f with
  | None => ([], true)
  | Some f =>
      let '(ls, ok) := scan (all_lines f) in
      (to_record <$> filter (λ e, Action e = "feature_flag_toggle") (omap unjson ls), ok)
  end.
End nightly.

(** ** Concrete logs

    Metadata values are texts; events are written as numbers, in binary. *)
Module Runs.
Definition event_fields (e : AuditEvent string) :=
  (Timestamp e, RequestID e, Actor e, Action e, Resource e, (Outcome e, Metadata e, PrevHash e, Hash e)).
#[local] Instance event_eq_dec : EqDecision (AuditEvent string).
Proof. solve_decision. Defined.
#[local] Instance event_countable : Countable (AuditEvent string).
Proof.
  refine (inj_countable' event_fields
    (λ '(a, b, c, d, e, (f, g, h, i)), {| Timestamp := a; RequestID := b; Actor := c; Action := d;
       Resource := e; Outcome := f; Metadata := g; PrevHash := h; Hash := i |}) _). by intros [].
Defined.

Definition event_json (e : AuditEvent string) : string := String "{" (digits (encode e)).
Definition event_of_json (s : string) : option (AuditEvent string) :=
  match s with String "{" s => decode (undigits s) | _ => None end.

Lemma event_json_roundtrip e : event_of_json (event_json e) = Some e.
Proof. simpl. by rewrite undigits_digits, decode_encode. Qed.

Lemma event_json_inj e e' : event_json e = event_json e' → e = e'.
Proof.
  intros Heq. apply (f_equal event_of_json) in Heq. rewrite !event_json_roundtrip in Heq. by simplify_eq.
Qed.

Definition login : AuditEvent string :=
  {| Timestamp := 1; RequestID := "r1"; Actor := "root"; Action := "admin.login"; Resource := "console";
     Outcome := "success"; Metadata := None; PrevHash := ""; Hash := "" |}.

(** Short hashes keep the lines short. *)
Definition toy_hash (s : string) : string := "h".
Definition prefix_hash (s : string) : string := String "h" s.

Lemma login_loggable : loggable event_json event_of_json toy_hash login.
Proof.
  intros prev Hp. split; [|split; [done|]].
  - exists (chained event_json toy_hash prev login). split_and!; [apply event_json_roundtrip|done|done|done].
  - destruct Hp as [->|[x ->]]; apply Nat.leb_le; vm_compute; reflexivity.
Qed.

Definition io_ok : io := {| read_open := false; open_fails := false; outcome := WriteAll |}.
Definition io_full : io := {| read_open := false; open_fails := false; outcome := WriteFails 0 |}.

Lemma log_verifies_witness :
  let ops := [LogWrite io_ok login; LogWrite io_full login; Restart; LogWrite io_ok login] in
  match file (foldl (log_step event_json event_of_json toy_hash) new_log ops) with
  | Some f => Verify event_json event_of_json toy_hash f = None
  | None => False
  end.
Proof.
  intros ops.
  assert (Forall (op_loggable event_json event_of_json toy_hash) ops) as Hlog.
  { repeat (apply Forall_cons; split; [first [exact login_loggable|exact I]|]). constructor. }
  assert (Forall whole_writes ops) as Hw by (repeat constructor).
  assert (is_Some (file (foldl (log_step event_json event_of_json toy_hash) new_log ops))) as [f Ef]
    by (vm_compute; by eexists).
  pose proof (log_verifies event_json event_of_json toy_hash ops Hw Hlog) as H. clearbody ops.
  cbv zeta in H. rewrite Ef in H |- *. exact (proj2 H).
Defined.

Lemma last_hash_pins_log_witness :
  let l := event_json (chained event_json prefix_hash "" login) in
  Forall2 (same_line event_json event_of_json) [l] [l] ∨ collision prefix_hash.
Proof.
  intros l. apply (last_hash_pins_log event_json event_of_json prefix_hash ltac:(done)
    ltac:(intros e e' E; by apply event_json_inj in E as ->) 1 1 [l] [l]
    (Hash (chained event_json prefix_hash "" login)));
    [vm_compute; reflexivity|vm_compute; reflexivity|by repeat constructor|by repeat constructor].
Defined.

Lemma partial_write_silences_log_witness :
  ∃ err, File_WriteEvent event_json event_of_json toy_hash io_ok login
           (Some {| lines := []; tail := "junk" |}) NewFileSink =
         (Some {| lines := []; tail := "junk" |}, NewFileSink, Err err).
Proof.
  apply partial_write_silences_log; [reflexivity|done|reflexivity|].
  apply Forall_cons. split; [apply Nat.leb_le; vm_compute; reflexivity|constructor].
Defined.

Definition linked_event (prev h : string) : AuditEvent string := set_hashes prev h login.

Lemma exporter_keeps_events_witness :
  let h := λ e : AuditEvent string, String "h" (PrevHash e) in
  let a := linked_event "" "h" in let b := linked_event "h" "hh" in
  exported (fst (export_run h 1 0 [ExportWrite 1 true a; ExportWrite 2 false b] (NewWORMExporter 0))) = [a; b].
Proof.
  intros h a b.
  destruct (export_run h 1 0 [ExportWrite 1 true a; ExportWrite 2 false b] (NewWORMExporter 0)) as [x rs] eqn:E.
  exact (proj1 (exporter_keeps_events h 1 0 [ExportWrite 1 true a; ExportWrite 2 false b] 0 x rs
                  ltac:(by repeat split) E)).
Defined.

Lemma overlapping_rotation_panics_witness :
  let h := λ e : AuditEvent string, String "h" (PrevHash e) in
  let x := {| buffer := [linked_event "" "h"]; uploaded := []; lastExport := 0 |} in
  let '(x1, first) := rotate_begin 5 x in
  let '(x2, _) := Rotate h 5 false (add_event (linked_event "h" "hh") x1) in
  let '(x3, _) := rotate_end h true (default [] first) x2 in
  let '(x4, r) := Rotate h 5 false (add_event (linked_event "hh" "hhh") x3) in
  r = Panicked ∧ buffer x4 = [] ∧ uploaded x4 = ([] ++ [[linked_event "h" "hh"]])%list.
Proof.
  intros h x. apply (overlapping_rotation_panics h 5 x (linked_event "" "h") (linked_event "h" "hh")
                       (linked_event "hh" "hhh")); [reflexivity|by repeat split|done].
Defined.
End Runs.
