(* ===== verification/Migrations.v ===== *)
(** * Schema migrations

    Models [internal/migrations]: loading a directory of SQL files
    (migrations.go) and applying, undoing and listing them (runner.go).

    The schema is a type [D]; running SQL text on it is a parameter that may
    fail. A transaction that does not commit leaves the database as it was,
    and the exclusive lock on [schema_migrations] makes runs follow one
    another. Which driver calls fail is an input. *)
From Stdlib Require Import ZArith Lia Ascii String.
From stdpp Require Import base gmap strings list sorting.
From S2P Require Import Prelude GoStrings.
#[local] Open Scope string_scope.
#[local] Open Scope Z_scope.

Record Migration := { Version : Z; Name : string; UpSQL : string; DownSQL : string }.
#[export] Instance Migration_eq_dec : EqDecision Migration.
Proof. solve_decision. Defined.

(** ** Loading a directory *)
Inductive load_error :=
| ReadDirFailed
| InvalidVersion (file : string)
| ConflictingNames (version : Z)
| DuplicateFile (version : Z)
| NoMigrations
| MissingUp (version : Z)
| MissingDown (version : Z)
| UnreadableFile (path : string)
| EmptyFile (path : string).

Definition is_digit (c : ascii) : bool := let n := nat_of_ascii c in (48 <=? n)%nat && (n <=? 57)%nat.
Definition is_letter (c : ascii) : bool :=
  let n := nat_of_ascii c in ((65 <=? n)%nat && (n <=? 90)%nat) || ((97 <=? n)%nat && (n <=? 122)%nat).

Fixpoint span (p : ascii → bool) (s : string) : string * string :=
  match s with
  | EmptyString => ("", "")
  | String c s' => if p c then let '(a, b) := span p s' in (String c a, b) else ("", s)
  end.

(** [filenameRe]: the version's digits, the name, and whether the file undoes
    it. The name starts with a letter or a digit. *)
Definition parse_filename (file : string) : option (string * string * bool) :=
  let '(digits, rest) := span is_digit file in
  match digits, rest with
  | EmptyString, _ => None
  | _, String "_" rest =>
      let '(name, suffix) := span (λ c, is_letter c || is_digit c || bool_decide (c = "_"%char) || bool_decide (c = "-"%char)) rest in
      match name with
      | EmptyString => None
      | String c _ =>
          if negb (is_letter c || is_digit c) then None
          else if decide (suffix = ".up.sql") then Some (digits, name, false)
          else if decide (suffix = ".down.sql") then Some (digits, name, true)
          else None
      end
  | _, _ => None
  end.

(** An entry of the directory; [None] for a file that cannot be read. *)
Record entry := { e_name : string; e_is_dir : bool; e_content : option string }.

Record partial := { p_name : string; upFile : option entry; downFile : option entry }.

Definition add_file (v : Z) (name : string) (down : bool) (e : entry) (m : gmap Z partial)
    : result load_error (gmap Z partial) :=
  let p := default {| p_name := name; upFile := None; downFile := None |} (m !! v) in
  if decide (p_name p ≠ name) then Err (ConflictingNames v)
  else if down then
    match downFile p with
    | Some _ => Err (DuplicateFile v)
    | None => Ok (<[v := {| p_name := name; upFile := upFile p; downFile := Some e |}]> m)
    end
  else
    match upFile p with
    | Some _ => Err (DuplicateFile v)
    | None => Ok (<[v := {| p_name := name; upFile := Some e; downFile := downFile p |}]> m)
    end.

Fixpoint group (entries : list entry) (m : gmap Z partial) : result load_error (gmap Z partial) :=
  match entries with
  | [] => Ok m
  | e :: entries =>
      if e_is_dir e then group entries m
      else match parse_filename (e_name e) with
      | None => group entries m
      | Some (digits, name, down) =>
          match ParseInt digits with
          | Some v =>
              if v <=? 0 then Err (InvalidVersion (e_name e))
              else match add_file v name down e m with
                   | Err err => Err err
                   | Ok m => group entries m
                   end
          | None => Err (InvalidVersion (e_name e))
          end
      end
  end.

Definition readSQLFile (e : entry) : result load_error string :=
  match e_content e with
  | None => Err (UnreadableFile (e_name e))
  | Some b => let sql := TrimSpace b in if decide (sql = "") then Err (EmptyFile (e_name e)) else Ok sql
  end.

Definition load_one (v : Z) (p : partial) : result load_error Migration :=
  match upFile p, downFile p with
  | None, _ => Err (MissingUp v)
  | Some _, None => Err (MissingDown v)
  | Some u, Some d =>
      match readSQLFile u with
      | Err e => Err e
      | Ok up =>
          match readSQLFile d with
          | Err e => Err e
          | Ok down => Ok {| Version := v; Name := p_name p; UpSQL := up; DownSQL := down |}
          end
      end
  end.

Fixpoint load_all (vs : list Z) (m : gmap Z partial) : result load_error (list Migration) :=
  match vs with
  | [] => Ok []
  | v :: vs =>
      match load_one v (default {| p_name := ""; upFile := None; downFile := None |} (m !! v)) with
      | Err e => Err e
      | Ok mig => match load_all vs m with Err e => Err e | Ok migs => Ok (mig :: migs) end
      end
  end.

(** The versions are distinct, so every sort gives the same order. *)
Definition versions_of (m : gmap Z partial) : list Z := merge_sort Z.le (map_to_list m).*1.

(** [None] is a directory that cannot be read. *)
Definition LoadDir (entries : option (list entry)) : result load_error (list Migration) :=
  match entries with
  | None => Err ReadDirFailed
  | Some entries =>
      match group entries ∅ with
      | Err e => Err e
      | Ok m => if decide (m = ∅) then Err NoMigrations else load_all (versions_of m) m
      end
  end.

Fixpoint FindByVersion (migs : list Migration) (version : Z) : option Migration :=
  match migs with
  | [] => None
  | m :: migs => if Version m =? version then Some m else FindByVersion migs version
  end.

(** [ValidateSequence]: the version it stumbles on. *)
Fixpoint validate_from (i : Z) (migs : list Migration) : option Z :=
  match migs with
  | [] => None
  | m :: migs => if Version m =? i + 1 then validate_from (i + 1) migs else Some (Version m)
  end.
Definition ValidateSequence (migs : list Migration) : option Z := validate_from 0 migs.

(** ** Running them *)
Definition by_version (a b : Z * string) : Prop := a.1 ≤ b.1.
#[export] Instance by_version_dec : RelDecision by_version.
Proof. intros a b. unfold by_version. apply _. Defined.

Section runner.
Context {D : Type} (sql : string → D → option D).

(** The database: its schema and the table [schema_migrations]. *)
Record database := { schema : D; applied : gmap Z string }.

Inductive run_error :=
| NoDB | NoMigrationsGiven | TxFailed | ApplyFailed (v : Z) | RecordFailed (v : Z) | UnknownVersion (v : Z).

(** Failures of the driver: at the start of the transaction or at its commit. *)
Record tx_faults := { begin_fails : bool; commit_fails : bool }.

Definition Applied (f : tx_faults) (db : database) : result run_error (list (Z * string)) :=
  if begin_fails f || commit_fails f then Err TxFailed
  else Ok (merge_sort by_version (map_to_list (applied db))).

(** The loop of [Up] inside its transaction; [known] are the versions applied
    before it. The insert fails on a version already there. *)
Fixpoint up_loop (known : gset Z) (migs : list Migration) (db : database)
    : result run_error (database * list Migration) :=
  match migs with
  | [] => Ok (db, [])
  | m :: migs =>
      if decide (Version m ∈ known) then up_loop known migs db
      else match sql (UpSQL m) (schema db) with
      | None => Err (ApplyFailed (Version m))
      | Some d =>
          match applied db !! Version m with
          | Some _ => Err (RecordFailed (Version m))
          | None =>
              match up_loop known migs {| schema := d; applied := <[Version m := Name m]> (applied db) |} with
              | Err e => Err e
              | Ok (db, now) => Ok (db, m :: now)
              end
          end
      end
  end.

Definition Up (f : tx_faults) (migs : list Migration) (db : database)
    : database * result run_error (list Migration) :=
  match migs with
  | [] => (db, Err NoMigrationsGiven)
  | _ =>
      if begin_fails f then (db, Err TxFailed)
      else match up_loop (dom (applied db)) migs db with
      | Err e => (db, Err e)
      | Ok (db', now) => if commit_fails f then (db, Err TxFailed) else (db', Ok now)
      end
  end.

Definition highest (m : gmap Z string) : option Z :=
  match (map_to_list m).*1 with
  | [] => None
  | v :: vs => Some (foldl Z.max v vs)
  end.

Definition Down (f : tx_faults) (migs : list Migration) (db : database)
    : database * result run_error (option Migration) :=
  match migs with
  | [] => (db, Err NoMigrationsGiven)
  | _ =>
      if begin_fails f then (db, Err TxFailed)
      else match highest (applied db) with
      | None => if commit_fails f then (db, Err TxFailed) else (db, Ok None)
      | Some v =>
          match FindByVersion migs v with
          | None => (db, Err (UnknownVersion v))
          | Some m =>
              match sql (DownSQL m) (schema db) with
              | None => (db, Err (ApplyFailed (Version m)))
              | Some d =>
                  if commit_fails f then (db, Err TxFailed)
                  else ({| schema := d; applied := delete v (applied db) |}, Ok (Some m))
              end
          end
      end
  end.
End runner.
Arguments database D : clear implicits.

(** ** What is loaded *)
Definition comes_from (es : list entry) (v : Z) (name : string) (down : bool) (e : entry) : Prop :=
  e ∈ es ∧ e_is_dir e = false ∧
  ∃ digits, parse_filename (e_name e) = Some (digits, name, down) ∧ ParseInt digits = Some v.

Definition grouped (es : list entry) (m : gmap Z partial) : Prop :=
  ∀ v p, m !! v = Some p →
    0 < v ∧
    (∀ e, upFile p = Some e → comes_from es v (p_name p) false e) ∧
    (∀ e, downFile p = Some e → comes_from es v (p_name p) true e).

Lemma add_file_grouped es v name down e m m' :
  grouped es m → 0 < v → comes_from es v name down e → add_file v name down e m = Ok m' → grouped es m'.
Proof.
  intros Hg Hv He. unfold add_file. set (p := default _ (m !! v)).
  assert (p_name p = name → (∀ e, upFile p = Some e → comes_from es v name false e) ∧
          (∀ e, downFile p = Some e → comes_from es v name true e)) as Hp.
  { unfold p. destruct (m !! v) as [q|] eqn:Eq; simpl; [|done]. destruct (Hg v q Eq) as (_ & H1 & H2). by intros <-. }
  case_decide as Hn; [done|]. specialize (Hp Hn) as [H1 H2].
  destruct down; [destruct (downFile p); [done|]|destruct (upFile p); [done|]]; intros [= <-] w q;
    rewrite lookup_insert_Some; (intros [[<- <-]|[_ Hq]]; [|by apply Hg]); simpl; (split; [done|]);
    split; try done; intros e' [= <-]; done.
Qed.

Lemma comes_from_weaken es es' v name down e :
  (∀ x, x ∈ es → x ∈ es') → comes_from es v name down e → comes_from es' v name down e.
Proof. intros Hsub (H1 & H2). split; [by apply Hsub|done]. Qed.

Lemma group_grouped es0 es m m' :
  (∀ e, e ∈ es → e ∈ es0) → grouped es0 m → group es m = Ok m' → grouped es0 m'.
Proof.
  revert m. induction es as [|e es IH]; intros m Hsub Hg Hm; simpl in Hm; [by simplify_eq|].
  assert (∀ x, x ∈ es → x ∈ es0) as Hsub' by (intros x Hx; apply Hsub; by right).
  destruct (e_is_dir e) eqn:Ed; [by apply (IH m)|].
  destruct (parse_filename (e_name e)) as [[[digits name] down]|] eqn:Ep; [|by apply (IH m)].
  destruct (ParseInt digits) as [v|] eqn:Ev; [|done]. destruct (Z.leb_spec v 0); [done|].
  destruct (add_file v name down e m) as [m1|] eqn:Ea; [|done].
  apply (IH m1); [done| |done]. apply (add_file_grouped es0 v name down e m m1); [done|done| |done].
  split; [apply Hsub; by left|]. split; [done|]. eauto.
Qed.

Lemma load_all_spec vs m migs :
  load_all vs m = Ok migs →
  Version <$> migs = vs ∧
  Forall (λ mig, ∃ p, default {| p_name := ""; upFile := None; downFile := None |} (m !! Version mig) = p ∧
            load_one (Version mig) p = Ok mig) migs.
Proof.
  revert migs. induction vs as [|v vs IH]; intros migs Hl; simpl in Hl; [by simplify_eq|].
  destruct (load_one v _) as [mig|] eqn:E1; [|done]. destruct (load_all vs m) as [migs'|] eqn:E2; [|done].
  simplify_eq. destruct (IH migs' eq_refl) as [<- Hf].
  assert (Version mig = v) as Hv.
  { revert E1. generalize (default {| p_name := ""; upFile := None; downFile := None |} (m !! v)) as p.
    intros p. unfold load_one. destruct (upFile p), (downFile p); try done.
    destruct (readSQLFile _); [|done]. destruct (readSQLFile _); [|done]. by intros [= <-]. }
  split; [simpl; by rewrite Hv|]. constructor; [|done]. eexists. split; [done|]. by rewrite Hv.
Qed.

Lemma readSQLFile_ok e s : readSQLFile e = Ok s → s ≠ "" ∧ ∃ b, e_content e = Some b ∧ s = TrimSpace b.
Proof.
  unfold readSQLFile. destruct (e_content e) as [b|]; [|done]. case_decide; [done|]. intros [= <-]. eauto.
Qed.

(** A directory loads into a proper sequence. The migrations come in
    strictly increasing order of positive versions, so no version occurs
    twice; each has both scripts, not empty, the trimmed contents of two files
    of the directory whose names give that version and that name. *)
Theorem LoadDir_sound es migs :
  LoadDir (Some es) = Ok migs →
  StronglySorted Z.lt (Version <$> migs) ∧
  Forall (λ m, 0 < Version m ∧ UpSQL m ≠ "" ∧ DownSQL m ≠ "" ∧
    ∃ u d ub db, comes_from es (Version m) (Name m) false u ∧ comes_from es (Version m) (Name m) true d ∧
      e_content u = Some ub ∧ e_content d = Some db ∧ UpSQL m = TrimSpace ub ∧ DownSQL m = TrimSpace db) migs.
Proof.
  unfold LoadDir. destruct (group es ∅) as [m|] eqn:Eg; [|done]. case_decide; [done|]. intros Hl.
  apply group_grouped with (es0 := es) in Eg; [|done|by intros v p; rewrite lookup_empty].
  destruct (load_all_spec _ _ _ Hl) as [Hvs Hf]. split.
  - rewrite Hvs. unfold versions_of.
    assert (StronglySorted Z.le (merge_sort Z.le (map_to_list m).*1)) as Hs.
    { apply (StronglySorted_merge_sort Z.le). }
    assert (NoDup (merge_sort Z.le (map_to_list m).*1)) as Hnd.
    { rewrite merge_sort_Permutation. apply NoDup_fst_map_to_list. }
    clear -Hs Hnd. induction Hs as [|v vs Hs IH Hle]; [constructor|]. apply NoDup_cons in Hnd as [Hin Hnd].
    constructor; [by apply IH|]. rewrite Forall_forall in Hle |- *. intros w Hw.
    specialize (Hle w Hw). destruct (decide (v = w)) as [->|]; [done|lia].
  - eapply Forall_impl; [exact Hf|]. intros mig (p & Hp & Hlo). simpl. unfold load_one in Hlo.
    destruct (m !! Version mig) as [q|] eqn:Eq; simpl in Hp; [|by subst]. subst q.
    destruct (Eg _ _ Eq) as (Hpos & Hup & Hdown).
    destruct (upFile p) as [u|]; [|done]. destruct (downFile p) as [d|]; [|done].
    destruct (readSQLFile u) as [us|] eqn:Eu; [|done]. destruct (readSQLFile d) as [ds|] eqn:Edn; [|done].
    injection Hlo as <-. simpl in *.
    apply readSQLFile_ok in Eu as (? & ub & ? & ?), Edn as (? & db & ? & ?).
    split_and!; [done|done|done|]. exists u, d, ub, db. split_and!; auto.
Qed.

(** ** What the runner does *)
Section runs.
Context {D : Type} (sql : string → D → option D).
Implicit Types (db : database D) (migs : list Migration).

Fixpoint run_scripts (scripts : list string) (d : D) : option D :=
  match scripts with
  | [] => Some d
  | s :: scripts => match sql s d with Some d => run_scripts scripts d | None => None end
  end.

Definition record_all migs (m : gmap Z string) : gmap Z string :=
  foldl (λ m mig, <[Version mig := Name mig]> m) m migs.

Lemma up_loop_spec known migs db r :
  NoDup (Version <$> migs) →
  (∀ m, m ∈ migs → Version m ∉ known → applied db !! Version m = None) →
  up_loop sql known migs db = r →
  match r with
  | Ok (db', now) =>
      now = filter (λ m, Version m ∉ known) migs ∧ applied db' = record_all now (applied db) ∧
      run_scripts (UpSQL <$> now) (schema db) = Some (schema db')
  | Err e => ∃ v, e = ApplyFailed v
  end.
Proof.
  revert db r. induction migs as [|m migs IH]; intros db r Hnd Hfresh <-; [done|].
  rewrite fmap_cons in Hnd. apply NoDup_cons in Hnd as [Hnin Hnd]. cbn [up_loop].
  destruct (decide (Version m ∈ known)) as [Hk|Hk].
  { rewrite filter_cons_False by tauto. apply IH; [done| |done]. intros x Hx. apply Hfresh. by right. }
  rewrite filter_cons_True by done. destruct (sql (UpSQL m) (schema db)) as [d|] eqn:Es; [|eauto].
  rewrite (Hfresh m) by (by try left).
  set (db1 := {| schema := d; applied := _ |}).
  specialize (IH db1 (up_loop sql known migs db1) Hnd).
  destruct (up_loop sql known migs db1) as [[db' now]|e]; (destruct IH as [IH1 IH2]; [|done|]).
  - intros x Hx Hxk. simpl. rewrite lookup_insert_ne; [apply Hfresh; [by right|done]|].
    intros Heq. apply Hnin. rewrite Heq. by apply list_elem_of_fmap_2.
  - destruct IH2 as [IH2 IH3]. subst now. split; [done|]. split; [done|]. simpl. by rewrite Es.
  - intros x Hx Hxk. simpl. rewrite lookup_insert_ne; [apply Hfresh; [by right|done]|].
    intros Heq. apply Hnin. rewrite Heq. by apply list_elem_of_fmap_2.
  - eauto.
Qed.

Lemma lookup_record_all migs m v :
  NoDup (Version <$> migs) →
  record_all migs m !! v =
  match FindByVersion migs v with Some mig => Some (Name mig) | None => m !! v end.
Proof.
  revert m. induction migs as [|mig migs IH]; intros m Hnd; [done|]. rewrite fmap_cons in Hnd.
  apply NoDup_cons in Hnd as [Hnin Hnd]. simpl. rewrite IH by done.
  destruct (Z.eqb_spec (Version mig) v) as [<-|Hne].
  - destruct (FindByVersion migs (Version mig)) as [x|] eqn:Ef; [|by rewrite lookup_insert_eq].
    exfalso. apply Hnin. clear -Ef. induction migs as [|y migs IH]; [done|]. simpl in Ef.
    destruct (Z.eqb_spec (Version y) (Version mig)) as [E|]; [rewrite fmap_cons, E; by left|].
    rewrite fmap_cons. right. by apply IH.
  - by rewrite lookup_insert_ne.
Qed.

Lemma NoDup_fmap_filter {A B} (g : A → B) (P : A → Prop) `{∀ x, Decision (P x)} (l : list A) :
  NoDup (g <$> l) → NoDup (g <$> filter P l).
Proof.
  induction l as [|x l IH]; [done|]. rewrite fmap_cons, NoDup_cons, filter_cons. intros [Hx Hl].
  case_decide; [|by apply IH]. rewrite fmap_cons, NoDup_cons. split; [|by apply IH].
  intros (y & Hy & [_ Hin]%list_elem_of_filter)%list_elem_of_fmap. apply Hx. rewrite Hy. by apply list_elem_of_fmap_2.
Qed.

(** C27: [Up] applies what is missing, once, or nothing. Without error it has
    run exactly the scripts of the migrations not yet applied, in their order,
    and recorded each; with an error of any kind the database is as it was.
    Run again, it finds nothing to do. *)
Theorem up_exact f migs db db' r :
  NoDup (Version <$> migs) → migs ≠ [] → Up sql f migs db = (db', r) →
  match r with
  | Err _ => db' = db
  | Ok now =>
      now = filter (λ m, Version m ∉ dom (applied db)) migs ∧
      run_scripts (UpSQL <$> now) (schema db) = Some (schema db') ∧
      (∀ v, applied db' !! v =
            match FindByVersion now v with Some m => Some (Name m) | None => applied db !! v end) ∧
      Up sql {| begin_fails := false; commit_fails := false |} migs db' = (db', Ok [])
  end.
Proof.
  intros Hnd Hne. unfold Up at 1. destruct migs as [|m0 migs0] eqn:Em; [done|]. rewrite <- Em in *.
  destruct (begin_fails f); [by intros [= <- <-]|].
  pose proof (up_loop_spec (dom (applied db)) migs db (up_loop sql (dom (applied db)) migs db) Hnd) as Hspec.
  destruct (up_loop sql (dom (applied db)) migs db) as [[db1 now]|e] eqn:Eu; [|by intros [= <- <-]].
  destruct (commit_fails f); [by intros [= <- <-]|]. intros [= <- <-].
  destruct (Hspec ltac:(intros m _ Hk; by apply not_elem_of_dom) eq_refl) as (Hnow & Ha & Hr).
  assert (NoDup (Version <$> now)) as Hnd'.
  { rewrite Hnow. by apply NoDup_fmap_filter. }
  split_and!; [done|done|intros v; by rewrite Ha, lookup_record_all|].
  unfold Up. rewrite Em. cbn [begin_fails commit_fails]. rewrite <- Em.
  assert (∀ ms db2, (∀ m, m ∈ ms → Version m ∈ dom (applied db1)) →
    up_loop sql (dom (applied db1)) ms db2 = Ok (db2, [])) as Hnone.
  { induction ms as [|m ms IH]; intros db2 Hall; [done|]. simpl. rewrite decide_True by (apply Hall; by left).
    apply IH. intros x Hx. apply Hall. by right. }
  rewrite Hnone; [done|]. intros m Hm. apply elem_of_dom. rewrite Ha, lookup_record_all by done.
  destruct (FindByVersion now (Version m)) eqn:Ef; [done|].
  destruct (decide (Version m ∈ dom (applied db))) as [Hd|Hd]; [by apply elem_of_dom|].
  exfalso. assert (m ∈ now) as Hin by (rewrite Hnow; apply list_elem_of_filter; done).
  clear -Ef Hin. induction now as [|x now IH]; [by apply elem_of_nil in Hin|]. simpl in Ef.
  destruct (Z.eqb_spec (Version x) (Version m)); [done|].
  apply elem_of_cons in Hin as [->|Hin]; [done|by apply IH].
Qed.

Lemma foldl_max_le v vs : v ≤ foldl Z.max v vs ∧ ∀ w, w ∈ vs → w ≤ foldl Z.max v vs.
Proof.
  revert v. induction vs as [|x vs IH]; intros v; simpl; [split; [lia|]; intros w Hw; by apply elem_of_nil in Hw|].
  destruct (IH (Z.max v x)) as [H1 H2]. split; [lia|]. intros w [->|Hw]%elem_of_cons; [lia|by apply H2].
Qed.

Lemma foldl_max_in v vs : foldl Z.max v vs ∈ v :: vs.
Proof.
  revert v. induction vs as [|x vs IH]; intros v; simpl; [by left|].
  destruct (proj1 (elem_of_cons _ _ _) (IH (Z.max v x))) as [->|Hin]; [|by right; right].
  destruct (Z.max_spec v x) as [[_ ->]|[_ ->]]; [right; by left|by left].
Qed.

Lemma highest_insert v name m :
  (∀ w, w ∈ dom m → w < v) → highest (<[v := name]> m) = Some v.
Proof.
  intros Hlt. unfold highest.
  assert (∀ w, w ∈ (map_to_list (<[v := name]> m)).*1 ↔ w = v ∨ w ∈ dom m) as Hin.
  { intros w. rewrite list_elem_of_fmap. split.
    - intros ([w' n] & -> & [[<- <-]|[_ Hw]]%elem_of_map_to_list%lookup_insert_Some); [by left|].
      right. simpl. by apply elem_of_dom_2 in Hw.
    - intros Hw. destruct (decide (w = v)) as [->|Hne].
      + exists (v, name). split; [done|]. apply elem_of_map_to_list. by rewrite lookup_insert_eq.
      + destruct Hw as [?|[n Hn]%elem_of_dom]; [done|]. exists (w, n). split; [done|].
        apply elem_of_map_to_list. by rewrite lookup_insert_ne. }
  destruct ((map_to_list (<[v := name]> m)).*1) as [|x xs].
  { assert (v ∈ @nil Z) as Hv by (apply Hin; by left). by apply elem_of_nil in Hv. }
  f_equal. destruct (foldl_max_le x xs) as [H1 H2].
  assert (v ≤ foldl Z.max x xs).
  { assert (v ∈ x :: xs) as [->|Hv]%elem_of_cons by (apply Hin; by left); [done|by apply H2]. }
  destruct (proj1 (Hin _) (foldl_max_in x xs)) as [?|Hd]; [done|]. specialize (Hlt _ Hd). lia.
Qed.

(** [Down] undoes [Up]. When an upgrade has applied one migration, newer
    than all applied before, whose down script reverts its up script, then
    [Down] brings back the database as it was, schema and records. *)
Theorem down_undoes_up f migs db db' m :
  NoDup (Version <$> migs) → Up sql f migs db = (db', Ok [m]) →
  (∀ w, w ∈ dom (applied db) → w < Version m) →
  (∀ d d', sql (UpSQL m) d = Some d' → sql (DownSQL m) d' = Some d) →
  Down sql {| begin_fails := false; commit_fails := false |} migs db' = (db, Ok (Some m)).
Proof.
  intros Hnd Hup Hlt Hinv. unfold Up in Hup. destruct migs as [|m0 migs0] eqn:Em; [done|]. rewrite <- Em in *.
  destruct (begin_fails f); [done|].
  pose proof (up_loop_spec (dom (applied db)) migs db (up_loop sql (dom (applied db)) migs db) Hnd) as Hspec.
  destruct (up_loop sql (dom (applied db)) migs db) as [[db1 now]|e] eqn:Eu; [|done].
  destruct (commit_fails f); [done|]. injection Hup as -> ->.
  destruct (Hspec ltac:(intros x _ Hk; by apply not_elem_of_dom) eq_refl) as (Hnow & Ha & Hr).
  assert (m ∈ migs ∧ Version m ∉ dom (applied db)) as [Hm Hmd].
  { assert (m ∈ filter (λ m, Version m ∉ dom (applied db)) migs) as Hin by (rewrite <- Hnow; by left).
    apply list_elem_of_filter in Hin. tauto. }
  simpl in Ha, Hr. destruct (sql (UpSQL m) (schema db)) as [d|] eqn:Es; [|done]. injection Hr as ->.
  unfold Down. rewrite Em. cbn [begin_fails commit_fails]. rewrite <- Em, Ha, highest_insert by done.
  assert (FindByVersion migs (Version m) = Some m) as ->.
  { clear -Hnd Hm. induction migs as [|x migs IH]; [by apply elem_of_nil in Hm|]. rewrite fmap_cons in Hnd.
    apply NoDup_cons in Hnd as [Hx Hnd]. simpl. apply elem_of_cons in Hm as [->|Hm]; [by rewrite Z.eqb_refl|].
    destruct (Z.eqb_spec (Version x) (Version m)) as [E|]; [|by apply IH].
    exfalso. apply Hx. rewrite E. by apply list_elem_of_fmap_2. }
  rewrite (Hinv _ _ Es), delete_insert_id by (by apply not_elem_of_dom). by destruct db.
Qed.
End runs.

(** ** Concrete runs: the schema is the list of its tables *)
Module Runs.
Definition run_sql (s : string) (d : list string) : option (list string) :=
  if HasPrefix s "DROP " then
    match d with t :: d => if decide (s = "DROP " +:+ t) then Some d else None | [] => None end
  else Some (s :: d).

Definition two : list Migration :=
  [{| Version := 1; Name := "init"; UpSQL := "plans"; DownSQL := "DROP plans" |};
   {| Version := 2; Name := "subs"; UpSQL := "subscriptions"; DownSQL := "DROP subscriptions" |}].
Definition no_faults : tx_faults := {| begin_fails := false; commit_fails := false |}.
Definition first_applied : database (list string) := {| schema := ["plans"]; applied := {[1 := "init"]} |}.

Definition sql_file (name content : string) : entry :=
  {| e_name := name; e_is_dir := false; e_content := Some content |}.

Definition dir : list entry :=
  [sql_file "0002_subs.up.sql" " subscriptions "; sql_file "0001_init.down.sql" "DROP plans";
   sql_file "README.md" ""; sql_file "0001_init.up.sql" "plans"; sql_file "0002_subs.down.sql" "DROP subscriptions"].

Lemma LoadDir_sound_witness : LoadDir (Some dir) = Ok two ∧ StronglySorted Z.lt (Version <$> two).
Proof.
  assert (LoadDir (Some dir) = Ok two) as E by (vm_compute; reflexivity).
  split; [exact E|exact (proj1 (LoadDir_sound dir two E))].
Defined.

Lemma up_exact_witness :
  Up run_sql no_faults two first_applied =
    ({| schema := ["subscriptions"; "plans"]; applied := <[2 := "subs"]> {[1 := "init"]} |},
     Ok [{| Version := 2; Name := "subs"; UpSQL := "subscriptions"; DownSQL := "DROP subscriptions" |}]) ∧
  Up run_sql no_faults two {| schema := ["subscriptions"; "plans"]; applied := <[2 := "subs"]> {[1 := "init"]} |} =
    ({| schema := ["subscriptions"; "plans"]; applied := <[2 := "subs"]> {[1 := "init"]} |}, Ok []).
Proof.
  split; [vm_compute; reflexivity|].
  destruct (Up run_sql no_faults two first_applied) as [db' r] eqn:E.
  pose proof (up_exact run_sql no_faults two first_applied db' r
                ltac:(apply (bool_decide_unpack _); reflexivity) ltac:(done) E) as H.
  vm_compute in E. injection E as <- <-. exact (proj2 (proj2 (proj2 H))).
Defined.

Lemma down_undoes_up_witness :
  let db' := {| schema := ["subscriptions"; "plans"]; applied := <[2 := "subs"]> {[1 := "init"]} |} in
  Down run_sql no_faults two db' =
    (first_applied,
     Ok (Some {| Version := 2; Name := "subs"; UpSQL := "subscriptions"; DownSQL := "DROP subscriptions" |})).
Proof.
  apply (down_undoes_up run_sql no_faults two first_applied); [|vm_compute; reflexivity| |].
  - apply (bool_decide_unpack _). reflexivity.
  - intros w Hw. simpl in Hw. assert (w = 1) as -> by set_solver. reflexivity.
  - intros d d' [= <-]. reflexivity.
Defined.
End Runs.
