(* ===== verification/DataLoader.v ===== *)
(** * The batching loader

    Models [internal/repository/loader.go]: lookups of plans and of
    subscriptions are queued per tenant and answered by one query per batch.
    The two loaders are the same code over their row types; [query] is the
    call of the repository. Waiting callers are channels, numbered in the
    order of the calls. A dispatch releases the lock between taking the queue
    and answering it, so it is two steps. *)
From Stdlib Require Import ZArith Lia.
From stdpp Require Import base gmap strings list relations.
From S2P Require Import Prelude Subscriptions.
Import Subscriptions.Repository.
#[local] Open Scope Z_scope.

Notation queue := (gmap string (list nat)).

Section loader.
Context `{GoRuntime} {Row E : Type} (row_id : Row → string) (not_found : E).
(** [query tenant ids] *)
Context (query : string → list string → result E (list Row)).

(** ** One tenant's queue *)
Definition enqueue (id : string) (ch : nat) (p : queue) : queue :=
  <[id := (default [] (p !! id) ++ [ch])%list]> p.

(** [load] arms the timer for a queue of one identifier and dispatches a full
    one itself. *)
Definition arms_timer (p : queue) : bool := (size p =? 1)%nat.
Definition shouldDispatch (maxBatch : Z) (p : queue) : bool := maxBatch <=? Z.of_nat (size p).

Definition row_map (rows : list Row) : gmap string Row :=
  foldl (λ m r, <[row_id r := r]> m) ∅ rows.

Definition answer_of (found : result E (list Row)) (id : string) : result E Row :=
  match found with
  | Err e => Err e
  | Ok rows => match row_map rows !! id with Some r => Ok r | None => Err not_found end
  end.

(** The second half of [dispatch]: one query, and every channel answered. *)
Definition answers (tenant : string) (p : queue) : list (nat * result E Row) :=
  let found := query tenant (map_range p).*1 in
  concat (map (λ q, map (λ ch, (ch, answer_of found q.1)) q.2) (map_range p)).

(** ** The loader *)
Record loader := {
  loaders : gmap string queue;
  (** batches taken and not yet answered *)
  inflight : list (string * queue);
  delivered : list (nat * result E Row);
  (** what the callers so far asked for, by channel *)
  requested : list (string * string);
  (** timers armed and neither stopped nor fired, by tenant; a timer is named
      by the channel that armed it *)
  timers : gmap string (gset nat);
  (** the timer the tenant's loader remembers *)
  timer : gmap string nat;
}.

Definition NewLoader : loader :=
  {| loaders := ∅; inflight := []; delivered := []; requested := []; timers := ∅; timer := ∅ |}.

Definition queue_of (tenant : string) (l : loader) : queue := default ∅ (loaders l !! tenant).
Definition armed (tenant : string) (l : loader) : gset nat := default ∅ (timers l !! tenant).
Definition live (tenant : string) (l : loader) : nat := size (armed tenant l).

(** [LoadPlan] and [LoadSubscription] up to the wait: [None] is the answer
    [ErrNotFound] to an empty identifier. *)
Definition Load (tenant id : string) (l : loader) : option loader :=
  if decide (id = ""%string) then None
  else
    let ch := length (requested l) in
    let p := enqueue id ch (queue_of tenant l) in
    Some {| loaders := <[tenant := p]> (loaders l); inflight := inflight l; delivered := delivered l;
            requested := (requested l ++ [(tenant, id)])%list;
            timers := if arms_timer p then <[tenant := {[ch]} ∪ armed tenant l]> (timers l) else timers l;
            timer := if arms_timer p then <[tenant := ch]> (timer l) else timer l |}.

(** [dispatch] up to the unlock: it stops the timer it remembers and takes the
    queue. *)
Definition dispatch_take (tenant : string) (l : loader) : loader :=
  let p := queue_of tenant l in
  if decide (p = ∅) then l
  else {| loaders := <[tenant := ∅]> (loaders l); inflight := (inflight l ++ [(tenant, p)])%list;
          delivered := delivered l; requested := requested l;
          timers := match timer l !! tenant with
                    | Some k => <[tenant := armed tenant l ∖ {[k]}]> (timers l)
                    | None => timers l
                    end;
          timer := delete tenant (timer l) |}.

(** A timer that goes off is armed no more, and dispatches. *)
Definition fire (tenant : string) (k : nat) (l : loader) : loader :=
  dispatch_take tenant
    {| loaders := loaders l; inflight := inflight l; delivered := delivered l; requested := requested l;
       timers := <[tenant := armed tenant l ∖ {[k]}]> (timers l); timer := timer l |}.

Definition dispatch_answer (i : nat) (l : loader) : loader :=
  match inflight l !! i with
  | None => l
  | Some (tenant, p) =>
      {| loaders := loaders l; inflight := delete i (inflight l);
         delivered := (delivered l ++ answers tenant p)%list; requested := requested l; timers := timers l;
         timer := timer l |}
  end.

(** [Dispatch] starts with every tenant's queue. *)
Definition Dispatch (l : loader) : loader :=
  let l := foldl (λ l t, dispatch_take t l) l (map_range (loaders l)).*1 in
  Nat.iter (length (inflight l)) (dispatch_answer 0) l.

Inductive loader_step (l : loader) : loader → Prop :=
| step_load tenant id l' : Load tenant id l = Some l' → loader_step l l'
| step_take tenant : loader_step l (dispatch_take tenant l)
| step_fire tenant k : k ∈ armed tenant l → loader_step l (fire tenant k l)
| step_answer i : loader_step l (dispatch_answer i l).
End loader.
Arguments loader Row E : clear implicits.

(** The queries of the two loaders, over the in-memory repositories: without
    a tenant, plans of every tenant are found. *)
Definition plan_query `{GoRuntime} (m : MockPlanRepo) (tenantID : string) (ids : list string)
    : result repo_error (list PlanRow) :=
  Ok (if decide (tenantID = ""%string) then MockPlan_FindByIDs m ids
      else MockPlan_FindByIDsAndTenant m ids tenantID).

Definition subscription_query `{GoRuntime} (m : MockSubscriptionRepo) (tenantID : string) (ids : list string)
    : result repo_error (list SubscriptionRow) :=
  Ok (Mock_FindByIDsAndTenant m ids tenantID).

(** What [tenantPlanLoader.dispatch] and [tenantSubLoader.dispatch] send to
    the channels of the queue they took. *)
Definition plan_dispatch `{GoRuntime} (m : MockPlanRepo) (tenantID : string) (pending : queue)
    : list (nat * result repo_error PlanRow) :=
  answers plan_ID ErrNotFound (plan_query m) tenantID pending.
Definition subscription_dispatch `{GoRuntime} (m : MockSubscriptionRepo) (tenantID : string) (pending : queue)
    : list (nat * result repo_error SubscriptionRow) :=
  answers ID ErrNotFound (subscription_query m) tenantID pending.

(** ** Channels are neither lost nor answered twice *)

Section facts.
Context `{GoRuntime} {Row E : Type} (row_id : Row → string) (not_found : E).
Context (query : string → list string → result E (list Row)).
#[local] Notation answer_of := (answer_of row_id not_found).
#[local] Notation answers := (answers row_id not_found query).
#[local] Notation loader_step := (loader_step row_id not_found query).
Implicit Types (l : loader Row E) (p : queue).

(** What a lookup on its own returns; a batch finds the same rows. *)
Definition single (tenant id : string) : result E Row := answer_of (query tenant [id]) id.
Hypothesis query_pointwise : ∀ tenant ids id, id ∈ ids → answer_of (query tenant ids) id = single tenant id.

Definition chans (p : queue) : list nat := bag id p.
Definition all_chans l : list nat :=
  (bag chans (loaders l) ++ concat (map (λ q, chans q.2) (inflight l)) ++ (delivered l).*1)%list.

Lemma chans_enqueue id ch p : chans (enqueue id ch p) ≡ₚ ch :: chans p.
Proof.
  unfold chans, enqueue. rewrite bag_insert, (bag_delete _ p id). unfold default.
  destruct (p !! id) as [chs|]; simpl; [|done].
  rewrite <- app_assoc. simpl. by rewrite <- Permutation_middle.
Qed.

Lemma answers_channels tenant p : (answers tenant p).*1 ≡ₚ chans p.
Proof.
  unfold DataLoader.answers, chans, bag. set (found := query _ _). rewrite <- (map_range_perm _ p).
  generalize (map_range p) as ps. intros ps. induction ps as [|[id chs] ps IH]; [done|].
  simpl. rewrite fmap_app, IH.
  assert ((map (λ ch, (ch, answer_of found id)) chs).*1 = chs) as ->; [|done].
  induction chs as [|c chs IHc]; [done|]. cbn [map]. by rewrite fmap_cons, IHc.
Qed.

Lemma elem_of_answers tenant p ch r :
  (ch, r) ∈ answers tenant p → ∃ id chs, p !! id = Some chs ∧ ch ∈ chs ∧ r = single tenant id.
Proof.
  unfold DataLoader.answers. intros Hin. apply list_elem_of_In, in_concat in Hin as (l & Hl & Hin).
  apply in_map_iff in Hl as ([id chs] & <- & Hq). apply in_map_iff in Hin as (c & [= <- <-] & Hc).
  apply list_elem_of_In in Hq, Hc. exists id, chs.
  assert (p !! id = Some chs) as Hp by (by apply elem_of_map_range). split_and!; [done|done|].
  apply query_pointwise. apply list_elem_of_fmap. by exists (id, chs).
Qed.

(** A queued channel belongs to a caller of that tenant and identifier. *)
Definition queued (tenant : string) p l : Prop :=
  ∀ id chs ch, p !! id = Some chs → ch ∈ chs → requested l !! ch = Some (tenant, id).

Definition loader_ok l : Prop :=
  (∀ t p, loaders l !! t = Some p → queued t p l) ∧
  (∀ t p, (t, p) ∈ inflight l → queued t p l) ∧
  (∀ ch r, (ch, r) ∈ delivered l → ∃ t id, requested l !! ch = Some (t, id) ∧ r = single t id) ∧
  all_chans l ≡ₚ seq 0 (length (requested l)) ∧
  (∀ t, queue_of t l ≠ ∅ → ∃ k, timer l !! t = Some k ∧ k ∈ armed t l).

Lemma queue_of_queued t l : (∀ t p, loaders l !! t = Some p → queued t p l) → queued t (queue_of t l) l.
Proof.
  intros Hl. unfold queue_of. destruct (loaders l !! t) as [p|] eqn:Ep; [by apply Hl|].
  intros id chs ch Hn. simpl in Hn. by rewrite lookup_empty in Hn.
Qed.

Lemma bag_loaders t l : bag chans (loaders l) ≡ₚ (chans (queue_of t l) ++ bag chans (delete t (loaders l)))%list.
Proof. rewrite (bag_delete _ _ t). unfold queue_of. by destruct (loaders l !! t). Qed.

Lemma Load_ok tenant id l l' : loader_ok l → Load tenant id l = Some l' → loader_ok l'.
Proof.
  intros (H1 & H2 & H3 & H4 & H5). unfold Load. case_decide as Hid; [done|]. intros [= <-].
  set (p := enqueue id (length (requested l)) (queue_of tenant l)).
  assert (∀ t q, queued t q l → ∀ r, queued t q {| loaders := r; inflight := inflight l; delivered := delivered l;
    requested := requested l ++ [(tenant, id)]; timers := timers l; timer := timer l |}) as Hgrow.
  { intros t q Hq r id' chs ch Hp Hch. simpl. rewrite lookup_app_l; [by eapply Hq|].
    apply lookup_lt_is_Some. eexists. by eapply Hq. }
  assert (queued tenant p {| loaders := ∅; inflight := inflight l; delivered := delivered l;
    requested := requested l ++ [(tenant, id)]; timers := timers l; timer := timer l |}) as Hp.
  { intros id' chs ch. unfold p, enqueue. rewrite lookup_insert_Some. intros [[<- <-]|[_ Hq]] Hch.
    - apply elem_of_app in Hch as [Hch|Hch].
      + unfold default in Hch. destruct (queue_of tenant l !! id) as [cs|] eqn:Ecs; [|by apply elem_of_nil in Hch].
        eapply (Hgrow _ _ (queue_of_queued tenant l H1) ∅); [exact Ecs|done].
      + apply list_elem_of_singleton in Hch as ->. simpl. by rewrite lookup_app_r, Nat.sub_diag.
    - by eapply (Hgrow _ _ (queue_of_queued tenant l H1) ∅). }
  unfold loader_ok. split_and!; simpl.
  - intros t q. rewrite lookup_insert_Some. intros [[<- <-]|[_ Hq]]; [exact Hp|].
    by apply (Hgrow _ _ (H1 t q Hq) ∅).
  - intros t q Hq. by apply (Hgrow _ _ (H2 t q Hq) ∅).
  - intros ch r Hr. destruct (H3 ch r Hr) as (t & i & Hreq & ->). exists t, i. split; [|done].
    rewrite lookup_app_l; [done|]. by apply lookup_lt_Some in Hreq.
  - rewrite length_app. simpl. rewrite Nat.add_1_r, seq_S, <- H4. unfold all_chans. simpl.
    rewrite bag_insert. unfold p. rewrite chans_enqueue, (bag_loaders tenant l).
    rewrite <- Permutation_cons_append. simpl. done.
  - intros t Ht. unfold armed, queue_of in *. simpl in *.
    destruct (decide (t = tenant)) as [->|Hne].
    + fold p. destruct (arms_timer p) eqn:Ea; simpl.
      { exists (length (requested l)). rewrite !lookup_insert_eq. simpl. set_solver. }
      apply H5. intros Hemp. unfold arms_timer in Ea. apply Nat.eqb_neq in Ea. apply Ea.
      unfold p, enqueue, queue_of. rewrite Hemp. by rewrite map_size_insert_None.
    + rewrite lookup_insert_ne in Ht by done. specialize (H5 t Ht).
      fold p. destruct (arms_timer p); [by rewrite !lookup_insert_ne|done].
Qed.

(** The queue of a tenant without one is empty, and its timer does not matter. *)
Definition timed (t : string) l : Prop := queue_of t l ≠ ∅ → ∃ k, timer l !! t = Some k ∧ k ∈ armed t l.

Lemma take_ok tenant l :
  (∀ t p, loaders l !! t = Some p → queued t p l) → (∀ t p, (t, p) ∈ inflight l → queued t p l) →
  (∀ ch r, (ch, r) ∈ delivered l → ∃ t id, requested l !! ch = Some (t, id) ∧ r = single t id) →
  all_chans l ≡ₚ seq 0 (length (requested l)) → (∀ t, t ≠ tenant → timed t l) →
  loader_ok (dispatch_take tenant l).
Proof.
  intros H1 H2 H3 H4 H5. unfold dispatch_take. case_decide as He.
  { unfold loader_ok. split_and!; [done..|]. intros t Ht. destruct (decide (t = tenant)) as [->|Hne]; [done|by apply H5]. }
  unfold loader_ok. split_and!; simpl; [| |done| |].
  - intros t q. rewrite lookup_insert_Some. intros [[<- <-]|[_ Hq]]; [|by apply (H1 t q)].
    intros id chs ch Hn. by rewrite lookup_empty in Hn.
  - intros t q [Hq|Hq%list_elem_of_singleton]%elem_of_app; [by apply (H2 t q)|]. simplify_eq.
    by apply (queue_of_queued tenant l).
  - rewrite <- H4. unfold all_chans. simpl. rewrite bag_insert, (bag_loaders tenant l).
    rewrite map_app, concat_app. simpl. rewrite app_nil_r.
    change (chans ∅) with (@nil nat). simpl.
    rewrite (Permutation_app_comm (concat _) (chans (queue_of tenant l))), !app_assoc.
    do 2 f_equiv. apply Permutation_app_comm.
  - intros t Ht. unfold armed, queue_of in *. simpl in *. destruct (decide (t = tenant)) as [->|Hne].
    + by rewrite lookup_insert_eq in Ht.
    + rewrite lookup_insert_ne in Ht by done. destruct (H5 t Hne Ht) as (k & Hk & Ha). exists k.
      rewrite lookup_delete_ne by done. split; [done|]. destruct (timer l !! tenant); [|done].
      by rewrite lookup_insert_ne.
Qed.

Lemma dispatch_ok tenant l : loader_ok l → loader_ok (dispatch_take tenant l).
Proof. intros (H1 & H2 & H3 & H4 & H5). apply take_ok; try done. intros t _ Ht. by apply H5. Qed.
Lemma fire_ok tenant k l : loader_ok l → loader_ok (fire tenant k l).
Proof.
  intros (H1 & H2 & H3 & H4 & H5). unfold fire. apply take_ok; try done. intros t Hne Ht.
  destruct (H5 t Ht) as (k' & Hk & Ha). exists k'. split; [done|]. unfold armed in *. simpl. by rewrite lookup_insert_ne.
Qed.

Lemma answer_ok i l : loader_ok l → loader_ok (dispatch_answer row_id not_found query i l).
Proof.
  intros Hok. unfold dispatch_answer. destruct (inflight l !! i) as [[t p]|] eqn:Ei; [|done].
  destruct Hok as (H1 & H2 & H3 & H4 & H5). unfold loader_ok. split_and!; simpl; [done| | | |done].
  - intros t' q Hq. apply (H2 t' q). rewrite (delete_Permutation _ _ _ Ei). by right.
  - intros ch r [Hr|Hr]%elem_of_app; [by apply H3|]. apply elem_of_answers in Hr as (id & chs & Hp & Hch & ->).
    exists t, id. split; [|done]. eapply (H2 t p); [by eapply list_elem_of_lookup_2|done|done].
  - rewrite <- H4. unfold all_chans. simpl. f_equiv. rewrite fmap_app, answers_channels.
    rewrite (delete_Permutation _ _ _ Ei) at 2. simpl.
    rewrite (Permutation_app_comm _ (chans p)), !app_assoc. f_equiv. by rewrite Permutation_app_comm.
Qed.

(** C28: Batching is transparent. Whatever lookups of whatever tenants run in
    whatever interleaving with the dispatches, each caller that is answered
    gets what its lookup on its own would return; every caller's channel is
    queued, in a batch or answered, and in no two of these places, so none is
    answered twice; and while a tenant has callers queued, a timer is armed
    that will dispatch them. *)
Theorem batching_transparent l :
  rtc loader_step NewLoader l →
  (∀ ch r, (ch, r) ∈ delivered l → ∃ t id, requested l !! ch = Some (t, id) ∧ r = single t id) ∧
  all_chans l ≡ₚ seq 0 (length (requested l)) ∧
  (∀ t, queue_of t l ≠ ∅ → (0 < live t l)%nat).
Proof.
  intros Hr. assert (loader_ok l) as (_ & _ & H3 & H4 & H5).
  { assert (loader_ok NewLoader) as H0.
    { unfold loader_ok. split_and!; simpl; [| | |done|].
      - intros t p. by rewrite lookup_empty.
      - intros t p Hn. by apply elem_of_nil in Hn.
      - intros ch r Hn. by apply elem_of_nil in Hn.
      - intros t Ht. unfold queue_of in Ht. simpl in Ht. by rewrite lookup_empty in Ht. }
    induction Hr as [|l1 l2 l3 Hs _ IH]; [done|]. apply IH.
    destruct Hs; [by eapply Load_ok|by apply dispatch_ok|by apply fire_ok|by apply answer_ok]. }
  split_and!; [done..|]. intros t Ht. destruct (H5 t Ht) as (k & _ & Hk). unfold live.
  destruct (decide (size (armed t l) = 0%nat)) as [Hs%size_empty_inv|]; [set_solver|lia].
Qed.
End facts.

(** ** The repositories answer identifiers one by one *)
Section queries.
Context `{GoRuntime}.

Lemma lookup_row_map {Row} (row_id : Row → string) rows i r :
  NoDup (row_id <$> rows) → row_map row_id rows !! i = Some r ↔ r ∈ rows ∧ row_id r = i.
Proof.
  unfold row_map. assert (∀ rows (m : gmap string Row), NoDup (row_id <$> rows) →
    foldl (λ m r, <[row_id r := r]> m) m rows !! i = Some r ↔
    (r ∈ rows ∧ row_id r = i) ∨ (i ∉ row_id <$> rows ∧ m !! i = Some r)) as Hgen.
  { clear rows. intros rows. induction rows as [|x rows IH]; intros m Hnd; simpl.
    - set_solver.
    - rewrite ?fmap_cons in Hnd; rewrite ?fmap_cons. apply NoDup_cons in Hnd as [Hx Hnd]. rewrite IH by done.
      rewrite lookup_insert_Some, !elem_of_cons.
      assert (r ∈ rows → row_id r ∈ row_id <$> rows) by apply list_elem_of_fmap_2.
      destruct (decide (i = row_id x)) as [->|Hne]; naive_solver. }
  intros Hnd. rewrite Hgen by done. rewrite lookup_empty. naive_solver.
Qed.

Lemma answer_of_pointwise {Row E} (row_id : Row → string) (e : E) (table : list Row) (P : Row → Prop)
    `{∀ x, Decision (P x)} (ids : list string) i :
  NoDup (row_id <$> table) → i ∈ ids →
  answer_of row_id e (Ok (filter (λ r, row_id r ∈ ids ∧ P r) table)) i =
  answer_of row_id e (Ok (filter (λ r, row_id r ∈ [i] ∧ P r) table)) i.
Proof.
  intros Hnd Hi. unfold answer_of.
  assert (∀ js : list string, NoDup (row_id <$> filter (λ r, row_id r ∈ js ∧ P r) table)) as Hf.
  { intros js. clear -Hnd. induction table as [|x table IH]; [done|]. rewrite fmap_cons in Hnd.
    apply NoDup_cons in Hnd as [Hx Hnd]. rewrite filter_cons. case_decide; [|by apply IH].
    rewrite fmap_cons. apply NoDup_cons. split; [|by apply IH].
    intros (y & Hy & [_ Hin]%list_elem_of_filter)%list_elem_of_fmap. apply Hx. rewrite Hy. by apply list_elem_of_fmap_2. }
  assert (∀ r, row_map row_id (filter (λ r, row_id r ∈ ids ∧ P r) table) !! i = Some r ↔
               row_map row_id (filter (λ r, row_id r ∈ [i] ∧ P r) table) !! i = Some r) as Heq.
  { intros r. rewrite !lookup_row_map, !list_elem_of_filter by done. rewrite list_elem_of_singleton.
    split; intros [[[? ?] ?] <-]; auto. }
  destruct (row_map row_id (filter (λ r, row_id r ∈ ids ∧ P r) table) !! i) as [r|] eqn:E1.
  - by rewrite (proj1 (Heq r) eq_refl).
  - destruct (row_map row_id (filter (λ r, row_id r ∈ [i] ∧ P r) table) !! i) as [r|] eqn:E2; [|done].
    by discriminate (proj2 (Heq r) eq_refl).
Qed.

Lemma NoDup_range_ids (m : MockSubscriptionRepo) :
  (∀ k r, m !! k = Some r → ID r = k) → NoDup (ID <$> (map_range m).*2).
Proof.
  intros Hk. rewrite <- list_fmap_compose.
  assert ((ID ∘ snd) <$> map_range m = fst <$> map_range m) as ->.
  { apply list_fmap_ext. intros i [k r] Hin. simpl. apply Hk.
    apply elem_of_map_range. by eapply list_elem_of_lookup_2. }
  apply NoDup_map_range_keys.
Qed.

(** Subscriptions keyed by their identifiers are found one by one. *)
Lemma subscription_query_pointwise (m : MockSubscriptionRepo) tenant ids i :
  (∀ k r, m !! k = Some r → ID r = k) → i ∈ ids →
  answer_of ID ErrNotFound (subscription_query m tenant ids) i = single ID ErrNotFound (subscription_query m) tenant i.
Proof.
  intros Hk Hi. unfold single, subscription_query, Mock_FindByIDsAndTenant.
  apply (answer_of_pointwise ID ErrNotFound _ (λ r, tenant = ""%string ∨ TenantID r = tenant)); [|done].
  by apply NoDup_range_ids.
Qed.
End queries.

(** ** A run: two tenants ask for the same identifier *)
Module Runs.
Definition row (id tenant : string) : SubscriptionRow :=
  {| ID := id; PlanID := "p1"; TenantID := tenant; CustomerID := "c1"; Status := "active"; Amount := "1999";
     Currency := "USD"; Interval := "month"; NextBilling := ""; UpdatedAt := 0; Version := 1; DeletedAt := None |}.
Definition table : MockSubscriptionRepo := {[ "s1"%string := row "s1" "acme" ]}.

Lemma table_keyed k r : table !! k = Some r → ID r = k.
Proof. unfold table. by intros [<- <-]%lookup_singleton_Some. Qed.

#[local] Notation step := (loader_step ID ErrNotFound (subscription_query table)).

Lemma batching_transparent_witness :
  ∃ l, rtc step NewLoader l ∧
    delivered l = [(0%nat, Ok (row "s1" "acme"))] ∧
    all_chans l ≡ₚ seq 0 (length (requested l)).
Proof.
  pose (l1 := default NewLoader (Load "acme" "s1" (NewLoader (Row := SubscriptionRow) (E := repo_error)))).
  pose (l2 := default NewLoader (Load "other" "s1" l1)).
  pose (l4 := dispatch_answer ID ErrNotFound (subscription_query table) 0 (dispatch_take "acme" l2)).
  assert (rtc step NewLoader l4) as Hr.
  { eapply rtc_l; [by apply (step_load _ _ _ _ "acme" "s1" l1)|].
    eapply rtc_l; [by apply (step_load _ _ _ _ "other" "s1" l2)|].
    eapply rtc_l; [apply (step_take _ _ _ _ "acme")|].
    eapply rtc_l; [apply (step_answer _ _ _ _ 0)|]. apply rtc_refl. }
  exists l4. split; [done|]. split; [vm_compute; reflexivity|].
  refine (proj1 (proj2 (batching_transparent ID ErrNotFound (subscription_query table) _ l4 Hr))).
  intros tenant ids i Hi. apply subscription_query_pointwise; [apply table_keyed|done].
Defined.
End Runs.
