(* ===== verification/RequestParams.v ===== *)
(** * Request parameters, ETags and field projection

    Models [internal/requestparams/requestparams.go] (the validation of path
    identifiers, query parameters and field lists), [internal/handlers/etag.go]
    and [internal/handlers/fields.go].

    Unicode normalisation comes from a third-party package and the case
    mappings from Unicode's tables: both are parameters, about which nothing is
    assumed. The query is a map from names to the values given. *)
From Stdlib Require Import ZArith Lia Ascii String.
From stdpp Require Import base gmap strings list.
From S2P Require Import Prelude GoStrings.
#[local] Open Scope string_scope.
#[local] Open Scope Z_scope.

(** ** UTF-8 and the patterns *)
Fixpoint ValidString_fuel (fuel : nat) (s : string) : bool :=
  match fuel, s with
  | _, EmptyString => true
  | O, _ => false
  | S fuel, String c0 s1 =>
      let b0 := code c0 in
      if b0 <? 128 then ValidString_fuel fuel s1
      else match lead b0, s1 with
      | Some (2%nat, lo, hi), String c1 s2 => is_cont lo hi c1 && ValidString_fuel fuel s2
      | Some (3%nat, lo, hi), String c1 (String c2 s3) =>
          is_cont lo hi c1 && is_cont 128 191 c2 && ValidString_fuel fuel s3
      | Some (4%nat, lo, hi), String c1 (String c2 (String c3 s4)) =>
          is_cont lo hi c1 && is_cont 128 191 c2 && is_cont 128 191 c3 && ValidString_fuel fuel s4
      | _, _ => false
      end
  end.
Definition ValidString (s : string) : bool := ValidString_fuel (String.length s) s.
Definition RuneCountInString (s : string) : Z := Z.of_nat (length (runes s)).

Definition in_range (lo hi : Z) (c : ascii) : bool := (lo <=? code c) && (code c <=? hi).
Definition alnum (c : ascii) : bool := in_range 48 57 c || in_range 65 90 c || in_range 97 122 c.
Fixpoint all_chars (p : ascii → bool) (s : string) : bool :=
  match s with EmptyString => true | String c s => p c && all_chars p s end.
Definition starts (p q : ascii → bool) (s : string) : bool :=
  match s with EmptyString => false | String c s => p c && all_chars q s end.

Definition any_of (l : list ascii) (c : ascii) : bool := existsb (λ x, bool_decide (x = c)) l.
Definition identifierPattern : string → bool := starts alnum (λ c, alnum c || any_of ["."; "_"; "-"]%char c).
Definition searchPattern : string → bool := starts alnum (λ c, alnum c || any_of [" "; "."; "_"; "-"]%char c).
Definition currencyPattern (s : string) : bool := (String.length s =? 3)%nat && all_chars (in_range 65 90) s.

(** ** Rules *)
Record ValidationError := { Location : string; ErrName : string; Reason : string }.

Record StringRule := {
  MaxLen : Z;
  Pattern : option (string → bool);
  Enum : gset string;
  Lowercase : bool;
  Uppercase : bool;
}.
Record IntRule := { Min : Z; Max : Z }.
Record QueryRules := { rule_Strings : gmap string StringRule; rule_Ints : gmap string IntRule }.
Record SanitizedQuery := { Strings : gmap string string; Ints : gmap string Z }.

Definition IdentifierRule (maxLen : Z) : StringRule :=
  {| MaxLen := maxLen; Pattern := Some identifierPattern; Enum := ∅; Lowercase := false; Uppercase := false |}.
Definition SearchRule (maxLen : Z) : StringRule :=
  {| MaxLen := maxLen; Pattern := Some searchPattern; Enum := ∅; Lowercase := false; Uppercase := false |}.
Definition CurrencyRule : StringRule :=
  {| MaxLen := 3; Pattern := Some currencyPattern; Enum := ∅; Lowercase := false; Uppercase := true |}.
Definition EnumRule (maxLen : Z) (lowercase : bool) (values : list string) : StringRule :=
  {| MaxLen := maxLen; Pattern := Some identifierPattern; Enum := list_to_set values;
     Lowercase := lowercase; Uppercase := false |}.

Section sanitize.
Context `{GoRuntime} (nfkc ToLower ToUpper : string → string).

Definition normalizeString (v : string) : result string string :=
  let normalized := nfkc (TrimSpace v) in
  if negb (ValidString normalized) then Err "must be valid UTF-8"
  else if decide (normalized = "") then Err "must not be empty"
  else Ok normalized.

Definition NormalizePathID (name v : string) : result ValidationError string :=
  let fail r := Err {| Location := "path"; ErrName := name; Reason := r |} in
  match normalizeString v with
  | Err e => fail e
  | Ok normalized =>
      if 64 <? RuneCountInString normalized then fail "must be 64 characters or fewer"
      else if negb (identifierPattern normalized) then
        fail "must contain only letters, numbers, dots, underscores, and hyphens"
      else Ok normalized
  end.

Definition sanitizeString (name raw : string) (rule : StringRule) : result ValidationError string :=
  let fail r := Err {| Location := "query"; ErrName := name; Reason := r |} in
  match normalizeString raw with
  | Err e => fail e
  | Ok n =>
      let n := if Lowercase rule then ToLower n else n in
      let n := if Uppercase rule then ToUpper n else n in
      if (0 <? MaxLen rule) && (MaxLen rule <? RuneCountInString n) then
        fail ("must be " +:+ Itoa (MaxLen rule) +:+ " characters or fewer")
      else if negb (default (λ _, true) (Pattern rule) n) then fail "contains invalid characters"
      else if bool_decide (Enum rule ≠ ∅) && bool_decide (n ∉ Enum rule) then
        fail "contains an unsupported value"
      else Ok n
  end.

Definition sanitizeInt (name raw : string) (rule : IntRule) : result ValidationError Z :=
  let fail r := Err {| Location := "query"; ErrName := name; Reason := r |} in
  match normalizeString raw with
  | Err e => fail e
  | Ok n =>
      if negb (forallb (λ r, (48 <=? r) && (r <=? 57)) (runes n)) then fail "must be a base-10 integer"
      else match ParseInt n with
      | None => fail "must be a valid integer"
      | Some value =>
          if (value <? Min rule) || (Max rule <? value) then
            fail ("must be between " +:+ Itoa (Min rule) +:+ " and " +:+ Itoa (Max rule))
          else Ok value
      end
  end.

(** One parameter of the query. *)
Definition sanitize_param (rules : QueryRules) (name : string) (rawValues : list string) (q : SanitizedQuery)
    : result ValidationError SanitizedQuery :=
  let fail r := Err {| Location := "query"; ErrName := name; Reason := r |} in
  match rule_Strings rules !! name, rule_Ints rules !! name with
  | None, None => fail "unsupported parameter"
  | rs, ri =>
      match rawValues with
      | [raw] =>
          match rs, ri with
          | Some rule, _ =>
              match sanitizeString name raw rule with
              | Err e => Err e
              | Ok v => Ok {| Strings := <[name := v]> (Strings q); Ints := Ints q |}
              end
          | None, Some rule =>
              match sanitizeInt name raw rule with
              | Err e => Err e
              | Ok v => Ok {| Strings := Strings q; Ints := <[name := v]> (Ints q) |}
              end
          | None, None => fail "unsupported parameter"
          end
      | _ => fail "must be provided exactly once"
      end
  end.

Fixpoint sanitize_loop (rules : QueryRules) (params : list (string * list string)) (q : SanitizedQuery)
    : result ValidationError SanitizedQuery :=
  match params with
  | [] => Ok q
  | (name, raws) :: params =>
      match sanitize_param rules name raws q with
      | Err e => Err e
      | Ok q => sanitize_loop rules params q
      end
  end.

Definition SanitizeQuery (values : gmap string (list string)) (rules : QueryRules)
    : result ValidationError SanitizedQuery :=
  sanitize_loop rules (map_range values) {| Strings := ∅; Ints := ∅ |}.

(** ** [ParseFields] *)
Fixpoint fields_loop (allowed : list string) (parts seen : list string) : result ValidationError (list string) :=
  let fail r := Err {| Location := "query"; ErrName := "fields"; Reason := r |} in
  match parts with
  | [] => Ok []
  | part :: parts =>
      let trimmed := TrimSpace part in
      if decide (trimmed = "") then fields_loop allowed parts seen
      else if negb (identifierPattern trimmed) then fail (trimmed +:+ " is not a valid field name")
      else if decide (trimmed ∉ allowed) then fail ("unknown or forbidden field " +:+ trimmed)
      else if decide (trimmed ∈ seen) then fields_loop allowed parts seen
      else match fields_loop allowed parts (trimmed :: seen) with
           | Err e => Err e
           | Ok fs => Ok (trimmed :: fs)
           end
  end.

(** [Ok None] stands for all fields. *)
Definition ParseFields (raw : string) (allowed : list string) : result ValidationError (option (list string)) :=
  if decide (raw = "") then Ok None
  else match fields_loop allowed (split_char ","%char raw) [] with
       | Err e => Err e
       | Ok [] => Err {| Location := "query"; ErrName := "fields"; Reason := "must specify at least one valid field" |}
       | Ok fs => Ok (Some fs)
       end.
End sanitize.

(** ** [ProjectFields]: [full] is the decoded object *)
Definition ProjectFields (full : gmap string string) (fields : list string) : option (gmap string string) :=
  match fields with
  | [] => None
  | _ => Some (foldl (λ p name, match full !! name with Some v => <[name := v]> p | None => p end) ∅ fields)
  end.

Fixpoint ProjectSlice (items : list (gmap string string)) (fields : list string) : option (list (gmap string string)) :=
  match items with
  | [] => Some []
  | item :: items =>
      match ProjectFields item fields with
      | None => None
      | Some p => match ProjectSlice items fields with None => None | Some ps => Some (p :: ps) end
      end
  end.

(** ** ETags *)
Definition quote : ascii := byte_of 34.
Definition quoted (s : string) : string := String quote (s +:+ String quote "").

Definition GenerateETag (updatedAt : Time) (version : Z) : string :=
  "W/" +:+ quoted (Itoa (wrap64 updatedAt) +:+ "-" +:+ Itoa version).

Fixpoint trim_left_char (c : ascii) (s : string) : string :=
  match s with
  | EmptyString => ""
  | String c' s' => if decide (c' = c) then trim_left_char c s' else s
  end.
Fixpoint trim_right_char (c : ascii) (s : string) : string :=
  match s with
  | EmptyString => ""
  | String c' s' =>
      match trim_right_char c s' with
      | EmptyString => if decide (c' = c) then "" else String c' ""
      | r => String c' r
      end
  end.
Definition Trim_char (c : ascii) (s : string) : string := trim_right_char c (trim_left_char c s).

Definition ParseIfMatch (header : string) : option Z :=
  if decide (header = "") then None
  else
    let header := Trim_char quote header in
    let header := if HasPrefix header "W/" then Trim_char quote (TrimPrefix header "W/") else header in
    let parts := split_char "-"%char header in
    let versionStr := match parts with [_; v] => v | p :: _ => p | [] => "" end in
    ParseInt versionStr.

(** The status answered, or the version asked for. *)
Definition EnsureIfMatch (header : string) : result Z Z :=
  if decide (header = "") then Err 428
  else match ParseIfMatch header with None => Err 400 | Some v => Ok v end.

(** ** Only what the rules allow gets through *)
Section facts.
Context `{GoRuntime} (nfkc ToLower ToUpper : string → string).
#[local] Notation sanitizeString := (sanitizeString nfkc ToLower ToUpper).
#[local] Notation sanitizeInt := (sanitizeInt nfkc).
#[local] Notation sanitize_param := (sanitize_param nfkc ToLower ToUpper).
#[local] Notation sanitize_loop := (sanitize_loop nfkc ToLower ToUpper).
#[local] Notation SanitizeQuery := (SanitizeQuery nfkc ToLower ToUpper).

(** A value that satisfies a rule. *)
Definition fits (rule : StringRule) (v : string) : Prop :=
  (0 < MaxLen rule → RuneCountInString v ≤ MaxLen rule) ∧
  (∀ p, Pattern rule = Some p → p v = true) ∧
  (Enum rule ≠ ∅ → v ∈ Enum rule).

Lemma sanitizeString_fits name raw rule v : sanitizeString name raw rule = Ok v → fits rule v.
Proof.
  unfold RequestParams.sanitizeString. destruct (normalizeString nfkc raw) as [n|]; [|done]. cbv zeta.
  set (m := if Uppercase rule then _ else _). clearbody m.
  destruct ((0 <? MaxLen rule) && (MaxLen rule <? RuneCountInString m)) eqn:E1; [done|].
  destruct (default (λ _, true) (Pattern rule) m) eqn:E2; [|done]. simpl.
  destruct (bool_decide (Enum rule ≠ ∅) && bool_decide (m ∉ Enum rule)) eqn:E3; [done|]. intros [= <-].
  split_and!.
  - intros Hpos. apply andb_false_iff in E1 as [E1|E1]; [apply Z.ltb_ge in E1; lia|by apply Z.ltb_ge in E1].
  - intros p Hp. by rewrite Hp in E2.
  - intros He. apply andb_false_iff in E3 as [E3|E3]; apply bool_decide_eq_false in E3; [done|].
    by apply dec_stable.
Qed.

Lemma sanitizeInt_bounds name raw rule v : sanitizeInt name raw rule = Ok v → Min rule ≤ v ≤ Max rule.
Proof.
  unfold RequestParams.sanitizeInt. destruct (normalizeString nfkc raw) as [n|]; [|done].
  destruct (negb _); [done|]. destruct (ParseInt n) as [i|]; [|done].
  destruct ((i <? Min rule) || (Max rule <? i)) eqn:Eb; [done|]. intros [= <-].
  apply orb_false_iff in Eb as [E1 E2]. apply Z.ltb_ge in E1, E2. lia.
Qed.

(** What a parameter contributes. *)
Definition param_ok (rules : QueryRules) (name : string) (raws : list string) (s : option string) (i : option Z) : Prop :=
  ∃ raw, raws = [raw] ∧
    ((∃ rule v, rule_Strings rules !! name = Some rule ∧ sanitizeString name raw rule = Ok v ∧ s = Some v ∧ i = None) ∨
     (∃ rule v, rule_Strings rules !! name = None ∧ rule_Ints rules !! name = Some rule ∧
        sanitizeInt name raw rule = Ok v ∧ s = None ∧ i = Some v)).

Lemma sanitize_param_ok rules name raws q q' :
  Strings q !! name = None → Ints q !! name = None → sanitize_param rules name raws q = Ok q' →
  param_ok rules name raws (Strings q' !! name) (Ints q' !! name) ∧
  (∀ n, n ≠ name → Strings q' !! n = Strings q !! n ∧ Ints q' !! n = Ints q !! n).
Proof.
  intros Hs Hi Hp. unfold RequestParams.sanitize_param in Hp.
  destruct (rule_Strings rules !! name) as [rs|] eqn:Es.
  - destruct raws as [|raw [|]]; [done| |done]. destruct (sanitizeString name raw rs) as [v|] eqn:Ev; [|done].
    injection Hp as <-. simpl. rewrite lookup_insert_eq, Hi. split.
    + exists raw. split; [done|]. left. exists rs, v. done.
    + intros n Hn. by rewrite lookup_insert_ne.
  - destruct (rule_Ints rules !! name) as [ri|] eqn:Eri; [|done].
    destruct raws as [|raw [|]]; [done| |done]. destruct (sanitizeInt name raw ri) as [v|] eqn:Ev; [|done].
    injection Hp as <-. simpl. rewrite lookup_insert_eq, Hs. split.
    + exists raw. split; [done|]. right. exists ri, v. done.
    + intros n Hn. by rewrite lookup_insert_ne.
Qed.

Lemma sanitize_loop_ok rules params q q' :
  NoDup params.*1 → (∀ n, n ∈ params.*1 → Strings q !! n = None ∧ Ints q !! n = None) →
  sanitize_loop rules params q = Ok q' →
  (∀ n raws, (n, raws) ∈ params → param_ok rules n raws (Strings q' !! n) (Ints q' !! n)) ∧
  (∀ n, n ∉ params.*1 → Strings q' !! n = Strings q !! n ∧ Ints q' !! n = Ints q !! n).
Proof.
  revert q. induction params as [|[name raws] params IH]; intros q Hnd Hfresh Hl; simpl in Hl.
  { simplify_eq. split; [intros n r Hn; by apply elem_of_nil in Hn|done]. }
  rewrite fmap_cons in Hnd, Hfresh. apply NoDup_cons in Hnd as [Hname Hnd]. simpl in Hname, Hfresh.
  destruct (sanitize_param rules name raws q) as [q1|] eqn:E1; [|done].
  destruct (Hfresh name ltac:(by left)) as [Hs Hi].
  destruct (sanitize_param_ok _ _ _ _ _ Hs Hi E1) as [Hok Hother].
  destruct (IH q1 Hnd) as [Hin Hout]; [|done|].
  { intros n Hn. destruct (Hother n) as [-> ->]; [|apply Hfresh; by right]. intros ->. done. }
  split.
  - intros n r [[= -> ->]|Hn]%elem_of_cons; [|by apply Hin].
    by destruct (Hout name Hname) as [-> ->].
  - intros n Hn. rewrite fmap_cons, not_elem_of_cons in Hn. destruct Hn as [Hne Hn]. simpl in Hne.
    destruct (Hout n Hn) as [-> ->]. by apply Hother.
Qed.

(** Handlers see only what the rules allow. When a query passes, each of
    its parameters was given once and has a rule; its value is there, of the
    rule's type: a text within the length, pattern and values of its rule, or
    a number within its bounds; and no other parameter is there. The order in
    which the parameters are visited makes no difference. *)
Theorem SanitizeQuery_sound values rules q :
  SanitizeQuery values rules = Ok q →
  (∀ name raws, values !! name = Some raws → param_ok rules name raws (Strings q !! name) (Ints q !! name)) ∧
  (∀ name v, Strings q !! name = Some v → ∃ rule, rule_Strings rules !! name = Some rule ∧ fits rule v) ∧
  (∀ name v, Ints q !! name = Some v → ∃ rule, rule_Ints rules !! name = Some rule ∧ Min rule ≤ v ≤ Max rule).
Proof.
  unfold RequestParams.SanitizeQuery. intros Hq.
  destruct (sanitize_loop_ok _ _ {| Strings := ∅; Ints := ∅ |} _ (NoDup_map_range_keys values)
              ltac:(intros n _; split; apply lookup_empty) Hq) as [Hin Hout].
  assert (∀ name, values !! name = None → Strings q !! name = None ∧ Ints q !! name = None) as Hnone.
  { intros name Hn. destruct (Hout name) as [-> ->]; [|done].
    intros ([n r] & -> & Hr)%list_elem_of_fmap. apply elem_of_map_range in Hr. simpl in Hn. congruence. }
  split; [intros name raws Hn; apply Hin; by apply elem_of_map_range|].
  split; intros name v Hv; (destruct (values !! name) as [raws|] eqn:Ev; [|destruct (Hnone name Ev); congruence]);
    (destruct (Hin name raws ltac:(by apply elem_of_map_range))
       as (raw & _ & [(rule & x & Hr & Hx & Es & Ei)|(rule & x & Hn & Hr & Hx & Es & Ei)]); [|]); try congruence;
    rewrite ?Es, ?Ei in Hv; simplify_eq; exists rule; (split; [done|]).
  - by eapply sanitizeString_fits.
  - by eapply sanitizeInt_bounds.
Qed.

End facts.

(** *** Field lists *)
Lemma fields_loop_spec allowed parts seen fs :
  fields_loop allowed parts seen = Ok fs →
  NoDup fs ∧ (∀ f, f ∈ fs → f ∈ allowed ∧ f ∉ seen ∧ identifierPattern f = true) ∧
  (∀ part, part ∈ parts → TrimSpace part ≠ "" → TrimSpace part ∈ seen ∨ TrimSpace part ∈ fs) ∧
  fs `sublist_of` (TrimSpace <$> parts).
Proof.
  revert seen fs. induction parts as [|p parts IH]; intros seen fs Hf; simpl in Hf.
  { simplify_eq. split_and!; [constructor|by intros f Hn%elem_of_nil|by intros f Hn%elem_of_nil|constructor]. }
  case_decide as Hblank.
  { destruct (IH _ _ Hf) as (H1 & H2 & H3 & H4). split_and!; [done|done| |by constructor].
    intros part [->|Hp]%elem_of_cons Hne; [done|by apply H3]. }
  destruct (identifierPattern (TrimSpace p)) eqn:Eid; [|done]. simpl in Hf.
  case_decide as Hall; [done|].
  destruct (decide (TrimSpace p ∈ seen)) as [Hseen|Hseen].
  { destruct (IH _ _ Hf) as (H1 & H2 & H3 & H4). split_and!; [done|done| |by constructor].
    intros part [->|Hp]%elem_of_cons Hne; [by left|by apply H3]. }
  destruct (fields_loop allowed parts (TrimSpace p :: seen)) as [fs'|] eqn:E; [|done]. injection Hf as <-.
  destruct (IH _ _ E) as (H1 & H2 & H3 & H4). split_and!.
  - apply NoDup_cons. split; [|done]. intros Hin. destruct (H2 _ Hin) as (_ & Hn & _). apply Hn. by left.
  - intros f [->|Hin]%elem_of_cons; [split_and!; [done|done|done]|].
    destruct (H2 f Hin) as (Ha & Hn & Hi). rewrite not_elem_of_cons in Hn. tauto.
  - intros part [->|Hp]%elem_of_cons Hne; [right; by left|].
    destruct (H3 part Hp Hne) as [[->|?]%elem_of_cons|?]; [right; by left|by left|right; by right].
  - rewrite fmap_cons. by constructor.
Qed.

(** A field list selects allowed fields only, each once. The fields
    returned are distinct, allowed, in the order of the text, and every name
    of the text is among them. *)
Theorem ParseFields_exact raw allowed fs :
  ParseFields raw allowed = Ok (Some fs) →
  NoDup fs ∧ fs ≠ [] ∧ (∀ f, f ∈ fs → f ∈ allowed) ∧
  fs `sublist_of` (TrimSpace <$> split_char ","%char raw) ∧
  (∀ part, part ∈ split_char ","%char raw → TrimSpace part ≠ "" → TrimSpace part ∈ fs).
Proof.
  unfold ParseFields. case_decide; [done|].
  destruct (fields_loop allowed (split_char ","%char raw) []) as [[|f l]|] eqn:E; [done| |done].
  intros [= <-]. destruct (fields_loop_spec _ _ _ _ E) as (H1 & H2 & H3 & H4).
  split_and!; [done|done|intros x Hx; by apply H2|done|].
  intros part Hp Hne. destruct (H3 part Hp Hne) as [Hn|?]; [by apply elem_of_nil in Hn|done].
Qed.

(** *** ETags *)
Lemma contains_char_cons c c' s : contains_char c (String c' s) = bool_decide (c' = c) || contains_char c s.
Proof. done. Qed.

Lemma trim_right_clean c s : contains_char c s = false → trim_right_char c (s +:+ String c "") = s.
Proof.
  induction s as [|c' s IH]; intros Hs; simpl.
  - by rewrite decide_True.
  - rewrite contains_char_cons in Hs. apply orb_false_iff in Hs as [Hc Hs]. rewrite IH by done.
    destruct s; [|done]. rewrite decide_False; [done|]. by apply bool_decide_eq_false in Hc.
Qed.

Lemma trim_right_none c s : contains_char c s = false → trim_right_char c s = s.
Proof.
  induction s as [|c' s IH]; intros Hs; simpl; [done|].
  rewrite contains_char_cons in Hs. apply orb_false_iff in Hs as [Hc Hs]. rewrite IH by done.
  destruct s; [|done]. rewrite decide_False; [done|]. by apply bool_decide_eq_false in Hc.
Qed.

Lemma split_two c a b :
  contains_char c a = false → contains_char c b = false → split_char c (a +:+ String c b) = [a; b].
Proof.
  intros Ha Hb. induction a as [|x a IH]; simpl.
  - rewrite bool_decide_true by done. f_equal. clear Ha. induction b as [|y b IH]; [done|]. simpl in *.
    apply orb_false_iff in Hb as [Hy Hb]. by rewrite Hy, (IH Hb).
  - simpl in Ha. apply orb_false_iff in Ha as [Hx Ha]. by rewrite Hx, (IH Ha).
Qed.

(** A client that sends back the tag it was given asks for the version it
    was given, for rows updated since 1970. *)
Theorem etag_roundtrip updatedAt version :
  0 ≤ updatedAt ≤ max_int64 → 0 ≤ version ≤ max_int64 →
  EnsureIfMatch (GenerateETag updatedAt version) = Ok version.
Proof.
  intros Ht Hv. unfold EnsureIfMatch. rewrite decide_False by done. unfold ParseIfMatch, GenerateETag.
  rewrite decide_False by done. rewrite wrap64_id by (unfold in_int64, min_int64, max_int64 in *; lia).
  set (body := (Itoa updatedAt +:+ "-" +:+ Itoa version)%string).
  assert (contains_char quote body = false) as Hq.
  { unfold body. rewrite !contains_char_app, !Itoa_clean by (by try lia). done. }
  unfold quoted.
  assert (Trim_char quote ("W/" +:+ String quote (body +:+ String quote ""))%string =
          ("W/" +:+ String quote body)%string) as ->.
  { unfold Trim_char. change (trim_left_char quote ("W/" +:+ String quote (body +:+ String quote ""))%string)
      with (String "W" (String "/" (String quote (body +:+ String quote "")))).
    cbn [trim_right_char]. rewrite trim_right_clean by done.
    destruct body as [|c b] eqn:Eb; [|done]. unfold body in Eb. destruct (Itoa updatedAt); done. }
  change (HasPrefix ("W/" +:+ String quote body)%string "W/") with true. cbv iota.
  rewrite TrimPrefix_app.
  assert (Trim_char quote (String quote body) = body) as ->.
  { unfold Trim_char. cbn [trim_left_char]. rewrite decide_True by done.
    assert (trim_left_char quote body = body) as ->; [|by apply trim_right_none].
    destruct body as [|c b]; [done|]. cbn [trim_left_char]. rewrite contains_char_cons in Hq.
    apply orb_false_iff in Hq as [Hc _]. apply bool_decide_eq_false in Hc. by rewrite decide_False. }
  unfold body. change ("-" +:+ Itoa version)%string with (String "-" (Itoa version)).
  rewrite split_two by (apply Itoa_clean; [lia|done]). by rewrite ParseInt_Itoa by lia.
Qed.

(** The zero time makes a tag that is refused when it comes back. *)
Example zero_time_etag : EnsureIfMatch (GenerateETag Time.zero 4) = Err 400.
Proof. vm_compute. reflexivity. Qed.

(** *** Projection *)
Lemma ProjectFields_exact full fields p name :
  ProjectFields full fields = Some p → p !! name = if decide (name ∈ fields) then full !! name else None.
Proof.
  unfold ProjectFields. destruct fields as [|f0 fs0] eqn:Ef; [done|]. rewrite <- Ef. intros [= <-]. clear Ef.
  assert (∀ m : gmap string string, (∀ n, m !! n = None ∨ m !! n = full !! n) →
    foldl (λ p name, match full !! name with Some v => <[name := v]> p | None => p end) m fields !! name =
    if decide (name ∈ fields) then full !! name else m !! name) as Hgen.
  { induction fields as [|f fields IH]; intros m Hm; simpl; [done|].
    rewrite IH.
    - destruct (decide (name ∈ f :: fields)) as [Hin|Hin], (decide (name ∈ fields)) as [Hin'|Hin']; try done.
      + apply elem_of_cons in Hin as [->|]; [|done]. destruct (full !! f) eqn:E; [by rewrite lookup_insert_eq|].
        destruct (Hm f) as [->| ->]; done.
      + by destruct Hin; right.
      + rewrite not_elem_of_cons in Hin. destruct (full !! f); [|done]. rewrite lookup_insert_ne; [done|]. naive_solver.
    - intros n. destruct (full !! f) eqn:E; [|by apply Hm]. destruct (decide (n = f)) as [->|Hne].
      + right. by rewrite lookup_insert_eq.
      + rewrite lookup_insert_ne by done. apply Hm. }
  apply Hgen. intros n. left. apply lookup_empty.
Qed.

(** A slice is projected item by item; only an empty list of fields fails, and
    not for an empty slice. *)
Lemma ProjectSlice_exact items fields :
  ProjectSlice items fields =
  match fields with
  | [] => match items with [] => Some [] | _ => None end
  | _ => Some (map (λ full, default ∅ (ProjectFields full fields)) items)
  end.
Proof.
  destruct fields as [|f fields]; [by destruct items|].
  induction items as [|full items IH]; [done|].
  change (ProjectSlice (full :: items) (f :: fields)) with
    (match ProjectFields full (f :: fields) with
     | None => None
     | Some p => match ProjectSlice items (f :: fields) with None => None | Some ps => Some (p :: ps) end
     end).
  by rewrite IH.
Qed.

(** ** Concrete requests *)
Module Runs.
Definition rules : QueryRules :=
  {| rule_Strings := {[ "status" := EnumRule 16 true ["active"; "cancelled"] ]};
     rule_Ints := {[ "limit" := {| Min := 1; Max := 100 |} ]} |}.
Definition query : gmap string (list string) := <["status" := [" active "]]> {[ "limit" := ["25"] ]}.

Lemma SanitizeQuery_sound_witness :
  ∃ q, SanitizeQuery id id id query rules = Ok q ∧ Strings q !! "status" = Some "active" ∧
    Ints q !! "limit" = Some 25 ∧ ∃ rule, rule_Ints rules !! "limit" = Some rule ∧ Min rule ≤ 25 ≤ Max rule.
Proof.
  destruct (SanitizeQuery id id id query rules) as [q|e] eqn:E; [|by vm_compute in E].
  destruct (SanitizeQuery_sound id id id query rules q E) as (_ & _ & Hints).
  exists q. split; [reflexivity|]. vm_compute in E. injection E as <-.
  split; [reflexivity|]. split; [reflexivity|]. apply Hints. reflexivity.
Defined.

Lemma ParseFields_exact_witness :
  ParseFields "id, name,,id" ["id"; "name"; "status"] = Ok (Some ["id"; "name"]) ∧ NoDup ["id"; "name"].
Proof.
  assert (ParseFields "id, name,,id" ["id"; "name"; "status"] = Ok (Some ["id"; "name"])) as E
    by (vm_compute; reflexivity).
  split; [exact E|]. exact (proj1 (ParseFields_exact _ _ _ E)).
Defined.

Lemma etag_roundtrip_witness : EnsureIfMatch (GenerateETag 1700000000000000000 7) = Ok 7.
Proof. apply (etag_roundtrip 1700000000000000000 7); unfold max_int64; lia. Defined.
End Runs.
