(* ===== verification/AdminSigning.v ===== *)
(** * The second admin signing middleware

    Models [internal/middleware/request_signing.go]: requests carry a date, a
    request identifier and an HMAC of their canonical form. The replay cache
    is that of [EventCache], the parsing of the date that of [WebhookVerify].
    SHA-256 and HMAC are parameters; the query is the map of its values. *)
From Stdlib Require Import ZArith Lia Ascii String.
From stdpp Require Import base gmap strings list.
From S2P Require Import Prelude GoStrings GoTime EventCache WebhookVerify.
#[local] Open Scope string_scope.
#[local] Open Scope Z_scope.

Inductive signing_error :=
| ErrAdminMissingDate
| ErrAdminMissingRequestID
| ErrAdminMissingSignature
| ErrAdminBadDate
| ErrAdminTimestampSkew
| ErrAdminReplay
| ErrAdminBadRequestID
| ErrAdminReadFailed (e : string)
| ErrAdminBadHex
| ErrAdminWrongSignature.

Inductive signing_answer := SignAbort (status : Z) (e : signing_error) | SignNext (body : string).

(** The parts of a request the middleware looks at. *)
Record SignedRequest := {
  s_Method : string;
  s_Path : string;
  s_Query : gmap string (list string);
  s_Header : string → string;
  s_Body : Body;
}.

(** [url.QueryEscape] *)
Definition unreserved (c : ascii) : bool :=
  let n := code c in
  ((48 <=? n) && (n <=? 57)) || ((65 <=? n) && (n <=? 90)) || ((97 <=? n) && (n <=? 122)) ||
  existsb (λ x, bool_decide (x = c)) ["-"; "_"; "."; "~"]%char.
Definition upper_hex (n : nat) : ascii := byte_of (if Nat.ltb n 10 then 48 + n else 55 + n)%nat.
Fixpoint QueryEscape (s : string) : string :=
  match s with
  | EmptyString => ""
  | String c s =>
      if unreserved c then String c (QueryEscape s)
      else if decide (c = " "%char) then String "+" (QueryEscape s)
      else let n := nat_of_ascii c in
           String "%" (String (upper_hex (n / 16)) (String (upper_hex (n mod 16)) (QueryEscape s)))
  end.

Definition SignRequestIDHeader : string := "X-Stellabill-Request-ID".
Definition signing_ttl : Duration := 5 * Time.Minute.

Section signing.
Context `{GoRuntime} (hmac : string → string → string) (sha256 : string → string).

Definition query_pairs (q : gmap string (list string)) : list string :=
  concat (map (λ kv, map (λ v, QueryEscape kv.1 +:+ "=" +:+ QueryEscape v) kv.2) (map_range q)).

(** The two signed headers are in the order of their names. *)
Definition buildCanonicalRequest (r : SignedRequest) (body : string) : string :=
  let path := if decide (s_Path r = "") then "/" else s_Path r in
  let line name := ToLower name +:+ ":" +:+ TrimSpace (s_Header r name) +:+ newline in
  let headers := line AdminDateHeader +:+ line SignRequestIDHeader in
  let signedHeaders := ToLower AdminDateHeader +:+ ";" +:+ ToLower SignRequestIDHeader in
  s_Method r +:+ newline +:+ path +:+ newline +:+ Join (sort_slice String.ltb (query_pairs (s_Query r))) "&" +:+ newline +:+
  headers +:+ newline +:+ signedHeaders +:+ newline +:+ hex_encode (sha256 body).

Definition verifyAdminTimestamp (now : Time) (date : string) : option signing_error :=
  match parseUnixTimestamp date with
  | None => Some ErrAdminBadDate
  | Some secs =>
      if (secs <? wrap64 (Unix now - AdminTimestampSkew)) || (wrap64 (Unix now + AdminTimestampSkew) <? secs)
      then Some ErrAdminTimestampSkew else None
  end.

Definition verifyAdminSignature (canonicalRequest signature secretKey : string) : option signing_error :=
  match hex_decode (TrimPrefix signature "v1=") with
  | None => Some ErrAdminBadHex
  | Some sigBytes =>
      if decide (sigBytes = hmac secretKey canonicalRequest) then None else Some ErrAdminWrongSignature
  end.

(** The handler [AdminSigningMiddleware] returns, with its replay cache. *)
Definition signing_handle (secretKey : string) (t : admin_readings) (cache : EventIDCache) (r : SignedRequest)
    : EventIDCache * signing_answer :=
  let date := s_Header r AdminDateHeader in
  if decide (date = "") then (cache, SignAbort 401 ErrAdminMissingDate)
  else
    let requestID := s_Header r SignRequestIDHeader in
    if decide (requestID = "") then (cache, SignAbort 401 ErrAdminMissingRequestID)
    else
      let signature := s_Header r AdminSignatureHeader in
      if decide (signature = "") then (cache, SignAbort 401 ErrAdminMissingSignature)
      else match verifyAdminTimestamp (a_date t) date with
      | Some e => (cache, SignAbort 401 e)
      | None =>
          match CheckAndStore (a_cache t) requestID cache with
          | (cache, Some ErrEventIDAlreadySeen) => (cache, SignAbort 401 ErrAdminReplay)
          | (cache, Some ErrEventIDEmpty) => (cache, SignAbort 400 ErrAdminBadRequestID)
          | (cache, None) =>
              match ReadAll (s_Body r) with
              | Err e => (cache, SignAbort 400 (ErrAdminReadFailed e))
              | Ok rawBody =>
                  match verifyAdminSignature (buildCanonicalRequest r rawBody) signature secretKey with
                  | Some e => (cache, SignAbort 401 e)
                  | None => (cache, SignNext rawBody)
                  end
              end
          end
      end.

Definition AdminSigningMiddleware (secretKey : string)
    : EventIDCache * (admin_readings → EventIDCache → SignedRequest → EventIDCache * signing_answer) :=
  (NewEventIDCache signing_ttl, signing_handle secretKey).

Lemma signing_next secretKey t c r c' body :
  signing_handle secretKey t c r = (c', SignNext body) →
  verifyAdminTimestamp (a_date t) (s_Header r AdminDateHeader) = None ∧
  CheckAndStore (a_cache t) (s_Header r SignRequestIDHeader) c = (c', None) ∧
  ReadAll (s_Body r) = Ok body ∧ s_Header r AdminDateHeader ≠ "" ∧ s_Header r SignRequestIDHeader ≠ "" ∧
  s_Header r AdminSignatureHeader ≠ "" ∧
  verifyAdminSignature (buildCanonicalRequest r body) (s_Header r AdminSignatureHeader) secretKey = None.
Proof.
  unfold signing_handle. case_decide; [done|]. case_decide; [done|]. case_decide; [done|].
  destruct (verifyAdminTimestamp _ _); [done|].
  destruct (CheckAndStore _ _ c) as [c1 [[]|]] eqn:Ec; [done|done|].
  destruct (ReadAll (s_Body r)) as [b|] eqn:Eb; [|done].
  destruct (verifyAdminSignature _ _ _) eqn:Es; [done|]. intros [= <- <-]. done.
Qed.

(** What passes is signed, recent and new: the signature header is the
    HMAC of the canonical request, the date is within a minute of the clock,
    and no request with that identifier was seen within the replay window. *)
Theorem signing_accepts_signed secretKey t c r c' body :
  signing_handle secretKey t c r = (c', SignNext body) →
  data (s_Body r) = body ∧
  hex_decode (TrimPrefix (s_Header r AdminSignatureHeader) "v1=") =
    Some (hmac secretKey (buildCanonicalRequest r body)) ∧
  verifyAdminTimestamp (a_date t) (s_Header r AdminDateHeader) = None ∧
  ¬ ∃ x, entries c !! s_Header r SignRequestIDHeader = Some x ∧
         t_clean (a_cache t) ≤ x ∧ t_check (a_cache t) < x.
Proof.
  intros (Ht & Hc & Hb & _ & Hid & _ & Hs)%signing_next. split_and!.
  - unfold ReadAll in Hb. destruct (fails (s_Body r)); by simplify_eq.
  - unfold verifyAdminSignature in Hs. destruct (hex_decode _) as [b|]; [|done].
    destruct (decide (b = _)) as [->|]; done.
  - done.
  - intros (x & Hx & H1 & H2). unfold CheckAndStore in Hc. rewrite decide_False in Hc by done. cbv zeta in Hc.
    assert (entries (cleanupExpiredLocked (t_clean (a_cache t)) c) !! s_Header r SignRequestIDHeader = Some x) as E.
    { apply (lookup_sweep (t_clean (a_cache t)) c (s_Header r SignRequestIDHeader) x); [done|lia]. }
    rewrite E in Hc. unfold Time.Before in Hc. by rewrite (proj2 (Z.ltb_lt _ _)) in Hc by lia.
Qed.

(** The identifier is burnt before the signature is checked. Whoever sends
    any request with a current date and the identifier of a genuine one, with
    whatever signature and body, makes the genuine request that follows within
    the window be refused as a replay. *)
Theorem forged_request_blocks_genuine secretKey t1 t2 c forged genuine c1 a1 :
  signing_handle secretKey t1 c forged = (c1, a1) →
  (∀ x, entries c !! s_Header forged SignRequestIDHeader = Some x → x ≤ t_check (a_cache t1)) →
  s_Header forged AdminDateHeader ≠ "" → s_Header forged AdminSignatureHeader ≠ "" →
  verifyAdminTimestamp (a_date t1) (s_Header forged AdminDateHeader) = None →
  s_Header forged SignRequestIDHeader = s_Header genuine SignRequestIDHeader →
  s_Header genuine SignRequestIDHeader ≠ "" → s_Header genuine AdminDateHeader ≠ "" →
  s_Header genuine AdminSignatureHeader ≠ "" →
  verifyAdminTimestamp (a_date t2) (s_Header genuine AdminDateHeader) = None →
  t_clean (a_cache t2) ≤ t_store (a_cache t1) + ttl c → t_check (a_cache t2) < t_store (a_cache t1) + ttl c →
  snd (signing_handle secretKey t2 c1 genuine) = SignAbort 401 ErrAdminReplay.
Proof.
  intros Hf Hold Hd1 Hs1 Ht1 Hid Hne Hd2 Hs2 Ht2 Hcl Hck.
  assert (entries c1 !! s_Header genuine SignRequestIDHeader = Some (t_store (a_cache t1) + ttl c)) as Hc1.
  { unfold signing_handle in Hf. rewrite !decide_False in Hf by congruence. rewrite Ht1, Hid in Hf.
    rewrite Hid in Hold.
    destruct (CheckAndStore (a_cache t1) (s_Header genuine SignRequestIDHeader) c) as [c2 e] eqn:Ec.
    assert (c1 = c2) as ->.
    { destruct e as [[]|]; [by simplify_eq|by simplify_eq|]. destruct (ReadAll _); [|by simplify_eq].
      destruct (verifyAdminSignature _ _ _); by simplify_eq. }
    pose proof (CheckAndStore_exact (a_cache t1) (s_Header genuine SignRequestIDHeader) c Hne) as Hx.
    rewrite Ec in Hx. simpl in Hx. assert (e = None) as ->.
    { rewrite Hx. destruct (entries c !! _) as [x|] eqn:Ex; [|done]. specialize (Hold x eq_refl).
      rewrite (proj2 (Z.ltb_ge _ _)) by lia. by rewrite andb_false_r. }
    by destruct (CheckAndStore_stored _ _ _ _ Ec) as [_ ->]. }
  unfold signing_handle. rewrite !decide_False by congruence. rewrite Ht2.
  pose proof (CheckAndStore_exact (a_cache t2) (s_Header genuine SignRequestIDHeader) c1 Hne) as Hx.
  rewrite Hc1 in Hx. rewrite (proj2 (Z.leb_le _ _)), (proj2 (Z.ltb_lt _ _)) in Hx by lia.
  destruct (CheckAndStore _ _ c1) as [c3 e3]. simpl in Hx. by subst e3.
Qed.
End signing.

(** ** Witnesses *)
Module Runs.

(** A stand-in hash and a stand-in MAC that mark their input. *)
Definition mark_hash (s : string) : string := "#" +:+ s.
Definition mark_mac (k s : string) : string := k +:+ "|" +:+ s.

Definition request_with (sig body : string) : SignedRequest :=
  {| s_Method := "POST"; s_Path := "/admin/purge"; s_Query := {[ "b" := ["2"]; "a" := ["1 x"; "1"] ]};
     s_Header h := if decide (h = AdminDateHeader) then "1000"
                   else if decide (h = SignRequestIDHeader) then "req-1"
                   else if decide (h = AdminSignatureHeader) then sig else "";
     s_Body := {| data := body; fails := None |} |}.

Definition signed_request : SignedRequest :=
  request_with ("v1=" +:+ hex_encode (mark_mac "k" (buildCanonicalRequest mark_hash (request_with "" "{}") "{}"))) "{}".

Definition clock_at (s : Z) : admin_readings :=
  {| a_date := s * Time.Second;
     a_cache := {| t_clean := s * Time.Second; t_check := s * Time.Second; t_store := s * Time.Second |} |}.

Definition fresh : EventIDCache := fst (AdminSigningMiddleware mark_mac mark_hash "k").

(** The pairs of the query are in order, with a space written as a plus. *)
Example query_sorted : sort_slice String.ltb (query_pairs (s_Query signed_request)) = ["a=1"; "a=1+x"; "b=2"].
Proof. vm_compute. reflexivity. Qed.

Lemma signing_accepts_signed_witness :
  verifyAdminTimestamp (1010 * Time.Second) "1000" = None ∧ data (s_Body signed_request) = "{}".
Proof.
  assert (signing_handle mark_mac mark_hash "k" (clock_at 1010) fresh signed_request =
          (fst (signing_handle mark_mac mark_hash "k" (clock_at 1010) fresh signed_request), SignNext "{}")) as E
    by (vm_compute; reflexivity).
  destruct (signing_accepts_signed mark_mac mark_hash "k" (clock_at 1010) fresh signed_request _ _ E)
    as (Hd & _ & Ht & _).
  split; [exact Ht|exact Hd].
Defined.

Lemma forged_request_blocks_genuine_witness :
  snd (signing_handle mark_mac mark_hash "k" (clock_at 1010) fresh signed_request) = SignNext "{}" ∧
  snd (signing_handle mark_mac mark_hash "k" (clock_at 1010)
         (fst (signing_handle mark_mac mark_hash "k" (clock_at 1005) fresh (request_with "00" "x"))) signed_request) =
    SignAbort 401 ErrAdminReplay.
Proof.
  split; [vm_compute; reflexivity|].
  apply (forged_request_blocks_genuine mark_mac mark_hash "k" (clock_at 1005) (clock_at 1010) fresh
           (request_with "00" "x") signed_request _
           (snd (signing_handle mark_mac mark_hash "k" (clock_at 1005) fresh (request_with "00" "x")))).
  - by destruct (signing_handle _ _ _ _ _ _).
  - intros x E. assert (entries fresh !! "req-1" = None) as E2 by (vm_compute; reflexivity).
    change (entries fresh !! "req-1" = Some x) in E. congruence.
  - discriminate.
  - discriminate.
  - vm_compute. reflexivity.
  - reflexivity.
  - discriminate.
  - discriminate.
  - vm_compute. discriminate.
  - vm_compute. reflexivity.
  - vm_compute. discriminate.
  - vm_compute. reflexivity.
Defined.
End Runs.
