(* ===== verification/Auth.v ===== *)
(** * Authentication and authorisation

    - [Roles] models [internal/auth/roles.go], [claims.go] and
      [middleware.go]: permissions of roles, roles of a request context and
      the permission gate;
    - [Strict] models the configuration and claim checks of
      [internal/auth/jwt.go];
    - [Verifiers] models [internal/auth/verifier.go]: tokens signed with a
      shared secret and with keys of a key set;
    - [Keys] models [internal/auth/jwks_cache.go], the cache of such keys;
    - [Policy] models the fail-closed policy engine of [internal/auth/opa.go].

    JSON, HMAC, RSA and the Rego evaluator are parameters; base64 is
    [GoBase64]. *)
From Stdlib Require Import ZArith Lia Ascii String.
From stdpp Require Import base gmap strings list.
From S2P Require Import Prelude GoStrings GoFloat GoBase64.
#[local] Open Scope string_scope.
#[local] Open Scope go_scope.
#[local] Open Scope Z_scope.

(** ** Roles *)
Module Roles.
Notation Role := string (only parsing).
Definition RoleAdmin : Role := "admin".
Definition RoleMerchant : Role := "merchant".
Definition RoleCustomer : Role := "customer".
Definition RoleUser : Role := "user".

Inductive Permission :=
| PermReadPlans
| PermReadSubscriptions
| PermManagePlans
| PermManageSubscriptions
| PermReadStatements
| PermManageStatements
| PermManageReconciliation
| PermReadReconciliation.
#[export] Instance Permission_eq_dec : EqDecision Permission.
Proof. solve_decision. Defined.

Definition rolePermissions : gmap string (list Permission) :=
  list_to_map
    [ (RoleAdmin,
       [PermReadPlans; PermReadSubscriptions; PermManagePlans; PermManageSubscriptions; PermReadStatements;
        PermManageStatements; PermManageReconciliation; PermReadReconciliation]);
      (RoleMerchant,
       [PermReadPlans; PermReadSubscriptions; PermManagePlans; PermManageSubscriptions; PermReadStatements;
        PermManageStatements; PermReadReconciliation]);
      (RoleCustomer, [PermReadPlans; PermReadSubscriptions; PermReadStatements]);
      (RoleUser, [PermReadPlans; PermReadSubscriptions]) ].

Definition HasPermission (role : Role) (perm : Permission) : bool :=
  match rolePermissions !! role with
  | None => false
  | Some perms => existsb (λ p, bool_decide (p = perm)) perms
  end.

(** Values of the request context, by their dynamic type. *)
Inductive ctx_value :=
| VRole (r : Role)
| VRoles (rs : list Role)
| VString (s : string)
| VStrings (ss : list string)
| VOther.
Notation Context := (gmap string ctx_value) (only parsing).
Definition RoleContextKey : string := "role".
Definition RolesContextKey : string := "roles".

Fixpoint normalize_loop (seen : list string) (roles : list Role) : list Role :=
  match roles with
  | [] => []
  | role :: roles =>
      let role := TrimSpace role in
      if decide (role = "") then normalize_loop seen roles
      else if decide (role ∈ seen) then normalize_loop seen roles
      else role :: normalize_loop (role :: seen) roles
  end.
Definition normalizeRoles (roles : list Role) : list Role := normalize_loop [] roles.

(** The roles a context names, before they are normalised. *)
Definition named_roles (c : Context) : list Role :=
  let single :=
    match c !! RoleContextKey with
    | Some (VRole r) => [r]
    | Some (VString s) => [TrimSpace s]
    | _ => []
    end in
  match c !! RolesContextKey with
  | Some (VRoles rs) => rs
  | Some (VStrings ss) => map TrimSpace ss
  | Some (VString s) => [TrimSpace s]
  | _ => single
  end.

Definition rolesFromContext (c : Context) : list Role := normalizeRoles (named_roles c).
Definition ExtractRoles (c : Context) : list Role := rolesFromContext c.
Definition ExtractRole (c : Context) : Role :=
  match ExtractRoles c with [] => "" | r :: _ => r end.

Inductive gate := Abort (status : Z) | Next (c : Context).

Definition RequirePermission (permission : Permission) (c : Context) : gate :=
  match ExtractRoles c with
  | [] => Abort 401
  | roles =>
      match List.find (λ role, HasPermission role permission) roles with
      | Some role => Next (<[RolesContextKey := VRoles roles]> (<[RoleContextKey := VRole role]> c))
      | None => Abort 403
      end
  end.

(** *** Claims *)
Record Claims := {
  UserID : string;
  Email : string;
  claims_Role : Role;
  claims_Roles : list Role;
  MerchantID : string;
  TenantID : string;
  Issuer : string;
  Audience : list string;
  ExpiresAt : option Time;
  NotBefore : option Time;
  IssuedAt : option Time;
  Subject : string;
}.

Definition AllRoles : list string := [RoleAdmin; RoleMerchant; RoleCustomer].
Definition HasRole (c : Claims) (role : string) : bool :=
  bool_decide (claims_Role c = role) || existsb (λ r, bool_decide (r = role)) (claims_Roles c).

(** *** Facts *)
Lemma elem_of_normalize_loop seen roles r :
  r ∈ normalize_loop seen roles ↔ r ≠ "" ∧ r ∉ seen ∧ ∃ x, x ∈ roles ∧ TrimSpace x = r.
Proof.
  revert seen. induction roles as [|x roles IH]; intros seen; simpl.
  { split; [by intros ?%elem_of_nil|intros (_ & _ & x & Hx & _); by apply elem_of_nil in Hx]. }
  destruct (decide (TrimSpace x = "")) as [Hx|Hx]; [|destruct (decide (TrimSpace x ∈ seen)) as [Hs|Hs]].
  - rewrite IH. split; intros (H1 & H2 & y & Hy & <-); split_and!; try done; exists y; split; try done.
    + by right. + apply elem_of_cons in Hy as [->|]; [by rewrite Hx in H1|done].
  - rewrite IH. split; intros (H1 & H2 & y & Hy & <-); split_and!; try done; exists y; split; try done.
    + by right. + apply elem_of_cons in Hy as [->|]; [by destruct H2|done].
  - rewrite elem_of_cons, IH. split.
    + intros [->|(H1 & H2 & y & Hy & <-)]; split_and!; try done.
      * exists x. split; [by left|done].
      * by apply not_elem_of_cons in H2 as [_ ?].
      * exists y. split; [by right|done].
    + intros (H1 & H2 & y & Hy & <-). destruct (decide (TrimSpace y = TrimSpace x)) as [->|Hne]; [by left|right].
      split_and!; [done|by apply not_elem_of_cons|]. apply elem_of_cons in Hy as [->|Hy]; [done|by exists y].
Qed.

Lemma normalize_loop_NoDup seen roles : NoDup (normalize_loop seen roles).
Proof.
  revert seen. induction roles as [|x roles IH]; intros seen; simpl; [constructor|].
  case_decide; [done|]. case_decide; [done|]. constructor; [|done].
  rewrite elem_of_normalize_loop. intros (_ & Hn & _). apply Hn. by left.
Qed.

(** The roles of a request are the nonempty names its context holds, each once. *)
Lemma elem_of_ExtractRoles c r :
  r ∈ ExtractRoles c ↔ r ≠ "" ∧ ∃ x, x ∈ named_roles c ∧ TrimSpace x = r.
Proof.
  unfold ExtractRoles, rolesFromContext, normalizeRoles. rewrite elem_of_normalize_loop.
  split; [intros (? & _ & ?); done|]. intros [? ?]. split_and!; [done|apply not_elem_of_nil|done].
Qed.

(** Normalising what is normal changes nothing. *)
Lemma normalize_loop_normal seen roles :
  NoDup roles → Forall (λ r, TrimSpace r = r ∧ r ≠ "" ∧ r ∉ seen) roles → normalize_loop seen roles = roles.
Proof.
  revert seen. induction roles as [|r roles IH]; intros seen Hnd Hall; [done|].
  apply NoDup_cons in Hnd as [Hr Hnd]. apply Forall_cons in Hall as [(Ht & He & Hs) Hall]. simpl.
  rewrite Ht, !decide_False by done. f_equal. apply IH; [done|]. rewrite Forall_forall in Hall.
  apply Forall_forall. intros x Hx. destruct (Hall x Hx) as (? & ? & ?). split_and!; [done|done|].
  rewrite not_elem_of_cons. split; [|done]. intros ->. by apply Hr.
Qed.

Lemma ExtractRoles_gated c role :
  ExtractRoles (<[RolesContextKey := VRoles (ExtractRoles c)]> (<[RoleContextKey := VRole role]> c)) = ExtractRoles c.
Proof.
  unfold ExtractRoles at 1, rolesFromContext, named_roles. rewrite lookup_insert_eq.
  apply normalize_loop_normal; [apply normalize_loop_NoDup|]. apply Forall_forall. intros r Hr.
  apply elem_of_ExtractRoles in Hr as (Hne & x & _ & <-).
  split_and!; [apply TrimSpace_idemp|done|apply not_elem_of_nil].
Qed.

(** The gate opens exactly for those it should. A request passes exactly
    when one of the roles in its context, surrounding space aside, carries the
    permission, and then the first such role and all roles are in the
    context; without any role the answer is 401, and otherwise 403. *)
Theorem RequirePermission_exact p c :
  match RequirePermission p c with
  | Next c' =>
      ∃ role, role ∈ ExtractRoles c ∧ HasPermission role p = true ∧
        c' = <[RolesContextKey := VRoles (ExtractRoles c)]> (<[RoleContextKey := VRole role]> c) ∧
        ExtractRoles c' = ExtractRoles c
  | Abort status =>
      (∀ x, x ∈ named_roles c → HasPermission (TrimSpace x) p = false) ∧
      (status = 401 ∧ (∀ x, x ∈ named_roles c → TrimSpace x = "") ∨
       status = 403 ∧ ∃ x, x ∈ named_roles c ∧ TrimSpace x ≠ "")
  end.
Proof.
  assert (∀ role, HasPermission role p = true → role ≠ "") as Hne by (by intros role Hp ->).
  unfold RequirePermission. destruct (ExtractRoles c) as [|r0 rs0] eqn:Er.
  - assert (∀ x, x ∈ named_roles c → TrimSpace x = "") as Hx.
    { intros x Hx. apply dec_stable. intros Hx'. apply (not_elem_of_nil (TrimSpace x)). rewrite <- Er.
      apply elem_of_ExtractRoles. eauto. }
    split; [|by left]. intros x Hin. by rewrite (Hx x Hin).
  - rewrite <- Er. destruct (List.find _ (ExtractRoles c)) as [role|] eqn:Ef.
    + apply List.find_some in Ef as [Hin Hp]. exists role. split_and!; [by apply list_elem_of_In|done|done|].
      apply ExtractRoles_gated.
    + assert (∀ x, x ∈ named_roles c → HasPermission (TrimSpace x) p = false) as Hno.
      { intros x Hx. destruct (HasPermission (TrimSpace x) p) eqn:Ep; [|done].
        assert (TrimSpace x ∈ ExtractRoles c) as Hin by (apply elem_of_ExtractRoles; eauto).
        apply list_elem_of_In in Hin. by rewrite (List.find_none _ _ Ef _ Hin) in Ep. }
      split; [done|]. right. split; [done|].
      assert (r0 ∈ ExtractRoles c) as (H0 & x & Hx & <-)%elem_of_ExtractRoles by (rewrite Er; by left). eauto.
Qed.
End Roles.

(** ** Claim checks *)
Module Strict.
Import Roles.

Record Config := {
  Secret : string;
  cfg_Issuer : string;
  cfg_Audience : string;
  Algorithm : string;
  ClockSkewSec : Z;
  MaxTokenAge : Z;
}.

(** [Some m] is the panic with the message [m]. *)
Definition ValidateConfig (cfg : Config) : option string :=
  if (String.length (Secret cfg) <? 32)%nat then Some "auth: JWT secret must be at least 32 bytes"
  else if decide (cfg_Issuer cfg = "") then Some "auth: JWT issuer is required"
  else if decide (cfg_Audience cfg = "") then Some "auth: JWT audience is required"
  else if decide (Algorithm cfg = "") then Some "auth: JWT algorithm is required"
  else if (ClockSkewSec cfg <? 0) || (300 <? ClockSkewSec cfg) then Some "auth: ClockSkewSec must be between 0 and 300"
  else if MaxTokenAge cfg <? 0 then Some "auth: MaxTokenAge must be non-negative"
  else None.

Inductive claims_error := WrongIssuer | WrongAudience | NoExpiration | TokenExpired | NotYetValid | TokenTooOld.

Definition containsString (a : string) (l : list string) : bool := existsb (λ b, bool_decide (b = a)) l.

Definition too_old (cfg : Config) (c : Claims) (now : Time) : bool :=
  match IssuedAt c with
  | Some iat => (0 <? MaxTokenAge cfg) && f_lt (f_of_int (MaxTokenAge cfg)) (f_seconds (Time.Sub now iat))
  | None => false
  end.

Definition validateClaimsStrict (cfg : Config) (c : Claims) (now : Time) : option claims_error :=
  if decide (Issuer c ≠ cfg_Issuer cfg) then Some WrongIssuer
  else if negb (containsString (cfg_Audience cfg) (Audience c)) then Some WrongAudience
  else match ExpiresAt c with
  | None => Some NoExpiration
  | Some e =>
      let skew := wrap64 (ClockSkewSec cfg * Time.Second) in
      if Time.After now (Time.Add e skew) then Some TokenExpired
      else if match NotBefore c with Some nbf => Time.Before now (Time.Add nbf (wrap64 (- skew))) | None => false end
      then Some NotYetValid
      else if too_old cfg c now then Some TokenTooOld else None
  end.

Lemma containsString_iff a l : containsString a l = true ↔ a ∈ l.
Proof.
  unfold containsString. rewrite existsb_exists. split.
  - intros (x & Hx & <-%bool_decide_eq_true). by apply list_elem_of_In.
  - intros Ha. exists a. split; [by apply list_elem_of_In|by apply bool_decide_eq_true].
Qed.

Lemma skew_valid cfg :
  ValidateConfig cfg = None →
  0 ≤ ClockSkewSec cfg ≤ 300 ∧ ∀ z, -300 ≤ z ≤ 300 → wrap64 (z * Time.Second) = z * Time.Second.
Proof.
  intros Hv. split.
  - unfold ValidateConfig in Hv. do 4 (case_match; [done|]). destruct ((ClockSkewSec cfg <? 0) || _) eqn:E; [done|].
    apply orb_false_iff in E as [?%Z.ltb_ge ?%Z.ltb_ge]. lia.
  - intros z Hz. apply wrap64_id. unfold in_int64, min_int64, max_int64, Time.Second, Time.Millisecond. lia.
Qed.

(** The strict checks are exact. Under a configuration that passes its own
    validation, claims are accepted at an instant exactly when issuer and
    audience are the configured ones, the instant lies between [nbf] and
    [exp], both widened by the clock skew, an expiry is there at all, and the
    token is not above its maximal age. *)
Theorem validateClaimsStrict_exact cfg c now :
  ValidateConfig cfg = None →
  validateClaimsStrict cfg c now = None ↔
  Issuer c = cfg_Issuer cfg ∧ cfg_Audience cfg ∈ Audience c ∧
  (∃ e, ExpiresAt c = Some e ∧ now ≤ e + ClockSkewSec cfg * Time.Second) ∧
  (∀ nbf, NotBefore c = Some nbf → nbf - ClockSkewSec cfg * Time.Second ≤ now) ∧
  too_old cfg c now = false.
Proof.
  intros Hv. destruct (skew_valid cfg Hv) as [Hs Hw].
  assert (wrap64 (- (ClockSkewSec cfg * Time.Second)) = - (ClockSkewSec cfg * Time.Second)) as Hn.
  { replace (- (ClockSkewSec cfg * Time.Second)) with ((- ClockSkewSec cfg) * Time.Second) by lia. apply Hw. lia. }
  unfold validateClaimsStrict. cbv zeta. rewrite Hw, Hn by lia. rewrite <- containsString_iff.
  destruct (decide (Issuer c ≠ cfg_Issuer cfg)) as [Hi|Hi%dec_stable]; [by split; [|intros [? _]]|].
  destruct (containsString (cfg_Audience cfg) (Audience c)); [|by split; [|intros (_ & ? & _)]]. simpl.
  destruct (ExpiresAt c) as [e|]; [|by split; [|intros (_ & _ & (? & ? & _) & _)]].
  unfold Time.After, Time.Add. destruct (e + _ <? now) eqn:Ee.
  { split; [done|]. intros (_ & _ & (e' & [= <-] & ?) & _). lia. }
  destruct (NotBefore c) as [nbf|].
  - unfold Time.Before. destruct (now <? nbf + _) eqn:En.
    { split; [done|]. intros (_ & _ & _ & Hb & _). specialize (Hb nbf eq_refl). lia. }
    destruct (too_old cfg c now); [by split; [|intros (_ & _ & _ & _ & ?)]|]. split; [intros _|done].
    split_and!; [done|done|exists e; split; [done|lia]| |done]. intros ? [= <-]. lia.
  - destruct (too_old cfg c now); [by split; [|intros (_ & _ & _ & _ & ?)]|]. split; [intros _|done].
    split_and!; [done|done|exists e; split; [done|lia]|done|done].
Qed.
End Strict.

(** ** Token verifiers *)
Module Verifiers.
Import Roles Strict.

Record jwtHeader := { Alg : string; Kid : string }.

Inductive verify_error :=
| NotAJWT
| HeaderEncoding
| HeaderFormat
| UnexpectedMethod (alg : string)
| MissingKid
| PayloadEncoding
| ClaimsFormat
| InvalidClaims
| RefreshFailed
| KeyNotFound (kid : string)
| SignatureEncoding
| InvalidSignature.

(** The interface [keyCache]. *)
Class keyCache (C Key : Type) := {
  cache_Get : C → string → C * option Key;
  cache_Refresh : C → C * bool;
}.

Section verify.
(** [json.Unmarshal] into the header and the claims, HMAC-SHA256, SHA-256 and
    the check of an RSA signature of a digest. *)
Context (parse_header : string → option jwtHeader) (parse_claims : string → option Claims).
Context (hmac : string → string → string) (sha256 : string → string).
(** The method [Valid] of the claims, should their type have one. *)
Context (Valid : option (Claims → bool)).

Definition claims_valid (c : Claims) : bool := match Valid with Some valid => valid c | None => true end.

(** What both verifiers do first: the parts, the header and the algorithm. *)
Definition open_header (alg : string) (h : string) : result verify_error jwtHeader :=
  match DecodeString h with
  | None => Err HeaderEncoding
  | Some headerBytes =>
      match parse_header headerBytes with
      | None => Err HeaderFormat
      | Some header => if decide (Alg header ≠ alg) then Err (UnexpectedMethod (Alg header)) else Ok header
      end
  end.

Definition open_claims (p : string) : result verify_error Claims :=
  match DecodeString p with
  | None => Err PayloadEncoding
  | Some payloadBytes =>
      match parse_claims payloadBytes with
      | None => Err ClaimsFormat
      | Some claims => if claims_valid claims then Ok claims else Err InvalidClaims
      end
  end.

Definition HMAC_Verify (secret tokenString : string) : result verify_error Claims :=
  match split_char "." tokenString with
  | [h; p; s] =>
      let? header := open_header "HS256" h in
      let? claims := open_claims p in
      let expected := hmac secret (h +:+ "." +:+ p) in
      match DecodeString s with
      | None => Err SignatureEncoding
      | Some sig => if decide (sig = expected) then Ok claims else Err InvalidSignature
      end
  | _ => Err NotAJWT
  end.

Section keys.
Context {C Key : Type} `{keyCache C Key} (rsa_verify : Key → string → string → bool).

(** The key, after at most one refresh. *)
Definition find_key (kid : string) (c : C) : C * result verify_error Key :=
  match cache_Get c kid with
  | (c, Some key) => (c, Ok key)
  | (c, None) =>
      match cache_Refresh c with
      | (c, false) => (c, Err RefreshFailed)
      | (c, true) =>
          match cache_Get c kid with
          | (c, Some key) => (c, Ok key)
          | (c, None) => (c, Err (KeyNotFound kid))
          end
      end
  end.

Definition JWKS_Verify (tokenString : string) (c : C) : C * result verify_error Claims :=
  match split_char "." tokenString with
  | [h; p; s] =>
      match open_header "RS256" h with
      | Err e => (c, Err e)
      | Ok header =>
          if decide (Kid header = "") then (c, Err MissingKid)
          else match open_claims p with
          | Err e => (c, Err e)
          | Ok claims =>
              match find_key (Kid header) c with
              | (c, Err e) => (c, Err e)
              | (c, Ok key) =>
                  match DecodeString s with
                  | None => (c, Err SignatureEncoding)
                  | Some sig =>
                      if rsa_verify key (sha256 (h +:+ "." +:+ p)) sig then (c, Ok claims) else (c, Err InvalidSignature)
                  end
              end
          end
      end
  | _ => (c, Err NotAJWT)
  end.

(** [NewVerifier]: the shared secret, unless a key set is configured. *)
Definition NewVerifier_Verify (secret jwksURL tokenString : string) (c : C) : C * result verify_error Claims :=
  if decide (jwksURL = "") then (c, HMAC_Verify secret tokenString) else JWKS_Verify tokenString c.
End keys.

(** *** [TokenGenerator]

    The token package writes the compact serialisation: header, claims and
    their HMAC, each in base64. [numeric] is its [NewNumericDate]. *)
Context (header_json : string) (claims_json : Claims → string) (numeric : Time → Time).

Record TokenGenerator := { tg_secret : string; tg_issuer : string; tg_audience : string }.
Definition NewTokenGenerator (secret : string) : TokenGenerator :=
  {| tg_secret := secret; tg_issuer := "stellarbill-backend"; tg_audience := "api-clients" |}.

Definition SignedString (secret : string) (c : Claims) : string :=
  let signing := EncodeToString header_json +:+ "." +:+ EncodeToString (claims_json c) in
  signing +:+ "." +:+ EncodeToString (hmac secret signing).

Definition generated_claims (tg : TokenGenerator) (userID email role tenantID : string) (expiresAt now : Time) : Claims :=
  {| UserID := userID; Email := email; claims_Role := role; claims_Roles := []; MerchantID := "";
     TenantID := tenantID; Issuer := tg_issuer tg; Audience := [tg_audience tg];
     ExpiresAt := Some (numeric expiresAt); NotBefore := None; IssuedAt := Some (numeric now); Subject := userID |}.

Definition generateToken (tg : TokenGenerator) (userID email role tenantID : string) (expiresAt now : Time) : string :=
  SignedString (tg_secret tg) (generated_claims tg userID email role tenantID expiresAt now).

Definition GenerateAdminToken (tg : TokenGenerator) (t1 t2 : Time) (userID email : string) : string :=
  generateToken tg userID email RoleAdmin "tenant-1" (Time.Add t1 (24 * Time.Hour)) t2.
Definition GenerateMerchantToken (tg : TokenGenerator) (t1 t2 : Time) (userID email merchantID : string) : string :=
  generateToken tg userID email RoleMerchant merchantID (Time.Add t1 (24 * Time.Hour)) t2.
Definition GenerateCustomerToken (tg : TokenGenerator) (t1 t2 : Time) (userID email : string) : string :=
  generateToken tg userID email RoleCustomer "tenant-1" (Time.Add t1 (24 * Time.Hour)) t2.
Definition GenerateExpiredToken (tg : TokenGenerator) (t1 t2 : Time) (userID email role : string) : string :=
  generateToken tg userID email role "tenant-1" (Time.Add t1 (-1 * Time.Hour)) t2.

(** *** What verification means *)

(** A token of three dotted segments. *)
Definition segments (tok h p s : string) : Prop := split_char "." tok = [h; p; s].

Lemma HMAC_Verify_ok secret tok c :
  HMAC_Verify secret tok = Ok c →
  ∃ h p s, segments tok h p s ∧ (∃ hd, open_header "HS256" h = Ok hd) ∧ open_claims p = Ok c ∧
    DecodeString s = Some (hmac secret (h +:+ "." +:+ p)).
Proof.
  unfold HMAC_Verify, segments. destruct (split_char "." tok) as [|h [|p [|s [|]]]]; try done.
  destruct (open_header "HS256" h) as [hd|] eqn:Eh; [|done]. destruct (open_claims p) as [c'|] eqn:Ep; [|done].
  simpl. destruct (DecodeString s) as [sig|] eqn:Es; [|done]. case_decide as Hd; [|done]. intros [= <-].
  exists h, p, s. rewrite Es, Hd. eauto.
Qed.

Lemma open_header_ok alg h hd :
  open_header alg h = Ok hd → Alg hd = alg ∧ ∃ b, DecodeString h = Some b ∧ parse_header b = Some hd.
Proof.
  unfold open_header. destruct (DecodeString h) as [b|] eqn:Eb; [|done]. destruct (parse_header b) as [hd'|] eqn:Ep; [|done].
  case_decide as Ha; [done|]. intros [= <-]. split; [done|]. eauto.
Qed.

Lemma SignedString_segments secret c :
  segments (SignedString secret c) (EncodeToString header_json) (EncodeToString (claims_json c))
    (EncodeToString (hmac secret (EncodeToString header_json +:+ "." +:+ EncodeToString (claims_json c)))).
Proof.
  unfold segments, SignedString. cbv zeta. rewrite string_app_assoc.
  change ("." +:+ ?a) with (String "." a). change ((String "." ?a) +:+ ?b) with (String "." (a +:+ b)).
  rewrite split_char_app by apply EncodeToString_no_dot. rewrite split_char_app by apply EncodeToString_no_dot.
  by rewrite split_char_none by apply EncodeToString_no_dot.
Qed.

(** The header says HS256, and JSON reads back the claims it wrote. *)
Context (hd : jwtHeader) (header_reads : parse_header header_json = Some hd) (header_alg : Alg hd = "HS256").
Context (claims_read : ∀ c, parse_claims (claims_json c) = Some c).

Lemma token_verifies secret c : claims_valid c = true → HMAC_Verify secret (SignedString secret c) = Ok c.
Proof.
  intros Hvalid. unfold HMAC_Verify. rewrite SignedString_segments. unfold open_header, open_claims.
  rewrite !base64_roundtrip, header_reads, claims_read, Hvalid, header_alg, decide_False by (intros n; by apply n).
  by rewrite decide_True.
Qed.

(** A signed token verifies, and only under its key. The verifier gives
    back exactly the claims that were signed with its secret, if their type's
    own check accepts them; under any secret that gives another MAC of the
    same text, it refuses the token. *)
Theorem token_roundtrip secret secret' c :
  let signing := EncodeToString header_json +:+ "." +:+ EncodeToString (claims_json c) in
  claims_valid c = true →
  HMAC_Verify secret (SignedString secret c) = Ok c ∧
  (hmac secret' signing ≠ hmac secret signing →
   HMAC_Verify secret' (SignedString secret c) = Err InvalidSignature).
Proof.
  intros signing Hvalid. split; [by apply token_verifies|]. intros Hne.
  unfold HMAC_Verify. rewrite SignedString_segments. unfold open_header, open_claims.
  rewrite !base64_roundtrip, header_reads, claims_read, Hvalid, header_alg, decide_False by (intros n; by apply n). rewrite decide_False; [done|]. intros E. by apply Hne.
Qed.

(** C13: What a verifier accepts is signed. Without a key set the token names
    HS256 and carries the MAC of its first two segments under the secret; with
    one it names RS256 and a key, and its signature checks under the key the
    cache has for that name. Either way the claims are those of its payload;
    and no token passes under both, so none is taken for the other kind. *)
Theorem verified_authentic {C Key} `{keyCache C Key} (rsa_verify : Key → string → string → bool)
    secret url tok c c' claims :
  NewVerifier_Verify rsa_verify secret url tok c = (c', Ok claims) →
  ∃ h p s header sig, segments tok h p s ∧ open_claims p = Ok claims ∧ DecodeString s = Some sig ∧
    (∃ b, DecodeString h = Some b ∧ parse_header b = Some header) ∧
    (if decide (url = "") then Alg header = "HS256" ∧ sig = hmac secret (h +:+ "." +:+ p)
     else Alg header = "RS256" ∧ Kid header ≠ "" ∧ ∃ key,
            find_key (Kid header) c = (c', Ok key) ∧ rsa_verify key (sha256 (h +:+ "." +:+ p)) sig = true) ∧
    (if decide (url = "") then snd (JWKS_Verify rsa_verify tok c) = Err (UnexpectedMethod "HS256")
     else HMAC_Verify secret tok = Err (UnexpectedMethod "RS256")).
Proof.
  unfold NewVerifier_Verify. destruct (decide (url = "")) as [->|Hu].
  - intros [= -> (h & p & s & Hseg & (header & Hh) & Hp & Hs)%HMAC_Verify_ok].
    destruct (open_header_ok _ _ _ Hh) as (Halg & b & Hb & Hparse).
    exists h, p, s, header, (hmac secret (h +:+ "." +:+ p)). split_and!; eauto.
    unfold JWKS_Verify. rewrite Hseg. unfold open_header. by rewrite Hb, Hparse, decide_True, Halg by (rewrite Halg; done).
  - unfold JWKS_Verify at 1. destruct (split_char "." tok) as [|h [|p [|s [|]]]] eqn:Hseg; try done.
    destruct (open_header "RS256" h) as [header|] eqn:Hh; [|done]. destruct (decide (Kid header = "")); [done|].
    destruct (open_claims p) as [cl|] eqn:Hp; [|done]. destruct (find_key (Kid header) c) as [c1 [key|]] eqn:Hk; [|done].
    destruct (DecodeString s) as [sig|] eqn:Hs; [|done]. destruct (rsa_verify key _ sig) eqn:Hr; [|done].
    intros [= <- <-]. destruct (open_header_ok _ _ _ Hh) as (Halg & b & Hb & Hparse).
    exists h, p, s, header, sig. split_and!; eauto 10.
    unfold HMAC_Verify. rewrite Hseg. unfold open_header.
    by rewrite Hb, Hparse, decide_True, Halg by (rewrite Halg; done).
Qed.

(** A verified token may have expired. When the claims' type has no method
    [Valid], as in version 5 of the token package, nothing in the verifier
    looks at the expiry: a token generated as expired an hour ago is accepted,
    though the strict checks of the same package refuse its claims. *)
Theorem expired_token_verifies (cfg : Config) tg t1 t2 now userID email role :
  Valid = None → numeric (t1 - Time.Hour) ≤ t1 - Time.Hour → t1 ≤ now →
  ValidateConfig cfg = None → cfg_Issuer cfg = tg_issuer tg → cfg_Audience cfg = tg_audience tg →
  ∃ claims, HMAC_Verify (tg_secret tg) (GenerateExpiredToken tg t1 t2 userID email role) = Ok claims ∧
    validateClaimsStrict cfg claims now = Some TokenExpired.
Proof.
  intros HV Hnum Hnow Hcfg Hi Ha. unfold GenerateExpiredToken, generateToken.
  set (c := generated_claims tg userID email role "tenant-1" (Time.Add t1 (-1 * Time.Hour)) t2). exists c. split.
  - apply (token_verifies (tg_secret tg) c). unfold claims_valid. by rewrite HV.
  - unfold validateClaimsStrict. simpl. rewrite decide_False by (rewrite Hi; intros n; by apply n).
    rewrite Ha. unfold containsString. simpl. rewrite bool_decide_true by done. simpl.
    destruct (skew_valid cfg Hcfg) as [Hs Hw]. rewrite Hw by lia. unfold Time.After, Time.Add.
    replace (t1 + -1 * Time.Hour) with (t1 - Time.Hour) by lia.
    rewrite (proj2 (Z.ltb_lt _ _)); [done|]. unfold Time.Hour, Time.Minute, Time.Second, Time.Millisecond in *. lia.
Qed.
End verify.
End Verifiers.

(** ** The cache of public keys *)
Module Keys.
Section keys.
Context {Key : Type}.

Definition maxNegativeCacheTTL : Duration := 5 * Time.Second.
Definition negativeCacheJitter : Duration := 1 * Time.Second.

Record JWKSCache := {
  url : string;
  ttl : Duration;
  keys : gmap string Key;
  negativeCache : gmap string Time;
  expiry : Time;
  lastRefresh : Time;
  refreshLimit : Duration;
}.

Definition NewJWKSCache (u : string) (t : Duration) : JWKSCache :=
  {| url := u; ttl := t; keys := ∅; negativeCache := ∅; expiry := Time.zero; lastRefresh := Time.zero;
     refreshLimit := 60 * Time.Second |}.

(** [jitter] is the random number below [negativeCacheJitter]. *)
Definition negativeTTL (jitter : Z) : Duration := maxNegativeCacheTTL - jitter.

Inductive key_error := KidRequired | NegativeCached | RateLimited | NotConfigured | FetchFailed | NotInSet.

(** The clock readings of one call, in their order, and the random number. *)
Record key_times := {
  t_expired : Time;
  t_neg_expired : Time;
  t_again : Time;
  t_neg_again : Time;
  t_since : Time;
  t_failed : Time;
  t_expiry : Time;
  t_refreshed : Time;
  t_negative : Time;
  jitter : Z;
}.

(** The first look, under the read lock: [None] goes on to a refresh. *)
Definition cached_answer (t : key_times) (kid : string) (c : JWKSCache) : option (result key_error Key) :=
  let isNegExpired := match negativeCache c !! kid with
                      | Some e => Time.After (t_neg_expired t) e
                      | None => true
                      end in
  match keys c !! kid with
  | Some key =>
      if negb (Time.After (t_expired t) (expiry c)) then Some (Ok key)
      else if negb isNegExpired then Some (Err NegativeCached) else None
  | None => if negb isNegExpired then Some (Err NegativeCached) else None
  end.

(** The second look, under the lock, up to the fetch. *)
Definition refresh_check (t : key_times) (kid : string) (c : JWKSCache) : option (result key_error Key) :=
  let key := keys c !! kid in
  let fresh := match key with Some key => if Time.Before (t_again t) (expiry c) then Some key else None | None => None end in
  match fresh with
  | Some key => Some (Ok key)
  | None =>
      if match negativeCache c !! kid with Some e => Time.Before (t_neg_again t) e | None => false end
      then Some (Err NegativeCached)
      else if Time.Sub (t_since t) (lastRefresh c) <? refreshLimit c then
        Some (match key with Some key => Ok key | None => Err RateLimited end)
      else if decide (url c = "") then Some (Err NotConfigured) else None
  end.

(** The keys of a fetched set that have an identifier. *)
Definition key_map (fetched : list (string * Key)) : gmap string Key :=
  foldl (λ m k, if decide (k.1 = "") then m else <[k.1 := k.2]> m) ∅ fetched.

(** After the fetch: [None] is a failed one. *)
Definition refresh_finish (t : key_times) (fetched : option (list (string * Key))) (kid : string) (c : JWKSCache)
    : JWKSCache * result key_error Key :=
  match fetched with
  | None =>
      ({| url := url c; ttl := ttl c; keys := keys c; negativeCache := negativeCache c; expiry := expiry c;
          lastRefresh := t_failed t; refreshLimit := refreshLimit c |}, Err FetchFailed)
  | Some set =>
      let newKeys := key_map set in
      let c' neg := {| url := url c; ttl := ttl c; keys := newKeys; negativeCache := neg;
                       expiry := Time.Add (t_expiry t) (ttl c); lastRefresh := t_refreshed t;
                       refreshLimit := refreshLimit c |} in
      match newKeys !! kid with
      | Some key => (c' ∅, Ok key)
      | None => (c' {[ kid := Time.Add (t_negative t) (negativeTTL (jitter t)) ]}, Err NotInSet)
      end
  end.

(** [GetKey] on its own; [fetched] is what the issuer would answer, and the
    last component tells whether it was asked. *)
Definition GetKey (t : key_times) (fetched : option (list (string * Key))) (kid : string) (c : JWKSCache)
    : JWKSCache * result key_error Key * bool :=
  if decide (kid = "") then (c, Err KidRequired, false)
  else match cached_answer t kid c with
  | Some a => (c, a, false)
  | None =>
      match refresh_check t kid c with
      | Some a => (c, a, false)
      | None => (refresh_finish t fetched kid c, true)
      end
  end.

(** *** Histories of calls one after the other *)
Record call := { c_times : key_times; c_issuer : option (list (string * Key)); c_kid : string }.

Definition run_call (c : JWKSCache) (k : call) : JWKSCache := (GetKey (c_times k) (c_issuer k) (c_kid k) c).1.1.

(** When the fetch of a call ended, should it have made one. *)
Definition ended (t : key_times) (fetched : option (list (string * Key))) : Time :=
  match fetched with None => t_failed t | Some _ => t_refreshed t end.

(** The start and the end of every fetch of a history. *)
Fixpoint fetches (c : JWKSCache) (ks : list call) : list (Time * Time) :=
  match ks with
  | [] => []
  | k :: ks =>
      let rest := fetches (run_call c k) ks in
      if (GetKey (c_times k) (c_issuer k) (c_kid k) c).2
      then (t_since (c_times k), ended (c_times k) (c_issuer k)) :: rest else rest
  end.

(** Every fetch starts at least [limit] after the end of the one before. *)
Fixpoint spaced (limit : Duration) (prev : Time) (l : list (Time * Time)) : Prop :=
  match l with
  | [] => True
  | (s, e) :: l => limit ≤ Time.Sub s prev ∧ spaced limit e l
  end.

Lemma refresh_finish_fields t f kid c :
  refreshLimit (fst (refresh_finish t f kid c)) = refreshLimit c ∧
  lastRefresh (fst (refresh_finish t f kid c)) = ended t f.
Proof. unfold refresh_finish. destruct f as [set|]; [|done]. cbv zeta. by destruct (key_map set !! kid). Qed.

Lemma GetKey_cases t f kid c :
  (GetKey t f kid c).2 = false ∧ (GetKey t f kid c).1.1 = c ∨
  (GetKey t f kid c).2 = true ∧ (GetKey t f kid c).1 = refresh_finish t f kid c ∧
  refresh_check t kid c = None.
Proof.
  unfold GetKey. case_decide; [by left|]. destruct (cached_answer t kid c); [by left|].
  destruct (refresh_check t kid c); [by left|]. by right.
Qed.

Lemma refresh_check_limit t kid c : refresh_check t kid c = None → refreshLimit c ≤ Time.Sub (t_since t) (lastRefresh c).
Proof.
  unfold refresh_check. cbv zeta. destruct (match keys c !! kid with Some _ => _ | None => None end); [done|].
  destruct (match negativeCache c !! kid with Some _ => _ | None => false end); [done|].
  destruct (_ <? refreshLimit c) eqn:E; [done|]. intros _. lia.
Qed.

(** The issuer is asked seldom. However often keys are asked for, found or
    not, and whether fetches succeed or fail, each fetch starts no sooner than
    the refresh limit after the end of the one before. *)
Theorem fetches_spaced c ks : spaced (refreshLimit c) (lastRefresh c) (fetches c ks).
Proof.
  revert c. induction ks as [|k ks IH]; intros c; [done|]. simpl. unfold run_call.
  destruct (GetKey_cases (c_times k) (c_issuer k) (c_kid k) c) as [[-> ->]|(-> & -> & Hc)]; [apply IH|].
  destruct (refresh_finish_fields (c_times k) (c_issuer k) (c_kid k) c) as [Hl Hr]. simpl.
  split; [by eapply refresh_check_limit|]. rewrite <- Hl, <- Hr. apply IH.
Qed.

(** The set of the last fetch that succeeded. *)
Fixpoint last_fetched (c : JWKSCache) (last : list (string * Key)) (ks : list call) : list (string * Key) :=
  match ks with
  | [] => last
  | k :: ks =>
      let asked := (GetKey (c_times k) (c_issuer k) (c_kid k) c).2 in
      last_fetched (run_call c k)
        (match c_issuer k with Some set => if asked then set else last | None => last end) ks
  end.

Lemma elem_of_key_map fetched kid key :
  key_map fetched !! kid = Some key → kid ≠ "" ∧ (kid, key) ∈ fetched.
Proof.
  unfold key_map. assert (∀ m : gmap string Key,
    foldl (λ m k, if decide (k.1 = "") then m else <[k.1 := k.2]> m) m fetched !! kid = Some key →
    m !! kid = Some key ∨ kid ≠ "" ∧ (kid, key) ∈ fetched) as Hgen.
  { induction fetched as [|[k v] fetched IH]; intros m Hm; simpl in *; [by left|].
    apply IH in Hm as [Hm|[? ?]]; [|right; split; [done|by right]].
    destruct (decide (k = "")); [by left|]. apply lookup_insert_Some in Hm as [[-> ->]|[_ Hm]]; [|by left].
    right. split; [done|by left]. }
  intros Hk. destruct (Hgen ∅ Hk) as [He|]; [by rewrite lookup_empty in He|done].
Qed.

Lemma run_call_keys c last k :
  keys c = key_map last → keys (run_call c k) = key_map (last_fetched c last [k]).
Proof.
  intros Hc. unfold run_call. simpl.
  destruct (GetKey_cases (c_times k) (c_issuer k) (c_kid k) c) as [[-> ->]|(-> & -> & _)]; [by destruct (c_issuer k)|].
  unfold refresh_finish. destruct (c_issuer k) as [set|]; [|done]. cbv zeta. by destruct (key_map set !! c_kid k).
Qed.

Lemma run_calls_keys ks c last :
  keys c = key_map last → keys (foldl run_call c ks) = key_map (last_fetched c last ks).
Proof.
  revert c last. induction ks as [|k ks IH]; intros c last Hc; [done|]. simpl. apply IH.
  by apply (run_call_keys c last k).
Qed.

(** The key in an answer is the one the cache then holds. *)
Lemma cached_answer_ok t kid c key : cached_answer t kid c = Some (Ok key) → keys c !! kid = Some key.
Proof. unfold cached_answer. cbv zeta. destruct (keys c !! kid); repeat case_match; intros; by simplify_eq. Qed.

Lemma refresh_check_ok t kid c key : refresh_check t kid c = Some (Ok key) → keys c !! kid = Some key.
Proof.
  unfold refresh_check. cbv zeta. destruct (keys c !! kid) as [k|]; [destruct (Time.Before (t_again t) _)|];
    repeat case_match; intros; by simplify_eq.
Qed.

Lemma GetKey_answer t f kid c c' key b :
  GetKey t f kid c = (c', Ok key, b) → kid ≠ "" ∧ keys c' !! kid = Some key.
Proof.
  unfold GetKey. case_decide; [done|]. intros Hg. split; [done|].
  destruct (cached_answer t kid c) as [a|] eqn:Ec; [simplify_eq; by eapply cached_answer_ok|].
  destruct (refresh_check t kid c) as [a|] eqn:Er; [simplify_eq; by eapply refresh_check_ok|].
  revert Hg. unfold refresh_finish. destruct f as [set|]; [|done]. cbv zeta.
  destruct (key_map set !! kid) eqn:E; [|done]. by intros [= <- <- <-].
Qed.

(** A key that is served was published. Over every history of calls from a
    new cache, the key a call returns stands under the asked identifier in the
    last set that was fetched successfully; so a key is gone for good once a
    set without it has been fetched. *)
Theorem served_key_published u d ks k c' key b :
  let c0 := NewJWKSCache u d in
  GetKey (c_times k) (c_issuer k) (c_kid k) (foldl run_call c0 ks) = (c', Ok key, b) →
  c_kid k ≠ "" ∧ (c_kid k, key) ∈ last_fetched c0 [] (ks ++ [k]).
Proof.
  intros c0 Hg. destruct (GetKey_answer _ _ _ _ _ _ _ Hg) as [_ Hk]. apply elem_of_key_map.
  assert (c' = foldl run_call c0 (ks ++ [k])) as ->.
  { rewrite foldl_app. simpl. unfold run_call at 1. by rewrite Hg. }
  by rewrite (run_calls_keys (ks ++ [k]) c0 []) in Hk.
Qed.

(** A key that rotates in stays hidden for the whole refresh limit. After
    a fetch that did not bring a key, every call for it whose clock is within
    the limit of that fetch is refused, whatever the issuer publishes and
    however many other calls run: a minute, not the five seconds at which
    negative entries are capped. *)
Theorem rotated_key_masked c ks k :
  keys c !! c_kid k = None →
  Forall (λ k, Time.Sub (t_since (c_times k)) (lastRefresh c) < refreshLimit c) (ks ++ [k]) →
  ∃ e, GetKey (c_times k) (c_issuer k) (c_kid k) (foldl run_call c ks) = (c, Err e, false).
Proof.
  intros Hk [Hks Hl]%Forall_app. assert (foldl run_call c ks = c) as ->.
  { clear Hk Hl. induction Hks as [|k' ks Hk' _ IH]; [done|]. simpl. replace (run_call c k') with c; [done|].
    unfold run_call. destruct (GetKey_cases (c_times k') (c_issuer k') (c_kid k') c) as [[_ Hs]|(_ & _ & Hn)]; [done|].
    apply refresh_check_limit in Hn. lia. }
  apply Forall_cons in Hl as [Hl _]. unfold GetKey. case_decide; [eauto|]. unfold cached_answer. rewrite Hk.
  destruct (negb _); [eauto|]. unfold refresh_check. rewrite Hk. cbv zeta.
  destruct (match negativeCache c !! c_kid k with Some e => Time.Before _ e | None => false end); [eauto|].
  rewrite (proj2 (Z.ltb_lt _ _)) by done. eauto.
Qed.

(** Between the check and the end of a fetch the lock is free: of two callers
    that overlap, the one that finishes last decides, so an older set can put
    back a key that a newer set no longer has. *)
Lemma late_refresh_reinstates t1 t2 newer older kid kid' key c :
  key_map older !! kid = Some key →
  keys (fst (refresh_finish t2 (Some older) kid' (fst (refresh_finish t1 (Some newer) kid c)))) !! kid = Some key.
Proof.
  intros Ho. unfold refresh_finish. cbv zeta. destruct (key_map newer !! kid), (key_map older !! kid'); done.
Qed.
End keys.

Lemma negativeTTL_bounds j :
  0 ≤ j < negativeCacheJitter → maxNegativeCacheTTL - negativeCacheJitter < negativeTTL j ≤ maxNegativeCacheTTL.
Proof. unfold negativeTTL. lia. Qed.
End Keys.

(** ** The policy engine *)
Module Policy.
Section policy.
Context {Q : Type} (sha256 : string → string) (prepare : string → option Q).
(** The values of the first expressions of the results, when they are
    Booleans; [None] is an evaluation error. *)
Context (eval : Q → string → option (list (option bool))).

Record OPAPolicyEngine := { policyQuery : option Q; expectedHash : string }.

(** [data] is the content of the policy file, if it can be read. *)
Definition loadPolicy (data : option string) (e : OPAPolicyEngine) : OPAPolicyEngine * bool :=
  let set q := {| policyQuery := q; expectedHash := expectedHash e |} in
  match data with
  | None => (set None, false)
  | Some data =>
      if decide (expectedHash e ≠ "" ∧ hex_encode (sha256 data) ≠ expectedHash e) then (set None, false)
      else match prepare data with
           | None => (set None, false)
           | Some query => (set (Some query), true)
           end
  end.

Definition NewOPAPolicyEngine (hash : string) (data : option string) : option OPAPolicyEngine :=
  match loadPolicy data {| policyQuery := None; expectedHash := hash |} with
  | (e, true) => Some e
  | (_, false) => None
  end.

Definition Authorize (token : string) (e : OPAPolicyEngine) : result unit bool :=
  match policyQuery e with
  | None => Ok false
  | Some query =>
      match eval query token with
      | None => Err ()
      | Some [] => Ok false
      | Some (None :: _) => Ok false
      | Some (Some allow :: _) => Ok allow
      end
  end.

(** [watchSignals]: every hang-up signal reloads the file. *)
Definition after_signals (e : OPAPolicyEngine) (files : list (option string)) : OPAPolicyEngine :=
  foldl (λ e d, fst (loadPolicy d e)) e files.

(** The policy engine fails closed. A token is allowed only by the policy
    in the file of the last load, which could be read, has the expected hash
    where one is configured, and was prepared; a load that fails in any way
    denies everyone until the next. *)
Theorem Authorize_fails_closed hash file0 files token e0 :
  NewOPAPolicyEngine hash file0 = Some e0 →
  Authorize token (after_signals e0 files) = Ok true →
  ∃ data query, last (file0 :: files) = Some (Some data) ∧
    (hash = "" ∨ hex_encode (sha256 data) = hash) ∧ prepare data = Some query ∧
    ∃ rest, eval query token = Some (Some true :: rest).
Proof.
  intros Hnew Ha.
  assert (∃ e, expectedHash e = hash ∧ ∃ d, last (file0 :: files) = Some d ∧
            after_signals e0 files = fst (loadPolicy d e)) as (e & He & d & Hd & Hl).
  { unfold NewOPAPolicyEngine in Hnew. destruct (loadPolicy file0 _) as [e1 []] eqn:E1; [|done]. injection Hnew as ->.
    assert (∀ d e, expectedHash (fst (loadPolicy d e)) = expectedHash e) as Hkeep.
    { intros d e. unfold loadPolicy. repeat case_match; done. }
    destruct files as [|f files _] using rev_ind.
    - exists {| policyQuery := None; expectedHash := hash |}. split; [done|]. exists file0. by rewrite E1.
    - exists (after_signals e0 files). split.
      + assert (expectedHash e0 = hash) as <- by (pose proof (Hkeep file0 {| policyQuery := None; expectedHash := hash |}) as K; by rewrite E1 in K).
        clear -Hkeep. unfold after_signals. revert e0. induction files as [|f fs IH]; intros e0; [done|]. simpl.
        by rewrite IH, Hkeep.
      + exists f. rewrite app_comm_cons, last_snoc. split; [done|]. unfold after_signals. by rewrite foldl_app. }
  rewrite Hl in Ha. rewrite Hd. unfold loadPolicy, Authorize in Ha. rewrite He in Ha.
  destruct d as [data|]; [|done]. case_decide as Hh; [done|]. destruct (prepare data) as [q|] eqn:Ep; [|done]. simpl in Ha.
  destruct (eval q token) as [[|[b|] rest]|] eqn:Ee; try done. injection Ha as ->.
  exists data, q. split_and!; [done| |done|eauto].
  destruct (decide (hash = "")); [by left|right]. apply dec_stable. intros Hne. by apply Hh.
Qed.
End policy.
End Policy.

(** ** Concrete requests, tokens and keys *)
Module Runs.
Import Roles Strict Verifiers Keys Policy.

Definition claims_fields (c : Claims) :=
  ((UserID c, Email c, claims_Role c, claims_Roles c), (MerchantID c, TenantID c, Issuer c, Audience c),
   (ExpiresAt c, NotBefore c, IssuedAt c, Subject c)).
#[local] Instance Claims_eq_dec : EqDecision Claims.
Proof. solve_decision. Defined.
#[local] Instance Claims_countable : Countable Claims.
Proof.
  refine (inj_countable' claims_fields
    (λ '((a, b, c, d), (e, f, g, h), (i, j, k, l)), {| UserID := a; Email := b; claims_Role := c; claims_Roles := d;
       MerchantID := e; TenantID := f; Issuer := g; Audience := h; ExpiresAt := i; NotBefore := j; IssuedAt := k;
       Subject := l |}) _).
  by intros [].
Defined.

(** A stand-in JSON: the number of the claims, in digits. *)
Definition claims_text (c : Claims) : string := digits (encode c).
Definition claims_of_text (s : string) : option Claims := decode (undigits s).
Lemma claims_text_reads c : claims_of_text (claims_text c) = Some c.
Proof. unfold claims_of_text, claims_text. by rewrite undigits_digits, decode_encode. Qed.

Definition hs256 : jwtHeader := {| Alg := "HS256"; Kid := "" |}.
Definition header_of_text (s : string) : option jwtHeader := if decide (s = "hs") then Some hs256 else None.
Definition mark_mac (k s : string) : string := k +:+ "|" +:+ s.

Lemma token_roundtrip_witness :
  let c := {| UserID := "u"; Email := "e"; claims_Role := RoleAdmin; claims_Roles := []; MerchantID := "";
              TenantID := "t"; Issuer := "i"; Audience := ["a"]; ExpiresAt := Some 5; NotBefore := None;
              IssuedAt := Some 1; Subject := "u" |} in
  HMAC_Verify header_of_text claims_of_text mark_mac None "k" (SignedString mark_mac "hs" claims_text "k" c) = Ok c ∧
  HMAC_Verify header_of_text claims_of_text mark_mac None "x" (SignedString mark_mac "hs" claims_text "k" c) =
    Err InvalidSignature.
Proof.
  intros c.
  destruct (token_roundtrip header_of_text claims_of_text mark_mac None "hs" claims_text hs256 eq_refl eq_refl
              claims_text_reads "k" "x" c eq_refl) as [H1 H2].
  split; [exact H1|]. apply H2. discriminate.
Defined.

(** A cache of one key that never needs a refresh. *)
#[local] Instance one_key : keyCache string string := {
  cache_Get c kid := (c, if decide (kid = "k1") then Some c else None);
  cache_Refresh c := (c, true);
}.

Lemma verified_authentic_witness :
  let c := generated_claims (λ t, t) (NewTokenGenerator "k") "u" "e" RoleUser "t" 9 1 in
  let tok := SignedString mark_mac "hs" claims_text "k" c in
  ∃ h p s, segments tok h p s ∧ DecodeString s = Some (mark_mac "k" (h +:+ "." +:+ p)).
Proof.
  intros c tok.
  assert (NewVerifier_Verify header_of_text claims_of_text mark_mac (λ s, s) None (λ k d s : string, false) "k" "" tok "pub"
          = ("pub", Ok c)) as E.
  { unfold NewVerifier_Verify. rewrite decide_True by done. unfold tok.
    by rewrite (token_verifies header_of_text claims_of_text mark_mac None "hs" claims_text hs256 eq_refl eq_refl
                  claims_text_reads "k" c eq_refl). }
  destruct (verified_authentic _ _ _ _ _ _ _ _ _ _ _ _ E) as (h & p & s & header & sig & Hseg & _ & Hd & _ & Hs & _).
  rewrite decide_True in Hs by done. destruct Hs as [_ Hsig]. exists h, p, s. split; [exact Hseg|]. by rewrite Hd, Hsig.
Defined.

Definition strict_cfg : Config :=
  {| Secret := "0123456789abcdef0123456789abcdef"; cfg_Issuer := "stellarbill-backend"; cfg_Audience := "api-clients";
     Algorithm := "HS256"; ClockSkewSec := 60; MaxTokenAge := 0 |}.

Lemma expired_token_verifies_witness :
  ∃ claims, HMAC_Verify header_of_text claims_of_text mark_mac None "k"
      (GenerateExpiredToken mark_mac "hs" claims_text (λ t, t) (NewTokenGenerator "k") 0 0 "u" "e" RoleUser) = Ok claims ∧
    validateClaimsStrict strict_cfg claims 0 = Some TokenExpired.
Proof.
  apply (expired_token_verifies header_of_text claims_of_text mark_mac None "hs" claims_text (λ t, t) hs256 eq_refl
           eq_refl claims_text_reads strict_cfg (NewTokenGenerator "k")); try reflexivity; lia.
Defined.

Lemma validateClaimsStrict_exact_witness :
  let c := generated_claims (λ t, t) (NewTokenGenerator "k") "u" "e" RoleUser "t" 0 0 in
  validateClaimsStrict strict_cfg c (60 * Time.Second) = None.
Proof.
  intros c. apply (validateClaimsStrict_exact strict_cfg c (60 * Time.Second)); [reflexivity|].
  split_and!; [done|by left| |done|reflexivity]. exists 0. split; [done|]. vm_compute. discriminate.
Defined.

Definition all_at (t : Time) : key_times :=
  {| t_expired := t; t_neg_expired := t; t_again := t; t_neg_again := t; t_since := t; t_failed := t; t_expiry := t;
     t_refreshed := t; t_negative := t; jitter := 0 |}.
Definition ask (t : Time) (set : list (string * string)) (kid : string) : call :=
  {| c_times := all_at t; c_issuer := Some set; c_kid := kid |}.
Definition cache0 : JWKSCache (Key := string) := NewJWKSCache "https://issuer" (3600 * Time.Second).

Lemma served_key_published_witness :
  ("k1", "new") ∈ last_fetched cache0 []
    ([ask 0 [("k1", "old")] "k1"; ask (4000 * Time.Second) [("k1", "new")] "k1"] ++ [ask (4001 * Time.Second) [] "k1"]).
Proof.
  assert (GetKey (all_at (4001 * Time.Second)) (Some []) "k1"
            (foldl run_call cache0 [ask 0 [("k1", "old")] "k1"; ask (4000 * Time.Second) [("k1", "new")] "k1"]) =
          (foldl run_call cache0 [ask 0 [("k1", "old")] "k1"; ask (4000 * Time.Second) [("k1", "new")] "k1"], Ok "new", false))
    as E by (vm_compute; reflexivity).
  apply (served_key_published "https://issuer" (3600 * Time.Second) _ (ask (4001 * Time.Second) [] "k1") _ _ _ E).
Defined.

Lemma rotated_key_masked_witness :
  let c := run_call cache0 (ask 0 [("k1", "old")] "k1") in
  ∃ e, GetKey (all_at (59 * Time.Second)) (Some [("k2", "rotated")]) "k2"
         (foldl run_call c [ask (30 * Time.Second) [("k2", "rotated")] "k2"]) = (c, Err e, false).
Proof.
  intros c. apply (rotated_key_masked c [ask (30 * Time.Second) [("k2", "rotated")] "k2"]
                     (ask (59 * Time.Second) [("k2", "rotated")] "k2")).
  - vm_compute. reflexivity.
  - repeat constructor.
Defined.

Lemma Authorize_fails_closed_witness :
  ∃ data query, last [Some "allow"; None; Some "allow"] = Some (Some data) ∧
    ("" = "" ∨ hex_encode data = "") ∧ Some data = Some query ∧ ∃ rest, Some [Some true] = Some (Some true :: rest).
Proof.
  apply (Authorize_fails_closed (λ s, s) Some (λ _ _, Some [Some true]) "" (Some "allow") [None; Some "allow"] "t"
           {| policyQuery := Some "allow"; expectedHash := "" |}); reflexivity.
Defined.
End Runs.
