(* ===== verification/Routes.v ===== *)
(** * The route table

    Models the registration of the HTTP routes in [internal/routes/routes.go]
    with the middleware of each group, and [internal/middleware/auth.go], the
    middleware that stands for authentication. Of the other middleware only
    whether it stops the request matters here; none of it puts roles into the
    context. *)
From Stdlib Require Import ZArith Lia Ascii String.
From stdpp Require Import base gmap strings list.
From S2P Require Import Prelude GoStrings GoFloat GoBase64 Auth.
Import Auth.Roles.
#[local] Open Scope string_scope.
#[local] Open Scope Z_scope.

(** ** [internal/middleware/auth.go] *)

(** [AuthMiddleware] performs no token validation. *)
Definition AuthMiddleware (c : Context) : gate := Next c.

(** Values of a claim map. *)
Inductive claim_value := CStrings (l : list string) | CList (l : list (option string)) | CString (s : string) | COther.

Definition extractRolesFromClaims (claims : gmap string claim_value) : list string :=
  let single := match claims !! "role" with
                | Some (CString s) => if decide (s = "") then [] else [s]
                | _ => []
                end in
  match claims !! "roles" with
  | Some (CStrings l) => l
  | Some (CList l) => omap (λ x, x) l
  | _ => single
  end.

(** ** Chains of middleware *)
Inductive mw :=
| Globals
| Authenticate
| TenantRate
| CSPRate
| Deprecated
| Require (p : Permission)
| WebhookCheck (provider : string)
| IdempotencyKeys.

Record route := { method : string; path : string; chain : list mw; handler : string }.

(** [stops m] is the status with which the middleware [m] ends the request, if
    it does. *)
Definition step (stops : mw → option Z) (m : mw) (c : Context) : gate :=
  match m with
  | Authenticate => AuthMiddleware c
  | Require p => RequirePermission p c
  | m => match stops m with Some status => Abort status | None => Next c end
  end.

Fixpoint run_chain (stops : mw → option Z) (ms : list mw) (c : Context) : gate :=
  match ms with
  | [] => Next c
  | m :: ms => match step stops m c with Abort status => Abort status | Next c => run_chain stops ms c end
  end.

(** ** [Register] *)
Definition group (pre : list mw) (l : list (string * string * list mw * string)) : list route :=
  map (λ '(m, p, ms, h), {| method := m; path := p; chain := (Globals :: pre ++ ms)%list; handler := h |}) l.

Definition public_routes : list route :=
  group []
    [ ("GET", "/api/health", [Deprecated], "LivenessProbe"); ("GET", "/api/v1/health", [], "LivenessProbe");
      ("GET", "/api/liveness", [], "LivenessProbe"); ("GET", "/api/readiness", [], "ReadinessProbe");
      ("GET", "/metrics", [], "promhttp"); ("POST", "/api/admin/login", [], "Login");
      ("GET", "/internal/config-dump", [], "ConfigDump") ].

Definition v1_routes : list route :=
  group [Authenticate; TenantRate]
    [ ("GET", "/api/v1/subscriptions", [], "ListSubscriptions");
      ("GET", "/api/v1/subscriptions/:id", [], "GetSubscription");
      ("PATCH", "/api/v1/subscriptions/:id", [], "PatchSubscription");
      ("GET", "/api/v1/subscriptions/:id/events", [], "GetSubscriptionEvents");
      ("GET", "/api/v1/plans", [], "ListPlans");
      ("PATCH", "/api/v1/plans/:id", [], "PatchPlan");
      ("GET", "/api/v1/statements/:id", [], "GetStatement");
      ("GET", "/api/v1/statements", [], "ListStatements");
      ("POST", "/api/v1/tenants/me/export", [], "TenantExport");
      ("GET", "/api/v1/operations/:id", [], "OperationStatus");
      ("POST", "/api/v1/csp-reports", [CSPRate], "CSPReport") ].

Definition legacy_routes : list route :=
  group [Authenticate; TenantRate]
    [ ("GET", "/api/plans", [Deprecated; Require PermReadPlans], "ListPlans");
      ("GET", "/api/subscriptions", [Deprecated; Require PermReadSubscriptions], "ListSubscriptions");
      ("GET", "/api/subscriptions/:id", [Deprecated; Require PermReadSubscriptions], "GetSubscription");
      ("GET", "/api/statements/:id", [], "GetStatement");
      ("GET", "/api/statements", [], "ListStatements") ].

Definition webhook_routes : list route :=
  group []
    [ ("POST", "/api/webhooks/stripe", [WebhookCheck "stripe"], "Receive");
      ("POST", "/api/webhooks/generic", [WebhookCheck "generic"], "Receive");
      ("POST", "/webhooks", [WebhookCheck ""], "Receive") ].

Definition admin_routes : list route :=
  group [Authenticate]
    [ ("POST", "/api/admin/purge", [], "PurgeCache");
      ("GET", "/api/admin/diagnostics", [Require PermManageSubscriptions], "Diagnostics");
      ("GET", "/api/admin/config-dump", [Require PermManageSubscriptions], "ConfigDump");
      ("POST", "/api/admin/reconcile", [Require PermManageSubscriptions], "Reconcile");
      ("GET", "/api/admin/reports", [Require PermManageSubscriptions], "ListReports");
      ("GET", "/api/admin/outbox/dead-letter", [Require PermManageReconciliation], "ListDeadLetteredEvents");
      ("POST", "/api/admin/outbox/:id/requeue", [Require PermManageReconciliation; IdempotencyKeys], "RequeueOutboxEvent") ].

Definition Register : list route := public_routes ++ v1_routes ++ legacy_routes ++ webhook_routes ++ admin_routes.

(** ** What the table enforces *)
Definition guarded (r : route) : bool := existsb (λ m, match m with Require _ => true | _ => false end) (chain r).

Lemma run_chain_unguarded stops ms c :
  Forall (λ m, stops m = None) ms → existsb (λ m, match m with Require _ => true | _ => false end) ms = false →
  run_chain stops ms c = Next c.
Proof.
  induction 1 as [|m ms Hm _ IH]; simpl; [done|]. intros [Hr Hms]%orb_false_iff.
  destruct m; simpl in *; rewrite ?Hm; try done; by apply IH.
Qed.

Lemma run_chain_anonymous stops ms :
  existsb (λ m, match m with Require _ => true | _ => false end) ms = true → ∃ status, run_chain stops ms ∅ = Abort status.
Proof.
  induction ms as [|m ms IH]; simpl; [done|]. intros Hr. destruct m; simpl in *; eauto;
    destruct (stops _); eauto.
Qed.

(** Authentication is all or nothing. Of the registered routes, those that
    ask for a permission are never reached, whoever calls, since the
    authentication middleware puts no role into the context; all others are
    reached by everybody the other middleware lets pass, with the context as
    it came: no token is ever looked at. Among these are the routes that change
    subscriptions and plans and the export of a tenant's data. *)
Theorem routes_need_no_token stops :
  Forall (λ r, if guarded r then ∃ status, run_chain stops (chain r) ∅ = Abort status
               else ∀ c, Forall (λ m, stops m = None) (chain r) → run_chain stops (chain r) c = Next c) Register ∧
  map (λ r, (method r, path r)) (filter (λ r, guarded r = false ∧ method r ≠ "GET") Register) =
    [("POST", "/api/admin/login"); ("PATCH", "/api/v1/subscriptions/:id"); ("PATCH", "/api/v1/plans/:id");
     ("POST", "/api/v1/tenants/me/export"); ("POST", "/api/v1/csp-reports"); ("POST", "/api/webhooks/stripe");
     ("POST", "/api/webhooks/generic"); ("POST", "/webhooks"); ("POST", "/api/admin/purge")].
Proof.
  split; [|vm_compute; reflexivity]. apply Forall_forall. intros r _. unfold guarded. destruct (existsb _ (chain r)) eqn:E.
  - by apply run_chain_anonymous.
  - intros c Hs. by apply run_chain_unguarded.
Qed.

(** The matrix of expected answers says that customers may not list plans; with
    a customer's role in the context the gate lets them. *)
Lemma customer_lists_plans stops c :
  Forall (λ m, stops m = None) [Globals; TenantRate; Deprecated] → c !! RolesContextKey = Some (VStrings [RoleCustomer]) →
  ∃ c', run_chain stops [Globals; Authenticate; TenantRate; Deprecated; Require PermReadPlans] c = Next c'.
Proof.
  intros (Hg & (Ht & (Hd & _)%Forall_cons)%Forall_cons)%Forall_cons Hc.
  assert (ExtractRoles c = [RoleCustomer]) as Hr.
  { unfold ExtractRoles, rolesFromContext, named_roles. rewrite Hc. vm_compute. reflexivity. }
  cbn [run_chain step]. rewrite Hg, Ht, Hd. unfold AuthMiddleware, RequirePermission. rewrite Hr.
  eexists. reflexivity.
Qed.
