(* ===== verification/TailSampling.v ===== *)
(** * Tail sampling of traces

    Models [internal/tracing/tail_sampling.go]: its configuration, the sampler
    that records every span with the head decision, and the processor that
    buffers the spans of a trace until its root has ended, with bounds on
    traces, spans and remembered decisions.

    A span is what the processor reads of it. The operations of the processor
    run under its lock; each returns the spans it hands on. *)
From Stdlib Require Import ZArith Lia Ascii String.
From stdpp Require Import base gmap strings list.
From S2P Require Import Prelude GoStrings GoFloat.
#[local] Open Scope string_scope.
#[local] Open Scope Z_scope.

(** ** Spans *)
Inductive attr_value := AInt (n : Z) | ABool (b : bool) | AString (s : string) | AOther.

Record span := {
  TraceID : string;
  parent_valid : bool;
  kind_server : bool;
  attributes : list (string * attr_value);
  status_error : bool;
  events : list string;
  StartTime : Time;
  EndTime : Time;
}.

Definition headSampledAttribute : string := "tracing.tail.head_sampled".
Definition headSampledTraceState : string := "sttail".

Definition isDecisionRoot (s : span) : bool := negb (parent_valid s) || kind_server s.

Definition headSampled (spans : list span) : bool :=
  existsb (λ s, existsb (λ '(k, v), bool_decide (k = headSampledAttribute) &&
                         match v with ABool b => b | _ => false end) (attributes s)) spans.

Definition error_key (k : string) : bool :=
  let key := ToLower k in
  bool_decide (key = "error") || bool_decide (key = "error.type") || HasPrefix key "error.".

Definition hasErrorSignal (s : span) : bool :=
  existsb (λ '(k, v), error_key k &&
    match v with ABool b => b | AString t => bool_decide (t ≠ "") | _ => true end) (attributes s) ||
  existsb (λ e, bool_decide (e = "exception")) (events s).

(** ** Configuration *)
Record tailConfig := {
  enabled : bool;
  latency : Duration;
  baselineRate : float64;
  maxTraces : Z;
  maxSpans : Z;
  decisionWindow : Duration;
}.

Definition maxAllowedLatencyMS : Z := 600000.

Section config.
(** [strconv.ParseFloat] and [time.ParseDuration]. *)
Context (ParseFloat : string → option float64) (ParseDuration : string → option Duration).

Definition default_config : tailConfig :=
  {| enabled := false; latency := 500 * Time.Millisecond; baselineRate := f_of_int 0; maxTraces := 10000;
     maxSpans := 500; decisionWindow := 10 * Time.Second |}.

Definition positive_int (v : string) (old : Z) : Z :=
  if decide (v = "") then old
  else match ParseInt v with Some n => if 0 <? n then n else old | None => old end.
Definition positive_duration (v : string) (old : Duration) : Duration :=
  if decide (v = "") then old
  else match ParseDuration v with Some d => if 0 <? d then d else old | None => old end.

(** [Err v] names the variable whose value is refused. *)
Definition tailConfigFromEnv (getenv : string → string) : result string tailConfig :=
  let mode := ToLower (TrimSpace (getenv "TRACING_TAIL_ENABLED")) in
  if decide (mode ∈ [""; "false"; "0"; "no"]) then Ok default_config
  else if decide (mode ∉ ["true"; "1"; "yes"]) then Err "TRACING_TAIL_ENABLED"
  else
    let v := getenv "TRACING_TAIL_LATENCY_MS" in
    match (if decide (v = "") then Some (latency default_config)
           else match ParseInt v with
                | Some ms => if (ms <=? 0) || (maxAllowedLatencyMS <? ms) then None else Some (ms * Time.Millisecond)
                | None => None
                end) with
    | None => Err "TRACING_TAIL_LATENCY_MS"
    | Some lat =>
        let r := getenv "TRACING_TAIL_ERROR_RATE" in
        match (if decide (r = "") then Some (baselineRate default_config)
               else match ParseFloat r with
                    | Some rate => if f_lt rate (f_of_int 0) || f_lt (f_of_int 1) rate then None else Some rate
                    | None => None
                    end) with
        | None => Err "TRACING_TAIL_ERROR_RATE"
        | Some rate =>
            Ok {| enabled := true;
                  latency := if decide (v = "") then positive_duration (getenv "TAIL_LATENCY_THRESHOLD") lat else lat;
                  baselineRate := rate;
                  maxTraces := positive_int (getenv "TAIL_MAX_TRACES") (maxTraces default_config);
                  maxSpans := positive_int (getenv "TAIL_MAX_SPANS") (maxSpans default_config);
                  decisionWindow := positive_duration (getenv "TAIL_DECISION_WINDOW") (decisionWindow default_config) |}
        end
    end.
End config.

(** ** The sampler

    [delegate] is the head decision, [inherited] the value the parent's trace
    state has under [headSampledTraceState]. The span is always recorded; the
    answer is the attribute and the value put into the trace state. *)
Definition ShouldSample (delegate : bool) (inherited : string) : bool * (string * attr_value) * string :=
  let sampled := if decide (inherited = "") then delegate else bool_decide (inherited = "1") in
  (true, (headSampledAttribute, ABool sampled), if sampled then "1" else "0").

(** ** The processor *)
Record bufferedTrace := { spans : list span; firstSeen : Time }.
Record traceDecision := { keep : bool; expiresAt : Time }.

Record tailSpanProcessor := {
  traces : gmap string bufferedTrace;
  decisions : gmap string traceDecision;
  order : list string;
  stopped : bool;
}.

Definition newTailSpanProcessor : tailSpanProcessor :=
  {| traces := ∅; decisions := ∅; order := []; stopped := false |}.

Section processor.
Context `{GoRuntime} (cfg : tailConfig).

Definition shouldKeep (root : span) : bool :=
  headSampled [root] ||
  (latency cfg <=? Time.Sub (EndTime root) (StartTime root)) ||
  (status_error root || hasErrorSignal root) ||
  existsb (λ '(k, v), (bool_decide (k = "http.response.status_code") || bool_decide (k = "http.status_code")) &&
                      match v with AInt n => 500 <=? n | _ => false end) (attributes root).

Definition removeTraceLocked (id : string) (p : tailSpanProcessor) : tailSpanProcessor :=
  match traces p !! id with
  | None => p
  | Some _ => {| traces := delete id (traces p); decisions := decisions p; order := filter (λ x, x ≠ id) (order p);
                 stopped := stopped p |}
  end.

(** When the table is full, the first entry the iteration meets makes room. *)
Definition addDecisionLocked (id : string) (k : bool) (now : Time) (p : tailSpanProcessor) : tailSpanProcessor :=
  let ds := decisions p in
  let ds :=
    match ds !! id with
    | Some _ => ds
    | None =>
        if maxTraces cfg <=? Z.of_nat (size ds)
        then match map_range ds with [] => ds | (candidate, _) :: _ => delete candidate ds end
        else ds
    end in
  {| traces := traces p;
     decisions := <[id := {| keep := k; expiresAt := Time.Add now (decisionWindow cfg) |}]> ds;
     order := order p; stopped := stopped p |}.

Definition evictOldestLocked (now : Time) (p : tailSpanProcessor) : tailSpanProcessor :=
  match order p with
  | [] => p
  | id :: _ => addDecisionLocked id false now (removeTraceLocked id p)
  end.

(** The buffer of a trace, made if need be; [now2] is the reading of an
    eviction. *)
Definition open_buffer (now now2 : Time) (id : string) (p : tailSpanProcessor) : tailSpanProcessor * bufferedTrace :=
  match traces p !! id with
  | Some b => (p, b)
  | None =>
      let p := if maxTraces cfg <=? Z.of_nat (size (traces p)) then evictOldestLocked now2 p else p in
      let b := {| spans := []; firstSeen := now |} in
      ({| traces := <[id := b]> (traces p); decisions := decisions p; order := (order p ++ [id])%list;
          stopped := stopped p |}, b)
  end.

(** The span goes into the buffer; a root replaces the last span of a full one. *)
Definition add_span (s : span) (b : bufferedTrace) : bufferedTrace :=
  if Z.of_nat (length (spans b)) <? maxSpans cfg
  then {| spans := (spans b ++ [s])%list; firstSeen := firstSeen b |}
  else if isDecisionRoot s
  then {| spans := (take (length (spans b) - 1) (spans b) ++ [s])%list; firstSeen := firstSeen b |}
  else b.

Definition set_buffer (id : string) (b : bufferedTrace) (p : tailSpanProcessor) : tailSpanProcessor :=
  {| traces := <[id := b]> (traces p); decisions := decisions p; order := order p; stopped := stopped p |}.

Definition OnEnd (now now2 : Time) (s : span) (p : tailSpanProcessor) : tailSpanProcessor * list span :=
  let id := TraceID s in
  if stopped p then (p, [])
  else match decisions p !! id with
  | Some d =>
      if negb (keep d) && isDecisionRoot s && shouldKeep s then (addDecisionLocked id true now p, [s])
      else (p, if keep d then [s] else [])
  | None =>
      let '(p, b) := open_buffer now now2 id p in
      let b := add_span s b in
      let p := set_buffer id b p in
      if negb (isDecisionRoot s) then (p, [])
      else
        let k := shouldKeep s in
        (addDecisionLocked id k now (removeTraceLocked id p), if k then spans b else [])
  end.

(** One trace of the loop of [expire]. *)
Definition expire_trace (now : Time) (all : bool) (acc : tailSpanProcessor * list span) (t : string * bufferedTrace)
    : tailSpanProcessor * list span :=
  if negb all && (Time.Sub now (firstSeen t.2) <? decisionWindow cfg) then acc
  else
    let k := headSampled (spans t.2) in
    (removeTraceLocked t.1 (addDecisionLocked t.1 k now acc.1), (acc.2 ++ if k then spans t.2 else [])%list).

Definition expire (now : Time) (all : bool) (p : tailSpanProcessor) : tailSpanProcessor * list span :=
  let '(p, retained) := foldl (expire_trace now all) (p, []) (map_range (traces p)) in
  ({| traces := traces p;
      decisions := filter (λ d, ¬ (all = true ∨ Time.After (expiresAt d.2) now = false)) (decisions p);
      order := order p; stopped := stopped p |}, retained).

Definition ForceFlush (now : Time) (p : tailSpanProcessor) : tailSpanProcessor * list span := expire now true p.

(** [Shutdown], when the loop has ended before the context does. *)
Definition Shutdown (now : Time) (p : tailSpanProcessor) : tailSpanProcessor * list span :=
  expire now true {| traces := traces p; decisions := decisions p; order := order p; stopped := true |}.

(** ** Histories *)
Inductive op := End (now now2 : Time) (s : span) | Tick (now : Time) | Flush (now : Time) | Stop (now : Time).

Definition run_op (o : op) (p : tailSpanProcessor) : tailSpanProcessor * list span :=
  match o with
  | End now now2 s => OnEnd now now2 s p
  | Tick now => expire now false p
  | Flush now => ForceFlush now p
  | Stop now => Shutdown now p
  end.

Fixpoint run (os : list op) (p : tailSpanProcessor) : tailSpanProcessor * list span :=
  match os with
  | [] => (p, [])
  | o :: os => let '(p, out) := run_op o p in let '(p, out') := run os p in (p, (out ++ out')%list)
  end.

Definition ended (os : list op) : list span := omap (λ o, match o with End _ _ s => Some s | _ => None end) os.

(** ** Bounded memory *)
Record inv (p : tailSpanProcessor) : Prop := {
  i_order : ∀ id, id ∈ order p ↔ is_Some (traces p !! id);
  i_nodup : NoDup (order p);
  i_traces : Z.of_nat (size (traces p)) ≤ maxTraces cfg;
  i_decisions : Z.of_nat (size (decisions p)) ≤ maxTraces cfg;
  i_spans : ∀ id b, traces p !! id = Some b →
    Z.of_nat (length (spans b)) ≤ maxSpans cfg ∧ Forall (λ s, TraceID s = id) (spans b);
  i_apart : ∀ id, traces p !! id = None ∨ decisions p !! id = None;
}.

Context (traces_pos : 0 < maxTraces cfg) (spans_pos : 0 < maxSpans cfg).

Lemma inv_new : inv newTailSpanProcessor.
Proof.
  constructor; simpl.
  - intros id. rewrite lookup_empty. split; [by intros ?%elem_of_nil|by intros [? ?]].
  - constructor.
  - rewrite map_size_empty. lia.
  - rewrite map_size_empty. lia.
  - intros id b. by rewrite lookup_empty.
  - intros id. left. apply lookup_empty.
Qed.

Lemma traces_remove id p : traces (removeTraceLocked id p) = delete id (traces p).
Proof.
  unfold removeTraceLocked. destruct (traces p !! id) eqn:E; [done|]. by rewrite delete_id.
Qed.

Lemma filter_ne (id : string) (l : list string) : id ∉ l → filter (λ x, x ≠ id) l = l.
Proof.
  induction l as [|y l IH]; [done|]. rewrite not_elem_of_cons. intros [Hy Hl]. rewrite filter_cons, decide_True by congruence.
  by rewrite IH.
Qed.

Lemma remove_inv id p : inv p → inv (removeTraceLocked id p).
Proof.
  intros [H1 H2 H3 H4 H5 H6]. pose proof (traces_remove id p) as Ht.
  assert (decisions (removeTraceLocked id p) = decisions p) as Hd by (unfold removeTraceLocked; by case_match).
  assert (order (removeTraceLocked id p) = filter (λ x, x ≠ id) (order p)) as Ho.
  { unfold removeTraceLocked. destruct (traces p !! id) eqn:E; [done|]. symmetry. apply filter_ne.
    rewrite H1, E. by intros []. }
  constructor; rewrite ?Ht, ?Hd, ?Ho.
  - intros x. rewrite list_elem_of_filter, H1. destruct (decide (x = id)) as [->|Hx].
    + rewrite lookup_delete_eq. split; [by intros []|by intros [? ?]].
    + rewrite lookup_delete_ne by done. tauto.
  - by apply NoDup_filter.
  - rewrite map_size_delete. destruct (traces p !! id); unfold Datatypes.id; lia.
  - done.
  - intros x b. rewrite lookup_delete_Some. intros [_ Hb]. by apply H5.
  - intros x. destruct (H6 x) as [Hx|Hx]; [left|by right]. rewrite lookup_delete_None. by right.
Qed.

Lemma decide_size id k now p :
  inv p → Z.of_nat (size (decisions (addDecisionLocked id k now p))) ≤ maxTraces cfg.
Proof.
  intros Hi. pose proof (i_decisions p Hi) as Hd. unfold addDecisionLocked. cbn [decisions].
  destruct (decisions p !! id) eqn:E; [rewrite map_size_insert_Some by eauto; done|].
  destruct (maxTraces cfg <=? Z.of_nat (size (decisions p))) eqn:Ef.
  - destruct (map_range (decisions p)) as [|[cand d] l] eqn:El.
    + pose proof (length_map_range (decisions p)) as Hl. rewrite El in Hl. simpl in Hl. lia.
    + assert (decisions p !! cand = Some d) as Hc by (apply elem_of_map_range; rewrite El; by left).
      assert (cand ≠ id) by congruence.
      rewrite map_size_insert_None by (by rewrite lookup_delete_ne).
      rewrite map_size_delete_Some by eauto. lia.
  - rewrite map_size_insert_None by done. lia.
Qed.

Lemma decide_lookup id k now p x :
  x ≠ id → decisions p !! x = None → decisions (addDecisionLocked id k now p) !! x = None.
Proof.
  intros Hx Hn. unfold addDecisionLocked. cbn [decisions]. rewrite lookup_insert_ne by done.
  repeat case_match; try done. rewrite lookup_delete_None. by right.
Qed.

Lemma decide_inv id k now p : inv p → traces p !! id = None → inv (addDecisionLocked id k now p).
Proof.
  intros Hi Hid. pose proof (decide_size id k now p Hi) as Hs. destruct Hi as [H1 H2 H3 H4 H5 H6].
  constructor; [done|done|done|done|done|]. intros x. destruct (decide (x = id)) as [->|Hx]; [by left|].
  destruct (H6 x); [by left|right]. by apply decide_lookup.
Qed.

Lemma evict_inv now p : inv p → inv (evictOldestLocked now p).
Proof.
  intros Hi. unfold evictOldestLocked. destruct (order p) as [|id l]; [done|].
  apply decide_inv; [by apply remove_inv|]. rewrite traces_remove. apply lookup_delete_eq.
Qed.

Lemma evict_room now p :
  inv p → maxTraces cfg ≤ Z.of_nat (size (traces p)) →
  Z.of_nat (size (traces (evictOldestLocked now p))) < maxTraces cfg.
Proof.
  intros Hi Hf. pose proof (i_traces p Hi). unfold evictOldestLocked. destruct (order p) as [|id l] eqn:Eo.
  - destruct (decide (traces p = ∅)) as [E|E]; [rewrite E, map_size_empty in Hf; lia|].
    apply map_choose in E as (i & x & Hx). assert (i ∈ order p) as Hin by (apply i_order; eauto).
    rewrite Eo in Hin. by apply elem_of_nil in Hin.
  - change (traces (addDecisionLocked id false now (removeTraceLocked id p))) with (traces (removeTraceLocked id p)).
    rewrite traces_remove, map_size_delete_Some; [|apply (i_order p Hi); rewrite Eo; by left]. lia.
Qed.

Lemma evict_traces now p id : traces p !! id = None → traces (evictOldestLocked now p) !! id = None.
Proof.
  intros Hn. unfold evictOldestLocked. destruct (order p) as [|o l]; [done|].
  change (traces (removeTraceLocked o p) !! id = None). rewrite traces_remove, lookup_delete_None. by right.
Qed.

Lemma evict_decisions now p id :
  inv p → traces p !! id = None → decisions p !! id = None → decisions (evictOldestLocked now p) !! id = None.
Proof.
  intros Hi Ht Hd. unfold evictOldestLocked. destruct (order p) as [|o l] eqn:Eo; [done|].
  apply decide_lookup.
  - intros ->. assert (is_Some (traces p !! o)) as [? ?] by (apply (i_order p Hi); rewrite Eo; by left). congruence.
  - unfold removeTraceLocked. by case_match.
Qed.

(** A buffer put into the table under a trace without decision. *)
Lemma add_trace_inv p id b :
  inv p → traces p !! id = None → decisions p !! id = None → Z.of_nat (size (traces p)) < maxTraces cfg →
  Z.of_nat (length (spans b)) ≤ maxSpans cfg → Forall (λ s, TraceID s = id) (spans b) →
  inv {| traces := <[id := b]> (traces p); decisions := decisions p; order := (order p ++ [id])%list;
         stopped := stopped p |}.
Proof.
  intros [H1 H2 H3 H4 H5 H6] Hn Hd Hs Hb Hf. constructor; simpl; [..|done| |].
  - intros x. rewrite elem_of_app, list_elem_of_singleton, H1, lookup_insert_is_Some'. naive_solver.
  - apply NoDup_app. split_and!; [done| |by apply NoDup_singleton]. intros x Hx ->%list_elem_of_singleton.
    apply H1 in Hx. rewrite Hn in Hx. by destruct Hx.
  - rewrite map_size_insert_None by done. lia.
  - intros x b'. rewrite lookup_insert_Some. intros [[<- <-]|[_ Hb']]; [done|by apply H5].
  - intros x. destruct (decide (x = id)) as [->|Hx]; [by right|]. rewrite lookup_insert_ne by done. apply H6.
Qed.

Lemma set_buffer_inv p id b :
  inv p → is_Some (traces p !! id) → Z.of_nat (length (spans b)) ≤ maxSpans cfg →
  Forall (λ s, TraceID s = id) (spans b) → inv (set_buffer id b p).
Proof.
  intros [H1 H2 H3 H4 H5 H6] Hid Hb Hf. constructor; simpl; [|done| |done| |].
  - intros x. rewrite H1, lookup_insert_is_Some'. naive_solver.
  - by rewrite map_size_insert_Some.
  - intros x b'. rewrite lookup_insert_Some. intros [[<- <-]|[_ Hb']]; [done|by apply H5].
  - intros x. destruct (decide (id = x)) as [<-|Hx].
    + right. destruct (H6 id) as [Hn|]; [rewrite Hn in Hid; by destruct Hid|done].
    + rewrite lookup_insert_ne by done. apply H6.
Qed.

Lemma open_buffer_spec now now2 id p p' b :
  inv p → decisions p !! id = None → open_buffer now now2 id p = (p', b) →
  inv p' ∧ traces p' !! id = Some b ∧ decisions p' !! id = None ∧ stopped p' = stopped p.
Proof.
  intros Hi Hd. unfold open_buffer. destruct (traces p !! id) as [b0|] eqn:E; [intros [= <- <-]; by rewrite E|].
  set (q := if maxTraces cfg <=? _ then evictOldestLocked now2 p else p). intros [= <- <-]. simpl.
  assert (inv q ∧ traces q !! id = None ∧ decisions q !! id = None ∧ Z.of_nat (size (traces q)) < maxTraces cfg ∧
          stopped q = stopped p) as (Hq & Hqt & Hqd & Hqs & Hst).
  { unfold q. destruct (maxTraces cfg <=? _) eqn:Ef; [|split_and!; try done; lia].
    split_and!; [by apply evict_inv|by apply evict_traces|by apply evict_decisions|apply evict_room; [done|lia]|].
    unfold evictOldestLocked. case_match; [done|]. simpl. unfold removeTraceLocked. by case_match. }
  split_and!; [|apply lookup_insert_eq|done|done]. apply add_trace_inv; simpl; try done. lia.
Qed.

Lemma add_span_bounds s b :
  Z.of_nat (length (spans b)) ≤ maxSpans cfg → Forall (λ x, TraceID x = TraceID s) (spans b) →
  Z.of_nat (length (spans (add_span s b))) ≤ maxSpans cfg ∧ Forall (λ x, TraceID x = TraceID s) (spans (add_span s b)).
Proof.
  intros Hl Hf. unfold add_span. destruct (_ <? maxSpans cfg) eqn:E; simpl.
  - split; [rewrite length_app; simpl; lia|]. apply Forall_app. split; [done|]. by repeat constructor.
  - destruct (isDecisionRoot s); simpl; [|done]. split.
    + rewrite length_app, length_take. simpl. lia.
    + apply Forall_app. split; [by apply Forall_take|]. by repeat constructor.
Qed.

Lemma OnEnd_inv now now2 s p : inv p → inv (fst (OnEnd now now2 s p)).
Proof.
  intros Hi. unfold OnEnd. destruct (stopped p); [done|]. destruct (decisions p !! TraceID s) as [d|] eqn:Ed.
  - destruct (negb (keep d) && _ && _); [|done]. apply decide_inv; [done|].
    destruct (i_apart p Hi (TraceID s)); [done|congruence].
  - destruct (open_buffer now now2 (TraceID s) p) as [p1 b] eqn:Eo.
    destruct (open_buffer_spec _ _ _ _ _ _ Hi Ed Eo) as (Hi1 & Hb & Hd1 & _).
    destruct (i_spans p1 Hi1 _ _ Hb) as [Hl Hf]. destruct (add_span_bounds s b Hl Hf) as [Hl' Hf'].
    assert (inv (set_buffer (TraceID s) (add_span s b) p1)) as Hset by (apply set_buffer_inv; eauto).
    destruct (negb (isDecisionRoot s)); [done|].
    apply decide_inv; [by apply remove_inv|]. rewrite traces_remove. apply lookup_delete_eq.
Qed.

(** Deciding and removing touch different tables. *)
Lemma remove_decide_comm id k now p :
  removeTraceLocked id (addDecisionLocked id k now p) = addDecisionLocked id k now (removeTraceLocked id p).
Proof. unfold removeTraceLocked, addDecisionLocked. cbn [traces]. by destruct (traces p !! id). Qed.

Lemma expire_trace_inv now all acc t : inv acc.1 → inv (expire_trace now all acc t).1.
Proof.
  intros Hi. unfold expire_trace. destruct (negb all && _); [done|]. cbn [fst]. rewrite remove_decide_comm.
  apply decide_inv; [by apply remove_inv|]. rewrite traces_remove. apply lookup_delete_eq.
Qed.

Lemma expire_inv now all p : inv p → inv (fst (expire now all p)).
Proof.
  intros Hi. unfold expire.
  assert (∀ l acc, inv acc.1 → inv (foldl (expire_trace now all) acc l).1) as Hfold.
  { intros l. induction l as [|t l IH]; intros acc Ha; [done|]. by apply IH, expire_trace_inv. }
  specialize (Hfold (map_range (traces p)) (p, []) Hi).
  destruct (foldl _ _ _) as [q out]. simpl in *. destruct Hfold as [H1 H2 H3 H4 H5 H6]. constructor; simpl; try done.
  - pose proof (map_size_filter (λ d, ¬ (all = true ∨ Time.After (expiresAt d.2) now = false)) (decisions q)). lia.
  - intros x. destruct (H6 x) as [|Hx]; [by left|right]. rewrite map_lookup_filter_None. by left.
Qed.

Lemma stop_inv p :
  inv p → inv {| traces := traces p; decisions := decisions p; order := order p; stopped := true |}.
Proof. by intros [H1 H2 H3 H4 H5 H6]. Qed.

Lemma run_op_inv o p : inv p → inv (fst (run_op o p)).
Proof.
  intros Hi. destruct o; simpl; [by apply OnEnd_inv|by apply expire_inv|by apply expire_inv|].
  by apply expire_inv, stop_inv.
Qed.

(** ** Spans are passed on at most once *)
Definition buffered (p : tailSpanProcessor) : list span := bag spans (traces p).

Lemma buffered_remove id p :
  buffered p ≡ₚ (match traces p !! id with Some b => spans b | None => [] end ++ buffered (removeTraceLocked id p))%list.
Proof. unfold buffered. rewrite traces_remove. apply bag_delete. Qed.

Lemma evict_buffered now p : buffered (evictOldestLocked now p) ⊆+ buffered p.
Proof.
  unfold evictOldestLocked. destruct (order p) as [|id l]; [done|].
  change (buffered (removeTraceLocked id p) ⊆+ buffered p). rewrite (buffered_remove id p).
  by apply submseteq_inserts_l.
Qed.

Lemma add_span_sub s b : spans (add_span s b) ⊆+ (s :: spans b).
Proof.
  unfold add_span. destruct (_ <? _); simpl; [by rewrite Permutation_app_comm|].
  destruct (isDecisionRoot s); simpl; [|by apply submseteq_cons].
  rewrite Permutation_app_comm. simpl. apply submseteq_skip. apply sublist_submseteq, sublist_take.
Qed.

Lemma open_buffer_sub now now2 id p p' b :
  open_buffer now now2 id p = (p', b) → (spans b ++ buffered (removeTraceLocked id p'))%list ⊆+ buffered p.
Proof.
  unfold open_buffer. destruct (traces p !! id) as [b0|] eqn:E.
  - intros [= <- <-]. rewrite (buffered_remove id p), E. done.
  - set (q := if maxTraces cfg <=? _ then evictOldestLocked now2 p else p). intros [= <- <-]. simpl.
    unfold buffered at 1. rewrite traces_remove. simpl. rewrite delete_insert_eq. transitivity (buffered q).
    + unfold buffered. rewrite (bag_delete spans (traces q) id). by apply submseteq_inserts_l.
    + unfold q. case_match; [apply evict_buffered|done].
Qed.

Lemma OnEnd_sub now now2 s p :
  ((OnEnd now now2 s p).2 ++ buffered (OnEnd now now2 s p).1)%list ⊆+ (s :: buffered p).
Proof.
  unfold OnEnd. destruct (stopped p); [simpl; by apply submseteq_cons|].
  destruct (decisions p !! TraceID s) as [d|].
  - destruct (negb (keep d) && _ && _); [done|]. cbn [fst snd]. destruct (keep d); [done|]. by apply submseteq_cons.
  - destruct (open_buffer now now2 (TraceID s) p) as [p1 b] eqn:Eo. apply open_buffer_sub in Eo.
    assert (spans (add_span s b) ++ buffered (removeTraceLocked (TraceID s) p1) ⊆+ s :: buffered p)%list as Hall.
    { etrans; [apply submseteq_skips_r, add_span_sub|]. simpl. by apply submseteq_skip. }
    set (p2 := set_buffer (TraceID s) (add_span s b) p1).
    assert (buffered (removeTraceLocked (TraceID s) p2) = buffered (removeTraceLocked (TraceID s) p1)) as Hrem.
    { unfold buffered. rewrite !traces_remove. unfold p2. simpl. by rewrite delete_insert_eq. }
    destruct (negb (isDecisionRoot s)); cbn [fst snd app].
    + rewrite (buffered_remove (TraceID s) p2), Hrem. unfold p2 at 1. cbn [traces set_buffer]. by rewrite lookup_insert_eq.
    + change (buffered (addDecisionLocked _ _ _ ?q)) with (buffered q). rewrite Hrem. destruct (shouldKeep s); [done|].
      simpl. etrans; [|exact Hall]. by apply submseteq_inserts_l.
Qed.

Lemma expire_sub now all p : ((expire now all p).2 ++ buffered (expire now all p).1)%list ⊆+ buffered p.
Proof.
  unfold expire.
  assert (∀ l acc, NoDup l.*1 → (∀ t, t ∈ l → traces acc.1 !! t.1 = Some t.2) →
    ((foldl (expire_trace now all) acc l).2 ++ buffered (foldl (expire_trace now all) acc l).1)%list ⊆+
    (acc.2 ++ buffered acc.1)%list) as Hfold.
  { intros l. induction l as [|[id b] l IH]; intros acc Hnd Hin; [done|]. simpl.
    rewrite fmap_cons in Hnd. apply NoDup_cons in Hnd as [Hid Hnd].
    assert (traces (removeTraceLocked id (addDecisionLocked id (headSampled (spans b)) now acc.1)) = delete id (traces acc.1))
      as Ht by (by rewrite traces_remove).
    etrans; [apply IH; [done|]|]; unfold expire_trace; cbn [fst snd];
      destruct (negb all && (Time.Sub now (firstSeen b) <? decisionWindow cfg)); cbn [fst snd].
    - intros t Ht'. apply Hin. by right.
    - intros t Ht'. rewrite Ht, lookup_delete_ne; [apply Hin; by right|]. intros E.
      apply Hid. cbn [fst]. rewrite E. by apply (list_elem_of_fmap_2 fst).
    - done.
    - unfold buffered. rewrite Ht. rewrite (bag_delete spans (traces acc.1) id).
      rewrite (Hin (id, b) ltac:(by left) : traces acc.1 !! id = Some b). rewrite <- app_assoc. apply submseteq_skips_l.
      destruct (headSampled (spans b)); [done|]. by apply submseteq_inserts_l. }
  specialize (Hfold (map_range (traces p)) (p, []) (NoDup_map_range_keys _)).
  destruct (foldl _ _ _) as [q out]. apply Hfold. intros [id b] Ht. by apply elem_of_map_range.
Qed.

Lemma run_op_sub o p : ((run_op o p).2 ++ buffered (run_op o p).1)%list ⊆+ (ended [o] ++ buffered p)%list.
Proof.
  destruct o; simpl; [apply OnEnd_sub|apply expire_sub|apply expire_sub|].
  apply (expire_sub now true {| traces := traces p; decisions := decisions p; order := order p; stopped := true |}).
Qed.

(** Tail sampling is bounded and honest. Whatever spans end in whatever
    order, with any ticks, flushes and a shutdown in between: there are never
    more buffered traces, spans per trace or remembered decisions than
    configured, no trace is both buffered and decided, and every span passed on
    is one that ended, passed on no more often than it ended and no longer
    buffered. *)
Theorem tail_bounded_honest os p out :
  run os newTailSpanProcessor = (p, out) →
  Z.of_nat (size (traces p)) ≤ maxTraces cfg ∧ Z.of_nat (size (decisions p)) ≤ maxTraces cfg ∧
  (∀ id b, traces p !! id = Some b →
     Z.of_nat (length (spans b)) ≤ maxSpans cfg ∧ decisions p !! id = None) ∧
  (out ++ buffered p)%list ⊆+ ended os.
Proof.
  cut (∀ os p0 p out, inv p0 → run os p0 = (p, out) →
         inv p ∧ (out ++ buffered p)%list ⊆+ (ended os ++ buffered p0)%list).
  { intros Hall Hr. destruct (Hall os newTailSpanProcessor p out inv_new Hr) as [[H1 H2 H3 H4 H5 H6] Hsub].
    split_and!; [done|done| |].
    - intros id b Hb. split; [by apply (H5 id b)|]. destruct (H6 id); [congruence|done].
    - unfold buffered at 2 in Hsub. simpl in Hsub. unfold bag in Hsub. rewrite map_to_list_empty in Hsub.
      simpl in Hsub. by rewrite app_nil_r in Hsub. }
  clear os p out. intros os. induction os as [|o os IH]; intros p0 p out Hi Hr; [by simplify_eq/=|]. simpl in Hr.
  pose proof (run_op_inv o p0 Hi) as Hi1. pose proof (run_op_sub o p0) as Hs1.
  destruct (run_op o p0) as [p1 out1]. destruct (run os p1) as [p2 out2] eqn:Er. injection Hr as <- <-.
  destruct (IH p1 p2 out2 Hi1 Er) as [Hi2 Hs2]. split; [done|]. simpl in Hs1.
  assert (ended (o :: os) = ended [o] ++ ended os)%list as -> by (destruct o; done).
  rewrite <- app_assoc. etrans; [apply submseteq_skips_l, Hs2|]. rewrite !app_assoc, (Permutation_app_comm out1), <- !app_assoc.
  rewrite (Permutation_app_comm (ended [o])), <- !app_assoc. apply submseteq_skips_l.
  by rewrite (Permutation_app_comm (buffered p0)).
Qed.

(** A root that is to be kept is passed on, with what is buffered of its
    trace, and the trace is marked as kept, so that spans that end after their
    root follow it. Only in a full buffer the last span gives way. *)
Theorem kept_root_passed_on now now2 s p p' out :
  inv p → stopped p = false → isDecisionRoot s = true → shouldKeep s = true →
  OnEnd now now2 s p = (p', out) →
  s ∈ out ∧
  (∃ d, decisions p' !! TraceID s = Some d ∧ keep d = true) ∧
  (∀ b, traces p !! TraceID s = Some b →
     out = if Z.of_nat (length (spans b)) <? maxSpans cfg then (spans b ++ [s])%list
           else (take (length (spans b) - 1) (spans b) ++ [s])%list).
Proof.
  intros Hi Hst Hroot Hkeep. unfold OnEnd. rewrite Hst, Hroot, Hkeep.
  destruct (decisions p !! TraceID s) as [d|] eqn:Ed.
  - intros Ho. split_and!.
    + destruct (keep d); simpl in Ho; simplify_eq; by left.
    + destruct (keep d) eqn:Ek; simpl in Ho; simplify_eq; [by exists d|].
      unfold addDecisionLocked. cbn [decisions]. rewrite lookup_insert_eq. by eexists.
    + intros b Hb. destruct (i_apart p Hi (TraceID s)); congruence.
  - destruct (open_buffer now now2 (TraceID s) p) as [p1 b] eqn:Eo. cbn [negb]. intros [= <- <-].
    assert (s ∈ spans (add_span s b)) as Hin.
    { unfold add_span. rewrite Hroot. case_match; simpl; apply elem_of_app; right; by left. }
    split_and!; [done| |].
    + unfold addDecisionLocked. cbn [decisions]. rewrite lookup_insert_eq. by eexists.
    + intros b' Hb. unfold open_buffer in Eo. rewrite Hb in Eo. injection Eo as <- <-. unfold add_span.
      rewrite Hroot. by case_match.
Qed.
End processor.

(** ** The configuration is usable *)
Lemma positive_int_pos v old : 0 < old → 0 < positive_int v old.
Proof. intros Ho. unfold positive_int. repeat case_match; lia. Qed.
Lemma positive_duration_pos pd v old : 0 < old → 0 < positive_duration pd v old.
Proof. intros Ho. unfold positive_duration. repeat case_match; lia. Qed.

(** Whatever the environment holds, a configuration that is accepted has the
    positive bounds the processor needs. *)
Lemma tailConfigFromEnv_positive pf pd getenv cfg :
  tailConfigFromEnv pf pd getenv = Ok cfg →
  0 < maxTraces cfg ∧ 0 < maxSpans cfg ∧ 0 < decisionWindow cfg ∧ 0 < latency cfg.
Proof.
  unfold tailConfigFromEnv. cbv zeta. case_decide; [intros [= <-]; vm_compute; by repeat split|]. case_decide; [done|].
  destruct (if decide (getenv "TRACING_TAIL_LATENCY_MS" = "") then _ else _) as [lat|] eqn:El; [|done].
  assert (0 < lat) as Hlat.
  { destruct (decide (getenv "TRACING_TAIL_LATENCY_MS" = "")); [by simplify_eq|].
    destruct (ParseInt _) as [ms|]; [|done]. destruct ((ms <=? 0) || _) eqn:E; [done|]. simplify_eq.
    apply orb_false_iff in E as [?%Z.leb_gt _]. unfold Time.Millisecond. lia. }
  destruct (if decide (getenv "TRACING_TAIL_ERROR_RATE" = "") then _ else _) as [rate|]; [|done].
  intros [= <-]. cbn [maxTraces maxSpans decisionWindow latency].
  split_and!; [by apply positive_int_pos|by apply positive_int_pos|by apply positive_duration_pos|].
  case_decide; [by apply positive_duration_pos|done].
Qed.

(** The configured rate of extra traces changes nothing. *)
Definition with_rate (r : float64) (cfg : tailConfig) : tailConfig :=
  {| enabled := enabled cfg; latency := latency cfg; baselineRate := r; maxTraces := maxTraces cfg;
     maxSpans := maxSpans cfg; decisionWindow := decisionWindow cfg |}.
Lemma rate_ignored `{GoRuntime} r cfg os p : run (with_rate r cfg) os p = run cfg os p.
Proof. revert p. induction os as [|o os IH]; intros p; [done|]. simpl. destruct (run_op cfg o p) as [q out] eqn:E.
  change (run_op (with_rate r cfg) o p) with (run_op cfg o p). rewrite E. by rewrite IH.
Qed.

(** ** A run: two traces, room for one *)
Module Runs.
Definition small : tailConfig :=
  {| enabled := true; latency := Time.Second; baselineRate := f_of_int 0; maxTraces := 1; maxSpans := 2;
     decisionWindow := 10 * Time.Second |}.
Definition child (id : string) (n : Z) : span :=
  {| TraceID := id; parent_valid := true; kind_server := false; attributes := []; status_error := false; events := [];
     StartTime := n; EndTime := n + 1 |}.
Definition root (id : string) (n : Z) (failed : bool) : span :=
  {| TraceID := id; parent_valid := false; kind_server := true; attributes := []; status_error := failed; events := [];
     StartTime := n; EndTime := n + 1 |}.

Definition ops : list op := [End 1 1 (child "a" 1); End 2 2 (child "b" 2); End 3 3 (child "b" 3); End 4 4 (root "b" 4 true);
                             End 5 5 (child "b" 5); End 6 6 (root "a" 6 false)].

Lemma tail_bounded_honest_witness :
  (run small ops newTailSpanProcessor).2 = [child "b" 2; root "b" 4 true; child "b" 5] ∧
  ((run small ops newTailSpanProcessor).2 ++ buffered (run small ops newTailSpanProcessor).1)%list ⊆+ ended ops.
Proof.
  split; [vm_compute; reflexivity|].
  assert (run small ops newTailSpanProcessor =
          ((run small ops newTailSpanProcessor).1, (run small ops newTailSpanProcessor).2)) as E
    by (by destruct (run small ops newTailSpanProcessor)).
  apply (tail_bounded_honest small ltac:(done) ltac:(done) ops _ _ E).
Defined.

Lemma kept_root_passed_on_witness :
  root "b" 4 true ∈ (OnEnd small 4 4 (root "b" 4 true) newTailSpanProcessor).2.
Proof.
  apply (kept_root_passed_on small 4 4 (root "b" 4 true) newTailSpanProcessor
           (OnEnd small 4 4 (root "b" 4 true) newTailSpanProcessor).1);
    [apply inv_new; done|reflexivity|reflexivity|reflexivity|by destruct (OnEnd _ _ _ _ _)].
Defined.
End Runs.
