(* ===== verification/Secrets.v ===== *)
(** * Secrets

    The package [internal/secrets]:
    - [Rotation] models [metadata.go]: the rotation metadata of a secret and
      the manifest it may come from;
    - [Providers] models [provider.go], [env_provider.go] and
      [chain_provider.go]: the interface, the environment and the chain;
    - [Vault] models [vault_provider.go]: the cached Vault client, whose
      concurrent callers share one fetch per key.

    The environment is a function, JSON and [time.ParseDuration] are
    parameters, and what the HTTP client answers is an argument. *)
From Stdlib Require Import ZArith Lia Ascii String.
From stdpp Require Import base gmap strings list.
From S2P Require Import Prelude GoStrings GoTime.
#[local] Open Scope string_scope.
#[local] Open Scope Z_scope.

(** ** Rotation metadata *)
Module Rotation.
Record SecretMetadata := {
  Name : string;
  Owner : string;
  Description : string;
  RotationCadence : string;
  LastRotatedAt : Time;
  NextRotationDueAt : Time;
  VerificationSteps : list string;
  Source : string;
  Required : bool;
  RotationInterval : Duration;
  GracePeriod : Duration;
}.

Inductive metadata_error := ErrMetadataNotSupported | ErrMetadataNotFound | MetadataFailed (m : string).

Section rotation.
Context (ParseDuration : string → option Duration).

(** A cadence of whole days is its number times 24 hours, in 64 bits. *)
Definition ParseDurationLikeRotation (v : string) : option Duration :=
  let v := TrimSpace (ToLower v) in
  if decide (v = "") then None
  else if has_suffix "d" v
  then match ParseInt (substring 0 (String.length v - 1) v) with
       | Some n => Some (wrap64 (wrap64 (n * 24) * Time.Hour))
       | None => None
       end
  else ParseDuration v.

Definition dueDateFromLastRotated (last : Time) (cadence : Duration) : Time :=
  if Time.IsZero last || (cadence <=? 0) then Time.zero else Time.Add last cadence.

(** What every source of metadata completes: name, source, interval, due date. *)
Definition with_interval (md : SecretMetadata) : SecretMetadata :=
  if decide (RotationCadence md ≠ "" ∧ RotationInterval md = 0)
  then match ParseDurationLikeRotation (RotationCadence md) with
       | Some d =>
           {| Name := Name md; Owner := Owner md; Description := Description md; RotationCadence := RotationCadence md;
              LastRotatedAt := LastRotatedAt md; NextRotationDueAt := NextRotationDueAt md;
              VerificationSteps := VerificationSteps md; Source := Source md; Required := Required md;
              RotationInterval := d; GracePeriod := GracePeriod md |}
       | None => md
       end
  else md.
Definition with_due (md : SecretMetadata) : SecretMetadata :=
  if Time.IsZero (NextRotationDueAt md) && negb (Time.IsZero (LastRotatedAt md)) && (0 <? RotationInterval md)
  then {| Name := Name md; Owner := Owner md; Description := Description md; RotationCadence := RotationCadence md;
          LastRotatedAt := LastRotatedAt md;
          NextRotationDueAt := dueDateFromLastRotated (LastRotatedAt md) (RotationInterval md);
          VerificationSteps := VerificationSteps md; Source := Source md; Required := Required md;
          RotationInterval := RotationInterval md; GracePeriod := GracePeriod md |}
  else md.
Definition with_names (name source : string) (md : SecretMetadata) : SecretMetadata :=
  {| Name := if decide (Name md = "") then name else Name md; Owner := Owner md; Description := Description md;
     RotationCadence := RotationCadence md; LastRotatedAt := LastRotatedAt md; NextRotationDueAt := NextRotationDueAt md;
     VerificationSteps := VerificationSteps md; Source := if decide (Source md = "") then source else Source md;
     Required := Required md; RotationInterval := RotationInterval md; GracePeriod := GracePeriod md |}.

(** The provider over a manifest file: [contents] is what reading it gives. *)
Definition Manifest_Metadata (decode : string → option (list SecretMetadata)) (path : string)
    (contents : option string) (cancelled : bool) (key : string) : result metadata_error SecretMetadata :=
  if cancelled then Err (MetadataFailed "context")
  else if decide (TrimSpace path = "") then Err ErrMetadataNotSupported
  else match contents with
  | None => Err (MetadataFailed "read metadata manifest")
  | Some b =>
      match decode b with
      | None => Err (MetadataFailed "parse metadata manifest")
      | Some secrets =>
          match List.find (λ s, bool_decide (Name s = key)) secrets with
          | Some s => Ok (with_due (with_interval (with_names (Name s) "manifest" s)))
          | None => Err ErrMetadataNotFound
          end
      end
  end.

(** The due date is the one given, or the last rotation plus a positive
    interval; a secret never rotated has none. *)
Lemma with_due_exact md :
  NextRotationDueAt (with_due md) =
  (if decide (NextRotationDueAt md = Time.zero ∧ LastRotatedAt md ≠ Time.zero ∧ 0 < RotationInterval md)
   then LastRotatedAt md + RotationInterval md else NextRotationDueAt md).
Proof.
  unfold with_due, dueDateFromLastRotated, Time.IsZero, Time.Add.
  destruct (NextRotationDueAt md =? Time.zero) eqn:E1, (LastRotatedAt md =? Time.zero) eqn:E2, (0 <? RotationInterval md) eqn:E3;
    cbn [andb negb NextRotationDueAt]; case_decide; rewrite ?Z.eqb_eq, ?Z.eqb_neq in *; try lia.
  rewrite (proj2 (Z.leb_gt _ _)) by lia. done.
Qed.
End rotation.
End Rotation.

(** ** Providers *)
Module Providers.
Import Rotation.
Inductive secret_error := ErrSecretNotFound | ErrProviderTimeout | ErrProviderFailed (m : string).

(** The interface [Provider]; [cancelled] says whether the context is done.
    [Metadata] is there when the provider is a [MetadataProvider]. *)
Record Provider := {
  PName : string;
  GetSecret : bool → string → result secret_error string;
  PMetadata : option (bool → string → result metadata_error SecretMetadata);
}.

Section env.
Context (ParseDuration : string → option Duration) (decode : string → option SecretMetadata).
Context (getenv : string → string).

Definition Env_GetSecret (pre : string) (cancelled : bool) (key : string) : result secret_error string :=
  if cancelled then Err ErrProviderTimeout
  else
    let key := TrimSpace key in
    if decide (key = "") then Err ErrSecretNotFound
    else let val := getenv (pre +:+ key) in if decide (val = "") then Err ErrSecretNotFound else Ok val.

Definition Env_Name (pre : string) : string := if decide (pre = "") then "env" else "env:" +:+ pre.

Definition Env_Metadata (pre : string) (cancelled : bool) (key : string) : result metadata_error SecretMetadata :=
  if cancelled then Err (MetadataFailed "context")
  else
    let key := TrimSpace key in
    if decide (key = "") then Err ErrMetadataNotFound
    else
      let raw := getenv (pre +:+ key +:+ "_ROTATION_METADATA") in
      if decide (raw = "") then Err ErrMetadataNotFound
      else match decode raw with
      | None => Err (MetadataFailed "parse")
      | Some md => Ok (with_due (with_interval ParseDuration (with_names key (Env_Name pre) md)))
      end.

Definition NewEnvProviderWithPrefix (pre : string) : Provider :=
  {| PName := Env_Name pre; GetSecret := Env_GetSecret pre; PMetadata := Some (Env_Metadata pre) |}.
Definition NewEnvProvider : Provider := NewEnvProviderWithPrefix "".

Fixpoint Chain_GetSecret (ps : list Provider) (cancelled : bool) (key : string) : result secret_error string :=
  match ps with
  | [] => Err ErrSecretNotFound
  | p :: ps =>
      match GetSecret p cancelled key with
      | Ok v => Ok v
      | Err ErrSecretNotFound => Chain_GetSecret ps cancelled key
      | Err e => Err e
      end
  end.

Fixpoint Chain_Metadata (ps : list Provider) (cancelled : bool) (key : string) : result metadata_error SecretMetadata :=
  match ps with
  | [] => Err ErrMetadataNotFound
  | p :: ps =>
      match PMetadata p with
      | None => Chain_Metadata ps cancelled key
      | Some metadata =>
          match metadata cancelled key with
          | Ok md => Ok md
          | Err (ErrMetadataNotFound | ErrMetadataNotSupported) => Chain_Metadata ps cancelled key
          | Err e => Err e
          end
      end
  end.

Definition NewChainProvider (ps : list Provider) : option Provider :=
  match ps with
  | [] => None
  | _ => Some {| PName := "chain[" +:+ Join (map PName ps) "->" +:+ "]"; GetSecret := Chain_GetSecret ps;
                 PMetadata := Some (Chain_Metadata ps) |}
  end.

(** [vault address token prefix] is [NewVaultProvider]. *)
Definition NewDefaultProvider (vault : string → string → string → Provider) : Provider :=
  let addr := getenv "VAULT_ADDR" in
  if decide (addr = "") then NewEnvProvider
  else default NewEnvProvider
         (NewChainProvider [vault addr (getenv "VAULT_TOKEN") (getenv "VAULT_PATH_PREFIX"); NewEnvProvider]).
End env.

(** A chain answers with the first provider that has the secret, and only a
    provider that says it does not have it hands on: an outage of an earlier
    one is never papered over by a later one. *)
Lemma Chain_GetSecret_exact ps cancelled key :
  let lacks q := GetSecret q cancelled key = Err ErrSecretNotFound in
  match Chain_GetSecret ps cancelled key with
  | Err ErrSecretNotFound => Forall lacks ps
  | r => ∃ before p after, ps = (before ++ p :: after)%list ∧ GetSecret p cancelled key = r ∧ Forall lacks before
  end.
Proof.
  cbn zeta. induction ps as [|p ps IH]; simpl; [by constructor|].
  destruct (GetSecret p cancelled key) as [v|e] eqn:Ep; [exists [], p, ps; eauto|].
  destruct e; [|exists [], p, ps; eauto|exists [], p, ps; eauto].
  destruct (Chain_GetSecret ps cancelled key) as [v|e'].
  - destruct IH as (b & q & a & -> & Hq & Hb). exists (p :: b), q, a. split_and!; [done|done|by constructor].
  - destruct e'; [by constructor| |];
      destruct IH as (b & q & a & -> & Hq & Hb); exists (p :: b), q, a; (split_and!; [done|done|by constructor]).
Qed.
End Providers.

(** ** The Vault client *)
Module Vault.
Import Rotation Providers.

Record VaultProvider := { address : string; token : string; pathPrefix : string; ttl : Duration }.

Definition TrimSuffix (s p : string) : string :=
  if has_suffix p s then substring 0 (String.length s - String.length p) s else s.

Definition NewVaultProvider (addr tok pre : string) : VaultProvider :=
  {| address := TrimSuffix addr "/"; token := tok;
     pathPrefix := if negb (has_suffix "/" pre) && bool_decide (pre ≠ "") then pre +:+ "/" else pre;
     ttl := 5 * Time.Minute |}.

Definition secret_url (p : VaultProvider) (key : string) : string := address p +:+ "/v1/" +:+ pathPrefix p +:+ key.

(** What the HTTP client gives: no request, no response, or a response whose
    body may be unreadable. *)
Inductive http_outcome :=
  | BadRequest
  | NoResponse (timed_out : bool)
  | Response (status : Z) (body : option string).

(** A decoded JSON value: what [fmt.Sprint] prints of it, and what it is when
    asserted to be a string or an array (of printed elements). *)
Record jvalue := { printed : string; as_string : option string; as_array : option (list string) }.
Definition jstring (s : string) : jvalue := {| printed := s; as_string := Some s; as_array := None |}.

Section answers.
(** [json.Unmarshal] of the body. *)
Context (decode : string → option (gmap string jvalue)).

Definition fetchFromVault (key : string) (o : http_outcome) : result secret_error string :=
  match o with
  | BadRequest => Err (ErrProviderFailed "failed to create request")
  | NoResponse true => Err ErrProviderTimeout
  | NoResponse false => Err (ErrProviderFailed "vault request failed")
  | Response status body =>
      if decide (status = 403) then Err ErrSecretNotFound
      else if decide (status = 404) then Err ErrSecretNotFound
      else if decide (status = 401) then Err (ErrProviderFailed "vault access unauthorized: token rejected")
      else if decide (status ≠ 200) then Err (ErrProviderFailed ("vault returned status " +:+ Itoa status))
      else match body with
      | None => Err (ErrProviderFailed "failed to read response body")
      | Some body =>
          match decode body with
          | None => Err (ErrProviderFailed "failed to decode vault response")
          | Some data =>
              match data !! key with
              | Some val => Ok (printed val)
              | None => match data !! "value" with Some val => Ok (printed val) | None => Err ErrSecretNotFound end
              end
          end
      end
  end.

(** [v, ok := data[key].(T)] *)
Definition asserted {A} (as_ : jvalue → option A) (data : gmap string jvalue) (key : string) : option A :=
  match data !! key with Some v => as_ v | None => None end.

Definition Vault_Metadata (ParseDuration : string → option Duration) (key : string) (o : http_outcome) :
    result metadata_error SecretMetadata :=
  let key := TrimSpace key in
  if decide (key = "") then Err ErrMetadataNotFound
  else match o with
  | BadRequest => Err (MetadataFailed "failed to create metadata request")
  | NoResponse _ => Err (MetadataFailed "vault metadata request failed")
  | Response status body =>
      if decide (status ≠ 200) then Err ErrMetadataNotFound
      else match body with
      | None => Err (MetadataFailed "failed to read metadata response body")
      | Some body =>
          match decode body with
          | None => Err (MetadataFailed "failed to decode vault metadata response")
          | Some data =>
              let cadence := asserted as_string data "rotation_cadence" in
              let interval := from_option (λ c, default 0 (ParseDurationLikeRotation ParseDuration c)) 0 cadence in
              let last := match asserted as_string data "last_rotated_at" with
                          | Some s => if decide (s = "") then Time.zero else default Time.zero (ParseRFC3339 s)
                          | None => Time.zero
                          end in
              Ok {| Name := key; Owner := from_option printed "<nil>" (data !! "owner"); Description := "";
                    RotationCadence := default "" cadence; LastRotatedAt := last;
                    NextRotationDueAt := if negb (Time.IsZero last) && (0 <? interval) then Time.Add last interval else Time.zero;
                    VerificationSteps := default [] (asserted as_array data "verification_steps");
                    Source := "vault"; Required := true; RotationInterval := interval; GracePeriod := 0 |}
          end
      end
  end.

(** Only 403, 404 and a readable answer without the key hand on to the next
    provider of a chain. *)
Lemma fetch_hands_on key o :
  fetchFromVault key o = Err ErrSecretNotFound ↔
  ∃ status body, o = Response status body ∧
    (status = 403 ∨ status = 404 ∨
     status = 200 ∧ ∃ text data, body = Some text ∧ decode text = Some data ∧ data !! key = None ∧ data !! "value" = None).
Proof.
  split.
  - unfold fetchFromVault. intros H. destruct o as [|[]|status body]; [done|done|done|]. exists status, body. split; [done|].
    repeat case_decide; simplify_eq; [by left|by right; left|].
    repeat case_match; simplify_eq. right; right. split; [done|]. eauto 10.
  - intros (status & body & -> & [->|[->|(-> & text & data & -> & Hd & H1 & H2)]]); [done|done|].
    unfold fetchFromVault. repeat (rewrite decide_False by (done || (intros H; by apply H))). by rewrite Hd, H1, H2.
Qed.
End answers.

(** *** Concurrent callers

    [cache], [inflight] and the shared [callState]s are the fields of the
    provider; [threads] are the goroutines inside [GetSecret] or
    [refreshSecret], each with the instant it began at. [fetched] is a record
    of what Vault has answered, and when. *)
Record cacheEntry := { value : string; expiresAt : Time }.
Inductive phase :=
  | Called (key : string)
  | Missed (key : string)
  | Fetching (id : nat) (key : string)
  | Joined (id : nat) (key : string)
  | Returned (key : string) (r : result secret_error string).
Record vault := {
  cache : gmap string cacheEntry;
  inflight : gmap string nat;
  calls : gmap nat (result secret_error string);
  next_id : nat;
  threads : list (phase * Time);
  now : Time;
  fetched : list (string * string * Time);
}.

Definition started (now : Time) : vault :=
  {| cache := ∅; inflight := ∅; calls := ∅; next_id := 0; threads := []; now := now; fetched := [] |}.

Definition set_thread (v : vault) (t : nat) (ph : phase) : vault :=
  {| cache := cache v; inflight := inflight v; calls := calls v; next_id := next_id v;
     threads := alter (λ p, (ph, p.2)) t (threads v); now := now v; fetched := fetched v |}.
Definition spawn (v : vault) (ph : phase) : vault :=
  {| cache := cache v; inflight := inflight v; calls := calls v; next_id := next_id v;
     threads := (threads v ++ [(ph, now v)])%list; now := now v; fetched := fetched v |}.

(** The first critical section of [GetSecret]: a live entry is served, and a
    refresh started when it is close to its end. *)
Definition get_cached (ttl : Duration) (v : vault) (t : nat) (key : string) : vault :=
  let key := TrimSpace key in
  if decide (key = "") then set_thread v t (Returned key (Err ErrSecretNotFound))
  else match cache v !! key with
  | Some entry =>
      if Time.Before (now v) (expiresAt entry) then
        let v' := set_thread v t (Returned key (Ok (value entry))) in
        if Time.Sub (expiresAt entry) (now v) <? ttl ÷ 5 then spawn v' (Missed key) else v'
      else set_thread v t (Missed key)
  | None => set_thread v t (Missed key)
  end.

(** The second, of [fetchAndCache]: join the fetch in flight or start one. *)
Definition join_or_fetch (v : vault) (t : nat) (key : string) : vault :=
  match inflight v !! key with
  | Some id => set_thread v t (Joined id key)
  | None =>
      {| cache := cache v; inflight := <[key := next_id v]> (inflight v); calls := calls v; next_id := S (next_id v);
         threads := threads (set_thread v t (Fetching (next_id v) key)); now := now v; fetched := fetched v |}
  end.

(** The third: the fetch is over with [r]. *)
Definition finish_fetch (ttl : Duration) (v : vault) (t id : nat) (key : string) (r : result secret_error string) : vault :=
  {| cache := match r with
              | Ok val => <[key := {| value := val; expiresAt := Time.Add (now v) ttl |}]> (cache v)
              | Err _ => cache v
              end;
     inflight := delete key (inflight v); calls := <[id := r]> (calls v); next_id := next_id v;
     threads := threads (set_thread v t (Returned key r)); now := now v;
     fetched := match r with Ok val => (key, val, now v) :: fetched v | Err _ => fetched v end |}.

Definition advance (v : vault) (d : Duration) : vault :=
  {| cache := cache v; inflight := inflight v; calls := calls v; next_id := next_id v; threads := threads v;
     now := now v + d; fetched := fetched v |}.

Inductive step (ttl : Duration) : vault → vault → Prop :=
  | step_call v key : step ttl v (spawn v (Called key))
  | step_get v t key t0 : threads v !! t = Some (Called key, t0) → step ttl v (get_cached ttl v t key)
  | step_join v t key t0 : threads v !! t = Some (Missed key, t0) → step ttl v (join_or_fetch v t key)
  | step_finish v t id key t0 r : threads v !! t = Some (Fetching id key, t0) → step ttl v (finish_fetch ttl v t id key r)
  | step_wake v t id key t0 r :
      threads v !! t = Some (Joined id key, t0) → calls v !! id = Some r → step ttl v (set_thread v t (Returned key r))
  | step_cancel v t id key t0 :
      threads v !! t = Some (Joined id key, t0) → step ttl v (set_thread v t (Returned key (Err ErrProviderTimeout)))
  | step_time v d : 0 ≤ d → step ttl v (advance v d).

(** *** One fetch per key, and no stale answer *)
Record inv (ttl : Duration) (v : vault) : Prop := {
  inv_flight : ∀ k id, inflight v !! k = Some id ↔ ∃ t t0, threads v !! t = Some (Fetching id k, t0);
  inv_inj : ∀ k k' id, inflight v !! k = Some id → inflight v !! k' = Some id → k = k';
  inv_one : ∀ t t' id id' k t0 t0', threads v !! t = Some (Fetching id k, t0) →
              threads v !! t' = Some (Fetching id' k, t0') → t = t';
  inv_next : ∀ k id, inflight v !! k = Some id → (id < next_id v)%nat ∧ calls v !! id = None;
  inv_calls : ∀ id r, calls v !! id = Some r → (id < next_id v)%nat;
  inv_joined : ∀ t id k t0, threads v !! t = Some (Joined id k, t0) →
                 inflight v !! k = Some id ∨
                 ∃ r, calls v !! id = Some r ∧ ∀ val, r = Ok val → ∃ tf, (k, val, tf) ∈ fetched v ∧ t0 ≤ tf;
  inv_cache : ∀ k e, cache v !! k = Some e → (k, value e, expiresAt e - ttl) ∈ fetched v;
  inv_time : ∀ t ph t0, threads v !! t = Some (ph, t0) → t0 ≤ now v;
  inv_served : ∀ t k val t0, threads v !! t = Some (Returned k (Ok val), t0) →
                 ∃ tf, (k, val, tf) ∈ fetched v ∧ t0 < tf + ttl;
}.

Lemma set_thread_lookup v t ph t' x :
  threads (set_thread v t ph) !! t' = Some x →
  (t' = t ∧ x.1 = ph ∧ ∃ ph0, threads v !! t = Some (ph0, x.2)) ∨ (t' ≠ t ∧ threads v !! t' = Some x).
Proof.
  cbn. destruct (decide (t' = t)) as [->|Hn].
  - rewrite list_lookup_alter_eq. destruct (threads v !! t) as [[ph0 t0]|]; [|done]. intros [= <-]. left. eauto.
  - rewrite list_lookup_alter_ne by done. auto.
Qed.
Lemma set_thread_lookup_ne v t ph t' : t' ≠ t → threads (set_thread v t ph) !! t' = threads v !! t'.
Proof. intros. cbn. by rewrite list_lookup_alter_ne. Qed.
Lemma set_thread_lookup_eq v t ph ph0 t0 :
  threads v !! t = Some (ph0, t0) → threads (set_thread v t ph) !! t = Some (ph, t0).
Proof. intros H. cbn. by rewrite list_lookup_alter_eq, H. Qed.
Lemma spawn_lookup v ph t x :
  threads (spawn v ph) !! t = Some x → threads v !! t = Some x ∨ (t = length (threads v) ∧ x = (ph, now v)).
Proof. cbn. intros [?|[? ?]]%lookup_snoc_Some; naive_solver. Qed.

(** A thread that is not fetching moves to a phase that is not fetching. *)
Lemma set_thread_inv ttl v t ph0 ph t0 :
  inv ttl v → threads v !! t = Some (ph0, t0) →
  (∀ id k, ph0 ≠ Fetching id k) → (∀ id k, ph ≠ Fetching id k) →
  (∀ id k, ph = Joined id k → inflight v !! k = Some id) →
  (∀ k val, ph = Returned k (Ok val) → ∃ tf, (k, val, tf) ∈ fetched v ∧ t0 < tf + ttl) →
  inv ttl (set_thread v t ph).
Proof.
  intros [H1 Hi H2 H3 H4 H5 H6 H7 H8] Ht N0 N Hj Hr. split; [|exact Hi| |exact H3|exact H4| |exact H6| |].
  - intros k id. cbn [inflight set_thread]. rewrite H1. split; intros (t' & s & E).
    + exists t', s. destruct (decide (t' = t)) as [->|]; [congruence|]. by rewrite set_thread_lookup_ne.
    + apply set_thread_lookup in E as [(-> & ? & _)|[_ ?]]; [by destruct (N id k)|eauto].
  - intros a b id id' k s s' Ea Eb. apply set_thread_lookup in Ea as [(_ & E & _)|[_ Ea]]; [by destruct (N _ _ (eq_sym E))|].
    apply set_thread_lookup in Eb as [(_ & E & _)|[_ Eb]]; [by destruct (N _ _ (eq_sym E))|]. by eapply H2.
  - intros a id k s [(-> & E & _)|[_ E]]%set_thread_lookup; [left; by apply Hj|by eapply H5].
  - intros a p s [(-> & _ & ph' & E)|[_ E]]%set_thread_lookup; by eapply H7.
  - intros a k val s [(-> & E & ph' & E')|[_ E]]%set_thread_lookup; [|by eapply H8]. cbn in *. simplify_eq. by apply Hr.
Qed.

Lemma spawn_inv ttl v ph :
  inv ttl v → (∃ k, ph = Called k ∨ ph = Missed k) → inv ttl (spawn v ph).
Proof.
  intros [H1 Hi H2 H3 H4 H5 H6 H7 H8] Hp. split; [|exact Hi| |exact H3|exact H4| |exact H6| |].
  - intros k id. cbn [inflight spawn]. rewrite H1. split; intros (t & s & E).
    + exists t, s. cbn. by apply lookup_app_l_Some.
    + apply spawn_lookup in E as [E|[_ ?]]; [eauto|naive_solver].
  - intros a b id id' k s s' Ea%spawn_lookup Eb%spawn_lookup. naive_solver.
  - intros a id k s E%spawn_lookup. naive_solver.
  - intros a p s [E|[_ ?]]%spawn_lookup; [by eapply H7|]. simplify_eq. done.
  - intros a k val s E%spawn_lookup. naive_solver.
Qed.

Lemma get_cached_inv ttl v t key t0 :
  0 < ttl → inv ttl v → threads v !! t = Some (Called key, t0) → inv ttl (get_cached ttl v t key).
Proof.
  intros Hp Hv Ht. pose proof (inv_time _ _ Hv _ _ _ Ht) as Hn. unfold get_cached.
  assert (∀ ph, (∀ id k, ph ≠ Fetching id k) → (∀ id k, ph ≠ Joined id k) →
    (∀ k val, ph = Returned k (Ok val) → ∃ tf, (k, val, tf) ∈ fetched v ∧ t0 < tf + ttl) → inv ttl (set_thread v t ph)) as Hset.
  { intros ph ? Hj ?. eapply set_thread_inv; [done|exact Ht|done|done| |done]. intros id k ->. by destruct (Hj id k). }
  case_decide; [by apply Hset|]. destruct (cache v !! TrimSpace key) as [e|] eqn:Ec; [|by apply Hset].
  destruct (Time.Before _ _) eqn:Eb; [|by apply Hset]. apply Before_true in Eb.
  assert (inv ttl (set_thread v t (Returned (TrimSpace key) (Ok (value e))))) as Hs.
  { apply Hset; [done|done|]. intros k val [= <- <-]. exists (expiresAt e - ttl). split; [by apply inv_cache|lia]. }
  case_match; [|done]. apply spawn_inv; eauto.
Qed.

Lemma join_or_fetch_inv ttl v t key t0 :
  inv ttl v → threads v !! t = Some (Missed key, t0) → inv ttl (join_or_fetch v t key).
Proof.
  intros Hv Ht. unfold join_or_fetch. destruct (inflight v !! key) as [id|] eqn:Ef.
  { eapply set_thread_inv; [done|exact Ht|done|done| |done]. by intros id' k [= <- <-]. }
  destruct Hv as [H1 Hi H2 H3 H4 H5 H6 H7 H8].
  assert (∀ t' ph s, threads (set_thread v t (Fetching (next_id v) key)) !! t' = Some (ph, s) →
    (t' = t ∧ ph = Fetching (next_id v) key ∧ s = t0) ∨ (t' ≠ t ∧ threads v !! t' = Some (ph, s))) as Hl.
  { intros t' ph s [(-> & E & ph0 & E')|?]%set_thread_lookup; [left; cbn in *; simplify_eq; done|by right]. }
  split; cbn [cache inflight calls next_id threads now fetched].
  - intros k id. rewrite lookup_insert_Some, H1. split.
    + intros [[<- <-]|[Hn (t' & s & E)]]; [exists t, t0; by eapply set_thread_lookup_eq|].
      exists t', s. rewrite set_thread_lookup_ne; [done|]. intros ->. congruence.
    + intros (t' & s & [(-> & [= -> ->] & _)|[Hn E]]%Hl); [by left|]. right. split; [|eauto].
      intros ->. rewrite (proj2 (H1 k id)) in Ef by eauto. done.
  - intros k k' id. rewrite !lookup_insert_Some. intros [[<- <-]|[? E]] [[<- Ei]|[? E']]; [done| | |by eapply Hi].
    + apply H3 in E' as [? _]; lia.
    + subst. apply H3 in E as [? _]; lia.
  - intros a b id id' k s s' [(-> & [= -> ->] & _)|[Ha Ea]]%Hl [(-> & Eb & _)|[Hb Eb]]%Hl; [done| | |by eapply H2].
    + rewrite (proj2 (H1 key id')) in Ef by eauto. done.
    + simplify_eq. rewrite (proj2 (H1 key id)) in Ef by eauto. done.
  - intros k id. rewrite lookup_insert_Some. intros [[<- <-]|[_ E]].
    + split; [lia|]. apply eq_None_not_Some. intros [r ?%H4]. lia.
    + apply H3 in E as [? ?]. split; [lia|done].
  - intros id r ?%H4. lia.
  - intros a id k s [(_ & ? & _)|[_ E]]%Hl; [done|]. destruct (H5 _ _ _ _ E) as [Hk|?]; [left|by right].
    rewrite lookup_insert_ne; [done|]. intros ->. congruence.
  - done.
  - intros a ph s [(-> & _ & ->)|[_ E]]%Hl; by eapply H7.
  - intros a k val s [(_ & ? & _)|[_ E]]%Hl; [done|by eapply H8].
Qed.

Lemma finish_fetch_inv ttl v t id key t0 r :
  0 < ttl → inv ttl v → threads v !! t = Some (Fetching id key, t0) → inv ttl (finish_fetch ttl v t id key r).
Proof.
  intros Hp [H1 Hi H2 H3 H4 H5 H6 H7 H8] Ht. pose proof (H7 _ _ _ Ht) as Hn.
  assert (inflight v !! key = Some id) as Hf by (apply H1; eauto).
  assert (∀ t' ph s, threads (set_thread v t (Returned key r)) !! t' = Some (ph, s) →
    (t' = t ∧ ph = Returned key r ∧ s = t0) ∨ (t' ≠ t ∧ threads v !! t' = Some (ph, s))) as Hl.
  { intros t' ph s [(-> & E & ph0 & E')|?]%set_thread_lookup; [left; cbn in *; simplify_eq; done|by right]. }
  assert (∀ x, x ∈ fetched v → x ∈ fetched (finish_fetch ttl v t id key r)) as Hm.
  { intros x Hx. cbn. destruct r; [by apply list_elem_of_further|done]. }
  assert (∀ val, r = Ok val → (key, val, now v) ∈ fetched (finish_fetch ttl v t id key r)) as Hnew.
  { intros val ->. apply list_elem_of_here. }
  split.
  - intros k id'. cbn [inflight threads finish_fetch]. rewrite lookup_delete_Some, H1. split.
    + intros [Hk (t' & s & E)]. exists t', s. rewrite set_thread_lookup_ne; [done|]. intros ->. congruence.
    + intros (t' & s & [(_ & ? & _)|[Hne E]]%Hl); [done|]. split; [|eauto]. intros ->. by apply Hne, (H2 _ _ _ _ _ _ _ E Ht).
  - intros k k' id'. cbn [inflight finish_fetch]. rewrite !lookup_delete_Some. intros [_ ?] [_ ?]. by eapply Hi.
  - intros a b i i' k s s' [(_ & ? & _)|[_ Ea]]%Hl [(_ & ? & _)|[_ Eb]]%Hl; [done..|by eapply H2].
  - intros k id'. cbn [inflight next_id calls finish_fetch]. rewrite lookup_delete_Some. intros [Hk E].
    destruct (H3 _ _ E). split; [done|]. rewrite lookup_insert_ne; [done|]. intros ->. by destruct (Hi _ _ _ Hf E).
  - intros id' r'. cbn [calls next_id finish_fetch]. rewrite lookup_insert_Some. intros [[<- _]|[_ ?%H4]]; [by apply (H3 key)|done].
  - intros a i k s [(_ & ? & _)|[_ E]]%Hl; [done|]. pose proof (H7 _ _ _ E). cbn [inflight calls finish_fetch].
    destruct (H5 _ _ _ _ E) as [Hk|(r' & Hr & Hv)].
    + destruct (decide (i = id)) as [->|Hd].
      * right. exists r. rewrite lookup_insert_eq. split; [done|]. intros val Hval.
        rewrite (Hi _ _ _ Hk Hf). exists (now v). auto.
      * left. rewrite lookup_delete_ne; [done|]. intros ->. congruence.
    + right. exists r'. rewrite lookup_insert_ne; [split; [done|naive_solver]|]. intros ->.
      destruct (H3 _ _ Hf). congruence.
  - intros k e. cbn [cache finish_fetch]. destruct r as [val|]; [|by intros ?%H6].
    rewrite lookup_insert_Some. intros [[<- <-]|[_ ?%H6]]; [|by apply Hm]. cbn. unfold Time.Add.
    replace (now v + ttl - ttl) with (now v) by lia. by apply Hnew.
  - intros a ph s [(-> & _ & ->)|[_ E]]%Hl; by eapply H7.
  - intros a k val s [(-> & [= -> <-] & ->)|[_ E]]%Hl; [exists (now v); split; [by apply Hnew|lia]|].
    destruct (H8 _ _ _ _ E) as (tf & ? & ?). eauto.
Qed.

Lemma advance_inv ttl v d : 0 ≤ d → inv ttl v → inv ttl (advance v d).
Proof. intros Hd [? ? ? ? ? ? ? H7 ?]. split; try done. intros t ph t0 E%H7. cbn. lia. Qed.

Lemma vault_step_inv ttl v v' : 0 < ttl → step ttl v v' → inv ttl v → inv ttl v'.
Proof.
  intros Hp Hs Hv. destruct Hs as [v key|v t key t0 Ht|v t key t0 Ht|v t id key t0 r Ht|v t id key t0 r Ht Hc|v t id key t0 Ht|v d Hd].
  - apply spawn_inv; eauto.
  - by eapply get_cached_inv.
  - by eapply join_or_fetch_inv.
  - by eapply finish_fetch_inv.
  - eapply set_thread_inv; [done|exact Ht|done|done|done|]. intros k val [= <- ->].
    destruct (inv_joined _ _ Hv _ _ _ _ Ht) as [Hf|(r & Hr & Hfetched)].
    + destruct (inv_next _ _ Hv _ _ Hf). congruence.
    + simplify_eq. destruct (Hfetched _ eq_refl) as (tf & ? & ?). exists tf. split; [done|lia].
  - by eapply set_thread_inv.
  - by apply advance_inv.
Qed.

Lemma started_inv ttl t0 : inv ttl (started t0).
Proof.
  split; cbn; try by intros; simplify_map_eq.
  intros k id. split; [by intros; simplify_map_eq|]. by intros (t & s & ?).
Qed.

Lemma vault_reachable_inv ttl t0 v : 0 < ttl → rtc (step ttl) (started t0) v → inv ttl v.
Proof.
  intros Hp Hr. assert (inv ttl (started t0)) as Hv by apply started_inv. induction Hr as [v|v v' v'' Hs _ IH]; [done|].
  apply IH. by eapply vault_step_inv.
Qed.

(** C14: however callers, refreshes, answers, cancellations and the clock
    interleave, at most one request per key is outstanding; a caller that
    joined a fetch can return or the fetch it waits for is still running;
    and a secret that was returned is one Vault gave for that very key less
    than the TTL before the call began, or later. *)
Theorem vault_single_flight ttl t0 v :
  0 < ttl → rtc (step ttl) (started t0) v →
  (∀ t t' id id' k s s', threads v !! t = Some (Fetching id k, s) → threads v !! t' = Some (Fetching id' k, s') → t = t') ∧
  (∀ t id k s, threads v !! t = Some (Joined id k, s) →
     is_Some (calls v !! id) ∨ ∃ t' s', threads v !! t' = Some (Fetching id k, s')) ∧
  (∀ t k val s, threads v !! t = Some (Returned k (Ok val), s) → ∃ tf, (k, val, tf) ∈ fetched v ∧ s < tf + ttl).
Proof.
  intros Hp Hv%vault_reachable_inv; [|done]. split_and!.
  - apply (inv_one _ _ Hv).
  - intros t id k s [Hf|(r & Hr & _)]%(inv_joined _ _ Hv); [right; by apply (inv_flight _ _ Hv)|left; eauto].
  - apply (inv_served _ _ Hv).
Qed.
End Vault.

(** ** Concrete runs *)
Module Runs.
Import Rotation Providers Vault.

(** Two callers of one key share the fetch of the first. *)
Definition shared (r : result secret_error string) : vault :=
  let v := spawn (spawn (started 0) (Called "DB")) (Called " DB ") in
  let v := get_cached 10 (get_cached 10 v 0 "DB") 1 " DB " in
  let v := join_or_fetch (join_or_fetch v 0 "DB") 1 "DB" in
  let v := finish_fetch 10 (advance v 3) 0 0 "DB" r in
  set_thread v 1 (Returned "DB" r).

Lemma shared_reachable r : rtc (step 10) (started 0) (shared r).
Proof.
  unfold shared.
  eapply rtc_l; [apply (step_call _ _ "DB")|]. eapply rtc_l; [apply (step_call _ _ " DB ")|].
  eapply rtc_l; [apply (step_get 10 _ 0 "DB" 0); reflexivity|]. eapply rtc_l; [apply (step_get 10 _ 1 " DB " 0); reflexivity|].
  eapply rtc_l; [apply (step_join 10 _ 0 "DB" 0); reflexivity|]. eapply rtc_l; [apply (step_join 10 _ 1 "DB" 0); reflexivity|].
  eapply rtc_l; [apply (step_time 10 _ 3); lia|]. eapply rtc_l; [apply (step_finish 10 _ 0 0 "DB" 0 r); reflexivity|].
  eapply rtc_l; [apply (step_wake 10 _ 1 0 "DB" 0 r); reflexivity|]. apply rtc_refl.
Qed.

Lemma vault_single_flight_witness :
  threads (shared (Ok "s3cret")) = [(Returned "DB" (Ok "s3cret"), 0); (Returned "DB" (Ok "s3cret"), 0)] ∧
  ∃ tf, ("DB", "s3cret", tf) ∈ fetched (shared (Ok "s3cret")) ∧ 0 < tf + 10.
Proof.
  split; [vm_compute; reflexivity|].
  destruct (vault_single_flight 10 0 (shared (Ok "s3cret")) ltac:(lia) (shared_reachable _)) as (_ & _ & H).
  exact (H 1%nat "DB" "s3cret" 0 ltac:(vm_compute; reflexivity)).
Defined.

(** A caller whose context is live fails when the context of the caller it
    joined is cancelled. *)
Lemma timeout_shared :
  rtc (step 10) (started 0) (shared (Err ErrProviderTimeout)) ∧
  threads (shared (Err ErrProviderTimeout)) !! 1%nat = Some (Returned "DB" (Err ErrProviderTimeout), 0).
Proof. split; [apply shared_reachable|vm_compute; reflexivity]. Qed.

(** A cadence of 106752 days does not fit 64 bits and comes out negative. *)
Example cadence_wraps :
  (ParseDurationLikeRotation (λ _, None) " 90D ", ParseDurationLikeRotation (λ _, None) "106752d") =
  (Some (90 * 24 * Time.Hour), Some (-9223371273709551616)).
Proof. vm_compute. reflexivity. Qed.

(** A secret without an owner, or with a null value, prints as a nil. *)
Example nil_owner :
  match Vault_Metadata (λ _, Some {["rotation_cadence" := jstring "30d"; "last_rotated_at" := jstring "2024-01-01T00:00:00Z"]})
          (λ _, None) "DB" (Response 200 (Some "")) with
  | Ok md => Some (Owner md, FormatRFC3339 (NextRotationDueAt md))
  | Err _ => None
  end = Some ("<nil>", "2024-01-31T00:00:00Z").
Proof. vm_compute. reflexivity. Qed.

Example vault_urls :
  let p := NewVaultProvider "https://vault:8200/" "t" "secret/data" in
  (secret_url p "DB", fetchFromVault (λ _, Some {["value" := jstring "x"]}) "DB" (Response 200 (Some "")),
   fetchFromVault (λ _, None) "DB" (Response 503 None)) =
  ("https://vault:8200/v1/secret/data/DB", Ok "x", Err (ErrProviderFailed "vault returned status 503")).
Proof. vm_compute. reflexivity. Qed.
End Runs.
