(* ===== verification/AppConfig.v ===== *)
(** * Configuration

    - [Load] models [internal/config/config.go]: reading the environment,
      bounds, strength of secrets, defaults and cross-field rules;
    - [Dump] models [internal/config/config_dump.go]: the redacted snapshot.

    The environment is a function; [url.Parse], the Unicode classes,
    [strconv.ParseFloat] and [os.Stat] are parameters. *)
From Stdlib Require Import ZArith Lia Ascii String.
From stdpp Require Import base gmap strings list.
From S2P Require Import Prelude GoStrings GoFloat Secrets.
#[local] Open Scope string_scope.
#[local] Open Scope Z_scope.

(** ** Loading *)
Module Load.
Import Secrets.Providers.

Inductive ConfigErrorType := ErrMissingEnvVar | ErrInvalidPort | ErrInvalidURL | ErrWeakSecret | ErrInvalidValue | ErrValidationFailed.
Record ConfigError := { Type_ : ConfigErrorType; Key : string; Message : string; Value : string }.
(** The messages of the warnings, with what they are formatted from. *)
Inductive Warning :=
  | InvalidVar (key raw : string) (lo hi dflt : Z)
  | InvalidEnabled (raw : string)
  | InvalidCacheMode (raw : string)
  | MinAboveMax (min max : Z)
  | IdleAboveLifetime (idle lifetime : Z)
  | PreparedUnderPgBouncer.
Record ValidationResult := { Errors : list ConfigError; Warnings : list Warning }.
Definition Valid (r : ValidationResult) : bool := match Errors r with [] => true | _ => false end.

Record Config := {
  Env : string;
  Port : Z;
  DBConn : string;
  JWTSecret : string;
  JWKSURL : string;
  cfg_MaxHeaderBytes : Z;
  ReadTimeout : Z;
  WriteTimeout : Z;
  IdleTimeout : Z;
  AllowedOrigins : string;
  AdminToken : string;
  DBReplicaConn : string;
  RateLimitEnabled : bool;
  RateLimitMode : string;
  RateLimitRPS : Z;
  RateLimitBurst : Z;
  RateLimitWhitelist : list string;
  RateLimitTenantRPS : Z;
  RateLimitTenantBurst : Z;
  TracingExporter : string;
  TracingServiceName : string;
  SecurityFrameAncestors : string;
  SecurityCSPReportURI : string;
  CSPReportRPS : Z;
  CSPReportBurst : Z;
  SpiffeSocketPath : string;
  SpiffeTrustDomain : string;
  MaxRequestSize : Z;
  MaxGzipUncompressed : Z;
  MaxGzipRatio : float64;
  MaxGzipCompressed : Z;
  RedisURL : string;
  CacheTTL : Z;
  DBPoolMaxConns : Z;
  DBPoolMinConns : Z;
  DBPoolMaxConnLifetime : Z;
  DBPoolMaxConnIdleTime : Z;
  DBPoolConnectTimeout : Z;
  DBPoolHealthCheckPeriod : Z;
  DBPoolMetricsInterval : Z;
  DBBreakerMaxFailures : Z;
  DBBreakerTimeoutSeconds : Z;
  DBBreakerHalfOpenMaxRequests : Z;
  PgBouncerEnabled : bool;
  PgBouncerHost : string;
  PgBouncerPort : Z;
  DBStatementCacheMode : string;
  PgBouncerIdleInTxTimeout : Z;
  GracefulShutdownTimeout : Z;
  ConcurrencyCapsPath : string;
  OTelLogsEnabled : bool;
  OutboxPublisherURL : string;
  OutboxPublisherTimeout : Z;
  OutboxPublisherCAFile : string;
}.

Definition DefaultPort : Z := 8080.
Definition MinPort : Z := 1.
Definition MaxPort : Z := 65535.
Definition MinSecretLength : Z := 12.
Definition MaxHeaderBytes : Z := Z.shiftl 1 20.
Definition MinHeaderBytes : Z := 1024.
Definition MaxAllowedHeaderBytes : Z := Z.shiftl 10 20.
Definition MinTimeoutSeconds : Z := 1.
Definition MaxTimeoutSeconds : Z := 600.
Definition MinRateLimitRPS : Z := 1.
Definition MaxRateLimitRPS : Z := 1000.
Definition MinRateLimitBurst : Z := 1.
Definition MaxRateLimitBurst : Z := 2000.
Definition MinDBPoolMaxConns : Z := 1.
Definition MaxDBPoolMaxConns : Z := 500.
Definition MinDBPoolTimeout : Z := 1.
Definition MaxDBPoolTimeout : Z := 300.

(** *** URLs and secrets *)
Record parsed_url := { Scheme : string; Host : string; Path : string; Opaque_ : string; Password : option string }.

Section load.
Context (url_Parse : string → option parsed_url) (ParseFloat : string → option float64).
(** [Some true] is a directory, [Some false] another file. *)
Context (stat : string → option bool).
Inductive rune_kind := Upper | Lower | Digit | Special | OtherRune.
Context (rune_class : Z → rune_kind).
Context (getenv : string → string).

Definition isValidDatabaseURL (dbURL : string) : bool :=
  if decide (dbURL = "") then false
  else match url_Parse dbURL with
  | None => false
  | Some parsed =>
      if decide (Scheme parsed = "") then false
      else
        let scheme := ToLower (Scheme parsed) in
        if negb (bool_decide (scheme ∈ ["postgres"; "postgresql"; "mysql"; "sqlite"; "sqlite3"; "mongodb"; "redis"]))
           && negb (Contains scheme "sql") then false
        else if decide (scheme = "sqlite" ∨ scheme = "sqlite3")
        then bool_decide (Path parsed ≠ "") || bool_decide (Opaque_ parsed ≠ "")
        else bool_decide (Host parsed ≠ "")
  end.

Definition isValidJWKSURL (rawURL : string) : bool :=
  match url_Parse rawURL with
  | None => false
  | Some parsed =>
      let scheme := ToLower (Scheme parsed) in
      (bool_decide (scheme = "https") || bool_decide (scheme = "http")) && bool_decide (Host parsed ≠ "")
  end.

Definition has_kind (k : rune_kind) (secret : string) : bool :=
  existsb (λ r, match rune_class r, k with
                | Upper, Upper | Lower, Lower | Digit, Digit | Special, Special => true
                | _, _ => false
                end) (runes secret).

Definition isValidSecret (secret : string) : bool :=
  if Z.of_nat (String.length secret) <? MinSecretLength then false
  else has_kind Upper secret && has_kind Lower secret && has_kind Digit secret && has_kind Special secret.

(** [strings.Replace(s, old, new, 1)] *)
Fixpoint replace_first (s old new : string) : string :=
  if HasPrefix s old then (new +:+ drop_str (String.length old) s)%string
  else match s with EmptyString => EmptyString | String c s => String c (replace_first s old new) end.

Definition maskPassword (dbURL : string) : string :=
  match url_Parse dbURL with
  | None => "***"
  | Some parsed =>
      match Password parsed with
      | None => dbURL
      | Some password => if decide (password = "") then dbURL else replace_first dbURL password "***"
      end
  end.

Definition maskSecret (secret : string) : string :=
  let n := String.length secret in
  if (n <=? 8)%nat then "***" else substring 0 4 secret +:+ "***" +:+ drop_str (n - 4) secret.

(** *** Reading variables *)
Definition getEnv (key fallback : string) : string := if decide (getenv key = "") then fallback else getenv key.

Fixpoint getEnvFirst (fallback : string) (keys : list string) : string :=
  match keys with
  | [] => fallback
  | key :: keys => if decide (getenv key = "") then getEnvFirst fallback keys else getenv key
  end.

(** [strconv.Atoi], and [ParseInt] of 64 bits, are the same on this platform. *)
Definition getEnvInt (key : string) (fallback : Z) : Z :=
  if decide (getenv key = "") then fallback else default fallback (ParseInt (getenv key)).
Definition getEnvInt64 : string → Z → Z := getEnvInt.
Definition getEnvBool (key : string) (fallback : bool) : bool :=
  if decide (getenv key = "") then fallback else default fallback (ParseBool (getenv key)).
Definition getEnvFloat64 (key : string) (fallback : float64) : float64 :=
  if decide (getenv key = "") then fallback else default fallback (ParseFloat (getenv key)).

Definition secretKeys : list string := ["DATABASE_URL"; "JWT_SECRET"; "ADMIN_TOKEN"; "REDIS_URL"].

(** [resolveSecrets]: the answer of the provider for each key. *)
Definition resolveSecrets (p : Provider) : string → result secret_error string := GetSecret p false.

Definition secret_name (e : secret_error) : string :=
  match e with ErrSecretNotFound => "secret not found" | ErrProviderTimeout => "provider timeout" | ErrProviderFailed m => m end.

(** *** Settings

    Each step of [validate] reads one variable; it answers with the value the
    field then has and the errors it adds. *)
Definition invalid (t : ConfigErrorType) (key msg val : string) : ConfigError :=
  {| Type_ := t; Key := key; Message := msg; Value := val |}.

Definition between (lo hi : Z) : string := "must be between " +:+ Itoa lo +:+ " and " +:+ Itoa hi.

Definition int_setting (key : string) (lo hi : Z) (msg : string) (old : Z) : Z * list ConfigError :=
  let val := getenv key in
  if decide (val = "") then (old, [])
  else match ParseInt val with
  | Some n => if (lo <=? n) && (n <=? hi) then (n, []) else (old, [invalid ErrInvalidValue key msg val])
  | None => (old, [invalid ErrInvalidValue key msg val])
  end.

Definition seconds_setting (key : string) (old : Z) : Z * list ConfigError :=
  int_setting key MinTimeoutSeconds MaxTimeoutSeconds (between MinTimeoutSeconds MaxTimeoutSeconds +:+ " seconds") old.

(** A variable with a default of its own. *)
Definition int_setting_or (key : string) (lo hi : Z) (dflt old : Z) : Z * list ConfigError :=
  if decide (getenv key = "") then (dflt, []) else int_setting key lo hi (between lo hi) old.

Definition port_setting (old : Z) : Z * list ConfigError :=
  let val := getenv "PORT" in
  if decide (val = "") then (old, [])
  else match ParseInt val with
  | None => (old, [invalid ErrInvalidPort "PORT" "must be a valid integer" val])
  | Some port =>
      if (port <? MinPort) || (MaxPort <? port)
      then (old, [invalid ErrInvalidPort "PORT" (between MinPort MaxPort) val]) else (port, [])
  end.

Definition bool_setting (key : string) (old : bool) : bool * list ConfigError :=
  let val := getenv key in
  if decide (val = "") then (old, [])
  else match ParseBool val with
  | Some b => (b, [])
  | None => (old, [invalid ErrInvalidValue key "must be a valid boolean" val])
  end.

Definition enum_setting (key : string) (values : list string) (msg : string) (old : string) : string * list ConfigError :=
  let val := getenv key in
  if decide (val = "") then (old, [])
  else if decide (val ∈ values) then (val, []) else (old, [invalid ErrInvalidValue key msg val]).

(** The four secrets must be there; JWKS_URL stands in for JWT_SECRET. *)
Definition missing_secrets (resolved : string → result secret_error string) : list ConfigError :=
  concat (map (λ key,
    match resolved key with
    | Ok _ => []
    | Err e =>
        if decide (key = "JWT_SECRET" ∧ getenv "JWKS_URL" ≠ "") then []
        else match e with
             | ErrSecretNotFound => [invalid ErrMissingEnvVar key "required secret is missing" ""]
             | e => [invalid ErrValidationFailed key ("failed to retrieve secret: " +:+ secret_name e) ""]
             end
    end) secretKeys).

Definition db_setting (resolved : string → result secret_error string) (old : string) : string * list ConfigError :=
  match resolved "DATABASE_URL" with
  | Err _ => (old, [])
  | Ok dbURL =>
      if isValidDatabaseURL dbURL then (dbURL, [])
      else (old, [invalid ErrInvalidURL "DATABASE_URL" "must be a valid database connection string" (maskPassword dbURL)])
  end.

Definition jwt_setting (resolved : string → result secret_error string) (old : string) : string * list ConfigError :=
  match resolved "JWT_SECRET" with
  | Err _ => (old, [])
  | Ok secret =>
      if decide (getenv "JWKS_URL" = "" ∨ secret ≠ "") then
        if isValidSecret secret then (secret, [])
        else (old, [invalid ErrWeakSecret "JWT_SECRET"
                      ("must be at least " +:+ Itoa MinSecretLength +:+
                       " characters and contain mixed alphanumeric and special characters") (maskSecret secret)])
      else (old, [])
  end.

Definition jwks_setting (old : string) : string * list ConfigError :=
  let val := getenv "JWKS_URL" in
  if decide (val = "") then (old, [])
  else if isValidJWKSURL val then (val, [])
  else (old, [invalid ErrInvalidURL "JWKS_URL" "must be a valid absolute URL with http or https scheme" val]).

Definition admin_setting (resolved : string → result secret_error string) (old : string) : string * list ConfigError :=
  match resolved "ADMIN_TOKEN" with
  | Err _ => (old, [])
  | Ok token =>
      if isValidSecret token then (token, [])
      else (old, [invalid ErrWeakSecret "ADMIN_TOKEN"
                    ("must be at least " +:+ Itoa MinSecretLength +:+
                     " characters and contain upper/lower/digit/special characters") (maskSecret token)])
  end.

Definition burst_rule (key rps_key : string) (rps burst : Z) : list ConfigError :=
  if burst <? rps
  then [invalid ErrInvalidValue key ("must be greater than or equal to " +:+ rps_key) (Itoa burst)] else [].

(** The default and the rule of the tenant limiter, once its rate is set. *)
Definition tenant_burst (rps burst : Z) : Z * list ConfigError :=
  if 0 <? rps then
    let burst := if burst =? 0 then rps * 2 else burst in
    (burst, burst_rule "RATE_LIMIT_TENANT_BURST" "RATE_LIMIT_TENANT_RPS" rps burst)
  else (burst, []).

Definition bad_path (clean : string) : bool := bool_decide (clean = "") || negb (HasPrefix clean "/").
Definition whitelist_setting : list string * list ConfigError :=
  let val := getenv "RATE_LIMIT_WHITELIST" in
  if decide (val = "") then (["/api/health"], [])
  else
    let paths := map TrimSpace (split_char "," val) in
    (paths, map (invalid ErrInvalidValue "RATE_LIMIT_WHITELIST"
                   "each whitelist path must be non-empty and start with '/'") (List.filter bad_path paths)).

Definition publisher_url_setting (old : string) : string * list ConfigError :=
  let val := getenv "OUTBOX_PUBLISHER_URL" in
  if decide (val = "") then (old, [])
  else
    let ok := match url_Parse val with
              | None => false
              | Some u => (bool_decide (Scheme u = "http") || bool_decide (Scheme u = "https")) && bool_decide (Host u ≠ "")
              end in
    (val, if ok then [] else [invalid ErrInvalidURL "OUTBOX_PUBLISHER_URL" "must be a valid http(s) URL" val]).

Definition ca_file_setting (old : string) : string * list ConfigError :=
  let val := getenv "OUTBOX_PUBLISHER_CA_FILE" in
  if decide (val = "") then (old, [])
  else (val, match stat val with
             | Some false => []
             | _ => [invalid ErrInvalidValue "OUTBOX_PUBLISHER_CA_FILE" "must reference an existing CA bundle file" val]
             end).

(** *** Settings that only warn *)
Definition warn_setting (parse : string → option Z) (key : string) (lo hi dflt old : Z) : Z * list Warning :=
  let raw := getenv key in
  if decide (raw = "") then (old, [])
  else match parse raw with
  | Some n => if (n <? lo) || (hi <? n) then (old, [InvalidVar key raw lo hi dflt]) else (n, [])
  | None => (old, [InvalidVar key raw lo hi dflt])
  end.
Definition pool_setting : string → Z → Z → Z → Z → Z * list Warning := warn_setting ParseInt.

(** [strconv.ParseUint(raw, 10, 32)]: digits only, below [2^32]. *)
Definition ParseUint32 (s : string) : option Z :=
  if decide (s = "") then None
  else match parse_digits 0 s with Some n => if n <? 2 ^ 32 then Some n else None | None => None end.
Definition breaker_setting : string → Z → Z → Z → Z → Z * list Warning := warn_setting ParseUint32.

(** The seven variables of the pool. *)
Record pool := { max_conns : Z; min_conns : Z; lifetime : Z; idle_time : Z; connect : Z; health : Z; metrics : Z }.

Definition validateDBPool (c : pool) : pool * list Warning :=
  let '(mx, w1) := pool_setting "DB_POOL_MAX_CONNS" MinDBPoolMaxConns MaxDBPoolMaxConns 25 (max_conns c) in
  let '(mn, w2) := pool_setting "DB_POOL_MIN_CONNS" 0 MaxDBPoolMaxConns 2 (min_conns c) in
  let '(lt, w3) := pool_setting "DB_POOL_MAX_CONN_LIFETIME" MinDBPoolTimeout 86400 3600 (lifetime c) in
  let '(it, w4) := pool_setting "DB_POOL_MAX_CONN_IDLE_TIME" MinDBPoolTimeout 86400 600 (idle_time c) in
  let '(ct, w5) := pool_setting "DB_POOL_CONNECT_TIMEOUT" MinDBPoolTimeout MaxDBPoolTimeout 5 (connect c) in
  let '(hp, w6) := pool_setting "DB_POOL_HEALTH_CHECK_PERIOD" MinDBPoolTimeout MaxDBPoolTimeout 30 (health c) in
  let '(mi, w7) := pool_setting "DB_POOL_METRICS_INTERVAL" MinDBPoolTimeout MaxDBPoolTimeout 15 (metrics c) in
  let '(mn', w8) := if mx <? mn then (mx, [MinAboveMax mn mx]) else (mn, []) in
  let w9 := if lt <=? it then [IdleAboveLifetime it lt] else [] in
  ({| max_conns := mx; min_conns := mn'; lifetime := lt; idle_time := it; connect := ct; health := hp; metrics := mi |},
   concat [w1; w2; w3; w4; w5; w6; w7; w8; w9]).

Record breaker := { max_failures : Z; timeout_seconds : Z; half_open : Z }.
Definition validateDBBreaker (c : breaker) : breaker * list Warning :=
  let '(mf, w1) := breaker_setting "DB_BREAKER_MAX_FAILURES" 1 100 5 (max_failures c) in
  let '(ts, w2) := breaker_setting "DB_BREAKER_TIMEOUT_SECONDS" 1 300 30 (timeout_seconds c) in
  let '(ho, w3) := breaker_setting "DB_BREAKER_HALF_OPEN_MAX_REQUESTS" 1 20 1 (half_open c) in
  ({| max_failures := mf; timeout_seconds := ts; half_open := ho |}, concat [w1; w2; w3]).

Record bouncer := { pb_enabled : bool; pb_host : string; pb_port : Z; cache_mode : string; idle_in_tx : Z }.
Definition cache_modes : list string := ["describe"; "prepare"; "simple"].
Definition validatePgBouncer (c : bouncer) : bouncer * list Warning :=
  let val := getenv "PGBOUNCER_ENABLED" in
  let '(en, w1) := if decide (val = "") then (pb_enabled c, [])
                   else match ParseBool val with
                        | Some b => (b, [])
                        | None => (pb_enabled c, [InvalidEnabled val])
                        end in
  let host := getEnv "PGBOUNCER_HOST" (pb_host c) in
  let '(port, w2) := pool_setting "PGBOUNCER_PORT" 1 65535 5432 (pb_port c) in
  let val := getenv "DB_STATEMENT_CACHE_MODE" in
  let '(mode, w3) := if decide (val = "") then (cache_mode c, [])
                     else if decide (val ∈ cache_modes) then (val, [])
                     else (cache_mode c, [InvalidCacheMode val]) in
  let w4 := if en && bool_decide (mode = "prepare") then [PreparedUnderPgBouncer] else [] in
  let '(idle, w5) := pool_setting "PGBOUNCER_IDLE_IN_TX_TIMEOUT" MinDBPoolTimeout 86400 30 (idle_in_tx c) in
  ({| pb_enabled := en; pb_host := host; pb_port := port; cache_mode := mode; idle_in_tx := idle |},
   concat [w1; w2; w3; w4; w5]).

(** *** [validate]: the fields it leaves in the configuration, and its findings *)
Definition validate (resolved : string → result secret_error string) (c : Config) : Config * ValidationResult :=
  let e0 := missing_secrets resolved in
  let '(port, e1) := port_setting (Port c) in
  let '(db, e2) := db_setting resolved (DBConn c) in
  let '(jwt, e3) := jwt_setting resolved (JWTSecret c) in
  let '(jwks, e4) := jwks_setting (JWKSURL c) in
  let '(admin, e5) := admin_setting resolved (AdminToken c) in
  let '(hdr, e6) := int_setting "MAX_HEADER_BYTES" MinHeaderBytes MaxAllowedHeaderBytes
                      (between MinHeaderBytes MaxAllowedHeaderBytes) (cfg_MaxHeaderBytes c) in
  let '(rd, e7) := seconds_setting "READ_TIMEOUT" (ReadTimeout c) in
  let '(wr, e8) := seconds_setting "WRITE_TIMEOUT" (WriteTimeout c) in
  let '(idl, e9) := seconds_setting "IDLE_TIMEOUT" (IdleTimeout c) in
  let '(rle, e10) := bool_setting "RATE_LIMIT_ENABLED" (RateLimitEnabled c) in
  let '(mode, e11) := enum_setting "RATE_LIMIT_MODE" ["ip"; "user"; "hybrid"] "must be one of: ip, user, hybrid" (RateLimitMode c) in
  let '(rps, e12) := int_setting_or "RATE_LIMIT_RPS" MinRateLimitRPS MaxRateLimitRPS 10 (RateLimitRPS c) in
  let '(burst, e13) := int_setting_or "RATE_LIMIT_BURST" MinRateLimitBurst MaxRateLimitBurst 20 (RateLimitBurst c) in
  let e14 := burst_rule "RATE_LIMIT_BURST" "RATE_LIMIT_RPS" rps burst in
  let '(trps, e15) := int_setting "RATE_LIMIT_TENANT_RPS" 1 1000 (between 1 1000) (RateLimitTenantRPS c) in
  let '(tb, e16) := int_setting "RATE_LIMIT_TENANT_BURST" 1 2000 (between 1 2000) (RateLimitTenantBurst c) in
  let '(tburst, e17) := tenant_burst trps tb in
  let '(wl, e18) := whitelist_setting in
  let '(exp, e19) := enum_setting "TRACING_EXPORTER" ["stdout"; "otlp"; "none"] "must be one of: stdout, otlp, none" (TracingExporter c) in
  let svc := getEnv "TRACING_SERVICE_NAME" (TracingServiceName c) in
  let '(gst, e20) := seconds_setting "GRACEFUL_SHUTDOWN_TIMEOUT" (GracefulShutdownTimeout c) in
  let '(opt, e21) := seconds_setting "OUTBOX_PUBLISHER_TIMEOUT" (OutboxPublisherTimeout c) in
  let '(opu, e22) := publisher_url_setting (OutboxPublisherURL c) in
  let '(caf, e23) := ca_file_setting (OutboxPublisherCAFile c) in
  let '(p, w1) := validateDBPool
    {| max_conns := DBPoolMaxConns c; min_conns := DBPoolMinConns c; lifetime := DBPoolMaxConnLifetime c;
       idle_time := DBPoolMaxConnIdleTime c; connect := DBPoolConnectTimeout c; health := DBPoolHealthCheckPeriod c;
       metrics := DBPoolMetricsInterval c |} in
  let '(b, w2) := validateDBBreaker
    {| max_failures := DBBreakerMaxFailures c; timeout_seconds := DBBreakerTimeoutSeconds c;
       half_open := DBBreakerHalfOpenMaxRequests c |} in
  let '(g, w3) := validatePgBouncer
    {| pb_enabled := PgBouncerEnabled c; pb_host := PgBouncerHost c; pb_port := PgBouncerPort c;
       cache_mode := DBStatementCacheMode c; idle_in_tx := PgBouncerIdleInTxTimeout c |} in
  ({| Env := getEnv "ENV" "development"; Port := port; DBConn := db; JWTSecret := jwt; JWKSURL := jwks;
      cfg_MaxHeaderBytes := hdr; ReadTimeout := rd; WriteTimeout := wr; IdleTimeout := idl;
      AllowedOrigins := AllowedOrigins c; AdminToken := admin; DBReplicaConn := DBReplicaConn c;
      RateLimitEnabled := rle; RateLimitMode := mode; RateLimitRPS := rps; RateLimitBurst := burst;
      RateLimitWhitelist := wl; RateLimitTenantRPS := trps; RateLimitTenantBurst := tburst;
      TracingExporter := exp; TracingServiceName := svc; SecurityFrameAncestors := SecurityFrameAncestors c;
      SecurityCSPReportURI := SecurityCSPReportURI c; CSPReportRPS := CSPReportRPS c; CSPReportBurst := CSPReportBurst c;
      SpiffeSocketPath := SpiffeSocketPath c; SpiffeTrustDomain := SpiffeTrustDomain c;
      MaxRequestSize := MaxRequestSize c; MaxGzipUncompressed := MaxGzipUncompressed c; MaxGzipRatio := MaxGzipRatio c;
      MaxGzipCompressed := MaxGzipCompressed c; RedisURL := RedisURL c; CacheTTL := CacheTTL c;
      DBPoolMaxConns := max_conns p; DBPoolMinConns := min_conns p; DBPoolMaxConnLifetime := lifetime p;
      DBPoolMaxConnIdleTime := idle_time p; DBPoolConnectTimeout := connect p; DBPoolHealthCheckPeriod := health p;
      DBPoolMetricsInterval := metrics p; DBBreakerMaxFailures := max_failures b;
      DBBreakerTimeoutSeconds := timeout_seconds b; DBBreakerHalfOpenMaxRequests := half_open b;
      PgBouncerEnabled := pb_enabled g; PgBouncerHost := pb_host g; PgBouncerPort := pb_port g;
      DBStatementCacheMode := cache_mode g; PgBouncerIdleInTxTimeout := idle_in_tx g;
      GracefulShutdownTimeout := gst; ConcurrencyCapsPath := ConcurrencyCapsPath c; OTelLogsEnabled := OTelLogsEnabled c;
      OutboxPublisherURL := opu; OutboxPublisherTimeout := opt; OutboxPublisherCAFile := caf |},
   {| Errors := concat [e0; e1; e2; e3; e4; e5; e6; e7; e8; e9; e10; e11; e12; e13; e14; e15; e16; e17; e18; e19; e20; e21; e22; e23];
      Warnings := concat [w1; w2; w3] |}).

(** The literal of [Load]: defaults, and the variables read without a check. *)
Definition initial : Config :=
  {| Env := getEnv "ENV" "development"; Port := DefaultPort; DBConn := ""; JWTSecret := ""; JWKSURL := "";
     cfg_MaxHeaderBytes := MaxHeaderBytes; ReadTimeout := 30; WriteTimeout := 30; IdleTimeout := 120;
     AllowedOrigins := ""; AdminToken := "";
     DBReplicaConn := getEnvFirst "" ["DATABASE_REPLICA_URL"; "DB_REPLICA_URL"];
     RateLimitEnabled := false; RateLimitMode := ""; RateLimitRPS := 0; RateLimitBurst := 0;
     RateLimitWhitelist := []; RateLimitTenantRPS := 0; RateLimitTenantBurst := 0;
     TracingExporter := getEnv "TRACING_EXPORTER" "stdout";
     TracingServiceName := getEnv "TRACING_SERVICE_NAME" "stellabill-backend";
     SecurityFrameAncestors := getEnv "SECURITY_FRAME_ANCESTORS" "'none'";
     SecurityCSPReportURI := getEnv "SECURITY_CSP_REPORT_URI" "/api/v1/csp-reports";
     CSPReportRPS := getEnvInt "CSP_REPORT_RPS" 5; CSPReportBurst := getEnvInt "CSP_REPORT_BURST" 10;
     SpiffeSocketPath := ""; SpiffeTrustDomain := "";
     MaxRequestSize := getEnvInt64 "MAX_REQUEST_SIZE" (1024 * 1024 * 10);
     MaxGzipUncompressed := getEnvInt64 "MAX_GZIP_UNCOMPRESSED" (1024 * 1024 * 50);
     MaxGzipRatio := getEnvFloat64 "MAX_GZIP_RATIO" (f_of_int 10);
     MaxGzipCompressed := getEnvInt64 "MAX_GZIP_COMPRESSED" (1024 * 1024 * 10);
     RedisURL := getEnv "REDIS_URL" ""; CacheTTL := getEnvInt "CACHE_TTL" 60;
     DBPoolMaxConns := 25; DBPoolMinConns := 2; DBPoolMaxConnLifetime := 3600; DBPoolMaxConnIdleTime := 600;
     DBPoolConnectTimeout := 5; DBPoolHealthCheckPeriod := 30; DBPoolMetricsInterval := 15;
     DBBreakerMaxFailures := 0; DBBreakerTimeoutSeconds := 0; DBBreakerHalfOpenMaxRequests := 0;
     PgBouncerEnabled := false; PgBouncerHost := "127.0.0.1"; PgBouncerPort := 5432;
     DBStatementCacheMode := "prepare"; PgBouncerIdleInTxTimeout := 30; GracefulShutdownTimeout := 30;
     ConcurrencyCapsPath := getEnv "CONCURRENCY_CAPS_PATH" ""; OTelLogsEnabled := getEnvBool "OTEL_LOGS_ENABLED" false;
     OutboxPublisherURL := getEnv "OUTBOX_PUBLISHER_URL" "";
     OutboxPublisherTimeout := getEnvInt "OUTBOX_PUBLISHER_TIMEOUT" 10;
     OutboxPublisherCAFile := getEnv "OUTBOX_PUBLISHER_CA_FILE" "" |}.

Definition Load (p : Provider) : result ValidationResult Config :=
  let '(cfg, res) := validate (resolveSecrets p) initial in
  if Valid res then Ok cfg else Err res.

(** *** What an accepted configuration is *)

(** The field is the variable, within the bounds, or the default if it is unset. *)
Definition reads (key : string) (lo hi dflt v : Z) : Prop :=
  (getenv key = "" ∧ v = dflt) ∨ (getenv key ≠ "" ∧ ParseInt (getenv key) = Some v ∧ lo ≤ v ≤ hi).

(** The same for the settings that warn: an unusable value leaves the default. *)
Definition reads_or (parse : string → option Z) (key : string) (lo hi dflt v : Z) : Prop :=
  (v = dflt ∧ ∀ n, getenv key ≠ "" → parse (getenv key) = Some n → ¬ (lo ≤ n ≤ hi)) ∨
  (parse (getenv key) = Some v ∧ lo ≤ v ≤ hi).

Lemma int_setting_reads key lo hi msg old v : int_setting key lo hi msg old = (v, []) → reads key lo hi old v.
Proof.
  unfold int_setting, reads. repeat case_decide; intros [=]; simplify_eq; [by left|].
  destruct (ParseInt (getenv key)) as [n|]; simplify_eq. destruct (_ && _) eqn:E; simplify_eq. right. split_and!; [done|done|lia..].
Qed.
Lemma int_setting_or_reads key lo hi dflt old v : int_setting_or key lo hi dflt old = (v, []) → reads key lo hi dflt v.
Proof.
  unfold int_setting_or. case_decide; [intros [=]; by left|]. intros [[? _]|?]%int_setting_reads; [done|by right].
Qed.
Lemma port_setting_reads old v : port_setting old = (v, []) → reads "PORT" MinPort MaxPort old v.
Proof.
  unfold port_setting, reads. repeat case_decide; intros [=]; simplify_eq; [by left|].
  destruct (ParseInt _) as [n|]; simplify_eq. destruct (_ || _) eqn:E; simplify_eq. right. split_and!; [done|done|lia..].
Qed.
Lemma warn_setting_reads parse key lo hi dflt old v w :
  warn_setting parse key lo hi dflt old = (v, w) → reads_or parse key lo hi old v.
Proof.
  unfold warn_setting, reads_or. repeat case_decide; intros [=]; simplify_eq; [left; split; [done|]; intros; congruence|].
  destruct (parse (getenv key)) as [n|] eqn:Ep; simplify_eq; [|by left].
  destruct (_ || _) eqn:E; simplify_eq; [left; split; [done|]; intros; simplify_eq; lia|right; split; [done|lia]].
Qed.
Lemma enum_setting_reads key values msg old v :
  enum_setting key values msg old = (v, []) → (getenv key = "" ∧ v = old) ∨ (v = getenv key ∧ v ∈ values).
Proof. unfold enum_setting. repeat case_decide; intros [=]; simplify_eq; eauto. Qed.
Lemma reads_range key lo hi dflt v : reads key lo hi dflt v → lo ≤ dflt ≤ hi → lo ≤ v ≤ hi.
Proof. intros [[_ ->]|(_ & _ & ?)]; lia. Qed.
Lemma reads_or_range parse key lo hi dflt v : reads_or parse key lo hi dflt v → lo ≤ dflt ≤ hi → lo ≤ v ≤ hi.
Proof. intros [[-> _]|(_ & ?)]; lia. Qed.

Lemma db_setting_ok resolved old v :
  db_setting resolved old = (v, []) → (∃ s, resolved "DATABASE_URL" = Ok s) →
  resolved "DATABASE_URL" = Ok v ∧ isValidDatabaseURL v = true.
Proof. unfold db_setting. intros H [s Es]. rewrite Es in *. by destruct (isValidDatabaseURL s) eqn:?; simplify_eq. Qed.
Lemma admin_setting_ok resolved old v :
  admin_setting resolved old = (v, []) → (∃ s, resolved "ADMIN_TOKEN" = Ok s) →
  resolved "ADMIN_TOKEN" = Ok v ∧ isValidSecret v = true.
Proof. unfold admin_setting. intros H [s Es]. rewrite Es in *. by destruct (isValidSecret s) eqn:?; simplify_eq. Qed.
Lemma jwt_setting_ok resolved v :
  jwt_setting resolved "" = (v, []) → ((∃ s, resolved "JWT_SECRET" = Ok s) ∨ getenv "JWKS_URL" ≠ "") →
  (resolved "JWT_SECRET" = Ok v ∧ isValidSecret v = true) ∨ (getenv "JWKS_URL" ≠ "" ∧ v = "").
Proof.
  unfold jwt_setting. intros H Hs. destruct (resolved "JWT_SECRET") as [s|e]; simplify_eq.
  - case_decide as Hd; [destruct (isValidSecret s) eqn:?; simplify_eq; auto|]. simplify_eq. right.
    split; [|done]. intros Hj. apply Hd. by left.
  - right. split; [|done]. by destruct Hs as [[? ?]|?].
Qed.
Lemma jwks_setting_ok v :
  jwks_setting "" = (v, []) → v = getenv "JWKS_URL" ∧ (v = "" ∨ isValidJWKSURL v = true).
Proof. unfold jwks_setting. case_decide; [intros [=<-]; auto|]. destruct (isValidJWKSURL _) eqn:?; intros [=<-]; auto. Qed.

Lemma missing_secrets_nil resolved : missing_secrets resolved = [] →
  ∀ key, key ∈ secretKeys → (∃ s, resolved key = Ok s) ∨ (key = "JWT_SECRET" ∧ getenv "JWKS_URL" ≠ "").
Proof.
  unfold missing_secrets. induction secretKeys as [|k ks IH]; [intros _ key Hk; by apply elem_of_nil in Hk|].
  simpl. intros [Hk Hks]%app_eq_nil key [->|Hin]%elem_of_cons; [|by apply IH].
  destruct (resolved k) as [s|e]; [eauto|]. case_decide; [by right|]. by destruct e.
Qed.
Lemma whitelist_ok wl : whitelist_setting = (wl, []) → Forall (λ path, HasPrefix path "/" = true) wl.
Proof.
  unfold whitelist_setting. case_decide; [intros [= <-]; by repeat constructor|]. intros [= <- Hw].
  induction (map TrimSpace _) as [|x xs IH]; [constructor|]. simpl in Hw. unfold bad_path in Hw at 1.
  destruct (HasPrefix x "/") eqn:Hx; [|by rewrite orb_true_r in Hw]. constructor; [done|]. apply IH.
  by destruct (bool_decide _); simplify_eq.
Qed.
Lemma publisher_url_ok old v :
  publisher_url_setting old = (v, []) → getenv "OUTBOX_PUBLISHER_URL" = "" ∨
    v = getenv "OUTBOX_PUBLISHER_URL" ∧ ∃ u, url_Parse v = Some u ∧ (Scheme u = "http" ∨ Scheme u = "https") ∧ Host u ≠ "".
Proof.
  unfold publisher_url_setting. case_decide; [by left|]. intros [= <- Hu]. right. split; [done|].
  destruct (url_Parse _) as [u|]; [|done]. exists u. split; [done|].
  destruct ((_ || _) && _) eqn:E; [|done]. apply andb_prop in E as [E1 E2%bool_decide_eq_true_1].
  apply orb_prop in E1 as [E1%bool_decide_eq_true_1|E1%bool_decide_eq_true_1]; auto.
Qed.

(** The pool, the breaker and PgBouncer: each field is its variable when that
    is usable and the default when it is not; the least number of connections
    is at most the greatest. For the breaker the default is zero, which the
    pool takes for its own defaults. *)
Definition pool_reads (p : pool) : Prop :=
  reads_or ParseInt "DB_POOL_MAX_CONNS" 1 500 25 (max_conns p) ∧
  (∃ mn, reads_or ParseInt "DB_POOL_MIN_CONNS" 0 500 2 mn ∧ min_conns p = Z.min mn (max_conns p)) ∧
  reads_or ParseInt "DB_POOL_MAX_CONN_LIFETIME" 1 86400 3600 (lifetime p) ∧
  reads_or ParseInt "DB_POOL_MAX_CONN_IDLE_TIME" 1 86400 600 (idle_time p) ∧
  reads_or ParseInt "DB_POOL_CONNECT_TIMEOUT" 1 300 5 (connect p) ∧
  reads_or ParseInt "DB_POOL_HEALTH_CHECK_PERIOD" 1 300 30 (health p) ∧
  reads_or ParseInt "DB_POOL_METRICS_INTERVAL" 1 300 15 (metrics p).
Definition breaker_reads (b : breaker) : Prop :=
  reads_or ParseUint32 "DB_BREAKER_MAX_FAILURES" 1 100 0 (max_failures b) ∧
  reads_or ParseUint32 "DB_BREAKER_TIMEOUT_SECONDS" 1 300 0 (timeout_seconds b) ∧
  reads_or ParseUint32 "DB_BREAKER_HALF_OPEN_MAX_REQUESTS" 1 20 0 (half_open b).
Definition pool_ok (p : pool) : Prop :=
  1 ≤ max_conns p ≤ 500 ∧ 0 ≤ min_conns p ≤ max_conns p ∧ 1 ≤ lifetime p ≤ 86400 ∧ 1 ≤ idle_time p ≤ 86400 ∧
  1 ≤ connect p ≤ 300 ∧ 1 ≤ health p ≤ 300 ∧ 1 ≤ metrics p ≤ 300.
Definition bouncer_reads (b : bouncer) : Prop :=
  reads_or ParseInt "PGBOUNCER_PORT" 1 65535 5432 (pb_port b) ∧
  reads_or ParseInt "PGBOUNCER_IDLE_IN_TX_TIMEOUT" 1 86400 30 (idle_in_tx b).
Definition bouncer_ok (b : bouncer) : Prop :=
  1 ≤ pb_port b ≤ 65535 ∧ cache_mode b ∈ cache_modes ∧ 1 ≤ idle_in_tx b ≤ 86400.

(** The warning that idle connections outlive their lifetime. *)
Definition idle_warned (ws : list Warning) : Prop := ∃ i l, IdleAboveLifetime i l ∈ ws.
Lemma idle_warned_app l l' : idle_warned (l ++ l') ↔ idle_warned l ∨ idle_warned l'.
Proof. unfold idle_warned. set_solver. Qed.
Lemma idle_warned_nil : ¬ idle_warned [].
Proof. intros (i & l & H). by apply elem_of_nil in H. Qed.
Lemma idle_warned_one w : idle_warned [w] ↔ match w with IdleAboveLifetime _ _ => True | _ => False end.
Proof.
  split; [intros (i & l & <-%list_elem_of_singleton); done|]. destruct w; try done. intros _. eexists _, _. by left.
Qed.
Lemma warn_setting_no_idle parse key lo hi dflt old : ¬ idle_warned (warn_setting parse key lo hi dflt old).2.
Proof.
  unfold warn_setting. repeat case_match; simplify_eq; cbn [snd]; (apply idle_warned_nil || by intros ?%idle_warned_one).
Qed.

(** What [warn_setting] returns, with its value and its warnings named. *)
Ltac settings_read :=
  repeat match goal with |- context [warn_setting ?p ?k ?lo ?hi ?d ?o] =>
    let E := fresh "E" in let W := fresh "W" in
    pose proof (warn_setting_no_idle p k lo hi d o) as W;
    destruct (warn_setting p k lo hi d o) eqn:E; apply warn_setting_reads in E; cbn [snd] in W end.

Definition default_pool : pool :=
  {| max_conns := 25; min_conns := 2; lifetime := 3600; idle_time := 600; connect := 5; health := 30; metrics := 15 |}.
Lemma pool_reads_ok p : pool_reads p → pool_ok p.
Proof.
  intros (H1 & (mn & H2 & Hm) & H3 & H4 & H5 & H6 & H7).
  apply reads_or_range in H1, H2, H3, H4, H5, H6, H7; [|lia..]. unfold pool_ok. lia.
Qed.
Lemma validateDBPool_ok :
  pool_reads (validateDBPool default_pool).1 ∧
  (idle_warned (validateDBPool default_pool).2 ↔
   lifetime (validateDBPool default_pool).1 ≤ idle_time (validateDBPool default_pool).1).
Proof.
  unfold validateDBPool, pool_setting. cbn [default_pool max_conns min_conns lifetime idle_time connect health metrics]. settings_read.
  unfold MinDBPoolMaxConns, MaxDBPoolMaxConns, MinDBPoolTimeout, MaxDBPoolTimeout in *.
  destruct (_ <? _) eqn:?; cbn -[Z.min Z.leb reads_or app]; rewrite ?app_nil_r; (split;
    [split_and!; try done; eexists; (split; [eassumption|cbn [min_conns max_conns]; lia])|]); rewrite !idle_warned_app, ?idle_warned_one;
    destruct (_ <=? _) eqn:?; rewrite ?idle_warned_one; pose proof idle_warned_nil; intuition lia.
Qed.
Lemma validateDBBreaker_ok :
  let b := validateDBBreaker {| max_failures := 0; timeout_seconds := 0; half_open := 0 |} in
  breaker_reads b.1 ∧ ¬ idle_warned b.2.
Proof.
  cbn zeta. unfold validateDBBreaker, breaker_setting. cbn [max_failures timeout_seconds half_open]. settings_read.
  cbn [fst snd concat max_failures timeout_seconds half_open]. split; [split_and!; assumption|].
  rewrite !idle_warned_app. pose proof idle_warned_nil. tauto.
Qed.
Lemma validatePgBouncer_ok host :
  let b := validatePgBouncer {| pb_enabled := false; pb_host := host; pb_port := 5432; cache_mode := "prepare"; idle_in_tx := 30 |} in
  (bouncer_reads b.1 ∧ bouncer_ok b.1) ∧ ¬ idle_warned b.2.
Proof.
  cbn zeta. unfold validatePgBouncer, pool_setting. cbn [pb_enabled pb_host pb_port cache_mode idle_in_tx]. settings_read.
  unfold MinDBPoolTimeout in *. pose proof idle_warned_nil.
  assert ("prepare" ∈ cache_modes) by (unfold cache_modes; set_solver).
  repeat case_decide; try (destruct (ParseBool _) as [[]|]); cbn -[reads_or app cache_modes]; rewrite ?bool_decide_true by done;
    repeat match goal with |- context [if bool_decide ?P then _ else _] => destruct (bool_decide P) end;
    (split; [unfold bouncer_reads, bouncer_ok; cbn [pb_port cache_mode idle_in_tx];
             repeat match goal with H : reads_or _ _ _ _ _ _ |- _ => pose proof (reads_or_range _ _ _ _ _ _ H ltac:(lia)); revert H end;
             intros; split_and!; (done || lia)
            |rewrite ?idle_warned_app, ?idle_warned_one; tauto]).
Qed.

(** The settings with hard checks are what the environment says; secrets are
    the provider's and strong; a token can be checked one way or the other. *)
Record valid_config (p : Provider) (c : Config) : Prop := {
  v_port : reads "PORT" 1 65535 8080 (Port c);
  v_header : reads "MAX_HEADER_BYTES" 1024 10485760 1048576 (cfg_MaxHeaderBytes c);
  v_read : reads "READ_TIMEOUT" 1 600 30 (ReadTimeout c);
  v_write : reads "WRITE_TIMEOUT" 1 600 30 (WriteTimeout c);
  v_idle : reads "IDLE_TIMEOUT" 1 600 120 (IdleTimeout c);
  v_shutdown : reads "GRACEFUL_SHUTDOWN_TIMEOUT" 1 600 30 (GracefulShutdownTimeout c);
  v_publish : reads "OUTBOX_PUBLISHER_TIMEOUT" 1 600 10 (OutboxPublisherTimeout c);
  v_rps : reads "RATE_LIMIT_RPS" 1 1000 10 (RateLimitRPS c);
  v_burst : reads "RATE_LIMIT_BURST" 1 2000 20 (RateLimitBurst c) ∧ RateLimitRPS c ≤ RateLimitBurst c;
  v_tenant : reads "RATE_LIMIT_TENANT_RPS" 1 1000 0 (RateLimitTenantRPS c) ∧
             RateLimitTenantRPS c ≤ RateLimitTenantBurst c ≤ 2000;
  v_white : Forall (λ path, HasPrefix path "/" = true) (RateLimitWhitelist c);
  v_mode : RateLimitMode c ∈ [""; "ip"; "user"; "hybrid"];
  v_exporter : TracingExporter c ∈ ["stdout"; "otlp"; "none"];
  v_db : GetSecret p false "DATABASE_URL" = Ok (DBConn c) ∧ isValidDatabaseURL (DBConn c) = true;
  v_admin : GetSecret p false "ADMIN_TOKEN" = Ok (AdminToken c) ∧ isValidSecret (AdminToken c) = true;
  v_token : (GetSecret p false "JWT_SECRET" = Ok (JWTSecret c) ∧ isValidSecret (JWTSecret c) = true) ∨
            (JWTSecret c = "" ∧ isValidJWKSURL (JWKSURL c) = true);
  v_url : getenv "OUTBOX_PUBLISHER_URL" = "" ∨
          ∃ u, url_Parse (OutboxPublisherURL c) = Some u ∧ (Scheme u = "http" ∨ Scheme u = "https") ∧ Host u ≠ "";
  v_redis : ∃ s, GetSecret p false "REDIS_URL" = Ok s;
  v_pool : let q := {| max_conns := DBPoolMaxConns c; min_conns := DBPoolMinConns c; lifetime := DBPoolMaxConnLifetime c;
                      idle_time := DBPoolMaxConnIdleTime c; connect := DBPoolConnectTimeout c;
                      health := DBPoolHealthCheckPeriod c; metrics := DBPoolMetricsInterval c |} in
           pool_reads q ∧ pool_ok q;
  v_breaker : breaker_reads {| max_failures := DBBreakerMaxFailures c; timeout_seconds := DBBreakerTimeoutSeconds c;
                               half_open := DBBreakerHalfOpenMaxRequests c |};
  v_lifetime : idle_warned (Warnings (validate (resolveSecrets p) initial).2) ↔
               DBPoolMaxConnLifetime c ≤ DBPoolMaxConnIdleTime c;
  v_bouncer : let q := {| pb_enabled := PgBouncerEnabled c; pb_host := PgBouncerHost c; pb_port := PgBouncerPort c;
                          cache_mode := DBStatementCacheMode c; idle_in_tx := PgBouncerIdleInTxTimeout c |} in
              bouncer_reads q ∧ bouncer_ok q;
}.

Lemma tenant_burst_ok rps burst tb :
  tenant_burst rps burst = (tb, []) → reads "RATE_LIMIT_TENANT_RPS" 1 1000 0 rps →
  reads "RATE_LIMIT_TENANT_BURST" 1 2000 0 burst → rps ≤ tb ≤ 2000.
Proof.
  unfold tenant_burst, burst_rule, reads. intros H Hr Hb. repeat case_match; simplify_eq; lia.
Qed.


Lemma accepted_config p c : Load p = Ok c → c = (validate (resolveSecrets p) initial).1 ∧ missing_secrets (resolveSecrets p) = [].
Proof.
  unfold Load. destruct (validate _ _) as [cfg res] eqn:E. destruct (Valid res) eqn:Hv; [|done]. intros [= <-].
  split; [done|]. apply (f_equal snd) in E. cbn in E. unfold validate in E.
  repeat match type of E with (match ?x with (_, _) => _ end).2 = _ => destruct x end.
  cbn in E. subst. unfold Valid, Errors in Hv. case_match eqn:He; [|done]. by apply app_eq_nil in He as [? _].
Qed.
(** REDIS_URL is required of the provider, and then read from the
    environment whatever the provider said. *)
Lemma redis_required p c : Load p = Ok c →
  (∃ s, GetSecret p false "REDIS_URL" = Ok s) ∧ RedisURL c = getenv "REDIS_URL".
Proof.
  intros [-> Hm]%accepted_config. split.
  - by destruct (missing_secrets_nil _ Hm "REDIS_URL" ltac:(set_solver)) as [?|[? _]].
  - unfold validate. repeat match goal with |- context [match ?x with (_, _) => _ end] => destruct x end.
    cbn. unfold getEnv. by case_decide.
Qed.
End load.
End Load.

(** ** The redacted snapshot *)
Module Dump.
Import Load.

(** A field of a struct: its Go name and its [json] and [secret] tags. *)
Record StructField := { FieldName : string; json_tag : option string; secret_tag : option string; exported : bool }.

(** A value seen through [reflect]: maps by their keys in iteration order. *)
Inductive rvalue :=
  | RStruct (fields : list (StructField * rvalue))
  | RNil
  | RPtr (v : rvalue)
  | RMap (kvs : list (string * rvalue))
  | RSlice (vs : list rvalue)
  | RString (s : string)
  | RBool (b : bool)
  | RInt (z : Z)
  | RUint (z : Z)
  | RFloat (f : float64)
  | ROther (printed : string).

Inductive dvalue :=
  | DMap (m : list (string * dvalue))
  | DNil
  | DSlice (vs : list dvalue)
  | DString (s : string)
  | DBool (b : bool)
  | DInt (z : Z)
  | DUint (z : Z)
  | DFloat (f : float64).

Definition redacted : string := "***REDACTED***".

Fixpoint snake_from (first : bool) (s : string) : string :=
  match s with
  | EmptyString => EmptyString
  | String c s =>
      if (65 <=? code c) && (code c <=? 90)
      then if first then String (lower_char c) (snake_from false s)
           else String "_" (String (lower_char c) (snake_from false s))
      else String c (snake_from false s)
  end.
Definition snakeCase (s : string) : string := snake_from true s.

Definition jsonTagName (f : StructField) : string :=
  match json_tag f with
  | None => snakeCase (FieldName f)
  | Some tag => match cut_char "," tag with Some (name, _) => name | None => tag end
  end.
Definition isSecretField (f : StructField) : bool := bool_decide (secret_tag f = Some "true").

(** [out[key] = v] *)
Fixpoint set_key (out : list (string * dvalue)) (k : string) (v : dvalue) : list (string * dvalue) :=
  match out with
  | [] => [(k, v)]
  | (k', v') :: out => if decide (k = k') then (k, v) :: out else (k', v') :: set_key out k v
  end.

Definition dump_field (dumpValue : rvalue → dvalue) (out : list (string * dvalue)) (fv : StructField * rvalue) : list (string * dvalue) :=
  let '(f, v) := fv in
  if negb (exported f) then out
  else
    let key := jsonTagName f in
    if decide (key = "" ∨ key = "-") then out
    else if isSecretField f then set_key out key (DString redacted)
    else set_key out key (dumpValue v).

Fixpoint dumpValue (v : rvalue) : dvalue :=
  match v with
  | RStruct fields => DMap (foldl (λ out fv, dump_field dumpValue out fv) [] fields)
  | RNil => DNil
  | RPtr v => dumpValue v
  | RMap kvs => DMap (foldl (λ out '(k, v), set_key out k (dumpValue v)) [] kvs)
  | RSlice vs => DSlice (map dumpValue vs)
  | RString s => DString s
  | RBool b => DBool b
  | RInt z => DInt z
  | RUint z => DUint z
  | RFloat f => DFloat f
  | ROther s => DString s
  end.

(** The struct [Config] as it is declared: names, tags and values in order. *)
Definition tagged (name json : string) : StructField :=
  {| FieldName := name; json_tag := Some json; secret_tag := None; exported := true |}.
Definition secret (name json : string) : StructField :=
  {| FieldName := name; json_tag := Some json; secret_tag := Some "true"; exported := true |}.
Definition untagged (name : string) : StructField :=
  {| FieldName := name; json_tag := None; secret_tag := None; exported := true |}.

Definition reflect_config (c : Config) : rvalue :=
  RStruct
    [(tagged "Env" "env", RString (Env c));
     (tagged "Port" "port", RInt (Port c));
     (secret "DBConn" "db_conn", RString (DBConn c));
     (secret "JWTSecret" "jwt_secret", RString (JWTSecret c));
     (tagged "MaxHeaderBytes" "max_header_bytes", RInt (cfg_MaxHeaderBytes c));
     (tagged "ReadTimeout" "read_timeout", RInt (ReadTimeout c));
     (tagged "WriteTimeout" "write_timeout", RInt (WriteTimeout c));
     (tagged "IdleTimeout" "idle_timeout", RInt (IdleTimeout c));
     (tagged "AllowedOrigins" "allowed_origins", RString (AllowedOrigins c));
     (secret "AdminToken" "admin_token", RString (AdminToken c));
     (secret "DBReplicaConn" "db_replica_conn", RString (DBReplicaConn c));
     (tagged "RateLimitEnabled" "rate_limit_enabled", RBool (RateLimitEnabled c));
     (tagged "RateLimitMode" "rate_limit_mode", RString (RateLimitMode c));
     (tagged "RateLimitRPS" "rate_limit_rps", RInt (RateLimitRPS c));
     (tagged "RateLimitBurst" "rate_limit_burst", RInt (RateLimitBurst c));
     (tagged "RateLimitWhitelist" "rate_limit_whitelist", RSlice (map RString (RateLimitWhitelist c)));
     (tagged "RateLimitTenantRPS" "rate_limit_tenant_rps", RInt (RateLimitTenantRPS c));
     (tagged "RateLimitTenantBurst" "rate_limit_tenant_burst", RInt (RateLimitTenantBurst c));
     (untagged "TracingExporter", RString (TracingExporter c));
     (untagged "TracingServiceName", RString (TracingServiceName c));
     (untagged "SecurityFrameAncestors", RString (SecurityFrameAncestors c));
     (untagged "SecurityCSPReportURI", RString (SecurityCSPReportURI c));
     (untagged "CSPReportRPS", RInt (CSPReportRPS c));
     (untagged "CSPReportBurst", RInt (CSPReportBurst c));
     (untagged "SpiffeSocketPath", RString (SpiffeSocketPath c));
     (untagged "SpiffeTrustDomain", RString (SpiffeTrustDomain c));
     (untagged "MaxRequestSize", RInt (MaxRequestSize c));
     (untagged "MaxGzipUncompressed", RInt (MaxGzipUncompressed c));
     (untagged "MaxGzipRatio", RFloat (MaxGzipRatio c));
     (secret "RedisURL" "redis_url", RString (RedisURL c));
     (tagged "CacheTTL" "cache_ttl", RInt (CacheTTL c));
     (tagged "DBPoolMaxConns" "db_pool_max_conns", RInt (DBPoolMaxConns c));
     (tagged "DBPoolMinConns" "db_pool_min_conns", RInt (DBPoolMinConns c));
     (tagged "DBPoolMaxConnLifetime" "db_pool_max_conn_lifetime", RInt (DBPoolMaxConnLifetime c));
     (tagged "DBPoolMaxConnIdleTime" "db_pool_max_conn_idle_time", RInt (DBPoolMaxConnIdleTime c));
     (tagged "DBPoolConnectTimeout" "db_pool_connect_timeout", RInt (DBPoolConnectTimeout c));
     (tagged "DBPoolHealthCheckPeriod" "db_pool_health_check_period", RInt (DBPoolHealthCheckPeriod c));
     (tagged "DBPoolMetricsInterval" "db_pool_metrics_interval", RInt (DBPoolMetricsInterval c));
     (tagged "DBBreakerMaxFailures" "db_breaker_max_failures", RUint (DBBreakerMaxFailures c));
     (tagged "DBBreakerTimeoutSeconds" "db_breaker_timeout_seconds", RUint (DBBreakerTimeoutSeconds c));
     (tagged "DBBreakerHalfOpenMaxRequests" "db_breaker_half_open_max_requests", RUint (DBBreakerHalfOpenMaxRequests c));
     (untagged "PgBouncerEnabled", RBool (PgBouncerEnabled c));
     (untagged "PgBouncerHost", RString (PgBouncerHost c));
     (untagged "PgBouncerPort", RInt (PgBouncerPort c));
     (untagged "DBStatementCacheMode", RString (DBStatementCacheMode c));
     (untagged "PgBouncerIdleInTxTimeout", RInt (PgBouncerIdleInTxTimeout c));
     (untagged "GracefulShutdownTimeout", RInt (GracefulShutdownTimeout c));
     (untagged "ConcurrencyCapsPath", RString (ConcurrencyCapsPath c));
     (untagged "OTelLogsEnabled", RBool (OTelLogsEnabled c));
     (tagged "OutboxPublisherURL" "outbox_publisher_url", RString (OutboxPublisherURL c));
     (tagged "OutboxPublisherTimeout" "outbox_publisher_timeout", RInt (OutboxPublisherTimeout c));
     (tagged "OutboxPublisherCAFile" "outbox_publisher_ca_file", RString (OutboxPublisherCAFile c))].

Definition Dump (c : Config) : dvalue := dumpValue (reflect_config c).

(** The value with everything under a field tagged [secret:"true"] blanked
    out. *)
Fixpoint erase (v : rvalue) : rvalue :=
  match v with
  | RStruct fields => RStruct (map (λ '(f, v), (f, if decide (secret_tag f = Some "true") then RNil else erase v)) fields)
  | RPtr v => RPtr (erase v)
  | RMap kvs => RMap (map (λ '(k, v), (k, erase v)) kvs)
  | RSlice vs => RSlice (map erase vs)
  | v => v
  end.

Lemma dumpValue_erase : ∀ v, dumpValue (erase v) = dumpValue v.
Proof.
  fix IH 1. intros [fields| |v|kvs|vs|s|b|z|z|f|s]; cbn [erase dumpValue]; [..|done|done|done|done|done|done].
  - f_equal. generalize (@nil (string * dvalue)). induction fields as [|[f v] fields IHf]; intros out; [done|].
    cbn [map foldl]. rewrite IHf. f_equal. unfold dump_field, isSecretField.
    destruct (decide (secret_tag f = Some "true")) as [E|E]; [by rewrite bool_decide_true|by rewrite (IH v)].
  - done.
  - apply IH.
  - f_equal. generalize (@nil (string * dvalue)). induction kvs as [|[k v] kvs IHk]; intros out; [done|].
    cbn [map foldl]. by rewrite IHk, (IH v).
  - f_equal. induction vs as [|v vs IHv]; [done|]. cbn [map]. by rewrite IHv, (IH v).
Qed.

(** Two values, of any nesting of structs, pointers, maps and slices, that
    differ only under fields tagged secret have the same dump. *)
Theorem tagged_values_not_dumped v v' : erase v = erase v' → dumpValue v = dumpValue v'.
Proof. intros H. by rewrite <- (dumpValue_erase v), H, dumpValue_erase. Qed.

(** A field of a dump. *)
Definition shown (key : string) (d : dvalue) : option dvalue :=
  match d with DMap m => snd <$> List.find (λ kv, bool_decide (kv.1 = key)) m | _ => None end.

(** A configuration with other credentials: the two connection strings, the
    JWT secret, the admin token and the Redis URL. *)
Definition with_credentials (db jwt admin replica redis : string) (c : Config) : Config :=
  {| Env := Env c; Port := Port c; DBConn := db; JWTSecret := jwt; JWKSURL := JWKSURL c;
     cfg_MaxHeaderBytes := cfg_MaxHeaderBytes c; ReadTimeout := ReadTimeout c; WriteTimeout := WriteTimeout c;
     IdleTimeout := IdleTimeout c; AllowedOrigins := AllowedOrigins c; AdminToken := admin; DBReplicaConn := replica;
     RateLimitEnabled := RateLimitEnabled c; RateLimitMode := RateLimitMode c; RateLimitRPS := RateLimitRPS c;
     RateLimitBurst := RateLimitBurst c; RateLimitWhitelist := RateLimitWhitelist c; RateLimitTenantRPS := RateLimitTenantRPS c;
     RateLimitTenantBurst := RateLimitTenantBurst c; TracingExporter := TracingExporter c;
     TracingServiceName := TracingServiceName c; SecurityFrameAncestors := SecurityFrameAncestors c;
     SecurityCSPReportURI := SecurityCSPReportURI c; CSPReportRPS := CSPReportRPS c; CSPReportBurst := CSPReportBurst c;
     SpiffeSocketPath := SpiffeSocketPath c; SpiffeTrustDomain := SpiffeTrustDomain c; MaxRequestSize := MaxRequestSize c;
     MaxGzipUncompressed := MaxGzipUncompressed c; MaxGzipRatio := MaxGzipRatio c; MaxGzipCompressed := MaxGzipCompressed c;
     RedisURL := redis; CacheTTL := CacheTTL c; DBPoolMaxConns := DBPoolMaxConns c; DBPoolMinConns := DBPoolMinConns c;
     DBPoolMaxConnLifetime := DBPoolMaxConnLifetime c; DBPoolMaxConnIdleTime := DBPoolMaxConnIdleTime c;
     DBPoolConnectTimeout := DBPoolConnectTimeout c; DBPoolHealthCheckPeriod := DBPoolHealthCheckPeriod c;
     DBPoolMetricsInterval := DBPoolMetricsInterval c; DBBreakerMaxFailures := DBBreakerMaxFailures c;
     DBBreakerTimeoutSeconds := DBBreakerTimeoutSeconds c; DBBreakerHalfOpenMaxRequests := DBBreakerHalfOpenMaxRequests c;
     PgBouncerEnabled := PgBouncerEnabled c; PgBouncerHost := PgBouncerHost c; PgBouncerPort := PgBouncerPort c;
     DBStatementCacheMode := DBStatementCacheMode c; PgBouncerIdleInTxTimeout := PgBouncerIdleInTxTimeout c;
     GracefulShutdownTimeout := GracefulShutdownTimeout c; ConcurrencyCapsPath := ConcurrencyCapsPath c;
     OTelLogsEnabled := OTelLogsEnabled c; OutboxPublisherURL := OutboxPublisherURL c;
     OutboxPublisherTimeout := OutboxPublisherTimeout c; OutboxPublisherCAFile := OutboxPublisherCAFile c |}.

(** C23: the dump of a configuration says nothing about its five credentials
    (the two connection strings, the JWT secret, the admin token and the Redis
    URL): with any others in their place it is the same, it shows the mark of
    redaction under their names, and it goes on showing the fields that are
    not secret. *)
Theorem secrets_not_dumped (c : Config) db jwt admin replica redis :
  Dump (with_credentials db jwt admin replica redis c) = Dump c ∧
  Forall (λ key, shown key (Dump c) = Some (DString "***REDACTED***"))
    ["db_conn"; "jwt_secret"; "admin_token"; "db_replica_conn"; "redis_url"] ∧
  shown "port" (Dump c) = Some (DInt (Port c)) ∧
  shown "allowed_origins" (Dump c) = Some (DString (AllowedOrigins c)) ∧
  shown "db_breaker_max_failures" (Dump c) = Some (DUint (DBBreakerMaxFailures c)).
Proof.
  split.
  - apply tagged_values_not_dumped. reflexivity.
  - split; [repeat constructor|]. done.
Qed.
End Dump.

(** ** Concrete runs *)
Module Runs.
Import Secrets.Providers Load Dump.

Definition parse (s : string) : option parsed_url :=
  if decide (s = "postgres://u:pw@db/app")
  then Some {| Scheme := "postgres"; Host := "db"; Path := "/app"; Opaque_ := ""; Password := Some "pw" |} else None.
Definition kind (r : Z) : rune_kind :=
  if (65 <=? r) && (r <=? 90) then Upper else if (97 <=? r) && (r <=? 122) then Lower
  else if (48 <=? r) && (r <=? 57) then Digit else if (33 <=? r) && (r <=? 47) then Special else OtherRune.
Definition env (key : string) : string :=
  if decide (key = "DATABASE_URL") then "postgres://u:pw@db/app"
  else if decide (key = "JWT_SECRET") then "Correct-horse-9"
  else if decide (key = "ADMIN_TOKEN") then "Battery-staple-7"
  else if decide (key = "REDIS_URL") then "redis://cache:6379"
  else if decide (key = "PORT") then "9090"
  else if decide (key = "RATE_LIMIT_TENANT_RPS") then "5"
  else if decide (key = "DB_POOL_MIN_CONNS") then "900" else "".
Definition loaded : result ValidationResult Config :=
  Load.Load parse (λ _, None) (λ _, None) kind env (NewEnvProvider (λ _, None) (λ _, None) env).

Example loaded_fields :
  (match loaded with
   | Ok c => Some (Port c, DBConn c, RateLimitTenantBurst c, DBPoolMinConns c, RateLimitWhitelist c)
   | Err _ => None
   end) = Some (9090, "postgres://u:pw@db/app", 10, 2, ["/api/health"]).
Proof. vm_compute. reflexivity. Qed.


(** A password in the connection string is replaced where it first occurs,
    which may be elsewhere in the string. *)
Example masked :
  (maskPassword parse "postgres://u:pw@db/app",
   maskPassword (λ _, Some {| Scheme := "postgres"; Host := "db"; Path := "/"; Opaque_ := ""; Password := Some "postgres" |})
     "postgres://postgres:postgres@db/") = ("postgres://u:***@db/app", "***://postgres:postgres@db/").
Proof. vm_compute. reflexivity. Qed.

(** Secrets are hidden wherever they are nested. *)
Definition creds (password : string) : rvalue :=
  RStruct [(tagged "Port" "port", RInt 80);
           (untagged "Db", RPtr (RStruct [(secret "DBConn" "db_conn", RString password); (tagged "Pool" "pool,omitempty", RInt 3)]))].
Example nested_secret :
  dumpValue (creds "hunter2") =
    DMap [("port", DInt 80); ("db", DMap [("db_conn", DString redacted); ("pool", DInt 3)])].
Proof. vm_compute. reflexivity. Qed.

(** Runs of capitals are split letter by letter. *)
Example snake_acronym : snakeCase "CSPReportRPS" = "c_s_p_report_r_p_s".
Proof. reflexivity. Qed.
End Runs.
