(* ===== verification/Claims.v ===== *)
(** * Claiming rows of a shared table

    Several parts of the program share a table the same way: a worker claims
    rows in one transaction by marking them, keeps their identifiers in hand,
    and puts each down again with an update of its row. [exclusive] is the
    invariant of such a protocol: no row is in two hands, and a row in a hand
    carries the mark. It is preserved by claims of unmarked rows, by putting
    down the head of a hand, and by dropping a whole hand (a crash). *)
From stdpp Require Import base gmap strings list.
From S2P Require Import Prelude.

(** ** Filters by a boolean *)
Lemma elem_of_bfilter {A} (p : A → bool) l x : x ∈ List.filter p l ↔ x ∈ l ∧ p x = true.
Proof. rewrite !list_elem_of_In. apply filter_In. Qed.

Lemma NoDup_map_filter {A B} (f : A → B) (p : A → bool) l : NoDup (map f l) → NoDup (map f (List.filter p l)).
Proof.
  induction l as [|x l IH]; [done|]. cbn [map List.filter]. intros [Hx Hl]%NoDup_cons. destruct (p x); [|auto].
  cbn [map]. apply NoDup_cons. split; [|auto]. intros (y & Heq & Hy)%list_elem_of_fmap. apply Hx, list_elem_of_fmap.
  exists y. split; [done|]. by apply elem_of_bfilter in Hy as [? _].
Qed.

(** ** Hands *)
Section claims.
Context {R : Type} (busy : R → Prop).
Implicit Types (rows : gmap string R) (hands : list (list string)).

Definition exclusive rows hands : Prop :=
  NoDup (concat hands) ∧ ∀ k, k ∈ concat hands → ∃ r, rows !! k = Some r ∧ busy r.

Lemma concat_hands hands i h : hands !! i = Some h → concat hands ≡ₚ (h ++ concat (<[i := []]> hands))%list.
Proof.
  revert i. induction hands as [|h' hands IH]; intros [|i] Hi; simplify_eq/=; [done|].
  rewrite (IH i Hi). by rewrite !(assoc_L app), (Permutation_app_comm h').
Qed.
Lemma concat_hands_insert hands i h h' :
  hands !! i = Some h → concat (<[i := h']> hands) ≡ₚ (h' ++ concat (<[i := []]> hands))%list.
Proof.
  intros Hi%lookup_lt_Some. rewrite (concat_hands (<[i := h']> hands) i h') by by apply list_lookup_insert_eq.
  by rewrite list_insert_insert_eq.
Qed.

(** What is in hand [i] is in no other hand. *)
Lemma exclusive_split rows hands i h :
  exclusive rows hands → hands !! i = Some h →
  NoDup h ∧ NoDup (concat (<[i := []]> hands)) ∧ ∀ k, k ∈ h → k ∉ concat (<[i := []]> hands).
Proof.
  intros [Hd _] Hi. rewrite (concat_hands _ _ _ Hi) in Hd. apply NoDup_app in Hd as (? & Hx & ?). auto.
Qed.

Lemma exclusive_claim rows rows' hands i h ks :
  exclusive rows hands → hands !! i = Some h → NoDup ks →
  (∀ k r, k ∈ ks → rows !! k = Some r → ¬ busy r) →
  (∀ k, k ∈ ks → ∃ r, rows' !! k = Some r ∧ busy r) →
  (∀ k, k ∉ ks → rows' !! k = rows !! k) →
  exclusive rows' (<[i := ks]> hands).
Proof.
  intros Hex Hi Hks Hfree Hbusy Hrest. destruct (exclusive_split _ _ _ _ Hex Hi) as (_ & Hd & _). destruct Hex as [_ Hrow].
  assert (∀ k, k ∈ concat (<[i := []]> hands) → k ∉ ks ∧ ∃ r, rows !! k = Some r ∧ busy r) as Hother.
  { intros k Hk. destruct (Hrow k) as (r & Hr & Hb); [rewrite (concat_hands _ _ _ Hi); by apply elem_of_app; right|].
    split; [|eauto]. intros Hin. by apply (Hfree k r). }
  split.
  - rewrite (concat_hands_insert _ _ _ _ Hi). apply NoDup_app. split_and!; [done| |done].
    intros k Hk Hk'. by apply Hother in Hk' as [? _].
  - intros k. rewrite (concat_hands_insert _ _ _ _ Hi), elem_of_app. intros [Hk|[Hn (r & Hr & ?)]%Hother]; [auto|].
    rewrite Hrest by done. eauto.
Qed.

(** Keeping part of a hand: the rows of the others are as they were. *)
Lemma exclusive_keep rows rows' hands i h h' :
  exclusive rows hands → hands !! i = Some h → h' `sublist_of` h →
  (∀ k, (k ∈ h' ∨ k ∉ h) → rows' !! k = rows !! k) →
  exclusive rows' (<[i := h']> hands).
Proof.
  intros Hex Hi Hsub Hsame. destruct (exclusive_split _ _ _ _ Hex Hi) as (Hh & Hd & Hx). destruct Hex as [_ Hrow].
  assert (∀ k, k ∈ h' → k ∈ h) as Hin by (intros k Hk; eapply elem_of_submseteq; [exact Hk|by apply sublist_submseteq]).
  split.
  - rewrite (concat_hands_insert _ _ _ _ Hi). apply NoDup_app. split_and!; [by apply (sublist_NoDup h' h)| |done].
    intros k Hk Hk'. by apply (Hx k); [apply Hin|].
  - intros k. rewrite (concat_hands_insert _ _ _ _ Hi), elem_of_app. intros Hk.
    rewrite Hsame; [apply Hrow; rewrite (concat_hands _ _ _ Hi); apply elem_of_app; naive_solver|].
    destruct Hk as [?|Hk]; [by left|right]. intros ?. by apply (Hx k).
Qed.

Lemma exclusive_put rows rows' hands i k ks :
  exclusive rows hands → hands !! i = Some (k :: ks) → (∀ k', k' ≠ k → rows' !! k' = rows !! k') →
  exclusive rows' (<[i := ks]> hands).
Proof.
  intros Hex Hi Hsame. destruct (exclusive_split _ _ _ _ Hex Hi) as (Hd & _ & _). apply NoDup_cons in Hd as [Hk _].
  eapply exclusive_keep; [done|done|by apply sublist_cons|]. intros k' Hk'. apply Hsame. intros ->.
  destruct Hk' as [?|Hn]; [done|]. by apply Hn, list_elem_of_here.
Qed.

Lemma exclusive_drop rows hands i h : exclusive rows hands → hands !! i = Some h → exclusive rows (<[i := []]> hands).
Proof. intros Hex Hi. eapply exclusive_keep; [done|done|apply sublist_nil_l|done]. Qed.

(** Updating rows that are in no hand. *)
Lemma exclusive_rows rows rows' hands :
  exclusive rows hands → (∀ k, k ∈ concat hands → rows' !! k = rows !! k) → exclusive rows' hands.
Proof. intros [Hd Hrow] Hsame. split; [done|]. intros k Hk. rewrite Hsame by done. by apply Hrow. Qed.

Lemma exclusive_held rows hands i h k :
  exclusive rows hands → hands !! i = Some h → k ∈ h → ∃ r, rows !! k = Some r ∧ busy r.
Proof. intros [_ Hrow] Hi Hk. apply Hrow. rewrite (concat_hands _ _ _ Hi). apply elem_of_app. by left. Qed.

Lemma elem_of_hands_insert hands i h h' k :
  hands !! i = Some h → k ∈ concat (<[i := h']> hands) → k ∈ h' ∨ k ∈ concat hands.
Proof.
  intros Hi. rewrite (concat_hands_insert _ _ _ _ Hi), (concat_hands _ _ _ Hi), !elem_of_app. naive_solver.
Qed.

Lemma exclusive_start rows n : exclusive rows (replicate n []).
Proof.
  assert (concat (replicate n (@nil string)) = []) as E by (induction n; done).
  split; rewrite E; [constructor|]. by intros k ?%elem_of_nil.
Qed.
End claims.
