(* ===== verification/OutboxWorker.v ===== *)
(** * The polling outbox worker

    [internal/worker/outbox_worker.go]: workers on any number of instances
    claim batches of the table [outbox_events] with [FOR UPDATE SKIP LOCKED],
    publish each claimed event and record the outcome.

    The table is a finite map from identifiers to rows. A claim is one
    transaction and so one step; [skip] are the rows that other transactions
    have locked at that instant, whichever they are. What [Publish] and the
    statements answer is an argument of the steps. *)
From Stdlib Require Import ZArith Lia Ascii String.
From stdpp Require Import base gmap strings list.
From S2P Require Import Prelude GoFloat Claims.
#[local] Open Scope string_scope.
#[local] Open Scope Z_scope.

(** ** Data *)
Inductive Status := OutboxStatusPending | OutboxStatusProcessing | OutboxStatusCompleted | OutboxStatusFailed.
#[export] Instance Status_eq_dec : EqDecision Status.
Proof. solve_decision. Defined.

(** A row, and the [OutboxEvent] scanned from it. *)
Record OutboxEvent := {
  ID : string;
  EventType : string;
  EventData : string;
  AggregateID : option string;
  AggregateType : option string;
  OccurredAt : Time;
  EStatus : Status;
  RetryCount : Z;
  MaxRetries : Z;
  NextRetryAt : option Time;
  ErrorMessage : option string;
}.

Record OutboxWorkerConfig := {
  PollInterval : Duration;
  BatchSize : Z;
  cfg_MaxRetries : Z;
  RetryBackoffBase : Duration;
  ShutdownTimeout : Duration;
  ProcessingTimeout : Duration;
}.
Definition DefaultOutboxWorkerConfig : OutboxWorkerConfig :=
  {| PollInterval := 5 * Time.Second; BatchSize := 10; cfg_MaxRetries := 3; RetryBackoffBase := 1 * Time.Second;
     ShutdownTimeout := 30 * Time.Second; ProcessingTimeout := 30 * Time.Second |}.

(** The counters of a worker, and the claimed events it still has to process. *)
Record OutboxWorker := {
  running : bool;
  processed : Z;
  succeeded : Z;
  failed : Z;
  deadLettered : Z;
  lastPollTime : Time;
  consecutiveErrs : Z;
  hand : list OutboxEvent;
}.
Definition NewOutboxWorker : OutboxWorker :=
  {| running := false; processed := 0; succeeded := 0; failed := 0; deadLettered := 0; lastPollTime := Time.zero;
     consecutiveErrs := 0; hand := [] |}.

Definition set_running (b : bool) (w : OutboxWorker) : OutboxWorker :=
  {| running := b; processed := processed w; succeeded := succeeded w; failed := failed w;
     deadLettered := deadLettered w; lastPollTime := lastPollTime w; consecutiveErrs := consecutiveErrs w; hand := hand w |}.
Definition Start : OutboxWorker → OutboxWorker := set_running true.
(** [drained]: the loop ended within [ShutdownTimeout]. *)
Definition Stop (started drained : bool) (w : OutboxWorker) : OutboxWorker * option string :=
  if negb started then (w, None)
  else (set_running false w, if drained then None else Some "outbox worker shutdown timed out").

Definition Health (w : OutboxWorker) : option string :=
  if negb (running w) then Some "outbox worker is not running"
  else if 5 <? consecutiveErrs w then Some "outbox worker has consecutive poll errors" else None.

Definition counted (dp ds df dd : Z) (es : list OutboxEvent) (w : OutboxWorker) : OutboxWorker :=
  {| running := running w; processed := processed w + dp; succeeded := succeeded w + ds; failed := failed w + df;
     deadLettered := deadLettered w + dd; lastPollTime := lastPollTime w; consecutiveErrs := consecutiveErrs w; hand := es |}.
Definition polled (now : Time) (errs : Z) (es : list OutboxEvent) (w : OutboxWorker) : OutboxWorker :=
  {| running := running w; processed := processed w; succeeded := succeeded w; failed := failed w;
     deadLettered := deadLettered w; lastPollTime := now; consecutiveErrs := errs; hand := es |}.

(** ** The table *)
Notation table := (gmap string OutboxEvent).

(** The [UPDATE]s set a status and may set the retry columns. *)
Definition set_status (s : Status) (e : OutboxEvent) : OutboxEvent :=
  {| ID := ID e; EventType := EventType e; EventData := EventData e; AggregateID := AggregateID e;
     AggregateType := AggregateType e; OccurredAt := OccurredAt e; EStatus := s; RetryCount := RetryCount e;
     MaxRetries := MaxRetries e; NextRetryAt := NextRetryAt e; ErrorMessage := ErrorMessage e |}.
Definition set_failed (count : Z) (next : option Time) (msg : string) (e : OutboxEvent) : OutboxEvent :=
  {| ID := ID e; EventType := EventType e; EventData := EventData e; AggregateID := AggregateID e;
     AggregateType := AggregateType e; OccurredAt := OccurredAt e; EStatus := OutboxStatusFailed; RetryCount := count;
     MaxRetries := MaxRetries e; NextRetryAt := match next with Some t => Some t | None => NextRetryAt e end;
     ErrorMessage := Some msg |}.

(** The condition of the query. *)
Definition eligible (now : Time) (e : OutboxEvent) : bool :=
  match EStatus e with
  | OutboxStatusPending => true
  | OutboxStatusFailed => match NextRetryAt e with Some t => t <=? now | None => false end
  | _ => false
  end.

Section worker.
Context `{GoRuntime} (cfg : OutboxWorkerConfig).

Definition candidates (now : Time) (skip : list string) (t : table) : list OutboxEvent :=
  sort_slice (λ a b, OccurredAt a <? OccurredAt b)
    (List.filter (λ e, eligible now e && negb (bool_decide (ID e ∈ skip))) (map snd (map_range t))).

Definition mark_processing (t : table) (es : list OutboxEvent) : table :=
  foldl (λ t e, alter (set_status OutboxStatusProcessing) (ID e) t) t es.

(** [ok = false]: a statement or the commit fails and the transaction is
    rolled back. An empty answer is [nil]. *)
Definition claimBatch (now : Time) (skip : list string) (ok : bool) (t : table) : table * option (list OutboxEvent) :=
  if negb ok || (BatchSize cfg <? 0) then (t, None)
  else
    let events := take (Z.to_nat (BatchSize cfg)) (candidates now skip t) in
    (mark_processing t events, Some events).

Definition markCompleted (ok : bool) (event : OutboxEvent) (t : table) (w : OutboxWorker) : table * OutboxWorker :=
  if ok then (alter (set_status OutboxStatusCompleted) (ID event) t, counted 0 1 0 0 (hand w) w) else (t, w).

(** [base * time.Duration(math.Pow(2, float64(n-1)))] in 64 bits. *)
Definition backoff (n : Z) : Duration := wrap64 (RetryBackoffBase cfg * int64_of_float (f_pow (f_of_int 2) (n - 1))).

(** Errors of the updates are ignored; [ok] says whether they took effect. *)
Definition handleFailure (now : Time) (ok : bool) (event : OutboxEvent) (msg : string) (t : table) (w : OutboxWorker) : table * OutboxWorker :=
  let newRetryCount := RetryCount event + 1 in
  if (MaxRetries event <=? newRetryCount) || (cfg_MaxRetries cfg <=? newRetryCount)
  then (if ok then alter (set_failed newRetryCount None msg) (ID event) t else t, counted 0 0 0 1 (hand w) w)
  else
    let nextRetry := Time.Add now (backoff newRetryCount) in
    (if ok then alter (set_failed newRetryCount (Some nextRetry) msg) (ID event) t else t, counted 0 0 1 0 (hand w) w).

(** [answer] is the error of [Publish], if any. *)
Definition processEvent (now : Time) (answer : option string) (ok : bool) (event : OutboxEvent) (t : table) (w : OutboxWorker) : table * OutboxWorker :=
  let w := counted 1 0 0 0 (hand w) w in
  match answer with
  | Some msg => handleFailure now ok event msg t w
  | None => markCompleted ok event t w
  end.

(** The part of [poll] before the loop, and one round of the loop. *)
Definition poll_claim (now : Time) (skip : list string) (ok : bool) (t : table) (w : OutboxWorker) : table * OutboxWorker :=
  match claimBatch now skip ok t with
  | (t, None) => (t, polled now (consecutiveErrs w + 1) [] w)
  | (t, Some []) => (t, polled now (consecutiveErrs w) [] w)
  | (t, Some events) => (t, polled now 0 events w)
  end.
Definition poll_next (now : Time) (answer : option string) (ok : bool) (t : table) (w : OutboxWorker) : table * OutboxWorker :=
  match hand w with
  | [] => (t, w)
  | event :: events => processEvent now answer ok event t (counted 0 0 0 0 events w)
  end.
(** The whole of [poll] with no shutdown: every event is answered by [publish]. *)
Fixpoint poll_loop (n : nat) (now : Time) (publish : OutboxEvent → option string) (t : table) (w : OutboxWorker) : table * OutboxWorker :=
  match n, hand w with
  | S n, event :: _ => let '(t, w) := poll_next now (publish event) true t w in poll_loop n now publish t w
  | _, _ => (t, w)
  end.
Definition poll (now : Time) (publish : OutboxEvent → option string) (t : table) (w : OutboxWorker) : table * OutboxWorker :=
  let '(t, w) := poll_claim now [] true t w in poll_loop (length (hand w)) now publish t w.

(** ** Many workers *)
Record system := { rows : table; workers : list OutboxWorker; published : list string }.

(** A worker polls only when its hand is empty: [poll] runs to its end. A
    shutdown or a crash drops what is in hand. *)
Inductive step : system → system → Prop :=
  | step_insert s e : rows s !! ID e = None → EStatus e = OutboxStatusPending →
      step s {| rows := <[ID e := e]> (rows s); workers := workers s; published := published s |}
  | step_claim s i w now skip ok t' w' : workers s !! i = Some w → hand w = [] →
      poll_claim now skip ok (rows s) w = (t', w') →
      step s {| rows := t'; workers := <[i := w']> (workers s); published := published s |}
  | step_process s i w event rest now answer ok t' w' : workers s !! i = Some w → hand w = event :: rest →
      poll_next now answer ok (rows s) w = (t', w') →
      step s {| rows := t'; workers := <[i := w']> (workers s); published := ID event :: published s |}
  | step_crash s i w : workers s !! i = Some w →
      step s {| rows := rows s; workers := <[i := NewOutboxWorker]> (workers s); published := published s |}.

Definition initial (t : table) (n : nat) : system := {| rows := t; workers := replicate n NewOutboxWorker; published := [] |}.

(** ** What a claim picks *)
Definition keyed (t : table) : Prop := ∀ k e, t !! k = Some e → ID e = k.

Lemma candidates_spec now skip t e : e ∈ candidates now skip t ↔ (∃ k, t !! k = Some e) ∧ eligible now e = true ∧ ID e ∉ skip.
Proof.
  unfold candidates. rewrite elem_of_sort_slice, elem_of_bfilter, andb_true_iff, negb_true_iff, bool_decide_eq_false.
  change (map snd) with (fmap (M := list) (@snd string OutboxEvent)). rewrite list_elem_of_fmap.
  split; [intros [([k e'] & -> & Hk) ?]|intros [[k Hk] ?]].
  - apply elem_of_map_range in Hk. eauto.
  - split; [|done]. exists (k, e). split; [done|]. by apply elem_of_map_range.
Qed.

Lemma NoDup_ids t : keyed t → NoDup (map ID (map snd (map_range t))).
Proof.
  intros Hk. rewrite map_map. replace (map _ (map_range t)) with (map_range t).*1; [apply NoDup_map_range_keys|].
  apply list_fmap_ext. intros i [k e] Hi%list_elem_of_lookup_2%elem_of_map_range. symmetry. by apply Hk.
Qed.
Lemma NoDup_candidates now skip n t : keyed t → NoDup (map ID (take n (candidates now skip t))).
Proof.
  intros Hk. assert (NoDup (map ID (candidates now skip t))) as Hd.
  { unfold candidates. rewrite (sort_slice_perm _ _ _). by apply NoDup_map_filter, NoDup_ids. }
  rewrite <- (take_drop n (candidates now skip t)), map_app in Hd. by apply NoDup_app in Hd as [? _].
Qed.

Lemma mark_processing_lookup t es k :
  mark_processing t es !! k = (if decide (k ∈ map ID es) then set_status OutboxStatusProcessing <$> t !! k else t !! k).
Proof.
  revert t. induction es as [|e es IH]; intros t; [done|]. cbn [mark_processing foldl]. fold (mark_processing (alter (set_status OutboxStatusProcessing) (ID e) t) es).
  rewrite IH. cbn [map]. destruct (decide (k = ID e)) as [->|Hn].
  - rewrite lookup_alter_eq, (decide_True (P := ID e ∈ ID e :: _)) by set_solver. destruct (t !! ID e); by case_decide.
  - rewrite lookup_alter_ne by done. repeat case_decide; set_solver.
Qed.

Lemma poll_claim_spec now skip ok t w t' w' :
  keyed t → poll_claim now skip ok t w = (t', w') →
  t' = mark_processing t (hand w') ∧ NoDup (map ID (hand w')) ∧
  ∀ e, e ∈ hand w' → t !! ID e = Some e ∧ eligible now e = true.
Proof.
  intros Hk. unfold poll_claim, claimBatch. destruct (_ || _); [intros [= <- <-]; split_and!; [done|constructor|by intros e ?%elem_of_nil]|].
  set (es := take _ _). assert (∀ e, e ∈ es → t !! ID e = Some e ∧ eligible now e = true) as Hes.
  { intros e [[k Hke] [He _]]%elem_of_take_inv%candidates_spec. by rewrite (Hk _ _ Hke). }
  assert (NoDup (map ID es)) as Hd by by apply NoDup_candidates.
  destruct es as [|e es']; intros [= <- <-]; done.
Qed.

Lemma poll_next_spec now answer ok t w e rest t' w' :
  hand w = e :: rest → poll_next now answer ok t w = (t', w') →
  hand w' = rest ∧ ((t' = t) ∨ ∃ f, t' = alter f (ID e) t ∧ ∀ r, ID (f r) = ID r).
Proof.
  unfold poll_next, processEvent, handleFailure, markCompleted. intros -> Hp.
  repeat case_match; simplify_eq; (split; [done|]); try (by left); right; eexists; (split; [reflexivity|done]).
Qed.

(** ** Exclusive claims *)
Definition hands (s : system) : list (list string) := map (λ w, map ID (hand w)) (workers s).
Definition in_process (e : OutboxEvent) : Prop := EStatus e = OutboxStatusProcessing.
Definition inv (s : system) : Prop := keyed (rows s) ∧ exclusive in_process (rows s) (hands s).

Lemma hands_lookup s i w : workers s !! i = Some w → hands s !! i = Some (map ID (hand w)).
Proof. intros Hw. unfold hands. by rewrite list_lookup_fmap, Hw. Qed.
Lemma hands_insert s i w t p :
  hands {| rows := t; workers := <[i := w]> (workers s); published := p |} = <[i := map ID (hand w)]> (hands s).
Proof. apply (list_fmap_insert (λ w, map ID (hand w))). Qed.

Lemma mark_processing_keyed t es : keyed t → keyed (mark_processing t es).
Proof.
  intros Hk k e. rewrite mark_processing_lookup. case_decide; [|apply Hk].
  destruct (t !! k) eqn:E; [|done]. intros [= <-]. by apply Hk in E.
Qed.
Lemma alter_keyed f k t : keyed t → (∀ r, ID (f r) = ID r) → keyed (alter f k t).
Proof.
  intros Hk Hf k' e. rewrite lookup_alter_Some. intros [(<- & r & Hr & ->)|[_ ?]]; [rewrite Hf; by apply Hk|by apply Hk].
Qed.

Lemma worker_step_inv s s' : step s s' → inv s → inv s'.
Proof.
  intros [? e Hn He|? i w now skip ok t' w' Hw _ Hp|? i w e rest now answer ok t' w' Hw He Hp|? i w Hw] [Hk Hx]; unfold inv; cbn [rows].
  - split.
    + intros k e'. rewrite lookup_insert_Some. intros [[<- <-]|[_ ?]]; [done|by apply Hk].
    + eapply exclusive_rows; [exact Hx|]. intros k Hin. rewrite lookup_insert_ne; [done|]. intros <-.
      destruct (proj2 Hx _ Hin) as (r & Hr & _). congruence.
  - apply poll_claim_spec in Hp as (-> & Hd & Hes); [|done]. split; [by apply mark_processing_keyed|]. rewrite hands_insert.
    eapply exclusive_claim; [exact Hx|by apply hands_lookup|done| | |].
    + intros k r (e & -> & [Hr Hel]%Hes)%list_elem_of_fmap Hr' Hb. simplify_eq. unfold eligible in Hel. by rewrite Hb in Hel.
    + intros k Hin. rewrite mark_processing_lookup, decide_True by done. apply list_elem_of_fmap in Hin as (e & -> & [-> _]%Hes). by eexists.
    + intros k Hin. by rewrite mark_processing_lookup, decide_False.
  - apply (poll_next_spec _ _ _ _ _ _ _ _ _ He) in Hp as (Hrest & Ht). apply hands_lookup in Hw. rewrite He in Hw.
    split; [destruct Ht as [->|(f & -> & Hf)]; [done|by apply alter_keyed]|]. rewrite hands_insert, Hrest.
    eapply exclusive_put; [exact Hx|exact Hw|]. intros k Hne. destruct Ht as [->|(f & -> & _)]; [done|by rewrite lookup_alter_ne].
  - split; [done|]. rewrite hands_insert. eapply exclusive_drop; [exact Hx|by apply hands_lookup].
Qed.

Lemma worker_initial_inv t n : keyed t → inv (initial t n).
Proof. intros Hk. split; [done|]. unfold hands, initial. cbn. change (map ?f) with (fmap (M := list) f). rewrite fmap_replicate. apply exclusive_start. Qed.
Lemma worker_reachable_inv s s' : rtc step s s' → inv s → inv s'.
Proof. induction 1 as [|s s1 s2 Hs _ IH]; eauto using worker_step_inv. Qed.

(** A row that no query selects and no worker holds stays as it is and is
    never published again. *)
Definition at_rest (s : system) (k : string) (r : OutboxEvent) : Prop :=
  rows s !! k = Some r ∧ (∀ now, eligible now r = false) ∧ k ∉ concat (hands s).

Lemma at_rest_step s s' k r : inv s → step s s' → at_rest s k r →
  at_rest s' k r ∧ ∃ new, published s' = (new ++ published s)%list ∧ k ∉ new.
Proof.
  intros [Hk _] Hs (Hr & He & Hh).
  destruct Hs as [? e Hn Hp|? i w now skip ok t' w' Hw _ Hp|? i w e rest now answer ok t' w' Hw Hhand Hp|? i w Hw]; unfold at_rest; cbn [rows published].
  - split; [|exists []; set_solver]. split_and!; [rewrite lookup_insert_ne; congruence|done|done].
  - apply poll_claim_spec in Hp as (-> & _ & Hes); [|done].
    assert (k ∉ map ID (hand w')) as Hne.
    { intros (e & -> & [Hke Hel]%Hes)%list_elem_of_fmap. rewrite Hr in Hke. simplify_eq. by rewrite He in Hel. }
    split; [|exists []; set_solver]. rewrite mark_processing_lookup, decide_False, hands_insert by done. split_and!; [done|done|].
    intros [?|?]%(elem_of_hands_insert _ _ _ _ _ (hands_lookup _ _ _ Hw)); done.
  - apply (poll_next_spec _ _ _ _ _ _ _ _ _ Hhand) in Hp as (Hrest & Ht). apply hands_lookup in Hw.
    assert (k ∉ map ID (hand w)) as Hne.
    { intros Hin. apply Hh. rewrite (concat_hands _ _ _ Hw). apply elem_of_app. by left. }
    rewrite Hhand in Hne, Hw. apply not_elem_of_cons in Hne as [Hne Hne'].
    split; [|exists [ID e]; split; [done|by rewrite list_elem_of_singleton]]. rewrite hands_insert, Hrest. split_and!; [|done|].
    + destruct Ht as [->|(f & -> & _)]; [done|by rewrite lookup_alter_ne].
    + intros [?|?]%(elem_of_hands_insert _ _ _ _ _ Hw); done.
  - split; [|exists []; set_solver]. rewrite hands_insert. split_and!; [done|done|].
    intros [?|?]%(elem_of_hands_insert _ _ _ _ _ (hands_lookup _ _ _ Hw)); [set_solver|done].
Qed.

Lemma at_rest_forever s s' k r : rtc step s s' → inv s → at_rest s k r →
  at_rest s' k r ∧ ∃ new, published s' = (new ++ published s)%list ∧ k ∉ new.
Proof.
  induction 1 as [s|s s1 s2 Hs _ IH]; intros Hi Hr; [split; [done|exists []; set_solver]|].
  destruct (at_rest_step _ _ _ _ Hi Hs Hr) as [Hr1 (new & E & Hn)]. destruct (IH (worker_step_inv _ _ Hs Hi) Hr1) as [Hr2 (new' & E' & Hn')].
  split; [done|]. exists (new' ++ new)%list. rewrite E', E, app_assoc. split; [done|set_solver].
Qed.

(** C20: any number of workers on any number of instances, polling, failing,
    crashing and restarting in any order, with whatever rows their claims
    skip: an event is in the hands of one worker at most, once, and is marked
    processing there; once its row says completed the row never changes
    again and the event is never published again. *)
Theorem outbox_claims_exclusive t n s :
  keyed t → rtc step (initial t n) s →
  NoDup (concat (hands s)) ∧
  (∀ k, k ∈ concat (hands s) → ∃ r, rows s !! k = Some r ∧ EStatus r = OutboxStatusProcessing) ∧
  (∀ k r s', rows s !! k = Some r → EStatus r = OutboxStatusCompleted → rtc step s s' →
     rows s' !! k = Some r ∧ ∃ new, published s' = (new ++ published s)%list ∧ k ∉ new).
Proof.
  intros Hk Hs. assert (inv s) as Hi by (eapply worker_reachable_inv; [exact Hs|by apply worker_initial_inv]).
  pose proof Hi as [_ [Hd Hb]]. split_and!; [done|done|]. intros k r s' Hr Hc Hs'.
  destruct (at_rest_forever s s' k r Hs' Hi) as [(? & _) ?]; [|done]. split_and!; [done| |].
  - intros now. unfold eligible. by rewrite Hc.
  - intros (r' & Hr' & Hp)%Hb. unfold in_process in Hp. congruence.
Qed.

(** A worker that crashes with a claimed event leaves it marked processing,
    and no worker ever picks it up again: no query selects such a row. *)
Lemma crashed_event_stuck t n s i w e s' :
  keyed t → rtc step (initial t n) s → workers s !! i = Some w → e ∈ hand w →
  rtc step {| rows := rows s; workers := <[i := NewOutboxWorker]> (workers s); published := published s |} s' →
  ∃ r, rows s' !! ID e = Some r ∧ EStatus r = OutboxStatusProcessing ∧
       ∃ new, published s' = (new ++ published s)%list ∧ ID e ∉ new.
Proof.
  intros Hk Hs Hw He Hs'. assert (inv s) as Hi by (eapply worker_reachable_inv; [exact Hs|by apply worker_initial_inv]).
  pose proof (hands_lookup _ _ _ Hw) as Hh. apply (list_elem_of_fmap_2 ID) in He.
  destruct (exclusive_held _ _ _ _ _ _ (proj2 Hi) Hh He) as (r & Hr & Hst).
  destruct (at_rest_forever _ _ (ID e) r Hs') as [(? & _) (new & ? & ?)]; [by eapply worker_step_inv; [by apply (step_crash _ _ w)|]| |by eauto 10].
  split_and!; [done|intros now; unfold eligible; by rewrite Hst|]. rewrite hands_insert.
  by apply (exclusive_split _ _ _ _ _ (proj2 Hi) Hh).
Qed.

(** ** Dead letters come back *)
Lemma candidates_singleton now e : eligible now e = true → candidates now [] {[ID e := e]} = [e].
Proof.
  intros He. unfold candidates. apply Permutation_singleton_r. rewrite (sort_slice_perm _ _ _).
  assert (map_range {[ID e := e]} = [(ID e, e)]) as ->.
  { apply Permutation_singleton_r. by rewrite map_range_perm, map_to_list_singleton. }
  cbn. by rewrite He, bool_decide_eq_false_2 by apply not_elem_of_nil.
Qed.

(** An event over its retry limit, whose last backoff has passed, is picked
    up, published and dead-lettered by a poll, and is then as it was. *)
Lemma dead_letter_poll now msg t0 e w :
  1 ≤ BatchSize cfg → EStatus e = OutboxStatusFailed → NextRetryAt e = Some t0 → t0 ≤ now → MaxRetries e ≤ RetryCount e + 1 →
  ∃ e' w', poll now (λ _, Some msg) {[ID e := e]} w = ({[ID e' := e']}, w') ∧
    EStatus e' = OutboxStatusFailed ∧ NextRetryAt e' = Some t0 ∧ MaxRetries e' = MaxRetries e ∧
    RetryCount e' = RetryCount e + 1 ∧ processed w' = processed w + 1 ∧ deadLettered w' = deadLettered w + 1.
Proof.
  intros Hb Hs Hn Ht Hm. unfold poll, poll_claim, claimBatch.
  assert (eligible now e = true) as He by (unfold eligible; rewrite Hs, Hn; lia).
  rewrite (candidates_singleton now e He). replace (negb true || (BatchSize cfg <? 0)) with false by (cbn; lia).
  replace (Z.to_nat (BatchSize cfg)) with (S (Z.to_nat (BatchSize cfg - 1))) by lia. rewrite firstn_cons, take_nil.
  cbn [mark_processing foldl]. rewrite alter_singleton_eq. cbn [hand polled length poll_loop]. unfold poll_next.
  cbn [hand polled]. unfold processEvent, handleFailure.
  rewrite (proj2 (Z.leb_le _ _) Hm). cbn [orb]. change (ID e) with (ID (set_status OutboxStatusProcessing e)) at 1.
  rewrite alter_singleton_eq. exists (set_failed (RetryCount e + 1) None msg (set_status OutboxStatusProcessing e)).
  eexists. split; [reflexivity|]. cbn. repeat split; [done|lia|lia].
Qed.

(** The dead letter is not permanent: once an event that had been
    retried reaches its limit, every later poll publishes it again, for as
    many polls as there are. *)
Theorem dead_letter_republished now msg t0 e w n :
  1 ≤ BatchSize cfg → EStatus e = OutboxStatusFailed → NextRetryAt e = Some t0 → t0 ≤ now → MaxRetries e ≤ RetryCount e + 1 →
  ∃ e' w', Nat.iter n (λ '(t, w), poll now (λ _, Some msg) t w) ({[ID e := e]}, w) = ({[ID e' := e']}, w') ∧
    RetryCount e' = RetryCount e + Z.of_nat n ∧ processed w' = processed w + Z.of_nat n ∧ deadLettered w' = deadLettered w + Z.of_nat n.
Proof.
  intros Hb Hs Hn Ht Hm.
  enough (∃ e' w', Nat.iter n (λ '(t, w), poll now (λ _, Some msg) t w) ({[ID e := e]}, w) = ({[ID e' := e']}, w') ∧
    EStatus e' = OutboxStatusFailed ∧ NextRetryAt e' = Some t0 ∧ MaxRetries e' = MaxRetries e ∧
    RetryCount e' = RetryCount e + Z.of_nat n ∧ processed w' = processed w + Z.of_nat n ∧ deadLettered w' = deadLettered w + Z.of_nat n) by naive_solver.
  induction n as [|n (e1 & w1 & E & H1 & H2 & H3 & H4 & H5 & H6)]; [exists e, w; cbn; repeat split; (done || lia)|].
  destruct (dead_letter_poll now msg t0 e1 w1) as (e2 & w2 & E2 & ? & ? & ? & ? & ? & ?); [done..|lia|].
  exists e2, w2. cbn [Nat.iter nat_rect]. change (nat_rect _ _ _ n) with (Nat.iter n (λ '(t, w), poll now (λ _, Some msg) t w) ({[ID e := e]}, w)).
  rewrite E. split; [done|]. repeat split; (congruence || lia).
Qed.
End worker.

(** ** Concrete runs *)
Module Runs.
Definition event (id : string) (occurred : Time) : OutboxEvent :=
  {| ID := id; EventType := "plan.created"; EventData := "{}"; AggregateID := None; AggregateType := None;
     OccurredAt := occurred; EStatus := OutboxStatusPending; RetryCount := 0; MaxRetries := 3; NextRetryAt := None;
     ErrorMessage := None |}.
Definition two_rows : table := {["a" := event "a" 20; "b" := event "b" 10]}.
Definition cfg := DefaultOutboxWorkerConfig.

(** A poll publishes in order of occurrence; the failure waits a second. *)
Example polled_once :
  let '(t, w) := poll cfg 100 (λ e, if decide (ID e = "a") then Some "down" else None) two_rows (Start NewOutboxWorker) in
  (EStatus <$> t !! "b", NextRetryAt <$> t !! "a", processed w, succeeded w, failed w, Health w) =
  (Some OutboxStatusCompleted, Some (Some (100 + Time.Second)), 2, 1, 1, None).
Proof. vm_compute. reflexivity. Qed.

Definition claimed : system :=
  let '(t, w) := poll_claim cfg 100 ["a"] true two_rows NewOutboxWorker in
  {| rows := t; workers := [w; NewOutboxWorker]; published := [] |}.
Definition done_b : system :=
  let '(t, w) := poll_next cfg 101 None true (rows claimed) (nth 0 (workers claimed) NewOutboxWorker) in
  {| rows := t; workers := [w; NewOutboxWorker]; published := ["b"] |}.

Lemma done_b_reachable : rtc (step cfg) (initial two_rows 2) done_b.
Proof.
  eapply rtc_l; [apply (step_claim cfg (initial two_rows 2) 0 NewOutboxWorker 100 ["a"] true (rows claimed) (nth 0 (workers claimed) NewOutboxWorker)); reflexivity|].
  eapply rtc_l; [|apply rtc_refl].
  apply (step_process cfg claimed 0 (nth 0 (workers claimed) NewOutboxWorker) (event "b" 10) [] 101 None true
           (rows done_b) (nth 0 (workers done_b) NewOutboxWorker)); vm_compute; reflexivity.
Qed.

Lemma outbox_claims_exclusive_witness :
  EStatus <$> rows done_b !! "b" = Some OutboxStatusCompleted ∧
  ∀ s', rtc (step cfg) done_b s' → ∃ new, published s' = (new ++ ["b"])%list ∧ "b" ∉ new.
Proof.
  split; [vm_compute; reflexivity|]. intros s' Hs'.
  assert (keyed two_rows) as Hk.
  { intros k e. unfold two_rows. rewrite lookup_insert_Some, lookup_singleton_Some. by intros [[<- <-]|[_ [<- <-]]]. }
  destruct (outbox_claims_exclusive cfg two_rows 2 done_b Hk done_b_reachable) as (_ & _ & H).
  by destruct (H "b" (set_status OutboxStatusCompleted (set_status OutboxStatusProcessing (event "b" 10))) s' eq_refl eq_refl Hs') as [_ ?].
Defined.

Definition over_limit : OutboxEvent := set_failed 2 (Some 50) "down" (event "a" 20).
Lemma dead_letter_republished_witness :
  ∃ e' w', Nat.iter 7 (λ '(t, w), poll cfg 100 (λ _, Some "down") t w) ({["a" := over_limit]}, NewOutboxWorker) = ({[ID e' := e']}, w') ∧
    RetryCount e' = 9 ∧ processed w' = 7 ∧ deadLettered w' = 7.
Proof. apply (dead_letter_republished cfg 100 "down" 50 over_limit NewOutboxWorker 7); (reflexivity || (vm_compute; congruence)). Defined.
End Runs.
