(* ===== verification/WebhookInbox.v ===== *)
(** * The webhook inbox worker

    [internal/worker/webhook_inbox.go]: workers claim received webhooks, the
    oldest open one of each source, and turn them into outbox events.

    The table [webhook_inbox] is a finite map. The claiming [UPDATE] is one
    statement and so one step; [skip] are the rows other transactions have
    locked. Decoding and encoding of JSON are parameters; events are stored
    by the repository of [Outbox]. *)
From Stdlib Require Import ZArith Lia Ascii String Sorted.
From stdpp Require Import base gmap strings list.
From S2P Require Import Prelude Claims.
From S2P Require Outbox.
#[local] Open Scope string_scope.
#[local] Open Scope Z_scope.

(** ** Data *)
Inductive inbox_status := Pending | Processing | Processed | Failed.
#[export] Instance inbox_status_eq_dec : EqDecision inbox_status.
Proof. solve_decision. Defined.

Record inbox_row := {
  source_id : string;
  payload : string;
  status : inbox_status;
  created_at : Time;
  attempts : Z;
  error_text : option string;
}.

(** [event.Data], with what each value is when asserted to be a string. *)
Record WebhookEvent := { EventType : string; Data : gmap string (option string) }.

Definition open (s : inbox_status) : bool := match s with Pending | Processing => true | _ => false end.

Notation inbox := (gmap string inbox_row).

Section worker.
Context `{GoRuntime}.
Context (decode : string → option WebhookEvent) (encode : string → gmap string (option string) → option string).

(** ** Routing a payload

    [id] and [now] are what [uuid.New] and [time.Now] give. *)
Definition store_once (id : Outbox.UUID) (now : Time) (eventType aggregate field : string) (event : WebhookEvent)
    (db : Outbox.Database) : option string * Outbox.Database :=
  match Data event !! field with
  | Some (Some v) =>
      if decide (v = "") then (Some ("missing_field: data." +:+ field +:+ " is required"), db)
      else match encode eventType (Data event) with
      | None => (Some "failed to create outbox event", db)
      | Some data =>
          match Outbox.Store (Outbox.NewEventWithDeduplication id now eventType data (Some v) (Some aggregate) (Some v)) db with
          | (Err _, db) => (Some "failed to store outbox event", db)
          | (Ok _, db) => (None, db)
          end
      end
  | _ => (Some ("missing_field: data." +:+ field +:+ " is required"), db)
  end.
Definition processSubscriptionCreated (id : Outbox.UUID) (now : Time) : WebhookEvent → Outbox.Database → option string * Outbox.Database :=
  store_once id now "internal.subscription.provisioned" "subscription" "subscription_id".
Definition processStatementIssued (id : Outbox.UUID) (now : Time) : WebhookEvent → Outbox.Database → option string * Outbox.Database :=
  store_once id now "internal.statement.ready" "statement" "statement_id".

Definition routePayload (id : Outbox.UUID) (now : Time) (payload : string) (db : Outbox.Database) : option string * Outbox.Database :=
  match decode payload with
  | None => (Some "invalid payload", db)
  | Some event =>
      if decide (EventType event = "subscription.created") then processSubscriptionCreated id now event db
      else if decide (EventType event = "statement.issued") then processStatementIssued id now event db
      else (Some ("unrecognised event_type: " +:+ EventType event), db)
  end.

(** ** The table *)
Definition blocked (t : inbox) (r : inbox_row) : bool :=
  any (λ '(_, r'), bool_decide (source_id r' = source_id r) && open (status r') && (created_at r' <? created_at r)) (map_to_list t).
Definition available (t : inbox) (r : inbox_row) : bool :=
  match status r with Pending => negb (blocked t r) | _ => false end.

Definition next_available (skip : list string) (t : inbox) : list (string * inbox_row) :=
  take 50 (sort_slice (λ a b, created_at a.2 <? created_at b.2)
    (List.filter (λ '(k, r), available t r && negb (bool_decide (k ∈ skip))) (map_range t))).

Definition start_row (r : inbox_row) : inbox_row :=
  {| source_id := source_id r; payload := payload r; status := Processing; created_at := created_at r;
     attempts := attempts r + 1; error_text := error_text r |}.
Definition finish_row (error : option string) (r : inbox_row) : inbox_row :=
  match error with
  | Some msg =>
      {| source_id := source_id r; payload := payload r; status := if 5 <=? attempts r then Failed else Pending;
         created_at := created_at r; attempts := attempts r; error_text := Some msg |}
  | None =>
      {| source_id := source_id r; payload := payload r; status := Processed; created_at := created_at r;
         attempts := attempts r; error_text := error_text r |}
  end.

(** The first statement of [processBatch]: the rows it returns. *)
Definition claim (skip : list string) (t : inbox) : inbox * list string :=
  let ks := map fst (next_available skip t) in (foldl (λ t k, alter start_row k t) t ks, ks).

(** One round of the loop: [scanned] and [saved] say whether reading the row
    and the final update worked. *)
Definition process_row (id : Outbox.UUID) (now : Time) (scanned saved : bool) (k : string) (t : inbox) (db : Outbox.Database) : inbox * Outbox.Database :=
  match t !! k with
  | Some r =>
      if negb scanned then (t, db)
      else
        let '(error, db) := routePayload id now (payload r) db in
        (if saved then alter (finish_row error) k t else t, db)
  | None => (t, db)
  end.

(** [processBatch] on its own, every statement working. [fresh k] is the
    identifier drawn for the event of row [k]. *)
Definition processBatch (fresh : string → Outbox.UUID) (now : Time) (t : inbox) (db : Outbox.Database) : inbox * Outbox.Database :=
  let '(t, ks) := claim [] t in
  foldl (λ '(t, db) k, process_row (fresh k) now true true k t db) (t, db) ks.

(** ** Many workers *)
Record system := { rows : inbox; in_hand : list (list string); db : Outbox.Database; finished : list string }.

(** A webhook is received after the earlier ones of its source, at a later
    instant: the query compares [created_at] with [<], so two webhooks of a
    source with one instant would not hold each other back. A worker claims
    when it has nothing left to do, and may stop at any point. *)
Inductive step : system → system → Prop :=
  | step_receive s k r :
      rows s !! k = None → status r = Pending → attempts r = 0 →
      (∀ k' r', rows s !! k' = Some r' → source_id r' = source_id r → created_at r' < created_at r) →
      step s {| rows := <[k := r]> (rows s); in_hand := in_hand s; db := db s; finished := finished s |}
  | step_claim s i skip : in_hand s !! i = Some [] →
      step s {| rows := (claim skip (rows s)).1; in_hand := <[i := (claim skip (rows s)).2]> (in_hand s);
                db := db s; finished := finished s |}
  | step_process s i k ks id now scanned saved t' db' : in_hand s !! i = Some (k :: ks) →
      process_row id now scanned saved k (rows s) (db s) = (t', db') →
      step s {| rows := t'; in_hand := <[i := ks]> (in_hand s); db := db';
                finished := match t' !! k with
                            | Some r => if open (status r) then finished s else k :: finished s
                            | None => finished s
                            end |}
  | step_stop s i ks : in_hand s !! i = Some ks →
      step s {| rows := rows s; in_hand := <[i := []]> (in_hand s); db := db s; finished := finished s |}.

Definition start (n : nat) (d : Outbox.Database) : system :=
  {| rows := ∅; in_hand := replicate n []; db := d; finished := [] |}.

(** ** What a claim picks *)
Lemma next_available_spec skip t k r : (k, r) ∈ next_available skip t → t !! k = Some r ∧ available t r = true.
Proof.
  unfold next_available. intros Hin%elem_of_take_inv. rewrite elem_of_sort_slice, elem_of_bfilter, elem_of_map_range, andb_true_iff in Hin.
  naive_solver.
Qed.
Lemma NoDup_claim skip t : NoDup (claim skip t).2.
Proof.
  cbn. unfold next_available. set (l := sort_slice _ _).
  assert (NoDup (map fst l)) as Hd.
  { unfold l. rewrite (sort_slice_perm _ _ _). apply NoDup_map_filter, NoDup_map_range_keys. }
  rewrite <- (take_drop 50 l), map_app in Hd. by apply NoDup_app in Hd as [? _].
Qed.

Lemma not_blocked t r k' r' :
  blocked t r = false → t !! k' = Some r' → source_id r' = source_id r → created_at r' < created_at r → open (status r') = false.
Proof.
  intros Hb Hk Hs Hc. destruct (open (status r')) eqn:Ho; [|done]. enough (blocked t r = true) by congruence.
  apply any_true. exists (k', r'). split; [by apply elem_of_map_to_list|]. rewrite Ho, bool_decide_eq_true_2 by done. cbn. lia.
Qed.

Lemma foldl_start_lookup (t : inbox) ks k : NoDup ks →
  foldl (λ t k, alter start_row k t) t ks !! k = (if decide (k ∈ ks) then start_row <$> t !! k else t !! k).
Proof.
  revert t. induction ks as [|k0 ks IH]; intros t Hd; [done|]. apply NoDup_cons in Hd as [Hk0 Hd]. cbn [foldl]. rewrite IH by done.
  destruct (decide (k = k0)) as [->|Hn].
  - by rewrite decide_False, lookup_alter_eq, decide_True by set_solver.
  - rewrite lookup_alter_ne by done. repeat case_decide; set_solver.
Qed.

Lemma claim_lookup skip t k :
  (∃ r, (claim skip t).1 !! k = Some (start_row r) ∧ t !! k = Some r ∧ available t r = true ∧ k ∈ (claim skip t).2) ∨
  ((claim skip t).1 !! k = t !! k ∧ k ∉ (claim skip t).2).
Proof.
  cbn [claim fst]. rewrite foldl_start_lookup by apply NoDup_claim. case_decide as Hin; [left|by right].
  pose proof Hin as ([k' r] & -> & [Hr Ha]%next_available_spec)%list_elem_of_fmap. exists r. cbn. by rewrite Hr.
Qed.

(** The update of a row in hand, if it takes place. *)
Lemma process_row_lookup id now scanned saved k t d t' d' :
  process_row id now scanned saved k t d = (t', d') →
  (t' = t) ∨ ∃ error, t' = alter (finish_row error) k t.
Proof. unfold process_row. repeat case_match; intros; simplify_eq; eauto. Qed.

(** ** Order within a source *)
Definition in_process (r : inbox_row) : Prop := status r = Processing.
Definition precedes (t : inbox) (k k' : string) : Prop :=
  ∀ r r', t !! k = Some r → t !! k' = Some r' → source_id r = source_id r' → created_at r < created_at r'.

Record inv (s : system) : Prop := {
  inv_hands : exclusive in_process (rows s) (in_hand s);
  inv_order : ∀ k r k' r', rows s !! k = Some r → rows s !! k' = Some r' → source_id r = source_id r' →
                created_at r < created_at r' → 0 < attempts r' → open (status r) = false;
  inv_distinct : ∀ k r k' r', rows s !! k = Some r → rows s !! k' = Some r' → source_id r = source_id r' →
                   created_at r = created_at r' → k = k';
  inv_attempts : ∀ k r, rows s !! k = Some r → 0 ≤ attempts r ∧ (status r ≠ Pending → 0 < attempts r);
  inv_closed : ∀ k, k ∈ finished s → ∃ r, rows s !! k = Some r ∧ open (status r) = false;
  inv_finished : StronglySorted (λ k' k, precedes (rows s) k k') (finished s);
}.

(** Source and time of a row never change, nor does a closed row. *)
Definition evolves (t t' : inbox) : Prop :=
  ∀ k r', t' !! k = Some r' → ∃ r, t !! k = Some r ∧ source_id r' = source_id r ∧ created_at r' = created_at r ∧
    (open (status r) = false → r' = r).
Lemma evolves_precedes t t' k k' : evolves t t' → precedes t k k' → precedes t' k k'.
Proof. intros He Hp r r' (r0 & ? & -> & -> & _)%He (r1 & ? & -> & -> & _)%He. by apply Hp. Qed.
Lemma StronglySorted_impl {A} (P Q : A → A → Prop) l : (∀ x y, P x y → Q x y) → StronglySorted P l → StronglySorted Q l.
Proof. intros Hpq. induction 1 as [|x l _ IH Hf]; constructor; [done|]. eapply Forall_impl; [exact Hf|auto]. Qed.

Lemma claim_evolves skip t : evolves t (claim skip t).1.
Proof.
  intros k r' Hk. destruct (claim_lookup skip t k) as [(r & E & Hr & Ha & _)|[E _]]; rewrite E in Hk; simplify_eq; [|by eauto].
  exists r. split_and!; [done..|]. intros Ho. unfold available in Ha. by destruct (status r).
Qed.

Lemma claim_inv s i skip :
  inv s → in_hand s !! i = Some [] →
  inv {| rows := (claim skip (rows s)).1; in_hand := <[i := (claim skip (rows s)).2]> (in_hand s); db := db s; finished := finished s |}.
Proof.
  intros [Hh Ho Hd Ha Hc Hf] Hi. pose proof (claim_evolves skip (rows s)) as Hev.
  assert (∀ k r, rows s !! k = Some r → open (status r) = false → (claim skip (rows s)).1 !! k = Some r) as Hclosed.
  { intros k r Hk Hr. destruct (claim_lookup skip (rows s) k) as [(r' & _ & Hr' & Hav & _)|[-> _]]; [|done].
    simplify_eq. unfold available in Hav. by destruct (status r). }
  split; cbn [rows in_hand finished].
  - eapply exclusive_claim; [exact Hh|done|apply NoDup_claim| | |].
    + intros k r Hin Hr Hb. destruct (claim_lookup skip (rows s) k) as [(r' & _ & Hr' & Hav & _)|[_ ?]]; [|done].
      simplify_eq. unfold available in Hav. by rewrite Hb in Hav.
    + intros k Hin. destruct (claim_lookup skip (rows s) k) as [(r' & -> & _)|[_ ?]]; [by eexists|done].
    + intros k Hin. by destruct (claim_lookup skip (rows s) k) as [(r' & _ & _ & _ & ?)|[-> _]].
  - intros k r k' r' Hk Hk' Hs Ht Hat.
    destruct (Hev _ _ Hk) as (r0 & Hr0 & E1 & E2 & E3). destruct (Hev _ _ Hk') as (r1 & Hr1 & E4 & E5 & E6).
    enough (open (status r0) = false) as Hcl by (by rewrite E3).
    destruct (claim_lookup skip (rows s) k') as [(r2 & _ & Hr2 & Hav & _)|[E _]].
    + rewrite Hr1 in Hr2. injection Hr2 as <-. unfold available in Hav. destruct (status r1); try done. apply negb_true_iff in Hav.
      eapply not_blocked; [exact Hav|exact Hr0|congruence|lia].
    + rewrite E, Hr1 in Hk'. simplify_eq. eapply Ho; [exact Hr0|exact Hr1|congruence|lia|done].
  - intros k r k' r' Hk Hk' Hs Ht. destruct (Hev _ _ Hk) as (r0 & Hr0 & E1 & E2 & _).
    destruct (Hev _ _ Hk') as (r1 & Hr1 & E4 & E5 & _). eapply Hd; [exact Hr0|exact Hr1|congruence..].
  - intros k r Hk. destruct (claim_lookup skip (rows s) k) as [(r' & E & Hr' & _)|[E _]]; rewrite E in Hk; simplify_eq; [|by apply (Ha k)].
    destruct (Ha _ _ Hr'). cbn. lia.
  - intros k (r & Hr & Hcl)%Hc. eauto.
  - eapply StronglySorted_impl; [|exact Hf]. intros ? ?. by apply evolves_precedes.
Qed.

Lemma alter_evolves t k r error : t !! k = Some r → open (status r) = true → evolves t (alter (finish_row error) k t).
Proof.
  intros Hk Ho k' r'. rewrite lookup_alter_Some. intros [(<- & r0 & Hr0 & ->)|[_ ?]]; [|by eauto 10].
  simplify_eq. exists r. split_and!; [done|by destruct error..|congruence].
Qed.

Lemma process_inv s i k ks id now scanned saved t' d' :
  inv s → in_hand s !! i = Some (k :: ks) → process_row id now scanned saved k (rows s) (db s) = (t', d') →
  inv {| rows := t'; in_hand := <[i := ks]> (in_hand s); db := d';
         finished := match t' !! k with Some r => if open (status r) then finished s else k :: finished s | None => finished s end |}.
Proof.
  intros [Hh Ho Hd Ha Hc Hf] Hi Hp%process_row_lookup.
  destruct (exclusive_held _ _ _ _ _ k Hh Hi) as (r & Hr & Hbusy); [set_solver|]. unfold in_process in Hbusy.
  assert (exclusive in_process t' (<[i := ks]> (in_hand s))) as Hh'.
  { eapply exclusive_put; [exact Hh|exact Hi|]. intros k' Hn. destruct Hp as [->|(e & ->)]; [done|by rewrite lookup_alter_ne]. }
  destruct Hp as [->|(error & ->)]; [rewrite Hr, Hbusy; by split|].
  pose proof (alter_evolves (rows s) k r error Hr ltac:(by rewrite Hbusy)) as Hev.
  assert (∀ k' r', k' ∈ finished s → rows s !! k' = Some r' → source_id r' = source_id r → created_at r' < created_at r) as Hlast.
  { intros k' r' (r0 & Hr0 & Hcl)%Hc Hr' Hsrc. simplify_eq. destruct (Z.lt_trichotomy (created_at r0) (created_at r)) as [?|[He|Hgt]]; [done| |].
    - rewrite (Hd _ _ _ _ Hr0 Hr Hsrc He) in Hr0. simplify_eq. by rewrite Hbusy in Hcl.
    - assert (open (status r) = false) as Hx; [|by rewrite Hbusy in Hx].
      eapply Ho; [exact Hr|exact Hr0|done|lia|]. apply (Ha _ _ Hr0). by destruct (status r0). }
  split; cbn [rows in_hand finished]; [done| | | | |].
  - intros k1 r1 k2 r2 H1 H2 Hs Ht Hat. destruct (Hev _ _ H1) as (r0 & Hr0 & E1 & E2 & E3). destruct (Hev _ _ H2) as (r3 & Hr3 & E4 & E5 & E6).
    enough (open (status r0) = false) as Hcl by (by rewrite E3). eapply Ho; [exact Hr0|exact Hr3|congruence|lia|].
    apply lookup_alter_Some in H2 as [(-> & r' & Hr' & ->)|[_ ?]]; simplify_eq; [|done]. by destruct error.
  - intros k1 r1 k2 r2 H1 H2 Hs Ht. destruct (Hev _ _ H1) as (r0 & Hr0 & E1 & E2 & _).
    destruct (Hev _ _ H2) as (r3 & Hr3 & E4 & E5 & _). eapply Hd; [exact Hr0|exact Hr3|congruence..].
  - intros k1 r1 [(<- & r' & Hr' & ->)|[_ ?]]%lookup_alter_Some; [|by apply (Ha k1)]. simplify_eq.
    destruct (Ha _ _ Hr) as [? Hpos]. rewrite Hbusy in Hpos. specialize (Hpos ltac:(done)). by destruct error.
  - assert (∀ k', k' ∈ finished s → ∃ r0, alter (finish_row error) k (rows s) !! k' = Some r0 ∧ open (status r0) = false) as Hold.
    { intros k' (r0 & Hr0 & Hcl)%Hc. exists r0. rewrite lookup_alter_ne; [done|]. intros ->. simplify_eq. by rewrite Hbusy in Hcl. }
    rewrite lookup_alter_eq, Hr. cbn. destruct (open _) eqn:Hopen; [done|]. intros k' [->|?]%elem_of_cons; [|auto].
    exists (finish_row error r). by rewrite lookup_alter_eq, Hr.
  - assert (StronglySorted (λ k' k0, precedes (alter (finish_row error) k (rows s)) k0 k') (finished s)) as Hsort.
    { eapply StronglySorted_impl; [|exact Hf]. intros ? ?. by apply evolves_precedes. }
    rewrite lookup_alter_eq, Hr. cbn. destruct (open _); [done|]. constructor; [done|]. apply Forall_forall. intros k0 Hin.
    apply (evolves_precedes (rows s)); [done|]. intros r0 r' Hr0 Hr' Hsrc. simplify_eq. eapply Hlast; eauto.
Qed.

Lemma receive_inv s k r :
  inv s → rows s !! k = None → status r = Pending → attempts r = 0 →
  (∀ k' r', rows s !! k' = Some r' → source_id r' = source_id r → created_at r' < created_at r) →
  inv {| rows := <[k := r]> (rows s); in_hand := in_hand s; db := db s; finished := finished s |}.
Proof.
  intros [Hh Ho Hd Ha Hc Hf] Hk Hst Hat Hnew.
  assert (∀ k' r', rows s !! k' = Some r' → <[k := r]> (rows s) !! k' = Some r') as Hkeep.
  { intros k' r' Hr'. rewrite lookup_insert_ne; [done|congruence]. }
  split; cbn [rows in_hand finished].
  - eapply exclusive_rows; [exact Hh|]. intros k' (r' & Hr' & _)%(proj2 Hh). rewrite Hr'. by apply Hkeep.
  - intros k1 r1 k2 r2 [[<- <-]|[_ H1]]%lookup_insert_Some [[<- <-]|[_ H2]]%lookup_insert_Some Hs Ht Hp; [lia| |lia|by eapply Ho].
    pose proof (Hnew _ _ H2 (eq_sym Hs)). lia.
  - intros k1 r1 k2 r2 [[<- <-]|[_ H1]]%lookup_insert_Some [[<- <-]|[_ H2]]%lookup_insert_Some Hs Ht; [done| | |by eapply Hd].
    + pose proof (Hnew _ _ H2 (eq_sym Hs)). lia.
    + pose proof (Hnew _ _ H1 Hs). lia.
  - intros k1 r1 [[<- <-]|[_ H1]]%lookup_insert_Some; [split; [lia|done]|by apply (Ha k1)].
  - intros k' (r' & Hr' & ?)%Hc. eauto.
  - assert (∀ l, (∀ k', k' ∈ l → is_Some (rows s !! k')) → StronglySorted (λ k' k, precedes (rows s) k k') l →
      StronglySorted (λ k' k0, precedes (<[k := r]> (rows s)) k0 k') l) as Hgen.
    { intros l Hl. induction 1 as [|x l _ IH Hx]; constructor; [apply IH; set_solver|]. apply Forall_forall. intros y Hy r1 r2.
      destruct (Hl x) as [rx Hrx]; [set_solver|]. destruct (Hl y) as [ry Hry]; [set_solver|].
      rewrite (Hkeep _ _ Hrx), (Hkeep _ _ Hry). intros [= <-] [= <-]. rewrite Forall_forall in Hx. by apply (Hx y Hy). }
    apply Hgen; [|done]. intros k' (r' & ? & _)%Hc. eauto.
Qed.

Lemma inbox_step_inv s s' : step s s' → inv s → inv s'.
Proof.
  intros [? k r Hk Hst Hat Hnew|? i skip Hi|? i k ks id now scanned saved t' d' Hi Hp|? i ks Hi] Hs.
  - by apply receive_inv.
  - by apply claim_inv.
  - by eapply process_inv.
  - destruct Hs as [Hh ? ? ? ? ?]. split; try done. by eapply exclusive_drop.
Qed.
Lemma start_inv n d : inv (start n d).
Proof.
  split; cbn [start rows in_hand finished]; [apply exclusive_start|by intros; simplify_map_eq..|by intros k ?%elem_of_nil|constructor].
Qed.
Lemma inbox_reachable_inv s s' : rtc step s s' → inv s → inv s'.
Proof. induction 1; eauto using inbox_step_inv. Qed.

(** C19: whatever the workers do and wherever they stop, webhooks of one
    source are handled in the order they were received: one that has ever
    been claimed has only closed ones before it, at most one is in process,
    no row is in two hands, and the rows of a source were closed oldest
    first. *)
Theorem inbox_in_order n d s :
  rtc step (start n d) s →
  NoDup (concat (in_hand s)) ∧
  (∀ k r k' r', rows s !! k = Some r → rows s !! k' = Some r' → source_id r = source_id r' →
     created_at r < created_at r' → 0 < attempts r' → status r = Processed ∨ status r = Failed) ∧
  (∀ k r k' r', rows s !! k = Some r → rows s !! k' = Some r' → source_id r = source_id r' →
     status r = Processing → status r' = Processing → k = k') ∧
  StronglySorted (λ k' k, precedes (rows s) k k') (finished s).
Proof.
  intros Hs. pose proof (inbox_reachable_inv _ _ Hs (start_inv n d)) as [[Hd _] Ho Hdis Ha _ Hf]. split_and!; [done| | |done].
  - intros k r k' r' Hk Hk' Hsrc Ht Hat. pose proof (Ho _ _ _ _ Hk Hk' Hsrc Ht Hat) as Hx. destruct (status r); [done|done|auto|auto].
  - intros k r k' r' Hk Hk' Hsrc Hp Hp'.
    assert (0 < attempts r) by (apply (Ha _ _ Hk); by rewrite Hp). assert (0 < attempts r') by (apply (Ha _ _ Hk'); by rewrite Hp').
    destruct (Z.lt_trichotomy (created_at r) (created_at r')) as [Hlt|[He|Hgt]]; [|by eapply Hdis|].
    + pose proof (Ho _ _ _ _ Hk Hk' Hsrc Hlt ltac:(done)) as Hx. by rewrite Hp in Hx.
    + pose proof (Ho _ _ _ _ Hk' Hk (eq_sym Hsrc) Hgt ltac:(done)) as Hx. by rewrite Hp' in Hx.
Qed.

(** A row left in process by a worker that stopped stays so for ever, and no
    later webhook of its source is ever handled. *)
Lemma abandoned_step s s' k r :
  inv s → step s s' → rows s !! k = Some r → status r = Processing → k ∉ concat (in_hand s) →
  rows s' !! k = Some r ∧ k ∉ concat (in_hand s').
Proof.
  intros Hi Hs Hk Hp Hn. destruct Hs as [? k' r' Hk' Hst Hat Hnew|? i skip Hh|? i k' ks id now scanned saved t' d' Hh Hpr|? i ks Hh]; cbn [rows in_hand].
  - split; [rewrite lookup_insert_ne; congruence|done].
  - destruct (claim_lookup skip (rows s) k) as [(r' & _ & Hr' & Ha & _)|[-> Hc]].
    { simplify_eq. unfold available in Ha. by rewrite Hp in Ha. }
    split; [done|]. by intros [?|?]%(elem_of_hands_insert _ _ _ _ _ Hh).
  - assert (k ≠ k') as Hne. { intros ->. apply Hn. rewrite (concat_hands _ _ _ Hh). set_solver. }
    split; [apply process_row_lookup in Hpr as [->|(e & ->)]; [done|by rewrite lookup_alter_ne]|].
    intros [?|?]%(elem_of_hands_insert _ _ _ _ _ Hh); [|done]. apply Hn. rewrite (concat_hands _ _ _ Hh). set_solver.
  - split; [done|]. intros [?|?]%(elem_of_hands_insert _ _ _ _ _ Hh); set_solver.
Qed.

Lemma abandoned_row_blocks_source n d s s' k r :
  rtc step (start n d) s → rtc step s s' →
  rows s !! k = Some r → status r = Processing → k ∉ concat (in_hand s) →
  rows s' !! k = Some r ∧
  ∀ k' r', rows s' !! k' = Some r' → source_id r' = source_id r → created_at r < created_at r' → attempts r' = 0.
Proof.
  intros Hs Hs' Hk Hp Hn. pose proof (inbox_reachable_inv _ _ Hs (start_inv n d)) as Hi.
  assert (inv s' ∧ rows s' !! k = Some r) as [[_ Ho _ Ha _ _] Hk'].
  { clear Hs. revert Hi Hk Hn. induction Hs' as [s|s s1 s2 Hst _ IH]; [done|]. intros Hi Hk Hn.
    destruct (abandoned_step _ _ _ _ Hi Hst Hk Hp Hn) as [? ?]. apply IH; [by eapply inbox_step_inv|done|done]. }
  split; [done|]. intros k' r' Hr' Hsrc Ht. destruct (Ha _ _ Hr') as [? _].
  destruct (Z.eq_dec (attempts r') 0) as [|Hne]; [done|].
  pose proof (Ho _ _ _ _ Hk' Hr' (eq_sym Hsrc) Ht ltac:(lia)) as Hx. by rewrite Hp in Hx.
Qed.
End worker.

(** ** Concrete runs *)
Module Runs.
Definition row (src p : string) (at_ : Time) : inbox_row :=
  {| source_id := src; payload := p; status := Pending; created_at := at_; attempts := 0; error_text := None |}.
Definition decode (p : string) : option WebhookEvent :=
  if decide (p = "bad") then None
  else Some {| EventType := "subscription.created"; Data := {["subscription_id" := Some p]} |}.
Definition encode (_ : string) (_ : gmap string (option string)) : option string := Some "{}".
Definition no_events : Outbox.Database :=
  {| Outbox.outbox_events := ∅; Outbox.outbox_publisher_progress := ∅; Outbox.faults := [] |}.
Definition received : inbox := {["w1" := row "acme" "sub-1" 1; "w2" := row "acme" "sub-1" 2; "w3" := row "zeta" "bad" 3]}.
Definition fresh (k : string) : Outbox.UUID := if decide (k = "w1") then 1 else if decide (k = "w2") then 2 else 3.

(** The first batch takes the oldest of each source; in the second the same
    subscription is announced again and the unique index refuses it. *)
Example two_batches :
  let '(t, d) := processBatch decode encode fresh 10 received no_events in
  let '(t', d') := processBatch decode encode fresh 20 t d in
  (status <$> t !! "w1", status <$> t !! "w2", error_text <$> t !! "w3", error_text <$> t' !! "w2", size (Outbox.outbox_events d')) =
  (Some Processed, Some Pending, Some (Some "invalid payload"), Some (Some "failed to store outbox event"), 1%nat).
Proof. vm_compute. reflexivity. Qed.

Definition claimed : system :=
  let '(t, ks) := claim [] received in
  {| rows := t; in_hand := [ks; []]; db := no_events; finished := [] |}.
Lemma claimed_reachable : rtc (step decode encode) (start 2 no_events) claimed.
Proof.
  eapply rtc_l; [apply (step_receive _ _ _ "w1" (row "acme" "sub-1" 1)); [done|done|done|by cbn; intros ? ? ?%lookup_empty_Some]|].
  eapply rtc_l; [apply (step_receive _ _ _ "w2" (row "acme" "sub-1" 2)); [done|done|done|]|].
  { cbn. intros k r [[<- <-]|[_ ?%lookup_empty_Some]]%lookup_insert_Some; [cbn; lia|done]. }
  eapply rtc_l; [apply (step_receive _ _ _ "w3" (row "zeta" "bad" 3)); [done|done|done|]|].
  { cbn. intros k r [[<- <-]|[_ [[<- <-]|[_ ?%lookup_empty_Some]]%lookup_insert_Some]]%lookup_insert_Some; [done|done|done]. }
  eapply rtc_l; [|apply rtc_refl].
  match goal with |- step _ _ ?s _ => replace claimed with
    {| rows := (claim [] (rows s)).1; in_hand := <[0%nat := (claim [] (rows s)).2]> (in_hand s); db := db s; finished := finished s |}
    by (vm_compute; reflexivity) end.
  by apply (step_claim _ _ _ 0 []).
Qed.

Lemma inbox_in_order_witness :
  concat (in_hand claimed) = ["w1"; "w3"] ∧ status <$> rows claimed !! "w1" = Some Processing ∧
  ∀ k' r', rows claimed !! k' = Some r' → source_id r' = "acme" → status r' = Processing → k' = "w1".
Proof.
  split; [vm_compute; reflexivity|]. split; [vm_compute; reflexivity|]. intros k' r' Hk Hs Hp.
  destruct (inbox_in_order decode encode 2 no_events claimed claimed_reachable) as (_ & _ & H & _).
  by apply (H k' r' "w1" (start_row (row "acme" "sub-1" 1)) Hk eq_refl).
Defined.
End Runs.
