(* ===== verification/Statements.v ===== *)
(** * Billing statements

    - [Repo] models the rows, queries and repositories of
      [internal/repository] (models.go, interfaces.go, mock.go) that the
      statement service uses;
    - [Service] models [internal/service/statement_service.go] and
      [statement_export.go]: who may see which statement, and the export;
    - [Handlers] models [internal/handlers/statements.go]: query parameters,
      the CSV form and the answers.

    Object storage, gzip and the text of timestamps in object keys are
    parameters. *)
From Stdlib Require Import ZArith Lia Ascii String.
From stdpp Require Import base gmap strings list.
From S2P Require Import Prelude GoStrings GoTime Timeutil Subscriptions Rsql RequestParams.
#[local] Open Scope string_scope.
#[local] Open Scope Z_scope.

(** ** Rows and repositories *)
Module Repo.
Import Subscriptions.Repository.

Record StatementRow := {
  s_ID : string;
  s_TenantID : string;
  s_SubscriptionID : string;
  s_CustomerID : string;
  PeriodStart : string;
  PeriodEnd : string;
  IssuedAt : string;
  TotalAmount : string;
  s_Currency : string;
  Kind : string;
  s_Status : string;
  s_DeletedAt : option Time;
}.

Record StatementQuery := {
  q_SubscriptionID : string;
  q_Kind : string;
  q_Status : string;
  StartAfter : string;
  EndBefore : string;
  Limit : Z;
  Order : string;
  Filter : option RSQLFilter;
}.

(** What the service asks of the two repositories. *)
Class StatementRepository (S : Type) := {
  FindStatement : S → string → result repo_error StatementRow;
  ListByCustomerID : S → string → StatementQuery → result repo_error (list StatementRow * Z);
}.
Class StatementRepositoryLaws (S : Type) `{StatementRepository S} := {
  list_customer : ∀ s c q rows n, ListByCustomerID s c q = Ok (rows, n) → Forall (λ r, s_CustomerID r = c) rows;
}.
Class SubscriptionReader (B : Type) := {
  FindSubscription : B → string → result repo_error SubscriptionRow;
  ListByTenant : B → string → result repo_error (list SubscriptionRow);
}.
Class SubscriptionReaderLaws (B : Type) `{SubscriptionReader B} := {
  list_tenant : ∀ b t rows, ListByTenant b t = Ok rows → Forall (λ r, TenantID r = t) rows;
}.

(** The repositories in memory: rows by identifier, and the error that every
    listing or finding is set to give. *)
Record MockStatementRepo := { records : gmap string StatementRow; listErr : option string; findErr : option string }.

Definition Mock_FindByID (m : MockStatementRepo) (id : string) : result repo_error StatementRow :=
  match findErr m with
  | Some e => Err (StorageErr e)
  | None => match records m !! id with Some row => Ok row | None => Err ErrNotFound end
  end.

Definition matches (customerID : string) (q : StatementQuery) (r : StatementRow) : bool :=
  bool_decide (s_CustomerID r = customerID)
  && (bool_decide (q_SubscriptionID q = "") || bool_decide (s_SubscriptionID r = q_SubscriptionID q))
  && (bool_decide (q_Kind q = "") || bool_decide (Kind r = q_Kind q))
  && (bool_decide (q_Status q = "") || bool_decide (s_Status r = q_Status q))
  && (bool_decide (StartAfter q = "") || negb (String.ltb (PeriodStart r) (StartAfter q)))
  && (bool_decide (EndBefore q = "") || negb (String.ltb (EndBefore q) (PeriodEnd r))).

Definition Mock_ListByCustomerID `{GoRuntime} (m : MockStatementRepo) (customerID : string) (q : StatementQuery)
    : result repo_error (list StatementRow * Z) :=
  match listErr m with
  | Some e => Err (StorageErr e)
  | None =>
      let out := List.filter (matches customerID q) (map snd (map_range (records m))) in
      let limit := if Limit q <=? 0 then 10 else Limit q in
      Ok (take (Z.to_nat limit) out, Z.of_nat (length out))
  end.

Definition Mock_Create (m : MockStatementRepo) (stmt : StatementRow) : MockStatementRepo :=
  {| records := <[s_ID stmt := stmt]> (records m); listErr := listErr m; findErr := findErr m |}.
Definition Mock_UpdateArchivedData (m : MockStatementRepo) (id : string) (stmt : StatementRow) : MockStatementRepo * option repo_error :=
  match records m !! id with
  | Some _ => ({| records := <[id := stmt]> (records m); listErr := listErr m; findErr := findErr m |}, None)
  | None => (m, Some ErrNotFound)
  end.

#[export] Instance mock_statements `{GoRuntime} : StatementRepository MockStatementRepo :=
  {| FindStatement := Mock_FindByID; ListByCustomerID := Mock_ListByCustomerID |}.

Definition Mock_ListByTenant `{GoRuntime} (m : gmap string SubscriptionRow) (tenantID : string) : result repo_error (list SubscriptionRow) :=
  Ok (List.filter (λ r, bool_decide (TenantID r = tenantID)) (map snd (map_range m))).
Definition Mock_FindSubscription (m : gmap string SubscriptionRow) (id : string) : result repo_error SubscriptionRow :=
  match m !! id with Some row => Ok row | None => Err ErrNotFound end.
#[export] Instance mock_subscriptions `{GoRuntime} : SubscriptionReader (gmap string SubscriptionRow) :=
  {| FindSubscription := Mock_FindSubscription; ListByTenant := Mock_ListByTenant |}.

#[export] Instance mock_subscriptions_laws `{GoRuntime} : SubscriptionReaderLaws (gmap string SubscriptionRow).
Proof.
  split. intros m t rows [= <-]. apply Forall_forall. intros r [_ Hr]%list_elem_of_In%filter_In. by apply bool_decide_eq_true in Hr.
Qed.
#[export] Instance mock_statements_laws `{GoRuntime} : StatementRepositoryLaws MockStatementRepo.
Proof.
  split. intros m c q rows n. cbn. unfold Mock_ListByCustomerID. destruct (listErr m); [done|]. intros [= <- <-]. apply Forall_take, Forall_forall.
  intros r [_ Hr]%list_elem_of_In%filter_In. unfold matches in Hr. rewrite !andb_true_iff, bool_decide_eq_true in Hr. naive_solver.
Qed.
End Repo.

(** ** The service *)
Module Service.
Import Subscriptions.Repository Repo.

Inductive service_error := ErrNotFound | ErrDeleted | ErrForbidden | Failed (what : string).

Record StatementDetail := {
  ID : string;
  SubscriptionID : string;
  Customer : string;
  d_PeriodStart : string;
  d_PeriodEnd : string;
  d_IssuedAt : string;
  d_TotalAmount : string;
  d_Currency : string;
  d_Kind : string;
  d_Status : string;
}.

Definition normalizeRFC3339OrKeep (raw : string) : string :=
  default raw (NormalizeRFC3339StringToUTC ParseRFC3339 FormatRFC3339 raw).

Definition detail_of (row : StatementRow) : StatementDetail :=
  {| ID := s_ID row; SubscriptionID := s_SubscriptionID row; Customer := s_CustomerID row;
     d_PeriodStart := normalizeRFC3339OrKeep (PeriodStart row); d_PeriodEnd := normalizeRFC3339OrKeep (PeriodEnd row);
     d_IssuedAt := normalizeRFC3339OrKeep (IssuedAt row); d_TotalAmount := TotalAmount row; d_Currency := s_Currency row;
     d_Kind := Kind row; d_Status := s_Status row |}.

(** The loop over the roles stops at the first admin. *)
Fixpoint scan_roles (roles : list string) (isMerchant : bool) : bool * bool :=
  match roles with
  | [] => (false, isMerchant)
  | role :: roles =>
      if decide (role = "admin") then (true, isMerchant)
      else scan_roles roles (isMerchant || bool_decide (role = "merchant"))
  end.

Section service.
Context {B S : Type} `{SubscriptionReader B, StatementRepository S}.

Definition GetDetail (subRepo : B) (stmtRepo : S) (callerID : string) (roles : list string) (statementID : string)
    : result service_error StatementDetail :=
  match FindStatement stmtRepo statementID with
  | Err Repository.ErrNotFound => Err ErrNotFound
  | Err (StorageErr e) => Err (Failed e)
  | Ok row =>
      if s_DeletedAt row then Err ErrDeleted
      else
        let '(isAdmin, isMerchant) := scan_roles roles false in
        let isAuthorized :=
          if isAdmin then true
          else if isMerchant then
            match FindSubscription subRepo (s_SubscriptionID row) with
            | Ok sub => bool_decide (TenantID sub = callerID)
            | Err _ => false
            end
          else bool_decide (callerID = s_CustomerID row) in
        if isAuthorized then Ok (detail_of row) else Err ErrForbidden
  end.

Definition ListByCustomer (stmtRepo : S) (callerID : string) (roles : list string) (customerID : string) (q : StatementQuery)
    : result service_error (list StatementDetail * Z) :=
  let '(isAdmin, isMerchant) := scan_roles roles false in
  let isAuthorized := if isAdmin then true else if isMerchant then true else bool_decide (callerID = customerID) in
  if negb isAuthorized then Err ErrForbidden
  else match ListByCustomerID stmtRepo customerID q with
  | Err _ => Err (Failed "list")
  | Ok (rows, count) => Ok (map detail_of rows, count)
  end.

(** *** Export

    [encoding/csv] quotes a field that is not plain; lines end in a newline. *)
Definition special (c : ascii) : bool := bool_decide (c ∈ [","; byte_of 34; byte_of 13; byte_of 10]%char).
Fixpoint any_char (p : ascii → bool) (s : string) : bool :=
  match s with EmptyString => false | String c s => p c || any_char p s end.
Definition fieldNeedsQuotes (f : string) : bool :=
  if decide (f = "") then false
  else if decide (f = "\.") then true
  else any_char special f || existsb (λ sp, String.prefix sp f) space_encodings.
Fixpoint double_quotes (f : string) : string :=
  match f with
  | EmptyString => EmptyString
  | String c f => if decide (c = byte_of 34) then String c (String c (double_quotes f)) else String c (double_quotes f)
  end.
Definition csv_field (f : string) : string :=
  if fieldNeedsQuotes f then String (byte_of 34) (double_quotes f +:+ String (byte_of 34) "") else f.
Definition csv_record (fs : list string) : string := Join (map csv_field fs) "," +:+ String (byte_of 10) "".

Definition export_header : list string :=
  ["id"; "tenant_id"; "subscription_id"; "customer_id"; "period_start"; "period_end"; "issued_at";
   "total_amount"; "currency"; "kind"; "status"].
Definition export_fields (r : StatementRow) : list string :=
  [s_ID r; s_TenantID r; s_SubscriptionID r; s_CustomerID r; PeriodStart r; PeriodEnd r; IssuedAt r;
   TotalAmount r; s_Currency r; Kind r; s_Status r].
Definition buildStatementsCSVGZ (gzip : string → string) (rows : list StatementRow) : string :=
  gzip (foldr (λ fs out, csv_record fs +:+ out) "" (export_header :: map export_fields rows)).

Record ExportResult := { ObjectKey : string; URL : string; ExpiresAt : Time }.

(** Storing an object and signing a URL for it, as the uploader answers. *)
Record uploader := { PutObject : string → string → bool; PresignURL : string → Duration → option (string * Time) }.

Definition is_role (role : string) (roles : list string) : bool := existsb (λ r, bool_decide (r = role)) roles.

(** The rows an export writes: those of the customer that belong to a
    subscription of the tenant. [None] when the customer is not the tenant's. *)
Definition export_rows (subs : list SubscriptionRow) (customerID : string) (rows : list StatementRow) : option (list StatementRow) :=
  if existsb (λ sub, bool_decide (CustomerID sub = customerID)) subs
  then Some (List.filter (λ r, existsb (λ sub, bool_decide (Repository.ID sub = s_SubscriptionID r)) subs) rows) else None.

Definition all_of (limit : Z) : StatementQuery :=
  {| q_SubscriptionID := ""; q_Kind := ""; q_Status := ""; StartAfter := ""; EndBefore := ""; Limit := limit; Order := ""; Filter := None |}.

(** Returns the object that was stored, if any, besides the answer. *)
Definition ExportStatements (gzip : string → string) (stamp : string) (subRepo : B) (stmtRepo : S)
    (callerID : string) (roles : list string) (tenantID customerID : string) (up : uploader)
    : option (string * string) * result service_error ExportResult :=
  let isAdmin := is_role "admin" roles in
  let isMerchant := is_role "merchant" roles in
  if negb isAdmin && negb isMerchant then (None, Err ErrForbidden)
  else if isMerchant && negb (bool_decide (callerID = tenantID)) then (None, Err ErrForbidden)
  else match ListByTenant subRepo tenantID with
  | Err _ => (None, Err (Failed "export: list tenant subscriptions"))
  | Ok subs =>
      if negb (existsb (λ sub, bool_decide (CustomerID sub = customerID)) subs) then (None, Err ErrForbidden)
      else match ListByCustomerID stmtRepo customerID (all_of 1000) with
      | Err _ => (None, Err (Failed "export: list statements"))
      | Ok (rows, _) =>
          let filtered := default [] (export_rows subs customerID rows) in
          let data := buildStatementsCSVGZ gzip filtered in
          let key := "exports/statements/" +:+ tenantID +:+ "/" +:+ customerID +:+ "/" +:+ stamp +:+ ".csv.gz" in
          if negb (PutObject up key data) then (None, Err (Failed "export: upload"))
          else match PresignURL up key (15 * Time.Minute) with
          | None => (Some (key, data), Err (Failed "export: presign"))
          | Some (url, expires) => (Some (key, data), Ok {| ObjectKey := key; URL := url; ExpiresAt := expires |})
          end
      end
  end.

(** *** Who sees what *)
Lemma scan_roles_admin roles m : fst (scan_roles roles m) = is_role "admin" roles.
Proof.
  revert m. induction roles as [|r roles IH]; intros m; [done|]. cbn. destruct (decide (r = "admin")) as [->|Hr]; [done|].
  rewrite IH. by rewrite bool_decide_eq_false_2.
Qed.
Lemma scan_roles_merchant roles m :
  is_role "admin" roles = false → snd (scan_roles roles m) = m || is_role "merchant" roles.
Proof.
  revert m. induction roles as [|r roles IH]; intros m; [intros _; cbn; by rewrite orb_false_r|]. cbn.
  destruct (decide (r = "admin")) as [->|Hr]; [by rewrite bool_decide_eq_true_2|]. rewrite bool_decide_eq_false_2 by done. cbn.
  intros Ha. rewrite IH by done. by rewrite <- orb_assoc.
Qed.

(** Exactly these callers get a statement: an administrator, the merchant
    whose subscription it bills, or a caller without either role who is its
    customer; and only one that exists and is not deleted. *)
Lemma GetDetail_exact b s callerID roles id d :
  GetDetail b s callerID roles id = Ok d ↔
  ∃ row, FindStatement s id = Ok row ∧ s_DeletedAt row = None ∧ d = detail_of row ∧
    (if is_role "admin" roles then True
     else if is_role "merchant" roles
     then ∃ sub, FindSubscription b (s_SubscriptionID row) = Ok sub ∧ TenantID sub = callerID
     else callerID = s_CustomerID row).
Proof.
  unfold GetDetail. destruct (FindStatement s id) as [row|e]; [|split; [by destruct e|by intros (? & ? & _)]].
  trans (s_DeletedAt row = None ∧ d = detail_of row ∧
    (if is_role "admin" roles then True
     else if is_role "merchant" roles
     then ∃ sub, FindSubscription b (s_SubscriptionID row) = Ok sub ∧ TenantID sub = callerID
     else callerID = s_CustomerID row)); [|split; [intros ?; by exists row|by intros (? & [= <-] & ?)]].
  pose proof (scan_roles_admin roles false) as Ha. pose proof (scan_roles_merchant roles false) as Hm.
  destruct (scan_roles roles false) as [a m]. cbn [fst snd orb] in *. subst a.
  destruct (s_DeletedAt row) as [t|]; [split; [done|by intros [? _]]|].
  destruct (is_role "admin" roles); [split; [by intros [= <-]|by intros (_ & -> & _)]|]. rewrite (Hm eq_refl). clear Hm.
  destruct (is_role "merchant" roles).
  - destruct (FindSubscription b _) as [sub|]; [|split; [done|by intros (_ & _ & ? & ? & _)]].
    case_bool_decide; (split; [|intros (_ & -> & ? & [= <-] & ?); congruence]); intros [= <-]. eauto 10.
  - case_bool_decide; (split; [|intros (_ & -> & ?); congruence]); by intros [= <-].
Qed.

(** The comment on [ListByCustomer] restricts merchants to customers of their
    tenant; the code lets every merchant list every customer. *)
Lemma merchant_lists_any_customer s callerID roles customerID q rows n :
  is_role "merchant" roles = true → ListByCustomerID s customerID q = Ok (rows, n) →
  ListByCustomer s callerID roles customerID q = Ok (map detail_of rows, n).
Proof.
  intros Hm Hl. unfold ListByCustomer. pose proof (scan_roles_admin roles false) as Ha. pose proof (scan_roles_merchant roles false) as Hs.
  destruct (scan_roles roles false) as [a m]. cbn [fst snd orb] in *. subst a. rewrite Hl.
  destruct (is_role "admin" roles); [done|]. by rewrite (Hs eq_refl), Hm.
Qed.
End service.

(** An export stores an object only for an administrator or for the
    merchant of that very tenant, only for a customer of the tenant, and
    every statement in it is one of that customer for a subscription of that
    tenant; proved against the contracts of the two repositories. *)
Theorem ExportStatements_scoped {B S} `{SubscriptionReaderLaws B, StatementRepositoryLaws S} gzip stamp (b : B) (s : S)
    callerID roles tenantID customerID up key data r :
  ExportStatements gzip stamp b s callerID roles tenantID customerID up = (Some (key, data), r) →
  (is_role "admin" roles = true ∨ (is_role "merchant" roles = true ∧ callerID = tenantID)) ∧
  ∃ (subs : list SubscriptionRow) (rows : list StatementRow), data = buildStatementsCSVGZ gzip rows ∧
    (∀ sub, sub ∈ subs → TenantID sub = tenantID) ∧
    (∃ sub, sub ∈ subs ∧ CustomerID sub = customerID) ∧
    (∀ row, row ∈ rows → s_CustomerID row = customerID ∧ ∃ sub, sub ∈ subs ∧ Repository.ID sub = s_SubscriptionID row).
Proof.
  unfold ExportStatements. destruct (negb _ && negb _) eqn:Eauth; [done|]. destruct (is_role "merchant" roles && _) eqn:Emer; [done|].
  destruct (ListByTenant b tenantID) as [subs|] eqn:Esubs; [|done]. destruct (negb (existsb _ subs)) eqn:Eown; [done|].
  destruct (ListByCustomerID s customerID _) as [[all n]|] eqn:Eall; [|done].
  apply negb_false_iff in Eown. unfold export_rows. rewrite Eown. cbn [default from_option]. set (rows := List.filter _ all).
  intros Hres. assert (data = buildStatementsCSVGZ gzip rows) as ->.
  { repeat case_match; by simplify_eq. }
  split.
  { apply andb_false_iff in Eauth as [Ha%negb_false_iff|Hm%negb_false_iff]; [by left|].
    rewrite Hm in Emer. apply negb_false_iff, bool_decide_eq_true in Emer. by right. }
  exists subs, rows. split_and!; [done| | |].
  - pose proof (list_tenant _ _ _ Esubs) as Hall. by rewrite Forall_forall in Hall.
  - apply existsb_exists in Eown as (sub & ?%list_elem_of_In & ?%bool_decide_eq_true). eauto.
  - intros row [Hin Hex]%list_elem_of_In%filter_In. apply list_elem_of_In in Hin.
    pose proof (list_customer _ _ _ _ _ Eall) as Hall. rewrite Forall_forall in Hall. split; [by apply Hall|].
    apply existsb_exists in Hex as (sub & ?%list_elem_of_In & ?%bool_decide_eq_true). eauto.
Qed.
End Service.

(** ** Handlers *)
Module Handlers.
Import Subscriptions.Repository Repo Service.

Definition defaultLimit : Z := 20.
Definition maxLimit : Z := 200.
Definition StatementAllowedFields : list string :=
  ["id"; "subscription_id"; "customer"; "period_start"; "period_end"; "issued_at"; "total_amount"; "currency"; "kind"; "status"].

(** A request: query and path parameters, the Accept header, and what the
    middleware stored. [Some None] is a stored value of another type. *)
Record request := {
  Query : string → string;
  Param : string → string;
  Accept : string;
  caller_id : option (option string);
  ctx_roles : option (option (list string));
}.

Definition getAuthContext (c : request) : option (string * list string) :=
  match caller_id c, ctx_roles c with
  | Some (Some caller), Some (Some roles) => if decide (caller = "") then None else Some (caller, roles)
  | _, _ => None
  end.

Definition wantsCSV (c : request) : bool := Contains (ToLower (Accept c)) "text/csv".

Definition or_default (v d : string) : string := if decide (v = "") then d else v.

(** Each optional parameter is checked in turn; the first failure is the answer. *)
Definition buildStatementQuery (c : request) : result string StatementQuery :=
  let filter := Query c "filter" in
  match (if decide (filter = "") then Ok None
         else match ParseRSQL filter with
              | Some (Ok f) => Ok (Some f)
              | _ => Err "filter"
              end) with
  | Err e => Err e
  | Ok f =>
      let start := Query c "start_after" in
      let finish := Query c "end_before" in
      let limit := Query c "limit" in
      let order := Query c "order" in
      if bool_decide (start ≠ "") && bool_decide (ParseRFC3339 start = None) then Err "start_after must be a valid RFC3339 timestamp"
      else if bool_decide (finish ≠ "") && bool_decide (ParseRFC3339 finish = None) then Err "end_before must be a valid RFC3339 timestamp"
      else match (if decide (limit = "") then Some defaultLimit
                  else match ParseInt limit with
                       | Some n => if n <? 1 then None else Some (Z.min n maxLimit)
                       | None => None
                       end) with
      | None => Err "limit must be a positive integer"
      | Some n =>
          if bool_decide (order ≠ "") && negb (bool_decide (order = "asc")) && negb (bool_decide (order = "desc"))
          then Err "order must be 'asc' or 'desc'"
          else Ok {| q_SubscriptionID := Query c "subscription_id"; q_Kind := Query c "kind"; q_Status := Query c "status";
                     StartAfter := start; EndBefore := finish; Limit := n; Order := or_default order "desc"; Filter := f |}
      end
  end.

(** *** CSV *)
Definition sanitizeCSVValue (value : string) : string :=
  if existsb (λ p, HasPrefix value p) ["="; "+"; "-"; "@"] then "'" +:+ value else value.

Definition csvCellValue (stmt : StatementDetail) (field : string) : string :=
  if decide (field = "id") then sanitizeCSVValue (ID stmt)
  else if decide (field = "subscription_id") then sanitizeCSVValue (SubscriptionID stmt)
  else if decide (field = "customer") then sanitizeCSVValue (Customer stmt)
  else if decide (field = "period_start") then sanitizeCSVValue (d_PeriodStart stmt)
  else if decide (field = "period_end") then sanitizeCSVValue (d_PeriodEnd stmt)
  else if decide (field = "issued_at") then sanitizeCSVValue (d_IssuedAt stmt)
  else if decide (field = "total_amount") then sanitizeCSVValue (d_TotalAmount stmt)
  else if decide (field = "currency") then sanitizeCSVValue (d_Currency stmt)
  else if decide (field = "kind") then sanitizeCSVValue (d_Kind stmt)
  else if decide (field = "status") then sanitizeCSVValue (d_Status stmt)
  else "".
Definition statementCSVRow (stmt : StatementDetail) (fields : list string) : list string := map (csvCellValue stmt) fields.

Definition plain_rune (r : Z) : bool := ((97 <=? r) && (r <=? 122)) || ((48 <=? r) && (r <=? 57)).
(** [strings.Map] of the replacement of every other rune by a hyphen. *)
Definition hyphenate (s : string) : string :=
  string_of_list_ascii (map (λ r, if plain_rune r then byte_of (Z.to_nat r) else "-"%char) (runes s)).
Fixpoint trim_left_hyphens (s : string) : string :=
  match s with
  | String c s' => if decide (c = "-"%char) then trim_left_hyphens s' else s
  | EmptyString => EmptyString
  end.
Fixpoint trim_right_hyphens (s : string) : string :=
  match s with
  | EmptyString => EmptyString
  | String c s => let t := trim_right_hyphens s in if decide (c = "-"%char ∧ t = EmptyString) then EmptyString else String c t
  end.
Definition csvFilename (customerID : string) : string :=
  let base := or_default (TrimSpace customerID) "statements" in
  let base := trim_right_hyphens (trim_left_hyphens (ToLower (hyphenate base))) in
  or_default base "statements" +:+ "-statements.csv".

(** *** Answers *)
Inductive response :=
  | Problem (status : Z) (message : string)
  | CSV (filename : string) (records : list (list string))
  | OK_list (fields : option (list string)) (statements : list StatementDetail) (total : Z)
  | OK_one (fields : option (list string)) (statement : StatementDetail).

Definition writeStatementsCSV (customerID : string) (fields : option (list string)) (statements : list StatementDetail) : response :=
  let columns := match fields with Some (f :: fs) => f :: fs | _ => StatementAllowedFields end in
  CSV (csvFilename customerID) (columns :: map (λ s, statementCSVRow s columns) statements).

Section handlers.
Context {B S : Type} `{SubscriptionReader B, StatementRepository S}.

Definition NewListStatementsHandler (s : S) (c : request) : response :=
  match getAuthContext c with
  | None => Problem 401 "unauthorized"
  | Some (callerID, roles) =>
      let customerID := Query c "customer_id" in
      if decide (customerID = "") then Problem 400 "customer_id is required"
      else match ParseFields (Query c "fields") StatementAllowedFields with
      | Err _ => Problem 400 "fields"
      | Ok fields =>
          match buildStatementQuery c with
          | Err e => Problem 400 e
          | Ok q =>
              match ListByCustomer s callerID roles customerID q with
              | Err ErrForbidden => Problem 403 "forbidden"
              | Err _ => Problem 500 "failed to list statements"
              | Ok (statements, total) =>
                  if wantsCSV c then writeStatementsCSV customerID fields statements else OK_list fields statements total
              end
          end
      end
  end.

Definition NewGetStatementHandler (b : B) (s : S) (c : request) : response :=
  match getAuthContext c with
  | None => Problem 401 "unauthorized"
  | Some (callerID, roles) =>
      if decide (Param c "id" = "") then Problem 400 "id is required"
      else match ParseFields (Query c "fields") StatementAllowedFields with
      | Err _ => Problem 400 "fields"
      | Ok fields =>
          match GetDetail b s callerID roles (Param c "id") with
          | Err (ErrNotFound | ErrDeleted) => Problem 404 "statement not found"
          | Err ErrForbidden => Problem 403 "forbidden"
          | Err _ => Problem 500 "failed to fetch statement"
          | Ok stmt => OK_one fields stmt
          end
      end
  end.
End handlers.

(** A query that is built has a page size between 1 and 200, a known order
    and timestamps that parse. *)
Lemma buildStatementQuery_ok c q :
  buildStatementQuery c = Ok q →
  1 ≤ Limit q ≤ maxLimit ∧ (Order q = "asc" ∨ Order q = "desc") ∧
  (StartAfter q ≠ "" → is_Some (ParseRFC3339 (StartAfter q))) ∧ (EndBefore q ≠ "" → is_Some (ParseRFC3339 (EndBefore q))).
Proof.
  unfold buildStatementQuery. set (f := if decide (Query c "filter" = "") then _ else _). destruct f as [f'|]; [|done].
  destruct (bool_decide (Query c "start_after" ≠ "") && _) eqn:Es; [done|].
  destruct (bool_decide (Query c "end_before" ≠ "") && _) eqn:Ee; [done|].
  set (n := if decide (Query c "limit" = "") then _ else _). assert (∀ m, n = Some m → 1 ≤ m ≤ maxLimit) as Hn.
  { intros m. unfold n, defaultLimit, maxLimit. repeat case_match; intros [= <-]; lia. }
  clearbody n. destruct n as [m|]; [|done]. specialize (Hn m eq_refl).
  destruct (bool_decide (Query c "order" ≠ "") && _ && _) eqn:Eo; [done|]. intros [= <-]. cbn [Limit Order StartAfter EndBefore].
  split_and!; [lia|lia| | |].
  - unfold or_default. case_decide as Ho; [by right|]. rewrite bool_decide_eq_true_2 in Eo by done. cbn in Eo.
    apply andb_false_iff in Eo as [Eo|Eo]; apply negb_false_iff, bool_decide_eq_true in Eo; auto.
  - intros Hs. rewrite bool_decide_eq_true_2 in Es by done. cbn in Es. apply bool_decide_eq_false in Es. by apply not_eq_None_Some.
  - intros Hs. rewrite bool_decide_eq_true_2 in Ee by done. cbn in Ee. apply bool_decide_eq_false in Ee. by apply not_eq_None_Some.
Qed.

Definition formula_start (c : ascii) : bool := bool_decide (c ∈ ["="; "+"; "-"; "@"]%char).
Definition starts_formula (s : string) : bool := match s with String c _ => formula_start c | EmptyString => false end.

Lemma sanitizeCSVValue_safe v : starts_formula (sanitizeCSVValue v) = false.
Proof.
  unfold sanitizeCSVValue. destruct v as [|c v]; [done|]. destruct (existsb _ _) eqn:E; [done|].
  unfold starts_formula, formula_start. apply bool_decide_eq_false. intros Hc.
  assert (existsb (λ p, HasPrefix (String c v) p) ["="; "+"; "-"; "@"] = true) as Ht; [|congruence].
  apply existsb_exists. exists (String c ""). split; [|unfold HasPrefix; cbn; destruct (ascii_dec c c) as [_|n]; [by destruct v|by destruct n]].
  rewrite !elem_of_cons, elem_of_nil in Hc. destruct Hc as [->|[->|[->|[->|[]]]]]; cbn; auto.
Qed.
Lemma csvCellValue_safe stmt field : starts_formula (csvCellValue stmt field) = false.
Proof. unfold csvCellValue. repeat case_decide; try apply sanitizeCSVValue_safe. done. Qed.

Definition name_char (c : ascii) : bool := plain_rune (code c) || bool_decide (c = "-"%char).
Fixpoint all_chars (p : ascii → bool) (s : string) : bool :=
  match s with EmptyString => true | String c s => p c && all_chars p s end.

Lemma all_chars_of_list p l : all_chars p (string_of_list_ascii l) = forallb p l.
Proof. induction l as [|c l IH]; [done|]. cbn. by rewrite IH. Qed.
Lemma name_char_lower c : name_char c = true → lower_char c = c.
Proof.
  unfold name_char, plain_rune, lower_char. intros Hc. rewrite bool_decide_eq_false_2; [done|].
  apply orb_true_iff in Hc as [Hc|Hc%bool_decide_eq_true]; [lia|subst; change (code "-"%char) with 45; lia].
Qed.
Lemma ToLower_name s : all_chars name_char s = true → ToLower s = s.
Proof.
  induction s as [|c s IH]; [done|]. cbn [all_chars]. intros [Hc Hs]%andb_prop. unfold ToLower. cbn [map_string].
  rewrite (name_char_lower c Hc). f_equal. by apply IH.
Qed.
Lemma hyphenate_name s : all_chars name_char (hyphenate s) = true.
Proof.
  unfold hyphenate. rewrite all_chars_of_list. induction (runes s) as [|r rs IH]; [done|]. cbn [map forallb]. rewrite IH, andb_true_r.
  unfold name_char. destruct (plain_rune r) eqn:E; [|done]. apply orb_true_iff. left. unfold plain_rune in *.
  replace (code (byte_of (Z.to_nat r))) with r; [done|]. unfold code, byte_of. rewrite nat_ascii_embedding; lia.
Qed.
Lemma trim_left_name s : all_chars name_char s = true →
  all_chars name_char (trim_left_hyphens s) = true ∧ ∀ t, trim_left_hyphens s ≠ String "-" t.
Proof.
  induction s as [|c s IH]; [done|]. cbn [all_chars]. intros [Hc Hs]%andb_prop. cbn [trim_left_hyphens].
  case_decide as Hd; [by apply IH|]. split; [cbn; by rewrite Hc|]. by intros t [= ->].
Qed.
Lemma trim_right_name s : all_chars name_char s = true → all_chars name_char (trim_right_hyphens s) = true.
Proof.
  induction s as [|c s IH]; [done|]. cbn [all_chars]. intros [Hc Hs]%andb_prop. cbn [trim_right_hyphens].
  case_decide; [done|]. cbn. by rewrite Hc, IH.
Qed.
Lemma trim_right_head s c t : trim_right_hyphens s = String c t → ∃ s', s = String c s'.
Proof. destruct s as [|c' s]; [done|]. cbn. case_decide; [done|]. intros [= -> _]. eauto. Qed.

(** The file name of a download is made of lower-case letters, digits and
    hyphens, does not begin with a hyphen, and ends in [-statements.csv]:
    no customer identifier gets anything into the header. *)
Lemma csvFilename_safe customerID :
  ∃ base, csvFilename customerID = base +:+ "-statements.csv" ∧ base ≠ "" ∧
    all_chars name_char base = true ∧ ∀ t, base ≠ String "-" t.
Proof.
  unfold csvFilename. eexists. split; [reflexivity|]. set (s := hyphenate _).
  assert (all_chars name_char s = true) as Hs by apply hyphenate_name. rewrite (ToLower_name s Hs).
  destruct (trim_left_name s Hs) as [Hl Hh]. unfold or_default. case_decide as Hd; [done|]. split_and!; [done| |].
  - by apply trim_right_name.
  - intros t Ht. apply trim_right_head in Ht as [s' Hs']. by apply Hh in Hs'.
Qed.
End Handlers.

(** ** Concrete runs *)
Module Runs.
Import Subscriptions.Repository Repo Service Handlers.

Definition sub (id tenant customer : string) : SubscriptionRow :=
  {| Repository.ID := id; PlanID := "p"; TenantID := tenant; CustomerID := customer; Status := "active"; Amount := "100";
     Currency := "USD"; Interval := "month"; NextBilling := ""; UpdatedAt := 0; Version := 1; DeletedAt := None |}.
Definition stmt (id tenant subscription customer : string) : StatementRow :=
  {| s_ID := id; s_TenantID := tenant; s_SubscriptionID := subscription; s_CustomerID := customer; PeriodStart := "";
     PeriodEnd := ""; IssuedAt := "2024-05-01T02:00:00+02:00"; TotalAmount := "100"; s_Currency := "USD"; Kind := "invoice"; s_Status := "open";
     s_DeletedAt := None |}.
Definition subs : gmap string SubscriptionRow := {["s1" := sub "s1" "acme" "bob"; "s2" := sub "s2" "zeta" "bob"]}.
Definition stmts : MockStatementRepo :=
  {| records := {["i1" := stmt "i1" "acme" "s1" "bob"; "i2" := stmt "i2" "zeta" "s2" "bob"]}; listErr := None; findErr := None |}.
Definition up : uploader := {| PutObject := λ _ _, true; PresignURL := λ k _, Some ("https://" +:+ k, 7) |}.
Definition exported := ExportStatements id "20240501" subs stmts "acme" ["merchant"] "acme" "bob" up.

(** Bob is a customer of two tenants; the export of one has its statement only. *)
Lemma ExportStatements_scoped_witness :
  ∃ key data r, exported = (Some (key, data), r) ∧
    data = buildStatementsCSVGZ id [stmt "i1" "acme" "s1" "bob"] ∧
    (is_role "admin" ["merchant"] = true ∨ (is_role "merchant" ["merchant"] = true ∧ "acme" = "acme")).
Proof.
  destruct exported as [[[key data]|] r] eqn:E; [|vm_compute in E; congruence].
  exists key, data, r. split; [done|]. split; [vm_compute in E; injection E as <- <- <-; vm_compute; reflexivity|].
  exact (proj1 (ExportStatements_scoped id "20240501" subs stmts "acme" ["merchant"] "acme" "bob" up key data r E)).
Defined.

Example shown : match GetDetail subs stmts "bob" [] "i1" with Ok d => Some (ID d, d_IssuedAt d) | Err _ => None end
  = Some ("i1", "2024-05-01T00:00:00Z").
Proof. vm_compute. reflexivity. Qed.

(** A customer asking for the statement of another gets 403, not 404. *)
Example other_customer_sees_403 :
  NewGetStatementHandler subs stmts
    {| Query := λ _, ""; Param := λ _, "i1"; Accept := ""; caller_id := Some (Some "eve"); ctx_roles := Some (Some []) |}
  = Problem 403 "forbidden".
Proof. vm_compute. reflexivity. Qed.

(** Capitals are replaced by hyphens before the name is put in lower case. *)
Example capitals_lost : (csvFilename "Acme Ltd", csvFilename "ACME") = ("cme--td-statements.csv", "statements-statements.csv").
Proof. vm_compute. reflexivity. Qed.

Example quoted : csv_record ["a,b"; "x"; " y"] = String (byte_of 34) ("a,b" +:+ String (byte_of 34) (",x," +:+ String (byte_of 34) (" y" +:+ String (byte_of 34) (String (byte_of 10) "")))).
Proof. vm_compute. reflexivity. Qed.
End Runs.
