(* ===== verification/TenantExport.v ===== *)
(** * Tenant exports

    [internal/service/tenant_export.go] and [internal/handlers/tenant_export.go]:
    - [Archive] collects the data of a tenant and stores it as an archive;
    - [Operations] are the two stores of long-running operations;
    - [Manager] queues and runs export jobs, one after the other;
    - [Handlers] are the three endpoints.

    The manager's map of jobs has no lock: calls are modelled both as single
    steps and split into the look-up and the insertion they consist of. JSON,
    the archive format, the hash and object storage are parameters. *)
From Stdlib Require Import ZArith Lia Ascii String.
From stdpp Require Import base gmap strings list.
From S2P Require Import Prelude GoStrings Subscriptions Statements.
#[local] Open Scope string_scope.
#[local] Open Scope Z_scope.

(** ** The export *)
Module Archive.
Import Subscriptions.Repository Statements.Repo Statements.Service.

Record TenantExportResult := { ObjectKey : string; URL : string; ExpiresAt : Time; SHA256Hash : string }.

Inductive export_error := Forbidden | Cancelled (at_ : string) | ExportFailed (what : string).

(** Where [ctx.Err()] is asked; [ctx p] says that the context is done there. *)
Inductive checkpoint := BeforeFetch | AfterPlans | Fetching (customer : string) | BeforeZip | InZip (n : nat) | BeforeUpload | AfterUpload.

Section export.
Context `{GoRuntime} {B S : Type} `{SubscriptionReader B, StatementRepository S}.
Context (json_plans : list PlanRow → option string) (json_subs : list SubscriptionRow → option string)
        (json_stmts : list StatementRow → option string).
Context (zip : list (string * string) → option string) (sha256_hex : string → string).
Context (ctx : checkpoint → bool).

(** The keys of the map of customers, in the order of its iteration. *)
Definition customers_of (subs : list SubscriptionRow) : list string :=
  map fst (map_range (foldl (λ m sub, if decide (CustomerID sub = "") then m else <[CustomerID sub := tt]> m) (∅ : gmap string unit) subs)).

Fixpoint fetch_statements (s : S) (customers : list string) : result export_error (list StatementRow) :=
  match customers with
  | [] => Ok []
  | c :: cs =>
      if ctx (Fetching c) then Err (Cancelled "export cancelled during statement fetch")
      else match ListByCustomerID s c (all_of 1000) with
      | Err _ => Err (ExportFailed "list statements for customer")
      | Ok (rows, _) =>
          match fetch_statements s cs with
          | Ok rest => Ok (rows ++ rest)%list
          | Err e => Err e
          end
      end
  end.

Definition buildExportZIP (plans : list PlanRow) (subs : list SubscriptionRow) (stmts : list StatementRow) : result export_error string :=
  if ctx (InZip 0) then Err (Cancelled "zip")
  else match json_plans plans with
  | None => Err (ExportFailed "marshal plans.json")
  | Some p =>
      if ctx (InZip 1) then Err (Cancelled "zip")
      else match json_subs subs with
      | None => Err (ExportFailed "marshal subscriptions.json")
      | Some b =>
          if ctx (InZip 2) then Err (Cancelled "zip")
          else match json_stmts stmts with
          | None => Err (ExportFailed "marshal statements.json")
          | Some t =>
              match zip [("plans.json", p); ("subscriptions.json", b); ("statements.json", t)] with
              | Some data => Ok data
              | None => Err (ExportFailed "close zip")
              end
          end
      end
  end.

(** What an authorised export gathers. *)
Definition gather (plans : result repo_error (list PlanRow)) (b : B) (s : S) (tenantID : string)
    : result export_error (list PlanRow * list SubscriptionRow * list StatementRow) :=
  if ctx BeforeFetch then Err (Cancelled "export cancelled before data fetch")
  else match plans with
  | Err _ => Err (ExportFailed "list plans")
  | Ok plans =>
      if ctx AfterPlans then Err (Cancelled "export cancelled after plans")
      else match ListByTenant b tenantID with
      | Err _ => Err (ExportFailed "list subscriptions")
      | Ok subs =>
          match fetch_statements s (customers_of subs) with
          | Err e => Err e
          | Ok stmts => if ctx BeforeZip then Err (Cancelled "export cancelled before zip build") else Ok (plans, subs, stmts)
          end
      end
  end.

Definition may_export (callerID : string) (roles : list string) (tenantID : string) : bool :=
  (is_role "admin" roles || is_role "merchant" roles)
  && negb (is_role "merchant" roles && negb (bool_decide (callerID = tenantID))).

Definition ExportTenantData (stamp : string) (plans : result repo_error (list PlanRow)) (b : B) (s : S)
    (callerID : string) (roles : list string) (tenantID : string) (up : uploader)
    : option (string * string) * result export_error TenantExportResult :=
  if negb (may_export callerID roles tenantID) then (None, Err Forbidden)
  else match gather plans b s tenantID with
  | Err e => (None, Err e)
  | Ok (plans, subs, stmts) =>
      match buildExportZIP plans subs stmts with
      | Err e => (None, Err e)
      | Ok data =>
          let key := "exports/tenants/" +:+ tenantID +:+ "/" +:+ stamp +:+ ".zip" in
          if ctx BeforeUpload then (None, Err (Cancelled "export cancelled before upload"))
          else if negb (PutObject up key data) then (None, Err (ExportFailed "upload export"))
          else if ctx AfterUpload then (Some (key, data), Err (Cancelled "export cancelled after upload"))
          else match PresignURL up key (24 * Time.Hour) with
          | None => (Some (key, data), Err (ExportFailed "presign url"))
          | Some (url, expires) =>
              (Some (key, data), Ok {| ObjectKey := key; URL := url; ExpiresAt := expires; SHA256Hash := sha256_hex data |})
          end
      end
  end.

(** Only administrators and the merchant of the tenant get an archive
    stored; a merchant who is also an administrator counts as a merchant. *)
Lemma ExportTenantData_authorized stamp plans b s callerID roles tenantID up o r :
  ExportTenantData stamp plans b s callerID roles tenantID up = (Some o, r) →
  if is_role "merchant" roles then callerID = tenantID else is_role "admin" roles = true.
Proof.
  unfold ExportTenantData, may_export. destruct (is_role "merchant" roles), (is_role "admin" roles); cbn; try done;
    case_bool_decide; cbn; (done || by intros).
Qed.
(** The hash reported is the hash of the object stored. *)
Lemma ExportTenantData_hash stamp plans b s callerID roles tenantID up key data res :
  ExportTenantData stamp plans b s callerID roles tenantID up = (Some (key, data), Ok res) →
  ObjectKey res = key ∧ SHA256Hash res = sha256_hex data.
Proof. unfold ExportTenantData. repeat case_match; intros; by simplify_eq. Qed.
End export.
End Archive.

(** ** Operations *)
Module Operations.
Import Archive.

Inductive ExportOperationStatus := OperationPending | OperationRunning | OperationSucceeded | OperationFailed.

Record ExportOperation := {
  op_ID : string;
  op_TenantID : string;
  op_CallerID : string;
  op_CallerRoles : list string;
  op_Status : ExportOperationStatus;
  op_Result : option TenantExportResult;
  op_Error : string;
  op_CreatedAt : Time;
  op_UpdatedAt : Time;
}.

(** *** In memory *)
Notation ops := (gmap string ExportOperation).
Definition Memory_Create (op : ExportOperation) (s : ops) : ops := <[op_ID op := op]> s.
Definition Memory_Get (id : string) (s : ops) : option ExportOperation := s !! id.
Definition Memory_Update (op : ExportOperation) (s : ops) : ops := <[op_ID op := op]> s.
Definition expired (before : Time) (op : ExportOperation) : bool :=
  Time.Before (op_UpdatedAt op) before || Time.Before (op_CreatedAt op) before.
Definition Memory_DeleteExpired (before : Time) (s : ops) : ops := filter (λ kv, expired before kv.2 = false) s.

Lemma Memory_DeleteExpired_exact before s id op :
  Memory_DeleteExpired before s !! id = Some op ↔ s !! id = Some op ∧ before ≤ op_UpdatedAt op ∧ before ≤ op_CreatedAt op.
Proof.
  unfold Memory_DeleteExpired. rewrite map_lookup_filter_Some. cbn. unfold expired. rewrite orb_false_iff, !Before_false. done.
Qed.

(** *** In PostgreSQL

    [caller_roles] and [result] are columns of type JSONB: a text that is not
    JSON is refused. [result] is the text of the encoded result, and the
    empty text when there is none. *)
Record op_row := {
  row_tenant : string; row_caller : string; row_roles : string; row_status : ExportOperationStatus;
  row_result : string; row_error : string; row_created : Time; row_updated : Time;
}.
Section postgres.
Context (is_json : string → bool) (json_roles : list string → string) (json_result : TenantExportResult → string).
Context (parse_roles : string → option (list string)) (parse_result : string → option TenantExportResult).

Definition to_row (op : ExportOperation) : op_row :=
  {| row_tenant := op_TenantID op; row_caller := op_CallerID op; row_roles := json_roles (op_CallerRoles op);
     row_status := op_Status op; row_result := match op_Result op with Some r => json_result r | None => "" end;
     row_error := op_Error op; row_created := op_CreatedAt op; row_updated := op_UpdatedAt op |}.
Definition accepted (r : op_row) : bool := is_json (row_roles r) && is_json (row_result r).

Definition Postgres_Create (op : ExportOperation) (t : gmap string op_row) : option (gmap string op_row) :=
  if accepted (to_row op) && bool_decide (t !! op_ID op = None) then Some (<[op_ID op := to_row op]> t) else None.
Definition Postgres_Update (op : ExportOperation) (t : gmap string op_row) : option (gmap string op_row) :=
  if accepted (to_row op)
  then Some (alter (λ r, {| row_tenant := op_TenantID op; row_caller := op_CallerID op; row_roles := row_roles (to_row op);
                            row_status := op_Status op; row_result := row_result (to_row op); row_error := op_Error op;
                            row_created := row_created r; row_updated := op_UpdatedAt op |}) (op_ID op) t)
  else None.
Definition Postgres_Get (id : string) (t : gmap string op_row) : option ExportOperation :=
  match t !! id with
  | None => None
  | Some r =>
      match (if decide (row_roles r = "") then Some [] else parse_roles (row_roles r)) with
      | None => None
      | Some roles =>
          match (if decide (row_result r = "") then Some None
                 else match parse_result (row_result r) with Some x => Some (Some x) | None => None end) with
          | None => None
          | Some res =>
              Some {| op_ID := id; op_TenantID := row_tenant r; op_CallerID := row_caller r; op_CallerRoles := roles;
                      op_Status := row_status r; op_Result := res; op_Error := row_error r;
                      op_CreatedAt := row_created r; op_UpdatedAt := row_updated r |}
          end
      end
  end.
Definition Postgres_DeleteExpired (before : Time) (t : gmap string op_row) : gmap string op_row :=
  filter (λ kv, negb ((row_created kv.2 <? before) || (row_updated kv.2 <? before)) = true) t.

(** The empty text is not JSON: an operation without a result, which every
    new one is, cannot be stored, nor updated. *)
Lemma pending_operation_refused op t :
  is_json "" = false → op_Result op = None → Postgres_Create op t = None ∧ Postgres_Update op t = None.
Proof.
  intros Hj Hn. unfold Postgres_Create, Postgres_Update, accepted, to_row. cbn. rewrite Hn, Hj, andb_false_r. done.
Qed.
End postgres.
End Operations.

(** ** The job manager *)
Module Manager.
Import Archive Operations.

Inductive ExportJobStatus := ExportJobPending | ExportJobRunning | ExportJobCompleted | ExportJobFailed.

Record ExportJob := {
  ID : string;
  OperationID : string;
  TenantID : string;
  CallerID : string;
  CallerRoles : list string;
  Status : ExportJobStatus;
  Result : option TenantExportResult;
  Error : string;
  CreatedAt : Time;
  UpdatedAt : Time;
}.
Inductive manager_error := ErrExportInProgress | StoreFailed | ContextDone | ErrNotFound.

(** [pending] is the channel of capacity 100; [log] are the audit outcomes. *)
Record ExportJobManager := {
  jobs : gmap string ExportJob;
  pending : list string;
  operations : gmap string ExportOperation;
  log : list (string * bool);
}.
Definition NewExportJobManager : ExportJobManager := {| jobs := ∅; pending := []; operations := ∅; log := [] |}.

Definition active (j : ExportJob) : bool := match Status j with ExportJobPending | ExportJobRunning => true | _ => false end.
Definition in_progress (tenantID : string) (m : ExportJobManager) : bool :=
  any (λ '(_, j), bool_decide (TenantID j = tenantID) && active j) (map_to_list (jobs m)).

Definition new_job (jobID opID tenantID callerID : string) (roles : list string) (now : Time) : ExportJob :=
  {| ID := jobID; OperationID := opID; TenantID := tenantID; CallerID := callerID; CallerRoles := roles;
     Status := ExportJobPending; Result := None; Error := ""; CreatedAt := now; UpdatedAt := now |}.
Definition new_operation (opID tenantID callerID : string) (roles : list string) (now : Time) : ExportOperation :=
  {| op_ID := opID; op_TenantID := tenantID; op_CallerID := callerID; op_CallerRoles := roles;
     op_Status := OperationPending; op_Result := None; op_Error := ""; op_CreatedAt := now; op_UpdatedAt := now |}.

(** The rest of [CreateJob] after the look-up. [cancelled]: a context ends
    before the job is sent; otherwise the send waits for room. *)
Definition insert_job (jobID opID : string) (now : Time) (tenantID callerID : string) (roles : list string)
    (stored cancelled : bool) (m : ExportJobManager) : ExportJobManager * result manager_error ExportJob :=
  if negb stored then (m, Err StoreFailed)
  else
    let job := new_job jobID opID tenantID callerID roles now in
    let ops := Memory_Create (new_operation opID tenantID callerID roles now) (operations m) in
    if cancelled then
      ({| jobs := delete jobID (jobs m); pending := pending m; operations := ops; log := log m |}, Err ContextDone)
    else
      ({| jobs := <[jobID := job]> (jobs m); pending := (pending m ++ [jobID])%list; operations := ops; log := log m |}, Ok job).

Definition CreateJob (jobID opID : string) (now : Time) (tenantID callerID : string) (roles : list string)
    (stored cancelled : bool) (m : ExportJobManager) : ExportJobManager * result manager_error ExportJob :=
  if in_progress tenantID m then (m, Err ErrExportInProgress)
  else insert_job jobID opID now tenantID callerID roles stored cancelled m.

Definition GetJob (id : string) (m : ExportJobManager) : result manager_error ExportJob :=
  match jobs m !! id with Some j => Ok j | None => Err ErrNotFound end.

Definition CreateOperation (opID : string) (now : Time) (tenantID callerID : string) (roles : list string) (m : ExportJobManager)
    : ExportJobManager * ExportOperation :=
  let op := new_operation opID tenantID callerID roles now in
  ({| jobs := jobs m; pending := pending m;
      operations := Memory_Create op (Memory_DeleteExpired (now - 24 * Time.Hour) (operations m)); log := log m |}, op).
Definition GetOperation (now : Time) (id : string) (m : ExportJobManager) : ExportJobManager * result manager_error ExportOperation :=
  let ops := Memory_DeleteExpired (now - 24 * Time.Hour) (operations m) in
  ({| jobs := jobs m; pending := pending m; operations := ops; log := log m |},
   match ops !! id with Some op => Ok op | None => Err ErrNotFound end).

(** *** [processJob] *)
Definition set_op (st : ExportOperationStatus) (r : option TenantExportResult) (e : string) (now : Time) (op : ExportOperation) : ExportOperation :=
  {| op_ID := op_ID op; op_TenantID := op_TenantID op; op_CallerID := op_CallerID op; op_CallerRoles := op_CallerRoles op;
     op_Status := st; op_Result := match r with Some r => Some r | None => op_Result op end;
     op_Error := if decide (e = "") then op_Error op else e; op_CreatedAt := op_CreatedAt op; op_UpdatedAt := now |}.
Definition set_job (st : ExportJobStatus) (r : option TenantExportResult) (e : string) (now : Time) (j : ExportJob) : ExportJob :=
  {| ID := ID j; OperationID := OperationID j; TenantID := TenantID j; CallerID := CallerID j; CallerRoles := CallerRoles j;
     Status := st; Result := match r with Some r => Some r | None => Result j end;
     Error := if decide (e = "") then Error j else e; CreatedAt := CreatedAt j; UpdatedAt := now |}.

(** The operation of a job follows it, when it is still there. *)
Definition mark (j : ExportJob) (st : ExportJobStatus) (ost : ExportOperationStatus) (r : option TenantExportResult) (e : string)
    (now : Time) (entry : list (string * bool)) (m : ExportJobManager) : ExportJobManager :=
  {| jobs := <[ID j := set_job st r e now j]> (jobs m); pending := pending m;
     operations := if decide (OperationID j = "") then operations m
                   else alter (set_op ost r e now) (OperationID j) (operations m);
     log := (log m ++ entry)%list |}.

Definition begin_job (now : Time) (m : ExportJobManager) : option (ExportJob * ExportJobManager) :=
  match pending m with
  | [] => None
  | k :: ks =>
      match jobs m !! k with
      | None => None
      | Some j => Some (j, mark j ExportJobRunning OperationRunning None "" now []
                             {| jobs := jobs m; pending := ks; operations := operations m; log := log m |})
      end
  end.

Definition effective_roles (roles : list string) : list string := match roles with [] => ["admin"] | _ => roles end.

Definition error_text (e : export_error) : string :=
  match e with Forbidden => "forbidden" | Cancelled w => "export cancelled: " +:+ w | ExportFailed w => w end.

Definition end_job (now : Time) (j : ExportJob) (answer : result export_error TenantExportResult) (m : ExportJobManager) : ExportJobManager :=
  match answer with
  | Ok r => mark j ExportJobCompleted OperationSucceeded (Some r) "" now [(ID j, true)] m
  | Err (Cancelled w) => mark j ExportJobFailed OperationFailed None (error_text (Cancelled w)) now [] m
  | Err e => mark j ExportJobFailed OperationFailed None (error_text e) now [(ID j, false)] m
  end.

(** The export service as the manager calls it. *)
Definition processJob (export : string → list string → string → result export_error TenantExportResult)
    (now now' : Time) (m : ExportJobManager) : ExportJobManager :=
  match begin_job now m with
  | None => m
  | Some (j, m) => end_job now' j (export (CallerID j) (effective_roles (CallerRoles j)) (TenantID j)) m
  end.

(** *** Jobs as steps *)
Record system := { mgr : ExportJobManager; running : option ExportJob }.

Inductive step : system → system → Prop :=
  | step_create s jobID opID now tenantID callerID roles stored cancelled m' r :
      jobs (mgr s) !! jobID = None →
      CreateJob jobID opID now tenantID callerID roles stored cancelled (mgr s) = (m', r) →
      step s {| mgr := m'; running := running s |}
  | step_operation s opID now tenantID callerID roles :
      step s {| mgr := (CreateOperation opID now tenantID callerID roles (mgr s)).1; running := running s |}
  | step_query s now id : step s {| mgr := (GetOperation now id (mgr s)).1; running := running s |}
  | step_begin s now j m' : running s = None → begin_job now (mgr s) = Some (j, m') →
      step s {| mgr := m'; running := Some j |}
  | step_end s now j answer : running s = Some j →
      step s {| mgr := end_job now j answer (mgr s); running := None |}.

Record inv (s : system) : Prop := {
  inv_id : ∀ k j, jobs (mgr s) !! k = Some j → ID j = k;
  inv_queue : NoDup (pending (mgr s)) ∧
    ∀ k, k ∈ pending (mgr s) → ∃ j, jobs (mgr s) !! k = Some j ∧ Status j = ExportJobPending;
  inv_running : ∀ r, running s = Some r → ∃ j, jobs (mgr s) !! ID r = Some j ∧ Status j = ExportJobRunning ∧ TenantID j = TenantID r;
  inv_active : ∀ k j, jobs (mgr s) !! k = Some j → active j = true →
    k ∈ pending (mgr s) ∨ ∃ r, running s = Some r ∧ ID r = k;
  inv_one : ∀ k k' j j', jobs (mgr s) !! k = Some j → jobs (mgr s) !! k' = Some j' →
    active j = true → active j' = true → TenantID j = TenantID j' → k = k';
}.

Lemma in_progress_false tenantID m k j :
  in_progress tenantID m = false → jobs m !! k = Some j → TenantID j = tenantID → active j = false.
Proof.
  intros Hp Hk Ht. destruct (active j) eqn:Ha; [|done]. enough (in_progress tenantID m = true) by congruence.
  apply any_true. exists (k, j). split; [by apply elem_of_map_to_list|]. by rewrite Ha, bool_decide_eq_true_2.
Qed.

Lemma create_inv s jobID opID now tenantID callerID roles stored cancelled m' r :
  inv s → jobs (mgr s) !! jobID = None → CreateJob jobID opID now tenantID callerID roles stored cancelled (mgr s) = (m', r) →
  inv {| mgr := m'; running := running s |}.
Proof.
  intros Hi Hn. unfold CreateJob, insert_job. destruct (in_progress tenantID (mgr s)) eqn:Hp; [by intros [= <- _]; destruct Hi|].
  destruct stored; [|by intros [= <- _]; destruct Hi]. cbn [negb]. destruct Hi as [H1 [H2 H2'] H3 H4 H5].
  destruct cancelled; intros [= <- _]; cbn [mgr running jobs pending].
  { rewrite delete_id by done. by split. }
  split; cbn [mgr running jobs pending].
  - intros k j [[<- <-]|[_ ?]]%lookup_insert_Some; [done|by apply H1].
  - split.
    + apply NoDup_app. split_and!; [done| |apply NoDup_singleton]. intros k Hk ->%list_elem_of_singleton. destruct (H2' _ Hk) as (? & ? & _). congruence.
    + intros k [Hk| ->%list_elem_of_singleton]%elem_of_app; [|rewrite lookup_insert_eq; by eexists].
      destruct (H2' _ Hk) as (j & Hj & ?). exists j. rewrite lookup_insert_ne by congruence. done.
  - intros r' (j & Hj & ?)%H3. exists j. rewrite lookup_insert_ne by congruence. done.
  - intros k j [[<- <-]|[_ Hk]]%lookup_insert_Some Ha; [left; set_solver|]. destruct (H4 _ _ Hk Ha); [left; set_solver|by right].
  - intros k k' j j' [[<- <-]|[_ Hk]]%lookup_insert_Some [[<- <-]|[_ Hk']]%lookup_insert_Some Ha Ha' Ht; [done| | |by eapply H5].
    + by rewrite (in_progress_false _ _ _ _ Hp Hk' (eq_sym Ht)) in Ha'.
    + by rewrite (in_progress_false _ _ _ _ Hp Hk Ht) in Ha.
Qed.

Lemma begin_inv s now j m' :
  inv s → running s = None → begin_job now (mgr s) = Some (j, m') → inv {| mgr := m'; running := Some j |}.
Proof.
  intros [H1 [H2 H2'] H3 H4 H5] Hr. unfold begin_job. destruct (pending (mgr s)) as [|k ks] eqn:Eq; [done|].
  destruct (jobs (mgr s) !! k) as [j'|] eqn:Ek; [|done]. intros [= <- <-]. pose proof (H1 _ _ Ek) as Hid.
  apply NoDup_cons in H2 as [Hk Hks]. destruct (H2' k) as (? & Hp & Hpend); [set_solver|]. simplify_eq.
  split; cbn [mgr running jobs pending mark].
  - intros k j [[<- <-]|[_ ?]]%lookup_insert_Some; [done|by apply H1].
  - split; [done|]. intros k Hin. destruct (H2' k) as (j & Hj & ?); [set_solver|]. exists j. rewrite lookup_insert_ne; [done|congruence].
  - intros r [= <-]. rewrite lookup_insert_eq. by eexists.
  - intros k j [[<- <-]|[Hne Hk']]%lookup_insert_Some Ha; [right; by eexists|].
    destruct (H4 _ _ Hk' Ha) as [Hin|(r & ? & _)]; [|congruence]. left. apply elem_of_cons in Hin as [->|?]; [done|done].
  - intros k k' j j1 [[<- <-]|[_ Hk1]]%lookup_insert_Some [[<- <-]|[_ Hk2]]%lookup_insert_Some Ha Ha' Ht; [done| | |by eapply H5].
    + eapply H5; [exact Ek|exact Hk2|unfold active; by rewrite Hpend|done|exact Ht].
    + eapply H5; [exact Hk1|exact Ek|done|unfold active; by rewrite Hpend|exact Ht].
Qed.

Lemma end_inv s now j answer :
  inv s → running s = Some j → inv {| mgr := end_job now j answer (mgr s); running := None |}.
Proof.
  intros [H1 [H2 H2'] H3 H4 H5] Hr. destruct (H3 _ Hr) as (j0 & Hj0 & Hrun & _).
  assert (∃ st ost r e entry, end_job now j answer (mgr s) = mark j st ost r e now entry (mgr s) ∧
    (st = ExportJobCompleted ∨ st = ExportJobFailed)) as (st & ost & r & e & entry & -> & Hst).
  { destruct answer as [r|[| |]]; cbn [end_job]; do 5 eexists; (split; [reflexivity|auto]). }
  assert (active (set_job st r e now j) = false) as Hin by (unfold active; cbn; by destruct Hst as [-> | ->]).
  split; cbn [mgr running jobs pending mark].
  - intros k j' [[<- <-]|[_ ?]]%lookup_insert_Some; [done|by apply H1].
  - split; [done|]. intros k (j' & Hj' & Hp)%H2'. exists j'. rewrite lookup_insert_ne; [done|]. intros <-. congruence.
  - done.
  - intros k j' [[<- <-]|[Hne Hk]]%lookup_insert_Some Ha; [congruence|].
    destruct (H4 _ _ Hk Ha) as [?|(r' & Hr' & <-)]; [by left|]. rewrite Hr in Hr'. simplify_eq.
  - intros k k' j1 j2 [[<- <-]|[_ Hk1]]%lookup_insert_Some [[<- <-]|[_ Hk2]]%lookup_insert_Some Ha Ha' Ht; [done|congruence|congruence|by eapply H5].
Qed.

Definition start : system := {| mgr := NewExportJobManager; running := None |}.

Lemma manager_reachable_inv s : rtc step start s → inv s.
Proof.
  assert (inv start) as Hi.
  { split; cbn [mgr running start NewExportJobManager jobs pending]; try by intros; simplify_map_eq. split; [constructor|]. by intros k ?%elem_of_nil. }
  intros Hs. revert Hi. induction Hs as [s|s s1 s2 Hst _ IH]; [done|]. intros Hi. apply IH.
  destruct Hst as [? jobID opID now t c rs st ca m' r Hn E|? opID now t c rs|? now id|? now j m' Hr E|? now j a Hr].
  - by eapply create_inv.
  - by destruct Hi.
  - by destruct Hi.
  - by eapply begin_inv.
  - by apply end_inv.
Qed.

(** C21: with calls that run one at a time, a tenant has at most one pending
    or running export whatever the order of requests, runs and failures, and
    no job is forgotten: an active job is queued or is the one running. *)
Theorem one_export_per_tenant s :
  rtc step start s →
  (∀ k k' j j', jobs (mgr s) !! k = Some j → jobs (mgr s) !! k' = Some j' →
     active j = true → active j' = true → TenantID j = TenantID j' → k = k') ∧
  (∀ k j, jobs (mgr s) !! k = Some j → active j = true →
     k ∈ pending (mgr s) ∨ ∃ r, running s = Some r ∧ ID r = k).
Proof. intros [_ _ _ H4 H5]%manager_reachable_inv. split; [exact H5|exact H4]. Qed.

(** Two requests that both look before either inserts make two jobs. *)
Lemma racing_requests_two_jobs :
  let m := NewExportJobManager in
  let m1 := (insert_job "j1" "o1" 0 "acme" "acme" ["merchant"] true false m).1 in
  let m2 := (insert_job "j2" "o2" 0 "acme" "acme" ["merchant"] true false m1).1 in
  in_progress "acme" m = false ∧ (active <$> jobs m2 !! "j1", active <$> jobs m2 !! "j2", pending m2) = (Some true, Some true, ["j1"; "j2"]).
Proof. split; vm_compute; reflexivity. Qed.

(** A job created without roles is run with those of an administrator. *)
Lemma no_roles_run_as_admin callerID tenantID :
  may_export callerID [] tenantID = false ∧ may_export callerID (effective_roles []) tenantID = true.
Proof. done. Qed.
End Manager.

(** ** Handlers *)
Module Handlers.
Import Archive Operations Manager.

(** What the middleware stored: caller and roles, and the tenant. *)
Record request := { auth : option (string * list string); tenantID : option string; param : string }.

Definition getRequired (v : option string) : option string :=
  match v with Some s => if decide (s = "") then None else Some s | None => None end.

Fixpoint authorized (callerID tenant : string) (roles : list string) : bool :=
  match roles with
  | [] => false
  | r :: roles =>
      if decide (r = "admin") then true
      else if decide (r = "merchant" ∧ callerID = tenant) then true
      else authorized callerID tenant roles
  end.

(** The status of the answer, and the manager afterwards. *)
Definition NewTenantExportHandler (create : string → string → list string → ExportJobManager → ExportJobManager * result manager_error ExportJob)
    (c : request) (m : ExportJobManager) : ExportJobManager * (Z * option ExportJob) :=
  match auth c with
  | None => (m, (401, None))
  | Some (callerID, roles) =>
      match getRequired (tenantID c) with
      | None => (m, (400, None))
      | Some tenant =>
          if negb (authorized callerID tenant roles) then (m, (403, None))
          else match create tenant callerID roles m with
          | (m, Err ErrExportInProgress) => (m, (409, None))
          | (m, Err _) => (m, (500, None))
          | (m, Ok job) => (m, (202, Some job))
          end
      end
  end.

Definition NewTenantExportStatusHandler (c : request) (m : ExportJobManager) : Z * option ExportJob :=
  match auth c with
  | None => (401, None)
  | Some (callerID, _) =>
      match getRequired (tenantID c) with
      | None => (400, None)
      | Some tenant =>
          if decide (param c = "") then (400, None)
          else match GetJob (param c) m with
          | Err _ => (404, None)
          | Ok job =>
              if negb (bool_decide (Manager.TenantID job = tenant)) && negb (bool_decide (callerID = CallerID job)) then (404, None)
              else (200, Some job)
          end
      end
  end.

Definition NewOperationStatusHandler (now : Time) (c : request) (m : ExportJobManager) : ExportJobManager * (Z * option ExportOperation) :=
  match auth c with
  | None => (m, (401, None))
  | Some (callerID, _) =>
      match getRequired (tenantID c) with
      | None => (m, (400, None))
      | Some tenant =>
          if decide (param c = "") then (m, (400, None))
          else match GetOperation now (param c) m with
          | (m, Err _) => (m, (404, None))
          | (m, Ok op) =>
              if negb (bool_decide (op_TenantID op = tenant)) && negb (bool_decide (callerID = op_CallerID op)) then (m, (404, None))
              else (m, (200, Some op))
          end
      end
  end.

(** A job is shown to callers of its tenant and to the caller who made it. *)
Lemma status_scoped c m job :
  NewTenantExportStatusHandler c m = (200, Some job) →
  ∃ callerID roles, auth c = Some (callerID, roles) ∧ jobs m !! param c = Some job ∧
    (tenantID c = Some (Manager.TenantID job) ∨ callerID = CallerID job).
Proof.
  unfold NewTenantExportStatusHandler, GetJob, getRequired. destruct (auth c) as [[callerID roles]|]; [|done].
  destruct (tenantID c) as [t|]; [|done]. case_decide; [done|]. case_decide; [done|].
  destruct (jobs m !! param c) as [j|]; [|done]. destruct (negb _ && negb _) eqn:E; [done|]. intros [= ->].
  exists callerID, roles. split_and!; [done|done|].
  apply andb_false_iff in E as [E|E]; apply negb_false_iff, bool_decide_eq_true in E; [left|right]; congruence.
Qed.

(** A caller who is both an administrator and a merchant is let in for every
    tenant by the handler, and refused by the service when the job runs. *)
Lemma handler_service_disagree callerID tenant :
  callerID ≠ tenant →
  authorized callerID tenant ["admin"; "merchant"] = true ∧ may_export callerID ["admin"; "merchant"] tenant = false.
Proof. intros Hne. split; [done|]. unfold may_export. by rewrite (bool_decide_eq_false_2 (callerID = tenant)). Qed.
End Handlers.

(** ** Concrete runs *)
Module Runs.
Import Archive Operations Manager Statements.Runs Statements.Repo Statements.Service.

Definition data_of (rows : list StatementRow) : string := Join (map (λ r, s_ID r +:+ "@" +:+ s_TenantID r) rows) ";".
Definition archive :=
  ExportTenantData (λ _, Some "") (λ _, Some "") (λ rows, Some (data_of rows)) (λ files, Some (Join (map snd files) "|"))
    (λ d, "hash of " +:+ d) (λ _, false) "20240501" (Ok []) subs stmts "acme" ["merchant"] "acme" up.

(** The customer of two tenants again: the archive of one holds the
    statements of both. *)
Example foreign_statements_exported :
  match archive with (Some (_, data), Ok r) => Some (data, SHA256Hash r) | _ => None end =
  Some ("||i1@acme;i2@zeta", "hash of ||i1@acme;i2@zeta").
Proof. vm_compute. reflexivity. Qed.

Definition queued : system :=
  {| mgr := (CreateJob "j1" "o1" 0 "acme" "acme" ["merchant"] true false NewExportJobManager).1; running := None |}.
Lemma one_export_per_tenant_witness :
  (Status <$> jobs (mgr queued) !! "j1") = Some ExportJobPending ∧
  (∀ k j, jobs (mgr queued) !! k = Some j → active j = true → Manager.TenantID j = "acme" → k = "j1") ∧
  (CreateJob "j2" "o2" 1 "acme" "acme" ["merchant"] true false (mgr queued)).2 = Err ErrExportInProgress.
Proof.
  split; [reflexivity|]. split; [|vm_compute; reflexivity]. intros k j Hk Ha Ht.
  assert (rtc step start queued) as Hs.
  { eapply rtc_l; [|apply rtc_refl]. eapply (step_create start "j1" "o1" 0 "acme" "acme" ["merchant"] true false); reflexivity. }
  destruct (one_export_per_tenant queued Hs) as [H _].
  by apply (H k "j1" j (new_job "j1" "o1" "acme" "acme" ["merchant"] 0)).
Defined.

(** The job runs and its operation follows it. *)
Example job_runs :
  let m := processJob (λ _ _ _, Ok {| Archive.ObjectKey := "k"; Archive.URL := "u"; Archive.ExpiresAt := 9; SHA256Hash := "h" |}) 5 8 (mgr queued) in
  (Status <$> jobs m !! "j1", op_Status <$> operations m !! "o1", log m, pending m) =
  (Some ExportJobCompleted, Some OperationSucceeded, [("j1", true)], []).
Proof. vm_compute. reflexivity. Qed.
End Runs.
