(* ===== verification/Publishers.v ===== *)
(** * The publishers of the outbox

    - [Envelope] models the envelope of [internal/outbox/types.go] that every
      publisher reads, over an interface to [encoding/json];
    - [Limiter] models [internal/outbox/limiter.go], the adaptive concurrency
      limiter of the HTTP publisher;
    - [Delivery] models the publishers of [publisher.go], [kafka_publisher.go],
      [slack_publisher.go], [redis_publisher.go] and [chaos_publisher.go];
    - [Attempts] models [attempts.go], the log of delivery attempts.

    A publisher is a function of the event and the world, as its interface has
    it; clients of brokers and servers are parameters. Metrics and logs are
    left out. [publisher.go] has typing slips that keep it from parsing; the
    model reads its HTTP publisher as meant. *)
From Stdlib Require Import ZArith Lia Ascii String SpecFloat.
From stdpp Require Import base gmap strings list.
From S2P Require Import Prelude GoStrings GoFloat GoTime Outbox.
#[local] Open Scope string_scope.
#[local] Open Scope Z_scope.

(** ** Envelopes

    [D] is the type of Go values an event carries. [field k d] is
    [d.(map[string]interface{})[k].(string)] where both assertions hold;
    [decoded d] is what decoding the text of [d] gives, [clean s] what it
    gives for a string (invalid UTF-8 is replaced). *)
Module Envelope.
Record EventEnvelope {D : Type} := {
  e_Type : string;
  e_Data : D;
  e_Timestamp : Time;
  e_ID : string;
  e_Encrypted : bool;
  e_JWE : string;
  e_KeyID : string;
  e_SubscriberID : string;
}.
Arguments EventEnvelope D : clear implicits.

Record Payload {D : Type} := {
  p_id : UUID;
  p_type : string;
  p_data : D;
  p_occurred_at : Time;
  p_aggregate_id : option string;
  p_aggregate_type : option string;
  p_version : Z;
  p_subscriber_id : option string;
}.
Arguments Payload D : clear implicits.

Class Json (D : Type) := {
  null : D;
  field : string → D → option string;
  decoded : D → D;
  clean : string → string;
  encode : EventEnvelope D → option string;
  decode : string → option (EventEnvelope D);
  payload_text : Payload D → option string;
  field_null : ∀ k, field k null = None;
  decoded_null : decoded null = null;
  clean_empty : ∀ s, clean s = "" ↔ s = "";
  decode_encode : ∀ e text, encode e = Some text →
    decode text = Some {| e_Type := clean (e_Type e); e_Data := decoded (e_Data e); e_Timestamp := e_Timestamp e;
                          e_ID := clean (e_ID e); e_Encrypted := e_Encrypted e; e_JWE := clean (e_JWE e);
                          e_KeyID := clean (e_KeyID e); e_SubscriberID := clean (e_SubscriberID e) |};
}.

(** The fields every publisher sends of an event. *)
Definition payload {D} (event : Event) (data : D) (subscriber : option string) : Payload D :=
  {| p_id := ID event; p_type := EventType event; p_data := data; p_occurred_at := OccurredAt event;
     p_aggregate_id := AggregateID event; p_aggregate_type := AggregateType event; p_version := Version event;
     p_subscriber_id := subscriber |}.

(** [copy := *event; copy.EventData = data] *)
Definition with_data (data : string) (e : Event) : Event :=
  {| ID := ID e; TenantID := TenantID e; EventType := EventType e; EventData := data;
     AggregateID := AggregateID e; AggregateType := AggregateType e; OccurredAt := OccurredAt e;
     EventStatus := EventStatus e; RetryCount := RetryCount e; EventMaxRetries := EventMaxRetries e;
     NextRetryAt := NextRetryAt e; ErrorMessage := ErrorMessage e; CreatedAt := CreatedAt e;
     UpdatedAt := UpdatedAt e; Version := Version e; DeduplicationID := DeduplicationID e; Partition := Partition e |}.

Definition Publisher (W : Type) : Type := Event → W → option go_error * W.

(** [fmt.Errorf("prefix: %w", err)] *)
Definition wrap (prefix : string) (err : go_error) : go_error := Wrapped (prefix +:+ ": " +:+ Error err) err.
Definition safeString (s : option string) : string := default "" s.
End Envelope.
Export Envelope.

(** ** The concurrency limiter *)
Module Limiter.
Record LimiterConfig := { InitialLimit : float64; MinLimit : float64; MaxLimit : float64; Smoothing : float64 }.
Definition DefaultLimiterConfig : LimiterConfig :=
  {| InitialLimit := f_of_int 20; MinLimit := f_of_int 1; MaxLimit := f_of_int 1000; Smoothing := f_lit 2 10 |}.

Record Gradient2Limiter := {
  inflight : Z;
  limit : float64;
  minLimit : float64;
  maxLimit : float64;
  rttNoLoad : Duration;
  smoothing : float64;
}.
Definition NewGradient2Limiter (cfg : LimiterConfig) : Gradient2Limiter :=
  {| inflight := 0; limit := InitialLimit cfg; minLimit := MinLimit cfg; maxLimit := MaxLimit cfg; rttNoLoad := 0;
     smoothing := Smoothing cfg |}.
Definition set_state (n : Z) (lim : float64) (rtt : Duration) (l : Gradient2Limiter) : Gradient2Limiter :=
  {| inflight := n; limit := lim; minLimit := minLimit l; maxLimit := maxLimit l; rttNoLoad := rtt; smoothing := smoothing l |}.

(** [int(math.Floor(x))]: the limit is never negative, where rounding down is truncation. *)
Definition current (l : Gradient2Limiter) : Z := int64_of_float (limit l).

(** One round of the loop of [Acquire]: a token, or [None] to wait and try again. *)
Definition tryAcquire (l : Gradient2Limiter) : option Gradient2Limiter :=
  if inflight l <? current l then Some (set_state (inflight l + 1) (limit l) (rttNoLoad l) l) else None.

Definition at_least (lo x : float64) : float64 := if f_lt x lo then lo else x.
Definition at_most (hi x : float64) : float64 := if f_lt hi x then hi else x.
(** [math.Min] and [math.Max] of two numbers neither of which is NaN or a zero. *)
Definition f_min (x y : float64) : float64 := if f_lt x y then x else y.
Definition f_max (x y : float64) : float64 := if f_lt y x then x else y.

Definition gradient (noload rtt : Duration) : float64 :=
  if 0 <? rtt then
    let adjusted := int64_of_float (f_mul (f_of_int noload) (f_of_int 2)) in
    f_max (f_lit 1 2) (f_min (f_of_int 1) (f_div (f_of_int adjusted) (f_of_int rtt)))
  else f_of_int 1.

Definition release (rtt : Duration) (failed : bool) (l : Gradient2Limiter) : Gradient2Limiter :=
  if failed then set_state (inflight l - 1) (at_least (minLimit l) (f_mul (limit l) (f_lit 1 2))) (rttNoLoad l) l
  else
    let noload := if (rttNoLoad l =? 0) || (rtt <? rttNoLoad l) then rtt else rttNoLoad l in
    let lim := f_add (f_mul (limit l) (gradient noload rtt)) (smoothing l) in
    set_state (inflight l - 1) (at_most (maxLimit l) (at_least (minLimit l) lim)) noload l.

(** Publishers come and go: each token taken is given back once. *)
Inductive op := Take | Give (rtt : Duration) (failed : bool).
Definition apply (s : Gradient2Limiter * Z) (o : op) : Gradient2Limiter * Z :=
  match o with
  | Take => match tryAcquire s.1 with Some l => (l, s.2 + 1) | None => s end
  | Give rtt failed => if 0 <? s.2 then (release rtt failed s.1, s.2 - 1) else s
  end.
Definition run (cfg : LimiterConfig) (ops : list op) : Gradient2Limiter * Z := foldl apply (NewGradient2Limiter cfg, 0) ops.

Record limited (cfg : LimiterConfig) (s : Gradient2Limiter * Z) : Prop := {
  l_tokens : inflight s.1 = s.2;
  l_nonneg : 0 ≤ s.2;
  l_min : minLimit s.1 = MinLimit cfg;
  l_max : maxLimit s.1 = MaxLimit cfg;
  l_above : f_lt (limit s.1) (MinLimit cfg) = false;
}.

Lemma at_least_ok lo x : f_lt lo lo = false → f_lt (at_least lo x) lo = false.
Proof. unfold at_least. by destruct (f_lt x lo) eqn:E. Qed.

Lemma apply_limited cfg s o :
  f_lt (MinLimit cfg) (MinLimit cfg) = false → f_lt (MaxLimit cfg) (MinLimit cfg) = false →
  limited cfg s → limited cfg (apply s o).
Proof.
  intros Hirr Hord [? ? Hmin Hmax ?]. destruct o as [|rtt failed]; cbn [apply].
  - unfold tryAcquire. destruct (inflight s.1 <? current s.1); split; cbn; auto; lia.
  - destruct (0 <? s.2) eqn:Hp; [|by split]. unfold release. destruct failed; split; cbn; rewrite ?Hmin, ?Hmax;
    auto using at_least_ok; try lia.
    unfold at_most. case_match; auto using at_least_ok.
Qed.

(** The limiter counts the requests in flight exactly; its limit never falls
    below the minimum; a request is let through exactly while fewer are in
    flight than the whole part of the limit. *)
Theorem limiter_exact cfg ops :
  f_lt (InitialLimit cfg) (MinLimit cfg) = false → f_lt (MinLimit cfg) (MinLimit cfg) = false →
  f_lt (MaxLimit cfg) (MinLimit cfg) = false →
  let s := run cfg ops in
  limited cfg s ∧
  match tryAcquire s.1 with
  | Some l => s.2 < int64_of_float (limit s.1) ∧ inflight l = s.2 + 1
  | None => int64_of_float (limit s.1) ≤ s.2
  end.
Proof.
  intros Hinit Hirr Hord s. assert (limited cfg s) as Hl.
  { unfold s, run. assert (limited cfg (NewGradient2Limiter cfg, 0)) as H0 by (by split).
    revert H0. generalize (NewGradient2Limiter cfg, 0). induction ops as [|o ops IH]; intros st H0; [done|].
    cbn [foldl]. apply IH. by apply apply_limited. }
  split; [done|]. destruct Hl as [Ht ? ? ? ?]. unfold tryAcquire, current. rewrite Ht.
  destruct (s.2 <? _) eqn:E; cbn; lia.
Qed.
End Limiter.

(** ** Publishers *)
Module Delivery.
Section publishers.
Context {D W : Type} `{!Json D}.

(** [MultiPublisher]: every publisher is tried; the last failure is reported. *)
Fixpoint multi_loop (i : nat) (ps : list (Publisher W)) (last : option go_error) (event : Event) (w : W) : option go_error * W :=
  match ps with
  | [] => (last, w)
  | p :: ps =>
      let '(err, w) := p event w in
      let last := match err with
                  | Some err => Some (wrap ("publisher " +:+ Itoa (Z.of_nat i) +:+ " failed") err)
                  | None => last
                  end in
      multi_loop (S i) ps last event w
  end.
Definition Multi_Publish (ps : list (Publisher W)) : Publisher W := multi_loop 0 ps None.

(** [ConsolePublisher] writes a log line. *)
Definition Console_Publish : Publisher W := λ event w,
  match decode (EventData event) with
  | None => (Some (Plain "failed to unmarshal event data"), w)
  | Some _ => (None, w)
  end.

(** [HTTPPublisher]: [acquire] and [release] are the limiter, [Post url type
    body] the client, which answers a status or an error. *)
Section http.
Context (endpoint : string) (acquire : W → result go_error unit * W) (release : option go_error → W → W)
        (Post : string → string → string → W → result go_error Z * W).

Definition http_answer (r : result go_error Z * W) : option go_error * W :=
  match r with
  | (Err err, w) => (Some (wrap "HTTP request failed" err), w)
  | (Ok status, w) =>
      if 400 <=? status then (Some (Plain ("HTTP request failed with status code: " +:+ Itoa status)), w) else (None, w)
  end.
Definition http_send (event : Event) (w : W) : option go_error * W :=
  match decode (EventData event) with
  | None => (Some (Plain "failed to unmarshal event data"), w)
  | Some env =>
      if e_Encrypted env && bool_decide (e_JWE env ≠ "")
      then http_answer (Post endpoint "application/jose+json" (e_JWE env) w)
      else match payload_text (payload event (e_Data env) None) with
           | None => (Some (Plain "failed to marshal payload"), w)
           | Some body => http_answer (Post endpoint "application/json" body w)
           end
  end.
Definition HTTP_Publish : Publisher W := λ event w,
  match acquire w with
  | (Err err, w) => (Some (wrap "concurrency limit acquire failed" err), w)
  | (Ok _, w) => let '(err, w) := http_send event w in (err, release err w)
  end.
End http.

(** [ChaosPublisher]: in staging some events are cancelled; [draw] is [rand.Float64]. *)
Definition isStagingEnv (env : string) : bool := bool_decide (ToLower env = "staging").
Definition Chaos_Publish (env : string) (prob : float64) (draw : W → float64 * W) (inner : Publisher W) : Publisher W := λ event w,
  if negb (isStagingEnv env) || f_le prob (S754_zero false) then inner event w
  else
    let '(x, w) := draw w in
    if f_le prob x then inner event w else (Some (Plain "context canceled"), w).
End publishers.

(** *** Kafka *)
Inductive RequiredAcks := RequireNone | RequireOne | RequireAll.
#[export] Instance RequiredAcks_eq_dec : EqDecision RequiredAcks.
Proof. solve_decision. Defined.

Definition parseKafkaAck (value : string) : result string RequiredAcks :=
  let v := ToLower (TrimSpace value) in
  if bool_decide (v ∈ ["0"; "none"; "no_ack"]) then Ok RequireNone
  else if bool_decide (v ∈ ["1"; "one"; "requireone"]) then Ok RequireOne
  else if bool_decide (v ∈ ["all"; "requireall"; "-1"]) then Ok RequireAll
  else Err ("unsupported kafka ack value " +:+ value).

Record KafkaConfig := {
  brokers : list string;
  topicMapping : gmap string string;
  defaultAck : RequiredAcks;
  topicAcks : gmap string RequiredAcks;
}.

(** A comma-separated list of [key=value] entries; blanks are skipped. *)
Fixpoint parse_entries {A} (what : string) (value : string → result string A) (entries : list string) (m : gmap string A)
    : result string (gmap string A) :=
  match entries with
  | [] => Ok m
  | entry :: entries =>
      let entry := TrimSpace entry in
      if decide (entry = "") then parse_entries what value entries m
      else match cut_char "=" entry with
           | None => Err ("invalid " +:+ what +:+ " entry " +:+ entry)
           | Some (k, v) =>
               match value (TrimSpace v) with
               | Err e => Err e
               | Ok a => parse_entries what value entries (<[TrimSpace k := a]> m)
               end
           end
  end.

Definition parse_brokers (s : string) : list string :=
  List.filter (λ b, bool_decide (b ≠ "")) (map TrimSpace (split_char "," s)).
Definition parse_topic_acks (what s : string) (m : gmap string RequiredAcks) : result string (gmap string RequiredAcks) :=
  parse_entries what parseKafkaAck (split_char "," s) m.

Definition parseKafkaConfigFromEnv (getenv : string → string) : result string KafkaConfig :=
  let topics := getenv "OUTBOX_KAFKA_TOPIC_MAP" in
  let ack := TrimSpace (getenv "OUTBOX_KAFKA_ACKS") in
  let acks := TrimSpace (getenv "OUTBOX_KAFKA_TOPIC_ACKS") in
  match (if decide (topics = "") then Ok ∅ else parse_entries "OUTBOX_KAFKA_TOPIC_MAP" Ok (split_char "," topics) ∅) with
  | Err e => Err e
  | Ok topicMap =>
      match (if decide (ack = "") then Ok RequireOne else parseKafkaAck ack) with
      | Err e => Err e
      | Ok dflt =>
          match (if decide (acks = "") then Ok ∅ else parse_topic_acks "OUTBOX_KAFKA_TOPIC_ACKS" acks ∅) with
          | Err e => Err e
          | Ok m => Ok {| brokers := parse_brokers (getenv "OUTBOX_KAFKA_BROKERS"); topicMapping := topicMap;
                          defaultAck := dflt; topicAcks := m |}
          end
      end
  end.

(** What [NewService] lays over the environment's settings. *)
Definition kafka_overrides (bs : list string) (topics : gmap string string) (ack acks : string) (c : KafkaConfig)
    : result string KafkaConfig :=
  let bs := match bs with [] => brokers c | _ => bs end in
  let topics := if decide (topics = ∅) then topicMapping c else topics in
  match (if decide (ack = "") then Ok (defaultAck c) else parseKafkaAck ack) with
  | Err e => Err ("invalid kafka ack setting: " +:+ e)
  | Ok dflt =>
      match (if decide (acks = "") then Ok (topicAcks c) else parse_topic_acks "kafka topic ack setting" acks (topicAcks c)) with
      | Err e => Err e
      | Ok m => Ok {| brokers := bs; topicMapping := topics; defaultAck := dflt; topicAcks := m |}
      end
  end.

Section kafka.
Context {D W : Type} `{!Json D}.
(** [write brokers topic ack key value]: the writer the factory makes; [text]
    encodes the message, whose data is the stored text as it is. *)
Context (write : list string → string → RequiredAcks → string → string → W → option go_error * W)
        (uuid_string : UUID → string) (text : Event → string → string → option string).

Definition mapped (c : KafkaConfig) (type : string) : option string :=
  match topicMapping c !! type with Some topic => if decide (topic = "") then None else Some topic | None => None end.
Definition resolveTopic (c : KafkaConfig) (event : Event) : option string :=
  match mapped c (EventType event) with
  | Some topic => Some topic
  | None =>
      if decide (EventData event = "") then None
      else match decode (EventData event) with
           | Some env => if decide (e_Type env = "") then None else mapped c (e_Type env)
           | None => None
           end
  end.
Definition resolveAck (c : KafkaConfig) (topic : string) : RequiredAcks := default (defaultAck c) (topicAcks c !! topic).

Definition Kafka_Publish (c : KafkaConfig) (fallback : option (Publisher W)) : Publisher W := λ event w,
  match resolveTopic c event with
  | None => match fallback with Some p => p event w | None => (None, w) end
  | Some topic =>
      match brokers c with
      | [] => (Some (Plain "kafka publisher has no brokers configured"), w)
      | _ =>
          match text event (safeString (AggregateID event)) (safeString (AggregateType event)) with
          | None => (Some (Plain "failed to marshal kafka payload"), w)
          | Some body =>
              match write (brokers c) topic (resolveAck c topic) (uuid_string (ID event)) body w with
              | (Some err, w) => (Some (wrap ("kafka publish failed for topic " +:+ topic) err), w)
              | (None, w) => (None, w)
              end
          end
      end
  end.
End kafka.

(** *** Slack

    Texts of HTTP dates are a parameter: [http_date] is the first of the three
    layouts that parses. *)
Definition parseRetryAfter (http_date : string → option Time) (now : Time) (header : string) : Duration :=
  if decide (header = "") then Time.Second
  else
    let by_date := match http_date header with
                   | Some t => let d := Time.Sub t now in if 0 <? d then d else Time.Second
                   | None => Time.Second
                   end in
    match ParseInt header with
    | Some secs => if 0 <? secs then wrap64 (secs * Time.Second) else by_date
    | None => by_date
    end.

Section slack.
Context {W : Type} (http_date : string → option Time) (now : W → Time).
Context (GetSecret : W → result go_error string * W)
        (templates : gmap string (Event → result go_error string))
        (PostSlack : string → string → W → result go_error (Z * string) * W)
        (sleepFn : Duration → W → W).

(** The answer of Slack as an error of the publisher and, for 429, the sleep. *)
Inductive slack_verdict := Delivered | Transient (msg : string) | Permanent (msg : string) | RateLimited (header : string).
Definition classify (statusCode : Z) (retryAfter : string) : slack_verdict :=
  if statusCode =? 429 then RateLimited retryAfter
  else if (400 <=? statusCode) && (statusCode <? 500) then Permanent ("slack: permanent client error " +:+ Itoa statusCode)
  else if 500 <=? statusCode then Transient ("slack: server error " +:+ Itoa statusCode)
  else Delivered.

Definition slack_answer (statusCode : Z) (retryAfter : string) (w : W) : option go_error * W :=
  match classify statusCode retryAfter with
  | RateLimited header =>
      (Some (Plain ("slack: rate limited (429), retry after " +:+ header)), sleepFn (parseRetryAfter http_date (now w) header) w)
  | Permanent msg => (Some (PermanentPublishError msg None), w)
  | Transient msg => (Some (Plain msg), w)
  | Delivered => (None, w)
  end.

Definition Slack_Publish : Publisher W := λ event w,
  match GetSecret w with
  | (Err err, w) => (Some (wrap "slack: get webhook secret" err), w)
  | (Ok url, w) =>
      if decide (url = "") then (Some (PermanentPublishError "slack: webhook URL is empty" None), w)
      else match templates !! EventType event with
           | None => (Some (PermanentPublishError ("slack: no template for event type " +:+ EventType event) None), w)
           | Some tmpl =>
               match tmpl event with
               | Err err => (Some (PermanentPublishError ("slack: template error for " +:+ EventType event) (Some err)), w)
               | Ok body =>
                   match PostSlack url body w with
                   | (Err err, w) => (Some (wrap "slack: post" err), w)
                   | (Ok (statusCode, retryAfter), w) => slack_answer statusCode retryAfter w
                   end
               end
           end
  end.
End slack.

(** *** Redis streams *)
Definition isBusyGroupError (msg : string) : bool := HasPrefix msg "BUSYGROUP".
Definition present (k : string) (v : option string) : list (string * string) :=
  match v with Some v => [(k, v)] | None => [] end.
Definition eventToValues (uuid_string : UUID → string) (nano : Time → string) (event : Event) : list (string * string) :=
  ([("id", uuid_string (ID event)); ("event_type", EventType event); ("event_data", EventData event);
   ("occurred_at", nano (OccurredAt event)); ("version", Itoa (Version event))]
  ++ present "aggregate_id" (AggregateID event) ++ present "aggregate_type" (AggregateType event)
  ++ (if decide (TenantID event = "") then [] else [("tenant_id", TenantID event)]))%list.

(** *** Facts *)

(** Every publisher is called exactly once, in order, whatever the others
    answer, and the composite fails exactly when one of them did. *)
Lemma multi_loop_calls {W} i (ps : list (Publisher W)) last event w :
  (multi_loop i ps last event w).2 = foldl (λ w p, (p event w).2) w ps ∧
  ((multi_loop i ps last event w).1 = None ↔
   last = None ∧ ∀ k p, ps !! k = Some p → (p event (foldl (λ w p, (p event w).2) w (take k ps))).1 = None).
Proof.
  revert i last w. induction ps as [|p ps IH]; intros i last w; cbn [multi_loop foldl].
  { split; [done|]. split; [intros Hl; split; [exact Hl|]; intros k p H; by rewrite lookup_nil in H|by intros []]. }
  destruct (p event w) as [err w'] eqn:E. destruct (IH (S i) (match err with Some e => Some (wrap ("publisher " +:+ Itoa (Z.of_nat i) +:+ " failed") e) | None => last end) w') as [-> ->].
  cbn [snd]. split; [done|]. split.
  - intros [Hl Hk]. destruct err as [e|]; [done|]. split; [done|]. intros [|k] q Hq; cbn in Hq |- *.
    + simplify_eq. by rewrite E.
    + rewrite E. by apply (Hk k).
  - intros [-> Hk]. pose proof (Hk 0%nat p eq_refl) as H0. cbn in H0. rewrite E in H0. cbn in H0. subst err. split; [done|].
    intros k q Hq. specialize (Hk (S k) q Hq). cbn in Hk. by rewrite E in Hk.
Qed.

(** An event of no mapped type is handed to the fallback, and without one
    dropped: the dispatcher takes it for delivered. *)
Lemma unmapped_dropped {D W} `{!Json D} write uuid_string text c event (w : W) :
  resolveTopic (D := D) c event = None → Kafka_Publish (D := D) write uuid_string text c None event w = (None, w).
Proof. intros H. unfold Kafka_Publish. by rewrite H. Qed.

(** The header is taken at its word: a large number of seconds overflows into
    a sleep of no time, or a long one holds the dispatcher. *)
Example retry_after_overflow :
  parseRetryAfter (λ _, None) 0 "9300000000" = -9146744073709551616 ∧
  parseRetryAfter (λ _, None) 0 "86400" = 24 * Time.Hour.
Proof. vm_compute. done. Qed.
End Delivery.

(** ** The log of attempts *)
Module Attempts.
(** [utf8.Valid] *)
Fixpoint Valid (s : string) : bool :=
  match s with
  | EmptyString => true
  | String c0 s1 =>
      if code c0 <? 128 then Valid s1
      else match lead (code c0), s1 with
      | Some (2%nat, lo, hi), String c1 s2 => is_cont lo hi c1 && Valid s2
      | Some (3%nat, lo, hi), String c1 (String c2 s3) => is_cont lo hi c1 && is_cont 128 191 c2 && Valid s3
      | Some (4%nat, lo, hi), String c1 (String c2 (String c3 s4)) =>
          is_cont lo hi c1 && is_cont 128 191 c2 && is_cont 128 191 c3 && Valid s4
      | _, _ => false
      end
  end.

Definition maxResponseBodyBytes : nat := 4096.

(** [for !utf8.Valid(b) { b = b[:len(b)-1] }] from the first [n] bytes on. *)
Fixpoint shorten (n : nat) (body : string) : string :=
  let b := substring 0 n body in
  if Valid b then b else match n with O => b | S n => shorten n body end.
Definition TruncateAndScrubBody (body : string) : string :=
  if (maxResponseBodyBytes <? String.length body)%nat then shorten maxResponseBodyBytes body else body.

Record Attempt := {
  a_ID : UUID;
  a_EventID : UUID;
  a_TenantID : string;
  AttemptNumber : Z;
  ResponseCode : option Z;
  LatencyMs : option Z;
  ResponseBody : option string;
  a_ErrorMessage : option string;
  a_NextRetryAt : option Time;
  AttemptedAt : Time;
}.

(** [SaveAttempt]; [fresh] is the identifier drawn. A nil attempt is refused. *)
Definition prepare (fresh : UUID) (now : Time) (a : Attempt) : Attempt :=
  {| a_ID := if a_ID a =? 0 then fresh else a_ID a; a_EventID := a_EventID a; a_TenantID := a_TenantID a;
     AttemptNumber := AttemptNumber a; ResponseCode := ResponseCode a; LatencyMs := LatencyMs a;
     ResponseBody := TruncateAndScrubBody <$> ResponseBody a; a_ErrorMessage := a_ErrorMessage a;
     a_NextRetryAt := a_NextRetryAt a;
     AttemptedAt := if Time.IsZero (AttemptedAt a) then now else AttemptedAt a |}.
Definition SaveAttempt (fresh : UUID) (now : Time) (a : option Attempt) (log : list Attempt) : result string (list Attempt) :=
  match a with
  | None => Err "attempt must not be nil"
  | Some a => Ok (log ++ [prepare fresh now a])%list
  end.
Definition of_event (tenantID : string) (eventID : UUID) (a : Attempt) : bool :=
  bool_decide (a_EventID a = eventID) && bool_decide (a_TenantID a = tenantID).
Definition newer (a b : Attempt) : bool := Time.After (AttemptedAt a) (AttemptedAt b).
Definition ListAttempts `{GoRuntime} (tenantID : string) (eventID : UUID) (log : list Attempt) : list Attempt :=
  sort_slice newer (List.filter (of_event tenantID eventID) log).

Lemma shorten_spec n body :
  ∃ k, (k ≤ n)%nat ∧ shorten n body = substring 0 k body ∧ Valid (substring 0 k body) = true ∧
  ∀ m, (k < m ≤ n)%nat → Valid (substring 0 m body) = false.
Proof.
  induction n as [|n IH]; cbn [shorten].
  - assert (substring 0 0 body = "") as E by by destruct body. rewrite E. cbn. exists 0%nat. rewrite E.
    split_and!; [lia|done|done|]. intros m ?. lia.
  - destruct (Valid (substring 0 (S n) body)) eqn:E.
    + exists (S n). split_and!; [lia|done|done|]. intros m ?. lia.
    + destruct IH as (k & ? & ? & ? & Hm). exists k. split_and!; [lia|done|done|]. intros m ?.
      destruct (decide (m = S n)) as [->|]; [done|]. apply Hm. lia.
Qed.

(** A stored body has at most 4096 bytes. A longer one is cut to the longest
    prefix within the bound that is well-formed text; a shorter one is kept. *)
Theorem stored_body_bounded body :
  (String.length (TruncateAndScrubBody body) ≤ 4096)%nat ∧
  if (4096 <? String.length body)%nat then
    ∃ k, (k ≤ 4096)%nat ∧ TruncateAndScrubBody body = substring 0 k body ∧ Valid (substring 0 k body) = true ∧
    ∀ m, (k < m ≤ 4096)%nat → Valid (substring 0 m body) = false
  else TruncateAndScrubBody body = body.
Proof.
  unfold TruncateAndScrubBody, maxResponseBodyBytes. destruct (4096 <? String.length body)%nat eqn:E.
  - destruct (shorten_spec 4096 body) as (k & Hk & Hs & Hrest). split; [|eauto].
    rewrite Hs, length_substring0; [done|]. apply Nat.ltb_lt in E. lia.
  - apply Nat.ltb_ge in E. split; [lia|done].
Qed.

(** A tenant is shown exactly the attempts of its own event, newest first. *)
Theorem ListAttempts_scoped `{GoRuntime} tenantID eventID log a :
  (a ∈ ListAttempts tenantID eventID log ↔ a ∈ log ∧ a_EventID a = eventID ∧ a_TenantID a = tenantID) ∧
  sorted_by newer (ListAttempts tenantID eventID log).
Proof.
  unfold ListAttempts. split.
  - rewrite elem_of_sort_slice, list_elem_of_In, filter_In, <- list_elem_of_In. unfold of_event.
    rewrite andb_true_iff, !bool_decide_eq_true. naive_solver.
  - apply sort_slice_sorted. split; unfold newer, Time.After; intros; lia.
Qed.
End Attempts.
