(* ===== verification/Encryption.v ===== *)
(** * Sensitive outbox events

    - [Keys] models [internal/outbox/subscriber_key.go]: the keys of
      subscribers and which of them is used;
    - [Sealing] models [sensitive.go], [jwe.go] and [jwe_publisher.go]:
      which events are encrypted, at rest and on the wire;
    - [Signer] models [signer.go]: signed envelopes and their verification;
    - [Service] models the publishing half of [service.go].

    [encoding/json] is the interface of the envelopes; JWE and JWS are
    parameters, and what is relied on is named where it is used. *)
From Stdlib Require Import ZArith Lia Ascii String.
From stdpp Require Import base gmap strings list.
From S2P Require Import Prelude GoStrings GoBase64 HashRing Outbox Publishers.
#[local] Open Scope string_scope.
#[local] Open Scope Z_scope.

(** ** Subscriber keys *)
Module Keys.
Inductive SubscriberKeyStatus := SubscriberKeyActive | SubscriberKeyRevoked | SubscriberKeyExpired.
#[export] Instance SubscriberKeyStatus_eq_dec : EqDecision SubscriberKeyStatus.
Proof. solve_decision. Defined.

Record SubscriberKey := {
  k_ID : UUID;
  k_SubscriberID : string;
  k_KeyID : string;
  k_JWK : string;
  k_Status : option SubscriberKeyStatus;
  k_ExpiresAt : option Time;
  k_CreatedAt : Time;
  k_UpdatedAt : Time;
}.

(** The table [subscriber_keys], whose rows are unique by identifier and by
    subscriber and name of the key. A status left empty is stored as active;
    [fresh] is the identifier drawn when there is none. *)
Notation keys := (gmap UUID SubscriberKey).
Definition named_alike (a b : SubscriberKey) : bool := bool_decide (k_SubscriberID a = k_SubscriberID b ∧ k_KeyID a = k_KeyID b).

Definition Create (fresh : UUID) (now : Time) (key : SubscriberKey) (t : keys) : option keys :=
  let id := if k_ID key =? 0 then fresh else k_ID key in
  match t !! id, existsb (named_alike key) (map snd (map_to_list t)) with
  | Some _, _ | None, true => None
  | None, false =>
      Some (<[id := {| k_ID := id; k_SubscriberID := k_SubscriberID key; k_KeyID := k_KeyID key; k_JWK := k_JWK key;
                       k_Status := Some (default SubscriberKeyActive (k_Status key)); k_ExpiresAt := k_ExpiresAt key;
                       k_CreatedAt := if Time.IsZero (k_CreatedAt key) then now else k_CreatedAt key;
                       k_UpdatedAt := now |}]> t)
  end.
Definition GetByID (id : UUID) (t : keys) : option SubscriberKey := t !! id.

Section queries.
Context `{GoRuntime}.
(** [ORDER BY created_at DESC]; equal keys come in either order. *)
Definition newest_first (l : list SubscriberKey) : list SubscriberKey := sort_slice (λ a b, k_CreatedAt b <? k_CreatedAt a) l.
Definition ListBySubscriber (subscriberID : string) (t : keys) : list SubscriberKey :=
  newest_first (List.filter (λ k, bool_decide (k_SubscriberID k = subscriberID)) (map snd (map_to_list t))).
Definition usable (now : Time) (k : SubscriberKey) : bool :=
  bool_decide (k_Status k = Some SubscriberKeyActive) && match k_ExpiresAt k with None => true | Some t => now <? t end.
Definition GetActiveKey (now : Time) (subscriberID : string) (t : keys) : option SubscriberKey :=
  head (newest_first (List.filter (λ k, bool_decide (k_SubscriberID k = subscriberID) && usable now k) (map snd (map_to_list t)))).
Definition UpdateStatus (now : Time) (id : UUID) (status : SubscriberKeyStatus) (t : keys) : option keys :=
  match t !! id with
  | None => None
  | Some k => Some (<[id := {| k_ID := k_ID k; k_SubscriberID := k_SubscriberID k; k_KeyID := k_KeyID k; k_JWK := k_JWK k;
                               k_Status := Some status; k_ExpiresAt := k_ExpiresAt k; k_CreatedAt := k_CreatedAt k;
                               k_UpdatedAt := now |}]> t)
  end.

(** The key used is the newest of the subscriber that is active and has not
    expired; there is none exactly when no such key exists. *)
Lemma GetActiveKey_exact now sid t :
  match GetActiveKey now sid t with
  | Some k => (∃ id, t !! id = Some k) ∧ k_SubscriberID k = sid ∧ k_Status k = Some SubscriberKeyActive ∧
              (∀ x, k_ExpiresAt k = Some x → now < x) ∧
              ∀ id k', t !! id = Some k' → k_SubscriberID k' = sid → usable now k' = true → k_CreatedAt k' ≤ k_CreatedAt k
  | None => ∀ id k', t !! id = Some k' → k_SubscriberID k' = sid → usable now k' = false
  end.
Proof.
  unfold GetActiveKey. set (l := List.filter _ _).
  assert (∀ k, k ∈ l ↔ (∃ id, t !! id = Some k) ∧ k_SubscriberID k = sid ∧ usable now k = true) as Hl.
  { intros k. unfold l. rewrite list_elem_of_In, filter_In, <- list_elem_of_In, andb_true_iff, bool_decide_eq_true.
    change (map snd) with (fmap (M := list) (@snd UUID SubscriberKey)). rewrite list_elem_of_fmap. split.
    - intros [([id k'] & -> & Hk%elem_of_map_to_list) ?]. eauto.
    - intros [[id Hk] ?]. split; [|done]. exists (id, k). split; [done|]. by apply elem_of_map_to_list. }
  unfold newest_first. pose proof (sort_slice_sorted _ (λ a b, k_CreatedAt b <? k_CreatedAt a) l) as Hs.
  pose proof (elem_of_sort_slice (λ a b, k_CreatedAt b <? k_CreatedAt a) l) as He.
  assert (strict_weak (λ a b : SubscriberKey, k_CreatedAt b <? k_CreatedAt a)) as Hw by (split; intros; lia). specialize (Hs Hw).
  destruct (sort_slice _ l) as [|k rest]; cbn [head].
  - intros id k' Hk Hsub. destruct (usable now k') eqn:E; [|done]. assert (k' ∈ l) as Hin by (apply Hl; eauto).
    apply He, elem_of_nil in Hin. done.
  - assert (k ∈ l) as ((id & Hid) & Hsub & Hu)%Hl by (apply He; set_solver). unfold usable in Hu.
    apply andb_prop in Hu as [Ha%bool_decide_eq_true Hx]. split_and!; [eauto|done|done| |].
    + intros x E. rewrite E in Hx. lia.
    + intros id' k' Hk' Hsub' Hu'. assert (k' ∈ k :: rest) as [->|Hin]%elem_of_cons by (apply He, Hl; eauto); [lia|].
      pose proof (sorted_by_head _ _ _ _ Hs Hin) as Hle. cbn in Hle. lia.
Qed.
End queries.
End Keys.

(** ** Encrypted events *)
Module Sealing.
Import Keys.
Definition DefaultSensitiveEventTypes : list string := ["webhook.received"; "payment.processed"].

(** A registry is the set of its types; [None] is the nil pointer. *)
Notation SensitiveEventRegistry := (option (gset string)).
Definition NewSensitiveEventRegistry (eventTypes : list string) : SensitiveEventRegistry :=
  let eventTypes := match eventTypes with [] => DefaultSensitiveEventTypes | _ => eventTypes end in
  Some (list_to_set (map TrimSpace eventTypes)).
Definition IsSensitive (r : SensitiveEventRegistry) (eventType : string) : bool :=
  match r with None => false | Some types => bool_decide (eventType ∈ types) end.

(** [strings.EqualFold(s, t)] for a [t] of small ASCII letters: simple case
    folding takes U+017F to [s] and U+212A to [k]. *)
Definition fold_rune (r : Z) : Z :=
  if (65 <=? r) && (r <=? 90) then r + 32 else if r =? 383 then 115 else if r =? 8490 then 107 else r.
Definition EqualFold (s t : string) : bool := bool_decide (map fold_rune (runes s) = runes t).

Section sealing.
Context {D W : Type} `{!Json D}.

(** What is encrypted: the data of an event at rest, its payload in flight.
    [Encrypt r p jwk] encrypts with the randomness [r]. *)
Inductive plaintext := PlainData (data : D) | PlainPayload (p : Payload D).
Context (Encrypt : Z → plaintext → string → result go_error string).
(** The key repository and the clock of the world, and its randomness. *)
Context (GetActiveKey : W → string → result go_error SubscriberKey) (draw : W → Z * W).

Definition nonempty (s : option string) : option string :=
  match s with Some s => if decide (s = "") then None else Some s | None => None end.
(** [subscriber_id] of the data, or [customer_id]. *)
Definition data_subscriber (data : D) : option string :=
  match nonempty (field "subscriber_id" data) with
  | Some sid => Some sid
  | None => nonempty (field "customer_id" data)
  end.
Definition aggregate_subscriber (event : Event) : option string :=
  match AggregateType event, AggregateID event with
  | Some t, Some id => if EqualFold t "subscriber" then nonempty (Some id) else None
  | _, _ => None
  end.
Definition ResolveSubscriberID (event : Event) : string :=
  match aggregate_subscriber event with
  | Some id => id
  | None =>
      match decode (EventData event) with
      | None => ""
      | Some env => if decide (e_SubscriberID env = "") then default "" (data_subscriber (e_Data env)) else e_SubscriberID env
      end
  end.

(** The envelope that replaces a sensitive one. *)
Definition sealed (type : string) (at_ : Time) (id compact keyID sid : string) : EventEnvelope D :=
  {| e_Type := type; e_Data := null; e_Timestamp := at_; e_ID := id; e_Encrypted := true; e_JWE := compact;
     e_KeyID := keyID; e_SubscriberID := sid |}.

(** [JWEPublisher.Publish] around [inner]. *)
Definition JWE_Publish (sensitive : SensitiveEventRegistry) (inner : Publisher W) : Publisher W := λ event w,
  if negb (IsSensitive sensitive (EventType event)) then inner event w
  else
    let subscriberID := ResolveSubscriberID event in
    if decide (subscriberID = "") then (Some (PermanentPublishError "missing subscriber id for sensitive event" None), w)
    else match GetActiveKey w subscriberID with
    | Err err => (Some (PermanentPublishError "missing subscriber encryption key" (Some err)), w)
    | Ok key =>
        match decode (EventData event) with
        | None => (Some (Plain "unmarshal event data"), w)
        | Some env =>
            let '(r, w) := draw w in
            match Encrypt r (PlainPayload (payload event (e_Data env) (Some subscriberID))) (k_JWK key) with
            | Err err => (Some (wrap "encrypt sensitive payload" err), w)
            | Ok compact =>
                match encode (sealed (EventType event) (e_Timestamp env) (e_ID env) compact (k_KeyID key) subscriberID) with
                | None => (Some (Plain "marshal encrypted envelope"), w)
                | Some text => inner (with_data text event) w
                end
            end
        end
    end.

(** [PrepareEncryptedEventData]; [now] and [id] are what the clock and
    [uuid.New] gave. *)
Definition PrepareEncryptedEventData (now : Time) (id : string) (eventType : string) (data : D) (subscriberID : string)
    (sensitive : SensitiveEventRegistry) (w : W) : result go_error string * W :=
  let text e w := match encode e with Some t => (Ok t, w) | None => (Err (Plain "json: unsupported value"), w) end in
  if negb (IsSensitive sensitive eventType) then
    text {| e_Type := eventType; e_Data := data; e_Timestamp := now; e_ID := id; e_Encrypted := false; e_JWE := "";
            e_KeyID := ""; e_SubscriberID := subscriberID |} w
  else if decide (subscriberID = "") then (Err (PermanentPublishError "missing subscriber id for sensitive event" None), w)
  else match GetActiveKey w subscriberID with
  | Err err => (Err (PermanentPublishError "missing subscriber encryption key" (Some err)), w)
  | Ok key =>
      let '(r, w) := draw w in
      match Encrypt r (PlainData data) (k_JWK key) with
      | Err err => (Err (wrap "encrypt event data" err), w)
      | Ok compact => text (sealed eventType now id compact (k_KeyID key) subscriberID) w
      end
  end.

(** The two ways of a sensitive event: an error with nothing sent, or one call
    of the publisher behind with a sealed envelope. *)
Definition refused (sensitive : SensitiveEventRegistry) (inner : Publisher W) (event : Event) (w : W) : Prop :=
  ∃ err w', JWE_Publish sensitive inner event w = (Some err, w') ∧ (w' = w ∨ w' = (draw w).2).

Lemma JWE_Publish_cases sensitive inner event w :
  IsSensitive sensitive (EventType event) = true →
  refused sensitive inner event w ∨
  ∃ sid key env compact text,
    sid ≠ "" ∧ ResolveSubscriberID event = sid ∧ GetActiveKey w sid = Ok key ∧ decode (EventData event) = Some env ∧
    Encrypt (draw w).1 (PlainPayload (payload event (e_Data env) (Some sid))) (k_JWK key) = Ok compact ∧
    encode (sealed (EventType event) (e_Timestamp env) (e_ID env) compact (k_KeyID key) sid) = Some text ∧
    JWE_Publish sensitive inner event w = inner (with_data text event) (draw w).2.
Proof.
  intros Hs. unfold refused, JWE_Publish. rewrite Hs. cbn [negb]. case_decide as Hsid; [left; eauto|].
  destruct (GetActiveKey w _) as [key|err] eqn:Hk; [|left; eauto].
  destruct (decode _) as [env|] eqn:He; [|left; eauto]. destruct (draw w) as [r w1] eqn:Hd. cbn [fst snd].
  destruct (Encrypt r _ _) as [compact|err] eqn:Hc; [|left; eauto].
  destruct (encode _) as [text|] eqn:Ht; [|left; eauto].
  right. exists (ResolveSubscriberID event), key, env, compact, text. done.
Qed.

(** C12: A sensitive event never leaves in plain text: either the publisher
    behind is not called and an error is reported, or it is called once with
    an envelope without data, marked encrypted, whose JWE was made of the
    payload with a key that is active for the subscriber of the event. *)
Theorem sensitive_never_plain sensitive inner event w :
  IsSensitive sensitive (EventType event) = true →
  (∃ err w', JWE_Publish sensitive inner event w = (Some err, w') ∧ (w' = w ∨ w' = (draw w).2)) ∨
  ∃ sid key env compact text,
    sid ≠ "" ∧ ResolveSubscriberID event = sid ∧ GetActiveKey w sid = Ok key ∧ decode (EventData event) = Some env ∧
    Encrypt (draw w).1 (PlainPayload (payload event (e_Data env) (Some sid))) (k_JWK key) = Ok compact ∧
    encode {| e_Type := EventType event; e_Data := null; e_Timestamp := e_Timestamp env; e_ID := e_ID env; e_Encrypted := true;
              e_JWE := compact; e_KeyID := k_KeyID key; e_SubscriberID := sid |} = Some text ∧
    JWE_Publish sensitive inner event w = inner (with_data text event) (draw w).2.
Proof. apply JWE_Publish_cases. Qed.
End sealing.
End Sealing.

(** ** Signed envelopes *)
Module Signer.
Section signer.
Context {D W Key PubKey : Type} `{!Json D}.

Record SignedEventData := {
  s_envelope : EventEnvelope D;
  Signed : bool;
  Signature : string;
  SigningKeyID : string;
}.
(** JSON of signed envelopes, and JWS with EdDSA: [sign key kid text] is the
    compact form, [verify pub jws] the text it carries. *)
Context (encode_signed : SignedEventData → option string) (decode_signed : string → option SignedEventData).
Context (sign : Key → string → string → result go_error string) (verify : PubKey → string → option string) (public : Key → PubKey).

(** *** The key of the environment

    [generate] and [from_seed] are the key generation of [crypto/ed25519] with
    the conversion to a JWK, [kid_of] the hash that names a configured key. *)
Section provider.
Context (getenv : string → string) (generate : result go_error Key) (from_seed : string → result go_error Key)
        (kid_of : string → string).
Definition load (now : Time) : result go_error (Key * string) :=
  let encoded := getenv "OUTBOX_SIGNING_KEY" in
  if decide (encoded = "") then
    match generate with
    | Err err => Err (wrap "generate ephemeral Ed25519 key" err)
    | Ok key => Ok (key, "ephemeral-" +:+ Itoa (GoTime.Unix now))
    end
  else match DecodeString encoded with
  | None => Err (Plain "decode OUTBOX_SIGNING_KEY")
  | Some seed =>
      if (String.length seed =? 32)%nat then
        match from_seed seed with
        | Err err => Err (wrap "jwk from raw" err)
        | Ok key => Ok (key, "k-" +:+ kid_of seed)
        end
      else Err (Plain ("OUTBOX_SIGNING_KEY: expected 32 bytes, got " +:+ Itoa (Z.of_nat (String.length seed))))
  end.
(** [sync.Once]: the first result is kept, an error included. *)
Definition SigningKey (now : Time) (once : option (result go_error (Key * string)))
    : result go_error (Key * string) * option (result go_error (Key * string)) :=
  let r := match once with Some r => r | None => load now end in (r, Some r).
End provider.

(** *** Signing and verifying *)
Context (key_of : W → result go_error (Key * string) * W).
Definition Signer_Publish (inner : Publisher W) : Publisher W := λ event w,
  match key_of w with
  | (Err err, w) => (Some (wrap "signing key unavailable" err), w)
  | (Ok (key, kid), w) =>
      match decode (EventData event) with
      | None => (Some (Plain "unmarshal event data"), w)
      | Some env =>
          match payload_text (payload event (e_Data env) None) with
          | None => (Some (Plain "marshal signing payload"), w)
          | Some text =>
              match sign key kid text with
              | Err err => (Some (wrap "jws sign" err), w)
              | Ok signature =>
                  match encode_signed {| s_envelope := env; Signed := true; Signature := signature; SigningKeyID := kid |} with
                  | None => (Some (Plain "marshal signed envelope"), w)
                  | Some data => inner (with_data data event) w
                  end
              end
          end
      end
  end.

Definition VerifyOutboxSignature (signedEventData : string) (key : PubKey) : result string string :=
  match decode_signed signedEventData with
  | None => Err "unmarshal signed event data"
  | Some e =>
      if negb (Signed e) || bool_decide (Signature e = "") then Err "event is not signed"
      else match verify key (Signature e) with
           | None => Err "signature verification failed"
           | Some text => Ok text
           end
  end.

(** What the publisher behind gets verifies to the payload of the event. *)
Theorem signed_verifies inner event w key kid w1 :
  (∀ e text, encode_signed e = Some text → ∃ e', decode_signed text = Some e' ∧ Signed e' = Signed e ∧ Signature e' = Signature e) →
  (∀ k id text s, sign k id text = Ok s → s ≠ "" ∧ verify (public k) s = Some text) →
  key_of w = (Ok (key, kid), w1) →
  (∃ err, Signer_Publish inner event w = (Some err, w1)) ∨
  ∃ env text data, decode (EventData event) = Some env ∧ payload_text (payload event (e_Data env) None) = Some text ∧
    Signer_Publish inner event w = inner (with_data data event) w1 ∧ VerifyOutboxSignature data (public key) = Ok text.
Proof.
  intros Hjson Hsig Hkey. unfold Signer_Publish. rewrite Hkey. destruct (decode _) as [env|]; [|eauto].
  destruct (payload_text _) as [text|] eqn:Ht; [|eauto]. destruct (sign key kid text) as [s|err] eqn:Hs; [|eauto].
  destruct (encode_signed _) as [data|] eqn:He; [|eauto]. right. exists env, text, data. split_and!; [done..|].
  destruct (Hjson _ _ He) as (e' & Hd & Es & Eg). destruct (Hsig _ _ _ _ Hs) as [Hne Hv].
  unfold VerifyOutboxSignature. rewrite Hd, Es, Eg. cbn. by rewrite bool_decide_eq_false_2, Hv.
Qed.

(** The signature covers the data of the envelope and not its ciphertext: an
    envelope with another JWE verifies as well, to the same payload. *)
Theorem jwe_not_signed text text' key e e' payload :
  decode_signed text = Some e → decode_signed text' = Some e' → Signed e' = Signed e → Signature e' = Signature e →
  VerifyOutboxSignature text key = Ok payload → VerifyOutboxSignature text' key = Ok payload.
Proof. intros Hd Hd' Es Eg. unfold VerifyOutboxSignature. by rewrite Hd, Hd', Es, Eg. Qed.
End signer.
End Signer.

(** ** The service that stores events

    The clock readings of one call are one instant [now]; [id] and [dataID]
    are the identifiers drawn. The database of the outbox is apart from the
    rest of the world; [begin_ok] and [commit_ok] say whether the transaction
    of a call begins and commits. *)
Module Service.
Import Keys Sealing.
Section service.
Context {D W : Type} `{!Json D}.
Context (Encrypt : Z → plaintext (D := D) → string → result go_error string).
Context (GetActiveKey : W → string → result go_error SubscriberKey) (draw : W → Z * W).

Record JWEConfig := { Enabled : bool; has_Keys : bool; Sensitive : option (gset string) }.
Record Service := { jwe : option JWEConfig; ring : option ConsistentHashRing }.
Definition registry (c : JWEConfig) : option (gset string) :=
  match Sensitive c with None => NewSensitiveEventRegistry [] | r => r end.
(** [s.jwe != nil && s.jwe.Enabled && s.jwe.Keys != nil] *)
Definition encrypting (s : Service) : option JWEConfig :=
  match jwe s with Some c => if Enabled c && has_Keys c then Some c else None | None => None end.

(** [extractTenantID]: the string under [tenant_id] in the context. *)
Definition extractTenantID (value : option string) : option string := nonempty value.
Definition tenantIDString (tenantID : option string) : string := default "" tenantID.

Definition set_tenant (tenant : string) (e : Event) : Event :=
  {| ID := ID e; TenantID := tenant; EventType := EventType e; EventData := EventData e; AggregateID := AggregateID e;
     AggregateType := AggregateType e; OccurredAt := OccurredAt e; EventStatus := EventStatus e; RetryCount := RetryCount e;
     EventMaxRetries := EventMaxRetries e; NextRetryAt := NextRetryAt e; ErrorMessage := ErrorMessage e;
     CreatedAt := CreatedAt e; UpdatedAt := UpdatedAt e; Version := Version e; DeduplicationID := DeduplicationID e;
     Partition := Partition e |}.
Definition set_partition (p : Z) (e : Event) : Event :=
  {| ID := ID e; TenantID := TenantID e; EventType := EventType e; EventData := EventData e; AggregateID := AggregateID e;
     AggregateType := AggregateType e; OccurredAt := OccurredAt e; EventStatus := EventStatus e; RetryCount := RetryCount e;
     EventMaxRetries := EventMaxRetries e; NextRetryAt := NextRetryAt e; ErrorMessage := ErrorMessage e;
     CreatedAt := CreatedAt e; UpdatedAt := UpdatedAt e; Version := Version e; DeduplicationID := DeduplicationID e;
     Partition := p |}.
(** The event literals of [buildEvent]. *)
Definition event_of (id : UUID) (now : Time) (eventType data : string) (aggregateID aggregateType dedup : option string)
    (status : Status) (msg : option string) (tenant : string) : Event :=
  {| ID := id; TenantID := tenant; EventType := eventType; EventData := data; AggregateID := aggregateID;
     AggregateType := aggregateType; OccurredAt := now; EventStatus := status; RetryCount := 0; EventMaxRetries := 3;
     NextRetryAt := None; ErrorMessage := msg; CreatedAt := now; UpdatedAt := now; Version := 1; DeduplicationID := dedup;
     Partition := 0 |}.

(** The envelope of [NewEvent]. *)
Definition plain_envelope (now : Time) (dataID eventType : string) (data : D) : EventEnvelope D :=
  {| e_Type := eventType; e_Data := data; e_Timestamp := now; e_ID := dataID; e_Encrypted := false; e_JWE := "";
     e_KeyID := ""; e_SubscriberID := "" |}.
Definition mustMarshalEventData (now : Time) (dataID eventType : string) (data : D) : string :=
  default "" (encode (plain_envelope now dataID eventType data)).

Definition build_subscriber (data : D) (aggregateID aggregateType : option string) : string :=
  let by_aggregate := match aggregateType, aggregateID with
                      | Some t, Some id => if decide (t = "subscriber") then id else ""
                      | _, _ => ""
                      end in
  default by_aggregate (data_subscriber data).

Definition buildEvent (s : Service) (id : UUID) (dataID : string) (now : Time) (eventType : string) (data : D)
    (aggregateID aggregateType dedup tenantID : option string) (w : W) : result go_error Event * W :=
  match encrypting s with
  | None =>
      match encode (plain_envelope now dataID eventType data) with
      | None => (Err (Plain "failed to marshal event data"), w)
      | Some text =>
          (Ok (set_tenant (tenantIDString tenantID)
                 (NewEventWithDeduplication id now eventType text aggregateID aggregateType dedup)), w)
      end
  | Some c =>
      match PrepareEncryptedEventData Encrypt GetActiveKey draw now dataID eventType data
              (build_subscriber data aggregateID aggregateType) (registry c) w with
      | (Err err, w) =>
          if IsPermanentPublishError err then
            (Ok (event_of id now eventType (mustMarshalEventData now dataID eventType data) aggregateID aggregateType dedup
                   StatusFailed (Some (Error err)) (tenantIDString tenantID)), w)
          else (Err err, w)
      | (Ok text, w) =>
          (Ok (event_of id now eventType text aggregateID aggregateType dedup StatusPending None (tenantIDString tenantID)), w)
      end
  end.

(** [storeEventInTransaction]: the row is stored through the repository's own
    connection, not through [tx]. *)
Definition storeEventInTransaction (begin_ok commit_ok : bool) (event : Event) (db : Database) : option go_error * Database :=
  if negb begin_ok then (Some (Plain "failed to begin transaction"), db)
  else match Store event db with
       | (Err _, db) => (Some (Plain "failed to store event in transaction"), db)
       | (Ok _, db) => if commit_ok then (None, db) else (Some (Plain "failed to commit transaction"), db)
       end.

Definition PublishEvent (s : Service) (begin_ok commit_ok : bool) (id : UUID) (dataID : string) (now : Time) (tenant : option string)
    (eventType : string) (data : D) (aggregateID aggregateType : option string) (w : W) (db : Database)
    : option go_error * W * Database :=
  match buildEvent s id dataID now eventType data aggregateID aggregateType None (extractTenantID tenant) w with
  | (Err err, w) => (Some (wrap "failed to create event" err), w, db)
  | (Ok event, w) =>
      let event := match ring s with
                   | Some r => if decide (TenantID event = "") then event else set_partition (GetPartition r (TenantID event)) event
                   | None => event
                   end in
      match storeEventInTransaction begin_ok commit_ok event db with
      | (Some err, db) => (Some (wrap "failed to store event" err), w, db)
      | (None, db) => (None, w, db)
      end
  end.

(** [PublishEventWithTx]: the transaction of the caller is an argument the
    body does not use. *)
Definition PublishEventWithTx (s : Service) (id : UUID) (dataID : string) (now : Time) (tenant : option string)
    (eventType : string) (data : D) (aggregateID aggregateType : option string) (w : W) (db : Database)
    : result go_error Event * W * Database :=
  match buildEvent s id dataID now eventType data aggregateID aggregateType None (extractTenantID tenant) w with
  | (Err err, w) => (Err (wrap "failed to create event" err), w, db)
  | (Ok event, w) =>
      match Store event db with
      | (Err _, db) => (Err (Plain "failed to store event"), w, db)
      | (Ok _, db) => (Ok event, w, db)
      end
  end.

Definition GetPendingEventsCount `{GoRuntime} (now : Time) (db : Database) : result repo_error Z * Database :=
  match GetPendingEvents now 1000 db with
  | (Err e, db) => (Err e, db)
  | (Ok events, db) => (Ok (Z.of_nat (length events)), db)
  end.
Definition Health (ping_ok running : bool) : option string :=
  if negb ping_ok then Some "database health check failed" else if negb running then Some "dispatcher is not running" else None.

(** *** What is stored *)

(** A sensitive event that was built is pending with sealed data, or failed
    with its data in plain text. *)
Lemma buildEvent_cases s c id dataID now eventType data aggID aggType dedup tenant w event w' :
  encrypting s = Some c → IsSensitive (registry c) eventType = true →
  buildEvent s id dataID now eventType data aggID aggType dedup tenant w = (Ok event, w') →
  EventType event = eventType ∧
  ((EventStatus event = StatusPending ∧ ∃ key compact,
     GetActiveKey w (build_subscriber data aggID aggType) = Ok key ∧ Encrypt (draw w).1 (PlainData data) (k_JWK key) = Ok compact ∧
     encode (sealed eventType now dataID compact (k_KeyID key) (build_subscriber data aggID aggType)) = Some (EventData event)) ∨
   (EventStatus event = StatusFailed ∧ EventData event = mustMarshalEventData now dataID eventType data)).
Proof.
  intros He Hs. unfold buildEvent, PrepareEncryptedEventData. rewrite He, Hs. cbn [negb].
  case_decide as Hsid; cbn; [intros ?; simplify_eq; eauto|].
  destruct (GetActiveKey w _) as [key|err] eqn:Hk; cbn; [|intros ?; simplify_eq; eauto].
  destruct (draw w) as [r w1]. cbn [fst]. destruct (Encrypt r _ _) as [compact|err] eqn:Hc.
  - destruct (encode _) as [text|] eqn:Ht; cbn; [|done]. intros ?; simplify_eq. cbn. split; [done|]. left. eauto 10.
  - destruct (IsPermanentPublishError _); intros ?; simplify_eq; cbn; eauto.
Qed.

(** The data of a sensitive event that is stored encrypted never reaches
    its subscriber: what the JWE publisher sends later is an encryption of the
    payload with no data in it, whatever the data was, and the ciphertext made
    at rest is not passed on. *)
Theorem sealed_data_lost s c id dataID now eventType data aggID aggType dedup tenant w event w' inner w2 :
  encrypting s = Some c → IsSensitive (registry c) eventType = true →
  buildEvent s id dataID now eventType data aggID aggType dedup tenant w = (Ok event, w') →
  EventStatus event = StatusPending →
  (∃ err w3, JWE_Publish Encrypt GetActiveKey draw (registry c) inner event w2 = (Some err, w3) ∧ (w3 = w2 ∨ w3 = (draw w2).2)) ∨
  ∃ sid key compact text,
    Encrypt (draw w2).1 (PlainPayload (payload event null (Some sid))) (k_JWK key) = Ok compact ∧
    encode (sealed eventType now (clean dataID) compact (k_KeyID key) sid) = Some text ∧
    JWE_Publish Encrypt GetActiveKey draw (registry c) inner event w2 = inner (with_data text event) (draw w2).2.
Proof.
  intros He Hs Hb Hp. destruct (buildEvent_cases _ _ _ _ _ _ _ _ _ _ _ _ _ _ He Hs Hb) as [Ht [(_ & k & cp & _ & _ & Henc)|[Hf _]]];
    [|by rewrite Hf in Hp].
  destruct (JWE_Publish_cases Encrypt GetActiveKey draw (registry c) inner event w2) as [Hr|(sid & key & env & compact & text & H)];
    [by rewrite Ht|by left|].
  destruct H as (_ & _ & _ & Hd & Hc & Hx & Hj). right. rewrite (decode_encode _ _ Henc) in Hd. simplify_eq. cbn in *.
  rewrite decoded_null in Hc. exists sid, key, compact, text. done.
Qed.

(** Where a subscriber has no usable key, or is not named, the sensitive
    data is stored in plain text, in a failed event that no retry picks up. *)
Theorem keyless_stored_plain s c id dataID now eventType data aggID aggType dedup tenant w event w' :
  encrypting s = Some c → IsSensitive (registry c) eventType = true →
  (∀ key, GetActiveKey w (build_subscriber data aggID aggType) ≠ Ok key) →
  is_Some (encode (plain_envelope now dataID eventType data)) →
  buildEvent s id dataID now eventType data aggID aggType dedup tenant w = (Ok event, w') →
  (∃ env, decode (EventData event) = Some env ∧ e_Data env = decoded data ∧ e_Encrypted env = false) ∧
  ∀ t, selectable t event = false.
Proof.
  intros He Hs Hk [text Ht] Hb.
  destruct (buildEvent_cases _ _ _ _ _ _ _ _ _ _ _ _ _ _ He Hs Hb) as [_ [(_ & k & cp & Hx & _)|[Hf Hd]]];
    [by apply Hk in Hx|].
  split.
  - rewrite Hd. unfold mustMarshalEventData. rewrite Ht. simpl. rewrite (decode_encode _ _ Ht). eauto.
  - intros t. unfold selectable. rewrite Hf. enough (NextRetryAt event = None) as -> by done.
    revert Hb. unfold buildEvent. rewrite He. destruct (PrepareEncryptedEventData _ _ _ _ _ _ _ _ _ _) as [[x|err] w1].
    + intros ?; by simplify_eq.
    + destruct (IsPermanentPublishError err); intros ?; by simplify_eq.
Qed.

(** A failed commit does not undo the event: the call reports an error and
    the row is stored all the same, so that a retry stores the event twice. *)
Theorem failed_commit_stores event db :
  faults db = [] → duplicate event (outbox_events db) = false →
  (storeEventInTransaction true false event db).1 ≠ None ∧
  outbox_events (storeEventInTransaction true false event db).2 !! ID event = Some (scanEvent event).
Proof.
  intros Hf Hd. unfold storeEventInTransaction, Store, call. rewrite Hf. cbn [negb]. rewrite Hd. cbn.
  split; [done|]. by rewrite lookup_insert_eq.
Qed.

(** The partition the ring gives is not stored. *)
Lemma partition_not_stored s id dataID now tenant eventType data aggID aggType w db :
  (∀ i e, outbox_events db !! i = Some e → Partition e = 0) →
  ∀ i e, outbox_events (PublishEvent s true true id dataID now tenant eventType data aggID aggType w db).2 !! i = Some e →
  Partition e = 0.
Proof.
  intros Hz i e. unfold PublishEvent. destruct (buildEvent _ _ _ _ _ _ _ _ _ _ _) as [[ev|err] w1]; cbn; [|by apply Hz].
  set (ev' := match ring s with Some _ => _ | None => _ end). clearbody ev'.
  unfold storeEventInTransaction. cbn [negb]. unfold Store, call.
  assert (∀ fs, outbox_events (set_faults fs db) = outbox_events db) as Hfs by done.
  destruct (faults db) as [|[] fs]; rewrite ?Hfs; [| by apply Hz|]; (destruct (duplicate ev' _); cbn; [by apply Hz|]);
    (intros [[<- <-]|[_ H]]%lookup_insert_Some; [done|by apply (Hz i)]).
Qed.
End service.
End Service.

(** ** Runs *)
Module Runs.
Import Keys Sealing Service.

(** Go maps of strings, with an injective text for envelopes. *)
Definition data : Type := option (list (string * string)).
Definition tuple_of (e : EventEnvelope data) :=
  (e_Type e, e_Data e, e_Timestamp e, e_ID e, e_Encrypted e, e_JWE e, e_KeyID e, e_SubscriberID e).
Definition of_tuple (t : string * data * Time * string * bool * string * string * string) : EventEnvelope data :=
  let '(ty, d, ts, i, en, j, k, s) := t in
  {| e_Type := ty; e_Data := d; e_Timestamp := ts; e_ID := i; e_Encrypted := en; e_JWE := j; e_KeyID := k; e_SubscriberID := s |}.
Definition encode_run (e : EventEnvelope data) : option string := Some (digits (countable.encode (tuple_of e))).
Definition decode_run (s : string) : option (EventEnvelope data) := of_tuple <$> countable.decode (undigits s).
Definition field_run (k : string) (d : data) : option string :=
  match d with Some l => snd <$> List.find (λ p, bool_decide (p.1 = k)) l | None => None end.

Lemma run_roundtrip e : decode_run (digits (countable.encode (tuple_of e))) = Some e.
Proof. unfold decode_run. rewrite undigits_digits, countable.decode_encode. by destruct e. Qed.

#[export] Instance json_run : Json data.
Proof.
  refine {| null := None; field := field_run; decoded := id; clean := id; encode := encode_run; decode := decode_run;
            payload_text := λ p, Some (p_type p) |}; [done..|].
  intros e text [= <-]. rewrite run_roundtrip. by destruct e.
Defined.

(** One subscriber with one key; encryption that hides its plain text; a
    publisher that records what it is given. *)
Definition key1 : SubscriberKey :=
  {| k_ID := 1; k_SubscriberID := "cust-1"; k_KeyID := "kid-1"; k_JWK := "jwk-1"; k_Status := Some SubscriberKeyActive;
     k_ExpiresAt := None; k_CreatedAt := 5; k_UpdatedAt := 5 |}.
Record world := { table : gmap UUID SubscriberKey; rolls : Z; out : list Event }.
Definition lookup_key (w : world) (sid : string) : result go_error SubscriberKey :=
  match @Keys.GetActiveKey reference_runtime 10 sid (table w) with
  | Some k => Ok k
  | None => Err (Plain "missing subscriber encryption key")
  end.
Definition roll (w : world) : Z * world := (rolls w, {| table := table w; rolls := rolls w + 1; out := out w |}).
Definition cipher (r : Z) (p : plaintext (D := data)) (jwk : string) : result go_error string :=
  Ok (match p with PlainData _ => "at-rest:" | PlainPayload p => if decide (p_data p = None) then "empty:" else "full:" end +:+ jwk).
Definition record : Publisher world := λ e w, (None, {| table := table w; rolls := rolls w; out := out w ++ [e] |}%list).

Definition w0 : world := {| table := {[ 1 := key1 ]}; rolls := 0; out := [] |}.
Definition svc : Service := {| jwe := Some {| Enabled := true; has_Keys := true; Sensitive := None |}; ring := None |}.
Definition conf : JWEConfig := {| Enabled := true; has_Keys := true; Sensitive := None |}.
Definition paid : data := Some [("customer_id", "cust-1"); ("amount", "12.50")].
Definition build (d : data) : result go_error Event * world :=
  buildEvent cipher lookup_key roll svc 7 "data-7" 10 "payment.processed" d None None None None w0.
Definition plain_event : Event :=
  NewEvent 8 10 "payment.processed" (default "" (encode (plain_envelope 10 "data-8" "payment.processed" paid))) None None.
Definition no_event : Event := NewEvent 0 0 "" "" None None.
Definition built (r : result go_error Event * world) : Event := match r with (Ok e, _) => e | _ => no_event end.
Lemma built_ok r : is_ok r.1 = true → r = (Ok (built r), r.2).
Proof. by destruct r as [[e|err] w]. Qed.
Definition sent (e : Event) (w : world) : list (option (string * data * string)) :=
  map (λ e, (λ env, (e_JWE env, e_Data env, e_SubscriberID env)) <$> decode_run (EventData e))
    (out (JWE_Publish cipher lookup_key roll (registry conf) record e w).2).

(** An event stored in plain text is sent sealed, with its data in it. *)
Lemma sensitive_never_plain_witness :
  sent plain_event w0 = [Some ("full:jwk-1", None, "cust-1")] ∧
  (refused cipher lookup_key roll (registry conf) record plain_event w0 ∨
   ∃ sid key env compact text,
    sid ≠ "" ∧ ResolveSubscriberID plain_event = sid ∧ lookup_key w0 sid = Ok key ∧ decode (EventData plain_event) = Some env ∧
    cipher (roll w0).1 (PlainPayload (payload plain_event (e_Data env) (Some sid))) (k_JWK key) = Ok compact ∧
    encode {| e_Type := EventType plain_event; e_Data := null; e_Timestamp := e_Timestamp env; e_ID := e_ID env;
              e_Encrypted := true; e_JWE := compact; e_KeyID := k_KeyID key; e_SubscriberID := sid |} = Some text ∧
    JWE_Publish cipher lookup_key roll (registry conf) record plain_event w0 = record (with_data text plain_event) (roll w0).2).
Proof.
  split; [vm_compute; reflexivity|]. unfold refused.
  apply (sensitive_never_plain cipher lookup_key roll (registry conf) record plain_event w0). vm_compute. reflexivity.
Defined.

(** The same event stored encrypted is sent without its data. *)
Lemma sealed_data_lost_witness :
  sent (built (build paid)) w0 = [Some ("empty:jwk-1", None, "cust-1")] ∧
  ((∃ err w3, JWE_Publish cipher lookup_key roll (registry conf) record (built (build paid)) w0 = (Some err, w3) ∧
              (w3 = w0 ∨ w3 = (roll w0).2)) ∨
   ∃ sid key compact text,
    cipher (roll w0).1 (PlainPayload (payload (built (build paid)) null (Some sid))) (k_JWK key) = Ok compact ∧
    encode (sealed "payment.processed" 10 (clean "data-7") compact (k_KeyID key) sid) = Some text ∧
    JWE_Publish cipher lookup_key roll (registry conf) record (built (build paid)) w0 =
      record (with_data text (built (build paid))) (roll w0).2).
Proof.
  split; [vm_compute; reflexivity|].
  apply (sealed_data_lost cipher lookup_key roll svc conf 7 "data-7" 10 "payment.processed" paid None None None None w0
           (built (build paid)) (build paid).2 record w0); vm_compute; reflexivity.
Defined.

(** Data that names a subscriber without a key. *)
Definition stranger : data := Some [("customer_id", "cust-2"); ("amount", "9.99")].
Lemma keyless_stored_plain_witness :
  (∃ env, decode (EventData (built (build stranger))) = Some env ∧ e_Data env = decoded stranger ∧ e_Encrypted env = false) ∧
  ∀ t, selectable t (built (build stranger)) = false.
Proof.
  apply (keyless_stored_plain cipher lookup_key roll svc conf 7 "data-7" 10 "payment.processed" stranger None None None None w0
           (built (build stranger)) (build stranger).2).
  - reflexivity.
  - vm_compute. reflexivity.
  - assert (lookup_key w0 (build_subscriber stranger None None) = Err (Plain "missing subscriber encryption key")) as -> by (vm_compute; reflexivity).
    discriminate.
  - eexists. reflexivity.
  - apply built_ok. vm_compute. reflexivity.
Defined.

Definition empty_db : Database := {| outbox_events := ∅; outbox_publisher_progress := ∅; faults := [] |}.
Lemma failed_commit_stores_witness :
  (storeEventInTransaction true false plain_event empty_db).1 ≠ None ∧
  outbox_events (storeEventInTransaction true false plain_event empty_db).2 !! 8 = Some (scanEvent plain_event).
Proof. apply (failed_commit_stores plain_event empty_db); vm_compute; reflexivity. Defined.
End Runs.
