(* ===== verification/BillingStore.v ===== *)
(** * The repositories of subscriptions and plans

    Models [internal/repositories/subscriptions.go], [plans.go] and [mock.go].
    A table is a finite map from its primary key and a query the function its
    text denotes; [ok] says whether the call reaches the database. An order
    the query leaves open is the runtime's. Scanning a row copies it, nullable
    columns being optional fields. *)
From Stdlib Require Import ZArith Lia Ascii String.
From stdpp Require Import base gmap strings list.
From S2P Require Import Prelude GoStrings.
#[local] Open Scope string_scope.
#[local] Open Scope Z_scope.

(** ** Statements over one table *)
Section table.
Context {A : Type}.
Notation table := (gmap string A).

(** [INSERT ... RETURNING id] *)
Definition insert_row (ok : bool) (what id : string) (row : A) (t : table) : result string unit * table :=
  if negb ok then (Err what, t)
  else match t !! id with
       | Some _ => (Err what, t)
       | None => (Ok tt, <[id := row]> t)
       end.

(** [UPDATE ... WHERE id = $n] and the check of the rows affected. *)
Definition update_one (ok : bool) (what missing id : string) (f : A → A) (t : table) : result string unit * table :=
  if negb ok then (Err what, t)
  else match t !! id with
       | None => (Err missing, t)
       | Some row => (Ok tt, <[id := f row]> t)
       end.

Definition delete_one (ok : bool) (what missing id : string) (t : table) : result string unit * table :=
  if negb ok then (Err what, t)
  else match t !! id with None => (Err missing, t) | Some _ => (Ok tt, delete id t) end.

Definition get_one (ok : bool) (what missing id : string) (t : table) : result string A :=
  if negb ok then Err what else match t !! id with None => Err missing | Some row => Ok row end.

(** [SELECT ... WHERE cond ORDER BY ... LIMIT limit OFFSET offset]; without a
    limit all rows. PostgreSQL refuses negative numbers. *)
Definition select `{GoRuntime} (ok : bool) (what : string) (cond : A → bool) (less : A → A → bool)
    (limit : option (Z * Z)) (t : table) : result string (list A) :=
  if negb ok then Err what
  else
    let rows := sort_slice less (List.filter cond (map snd (map_to_list t))) in
    match limit with
    | None => Ok rows
    | Some (n, off) => if (n <? 0) || (off <? 0) then Err what else Ok (take (Z.to_nat n) (drop (Z.to_nat off) rows))
    end.

Lemma elem_of_rows `{GoRuntime} cond less (t : table) a :
  a ∈ sort_slice less (List.filter cond (map snd (map_to_list t))) ↔ (∃ id, t !! id = Some a) ∧ cond a = true.
Proof.
  rewrite elem_of_sort_slice, list_elem_of_In, filter_In, <- list_elem_of_In.
  change (map snd) with (fmap (M := list) (@snd string A)). rewrite list_elem_of_fmap. split.
  - intros [([id a'] & -> & Hk%elem_of_map_to_list) ?]. eauto.
  - intros [[id Hk] ?]. split; [|done]. exists (id, a). split; [done|]. by apply elem_of_map_to_list.
Qed.

(** Rows come in order and satisfy the condition; all of them when there is no limit. *)
Lemma select_sound `{GoRuntime} ok what cond less limit (t : table) rows :
  strict_weak less → select ok what cond less limit t = Ok rows →
  sorted_by less rows ∧ (∀ a, a ∈ rows → (∃ id, t !! id = Some a) ∧ cond a = true) ∧
  (limit = None → ∀ id a, t !! id = Some a → cond a = true → a ∈ rows).
Proof.
  intros Hw. unfold select. destruct ok; [|done]. cbn [negb]. pose proof (sort_slice_sorted _ less (List.filter cond (map snd (map_to_list t))) Hw) as Hs.
  pose proof (λ a, elem_of_rows cond less t a) as He. revert Hs He. generalize (sort_slice less (List.filter cond (map snd (map_to_list t)))).
  intros l Hs He. destruct limit as [[n off]|].
  - destruct (_ || _); intros ?; simplify_eq. split_and!; [|intros a Ha; apply He|done].
    + apply sorted_by_take. clear He. revert Hs. generalize (Z.to_nat off). induction l as [|x l IH]; intros [|k] Hs; try done.
      cbn [drop]. apply IH. by inversion Hs.
    + rewrite <- (take_drop (Z.to_nat off) l). apply elem_of_app. right. by eapply elem_of_take_inv.
  - intros ?; simplify_eq. split_and!; [done|intros a; apply He|]. intros _ id a Hk Hc. apply He. eauto.
Qed.

(** Reading page after page gives every row once, in order. *)
Lemma take_pages n (l : list A) k : concat (map (λ i, take n (drop (i * n) l)) (seq 0 k)) = take (k * n) l.
Proof.
  induction k as [|k IH]; [done|]. rewrite seq_S, map_app, concat_app, IH. cbn [map concat].
  rewrite app_nil_r, Nat.add_0_l. rewrite <- (take_drop (k * n) l) at 3. rewrite take_app, length_take.
  rewrite (firstn_all2 (take (k * n) l)) by (rewrite length_take; lia). f_equal.
  destruct (decide (k * n ≤ length l)%nat).
  - f_equal. lia.
  - rewrite drop_ge by lia. by rewrite !take_nil.
Qed.

Lemma select_pages `{GoRuntime} what cond less (t : table) (n : Z) rows :
  0 < n → select true what cond less None t = Ok rows →
  ∀ k, (length rows ≤ k * Z.to_nat n)%nat →
  ∃ pages, mapM (λ i, match select true what cond less (Some (n, Z.of_nat i * n)) t with Ok p => Some p | Err _ => None end) (seq 0 k) = Some pages ∧
  concat pages = rows.
Proof.
  intros Hn Hr k Hk. unfold select in *. cbn [negb] in *. simplify_eq. revert Hk. generalize (sort_slice less (List.filter cond (map snd (map_to_list t)))).
  intros l Hk. exists (map (λ i, take (Z.to_nat n) (drop (i * Z.to_nat n) l)) (seq 0 k)). split.
  - apply mapM_Some. apply Forall2_fmap_r. apply Forall_Forall2_diag. apply Forall_forall. intros i _.
    rewrite (proj2 (Z.ltb_ge n 0)) by lia. rewrite (proj2 (Z.ltb_ge (Z.of_nat i * n) 0)) by lia. cbn [orb].
    do 3 f_equal. lia.
  - rewrite take_pages. apply firstn_all2. lia.
Qed.
End table.

(** ** Subscriptions *)
Module Subs.
Record Subscription := {
  ID : string;
  PlanID : string;
  CustomerID : string;
  MerchantID : string;
  Status : string;
  Amount : string;
  Currency : string;
  Interval : string;
  CurrentPeriodStart : Time;
  CurrentPeriodEnd : Time;
  CancelAtPeriodEnd : bool;
  CanceledAt : option Time;
  EndedAt : option Time;
  TrialStart : option Time;
  TrialEnd : option Time;
  CreatedAt : Time;
  UpdatedAt : Time;
}.
Notation subscriptions := (gmap string Subscription).

(** What the [SET] clauses leave of a row and put into it. *)
Definition with_identity (id : string) (now : Time) (s : Subscription) : Subscription :=
  {| ID := id; PlanID := PlanID s; CustomerID := CustomerID s; MerchantID := MerchantID s; Status := Status s;
     Amount := Amount s; Currency := Currency s; Interval := Interval s; CurrentPeriodStart := CurrentPeriodStart s;
     CurrentPeriodEnd := CurrentPeriodEnd s; CancelAtPeriodEnd := CancelAtPeriodEnd s; CanceledAt := CanceledAt s;
     EndedAt := EndedAt s; TrialStart := TrialStart s; TrialEnd := TrialEnd s; CreatedAt := now; UpdatedAt := now |}.
Definition updated (s : Subscription) (now : Time) (r : Subscription) : Subscription :=
  {| ID := ID r; PlanID := PlanID r; CustomerID := CustomerID r; MerchantID := MerchantID r; Status := Status s;
     Amount := Amount r; Currency := Currency r; Interval := Interval r; CurrentPeriodStart := CurrentPeriodStart s;
     CurrentPeriodEnd := CurrentPeriodEnd s; CancelAtPeriodEnd := CancelAtPeriodEnd s; CanceledAt := CanceledAt s;
     EndedAt := EndedAt s; TrialStart := TrialStart s; TrialEnd := TrialEnd s; CreatedAt := CreatedAt r; UpdatedAt := now |}.
Definition with_status (status : string) (now : Time) (r : Subscription) : Subscription :=
  {| ID := ID r; PlanID := PlanID r; CustomerID := CustomerID r; MerchantID := MerchantID r; Status := status;
     Amount := Amount r; Currency := Currency r; Interval := Interval r; CurrentPeriodStart := CurrentPeriodStart r;
     CurrentPeriodEnd := CurrentPeriodEnd r; CancelAtPeriodEnd := CancelAtPeriodEnd r; CanceledAt := CanceledAt r;
     EndedAt := EndedAt r; TrialStart := TrialStart r; TrialEnd := TrialEnd r; CreatedAt := CreatedAt r; UpdatedAt := now |}.
Definition with_cancel (at_end : bool) (now : Time) (r : Subscription) : Subscription :=
  {| ID := ID r; PlanID := PlanID r; CustomerID := CustomerID r; MerchantID := MerchantID r; Status := Status r;
     Amount := Amount r; Currency := Currency r; Interval := Interval r; CurrentPeriodStart := CurrentPeriodStart r;
     CurrentPeriodEnd := CurrentPeriodEnd r; CancelAtPeriodEnd := at_end; CanceledAt := Some now;
     EndedAt := EndedAt r; TrialStart := TrialStart r; TrialEnd := TrialEnd r; CreatedAt := CreatedAt r; UpdatedAt := now |}.

(** [fresh] is the identifier drawn for a subscription without one. *)
Definition Create (ok : bool) (fresh : string) (now : Time) (s : Subscription) (t : subscriptions) : result string unit * subscriptions :=
  let id := if decide (ID s = "") then fresh else ID s in
  insert_row ok "failed to create subscription" id (with_identity id now s) t.
Definition GetByID (ok : bool) (id : string) (t : subscriptions) : result string Subscription :=
  get_one ok "failed to get subscription" "subscription not found" id t.
Definition Update (ok : bool) (now : Time) (s : Subscription) (t : subscriptions) : result string unit * subscriptions :=
  update_one ok "failed to update subscription" "subscription not found" (ID s) (updated s now) t.
Definition UpdateStatus (ok : bool) (now : Time) (id status : string) (t : subscriptions) : result string unit * subscriptions :=
  update_one ok "failed to update subscription status" "subscription not found" id (with_status status now) t.
Definition Cancel (ok : bool) (now : Time) (id : string) (cancelAtPeriodEnd : bool) (t : subscriptions) : result string unit * subscriptions :=
  update_one ok "failed to cancel subscription" "subscription not found" id (with_cancel cancelAtPeriodEnd now) t.

Definition newest (a b : Subscription) : bool := CreatedAt b <? CreatedAt a.
Definition ends_first (a b : Subscription) : bool := CurrentPeriodEnd a <? CurrentPeriodEnd b.
Definition live (s : Subscription) : bool := bool_decide (Status s ∈ ["active"; "trialing"]).
Definition due (now : Time) (s : Subscription) : bool :=
  live s && (CurrentPeriodEnd s <=? now) && (negb (CancelAtPeriodEnd s) || bool_decide (CanceledAt s = None)).

Section queries.
Context `{GoRuntime}.
Definition GetByCustomerID (ok : bool) (customerID : string) (limit offset : Z) : subscriptions → result string (list Subscription) :=
  select ok "failed to get subscriptions" (λ s, bool_decide (CustomerID s = customerID)) newest (Some (limit, offset)).
Definition GetByMerchantID (ok : bool) (merchantID : string) (limit offset : Z) : subscriptions → result string (list Subscription) :=
  select ok "failed to get subscriptions" (λ s, bool_decide (MerchantID s = merchantID)) newest (Some (limit, offset)).
Definition GetByPlanID (ok : bool) (planID : string) (limit offset : Z) : subscriptions → result string (list Subscription) :=
  select ok "failed to get subscriptions" (λ s, bool_decide (PlanID s = planID)) newest (Some (limit, offset)).
Definition GetActiveSubscriptionsByMerchantID (ok : bool) (merchantID : string) : subscriptions → result string (list Subscription) :=
  select ok "failed to get active subscriptions" (λ s, bool_decide (MerchantID s = merchantID) && live s) newest None.
Definition GetSubscriptionsDueForBilling (ok : bool) (now : Time) (limit : Z) : subscriptions → result string (list Subscription) :=
  select ok "failed to get subscriptions due for billing" (due now) ends_first (Some (limit, 0)).

Lemma newest_sw : strict_weak newest.
Proof. unfold newest. split; intros; lia. Qed.
Lemma ends_first_sw : strict_weak ends_first.
Proof. unfold ends_first. split; intros; lia. Qed.

(** What the billing run is given: due subscriptions, the longest overdue
    first, and all of them when they are fewer than asked for. *)
Theorem due_for_billing now limit t rows :
  GetSubscriptionsDueForBilling true now limit t = Ok rows →
  sorted_by ends_first rows ∧ (∀ s, s ∈ rows → (∃ id, t !! id = Some s) ∧ due now s = true) ∧
  (Z.of_nat (length rows) < limit → ∀ id s, t !! id = Some s → due now s = true → s ∈ rows).
Proof.
  intros Hq. destruct (select_sound _ _ _ _ _ _ _ ends_first_sw Hq) as (Hs & He & _). split_and!; [done..|].
  intros Hl id s Hk Hd. revert Hq Hl. unfold GetSubscriptionsDueForBilling, select. cbn [negb].
  destruct (_ || _) eqn:En; [done|]. intros Hq Hl. simplify_eq. rewrite drop_0 in *.
  rewrite length_take in Hl. rewrite firstn_all2 by lia. apply elem_of_rows. eauto.
Qed.

(** A subscription cancelled at once goes on being billed. Cancelling
    changes neither the status nor, without the delay flag, what the billing
    query looks at: an active subscription whose period has ended is due
    before and after; only the cancellation at the end of the period takes it
    off the list, and it stays active for the merchant either way. *)
Theorem immediate_cancel_still_billed now t0 id at_end s t :
  t !! id = Some s → due now s = true →
  ∃ t', Cancel true t0 id at_end t = (Ok tt, t') ∧
    (∀ rows, GetSubscriptionsDueForBilling true now (Z.of_nat (size t)) t' = Ok rows →
       (∃ s', s' ∈ rows ∧ t' !! id = Some s') ↔ at_end = false) ∧
    (∀ rows, GetActiveSubscriptionsByMerchantID true (MerchantID s) t' = Ok rows → ∃ s', s' ∈ rows ∧ t' !! id = Some s').
Proof.
  intros Hk Hd. exists (<[id := with_cancel at_end t0 s]> t). unfold due in Hd.
  apply andb_prop in Hd as [[Hl Hp]%andb_prop _].
  assert (<[id := with_cancel at_end t0 s]> t !! id = Some (with_cancel at_end t0 s)) as Hid by by rewrite lookup_insert_eq.
  split; [unfold Cancel, update_one; cbn; by rewrite Hk|]. split.
  - intros rows Hq. rewrite Hid. split.
    + intros (s' & Hin & [= <-]). destruct (select_sound _ _ _ _ _ _ _ ends_first_sw Hq) as (_ & He & _).
      apply He in Hin as [_ Hdue]. unfold due in Hdue. apply andb_prop in Hdue as [_ Hc].
      destruct at_end; [|done]. apply orb_true_iff in Hc as [Hc|Hc]; [done|]. by apply bool_decide_eq_true in Hc.
    + intros ->. exists (with_cancel false t0 s). split; [|done]. revert Hq.
      unfold GetSubscriptionsDueForBilling, select. cbn [negb]. destruct (_ || _); [done|]. intros [= <-]. rewrite drop_0.
      rewrite firstn_all2; [apply elem_of_rows; split; [eauto|]|].
      * unfold due. unfold live in Hl |- *. cbn. by rewrite Hl, Hp.
      * rewrite (Permutation_length (sort_slice_perm _ _ _)), Nat2Z.id.
        etransitivity; [apply List.filter_length_le|]. rewrite List.length_map, length_map_to_list.
        rewrite map_size_insert_Some; [done|by rewrite Hk].
  - intros rows Hq. exists (with_cancel at_end t0 s). split; [|done].
    destruct (select_sound _ _ _ _ _ _ _ newest_sw Hq) as (_ & _ & Hall). eapply Hall; [done|exact Hid|].
    rewrite bool_decide_eq_true_2 by done. exact Hl.
Qed.

(** Pages of a customer's subscriptions join to the whole list. *)
Theorem customer_pages customerID n t rows :
  0 < n → select true "failed to get subscriptions" (λ s, bool_decide (CustomerID s = customerID)) newest None t = Ok rows →
  ∀ k, (length rows ≤ k * Z.to_nat n)%nat →
  ∃ pages, mapM (λ i, match GetByCustomerID true customerID n (Z.of_nat i * n) t with Ok p => Some p | Err _ => None end) (seq 0 k)
             = Some pages ∧ concat pages = rows.
Proof. apply select_pages. Qed.
End queries.

(** Created rows are read back; an update keeps the identity, owner and price. *)
Lemma create_get fresh now s t t' :
  Create true fresh now s t = (Ok tt, t') →
  ∃ id, GetByID true id t' = Ok (with_identity id now s) ∧ (ID s ≠ "" → id = ID s) ∧ t !! id = None.
Proof.
  unfold Create, insert_row. cbn [negb]. set (id := if decide _ then _ else _). destruct (t !! id) eqn:E; [done|].
  intros [= <-]. exists id. unfold GetByID, get_one. cbn [negb]. rewrite lookup_insert_eq. split_and!; [done| |done].
  intros Hne. unfold id. by rewrite decide_False.
Qed.

Lemma update_keeps_terms ok now s t t' id r :
  Update ok now s t = (Ok tt, t') → t !! id = Some r →
  ∃ r', t' !! id = Some r' ∧ PlanID r' = PlanID r ∧ CustomerID r' = CustomerID r ∧ MerchantID r' = MerchantID r ∧
        Amount r' = Amount r ∧ Currency r' = Currency r ∧ Interval r' = Interval r ∧ CreatedAt r' = CreatedAt r.
Proof.
  unfold Update, update_one. destruct ok; [|done]. cbn [negb]. destruct (t !! ID s) as [x|] eqn:E; [|done]. intros [= <-] Hk.
  destruct (decide (id = ID s)) as [->|Hne].
  - rewrite lookup_insert_eq. simplify_eq. eexists. split; [done|]. done.
  - rewrite lookup_insert_ne by done. eauto 10.
Qed.
End Subs.

(** ** Plans

    The table has a column [deleted_at] that the struct lacks: a row is a plan
    with it. *)
Module Plans.
Record Plan := {
  ID : string;
  Name : string;
  Amount : string;
  Currency : string;
  Interval : string;
  Description : option string;
  MerchantID : string;
  CreatedAt : Time;
  UpdatedAt : Time;
}.
Record plan_row := { plan : Plan; deleted_at : option Time }.
Notation plans := (gmap string plan_row).

Definition stamped (id : string) (now : Time) (p : Plan) : Plan :=
  {| ID := id; Name := Name p; Amount := Amount p; Currency := Currency p; Interval := Interval p;
     Description := Description p; MerchantID := MerchantID p; CreatedAt := now; UpdatedAt := now |}.
Definition revised (p : Plan) (now : Time) (r : Plan) : Plan :=
  {| ID := ID r; Name := Name p; Amount := Amount p; Currency := Currency p; Interval := Interval p;
     Description := Description p; MerchantID := MerchantID r; CreatedAt := CreatedAt r; UpdatedAt := now |}.

Definition Plan_Create (ok : bool) (fresh : string) (now : Time) (p : Plan) (t : plans) : result string unit * plans :=
  let id := if decide (ID p = "") then fresh else ID p in
  insert_row ok "failed to create plan" id {| plan := stamped id now p; deleted_at := None |} t.
Definition Plan_GetByID (ok : bool) (id : string) (t : plans) : result string Plan :=
  match get_one ok "failed to get plan" "plan not found" id t with Ok r => Ok (plan r) | Err e => Err e end.
Definition Plan_Update (ok : bool) (now : Time) (p : Plan) (t : plans) : result string unit * plans :=
  update_one ok "failed to update plan" "plan not found" (ID p)
    (λ r, {| plan := revised p now (plan r); deleted_at := deleted_at r |}) t.
Definition Plan_Delete (ok : bool) (id : string) (t : plans) : result string unit * plans :=
  delete_one ok "failed to delete plan" "plan not found" id t.

Definition rows_of (r : result string (list plan_row)) : result string (list Plan) :=
  match r with Ok l => Ok (map plan l) | Err e => Err e end.
Definition plan_newest (a b : plan_row) : bool := CreatedAt (plan b) <? CreatedAt (plan a).
Section queries.
Context `{GoRuntime}.
Definition Plan_GetByMerchantID (ok : bool) (merchantID : string) (limit offset : Z) (t : plans) : result string (list Plan) :=
  rows_of (select ok "failed to get plans" (λ r, bool_decide (MerchantID (plan r) = merchantID)) plan_newest (Some (limit, offset)) t).
Definition GetActivePlansByMerchantID (ok : bool) (merchantID : string) (t : plans) : result string (list Plan) :=
  rows_of (select ok "failed to get active plans"
             (λ r, bool_decide (MerchantID (plan r) = merchantID) && bool_decide (deleted_at r = None)) plan_newest None t).
(** Without an order. *)
Definition Plan_List (ok : bool) (t : plans) : result string (list Plan) :=
  rows_of (select ok "query" (λ _, true) (λ _ _, false) None t).

(** A plan marked as deleted is gone from the active plans of its merchant
    and still found by its identifier and listed. *)
Lemma deleted_plan_still_read id r t l :
  t !! id = Some r → deleted_at r ≠ None → Plan_List true t = Ok l →
  Plan_GetByID true id t = Ok (plan r) ∧ plan r ∈ l.
Proof.
  intros Hk Hd Hl. split; [unfold Plan_GetByID, get_one; cbn; by rewrite Hk|].
  unfold Plan_List, select in Hl. cbn in Hl. simplify_eq. apply list_elem_of_fmap. exists r. split; [done|].
  apply (elem_of_rows (λ _, true) (λ _ _, false)). eauto.
Qed.

(** The active plans of a merchant are exactly its rows without a deletion mark. *)
Lemma active_plans_exact merchantID t l :
  GetActivePlansByMerchantID true merchantID t = Ok l →
  ∀ p, p ∈ l ↔ ∃ id r, t !! id = Some r ∧ plan r = p ∧ MerchantID p = merchantID ∧ deleted_at r = None.
Proof.
  unfold GetActivePlansByMerchantID, select. cbn [negb rows_of]. intros [= <-] p.
  change (map plan) with (fmap (M := list) plan). rewrite list_elem_of_fmap. setoid_rewrite elem_of_rows.
  setoid_rewrite andb_true_iff. setoid_rewrite bool_decide_eq_true. split.
  - intros (r & -> & [id Hk] & ? & ?). eauto 10.
  - intros (id & r & Hk & <- & ? & ?). exists r. eauto 10.
Qed.
End queries.
End Plans.

(** ** Mock repositories

    [MockSubscriptionRepository] keeps pointers: a stored subscription is
    shared with its caller. Most queries are stubs that answer nothing. *)
Module Mocks.
Import Subs.
Definition Mock_Create (s : Subscription) (m : gmap string Subscription) : gmap string Subscription := <[ID s := s]> m.
Definition Mock_GetByID (id : string) (m : gmap string Subscription) : result string Subscription :=
  match m !! id with Some s => Ok s | None => Err "subscription not found" end.
Definition set_Status (status : string) (s : Subscription) : Subscription := with_status status (UpdatedAt s) s.
Definition Mock_UpdateStatus (id status : string) (m : gmap string Subscription) : result string unit * gmap string Subscription :=
  match m !! id with
  | Some s => (Ok tt, <[id := set_Status status s]> m)
  | None => (Err "subscription not found", m)
  end.
Definition Mock_Cancel (id : string) (at_end : bool) (m : gmap string Subscription) : result string unit * gmap string Subscription :=
  (Ok tt, m).
End Mocks.

(** ** Runs *)
Module Runs.
Import Subs.
Definition sub : Subscription :=
  {| ID := "sub-1"; PlanID := "gold"; CustomerID := "cust-1"; MerchantID := "m-1"; Status := "active"; Amount := "10.00";
     Currency := "USD"; Interval := "month"; CurrentPeriodStart := 0; CurrentPeriodEnd := 100; CancelAtPeriodEnd := false;
     CanceledAt := None; EndedAt := None; TrialStart := None; TrialEnd := None; CreatedAt := 0; UpdatedAt := 0 |}.
Definition table1 : gmap string Subscription := {[ "sub-1" := sub ]}.

Lemma immediate_cancel_still_billed_witness :
  (∃ t', Cancel true 50 "sub-1" false table1 = (Ok tt, t') ∧
    (∀ rows, GetSubscriptionsDueForBilling true 120 1 t' = Ok rows → (∃ s', s' ∈ rows ∧ t' !! "sub-1" = Some s') ↔ false = false) ∧
    (∀ rows, GetActiveSubscriptionsByMerchantID true "m-1" t' = Ok rows → ∃ s', s' ∈ rows ∧ t' !! "sub-1" = Some s')) ∧
  match GetSubscriptionsDueForBilling true 120 1 (Cancel true 50 "sub-1" false table1).2 with
  | Ok rows => map ID rows = ["sub-1"]
  | Err _ => False
  end.
Proof.
  split; [|vm_compute; reflexivity].
  apply (immediate_cancel_still_billed 120 50 "sub-1" false sub table1); vm_compute; reflexivity.
Defined.
End Runs.
