(* ===== verification/SubscriptionApi.v ===== *)
(** * The subscription and plan endpoints

    - [Handlers] models [internal/handlers/subscriptions.go] and [plans.go]
      with the merge-patch helpers of [mergepatch.go] and
      [validator/validator.go], on top of the subscription service and cursor
      pagination;
    - [Hub] models the websocket hub of [subscriptions.go] and the outbox
      publisher that feeds it.

    Tracing is left out; a response is its status with what the body carries.
    Media types and JSON values are parameters. *)
From Stdlib Require Import ZArith Lia Ascii String.
From stdpp Require Import base gmap strings list.
From S2P Require Import Prelude GoStrings Subscriptions Pagination RequestParams Outbox Publishers.
#[local] Open Scope string_scope.
#[local] Open Scope Z_scope.

(** ** Handlers *)
Module Handlers.
Import Subscriptions.Repository Subscriptions.Service Pagination.Cursors.

Record Sub := {
  sub_ID : string;
  sub_PlanID : string;
  sub_Customer : string;
  sub_Status : string;
  sub_Amount : string;
  sub_Interval : string;
  sub_NextBilling : string;
}.
Definition sub_key (s : Sub) : Cursor := {| ID := sub_ID s; SortValue := sub_Customer s |}.

(** A problem document, or a body of type [A] with status 200. *)
Inductive response (A : Type) := Problem (status : Z) (msg : string) | OK (body : A).
Arguments Problem {A} status msg.
Arguments OK {A} body.

Section lists.
Context `{!Wire Cursor}.

(** [limit] is the query parameter when the request has one. *)
Definition limit_text (limit : option string) : string := default "10" limit.
Definition page_limit (text : string) : Z := let n := default 0 (ParseInt text) in if n <=? 0 then 10 else n.

Definition ListSubscriptions (service : option (result string (list Sub))) (limit : option string) (cursorStr : string)
    : response (Page Sub) :=
  match service with
  | None => Problem 503 "subscription service is unavailable"
  | Some list =>
      let text := limit_text limit in
      let refused := if decide (text = "") then None
                     else match ParseInt text with
                          | None => Some "Invalid pagination limit"
                          | Some n => if 100 <? n then Some "Limit exceeds maximum of 100" else None
                          end in
      match refused with
      | Some msg => Problem 400 msg
      | None =>
          match Decode cursorStr with
          | Err _ => Problem 400 "invalid cursor format"
          | Ok cursor =>
              match list with
              | Err _ => Problem 500 "Failed to retrieve subscriptions"
              | Ok all => OK (PaginateSlice sub_key all cursor (page_limit text))
              end
          end
      end
  end.

(** Plans are projected to the fields asked for; [object] is their JSON. *)
Context {Plan : Type} (plan_key : Plan → Cursor) (object : Plan → gmap string string).
Definition PlanAllowedFields : list string := ["id"; "name"; "amount"; "currency"; "interval"; "description"].
Fixpoint project_all (fields : list string) (items : list Plan) : option (list (gmap string string)) :=
  match items with
  | [] => Some []
  | x :: items =>
      match ProjectFields (object x) fields, project_all fields items with
      | Some p, Some ps => Some (p :: ps)
      | _, _ => None
      end
  end.
Definition ListPlans (service : result string (list Plan)) (limit : option string) (cursorStr fieldsStr : string)
    : response (list (gmap string string) * string * bool) :=
  match Decode cursorStr with
  | Err _ => Problem 500 "Failed to retrieve plans"
  | Ok cursor =>
      match ParseFields fieldsStr PlanAllowedFields with
      | Err _ => Problem 400 "invalid fields"
      | Ok fields =>
          match service with
          | Err _ => Problem 500 "failed to load plans"
          | Ok all =>
              let page := PaginateSlice plan_key all cursor (page_limit (limit_text limit)) in
              match fields with
              | Some fields =>
                  match project_all fields (Items page) with
                  | Some items => OK (items, NextCursor page, HasMore page)
                  | None => Problem 500 "Failed to build response"
                  end
              | None => OK (map object (Items page), NextCursor page, HasMore page)
              end
          end
      end
  end.

(** A page of subscriptions has at most a hundred items. *)
Lemma page_at_length {T} (key : T → Cursor) items limit start : (length (Items (page_at key items limit start)) ≤ limit)%nat.
Proof. unfold page_at. cbn. rewrite length_take. destruct (Nat.leb _ _) eqn:E; cbn; [apply Nat.leb_le in E|]; lia. Qed.

Theorem subscription_page_bounded service limit cursor page :
  ListSubscriptions service limit cursor = OK page → (length (Items page) ≤ 100)%nat.
Proof.
  unfold ListSubscriptions. destruct service as [list|]; [|done].
  destruct (if decide (limit_text limit = "") then _ else _) eqn:Er; [done|]. destruct (Decode cursor) as [c|]; [|done].
  destruct list as [all|]; [|done]. intros [= <-].
  assert (1 ≤ page_limit (limit_text limit) ≤ 100) as Hp.
  { unfold page_limit. case_decide as Hd; [rewrite Hd; cbn; lia|].
    destruct (ParseInt (limit_text limit)) as [n|]; [|done]. cbn. destruct (100 <? n) eqn:E; [done|]. case_match; lia. }
  clear Er. unfold PaginateSlice. rewrite (proj2 (Z.leb_gt _ 0)) by lia.
  destruct (bool_decide _ && bool_decide _); [etransitivity; [apply page_at_length|lia]|].
  destruct (find_start _ _ _ _); [|cbn; lia].
  etransitivity; [apply page_at_length|lia].
Qed.
End lists.

(** *** Details and status changes *)
Section service.
Context {S : Type} `{SubscriptionRepository S}.

(** [GetDetail] as the service answers it. *)
Definition detail_status (e : service_error) : Z * string :=
  match e with
  | SvcNotFound => (404, "The requested resource was not found")
  | SvcDeleted => (410, "deleted")
  | SvcForbidden => (403, "forbidden")
  | _ => (500, "Failed to retrieve subscription")
  end.
Definition NewGetSubscriptionHandler (svc : option (string → string → string → result service_error (SubscriptionDetail * list string)))
    (id : string) (tenantID callerID : option string) : response (SubscriptionDetail * list string) :=
  match svc with
  | None => Problem 503 "subscription service is unavailable"
  | Some GetDetail =>
      match GetDetail (default "" tenantID) (default "" callerID) id with
      | Err e => let '(status, msg) := detail_status e in Problem status msg
      | Ok d => OK d
      end
  end.

Definition change_status (e : service_error) : Z * string :=
  match e with
  | SvcNotFound => (404, "subscription not found")
  | SvcDeleted => (410, "subscription deleted")
  | SvcInvalidStatus _ | SvcInvalidTransition _ | SvcUnknownCurrentState _ => (409, "conflict")
  | _ => (500, "failed to change subscription status")
  end.
(** [payload] is the bound status, [None] when the body does not bind. *)
Definition NewChangeSubscriptionStatusHandler (s : S) (id : string) (tenantID callerID payload : option string)
    : S * response SubscriptionStatusChange :=
  let tenant := default "" tenantID in
  if decide (tenant = "") then (s, Problem 401 "tenant context required")
  else match payload with
  | None => (s, Problem 400 "status is required")
  | Some status =>
      if decide (status = "") then (s, Problem 400 "status is required")
      else match ChangeStatus s tenant (default "" callerID) id status with
           | (s, Err e) => let '(code, msg) := change_status e in (s, Problem code msg)
           | (s, Ok change) => (s, OK change)
           end
  end.
End service.

(** *** Merge patches

    [json_string raw] is the string a raw JSON value decodes to. *)
Section patches.
Context (media_type : string → option string) (json_string : string → option string).

Definition parseMediaType (contentType : string) : option string :=
  if decide (TrimSpace contentType = "") then Some "application/json" else media_type contentType.
Definition ValidateMergePatch (payload : gmap string string) (allowedFields : list string) : bool :=
  forallb (λ p, bool_decide (p.1 ∈ allowedFields)) (map_to_list payload).
(** [None]: an error; [Some v]: present with value [v]. A raw message in the map is never nil. *)
Definition decodePatchStringValue (raw : string) : option string := if decide (raw = "null") then Some "" else json_string raw.

(** The two fields a patch of this kind of object echoes. *)
Definition echo (field : string) (payload : gmap string string) : option (list (string * string)) :=
  match payload !! field with
  | None => Some []
  | Some raw => match decodePatchStringValue raw with Some v => Some [(field, v)] | None => None end
  end.
Definition patch (allowed : list string) (first second : string) (id contentType : string) (body : option (gmap string string))
    : response (list (string * string)) :=
  match parseMediaType contentType with
  | None => Problem 400 "unsupported content type"
  | Some mt =>
      if decide (mt = "application/merge-patch+json") then
        match body with
        | None => Problem 400 "invalid request body"
        | Some payload =>
            if ValidateMergePatch payload allowed then
              match echo first payload, echo second payload with
              | Some a, Some b => OK (("id", id) :: a ++ b)%list
              | _, _ => Problem 400 "invalid string value"
              end
            else Problem 400 "unknown field"
        end
      else Problem 415 "unsupported content type"
  end.
Definition PatchSubscription : string → string → option (gmap string string) → response (list (string * string)) :=
  patch ["status"; "plan_id"; "customer"; "amount"; "interval"; "next_billing"] "status" "next_billing".
Definition PatchPlan : string → string → option (gmap string string) → response (list (string * string)) :=
  patch ["name"; "amount"; "currency"; "interval"; "description"] "name" "description".

(** A patch is answered from the request alone: whatever identifier is named,
    known or not, it reports the new status as set, and the fields it does not
    echo are accepted and ignored. *)
Lemma patch_is_echo id id' contentType body fs :
  PatchSubscription id contentType body = OK fs → PatchSubscription id' contentType body = OK (("id", id') :: tl fs).
Proof. unfold PatchSubscription, patch. intros H. repeat case_match; simplify_eq; done. Qed.
End patches.

(** A change is reported exactly when the service made it, and every status
    other than 200 comes with the store the service left. *)
Theorem change_reported {S} `{SubscriptionRepository S} (s s' : S) id tenantID callerID payload r :
  NewChangeSubscriptionStatusHandler s id tenantID callerID payload = (s', r) →
  match r with
  | OK change => ∃ tenant status, tenantID = Some tenant ∧ tenant ≠ "" ∧ payload = Some status ∧
                   ChangeStatus s tenant (default "" callerID) id status = (s', Ok change)
  | Problem code _ =>
      if decide (code = 401) then s' = s ∧ default "" tenantID = ""
      else if decide (code = 400) then s' = s ∧ default "" payload = ""
      else ∃ e, code = (change_status e).1 ∧ ChangeStatus s (default "" tenantID) (default "" callerID) id (default "" payload) = (s', Err e)
  end.
Proof.
  unfold NewChangeSubscriptionStatusHandler. case_decide as Ht; [intros ?; by simplify_eq/=|].
  destruct payload as [status|]; [|intros ?; by simplify_eq/=]. case_decide as Hs; [intros ?; by simplify_eq/=|].
  destruct tenantID as [tenant|]; [|done]. cbn in Ht.
  destruct (ChangeStatus s _ _ id status) as [s1 [change|e]] eqn:Hc.
  - intros ?; simplify_eq/=. eauto 10.
  - destruct (change_status e) as [code msg] eqn:He. intros ?; simplify_eq/=.
    rewrite decide_False by (destruct e; simplify_eq/=; lia). rewrite decide_False by (destruct e; simplify_eq/=; lia).
    exists e. by rewrite He.
Qed.
End Handlers.

(** ** The websocket hub

    One goroutine runs the hub: it takes registrations, departures and
    broadcasts one at a time. A client is its subscription and its channel;
    closing a closed channel and sending on one panics, which is [None].
    [joined] and [received] record when a client was registered, counted in
    broadcasts, and what was put into its channel; [history] what was
    broadcast. *)
Module Hub.
Record SubscriptionEvent := { SubscriptionID : string; ev_Status : string; Timestamp : string; ev_TenantID : string }.

Record WsClient := {
  client_SubscriptionID : string;
  Send : list SubscriptionEvent;
  registered : bool;
  closed : bool;
  joined : nat;
  received : list SubscriptionEvent;
}.
Record WsHub := { clients : gmap nat WsClient; broadcast : list SubscriptionEvent; history : list SubscriptionEvent }.
Definition hub0 : WsHub := {| clients := ∅; broadcast := []; history := [] |}.
Definition set_clients (cs : gmap nat WsClient) (h : WsHub) : WsHub :=
  {| clients := cs; broadcast := broadcast h; history := history h |}.

Definition send_capacity : nat := 256.
Definition broadcast_capacity : nat := 100.

Definition close_client (c : WsClient) : option WsClient :=
  if closed c then None
  else Some {| client_SubscriptionID := client_SubscriptionID c; Send := Send c; registered := false; closed := true;
               joined := joined c; received := received c |}.
Definition enqueue (e : SubscriptionEvent) (c : WsClient) : WsClient :=
  {| client_SubscriptionID := client_SubscriptionID c; Send := (Send c ++ [e])%list; registered := registered c; closed := closed c;
     joined := joined c; received := (received c ++ [e])%list |}.

(** One client of the broadcast loop. *)
Definition wanted (c : WsClient) (e : SubscriptionEvent) : Prop := client_SubscriptionID c = SubscriptionID e.
#[global] Instance wanted_dec c e : Decision (wanted c e).
Proof. unfold wanted. apply _. Defined.
Definition offer (e : SubscriptionEvent) (c : WsClient) : option WsClient :=
  if registered c then
    if decide (wanted c e) then
      if closed c then None
      else if (length (Send c) <? send_capacity)%nat then Some (enqueue e c)
      else close_client c
    else Some c
  else Some c.
Definition deliver (e : SubscriptionEvent) (cs : gmap nat WsClient) : option (gmap nat WsClient) :=
  if decide (map_Forall (λ _ c, is_Some (offer e c)) cs) then Some ((λ c, default c (offer e c)) <$> cs) else None.

(** [GetSubscriptionEvents] with the registration it waits for. *)
Definition register (id : nat) (subscriptionID : string) (h : WsHub) : WsHub :=
  match clients h !! id with
  | Some _ => h
  | None =>
      if decide (subscriptionID = "") then h
      else set_clients (<[id := {| client_SubscriptionID := subscriptionID; Send := []; registered := true; closed := false;
                                  joined := length (history h); received := [] |}]> (clients h)) h
  end.
Definition unregister (id : nat) (h : WsHub) : option WsHub :=
  match clients h !! id with
  | Some c => if registered c then (λ c, set_clients (<[id := c]> (clients h)) h) <$> close_client c else Some h
  | None => Some h
  end.
Definition run_broadcast (h : WsHub) : option WsHub :=
  match broadcast h with
  | [] => Some h
  | e :: rest => (λ cs, {| clients := cs; broadcast := rest; history := (history h ++ [e])%list |}) <$> deliver e (clients h)
  end.
(** [writePump] takes the next event. *)
Definition take_event (c : WsClient) : WsClient :=
  {| client_SubscriptionID := client_SubscriptionID c; Send := tl (Send c); registered := registered c; closed := closed c;
     joined := joined c; received := received c |}.
Definition write_one (id : nat) (h : WsHub) : WsHub := set_clients (alter take_event id (clients h)) h.

(** The [select] of the publisher: a full channel drops the event after a
    second. *)
Definition queue_event (e : SubscriptionEvent) (h : WsHub) : WsHub :=
  if (length (broadcast h) <? broadcast_capacity)%nat
  then {| clients := clients h; broadcast := (broadcast h ++ [e])%list; history := history h |}
  else h.

(** [WebSocketOutboxPublisher.Publish]; [status_of] reads [data.status] of the
    stored text. *)
Definition Publish (status_of : string → option string) (format : Time → string) : Publisher WsHub := λ event h,
  if decide (EventType event = "SubscriptionStatusChanged") then
    match status_of (EventData event) with
    | None => (None, h)
    | Some status =>
        let e := {| SubscriptionID := default "" (AggregateID event); ev_Status := status;
                    Timestamp := format (OccurredAt event); ev_TenantID := "" |} in
        (None, queue_event e h)
    end
  else (None, h).

Inductive op := Register (id : nat) (sub : string) | Unregister (id : nat) | Broadcast | Write (id : nat) | Queue (e : SubscriptionEvent).
Definition apply (o : op) (h : WsHub) : option WsHub :=
  match o with
  | Register id sub => Some (register id sub h)
  | Unregister id => unregister id h
  | Broadcast => run_broadcast h
  | Write id => Some (write_one id h)
  | Queue e => Some (queue_event e h)
  end.
Fixpoint run (ops : list op) (h : WsHub) : option WsHub :=
  match ops with [] => Some h | o :: ops => match apply o h with Some h => run ops h | None => None end end.

(** The events the publisher gets into the channel, when [n] are waiting
    there: those that find fewer than a hundred. *)
Fixpoint admitted (n : nat) (ops : list op) : list SubscriptionEvent :=
  match ops with
  | [] => []
  | Queue e :: ops => if (n <? 100)%nat then e :: admitted (S n) ops else admitted n ops
  | Broadcast :: ops => admitted (pred n) ops
  | _ :: ops => admitted n ops
  end.

(** *** The channels are safe *)
Definition due (c : WsClient) (hist : list SubscriptionEvent) : list SubscriptionEvent := filter (wanted c) (drop (joined c) hist).
Record client_ok (hist : list SubscriptionEvent) (c : WsClient) : Prop := {
  ok_open : registered c = negb (closed c);
  ok_room : (length (Send c) ≤ send_capacity)%nat;
  ok_joined : (joined c ≤ length hist)%nat;
  ok_all : registered c = true → received c = due c hist;
  ok_prefix : received c `prefix_of` due c hist;
  ok_queue : Send c `suffix_of` received c;
}.
Definition hub_ok (h : WsHub) : Prop := map_Forall (λ _ c, client_ok (history h) c) (clients h).

Lemma due_snoc c hist e : (joined c ≤ length hist)%nat →
  due c (hist ++ [e])%list = (due c hist ++ if decide (wanted c e) then [e] else [])%list.
Proof.
  intros Hj. unfold due. rewrite drop_app_le by done. rewrite filter_app. f_equal.
Qed.

Lemma offer_ok hist e c : client_ok hist c → ∃ c', offer e c = Some c' ∧ client_ok (hist ++ [e])%list c'.
Proof.
  intros [Ho Hr Hj Ha Hp Hq]. pose proof (due_snoc c hist e Hj) as Hd. unfold offer.
  assert (length (hist ++ [e])%list = S (length hist)) as Hlen by (rewrite length_app; cbn; lia).
  assert (∀ c', registered c' = negb (closed c') → (length (Send c') ≤ send_capacity)%nat → joined c' = joined c →
            client_SubscriptionID c' = client_SubscriptionID c → received c' = received c → Send c' = Send c →
            (registered c' = true → registered c = true ∧ ¬ wanted c e) → client_ok (hist ++ [e])%list c') as Hkeep.
  { intros c' H1 H2 H3 H4 H5 H6 H7. assert (due c' (hist ++ [e])%list = due c (hist ++ [e])%list) as Hdue.
    { unfold due. rewrite H3. apply list_filter_iff. intros x. unfold wanted. by rewrite H4. }
    split; [done|done|rewrite H3; lia| | |].
    - intros [Hreg Hw]%H7. rewrite H5, Hdue, Hd, decide_False, app_nil_r by done. auto.
    - rewrite H5, Hdue, Hd. by apply prefix_app_r.
    - by rewrite H5, H6. }
  destruct (registered c) eqn:Ereg.
  2: { exists c. split; [done|]. apply Hkeep; try done; by rewrite Ereg. }
  destruct (decide (wanted c e)) as [Hw|Hw].
  2: { exists c. split; [done|]. apply Hkeep; try done; by rewrite Ereg. }
  destruct (closed c) eqn:Ecl; [done|]. destruct (length (Send c) <? send_capacity)%nat eqn:Es.
  - exists (enqueue e c). split; [done|]. apply Nat.ltb_lt in Es.
    assert (received (enqueue e c) = due (enqueue e c) (hist ++ [e])%list) as Hrec.
    { transitivity (due c (hist ++ [e])%list); [|done]. rewrite Hd. cbn [received enqueue]. by rewrite (Ha eq_refl). }
    split; cbn [registered closed Send joined enqueue]; [by rewrite Ereg, Ecl|rewrite length_app; cbn; lia|lia|by intros _| |].
    + by rewrite Hrec.
    + destruct Hq as [k Hk]. exists k. cbn. by rewrite Hk, app_assoc.
  - unfold close_client. rewrite Ecl. eexists. split; [reflexivity|]. by apply Hkeep.
Qed.

Lemma apply_ok o h : hub_ok h → ∃ h', apply o h = Some h' ∧ hub_ok h'.
Proof.
  intros Hh. destruct o as [id sub|id| |id|e]; cbn [apply].
  - eexists. split; [reflexivity|]. unfold register. destruct (clients h !! id) eqn:E; [done|]. case_decide; [done|].
    apply map_Forall_insert_2; [|done]. split; cbn; try done.
    + lia.
    + intros _. unfold due. cbn. by rewrite drop_ge by done.
    + apply prefix_nil.
  - unfold unregister. destruct (clients h !! id) as [c|] eqn:E; [|eauto]. destruct (registered c) eqn:Er; [|eauto].
    pose proof (Hh _ _ E) as [Ho Hr Hj Ha Hp Hq]. unfold close_client. rewrite Er in Ho. destruct (closed c); [done|].
    eexists. split; [reflexivity|]. apply map_Forall_insert_2; [|done]. by split.
  - unfold run_broadcast. destruct (broadcast h) as [|e rest]; [eauto|]. unfold deliver. rewrite decide_True.
    + eexists. split; [reflexivity|]. intros id c. cbn. rewrite lookup_fmap, fmap_Some. intros (c0 & Hc & ->).
      destruct (offer_ok _ e _ (Hh _ _ Hc)) as (c' & Ho & Hok). by rewrite Ho.
    + intros id c Hc. destruct (offer_ok _ e _ (Hh _ _ Hc)) as (c' & Ho & _). by rewrite Ho.
  - eexists. split; [reflexivity|]. intros id' c. cbn. destruct (decide (id = id')) as [->|Hne].
    + rewrite lookup_alter_eq, fmap_Some. intros (c0 & Hc & ->). destruct (Hh _ _ Hc) as [Ho Hr Hj Ha Hp Hq]. split; cbn; try done.
      * destruct (Send c0); cbn in *; lia.
      * destruct Hq as [k Hk]. destruct (Send c0) as [|x l]; cbn; [by exists (received c0); rewrite app_nil_r|].
        exists (k ++ [x])%list. rewrite Hk. by rewrite <- app_assoc.
    + rewrite lookup_alter_ne by done. apply Hh.
  - eexists. split; [reflexivity|]. unfold queue_event. by destruct (_ <? _)%nat.
Qed.

Lemma unregister_queue id h h' : unregister id h = Some h' → history h' = history h ∧ broadcast h' = broadcast h.
Proof.
  unfold unregister. destruct (clients h !! id) as [c|]; [|by intros [= <-]]. destruct (registered c); [|by intros [= <-]].
  destruct (close_client c); [|done]. by intros [= <-].
Qed.

(** The hub broadcasts what was queued, in order, and nothing else. *)
Lemma run_admitted ops : ∀ h h', run ops h = Some h' →
  (history h' ++ broadcast h' = history h ++ broadcast h ++ admitted (length (broadcast h)) ops)%list.
Proof.
  induction ops as [|o ops IH]; intros h h' Hr; cbn [run admitted] in *; [injection Hr as <-; by rewrite app_nil_r|].
  destruct (apply o h) as [h1|] eqn:Ea; [|done]. rewrite (IH _ _ Hr). destruct o as [id sub|id| |id|e]; cbn [apply] in Ea.
  - injection Ea as <-. unfold register. by repeat case_match.
  - by apply unregister_queue in Ea as [-> ->].
  - unfold run_broadcast in Ea. destruct (broadcast h) as [|e rest] eqn:Eb; [injection Ea as <-; by rewrite Eb|].
    destruct (deliver e (clients h)); [|done]. injection Ea as <-. cbn. by rewrite <- !app_assoc.
  - by injection Ea as <-.
  - injection Ea as <-. unfold queue_event, broadcast_capacity. destruct (length (broadcast h) <? 100)%nat; [|done].
    cbn [history broadcast]. rewrite length_app, <- !app_assoc. cbn. by rewrite Nat.add_1_r.
Qed.


(** The publisher never fails: an event that finds the channel full is lost
    and reported as delivered. *)
Lemma full_hub_loses_event status_of format event h :
  (broadcast_capacity ≤ length (broadcast h))%nat → Publish status_of format event h = (None, h).
Proof.
  intros Hl. unfold Publish, queue_event. case_decide; [|done]. destruct (status_of _); [|done].
  by rewrite (proj2 (Nat.ltb_ge _ _) Hl).
Qed.
End Hub.

(** ** Runs *)
Module Runs.
Import Pagination.Cursors Handlers.

(** Cursors of two small words, written with a separator. *)
Definition read_cursor (s : string) : option Cursor :=
  match s with
  | String "c" s => (λ p, {| ID := p.2; SortValue := p.1 |}) <$> countable.decode (undigits s)
  | _ => None
  end.
Lemma read_cursor_c s : read_cursor ("c" +:+ s) = (λ p, {| ID := p.2; SortValue := p.1 |}) <$> countable.decode (undigits s).
Proof. reflexivity. Qed.
#[local] Instance wire : Wire Cursor.
Proof.
  refine {| wire_encode := λ c, "c" +:+ digits (countable.encode (SortValue c, ID c)); wire_decode := read_cursor;
            representable := λ _, True |}.
  - intros c _. rewrite read_cursor_c, undigits_digits, countable.decode_encode. by destruct c.
  - done.
Defined.

Definition sub (id customer : string) : Sub :=
  {| sub_ID := id; sub_PlanID := ""; sub_Customer := customer; sub_Status := ""; sub_Amount := ""; sub_Interval := "";
     sub_NextBilling := "" |}.
(** In the order of the database, which is not that of the cursor. *)
Definition subs : list Sub := [sub "1" "z"; sub "2" "a"; sub "3" "m"].
Definition ids (r : response (Page Sub)) : list string := match r with OK p => map sub_ID (Items p) | _ => [] end.
Definition next (r : response (Page Sub)) : string := match r with OK p => NextCursor p | _ => "" end.

(** The cursor compares customers, and the slice is not sorted by them: the
    page after the first is empty although two subscriptions follow. *)
Example unsorted_pages_lose_items :
  ids (ListSubscriptions (Some (Ok subs)) (Some "1") "") = ["1"] ∧
  (match ListSubscriptions (Some (Ok subs)) (Some "1") "" with OK p => HasMore p | _ => false end) = true ∧
  ids (ListSubscriptions (Some (Ok subs)) (Some "1") (next (ListSubscriptions (Some (Ok subs)) (Some "1") ""))) = [].
Proof. vm_compute. done. Qed.

(** A malformed cursor is the client's error for subscriptions and the
    server's for plans; plans have no largest page. *)
Example cursor_statuses :
  (match ListSubscriptions (Some (Ok subs)) None "x" with Problem s _ => s | _ => 0 end) = 400 ∧
  (match ListPlans (Plan := Sub) sub_key (λ _, ∅) (Ok subs) None "x" "" with Problem s _ => s | _ => 0 end) = 500.
Proof. vm_compute. done. Qed.
End Runs.
