(* ===== verification/PeriodicJobs.v ===== *)
(** * Periodic jobs

    - [Stats]: the counters these jobs share;
    - [FeeRevenue] models [internal/worker/fee_revenue_refresh_job.go];
    - [Analyze] models [internal/worker/analyze_job.go];
    - [Kpi] models [internal/worker/kpi_refresh_job.go];
    - [DeadLetters] models [internal/worker/deadletter_watcher.go];
    - [Archive] models [internal/worker/statement_archive_job.go].

    The loop of a job is one run at the start and one per tick; the runs are
    modelled, the ticker is the sequence of calls. Stores behind interfaces
    are parameters or finite maps; clock readings are arguments. *)
From Stdlib Require Import ZArith Lia Ascii String.
From stdpp Require Import base gmap strings list.
From S2P Require Import Prelude GoStrings GoFloat GoTime.
#[local] Open Scope string_scope.
#[local] Open Scope Z_scope.

(** ** Counters of a job *)
Module Stats.
Record stats := {
  runCount : Z;
  failedCount : Z;
  lastRunTime : Time;
  lastRunError : option string;
  consecutiveErrs : Z;
}.
Definition stats0 : stats :=
  {| runCount := 0; failedCount := 0; lastRunTime := Time.zero; lastRunError := None; consecutiveErrs := 0 |}.
Definition recordError (err : string) (s : stats) : stats :=
  {| runCount := runCount s; failedCount := failedCount s + 1; lastRunTime := lastRunTime s; lastRunError := Some err;
     consecutiveErrs := consecutiveErrs s + 1 |}.
Definition recordSuccess (now : Time) (s : stats) : stats :=
  {| runCount := runCount s + 1; failedCount := failedCount s; lastRunTime := now; lastRunError := None; consecutiveErrs := 0 |}.
Definition Health (what : string) (running : bool) (s : stats) : option string :=
  if negb running then Some (what +:+ " is not running")
  else if 5 <? consecutiveErrs s then Some (what +:+ " has " +:+ Itoa (consecutiveErrs s) +:+ " consecutive errors") else None.
End Stats.
Import Stats.

(** ** The fee-revenue view *)
Module FeeRevenue.
Record FeeRevenueRefreshConfig := {
  PollInterval : Duration;
  RefreshTimeout : Duration;
  ShutdownTimeout : Duration;
  StalenessThreshold : Duration;
}.
Definition DefaultFeeRevenueRefreshConfig : FeeRevenueRefreshConfig :=
  {| PollInterval := Time.Hour; RefreshTimeout := 5 * Time.Minute; ShutdownTimeout := 30 * Time.Second;
     StalenessThreshold := 2 * Time.Hour |}.
Definition withDefaults (c : FeeRevenueRefreshConfig) : FeeRevenueRefreshConfig :=
  let d := DefaultFeeRevenueRefreshConfig in
  let poll := if PollInterval c <=? 0 then PollInterval d else PollInterval c in
  {| PollInterval := poll; RefreshTimeout := if RefreshTimeout c <=? 0 then RefreshTimeout d else RefreshTimeout c;
     ShutdownTimeout := if ShutdownTimeout c <=? 0 then ShutdownTimeout d else ShutdownTimeout c;
     StalenessThreshold := if StalenessThreshold c <=? 0 then wrap64 (2 * poll) else StalenessThreshold c |}.

Record job := { populated : bool; job_stats : stats }.
Definition job0 : job := {| populated := false; job_stats := stats0 |}.

Definition isNotPopulatedErr (err : string) : bool :=
  let msg := ToLower err in
  Contains msg "has not been populated" || (Contains msg "cannot refresh materialized view" && Contains msg "concurrently").

(** [Refresh concurrently] and [MarkRefreshed at] answer an error or none. *)
Section refresh.
Context {W : Type} (Refresh : bool → W → option string * W) (MarkRefreshed : Time → W → option string * W).

Definition doRefresh (j : job) (w : W) : option string * job * W :=
  let done w := (None, {| populated := true; job_stats := job_stats j |}, w) in
  match Refresh (populated j) w with
  | (None, w) => done w
  | (Some err, w) =>
      if populated j && isNotPopulatedErr err then
        match Refresh false w with
        | (Some fb, w) => (Some ("non-concurrent fallback refresh: " +:+ fb), j, w)
        | (None, w) => done w
        end
      else (Some err, j, w)
  end.
Definition refreshOnce (now : Time) (j : job) (w : W) : job * W :=
  match doRefresh j w with
  | (Some err, j, w) => ({| populated := populated j; job_stats := recordError err (job_stats j) |}, w)
  | (None, j, w) =>
      match MarkRefreshed now w with
      | (Some err, w) => ({| populated := populated j; job_stats := recordError ("mark refreshed: " +:+ err) (job_stats j) |}, w)
      | (None, w) => ({| populated := populated j; job_stats := recordSuccess now (job_stats j) |}, w)
      end
  end.
End refresh.

(** [IsStale]: stale, when last refreshed, never refreshed. *)
Definition IsStale (c : FeeRevenueRefreshConfig) (last : result string (option Time)) (now : Time)
    : result string (bool * option Time) :=
  match last with
  | Err e => Err e
  | Ok None => Ok (true, None)
  | Ok (Some at_) => Ok (StalenessThreshold c <? Time.Sub now at_, Some at_)
  end.

(** *** A view of the database

    [filled]: the view has held data. PostgreSQL refuses a concurrent refresh
    of a view that has not, with the message [view_error]. *)
Record view := { filled : bool; refreshed_at : option Time; blocking : nat }.
Definition view_error : string := "ERROR: CONCURRENTLY cannot be used when the materialized view is not populated".
Definition view_refresh (concurrently : bool) (v : view) : option string * view :=
  if concurrently && negb (filled v) then (Some view_error, v)
  else (None, {| filled := true; refreshed_at := refreshed_at v; blocking := if concurrently then blocking v else S (blocking v) |}).
Definition view_mark (at_ : Time) (v : view) : option string * view :=
  (None, {| filled := filled v; refreshed_at := Some at_; blocking := blocking v |}).
Definition refresh_view (now : Time) (s : job * view) : job * view := refreshOnce view_refresh view_mark now s.1 s.2.

(** A refresh of a reachable database succeeds unless the job believes the
    view filled and it is not: the time is recorded and the errors are
    forgotten; readers are blocked exactly when the job had not seen the view
    filled. *)
Theorem refresh_succeeds now j v :
  populated j = false ∨ filled v = true →
  let s := refresh_view now (j, v) in
  filled s.2 = true ∧ refreshed_at s.2 = Some now ∧ populated s.1 = true ∧ consecutiveErrs (job_stats s.1) = 0 ∧
  lastRunError (job_stats s.1) = None ∧ blocking s.2 = (if populated j then blocking v else S (blocking v)).
Proof.
  intros Hpf. unfold refresh_view, refreshOnce, doRefresh. cbn [fst snd]. destruct (populated j) eqn:Ep.
  - destruct Hpf as [?|Hf]; [done|]. assert (view_refresh true v = (None, {| filled := true; refreshed_at := refreshed_at v; blocking := blocking v |})) as ->;
      [|done]. unfold view_refresh. by rewrite Hf.
  - done.
Qed.

(** A view recreated behind the job is never refreshed again: the message
    of the server is not one the fallback recognises, so every refresh is
    tried concurrently and fails, for as many runs as there are. *)
Theorem recreated_view_stuck (times : list Time) j v :
  populated j = true → filled v = false →
  let s := foldl (λ s now, refresh_view now s) (j, v) times in
  s.2 = v ∧ populated s.1 = true ∧ consecutiveErrs (job_stats s.1) = consecutiveErrs (job_stats j) + Z.of_nat (length times).
Proof.
  revert j. induction times as [|now times IH]; intros j Hp Hf; [cbn; split_and!; [done|done|lia]|].
  cbn [foldl length]. assert (refresh_view now (j, v) = ({| populated := true; job_stats := recordError view_error (job_stats j) |}, v)) as ->.
  { unfold refresh_view, refreshOnce, doRefresh. cbn [fst snd]. rewrite Hp. unfold view_refresh at 1. rewrite Hf. cbn [negb andb].
    replace (isNotPopulatedErr view_error) with false by (vm_compute; reflexivity). cbn. by rewrite Hp. }
  destruct (IH {| populated := true; job_stats := recordError view_error (job_stats j) |} eq_refl Hf) as (-> & -> & ->).
  cbn. split_and!; [done|done|lia].
Qed.

(** Staleness as the report sees it, with times that do not overflow. *)
Lemma IsStale_exact c now at_ :
  in_int64 (now - at_) →
  IsStale c (Ok (Some at_)) now = Ok (bool_decide (StalenessThreshold c < now - at_), Some at_).
Proof.
  intros [Hl Hu]. unfold IsStale, Time.Sub. do 2 f_equal. unfold min_int64, max_int64 in *.
  destruct (_ <? _) eqn:E; case_bool_decide; f_equal; lia.
Qed.
End FeeRevenue.

(** ** [ANALYZE] of hot tables *)
Module Analyze.
Record AnalyzeConfig := {
  OutboxInterval : Duration;
  StatementsInterval : Duration;
  SubscriptionsInterval : Duration;
  AnalyzeTimeout : Duration;
  a_ShutdownTimeout : Duration;
  TickInterval : Duration;
}.
Definition DefaultAnalyzeConfig : AnalyzeConfig :=
  {| OutboxInterval := 5 * Time.Minute; StatementsInterval := 15 * Time.Minute; SubscriptionsInterval := 30 * Time.Minute;
     AnalyzeTimeout := 30 * Time.Second; a_ShutdownTimeout := 30 * Time.Second; TickInterval := 30 * Time.Second |}.
Definition positive_or (d x : Duration) : Duration := if x <=? 0 then d else x.
Definition analyze_withDefaults (c : AnalyzeConfig) : AnalyzeConfig :=
  let d := DefaultAnalyzeConfig in
  {| OutboxInterval := positive_or (OutboxInterval d) (OutboxInterval c);
     StatementsInterval := positive_or (StatementsInterval d) (StatementsInterval c);
     SubscriptionsInterval := positive_or (SubscriptionsInterval d) (SubscriptionsInterval c);
     AnalyzeTimeout := positive_or (AnalyzeTimeout d) (AnalyzeTimeout c);
     a_ShutdownTimeout := positive_or (a_ShutdownTimeout d) (a_ShutdownTimeout c);
     TickInterval := positive_or (TickInterval d) (TickInterval c) |}.
Definition tables (c : AnalyzeConfig) : list (string * Duration) :=
  [("outbox_events", OutboxInterval c); ("statements", StatementsInterval c); ("subscriptions", SubscriptionsInterval c)].

(** Counters per table; a missing key reads as zero. [ran] records the calls
    of [Analyze] with the time the check was made. *)
Record job := {
  analyzeCount : gmap string Z;
  analyzeFailed : gmap string Z;
  lastRun : gmap string Time;
  lastError : gmap string string;
  consecutive : gmap string Z;
  ran : list (string * Time);
}.
Definition job0 : job :=
  {| analyzeCount := ∅; analyzeFailed := ∅; lastRun := ∅; lastError := ∅; consecutive := ∅; ran := [] |}.
Definition bump (k : string) (m : gmap string Z) : gmap string Z := <[k := default 0 (m !! k) + 1]> m.

Definition isDue (table : string * Duration) (now : Time) (j : job) : bool :=
  match lastRun j !! table.1 with
  | None => true
  | Some last => table.2 <=? Time.Sub now last
  end.
(** [now] is the clock at the check, [ended] the clock after the statement. *)
Definition analyzeTable (now ended : Time) (outcome : option string) (table : string * Duration) (j : job) : job :=
  match outcome with
  | Some err =>
      {| analyzeCount := analyzeCount j; analyzeFailed := bump table.1 (analyzeFailed j); lastRun := <[table.1 := ended]> (lastRun j);
         lastError := <[table.1 := err]> (lastError j); consecutive := bump table.1 (consecutive j);
         ran := (ran j ++ [(table.1, now)])%list |}
  | None =>
      {| analyzeCount := bump table.1 (analyzeCount j); analyzeFailed := analyzeFailed j; lastRun := <[table.1 := ended]> (lastRun j);
         lastError := delete table.1 (lastError j); consecutive := <[table.1 := 0]> (consecutive j);
         ran := (ran j ++ [(table.1, now)])%list |}
  end.
(** [analyzeDue]: [Analyze name] says when a statement ended and how. *)
Fixpoint due_loop (Analyze : string → Time * option string) (now : Time) (ts : list (string * Duration)) (j : job) : job :=
  match ts with
  | [] => j
  | t :: ts =>
      let j := if isDue t now j then let '(ended, outcome) := Analyze t.1 in analyzeTable now ended outcome t j else j in
      due_loop Analyze now ts j
  end.
Definition analyzeDue (c : AnalyzeConfig) (now : Time) (Analyze : string → Time * option string) (j : job) : job :=
  due_loop Analyze now (tables c) j.
Definition analyze_Health (c : AnalyzeConfig) (running : bool) (j : job) : bool :=
  running && forallb (λ t, default 0 (consecutive j !! t.1) <=? 5) (tables c).

(** What a round does to one table of distinct ones. *)
Lemma due_loop_other A now ts j k : k ∉ ts.*1 →
  lastRun (due_loop A now ts j) !! k = lastRun j !! k ∧
  filter (λ r, r.1 = k) (ran (due_loop A now ts j)) = filter (λ r, r.1 = k) (ran j).
Proof.
  revert j. induction ts as [|t ts IH]; intros j Hk; [done|]. cbn in Hk. apply not_elem_of_cons in Hk as [Hne Hk].
  cbn [due_loop]. destruct (IH (if isDue t now j then let '(e, o) := A t.1 in analyzeTable now e o t j else j) Hk) as [-> ->].
  destruct (isDue t now j); [|done]. destruct (A t.1) as [e [o|]]; cbn; rewrite lookup_insert_ne, filter_app by done;
    rewrite filter_cons_False by done; by rewrite app_nil_r.
Qed.

Lemma due_loop_table A now ts j t : NoDup ts.*1 → t ∈ ts →
  lastRun (due_loop A now ts j) !! t.1 = (if isDue t now j then Some (A t.1).1 else lastRun j !! t.1) ∧
  filter (λ r, r.1 = t.1) (ran (due_loop A now ts j)) =
    (filter (λ r, r.1 = t.1) (ran j) ++ if isDue t now j then [(t.1, now)] else [])%list.
Proof.
  revert j. induction ts as [|u ts IH]; intros j Hnd Ht; [by apply elem_of_nil in Ht|]. cbn in Hnd. apply NoDup_cons in Hnd as [Hu Hnd].
  cbn [due_loop]. apply elem_of_cons in Ht as [->|Ht].
  - destruct (due_loop_other A now ts (if isDue u now j then let '(e, o) := A u.1 in analyzeTable now e o u j else j) u.1 Hu) as [-> ->].
    destruct (isDue u now j); [|by rewrite app_nil_r]. destruct (A u.1) as [e [o|]]; cbn; rewrite lookup_insert_eq, filter_app;
      rewrite filter_cons_True by done; done.
  - assert (u.1 ≠ t.1) as Hne. { intros E. apply Hu. rewrite E. apply list_elem_of_fmap. eauto. }
    destruct (IH (if isDue u now j then let '(e, o) := A u.1 in analyzeTable now e o u j else j) Hnd Ht) as [-> ->].
    assert (∀ j', lastRun j' !! t.1 = lastRun j !! t.1 → isDue t now j' = isDue t now j) as Hd by (intros j' E; unfold isDue; by rewrite E).
    destruct (isDue u now j); [|done]. destruct (A u.1) as [e [o|]];
      (rewrite Hd by (cbn; by rewrite lookup_insert_ne)); cbn; rewrite lookup_insert_ne, filter_app by done;
      rewrite filter_cons_False by done; by rewrite app_nil_r.
Qed.

(** A table is analyzed at the first check and then at every check its
    interval has passed since the last statement ended, failed ones
    included; the other tables do not matter. *)
Theorem analyze_on_schedule c A now j t :
  t ∈ tables c →
  let j' := analyzeDue c now A j in
  let runs := filter (λ r, r.1 = t.1) in
  if (match lastRun j !! t.1 with None => true | Some last => t.2 <=? Time.Sub now last end)
  then lastRun j' !! t.1 = Some (A t.1).1 ∧ runs (ran j') = (runs (ran j) ++ [(t.1, now)])%list
  else lastRun j' !! t.1 = lastRun j !! t.1 ∧ runs (ran j') = runs (ran j).
Proof.
  intros Ht. cbn zeta. destruct (due_loop_table A now (tables c) j t) as [H1 H2]; [|done|].
  { cbn. repeat constructor; set_solver. }
  fold (isDue t now j). unfold analyzeDue. rewrite H1, H2. destruct (isDue t now j); [done|]. by rewrite app_nil_r.
Qed.
End Analyze.

(** ** Business figures *)
Module Kpi.
(** A row of [subscriptions] as the queries see it; amounts in cents. *)
Record kpi_row := {
  k_status : string;
  k_amount_cents : Z;
  k_interval : string;
  k_plan_id : string;
  k_plan_name : option string;
  k_cancelled_at : option Time;
}.
Definition is_active (r : kpi_row) : bool := bool_decide (k_status r = "active").
Definition is_cancelled (r : kpi_row) : bool := bool_decide (k_status r = "cancelled").
Definition count (p : kpi_row → bool) (rows : list kpi_row) : Z := Z.of_nat (length (List.filter p rows)).

Definition ComputeMRRInCents (rows : list kpi_row) : Z := foldr Z.add 0 (map k_amount_cents (List.filter is_active rows)).
(** [GROUP BY plan_id, plan_name], the groups by ascending plan; a group is
    stored under the plan and its name, or the plan twice. *)
Definition group := (string * option string)%type.
Definition group_of (r : kpi_row) : group := (k_plan_id r, k_plan_name r).
Definition groups (rows : list kpi_row) : list group := remove_dups (map group_of (List.filter is_active rows)).
Definition plan_key (g : group) : string * string := (g.1, default g.1 g.2).
Definition CountActiveSubscribersPerPlan (order : list group → list group) (rows : list kpi_row) : gmap (string * string) Z :=
  foldl (λ m g, <[plan_key g := count (λ r, is_active r && bool_decide (group_of r = g)) rows]> m) ∅ (order (groups rows)).
Definition day : Duration := 24 * Time.Hour.
Definition ComputeChurnRate24h (now : Time) (rows : list kpi_row) : float64 :=
  let recent r := is_cancelled r && match k_cancelled_at r with Some t => now - day <=? t | None => false end in
  let base := count (λ r, is_active r || is_cancelled r) rows in
  if base =? 0 then f_of_int 0 else f_div (f_of_int (count recent rows)) (f_of_int base).

(** The gauges, and one computation: all three queries first, then all three
    gauges. *)
Record gauges := { MrrCents : float64; ActiveSubscribersTotal : gmap (string * string) float64; ChurnRate24h : float64 }.
Definition kpi_refreshOnce (now : Time) (mrr : result string Z) (plans : result string (gmap (string * string) Z)) (churn : result string float64)
    (s : stats) (g : gauges) : stats * gauges :=
  match mrr with
  | Err e => (recordError ("compute MRR: " +:+ e) s, g)
  | Ok m =>
      match plans with
      | Err e => (recordError ("count active subscribers: " +:+ e) s, g)
      | Ok p =>
          match churn with
          | Err e => (recordError ("compute churn rate: " +:+ e) s, g)
          | Ok c => (recordSuccess now s, {| MrrCents := f_of_int m; ActiveSubscribersTotal := f_of_int <$> p; ChurnRate24h := c |})
          end
      end
  end.

(** The figures change together or not at all. *)
Lemma gauges_together now mrr plans churn s g :
  let '(s', g') := kpi_refreshOnce now mrr plans churn s g in
  (g' = g ∧ failedCount s' = failedCount s + 1) ∨
  ∃ m p c, mrr = Ok m ∧ plans = Ok p ∧ churn = Ok c ∧ runCount s' = runCount s + 1 ∧
           g' = {| MrrCents := f_of_int m; ActiveSubscribersTotal := f_of_int <$> p; ChurnRate24h := c |}.
Proof. unfold kpi_refreshOnce. destruct mrr, plans, churn; cbn; eauto 10. Qed.

(** The counts of a plan's groups, where no plan is named after itself. *)
Lemma foldl_insert_lookup {K V A} `{Countable K} (key : A → K) (val : A → V) l (m : gmap K V) a :
  a ∈ l → (∀ b, b ∈ l → key b = key a → b = a) → foldl (λ m x, <[key x := val x]> m) m l !! key a = Some (val a).
Proof.
  induction l as [|x l IH] using rev_ind; [by intros ?%elem_of_nil|]. intros Ha Hinj. rewrite foldl_app. cbn.
  destruct (decide (key x = key a)) as [E|Hne].
  - rewrite (Hinj x ltac:(set_solver) E). by rewrite lookup_insert_eq.
  - rewrite lookup_insert_ne by done. apply IH; [|set_solver]. apply elem_of_app in Ha as [|Ha]; [done|].
    apply list_elem_of_singleton in Ha. by subst.
Qed.

Theorem plan_counts_exact order rows g :
  (∀ l, order l ≡ₚ l) → (∀ r, r ∈ rows → k_plan_name r ≠ Some (k_plan_id r)) → g ∈ groups rows →
  CountActiveSubscribersPerPlan order rows !! plan_key g =
    Some (count (λ r, is_active r && bool_decide (group_of r = g)) rows).
Proof.
  intros Ho Hn Hg. unfold CountActiveSubscribersPerPlan.
  assert (∀ h, h ∈ groups rows → h.2 ≠ Some h.1) as Hself.
  { intros h. unfold groups. rewrite elem_of_remove_dups. change (map group_of) with (fmap (M := list) group_of).
    rewrite list_elem_of_fmap. intros (r & -> & Hr). apply list_elem_of_In, filter_In in Hr as [Hr _].
    apply list_elem_of_In in Hr. by apply Hn. }
  apply (foldl_insert_lookup plan_key (λ g, count (λ r, is_active r && bool_decide (group_of r = g)) rows)); [by rewrite Ho|].
  intros h Hh E. rewrite Ho in Hh. pose proof (Hself _ Hh). pose proof (Hself _ Hg). destruct h as [i n], g as [i' n'].
  unfold plan_key in E. cbn in *. destruct n, n'; cbn in *; simplify_eq; done.
Qed.

(** A yearly subscription counts with its whole price as monthly revenue; the
    base of the churn rate holds everyone who ever cancelled; a plan named
    after itself and one without a name share an entry. *)
Definition row (st : string) (cents : Z) (ivl : string) (name : option string) (cancelled : option Time) : kpi_row :=
  {| k_status := st; k_amount_cents := cents; k_interval := ivl; k_plan_id := "p"; k_plan_name := name; k_cancelled_at := cancelled |}.
Example figures :
  ComputeMRRInCents [row "active" 12000 "year" None None] = 12000 ∧
  ComputeChurnRate24h (10 * day) [row "active" 1 "month" None None; row "cancelled" 1 "month" None (Some (9 * day));
    row "cancelled" 1 "month" None (Some 0); row "cancelled" 1 "month" None (Some 0)] = f_lit 1 4 ∧
  CountActiveSubscribersPerPlan id [row "active" 1 "month" None None; row "active" 1 "month" None None;
    row "active" 1 "month" (Some "p") None] !! ("p", "p") = Some 1.
Proof. split_and!; vm_compute; reflexivity. Qed.
End Kpi.

(** ** Dead letters *)
Module DeadLetters.
Record DeadLetterWatcherConfig := { Threshold : Z; Window : Duration; dl_PollInterval : Duration }.
Definition DefaultDeadLetterWatcherConfig : DeadLetterWatcherConfig :=
  {| Threshold := 5; Window := Time.Minute; dl_PollInterval := Time.Minute |}.

(** [SELECT COUNT( * ) ... WHERE updated_at >= now - Window] over the failed events. *)
Definition countDeadLetterInflow (c : DeadLetterWatcherConfig) (now : Time) (updated : list Time) : Z :=
  Z.of_nat (length (List.filter (λ t, now - Window c <=? t) updated)).

Inductive alert := Trigger (count : Z) | Resolve.
(** One check; [ok] says whether the alert service took the call, which the
    watcher only logs. Returns the alert it sent. *)
Definition Run (c : DeadLetterWatcherConfig) (client : bool) (count : result string Z) (ok : bool) (firing : bool) : bool * option alert :=
  match count with
  | Err _ => (firing, None)
  | Ok n =>
      let above := Threshold c <=? n in
      if above && negb firing then (true, if client then Some (Trigger n) else None)
      else if negb above && firing then (false, if client then Some Resolve else None)
      else (firing, None)
  end.
Fixpoint watch (c : DeadLetterWatcherConfig) (firing : bool) (checks : list (result string Z * bool)) : bool * list (alert * bool) :=
  match checks with
  | [] => (firing, [])
  | (count, ok) :: checks =>
      let '(firing, a) := Run c true count ok firing in
      let '(firing, rest) := watch c firing checks in
      (firing, match a with Some a => (a, ok) :: rest | None => rest end)
  end.

(** Alerts alternate, an incident first, and the watcher ends in the state of
    the last count it could read. *)
Fixpoint alternate (firing : bool) (l : list alert) : Prop :=
  match l with
  | [] => True
  | Trigger _ :: l => firing = false ∧ alternate true l
  | Resolve :: l => firing = true ∧ alternate false l
  end.
Definition readable (checks : list (result string Z * bool)) : list Z :=
  omap (λ '(r, _), match r with Ok n => Some n | Err _ => None end) checks.

Theorem alerts_alternate c firing checks :
  alternate firing (watch c firing checks).2.*1 ∧
  (watch c firing checks).1 = match last (readable checks) with Some n => Threshold c <=? n | None => firing end.
Proof.
  revert firing. induction checks as [|[r ok] checks IH]; intros firing; [done|]. cbn [watch].
  destruct (Run c true r ok firing) as [f a] eqn:E. specialize (IH f). destruct (watch c f checks) as [f' rest]. cbn [fst snd] in *.
  destruct IH as [Ha Hl]. unfold Run in E. destruct r as [n|e].
  - assert (f = (Threshold c <=? n)) as Hf by (destruct (Threshold c <=? n), firing; cbn in E; by simplify_eq).
    split.
    + destruct (Threshold c <=? n), firing; simplify_eq/=; done.
    + rewrite Hl. change (readable ((Ok n, ok) :: checks)) with (n :: readable checks). rewrite last_cons. by destruct (last (readable checks)).
  - change (readable ((Err e, ok) :: checks)) with (readable checks). by simplify_eq.
Qed.

(** An incident the alert service refused is not reported again while it lasts. *)
Lemma refused_alert_lost c counts n :
  (∀ m, m ∈ counts → Threshold c ≤ m) → Threshold c ≤ n →
  (watch c false ((Ok n, false) :: map (λ m, (Ok m, true)) counts)).2 = [(Trigger n, false)].
Proof.
  intros Hc Hn. cbn [watch]. unfold Run at 1. rewrite (proj2 (Z.leb_le _ _) Hn). cbn [negb andb].
  assert ((watch c true (map (λ m, (Ok m, true)) counts)).2 = []) as Hw.
  { clear Hn. induction counts as [|m counts IH]; [done|]. cbn [map watch]. unfold Run.
    rewrite (proj2 (Z.leb_le (Threshold c) m)) by (apply Hc; set_solver). cbn [negb andb].
    specialize (IH ltac:(set_solver)). by destruct (watch c true _). }
  destruct (watch c true _). cbn in *. by subst.
Qed.
End DeadLetters.

(** ** Statement archive

    Rows of [statements] with what archiving clears as one optional part. An
    update of the database is applied, refused, or applied with its answer
    lost. *)
Module Archive.
Record StatementArchiveConfig := {
  ArchiveThresholdMonths : Z;
  BatchSize : Z;
  ObjectKeyPrefix : string;
  ar_PollInterval : Duration;
  ArchiveTimeout : Duration;
  ar_ShutdownTimeout : Duration;
}.
Definition DefaultStatementArchiveConfig : StatementArchiveConfig :=
  {| ArchiveThresholdMonths := 24; BatchSize := 100; ObjectKeyPrefix := "statements/archive/"; ar_PollInterval := 24 * Time.Hour;
     ArchiveTimeout := 5 * Time.Minute; ar_ShutdownTimeout := 30 * Time.Second |}.

Record details := {
  period_start : Time;
  period_end : Time;
  issued_at : Time;
  total_amount : string;
  currency : string;
  kind : string;
  st_status : string;
}.
Record row := {
  r_id : string;
  subscription_id : string;
  customer_id : string;
  r_details : option details;
  archived_at : option Time;
  archive_key : option string;
  deleted_at : option Time;
}.
Record payload := { p_id : string; p_subscription : string; p_customer : string; p_details : details; p_archived_at : Time }.

(** The database, the object store and the counters. *)
Record world := { rows : gmap string row; objects : gmap string payload; counters : stats }.
Inductive update_outcome := Applied | Refused | AnswerLost.
(** How the calls for one statement end. *)
Record outcome := { put_ok : bool; update : update_outcome; cleanup_ok : bool }.

Definition eligible (threshold : Time) (r : row) : bool :=
  match r_details r with
  | Some d => bool_decide (archived_at r = None) && bool_decide (deleted_at r = None) && (issued_at d <? threshold) && (period_start d <? threshold)
  | None => false
  end.
Definition issued (r : row) : Time := match r_details r with Some d => issued_at d | None => 0 end.

Definition object_key (c : StatementArchiveConfig) (now : Time) (id : string) : string :=
  let '(y, m, d) := civil now in
  ObjectKeyPrefix c +:+ Itoa y +:+ String "/" (pad2 m (String "/" (pad2 d (String "/" "")))) +:+ id +:+ ".json".

Definition cleared (now : Time) (key : string) (r : row) : row :=
  {| r_id := r_id r; subscription_id := subscription_id r; customer_id := customer_id r; r_details := None;
     archived_at := Some now; archive_key := Some key; deleted_at := deleted_at r |}.
(** [UPDATE ... WHERE id = $3 AND period_start = $4] *)
Definition clear_row (now : Time) (key id : string) (start : Time) (t : gmap string row) : gmap string row :=
  alter (λ r, match r_details r with Some d => if period_start d =? start then cleared now key r else r | None => r end) id t.

Section batch.
Context `{GoRuntime} (c : StatementArchiveConfig).

Definition with_rows (t : gmap string row) (w : world) : world := {| rows := t; objects := objects w; counters := counters w |}.
Definition with_objects (o : gmap string payload) (w : world) : world := {| rows := rows w; objects := o; counters := counters w |}.
Definition count_archived (w : world) : world :=
  {| rows := rows w; objects := objects w;
     counters := {| runCount := runCount (counters w) + 1; failedCount := failedCount (counters w);
                    lastRunTime := lastRunTime (counters w); lastRunError := lastRunError (counters w);
                    consecutiveErrs := consecutiveErrs (counters w) |} |}.

Definition archiveStatement (now : Time) (o : outcome) (r : row) (w : world) : option string * world :=
  match r_details r with
  | None => (None, w)
  | Some d =>
      let key := object_key c now (r_id r) in
      if negb (put_ok o) then (Some "upload to object store", w)
      else
        let w := with_objects (<[key := {| p_id := r_id r; p_subscription := subscription_id r; p_customer := customer_id r;
                                           p_details := d; p_archived_at := now |}]> (objects w)) w in
        let cleanup w := if cleanup_ok o then with_objects (delete key (objects w)) w else w in
        match update o with
        | Applied => (None, count_archived (with_rows (clear_row now key (r_id r) (period_start d) (rows w)) w))
        | Refused => (Some "update database", cleanup w)
        | AnswerLost => (Some "update database", cleanup (with_rows (clear_row now key (r_id r) (period_start d) (rows w)) w))
        end
  end.

Fixpoint archive_loop (now : Time) (os : string → outcome) (stmts : list row) (w : world) : option string * world :=
  match stmts with
  | [] => (None, w)
  | r :: stmts =>
      match archiveStatement now (os (r_id r)) r w with
      | (Some err, w) => (Some ("archive statement " +:+ r_id r +:+ ": " +:+ err), w)
      | (None, w) => archive_loop now os stmts w
      end
  end.

(** The threshold is formatted to seconds. *)
Definition threshold (now : Time) : Time := UnixSeconds (GoTime.Unix (AddDate now 0 (- ArchiveThresholdMonths c) 0)).
Definition candidates (now : Time) (t : gmap string row) : list row :=
  take (Z.to_nat (BatchSize c)) (sort_slice (λ a b, issued a <? issued b)
    (List.filter (eligible (threshold now)) (map snd (map_to_list t)))).
Definition set_counters (s : stats) (w : world) : world := {| rows := rows w; objects := objects w; counters := s |}.
Definition resetErrorCount (s : stats) : stats :=
  {| runCount := runCount s; failedCount := failedCount s; lastRunTime := lastRunTime s; lastRunError := None; consecutiveErrs := 0 |}.
Definition touch (now : Time) (s : stats) : stats :=
  {| runCount := runCount s; failedCount := failedCount s; lastRunTime := now; lastRunError := lastRunError s;
     consecutiveErrs := consecutiveErrs s |}.
Definition runArchiveBatch (now : Time) (query_ok : bool) (os : string → outcome) (w : world) : option string * world :=
  if negb query_ok then (Some "query", w)
  else match candidates now (rows w) with
  | [] => (None, set_counters (resetErrorCount (counters w)) w)
  | stmts =>
      match archive_loop now os stmts w with
      | (Some err, w) => (Some err, w)
      | (None, w) => (None, set_counters (touch now (counters w)) w)
      end
  end.
(** [archiveBatch]; [leader] says whether this process may run. *)
Definition archiveBatch (now : Time) (leader query_ok : bool) (os : string → outcome) (w : world) : world :=
  if negb leader then w
  else match runArchiveBatch now query_ok os w with
  | (Some err, w) => set_counters (recordError ("archive batch: " +:+ err) (counters w)) w
  | (None, w) => w
  end.

(** *** Nothing is lost *)
Definition four_digits (now : Time) : Prop := String.length (Itoa (civil now).1.1) = 4%nat.

Lemma app_same_length (a b s u : string) : String.length a = String.length b → a +:+ s = b +:+ u → s = u.
Proof.
  revert b. induction a as [|x a IH]; intros [|y b] Hl Heq; cbn in *; try done. simplify_eq. by eapply IH.
Qed.

Lemma object_key_inj now now' id id' :
  four_digits now → four_digits now' → object_key c now id = object_key c now' id' → id = id'.
Proof.
  unfold four_digits, object_key. destruct (civil now) as [[y m] d], (civil now') as [[y' m'] d']. cbn [fst]. intros Hy Hy' E.
  apply app_same_length in E; [|done]. apply app_same_length in E; [|by rewrite Hy, Hy'].
  apply app_same_length in E; [|done]. by apply string_app_inj_r in E.
Qed.

(** Relative to the rows [t0] at the start: details are where they were, or
    in the object the row points to. *)
Definition original (t0 : gmap string row) (id : string) (d : details) : Prop := ∃ r, t0 !! id = Some r ∧ r_details r = Some d.
Definition stored (w : world) (id : string) (d : details) (r : row) : Prop :=
  ∃ t p, four_digits t ∧ archive_key r = Some (object_key c t id) ∧ objects w !! object_key c t id = Some p ∧ p_id p = id ∧ p_details p = d.
Record kept (t0 : gmap string row) (w : world) : Prop := {
  kept_id : ∀ id r, rows w !! id = Some r → r_id r = id;
  kept_dom : ∀ id, is_Some (t0 !! id) → is_Some (rows w !! id);
  kept_row : ∀ id r d, rows w !! id = Some r → original t0 id d → r_details r = Some d ∨ (r_details r = None ∧ stored w id d r);
}.

Lemma archiveStatement_kept t0 now o r w :
  kept t0 w → rows w !! r_id r = Some r → update o ≠ AnswerLost → four_digits now →
  kept t0 (archiveStatement now o r w).2 ∧ ∀ id, id ≠ r_id r → rows (archiveStatement now o r w).2 !! id = rows w !! id.
Proof.
  intros [Hid Hdom Hrow] Hr Hu H4. unfold archiveStatement. destruct (r_details r) as [d|] eqn:Ed; [|done].
  destruct (put_ok o); [|done]. cbn [negb]. set (key := object_key c now (r_id r)).
  set (pl := {| p_id := r_id r; p_subscription := _; p_customer := _; p_details := d; p_archived_at := now |}).
  assert (∀ id r1 d1, rows w !! id = Some r1 → original t0 id d1 → r_details r1 = None →
            ∀ objs, (∀ k, k ≠ key → objs !! k = objects w !! k) → stored {| rows := rows w; objects := objs; counters := counters w |} id d1 r1) as Hst.
  { intros id r1 d1 H1 Ho Hn objs Hobjs. destruct (Hrow _ _ _ H1 Ho) as [Hx|[_ (t & p & Ht & Hk & Hp & Hi & Hd)]]; [by rewrite Hn in Hx|].
    exists t, p. split_and!; try done. cbn. rewrite Hobjs; [done|]. intros E. apply object_key_inj in E; [|done..]. subst id. congruence. }
  destruct (update o); [| |done]; cbn [snd].
  - split; [split|].
    + intros id r1. cbn. unfold clear_row. destruct (decide (id = r_id r)) as [->|Hne].
      * rewrite lookup_alter_eq, Hr. cbn. rewrite Ed, Z.eqb_refl. by intros [= <-].
      * rewrite lookup_alter_ne by done. apply Hid.
    + intros id Hi. cbn. unfold clear_row. destruct (decide (id = r_id r)) as [->|Hne].
      * rewrite lookup_alter_eq, Hr. eauto.
      * rewrite lookup_alter_ne by done. by apply Hdom.
    + intros id r1 d1. cbn. unfold clear_row. destruct (decide (id = r_id r)) as [->|Hne].
      * rewrite lookup_alter_eq, Hr. cbn. rewrite Ed, Z.eqb_refl. intros [= <-] Ho. right. split; [done|].
        destruct (Hrow _ _ _ Hr Ho) as [Hd|[Hn _]]; [|by rewrite Hn in Ed]. simplify_eq.
        exists now, pl. split_and!; try done. cbn. by rewrite lookup_insert_eq.
      * rewrite lookup_alter_ne by done. intros H1 Ho. destruct (Hrow _ _ _ H1 Ho) as [Hd|[Hn _]]; [by left|]. right. split; [done|].
        destruct (Hst _ _ _ H1 Ho Hn (<[key := pl]> (objects w))) as (t & p & Hrest); [intros k Hk; by rewrite lookup_insert_ne|].
        exists t, p. exact Hrest.
    + intros id Hne. cbn. unfold clear_row. by rewrite lookup_alter_ne.
  - assert (∀ objs, (∀ k, k ≠ key → objs !! k = objects w !! k) → kept t0 {| rows := rows w; objects := objs; counters := counters w |}) as Hk.
    { intros objs Hobjs. split; [done|done|]. intros id r1 d1 H1 Ho. destruct (Hrow _ _ _ H1 Ho) as [Hd|[Hn _]]; [by left|]. right. split; [done|].
      by apply Hst. }
    destruct (cleanup_ok o); (split; [apply Hk; cbn|done]); intros k Hne; by rewrite ?lookup_delete_ne, lookup_insert_ne by done.
Qed.

Lemma archive_loop_kept t0 now os stmts w :
  four_digits now → (∀ id, update (os id) ≠ AnswerLost) → NoDup (r_id <$> stmts) → (∀ r, r ∈ stmts → rows w !! r_id r = Some r) →
  kept t0 w → kept t0 (archive_loop now os stmts w).2.
Proof.
  intros H4 Hos. revert w. induction stmts as [|r stmts IH]; intros w Hnd Hin Hk; [done|]. cbn [archive_loop].
  cbn in Hnd. apply NoDup_cons in Hnd as [Hr Hnd].
  destruct (archiveStatement_kept t0 now (os (r_id r)) r w Hk (Hin r ltac:(set_solver)) (Hos _) H4) as [Hk' Hsame].
  destruct (archiveStatement now (os (r_id r)) r w) as [[err|] w1]; [done|]. cbn in *. apply IH; [done| |done].
  intros r' Hr'. rewrite Hsame; [by apply Hin; right|]. intros E. apply Hr. rewrite <- E. apply list_elem_of_fmap. eauto.
Qed.

Lemma fmap_sublist {A B} (f : A → B) (l k : list A) : l `sublist_of` k → (f <$> l) `sublist_of` (f <$> k).
Proof. induction 1; cbn; by constructor. Qed.

Lemma candidates_rows now (t : gmap string row) :
  (∀ id r, t !! id = Some r → r_id r = id) →
  NoDup (r_id <$> candidates now t) ∧ ∀ r, r ∈ candidates now t → t !! r_id r = Some r.
Proof.
  intros Hid. unfold candidates. set (l := List.filter _ _).
  assert (∀ r, r ∈ map snd (map_to_list t) → t !! r_id r = Some r) as Hl.
  { change (map snd) with (fmap (M := list) (@snd string row)). intros r. rewrite list_elem_of_fmap.
    intros ([k r'] & -> & Hk%elem_of_map_to_list). cbn in *. by rewrite (Hid _ _ Hk). }
  assert (NoDup (r_id <$> map snd (map_to_list t))) as Hnd.
  { assert (r_id <$> map snd (map_to_list t) = (map_to_list t).*1) as ->; [|apply NoDup_fst_map_to_list].
    change (map snd) with (fmap (M := list) (@snd string row)). rewrite <- list_fmap_compose. apply list_fmap_ext.
    intros i [k r] Hi. apply (list_elem_of_lookup_2 (map_to_list t)), elem_of_map_to_list in Hi. cbn. by apply Hid. }
  assert (l `sublist_of` map snd (map_to_list t)) as Hsub.
  { unfold l. generalize (map snd (map_to_list t)). intros xs. induction xs as [|x xs IH]; cbn; [constructor|].
    destruct (eligible _ x); by constructor. }
  split.
  - assert (NoDup (r_id <$> l)) as Hn by (eapply sublist_NoDup; [done|by apply fmap_sublist]).
    eapply sublist_NoDup; [|apply fmap_sublist, sublist_take]. by rewrite (sort_slice_perm _ _ l).
  - intros r Hr%elem_of_take_inv. rewrite elem_of_sort_slice in Hr. apply Hl.
    unfold l in Hr. apply list_elem_of_In, filter_In in Hr as [Hr _]. by apply list_elem_of_In.
Qed.

(** C24: However many batches run, fail half-way or leave their objects
    behind, no statement is lost: the details of a row are in the row, or in
    the object its archive key names. Rows are stored under their identifiers,
    the clock shows years of four digits, and no update is carried out
    without its answer being seen (see [lost_answer_loses_statement]). *)
Theorem archive_keeps_statements (runs : list (Time * bool * bool * (string → outcome))) w0 :
  (∀ id r, rows w0 !! id = Some r → r_id r = id) →
  (∀ now leader query os, (now, leader, query, os) ∈ runs → four_digits now ∧ ∀ id, update (os id) ≠ AnswerLost) →
  let w := foldl (λ w '(now, leader, query, os), archiveBatch now leader query os w) w0 runs in
  ∀ id r0 d, rows w0 !! id = Some r0 → r_details r0 = Some d →
  ∃ r, rows w !! id = Some r ∧
    (r_details r = Some d ∨
     ∃ key p, archive_key r = Some key ∧ objects w !! key = Some p ∧ p_id p = id ∧ p_details p = d).
Proof.
  intros Hid Hruns w id r0 d Hr0 Hd.
  assert (kept (rows w0) w) as [_ Hdom Hrow].
  { assert (kept (rows w0) w0) as H0.
    { split; [done|done|]. intros id' r' d' Hr' (r1 & Hr1 & Hd1). left. by simplify_eq. }
    unfold w. clear w. revert H0 Hruns. generalize w0 at 2 4. induction runs as [|[[[now leader] query] os] runs IH]; intros w Hk Hruns; [done|].
    cbn [foldl]. apply IH; [|intros; eapply Hruns; by right].
    destruct (Hruns now leader query os ltac:(left)) as [H4 Hos]. unfold archiveBatch. destruct leader; [|done]. cbn [negb].
    unfold runArchiveBatch. destruct query; [|by destruct Hk]. cbn [negb].
    destruct (candidates_rows now (rows w)) as [Hnd Hc]; [by destruct Hk|].
    pose proof (archive_loop_kept (rows w0) now os _ w H4 Hos Hnd Hc Hk) as Hl.
    destruct (candidates now (rows w)) as [|s stmts]; [by destruct Hk|].
    destruct (archive_loop now os (s :: stmts) w) as [[err|] w1]; by destruct Hl. }
  destruct (Hdom id) as [r Hr]; [eauto|]. exists r. split; [done|].
  destruct (Hrow id r d Hr) as [?|[_ (t & p & _ & ? & ? & ? & ?)]]; [by exists r0|by left|eauto 10].
Qed.

(** A successful batch does not clear the count of errors; only a run that
    finds nothing to do does. *)
Lemma success_keeps_errors now os w w' s stmts :
  candidates now (rows w) = s :: stmts → runArchiveBatch now true os w = (None, w') →
  consecutiveErrs (counters w') = consecutiveErrs (counters w).
Proof.
  intros Hc. unfold runArchiveBatch. cbn [negb]. rewrite Hc. clear Hc.
  assert (∀ l w0, consecutiveErrs (counters (archive_loop now os l w0).2) = consecutiveErrs (counters w0)) as Hl.
  { induction l as [|r l IH]; intros w0; [done|]. cbn [archive_loop].
    assert (consecutiveErrs (counters (archiveStatement now (os (r_id r)) r w0).2) = consecutiveErrs (counters w0)) as <-.
    { unfold archiveStatement. destruct (r_details r); [|done]. destruct (put_ok _); [|done]. cbn [negb].
      destruct (update _); [done| |]; destruct (cleanup_ok _); done. }
    destruct (archiveStatement now (os (r_id r)) r w0) as [[err|] w1]; [done|]. apply IH. }
  specialize (Hl (s :: stmts) w). destruct (archive_loop now os (s :: stmts) w) as [[err|] w1]; [done|]. intros [= <-]. exact Hl.
Qed.
End batch.

(** *** Runs *)
Definition paper : details :=
  {| period_start := 0; period_end := 1; issued_at := 2; total_amount := "5.00"; currency := "USD"; kind := "invoice"; st_status := "issued" |}.
Definition old_row (id : string) : row :=
  {| r_id := id; subscription_id := "sub"; customer_id := "cust"; r_details := Some paper; archived_at := None;
     archive_key := None; deleted_at := None |}.
Definition world0 : world := {| rows := {[ "s1" := old_row "s1"; "s2" := old_row "s2" ]}; objects := ∅; counters := stats0 |}.
Definition year2024 : Time := 1704067200 * Time.Second.
Definition fine (_ : string) : outcome := {| put_ok := true; update := Applied; cleanup_ok := true |}.
Definition second_refused (id : string) : outcome :=
  {| put_ok := true; update := if decide (id = "s1") then Applied else Refused; cleanup_ok := true |}.
Definition lost (_ : string) : outcome := {| put_ok := true; update := AnswerLost; cleanup_ok := true |}.
Notation batch os := (archiveBatch (H := reference_runtime) DefaultStatementArchiveConfig year2024 true true os).

Definition two_runs : list (Time * bool * bool * (string → outcome)) :=
  [(year2024, true, true, second_refused); (year2024, true, true, fine)].
Lemma archive_keeps_statements_witness :
  (let w := foldl (λ w '(now, leader, query, os), archiveBatch (H := reference_runtime) DefaultStatementArchiveConfig now leader query os w)
              world0 two_runs in
   ∃ r, rows w !! "s1" = Some r ∧
    (r_details r = Some paper ∨
     ∃ key p, archive_key r = Some key ∧ objects w !! key = Some p ∧ p_id p = "s1" ∧ p_details p = paper)) ∧
  archive_key <$> rows (batch second_refused world0) !! "s1" = Some (Some "statements/archive/2024/01/01/s1.json").
Proof.
  split; [|vm_compute; reflexivity].
  refine (archive_keeps_statements (H := reference_runtime) DefaultStatementArchiveConfig two_runs world0 _ _ "s1" (old_row "s1") paper _ _).
  - intros id r. cbn. intros [[<- <-]|[_ [<- <-]%lookup_singleton_Some]]%lookup_insert_Some; reflexivity.
  - intros now leader query os Hin. repeat (apply elem_of_cons in Hin as [[= -> -> -> ->]|Hin]); [| |by apply elem_of_nil in Hin];
      (split; [vm_compute; reflexivity|]); intros id; [|discriminate]. unfold second_refused. cbn. by case_decide.
  - reflexivity.
  - reflexivity.
Defined.

(** An update that was applied and whose answer was lost: the clean-up
    deletes the object, and the statement is in neither place. *)
Example lost_answer_loses_statement :
  let w := batch lost {| rows := {[ "s1" := old_row "s1" ]}; objects := ∅; counters := stats0 |} in
  r_details <$> rows w !! "s1" = Some None ∧ map_to_list (objects w) = [].
Proof. vm_compute. done. Qed.
End Archive.
