(* ===== verification/HttpPool.v ===== *)
(** * Outbound HTTP

    - [Pool] models [internal/httpx/client.go]: one transport, breaker and DNS
      entry per host;
    - [PagerDuty] models [internal/integrations/pagerduty/client.go].

    The breaker is the interface of [DbAccess]; requests and DNS lookups are
    parameters. *)
From Stdlib Require Import ZArith Lia Ascii String.
From stdpp Require Import base gmap strings list.
From S2P Require Import Prelude GoStrings DbAccess.
#[local] Open Scope string_scope.
#[local] Open Scope Z_scope.

(** ** The pool *)
Module Pool.
Import DbAccess.Breaker.
Record Config := {
  MaxConnsPerHost : Z;
  MaxIdleConnsPerHost : Z;
  IdleConnTimeout : Duration;
  DialTimeout : Duration;
  RequestTimeout : Duration;
  DNSTTL : Duration;
  CircuitMaxFailures : Z;
  CircuitOpenTimeout : Duration;
  CircuitHalfOpenMax : Z;
}.
Definition DefaultConfig : Config :=
  {| MaxConnsPerHost := 64; MaxIdleConnsPerHost := 16; IdleConnTimeout := 90 * Time.Second; DialTimeout := 5 * Time.Second;
     RequestTimeout := 10 * Time.Second; DNSTTL := 30 * Time.Second; CircuitMaxFailures := 5;
     CircuitOpenTimeout := 30 * Time.Second; CircuitHalfOpenMax := 1 |}.
Definition or_default (d x : Z) : Z := if x <=? 0 then d else x.
(** The counters are unsigned, so that [== 0] is [<= 0]. *)
Definition setDefaults (c : Config) : Config :=
  let d := DefaultConfig in
  {| MaxConnsPerHost := or_default (MaxConnsPerHost d) (MaxConnsPerHost c);
     MaxIdleConnsPerHost := or_default (MaxIdleConnsPerHost d) (MaxIdleConnsPerHost c);
     IdleConnTimeout := or_default (IdleConnTimeout d) (IdleConnTimeout c);
     DialTimeout := or_default (DialTimeout d) (DialTimeout c);
     RequestTimeout := or_default (RequestTimeout d) (RequestTimeout c);
     DNSTTL := DNSTTL c;
     CircuitMaxFailures := or_default (CircuitMaxFailures d) (CircuitMaxFailures c);
     CircuitOpenTimeout := or_default (CircuitOpenTimeout d) (CircuitOpenTimeout c);
     CircuitHalfOpenMax := or_default (CircuitHalfOpenMax d) (CircuitHalfOpenMax c) |}.

Section pool.
Context {B : Type} `{CircuitBreaker B} (new_breaker : string → B).
Context (cfg : Config).

(** What is kept of a host. [recycled] counts how often its idle connections
    were dropped. *)
Record hostEntry := {
  breaker : B;
  dnsAddrs : list string;
  dnsResolvedAt : Time;
  reusedCount : Z;
  totalCount : Z;
  recycled : nat;
}.
Definition newHostEntry (host : string) : hostEntry :=
  {| breaker := new_breaker host; dnsAddrs := []; dnsResolvedAt := Time.zero; reusedCount := 0; totalCount := 0; recycled := 0 |}.
Notation pool := (gmap string hostEntry).

(** [p.hostEntry(host)]: found, or made and stored. *)
Definition entry_of (host : string) (p : pool) : hostEntry := default (newHostEntry host) (p !! host).
Definition set_breaker (b : B) (e : hostEntry) : hostEntry :=
  {| breaker := b; dnsAddrs := dnsAddrs e; dnsResolvedAt := dnsResolvedAt e; reusedCount := reusedCount e;
     totalCount := totalCount e; recycled := recycled e |}.
Definition recordConnReuse (reused : bool) (e : hostEntry) : hostEntry :=
  {| breaker := breaker e; dnsAddrs := dnsAddrs e; dnsResolvedAt := dnsResolvedAt e;
     reusedCount := if reused then reusedCount e + 1 else reusedCount e; totalCount := totalCount e + 1; recycled := recycled e |}.

(** Errors of [Do]: no host, an open circuit, or the transport's. *)
Inductive do_error := NoHost | ErrCircuitOpen (host : string) | Transport (msg : string).

(** One request: [exchange] is what the transport makes of it, a status and
    whether the connection was reused. [t1] and [t2] are the clock when it
    starts and ends. *)
Definition Do (host : string) (t1 t2 : Time) (exchange : result string (Z * bool)) (p : pool) : result do_error Z * pool :=
  if decide (host = "") then (Err NoHost, p)
  else
    let e := entry_of host p in
    match beforeRequest t1 (breaker e) with
    | (b, Some _) => (Err (ErrCircuitOpen host), <[host := set_breaker b e]> p)
    | (b, None) =>
        let e := set_breaker (report t2 (is_ok exchange) b) e in
        match exchange with
        | Err msg => (Err (Transport msg), <[host := e]> p)
        | Ok (status, reused) => (Ok status, <[host := recordConnReuse reused e]> p)
        end
    end.

(** *** DNS *)
Definition fresh (now : Time) (e : hostEntry) : bool :=
  (0 <? DNSTTL cfg) && negb (bool_decide (dnsAddrs e = [])) && (Time.Sub now (dnsResolvedAt e) <? DNSTTL cfg).
Definition set_dns (addrs : list string) (now : Time) (drop_idle : bool) (e : hostEntry) : hostEntry :=
  {| breaker := breaker e; dnsAddrs := addrs; dnsResolvedAt := now; reusedCount := reusedCount e; totalCount := totalCount e;
     recycled := if drop_idle then S (recycled e) else recycled e |}.
Definition changed (addrs : list string) (e : hostEntry) : bool :=
  match head (dnsAddrs e), head addrs with Some a, Some b => bool_decide (a ≠ b) | _, _ => false end.
(** [resolveHost] with the recycling of [dialContext]; [lookup] is what the
    resolver answers. The result is the address to dial, [None] for the one
    the standard dialer finds. *)
Definition dial (now : Time) (lookup : option (list string)) (e : hostEntry) : option string * hostEntry :=
  if fresh now e then (head (dnsAddrs e), e)
  else match lookup with
       | None | Some [] => (None, e)
       | Some addrs => (head addrs, set_dns addrs now (changed addrs e) e)
       end.

(** *** Hosts do not share *)
Record request := { rq_host : string; rq_start : Time; rq_end : Time; rq_exchange : result string (Z * bool) }.
Definition serve (p : pool) (r : request) : pool := (Do (rq_host r) (rq_start r) (rq_end r) (rq_exchange r) p).2.
Definition answer (p : pool) (r : request) : result do_error Z := (Do (rq_host r) (rq_start r) (rq_end r) (rq_exchange r) p).1.

Lemma Do_entry host t1 t2 x p : ∃ f, ∀ q, p !! host = q !! host →
  (Do host t1 t2 x q).1 = (Do host t1 t2 x p).1 ∧ (Do host t1 t2 x q).2 !! host = f.
Proof.
  exists ((Do host t1 t2 x p).2 !! host). intros q E. unfold Do, entry_of. rewrite E. case_decide; [done|].
  destruct (beforeRequest _ _) as [b [e|]]; cbn; [by rewrite !lookup_insert_eq|].
  destruct x as [[st re]|msg]; cbn; by rewrite !lookup_insert_eq.
Qed.

Lemma Do_other host t1 t2 x p g : g ≠ host → (Do host t1 t2 x p).2 !! g = p !! g.
Proof.
  intros Hne. unfold Do. case_decide; [done|]. destruct (beforeRequest _ _) as [b [e|]]; cbn; [by rewrite lookup_insert_ne|].
  destruct x as [[st re]|msg]; cbn; by rewrite lookup_insert_ne.
Qed.

Lemma serve_projection g rs p q :
  p !! g = q !! g → foldl serve p rs !! g = foldl serve q (filter (λ r, rq_host r = g) rs) !! g.
Proof.
  revert p q. induction rs as [|r rs IH]; intros p q E; [done|]. cbn [foldl]. rewrite filter_cons. case_decide as Hr.
  - cbn [foldl]. apply IH. unfold serve. subst g. destruct (Do_entry (rq_host r) (rq_start r) (rq_end r) (rq_exchange r) p) as [f Hf].
    destruct (Hf p eq_refl) as [_ ->]. by destruct (Hf q E) as [_ ->].
  - apply IH. unfold serve. by rewrite Do_other.
Qed.

(** C26: Hosts do not disturb each other. Whatever requests the pool served,
    the answer to a request, its breaker state and its counters are those of a
    pool that only ever served requests to the same host. *)
Theorem hosts_isolated rs r :
  let mine := filter (λ q, rq_host q = rq_host r) rs in
  answer (foldl serve ∅ rs) r = answer (foldl serve ∅ mine) r ∧
  serve (foldl serve ∅ rs) r !! rq_host r = serve (foldl serve ∅ mine) r !! rq_host r.
Proof.
  cbn zeta. pose proof (serve_projection (rq_host r) rs ∅ ∅ eq_refl) as E.
  destruct (Do_entry (rq_host r) (rq_start r) (rq_end r) (rq_exchange r) (foldl serve ∅ rs)) as [f Hf].
  destruct (Hf _ E) as [E1 E2]. destruct (Hf _ eq_refl) as [_ E3]. split; [exact (eq_sym E1)|]. by transitivity f.
Qed.

(** *** What is dialled *)

(** A cached address is used only while it is younger than the TTL; otherwise
    the resolver's, which is then stored with the time, dropping idle
    connections exactly when the first address changed; a failed lookup
    leaves the entry as it was. *)
Theorem dial_exact now lookup e :
  in_int64 (now - dnsResolvedAt e) →
  match dial now lookup e with
  | (Some ip, e') =>
      (e' = e ∧ head (dnsAddrs e) = Some ip ∧ now < dnsResolvedAt e + DNSTTL cfg) ∨
      (∃ addrs, lookup = Some addrs ∧ head addrs = Some ip ∧ dnsAddrs e' = addrs ∧ dnsResolvedAt e' = now ∧
        recycled e' = (match head (dnsAddrs e) with Some a => if decide (a = ip) then recycled e else S (recycled e) | None => recycled e end))
  | (None, e') => e' = e ∧ (lookup = None ∨ lookup = Some [])
  end.
Proof.
  intros [Hl Hu]. unfold min_int64, max_int64 in *. unfold dial. destruct (fresh now e) eqn:Ef.
  - unfold fresh in Ef. apply andb_prop in Ef as [[Ht Hn]%andb_prop Hs]. destruct (dnsAddrs e) as [|a l] eqn:Ea; [done|].
    left. split_and!; [done|done|]. unfold Time.Sub in Hs. unfold min_int64, max_int64 in Hs. lia.
  - destruct lookup as [[|a l]|]; [auto| |auto]. right. exists (a :: l). split_and!; try done. cbn. unfold changed.
    destruct (head (dnsAddrs e)) as [a'|]; cbn; [|done]. case_bool_decide; case_decide; done.
Qed.

(** Reuse is counted within the requests that were answered. *)
Lemma reuse_ratio host t1 t2 x p :
  (∀ h e, p !! h = Some e → 0 ≤ reusedCount e ≤ totalCount e) →
  ∀ h e, (Do host t1 t2 x p).2 !! h = Some e → 0 ≤ reusedCount e ≤ totalCount e.
Proof.
  intros Hp h e. unfold Do. case_decide; [by apply Hp|].
  assert (0 ≤ reusedCount (entry_of host p) ≤ totalCount (entry_of host p)) as He.
  { unfold entry_of. destruct (p !! host) eqn:E; cbn; [by eapply Hp|lia]. }
  destruct (beforeRequest _ _) as [b [err|]]; cbn; [intros [[<- <-]|[_ ?]]%lookup_insert_Some; [done|by eapply Hp]|].
  destruct x as [[st re]|msg]; cbn; (intros [[<- <-]|[_ ?]]%lookup_insert_Some; [cbn|by eapply Hp]); [|done]. destruct re; lia.
Qed.
End pool.
End Pool.

(** ** PagerDuty *)
Module PagerDuty.
Definition maxRetries : nat := 3.
Definition retryDelay : Duration := Time.Second.

Inductive send_error := MarshalFailed | Cancelled | ClientError (status : Z) | AllFailed (last : option string).
Inductive attempt_result := HttpError (msg : string) | Status (code : Z).

(** The attempts [attempt .. maxRetries - 1]: [responses] is what the server
    answers each, [cancelled k] whether the context ends during the wait
    before attempt [k]. Returns the waits made as well. *)
Fixpoint send_loop (rounds attempt : nat) (delay : Duration) (last : option string) (cancelled : nat → bool)
    (respond : nat → attempt_result) : result send_error unit * list Duration * nat :=
  match rounds with
  | O => (Err (AllFailed last), [], O)
  | S rounds =>
      let waited := if (0 <? attempt)%nat then [delay] else [] in
      if (0 <? attempt)%nat && cancelled attempt then (Err Cancelled, waited, O)
      else
        let delay := if (0 <? attempt)%nat then wrap64 (delay * 2) else delay in
        let again msg := let '(r, ws, n) := send_loop rounds (S attempt) delay (Some msg) cancelled respond in (r, (waited ++ ws)%list, S n) in
        match respond attempt with
        | HttpError msg => again ("pagerduty: http error: " +:+ msg)
        | Status code =>
            if 500 <=? code then again ("pagerduty: server error " +:+ Itoa code)
            else if 400 <=? code then (Err (ClientError code), waited, 1%nat)
            else (Ok tt, waited, 1%nat)
        end
  end.
Definition send (marshalled : bool) (cancelled : nat → bool) (respond : nat → attempt_result)
    : result send_error unit * list Duration * nat :=
  if marshalled then send_loop maxRetries 0 retryDelay None cancelled respond else (Err MarshalFailed, [], 0%nat).

Definition retryable (a : attempt_result) : bool := match a with HttpError _ => true | Status code => 500 <=? code end.
Definition accepted (a : attempt_result) : bool := match a with HttpError _ => false | Status code => code <? 400 end.

(** An alert is sent at most three times, after waits of one and two seconds;
    it is delivered exactly when one of the three answers is below 400 and
    every earlier one was a server error or no answer. *)
Theorem send_exact respond :
  let '(r, waits, n) := send true (λ _, false) respond in
  (n ≤ 3)%nat ∧ waits = take (n - 1) [Time.Second; 2 * Time.Second] ∧
  (is_ok r = true ↔ ∃ k, (k < 3)%nat ∧ accepted (respond k) = true ∧ ∀ j, (j < k)%nat → retryable (respond j) = true) ∧
  (∀ code, r = Err (ClientError code) → 400 ≤ code < 500).
Proof.
  assert ((∃ k, (k < 3)%nat ∧ accepted (respond k) = true ∧ ∀ j, (j < k)%nat → retryable (respond j) = true) ↔
          accepted (respond 0%nat) = true ∨ (accepted (respond 1%nat) = true ∧ retryable (respond 0%nat) = true) ∨
          (accepted (respond 2%nat) = true ∧ retryable (respond 0%nat) = true ∧ retryable (respond 1%nat) = true)) as Hex.
  { split.
    - intros (k & Hk & Ha & Hr). destruct k as [|[|[|k]]]; [by left|right; left|right; right|lia]; split_and!; try done; apply Hr; lia.
    - intros [?|[[??]|(?&?&?)]]; [exists 0%nat|exists 1%nat|exists 2%nat]; (split_and!; [lia|done|]);
        intros [|[|j]] ?; try lia; done. }
  unfold send, maxRetries, send_loop. cbn [Nat.ltb Nat.leb andb]. unfold retryable, accepted in *.
  destruct (respond 0%nat) as [m0|c0], (respond 1%nat) as [m1|c1], (respond 2%nat) as [m2|c2];
  repeat match goal with |- context [?a <=? ?b] => destruct (a <=? b) eqn:? end;
  (split_and!; [lia|reflexivity|rewrite Hex; cbn; intuition (try done; try lia)|intros code Hc; simplify_eq; try lia]).
Qed.
End PagerDuty.
