(* ===== verification/GoRegexp.v ===== *)
(** * Regular expressions

    The part of Go's [regexp] package the program uses: expressions, the
    leftmost-first match with its groups, and [ReplaceAllString]. Texts are
    bytes; a class that holds every character outside ASCII holds every byte
    above 127, so that runs of such characters are the same runs of bytes.
    Case-insensitive letters also fold to the two characters outside ASCII
    that Unicode folds with [s] and [k].

    [matches] is the meaning of an expression, and [run_sound] and
    [run_complete] relate the backtracking matcher to it. *)
From Stdlib Require Import ZArith Lia Ascii String.
From stdpp Require Import base gmap strings list.
From S2P Require Import Prelude GoStrings.
#[local] Open Scope string_scope.
#[local] Open Scope Z_scope.

Inductive re :=
| Eps
| Class (f : ascii → bool)
| Seq (r1 r2 : re)
| Alt (r1 r2 : re)
| Star (r : re)
| Group (i : nat) (r : re)
| TextStart
| TextEnd
| WordBoundary.

(** ** Classes and derived forms *)
Definition between (lo hi : ascii) (c : ascii) : bool := (code lo <=? code c) && (code c <=? code hi).
Definition is_digit : ascii → bool := between "0" "9".
Definition is_alpha (c : ascii) : bool := between "a" "z" c || between "A" "Z" c.
Definition is_alnum (c : ascii) : bool := is_alpha c || is_digit c.
Definition is_word (c : ascii) : bool := is_alnum c || bool_decide (c = "_"%char).
(** [\s]: tab, line feed, form feed, carriage return and space. *)
Definition is_space (c : ascii) : bool := bool_decide (code c ∈ [9; 10; 12; 13; 32]).
Definition one_of (cs : string) (c : ascii) : bool := contains_char c cs.
Definition none (c : ascii → bool) (x : ascii) : bool := negb (c x).

Definition Plus (r : re) : re := Seq r (Star r).
Definition Opt (r : re) : re := Alt r Eps.
(** [r{1,n+1}]: as many as there are. *)
Fixpoint upto (n : nat) (r : re) : re :=
  match n with O => Eps | S n => Opt (Seq r (upto n r)) end.
Fixpoint lit (s : string) : re :=
  match s with EmptyString => Eps | String c s => Seq (Class (λ x, bool_decide (x = c))) (lit s) end.

(** The characters outside ASCII that fold with a letter. *)
Definition folded (c : ascii) : option string :=
  if bool_decide (lower_char c = "s"%char) then Some (bytes [197; 191]%nat)
  else if bool_decide (lower_char c = "k"%char) then Some (bytes [226; 132; 170]%nat)
  else None.
Definition ci_char (c : ascii) : re :=
  let base := Class (λ x, bool_decide (lower_char x = lower_char c)) in
  match folded c with Some b => Alt base (lit b) | None => base end.
(** [(?i)s] for a literal text. *)
Fixpoint ci (s : string) : re :=
  match s with EmptyString => Eps | String c s => Seq (ci_char c) (ci s) end.
(** [(?i)[f]] for a class that holds the letters. *)
Definition ci_class (f : ascii → bool) : re :=
  Alt (Class f) (Alt (lit (bytes [197; 191]%nat)) (lit (bytes [226; 132; 170]%nat))).
Fixpoint alts (l : list re) : re :=
  match l with [] => Class (λ _, false) | [r] => r | r :: l => Alt r (alts l) end.

(** ** The matcher *)
Notation groups := (gmap nat string).
Definition word_at (c : option ascii) : bool := match c with Some c => is_word c | None => false end.
Definition next_char (s : string) : option ascii := match s with String c _ => Some c | EmptyString => None end.
Definition taken (s s' : string) : string := substring 0 (String.length s - String.length s') s.

Section run.
Context {X : Type}.
(** [run r p s g k]: [p] is the character before the position, [s] the text
    after it, [k] what has to match next. *)
Fixpoint run (r : re) (p : option ascii) (s : string) (g : groups) (k : option ascii → string → groups → option X) : option X :=
  match r with
  | Eps => k p s g
  | Class f => match s with String c s' => if f c then k (Some c) s' g else None | EmptyString => None end
  | Seq r1 r2 => run r1 p s g (λ p s g, run r2 p s g k)
  | Alt r1 r2 => match run r1 p s g k with Some x => Some x | None => run r2 p s g k end
  | Star r =>
      (fix loop (n : nat) p s g : option X :=
        match n with
        | O => k p s g
        | S n =>
            match run r p s g (λ p' s' g', if (String.length s' <? String.length s)%nat then loop n p' s' g' else None) with
            | Some x => Some x
            | None => k p s g
            end
        end) (String.length s) p s g
  | Group i r => run r p s g (λ p' s' g', k p' s' (<[i := taken s s']> g'))
  | TextStart => match p with None => k p s g | Some _ => None end
  | TextEnd => match s with EmptyString => k p s g | String _ _ => None end
  | WordBoundary => if eqb (word_at p) (word_at (next_char s)) then None else k p s g
  end.
End run.

(** The match that starts here: the groups, and where the text goes on. *)
Definition match_here (r : re) (p : option ascii) (s : string) : option (option ascii * string * groups) :=
  run r p s ∅ (λ p' s' g, Some (p', s', g)).
Fixpoint find (r : re) (p : option ascii) (s : string) : bool :=
  match match_here r p s with
  | Some _ => true
  | None => match s with String c s' => find r (Some c) s' | EmptyString => false end
  end.
Definition MatchString (r : re) (s : string) : bool := find r None s.
(** [strings.EqualFold(s, l)] for a literal [l]: the same folding. *)
Definition EqualFold (s l : string) : bool := bool_decide (is_Some (match_here (Seq (ci l) TextEnd) None s)).

(** [ReplaceAllString] and [ReplaceAllStringFunc] for an expression that does
    not match the empty text: [f] makes the replacement of a match from its
    text and groups. *)
Fixpoint replace_from (fuel : nat) (r : re) (f : string → groups → string) (p : option ascii) (s : string) : string :=
  match fuel with
  | O => s
  | S fuel =>
      match s with
      | EmptyString => EmptyString
      | String c s1 =>
          match match_here r p s with
          | Some (p', s', g) =>
              if (String.length s' <? String.length s)%nat then f (taken s s') g +:+ replace_from fuel r f p' s'
              else String c (replace_from fuel r f (Some c) s1)
          | None => String c (replace_from fuel r f (Some c) s1)
          end
      end
  end.
Definition ReplaceAll (r : re) (f : string → groups → string) (s : string) : string :=
  replace_from (String.length s) r f None s.

(** ** The meaning of an expression *)
Inductive matches : re → option ascii → string → option ascii → string → Prop :=
| m_eps p s : matches Eps p s p s
| m_class f p c s : f c = true → matches (Class f) p (String c s) (Some c) s
| m_seq r1 r2 p s p1 s1 p2 s2 : matches r1 p s p1 s1 → matches r2 p1 s1 p2 s2 → matches (Seq r1 r2) p s p2 s2
| m_left r1 r2 p s p' s' : matches r1 p s p' s' → matches (Alt r1 r2) p s p' s'
| m_right r1 r2 p s p' s' : matches r2 p s p' s' → matches (Alt r1 r2) p s p' s'
| m_stop r p s : matches (Star r) p s p s
| m_more r p s p1 s1 p2 s2 :
    matches r p s p1 s1 → (String.length s1 < String.length s)%nat → matches (Star r) p1 s1 p2 s2 → matches (Star r) p s p2 s2
| m_group i r p s p' s' : matches r p s p' s' → matches (Group i r) p s p' s'
| m_start s : matches TextStart None s None s
| m_end p : matches TextEnd p EmptyString p EmptyString
| m_word p s : word_at p ≠ word_at (next_char s) → matches WordBoundary p s p s.
Create HintDb regexp.
#[export] Hint Constructors matches : regexp.

Lemma matches_seq r1 r2 p s p' s' : matches (Seq r1 r2) p s p' s' → ∃ p1 s1, matches r1 p s p1 s1 ∧ matches r2 p1 s1 p' s'.
Proof. inversion 1; subst. eauto. Qed.
Lemma matches_class f p s p' s' : matches (Class f) p s p' s' → ∃ c, s = String c s' ∧ f c = true.
Proof. inversion 1; subst. eauto. Qed.
Lemma matches_end p s p' s' : matches TextEnd p s p' s' → s = EmptyString.
Proof. by inversion 1. Qed.
Lemma matches_start p s p' s' : matches TextStart p s p' s' → s = s'.
Proof. by inversion 1. Qed.

Lemma matches_app r p s p' s' : matches r p s p' s' → ∃ t, s = t +:+ s'.
Proof.
  induction 1 as [p s|f p c s Hc|r1 r2 p s p1 s1 p2 s2 _ [t1 ->] _ [t2 ->]|????????| ???????? |r p s|r p s p1 s1 p2 s2 _ [t1 ->] _ _ [t2 ->]|???????|s|p|p s _];
    try done; try (by exists EmptyString).
  - by exists (String c EmptyString).
  - exists (t1 +:+ t2). by rewrite string_app_assoc.
  - exists (t1 +:+ t2). by rewrite string_app_assoc.
Qed.

(** The loop of a star, named. *)
Section star.
Context {X : Type} (r : re) (k : option ascii → string → groups → option X).
Fixpoint star_loop (n : nat) p s g : option X :=
  match n with
  | O => k p s g
  | S n =>
      match run r p s g (λ p' s' g', if (String.length s' <? String.length s)%nat then star_loop n p' s' g' else None) with
      | Some x => Some x
      | None => k p s g
      end
  end.
End star.

Lemma taken_app t s : taken (t +:+ s) s = t.
Proof.
  unfold taken. rewrite length_append. replace (String.length t + String.length s - String.length s)%nat with (String.length t) by lia.
  induction t as [|c t IH]; [by destruct s|]. exact (f_equal (String c) IH).
Qed.

(** The matcher finds only matches, and its groups hold parts of the text. *)
Definition grouped (s : string) (g g' : groups) : Prop := ∀ i t, g' !! i = Some t → g !! i = Some t ∨ part_of t s.
Lemma grouped_refl s g : grouped s g g.
Proof. intros i t. auto. Qed.
Lemma grouped_trans t s g g1 g2 : grouped (t +:+ s) g g1 → grouped s g1 g2 → grouped (t +:+ s) g g2.
Proof.
  intros H1 H2 i u [H|H]%H2; [by apply H1|]. right. eapply part_of_trans; [exact H|]. exists t, EmptyString. by rewrite append_nil_r.
Qed.
#[export] Hint Resolve grouped_refl : regexp.

Lemma run_sound {X} r p s g (k : option ascii → string → groups → option X) x :
  run r p s g k = Some x → ∃ p' s' g', matches r p s p' s' ∧ grouped s g g' ∧ k p' s' g' = Some x.
Proof.
  revert p s g k x. induction r as [|f|r1 IH1 r2 IH2|r1 IH1 r2 IH2|r IH|i r IH| | |]; intros p s g k x; cbn [run].
  - eauto 10 with regexp.
  - destruct s as [|c s]; [done|]. destruct (f c) eqn:E; [|done]. eauto 10 with regexp.
  - intros (p1 & s1 & g1 & H1 & G1 & (p2 & s2 & g2 & H2 & G2 & Hk)%IH2)%IH1. exists p2, s2, g2.
    destruct (matches_app _ _ _ _ _ H1) as [t ->]. split_and!; [by eapply m_seq|by eapply grouped_trans|done].
  - destruct (run r1 p s g k) as [y|] eqn:E; intros H.
    + simplify_eq. apply IH1 in E as (?&?&?&?&?&?). eauto 10 with regexp.
    + apply IH2 in H as (?&?&?&?&?&?). eauto 10 with regexp.
  - change (star_loop r k (String.length s) p s g = Some x → ∃ p' s' g', matches (Star r) p s p' s' ∧ grouped s g g' ∧ k p' s' g' = Some x).
    generalize (String.length s) as n. intros n. revert p s g. induction n as [|n IHn]; intros p s g; cbn [star_loop].
    + eauto 10 with regexp.
    + match goal with |- match ?e with _ => _ end = _ → _ => destruct e as [y|] eqn:E end; intros H; [|eauto 10 with regexp].
      simplify_eq. apply IH in E as (p1 & s1 & g1 & H1 & G1 & E). destruct (_ <? _)%nat eqn:El; [|done].
      apply Nat.ltb_lt in El. apply IHn in E as (p2 & s2 & g2 & H2 & G2 & Hk). exists p2, s2, g2.
      split_and!; [by eapply m_more| |done]. destruct (matches_app _ _ _ _ _ H1) as [t ->]. by eapply grouped_trans.
  - intros (p' & s' & g' & H & G & Hk)%IH. exists p', s', (<[i := taken s s']> g'). split_and!; [by constructor| |done].
    intros j t [[_ <-]|[_ Hj]]%lookup_insert_Some; [right|by apply G]. destruct (matches_app _ _ _ _ _ H) as [u ->].
    rewrite taken_app. by exists EmptyString, s'.
  - destruct p; [done|]. eauto 10 with regexp.
  - destruct s; [|done]. eauto 10 with regexp.
  - destruct (eqb _ _) eqn:E; [done|]. apply eqb_false_iff in E. eauto 10 with regexp.
Qed.

(** And it finds one whenever there is a match that its continuation
    accepts. *)
Lemma run_complete {X} r p s p' s' g (k : option ascii → string → groups → option X) :
  matches r p s p' s' → (∀ g', is_Some (k p' s' g')) → is_Some (run r p s g k).
Proof.
  revert p s p' s' g k. induction r as [|f|r1 IH1 r2 IH2|r1 IH1 r2 IH2|r IH|i r IH| | |]; intros p s p' s' g k Hm Hk;
    inversion Hm as [|? ? ? ? Hf| | | | | | | | | ? ? Hw]; subst; cbn [run]; eauto.
  - by rewrite Hf.
  - destruct (run r1 p s g k) eqn:E; [eauto|]. exfalso. eapply (IH1 p s p' s' g k) in Hk; [|done]. destruct Hk. congruence.
  - destruct (run r1 p s g k); eauto.
  - change (is_Some (star_loop r k (String.length s') p' s' g)). destruct (String.length s'); cbn; [done|].
    destruct (run _ _ _ _ _); eauto.
  - change (is_Some (star_loop r k (String.length s) p s g)).
    assert (∀ n g, (String.length s ≤ n)%nat → is_Some (star_loop r k n p s g)) as Hall; [|by apply Hall].
    clear g H H0 H1. remember (Star r) as r' eqn:Er. induction Hm as [| | | | |r0 p s|r0 p s p3 s3 p4 s4 Hm3 _ Hl3 Hs IHs| | | |]; simplify_eq.
    + intros [|n] g _; cbn; [done|]. destruct (run _ _ _ _ _); eauto.
    + intros [|n] g Hn; [lia|]. cbn [star_loop].
      destruct (IH p s p3 s3 g (λ p' s' g', if (String.length s' <? String.length s)%nat then star_loop r k n p' s' g' else None)) as [x ->]; [done| |eauto].
      intros g'. rewrite (proj2 (Nat.ltb_lt _ _) Hl3). apply IHs; [done|done|lia].
  - destruct (eqb _ _) eqn:E; [|done]. apply eqb_prop in E. done.
Qed.

(** An expression matches here exactly when it has a match here. *)
Lemma match_here_iff r p s : is_Some (match_here r p s) ↔ ∃ p' s', matches r p s p' s'.
Proof.
  unfold match_here. split.
  - intros [x (p' & s' & g' & H & _ & _)%run_sound]. eauto.
  - intros (p' & s' & H). eapply run_complete; [done|]. eauto.
Qed.


Lemma match_here_Some r p s p' s' g : match_here r p s = Some (p', s', g) → matches r p s p' s' ∧ grouped s ∅ g.
Proof. intros (? & ? & ? & H & G & E)%run_sound. by simplify_eq. Qed.

(** The equations of the matcher, for rewriting without unfolding stars. *)
Section equations.
Context {X : Type} (p : option ascii) (s : string) (g : groups) (k : option ascii → string → groups → option X).
Lemma run_seq r1 r2 : run (Seq r1 r2) p s g k = run r1 p s g (λ p s g, run r2 p s g k).
Proof. done. Qed.
Lemma run_alt r1 r2 : run (Alt r1 r2) p s g k = match run r1 p s g k with Some x => Some x | None => run r2 p s g k end.
Proof. done. Qed.
Lemma run_group i r : run (Group i r) p s g k = run r p s g (λ p' s' g', k p' s' (<[i := taken s s']> g')).
Proof. done. Qed.
Lemma run_class f c : run (Class f) p (String c s) g k = if f c then k (Some c) s g else None.
Proof. done. Qed.
End equations.

(** ** Runs of a class *)
Fixpoint all_chars (f : ascii → bool) (s : string) : bool :=
  match s with EmptyString => true | String c s => f c && all_chars f s end.
Lemma all_chars_app f a b : all_chars f (a +:+ b) = all_chars f a && all_chars f b.
Proof. induction a as [|c a IH]; [done|]. change (f c && all_chars f (a +:+ b) = f c && all_chars f a && all_chars f b). by rewrite IH, andb_assoc. Qed.
Lemma all_chars_part f a s : part_of a s → all_chars f s = true → all_chars f a = true.
Proof. intros (x & y & ->). rewrite !all_chars_app. intros [_ [H _]%andb_prop]%andb_prop. done. Qed.

(** A greedy run takes a whole text of its class when what follows may end
    there. *)
Lemma star_class_all {X} f s p g (k : option ascii → string → groups → option X) :
  all_chars f s = true → (∀ p, is_Some (k p EmptyString g)) → ∃ q, run (Star (Class f)) p s g k = k q EmptyString g.
Proof.
  intros Hs Hk. change (∃ q, star_loop (Class f) k (String.length s) p s g = k q EmptyString g). revert p.
  induction s as [|c s IH]; intros p; cbn [String.length star_loop]; [by exists p|]. cbn in Hs. apply andb_prop in Hs as [Hc Hs].
  cbn [run]. rewrite Hc. rewrite (proj2 (Nat.ltb_lt _ _)) by (cbn; lia). destruct (IH Hs (Some c)) as [q ->].
  destruct (Hk q) as [x E]. rewrite E. by exists q.
Qed.

(** A class that the next character is outside of ends a run at once. *)
Lemma star_class_none {X} f c s p g (k : option ascii → string → groups → option X) :
  f c = false → run (Star (Class f)) p (String c s) g k = k p (String c s) g.
Proof. intros Hc. change (star_loop (Class f) k (S (String.length s)) p (String c s) g = k p (String c s) g). cbn. by rewrite Hc. Qed.

(** ** Replacement *)
Section replace.
Context (r : re) (f : string → groups → string).
Lemma replace_skip n p c s :
  match_here r p (String c s) = None → replace_from (S n) r f p (String c s) = String c (replace_from n r f (Some c) s).
Proof. intros H. cbn [replace_from]. by rewrite H. Qed.

(** Replacement keeps to a class the text and the replacements are of. *)
Lemma replace_all_chars h n p s :
  (∀ m g, all_chars h m = true → (∀ i t, g !! i = Some t → all_chars h t = true) → all_chars h (f m g) = true) →
  all_chars h s = true → all_chars h (replace_from n r f p s) = true.
Proof.
  intros Hf. revert p s. induction n as [|n IH]; intros p s Hs; [done|]. cbn [replace_from]. destruct s as [|c s]; [done|].
  assert (all_chars h (String c (replace_from n r f (Some c) s)) = true) as Hc.
  { cbn in *. apply andb_prop in Hs as [-> Hs]. by apply IH. }
  destruct (match_here r p (String c s)) as [[[p' s'] g]|] eqn:E; [|done]. destruct (_ <? _)%nat; [|done].
  apply match_here_Some in E as [Hm Hg]. destruct (matches_app _ _ _ _ _ Hm) as [t Et]. rewrite Et in *. rewrite taken_app.
  rewrite all_chars_app in *. apply andb_prop in Hs as [Ht Hs]. rewrite IH, andb_true_r by done. apply Hf; [done|].
  intros i u [?|Hp]%Hg; [done|]. eapply all_chars_part; [exact Hp|]. by rewrite all_chars_app, Ht, Hs.
Qed.

Lemma replace_nonempty n p s : (∀ m g, f m g ≠ EmptyString) → s ≠ EmptyString → replace_from n r f p s ≠ EmptyString.
Proof.
  intros Hf Hs. destruct n as [|n]; [done|]. destruct s as [|c s]; [done|]. cbn [replace_from].
  destruct (match_here _ _ _) as [[[p' s'] g]|]; [|done]. destruct (_ <? _)%nat; [|done].
  specialize (Hf (taken (String c s) s') g). by destruct (f (taken (String c s) s') g).
Qed.
End replace.

(** ** Texts of a class, of a bounded length *)
Lemma upto_sound f n p s p' s' :
  matches (upto n (Class f)) p s p' s' → ∃ t, s = t +:+ s' ∧ (String.length t ≤ n)%nat ∧ all_chars f t = true.
Proof.
  revert p s. induction n as [|n IH]; intros p s H; cbn in H.
  - inversion H; subst. by exists EmptyString.
  - inversion H as [| | |r1 r2 ? ? ? ? H1|r1 r2 ? ? ? ? H1| | | | | |]; subst.
    + apply matches_seq in H1 as (p1 & s1 & (c & -> & Hc)%matches_class & (t & -> & Hl & Ht)%IH).
      exists (String c t). cbn. split_and!; [done|lia|]. by rewrite Hc, Ht.
    + inversion H1; subst. exists EmptyString. cbn. split_and!; [done|lia|done].
Qed.
Lemma upto_complete f n p s :
  (String.length s ≤ n)%nat → all_chars f s = true → ∃ p', matches (upto n (Class f)) p s p' EmptyString.
Proof.
  revert p s. induction n as [|n IH]; intros p [|c s] Hl Hs; cbn in *; try lia; [by eauto with regexp..|].
  apply andb_prop in Hs as [Hc Hs]. destruct (IH (Some c) s) as [p' Hp]; [lia|done|]. exists p'. eauto with regexp.
Qed.

(** [^[f]{1,n+1}$] holds of the texts of one to [n+1] characters of the
    class, and of no others. *)
Definition bounded (f : ascii → bool) (n : nat) : re := Seq TextStart (Seq (Class f) (Seq (upto n (Class f)) TextEnd)).
Lemma find_start r p s : find (Seq TextStart r) (Some p) s = false.
Proof. revert p. induction s as [|c s IH]; intros p; [done|]. cbn [find]. exact (IH c). Qed.
Lemma MatchString_bounded f n s :
  MatchString (bounded f n) s = true ↔ (1 ≤ String.length s ≤ S n)%nat ∧ all_chars f s = true.
Proof.
  assert (MatchString (bounded f n) s = bool_decide (is_Some (match_here (bounded f n) None s))) as ->.
  { unfold MatchString. destruct s as [|c s]; cbn [find]; destruct (match_here _ _ _); try done. apply find_start. }
  rewrite bool_decide_eq_true, match_here_iff. unfold bounded. split.
  - intros (p' & s' & (p1 & s1 & <-%matches_start & (p2 & s2 & (c & -> & Hc)%matches_class &
      (p3 & s3 & (t & -> & Hl & Ht)%upto_sound & ->%matches_end)%matches_seq)%matches_seq)%matches_seq).
    rewrite append_nil_r. cbn. rewrite Hc, Ht. split; [lia|done].
  - destruct s as [|c s]; cbn; [lia|]. intros [[_ Hl] [Hc Hs]%andb_prop].
    destruct (upto_complete f n (Some c) s) as [p' Hp]; [lia|done|]. exists p', EmptyString. eauto 10 with regexp.
Qed.
