(* ===== verification/GoNet.v ===== *)
(** * Network addresses

    The part of Go's [net] the program uses: [ParseIP], [ParseCIDR] and
    [IPNet.Contains], on lists of bytes as the package has them: an IPv4
    address is kept as the sixteen bytes of its IPv6 form. *)
From Stdlib Require Import ZArith Lia Ascii String.
From stdpp Require Import base sets strings list.
From S2P Require Import Prelude GoStrings.
#[local] Open Scope string_scope.
#[local] Open Scope Z_scope.

Definition v4InV6Prefix : list Z := [0; 0; 0; 0; 0; 0; 0; 0; 0; 0; 255; 255].

(** ** Reading addresses *)

(** A decimal field of an IPv4 address: digits without a leading zero, at
    most 255. *)
Definition field4 (s : string) : option Z :=
  match s with
  | EmptyString => None
  | String c rest =>
      if bool_decide (c = "0"%char ∧ rest ≠ "") then None
      else v ← parse_digits 0 s; if v <=? 255 then Some v else None
  end.
Definition parse4 (s : string) : option (list Z) :=
  match split_char "." s with
  | [a; b; c; d] => a ← field4 a; b ← field4 b; c ← field4 c; d ← field4 d; Some [a; b; c; d]
  | _ => None
  end.

(** The hexadecimal digits at the head: how many, their value, the rest. *)
Fixpoint hex_run (n : nat) (acc : Z) (s : string) : nat * Z * string :=
  match s with
  | String c rest => match hex_val c with Some d => hex_run (S n) (16 * acc + Z.of_nat d) rest | None => (n, acc, s) end
  | EmptyString => (n, acc, s)
  end.

(** The groups of an IPv6 address. [done] holds the bytes read; [ellipsis]
    how many were before the double colon. *)
Fixpoint groups6 (fuel : nat) (s : string) (done : list Z) (ellipsis : option nat) : option (list Z * option nat) :=
  match fuel with
  | O => if decide (s = "") then Some (done, ellipsis) else None
  | S fuel =>
      let '(n, acc, rest) := hex_run 0 0 s in
      if (n =? 0)%nat || (4 <? n)%nat then None
      else match rest with
      | String "." _ =>
          if bool_decide (ellipsis = None ∧ length done ≠ 12%nat) || (12 <? length done)%nat then None
          else b ← parse4 s; Some ((done ++ b)%list, ellipsis)
      | EmptyString => Some ((done ++ [acc / 256; acc mod 256])%list, ellipsis)
      | String ":" EmptyString => None
      | String ":" (String ":" rest) =>
          let done := (done ++ [acc / 256; acc mod 256])%list in
          match ellipsis with
          | Some _ => None
          | None => if decide (rest = "") then Some (done, Some (length done)) else groups6 fuel rest done (Some (length done))
          end
      | String ":" rest => groups6 fuel rest (done ++ [acc / 256; acc mod 256])%list ellipsis
      | _ => None
      end
  end.
Definition expand (b : list Z * option nat) : option (list Z) :=
  let '(b, ellipsis) := b in
  match (length b <? 16)%nat, ellipsis with
  | true, Some e => Some (take e b ++ repeat 0 (16 - length b) ++ drop e b)%list
  | true, None => None
  | false, Some _ => None
  | false, None => Some b
  end.
Definition parse6 (s : string) : option (list Z) :=
  match s with
  | String ":" (String ":" rest) =>
      if decide (rest = "") then Some (repeat 0 16) else groups6 8 rest [] (Some 0%nat) ≫= expand
  | _ => groups6 8 s [] None ≫= expand
  end.

(** [netip.ParseAddr], without zones, which both callers refuse: whether it
    is an IPv4 address, and its sixteen bytes. *)
Fixpoint first_mark (s : string) : option ascii :=
  match s with
  | EmptyString => None
  | String c s => if bool_decide (c = "."%char ∨ c = ":"%char ∨ c = "%"%char) then Some c else first_mark s
  end.
Definition ParseAddr (s : string) : option (bool * list Z) :=
  if contains_char "%" s then None
  else match first_mark s with
       | Some "."%char => b ← parse4 s; Some (true, (v4InV6Prefix ++ b)%list)
       | Some ":"%char => b ← parse6 s; Some (false, b)
       | _ => None
       end.
Definition ParseIP (s : string) : option (list Z) := snd <$> ParseAddr s.

(** ** Networks *)
Record IPNet := { net_IP : list Z; net_Mask : list Z }.

(** Byte [i] of a mask of [n] leading ones. *)
Definition mask_byte (n : Z) : Z := 256 - 2 ^ (8 - Z.min 8 (Z.max 0 n)).
Definition CIDRMask (n : Z) (size : nat) : list Z := map (λ i, mask_byte (n - 8 * Z.of_nat i)) (seq 0 size).
Definition To4 (ip : list Z) : option (list Z) :=
  if (length ip =? 4)%nat then Some ip
  else if bool_decide (length ip = 16%nat ∧ take 12 ip = v4InV6Prefix) then Some (drop 12 ip)
  else None.
Definition and_bytes : list Z → list Z → list Z := zip_with Z.land.

(** The length of a prefix: decimal digits, small enough. *)
Definition prefix_length (s : string) (bits : Z) : option Z :=
  if decide (s = "") then None else n ← parse_digits 0 s; if n <=? bits then Some n else None.
Definition ParseCIDR (s : string) : option IPNet :=
  match cut_char "/" s with
  | None => None
  | Some (addr, mask) =>
      a ← ParseAddr addr;
      let '(is4, b) := a in
      if is4 : bool then
        n ← prefix_length mask 32;
        Some {| net_IP := and_bytes (drop 12 b) (CIDRMask n 4); net_Mask := CIDRMask n 4 |}
      else
        n ← prefix_length mask 128;
        Some {| net_IP := and_bytes b (CIDRMask n 16); net_Mask := CIDRMask n 16 |}
  end.

Definition networkNumberAndMask (n : IPNet) : option (list Z * list Z) :=
  let ip := default (net_IP n) (To4 (net_IP n)) in
  if (length (net_Mask n) =? 4)%nat then if (length ip =? 4)%nat then Some (ip, net_Mask n) else None
  else if (length (net_Mask n) =? 16)%nat then Some (ip, if (length ip =? 4)%nat then drop 12 (net_Mask n) else net_Mask n)
  else None.
Definition Contains (n : IPNet) (ip : list Z) : bool :=
  match networkNumberAndMask n with
  | None => false
  | Some (nn, m) =>
      let ip := default ip (To4 ip) in
      bool_decide (length ip = length nn) && bool_decide (and_bytes nn m = and_bytes ip m)
  end.

(** ** A network holds the addresses that share its leading bits *)
Definition num (b : list Z) : Z := foldl (λ n x, 256 * n + x) 0 b.
Definition is_bytes (b : list Z) : Prop := Forall (λ x, 0 ≤ x < 256) b.

Lemma land_mask_table :
  forallb (λ k, forallb (λ x, Z.land (Z.of_nat x) (mask_byte (Z.of_nat k)) =? Z.of_nat x / 2 ^ (8 - Z.of_nat k) * 2 ^ (8 - Z.of_nat k))
    (seq 0 256)) (seq 0 9) = true.
Proof. vm_compute. reflexivity. Qed.
Lemma land_mask x k : 0 ≤ x < 256 → 0 ≤ k ≤ 8 → Z.land x (mask_byte k) = x / 2 ^ (8 - k) * 2 ^ (8 - k).
Proof.
  intros Hx Hk. pose proof land_mask_table as H. rewrite forallb_forall in H. specialize (H (Z.to_nat k)).
  rewrite forallb_forall in H. specialize (H ltac:(apply in_seq; lia) (Z.to_nat x) ltac:(apply in_seq; lia)). rewrite !Z2Nat.id in H by lia. lia.
Qed.
Lemma mask_byte_clamp n : mask_byte n = mask_byte (Z.min 8 (Z.max 0 n)).
Proof. unfold mask_byte. do 2 f_equal. lia. Qed.
Lemma pow2_pos k : 0 ≤ k → 0 < 2 ^ k.
Proof. intros. apply Z.pow_pos_nonneg; lia. Qed.

(** Two bytes agree under the mask when their leading bits do. *)
Lemma land_mask_eq x y n :
  0 ≤ x < 256 → 0 ≤ y < 256 →
  Z.land x (mask_byte n) = Z.land y (mask_byte n) ↔
  x / 2 ^ (8 - Z.min 8 (Z.max 0 n)) = y / 2 ^ (8 - Z.min 8 (Z.max 0 n)).
Proof.
  intros Hx Hy. rewrite (mask_byte_clamp n), !land_mask by lia. split; [|congruence].
  pose proof (pow2_pos (8 - Z.min 8 (Z.max 0 n)) ltac:(lia)). nia.
Qed.

Definition range (n : nat) : list Z := map Z.of_nat (seq 0 n).
Lemma elem_of_range n k : 0 ≤ k < Z.of_nat n → k ∈ range n.
Proof. intros H. apply list_elem_of_fmap. exists (Z.to_nat k). split; [lia|]. apply elem_of_seq. lia. Qed.

Ltac powers :=
  repeat match goal with
  | H : context [2 ^ ?e] |- _ => let v := eval vm_compute in (2 ^ e) in change (2 ^ e) with v in H
  | |- context [2 ^ ?e] => let v := eval vm_compute in (2 ^ e) in change (2 ^ e) with v
  end.
Lemma v4_mask_bits a b c d e f g h n :
  is_bytes [a; b; c; d] → is_bytes [e; f; g; h] → 0 ≤ n ≤ 32 →
  and_bytes [a; b; c; d] (CIDRMask n 4) = and_bytes [e; f; g; h] (CIDRMask n 4) ↔
  num [a; b; c; d] / 2 ^ (32 - n) = num [e; f; g; h] / 2 ^ (32 - n).
Proof.
  intros H1 H2 Hn. repeat (apply Forall_cons in H1 as [? H1]). repeat (apply Forall_cons in H2 as [? H2]). clear H1 H2.
  transitivity (∀ x y i, (x, y, i) ∈ [(a, e, 0); (b, f, 1); (c, g, 2); (d, h, 3)] →
    x / 2 ^ (8 - Z.min 8 (Z.max 0 (n - 8 * i))) = y / 2 ^ (8 - Z.min 8 (Z.max 0 (n - 8 * i)))).
  - unfold and_bytes, CIDRMask. cbn [seq map zip_with]. split.
    + intros E x y i Hi. injection E as E1 E2 E3 E4. repeat (apply elem_of_cons in Hi as [[=-> -> ->]|Hi]); [..|by apply elem_of_nil in Hi];
        apply land_mask_eq; assumption.
    + intros E. f_equal; [|f_equal; [|f_equal; [|f_equal]]]; apply land_mask_eq; try assumption; [apply (E _ _ 0)|apply (E _ _ 1)|apply (E _ _ 2)|apply (E _ _ 3)]; set_solver.
  - assert (n ∈ range 33) as Hr by (apply elem_of_range; lia). unfold num, foldl.
    split; intros E.
    + pose proof (E a e 0 ltac:(set_solver)) as E0. pose proof (E b f 1 ltac:(set_solver)) as E1.
      pose proof (E c g 2 ltac:(set_solver)) as E2. pose proof (E d h 3 ltac:(set_solver)) as E3. clear E Hn.
      repeat (apply elem_of_cons in Hr as [->|Hr]); [..|by apply elem_of_nil in Hr]; powers; Z.to_euclidean_division_equations; lia.
    + intros x y i Hi. clear Hn. repeat (apply elem_of_cons in Hi as [[=-> -> ->]|Hi]); [..|by apply elem_of_nil in Hi];
      (repeat (apply elem_of_cons in Hr as [->|Hr]); [..|by apply elem_of_nil in Hr]; powers; Z.to_euclidean_division_equations; lia).
Qed.
