(* ===== verification/Redaction.v ===== *)
(** * Redaction of logs and request identifiers

    - [Redactor] models [internal/security/redactor.go]: masking of texts and
      of decoded JSON;
    - [ZapCore] models [internal/security/zapredactor.go], the logging core
      that filters and redacts fields;
    - [Recovery] models [internal/middleware/recovery.go], what is logged and
      answered when a handler panics;
    - [RequestID] models [internal/middleware/requestid.go]. *)
From Stdlib Require Import ZArith Lia Ascii String.
From stdpp Require Import base gmap strings list.
From S2P Require Import Prelude GoStrings GoRegexp.
#[local] Open Scope string_scope.
#[local] Open Scope Z_scope.

(** ** The redactor *)
Module Redactor.
Definition fullyRedactedFieldNames : list string :=
  ["token"; "jwt"; "secret"; "password"; "api_key"; "apikey"; "authorization"; "x-admin-token"; "x_admin_token";
   "admin_token"; "access_token"; "refresh_token"; "client_secret"; "private_key"; "session_token"; "cookie"; "set-cookie"].
Definition sensitive (k : string) : bool := bool_decide (ToLower k ∈ fullyRedactedFieldNames).
Definition mask : string := "***REDACTED***".

Definition dquote : ascii := "034"%char.
Definition quotes : string := String dquote "'".
Definition spaces : re := Star (Class is_space).
Definition separator : re := Seq spaces (Seq (Class (one_of ":=")) spaces).
Definition opt_quote : re := Opt (Class (one_of quotes)).
(** A character of a value: no space, quote, ampersand, comma or semicolon. *)
Definition value_char (c : ascii) : bool := negb (is_space c) && negb (one_of (String dquote "'&,;") c).

(** A key, a colon or an equals sign, a quote or none, and a value. *)
Definition keyed (key : re) : re := Seq (Group 1 (Seq key (Seq separator opt_quote))) (Plus (Class value_char)).
Definition patterns : list re :=
  [ Seq (Group 1 (Seq (ci "authorization") (Seq separator (Opt (Seq (ci "bearer") (Plus (Class is_space)))))))
        (Plus (Class (none is_space)));
    Seq (Group 1 (Seq (ci "x-admin-token") separator)) (Plus (Class (none is_space)));
    Seq (Group 1 (Seq (ci "jwt") separator)) (Plus (Class value_char));
    Seq (Group 1 (Seq (ci "bearer") (Plus (Class is_space))))
        (Seq (Plus (ci_class (λ c, is_alnum c || one_of "._~+/-" c))) (Star (Class (one_of "="))));
    keyed (ci "password");
    keyed (Seq (ci "api") (Seq (Opt (Class (one_of "_-"))) (ci "key")));
    keyed (ci "secret");
    keyed (ci "token") ].
Definition jwt_part : re := Plus (ci_class (λ c, is_alnum c || one_of "-_" c)).
Definition jwt_pattern : re :=
  Seq (Group 1 (Seq (ci "jwt") (Seq separator opt_quote)))
      (Group 2 (Seq (ci "eyJ") (Seq jwt_part (Seq (lit ".") (Seq jwt_part (Seq (lit ".") jwt_part)))))).

(** The replacement [${1}***REDACTED***]. *)
Definition hide (_ : string) (g : groups) : string := default "" (g !! 1%nat) +:+ mask.
Definition redactSensitiveFragments (s : string) : string :=
  if decide (s = "") then ""
  else
    let lower := ToLower s in
    let s := foldl (λ s r, ReplaceAll r hide s) s patterns in
    if Contains lower "jwt=" || Contains lower "jwt:" || Contains lower "eyj" then ReplaceAll jwt_pattern hide s else s.

Definition idPattern : re :=
  Seq WordBoundary
    (Seq (Group 1 (alts (map ci ["customer"; "cust"; "subscription"; "sub"; "job"])))
      (Seq (Opt (Class (one_of "-_"))) (Seq (Group 2 (Plus (ci_class is_alnum))) WordBoundary))).
Definition amountPattern : re :=
  Seq (Opt (Class (one_of "$"))) (Seq (Plus (Class is_digit)) (Seq (lit ".") (Seq (Class is_digit) (Class is_digit)))).

(** [FindStringSubmatch]: the groups of the leftmost match. *)
Fixpoint submatch (r : re) (p : option ascii) (s : string) : option groups :=
  match match_here r p s with
  | Some (_, _, g) => Some g
  | None => match s with String c s' => submatch r (Some c) s' | EmptyString => None end
  end.
Definition mask_id (m : string) (_ : groups) : string :=
  match submatch idPattern None m with Some g => ToLower (default "" (g !! 1%nat)) +:+ "_***" | None => m end.
Definition MaskPII (input : string) : string :=
  if decide (input = "") then ""
  else
    let out := redactSensitiveFragments input in
    let out := ReplaceAll idPattern mask_id out in
    ReplaceAll amountPattern (λ _ _, "$*.**") out.
Definition RedactStringField (key value : string) : string :=
  if sensitive key then mask else MaskPII (redactSensitiveFragments value).

(** Decoded JSON. *)
Inductive json :=
| JNull
| JBool (b : bool)
| JNumber (text : string)
| JString (s : string)
| JArray (l : list json)
| JObject (m : list (string * json)).

(** What [RedactMap] does to the value of key [k]. An array is redacted one
    level deep: objects and texts in it are, arrays in it are not. *)
Fixpoint redact_value (k : string) (v : json) : json :=
  if sensitive k then JString mask
  else match v with
       | JString s => JString (RedactStringField k s)
       | JObject m => JObject (map (λ kv, (kv.1, redact_value kv.1 kv.2)) m)
       | JArray l =>
           JArray (map (λ item, match item with
             | JObject m => JObject (map (λ kv, (kv.1, redact_value kv.1 kv.2)) m)
             | JString s => JString (RedactStringField k s)
             | _ => item
             end) l)
       | _ => v
       end.
Definition RedactMap (m : list (string * json)) : list (string * json) := map (λ kv, (kv.1, redact_value kv.1 kv.2)) m.

(** *** What is hidden *)
Lemma hide_value m g :
  all_chars value_char m = true → (∀ i t, g !! i = Some t → all_chars value_char t = true) → all_chars value_char (hide m g) = true.
Proof. intros _ Hg. unfold hide. rewrite all_chars_app. destruct (g !! 1%nat) as [t|] eqn:E; cbn [default from_option]; [|done]. unfold id. by rewrite (Hg _ _ E). Qed.
Lemma hide_nonempty m g : hide m g ≠ EmptyString.
Proof. unfold hide. by destruct (default "" (g !! 1%nat)). Qed.

(** An expression that matches nowhere in the name leaves it, and a value
    after it stays one. *)
Lemma name_kept name r v :
  (∀ n v p, ∃ q, replace_from (String.length name + n) r hide p (name +:+ v) = name +:+ replace_from n r hide q v) →
  v ≠ "" → all_chars value_char v = true →
  ∃ v', ReplaceAll r hide (name +:+ v) = name +:+ v' ∧ v' ≠ "" ∧ all_chars value_char v' = true.
Proof.
  intros Hr Hne Hv. unfold ReplaceAll. rewrite length_append. destruct (Hr (String.length v) v None) as [q ->].
  eexists. split_and!; [done|by apply replace_nonempty; [apply hide_nonempty|]|apply replace_all_chars; [apply hide_value|done]].
Qed.

Lemma value_char_spec c : value_char c = true → is_space c = false ∧ one_of quotes c = false ∧ one_of ":=" c = one_of ":=" c.
Proof. destruct c as [[] [] [] [] [] [] [] []]; vm_compute; auto. Qed.

(** A name, an equals sign and a value: all of the value is the match. *)
Lemma keyed_hides key name v :
  (∀ p s g (k : option ascii → string → groups → option (option ascii * string * groups)),
     ∃ q, run key p (name +:+ s) g k = k q s g) →
  name ≠ "" → v ≠ "" → all_chars value_char v = true →
  ReplaceAll (keyed key) hide (name +:+ "=" +:+ v) = name +:+ "=" +:+ mask.
Proof.
  intros Hkey Hn Hne Hv. destruct v as [|c v]; [done|]. cbn in Hv. apply andb_prop in Hv as [Hc Hv].
  destruct (value_char_spec c Hc) as (Hs & Hq & _).
  assert (∃ q g, match_here (keyed key) None (name +:+ "=" +:+ String c v) = Some (q, EmptyString, g) ∧ g !! 1%nat = Some (name +:+ "=")) as (q & g & E & Eg).
  { unfold match_here, keyed. rewrite run_seq, run_group, run_seq.
    destruct (Hkey None ("=" +:+ String c v) ∅ (λ p s g, run (Seq separator opt_quote) p s g
      (λ p' s' g', run (Plus (Class value_char)) p' s' (<[1%nat:=taken (name +:+ "=" +:+ String c v) s']> g') (λ p' s' g, Some (p', s', g))))) as [q ->].
    change ("=" +:+ String c v) with (String "=" (String c v)). unfold separator, spaces, opt_quote, Opt, Plus.
    rewrite !run_seq, star_class_none, run_seq, run_class by reflexivity. replace (one_of ":=" "=") with true by reflexivity.
    rewrite star_class_none, run_alt, run_class, Hq by done. cbn match. change (run Eps ?p ?s ?g ?k) with (k p s g). cbn beta.
    rewrite run_seq, run_class, Hc.
    replace (name +:+ String "=" (String c v)) with ((name +:+ "=") +:+ String c v) by (rewrite string_app_assoc; done).
    rewrite taken_app.
    destruct (star_class_all value_char v (Some c) (<[1%nat:=name +:+ "="]> (∅ : groups))
      (λ p' s' g, Some (p', s', g))) as [q' E']; [done|by eauto|]. rewrite E'. exists q', (<[1%nat := name +:+ "="]> ∅). by rewrite lookup_insert_eq. }
  destruct name as [|n0 name]; [done|]. unfold ReplaceAll. 
  change (String n0 name +:+ "=" +:+ String c v) with (String n0 (name +:+ "=" +:+ String c v)) in *.
  cbn [String.length replace_from]. rewrite E. cbn [String.length Nat.ltb Nat.leb]. unfold hide. rewrite Eg. cbn [default from_option].
  replace (replace_from _ _ _ q "") with "" by (by destruct (String.length _)). rewrite append_nil_r. unfold id.
  change (String n0 name +:+ "=" +:+ mask) with (String n0 (name +:+ "=" +:+ mask)). by rewrite <- string_app_assoc.
Qed.

(** The names whose values are hidden in running text, with the place of
    their expression. *)
Ltac skip_name := intros; eexists; cbv [String.append String.length Nat.add]; rewrite !replace_skip by reflexivity; reflexivity.
Ltac own_name :=
  intros p s g k;
  match goal with |- ∃ q, ?l = _ =>
    let l' := eval vm_compute in l in
    match l' with context [k ?q s g] => exists q end
  end; vm_compute; by destruct (k _ _ _).

Lemma fragments_hidden name i key v :
  patterns !! i = Some (keyed key) →
  (∀ r, r ∈ take i patterns → ∀ n v p, ∃ q, replace_from (String.length (name +:+ "=") + n) r hide p ((name +:+ "=") +:+ v) =
    (name +:+ "=") +:+ replace_from n r hide q v) →
  (∀ p s g (k : option ascii → string → groups → option (option ascii * string * groups)), ∃ q, run key p (name +:+ s) g k = k q s g) →
  name ≠ "" → v ≠ "" → all_chars value_char v = true →
  foldl (λ s r, ReplaceAll r hide s) (name +:+ "=" +:+ v) patterns =
  foldl (λ s r, ReplaceAll r hide s) (name +:+ "=" +:+ mask) (drop (S i) patterns).
Proof.
  intros Hi Hbefore Hkey Hn Hne Hv. rewrite <- (take_drop_middle _ _ _ Hi) at 1. rewrite foldl_app. cbn [foldl]. f_equal.
  assert (∃ v', foldl (λ s r, ReplaceAll r hide s) (name +:+ "=" +:+ v) (take i patterns) = name +:+ "=" +:+ v' ∧ v' ≠ "" ∧
    all_chars value_char v' = true) as (v' & -> & Hne' & Hv'); [|by apply keyed_hides].
  clear Hi Hkey. revert v Hne Hv. induction (take i patterns) as [|r l IH]; intros v Hne Hv; [by exists v|]. cbn [foldl].
  destruct (name_kept (name +:+ "=") r v) as (w & E & Hw & Hw'); [apply Hbefore; set_solver|done|done|].
  rewrite !string_app_assoc in E. rewrite E. apply IH; [|done|done]. intros r' Hr'. apply Hbefore. set_solver.
Qed.

(** The rest of the masking, once the value is gone. *)
Lemma MaskPII_hidden name v :
  v ≠ "" → foldl (λ s r, ReplaceAll r hide s) (name +:+ "=" +:+ v) patterns = name +:+ "=" +:+ mask →
  ReplaceAll jwt_pattern hide (name +:+ "=" +:+ mask) = name +:+ "=" +:+ mask →
  ReplaceAll amountPattern (λ _ _, "$*.**") (ReplaceAll idPattern mask_id (name +:+ "=" +:+ mask)) = name +:+ "=" +:+ mask →
  MaskPII (name +:+ "=" +:+ v) = name +:+ "=" +:+ mask.
Proof.
  intros Hne Hf Hj Hm. assert (name +:+ "=" +:+ v ≠ "") as Hs by (destruct name; done).
  unfold MaskPII, redactSensitiveFragments. rewrite !decide_False by done. cbn zeta. rewrite Hf.
  destruct (_ || _); [rewrite Hj|]; done.
Qed.

(** C16: in a text of one of the six secret names, an equals sign and a value
    without white space, quotes, commas, semicolons and ampersands (the
    characters that end a value), nothing of the value survives the masking. *)
Theorem named_values_hidden name v :
  name ∈ ["password"; "api_key"; "api-key"; "apikey"; "secret"; "token"] → v ≠ "" → all_chars value_char v = true →
  MaskPII (name +:+ "=" +:+ v) = name +:+ "=" +:+ mask.
Proof.
  intros Hn Hne Hv.
  assert (∃ i key, patterns !! i = Some (keyed key) ∧
    (∀ r, r ∈ take i patterns → ∀ n v p, ∃ q, replace_from (String.length (name +:+ "=") + n) r hide p ((name +:+ "=") +:+ v) =
      (name +:+ "=") +:+ replace_from n r hide q v) ∧
    (∀ p s g (k : option ascii → string → groups → option (option ascii * string * groups)), ∃ q, run key p (name +:+ s) g k = k q s g) ∧
    foldl (λ s r, ReplaceAll r hide s) (name +:+ "=" +:+ mask) (drop (S i) patterns) = name +:+ "=" +:+ mask) as (i & key & Hi & Hb & Hk & Hd).
  { repeat (apply elem_of_cons in Hn as [->|Hn]); [exists 4%nat|exists 5%nat|exists 5%nat|exists 5%nat|exists 6%nat|exists 7%nat|by apply elem_of_nil in Hn];
      eexists; (split_and!; [reflexivity| |own_name|vm_compute; reflexivity]);
      intros r Hr; cbn in Hr; repeat (apply elem_of_cons in Hr as [->|Hr]); try (by apply elem_of_nil in Hr); skip_name. }
  apply MaskPII_hidden; [done| | |].
  - rewrite (fragments_hidden name i key v) by (done || (by intros ->; set_solver)). exact Hd.
  - clear -Hn. repeat (apply elem_of_cons in Hn as [->|Hn]); [..|by apply elem_of_nil in Hn]; vm_compute; reflexivity.
  - clear -Hn. repeat (apply elem_of_cons in Hn as [->|Hn]); [..|by apply elem_of_nil in Hn]; vm_compute; reflexivity.
Qed.
Lemma named_values_hidden_witness : MaskPII ("api_key" +:+ "=" +:+ "sk_live/4242") = "api_key" +:+ "=" +:+ mask.
Proof. apply (named_values_hidden "api_key" "sk_live/4242"); [do 1 right; left|done|reflexivity]. Defined.

(** *** Decoded JSON *)
Lemma json_ind' (P : json → Prop) :
  P JNull → (∀ b, P (JBool b)) → (∀ t, P (JNumber t)) → (∀ s, P (JString s)) →
  (∀ l, Forall P l → P (JArray l)) → (∀ m, Forall (λ kv, P kv.2) m → P (JObject m)) → ∀ v, P v.
Proof.
  intros H1 H2 H3 H4 H5 H6. fix IH 1. intros [|b|t|s|l|m]; [done|apply H2|apply H3|apply H4| |].
  - apply H5. induction l as [|v l IHl]; [constructor|]. constructor; [apply IH|exact IHl].
  - apply H6. induction m as [|[k v] m IHm]; [constructor|]. constructor; [apply IH|exact IHm].
Qed.

(** Key [k] with value [v] is somewhere in the document. *)
Inductive occurs (k : string) (v : json) : json → Prop :=
| occurs_here m : (k, v) ∈ m → occurs k v (JObject m)
| occurs_field m k' w : (k', w) ∈ m → occurs k v w → occurs k v (JObject m)
| occurs_item l w : w ∈ l → occurs k v w → occurs k v (JArray l).

(** No array holds an array. *)
Definition is_array (v : json) : bool := match v with JArray _ => true | _ => false end.
Inductive flat : json → Prop :=
| flat_null : flat JNull
| flat_bool b : flat (JBool b)
| flat_number t : flat (JNumber t)
| flat_string s : flat (JString s)
| flat_array l : Forall flat l → Forall (λ v, is_array v = false) l → flat (JArray l)
| flat_object m : Forall (λ kv, flat kv.2) m → flat (JObject m).

Lemma redact_sensitive k v : sensitive k = true → redact_value k v = JString mask.
Proof. intros H. destruct v; cbn; by rewrite H. Qed.

Lemma redact_fields m k v :
  Forall (λ kv, ∀ k' k v, occurs k v (redact_value k' kv.2) → sensitive k = true → v = JString mask) m →
  occurs k v (JObject (RedactMap m)) → sensitive k = true → v = JString mask.
Proof.
  intros IH Ho Hk. inversion Ho as [m' Hin|m' k' w Hin Hw|]; subst; apply list_elem_of_fmap in Hin as ([k1 v1] & E & Hin);
    cbn in E; simplify_eq; [by apply redact_sensitive|]. rewrite Forall_forall in IH. by eapply (IH _ Hin).
Qed.

Lemma redact_value_hides w : flat w → ∀ k' k v, occurs k v (redact_value k' w) → sensitive k = true → v = JString mask.
Proof.
  induction w as [|b|t|s|l IH|m IH] using json_ind'; intros Hf k' k v Ho Hk; cbn in Ho; destruct (sensitive k') eqn:Ek; try (by inversion Ho).
  - inversion Hf as [| | | |l' Hl Hna|]; subst. inversion Ho as [| |l' w Hin Hw]; subst. apply list_elem_of_fmap in Hin as (item & -> & Hin).
    rewrite Forall_forall in IH. pose proof (proj1 (Forall_forall _ _) Hl _ Hin) as Hfi. pose proof (proj1 (Forall_forall _ _) Hna _ Hin) as Hni.
    destruct item as [|b|t|s|l'|m]; try (by inversion Hw). apply (IH _ Hin Hfi "" k v); [|done]. exact Hw.
  - inversion Hf as [| | | | |m' Hm]; subst. apply (redact_fields m k v); [|exact Ho|done].
    apply Forall_forall. intros kv Hin. apply (proj1 (Forall_forall _ _) IH _ Hin). by apply (proj1 (Forall_forall _ _) Hm _ Hin).
Qed.

(** No value kept under a sensitive name survives in a decoded document, at
    whatever depth, provided no array holds an array directly. *)
Theorem RedactMap_hides m k v :
  flat (JObject m) → occurs k v (JObject (RedactMap m)) → sensitive k = true → v = JString mask.
Proof.
  intros Hf. apply redact_fields. inversion Hf as [| | | | |m' Hm]; subst. eapply Forall_impl; [exact Hm|].
  intros kv Hkv. by apply redact_value_hides.
Qed.

(** The proviso is needed: a password in an array of arrays survives. *)
Theorem nested_array_kept : let doc := [("batch", JArray [JArray [JObject [("password", JString "hunter2")]]])] in
  RedactMap doc = doc ∧ occurs "password" (JString "hunter2") (JObject (RedactMap doc)).
Proof.
  split; [vm_compute; reflexivity|]. eapply occurs_field; [left|]. eapply occurs_item; [left|]. eapply occurs_item; [left|]. constructor. left.
Qed.

(** Running text keeps credentials of other schemes than bearer, and
    passwords written as JSON. *)
Theorem fragments_kept :
  MaskPII "Authorization: Basic dXNlcjpwYXNz" = "Authorization: ***REDACTED*** dXNlcjpwYXNz" ∧
  let q := String dquote "" in
  let body := "{" +:+ q +:+ "password" +:+ q +:+ ":" +:+ q +:+ "hunter2" +:+ q +:+ "}" in MaskPII body = body.
Proof. split; vm_compute; reflexivity. Qed.
End Redactor.

(** ** The logging core *)
Module ZapCore.
Import Redactor.
Definition schemaAllowedTopLevel : list string :=
  ["timestamp"; "time"; "level"; "msg"; "request_id"; "trace_id"; "tenant_id"; "method"; "path"; "status"; "latency_ms";
   "client_ip"; "user_agent"; "correlation_id"; "error"; "panic"; "stack"; "authorization"; "x-admin-token"; "x_admin_token";
   "admin_token"; "token"; "jwt"; "password"; "api_key"; "apikey"; "secret"; "access_token"; "refresh_token"].

(** A field of a log line: a text, an error, a value rendered by reflection
    (with what JSON makes of it: an object or something else), or a value of
    another type, which is passed on as it is. *)
Inductive field_value :=
| FString (s : string)
| FError (msg : string)
| FNilError
| FReflect (v : json)
| FOther (text : string).
Record Field := { Key : string; Value : field_value }.

Definition FilterLogFields (fields : list Field) : list Field :=
  filter (λ f, let key := TrimSpace (Key f) in key ≠ "" ∧ ToLower key ∈ schemaAllowedTopLevel) fields.
Definition RedactZapCoreField (f : Field) : Field :=
  {| Key := Key f;
     Value := match Value f with
              | FString s => FString (RedactStringField (Key f) s)
              | FError msg => FError (MaskPII msg)
              | FReflect (JObject m) => FReflect (JObject (RedactMap m))
              | v => v
              end |}.
Definition RedactZapCoreFields : list Field → list Field := map RedactZapCoreField.

(** A core: the fields [With] has added, and the lines written. *)
Record Core := { context : list Field; lines : list (string * list Field) }.
Definition inner_With (fields : list Field) (c : Core) : Core := {| context := (context c ++ fields)%list; lines := lines c |}.
Definition inner_Write (msg : string) (fields : list Field) (c : Core) : Core :=
  {| context := context c; lines := (lines c ++ [(msg, context c ++ fields)])%list |}.
Definition With (fields : list Field) : Core → Core := inner_With (RedactZapCoreFields (FilterLogFields fields)).
Definition Write (msg : string) (fields : list Field) : Core → Core :=
  inner_Write (MaskPII msg) (RedactZapCoreFields (FilterLogFields fields)).

(** A logger first asks its core to check the entry, and then writes the
    entry to the cores that added themselves. The redacting core passes the
    question on to the inner core. *)
Inductive core_ref := Inner | Redacting.
Section check.
Context (inner_Check : list core_ref → list core_ref).
Definition Check (ce : list core_ref) : list core_ref := inner_Check ce.
Definition log (msg : string) (fields : list Field) (c : Core) : Core :=
  foldl (λ c r, match r with Inner => inner_Write msg fields c | Redacting => Write msg fields c end) c (Check []).

(** A core that should log an entry adds itself to it, as its interface
    says. *)
Hypothesis adds_itself : ∀ ce, inner_Check ce = (ce ++ [Inner])%list.

(** What is given with an entry is written as it is: only the fields a logger
    was made with are redacted. *)
Theorem entry_fields_not_redacted msg fields c : log msg fields c = inner_Write msg fields c.
Proof. unfold log, Check. by rewrite adds_itself. Qed.
End check.
Lemma entry_fields_not_redacted_witness :
  let f := {| Key := "password"; Value := FString "hunter2" |} in
  let c := {| context := []; lines := [] |} in
  log (λ ce, ce ++ [Inner])%list "login" [f] c = {| context := []; lines := [("login", [f])] |} ∧
  Write "login" [f] c = {| context := []; lines := [("login", [{| Key := "password"; Value := FString mask |}])] |}.
Proof. cbn zeta. split; [apply (entry_fields_not_redacted (λ ce, ce ++ [Inner])%list); done|vm_compute; reflexivity]. Defined.

(** What reaches the inner core through [With] or [Write] carries only names
    of the schema, and no text under a sensitive one. *)
Theorem redacted_fields fields f :
  f ∈ RedactZapCoreFields (FilterLogFields fields) →
  ToLower (TrimSpace (Key f)) ∈ schemaAllowedTopLevel ∧
  ∀ s, Value f = FString s → sensitive (Key f) = true → s = mask.
Proof.
  intros (g & -> & Hg)%list_elem_of_fmap. apply list_elem_of_filter in Hg as [[_ Ha] Hg]. split; [done|].
  intros s Hs Hk. cbn in *. destruct (Value g) as [t| | |[]|]; simplify_eq. unfold RedactStringField. by rewrite Hk.
Qed.
End ZapCore.

(** ** Request identifiers *)
Module RequestID.
Definition RequestIDHeader : string := "X-Request-ID".
Definition id_char (c : ascii) : bool := is_alnum c || one_of "-_." c.
Definition validRequestID : re := bounded id_char 31.
Definition isValidRequestID (id : string) : bool :=
  if (String.length id =? 0)%nat || (32 <? String.length id)%nat then false else MatchString validRequestID id.
(** [random] is what the random source fills eight bytes with. *)
Definition generateRequestID (random : string) : string := hex_encode random.
Definition extractOrGenerateRequestID (random incoming : string) : string :=
  if decide (incoming ≠ "" ∧ isValidRequestID incoming = true) then incoming else generateRequestID random.
(** The middleware: the value kept in the context and sent in the header. *)
Definition RequestID (random incoming : string) (headers : gmap string string) : string * gmap string string :=
  let id := extractOrGenerateRequestID random incoming in (id, <[RequestIDHeader := id]> headers).

Lemma isValidRequestID_iff id : isValidRequestID id = true ↔ (1 ≤ String.length id ≤ 32)%nat ∧ all_chars id_char id = true.
Proof.
  unfold isValidRequestID. destruct (_ || _) eqn:E.
  - split; [done|]. intros [Hl _]. apply orb_prop in E as [E|E]; [apply Nat.eqb_eq in E|apply Nat.ltb_lt in E]; lia.
  - apply MatchString_bounded.
Qed.
Lemma hex_encode_id s : all_chars id_char (hex_encode s) = true ∧ String.length (hex_encode s) = (2 * String.length s)%nat.
Proof.
  induction s as [|c s [IH1 IH2]]; [done|]. cbn [hex_encode]. split.
  - cbn [all_chars]. rewrite IH1, andb_true_r. clear. destruct c as [[] [] [] [] [] [] [] []]; reflexivity.
  - cbn [String.length]. rewrite IH2. lia.
Qed.

(** Whatever a caller sends, the identifier that is kept, logged and sent
    back has one to 32 letters, digits, dashes, underscores and dots; the
    caller's own is kept exactly when it is such a text. *)
Theorem request_id_clean random incoming headers :
  String.length random = 8%nat →
  let '(id, headers') := RequestID random incoming headers in
  headers' !! RequestIDHeader = Some id ∧ (1 ≤ String.length id ≤ 32)%nat ∧ all_chars id_char id = true ∧
  (all_chars id_char incoming = true → (1 ≤ String.length incoming ≤ 32)%nat → id = incoming).
Proof.
  intros Hr. unfold RequestID, extractOrGenerateRequestID. cbn zeta. rewrite lookup_insert_eq.
  destruct (decide _) as [[_ Hv]|Hn].
  - apply isValidRequestID_iff in Hv as [Hl Hv]. auto.
  - destruct (hex_encode_id random) as [Hc Hl]. unfold generateRequestID. split_and!; [done|lia|lia|done|].
    intros Ha Hb. exfalso. apply Hn. split; [intros ->; cbn in Hb; lia|by apply isValidRequestID_iff].
Qed.
Lemma request_id_clean_witness :
  let r := bytes [1; 2; 3; 4; 5; 6; 7; 255]%nat in
  (String.length r = 8%nat ∧ (RequestID r "a b" ∅).1 = "01020304050607ff") ∧
  let '(id, headers') := RequestID r "a b" ∅ in
  headers' !! RequestIDHeader = Some id ∧ (1 ≤ String.length id ≤ 32)%nat ∧ all_chars id_char id = true ∧
  (all_chars id_char "a b" = true → (1 ≤ String.length "a b" ≤ 32)%nat → id = "a b").
Proof. cbn zeta. split; [split; vm_compute; reflexivity|]. apply (request_id_clean _ "a b" ∅). reflexivity. Defined.
End RequestID.

(** ** Recovery from panics *)
Module Recovery.
Import Redactor RequestID.
Definition maxStackBytes : nat := 4000.
Definition internalErrorMessage : string := "Internal server error".
Definition internalErrorCode : string := "INTERNAL_ERROR".
Definition redactedPlaceholder : string := "[REDACTED]".

Definition secretPatterns : list re :=
  [Seq (Group 1 (alts (map ci ["bearer"; "token"; "auth"; "key"; "secret"; "password"; "passwd"; "pwd"]))) (Group 2 (Class (none is_word)))].
Definition redactSecrets (s : string) : string :=
  MaskPII (foldl (λ s r, ReplaceAll r (λ _ _, redactedPlaceholder) s) s secretPatterns).
Definition sanitizeStack (stack : string) : string :=
  if (String.length stack <=? maxStackBytes)%nat then stack else substring 0 maxStackBytes stack +:+ "... (truncated)".

Definition media_type (part : string) : string :=
  TrimSpace (match cut_char ";" part with Some (a, _) => a | None => part end).
Fixpoint prefers_text (parts : list string) : bool :=
  match parts with
  | [] => false
  | part :: parts =>
      if EqualFold (media_type part) "text/plain" then true
      else if EqualFold (media_type part) "application/json" then false
      else prefers_text parts
  end.
Definition wantsPlainText (accept : string) : bool :=
  if decide (accept = "") then false else prefers_text (split_char "," accept).

(** The request as the handler left it. *)
Record Context := {
  stored_id : string;
  header_id : string;
  accept : string;
  written : bool;
}.
Inductive reply :=
| Nothing
| PlainText (status : Z) (body : string)
| Envelope (status : Z) (error code request : string).
Record log_entry := { l_request : string; l_panic : string; l_stack : string; l_partial : bool }.
Definition newline : string := String "010" "".

(** What the caller gets and what is logged; [header] is the request
    identifier sent. *)
Definition handlePanic (random panic stack : string) (c : Context) : string * reply * log_entry :=
  let requestID := if decide (stored_id c = "") then extractOrGenerateRequestID random (header_id c) else stored_id c in
  let entry := {| l_request := requestID; l_panic := redactSecrets panic; l_stack := redactSecrets (sanitizeStack stack); l_partial := written c |} in
  let answer :=
    if written c then Nothing
    else if wantsPlainText (accept c) then PlainText 500 ("Internal Server Error" +:+ newline +:+ "Request ID: " +:+ requestID +:+ newline)
    else Envelope 500 internalErrorMessage internalErrorCode requestID in
  (requestID, answer, entry).

(** A caller learns nothing of a panic: the reply and the identifier are the
    same whatever the panic and the stack were. *)
Theorem panic_not_disclosed random p1 st1 p2 st2 c :
  (handlePanic random p1 st1 c).1 = (handlePanic random p2 st2 c).1.
Proof. done. Qed.

(** The log keeps the secret. The expression takes the name and the character
    after it, not what follows, and so also hides the name from the masking
    that would have found the value. *)
Theorem panic_secret_logged random c :
  l_panic (handlePanic random "bad password=hunter2" "" c).2 = "bad [REDACTED]hunter2" ∧
  MaskPII "bad password=hunter2" = "bad password=***REDACTED***".
Proof. split; vm_compute; reflexivity. Qed.

(** At most [maxStackBytes] of a stack and the mark of the cut are used. *)
Lemma sanitizeStack_bound stack : (String.length (sanitizeStack stack) ≤ maxStackBytes + 15)%nat.
Proof.
  unfold sanitizeStack. destruct (_ <=? _)%nat eqn:E; [apply Nat.leb_le in E; lia|]. apply Nat.leb_gt in E.
  rewrite length_append, length_substring0 by lia. change (String.length "... (truncated)") with 15%nat. lia.
Qed.
End Recovery.
