(* ===== verification/Middleware.v ===== *)
(** * Middleware around every request

    - [Addresses] models [getClientIP] and [internal/middleware/ip_restriction.go];
    - [Cors] models [internal/middleware/cors.go];
    - [Size] models [internal/middleware/request_size.go];
    - [Deprecation] models the handler of [internal/middleware/deprecation.go];
    - [Faults] models [internal/middleware/fault_injection.go];
    - [Security] models [internal/middleware/security.go].

    A middleware answers itself, with a status, or lets the request go on.
    Header names are the texts the code writes; setting a header twice keeps
    the last value. Routing, the address the server sees, random bytes,
    [strconv.ParseFloat] and [time.ParseDuration] are parameters. *)
From Stdlib Require Import ZArith Lia Ascii String SpecFloat.
From stdpp Require Import base gmap strings list sorting.
From S2P Require Import Prelude GoStrings GoFloat GoBase64 GoRegexp GoNet WebhookVerify Auth.
#[local] Open Scope string_scope.
#[local] Open Scope Z_scope.

Notation headers := (gmap string string).
(** [Header().Get]. *)
Definition Get (h : headers) (k : string) : string := default "" (h !! k).
Inductive verdict := Aborted (status : Z) | Passed.

(** ** Addresses *)
Module Addresses.
(** The request's own headers, and the address gin derives. *)
Record Caller := { X_Forwarded_For : string; X_Real_IP : string; ClientIP : string }.
Definition getClientIP (c : Caller) : string :=
  if decide (X_Forwarded_For c ≠ "") then
    match cut_char "," (X_Forwarded_For c) with Some (a, _) => a | None => X_Forwarded_For c end
  else if decide (X_Real_IP c ≠ "") then X_Real_IP c
  else ClientIP c.

Definition allowedNets (allowedCIDRs : list string) : list IPNet := omap ParseCIDR allowedCIDRs.
Definition IPRestrictionMiddleware (allowedCIDRs : list string) (c : Caller) : verdict :=
  match ParseIP (getClientIP c) with
  | None => Aborted 403
  | Some ip => if any (λ net, Contains net ip) (allowedNets allowedCIDRs) then Passed else Aborted 403
  end.

(** A request passes exactly when its address parses and lies in one of the
    networks that parse; without any, none does. *)
Lemma restriction_exact cidrs c :
  IPRestrictionMiddleware cidrs c = Passed ↔
  ∃ ip cidr net, ParseIP (getClientIP c) = Some ip ∧ cidr ∈ cidrs ∧ ParseCIDR cidr = Some net ∧ Contains net ip = true.
Proof.
  unfold IPRestrictionMiddleware. destruct (ParseIP (getClientIP c)) as [ip|]; [|split; [done|naive_solver]].
  destruct (any _ _) eqn:E.
  - apply any_true in E as (net & Hn & Hc). unfold allowedNets in Hn. apply list_elem_of_omap in Hn as (cidr & Hin & Hp). split; [|done]. eauto 10.
  - split; [done|]. intros (ip' & cidr & net & [= <-] & Hin & Hp & Hc). exfalso.
    enough (any (λ net, Contains net ip) (allowedNets cidrs) = true) by congruence.
    apply any_true. exists net. split; [|done]. apply list_elem_of_omap. eauto.
Qed.

(** A network of [n] leading bits given for an IPv4 address holds the IPv4
    addresses with the same leading [n] bits. *)
Theorem restriction_bits addr n cidr c a b e d x y z w :
  cut_char "/" cidr = Some (addr, n) → ParseAddr addr = Some (true, (v4InV6Prefix ++ [a; b; e; d])%list) →
  ParseIP (getClientIP c) = Some (v4InV6Prefix ++ [x; y; z; w])%list →
  is_bytes [a; b; e; d] → is_bytes [x; y; z; w] →
  ∀ k, prefix_length n 32 = Some k → 0 ≤ k →
  (IPRestrictionMiddleware [cidr] c = Passed ↔ num [a; b; e; d] / 2 ^ (32 - k) = num [x; y; z; w] / 2 ^ (32 - k)).
Proof.
  intros Hcut Ha Hp Hb1 Hb2 k Hk Hk0.
  assert (k ≤ 32) as Hk32.
  { unfold prefix_length in Hk. case_decide; [done|]. destruct (parse_digits 0 n) as [v|]; [|done]. cbn in Hk.
    destruct (v <=? 32) eqn:E; simplify_eq. lia. }
  assert (ParseCIDR cidr = Some {| net_IP := and_bytes [a; b; e; d] (CIDRMask k 4); net_Mask := CIDRMask k 4 |}) as Hc.
  { unfold ParseCIDR. rewrite Hcut, Ha. cbn. by rewrite Hk. }
  rewrite <- v4_mask_bits by (done || lia).
  assert (∀ u v : Z, Z.land (Z.land u v) v = Z.land u v) as Hl by (intros; by rewrite <- Z.land_assoc, Z.land_diag).
  assert (Contains {| net_IP := and_bytes [a; b; e; d] (CIDRMask k 4); net_Mask := CIDRMask k 4 |} (v4InV6Prefix ++ [x; y; z; w])%list
    = bool_decide (and_bytes [a; b; e; d] (CIDRMask k 4) = and_bytes [x; y; z; w] (CIDRMask k 4))) as Hcon.
  { unfold Contains, networkNumberAndMask, CIDRMask, and_bytes. cbn -[mask_byte Z.land]. by rewrite !Hl. }
  unfold IPRestrictionMiddleware, allowedNets. rewrite Hp. assert (omap ParseCIDR [cidr] = _) as -> by (simpl; rewrite Hc; reflexivity). cbn [any]. rewrite Hcon.
  case_bool_decide; split; done.
Qed.

(** A caller names its own address: with an allowed one in the header,
    everybody passes. *)
Theorem forwarded_header_decides cidrs c peer :
  X_Forwarded_For c ≠ "" ∨ X_Real_IP c ≠ "" →
  IPRestrictionMiddleware cidrs {| X_Forwarded_For := X_Forwarded_For c; X_Real_IP := X_Real_IP c; ClientIP := peer |} =
  IPRestrictionMiddleware cidrs c.
Proof. intros H. unfold IPRestrictionMiddleware, getClientIP. cbn. repeat case_decide; naive_solver. Qed.
Lemma forwarded_header_decides_witness :
  let c := {| X_Forwarded_For := "10.1.2.3"; X_Real_IP := ""; ClientIP := "10.9.9.9" |} in
  IPRestrictionMiddleware ["10.0.0.0/8"] {| X_Forwarded_For := "10.1.2.3"; X_Real_IP := ""; ClientIP := "203.0.113.9" |} =
  IPRestrictionMiddleware ["10.0.0.0/8"] c ∧ IPRestrictionMiddleware ["10.0.0.0/8"] c = Passed.
Proof. cbn zeta. split; [|vm_compute; reflexivity]. apply (forwarded_header_decides ["10.0.0.0/8"] {| X_Forwarded_For := "10.1.2.3"; X_Real_IP := ""; ClientIP := "10.9.9.9" |}). left. discriminate. Defined.
End Addresses.

(** ** Cross-origin requests *)
Module Cors.
Definition defaultAllowHeaders : list string :=
  ["Content-Type"; "Authorization"; "Idempotency-Key"; "X-Request-ID"; "X-Admin-Token"; "X-Stellabill-Date";
   "X-Stellabill-Request-ID"; "X-Stellabill-Signature"].
Definition addHeader (acc : gset string * list string) (header : string) : gset string * list string :=
  let '(seen, allow) := acc in
  let header := TrimSpace header in
  if decide (header = "") then acc
  else if decide (ToLower header ∈ seen) then acc
  else ({[ToLower header]} ∪ seen, (allow ++ [header])%list).
Definition allow_list (requested : string) : list string :=
  (foldl addHeader (foldl addHeader (∅, []) defaultAllowHeaders) (split_char "," requested)).2.
Definition buildAllowHeaders (requested : string) : string := Join (allow_list requested) ", ".

Definition isProdEnv (env : string) : bool := bool_decide (env = "production" ∨ env = "staging").
Definition allowedOrigins (env raw : string) : gset string :=
  list_to_set (filter (λ o, o ≠ "" ∧ ¬ (isProdEnv env = true ∧ o = "*")) (map (λ o, TrimSpace (ToLower o)) (split_char "," raw))).

Definition methods : string := "GET, POST, PUT, PATCH, DELETE, OPTIONS".
Definition with_policy (origin allow : string) (h : headers) : headers :=
  <["Access-Control-Allow-Headers" := allow]> (<["Access-Control-Allow-Methods" := methods]> (<["Access-Control-Allow-Origin" := origin]> h)).

Definition CORS (env raw method origin requested : string) (h : headers) : headers * verdict :=
  let prod := isProdEnv env in
  let allowed := allowedOrigins env raw in
  let wild := negb prod && bool_decide (allowed = ∅ ∨ "*" ∈ allowed) in
  let h := <["Vary" := "Origin, Access-Control-Request-Headers"]> h in
  let allow := buildAllowHeaders requested in
  if decide (origin = "") then
    if bool_decide (method = "OPTIONS") && wild then (with_policy "*" allow h, Aborted 204) else (h, Passed)
  else
    let isAllowed := wild || bool_decide (ToLower origin ∈ allowed) in
    if negb isAllowed then (h, if decide (method = "OPTIONS") then Aborted 403 else Passed)
    else
      let allowOrigin := if wild then "*" else origin in
      let h := with_policy allowOrigin allow h in
      let h := if decide (allowOrigin ≠ "*") then <["Access-Control-Allow-Credentials" := "true"]> h else h in
      (h, if decide (method = "OPTIONS") then Aborted 204 else Passed).

Lemma prod_no_wildcard env raw : isProdEnv env = true → "*" ∉ allowedOrigins env raw.
Proof. unfold allowedOrigins. intros Hp [[_ Hn] _]%elem_of_list_to_set%list_elem_of_filter. by apply Hn. Qed.
Lemma allowedOrigins_listed env raw o : o ∈ allowedOrigins env raw → ∃ x, x ∈ split_char "," raw ∧ o = TrimSpace (ToLower x).
Proof. unfold allowedOrigins. intros [_ (x & -> & Hx)%list_elem_of_fmap]%elem_of_list_to_set%list_elem_of_filter. eauto. Qed.

Definition untouched (h : headers) : Prop :=
  h !! "Access-Control-Allow-Origin" = None ∧ h !! "Access-Control-Allow-Credentials" = None.

(** Another site is let in only by name. In production and staging a response
    allows an origin only when it is the request's own and is on the list,
    and never all of them; and nowhere are credentials allowed together with
    all origins. *)
Theorem cors_origins env raw method origin requested h :
  untouched h →
  let h' := (CORS env raw method origin requested h).1 in
  (∀ o, h' !! "Access-Control-Allow-Origin" = Some o → isProdEnv env = true →
    o = origin ∧ o ≠ "*" ∧ ∃ x, x ∈ split_char "," raw ∧ ToLower origin = TrimSpace (ToLower x)) ∧
  (∀ v, h' !! "Access-Control-Allow-Credentials" = Some v →
    h' !! "Access-Control-Allow-Origin" = Some origin ∧ origin ≠ "*" ∧ ToLower origin ∈ allowedOrigins env raw).
Proof.
  intros [Ho Hc]. unfold CORS, with_policy. cbn zeta. pose proof (prod_no_wildcard env raw) as Hw.
  pose proof (allowedOrigins_listed env raw (ToLower origin)) as Hl.
  destruct (isProdEnv env) eqn:Hp; cbn [negb andb orb].
  - rewrite andb_false_r. case_decide; [simplify_map_eq; split; intros ? ?; simplify_map_eq|].
    case_bool_decide as Hin; cbn [negb]; [|simplify_map_eq; split; intros ? ?; simplify_map_eq].
    assert (origin ≠ "*") as Hstar by (intros ->; by apply Hw). rewrite !decide_True by done.
    split; intros ? ?; simplify_map_eq; eauto.
  - split; [done|]. case_decide as E0; [destruct (_ && _); intros ? ?; simplify_map_eq|].
    destruct (bool_decide (allowedOrigins env raw = ∅ ∨ "*" ∈ allowedOrigins env raw)) eqn:Ew; cbn [orb negb].
    + rewrite decide_False by auto. intros ? ?; simplify_map_eq.
    + apply bool_decide_eq_false in Ew. case_bool_decide as Hin; cbn [negb]; [|intros ? ?; simplify_map_eq].
      assert (origin ≠ "*") as Hstar by (intros ->; apply Ew; by right).
      rewrite !decide_True by done. intros ? ?; simplify_map_eq; auto.
Qed.
Lemma cors_origins_witness :
  let r := CORS "production" "https://app.example, *" "GET" "https://App.example" "" ∅ in
  untouched ∅ ∧ r.1 !! "Access-Control-Allow-Origin" = Some "https://App.example" ∧
  let h' := r.1 in
  (∀ o, h' !! "Access-Control-Allow-Origin" = Some o → isProdEnv "production" = true →
    o = "https://App.example" ∧ o ≠ "*" ∧ ∃ x, x ∈ split_char "," "https://app.example, *" ∧ ToLower "https://App.example" = TrimSpace (ToLower x)) ∧
  (∀ v, h' !! "Access-Control-Allow-Credentials" = Some v →
    h' !! "Access-Control-Allow-Origin" = Some "https://App.example" ∧ "https://App.example" ≠ "*" ∧
    ToLower "https://App.example" ∈ allowedOrigins "production" "https://app.example, *").
Proof.
  cbn zeta. split; [by split|split; [vm_compute; reflexivity|]].
  apply (cors_origins "production" "https://app.example, *" "GET" "https://App.example" "" ∅). by split.
Defined.

(** *** The headers a preflight allows *)
Lemma addHeader_seen acc x :
  (∀ k, k ∈ acc.1 ↔ ∃ y, y ∈ acc.2 ∧ ToLower y = k) → NoDup (map ToLower acc.2) →
  (∀ k, k ∈ (addHeader acc x).1 ↔ ∃ y, y ∈ (addHeader acc x).2 ∧ ToLower y = k) ∧ NoDup (map ToLower (addHeader acc x).2) ∧
  acc.2 ⊆ (addHeader acc x).2 ∧ (TrimSpace x ≠ "" → ∃ y, y ∈ (addHeader acc x).2 ∧ ToLower y = ToLower (TrimSpace x)).
Proof.
  destruct acc as [seen allow]. intros Hs Hn. unfold addHeader. case_decide; [cbn; split_and!; [done|done|set_solver|done]|].
  case_decide as Hin; cbn in *; [split_and!; [done|done|set_solver|intros _; by apply Hs]|].
  split_and!.
  - intros k. rewrite elem_of_union, elem_of_singleton, Hs. setoid_rewrite elem_of_app. setoid_rewrite list_elem_of_singleton. naive_solver.
  - rewrite map_app. apply NoDup_app. split_and!; [done| |apply NoDup_singleton].
    intros k (y & -> & Hy)%list_elem_of_fmap Hk. cbn in Hk. apply list_elem_of_singleton in Hk. apply Hin. apply Hs. eauto.
  - set_solver.
  - intros _. exists (TrimSpace x). set_solver.
Qed.
Lemma addHeaders l acc :
  (∀ k, k ∈ acc.1 ↔ ∃ y, y ∈ acc.2 ∧ ToLower y = k) → NoDup (map ToLower acc.2) →
  let acc' := foldl addHeader acc l in
  (∀ k, k ∈ acc'.1 ↔ ∃ y, y ∈ acc'.2 ∧ ToLower y = k) ∧ NoDup (map ToLower acc'.2) ∧ acc.2 ⊆ acc'.2 ∧
  (∀ x, x ∈ l → TrimSpace x ≠ "" → ∃ y, y ∈ acc'.2 ∧ ToLower y = ToLower (TrimSpace x)).
Proof.
  revert acc. induction l as [|x l IH]; intros acc Hs Hn; cbn [foldl]; [cbn zeta; split_and!; [done|done|done|set_solver]|].
  destruct (addHeader_seen acc x Hs Hn) as (Hs1 & Hn1 & Hsub1 & Hx). destruct (IH _ Hs1 Hn1) as (Hs2 & Hn2 & Hsub2 & Hl). cbn zeta.
  split_and!; [done|done|set_solver|]. intros z [->|Hz]%elem_of_cons Hne; [|by apply Hl]. destruct (Hx Hne) as (y & Hy & Ey). exists y. split; [|done]. by apply Hsub2.
Qed.

(** A preflight allows each header once, the built-in ones and every one the
    request asks for. *)
Theorem allow_headers_reflect requested :
  NoDup (map ToLower (allow_list requested)) ∧
  (∀ x, x ∈ defaultAllowHeaders ∨ x ∈ split_char "," requested → TrimSpace x ≠ "" →
    ∃ y, y ∈ allow_list requested ∧ ToLower y = ToLower (TrimSpace x)).
Proof.
  unfold allow_list. destruct (addHeaders defaultAllowHeaders (∅, [])) as (H1 & H2 & _ & H4); [set_solver|constructor|].
  destruct (addHeaders (split_char "," requested) _ H1 H2) as (_ & H6 & H7 & H8). split; [done|].
  intros x [Hx|Hx] Hne; [|by apply H8]. destruct (H4 x Hx Hne) as (y & Hy & Ey). exists y. split; [by apply H7|done].
Qed.
End Cors.

(** ** Size of bodies *)
Module Size.
(** [io.ReadAll] of [io.LimitReader(body, n)]: an error after the limit is
    never met. *)
Definition ReadLimited (n : Z) (b : Body) : result string string :=
  if n <=? 0 then Ok ""
  else if n <=? Z.of_nat (String.length (data b)) then Ok (substring 0 (Z.to_nat n) (data b))
  else ReadAll b.
Inductive size_result := TooLarge | BadBody | Forward (b : Body).
Definition RequestSizeLimit (maxBytes : Z) (b : Body) : size_result :=
  if maxBytes <=? 0 then Forward b
  else match ReadLimited (wrap64 (maxBytes + 1)) b with
       | Err _ => BadBody
       | Ok body => if maxBytes <? Z.of_nat (String.length body) then TooLarge else Forward {| data := body; fails := None |}
       end.

Lemma wrap64_succ z : 0 < z < max_int64 → wrap64 (z + 1) = z + 1.
Proof. intros H. apply wrap64_id. unfold in_int64, min_int64, max_int64 in *. lia. Qed.

(** A body goes on, as it is, exactly when it can be read and has at most the
    limit; a longer one is refused without reading more than one byte past
    the limit. *)
Theorem size_limit_exact maxBytes b :
  0 < maxBytes < max_int64 →
  let n := Z.of_nat (String.length (data b)) in
  (RequestSizeLimit maxBytes b = TooLarge ↔ maxBytes < n) ∧
  (RequestSizeLimit maxBytes b = BadBody ↔ n ≤ maxBytes ∧ is_Some (fails b)) ∧
  (∀ b', RequestSizeLimit maxBytes b = Forward b' ↔ n ≤ maxBytes ∧ fails b = None ∧ b' = b) ∧
  (∀ tail, maxBytes < n → RequestSizeLimit maxBytes {| data := data b +:+ tail; fails := fails b |} = TooLarge).
Proof.
  intros Hm. assert (∀ b, RequestSizeLimit maxBytes b =
    if maxBytes <? Z.of_nat (String.length (data b)) then TooLarge else match fails b with Some _ => BadBody | None => Forward b end) as E.
  { clear b. intros b. unfold RequestSizeLimit, ReadLimited. rewrite wrap64_succ by done.
    destruct (maxBytes <=? 0) eqn:E0; [lia|]. destruct (maxBytes + 1 <=? 0) eqn:E1; [lia|].
    destruct (maxBytes <? Z.of_nat (String.length (data b))) eqn:E2.
    - destruct (maxBytes + 1 <=? Z.of_nat _) eqn:E3; [|lia]. rewrite length_substring0 by lia.
      by rewrite (proj2 (Z.ltb_lt maxBytes (Z.of_nat (Z.to_nat (maxBytes + 1))))) by lia.
    - destruct (maxBytes + 1 <=? Z.of_nat _) eqn:E3; [lia|]. unfold ReadAll. destruct b as [d [e|]]; cbn in *; [done|]. by rewrite E2. }
  cbn zeta. split_and!; [rewrite E|rewrite E|intros b'; rewrite E|intros tail Hn; rewrite E; cbn; rewrite length_append].
  - destruct (_ <? _) eqn:E1; [split; [lia|done]|]. destruct (fails b); split; (done || lia).
  - destruct (_ <? _) eqn:E1; [split; [done|lia]|]. destruct (fails b); split; try done; [intros _; split; [lia|eauto]|intros [_ [? ?]]; done].
  - destruct (_ <? _) eqn:E1; [split; [done|lia]|]. destruct (fails b) eqn:Ef; [naive_solver|]. split; [intros [= <-]; split_and!; [lia|done|done]|intros (_ & _ & ->); done].
  - rewrite (proj2 (Z.ltb_lt _ _)) by lia. done.
Qed.

(** With the largest limit there is, the sum overflows and every body is
    replaced by an empty one. *)
Theorem size_limit_overflow b : RequestSizeLimit max_int64 b = Forward {| data := ""; fails := None |}.
Proof. done. Qed.
End Size.

(** ** Deprecated routes *)
Module Deprecation.
Definition quote : string := String "034" "".
Definition link (path : string) : string := "</api/v1" +:+ TrimPrefix path "/api" +:+ ">; rel=" +:+ quote +:+ "successor-version" +:+ quote.
(** [sunset] is the parsed date, empty when there is none. *)
Definition DeprecationHeaders (sunset path : string) (h : headers) : headers :=
  if negb (HasPrefix path "/api/") || HasPrefix path "/api/v1/" then h
  else
    let h := <["Deprecation" := "true"]> h in
    let h := if decide (sunset ≠ "") then <["Sunset" := sunset]> h else h in
    <["Link" := link path]> h.

Lemma prefix_app_iff p q s : String.prefix (p +:+ q) (p +:+ s) = String.prefix q s.
Proof. induction p as [|c p IH]; [done|]. change (String.prefix (String c (p +:+ q)) (String c (p +:+ s)) = String.prefix q s). cbn. by destruct (ascii_dec c c). Qed.

(** The successor of a deprecated route is the same route under the current
    version, and routes of that version are not marked. *)
Theorem deprecation_link sunset rest h :
  DeprecationHeaders sunset ("/api/v1/" +:+ rest) h = h ∧
  (String.prefix "v1/" rest = false →
    DeprecationHeaders sunset ("/api/" +:+ rest) h !! "Link" =
      Some ("</api/v1/" +:+ rest +:+ ">; rel=" +:+ quote +:+ "successor-version" +:+ quote) ∧
    DeprecationHeaders sunset ("/api/" +:+ rest) h !! "Deprecation" = Some "true").
Proof.
  unfold DeprecationHeaders, HasPrefix. split.
  - replace (String.prefix "/api/v1/" ("/api/v1/" +:+ rest)) with true; [by rewrite orb_true_r|].
    symmetry. pose proof (prefix_app_iff "/api/v1/" "" rest) as E. rewrite append_nil_r in E. rewrite E. by destruct rest.
  - intros Hv. pose proof (prefix_app_iff "/api/" "v1/" rest) as E1. change ("/api/" +:+ "v1/") with "/api/v1/" in E1. rewrite E1, Hv.
    pose proof (prefix_app_iff "/api/" "" rest) as E2. rewrite append_nil_r in E2. rewrite E2.
    replace (String.prefix "" rest) with true by (by destruct rest). cbn [negb orb].
    rewrite lookup_insert_eq, lookup_insert_ne by done. unfold link. split; [by rewrite (TrimPrefix_app "/api" ("/" +:+ rest) : TrimPrefix ("/api/" +:+ rest) "/api" = _)|].
    case_decide; simplify_map_eq; done.
Qed.

(** The version's own root is taken for a deprecated route, whose successor
    does not exist. *)
Theorem version_root_marked h :
  DeprecationHeaders "" "/api/v1" h !! "Link" = Some ("</api/v1/v1>; rel=" +:+ quote +:+ "successor-version" +:+ quote).
Proof. unfold DeprecationHeaders. cbn. by rewrite lookup_insert_eq. Qed.
End Deprecation.

(** ** Fault injection *)
Module Faults.
Import Auth.Roles.
Definition maxFaultLatency : Duration := 5 * Time.Second.
Record FaultSpec := { Latency : Duration; Status : Z; Prob : float64; Cancel : bool }.
Definition no_fault : FaultSpec := {| Latency := 0; Status := 0; Prob := f_of_int 0; Cancel := false |}.
Inductive fault_error :=
| NotKeyValue (segment : string)
| EmptyKeyOrValue (segment : string)
| BadLatency (value : string)
| BadStatus (value : string)
| BadProbability (value : string)
| BadCancel (value : string)
| UnknownKey (key : string)
| NoDirectives.

Section parse.
Context (ParseDuration : string → option Duration) (ParseFloat : string → option float64).

(** One directive. *)
Definition directive (key value : string) (cfg : FaultSpec) : result fault_error FaultSpec :=
  if decide (key = "latency") then
    match ParseDuration value with
    | Some d => if d <? 0 then Err (BadLatency value)
                else Ok {| Latency := d; Status := Status cfg; Prob := Prob cfg; Cancel := Cancel cfg |}
    | None => Err (BadLatency value)
    end
  else if decide (key = "status") then
    match ParseInt value with
    | Some s => if (s <? 100) || (599 <? s) then Err (BadStatus value)
                else Ok {| Latency := Latency cfg; Status := s; Prob := Prob cfg; Cancel := Cancel cfg |}
    | None => Err (BadStatus value)
    end
  else if decide (key = "prob") then
    match ParseFloat value with
    | Some p => if f_lt p (f_of_int 0) || f_lt (f_of_int 1) p then Err (BadProbability value)
                else Ok {| Latency := Latency cfg; Status := Status cfg; Prob := p; Cancel := Cancel cfg |}
    | None => Err (BadProbability value)
    end
  else if decide (key = "cancel") then
    match ParseBool value with
    | Some b => Ok {| Latency := Latency cfg; Status := Status cfg; Prob := Prob cfg; Cancel := b |}
    | None => Err (BadCancel value)
    end
  else Err (UnknownKey key).

Definition segment (pair : string) (acc : FaultSpec * bool) : result fault_error (FaultSpec * bool) :=
  let trimmed := TrimSpace pair in
  if decide (trimmed = "") then Ok acc
  else match cut_char "=" trimmed with
  | None => Err (NotKeyValue trimmed)
  | Some (k, v) =>
      let key := TrimSpace k in
      let value := TrimSpace v in
      if decide (key = "" ∨ value = "") then Err (EmptyKeyOrValue trimmed)
      else match directive key value acc.1 with Ok cfg => Ok (cfg, true) | Err e => Err e end
  end.
Fixpoint segments (pairs : list string) (acc : FaultSpec * bool) : result fault_error (FaultSpec * bool) :=
  match pairs with
  | [] => Ok acc
  | p :: pairs => match segment p acc with Ok acc => segments pairs acc | Err e => Err e end
  end.
Definition capped (cfg : FaultSpec) : FaultSpec :=
  if maxFaultLatency <? Latency cfg
  then {| Latency := maxFaultLatency; Status := Status cfg; Prob := Prob cfg; Cancel := Cancel cfg |} else cfg.
Definition ParseFaultHeader (header : string) : result fault_error FaultSpec :=
  let header := TrimSpace header in
  if decide (header = "") then Ok no_fault
  else match segments (split_char "," header) (no_fault, false) with
       | Err e => Err e
       | Ok (cfg, seen) => if seen : bool then Ok (capped cfg) else Err NoDirectives
       end.

Definition isAdminCaller (c : gmap string ctx_value) : bool := any (λ r, EqualFold r "admin") (ExtractRoles c).

(** What happens to the request: refused for its header, answered with a
    status after a wait, or passed on after a wait, cancelled or not. *)
Inductive fault := BadHeader (e : fault_error) | Fails (status : Z) (waited : Duration) (cancelled : bool) | Goes (waited : Duration) (cancelled : bool).
(** [random] is what [rand.Float64] gives. *)
Definition FaultInjection (enabled : bool) (c : gmap string ctx_value) (random : float64) (raw : string) : fault :=
  let header := TrimSpace raw in
  if negb enabled then Goes 0 false
  else if negb (isAdminCaller c) then Goes 0 false
  else if decide (header = "") then Goes 0 false
  else match ParseFaultHeader header with
  | Err e => BadHeader e
  | Ok cfg =>
      if SFeqb (Prob cfg) (f_of_int 0) then Goes 0 false
      else if f_lt (f_of_int 0) (Prob cfg) && f_lt (Prob cfg) random then Goes 0 false
      else
        let waited := if 0 <? Latency cfg then Z.min maxFaultLatency (Latency cfg) else 0 in
        if (500 <=? Status cfg) && (Status cfg <=? 599) then Fails (Status cfg) waited (Cancel cfg) else Goes waited (Cancel cfg)
  end.

(** *** Only administrators, within bounds *)
Definition disturbed (f : fault) : bool :=
  match f with Goes w c => negb (w =? 0) || c | _ => true end.

Theorem faults_bounded enabled ctx random raw :
  let f := FaultInjection enabled ctx random raw in
  (disturbed f = true → enabled = true ∧ ∃ r, r ∈ ExtractRoles ctx ∧ EqualFold r "admin" = true) ∧
  (∀ s w c, f = Fails s w c → 500 ≤ s ≤ 599 ∧ 0 ≤ w ≤ maxFaultLatency) ∧
  (∀ w c, f = Goes w c → 0 ≤ w ≤ maxFaultLatency).
Proof.
  cbn zeta. unfold FaultInjection, maxFaultLatency, Time.Second, Time.Millisecond. destruct enabled; cbn [negb]; [|split_and!; naive_solver lia].
  destruct (isAdminCaller ctx) eqn:Ea; cbn [negb]; [|split_and!; naive_solver lia].
  apply any_true in Ea. repeat case_match; cbn; split_and!; naive_solver lia.
Qed.

(** A header that names no probability disturbs nothing: the probability it
    leaves is zero. *)
Definition names_prob (pair : string) : bool :=
  match cut_char "=" (TrimSpace pair) with Some (k, _) => bool_decide (TrimSpace k = "prob") | None => false end.
Lemma segments_prob pairs cfg seen cfg' seen' :
  any names_prob pairs = false → segments pairs (cfg, seen) = Ok (cfg', seen') → Prob cfg' = Prob cfg.
Proof.
  revert cfg seen. induction pairs as [|p pairs IH]; intros cfg seen Hn H; cbn in *; [by simplify_eq|].
  destruct (names_prob p) eqn:Hp; [done|]. destruct (segment p (cfg, seen)) as [[cfg1 seen1]|] eqn:Es; [|done].
  rewrite (IH cfg1 seen1 Hn H). clear IH H Hn. unfold segment, names_prob, directive in *.
  repeat case_match; simplify_eq; try done. all: apply bool_decide_eq_false in Hp; congruence.
Qed.
Theorem fault_needs_probability enabled ctx random raw cfg :
  any names_prob (split_char "," (TrimSpace raw)) = false → ParseFaultHeader raw = Ok cfg →
  FaultInjection enabled ctx random raw = Goes 0 false.
Proof.
  intros Hn Hp. unfold FaultInjection. destruct enabled, (isAdminCaller ctx); try done. cbn [negb]. case_decide as E0; [done|].
  unfold ParseFaultHeader in *. rewrite TrimSpace_idemp. rewrite decide_False in Hp by done. rewrite decide_False by done.
  destruct (segments _ _) as [[cfg' seen]|] eqn:Es; [|done]. destruct seen; [|done]. simplify_eq.
  apply segments_prob in Es; [|done]. replace (Prob (capped cfg')) with (Prob cfg') by (unfold capped; by destruct (_ <? _)).
  by rewrite Es.
Qed.

(** The middleware is installed before the one that finds the roles, so that
    no request is ever disturbed. *)
Theorem faults_before_authentication enabled ctx random raw :
  ctx !! RoleContextKey = None → ctx !! RolesContextKey = None → FaultInjection enabled ctx random raw = Goes 0 false.
Proof.
  intros H1 H2. unfold FaultInjection, isAdminCaller, ExtractRoles, rolesFromContext, named_roles. rewrite H1, H2. by destruct enabled.
Qed.
End parse.
End Faults.

(** ** Security headers *)
Module Security.
(** A response: the header map handlers change, and the headers as they were
    when the first byte or an explicit header went out, which is what the
    client gets. *)
Record response := { live : headers; sent : option headers }.
Definition set (k v : string) (r : response) : response := {| live := <[k := v]> (live r); sent := sent r |}.
Definition set_default (k v : string) (r : response) : response := if decide (Get (live r) k = "") then set k v r else r.
Definition flush (r : response) : response := {| live := live r; sent := Some (default (live r) (sent r)) |}.

Record Config := { Env : string; SecurityFrameAncestors : string; SecurityCSPReportURI : string }.
(** [random] is the sixteen random bytes, or none when the source fails. *)
Definition generateNonce (random : option string) : string :=
  match random with Some b => EncodeToString b | None => "fallback-nonce" end.
Definition report_uri (cfg : Config) : list string :=
  if decide (SecurityCSPReportURI cfg ≠ "") then ["report-uri " +:+ SecurityCSPReportURI cfg] else [].
Definition buildCSP (cfg : Config) (nonce : string) : string :=
  Join (["default-src 'self'"; "frame-ancestors " +:+ SecurityFrameAncestors cfg; "script-src 'self' 'nonce-" +:+ nonce +:+ "'"] ++ report_uri cfg) "; ".
Definition buildCSPReportOnly (cfg : Config) : string :=
  Join (["default-src 'none'"; "frame-ancestors 'none'"] ++ report_uri cfg) "; ".
Definition isJSONResponse (contentType : string) : bool := HasPrefix (ToLower contentType) "application/json".
Definition isHTMLResponse (contentType : string) : bool := HasPrefix (ToLower contentType) "text/html".

Definition CSP : string := "Content-Security-Policy".
Definition CSP_Report : string := "Content-Security-Policy-Report-Only".
(** Before the handler. *)
Definition baseline (cfg : Config) (r : response) : response :=
  let r := set_default "X-Frame-Options" "DENY" r in
  let r := set_default "X-Content-Type-Options" "nosniff" r in
  if decide (Env cfg ≠ "development") then set_default "Strict-Transport-Security" "max-age=31536000; includeSubDomains" r else r.
Definition SecurityHeaders (cfg : Config) (random : option string) (handler : string → response → response) (r : response) : response :=
  let r := baseline cfg r in
  let nonce := generateNonce random in
  let baseCSP := buildCSP cfg nonce in
  let r := handler nonce r in
  let contentType := Get (live r) "Content-Type" in
  if isHTMLResponse contentType then set_default CSP baseCSP r
  else
    let r := set_default CSP baseCSP r in
    if isJSONResponse contentType then set_default CSP_Report (buildCSPReportOnly cfg) r else r.

Lemma set_default_sent k v r : sent (set_default k v r) = sent r.
Proof. unfold set_default. by case_decide. Qed.
Lemma set_default_Get k v r : v ≠ "" → Get (live (set_default k v r)) k ≠ "".
Proof. intros Hv. unfold set_default, set, Get. case_decide; cbn; [by rewrite lookup_insert_eq|done]. Qed.
Lemma set_default_kept k v r k' : Get (live r) k' ≠ "" → Get (live (set_default k v r)) k' ≠ "".
Proof.
  intros H. unfold set_default. case_decide as E; [|done]. unfold set, Get in *. cbn. destruct (decide (k = k')) as [->|Hn]; [done|].
  by rewrite lookup_insert_ne.
Qed.

(** Every handler runs with the framing and sniffing headers set, and outside
    development with the transport one. *)
Theorem baseline_set cfg r :
  let h := live (baseline cfg r) in
  Get h "X-Frame-Options" ≠ "" ∧ Get h "X-Content-Type-Options" ≠ "" ∧ (Env cfg ≠ "development" → Get h "Strict-Transport-Security" ≠ "").
Proof.
  unfold baseline. cbn zeta. split_and!.
  - case_decide; repeat first [by apply set_default_Get|apply set_default_kept].
  - case_decide; repeat first [by apply set_default_Get|apply set_default_kept].
  - intros H. rewrite decide_True by done. by apply set_default_Get.
Qed.

(** The content policy is set too late: what a handler that writes a body
    sends is what it had when it wrote, without the policy. Only a response
    without a body gets it. *)
Theorem policy_after_body cfg random handler r :
  let r1 := handler (generateNonce random) (baseline cfg r) in
  let final := flush (SecurityHeaders cfg random handler r) in
  (∀ h, sent r1 = Some h → sent final = Some h) ∧
  (sent r1 = None → ∃ h, sent final = Some h ∧ Get h CSP ≠ "").
Proof.
  cbn zeta. unfold SecurityHeaders. cbn zeta. set (r1 := handler _ _). split.
  - intros h E. unfold flush. cbn. do 2 case_match; by rewrite !set_default_sent, E.
  - intros E. unfold flush. cbn.
    assert (buildCSP cfg (generateNonce random) ≠ "") as Hne by (unfold buildCSP; cbn; destruct (report_uri cfg); done).
    do 2 case_match; rewrite !set_default_sent, E; cbn; eexists; (split; [done|]); try (by apply set_default_Get);
      apply set_default_kept; by apply set_default_Get.
Qed.

(** *** Violation reports *)
Definition maxCSPReportBodyBytes : Z := 8 * 1024.
Fixpoint until_space (s : string) : string :=
  match s with
  | EmptyString => EmptyString
  | String c s => if bool_decide (c = " "%char ∨ c = "009"%char) then EmptyString else String c (until_space s)
  end.
Definition sanitizeDirective (d : string) : string :=
  let d := until_space (TrimSpace d) in
  let d := if (64 <? String.length d)%nat then substring 0 64 d else d in
  if decide (d = "") then "unknown" else d.

Section report.
(** The violated and the effective directive of a report, if it parses. *)
Context (decode : string → option (string * string)).
(** The label whose counter goes up, or none; the answer is always 204. *)
Definition CSPReportHandler (b : Body) : Z * option string :=
  match Size.ReadLimited maxCSPReportBodyBytes b with
  | Err _ => (204, None)
  | Ok body =>
      (204, Some (match decode body with
        | Some (violated, effective) =>
            if decide (violated ≠ "") then sanitizeDirective violated
            else if decide (effective ≠ "") then sanitizeDirective effective else "unknown"
        | None => "unknown"
        end))
  end.

Lemma until_space_clean s c : contains_char c (until_space s) = true → c ≠ " "%char ∧ c ≠ "009"%char.
Proof.
  induction s as [|x s IH]; cbn; [done|]. case_bool_decide as Hx; cbn; [done|].
  intros [Hc|Hc]%orb_prop; [|by apply IH]. apply bool_decide_eq_true in Hc as ->. naive_solver.
Qed.
Lemma contains_substring c n s : contains_char c (substring 0 n s) = true → contains_char c s = true.
Proof.
  revert n. induction s as [|x s IH]; intros [|n]; cbn; try done. intros [Hc|Hc]%orb_prop; [by rewrite Hc|].
  rewrite (IH _ Hc). apply orb_true_r.
Qed.

Definition good_label (l : string) : Prop :=
  l ≠ "" ∧ (String.length l ≤ 64)%nat ∧ contains_char " " l = false ∧ contains_char "009" l = false.
Lemma good_unknown : good_label "unknown".
Proof. split_and!; [done|cbn; lia|done|done]. Qed.
Lemma sanitizeDirective_good d : good_label (sanitizeDirective d).
Proof.
  unfold sanitizeDirective. cbn zeta. set (w := until_space (TrimSpace d)).
  assert (∀ c n, c = " "%char ∨ c = "009"%char → contains_char c (substring 0 n w) = false ∧ contains_char c w = false) as Hc.
  { intros c n Hc. destruct (contains_char c w) eqn:E; [by apply until_space_clean in E as []; destruct Hc|].
    split; [|done]. destruct (contains_char c (substring 0 n w)) eqn:E2; [|done]. apply contains_substring in E2. congruence. }
  case_decide; [apply good_unknown|]. destruct (64 <? _)%nat eqn:El; [apply Nat.ltb_lt in El|apply Nat.ltb_ge in El].
  - split_and!; [done|by rewrite length_substring0 by lia|apply Hc; auto|apply Hc; auto].
  - split_and!; [done|lia|apply (Hc _ O); auto|apply (Hc _ O); auto].
Qed.

(** A label is one word of at most 64 bytes, never empty. *)
Theorem label_bounded b label : (CSPReportHandler b).2 = Some label → good_label label.
Proof.
  unfold CSPReportHandler. destruct (Size.ReadLimited _ _) as [body|]; [|done]. intros [= <-].
  destruct (decode body) as [[v e]|]; repeat case_decide; auto using good_unknown, sanitizeDirective_good.
Qed.
End report.

(** The cut can fall inside a character, and leave a label that is not valid
    UTF-8. *)
Theorem label_cut_inside_character :
  let d := substring 0 63 (Join (repeat "abcdefg" 10) "") +:+ bytes [195; 169]%nat in
  (∀ r, r ∈ runes d → r ≠ RuneError) ∧ RuneError ∈ runes (sanitizeDirective d).
Proof. cbn zeta. split; [apply Forall_forall; vm_compute; repeat constructor; discriminate|]. apply (bool_decide_unpack _). vm_compute. exact I. Qed.
End Security.
