(* ===== verification/Compression.v ===== *)
(** * Compression

    [internal/middleware/gzip_policy.go]:

    - [Request] models the decompression of request bodies with its limits;
    - [Response] models the writer that compresses responses.

    The gzip reader, the encoders and gin's response writer are not part of
    the program. A compressed body either is refused by the reader or delivers
    a text and then ends, well or with an error; an encoder delivers, once
    closed, a text that depends on all it was given; the response writer is
    the class [ResponseWriter]. *)
From Stdlib Require Import ZArith Lia Ascii String SpecFloat.
From stdpp Require Import base gmap strings list.
From S2P Require Import Prelude GoStrings GoFloat WebhookVerify Middleware.
#[local] Open Scope string_scope.
#[local] Open Scope Z_scope.

Record GzipPolicyConfig := {
  MaxUncompressedBytes : Z;
  MaxCompressedBytes : Z;
  MaxRatio : float64;
  ResponseCompression : bool;
  cfg_MinCompressBytes : Z;
}.
Definition MinCompressBytes : Z := 256.

(** ** Requests *)
Module Request.
(** What a gzip reader delivers: a text, and whether it ends with an error. *)
Record stream := { out : string; corrupt : bool }.
Inductive gzip_result :=
| Unsupported (encoding : string)
| BadBody
| CompressedTooLarge
| InvalidGzip
| Bomb (limit : Z)
| Untouched
| Decoded (body : string).

Definition len (s : string) : Z := Z.of_nat (String.length s).
Definition maxCompressed (cfg : GzipPolicyConfig) : Z :=
  if MaxCompressedBytes cfg =? 0 then MaxUncompressedBytes cfg else MaxCompressedBytes cfg.
Definition maxDestSize (cfg : GzipPolicyConfig) (compressedLen : Z) : Z :=
  if f_lt (f_of_int 0) (MaxRatio cfg) && (0 <? compressedLen) then
    let ratioLimit := int64_of_float (f_mul (f_of_int compressedLen) (MaxRatio cfg)) in
    if (MaxUncompressedBytes cfg =? 0) || (ratioLimit <? MaxUncompressedBytes cfg) then ratioLimit else MaxUncompressedBytes cfg
  else MaxUncompressedBytes cfg.
(** [io.Copy] from [io.LimitReader(zr, n)]: at most [n] bytes, an error
    ignored. *)
Definition copied (n : Z) (s : stream) : string := substring 0 (Z.to_nat n) (out s).

Section policy.
Context (NewReader : string → option stream).
Definition GzipPolicy (cfg : GzipPolicyConfig) (contentEncoding : string) (b : Body) : gzip_result :=
  let encoding := TrimSpace (ToLower contentEncoding) in
  if decide (encoding = "" ∨ encoding = "identity") then Untouched
  else if decide (encoding ≠ "gzip") then Unsupported encoding
  else match ReadAll b with
  | Err _ => BadBody
  | Ok body =>
      let compressedLen := len body in
      if (0 <? maxCompressed cfg) && (maxCompressed cfg <? compressedLen) then CompressedTooLarge
      else match NewReader body with
      | None => InvalidGzip
      | Some zr =>
          let m := maxDestSize cfg compressedLen in
          let decompressed := if 0 <? m then copied (wrap64 (m + 1)) zr else out zr in
          if (0 <? m) && (m <? len decompressed) then Bomb m else Decoded decompressed
      end
  end.

Lemma length_copied n s : len (copied n s) = Z.min (Z.max 0 n) (len (out s)).
Proof.
  unfold copied, len. destruct (Nat.le_gt_cases (Z.to_nat n) (String.length (out s))) as [H|H].
  - rewrite length_substring0 by lia. lia.
  - enough (∀ m s, (String.length s ≤ m)%nat → substring 0 m s = s) as E by (rewrite E; lia).
    clear. intros m s. revert m. induction s as [|c s IH]; intros [|m] H; cbn in *; try done; try lia. f_equal. apply IH. lia.
Qed.
Lemma copied_all n s : len (out s) ≤ n → copied n s = out s.
Proof.
  unfold copied, len. intros H. assert (String.length (out s) ≤ Z.to_nat n)%nat as H' by lia. clear H. revert H'.
  generalize (Z.to_nat n) as m, (out s) as t. intros m t. revert m. induction t as [|c t IH]; intros [|m] H; cbn in *; try done; try lia.
  f_equal. apply IH. lia.
Qed.

(** With a positive limit, a body is decoded exactly when the whole of it is
    within the limit, and is then passed on whole; a longer one is refused
    after one byte more than the limit. *)
Theorem decoded_within_limit cfg ce b body zr :
  TrimSpace (ToLower ce) = "gzip" → ReadAll b = Ok body → NewReader body = Some zr →
  ¬ (0 < maxCompressed cfg < len body) →
  let m := maxDestSize cfg (len body) in
  0 < m < max_int64 →
  GzipPolicy cfg ce b = if decide (len (out zr) ≤ m) then Decoded (out zr) else Bomb m.
Proof.
  intros He Hb Hz Hc m Hm. unfold GzipPolicy. rewrite He, Hb, Hz. rewrite !decide_False by (naive_solver congruence). cbn zeta. fold m.
  replace ((0 <? maxCompressed cfg) && (maxCompressed cfg <? len body)) with false by lia.
  replace (0 <? m) with true by lia. rewrite Size.wrap64_succ by done. cbn [andb].
  case_decide as Hl; [rewrite copied_all by lia; by replace (m <? len (out zr)) with false by lia|].
  rewrite length_copied. by replace (m <? _) with true by lia.
Qed.

(** The limit in force is never above the configured one. *)
Lemma maxDestSize_le cfg n : 0 < MaxUncompressedBytes cfg → maxDestSize cfg n ≤ MaxUncompressedBytes cfg.
Proof. intros H. unfold maxDestSize. destruct (_ && _); [|lia]. cbn zeta. destruct (_ || _) eqn:E; [|lia]. destruct (MaxUncompressedBytes cfg =? 0) eqn:E0; lia. Qed.

End policy.

(** Whether the compressed text ends well makes no difference: what a
    truncated or corrupted body decodes to is passed on as if it were the
    whole. *)
Theorem corruption_ignored NR1 NR2 cfg ce b :
  (∀ body, out <$> NR1 body = out <$> NR2 body) → GzipPolicy NR1 cfg ce b = GzipPolicy NR2 cfg ce b.
Proof.
  intros H. unfold GzipPolicy. repeat case_decide; try done. destruct (ReadAll b) as [body|]; [|done]. specialize (H body).
  destruct (_ && _); [done|]. destruct (NR1 body) as [z1|], (NR2 body) as [z2|]; cbn in H; try done.
  injection H as H. unfold copied. by rewrite H.
Qed.

(** A ratio that allows less than one byte switches the limits off: zero
    means no limit, whatever the configured one is. *)
Theorem small_ratio_unlimited text :
  let cfg := {| MaxUncompressedBytes := 100; MaxCompressedBytes := 0; MaxRatio := f_lit 1 100;
                ResponseCompression := false; cfg_MinCompressBytes := 0 |} in
  let body := "0123456789" in
  maxDestSize cfg (len body) = 0 ∧
  GzipPolicy (λ _, Some {| out := text; corrupt := false |}) cfg "gzip" {| data := body; fails := None |} = Decoded text.
Proof. split; vm_compute; reflexivity. Qed.
End Request.

(** ** Responses *)
Module Response.

(** gin's response writer: the status and headers kept until something is
    written, those that were sent, and the body sent so far. *)
Class ResponseWriter (W : Type) := {
  Status : W → Z;
  Header : W → headers;
  Sent : W → option (Z * headers);
  body : W → string;
  WriteHeader : Z → W → W;
  WriteHeaderNow : W → W;
  Write : string → W → W;
  edit : (headers → headers) → W → W;
  Write_Sent s w : Sent (Write s w) = Some (default (Status w, Header w) (Sent w));
  Write_body s w : body (Write s w) = body w +:+ s;
  Now_Sent w : Sent (WriteHeaderNow w) = Some (default (Status w, Header w) (Sent w));
  Now_body w : body (WriteHeaderNow w) = body w;
  Now_Header w : Header (WriteHeaderNow w) = Header w;
  WriteHeader_Status c w : Sent w = None → Status (WriteHeader c w) = c;
  WriteHeader_Sent c w : Sent (WriteHeader c w) = Sent w;
  WriteHeader_Header c w : Header (WriteHeader c w) = Header w;
  WriteHeader_body c w : body (WriteHeader c w) = body w;
  edit_Header f w : Header (edit f w) = f (Header w);
  edit_Sent f w : Sent (edit f w) = Sent w;
  edit_Status f w : Status (edit f w) = Status w;
  edit_body f w : body (edit f w) = body w;
}.
Create HintDb writer.
#[export] Hint Rewrite @Write_Sent @Write_body @Now_Sent @Now_body @Now_Header @WriteHeader_Sent @WriteHeader_Header @WriteHeader_body
  @edit_Header @edit_Sent @edit_Status @edit_body : writer.

(** A writer that does just that. *)
Record plain := { p_status : Z; p_header : headers; p_sent : option (Z * headers); p_body : string }.
#[export, refine] Instance plain_writer : ResponseWriter plain := {|
  Status := p_status; Header := p_header; Sent := p_sent; body := p_body;
  WriteHeader c w := match p_sent w with
                     | None => {| p_status := c; p_header := p_header w; p_sent := None; p_body := p_body w |}
                     | Some _ => w
                     end;
  WriteHeaderNow w := {| p_status := p_status w; p_header := p_header w;
                         p_sent := Some (default (p_status w, p_header w) (p_sent w)); p_body := p_body w |};
  Write s w := {| p_status := p_status w; p_header := p_header w;
                  p_sent := Some (default (p_status w, p_header w) (p_sent w)); p_body := p_body w +:+ s |};
  edit f w := {| p_status := p_status w; p_header := f (p_header w); p_sent := p_sent w; p_body := p_body w |} |}.
Proof. all: try done. all: intros ? []; cbn; intros; simplify_eq; try done; by case_match. Defined.
Definition fresh : plain := {| p_status := 200; p_header := ∅; p_sent := None; p_body := "" |}.

Definition skipCompressPrefixes : list string :=
  ["image/"; "video/"; "audio/"; "font/"; "application/zip"; "application/gzip"; "application/x-gzip"; "application/zstd";
   "application/x-brotli"; "application/pdf"].
Definition negotiateEncoding (accept : string) : string :=
  let ae := ToLower accept in
  if decide (accept = "") then ""
  else if Contains ae "zstd" then "zstd"
  else if Contains ae "br" then "br"
  else if Contains ae "gzip" then "gzip"
  else "".

Section writer.
Context {W : Type} `{ResponseWriter W}.
(** What an encoder has delivered once it is closed. *)
Context (compress : string → string → string).

(** [compWriter] holds what the encoder was given. *)
Record compressingWriter := {
  inner : W;
  encoding : string;
  minCompress : Z;
  buf : string;
  compWriter : option string;
  statusCode : Z;
  wroteHeader : bool;
  committed : bool;
}.
Definition upd (w : W) (b : string) (c : option string) (done : bool) (x : compressingWriter) : compressingWriter :=
  {| inner := w; encoding := encoding x; minCompress := minCompress x; buf := b; compWriter := c; statusCode := statusCode x;
     wroteHeader := wroteHeader x; committed := done |}.
Definition wrap (cfg : GzipPolicyConfig) (enc : string) (w : W) : compressingWriter :=
  {| inner := w; encoding := enc; minCompress := if cfg_MinCompressBytes cfg <=? 0 then MinCompressBytes else cfg_MinCompressBytes cfg;
     buf := ""; compWriter := None; statusCode := 200; wroteHeader := false; committed := false |}.

Definition shouldSkipCompression (x : compressingWriter) : bool :=
  bool_decide (Get (Header (inner x)) "Content-Encoding" ≠ "") ||
  any (λ p, HasPrefix (Get (Header (inner x)) "Content-Type") p) skipCompressPrefixes.

Definition cw_WriteHeader (code : Z) (x : compressingWriter) : compressingWriter :=
  if wroteHeader x then x
  else {| inner := inner x; encoding := encoding x; minCompress := minCompress x; buf := buf x; compWriter := compWriter x;
          statusCode := code; wroteHeader := true; committed := committed x |}.
Definition commitUncompressed (x : compressingWriter) : compressingWriter :=
  let w := WriteHeader (statusCode x) (inner x) in
  if decide (buf x ≠ "") then upd (Write (buf x) w) "" (compWriter x) true x else upd w (buf x) (compWriter x) true x.
(** The encoders are made without an error. *)
Definition commitCompressed (x : compressingWriter) : compressingWriter :=
  let w := edit (λ h, <["Content-Encoding" := encoding x]> (delete "Content-Length" h)) (inner x) in
  let w := WriteHeader (statusCode x) w in
  upd w "" (Some (buf x)) true x.
Definition cw_Write (data : string) (x : compressingWriter) : compressingWriter :=
  let x := cw_WriteHeader 200 x in
  if committed x then
    match compWriter x with
    | Some d => upd (inner x) (buf x) (Some (d +:+ data)) true x
    | None => upd (Write data (inner x)) (buf x) None true x
    end
  else
    let x := upd (inner x) (buf x +:+ data) (compWriter x) false x in
    if (minCompress x <=? Z.of_nat (String.length (buf x))) && negb (shouldSkipCompression x) then commitCompressed x else x.
(** [compWriter.Close]. *)
Definition close (x : compressingWriter) : compressingWriter :=
  match compWriter x with
  | Some d => upd (Write (compress (encoding x) d) (inner x)) (buf x) (Some d) (committed x) x
  | None => x
  end.
Definition finalize (x : compressingWriter) : compressingWriter :=
  if committed x then close x
  else if shouldSkipCompression x || (Z.of_nat (String.length (buf x)) <? minCompress x) then commitUncompressed x
  else close (commitCompressed x).

(** *** A handler that writes gets its text through *)
Definition writes (l : list string) (x : compressingWriter) : compressingWriter := foldl (λ x d, cw_Write d x) x l.
Definition text (l : list string) : string := Join l "".

(** Where the writer stands after writing [t] to a fresh one around [w]. *)
Definition stands (w : W) (skip : bool) (t : string) (x : compressingWriter) : Prop :=
  wroteHeader x = true ∧ Sent (inner x) = None ∧ body (inner x) = body w ∧
  if committed x then
    skip = false ∧ buf x = "" ∧ compWriter x = Some t ∧ Status (inner x) = statusCode x ∧ minCompress x ≤ Z.of_nat (String.length t) ∧
    Header (inner x) = <["Content-Encoding" := encoding x]> (delete "Content-Length" (Header w))
  else
    inner x = w ∧ buf x = t ∧ compWriter x = None ∧ (Z.of_nat (String.length t) < minCompress x ∨ skip = true).

Definition skips (w : W) : bool :=
  bool_decide (Get (Header w) "Content-Encoding" ≠ "") ||
  any (λ p, HasPrefix (Get (Header w) "Content-Type") p) skipCompressPrefixes.

Lemma write_stands w t d x :
  Sent w = None → stands w (skips w) t x →
  stands w (skips w) (t +:+ d) (cw_Write d x) ∧ statusCode (cw_Write d x) = statusCode x ∧ encoding (cw_Write d x) = encoding x ∧
  minCompress (cw_Write d x) = minCompress x.
Proof.
  intros Hw (Hwh & Hs & Hb & Hx). unfold cw_Write, cw_WriteHeader. rewrite Hwh. destruct (committed x) eqn:Hc.
  - destruct Hx as (Hsk & Hbuf & Hcw & Hst & Hmin & Hh). rewrite Hcw. split_and!; [|done..].
    unfold stands, upd. cbn. split_and!; try done. rewrite length_append. lia.
  - destruct Hx as (Hi & Hbuf & Hcw & Hl). cbn zeta. unfold upd at 1 2 3 4. cbn [minCompress buf inner compWriter].
    rewrite Hi, Hbuf in *. replace (shouldSkipCompression _) with (skips w) by done.
    destruct (_ && _) eqn:E.
    + apply andb_prop in E as [E1 E2]. apply negb_true_iff in E2. unfold commitCompressed, stands, upd. cbn. autorewrite with writer.
      rewrite WriteHeader_Status by (by autorewrite with writer). split_and!; try done. lia.
    + unfold stands, upd. cbn. split_and!; try done. apply andb_false_iff in E as [E|E]; [left; lia|right; by apply negb_false_iff].
Qed.

Lemma writes_stand w t l x :
  Sent w = None → stands w (skips w) t x →
  stands w (skips w) (t +:+ text l) (writes l x) ∧ statusCode (writes l x) = statusCode x ∧ encoding (writes l x) = encoding x ∧
  minCompress (writes l x) = minCompress x.
Proof.
  intros Hw. revert t x. induction l as [|d l IH]; intros t x Hx; cbn [writes foldl].
  - unfold text. cbn. rewrite append_nil_r. done.
  - destruct (write_stands w t d x Hw Hx) as (Hx1 & E1 & E2 & E3). destruct (IH _ _ Hx1) as (Hx2 & F1 & F2 & F3).
    unfold writes in *. rewrite F1, F2, F3. split_and!; [|done..]. rewrite string_app_assoc in Hx2.
    replace (text (d :: l)) with (d +:+ text l); [done|]. unfold text. destruct l as [|d' l]; cbn; [by rewrite append_nil_r|done].
Qed.

Lemma finalize_stands w t x :
  Sent w = None → stands w (skips w) t x →
  let big := negb (skips w) && (minCompress x <=? Z.of_nat (String.length t)) in
  let out := WriteHeaderNow (inner (finalize x)) in
  body out = body w +:+ (if big then compress (encoding x) t else t) ∧
  Sent out = Some (statusCode x, if big then <["Content-Encoding" := encoding x]> (delete "Content-Length" (Header w)) else Header w).
Proof.
  intros Hw (Hwh & Hs & Hb & Hx). cbn zeta. unfold finalize. destruct (committed x) eqn:Hc.
  - destruct Hx as (Hsk & Hbuf & Hcw & Hst & Hmin & Hh). unfold close. rewrite Hcw, Hsk. cbn [negb andb].
    replace (_ <=? _) with true by lia. unfold upd. cbn [inner]. autorewrite with writer. rewrite Hs. cbn. rewrite Hh, Hst, Hb. done.
  - destruct Hx as (Hi & Hbuf & Hcw & Hl). replace (shouldSkipCompression x) with (skips w) by (unfold shouldSkipCompression; by rewrite Hi).
    rewrite Hbuf. replace (skips w || (Z.of_nat (String.length t) <? minCompress x)) with true by (destruct (skips w), Hl; simplify_eq; cbn; lia).
    replace (negb (skips w) && (minCompress x <=? Z.of_nat (String.length t))) with false by (destruct (skips w), Hl; simplify_eq; cbn; lia).
    unfold commitUncompressed. rewrite Hi, Hbuf. case_decide as Ht; unfold upd; cbn [inner]; autorewrite with writer; rewrite Hw; cbn;
      (rewrite WriteHeader_Status by done); [done|]. by rewrite Ht, append_nil_r.
Qed.

(** C15: a response comes through: a handler that sets a status and writes a text,
    in whatever pieces, is answered to the client with that status and either
    the text and its own headers, or the text compressed under a header that
    says so, the latter exactly when the text reaches the least size and its
    type allows it. *)
Theorem response_intact cfg enc w code l :
  Sent w = None → body w = "" →
  let x := writes l (cw_WriteHeader code (wrap cfg enc w)) in
  let out := WriteHeaderNow (inner (finalize x)) in
  let least := if cfg_MinCompressBytes cfg <=? 0 then MinCompressBytes else cfg_MinCompressBytes cfg in
  let big := negb (skips w) && (least <=? Z.of_nat (String.length (text l))) in
  body out = (if big then compress enc (text l) else text l) ∧
  Sent out = Some (code, if big then <["Content-Encoding" := enc]> (delete "Content-Length" (Header w)) else Header w).
Proof.
  intros Hw Hb x out least big.
  destruct (writes_stand w "" l (cw_WriteHeader code (wrap cfg enc w)) Hw) as (Hx & E1 & E2 & E3).
  { unfold stands, cw_WriteHeader, wrap. cbn. split_and!; try done. left. unfold MinCompressBytes. destruct (_ <=? 0) eqn:E; lia. }
  pose proof (finalize_stands w (text l) x Hw Hx) as Hf. cbn zeta in Hf. fold out in Hf. unfold x in Hf. rewrite E1, E2, E3, Hb in Hf. exact Hf.
Qed.

(** [c.AbortWithStatus] sets the status on the compressing writer and then
    has the writer inside it send its own. *)
Definition AbortWithStatus (code : Z) (x : compressingWriter) : compressingWriter :=
  let x := cw_WriteHeader code x in upd (WriteHeaderNow (inner x)) (buf x) (compWriter x) (committed x) x.

(** A request that is aborted with a status alone is answered with the
    status of the writer inside, whatever it was aborted with. *)
Theorem abort_status_lost cfg enc w code :
  Sent w = None →
  Sent (inner (finalize (AbortWithStatus code (wrap cfg enc w)))) = Some (Status w, Header w).
Proof.
  intros Hw. unfold finalize, AbortWithStatus, cw_WriteHeader, wrap, upd. cbn [wroteHeader committed inner buf compWriter minCompress String.length].
  assert ((Z.of_nat 0 <? (if cfg_MinCompressBytes cfg <=? 0 then MinCompressBytes else cfg_MinCompressBytes cfg)) = true) as ->
    by (unfold MinCompressBytes; destruct (_ <=? 0) eqn:E; apply Z.ltb_lt; lia). rewrite orb_true_r.
  unfold commitUncompressed. cbn [buf inner statusCode]. case_decide; cbn [upd inner]; autorewrite with writer; by rewrite Hw.
Qed.
End writer.

Lemma response_intact_witness :
  let cfg := {| MaxUncompressedBytes := 0; MaxCompressedBytes := 0; MaxRatio := f_of_int 0; ResponseCompression := true; cfg_MinCompressBytes := 4 |} in
  let x := writes ["ab"; "cd"] (cw_WriteHeader 201 (wrap cfg "gzip" fresh)) in
  let out := WriteHeaderNow (inner (finalize (λ e d, e +:+ ":" +:+ d) x)) in
  body out = "gzip:abcd" ∧ Sent out = Some (201, <["Content-Encoding" := "gzip"]> (delete "Content-Length" ∅)).
Proof.
  cbn zeta. exact (response_intact (λ e d, e +:+ ":" +:+ d)
    {| MaxUncompressedBytes := 0; MaxCompressedBytes := 0; MaxRatio := f_of_int 0; ResponseCompression := true; cfg_MinCompressBytes := 4 |}
    "gzip" fresh 201 ["ab"; "cd"] eq_refl eq_refl).
Defined.

(** An encoding the client refuses is chosen, and one that only contains the
    letters of one. *)
Theorem refused_encoding_chosen :
  negotiateEncoding "gzip, br;q=0" = "br" ∧ negotiateEncoding "x-brief" = "br".
Proof. split; reflexivity. Qed.
End Response.
