(* ===== verification/PgStores.v ===== *)
(** * PostgreSQL stores behind interfaces modelled elsewhere

    - [PgIdempotency] models [PostgresIdempotencyStore] of
      [internal/middleware/idempotency_store.go];
    - [PgSaga] models [internal/saga/store_postgres.go].

    A table is a finite map from its primary key. A statement either fails,
    and changes nothing, or does what it says; a transaction that is not
    committed leaves the table as it was. *)
From Stdlib Require Import ZArith Lia Ascii String.
From stdpp Require Import base gmap strings list.
From S2P Require Import Prelude Saga Idempotency.
#[local] Open Scope string_scope.
#[local] Open Scope Z_scope.

(** ** Idempotency keys *)
Module PgIdempotency.
Notation key := (string * string)%type.
Notation keys_table := (gmap key InMemoryIdempotencyEntry).
Inductive pg_error := Mismatch | Database (msg : string).

(** Which calls of a transaction succeed. *)
Record calls := { begin_ok : bool; select_ok : bool; exec_ok : bool; commit_ok : bool }.
Definition all_ok : calls := {| begin_ok := true; select_ok := true; exec_ok := true; commit_ok := true |}.
Definition in_flight (now : Time) (f : fingerprint) (ttl : Duration) : InMemoryIdempotencyEntry :=
  {| request := f; statusCode := 0; responseBody := ""; createdAt := now; expiresAt := Time.Add now ttl |}.

(** What the row that was read leads to. *)
Inductive plan := Insert | Reuse | Answer (r : result pg_error lookup_answer).
Definition after_select (now : Time) (f : fingerprint) (row : option InMemoryIdempotencyEntry) : plan :=
  match row with
  | None => Insert
  | Some e =>
      if Time.After now (expiresAt e) then Reuse
      else if statusCode e =? 0 then Answer (Ok InFlight)
      else if decide (request e ≠ f) then Answer (Err Mismatch)
      else Answer (Ok (Replay (statusCode e) (responseBody e)))
  end.
Definition pg_GetOrInsert (c : calls) (now : Time) (scope k : string) (f : fingerprint) (ttl : Duration) (t : keys_table)
    : keys_table * result pg_error lookup_answer :=
  if negb (begin_ok c) then (t, Err (Database "begin"))
  else if negb (select_ok c) then (t, Err (Database "select"))
  else match after_select now f (t !! (scope, k)) with
  | Answer r => (t, r)
  | Insert | Reuse =>
      if negb (exec_ok c) then (t, Err (Database "exec"))
      else if negb (commit_ok c) then (t, Err (Database "commit"))
      else (<[(scope, k) := in_flight now f ttl]> t, Ok Fresh)
  end.
Definition pg_UpdateResponse (ok : bool) (scope k : string) (status : Z) (body : string) (t : keys_table) : keys_table * option pg_error :=
  if ok then
    (match t !! (scope, k) with
     | None => t
     | Some e => <[(scope, k) := {| request := request e; statusCode := status; responseBody := body;
                                    createdAt := createdAt e; expiresAt := expiresAt e |}]> t
     end, None)
  else (t, Some (Database "update")).
Definition pg_Lookup (ok : bool) (scope k : string) (t : keys_table) : result pg_error (option IdempotencyRecord) :=
  if ok then
    Ok ((λ e, {| UsedAt := createdAt e; RecExpiresAt := expiresAt e; RecStatusCode := statusCode e;
                 RecPayloadHash := payloadHash (request e) |}) <$> t !! (scope, k))
  else Err (Database "select").
Definition pg_Delete (ok : bool) (scope k : string) (t : keys_table) : keys_table * option pg_error :=
  if ok then (delete (scope, k) t, None) else (t, Some (Database "delete")).
Definition pg_CountExpiredPending (ok : bool) (now : Time) (t : keys_table) : result pg_error Z :=
  if ok then Ok (Z.of_nat (size (filter (λ kv, expiresAt kv.2 ≤ now) t))) else Err (Database "select").

(** The statement of [DeleteExpiredBatch] names the columns it needs. The
    table, as the migrations make it, has no other columns than these. *)
Definition columns : list string :=
  ["scope"; "key"; "method"; "path"; "payload_hash"; "status_code"; "response_body"; "created_at"; "expires_at"].
Definition delete_batch_columns : list string := ["id"; "expires_at"].
Definition pg_DeleteExpiredBatch (ok : bool) (now : Time) (batch : nat) (t : keys_table) : keys_table * result pg_error Z :=
  if negb (bool_decide (delete_batch_columns ⊆ columns)) then (t, Err (Database "undefined column"))
  else if ok then
    let gone := take batch (map_to_list (filter (λ kv, expiresAt kv.2 ≤ now) t)) in
    (foldr (λ kv t, delete kv.1 t) t gone, Ok (Z.of_nat (length gone)))
  else (t, Err (Database "delete")).

(** *** One transaction answers what the store in memory answers *)
Theorem pg_same_answers (now : Time) (scope k : string) (f : fingerprint) (ttl : Duration) (t : keys_table) (m : gmap string InMemoryIdempotencyEntry) :
  m !! mapKey scope k = t !! (scope, k) →
  let '(t', r) := pg_GetOrInsert all_ok now scope k f ttl t in
  let '(m', r') := GetOrInsert now scope k f ttl m in
  m' !! mapKey scope k = t' !! (scope, k) ∧
  match r, r' with
  | Ok a, Ok a' => a = a'
  | Err e, Err _ => e = Mismatch
  | _, _ => False
  end.
Proof.
  intros E. unfold pg_GetOrInsert, after_select, GetOrInsert. cbn [all_ok begin_ok select_ok exec_ok commit_ok negb]. rewrite E.
  destruct (t !! (scope, k)) as [e|] eqn:Et; [|by rewrite !lookup_insert_eq].
  destruct (Time.After now (expiresAt e)); [by rewrite !lookup_insert_eq|]. destruct (statusCode e =? 0); [by rewrite E, Et|].
  case_decide; by rewrite E, Et.
Qed.

(** A call that fails leaves the table as it was. *)
Theorem pg_failure_changes_nothing c now scope k (f : fingerprint) (ttl : Duration) t t' e :
  pg_GetOrInsert c now scope k f ttl t = (t', Err e) → t' = t.
Proof. unfold pg_GetOrInsert. repeat case_match; naive_solver. Qed.

(** Expired keys are never swept. *)
Theorem sweep_always_fails ok now batch t : pg_DeleteExpiredBatch ok now batch t = (t, Err (Database "undefined column")).
Proof.
  unfold pg_DeleteExpiredBatch. rewrite bool_decide_false; [done|]. intros H. specialize (H "id" ltac:(left)). unfold columns in H.
  repeat (apply elem_of_cons in H as [H|H]; [discriminate|]). by apply elem_of_nil in H.
Qed.

(** *** The transactions of many requests, interleaved *)

(** A transaction that has read: it goes on to insert a row, or holds the
    lock on an expired one. *)
Inductive mode := ToInsert | ToReuse.
#[export] Instance mode_eq_dec : EqDecision mode.
Proof. solve_decision. Defined.
Record pending := { p_key : key; p_mode : mode; p_row : InMemoryIdempotencyEntry }.
(** The table, the open transactions, the keys of the requests inside their
    handlers, and the answers of the handlers that succeeded, latest first. *)
Record db := { rows : keys_table; open_txs : list pending; handling : list key; answered : list (key * (Z * string)) }.
Definition opened (t : keys_table) : db := {| rows := t; open_txs := []; handling := []; answered := [] |}.
Definition is_2xx (status : Z) : bool := (200 <=? status) && (status <? 300).

(** The statement the middleware makes after the handler; its error is dropped. *)
Definition after_handler (ok : bool) (k : key) (status : Z) (body : string) (t : keys_table) : keys_table :=
  if is_2xx status then fst (pg_UpdateResponse ok k.1 k.2 status body t) else fst (pg_Delete ok k.1 k.2 t).

Section runs.
(** Requests come between [lo] and [hi], within one lifetime of a key. *)
Context (lo hi : Time) (ttl : Duration) (Hlife : hi ≤ lo + ttl).

Definition locked (k : key) (d : db) : Prop := ∃ p, p ∈ open_txs d ∧ p_key p = k ∧ p_mode p = ToReuse.
(** A commit whose answer is lost ([seen] false) has written the row, and
    its request is refused with an error. *)
Definition commit (seen : bool) (p : pending) (rest : list pending) (d : db) : db :=
  {| rows := <[p_key p := p_row p]> (rows d); open_txs := rest;
     handling := if seen then p_key p :: handling d else handling d; answered := answered d |}.
Inductive step (d : db) : db → Prop :=
| read_absent now k f :
    lo ≤ now ≤ hi → after_select now f (rows d !! k) = Insert →
    step d {| rows := rows d; open_txs := {| p_key := k; p_mode := ToInsert; p_row := in_flight now f ttl |} :: open_txs d;
              handling := handling d; answered := answered d |}
| read_expired now k f :
    lo ≤ now ≤ hi → after_select now f (rows d !! k) = Reuse → ¬ locked k d →
    step d {| rows := rows d; open_txs := {| p_key := k; p_mode := ToReuse; p_row := in_flight now f ttl |} :: open_txs d;
              handling := handling d; answered := answered d |}
| insert_first seen before p after :
    open_txs d = (before ++ p :: after)%list → p_mode p = ToInsert → rows d !! p_key p = None →
    step d (commit seen p (before ++ after) d)
| insert_second before p after e :
    open_txs d = (before ++ p :: after)%list → p_mode p = ToInsert → rows d !! p_key p = Some e →
    step d {| rows := rows d; open_txs := (before ++ after)%list; handling := handling d; answered := answered d |}
| reuse seen before p after :
    open_txs d = (before ++ p :: after)%list → p_mode p = ToReuse → step d (commit seen p (before ++ after) d)
| rollback before p after :
    open_txs d = (before ++ p :: after)%list →
    step d {| rows := rows d; open_txs := (before ++ after)%list; handling := handling d; answered := answered d |}
| finish ok before k after status body :
    handling d = (before ++ k :: after)%list → ¬ locked k d →
    step d {| rows := after_handler ok k status body (rows d); open_txs := open_txs d; handling := (before ++ after)%list;
              answered := if is_2xx status then (k, (status, body)) :: answered d else answered d |}.

(** A transaction nobody disturbs is a call of [GetOrInsert]. *)
Lemma alone now scope k f d t' :
  lo ≤ now ≤ hi → open_txs d = [] → pg_GetOrInsert all_ok now scope k f ttl (rows d) = (t', Ok Fresh) →
  rtc step d {| rows := t'; open_txs := []; handling := (scope, k) :: handling d; answered := answered d |}.
Proof.
  intros Hn Ho Hg. unfold pg_GetOrInsert in Hg. cbn [all_ok begin_ok select_ok exec_ok commit_ok negb] in Hg.
  destruct (after_select now f (rows d !! (scope, k))) as [| |r] eqn:Ha; [| |by simplify_eq; unfold after_select in Ha; repeat case_match].
  - assert (rows d !! (scope, k) = None) as Hr by (unfold after_select in Ha; repeat case_match; done).
    injection Hg as <-. eapply rtc_l; [by apply (read_absent d now (scope, k) f)|]. rewrite Ho. apply rtc_once.
    set (d1 := {| rows := rows d; open_txs := _; handling := _; answered := _ |}).
    exact (insert_first d1 true [] {| p_key := (scope, k); p_mode := ToInsert; p_row := in_flight now f ttl |} [] eq_refl eq_refl Hr).
  - injection Hg as <-. eapply rtc_l; [apply (read_expired d now (scope, k) f); [done|done|]|].
    { intros (p & Hp & _). rewrite Ho in Hp. by apply elem_of_nil in Hp. }
    rewrite Ho. apply rtc_once. set (d1 := {| rows := rows d; open_txs := _; handling := _; answered := _ |}).
    exact (reuse d1 true [] {| p_key := (scope, k); p_mode := ToReuse; p_row := in_flight now f ttl |} [] eq_refl eq_refl).
Qed.

(** Requests on key [k] inside their handlers, the answers of those that
    succeeded, and the transactions that hold its lock. *)
Definition running (k : key) (d : db) : nat := length (filter (λ x, x = k) (handling d)).
Definition successes (k : key) (d : db) : list (Z * string) := snd <$> filter (λ x, x.1 = k) (answered d).
Definition reusing (k : key) (l : list pending) : nat := length (filter (λ p, p_key p = k ∧ p_mode p = ToReuse) l).

(** The row of a key under which something happened. *)
Definition kept (k : key) (d : db) : Prop :=
  ∃ e, rows d !! k = Some e ∧ hi ≤ expiresAt e ∧
    (running k d = 1%nat ∧ successes k d = [] ∧ statusCode e = 0 ∨
     running k d = 0%nat ∧ ∃ st body, successes k d = [(st, body)] ∧
       (statusCode e = 0 ∨ statusCode e = st ∧ responseBody e = body)).
Definition idle (k : key) (d : db) : Prop := running k d = 0%nat ∧ successes k d = [].
Definition safe (k : key) (d : db) : Prop :=
  (∀ p, p ∈ open_txs d → hi ≤ expiresAt (p_row p) ∧ statusCode (p_row p) = 0) ∧ (reusing k (open_txs d) ≤ 1)%nat ∧
  (reusing k (open_txs d) = 1%nat → idle k d ∧ is_Some (rows d !! k)) ∧
  (idle k d ∨ kept k d).

Lemma reusing_app k l l' : reusing k (l ++ l') = (reusing k l + reusing k l')%nat.
Proof. unfold reusing. by rewrite filter_app, length_app. Qed.
Lemma reusing_cons k p l : reusing k (p :: l) = ((if decide (p_key p = k ∧ p_mode p = ToReuse) then 1 else 0) + reusing k l)%nat.
Proof. unfold reusing. rewrite filter_cons. by case_decide. Qed.
Lemma reusing_unlocked k d : ¬ locked k d → reusing k (open_txs d) = 0%nat.
Proof.
  intros Hn. unfold reusing. destruct (filter _ (open_txs d)) as [|p l] eqn:E; [done|]. exfalso. apply Hn.
  assert (p ∈ filter (λ p, p_key p = k ∧ p_mode p = ToReuse) (open_txs d)) as Hp by (rewrite E; left).
  apply list_elem_of_filter in Hp as [[H1 H2] H3]. by exists p.
Qed.
Definition cnt (k : key) (p : pending) : nat := if decide (p_key p = k ∧ p_mode p = ToReuse) then 1 else 0.
Lemma reusing_mid k l p l' : reusing k (l ++ p :: l') = (cnt k p + reusing k (l ++ l'))%nat.
Proof. rewrite !reusing_app, reusing_cons. unfold cnt. lia. Qed.
Lemma mid_sub {A} (l l' : list A) p : (l ++ l')%list ⊆ (l ++ p :: l')%list.
Proof. set_solver. Qed.
Lemma open_sub d before p after (P : pending → Prop) : open_txs d = (before ++ p :: after)%list →
  (∀ q, q ∈ open_txs d → P q) → (∀ q, q ∈ (before ++ after)%list → P q) ∧ P p.
Proof. intros E He. rewrite E in He. split; [intros q Hq; apply He; by apply mid_sub|apply He; set_solver]. Qed.

(** A step that leaves the row of [k], its handlers and its answers alone. *)
Lemma kept_ext k d d' :
  rows d' !! k = rows d !! k → running k d' = running k d → successes k d' = successes k d →
  idle k d ∨ kept k d → idle k d' ∨ kept k d'.
Proof. intros Er Eh Ea. unfold idle, kept. by rewrite Er, Eh, Ea. Qed.

Lemma running_commit k seen p l d :
  running k (commit seen p l d) = ((if seen then if decide (p_key p = k) then 1 else 0 else 0) + running k d)%nat.
Proof.
  unfold running, commit. cbn [handling]. destruct seen; [|done]. rewrite filter_cons. by case_decide.
Qed.
(** A row written for one key. *)
Lemma commit_safe k d seen before p after :
  safe k d → open_txs d = (before ++ p :: after)%list →
  (p_key p = k → idle k d ∧ reusing k (before ++ after) = 0%nat) →
  safe k (commit seen p (before ++ after) d).
Proof.
  intros (He & Hr & Hr1 & Ht) E Hk. destruct (open_sub d before p after _ E He) as [He' [Hp Hs]]. rewrite E, reusing_mid in Hr, Hr1.
  unfold safe. cbn [commit open_txs]. split; [done|]. destruct (decide (p_key p = k)) as [<-|Hne].
  - destruct (Hk eq_refl) as [[H0 H0'] H1]. rewrite H1. split_and!; [lia|lia|]. destruct seen.
    + right. exists (p_row p). cbn [commit rows]. rewrite lookup_insert_eq. split_and!; [done..|]. left. split_and!; [|done..].
      rewrite running_commit, decide_True by done. lia.
    + left. done.
  - assert (cnt k p = 0%nat) as Hc by (unfold cnt; rewrite decide_False by naive_solver; done). rewrite Hc in *.
    assert (running k (commit seen p (before ++ after) d) = running k d) as Eh.
    { rewrite running_commit, decide_False by done. by destruct seen. }
    split_and!; [lia| |].
    + intros E1. destruct (Hr1 E1) as [[? ?] ?]. unfold idle. rewrite Eh. cbn [commit rows]. by rewrite lookup_insert_ne.
    + eapply kept_ext; [cbn; by rewrite lookup_insert_ne|exact Eh|done|exact Ht].
Qed.

Lemma running_mid k d before x after : handling d = (before ++ x :: after)%list →
  running k d = ((if decide (x = k) then 1 else 0) + length (filter (λ x, x = k) (before ++ after)%list))%nat.
Proof.
  intros E. unfold running. rewrite E, !filter_app, filter_cons, !length_app. case_decide; cbn; lia.
Qed.
Lemma after_handler_other ok k status body t k' : k ≠ k' → after_handler ok k status body t !! k' = t !! k'.
Proof.
  intros Hne. unfold after_handler, pg_UpdateResponse, pg_Delete. destruct k as [sc k]. cbn [fst snd].
  repeat case_match; cbn; try done; rewrite ?lookup_insert_ne, ?lookup_delete_ne; done.
Qed.

(** The end of a handler. *)
Lemma finish_safe k d ok before x after status body :
  safe k d → handling d = (before ++ x :: after)%list → ¬ locked x d →
  safe k {| rows := after_handler ok x status body (rows d); open_txs := open_txs d; handling := (before ++ after)%list;
            answered := if is_2xx status then (x, (status, body)) :: answered d else answered d |}.
Proof.
  intros (He & Hr & Hr1 & Ht) E Hl. pose proof (running_mid k d before x after E) as Em.
  set (d' := {| rows := _; open_txs := _; handling := _; answered := _ |}).
  assert (running k d' = length (filter (λ x, x = k) (before ++ after)%list)) as Eh by done.
  destruct (decide (x = k)) as [->|Hne].
  - pose proof (reusing_unlocked k d Hl) as E0. split_and!; [done|done|cbn [open_txs d']; lia|].
    destruct Ht as [[? _]|(e & Hrow & Hexp & [(H1 & H2 & H3)|(H1 & _)])]; [lia| |lia].
    assert (running k d' = 0%nat) as E1 by lia. destruct (is_2xx status) eqn:Es.
    + right. assert (successes k d' = [(status, body)]) as E2.
      { unfold successes, d'. cbn [answered]. rewrite filter_cons, decide_True by done. cbn. unfold successes in H2. by rewrite H2. }
      unfold kept. rewrite E1, E2. unfold d', after_handler. cbn [rows]. rewrite Es. unfold pg_UpdateResponse.
      rewrite <- surjective_pairing. destruct ok; cbn [fst].
      * rewrite Hrow, lookup_insert_eq. eexists. split; [done|]. cbn. split; [done|]. right. split; [done|]. eauto 10.
      * exists e. split_and!; [done..|]. right. split; [done|]. eauto 10.
    + left. split; [done|]. done.
  - assert (running k d' = running k d) as Eh' by lia.
    assert (successes k d' = successes k d) as Ea.
    { unfold successes, d'. cbn [answered]. destruct (is_2xx status); [|done]. by rewrite filter_cons, decide_False. }
    assert (rows d' !! k = rows d !! k) as Er by (by apply after_handler_other).
    split_and!; [done|done| |by eapply kept_ext].
    intros E1. destruct (Hr1 E1) as [[? ?] ?]. unfold idle. by rewrite Eh', Ea, Er.
Qed.

Lemma read_safe k d p :
  safe k d → hi ≤ expiresAt (p_row p) → statusCode (p_row p) = 0 →
  (p_key p = k → p_mode p = ToReuse → reusing k (open_txs d) = 0%nat ∧ idle k d ∧ is_Some (rows d !! k)) →
  safe k {| rows := rows d; open_txs := p :: open_txs d; handling := handling d; answered := answered d |}.
Proof.
  intros (He & Hr & Hr1 & Ht) Hp Hs Hk.
  split_and!; cbn [rows open_txs]; [intros q [->|Hq]%elem_of_cons; auto| | |exact Ht]; rewrite reusing_cons.
  - case_decide as E; [destruct E as [E1 E2]; destruct (Hk E1 E2) as [-> _]|]; lia.
  - case_decide as E; [|exact Hr1]. destruct E as [E1 E2]. by destruct (Hk E1 E2) as (_ & ? & ?).
Qed.

Lemma close_safe k d before p after :
  safe k d → open_txs d = (before ++ p :: after)%list →
  safe k {| rows := rows d; open_txs := (before ++ after)%list; handling := handling d; answered := answered d |}.
Proof.
  intros (He & Hr & Hr1 & Ht) E. destruct (open_sub d before p after _ E He) as [He' _]. rewrite E, reusing_mid in Hr, Hr1.
  split_and!; [done|cbn [open_txs]; lia| |exact Ht]. cbn [rows open_txs]. intros E1. apply Hr1. unfold cnt in *. case_decide; lia.
Qed.

(** A live row is never reused. *)
Lemma expired_idle k d now f : safe k d → now ≤ hi → after_select now f (rows d !! k) = Reuse → idle k d ∧ is_Some (rows d !! k).
Proof.
  intros (_ & _ & _ & Ht) Hn Ha. unfold after_select in Ha. destruct (rows d !! k) as [e|] eqn:Ek; [|done]. split; [|done].
  destruct Ht as [Ht|(e' & Ek' & He' & _)]; [done|]. rewrite Ek in Ek'. injection Ek' as <-.
  destruct (Time.After now (expiresAt e)) eqn:Eaf; [apply After_true in Eaf; lia|]. repeat case_match; done.
Qed.

Lemma step_safe k d d' : safe k d → step d d' → safe k d'.
Proof.
  intros Hsafe Hs. pose proof Hsafe as (He & Hr & Hr1 & Ht).
  destruct Hs as [now k' f Hn Ha|now k' f Hn Ha Hl|seen before p after Eo Hm En|before p after e Eo Hm Es|seen before p after Eo Hm|before p after Eo|
                  ok before k' after status body Eh Hl].
  - apply read_safe; [done|cbn; unfold Time.Add; lia|done|done].
  - apply read_safe; [done|cbn; unfold Time.Add; lia|done|]. cbn. intros -> _.
    split; [by apply reusing_unlocked|]. eapply expired_idle; [done| |done]. lia.
  - apply commit_safe; [done..|]. intros <-. rewrite Eo, reusing_mid in Hr1, Hr. split.
    + destruct Ht as [Ht|(e & Hx & _)]; [done|congruence].
    + destruct (reusing (p_key p) (before ++ after)) as [|n] eqn:E; [done|]. exfalso. destruct Hr1 as [_ [e Hx]]; [lia|congruence].
  - by eapply close_safe.
  - apply commit_safe; [done..|]. intros <-. rewrite Eo, reusing_mid in Hr1, Hr.
    assert (cnt (p_key p) p = 1%nat) as Hc by (unfold cnt; by rewrite decide_True). rewrite Hc in *. split; [apply Hr1; lia|lia].
  - by eapply close_safe.
  - by apply finish_safe.
Qed.

Lemma opened_safe k t : safe k (opened t).
Proof. split_and!; [set_solver|unfold reusing; cbn; lia|done|by left]. Qed.
Lemma runs_safe t k d : rtc step (opened t) d → safe k d.
Proof.
  intros H. apply (rtc_ind_r (safe k) (opened t)) in H; [done|apply opened_safe|intros x y _ Hs Hx; by eapply step_safe].
Qed.

(** C7: the PostgreSQL idempotency store, within one lifetime of a key. Requests
    come between two instants no further apart than the TTL, on any table, and
    the transactions of [GetOrInsert] and the [UpdateResponse] and [Delete]
    statements after the handlers interleave in any way, with any of them
    failing or committing without its answer being seen. Then at most one
    request on a key is inside its handler at any time, at most one handler
    on a key succeeds, while a handler runs every other request on its key
    reads "in flight", and after a success every request reads "in flight", a
    mismatch or the response of that very success: it is never told to go on. *)
Theorem pg_one_fresh t k d :
  rtc step (opened t) d →
  (running k d ≤ 1)%nat ∧ (length (successes k d) ≤ 1)%nat ∧
  ∀ now f, lo ≤ now ≤ hi →
    (running k d = 1%nat → after_select now f (rows d !! k) = Answer (Ok InFlight)) ∧
    (∀ st body, successes k d = [(st, body)] →
       running k d = 0%nat ∧
       ∃ r, after_select now f (rows d !! k) = Answer r ∧ (r = Ok InFlight ∨ r = Err Mismatch ∨ r = Ok (Replay st body))).
Proof.
  intros H. destruct (runs_safe _ k _ H) as (_ & _ & _ & [[-> ->]|(e & Hrow & Hexp & Hcase)]).
  { split_and!; [lia|cbn; lia|]. intros now f _. split; [lia|done]. }
  assert (∀ now f, now ≤ hi → after_select now f (rows d !! k) = if statusCode e =? 0 then Answer (Ok InFlight)
    else if decide (request e ≠ f) then Answer (Err Mismatch) else Answer (Ok (Replay (statusCode e) (responseBody e)))) as Ha.
  { intros now f Hn. unfold after_select. rewrite Hrow. by rewrite (proj2 (After_false _ _)) by lia. }
  destruct Hcase as [(-> & -> & H0)|(-> & st & body & -> & Hst)]; (split_and!; [lia|cbn; lia|]; intros now f Hn; rewrite Ha by lia).
  - rewrite H0. done.
  - split; [lia|]. intros st' body' [= <- <-]. split; [done|]. destruct Hst as [->|[-> ->]]; [eauto|].
    repeat case_match; eauto 10.
Qed.
End runs.

(** Two duplicates that both find no row: one goes on, the other is refused;
    the first fails, its key is deleted, and a third goes on and succeeds. *)
Definition dup : fingerprint := {| method := "POST"; path := "/pay"; payloadHash := "h" |}.
Lemma pg_one_fresh_witness :
  let k := ("t1:u1", "key-1") in
  let row := {| request := dup; statusCode := 201; responseBody := "paid"; createdAt := 8; expiresAt := 108 |} in
  let d := {| rows := {[ k := row ]}; open_txs := []; handling := []; answered := [(k, (201, "paid"))] |} in
  rtc (step 0 10 100) (opened ∅) d ∧ running k d = 0%nat ∧ (length (successes k d) ≤ 1)%nat.
Proof.
  cbn zeta. set (k := ("t1:u1", "key-1")).
  assert (rtc (step 0 10 100) (opened ∅)
    {| rows := {[ k := {| request := dup; statusCode := 201; responseBody := "paid"; createdAt := 8; expiresAt := 108 |} ]};
       open_txs := []; handling := []; answered := [(k, (201, "paid"))] |}) as H.
  { eapply rtc_l; [apply (read_absent 0 10 100 _ 5 k dup); [lia|done]|].
    eapply rtc_l; [apply (read_absent 0 10 100 _ 6 k dup); [lia|done]|].
    eapply rtc_l; [apply (insert_first 0 10 100 _ true [{| p_key := k; p_mode := ToInsert; p_row := in_flight 6 dup 100 |}]
      {| p_key := k; p_mode := ToInsert; p_row := in_flight 5 dup 100 |} []); done|].
    eapply rtc_l; [apply (insert_second 0 10 100 _ [] {| p_key := k; p_mode := ToInsert; p_row := in_flight 6 dup 100 |} [] (in_flight 5 dup 100));
      [done|done|apply lookup_insert_eq]|].
    eapply rtc_l; [apply (finish 0 10 100 _ true [] k [] 500 ""); [done|by intros (p & Hp & _); apply elem_of_nil in Hp]|].
    eapply rtc_l; [apply (read_absent 0 10 100 _ 8 k dup); [lia|done]|].
    eapply rtc_l; [apply (insert_first 0 10 100 _ true [] {| p_key := k; p_mode := ToInsert; p_row := in_flight 8 dup 100 |} []); done|].
    eapply rtc_l; [apply (finish 0 10 100 _ true [] k [] 201 "paid"); [done|by intros (p & Hp & _); apply elem_of_nil in Hp]|].
    match goal with |- rtc _ ?a ?b => replace a with b; [apply rtc_refl|] end. vm_compute. reflexivity. }
  split; [exact H|]. destruct (pg_one_fresh 0 10 100 ltac:(lia) ∅ k _ H) as (_ & H2 & H3).
  split; [|exact H2]. exact (proj1 (proj2 (H3 5 dup ltac:(lia)) 201 "paid" eq_refl)).
Defined.
End PgIdempotency.

(** ** Sagas *)
Module PgSaga.
Import SagaTypes.
Record instance := { i_name : string; i_status : SagaStatus; i_context : string; i_created : Time; i_updated : Time }.
Record step_row := { s_status : StepStatus; s_error : option saga_error; s_executed : option Time; s_compensated : option Time }.
Record saga_db := { instances : gmap string instance; step_rows : gmap string (gmap string step_row) }.

Definition nilTime (t : option Time) : option Time :=
  match t with Some t => if Time.IsZero t then None else Some t | None => None end.
(** [COALESCE(new, old)]. *)
Definition coalesce (new old : option Time) : option Time := match new with Some t => Some t | None => old end.

Section store.
Context {W : Type}.
(** JSON of a context, and what the database's ordering clauses do. *)
Context (encode : SagaContext → option string) (decode : string → option SagaContext).
Context (by_step_key : list StepResult → list StepResult) (by_created_at : list (Saga W) → list (Saga W)).

Definition pg_Save (ok : bool) (now : Time) (saga : Saga W) (d : saga_db) : saga_db * option saga_error :=
  match encode (Context saga) with
  | None => (d, Some (StoreErr "marshal saga context"))
  | Some j =>
      if ok then
        let row := match instances d !! saga_ID saga with
          | Some old => {| i_name := i_name old; i_status := saga_Status saga; i_context := j; i_created := i_created old; i_updated := now |}
          | None => {| i_name := Name saga; i_status := saga_Status saga; i_context := j; i_created := CreatedAt saga; i_updated := now |}
          end in
        ({| instances := <[saga_ID saga := row]> (instances d); step_rows := step_rows d |}, None)
      else (d, Some (StoreErr "save saga instance"))
  end.

Definition upsert (sr : StepResult) (old : option step_row) : step_row :=
  match old with
  | None => {| s_status := sr_Status sr; s_error := ErrorMessage sr; s_executed := nilTime (ExecutedAt sr); s_compensated := nilTime (CompensatedAt sr) |}
  | Some o => {| s_status := sr_Status sr; s_error := ErrorMessage sr; s_executed := coalesce (nilTime (ExecutedAt sr)) (s_executed o);
                 s_compensated := coalesce (nilTime (CompensatedAt sr)) (s_compensated o) |}
  end.
(** A result of a saga that has no row is refused by the foreign key. *)
Definition pg_SaveStepResult (ok : bool) (sagaID : string) (sr : StepResult) (d : saga_db) : saga_db * option saga_error :=
  match instances d !! sagaID with
  | None => (d, Some (StoreErr "save step result"))
  | Some _ =>
      if ok then
        let steps := default ∅ (step_rows d !! sagaID) in
        ({| instances := instances d;
            step_rows := <[sagaID := <[StepKey sr := upsert sr (steps !! StepKey sr)]> steps]> (step_rows d) |}, None)
      else (d, Some (StoreErr "save step result"))
  end.

Definition result_of (sagaID : string) (kv : string * step_row) : StepResult :=
  {| sr_SagaID := sagaID; StepKey := kv.1; sr_Status := s_status kv.2; ErrorMessage := s_error kv.2; ExecutedAt := s_executed kv.2;
     CompensatedAt := s_compensated kv.2; RetryAttempt := 0 |}.
Definition saga_of (id : string) (r : instance) : result saga_error (Saga W) :=
  match (if decide (i_context r = "") then Some ∅ else decode (i_context r)) with
  | None => Err (StoreErr "unmarshal saga context")
  | Some c => Ok {| saga_ID := id; Name := i_name r; saga_Status := i_status r; Context := c; Steps := []; CreatedAt := i_created r;
                    saga_UpdatedAt := i_updated r |}
  end.
Definition pg_Load (ok1 ok2 : bool) (sagaID : string) (d : saga_db) : result saga_error (Saga W * list StepResult) :=
  if negb ok1 then Err (StoreErr "scan saga instance")
  else match instances d !! sagaID with
  | None => Err StoreNotFound
  | Some r =>
      match saga_of sagaID r with
      | Err e => Err e
      | Ok saga =>
          if ok2 then Ok (saga, by_step_key (map (result_of sagaID) (map_to_list (default ∅ (step_rows d !! sagaID)))))
          else Err (StoreErr "query step results")
      end
  end.
Fixpoint sagas_of (l : list (string * instance)) : result saga_error (list (Saga W)) :=
  match l with
  | [] => Ok []
  | (id, r) :: l =>
      match saga_of id r, sagas_of l with
      | Ok s, Ok ss => Ok (s :: ss)
      | Err e, _ => Err e
      | _, Err e => Err e
      end
  end.
Definition unfinished (r : instance) : bool := bool_decide (i_status r ∈ [SagaRunning; SagaCompensating]).
Definition pg_ListRunning (ok : bool) (d : saga_db) : result saga_error (list (Saga W)) :=
  if ok then
    match sagas_of (List.filter (λ kv, unfinished kv.2) (map_to_list (instances d))) with Ok l => Ok (by_created_at l) | Err e => Err e end
  else Err (StoreErr "list running sagas").

(** *** Saved and loaded *)
Hypothesis step_order : ∀ l, by_step_key l ≡ₚ l.
Hypothesis json_roundtrip : ∀ c j, encode c = Some j → j ≠ "" ∧ decode j = Some c.

(** What was saved is loaded: the status and the context are the last ones
    saved, the name and the creation time the first, and the steps are left to
    the caller. *)
Theorem saved_saga_loaded now saga d d' :
  pg_Save true now saga d = (d', None) →
  ∃ loaded rs, pg_Load true true (saga_ID saga) d' = Ok (loaded, rs) ∧
    saga_ID loaded = saga_ID saga ∧ saga_Status loaded = saga_Status saga ∧ Context loaded = Context saga ∧ Steps loaded = [] ∧
    Name loaded = match instances d !! saga_ID saga with Some o => i_name o | None => Name saga end ∧
    CreatedAt loaded = match instances d !! saga_ID saga with Some o => i_created o | None => CreatedAt saga end ∧
    step_rows d' = step_rows d.
Proof.
  unfold pg_Save. destruct (encode (Context saga)) as [j|] eqn:Ej; [|done]. intros [= <-]. destruct (json_roundtrip _ _ Ej) as [Hne Hd].
  unfold pg_Load, saga_of. cbn [negb instances]. rewrite lookup_insert_eq.
  destruct (instances d !! saga_ID saga) as [o|]; cbn; rewrite decide_False, Hd by done; eexists _, _; (split; [reflexivity|done]).
Qed.

(** A step's result is loaded with the status and error of the last save; a
    time that was known is kept by a save that does not give one. The results
    of other steps are as they were. *)
Theorem saved_step_loaded sagaID sr d d' loaded rs :
  pg_SaveStepResult true sagaID sr d = (d', None) → pg_Load true true sagaID d' = Ok (loaded, rs) →
  NoDup (map StepKey rs) ∧
  ∃ r, r ∈ rs ∧ StepKey r = StepKey sr ∧ sr_Status r = sr_Status sr ∧ ErrorMessage r = ErrorMessage sr ∧
    (∀ loaded0 rs0 r0, pg_Load true true sagaID d = Ok (loaded0, rs0) → r0 ∈ rs0 →
      (StepKey r0 ≠ StepKey sr → r0 ∈ rs) ∧
      (StepKey r0 = StepKey sr → ExecutedAt r = coalesce (nilTime (ExecutedAt sr)) (ExecutedAt r0))).
Proof.
  intros Hs Hl. unfold pg_SaveStepResult in Hs. destruct (instances d !! sagaID) as [ir|] eqn:Ei; [|done]. injection Hs as <-.
  set (steps := default ∅ (step_rows d !! sagaID)) in *. set (row := upsert sr (steps !! StepKey sr)).
  unfold pg_Load in Hl. cbn [negb instances step_rows] in Hl. rewrite Ei in Hl. destruct (saga_of sagaID ir) as [s|] eqn:Es; [|done].
  rewrite lookup_insert_eq in Hl. cbn [default from_option] in Hl. unfold id in Hl. fold steps row in Hl. injection Hl as <- <-.
  set (steps' := <[StepKey sr := row]> steps).
  assert (∀ x, x ∈ by_step_key (map (result_of sagaID) (map_to_list steps')) ↔ ∃ k r, steps' !! k = Some r ∧ x = result_of sagaID (k, r)) as Hin.
  { intros x. rewrite step_order, list_elem_of_fmap. split.
    - intros ([k r] & -> & Hk%elem_of_map_to_list). eauto.
    - intros (k & r & Hk & ->). exists (k, r). split; [done|]. by apply elem_of_map_to_list. }
  split.
  { rewrite step_order. rewrite map_map. cbn. apply NoDup_fst_map_to_list. }
  exists (result_of sagaID (StepKey sr, row)). split.
  { apply Hin. exists (StepKey sr), row. split; [apply lookup_insert_eq|done]. }
  cbn. split; [done|]. split; [unfold row, upsert; by destruct (steps !! _)|]. split; [unfold row, upsert; by destruct (steps !! _)|].
  intros loaded0 rs0 r0 Hl0 Hr0. unfold pg_Load in Hl0. cbn [negb] in Hl0. rewrite Ei, Es in Hl0. injection Hl0 as <- <-. fold steps in Hr0.
  rewrite step_order in Hr0. apply list_elem_of_fmap in Hr0 as ([k0 w0] & -> & Hk0%elem_of_map_to_list). cbn. split.
  - intros Hne. apply Hin. exists k0, w0. split; [|done]. by apply lookup_insert_Some; right.
  - intros ->. unfold row, upsert. by rewrite Hk0.
Qed.

(** The sagas to resume are those that are running or being compensated. *)
Hypothesis saga_order : ∀ l, by_created_at l ≡ₚ l.
Lemma sagas_of_spec l ss s : sagas_of l = Ok ss → s ∈ ss ↔ ∃ k r, (k, r) ∈ l ∧ saga_of k r = Ok s.
Proof.
  revert ss. induction l as [|[k r] l IH]; intros ss E; cbn in E; [simplify_eq; set_solver|].
  destruct (saga_of k r) as [s0|] eqn:Es; [|done]. destruct (sagas_of l) as [ss0|]; [|done]. simplify_eq. rewrite elem_of_cons, (IH ss0 eq_refl).
  setoid_rewrite elem_of_cons. split.
  - intros [->|(k' & r' & Hin & Hs)]; [exists k, r|exists k', r']; auto.
  - intros (k' & r' & [[= -> ->]|Hin] & Hs); [left; congruence|right; eauto].
Qed.
Theorem running_listed d ss s :
  pg_ListRunning true d = Ok ss →
  s ∈ ss ↔ ∃ k r, instances d !! k = Some r ∧ i_status r ∈ [SagaRunning; SagaCompensating] ∧ saga_of k r = Ok s.
Proof.
  unfold pg_ListRunning. destruct (sagas_of _) as [l|] eqn:E; [|done]. intros [= <-]. rewrite saga_order, (sagas_of_spec _ _ _ E).
  split; intros (k & r & H).
  - destruct H as [[Hin Hu]%list_elem_of_In%filter_In Hs]. apply list_elem_of_In in Hin. apply elem_of_map_to_list in Hin.
    apply bool_decide_eq_true in Hu. eauto.
  - destruct H as (Hk & Hu & Hs). exists k, r. split; [|done]. apply list_elem_of_In, filter_In. split.
    + apply list_elem_of_In. by apply elem_of_map_to_list.
    + by apply bool_decide_eq_true.
Qed.
End store.
End PgSaga.
