(* ===== verification/PgRepos.v ===== *)
(** * PostgreSQL repositories

    - [Subs] models [internal/repository/postgres_subscription_repo.go] with
      the statements of [postgres/subscriptions.sql.go];
    - [Plans] models [internal/repository/postgres_plan_repo.go] with the
      statements of [postgres/plans.sql.go];
    - [Statements] models [internal/repository/statements.go];
    - [Partition] models [internal/repository/partition.go].

    A table is a finite map from its primary key, with the columns the
    statements name; a statement fails, with [ok] false, or does what it says.
    Rows of a query without an order come in the order of the map. An update
    of a plan or a subscription is stamped by the trigger of the migration
    that adds [updated_at]. *)
From Stdlib Require Import ZArith Lia Ascii String.
From stdpp Require Import base gmap strings list.
From S2P Require Import Prelude GoStrings GoTime GoRegexp Subscriptions.
#[local] Open Scope string_scope.
#[local] Open Scope Z_scope.

Inductive pg_error := NotFound | ConcurrentUpdate | InvalidInput | Failed.

Section rows.
Context {A : Type}.
Notation table := (gmap string A).
(** [DELETE ... WHERE id = .. AND cond]: the table and the number of rows. *)
Definition delete_where (ok : bool) (id : string) (cond : A → bool) (t : table) : table * result pg_error Z :=
  if negb ok then (t, Err Failed)
  else match t !! id with
  | Some r => if cond r then (delete id t, Ok 1) else (t, Ok 0)
  | None => (t, Ok 0)
  end.
(** No row is reported as [e]. *)
Definition affected (e : pg_error) (r : table * result pg_error Z) : table * option pg_error :=
  let '(t, n) := r in
  (t, match n with Err x => Some x | Ok n => if n =? 0 then Some e else None end).

Lemma delete_where_exact ok id cond e t t' :
  affected e (delete_where ok id cond t) = (t', None) ↔ ok = true ∧ ∃ r, t !! id = Some r ∧ cond r = true ∧ t' = delete id t.
Proof.
  unfold delete_where, affected. destruct ok; cbn; [|split; [done|by intros [? _]]].
  destruct (t !! id) as [r|]; cbn; [|split; [done|by intros (_ & r & ? & _)]].
  destruct (cond r) eqn:Ec; cbn; [|split; [done|intros (_ & r' & [= <-] & ? & _); congruence]].
  split; [intros [= <-]; eauto 10|intros (_ & r' & [= <-] & _ & ->); done].
Qed.
Lemma delete_where_failed ok id cond e x t t' : affected e (delete_where ok id cond t) = (t', Some x) → t' = t.
Proof. unfold delete_where, affected. repeat case_match; naive_solver. Qed.
End rows.

(** Tables with a version column: what an update of one row does. *)
Section versioned.
Context {A : Type} (version : A → Z).
Notation table := (gmap string A).
(** [UPDATE ... SET ..., version = version + 1 WHERE id = .. AND cond]: the
    table and the number of rows; the sum of a BIGINT is checked. *)
Definition update_where (ok : bool) (id : string) (cond : A → bool) (f : A → A) (t : table) : table * result pg_error Z :=
  if negb ok then (t, Err Failed)
  else match t !! id with
  | Some r =>
      if cond r then if version r =? max_int64 then (t, Err Failed) else (<[id := f r]> t, Ok 1)
      else (t, Ok 0)
  | None => (t, Ok 0)
  end.
Lemma update_where_exact ok id cond f e t t' :
  affected e (update_where ok id cond f t) = (t', None) ↔
  ok = true ∧ ∃ r, t !! id = Some r ∧ cond r = true ∧ version r ≠ max_int64 ∧ t' = <[id := f r]> t.
Proof.
  unfold update_where, affected. destruct ok; cbn; [|split; [done|by intros [? _]]].
  destruct (t !! id) as [r|]; cbn; [|split; [done|by intros (_ & r & ? & _)]].
  destruct (cond r) eqn:Ec; cbn; [|split; [done|intros (_ & r' & [= <-] & ? & _); congruence]].
  destruct (version r =? max_int64) eqn:Ev; cbn; [apply Z.eqb_eq in Ev|apply Z.eqb_neq in Ev].
  - split; [done|intros (_ & r' & [= <-] & _ & ? & _); done].
  - split; [intros [= <-]; eauto 10|intros (_ & r' & [= <-] & _ & _ & ->); done].
Qed.
Lemma update_where_failed ok id cond f e x t t' : affected e (update_where ok id cond f t) = (t', Some x) → t' = t.
Proof. unfold update_where, affected. repeat case_match; naive_solver. Qed.
End versioned.

(** ** Subscriptions *)
Module Subs.
Import Subscriptions.Repository.
(** The columns. *)
Record row := {
  plan_id : string;
  tenant_id : string;
  customer_id : string;
  status : string;
  amount : string;
  currency : string;
  interval : string;
  next_billing : option Time;
  updated_at : Time;
  version : Z;
  deleted_at : option Time;
}.
Notation table := (gmap string row).

(** [mapFindSubscriptionRow] and its copies for the other queries. *)
Definition mapSubscriptionRow (id : string) (r : row) : SubscriptionRow :=
  {| ID := id; PlanID := plan_id r; TenantID := tenant_id r; CustomerID := customer_id r; Status := status r; Amount := amount r;
     Currency := currency r; Interval := interval r;
     NextBilling := match next_billing r with Some t => FormatRFC3339 t | None => "" end;
     UpdatedAt := updated_at r; Version := version r; DeletedAt := deleted_at r |}.
Definition rows_of (cond : string → row → bool) (t : table) : list SubscriptionRow :=
  map (λ kv, mapSubscriptionRow kv.1 kv.2) (List.filter (λ kv, cond kv.1 kv.2) (map_to_list t)).

Definition FindByID (ok : bool) (id : string) (t : table) : result pg_error SubscriptionRow :=
  if negb ok then Err Failed
  else match t !! id with Some r => Ok (mapSubscriptionRow id r) | None => Err NotFound end.
Definition pg_FindByIDAndTenant (ok : bool) (id tenantID : string) (t : table) : result pg_error SubscriptionRow :=
  if negb ok then Err Failed
  else match t !! id with
  | Some r => if decide (tenant_id r = tenantID) then Ok (mapSubscriptionRow id r) else Err NotFound
  | None => Err NotFound
  end.
(** A repository without a database, which answers batches with nothing, is
    never built. *)
Definition FindByIDsAndTenant (ok : bool) (ids : list string) (tenantID : string) (t : table) : result pg_error (list SubscriptionRow) :=
  if decide (ids = []) then Ok []
  else if ok then Ok (rows_of (λ id r, bool_decide (id ∈ ids) && (bool_decide (tenantID = "") || bool_decide (tenant_id r = tenantID))) t)
  else Err Failed.
Definition ListByTenant (ok : bool) (tenantID : string) (t : table) : result pg_error (list SubscriptionRow) :=
  if ok then Ok (rows_of (λ _ r, bool_decide (tenant_id r = tenantID)) t) else Err Failed.

Definition with_status (now : Time) (s : string) (r : row) : row :=
  {| plan_id := plan_id r; tenant_id := tenant_id r; customer_id := customer_id r; status := s; amount := amount r; currency := currency r;
     interval := interval r; next_billing := next_billing r; updated_at := now; version := version r + 1; deleted_at := deleted_at r |}.
Definition pg_UpdateStatus (ok : bool) (now : Time) (id tenantID s : string) (t : table) : table * option pg_error :=
  affected NotFound (update_where version ok id (λ r, bool_decide (tenant_id r = tenantID)) (with_status now s) t).

(** The date of an update: one that does not parse is the zero time. *)
Definition billing_date (s : string) : option Time := if decide (s = "") then None else Some (default Time.zero (ParseRFC3339 s)).
Definition updated (now : Time) (sub : SubscriptionRow) (r : row) : row :=
  {| plan_id := PlanID sub; tenant_id := tenant_id r; customer_id := customer_id r; status := Status sub; amount := Amount sub;
     currency := Currency sub; interval := Interval sub; next_billing := billing_date (NextBilling sub); updated_at := now;
     version := version r + 1; deleted_at := deleted_at r |}.
Definition at_version (tenantID : string) (v : Z) (r : row) : bool := bool_decide (tenant_id r = tenantID ∧ version r = v).
Definition Update (ok : bool) (now : Time) (sub : SubscriptionRow) (expectedVersion : Z) (t : table) : table * option pg_error :=
  affected ConcurrentUpdate
    (update_where version ok (ID sub) (at_version (TenantID sub) expectedVersion) (updated now sub) t).
Definition Delete (ok : bool) (id tenantID : string) (expectedVersion : Z) (t : table) : table * option pg_error :=
  affected ConcurrentUpdate (delete_where ok id (at_version tenantID expectedVersion) t).

(** *** Writers *)
Inductive op :=
| OStatus (ok : bool) (now : Time) (id tenantID s : string)
| OUpdate (ok : bool) (now : Time) (sub : SubscriptionRow) (expectedVersion : Z)
| ODelete (ok : bool) (id tenantID : string) (expectedVersion : Z).
Definition exec (o : op) (t : table) : table * option pg_error :=
  match o with
  | OStatus ok now id tn s => pg_UpdateStatus ok now id tn s t
  | OUpdate ok now sub v => Update ok now sub v t
  | ODelete ok id tn v => Delete ok id tn v t
  end.
Definition tenant_of (o : op) : string := match o with OStatus _ _ _ tn _ => tn | OUpdate _ _ sub _ => TenantID sub | ODelete _ _ tn _ => tn end.
Definition target (o : op) : string := match o with OStatus _ _ id _ _ => id | OUpdate _ _ sub _ => ID sub | ODelete _ id _ _ => id end.
(** The version a write expects, if it does. *)
Definition expects (o : op) : option Z := match o with OStatus _ _ _ _ _ => None | OUpdate _ _ _ v => Some v | ODelete _ _ _ v => Some v end.

Lemma exec_exact o t t' e :
  exec o t = (t', e) →
  (e ≠ None → t' = t) ∧
  (e = None → ∃ r, t !! target o = Some r ∧ tenant_id r = tenant_of o ∧ (∀ v, expects o = Some v → version r = v) ∧
     (t' = delete (target o) t ∨ ∃ r', t' = <[target o := r']> t ∧ version r' = version r + 1 ∧ tenant_id r' = tenant_id r)).
Proof.
  intros H. split.
  - intros He. destruct e as [x|]; [|done]. destruct o; cbn in H; unfold pg_UpdateStatus, Update, Delete in H;
      [eapply update_where_failed; exact H|eapply update_where_failed; exact H|eapply delete_where_failed; exact H].
  - intros ->. destruct o; cbn in *; unfold pg_UpdateStatus, Update, Delete in H.
    + apply update_where_exact in H as (_ & r & Hr & Hc & _ & ->). apply bool_decide_eq_true in Hc. exists r. split_and!; [done|done|done|].
      right. eexists. split; [done|done].
    + apply update_where_exact in H as (_ & r & Hr & Hc & _ & ->). apply bool_decide_eq_true in Hc as [Hc Hv]. exists r.
      split_and!; [done|done|naive_solver|]. right. eexists. split; [done|done].
    + apply delete_where_exact in H as (_ & r & Hr & Hc & ->). apply bool_decide_eq_true in Hc as [Hc Hv]. exists r.
      split_and!; [done|done|naive_solver|by left].
Qed.

(** A write on behalf of a tenant leaves every row of another tenant as it
    is. *)
Theorem writes_scoped o t t' e id r :
  exec o t = (t', e) → t !! id = Some r → tenant_id r ≠ tenant_of o → t' !! id = Some r.
Proof.
  intros H Hr Hne. destruct (exec_exact o t t' e H) as [Hf Hs]. destruct e as [x|]; [by rewrite Hf|].
  destruct (Hs eq_refl) as (r0 & Hr0 & Ht & _ & Hc). assert (target o ≠ id) by (intros <-; congruence).
  destruct Hc as [->|(r' & -> & _)]; [by rewrite lookup_delete_ne|by rewrite lookup_insert_ne].
Qed.

(** Writes one after another, with their outcomes. *)
Fixpoint run (os : list op) (t : table) : table * list (op * option pg_error) :=
  match os with
  | [] => (t, [])
  | o :: os => let '(t, e) := exec o t in let '(t, es) := run os t in (t, (o, e) :: es)
  end.
(** Successful writes of row [id] that expected version [v]. *)
Definition wins (id : string) (v : Z) (l : list (op * option pg_error)) : nat :=
  length (filter (λ oe, target oe.1 = id ∧ expects oe.1 = Some v ∧ oe.2 = None) l).

Definition beyond (id : string) (v : Z) (t : table) : Prop := ∀ r, t !! id = Some r → v < version r.
Lemma exec_beyond id v o t t' e : exec o t = (t', e) → beyond id v t → beyond id v t'.
Proof.
  intros H Hb. destruct (exec_exact o t t' e H) as [Hf Hs]. destruct e as [x|]; [by rewrite Hf|].
  destruct (Hs eq_refl) as (r0 & Hr0 & _ & _ & [->|(r' & -> & Hv & _)]); intros r.
  - intros [_ ?]%lookup_delete_Some. by apply Hb.
  - intros [[<- <-]|[_ ?]]%lookup_insert_Some; [|by apply Hb]. specialize (Hb r0 Hr0). lia.
Qed.
Lemma run_beyond id v os t : beyond id v t → wins id v (run os t).2 = 0%nat.
Proof.
  revert t. induction os as [|o os IH]; intros t Hb; [done|]. cbn [run]. destruct (exec o t) as [t1 e] eqn:E. destruct (run os t1) as [t2 es] eqn:E2.
  cbn [snd]. specialize (IH t1 (exec_beyond _ _ _ _ _ _ E Hb)). rewrite E2 in IH. unfold wins in *. cbn [snd] in IH. rewrite filter_cons.
  rewrite decide_False; [done|]. cbn. intros (<- & Hx & ->). destruct (exec_exact o t t1 None E) as [_ Hs].
  destruct (Hs eq_refl) as (r & Hr & _ & Hv & _). specialize (Hv v Hx). specialize (Hb r Hr). lia.
Qed.

(** C9: no update is lost: of all the writes of a row that expect the same
    version, in whatever order they come and whatever comes between them, at
    most one succeeds. *)
Theorem one_write_per_version id v os t : (wins id v (run os t).2 ≤ 1)%nat.
Proof.
  revert t. induction os as [|o os IH]; intros t; [cbn; lia|]. cbn [run]. destruct (exec o t) as [t1 e] eqn:E.
  pose proof (IH t1) as IH1. destruct (run os t1) as [t2 es] eqn:E2. cbn [snd] in *. unfold wins in *. rewrite filter_cons.
  case_decide as Hd; [|done]. destruct Hd as (<- & Hx & He). cbn in He. subst e. cbn [length].
  destruct (exec_exact o t t1 None E) as [_ Hs]. destruct (Hs eq_refl) as (r & Hr & _ & Hv & Hc).
  assert (beyond (target o) v t1) as Hb.
  { intros r1 Hr1. specialize (Hv v Hx). destruct Hc as [->|(r' & -> & Hv' & _)]; [by rewrite lookup_delete_eq in Hr1|].
    rewrite lookup_insert_eq in Hr1. simplify_eq. lia. }
  pose proof (run_beyond (target o) v os t1 Hb) as E0. rewrite E2 in E0. unfold wins in E0. cbn [snd fst] in *. rewrite E0. lia.
Qed.

(** *** Readers *)
Theorem reads_scoped ok tenantID t l s :
  ListByTenant ok tenantID t = Ok l → s ∈ l → TenantID s = tenantID ∧ ∃ r, t !! ID s = Some r ∧ s = mapSubscriptionRow (ID s) r.
Proof.
  unfold ListByTenant, rows_of. destruct ok; [|done]. intros [= <-] ([k r] & -> & [Hin Hc]%list_elem_of_In%filter_In)%list_elem_of_fmap.
  apply bool_decide_eq_true in Hc. apply list_elem_of_In, elem_of_map_to_list in Hin. cbn. eauto.
Qed.

(** A batch read without a tenant reads every tenant's rows. *)
Theorem batch_unscoped ids id r t :
  id ∈ ids → t !! id = Some r →
  ∃ l, FindByIDsAndTenant true ids "" t = Ok l ∧ mapSubscriptionRow id r ∈ l.
Proof.
  intros Hid Hr. unfold FindByIDsAndTenant. case_decide as E; [subst; by apply elem_of_nil in Hid|]. eexists. split; [done|].
  apply list_elem_of_fmap. exists (id, r). split; [done|]. apply list_elem_of_In, filter_In. split.
  - apply list_elem_of_In. by apply elem_of_map_to_list.
  - cbn. by rewrite bool_decide_true.
Qed.

(** A row that is read and written back with its own version is the same row,
    with the next version, and the next billing date to the second. *)
Theorem read_write_read now id tenantID t t' sub :
  (∀ r d, t !! id = Some r → next_billing r = Some d → 0 ≤ (civil d).1.1 ≤ 9999) →
  pg_FindByIDAndTenant true id tenantID t = Ok sub → Update true now sub (Version sub) t = (t', None) →
  pg_FindByIDAndTenant true id tenantID t' =
    Ok {| ID := ID sub; PlanID := PlanID sub; TenantID := TenantID sub; CustomerID := CustomerID sub; Status := Status sub;
          Amount := Amount sub; Currency := Currency sub; Interval := Interval sub; NextBilling := NextBilling sub;
          UpdatedAt := now; Version := Version sub + 1; DeletedAt := DeletedAt sub |}.
Proof.
  intros Hy Hf Hu. unfold pg_FindByIDAndTenant in *. cbn [negb] in *. destruct (t !! id) as [r|] eqn:Er; [|done].
  case_decide as Ht; [|done]. simplify_eq. unfold Update in Hu. apply update_where_exact in Hu as (_ & r' & Hr' & _ & _ & ->). cbn [ID mapSubscriptionRow] in *.
  rewrite Er in Hr'. injection Hr' as <-. rewrite lookup_insert_eq. cbn [tenant_id updated]. rewrite decide_True by done.
  f_equal. unfold mapSubscriptionRow. cbn -[FormatRFC3339 ParseRFC3339]. f_equal. unfold billing_date. destruct (next_billing r) as [d|] eqn:Ed; [|done].
  specialize (Hy r d eq_refl Ed). pose proof (ParseRFC3339_Format d Hy) as Hp.
  case_decide as E; [rewrite E in Hp; discriminate|]. rewrite Hp. cbn -[FormatRFC3339]. apply FormatRFC3339_second.
Qed.

(** A date that does not parse is stored as the first second of year one. *)
Theorem bad_date_becomes_year_one now sub v t t' :
  NextBilling sub ≠ "" → ParseRFC3339 (NextBilling sub) = None → Update true now sub v t = (t', None) →
  ∃ s, FindByID true (ID sub) t' = Ok s ∧ NextBilling s = "0001-01-01T00:00:00Z".
Proof.
  intros Hne Hp Hu. unfold Update in Hu. apply update_where_exact in Hu as (_ & r & Hr & _ & _ & ->). unfold FindByID. cbn [negb].
  rewrite lookup_insert_eq. eexists. split; [done|]. cbn. unfold billing_date. rewrite decide_False, Hp by done. vm_compute. reflexivity.
Qed.

(** *** The mock does the same, but for versions *)
Definition same_but_version (s : SubscriptionRow) (m : SubscriptionRow) : Prop :=
  ID s = ID m ∧ PlanID s = PlanID m ∧ TenantID s = TenantID m ∧ CustomerID s = CustomerID m ∧ Status s = Status m ∧ Amount s = Amount m ∧
  Currency s = Currency m ∧ Interval s = Interval m ∧ NextBilling s = NextBilling m ∧ DeletedAt s = DeletedAt m.
Definition simulates (t : table) (m : MockSubscriptionRepo) : Prop :=
  ∀ id, match t !! id, (m : gmap string SubscriptionRow) !! id with
        | Some r, Some s => same_but_version (mapSubscriptionRow id r) s
        | None, None => True
        | _, _ => False
        end.
Definition room (t : table) : Prop := ∀ id r, t !! id = Some r → version r < max_int64.

(** A table and a mock that hold the same rows, versions and stamps aside,
    find the same and go on holding the same after a change of status. *)
Theorem mock_simulation now id tenantID s t m :
  simulates t m → room t →
  match pg_FindByIDAndTenant true id tenantID t, Mock_FindByIDAndTenant m id tenantID with
  | Ok a, Ok b => same_but_version a b
  | Err NotFound, Err Repository.ErrNotFound => True
  | _, _ => False
  end ∧
  let '(t', e) := pg_UpdateStatus true now id tenantID s t in
  let '(m', e') := Mock_UpdateStatus m id tenantID s in
  simulates t' m' ∧ (e = None ↔ e' = None).
Proof.
  intros Hs Hroom. pose proof (Hs id) as Hid. unfold pg_FindByIDAndTenant, Mock_FindByIDAndTenant, pg_UpdateStatus, update_where, Mock_UpdateStatus.
  unfold MockSubscriptionRepo in *. cbn [negb]. destruct (t !! id) as [r|] eqn:Er, (m !! id) as [b|] eqn:Em; try done.
  pose proof Hid as (_ & _ & Ht & _). cbn in Ht. destruct (decide (tenant_id r = tenantID)) as [E|E].
  - rewrite bool_decide_true by done. rewrite !(decide_False (P := TenantID b ≠ tenantID)) by (intros Hn; apply Hn; congruence).
    split; [done|]. specialize (Hroom id r Er). replace (version r =? max_int64) with false by lia. cbn. split; [|done].
    intros id'. destruct (decide (id = id')) as [<-|Hne]; [|rewrite !lookup_insert_ne by done; apply Hs].
    rewrite !lookup_insert_eq. destruct Hid as (?&?&?&?&?&?&?&?&?&?). unfold same_but_version in *. cbn in *. done.
  - rewrite bool_decide_false by done. rewrite !(decide_True (P := TenantID b ≠ tenantID)) by congruence. cbn. done.
Qed.

(** *** The repository as the service sees it

    A session is the table, the instant the database stamps writes with, and
    whether its statements get through. The promises of the service's
    interface hold of it, the version a write increments included. *)
Record Session := { tbl : table; at_time : Time; up : bool }.
Definition set_tbl (t : table) (s : Session) : Session := {| tbl := t; at_time := at_time s; up := up s |}.
Definition repo_err (e : pg_error) : repo_error :=
  match e with NotFound => ErrNotFound | ConcurrentUpdate => StorageErr "concurrent update" | InvalidInput => StorageErr "invalid input" | Failed => StorageErr "database" end.
#[export] Instance pg_repository : SubscriptionRepository Session := {
  FindByIDAndTenant s id t := match pg_FindByIDAndTenant (up s) id t (tbl s) with Ok r => Ok r | Err e => Err (repo_err e) end;
  UpdateStatus s id t st := let '(t', e) := pg_UpdateStatus (up s) (at_time s) id t st (tbl s) in (set_tbl t' s, repo_err <$> e);
}.
#[export] Instance pg_repository_laws : SubscriptionRepositoryLaws Session.
Proof.
  split; cbn; unfold pg_FindByIDAndTenant, pg_UpdateStatus.
  - intros s id t row Hf. repeat case_match; simplify_eq/=; done.
  - intros s s' id t st row Hf Hu. destruct (affected _ _) as [t' [e|]] eqn:Ha; simplify_eq/=.
    apply update_where_exact in Ha as (Hup & r & Hr & Hc & _ & ->). apply bool_decide_eq_true in Hc.
    rewrite Hup, Hr in Hf. cbn in Hf. rewrite decide_True in Hf by done. injection Hf as <-.
    exists (at_time s), (version r + 1). cbn. rewrite Hup, lookup_insert_eq. cbn. by rewrite decide_True.
  - intros s s' id t st e id' t' Hu Hne. destruct (affected _ _) as [t2 [e2|]] eqn:Ha; simplify_eq/=.
    { apply update_where_failed in Ha as ->. by destruct s. }
    apply update_where_exact in Ha as (Hup & r & Hr & Hc & _ & ->). apply bool_decide_eq_true in Hc.
    destruct (decide (id = id')) as [<-|Hid]; [|by rewrite lookup_insert_ne].
    destruct Hne as [?|Hne]; [done|]. rewrite lookup_insert_eq, Hr. cbn. by rewrite !decide_False by congruence.
  - intros s s' id t st e Hu. destruct (affected _ _) as [t2 [e2|]] eqn:Ha; simplify_eq/=.
    apply update_where_failed in Ha as ->. by destruct s.
Qed.
End Subs.

(** ** Plans *)
Module Plans.
Import Subscriptions.Repository.
Record plan_record := {
  p_tenant_id : string;
  p_name : string;
  p_amount : string;
  p_currency : string;
  p_interval : string;
  p_description : option string;
  p_updated_at : Time;
  p_version : Z;
}.
Notation table := (gmap string plan_record).

Definition nullableDescription (d : option string) : string := default "" d.
Definition plan_of (id : string) (r : plan_record) : PlanRow :=
  {| plan_ID := id; plan_TenantID := p_tenant_id r; plan_Name := p_name r; plan_Amount := p_amount r; plan_Currency := p_currency r;
     plan_Interval := p_interval r; plan_Description := nullableDescription (p_description r); plan_UpdatedAt := p_updated_at r;
     plan_Version := p_version r |}.
Definition Plan_FindByID (ok : bool) (id : string) (t : table) : result pg_error PlanRow :=
  if negb ok then Err Failed else match t !! id with Some r => Ok (plan_of id r) | None => Err NotFound end.
Definition Plan_FindByIDsAndTenant (ok : bool) (ids : list string) (tenantID : string) (t : table) : result pg_error (list PlanRow) :=
  if decide (ids = []) then Ok []
  else if ok then
    Ok (map (λ kv, plan_of kv.1 kv.2) (List.filter (λ kv, bool_decide (kv.1 ∈ ids) &&
      (bool_decide (tenantID = "") || bool_decide (p_tenant_id kv.2 = tenantID))) (map_to_list t)))
  else Err Failed.
Definition Plan_FindByIDs (ok : bool) (ids : list string) (t : table) : result pg_error (list PlanRow) := Plan_FindByIDsAndTenant ok ids "" t.
(** [by_name] is the database's [ORDER BY name, id]. *)
Definition Plan_List (by_name : list (string * plan_record) → list (string * plan_record)) (ok : bool) (t : table) : result pg_error (list PlanRow) :=
  if ok then Ok (map (λ kv, plan_of kv.1 kv.2) (by_name (map_to_list t))) else Err Failed.
Definition described (d : string) : option string := if decide (d = "") then None else Some d.
Definition revised (now : Time) (p : PlanRow) (r : plan_record) : plan_record :=
  {| p_tenant_id := p_tenant_id r; p_name := plan_Name p; p_amount := p_amount r; p_currency := p_currency r; p_interval := p_interval r;
     p_description := described (plan_Description p); p_updated_at := now; p_version := p_version r + 1 |}.
Definition Plan_Update (ok : bool) (now : Time) (p : PlanRow) (expectedVersion : Z) (t : table) : table * option pg_error :=
  affected ConcurrentUpdate (update_where p_version ok (plan_ID p) (λ r, p_version r =? expectedVersion) (revised now p) t).
Definition Plan_Delete (ok : bool) (id : string) (expectedVersion : Z) (t : table) : table * option pg_error :=
  affected ConcurrentUpdate (delete_where ok id (λ r, p_version r =? expectedVersion) t).

(** An update keeps the name and the description it is given and drops the
    rest: amount, currency, interval and tenant stay what they were, and
    nothing says so. *)
Theorem plan_update_keeps_price now p v t t' :
  Plan_Update true now p v t = (t', None) →
  ∃ r, t !! plan_ID p = Some r ∧ p_version r = v ∧
    Plan_FindByID true (plan_ID p) t' = Ok {| plan_ID := plan_ID p; plan_TenantID := p_tenant_id r; plan_Name := plan_Name p;
      plan_Amount := p_amount r; plan_Currency := p_currency r; plan_Interval := p_interval r; plan_Description := plan_Description p;
      plan_UpdatedAt := now; plan_Version := v + 1 |}.
Proof.
  unfold Plan_Update. intros (_ & r & Hr & Hv & _ & ->)%update_where_exact. apply Z.eqb_eq in Hv. exists r. split_and!; [done|done|].
  unfold Plan_FindByID. cbn [negb]. rewrite lookup_insert_eq. unfold plan_of, described, nullableDescription, revised.
  cbn [p_tenant_id p_name p_amount p_currency p_interval p_description p_updated_at p_version]. rewrite Hv. do 2 f_equal.
  unfold described. destruct (decide (plan_Description p = "")) as [->|]; done.
Qed.
End Plans.

(** ** Statements by tenant *)
Module Statements.
Record Statement := { ID : Z; TenantID : string; Content : string; CreatedAt : Time; UpdatedAt : Time }.
(** The table, and the identifier the next row gets. *)
Record table := { st_rows : gmap Z Statement; next_id : Z }.

Definition Statement_Create (ok : bool) (now : Time) (s : option Statement) (t : table) : table * result pg_error Z :=
  match s with
  | None => (t, Err InvalidInput)
  | Some s =>
      if decide (TenantID s = "") then (t, Err InvalidInput)
      else if ok then
        let created := if Time.IsZero (CreatedAt s) then now else CreatedAt s in
        let id := next_id t in
        ({| st_rows := <[id := {| ID := id; TenantID := TenantID s; Content := Content s; CreatedAt := created; UpdatedAt := created |}]> (st_rows t);
            next_id := id + 1 |}, Ok id)
      else (t, Err Failed)
  end.
Definition owned (tenantID : string) (id : Z) (t : table) : option Statement :=
  match st_rows t !! id with Some r => if decide (TenantID r = tenantID) then Some r else None | None => None end.
Definition Statement_Get (ok : bool) (tenantID : string) (id : Z) (t : table) : result pg_error Statement :=
  if decide (tenantID = "" ∨ id ≤ 0) then Err InvalidInput
  else if negb ok then Err Failed
  else match owned tenantID id t with Some r => Ok r | None => Err NotFound end.
Definition in_window (from to : option Time) (s : Statement) : bool :=
  match from with Some f => f <=? CreatedAt s | None => true end && match to with Some u => CreatedAt s <=? u | None => true end.
Definition Statement_List (by_created_at : list Statement → list Statement) (ok : bool) (tenantID : string) (from to : option Time) (t : table)
    : result pg_error (list Statement) :=
  if decide (tenantID = "") then Err InvalidInput
  else if ok then Ok (by_created_at (List.filter (λ s, bool_decide (TenantID s = tenantID) && in_window from to s) (map_to_list (st_rows t)).*2))
  else Err Failed.
Definition Statement_Update (ok : bool) (now : Time) (tenantID : string) (id : Z) (content : string) (t : table) : table * option pg_error :=
  if decide (tenantID = "" ∨ id ≤ 0) then (t, Some InvalidInput)
  else if negb ok then (t, Some Failed)
  else match owned tenantID id t with
  | Some r => ({| st_rows := <[id := {| ID := ID r; TenantID := TenantID r; Content := content; CreatedAt := CreatedAt r; UpdatedAt := now |}]> (st_rows t);
                  next_id := next_id t |}, None)
  | None => (t, Some NotFound)
  end.
Definition Statement_Delete (ok : bool) (tenantID : string) (id : Z) (t : table) : table * option pg_error :=
  if decide (tenantID = "" ∨ id ≤ 0) then (t, Some InvalidInput)
  else if negb ok then (t, Some Failed)
  else match owned tenantID id t with
  | Some _ => ({| st_rows := delete id (st_rows t); next_id := next_id t |}, None)
  | None => (t, Some NotFound)
  end.

(** A tenant never sees, changes or removes a statement of another: what its
    calls return is its own, and what they do leaves the others' rows. *)
Theorem statements_isolated ok now tenantID other id content t :
  other ≠ tenantID →
  let mine t := filter (λ kv, TenantID kv.2 = other) (st_rows t) in
  mine (Statement_Update ok now tenantID id content t).1 = mine t ∧ mine (Statement_Delete ok tenantID id t).1 = mine t ∧
  (∀ r, Statement_Get ok tenantID id t = Ok r → TenantID r = tenantID).
Proof.
  intros Hne. cbn zeta. unfold Statement_Update, Statement_Delete, Statement_Get, owned. repeat case_decide; destruct ok; cbn [negb fst]; try (split_and!; done);
    destruct (st_rows t !! id) as [r|] eqn:Er; try (split_and!; done); case_decide as Ht; try (split_and!; done).
  split_and!; cbn.
  - rewrite map_filter_insert_not'; [done|cbn; congruence|]. intros r' Hr' Hx. cbn in *. congruence.
  - rewrite map_filter_delete. apply delete_id. apply map_lookup_filter_None. right. intros r' Hr'. cbn. congruence.
  - intros r' [= <-]. done.
Qed.

(** Created, then read. *)
Theorem created_statement_read now s t t' id :
  0 < next_id t → Statement_Create true now (Some s) t = (t', Ok id) →
  ∃ r, Statement_Get true (TenantID s) id t' = Ok r ∧ Content r = Content s ∧ (CreatedAt s ≠ Time.zero → CreatedAt r = CreatedAt s) ∧ UpdatedAt r = CreatedAt r.
Proof.
  intros Hn. unfold Statement_Create. case_decide as E; [done|]. intros [= <- <-]. unfold Statement_Get, owned. rewrite decide_False by (intros [?|?]; [done|lia]).
  cbn. rewrite lookup_insert_eq. cbn. rewrite decide_True by done. eexists. split_and!; [done|done| |done]. cbn. unfold Time.IsZero.
  intros Hz. by rewrite (proj2 (Z.eqb_neq _ _)).
Qed.
End Statements.

(** ** The partitioned statements table *)
Module Partition.
Definition statementsPartitionEnv : string := "FF_STATEMENTS_PARTITIONING_ENABLED".
Definition oldStatementsTable : string := "statements_old".
Definition live : string := "statements".
Definition staging : string := "statements_partitioned".

Section migration.
Context {A : Type}.
(** Rows by period start and identifier. *)
Notation rows := (gmap (string * string) A).
Record relation := { partitioned : bool; content : rows }.
Notation catalog := (gmap string relation).
Inductive mig_error :=
| CheckFailed | NoStaging | BeginFailed | LockFailed | CopyFailed | RenameOldFailed | RenameNewFailed | CommitFailed
| BadPeriod | CreateFailed.

(** Which statements the database carries out; a transaction that stops
    before its commit leaves the catalog as it was. *)
Context (ok : mig_error → bool).

Definition statementsPartitioningEnabled (env : option string) : bool :=
  match env with Some v => default false (ParseBool v) | None => false end.
(** The cast of the name to a relation fails when there is none. *)
Definition isTablePartitioned (name : string) (c : catalog) : result mig_error bool :=
  match c !! name with Some r => if ok CheckFailed then Ok (partitioned r) else Err CheckFailed | None => Err CheckFailed end.
Definition tableExists (name : string) (c : catalog) : result mig_error bool :=
  if ok CheckFailed then Ok (bool_decide (is_Some (c !! name))) else Err CheckFailed.
(** [ALTER TABLE a RENAME TO b]. *)
Definition rename (e : mig_error) (a b : string) (c : catalog) : result mig_error catalog :=
  match c !! a, c !! b with
  | Some r, None => if ok e then Ok (<[b := r]> (delete a c)) else Err e
  | _, _ => Err e
  end.
(** [INSERT INTO staging SELECT .. FROM statements]: refused when a key is
    there already. *)
Definition copy (c : catalog) : result mig_error catalog :=
  match c !! live, c !! staging with
  | Some l, Some s =>
      if ok CopyFailed && bool_decide (content l ##ₘ content s)
      then Ok (<[staging := {| partitioned := partitioned s; content := content l ∪ content s |}]> c) else Err CopyFailed
  | _, _ => Err CopyFailed
  end.
Definition committed (before : catalog) (r : result mig_error catalog) : catalog * option mig_error :=
  match r with
  | Err e => (before, Some e)
  | Ok c => if ok CommitFailed then (c, None) else (before, Some CommitFailed)
  end.

Definition MigrateStatementsPartition (env : option string) (c : catalog) : catalog * option mig_error :=
  if negb (statementsPartitioningEnabled env) then (c, None)
  else match isTablePartitioned live c with
  | Err e => (c, Some e)
  | Ok true => (c, None)
  | Ok false =>
      match tableExists staging c with
      | Err e => (c, Some e)
      | Ok false => (c, Some NoStaging)
      | Ok true =>
          if negb (ok BeginFailed) then (c, Some BeginFailed)
          else if negb (ok LockFailed) then (c, Some LockFailed)
          else committed c (match copy c with
            | Err e => Err e
            | Ok c => match rename RenameOldFailed live oldStatementsTable c with
                      | Err e => Err e
                      | Ok c => rename RenameNewFailed staging live c
                      end
            end)
      end
  end.
Definition RollbackStatementsPartition (c : catalog) : catalog * option mig_error :=
  match tableExists oldStatementsTable c with
  | Err e => (c, Some e)
  | Ok false => (c, None)
  | Ok true =>
      if negb (ok BeginFailed) then (c, Some BeginFailed)
      else if negb (ok LockFailed) then (c, Some LockFailed)
      else committed c (match rename RenameNewFailed live staging c with
        | Err e => Err e
        | Ok c => rename RenameOldFailed oldStatementsTable live c
        end)
  end.

(** *** The migration moves every row *)
Lemma rename_Ok e a b c c' : rename e a b c = Ok c' → ∃ r, c !! a = Some r ∧ c !! b = None ∧ c' = <[b := r]> (delete a c).
Proof. unfold rename. destruct (c !! a), (c !! b); try done. destruct (ok e); [|done]. naive_solver. Qed.
Lemma committed_Ok b r c : committed b r = (c, None) → r = Ok c.
Proof. unfold committed. destruct r as [c0|]; [|done]. destruct (ok CommitFailed); [|done]. naive_solver. Qed.

Theorem migration_moves_rows env c c' l s :
  MigrateStatementsPartition env c = (c', None) → statementsPartitioningEnabled env = true →
  c !! live = Some l → partitioned l = false → c !! staging = Some s →
  c' !! live = Some {| partitioned := partitioned s; content := content l ∪ content s |} ∧ content l ##ₘ content s ∧
  c' !! oldStatementsTable = Some l ∧ c' !! staging = None.
Proof.
  intros H He Hl Hp Hs. unfold MigrateStatementsPartition, isTablePartitioned, tableExists in H. rewrite He, Hl, Hs, Hp in H. cbn [negb] in H.
  destruct (ok CheckFailed); [|done]. rewrite bool_decide_true in H by done. destruct (ok BeginFailed), (ok LockFailed); try done. cbn [negb] in H.
  apply committed_Ok in H. unfold copy in H. rewrite Hl, Hs in H. destruct (ok CopyFailed); [|done]. cbn [andb] in H.
  case_bool_decide as Hd; [|done]. destruct (rename RenameOldFailed _ _ _) as [c1|] eqn:E1; [|done].
  apply rename_Ok in E1 as (r1 & Hr1 & Hn1 & ->). apply rename_Ok in H as (r2 & Hr2 & Hn2 & ->).
  rewrite lookup_insert_ne in Hr1 by done. rewrite Hl in Hr1. injection Hr1 as <-.
  rewrite lookup_insert_ne, lookup_delete_ne, lookup_insert_eq in Hr2 by done. injection Hr2 as <-.
  split_and!; [by rewrite lookup_insert_eq|done| |].
  - by rewrite lookup_insert_ne, lookup_delete_ne, lookup_insert_eq by done.
  - by rewrite lookup_insert_ne, lookup_delete_eq by done.
Qed.

(** Rolling back puts the old table in place: rows written since the
    migration are no longer in the live table, whatever they were. *)
Theorem rollback_restores_old c c' l old :
  RollbackStatementsPartition c = (c', None) → c !! live = Some l → c !! oldStatementsTable = Some old →
  c' !! live = Some old ∧ c' !! staging = Some l ∧ c' !! oldStatementsTable = None.
Proof.
  intros H Hl Ho. unfold RollbackStatementsPartition, tableExists in H. destruct (ok CheckFailed); [|done]. rewrite Ho in H.
  rewrite bool_decide_true in H by done. destruct (ok BeginFailed), (ok LockFailed); try done. cbn [negb] in H. apply committed_Ok in H.
  destruct (rename RenameNewFailed _ _ _) as [c1|] eqn:E1; [|done].
  apply rename_Ok in E1 as (r1 & Hr1 & Hn1 & ->). apply rename_Ok in H as (r2 & Hr2 & Hn2 & ->). rewrite Hl in Hr1. injection Hr1 as <-.
  rewrite lookup_insert_ne, lookup_delete_ne, Ho in Hr2 by done. injection Hr2 as <-.
  split_and!; [by rewrite lookup_insert_eq|by rewrite lookup_insert_ne, lookup_delete_ne, lookup_insert_eq by done|].
  by rewrite lookup_insert_ne, lookup_delete_eq by done.
Qed.

(** After a migration and a rollback the migration cannot be run again, as
    soon as there was a row: the rows it would copy are there already. *)
Theorem migration_not_repeatable env c c1 c2 l s :
  MigrateStatementsPartition env c = (c1, None) → statementsPartitioningEnabled env = true →
  c !! live = Some l → partitioned l = false → content l ≠ ∅ → c !! staging = Some s →
  RollbackStatementsPartition c1 = (c2, None) →
  (MigrateStatementsPartition env c2).1 = c2 ∧ (MigrateStatementsPartition env c2).2 ≠ None.
Proof.
  intros H1 He Hl Hp Hne Hs H2. destruct (migration_moves_rows env c c1 l s H1 He Hl Hp Hs) as (E1 & Hd & E2 & _).
  destruct (rollback_restores_old c1 c2 _ _ H2 E1 E2) as (F1 & F2 & _).
  assert (copy c2 = Err CopyFailed) as Hc.
  { unfold copy. rewrite F1, F2. cbn. rewrite bool_decide_false; [by rewrite andb_false_r|]. intros Hd2.
    apply map_choose in Hne as (i & x & Hx). eapply map_disjoint_Some_l in Hd2; [|exact Hx]. by rewrite (lookup_union_Some_l _ _ _ _ Hx) in Hd2. }
  unfold MigrateStatementsPartition, isTablePartitioned, tableExists. rewrite He, F1, Hp. cbn [negb]. destruct (ok CheckFailed); [|done].
  rewrite F2, bool_decide_true by done. destruct (ok BeginFailed), (ok LockFailed); try done. cbn [negb]. by rewrite Hc.
Qed.

(** *** A month's partition *)
Definition month_name (m : Z) : string :=
  default "" (["January"; "February"; "March"; "April"; "May"; "June"; "July"; "August"; "September"; "October"; "November"; "December"]
    !! Z.to_nat (m - 1)).
(** [fmt.Sprintf("statements_p%d_%02", year, month)]: the second directive
    has no verb, so that the month is an extra argument. *)
Definition partitionName (year month : Z) : string :=
  "statements_p" +:+ Itoa year +:+ "_%!(NOVERB)%!(EXTRA time.Month=" +:+ month_name month +:+ ")".
(** The year and month as the text has them, in its own zone. *)
Definition local_month (s : string) : option (Z * Z) :=
  y ← parse_digits 0 (substring 0 4 s); m ← parse_digits 0 (substring 5 2 s); Some (y, m).
(** An unquoted name of a table. *)
Definition identifier (s : string) : bool := all_chars is_word s.
Definition EnsureMonthPartition (periodStart : string) (c : catalog) : catalog * option mig_error :=
  match isTablePartitioned live c with
  | Err e => (c, Some e)
  | Ok false => (c, None)
  | Ok true =>
      match ParseRFC3339 periodStart, local_month periodStart with
      | Some _, Some (y, m) =>
          let name := partitionName y m in
          match tableExists name c with
          | Err e => (c, Some e)
          | Ok true => (c, None)
          | Ok false =>
              if ok CreateFailed && identifier name then (<[name := {| partitioned := false; content := ∅ |}]> c, None)
              else (c, Some CreateFailed)
          end
      | _, _ => (c, Some BadPeriod)
      end
  end.

(** No month's partition is ever made: the name is not one. *)
Theorem partition_never_created periodStart c r :
  c !! live = Some r → partitioned r = true → (∀ n x, c !! n = Some x → identifier n = true) →
  ∃ e, EnsureMonthPartition periodStart c = (c, Some e).
Proof.
  intros Hr Hp Hn. unfold EnsureMonthPartition, isTablePartitioned, tableExists. rewrite Hr, Hp. destruct (ok CheckFailed); [|eauto].
  destruct (ParseRFC3339 periodStart); [|eauto]. destruct (local_month periodStart) as [[y m]|]; [|eauto].
  assert (identifier (partitionName y m) = false) as Hi.
  { unfold identifier, partitionName. rewrite !all_chars_app. replace (all_chars is_word "_%!(NOVERB)%!(EXTRA time.Month=") with false by reflexivity.
    by rewrite !andb_false_r. }
  rewrite bool_decide_false; [rewrite Hi, andb_false_r; eauto|]. intros [x Hx]. apply Hn in Hx. congruence.
Qed.
End migration.
End Partition.
