(* ===== verification/GraphQL.v ===== *)
(** * The GraphQL endpoint

    - [Limits] models [internal/graphql/limits.go]: the depth and complexity
      of a parsed document;
    - [Resolvers] models [internal/graphql/resolvers.go] and [context.go];
    - [Endpoint] models [internal/graphql/handler.go].

    The parser, the executor and JSON are parameters. A document is what the
    parser delivers: operations and fragments with their selections. *)
From Stdlib Require Import ZArith Lia Ascii String.
From stdpp Require Import base gmap strings list.
From S2P Require Import Prelude GoStrings GoTime Timeutil Subscriptions Statements.
#[local] Open Scope string_scope.
#[local] Open Scope Z_scope.

(** ** Limits *)
Module Limits.
Inductive selection :=
| Field (name : string) (set : option (list selection))
| Inline (set : list selection)
| Spread (fragment : string).
Inductive definition :=
| Operation (set : list selection)
| Fragment (name : string) (set : list selection).
Notation document := (list definition).

Definition MaxQueryDepth : Z := 5.
Definition MaxQueryComplexity : Z := 50.

(** The visitor's variables. *)
Record counters := { currentDepth : Z; maxDepth : Z; complexity : Z }.
Definition enter_set (c : counters) : counters :=
  let d := currentDepth c + 1 in
  {| currentDepth := d; maxDepth := if maxDepth c <? d then d else maxDepth c; complexity := complexity c |}.
Definition leave_set (c : counters) : counters :=
  {| currentDepth := currentDepth c - 1; maxDepth := maxDepth c; complexity := complexity c |}.
Definition enter_field (c : counters) : counters :=
  {| currentDepth := currentDepth c; maxDepth := maxDepth c; complexity := complexity c + 1 |}.
(** [visitor.Visit]: every node is entered, its children visited in turn, and
    left. *)
Fixpoint visit (s : selection) (c : counters) : counters :=
  match s with
  | Field _ None => enter_field c
  | Field _ (Some l) => leave_set (foldl (λ c s, visit s c) (enter_set (enter_field c)) l)
  | Inline l => leave_set (foldl (λ c s, visit s c) (enter_set c) l)
  | Spread _ => c
  end.
Definition visit_set (l : list selection) (c : counters) : counters := leave_set (foldl (λ c s, visit s c) (enter_set c) l).
Definition set_of (d : definition) : list selection := match d with Operation l => l | Fragment _ l => l end.
Definition measureQuery (doc : document) : Z * Z :=
  let c := foldl (λ c d, visit_set (set_of d) c) {| currentDepth := 0; maxDepth := 0; complexity := 0 |} doc in
  (maxDepth c, complexity c).
Inductive limit_error := TooDeep (depth : Z) | TooComplex (complexity : Z).
Definition ValidateQuery (doc : document) : option limit_error :=
  let '(depth, cx) := measureQuery doc in
  if MaxQueryDepth <? depth then Some (TooDeep depth)
  else if MaxQueryComplexity <? cx then Some (TooComplex cx)
  else None.

(** *** What is measured *)
Fixpoint max_of (l : list Z) : Z := match l with [] => 0 | x :: l => Z.max x (max_of l) end.
Fixpoint sum_of (l : list Z) : Z := match l with [] => 0 | x :: l => x + sum_of l end.
(** The nesting of selection sets, and the number of fields, as written. *)
Fixpoint depth (s : selection) : Z :=
  match s with
  | Field _ None => 0
  | Field _ (Some l) => 1 + max_of (map depth l)
  | Inline l => 1 + max_of (map depth l)
  | Spread _ => 0
  end.
Fixpoint fields (s : selection) : Z :=
  match s with
  | Field _ None => 1
  | Field _ (Some l) => 1 + sum_of (map fields l)
  | Inline l => sum_of (map fields l)
  | Spread _ => 0
  end.

Lemma selection_ind' (P : selection → Prop) :
  (∀ n, P (Field n None)) → (∀ n l, Forall P l → P (Field n (Some l))) → (∀ l, Forall P l → P (Inline l)) → (∀ f, P (Spread f)) → ∀ s, P s.
Proof.
  intros H1 H2 H3 H4. fix IH 1. intros [n [l|]|l|f]; [apply H2|apply H1|apply H3|apply H4].
  - induction l as [|s l IHl]; [constructor|]. constructor; [apply IH|exact IHl].
  - induction l as [|s l IHl]; [constructor|]. constructor; [apply IH|exact IHl].
Qed.
Lemma max_of_nonneg l : 0 ≤ max_of l.
Proof. induction l; cbn; lia. Qed.

Definition counted (c : counters) (d n : Z) : counters :=
  {| currentDepth := currentDepth c; maxDepth := Z.max (maxDepth c) (currentDepth c + d); complexity := complexity c + n |}.
Lemma counted_counted c d1 n1 d2 n2 : counted (counted c d1 n1) d2 n2 = counted c (Z.max d1 d2) (n1 + n2).
Proof. unfold counted. cbn. f_equal; lia. Qed.
Lemma visit_all l c :
  Forall (λ s, ∀ c, currentDepth c ≤ maxDepth c → visit s c = counted c (depth s) (fields s)) l → currentDepth c ≤ maxDepth c →
  foldl (λ c s, visit s c) c l = counted c (max_of (map depth l)) (sum_of (map fields l)).
Proof.
  intros H. revert c. induction H as [|s l Hs _ IH]; intros c Hc; cbn [foldl map].
  - unfold counted. destruct c as [a b k]. cbn in *. f_equal; lia.
  - rewrite Hs by done. rewrite IH by (unfold counted; cbn; lia). rewrite counted_counted. done.
Qed.
Lemma visit_set_counted l c n :
  Forall (λ s, ∀ c, currentDepth c ≤ maxDepth c → visit s c = counted c (depth s) (fields s)) l → currentDepth c ≤ maxDepth c →
  leave_set (foldl (λ c s, visit s c) (enter_set (counted c 0 n)) l) = counted c (1 + max_of (map depth l)) (n + sum_of (map fields l)).
Proof.
  intros Hl Hc. unfold enter_set, counted at 1 2. cbn. rewrite visit_all; [|done|cbn; destruct (_ <? _) eqn:E; lia].
  pose proof (max_of_nonneg (map depth l)). unfold leave_set, counted. cbn. destruct (_ <? _) eqn:E; f_equal; lia.
Qed.
Lemma counted_0 c : currentDepth c ≤ maxDepth c → counted c 0 0 = c.
Proof. intros H. destruct c as [a b k]. unfold counted. cbn in *. f_equal; lia. Qed.
Lemma visit_counted s c : currentDepth c ≤ maxDepth c → visit s c = counted c (depth s) (fields s).
Proof.
  revert c. induction s as [n|n l IH|l IH|f] using selection_ind'; intros c Hc; cbn [visit depth fields].
  - unfold enter_field, counted. f_equal; lia.
  - replace (enter_field c) with (counted c 0 1) by (unfold enter_field, counted; f_equal; lia). by apply visit_set_counted.
  - rewrite <- (counted_0 c) at 1 by done. by apply visit_set_counted.
  - unfold counted. destruct c as [a b k]. cbn in *. f_equal; lia.
Qed.

(** The visitor measures the greatest nesting of any definition of the
    document and the number of fields written in all of them. *)
Theorem measureQuery_exact doc :
  measureQuery doc =
    (max_of (map (λ d, 1 + max_of (map depth (set_of d))) doc), sum_of (map (λ d, sum_of (map fields (set_of d))) doc)).
Proof.
  unfold measureQuery. assert (∀ c, currentDepth c = 0 → 0 ≤ maxDepth c →
    foldl (λ c d, visit_set (set_of d) c) c doc =
      {| currentDepth := 0; maxDepth := Z.max (maxDepth c) (max_of (map (λ d, 1 + max_of (map depth (set_of d))) doc));
         complexity := complexity c + sum_of (map (λ d, sum_of (map fields (set_of d))) doc) |}) as H.
  { induction doc as [|d doc IH]; intros c H0 Hm; cbn [foldl map].
    - destruct c as [a b k]. cbn in *. f_equal; lia.
    - unfold visit_set. rewrite <- (counted_0 c) at 1 by lia. rewrite visit_set_counted; [|apply Forall_forall; intros; by apply visit_counted|lia].
      rewrite IH by (unfold counted; cbn; lia). unfold counted. cbn. rewrite H0. f_equal; lia. }
  rewrite H by done. cbn. f_equal. apply Z.max_r. apply max_of_nonneg.
Qed.

(** *** Executing a document

    [runs fuel doc l]: how deep and how many fields the executor resolves for
    selections [l], each fragment taken where it is spread. *)
Fixpoint fragment_of (doc : document) (name : string) : option (list selection) :=
  match doc with
  | [] => None
  | Fragment n l :: doc => if decide (n = name) then Some l else fragment_of doc name
  | Operation _ :: doc => fragment_of doc name
  end.
Fixpoint runs (fuel : nat) (doc : document) (s : selection) : Z * Z :=
  match fuel with
  | O => (0, 0)
  | S fuel =>
      let all l := let rs := map (runs fuel doc) l in (max_of (map fst rs), sum_of (map snd rs)) in
      match s with
      | Field _ None => (0, 1)
      | Field _ (Some l) => let '(d, n) := all l in (1 + d, 1 + n)
      | Inline l => all l
      | Spread f => match fragment_of doc f with Some l => all l | None => (0, 0) end
      end
  end.

Fixpoint spread_free (s : selection) : bool :=
  match s with
  | Field _ None => true
  | Field _ (Some l) => forallb spread_free l
  | Inline l => forallb spread_free l
  | Spread _ => false
  end.

Lemma runs_bounded fuel doc s : spread_free s = true → (runs fuel doc s).1 ≤ depth s ∧ (runs fuel doc s).2 ≤ fields s ∧ 0 ≤ depth s ∧ 0 ≤ fields s.
Proof.
  revert s. assert (∀ s, 0 ≤ depth s ∧ 0 ≤ fields s) as Hnn.
  { induction s as [n|n l IH|l IH|f] using selection_ind'; cbn; pose proof (max_of_nonneg); try lia;
      (split; [pose proof (max_of_nonneg (map depth l)); lia|]); (enough (0 ≤ sum_of (map fields l)) by lia);
      induction IH; cbn; lia. }
  induction fuel as [|fuel IH]; intros s Hs; [cbn; destruct (Hnn s); lia|].
  assert (∀ l, forallb spread_free l = true → max_of (map (λ s, (runs fuel doc s).1) l) ≤ max_of (map depth l) ∧
    sum_of (map (λ s, (runs fuel doc s).2) l) ≤ sum_of (map fields l)) as Hall.
  { induction l as [|x l IHl]; intros Hl; [cbn; lia|]. cbn in Hl. apply andb_prop in Hl as [Hx Hl]. destruct (IH x Hx) as (? & ? & _ & _).
    destruct (IHl Hl). cbn. lia. }
  destruct (Hnn s) as [? ?]. destruct s as [n [l|]|l|f]; cbn in *; try lia; try done; rewrite !map_map; destruct (Hall l Hs); lia.
Qed.

(** A query without fragments that is accepted makes the executor resolve at
    most fifty fields, nested at most five deep. *)
Theorem limits_hold fuel doc l :
  ValidateQuery doc = None → Operation l ∈ doc → forallb spread_free l = true →
  1 + max_of (map (λ s, (runs fuel doc s).1) l) ≤ MaxQueryDepth ∧ sum_of (map (λ s, (runs fuel doc s).2) l) ≤ MaxQueryComplexity.
Proof.
  unfold ValidateQuery. rewrite measureQuery_exact. destruct (MaxQueryDepth <? _) eqn:E1; [done|]. destruct (MaxQueryComplexity <? _) eqn:E2; [done|].
  intros _ Hin Hl.
  assert (max_of (map (λ s, (runs fuel doc s).1) l) ≤ max_of (map depth l) ∧ sum_of (map (λ s, (runs fuel doc s).2) l) ≤ sum_of (map fields l)) as [Hd Hn].
  { clear -Hl. induction l as [|s l IH]; [cbn; lia|]. cbn in Hl. apply andb_prop in Hl as [Hs Hl]. destruct (runs_bounded fuel doc s Hs) as (? & ? & _ & _).
    destruct (IH Hl). cbn. lia. }
  assert (∀ d, d ∈ doc → 1 + max_of (map depth (set_of d)) ≤ max_of (map (λ d, 1 + max_of (map depth (set_of d))) doc)) as Hm.
  { clear. induction doc as [|x doc IH]; intros d Hd; [by apply elem_of_nil in Hd|]. apply elem_of_cons in Hd as [->|Hd]; cbn; [lia|]. specialize (IH d Hd). lia. }
  assert (∀ s, 0 ≤ fields s) as Hnn.
  { clear. induction s as [n|n l IH|l IH|f] using selection_ind'; cbn; try lia; (enough (0 ≤ sum_of (map fields l)) by lia); induction IH; cbn; lia. }
  assert (∀ l, 0 ≤ sum_of (map fields l)) as Hnl by (clear -Hnn; induction l as [|s l IH]; cbn; [lia|specialize (Hnn s); lia]).
  assert (∀ d, d ∈ doc → sum_of (map fields (set_of d)) ≤ sum_of (map (λ d, sum_of (map fields (set_of d))) doc)) as Hsum.
  { clear -Hnl. assert (∀ ds : list definition, 0 ≤ sum_of (map (λ d, sum_of (map fields (set_of d))) ds)) as Hds.
    { induction ds as [|x ds IH]; cbn; [lia|]. specialize (Hnl (set_of x)). lia. }
    induction doc as [|x doc IH]; intros d Hd; [by apply elem_of_nil in Hd|]. apply elem_of_cons in Hd as [->|Hd]; cbn.
    - specialize (Hds doc). lia.
    - specialize (IH d Hd). specialize (Hnl (set_of x)). lia. }
  specialize (Hm _ Hin). specialize (Hsum _ Hin). cbn in Hm, Hsum. lia.
Qed.
Lemma limits_hold_witness :
  let l := [Field "plans" (Some [Field "id" None; Field "name" None])] in
  (ValidateQuery [Operation l] = None ∧ (runs 3 [Operation l] (Field "plans" (Some [Field "id" None; Field "name" None]))).2 = 3) ∧
  1 + max_of (map (λ s, (runs 3 [Operation l] s).1) l) ≤ MaxQueryDepth ∧ sum_of (map (λ s, (runs 3 [Operation l] s).2) l) ≤ MaxQueryComplexity.
Proof.
  cbn zeta. split; [by split; vm_compute|]. apply limits_hold; [vm_compute; reflexivity|left|reflexivity].
Defined.

(** Fragments escape both limits: a document of one field makes the executor
    resolve a thousand, and one that is nowhere nested deeper than twice
    makes it go ten deep. *)
Definition doubling (n : nat) : document :=
  Operation [Spread "f0"] ::
  map (λ i, Fragment ("f" +:+ Itoa (Z.of_nat i)) (if decide (i = n) then [Field "plans" None] else
    [Spread ("f" +:+ Itoa (Z.of_nat (S i))); Spread ("f" +:+ Itoa (Z.of_nat (S i)))])) (seq 0 (S n)).
Definition chain (n : nat) : document :=
  Operation [Spread "f0"] ::
  map (λ i, Fragment ("f" +:+ Itoa (Z.of_nat i)) [Field "subscription" (if decide (i = n) then None else Some [Spread ("f" +:+ Itoa (Z.of_nat (S i)))])])
    (seq 0 (S n)).
Theorem fragments_escape_limits :
  (ValidateQuery (doubling 10) = None ∧ (measureQuery (doubling 10)).2 = 1 ∧ (runs 20 (doubling 10) (Spread "f0")).2 = 1024) ∧
  (ValidateQuery (chain 10) = None ∧ (measureQuery (chain 10)).1 = 2 ∧ (runs 30 (chain 10) (Spread "f0")).1 = 10).
Proof. split_and!; vm_compute; reflexivity. Qed.
End Limits.

(** ** Resolvers *)
Module Resolvers.
Import Subscriptions.Repository.

(** What a resolver delivers. *)
Inductive gvalue :=
| GNull
| GString (s : string)
| GInt (n : Z)
| GObject (fields : list (string * gvalue))
| GList (items : list gvalue).

(** The caller, put in the context by [WithCallerContext]. *)
Record Caller := { callerID : string; tenantID : string; roles : list string }.

Definition plan_value (id name amount currency interval description : string) : gvalue :=
  GObject [("id", GString id); ("name", GString name); ("amount", GString amount); ("currency", GString currency);
           ("interval", GString interval); ("description", GString description)].
Definition plan_row_value (p : PlanRow) : gvalue :=
  plan_value (plan_ID p) (plan_Name p) (plan_Amount p) (plan_Currency p) (plan_Interval p) (plan_Description p).
Definition nilIfEmpty (s : option string) : gvalue :=
  match s with Some s => if decide (s = "") then GNull else GString s | None => GNull end.
Definition summary_value (cents : Z) (currency : string) (next : option string) : gvalue :=
  GObject [("amount_cents", GInt cents); ("currency", GString currency); ("next_billing_date", nilIfEmpty next)].

Section plans.
Context (List : result repo_error (list PlanRow)).
Definition resolvePlans : result repo_error gvalue :=
  match List with Ok rows => Ok (GList (map plan_row_value rows)) | Err e => Err e end.
End plans.

Section subscription.
Import Subscriptions.Service.
Context {S : Type} `{SubscriptionRepository S} (FindPlan : string → result repo_error PlanRow).
Definition detail_value (d : SubscriptionDetail) : gvalue :=
  GObject ([("id", GString (detail_ID d)); ("plan_id", GString (detail_PlanID d)); ("status", GString (detail_Status d));
            ("interval", GString (detail_Interval d));
            ("billing_summary", summary_value (AmountCents (detail_Billing d)) (bill_Currency (detail_Billing d)) (NextBillingDate (detail_Billing d)))]
    ++ match Plan d with
       | Some p => [("plan", plan_value (pm_PlanID p) (pm_Name p) (pm_Amount p) (pm_Currency p) (pm_Interval p) (pm_Description p))]
       | None => []
       end)%list.
Definition resolveSubscription (s : S) (loader : option Loader) (c : Caller) (id : string) : result service_error gvalue :=
  match GetDetail FindPlan ToUpper ParseRFC3339 FormatRFC3339 s loader (tenantID c) (callerID c) id with
  | Ok (d, _) => Ok (detail_value d)
  | Err e => Err e
  end.

(** The nested fields, resolved by the loader of the request. *)
Definition text_of (k : string) (source : list (string * gvalue)) : string :=
  match find (λ kv, bool_decide (kv.1 = k)) source with Some (_, GString s) => s | _ => "" end.
Definition object_of (k : string) (source : list (string * gvalue)) : option gvalue :=
  match find (λ kv, bool_decide (kv.1 = k)) source with Some (_, GObject o) => Some (GObject o) | _ => None end.
Definition resolvePlanField (loader : option Loader) (c : Caller) (source : list (string * gvalue)) : result repo_error gvalue :=
  let planID := text_of "plan_id" source in
  if decide (planID = "") then Ok GNull
  else match loader with
  | None => Ok (default GNull (object_of "plan" source))
  | Some l => match LoadPlan l (tenantID c) planID with Ok p => Ok (plan_row_value p) | Err e => Err e end
  end.
Definition resolveSubscriptionField (loader : option Loader) (c : Caller) (source : list (string * gvalue)) : result repo_error gvalue :=
  let subID := text_of "subscription_id" source in
  if decide (subID = "") then Ok GNull
  else match loader with
  | None => Ok GNull
  | Some l =>
      match LoadSubscription l (tenantID c) subID with
      | Err e => Err e
      | Ok sub =>
          let amountCents := default 0 (ParseInt (Amount sub)) in
          let next := if decide (NextBilling sub = "") then None
                      else NormalizeRFC3339StringToUTC ParseRFC3339 FormatRFC3339 (NextBilling sub) in
          Ok (GObject [("id", GString (ID sub)); ("plan_id", GString (PlanID sub)); ("status", GString (Status sub));
                       ("interval", GString (Interval sub)); ("billing_summary", summary_value amountCents (ToUpper (Currency sub)) next)])
      end
  end.

(** A subscription asked for by itself is shown only to its customer, within
    the tenant, and only while it is not deleted. *)
Theorem subscription_owned (Hlaws : SubscriptionRepositoryLaws S) s c id v :
  resolveSubscription s None c id = Ok v →
  ∃ row, FindByIDAndTenant s id (tenantID c) = Ok row ∧ TenantID row = tenantID c ∧ CustomerID row = callerID c ∧ DeletedAt row = None.
Proof.
  unfold resolveSubscription. destruct (GetDetail _ _ _ _ _ _ _ _ _) as [[d ws]|] eqn:E; [|done]. intros _.
  unfold GetDetail, fetch_row in E. destruct (FindByIDAndTenant s id (tenantID c)) as [row|] eqn:Er; [|done]. cbn in E.
  case_decide as Hd; [done|]. case_decide as Hc; [done|]. exists row. split_and!; [done|by eapply find_scoped| |].
  - done.
  - destruct (DeletedAt row); [|done]. exfalso. apply Hd. eauto.
Qed.

(** The same subscription, reached through a statement, is shown to anyone
    whose tenant has it, deleted or not, and with an amount of zero when its
    own does not parse. *)
Theorem nested_subscription_unchecked l c subID row :
  subID ≠ "" → LoadSubscription l (tenantID c) subID = Ok row →
  ∃ fs, resolveSubscriptionField (Some l) c [("subscription_id", GString subID)] = Ok (GObject fs) ∧ ("id", GString (ID row)) ∈ fs ∧
    (ParseInt (Amount row) = None → ∃ next, ("billing_summary", summary_value 0 (ToUpper (Currency row)) next) ∈ fs).
Proof.
  intros Hne Hl. unfold resolveSubscriptionField, text_of. cbn [find fst bool_decide]. rewrite bool_decide_true by done. cbn. rewrite decide_False by done. rewrite Hl.
  eexists. split; [done|]. split; [left|]. intros ->. eexists. do 4 right. left.
Qed.
End subscription.

Section statements.
Import Statements.Repo Statements.Service.
Context {St : Type} `{StatementRepository St}.
Definition statement_value (s : StatementDetail) : gvalue :=
  GObject [("id", GString (Service.ID s)); ("subscription_id", GString (Service.SubscriptionID s)); ("period_start", GString (d_PeriodStart s));
           ("period_end", GString (d_PeriodEnd s)); ("issued_at", GString (d_IssuedAt s)); ("total_amount", GString (d_TotalAmount s));
           ("currency", GString (d_Currency s)); ("kind", GString (d_Kind s)); ("status", GString (d_Status s))].
Definition hundred : StatementQuery :=
  {| q_SubscriptionID := ""; q_Kind := ""; q_Status := ""; StartAfter := ""; EndBefore := ""; Limit := 100; Order := ""; Filter := None |}.
Definition resolveStatements (s : St) (c : Caller) (customerID : string) : result service_error gvalue :=
  match ListByCustomer s (callerID c) (roles c) customerID hundred with
  | Ok (l, _) => Ok (GList (map statement_value l))
  | Err e => Err e
  end.

(** The tenant makes no difference to the statements that are listed; a
    merchant of any tenant gets those of any customer. *)
Theorem statements_not_scoped s c other customerID :
  resolveStatements s c customerID = resolveStatements s {| callerID := callerID c; tenantID := other; roles := roles c |} customerID ∧
  (is_role "merchant" (roles c) = true → ∀ rows n, ListByCustomerID s customerID hundred = Ok (rows, n) →
    resolveStatements s c customerID = Ok (GList (map statement_value (map detail_of rows)))).
Proof.
  split; [done|]. intros Hm rows n Hl. unfold resolveStatements. by rewrite (merchant_lists_any_customer s (callerID c) (roles c) customerID hundred rows n Hm Hl).
Qed.
End statements.
End Resolvers.

(** ** The endpoint *)
Module Endpoint.
Import Limits Resolvers.
Record graphqlRequest (V : Type) := { Query : string; OperationName : string; Variables : V }.
Arguments Query {_} _.
Arguments OperationName {_} _.
Arguments Variables {_} _.
(** What the context of the request holds under a name. *)
Inductive ctx_value := CString (s : string) | CStrings (l : list string) | COther.
Definition as_string (v : option ctx_value) : string := match v with Some (CString s) => s | _ => "" end.
Definition as_strings (v : option ctx_value) : list string := match v with Some (CStrings l) => l | _ => [] end.

Section serve.
Context {V R : Type} (decode : string → option (graphqlRequest V)) (parse : string → result string document)
        (execute : Caller → graphqlRequest V → R) (errors : R → nat).
Inductive gql_answer := BadRequest (msg : string) | OverLimit (e : limit_error) | Executed (status : Z) (r : R).
Definition ServeHTTP (ctx : gmap string ctx_value) (body : string) : gql_answer :=
  let c := {| callerID := as_string (ctx !! "callerID"); tenantID := as_string (ctx !! "tenantID"); roles := as_strings (ctx !! "roles") |} in
  match decode body with
  | None => BadRequest "invalid JSON body"
  | Some req =>
      if decide (Query req = "") then BadRequest "query is required"
      else match parse (Query req) with
      | Err e => BadRequest e
      | Ok doc =>
          match ValidateQuery doc with
          | Some e => OverLimit e
          | None => let r := execute c req in Executed (if (0 <? errors r)%nat then 422 else 200) r
          end
      end
  end.

(** A query is executed only when it parses and is within the limits, for the
    caller the context names; a request without one is executed as nobody's,
    with empty names. *)
Theorem executed_within_limits ctx body status r :
  ServeHTTP ctx body = Executed status r ↔
  ∃ req doc, decode body = Some req ∧ Query req ≠ "" ∧ parse (Query req) = Ok doc ∧ ValidateQuery doc = None ∧
    r = execute {| callerID := as_string (ctx !! "callerID"); tenantID := as_string (ctx !! "tenantID"); roles := as_strings (ctx !! "roles") |} req ∧
    status = (if (0 <? errors r)%nat then 422 else 200).
Proof.
  unfold ServeHTTP. cbn zeta. destruct (decode body) as [req|]; [|split; [done|by intros (? & ? & ? & _)]].
  case_decide as Hq; [split; [done|intros (? & ? & [= <-] & ? & _); done]|].
  destruct (parse (Query req)) as [doc|e] eqn:Ep; [|split; [done|intros (? & ? & [= <-] & _ & ? & _); congruence]].
  destruct (ValidateQuery doc) eqn:Ev.
  - split; [done|]. intros (? & ? & [= <-] & _ & E & E2 & _). rewrite Ep in E. simplify_eq.
  - split; [intros [= <- <-]; exists req, doc; split_and!; done|]. intros (? & ? & [= <-] & _ & E & _ & -> & ->). done.
Qed.
End serve.
End Endpoint.
