(* ===== verification/Health.v ===== *)
(** * Health probes and startup checks

    - [Probes] models [internal/handlers/health.go]: the retried ping, the
      queue check, the collection of both within the time limit and the three
      endpoints;
    - [Startup] models [internal/startup/checks.go] and [handler.go]: the
      checks, their summary and the cached diagnostics endpoint.

    The database, the queue and the clock are what they answered: a ping is an
    error or none with its duration, and the order in which the two checks and
    the deadline reach the collecting loop is a list. *)
From Stdlib Require Import ZArith Lia Ascii String.
From stdpp Require Import base gmap strings list.
From S2P Require Import Prelude GoStrings AppConfig.
#[local] Open Scope string_scope.
#[local] Open Scope Z_scope.

(** ** Probes *)
Module Probes.
Definition StatusHealthy : string := "healthy".
Definition StatusDegraded : string := "degraded".
Definition StatusUnhealthy : string := "unhealthy".
Definition MaxRetries : nat := 2.
Definition InitialBackoff : Duration := 100 * Time.Millisecond.
Definition MaxDatabaseTimeout : Duration := 3 * Time.Second.
Definition readiness_timeout : Duration := 10 * Time.Second.

(** The details of the queue are left out; the maps that stand for unanswered
    checks have the same status and message. *)
Record DependencyHealth := { Status : string; Message : string; Latency : option Duration }.
Definition dependency (s m : string) (l : option Duration) : DependencyHealth := {| Status := s; Message := m; Latency := l |}.

(** The errors the check tells apart: the two it compares with, the breaker's
    (possibly wrapped), and any other with its text. *)
Inductive ping_error := DeadlineExceeded | ErrConnDone | OpenState (text : string) | OtherError (text : string).
Definition ping_text (e : ping_error) : string :=
  match e with
  | DeadlineExceeded => "context deadline exceeded"
  | ErrConnDone => "sql: connection is already closed"
  | OpenState t | OtherError t => t
  end.
Definition failure_of (e : ping_error) (latency : Duration) : DependencyHealth :=
  match e with
  | DeadlineExceeded => dependency StatusDegraded "database connection timeout - may be overloaded or network issue" (Some latency)
  | ErrConnDone => dependency StatusUnhealthy "database connection closed unexpectedly" (Some latency)
  | OpenState _ => dependency StatusUnhealthy "database circuit breaker open - failing fast while DB recovers" (Some latency)
  | OtherError t =>
      if Contains t "circuit breaker open"
      then dependency StatusUnhealthy "database circuit breaker open - failing fast while DB recovers" (Some latency)
      else dependency StatusDegraded ("database unreachable: " +:+ t) (Some latency)
  end.

(** What an attempt's ping answered, how long it took, and the error of the
    parent context when it ended during the pause after the attempt. *)
Record attempt := { ping : option ping_error; took : Duration; cancelled : option string }.
Definition backoff (i : nat) : Duration := 2 ^ Z.of_nat i * InitialBackoff.

(** The loop from attempt [i] on; [n] attempts remain. The time is what
    the pings and the pauses add up to. *)
Fixpoint retry (tries : nat → attempt) (i n : nat) : DependencyHealth * Duration :=
  match n with
  | O => (dependency StatusDegraded "" None, 0)
  | S n =>
      let a := tries i in
      match ping a with
      | None => (dependency StatusHealthy "" (Some (took a)), took a)
      | Some e =>
          match n with
          | O => (failure_of e (took a), took a)
          | S _ =>
              match cancelled a with
              | Some m => (dependency StatusDegraded m (Some (took a)), took a)
              | None => let '(d, t) := retry tries (S i) n in (d, took a + backoff i + t)
              end
          end
      end
  end.
Definition checkDatabase (db : option (nat → attempt)) (database_url : string) : DependencyHealth * Duration :=
  match db with
  | None => (dependency "not_configured" "database client not initialized" None, 0)
  | Some tries =>
      if decide (database_url = "") then (dependency "not_configured" "DATABASE_URL not set" None, 0)
      else retry tries 0 MaxRetries
  end.

(** The queue: the error of its [Health], the time that took, and whether the
    three seconds were over by then. *)
Record queue := { health : option string; q_took : Duration; late : bool }.
Definition checkOutbox (outbox : option queue) : DependencyHealth :=
  match outbox with
  | None => dependency "not_configured" "outbox manager not initialized" None
  | Some q =>
      match health q with
      | None => dependency StatusHealthy "" (Some (q_took q))
      | Some m => if late q then dependency StatusDegraded "outbox health check timeout" (Some (q_took q))
                  else dependency StatusDegraded ("outbox unhealthy: " +:+ m) (Some (q_took q))
      end
  end.

(** What the collecting loop receives, in this order. *)
Inductive event := Result (key : string) (d : DependencyHealth) | Done.
Definition timed_out (key : string) : DependencyHealth := dependency "timeout" (key +:+ " check exceeded timeout") None.
Definition or_timeout (key : string) (deps : gmap string DependencyHealth) : gmap string DependencyHealth :=
  match deps !! key with Some _ => deps | None => <[key := timed_out key]> deps end.
Fixpoint collect (evs : list event) (remaining : nat) (deps : gmap string DependencyHealth) : option (gmap string DependencyHealth) :=
  match remaining with
  | O => Some deps
  | S n =>
      match evs with
      | [] => None
      | Result k d :: evs => collect evs n (<[k := d]> deps)
      | Done :: _ => Some (or_timeout "outbox" (or_timeout "database" deps))
      end
  end.
Definition checkAllDependencies (evs : list event) : option (gmap string DependencyHealth) := collect evs 2 ∅.

Definition deriveOverallStatus (deps : gmap string DependencyHealth) : string :=
  let ss := (λ kv, Status kv.2) <$> map_to_list deps in
  if existsb (λ s, bool_decide (s = StatusUnhealthy)) ss then StatusUnhealthy
  else if existsb (λ s, bool_decide (s = StatusDegraded)) ss then StatusDegraded
  else StatusHealthy.

Definition LivenessProbe : Z * string := (200, StatusHealthy).
Definition ReadinessProbe (deps : gmap string DependencyHealth) : Z * string :=
  let overall := deriveOverallStatus deps in
  (if decide (overall = StatusDegraded ∨ overall = StatusUnhealthy) then 503 else 200, overall).
Definition HealthDetails (deps : gmap string DependencyHealth) : Z * string := (200, deriveOverallStatus deps).

(** The order of a map does not matter to the summary: it is the worst of the
    statuses it knows. *)
Lemma overall_spec deps :
  (deriveOverallStatus deps = StatusUnhealthy ↔ ∃ k d, deps !! k = Some d ∧ Status d = StatusUnhealthy) ∧
  (deriveOverallStatus deps = StatusHealthy ↔
    ∀ k d, deps !! k = Some d → Status d ≠ StatusUnhealthy ∧ Status d ≠ StatusDegraded).
Proof.
  assert (∀ s, existsb (λ x, bool_decide (x = s)) ((λ kv, Status kv.2) <$> map_to_list deps) = true ↔ ∃ k d, deps !! k = Some d ∧ Status d = s) as H.
  { intros s. rewrite existsb_exists. split.
    - intros (x & Hx & Hs%bool_decide_eq_true_1). apply list_elem_of_In, list_elem_of_fmap in Hx as ((k & d) & -> & Hin%elem_of_map_to_list). eauto.
    - intros (k & d & Hk & Hs). exists s. split; [|by apply bool_decide_eq_true_2]. apply list_elem_of_In, list_elem_of_fmap.
      exists (k, d). split; [done|]. by apply elem_of_map_to_list. }
  unfold deriveOverallStatus. pose proof (H StatusUnhealthy) as Hu. pose proof (H StatusDegraded) as Hd.
  destruct (existsb _ _) eqn:Eu.
  - split; [split; [intros _; by apply Hu|done]|]. split; [done|]. intros Hall. destruct (proj1 Hu eq_refl) as (k & d & Hk & Hs).
    by destruct (Hall k d Hk).
  - split.
    + split; [|by intros Hx%Hu]. destruct (existsb (λ s, bool_decide (s = StatusDegraded)) _); done.
    + destruct (existsb (λ s, bool_decide (s = StatusDegraded)) _) eqn:Ed.
      * split; [done|]. intros Hall. destruct (proj1 Hd eq_refl) as (k & d & Hk & Hs). by destruct (Hall k d Hk).
      * split; [|done]. intros _ k d Hk. split; intros Hs; [enough (false = true) by done; apply Hu|enough (false = true) by done; apply Hd]; eauto.
Qed.

(** The service is ready exactly when no dependency reports that it is
    degraded or unhealthy. *)
Theorem ready_iff deps :
  (ReadinessProbe deps).1 = 200 ↔ ∀ k d, deps !! k = Some d → Status d ≠ StatusUnhealthy ∧ Status d ≠ StatusDegraded.
Proof.
  unfold ReadinessProbe. cbn [fst]. rewrite <- (proj2 (overall_spec deps)). unfold deriveOverallStatus.
  repeat case_match; case_decide as E; split; try done; first [by destruct E|exfalso; apply E; auto].
Qed.

(** The pings decide what is reported of the database: it is healthy exactly
    when one of the attempts that are made succeeds, and otherwise it is
    degraded or unhealthy; the check never waits for more than two pings and
    one pause. *)
Theorem database_reported tries url :
  url ≠ "" → (∀ i, 0 ≤ took (tries i) ≤ MaxDatabaseTimeout) →
  let '(d, t) := checkDatabase (Some tries) url in
  (Status d = StatusHealthy ↔ ping (tries 0%nat) = None ∨ cancelled (tries 0%nat) = None ∧ ping (tries 1%nat) = None) ∧
  (Status d = StatusHealthy ∨ Status d = StatusDegraded ∨ Status d = StatusUnhealthy) ∧
  t ≤ 2 * MaxDatabaseTimeout + InitialBackoff ∧ t < readiness_timeout.
Proof.
  intros Hu Ht. unfold checkDatabase, MaxRetries. rewrite decide_False by done. pose proof (Ht 0%nat) as H0. pose proof (Ht 1%nat) as H1.
  assert (∀ e l, Status (failure_of e l) = StatusDegraded ∨ Status (failure_of e l) = StatusUnhealthy) as Hf.
  { intros [| |x|x] l; cbn; [auto|auto|auto|]. destruct (Contains _ _); auto. }
  unfold MaxDatabaseTimeout, InitialBackoff, readiness_timeout, Time.Second, Time.Millisecond in *.
  cbn [retry]. destruct (ping (tries 0%nat)) as [e0|] eqn:E0; cbn.
  - destruct (cancelled (tries 0%nat)) as [m|] eqn:Ec; cbn.
    + split_and!; [split; [done|by intros [?|[? ?]]]|auto|lia|lia].
    + destruct (ping (tries 1%nat)) as [e1|] eqn:E1; cbn; unfold backoff, InitialBackoff, Time.Millisecond; cbn.
      * specialize (Hf e1 (took (tries 1%nat))). split_and!; [|tauto|lia|lia].
        split; [destruct Hf as [-> | ->]; done|by intros [?|[? ?]]].
      * split_and!; [split; auto|auto|lia|lia].
  - split_and!; [split; auto|auto|lia|lia].
Qed.

(** When both checks answer in time, in either order, the service is ready
    exactly when both dependencies are up or not configured. *)
Theorem readiness_of_checks tries url q evs :
  url ≠ "" → (∀ i, 0 ≤ took (tries i) ≤ MaxDatabaseTimeout) →
  let d := (checkDatabase (Some tries) url).1 in let o := checkOutbox q in
  evs = [Result "database" d; Result "outbox" o] ∨ evs = [Result "outbox" o; Result "database" d] →
  ∃ deps, checkAllDependencies evs = Some deps ∧
    ((ReadinessProbe deps).1 = 200 ↔
      (ping (tries 0%nat) = None ∨ cancelled (tries 0%nat) = None ∧ ping (tries 1%nat) = None) ∧ (∀ x, q = Some x → health x = None)).
Proof.
  intros Hu Ht. pose proof (database_reported tries url Hu Ht) as H. destruct (checkDatabase (Some tries) url) as [d t]. destruct H as (Hd & Hs & _).
  cbn zeta. cbn [fst]. intros He. eexists. split; [unfold checkAllDependencies; destruct He as [-> | ->]; cbn; reflexivity|].
  assert ((<["outbox":=checkOutbox q]> (<["database":=d]> ∅) : gmap string DependencyHealth) = <["database":=d]> (<["outbox":=checkOutbox q]> ∅)) as Hc
    by (by rewrite insert_insert_ne).
  assert ((Status (checkOutbox q) ≠ StatusUnhealthy ∧ Status (checkOutbox q) ≠ StatusDegraded) ↔ ∀ x, q = Some x → health x = None) as Hq.
  { destruct q as [q|]; cbn; [|split; [by intros|done]]. destruct (health q) eqn:Eh; [|split; [intros _ x [= <-]; done|done]].
    destruct (late q); cbn; (split; [by intros [? ?]|intros Hx; specialize (Hx q eq_refl); congruence]). }
  rewrite ready_iff, <- Hd, <- Hq. destruct He as [-> | ->]; cbn; rewrite ?Hc; (split;
    [intros Hall; destruct (Hall "database" d) as [? ?]; [by rewrite lookup_insert_eq|]; split; [tauto|];
       apply (Hall "outbox"); by rewrite lookup_insert_ne, lookup_insert_eq
    |intros [Hh Ho] k x; rewrite lookup_insert_Some, lookup_insert_Some, lookup_empty; intros [[<- <-]|[_ [[<- <-]|[_ ?]]]]; [|done|done];
       rewrite Hh; done]).
Qed.
Definition up (e : option ping_error) : attempt := {| ping := e; took := 5 * Time.Millisecond; cancelled := None |}.
Definition second_try (i : nat) : attempt := if decide (i = 0%nat) then up (Some DeadlineExceeded) else up None.
Definition backlog : option queue := Some {| health := Some "backlog"; q_took := Time.Millisecond; late := false |}.
Lemma readiness_of_checks_witness :
  Status (checkDatabase (Some second_try) "postgres://db").1 = StatusHealthy ∧
  ∃ deps, checkAllDependencies [Result "outbox" (checkOutbox backlog); Result "database" (checkDatabase (Some second_try) "postgres://db").1] = Some deps ∧
    ((ReadinessProbe deps).1 = 200 ↔
      (ping (second_try 0%nat) = None ∨ cancelled (second_try 0%nat) = None ∧ ping (second_try 1%nat) = None) ∧
      (∀ x, backlog = Some x → health x = None)).
Proof.
  split; [vm_compute; reflexivity|]. apply (readiness_of_checks second_try "postgres://db" backlog); [done| |by right].
  intros i. unfold second_try. case_decide; vm_compute; split; congruence.
Defined.

(** A check that does not answer within the ten seconds is recorded under a
    status the summary does not know: the service is then ready. The check of
    the queue can come to that, since its timeout is not passed on. *)
Theorem unanswered_checks_ready d rest :
  Status d = StatusHealthy →
  (∃ deps, checkAllDependencies (Done :: rest) = Some deps ∧ ReadinessProbe deps = (200, StatusHealthy)) ∧
  (∃ deps, checkAllDependencies (Result "database" d :: Done :: rest) = Some deps ∧
     (Status <$> deps !! "outbox") = Some "timeout" ∧ ReadinessProbe deps = (200, StatusHealthy)).
Proof.
  intros Hd. split; eexists; (split; [reflexivity|]).
  - vm_compute. reflexivity.
  - unfold or_timeout. rewrite lookup_insert_eq, lookup_insert_ne by done. rewrite lookup_empty. cbn. rewrite lookup_insert_eq. split; [done|].
    unfold ReadinessProbe. enough (deriveOverallStatus (<["outbox":=timed_out "outbox"]> (<["database":=d]> ∅)) = StatusHealthy) as -> by done.
    apply overall_spec. intros k x. rewrite lookup_insert_Some, lookup_insert_Some, lookup_empty. intros [[<- <-]|[_ [[<- <-]|[_ ?]]]]; [done| |done].
    rewrite Hd. done.
Qed.
End Probes.

(** ** Startup checks and diagnostics *)
Module Startup.
Import AppConfig.Load.
Inductive Status := StatusPass | StatusFail | StatusWarn.
#[export] Instance status_eq_dec : EqDecision Status.
Proof. solve_decision. Defined.
Record CheckResult := { Name : string; CheckStatus : Status; Message : string; DurationMs : Z }.
Definition result_of (n : string) (s : Status) (m : string) (d : Z) : CheckResult :=
  {| Name := n; CheckStatus := s; Message := m; DurationMs := d |}.

(** [err] is the joined text of the errors of a configuration. *)
Definition checkConfig (err : ValidationResult → string) (v : ValidationResult) (ms : Z) : CheckResult :=
  if negb (Valid v) then result_of "config" StatusFail ("validation failed: " +:+ err v) ms
  else if (0 <? length (Warnings v))%nat then
    result_of "config" StatusWarn ("loaded with " +:+ Itoa (Z.of_nat (length (Warnings v))) +:+ " warning(s)") ms
  else result_of "config" StatusPass "loaded and validated" ms.

(** A ping: its error and whether the five seconds were over. *)
Definition checkDB (db : option (option string * bool)) (ms : Z) : CheckResult :=
  match db with
  | None => result_of "database" StatusFail "no database connection provided" ms
  | Some (Some e, late) =>
      result_of "database" StatusFail ((if late then "connection timed out (5s)" else "connection failed") +:+ ": " +:+ e) ms
  | Some (None, _) => result_of "database" StatusPass "connected (ping OK)" ms
  end.

Definition checkMigrations (answer : string + Z * Z) (ms : Z) : CheckResult :=
  match answer with
  | inl e => result_of "migrations" StatusWarn ("could not check: " +:+ e) ms
  | inr (applied, local) =>
      let pending := Z.max 0 (local - applied) in
      if 0 <? pending then result_of "migrations" StatusWarn (Itoa applied +:+ " applied, " +:+ Itoa pending +:+ " pending") ms
      else result_of "migrations" StatusPass (Itoa applied +:+ " applied, 0 pending") ms
  end.

Definition is_fail (r : CheckResult) : bool := match CheckStatus r with StatusFail => true | _ => false end.
Definition is_warn (r : CheckResult) : bool := match CheckStatus r with StatusWarn => true | _ => false end.
Definition HasFailures (l : list CheckResult) : bool := existsb is_fail l.
Fixpoint overall (l : list CheckResult) (hasWarn : bool) : string :=
  match l with
  | [] => if hasWarn then "degraded" else "ready"
  | r :: l =>
      match CheckStatus r with
      | StatusFail => "unavailable"
      | StatusWarn => overall l true
      | StatusPass => overall l hasWarn
      end
  end.
Definition OverallStatus (l : list CheckResult) : string := overall l false.

(** What the world answers at a time: the validation of the configuration,
    the ping and the migrations, if they are checked. *)
Record world := {
  validation : ValidationResult;
  db : option (option string * bool);
  migrations : option (string + Z * Z);
  millis : Z;
}.
Section diagnostics.
Context (err : ValidationResult → string).
Definition RunChecks (w : world) : list CheckResult :=
  ([checkConfig err (validation w) (millis w); checkDB (db w) (millis w)]
   ++ match migrations w with Some m => [checkMigrations m (millis w)] | None => [] end)%list.

Definition cacheTTL : Duration := 5 * Time.Second.
Record DiagnosticsHandler := { cachedResults : option (list CheckResult); cachedAt : Time }.
(** The results at [now], and the moment [after] at which new ones are kept. *)
Definition getResults (now after : Time) (w : world) (h : DiagnosticsHandler) : DiagnosticsHandler * list CheckResult :=
  match cachedResults h with
  | Some rs => if now - cachedAt h <? cacheTTL then (h, rs) else
      let rs := RunChecks w in ({| cachedResults := Some rs; cachedAt := after |}, rs)
  | None => let rs := RunChecks w in ({| cachedResults := Some rs; cachedAt := after |}, rs)
  end.
Definition Handle (now after : Time) (w : world) (h : DiagnosticsHandler) : DiagnosticsHandler * (Z * string * list CheckResult) :=
  let '(h', rs) := getResults now after w h in
  let s := OverallStatus rs in
  (h', (if decide (s ≠ "ready") then 503 else 200, s, rs)).

Lemma overallStatus_spec l hasWarn :
  overall l hasWarn = (if HasFailures l then "unavailable"
                       else if hasWarn || existsb is_warn l then "degraded" else "ready").
Proof.
  revert hasWarn. induction l as [|r l IH]; intros hasWarn; cbn; [by destruct hasWarn|].
  fold (HasFailures l). unfold is_fail, is_warn at 1. destruct (CheckStatus r) eqn:E; cbn; rewrite ?IH; by destruct (HasFailures l), hasWarn.
Qed.

(** The endpoint answers 200 exactly when the configuration has neither errors
    nor warnings, the database answers and no migration is pending or unknown,
    as far as the checks that were run last say. *)
Theorem ready_exact w :
  OverallStatus (RunChecks w) = "ready" ↔
  Errors (validation w) = [] ∧ Warnings (validation w) = [] ∧ (∃ late, db w = Some (None, late)) ∧
  match migrations w with Some (inl _) => False | Some (inr (applied, local)) => local ≤ applied | None => True end.
Proof.
  unfold OverallStatus. rewrite overallStatus_spec. unfold RunChecks, checkConfig, checkDB, Valid.
  destruct (Errors (validation w)) as [|x xs]; cbn; [|split; [done|by intros [? _]]].
  destruct (Warnings (validation w)) as [|y ys]; cbn.
  - destruct (db w) as [[[e|] late]|]; cbn; [split; [by destruct late|by intros (_ & _ & (? & ?) & _)]| |split; [done|by intros (_ & _ & (? & ?) & _)]].
    destruct (migrations w) as [[e|[a lo]]|]; cbn; [by split; [|intros (_ & _ & _ & ?)]| |split; [eauto|done]].
    destruct (0 <? Z.max 0 (lo - a)) eqn:E; cbn; [apply Z.ltb_lt in E|apply Z.ltb_ge in E]; (split; [intros Hx|intros (_ & _ & _ & Hl)]; try done; try lia).
    split_and!; eauto. lia.
  - split; [|by intros (_ & ? & _)]. destruct (db w) as [[[e|] late]|]; cbn; [by destruct late| |done].
    destruct (migrations w) as [[e|[a lo]]|]; cbn; [done| |done]. by destruct (0 <? _).
Qed.

(** Requests, each with its times and what the world would answer then. *)
Notation request := (Time * Time * world)%type.
Fixpoint serve (l : list request) (h : DiagnosticsHandler) : DiagnosticsHandler * list (Z * string * list CheckResult) :=
  match l with
  | [] => (h, [])
  | (now, after, w) :: l => let '(h, a) := Handle now after w h in let '(h, rest) := serve l h in (h, a :: rest)
  end.
Definition ordered (l : list request) : Prop := ∀ i now after w, l !! i = Some (now, after, w) → now ≤ after.
Definition recent (now : Time) (l : list request) (rs : list CheckResult) : Prop :=
  ∃ n a w, (n, a, w) ∈ l ∧ rs = RunChecks w ∧ now - a < cacheTTL.
Lemma serve_recent l h past answers h' :
  ordered l → (∀ rs, cachedResults h = Some rs → ∃ n w, (n, cachedAt h, w) ∈ past ∧ rs = RunChecks w) →
  serve l h = (h', answers) →
  ∀ i now after w code s rs, l !! i = Some (now, after, w) → answers !! i = Some (code, s, rs) →
    s = OverallStatus rs ∧ (code = 200 ↔ s = "ready") ∧ recent now (past ++ l) rs.
Proof.
  revert h past answers h'. induction l as [|[[n a] x] l IH]; intros h past answers h' Ho Hc; cbn; [by intros _ []|].
  unfold Handle. destruct (getResults n a x h) as [h1 rs1] eqn:Eg. destruct (serve l h1) as [h2 rest] eqn:Es. intros [= <- <-].
  assert (recent n (past ++ (n, a, x) :: l) rs1 ∧ (∀ rs, cachedResults h1 = Some rs → ∃ n' w, (n', cachedAt h1, w) ∈ (past ++ [(n, a, x)])%list ∧ rs = RunChecks w)) as [Hr Hc1].
  { assert (recent n (past ++ (n, a, x) :: l) (RunChecks x)) as Hnew.
    { exists n, a, x. split; [apply elem_of_app; right; left|]. split; [done|]. specialize (Ho 0%nat n a x eq_refl). unfold cacheTTL, Time.Second, Time.Millisecond. lia. }
    unfold getResults in Eg. destruct (cachedResults h) as [rs0|] eqn:Ec.
    - destruct (n - cachedAt h <? cacheTTL) eqn:Et; simplify_eq/=.
      + apply Z.ltb_lt in Et. destruct (Hc rs1 eq_refl) as (n' & w' & Hin & ->). split; [exists n', (cachedAt h1), w'; split; [apply elem_of_app; by left|done]|].
        rewrite Ec. intros ? [= <-]. exists n', w'. split; [apply elem_of_app; by left|done].
      + split; [done|]. intros ? [= <-]. exists n, x. split; [apply elem_of_app; right; left|done].
    - simplify_eq/=. split; [done|]. intros ? [= <-]. exists n, x. split; [apply elem_of_app; right; left|done]. }
  intros [|i] now after w code s rs; cbn.
  - intros [= <- <- <-] [= <- <- <-]. split; [done|]. split; [|done]. case_decide as E; [split; [done|intros Hx; by destruct E]|]. split; [|done]. done.
  - intros Hl Ha. rewrite (app_assoc past [(n, a, x)] l : (past ++ (n, a, x) :: l)%list = ((past ++ [(n, a, x)]) ++ l)%list). eapply (IH h1); [|exact Hc1|exact Es|exact Hl|exact Ha].
    intros j n1 a1 w1 Hj. exact (Ho (S j) n1 a1 w1 Hj).
Qed.

(** Whatever the requests, an answer reports a run of the checks no older than
    five seconds, and 200 stands for ready. *)
Theorem diagnostics_recent l answers h' i now after w code s rs :
  ordered l → serve l {| cachedResults := None; cachedAt := Time.zero |} = (h', answers) →
  l !! i = Some (now, after, w) → answers !! i = Some (code, s, rs) →
  s = OverallStatus rs ∧ (code = 200 ↔ s = "ready") ∧ recent now l rs.
Proof.
  intros Ho Hs Hl Ha. eapply (serve_recent l {| cachedResults := None; cachedAt := Time.zero |} [] answers h'); [done|done|exact Hs|exact Hl|exact Ha].
Qed.
End diagnostics.
End Startup.
