(* ===== verification/DbPool.v ===== *)
(** * Connection pools and hedged reads

    Models [internal/db/pool.go].

    - [Hedge] is [HedgedQuery] as a step relation: the two attempts, the timer
      that starts the second, the channel of their results and the loop that
      reads it, with the steps between which the goroutines can interleave;
    - [Config] is the translation of the validated configuration into that of
      the pool, with the conversions at their widths, and the construction of
      the primary and the replica pool. *)
From Stdlib Require Import ZArith Lia Ascii String.
From stdpp Require Import base gmap strings list relations.
From S2P Require Import Prelude GoStrings AppConfig.
#[local] Open Scope string_scope.
#[local] Open Scope Z_scope.

(** ** Hedged reads *)
Module Hedge.
Section hedge.
Context {E : Type}.

(** An attempt, as its goroutine: not started, running the function, or done
    with its result sent. *)
Inductive task := NotStarted | Running | Ended.
Record attemptResult := { attempt : Z; err : option E }.
(** The loop: waiting, past a success but before it closes [done], returned. *)
Inductive phase := Selecting | Winning (a : Z) | Returned (a : Z) (e : option E).
Record hedge := {
  parent : option E;        (** the error of the context, once it is done *)
  done_closed : bool;
  timer : bool;             (** the goroutine that waits to start the second *)
  first : task;
  second : task;
  cancelled1 : bool;        (** the context of the first attempt *)
  cancelled2 : bool;
  results : list attemptResult;   (** the channel, of capacity two *)
  received : list attemptResult;
  main : phase;
}.
Definition capacity : nat := 2.

(** The call: the first attempt is started, the second at once or by the
    timer. *)
Definition start (delay : Duration) : hedge :=
  {| parent := None; done_closed := false; timer := 0 <? delay; first := Running;
     second := if 0 <? delay then NotStarted else Running; cancelled1 := false; cancelled2 := false;
     results := []; received := []; main := Selecting |}.

Definition started (t : task) : bool := match t with NotStarted => false | _ => true end.
Definition startSecond (t : task) : task := match t with NotStarted => Running | t => t end.
Definition upd_main (m : phase) (d c1 c2 : bool) (rs rc : list attemptResult) (h : hedge) : hedge :=
  {| parent := parent h; done_closed := d; timer := timer h; first := first h; second := second h; cancelled1 := c1; cancelled2 := c2;
     results := rs; received := rc; main := m |}.
(** A result of the function, sent into the channel. *)
Definition send (r : attemptResult) (f s : task) (h : hedge) : hedge :=
  {| parent := parent h; done_closed := done_closed h; timer := timer h; first := f; second := s; cancelled1 := cancelled1 h;
     cancelled2 := cancelled2 h; results := results h ++ [r]; received := received h; main := main h |}.
Definition with_timer (t : bool) (s : task) (h : hedge) : hedge :=
  {| parent := parent h; done_closed := done_closed h; timer := t; first := first h; second := s; cancelled1 := cancelled1 h;
     cancelled2 := cancelled2 h; results := results h; received := received h; main := main h |}.
Definition with_parent (e : E) (h : hedge) : hedge :=
  {| parent := Some e; done_closed := done_closed h; timer := timer h; first := first h; second := second h; cancelled1 := cancelled1 h;
     cancelled2 := cancelled2 h; results := results h; received := received h; main := main h |}.

(** The loop takes a result: a success cancels the other attempt (the second
    only if its cancel function is there already), a failure is kept, and the
    second failure is returned. *)
Definition receive (r : attemptResult) (rest : list attemptResult) (h : hedge) : hedge :=
  let rc := (received h ++ [r])%list in
  match err r with
  | None =>
      if attempt r =? 1 then upd_main (Winning (attempt r)) (done_closed h) (cancelled1 h) (cancelled2 h || started (second h)) rest rc h
      else upd_main (Winning (attempt r)) (done_closed h) true (cancelled2 h) rest rc h
  | Some e =>
      if (length rc <? 2)%nat then upd_main Selecting (done_closed h) (cancelled1 h) (cancelled2 h) rest rc h
      else upd_main (Returned (attempt r) (Some e)) (done_closed h) true (cancelled2 h) rest rc h
  end.
(** The deferred cancellation of the first attempt is part of returning. *)
Definition close_and_return (a : Z) (h : hedge) : hedge :=
  upd_main (Returned a None) true true (cancelled2 h) (results h) (received h) h.
Definition give_up_parent (e : E) (h : hedge) : hedge :=
  upd_main (Returned 0 (Some e)) (done_closed h) true (cancelled2 h || started (second h)) (results h) (received h) h.

Inductive step (h : hedge) : hedge → Prop :=
| finish_first e : first h = Running → (length (results h) < capacity)%nat → step h (send {| attempt := 1; err := e |} Ended (second h) h)
| finish_second e : second h = Running → (length (results h) < capacity)%nat → step h (send {| attempt := 2; err := e |} (first h) Ended h)
| timer_fires : timer h = true → step h (with_timer false (startSecond (second h)) h)
| timer_ends : timer h = true → is_Some (parent h) ∨ done_closed h = true → step h (with_timer false (second h) h)
| parent_ends e : parent h = None → step h (with_parent e h)
| loop_receives r rest : main h = Selecting → results h = r :: rest → step h (receive r rest h)
| loop_closes a : main h = Winning a → step h (close_and_return a h)
| loop_cancelled e : main h = Selecting → parent h = Some e → step h (give_up_parent e h).

(** Every result that was sent, in order. *)
Definition sent (h : hedge) : list attemptResult := (received h ++ results h)%list.
Definition failures (l : list attemptResult) : Prop := Forall (λ r, err r ≠ None) l.
Definition ids (f s : task) : list Z :=
  (match f with Ended => [1] | _ => [] end ++ match s with Ended => [2] | _ => [] end)%list.
Record inv (h : hedge) : Prop := {
  i_sent : attempt <$> sent h ≡ₚ ids (first h) (second h);
  i_started : first h ≠ NotStarted;
  i_timer : second h = NotStarted → timer h = true ∨ is_Some (parent h) ∨ done_closed h = true;
  i_done : done_closed h = true → ∃ a e, main h = Returned a e;
  i_main : match main h with
           | Selecting => failures (received h) ∧ (length (received h) < 2)%nat
           | Winning a | Returned a None => ∃ l, received h = (l ++ [{| attempt := a; err := None |}])%list ∧ failures l
           | Returned a (Some e) => parent h = Some e ∧ a = 0 ∨
               ∃ r, received h = [r; {| attempt := a; err := Some e |}] ∧ err r ≠ None
           end;
}.
Lemma hedge_start_inv delay : inv (start delay).
Proof. constructor; cbn; [by destruct (0 <? delay)|done|destruct (0 <? delay); [auto|done]|done|split; [constructor|lia]]. Qed.

Lemma hedge_receive_inv h r rest : inv h → main h = Selecting → results h = r :: rest → inv (receive r rest h).
Proof.
  intros [Hs Hf Ht Hd Hm] Em Er. rewrite Em in Hm. destruct Hm as [Hall Hlt].
  assert (attempt <$> ((received h ++ [r]) ++ rest)%list ≡ₚ ids (first h) (second h)) as Hs'.
  { unfold sent in Hs. rewrite Er in Hs. by rewrite <- app_assoc. }
  destruct r as [a [e|]]; unfold receive; cbn [err attempt].
  - destruct (length (received h ++ [{| attempt := a; err := Some e |}]) <? 2)%nat eqn:El; cbn.
    + apply Nat.ltb_lt in El. constructor; cbn; try done; [intros Hx; destruct (Hd Hx) as (? & ? & ?); congruence|].
      split; [|done]. apply Forall_app. split; [done|]. by repeat constructor.
    + apply Nat.ltb_ge in El. rewrite length_app in El. cbn in El. constructor; cbn; try done; [eauto|].
      destruct (received h) as [|x [|y l]] eqn:Erc; cbn in *; try lia. right. exists x. split; [done|]. by inversion Hall.
  - destruct (a =? 1); constructor; cbn; try done; first [intros Hx; destruct (Hd Hx) as (? & ? & ?); congruence|by eexists].
Qed.

Lemma step_inv h h' : inv h → step h h' → inv h'.
Proof.
  intros Hi Hst. destruct Hst as [e Ef Hc|e Es Hc|Et|Et Hx|e Ep|r rest Em Er|a Em|e Em Ep]; [| | | | |by apply hedge_receive_inv| |].
  - destruct Hi as [Hs Hf Ht Hd Hm]. constructor; cbn; try done.
    unfold sent in *. cbn. rewrite app_assoc, fmap_app, Hs, Ef. cbn. rewrite Permutation_app_comm. done.
  - destruct Hi as [Hs Hf Ht Hd Hm]. constructor; cbn; try done.
    unfold sent in *. cbn. rewrite app_assoc, fmap_app, Hs, Es. destruct (first h); done.
  - destruct Hi as [Hs Hf Ht Hd Hm]. constructor; cbn; try done; destruct (second h); try done.
  - destruct Hi as [Hs Hf Ht Hd Hm]. constructor; cbn; try done. auto.
  - destruct Hi as [Hs Hf Ht Hd Hm]. constructor; cbn; try done; [eauto|]. destruct (main h) as [|a|a [e'|]]; try done.
    right. destruct Hm as [[? _]|Hm]; [congruence|done].
  - destruct Hi as [Hs Hf Ht Hd Hm]. constructor; cbn; try done; [eauto..|]. by rewrite Em in Hm.
  - destruct Hi as [Hs Hf Ht Hd Hm]. constructor; cbn; try done; [eauto..|]. by left.
Qed.
Lemma reachable_inv delay h : rtc step (start delay) h → inv h.
Proof.
  assert (inv (start delay)) as Hi by apply hedge_start_inv. revert Hi. generalize (start delay).
  intros h0 Hi Hr. induction Hr as [|h0 h1 h2 Hst _ IH]; [done|]. eapply IH, step_inv; eauto.
Qed.

(** C17: whatever the interleaving, the call returns the first success that
    reached the loop, and an error only when the context ended or when both
    attempts were made and failed, namely that of the later one. *)
Theorem hedged_result delay h a e :
  rtc step (start delay) h → main h = Returned a e →
  match e with
  | None => ∃ l, received h = (l ++ [{| attempt := a; err := None |}])%list ∧ failures l ∧ (a = 1 ∨ a = 2)
  | Some e => parent h = Some e ∧ a = 0 ∨
      ∃ b e', received h = [{| attempt := b; err := Some e' |}; {| attempt := a; err := Some e |}] ∧ (b = 1 ∧ a = 2 ∨ b = 2 ∧ a = 1)
  end.
Proof.
  intros [Hs Hf Ht Hd Hm]%reachable_inv Em. rewrite Em in Hm. unfold sent in Hs. destruct e as [e|].
  - destruct Hm as [Hp|(r & Hr & Hne)]; [by left|]. right. rewrite Hr in Hs. destruct r as [b [e'|]]; [|done]. exists b, e'. split; [done|].
    cbn in Hs. assert (length (b :: a :: (attempt <$> results h)) ≤ 2)%nat as Hl by (rewrite Hs; by destruct (first h), (second h); cbn; lia).
    cbn in Hl. destruct (attempt <$> results h); cbn in Hl; [|lia].
    destruct (first h), (second h); cbn in Hs; try (apply Permutation_length in Hs; cbn in Hs; lia).
    apply Permutation_length_2_inv in Hs. destruct Hs as [[= -> ->]|[= -> ->]]; auto.
  - destruct Hm as (l & Hl & Hfl). exists l. split_and!; [done|done|].
    assert (a ∈ ids (first h) (second h)) as Hin.
    { rewrite <- Hs, Hl, fmap_app, fmap_app, !elem_of_app. left. right. left. }
    destruct (first h), (second h); cbn in Hin; repeat (apply elem_of_cons in Hin as [->|Hin]; [auto|]); by apply elem_of_nil in Hin.
Qed.

Definition busy (t : task) : nat := match t with Running => 1 | _ => 0 end.
(** No goroutine blocks on the channel: there is room for the result of every
    attempt that is still running. *)
Theorem sends_never_block delay h :
  rtc step (start delay) h →
  (length (results h) + busy (first h) + busy (second h) ≤ capacity)%nat.
Proof.
  intros [Hs Hf Ht Hd Hm]%reachable_inv. apply Permutation_length in Hs. unfold sent in Hs. rewrite length_fmap, length_app in Hs.
  unfold capacity. destruct (first h), (second h); cbn in *; lia.
Qed.

(** The loop never waits for nothing: until it has returned, a result is in
    the channel, an attempt runs, the timer will start one, or the context
    has ended. *)
Theorem hedge_never_stuck delay h :
  rtc step (start delay) h → main h = Selecting →
  results h ≠ [] ∨ first h = Running ∨ second h = Running ∨ timer h = true ∨ is_Some (parent h).
Proof.
  intros [Hs Hf Ht Hd Hm]%reachable_inv Em. rewrite Em in Hm. destruct Hm as [_ Hlt]. destruct (results h) as [|r l] eqn:Er; [|by left].
  right. unfold sent in Hs. rewrite Er, app_nil_r in Hs. apply Permutation_length in Hs. rewrite length_fmap in Hs.
  destruct (first h), (second h) eqn:E2; cbn in Hs; auto; try done; try lia.
  destruct (Ht eq_refl) as [?|[?|Hdc]]; auto. destruct (Hd Hdc) as (? & ? & ?). congruence.
Qed.
End hedge.
Arguments attemptResult : clear implicits.
Arguments hedge : clear implicits.
Arguments phase : clear implicits.

(** The first attempt returns in time, but between the look at the second
    one's cancel function and the closing of [done] the timer starts it: the
    call has returned and the second attempt runs on with a context nobody
    cancels. *)
Theorem late_second_not_cancelled delay : 0 < delay →
  ∃ h : hedge string, rtc step (start delay) h ∧ main h = Returned 1 None ∧ second h = Running ∧ cancelled2 h = false ∧ parent h = None.
Proof.
  intros Hd. eexists. split.
  - eapply rtc_l; [apply (finish_first _ None); cbn; [done|unfold capacity; lia]|].
    eapply rtc_l; [eapply loop_receives; cbn; reflexivity|].
    eapply rtc_l; [apply timer_fires; cbn; by apply Z.ltb_lt|].
    eapply rtc_l; [eapply loop_closes; cbn; reflexivity|]. apply rtc_refl.
  - cbn. rewrite (proj2 (Z.ltb_lt _ _) Hd). done.
Qed.
Lemma late_second_not_cancelled_witness :
  ∃ h : hedge string, rtc step (start 50) h ∧ main h = Returned 1 None ∧ second h = Running ∧ cancelled2 h = false ∧ parent h = None.
Proof. apply (late_second_not_cancelled 50). lia. Defined.

(** The first attempt fails, the second is started and succeeds. *)
Lemma hedged_result_witness :
  ∃ h : hedge string, rtc step (start 50) h ∧ main h = Returned 2 None ∧
    ∃ l, received h = (l ++ [{| attempt := 2; err := None |}])%list ∧ failures l ∧ (2 = 1 ∨ 2 = 2).
Proof.
  eexists. match goal with |- ?A ∧ _ => assert A as H end.
  - eapply rtc_l; [apply (finish_first _ (Some "timeout")); cbn; [done|unfold capacity; lia]|].
    eapply rtc_l; [eapply loop_receives; cbn; reflexivity|].
    eapply rtc_l; [apply timer_fires; reflexivity|].
    eapply rtc_l; [apply (finish_second _ None); cbn; [done|unfold capacity; lia]|].
    eapply rtc_l; [eapply loop_receives; cbn; reflexivity|].
    eapply rtc_l; [eapply loop_closes; cbn; reflexivity|]. apply rtc_refl.
  - split; [exact H|]. split; [reflexivity|]. exact (hedged_result 50 _ 2 None H eq_refl).
Defined.

(** When the first attempt has failed the loop waits for the timer all the
    same, and the second attempt is made although the first no longer runs. *)
Theorem failed_first_retried delay (e : string) : 0 < delay →
  ∃ h h' : hedge string, rtc step (start delay) h ∧ received h = [{| attempt := 1; err := Some e |}] ∧ main h = Selecting ∧
    (∀ x, step h x → timer x = false ∨ is_Some (parent x)) ∧ step h h' ∧ second h' = Running.
Proof.
  intros Hd. pose proof (proj2 (Z.ltb_lt _ _) Hd) as Hd'.
  pose (r := {| attempt := 1; err := Some e |}). pose (s0 := start delay : hedge string).
  assert (rtc step s0 (receive r [] (send r Ended (second s0) s0))) as Hr.
  { eapply rtc_l; [apply (finish_first _ (Some e)); cbn; [done|unfold capacity; lia]|]. apply rtc_once. by apply loop_receives. }
  eexists _, _. split; [exact Hr|]. subst r s0. cbn. rewrite Hd'. split_and!; [done|done| |apply timer_fires; done|done].
  intros x Hx. inversion Hx as [? Hy|? Hy|Hy|Hy|? Hy|? ? Hy Hz|? Hy|? Hy Hz]; cbn in *; simplify_eq; auto; done.
Qed.
End Hedge.

(** ** Configuration and construction *)
Module Config.
Import AppConfig.Load.

(** What pgx reads from a connection string: the endpoint, and the rest (the
    database, the user, the query mode), which is kept as it is. *)
Section config.
Context {R P : Type}.
Record ConnConfig := { Host : string; Port : Z; ConnectTimeout : Duration; Traced : bool; rest : R }.
Record PoolConfig := {
  Conn : option ConnConfig;
  MaxConns : Z;
  MinConns : Z;
  MaxConnLifetime : Duration;
  MaxConnIdleTime : Duration;
  HealthCheckPeriod : Duration;
}.
Inductive pool_error := EmptyConn | ParseFailed (e : string) | CreateFailed (e : string) | PingFailed (e : string).

Definition int32 (z : Z) : Z := (z + 2 ^ 31) mod 2 ^ 32 - 2 ^ 31.
Definition uint16 (z : Z) : Z := z mod 2 ^ 16.
Definition seconds (z : Z) : Duration := wrap64 (z * Time.Second).

Definition redirected (cfg : Config) (c : ConnConfig) : ConnConfig :=
  if PgBouncerEnabled cfg
  then {| Host := PgBouncerHost cfg; Port := uint16 (PgBouncerPort cfg); ConnectTimeout := ConnectTimeout c; Traced := Traced c; rest := rest c |}
  else c.
Definition dialled (cfg : Config) (c : ConnConfig) : ConnConfig :=
  {| Host := Host c; Port := Port c; ConnectTimeout := seconds (DBPoolConnectTimeout cfg); Traced := true; rest := rest c |}.
Context (ParseConfig : string → result string PoolConfig).
Definition NewPoolConfig (cfg : Config) (dsn : string) : result pool_error PoolConfig :=
  if decide (dsn = "") then Err EmptyConn
  else match ParseConfig dsn with
  | Err e => Err (ParseFailed e)
  | Ok p =>
      Ok {| Conn := dialled cfg <$> (redirected cfg <$> Conn p);
            MaxConns := int32 (DBPoolMaxConns cfg); MinConns := int32 (DBPoolMinConns cfg);
            MaxConnLifetime := seconds (DBPoolMaxConnLifetime cfg); MaxConnIdleTime := seconds (DBPoolMaxConnIdleTime cfg);
            HealthCheckPeriod := seconds (DBPoolHealthCheckPeriod cfg) |}
  end.

(** A pool that was created: none, the pool, or an error, with whether a pool
    that was opened has been closed again. *)
Inductive opened := NoPool | Pool (p : P) | Refused (e : pool_error) (closed : list P).
Context (NewWithConfig : PoolConfig → result string P) (Ping : P → option string).
Definition open_pool (cfg : Config) (dsn : string) : opened :=
  if decide (dsn = "") then NoPool
  else match NewPoolConfig cfg dsn with
  | Err e => Refused e []
  | Ok pc =>
      match NewWithConfig pc with
      | Err e => Refused (CreateFailed e) []
      | Ok p => match Ping p with Some e => Refused (PingFailed e) [p] | None => Pool p end
      end
  end.
Definition NewPool (cfg : Config) : opened := open_pool cfg (DBConn cfg).
(** The replica is the same configuration with the other connection string. *)
Definition NewReplicaPool (cfg : Config) : opened :=
  if decide (DBReplicaConn cfg = "") then NoPool else open_pool cfg (DBReplicaConn cfg).

(** For a validated configuration no conversion loses anything: the pool has
    the sizes and times that are configured, at least as many connections at
    most as at least, and goes to PgBouncer when that is enabled; what the
    connection string says of everything else is kept. *)
Theorem pool_as_configured cfg dsn p :
  pool_ok {| max_conns := DBPoolMaxConns cfg; min_conns := DBPoolMinConns cfg; lifetime := DBPoolMaxConnLifetime cfg;
             idle_time := DBPoolMaxConnIdleTime cfg; connect := DBPoolConnectTimeout cfg; health := DBPoolHealthCheckPeriod cfg;
             metrics := DBPoolMetricsInterval cfg |} →
  bouncer_ok {| pb_enabled := PgBouncerEnabled cfg; pb_host := PgBouncerHost cfg; pb_port := PgBouncerPort cfg;
                cache_mode := DBStatementCacheMode cfg; idle_in_tx := PgBouncerIdleInTxTimeout cfg |} →
  NewPoolConfig cfg dsn = Ok p →
  ∃ parsed, ParseConfig dsn = Ok parsed ∧ MaxConns p = DBPoolMaxConns cfg ∧ MinConns p = DBPoolMinConns cfg ∧ MinConns p ≤ MaxConns p ∧
    MaxConnLifetime p = DBPoolMaxConnLifetime cfg * Time.Second ∧ MaxConnIdleTime p = DBPoolMaxConnIdleTime cfg * Time.Second ∧
    HealthCheckPeriod p = DBPoolHealthCheckPeriod cfg * Time.Second ∧
    Conn p = (λ c, {| Host := if PgBouncerEnabled cfg then PgBouncerHost cfg else Host c;
                      Port := if PgBouncerEnabled cfg then PgBouncerPort cfg else Port c;
                      ConnectTimeout := DBPoolConnectTimeout cfg * Time.Second; Traced := true; rest := rest c |}) <$> Conn parsed.
Proof.
  intros (H1 & H2 & H3 & H4 & H5 & H6 & _) (H7 & _ & _). cbn in *. unfold NewPoolConfig. case_decide; [done|].
  destruct (ParseConfig dsn) as [parsed|] eqn:E; [|done]. intros [= <-]. exists parsed.
  assert (∀ z, 0 ≤ z ≤ 86400 → seconds z = z * Time.Second) as Hs.
  { intros z Hz. unfold seconds. apply wrap64_id. unfold in_int64, min_int64, max_int64, Time.Second, Time.Millisecond. lia. }
  assert (∀ z, 0 ≤ z ≤ 500 → int32 z = z) as Hi by (intros z Hz; unfold int32; rewrite Z.mod_small; lia).
  cbn. rewrite !Hi, !Hs by lia. split_and!; try done; try lia. destruct (Conn parsed) as [c|]; [|done]. cbn. unfold redirected, dialled, uint16.
  rewrite Hs by lia. destruct (PgBouncerEnabled cfg); cbn; [|done]. by rewrite Z.mod_small by lia.
Qed.

(** The mode for prepared statements makes no difference to the pool. *)
Theorem statement_mode_ignored cfg cfg' dsn :
  DBPoolMaxConns cfg = DBPoolMaxConns cfg' → DBPoolMinConns cfg = DBPoolMinConns cfg' →
  DBPoolMaxConnLifetime cfg = DBPoolMaxConnLifetime cfg' → DBPoolMaxConnIdleTime cfg = DBPoolMaxConnIdleTime cfg' →
  DBPoolConnectTimeout cfg = DBPoolConnectTimeout cfg' → DBPoolHealthCheckPeriod cfg = DBPoolHealthCheckPeriod cfg' →
  PgBouncerEnabled cfg = PgBouncerEnabled cfg' → PgBouncerHost cfg = PgBouncerHost cfg' → PgBouncerPort cfg = PgBouncerPort cfg' →
  NewPoolConfig cfg dsn = NewPoolConfig cfg' dsn.
Proof.
  intros E1 E2 E3 E4 E5 E6 E7 E8 E9. unfold NewPoolConfig, dialled. rewrite E1, E2, E3, E4, E5, E6.
  case_decide; [done|]. destruct (ParseConfig dsn) as [p|]; [|done]. do 2 f_equal. destruct (Conn p) as [c|]; [|done]. cbn. unfold redirected.
  by rewrite E7, E8, E9.
Qed.

(** A pool that is handed out has answered a ping, and one that has not is
    closed. *)
Theorem pools_answer cfg dsn :
  match open_pool cfg dsn with
  | NoPool => dsn = ""
  | Pool p => Ping p = None ∧ ∃ pc, NewPoolConfig cfg dsn = Ok pc ∧ NewWithConfig pc = Ok p
  | Refused _ closed => ∀ pc p, NewPoolConfig cfg dsn = Ok pc → NewWithConfig pc = Ok p → closed = [p] ∧ Ping p ≠ None
  end.
Proof.
  unfold open_pool. case_decide as Hd; [done|]. destruct (NewPoolConfig cfg dsn) as [pc|] eqn:E1; [|done].
  destruct (NewWithConfig pc) as [p|] eqn:E2; [|intros ? ? [= <-]; congruence].
  destruct (Ping p) eqn:E3; [|eauto]. intros ? ? [= <-] ?. split; congruence.
Qed.
End config.
End Config.
