(* ===== verification/Passhash.v ===== *)
(** * Password hashes

    Models [internal/security/passhash.go]: the self-describing text of an
    Argon2id digest, its parser and the verification of a password.

    [argon2.IDKey] is a parameter; [None] is its panic, which its source
    raises when there are no rounds or no threads. [base64.RawStdEncoding] is
    that of [GoBase64] over the other alphabet, and [fmt.Sscanf] is written
    out for the one format that is used: numbers may follow spaces, and what
    comes after the last number is not looked at. *)
From Stdlib Require Import ZArith Lia Ascii String.
From stdpp Require Import base strings list.
From S2P Require Import Prelude GoStrings GoBase64.
#[local] Open Scope string_scope.
#[local] Open Scope Z_scope.

(** ** The standard alphabet *)
Definition to_std (c : ascii) : ascii := if decide (c = "-"%char) then "+"%char else if decide (c = "_"%char) then "/"%char else c.
Definition of_std (c : ascii) : ascii := if decide (c = "+"%char) then "-"%char else if decide (c = "/"%char) then "_"%char else c.
Definition std_encode (s : string) : string := map_string to_std (EncodeToString s).
Definition std_decode (s : string) : option string :=
  if contains_char "-" s || contains_char "_" s then None else DecodeString (map_string of_std s).

(** ** The scanner *)
(** [isSpace] of the scanner on the rune at the front, with its length; a
    line break is an error. *)
Definition space_len (s : string) : option nat :=
  match s with
  | String a s1 =>
      let n := code a in
      if (n =? 9) || (n =? 11) || (n =? 12) || (n =? 13) || (n =? 32) then Some 1%nat
      else match s1 with
      | String b s2 =>
          let m := code b in
          if (n =? 194) && ((m =? 133) || (m =? 160)) then Some 2%nat
          else match s2 with
          | String c _ =>
              let k := code c in
              if (n =? 225) && (m =? 154) && (k =? 128) then Some 3%nat
              else if (n =? 226) && (m =? 128) && (((128 <=? k) && (k <=? 138)) || (k =? 168) || (k =? 169) || (k =? 175)) then Some 3%nat
              else if (n =? 226) && (m =? 129) && (k =? 159) then Some 3%nat
              else if (n =? 227) && (m =? 128) && (k =? 128) then Some 3%nat
              else None
          | EmptyString => None
          end
      | EmptyString => None
      end
  | EmptyString => None
  end.
Fixpoint skip_space (fuel : nat) (s : string) : string :=
  match fuel with
  | O => s
  | S fuel => match space_len s with Some n => skip_space fuel (drop_str n s) | None => s end
  end.
(** The digits at the front, and the rest. *)
Fixpoint digits (s : string) (acc : Z) : Z * string :=
  match s with
  | String c s' => match digit_val c with Some d => digits s' (10 * acc + d) | None => (acc, s) end
  | EmptyString => (acc, s)
  end.
(** [%d] into an unsigned integer of a width; the digits have to fit 64 bits
    and then the width, which is the smaller. *)
Definition scan_uint (bits : Z) (s : string) : option (Z * string) :=
  match skip_space (String.length s) s with
  | String c s' =>
      match digit_val c with
      | Some d => let '(n, r) := digits s' d in if n <? 2 ^ bits then Some (n, r) else None
      | None => None
      end
  | EmptyString => None
  end.
Fixpoint literal (f s : string) : option string :=
  match f, s with
  | EmptyString, _ => Some s
  | String a f, String b s => if decide (a = b) then literal f s else None
  | String _ _, EmptyString => None
  end.
Definition sscanf (s : string) : option (Z * Z * Z) :=
  s ← literal "m=" s; '(m, s) ← scan_uint 32 s;
  s ← literal ",t=" s; '(t, s) ← scan_uint 32 s;
  s ← literal ",p=" s; '(p, _) ← scan_uint 8 s;
  Some (m, t, p).

(** ** Hashes *)
Definition argonMemory : Z := 64 * 1024.
Definition argonIterations : Z := 3.
Definition argonParallelism : Z := 4.
Definition argonSaltLen : nat := 16.
Definition argonKeyLen : Z := 32.
Definition encodingVersion : string := "v1".

Record hashParams := { memory : Z; iterations : Z; parallelism : Z }.
Definition decode (encoded : string) : option (string * string * hashParams) :=
  match split_char "$" encoded with
  | [_; alg; version; params; salt; hash] =>
      if decide (alg ≠ "argon2id") then None
      else if decide (version ≠ encodingVersion) then None
      else match sscanf params with
      | None => None
      | Some (m, t, p) =>
          match std_decode salt with
          | None | Some "" => None
          | Some salt =>
              match std_decode hash with
              | None | Some "" => None
              | Some hash => Some (salt, hash, {| memory := m; iterations := t; parallelism := p |})
              end
          end
      end
  | _ => None
  end.

Section argon.
(** [IDKey password salt time memory threads keyLen]. *)
Context (IDKey : string → string → Z → Z → Z → Z → option string).

Inductive verdict := Matches | ErrMismatch | ErrInvalidHash | Panicked.
Definition Hash (salt : option string) (password : string) : option (option string) :=
  match salt with
  | None => Some None
  | Some salt =>
      match IDKey password salt argonIterations argonMemory argonParallelism argonKeyLen with
      | None => None
      | Some hash =>
          Some (Some ("$argon2id$" +:+ encodingVersion +:+ "$m=" +:+ Itoa argonMemory +:+ ",t=" +:+ Itoa argonIterations
                      +:+ ",p=" +:+ Itoa argonParallelism +:+ "$" +:+ std_encode salt +:+ "$" +:+ std_encode hash))
      end
  end.
Definition Verify (password encoded : string) : verdict :=
  match decode encoded with
  | None => ErrInvalidHash
  | Some (salt, stored, ps) =>
      match IDKey password salt (iterations ps) (memory ps) (parallelism ps) (Z.of_nat (String.length stored)) with
      | None => Panicked
      | Some candidate => if decide (candidate = stored) then Matches else ErrMismatch
      end
  end.
End argon.

(** ** Encoding *)
Lemma map_string_id f g s : (∀ c, contains_char c s = true → f (g c) = c) → map_string f (map_string g s) = s.
Proof.
  induction s as [|c s IH]; intros H; [done|]. cbn [map_string]. rewrite H, IH; [done| |].
  - intros x Hx. apply H. cbn [contains_char]. by rewrite Hx, orb_true_r.
  - cbn [contains_char]. by rewrite bool_decide_true.
Qed.
Lemma contains_map c f s : contains_char c (map_string f s) = true → ∃ x, contains_char x s = true ∧ f x = c.
Proof.
  induction s as [|x s IH]; [done|]. cbn [map_string contains_char]. intros [H%bool_decide_eq_true_1|H]%orb_prop.
  - exists x. split; [by rewrite bool_decide_true|done].
  - destruct (IH H) as (y & Hy & <-). exists y. split; [by rewrite Hy, orb_true_r|done].
Qed.

(** The characters of encoded text. *)
Definition b64 (c : ascii) : bool := match dec_char c with Some _ => true | None => false end.
Lemma encoded_chars s c : contains_char c (EncodeToString s) = true → b64 c = true.
Proof.
  assert (∀ n r, 0 ≤ n < 64 → (contains_char c r = true → b64 c = true) → contains_char c (String (enc_char n) r) = true → b64 c = true) as Hc.
  { intros n r Hn Hr. cbn [contains_char]. intros [<-%bool_decide_eq_true_1|H]%orb_prop; [|by apply Hr].
    destruct (enc_char_spec n Hn) as (Hd & _). unfold b64. by rewrite Hd. }
  induction s as [|a|a b|a b c' s IH] using string_ind3; [done| | |]; cbn [EncodeToString];
    pose proof (code_bounds a) as Ha; try pose proof (code_bounds b) as Hb; try pose proof (code_bounds c') as Hc';
    cbv zeta; repeat (apply Hc; [Z.to_euclidean_division_equations; lia|]); done.
Qed.
Lemma b64_cases c : b64 c = true → c ≠ "+"%char ∧ c ≠ "/"%char ∧ c ≠ "$"%char.
Proof. intros H. split_and!; intros ->; vm_compute in H; discriminate. Qed.

Lemma std_roundtrip s : std_decode (std_encode s) = Some s.
Proof.
  unfold std_decode, std_encode.
  assert (∀ x, (x = "-"%char ∨ x = "_"%char) → contains_char x (map_string to_std (EncodeToString s)) = false) as Hn.
  { intros x Hx. apply not_true_is_false. intros (y & Hy & E)%contains_map. apply encoded_chars, b64_cases in Hy as (? & ? & ?).
    unfold to_std in E. destruct Hx as [-> | ->]; repeat case_decide; congruence. }
  rewrite !Hn by auto. cbn. rewrite map_string_id; [apply base64_roundtrip|].
  intros c Hc%encoded_chars%b64_cases. unfold to_std, of_std. destruct Hc as (? & ? & ?). repeat case_decide; congruence.
Qed.
Lemma std_no_dollar s : contains_char "$" (std_encode s) = false.
Proof.
  apply not_true_is_false. intros (y & Hy & E)%contains_map. apply encoded_chars, b64_cases in Hy as (? & ? & ?).
  unfold to_std in E. repeat case_decide; congruence.
Qed.

(** ** Theorems *)
Definition settings : string := "m=" +:+ Itoa argonMemory +:+ ",t=" +:+ Itoa argonIterations +:+ ",p=" +:+ Itoa argonParallelism.
Definition text_of (before after salt hash : string) : string :=
  before +:+ String "$" ("argon2id" +:+ String "$" (encodingVersion +:+ String "$" ((settings +:+ after) +:+ String "$" (std_encode salt +:+ String "$" (std_encode hash))))).
Definition no_digit (s : string) : bool := match s with String c _ => match digit_val c with Some _ => false | None => true end | EmptyString => true end.

Lemma digits_stop s n : no_digit s = true → digits s n = (n, s).
Proof. destruct s as [|c s]; [done|]. cbn. by destruct (digit_val c). Qed.
Lemma scan_last after : no_digit after = true → scan_uint 8 (String "4" after) = Some (4, after).
Proof.
  intros Ha. unfold scan_uint. cbn [String.length skip_space].
  assert (space_len (String "4" after) = None) as -> by (destruct after as [|b [|c after]]; reflexivity).
  change (digit_val "4") with (Some 4). cbn iota beta. by rewrite digits_stop.
Qed.
Lemma settings_scanned after : no_digit after = true → sscanf (settings +:+ after) = Some (65536, 3, 4).
Proof.
  intros Ha. pose proof (scan_last after Ha) as Hl. pose (u := String "4" after).
  assert (literal "m=" (settings +:+ after) = Some ("65536,t=3,p=" +:+ u)) as E1 by reflexivity.
  assert (scan_uint 32 ("65536,t=3,p=" +:+ u) = Some (65536, ",t=3,p=" +:+ u)) as E2 by reflexivity.
  assert (literal ",t=" (",t=3,p=" +:+ u) = Some ("3,p=" +:+ u)) as E3 by reflexivity.
  assert (scan_uint 32 ("3,p=" +:+ u) = Some (3, ",p=" +:+ u)) as E4 by reflexivity.
  assert (literal ",p=" (",p=" +:+ u) = Some u) as E5 by reflexivity.
  unfold sscanf. rewrite E1. cbn [mbind option_bind]. rewrite E2. cbn [mbind option_bind]. rewrite E3. cbn [mbind option_bind].
  rewrite E4. cbn [mbind option_bind]. rewrite E5. cbn [mbind option_bind]. subst u. by rewrite Hl.
Qed.

(** The text that [Hash] writes is read back; so is that text with anything
    before its first separator, and with anything but a digit after the
    settings. *)
Lemma decode_text before after salt hash :
  contains_char "$" before = false → contains_char "$" after = false → no_digit after = true → salt ≠ "" → hash ≠ "" →
  decode (text_of before after salt hash) = Some (salt, hash, {| memory := argonMemory; iterations := argonIterations; parallelism := argonParallelism |}).
Proof.
  intros Hb Ha Hd Hs Hh. unfold decode, text_of.
  rewrite split_char_app by done. rewrite split_char_app by reflexivity. rewrite split_char_app by reflexivity.
  rewrite split_char_app by (rewrite contains_char_app, Ha; reflexivity). rewrite split_char_app by apply std_no_dollar.
  rewrite split_char_none by apply std_no_dollar. rewrite !decide_False by (intros H; by apply H).
  rewrite settings_scanned, !std_roundtrip by done. destruct salt; [done|]. by destruct hash.
Qed.

Section theorems.
Context (IDKey : string → string → Z → Z → Z → Z → option string).
(** The documented behaviour of the function: a key of the length asked for,
    and a panic exactly when there are no rounds or no threads. *)
Hypothesis IDKey_total : ∀ p s t m th n, IDKey p s t m th n = None ↔ t < 1 ∨ th < 1.
Hypothesis IDKey_length : ∀ p s t m th n k, 0 ≤ n → IDKey p s t m th n = Some k → Z.of_nat (String.length k) = n.

(** C18: a password is verified against its own hash, and another one exactly when
    Argon2id gives both the same key. *)
Theorem password_roundtrip salt password other :
  salt ≠ "" →
  ∃ key encoded, IDKey password salt argonIterations argonMemory argonParallelism argonKeyLen = Some key ∧
    Hash IDKey (Some salt) password = Some (Some encoded) ∧ Verify IDKey password encoded = Matches ∧
    Verify IDKey other encoded =
      (if decide (IDKey other salt argonIterations argonMemory argonParallelism argonKeyLen = Some key) then Matches else ErrMismatch).
Proof.
  intros Hs. assert (∀ p, ∃ k, IDKey p salt argonIterations argonMemory argonParallelism argonKeyLen = Some k) as Hk.
  { intros p. destruct (IDKey p salt argonIterations argonMemory argonParallelism argonKeyLen) eqn:E; [eauto|].
    apply IDKey_total in E. unfold argonIterations, argonParallelism in E. lia. }
  destruct (Hk password) as [k Ek]. assert (Z.of_nat (String.length k) = argonKeyLen) as Hl by (eapply IDKey_length; [|exact Ek]; done).
  assert (k ≠ "") as Hne by (intros ->; unfold argonKeyLen in Hl; cbn in Hl; lia).
  exists k, (text_of "" "" salt k). split; [done|]. unfold Hash. rewrite Ek. split; [reflexivity|].
  unfold Verify. rewrite decode_text by done. cbn [iterations memory parallelism]. rewrite Hl, Ek. rewrite decide_True by done.
  split; [done|]. destruct (Hk other) as [k' ->]. repeat case_decide; congruence.
Qed.

(** A stored hash that names no rounds or no threads is not refused: the
    verification panics, whatever the password. *)
Theorem corrupt_hash_panics password encoded salt hash ps :
  decode encoded = Some (salt, hash, ps) → iterations ps = 0 ∨ parallelism ps = 0 → Verify IDKey password encoded = Panicked.
Proof.
  intros Hd H0. unfold Verify. rewrite Hd. destruct (IDKey _ _ _ _ _ _) eqn:E; [|done]. exfalso.
  enough (None = Some s) by done. rewrite <- E. symmetry. apply IDKey_total. lia.
Qed.

(** Text before the first separator and after the settings is not noticed. *)
Theorem malformed_hash_accepted password before after salt key :
  contains_char "$" before = false → contains_char "$" after = false → no_digit after = true → salt ≠ "" → key ≠ "" →
  Verify IDKey password (text_of before after salt key) = Verify IDKey password (text_of "" "" salt key).
Proof. intros. unfold Verify. by rewrite !decode_text. Qed.
End theorems.

Module Runs.
(** A stand-in with the documented behaviour: the password, repeated to the
    length asked for. *)
Fixpoint repeat (n : nat) (p : string) (acc : string) : string :=
  match n with
  | O => ""
  | S n => match acc with String c acc => String c (repeat n p acc) | EmptyString => match p with String c r => String c (repeat n p r) | EmptyString => String "0" (repeat n p "") end end
  end.
Definition toy (p s : string) (t m th n : Z) : option string := if decide (t < 1 ∨ th < 1) then None else Some (repeat (Z.to_nat n) p p).
Lemma length_repeat n p acc : String.length (repeat n p acc) = n.
Proof. revert acc. induction n as [|n IH]; intros acc; [done|]. cbn. destruct acc, p; cbn; by rewrite IH. Qed.

Definition stored : string := text_of "" "" "saltsaltsaltsalt" (repeat 32 "hunter2" "hunter2").
Example stored_text : substring 0 53 stored = "$argon2id$v1$m=65536,t=3,p=4$c2FsdHNhbHRzYWx0c2FsdA$a".
Proof. vm_compute. reflexivity. Qed.
Example no_rounds : decode "$argon2id$v1$m=65536,t=0,p=4$c2FsdA$aGFzaA" = Some ("salt", "hash", {| memory := 65536; iterations := 0; parallelism := 4 |}).
Proof. vm_compute. reflexivity. Qed.
Lemma password_roundtrip_witness :
  ∃ key encoded, toy "hunter2" "saltsaltsaltsalt" argonIterations argonMemory argonParallelism argonKeyLen = Some key ∧
    Hash toy (Some "saltsaltsaltsalt") "hunter2" = Some (Some encoded) ∧ Verify toy "hunter2" encoded = Matches ∧
    Verify toy "hunter3" encoded =
      (if decide (toy "hunter3" "saltsaltsaltsalt" argonIterations argonMemory argonParallelism argonKeyLen = Some key) then Matches else ErrMismatch).
Proof.
  apply (password_roundtrip toy); [| |done].
  - intros. unfold toy. case_decide; split; done.
  - intros p s t m th n k Hn. unfold toy. case_decide; [done|]. intros [= <-]. rewrite length_repeat. lia.
Defined.
Example junk_ignored : Verify toy "hunter2" (text_of "junk" "x" "saltsaltsaltsalt" (repeat 32 "hunter2" "hunter2")) = Matches.
Proof. vm_compute. reflexivity. Qed.
End Runs.
