(* ===== verification/AdminApi.v ===== *)
(** * Error codes and the endpoints around the stores

    - [ErrorCodes] models [internal/errcode/registry.go], the registrations of
      [internal/service], [internal/pagination] and [internal/middleware], and
      [MapServiceErrorToResponse] and [RespondWithErrorDetails] of
      [internal/handlers/errors.go];
    - [Reconcile] models [internal/handlers/reconciliation.go] over the roles,
      the comparison, the store and the scoped cursors;
    - [OutboxAdmin] models [internal/handlers/outbox.go] and [Attempts]
      [webhook_attempts.go];
    - [Webhooks] models [internal/handlers/webhooks.go] over the event cache
      and the outbox table;
    - [Flags] models [ToggleFeatureFlag] of [feature_flags.go].

    Decoding of JSON, of identifiers and of cursors, and the HMAC under them,
    are parameters. *)
From Stdlib Require Import ZArith Lia Ascii String.
From stdpp Require Import base gmap strings list.
From S2P Require Import Prelude GoStrings Auth Reconciliation Pagination EventCache Outbox Publishers FeatureFlags Redaction.
#[local] Open Scope string_scope.
#[local] Open Scope Z_scope.

(** ** Error codes *)
Module ErrorCodes.
(** An error, as the sentinels [errors.Is] finds in its chain. *)
Notation error := (list string).
Definition Is (sentinel : string) (e : error) : bool := bool_decide (sentinel ∈ e).

Record entry := { matcher : error → bool; code : string }.
Record registry := { known : gset string; matchers : list entry }.
Definition no_codes : registry := {| known := ∅; matchers := [] |}.
(** [None] is the panic. *)
Definition Register (m : option (error → bool)) (c : string) (r : registry) : option registry :=
  match m with
  | None => None
  | Some m => if decide (c ∈ known r) then None
              else Some {| known := {[c]} ∪ known r; matchers := matchers r ++ [{| matcher := m; code := c |}] |}
  end.
Definition CodeInternalError : string := "system/internal-error".
Fixpoint first_match (l : list entry) (e : error) : option string :=
  match l with [] => None | x :: l => if matcher x e then Some (code x) else first_match l e end.
Definition Lookup (r : registry) (e : option error) : string :=
  match e with None => "" | Some e => default CodeInternalError (first_match (matchers r) e) end.
Definition MustLookup (r : registry) (e : option error) : string * bool :=
  match e with None => ("", true) | Some e => match first_match (matchers r) e with Some c => (c, true) | None => ("", false) end end.
Definition AllCodes (r : registry) : list string := code <$> matchers r.
Definition IsRegistered (r : registry) (c : string) : bool := bool_decide (c ∈ known r).
Definition Count (r : registry) : Z := Z.of_nat (length (matchers r)).

(** What the packages register when they are loaded: each sentinel with its
    code. *)
Definition service_codes : list (string * string) :=
  [("ErrNotFound", "client/not-found"); ("ErrDeleted", "subscription/deleted"); ("ErrForbidden", "client/forbidden");
   ("ErrBillingParse", "subscription/billing-parse-error"); ("ErrExportInProgress", "export/in-progress");
   ("ErrInvalidTransition", "subscription/invalid-state-transition"); ("ErrUnknownCurrentState", "subscription/unknown-state");
   ("ErrInvalidStatus", "subscription/invalid-status")].
Definition fee_codes : list (string * string) :=
  [("ErrInvalidAmount", "fee/invalid-amount"); ("ErrInvalidTaxRate", "fee/invalid-tax-rate"); ("ErrInvalidParts", "fee/invalid-parts")].
Definition swap_codes : list (string * string) := [("ErrInsufficientLiquidity", "swap/insufficient-liquidity")].
Definition limit_codes : list (string * string) := [("ErrInvalidLimit", "pagination/invalid-limit")].
Definition idempotency_codes : list (string * string) := [("ErrRequestMismatch", "idempotency/request-mismatch")].
Definition register_all (l : list (string * string)) (r : registry) : option registry :=
  foldl (λ r sc, r ← r; Register (Some (Is sc.1)) sc.2 r) (Some r) l.

(** [MapServiceErrorToResponse] over a registry. *)
Definition MapServiceErrorToResponse (r : registry) (e : error) : Z * string * string :=
  let c := Lookup r (Some e) in
  if Is "ErrNotFound" e then (404, c, "The requested resource was not found")
  else if Is "ErrDeleted" e then (410, c, "The requested resource has been deleted")
  else if Is "ErrForbidden" e then (403, c, "You do not have permission to access this resource")
  else if Is "ErrBillingParse" e then (500, c, "An internal error occurred while processing your request")
  else (500, c, "An unexpected error occurred").

Record ErrorEnvelope := { e_Code : string; e_Message : string; e_TraceID : string; e_Details : option (list (string * Redactor.json)) }.
Definition RespondWithErrorDetails (fresh trace : string) (c message : string) (details : option (list (string * Redactor.json))) : ErrorEnvelope :=
  {| e_Code := c; e_Message := Redactor.MaskPII message; e_TraceID := if decide (trace = "") then fresh else trace;
     e_Details := Redactor.RedactMap <$> details |}.

Definition wf (r : registry) : Prop := NoDup (AllCodes r) ∧ known r = list_to_set (AllCodes r).
Lemma Register_wf m c r r' : wf r → Register m c r = Some r' → wf r'.
Proof.
  intros [Hn Hk]. unfold Register. destruct m as [m|]; [|done]. case_decide as Hc; [done|]. intros [= <-]. unfold wf, AllCodes in *. cbn.
  rewrite fmap_app. split.
  - apply NoDup_app. split_and!; [done| |by repeat constructor; intros ?%elem_of_nil]. intros x Hx Hx2%list_elem_of_singleton. cbn in Hx2. subst.
    apply Hc. rewrite Hk. by apply elem_of_list_to_set.
  - rewrite list_to_set_app_L, Hk. cbn. set_solver.
Qed.
Lemma register_all_ok l r : wf r → NoDup (l.*2) → (∀ c, c ∈ l.*2 → c ∉ AllCodes r) →
  ∃ r', register_all l r = Some r' ∧ wf r' ∧ AllCodes r' = (AllCodes r ++ l.*2)%list ∧
    (∀ e, first_match (matchers r') e =
      match first_match (matchers r) e with Some c => Some c | None => first_match ((λ sc, {| matcher := Is sc.1; code := sc.2 |}) <$> l) e end).
Proof.
  revert r. induction l as [|[s c] l IH]; intros r Hw Hn Hd.
  - exists r. cbn. rewrite app_nil_r. split_and!; try done. intros e. by destruct (first_match _ _).
  - cbn in Hn. apply NoDup_cons in Hn as [Hc Hn]. assert (c ∉ known r) as Hk.
    { destruct Hw as [_ ->]. rewrite elem_of_list_to_set. apply Hd. left. }
    destruct (Register (Some (Is s)) c r) as [r1|] eqn:E; [|unfold Register in E; by rewrite decide_False in E].
    assert (wf r1) as Hw1 by (by eapply Register_wf). unfold Register in E. rewrite decide_False in E by done. simplify_eq.
    destruct (IH {| known := {[c]} ∪ known r; matchers := matchers r ++ [{| matcher := Is s; code := c |}] |} Hw1 Hn) as (r' & Hr & Hw' & Ha & Hf).
    { intros x Hx. unfold AllCodes. cbn. rewrite fmap_app, elem_of_app. intros [Hy|Hy%list_elem_of_singleton]; [by apply (Hd x); [right|]|].
      cbn in Hy. subst. done. }
    exists r'. split_and!.
    + unfold register_all in *. cbn. rewrite decide_False by done. exact Hr.
    + done.
    + rewrite Ha. unfold AllCodes. cbn. by rewrite fmap_app, <- app_assoc.
    + intros e. rewrite Hf. cbn. assert (∀ (l1 : list entry) x, first_match (l1 ++ [x]) e = match first_match l1 e with Some c => Some c | None => first_match [x] e end) as Happ.
      { induction l1 as [|y l1 IHl]; intros x; cbn; [done|]. destruct (matcher y e); [done|]. apply IHl. }
      rewrite Happ. destruct (first_match (matchers r) e); [done|]. cbn. by destruct (Is s e).
Qed.

(** The registrations at start-up do not collide, whatever order the packages
    are loaded in, and each of the fourteen sentinels gets its own code. *)
Theorem codes_registered l :
  l ≡ₚ service_codes ++ fee_codes ++ swap_codes ++ limit_codes ++ idempotency_codes →
  ∃ r, register_all l no_codes = Some r ∧ Count r = 14 ∧ (∀ c, IsRegistered r c = true ↔ c ∈ l.*2) ∧
    ∀ s c, (s, c) ∈ l → Lookup r (Some [s]) = c ∧ MustLookup r (Some [s]) = (c, true).
Proof.
  intros Hp. assert (NoDup (l.*2) ∧ NoDup (l.*1)) as [Hn2 Hn1].
  { split; rewrite Hp; apply (bool_decide_unpack _); vm_compute; reflexivity. }
  destruct (register_all_ok l no_codes) as (r & Hr & [Hw Hk] & Ha & Hf); [split; [constructor|done]|done|by intros ? _ ?%elem_of_nil|].
  exists r. split; [done|]. cbn in Ha. assert (length (AllCodes r) = 14%nat) as Hl by (rewrite Ha, Hp; reflexivity).
  unfold AllCodes in Hl. rewrite length_fmap in Hl. split_and!; [unfold Count; lia| |].
  - intros c. unfold IsRegistered. rewrite bool_decide_eq_true, Hk, elem_of_list_to_set, Ha. done.
  - intros s c Hin. enough (first_match (matchers r) [s] = Some c) as E by (unfold Lookup, MustLookup; by rewrite E).
    rewrite Hf. cbn. clear -Hin Hn1. induction l as [|[s' c'] l IH]; [by apply elem_of_nil in Hin|]. cbn in *. apply NoDup_cons in Hn1 as [Hs Hn].
    unfold Is. apply elem_of_cons in Hin as [[= -> ->]|Hin]; [by rewrite bool_decide_true by left|].
    rewrite bool_decide_false; [by apply IH|]. intros ->%list_elem_of_singleton. apply Hs. by apply (list_elem_of_fmap_2 fst) in Hin.
Qed.

(** Only four sentinels get a status of their own; an export in progress and
    a refused transition are answered as internal errors under their
    client-side codes. *)
Theorem mapped_statuses r e :
  register_all (service_codes ++ fee_codes ++ swap_codes) no_codes = Some r →
  (MapServiceErrorToResponse r e).1.1 =
    (if Is "ErrNotFound" e then 404 else if Is "ErrDeleted" e then 410 else if Is "ErrForbidden" e then 403 else 500) ∧
  MapServiceErrorToResponse r ["ErrExportInProgress"] = (500, "export/in-progress", "An unexpected error occurred") ∧
  MapServiceErrorToResponse r ["ErrInvalidTransition"] = (500, "subscription/invalid-state-transition", "An unexpected error occurred").
Proof.
  intros Hr. split; [unfold MapServiceErrorToResponse; repeat case_match; done|].
  destruct (register_all_ok (service_codes ++ fee_codes ++ swap_codes) no_codes) as (r' & Hr' & _ & _ & Hf);
    [split; [constructor|done]|apply (bool_decide_unpack _); vm_compute; reflexivity|by intros ? _ ?%elem_of_nil|].
  rewrite Hr in Hr'. injection Hr' as <-. unfold MapServiceErrorToResponse, Lookup. rewrite !Hf. split; vm_compute; reflexivity.
Qed.
End ErrorCodes.

(** ** Reconciliation *)
Module Reconcile.
Import Auth.Roles Pagination.Cursors Reconciliation.
Notation Context := (gmap string ctx_value).

Definition hasAnyPermission (roles : list string) (perm : Permission) : bool := existsb (λ r, HasPermission r perm) roles.
Definition hasRole (roles : list string) (target : string) : bool := existsb (λ r, bool_decide (r = target)) roles.

Inductive response (A : Type) :=
| Unauthorized (msg : string)
| Forbidden (msg : string)
| Invalid (msg : string)
| Internal (msg : string)
| Answer (a : A)
| Panic.
Arguments Unauthorized {_} _.
Arguments Forbidden {_} _.
Arguments Invalid {_} _.
Arguments Internal {_} _.
Arguments Answer {_} _.
Arguments Panic {_}.

(** The caller's tenant and roles; [Err] is the answer to a caller without
    them. *)
Definition caller {A} (c : Context) : result (response A) (string * list string) :=
  match c !! "callerID" with
  | None => Err (Unauthorized "Missing authentication credentials")
  | Some _ =>
      match c !! "tenantID" with
      | None => Err (Unauthorized "Missing tenant context")
      | Some (VString tid) => Ok (tid, ExtractRoles c)
      | Some _ => Err Panic
      end
  end.

Section reconcile.
Context `{GoRuntime} (show_time : Time → string).
Definition with_tenant (tid : string) (b : BackendSubscription) : BackendSubscription :=
  {| bSubscriptionID := bSubscriptionID b; bTenantID := tid; bStatus := bStatus b; bAmount := bAmount b; bCurrency := bCurrency b;
     bInterval := bInterval b; bBalances := bBalances b; UpdatedAt := UpdatedAt b |}.
Definition foreign (tid : string) (b : BackendSubscription) : bool := bool_decide (bTenantID b ≠ "" ∧ bTenantID b ≠ tid).
Definition count_matched (reports : list Report) : Z := Z.of_nat (length (List.filter Matched reports)).

(** The reports that are answered, how many match, and the error of saving
    them, if a store is there and refuses. *)
Record outcome := { reports : list Report; matched : Z; save_error : option string }.
Definition NewReconcileHandler (c : Context) (body : option (list BackendSubscription)) (snaps : result string (list Snapshot))
    (save : option (option string)) (store : list Report) : list Report * response outcome :=
  match caller c with
  | Err r => (store, r)
  | Ok (tid, roles) =>
      if negb (hasAnyPermission roles PermManageReconciliation) then (store, Forbidden "Insufficient permissions for reconciliation")
      else
        let isAdmin := hasRole roles RoleAdmin in
        match body with
        | None => (store, Invalid "Invalid request body")
        | Some subs =>
            if negb isAdmin && existsb (foreign tid) subs
            then (store, Forbidden "Cannot reconcile subscriptions belonging to another tenant")
            else
              let subs := if isAdmin then subs else map (with_tenant tid) subs in
              match snaps with
              | Err _ => (store, Internal "Failed to fetch reconciliation snapshots")
              | Ok snaps =>
                  let snapMap := snap_map (if isAdmin then snaps else List.filter (λ s, bool_decide (cTenantID s = tid)) snaps) in
                  let rs := map (λ b, Compare show_time b (snapMap !! bSubscriptionID b)) subs in
                  let '(store, e) :=
                    match save with
                    | None => (store, None)
                    | Some (Some e) => (store, Some e)
                    | Some None => (SaveReports rs store, None)
                    end in
                  (store, Answer {| reports := rs; matched := count_matched rs; save_error := e |})
              end
        end
  end.

(** The permission to reconcile is that of being an administrator. *)
Lemma manage_is_admin roles : hasAnyPermission roles PermManageReconciliation = hasRole roles RoleAdmin.
Proof.
  unfold hasAnyPermission, hasRole. induction roles as [|r l IH]; [done|]. cbn. rewrite IH. f_equal. unfold HasPermission.
  destruct (rolePermissions !! r) as [ps|] eqn:E.
  - assert ((r, ps) ∈ [(RoleAdmin, [PermReadPlans; PermReadSubscriptions; PermManagePlans; PermManageSubscriptions; PermReadStatements;
        PermManageStatements; PermManageReconciliation; PermReadReconciliation]);
      (RoleMerchant, [PermReadPlans; PermReadSubscriptions; PermManagePlans; PermManageSubscriptions; PermReadStatements;
        PermManageStatements; PermReadReconciliation]);
      (RoleCustomer, [PermReadPlans; PermReadSubscriptions; PermReadStatements]); (RoleUser, [PermReadPlans; PermReadSubscriptions])]) as Hin
      by (by apply elem_of_list_to_map_2).
    repeat (apply elem_of_cons in Hin as [[= -> ->]|Hin]; [reflexivity|]). by apply elem_of_nil in Hin.
  - symmetry. apply bool_decide_eq_false_2. intros ->. vm_compute in E. discriminate.
Qed.

(** Only administrators reconcile: whatever the body, a caller without that
    role is turned away, merchants included, and nothing is saved. An
    administrator gets one report per subscription sent, in order, and these
    are what is saved. *)
Theorem reconcile_admin_only c body snaps save store store' r :
  NewReconcileHandler c body snaps save store = (store', Answer r) →
  hasRole (ExtractRoles c) RoleAdmin = true ∧
  ∃ subs ss, body = Some subs ∧ snaps = Ok ss ∧
    reports r = map (λ b, Compare show_time b (snap_map ss !! bSubscriptionID b)) subs ∧
    store' = (if decide (save = Some None) then store ++ reports r else store)%list.
Proof.
  unfold NewReconcileHandler. destruct (caller c) as [[tid roles]|r0] eqn:Ec; [|unfold caller in Ec; repeat case_match; simplify_eq; done].
  assert (roles = ExtractRoles c) as -> by (unfold caller in Ec; repeat case_match; simplify_eq; done).
  rewrite manage_is_admin. destruct (hasRole (ExtractRoles c) RoleAdmin); [|done]. cbn.
  destruct body as [subs|]; [|done]. destruct snaps as [ss|]; [|done]. intros Hx. split; [done|]. exists subs, ss.
  destruct save as [[e|]|]; simplify_eq; (split_and!; [done|done|done|]); [by rewrite decide_False|by rewrite decide_True|by rewrite decide_False].
Qed.
Theorem merchant_turned_away c body snaps save store :
  is_Some (c !! "callerID") → (∃ t, c !! "tenantID" = Some (VString t)) → hasRole (ExtractRoles c) RoleAdmin = false →
  NewReconcileHandler c body snaps save store = (store, Forbidden "Insufficient permissions for reconciliation").
Proof.
  intros [v Hc] [t Ht] Ha. unfold NewReconcileHandler, caller. rewrite Hc, Ht. by rewrite manage_is_admin, Ha.
Qed.

(** The snapshot is looked up by subscription alone: one of another tenant
    under the same identifier is taken, and if the figures agree the report
    says that they match. *)
Theorem foreign_snapshot_matches tid b s store :
  bSubscriptionID b = cSubscriptionID s → bTenantID b ≠ cTenantID s →
  scalar_mismatches show_time b s = [] → bBalances b = cBalances s →
  ∃ r, NewReconcileHandler {["callerID" := VString "root"; "tenantID" := VString tid; "role" := VRole RoleAdmin]} (Some [b]) (Ok [s]) None store
       = (store, Answer r) ∧ matched r = 1 ∧ (Contract <$> reports r) = [Some s].
Proof.
  intros Hid Ht Hm Hb. unfold NewReconcileHandler, caller. rewrite !lookup_insert_eq. rewrite lookup_insert_ne, lookup_insert_eq by done.
  rewrite manage_is_admin. assert (hasRole (ExtractRoles {["callerID" := VString "root"; "tenantID" := VString tid; "role" := VRole RoleAdmin]}) RoleAdmin = true) as ->.
  { unfold ExtractRoles, rolesFromContext, named_roles. rewrite !lookup_insert_ne by done. rewrite lookup_singleton_ne, lookup_singleton_eq by done. reflexivity. }
  cbn. eexists. split; [done|]. cbn. unfold snap_map. cbn. rewrite Hid, lookup_insert_eq.
  assert (Compare show_time b (Some s) = {| SubscriptionID := bSubscriptionID b; TenantID := bTenantID b; Matched := true; Mismatches := []; Backend := b; Contract := Some s |}) as ->.
  { unfold Compare. rewrite Hm, Hb. destruct (balances_same show_time (cBalances s)) as [-> ->]. done. }
  done.
Qed.
End reconcile.

Section reports.
Context `{!Wire ScopedCursor, !Wire Cursor} (mac : string → string).
Definition report_key (r : Report) : Cursor := {| ID := SubscriptionID r; SortValue := SubscriptionID r |}.
Definition list_limit (raw : string) : Z :=
  let n := default 0 (ParseInt raw) in if decide (n ≤ 0 ∨ 100 < n) then 20 else n.
Record listing := { l_reports : list Report; next_cursor : string; has_more : bool }.
(** [all] and [of_tenant] are what the store answers. *)
Definition NewListReportsHandler (c : Context) (cursorStr limitStr : string) (all : option (list Report))
    (of_tenant : string → option (list Report)) : response listing :=
  match caller c with
  | Err r => r
  | Ok (tid, roles) =>
      if negb (hasAnyPermission roles PermReadReconciliation) then Forbidden "Insufficient permissions to view reports"
      else match DecodeScopedCursor mac cursorStr tid with
      | Err _ => Invalid "Invalid pagination cursor"
      | Ok cursor =>
          match (if hasRole roles RoleAdmin then all else of_tenant tid) with
          | None => Internal "Failed to load reports"
          | Some rs =>
              let page := PaginateSlice report_key rs cursor (list_limit limitStr) in
              let next := if HasMore page then match last (Items page) with
                                             | Some l => EncodeScopedCursor mac (SubscriptionID l) (SubscriptionID l) tid
                                             | None => "" end
                          else "" in
              Answer {| l_reports := Items page; next_cursor := next; has_more := HasMore page |}
          end
      end
  end.

Lemma page_sub (items : list Report) cursor limit x : x ∈ Items (PaginateSlice report_key items cursor limit) → x ∈ items.
Proof.
  assert (∀ l start, x ∈ Items (page_at report_key items l start) → x ∈ items) as H.
  { intros l start Hx. unfold page_at in Hx. cbn in Hx. eapply subseteq_drop, subseteq_take, Hx. }
  unfold PaginateSlice. case_match; [apply H|]. case_match; [apply H|]. by intros ?%elem_of_nil.
Qed.

(** Over the in-memory store, a caller who is not an administrator is shown
    reports of the own tenant only, at most a hundred of them. *)
Theorem reports_scoped c cursorStr limitStr store tid l :
  c !! "tenantID" = Some (VString tid) →
  NewListReportsHandler c cursorStr limitStr (Some (ListReports store)) (λ t, Some (ListReportsByTenant t store)) = Answer l →
  hasRole (ExtractRoles c) RoleAdmin = false →
  (length (l_reports l) ≤ 100)%nat ∧ ∀ r, r ∈ l_reports l → r ∈ store ∧ TenantID r = tid.
Proof.
  intros Ht. unfold NewListReportsHandler, caller. destruct (c !! "callerID"); [|done]. rewrite Ht. destruct (negb _); [done|].
  destruct (DecodeScopedCursor mac cursorStr tid) as [cur|]; [|done]. intros Hx Ha. rewrite Ha in Hx. injection Hx as <-. cbn. split.
  - assert (∀ n items start, (length (Items (page_at report_key items n start)) ≤ n)%nat) as Hp.
    { intros n items start. unfold page_at. cbn. rewrite length_take, length_drop. destruct (negb _) eqn:E; cbn; [lia|].
      apply negb_false_iff, Nat.leb_le in E. lia. }
    assert (Z.to_nat (if (list_limit limitStr <=? 0)%Z then 10 else list_limit limitStr)%Z ≤ 100)%nat as Hl.
    { unfold list_limit. case_decide; destruct (_ <=? 0); lia. }
    revert Hl. unfold PaginateSlice. generalize (Z.to_nat (if list_limit limitStr <=? 0 then 10 else list_limit limitStr)). intros n Hl.
    destruct (_ && _); [by etrans; [apply Hp|]|]. destruct (find_start _ _ _ _); [by etrans; [apply Hp|]|]. cbn. lia.
  - intros r Hr%page_sub. unfold ListReportsByTenant in Hr. apply list_elem_of_In, filter_In in Hr as [Hr%list_elem_of_In ?%bool_decide_eq_true_1]. done.
Qed.

(** Reports are paged by a cursor over the subscription but listed in the
    order they were saved: what comes later in the list and earlier in that
    order is on no page. *)
Theorem saved_order_loses_reports (mk : string → Report) c cursorStr :
  (∀ i, SubscriptionID (mk i) = i) → c !! "callerID" = Some (VString "root") → c !! "tenantID" = Some (VString "t") →
  c !! "role" = Some (VRole RoleAdmin) → c !! "roles" = None →
  DecodeScopedCursor mac cursorStr "t" = Ok {| ID := "b"; SortValue := "b" |} →
  let store := Some [mk "b"; mk "a"; mk "c"] in
  (∃ next, NewListReportsHandler c "" "1" store (λ _, None) = Answer {| l_reports := [mk "b"]; next_cursor := next; has_more := true |} ∧
     next = EncodeScopedCursor mac "b" "b" "t") ∧
  NewListReportsHandler c cursorStr "1" store (λ _, None) = Answer {| l_reports := [mk "c"]; next_cursor := ""; has_more := false |}.
Proof.
  intros Hid Hc Ht Hr Hrs Hd. cbn zeta. unfold NewListReportsHandler, caller. rewrite Hc, Ht.
  assert (ExtractRoles c = [RoleAdmin]) as -> by (unfold ExtractRoles, rolesFromContext, named_roles, RoleContextKey, RolesContextKey; by rewrite Hr, Hrs).
  change (list_limit "1") with 1. rewrite Hd. change (hasAnyPermission [RoleAdmin] PermReadReconciliation) with true.
  change (hasRole [RoleAdmin] RoleAdmin) with true. change (DecodeScopedCursor mac "" "t") with (Ok empty_cursor : result cursor_error Cursor).
  cbn [negb]. split.
  - eexists. split; [|reflexivity].
    change (PaginateSlice report_key [mk "b"; mk "a"; mk "c"] empty_cursor 1) with (page_at report_key [mk "b"; mk "a"; mk "c"] 1 0). cbn. by rewrite Hid.
  - assert (find_start report_key {| ID := "b"; SortValue := "b" |} 0 [mk "b"; mk "a"; mk "c"] = Some 2%nat) as E.
    { cbn [find_start]. unfold report_key. rewrite !Hid. reflexivity. }
    assert (PaginateSlice report_key [mk "b"; mk "a"; mk "c"] {| ID := "b"; SortValue := "b" |} 1 = page_at report_key [mk "b"; mk "a"; mk "c"] 1 2) as ->
      by (unfold PaginateSlice; rewrite E; reflexivity).
    reflexivity.
Qed.
End reports.
End Reconcile.

(** ** Outbox administration *)
Module OutboxAdmin.
Import Outbox.
Section admin.
Context `{GoRuntime} (parse_uuid : string → option UUID).
Definition defaultDeadLetterLimit : Z := 100.
Definition maxDeadLetterLimit : Z := 200.
Definition errRequeueNonFailed : string := "event not found or not in failed status".
Definition text_of (e : repo_error) : string := match e with DatabaseError w | NoRowsAffected w => w end.
Definition isRequeueNonFailed (e : repo_error) : bool := Contains (text_of e) errRequeueNonFailed.

Definition dead_letter_limit (raw : string) : option Z :=
  if decide (raw = "") then Some defaultDeadLetterLimit
  else match ParseInt raw with
  | Some n => if n <=? 0 then None else Some (if maxDeadLetterLimit <? n then maxDeadLetterLimit else n)
  | None => None
  end.
(** The repository is missing when no database is configured. *)
Definition ListDeadLettered (raw : string) (repo : option Database) : option Database * (Z * list Event) :=
  match repo with
  | None => (None, (503, []))
  | Some db =>
      match dead_letter_limit raw with
      | None => (repo, (400, []))
      | Some limit =>
          match ListDeadLetteredEvents limit db with
          | (Ok events, db) => (Some db, (200, events))
          | (Err _, db) => (Some db, (500, []))
          end
      end
  end.
(** The status, and the entry of the audit log. *)
Definition RequeueOutboxEvent (now : Time) (idStr : string) (repo : option Database) : option Database * (Z * list string) :=
  match repo with
  | None => (None, (503, []))
  | Some db =>
      match parse_uuid idStr with
      | None => (repo, (400, []))
      | Some id =>
          match RequeueEvent now id db with
          | (Err e, db) => (Some db, (if isRequeueNonFailed e then 404 else 500, []))
          | (Ok _, db) => (Some db, (204, [idStr]))
          end
      end
  end.

(** An event is put back exactly when it is dead-lettered and the database
    answers: it is then pending with its counters cleared, every other row is
    as it was, one entry is logged, and the same request again is a 404. *)
Theorem requeue_exact now now' idStr id db db' log :
  parse_uuid idStr = Some id → faults db = [] →
  RequeueOutboxEvent now idStr (Some db) = (Some db', (204, log)) →
  ∃ e, outbox_events db !! id = Some e ∧ EventStatus e = StatusFailed ∧
    outbox_events db' = <[id := update_row StatusPending 0 None None now e]> (outbox_events db) ∧ log = [idStr] ∧
    (RequeueOutboxEvent now' idStr (Some db')).2 = (404, []).
Proof.
  intros Hp Hf. unfold RequeueOutboxEvent. rewrite Hp. unfold RequeueEvent, call. rewrite Hf.
  destruct (outbox_events db !! id) as [e|] eqn:Ee; [|done]. destruct (decide (EventStatus e = StatusFailed)) as [Es|Es]; [|done].
  intros [= <- <-]. exists e. split_and!; [done|done|done|done|]. cbn. rewrite Hf, lookup_insert_eq. cbn. done.
Qed.
Theorem requeue_refused now idStr id db :
  parse_uuid idStr = Some id → faults db = [] → (∀ e, outbox_events db !! id = Some e → EventStatus e ≠ StatusFailed) →
  RequeueOutboxEvent now idStr (Some db) = (Some db, (404, [])).
Proof.
  intros Hp Hf Hn. unfold RequeueOutboxEvent. rewrite Hp. unfold RequeueEvent, call. rewrite Hf.
  destruct (outbox_events db !! id) as [e|] eqn:Ee; [|done]. by rewrite decide_False by (by apply Hn).
Qed.
End admin.
End OutboxAdmin.

(** ** Delivery attempts *)
Module DeliveryAttempts.
Import Auth.Roles Publishers.Attempts.
Definition NewWebhookAttemptsHandler `{GoRuntime} (parse_uuid : string → option UUID) (c : gmap string ctx_value) (id : string)
    (log : option (list Attempt)) : Z * list Attempt :=
  match c !! "tenantID" with
  | Some (VString tid) =>
      if decide (tid = "") then (401, [])
      else match parse_uuid id with
      | None => (400, [])
      | Some eventID => match log with Some log => (200, ListAttempts tid eventID log) | None => (500, []) end
      end
  | _ => (401, [])
  end.
(** The attempts shown are those of the event within the caller's tenant. *)
Theorem attempts_of_tenant `{GoRuntime} parse_uuid c id log a st l :
  NewWebhookAttemptsHandler parse_uuid c id (Some log) = (st, l) → a ∈ l →
  ∃ tid eventID, c !! "tenantID" = Some (VString tid) ∧ tid ≠ "" ∧ parse_uuid id = Some eventID ∧
    a ∈ log ∧ a_EventID a = eventID ∧ a_TenantID a = tid.
Proof.
  unfold NewWebhookAttemptsHandler. destruct (c !! "tenantID") as [[| |tid| |]|]; try (intros [= <- <-]; by intros ?%elem_of_nil).
  case_decide as Ht; [intros [= <- <-]; by intros ?%elem_of_nil|]. destruct (parse_uuid id) as [eventID|]; [|intros [= <- <-]; by intros ?%elem_of_nil].
  intros [= <- <-] Ha%ListAttempts_scoped. exists tid, eventID. naive_solver.
Qed.
End DeliveryAttempts.

(** ** Incoming webhooks *)
Module Webhooks.
Import Outbox EventCache.
(** The members of a payload, with their text when they are strings. *)
Notation payload := (gmap string (option string)).
Definition member (p : payload) (k : string) : string := default "" (default None (p !! k)).

Record delivery := { has_store : bool; provider : string; raw_body : string; header_id : string }.
Record reading := { r_has : Time; r_new : Time; r_id : UUID; r_seen : readings }.
Inductive answer :=
| OutboxUnavailable
| InvalidPayload
| MissingIdentifiers
| Deduplicated (id : string)
| CreateFailed
| AlreadyProcessed
| Accepted (id : UUID) (eventType : string).
Definition http_status (a : answer) : Z :=
  match a with
  | OutboxUnavailable => 503
  | InvalidPayload | MissingIdentifiers => 400
  | Deduplicated _ | AlreadyProcessed => 200
  | CreateFailed => 500
  | Accepted _ _ => 202
  end.
Definition event_id (header : string) (p : payload) : string :=
  if decide (header ≠ "") then header else if decide (member p "id" ≠ "") then member p "id" else member p "event_id".
Definition event_type (p : payload) : string := if decide (member p "type" ≠ "") then member p "type" else member p "event_type".

Section receive.
Context (decode : string → option payload) (encode : payload → option string).
Definition Receive (t : reading) (d : delivery) (cache : EventIDCache) (db : Database) : EventIDCache * Database * answer :=
  if negb (has_store d) then (cache, db, OutboxUnavailable)
  else match decode (raw_body d) with
  | None => (cache, db, InvalidPayload)
  | Some p =>
      let id := event_id (header_id d) p in
      if decide (id = "" ∨ provider d = "") then (cache, db, MissingIdentifiers)
      else if Has (r_has t) id cache then (cache, db, Deduplicated id)
      else match encode p with
      | None => (cache, db, CreateFailed)
      | Some data =>
          let event := NewEventWithDeduplication (r_id t) (r_new t) (event_type p) data None None (Some id) in
          match Store event db with
          | (Err _, db) => (cache, db, AlreadyProcessed)
          | (Ok _, db) => ((CheckAndStore (r_seen t) id cache).1, db, Accepted (r_id t) (event_type p))
          end
      end
  end.

(** The rows recorded for an identifier. *)
Definition recorded (id : string) (db : Database) : Prop := ∃ k e, outbox_events db !! k = Some e ∧ DeduplicationID e = Some id.
Lemma duplicate_recorded e id m : DeduplicationID e = Some id → (∃ k r, m !! k = Some r ∧ DeduplicationID r = Some id) → duplicate e m = true.
Proof.
  intros He (k & r & Hk & Hr). unfold duplicate. rewrite He. apply orb_true_intro. right. apply any_true. exists (k, r).
  split; [by apply elem_of_map_to_list|]. cbn. by apply bool_decide_eq_true_2.
Qed.
Lemma Store_keeps e db r db' id : Store e db = (r, db') → recorded id db → recorded id db'.
Proof.
  unfold Store, call. intros Hs (k & x & Hk & Hx).
  assert (∀ fs d, (if duplicate e (outbox_events d) then (Err (DatabaseError "failed to store outbox event"), set_faults fs d)
             else (Ok tt, set_events (<[Outbox.ID e := scanEvent e]> (outbox_events d)) (set_faults fs d))) = (r, db') →
             outbox_events d !! k = Some x → recorded id db') as Hq.
  { intros fs d. destruct (duplicate e (outbox_events d)) eqn:Ed; intros [= <- <-] Hd; [by exists k, x|]. exists k, x. split; [|done]. cbn.
    rewrite lookup_insert_ne; [done|]. intros <-. unfold duplicate in Ed. rewrite Hd in Ed. rewrite bool_decide_true in Ed by eauto. done. }
  destruct (faults db) as [|[|] fs] eqn:Ef.
  - destruct (duplicate e (outbox_events db)) eqn:Ed; [injection Hs as <- <-; by exists k, x|]. apply (Hq [] db); [|done]. rewrite Ed.
    destruct db. cbn in *. subst. done.
  - injection Hs as <- <-. by exists k, x.
  - by apply (Hq fs db).
Qed.
Lemma Store_recorded e db id db' : DeduplicationID e = Some id → Store e db = (Ok tt, db') → recorded id db' ∧ ¬ recorded id db.
Proof.
  intros He. unfold Store, call.
  assert (∀ d d', (if duplicate e (outbox_events d) then (Err (DatabaseError "failed to store outbox event"), d)
             else (Ok tt, set_events (<[Outbox.ID e := scanEvent e]> (outbox_events d)) d)) = (Ok tt, d') → outbox_events d = outbox_events db →
             recorded id d' ∧ ¬ recorded id db) as Hq.
  { intros d d'. destruct (duplicate e (outbox_events d)) eqn:Ed; [done|]. intros [= <-] Hd. split.
    - exists (Outbox.ID e), (scanEvent e). cbn. by rewrite lookup_insert_eq.
    - intros Hr. rewrite Hd in Ed. rewrite (duplicate_recorded e id) in Ed; done. }
  destruct (faults db) as [|[|] fs] eqn:Ef; [|done|]; intros Hs; eapply Hq; eauto.
Qed.

Fixpoint receive_all (l : list (reading * delivery)) (cache : EventIDCache) (db : Database) : Database * list (string * answer) :=
  match l with
  | [] => (db, [])
  | (t, d) :: l =>
      let '(cache, db, a) := Receive t d cache db in
      let '(db', rest) := receive_all l cache db in
      (db', (match decode (raw_body d) with Some p => event_id (header_id d) p | None => "" end, a) :: rest)
  end.
Definition accepted (id : string) (x : string * answer) : bool :=
  bool_decide (x.1 = id) && match x.2 with Accepted _ _ => true | _ => false end.
Definition accepts (id : string) (l : list (string * answer)) : nat := length (List.filter (accepted id) l).

Lemma accepts_cons id x a l :
  accepts id ((x, a) :: l) = ((match a with Accepted _ _ => if decide (x = id) then 1 else 0 | _ => 0 end) + accepts id l)%nat.
Proof.
  unfold accepts. cbn. unfold accepted at 1. cbn. destruct a; rewrite ?andb_false_r; try done. rewrite andb_true_r.
  case_decide; [by rewrite bool_decide_true|by rewrite bool_decide_false].
Qed.

Lemma Receive_keeps t d cache db cache' db' a id : Receive t d cache db = (cache', db', a) → recorded id db → recorded id db'.
Proof.
  unfold Receive. destruct (negb _); [by intros [= <- <- <-]|]. destruct (decode _) as [p|]; [|by intros [= <- <- <-]].
  case_decide; [by intros [= <- <- <-]|]. destruct (Has _ _ _); [by intros [= <- <- <-]|]. destruct (encode p) as [data|]; [|by intros [= <- <- <-]].
  destruct (Store _ db) as [[[]|e] db1] eqn:Es; intros [= <- <- <-]; by eapply Store_keeps.
Qed.
Lemma Receive_accepts t d cache db cache' db' i ty :
  Receive t d cache db = (cache', db', Accepted i ty) →
  ∃ p, decode (raw_body d) = Some p ∧ recorded (event_id (header_id d) p) db' ∧ ¬ recorded (event_id (header_id d) p) db.
Proof.
  unfold Receive. destruct (negb _); [done|]. destruct (decode _) as [p|]; [|done]. case_decide; [done|]. destruct (Has _ _ _); [done|].
  destruct (encode p) as [data|]; [|done]. destruct (Store _ db) as [[[]|e] db1] eqn:Es; [|done]. intros [= <- <- <- <-]. exists p. split; [done|].
  by eapply Store_recorded in Es.
Qed.

(** C8: over any deliveries, repeated or not, with any failures of the database
    and whatever the cache has forgotten, an event is accepted at most once,
    and what was accepted is in the outbox. *)
Theorem webhook_accepted_once l cache db db' answers id :
  receive_all l cache db = (db', answers) →
  (accepts id answers ≤ 1)%nat ∧ (accepts id answers = 1%nat → ¬ recorded id db ∧ recorded id db').
Proof.
  revert cache db db' answers. induction l as [|[t d] l IH]; intros cache db db' answers; cbn; [intros [= <- <-]; cbn; split; [lia|done]|].
  destruct (Receive t d cache db) as [[cache1 db1] a] eqn:Er. destruct (receive_all l cache1 db1) as [db2 rest] eqn:El. intros [= <- <-].
  destruct (IH _ _ _ _ El) as [Hle Hin].
  assert (∀ l c x y z, receive_all l c x = (y, z) → recorded id x → recorded id y ∧ accepts id z = 0%nat) as Hkeep.
  { clear. induction l as [|[t d] l IH]; intros c x y z; cbn; [by intros [= <- <-]|].
    destruct (Receive t d c x) as [[c1 x1] a] eqn:Er. destruct (receive_all l c1 x1) as [y1 z1] eqn:El. intros [= <- <-] Hx.
    destruct (IH _ _ _ _ El) as [Hy Hz]; [by eapply Receive_keeps|]. split; [done|]. rewrite accepts_cons, Hz.
    destruct a as [| | | | | |i ty]; try done. apply Receive_accepts in Er as (p & -> & _ & Hn). rewrite decide_False; [done|]. intros <-. done. }
  rewrite accepts_cons. destruct a as [| | | | | |i ty]; cbn;
    try (split; [done|]; intros Hone; destruct (Hin Hone) as [Hn Hr]; split; [|done]; intros Hx; apply Hn; by eapply Receive_keeps).
  destruct (Receive_accepts _ _ _ _ _ _ _ _ Er) as (p & Hp & Hr1 & Hn1). rewrite Hp. case_decide as Hid; cbn.
  - subst id. destruct (Hkeep _ _ _ _ _ El Hr1) as [Hr2 Hz]. rewrite Hz. split; [lia|]. done.
  - split; [done|]. intros Hone. destruct (Hin Hone) as [Hn Hr]. split; [|done]. intros Hx. apply Hn. by eapply Receive_keeps.
Qed.

(** A database that fails is reported as an event that was processed: the
    provider is told 200, nothing is recorded, and it will not deliver the
    event again. *)
Theorem failed_store_acknowledged t d cache db p data fs :
  has_store d = true → decode (raw_body d) = Some p → event_id (header_id d) p ≠ "" → provider d ≠ "" →
  Has (r_has t) (event_id (header_id d) p) cache = false → encode p = Some data → faults db = true :: fs →
  ∃ db', Receive t d cache db = (cache, db', AlreadyProcessed) ∧ outbox_events db' = outbox_events db ∧ http_status AlreadyProcessed = 200.
Proof.
  intros Hs Hp Hid Hpr Hh He Hf. unfold Receive. rewrite Hs, Hp. cbn. rewrite decide_False by (intros [?|?]; done). rewrite Hh, He.
  unfold Store, call. rewrite Hf. eauto.
Qed.
End receive.

Definition any_decode (s : string) : option payload := if decide (s = "bad") then None else Some {["id" := Some s; "type" := Some "invoice.paid"]}.
Definition any_encode (p : payload) : option string := Some "{}".
Definition hook (s : string) : delivery := {| has_store := true; provider := "stripe"; raw_body := s; header_id := "" |}.
Definition at_ (n : Z) : reading := {| r_has := n; r_new := n; r_id := n; r_seen := {| t_clean := n; t_check := n; t_store := n |} |}.
Definition failing : Database := {| outbox_events := ∅; outbox_publisher_progress := ∅; faults := [true] |}.
(** The first attempt meets a failure, the second succeeds, the third is long
    after the cache has forgotten it. *)
Lemma webhook_accepted_once_witness :
  ∃ db answers, receive_all any_decode any_encode [(at_ 1, hook "evt_1"); (at_ 2, hook "evt_1"); (at_ (10 * Time.Hour), hook "evt_1")]
      (NewEventIDCache (5 * Time.Minute)) failing = (db, answers) ∧
    answers.*2 = [AlreadyProcessed; Accepted 2 "invoice.paid"; AlreadyProcessed] ∧
    (accepts "evt_1" answers ≤ 1)%nat ∧ (accepts "evt_1" answers = 1%nat → ¬ recorded "evt_1" failing ∧ recorded "evt_1" db).
Proof.
  destruct (receive_all any_decode any_encode [(at_ 1, hook "evt_1"); (at_ 2, hook "evt_1"); (at_ (10 * Time.Hour), hook "evt_1")]
      (NewEventIDCache (5 * Time.Minute)) failing) as [db answers] eqn:E.
  exists db, answers. split; [done|]. split; [by (vm_compute in E; injection E as <- <-)|]. exact (webhook_accepted_once any_decode any_encode _ _ _ _ _ "evt_1" E).
Defined.
End Webhooks.

(** ** Feature flags *)
Module Flags.
Import FeatureFlags.
Definition sensitiveKeys : list string := ["token"; "password"; "key"; "auth"; "cvv"; "card"].
Definition boolToString (b : bool) : string := if b then "true" else "false".
(** A request is the flag and the reason; [None] is a body without either.
    The answer carries the flag and the audit entry. *)
Inductive toggle_answer := BadBody | NoFlag | Conflict | Toggled (f : option Flag) (before after reason : string).
Definition ToggleFeatureFlag (version now : Z) (req : option (string * string)) (m : Manager) : Manager * toggle_answer :=
  match req with
  | None => (m, BadBody)
  | Some (name, reason) =>
      match GetFlag m name with
      | None => (m, NoFlag)
      | Some flag =>
          let '(m', ok) := SetFlagWithVersion now name (negb (Enabled flag)) (Description flag) version m in
          if negb ok then (m, Conflict)
          else
            let sensitive := existsb (λ k, Contains (ToLower name) k) sensitiveKeys in
            (m', Toggled (GetFlag m' name) (if sensitive then "[REDACTED]" else boolToString (Enabled flag))
                   (if sensitive then "[REDACTED]" else boolToString (negb (Enabled flag))) reason)
      end
  end.

(** A toggle flips the one flag and nothing else, and twice is as before but
    for the version and the time. *)
Theorem toggle_twice v1 n1 v2 n2 name reason m m1 m2 a1 a2 :
  ToggleFeatureFlag v1 n1 (Some (name, reason)) m = (m1, a1) → ToggleFeatureFlag v2 n2 (Some (name, reason)) m1 = (m2, a2) →
  (∃ f b a, a1 = Toggled f b a reason) → v1 < v2 →
  ∃ f f2, GetFlag m name = Some f ∧ GetFlag m2 name = Some f2 ∧ Enabled f2 = Enabled f ∧ Description f2 = Description f ∧ Name f2 = Name f ∧
    (∀ other, other ≠ name → GetFlag m2 other = GetFlag m other).
Proof.
  unfold ToggleFeatureFlag. destruct (GetFlag m name) as [f|] eqn:Ef; [|intros [= <- <-] _ (? & ? & ? & ?); done].
  unfold SetFlagWithVersion, GetFlag in *. rewrite Ef. destruct (v1 <=? Version f) eqn:Ev; cbn; [intros [= <- <-] _ (? & ? & ? & ?); done|].
  intros [= <- <-]. cbn. rewrite lookup_insert_eq. cbn. intros H2 _ Hv. exists f.
  rewrite (proj2 (Z.leb_gt v2 v1)) in H2 by lia. cbn in H2. injection H2 as <- _.
  eexists. split; [done|]. cbn. rewrite lookup_insert_eq. split; [done|]. cbn. split_and!.
  - by rewrite negb_involutive.
  - by destruct (decide (Description f = "")) as [->|]; repeat case_decide.
  - done.
  - intros other Ho. by rewrite !lookup_insert_ne.
Qed.
End Flags.
