(* ===== verification/DeployLint.v ===== *)
(** * Checks of the release artefacts

    Models [internal/deploylint/deploylint.go]: the validation of the image
    admission policy ([Policy]), of the release workflow ([Workflow]) and of
    the build provenance ([Provenance]). YAML and JSON decoding are
    parameters; the documents are the structures the package decodes into,
    with the fields the checks never read left out. *)
From Stdlib Require Import ZArith Lia Ascii String.
From stdpp Require Import base gmap strings list.
From S2P Require Import Prelude GoStrings.
#[local] Open Scope string_scope.
#[local] Open Scope Z_scope.

(** A value of a document that was not given a type: text, or anything else
    with the text [%v] gives it. *)
Inductive any_value := AString (s : string) | AOther (shown : string) | ANil.
Definition asString (v : any_value) : string := match v with AString s | AOther s => s | ANil => "" end.

(** The first error of a list of checks. *)
Fixpoint first_error {E} (l : list (option E)) : option E :=
  match l with [] => None | Some e :: _ => Some e | None :: l => first_error l end.
Lemma first_error_None {E} (l : list (option E)) : first_error l = None ↔ Forall (λ o, o = None) l.
Proof.
  induction l as [|[e|] l IH]; cbn; [split; [constructor|done]| |].
  - split; [done|]. intros H. by inversion H.
  - rewrite IH. split; [by constructor|]. intros H. by inversion H.
Qed.
(** The same over the elements of a list, each with its index. *)
Definition check_all {A E} (check : nat → A → option E) (l : list A) : option E := first_error (imap check l).
Lemma check_all_None {A E} (check : nat → A → option E) (l : list A) :
  check_all check l = None ↔ ∀ i x, l !! i = Some x → check i x = None.
Proof.
  unfold check_all. rewrite first_error_None, Forall_lookup. split.
  - intros H i x Hi. apply (H i). by rewrite list_lookup_imap, Hi.
  - intros H i o. rewrite list_lookup_imap. destruct (l !! i) as [x|] eqn:E1; [|done]. cbn. intros [= <-]. by apply H.
Qed.
(** One condition and its error. *)
Definition require {E} (c : bool) (e : E) : option E := if c then None else Some e.
Lemma require_None {E} (c : bool) (e : E) : require c e = None ↔ c = true.
Proof. by destruct c. Qed.

(** ** Admission policy *)
Module Policy.
Record kyvernoKeyless := { Subject : string; Issuer : string }.
Record kyvernoAttestor := { Count : Z; Entries : list (option kyvernoKeyless) }.
Record kyvernoAttest := { PredicateType : string; a_Attestors : list kyvernoAttestor }.
Record verifyImagesEntry := {
  ImageReferences : list string;
  Required : bool;
  VerifyDigest : bool;
  Attestors : list kyvernoAttestor;
  Attestations : list kyvernoAttest;
}.
Record kyvernoRule := { RuleName : string; VerifyImages : list verifyImagesEntry }.
Record KyvernoPolicy := {
  APIVersion : string;
  Kind : string;
  Metadata : gmap string any_value;
  ValidationFailureAction : string;
  Rules : list kyvernoRule;
}.

(** The errors, with the place they name. *)
Record place := { p_rule : nat; p_entry : nat; p_where : string; p_attestor : nat; p_key : nat }.
Inductive lint_error :=
| EmptyDocument
| ParseFailed (e : string)
| BadAPIVersion (v : string)
| BadKind (k : string)
| NoName
| NoAction
| BadAction (a : string)
| NoRules
| RuleNoName (i : nat)
| RuleNoImages (i : nat)
| NoReferences (i j : nat)
| ForeignReference (ref : string)
| NotCovered (i j : nat)
| NotRequired (i j : nat)
| NoDigest (i j : nat)
| NoAttestors (i j : nat)
| NoAttestations (i j : nat)
| BadPredicate (i j k : nat)
| CountTooSmall (p : place)
| NoEntries (p : place)
| NotKeyless (p : place)
| BadIssuer (p : place)
| NoSubject (p : place)
| BadSubject (p : place)
| WildcardOrg (p : place).

Definition githubIssuer : string := "https://token.actions.githubusercontent.com".
Definition workflowPath : string := "/stellabill-backend/.github/workflows/release.yml".
Definition provenanceType : string := "https://slsa.dev/provenance/v1".

Definition validateEntry (p : place) (ent : option kyvernoKeyless) : option lint_error :=
  match ent with
  | None => Some (NotKeyless p)
  | Some k =>
      first_error [require (bool_decide (Issuer k = githubIssuer)) (BadIssuer p);
                   require (negb (bool_decide (Subject k = ""))) (NoSubject p);
                   require (Contains (Subject k) workflowPath) (BadSubject p);
                   require (negb (Contains (Subject k) "github.com/.*/stellabill-backend" || Contains (Subject k) "github.com/.+/stellabill-backend"))
                     (WildcardOrg p)]
  end.
Definition validateAttestors (i j : nat) (where_ : string) (l : list kyvernoAttestor) : option lint_error :=
  check_all (λ k at_,
    let p e := {| p_rule := i; p_entry := j; p_where := where_; p_attestor := k; p_key := e |} in
    first_error [require (1 <=? Count at_) (CountTooSmall (p 0%nat)); require (negb (bool_decide (Entries at_ = []))) (NoEntries (p 0%nat));
                 check_all (λ e, validateEntry (p e)) (Entries at_)]) l.
Definition validateReferences (i j : nat) (refs : list string) : option lint_error :=
  first_error [check_all (λ _ ref, require (HasPrefix ref "ghcr.io/") (ForeignReference ref)) refs;
               require (existsb (λ ref, HasPrefix (ToLower ref) "ghcr.io/stellabill/") refs) (NotCovered i j)].
Definition validateVerifyImages (i j : nat) (vi : verifyImagesEntry) : option lint_error :=
  first_error [require (negb (bool_decide (ImageReferences vi = []))) (NoReferences i j);
               validateReferences i j (ImageReferences vi);
               require (Required vi) (NotRequired i j);
               require (VerifyDigest vi) (NoDigest i j);
               require (negb (bool_decide (Attestors vi = []))) (NoAttestors i j);
               validateAttestors i j "attestors" (Attestors vi);
               require (negb (bool_decide (Attestations vi = []))) (NoAttestations i j);
               check_all (λ k att,
                 first_error [require (bool_decide (PredicateType att = provenanceType)) (BadPredicate i j k);
                              validateAttestors i j ("attestations[" +:+ Itoa (Z.of_nat k) +:+ "].attestors") (a_Attestors att)]) (Attestations vi)].
Definition validateRule (i : nat) (rule : kyvernoRule) : option lint_error :=
  first_error [require (negb (bool_decide (RuleName rule = ""))) (RuleNoName i);
               require (negb (bool_decide (VerifyImages rule = []))) (RuleNoImages i);
               check_all (validateVerifyImages i) (VerifyImages rule)].
Definition validatePolicy (p : KyvernoPolicy) : option lint_error :=
  first_error [require (bool_decide (APIVersion p = "kyverno.io/v1" ∨ APIVersion p = "kyverno.io/v2")) (BadAPIVersion (APIVersion p));
               require (bool_decide (Kind p = "ClusterPolicy")) (BadKind (Kind p));
               require (match Metadata p !! "name" with Some (AString s) => negb (bool_decide (s = "")) | _ => false end) NoName;
               require (negb (bool_decide (ValidationFailureAction p = ""))) NoAction;
               require (bool_decide (ValidationFailureAction p = "Enforce" ∨ ValidationFailureAction p = "Audit")) (BadAction (ValidationFailureAction p));
               require (negb (bool_decide (Rules p = []))) NoRules;
               check_all validateRule (Rules p)].
Definition ValidateKyvernoPolicy (parse : string → result string KyvernoPolicy) (data : string) : option lint_error :=
  if decide (data = "") then Some EmptyDocument
  else match parse data with Err e => Some (ParseFailed e) | Ok p => validatePolicy p end.

(** What an accepted policy is. *)
Definition key_ok (ent : option kyvernoKeyless) : Prop :=
  ∃ k, ent = Some k ∧ Issuer k = githubIssuer ∧ Contains (Subject k) workflowPath = true ∧
    Contains (Subject k) "github.com/.*/stellabill-backend" = false ∧ Contains (Subject k) "github.com/.+/stellabill-backend" = false.
Definition attestor_ok (a : kyvernoAttestor) : Prop := 1 ≤ Count a ∧ Entries a ≠ [] ∧ ∀ e, e ∈ Entries a → key_ok e.
Definition images_ok (vi : verifyImagesEntry) : Prop :=
  (∃ ref, ref ∈ ImageReferences vi ∧ HasPrefix (ToLower ref) "ghcr.io/stellabill/" = true) ∧
  (∀ ref, ref ∈ ImageReferences vi → HasPrefix ref "ghcr.io/" = true) ∧
  Required vi = true ∧ VerifyDigest vi = true ∧ Attestors vi ≠ [] ∧ (∀ a, a ∈ Attestors vi → attestor_ok a) ∧
  Attestations vi ≠ [] ∧ (∀ t, t ∈ Attestations vi → PredicateType t = provenanceType ∧ ∀ a, a ∈ a_Attestors t → attestor_ok a).
Definition rule_ok (r : kyvernoRule) : Prop := RuleName r ≠ "" ∧ VerifyImages r ≠ [] ∧ ∀ vi, vi ∈ VerifyImages r → images_ok vi.
Definition policy_ok (p : KyvernoPolicy) : Prop :=
  (APIVersion p = "kyverno.io/v1" ∨ APIVersion p = "kyverno.io/v2") ∧ Kind p = "ClusterPolicy" ∧
  (∃ n, Metadata p !! "name" = Some (AString n) ∧ n ≠ "") ∧
  (ValidationFailureAction p = "Enforce" ∨ ValidationFailureAction p = "Audit") ∧ Rules p ≠ [] ∧
  (∀ r, r ∈ Rules p → rule_ok r).

Lemma all_elems {A} (l : list A) (P : A → Prop) : (∀ i x, l !! i = Some x → P x) ↔ ∀ x, x ∈ l → P x.
Proof. setoid_rewrite list_elem_of_lookup. naive_solver. Qed.
Lemma first_error_cons {E} (o : option E) l : first_error (o :: l) = None ↔ o = None ∧ first_error l = None.
Proof. destruct o; cbn; naive_solver. Qed.
Lemma first_error_nil {E} : first_error (E := E) [] = None ↔ True.
Proof. done. Qed.
Lemma negb_decide (P : Prop) `{!Decision P} : negb (bool_decide P) = true ↔ ¬ P.
Proof. rewrite negb_true_iff. apply bool_decide_eq_false. Qed.
Hint Rewrite @first_error_cons @first_error_nil @require_None @negb_decide @bool_decide_eq_true Z.leb_le : lint.

Lemma validateEntry_ok p e : validateEntry p e = None ↔ key_ok e.
Proof.
  unfold validateEntry, key_ok. destruct e as [k|]; [|split; [done|by intros (? & ? & _)]]. autorewrite with lint.
  rewrite negb_true_iff, orb_false_iff. split; [intros (? & ? & ? & (? & ?) & _); eauto 10|]. intros (k' & Ek & ? & Hc & ? & ?). simplify_eq. split_and!; try done.
  intros Hs. rewrite Hs in Hc. by vm_compute in Hc.
Qed.
Lemma validateAttestors_ok i j w l : validateAttestors i j w l = None ↔ ∀ a, a ∈ l → attestor_ok a.
Proof.
  unfold validateAttestors. rewrite check_all_None. rewrite <- all_elems. apply forall_proper. intros k. apply forall_proper. intros a.
  apply forall_proper. intros _. autorewrite with lint. rewrite check_all_None. setoid_rewrite validateEntry_ok. rewrite all_elems. unfold attestor_ok. naive_solver.
Qed.
Lemma validateReferences_ok i j refs : validateReferences i j refs = None ↔
  (∀ ref, ref ∈ refs → HasPrefix ref "ghcr.io/" = true) ∧ ∃ ref, ref ∈ refs ∧ HasPrefix (ToLower ref) "ghcr.io/stellabill/" = true.
Proof.
  unfold validateReferences. autorewrite with lint. rewrite check_all_None. setoid_rewrite require_None. rewrite all_elems, existsb_exists.
  setoid_rewrite <- list_elem_of_In. naive_solver.
Qed.
Lemma validateVerifyImages_ok i j vi : validateVerifyImages i j vi = None ↔ images_ok vi.
Proof.
  unfold validateVerifyImages, images_ok. autorewrite with lint. rewrite validateReferences_ok, validateAttestors_ok, check_all_None.
  assert ((∀ k att, Attestations vi !! k = Some att →
      first_error [require (bool_decide (PredicateType att = provenanceType)) (BadPredicate i j k);
        validateAttestors i j ("attestations[" +:+ Itoa (Z.of_nat k) +:+ "].attestors") (a_Attestors att)] = None) ↔
    ∀ t, t ∈ Attestations vi → PredicateType t = provenanceType ∧ ∀ a, a ∈ a_Attestors t → attestor_ok a) as ->.
  { rewrite <- all_elems. apply forall_proper. intros k. apply forall_proper. intros t. apply forall_proper. intros _.
    autorewrite with lint. rewrite validateAttestors_ok. naive_solver. }
  split; [naive_solver|]. intros ((ref & Hr & Hp) & H2 & H3 & H4 & H5 & H6 & H7 & H8). split_and!; try done; [|by eauto].
  intros Hn. rewrite Hn in Hr. by apply elem_of_nil in Hr.
Qed.

Lemma validateRule_ok i r : validateRule i r = None ↔ rule_ok r.
Proof.
  unfold validateRule, rule_ok. autorewrite with lint. rewrite check_all_None. setoid_rewrite validateVerifyImages_ok. rewrite all_elems. naive_solver.
Qed.

(** A policy is accepted exactly when it enforces or audits, and every rule
    verifies images of this organisation by digest, with at least one
    attestor, each of whose keys is GitHub's for a subject that names the
    release workflow and no wildcard organisation, and with an attestation of
    provenance. *)
Theorem policy_accepted_iff p : validatePolicy p = None ↔ policy_ok p.
Proof.
  unfold validatePolicy, policy_ok. autorewrite with lint. rewrite check_all_None.
  setoid_rewrite validateRule_ok. rewrite (all_elems (Rules p) rule_ok).
  assert (match Metadata p !! "name" with Some (AString s) => negb (bool_decide (s = "")) | _ => false end = true ↔
    ∃ n, Metadata p !! "name" = Some (AString n) ∧ n ≠ "") as ->.
  { destruct (Metadata p !! "name") as [[s|s|]|]; [|split; [done|by intros (? & ? & _)]..]. rewrite negb_decide. split; [eauto|]. intros (? & ? & ?); simplify_eq; done. }
  split; [naive_solver|]. intros (H1 & H2 & H3 & H4 & H5 & H6). split_and!; try done. destruct H4 as [-> | ->]; done.
Qed.

Definition released (subject : string) (keys : list kyvernoAttestor) : KyvernoPolicy :=
  {| APIVersion := "kyverno.io/v1"; Kind := "ClusterPolicy"; Metadata := {["name" := AString "verify-images"]};
     ValidationFailureAction := "Enforce";
     Rules := [{| RuleName := "verify"; VerifyImages :=
       [{| ImageReferences := ["ghcr.io/stellabill/*"]; Required := true; VerifyDigest := true;
           Attestors := [{| Count := 1; Entries := [Some {| Subject := subject; Issuer := githubIssuer |}] |}];
           Attestations := [{| PredicateType := provenanceType; a_Attestors := keys |}] |}] |}] |}.
Definition own : list kyvernoAttestor :=
  [{| Count := 1; Entries := [Some {| Subject := "https://github.com/Stellabill/stellabill-backend/.github/workflows/release.yml@refs/tags/v1"; Issuer := githubIssuer |}] |}].
(** The organisation is not pinned: another one's repository of the same name
    is accepted, and so is a wildcard written in another way; and the
    provenance may come without any signer at all. *)
Theorem organisation_not_pinned :
  validatePolicy (released "https://github.com/mallory/stellabill-backend/.github/workflows/release.yml@.*" own) = None ∧
  validatePolicy (released "https://github.com/[^/]+/stellabill-backend/.github/workflows/release.yml@.*" own) = None ∧
  validatePolicy (released "https://github.com/.*/stellabill-backend/.github/workflows/release.yml@.*" own) ≠ None ∧
  validatePolicy (released "https://github.com/Stellabill/stellabill-backend/.github/workflows/release.yml@.*" []) = None.
Proof. split_and!; vm_compute; congruence. Qed.
End Policy.

(** ** Release workflow *)
Module Workflow.
Record gitHubStep := { StepName : string; Uses : string; Run : string }.
Record gitHubJob := { JobName : string; Permissions : gmap string any_value; Steps : list gitHubStep }.
Record GitHubWorkflow := { WorkflowName : string; Jobs : gmap string gitHubJob }.
Inductive workflow_error := EmptyWorkflow | WorkflowParse (e : string) | NoWorkflowName | NoJobs | NoIdToken (job : string) | BadIdToken (job v : string) | BadPackages (job v : string).

Definition isSigningJob (name : string) (steps : list gitHubStep) : bool :=
  Contains (ToLower name) "sign" ||
  existsb (λ s, let hay := ToLower (StepName s +:+ " " +:+ Run s +:+ " " +:+ Uses s) in
                Contains hay "cosign sign" || Contains hay "cosign attest") steps.
Definition jobPermissions (perms : gmap string any_value) (key : string) : option string :=
  match perms !! key with Some (AString s) => Some s | Some (AOther s) => Some s | Some ANil => Some "<nil>" | None => None end.
Definition validateJob (kv : string * gitHubJob) : option workflow_error :=
  let '(jobName, job) := kv in
  if negb (isSigningJob (JobName job) (Steps job)) then None
  else match jobPermissions (Permissions job) "id-token" with
  | None => Some (NoIdToken jobName)
  | Some v =>
      if decide (v ≠ "write") then Some (BadIdToken jobName v)
      else match jobPermissions (Permissions job) "packages" with
      | Some v => if decide (v ≠ "write") then Some (BadPackages jobName v) else None
      | None => None
      end
  end.
Definition validateWorkflow `{GoRuntime} (wf : GitHubWorkflow) : option workflow_error :=
  if decide (WorkflowName wf = "") then Some NoWorkflowName
  else if decide (Jobs wf = ∅) then Some NoJobs
  else first_error (map validateJob (map_range (Jobs wf))).
Definition ValidateGitHubWorkflow `{GoRuntime} (parse : string → result string GitHubWorkflow) (data : string) : option workflow_error :=
  if decide (data = "") then Some EmptyWorkflow
  else match parse data with Err e => Some (WorkflowParse e) | Ok wf => validateWorkflow wf end.

(** Whatever order the jobs are visited in, a workflow is accepted exactly
    when each job that signs may write identity tokens, and packages if it
    says anything of them. *)
Theorem workflow_accepted_iff `{GoRuntime} wf :
  validateWorkflow wf = None ↔
  WorkflowName wf ≠ "" ∧ Jobs wf ≠ ∅ ∧
  ∀ k job, Jobs wf !! k = Some job → isSigningJob (JobName job) (Steps job) = true →
    jobPermissions (Permissions job) "id-token" = Some "write" ∧
    (jobPermissions (Permissions job) "packages" = None ∨ jobPermissions (Permissions job) "packages" = Some "write").
Proof.
  unfold validateWorkflow. case_decide; [naive_solver|]. case_decide; [naive_solver|]. rewrite first_error_None, Forall_map, Forall_forall.
  assert (∀ kv, validateJob kv = None ↔ (isSigningJob (JobName kv.2) (Steps kv.2) = true →
    jobPermissions (Permissions kv.2) "id-token" = Some "write" ∧
    (jobPermissions (Permissions kv.2) "packages" = None ∨ jobPermissions (Permissions kv.2) "packages" = Some "write"))) as Hj.
  { intros [k job]. cbn. destruct (isSigningJob _ _); cbn; [|naive_solver]. destruct (jobPermissions _ "id-token") as [v|]; [|naive_solver].
    case_decide as E1; [naive_solver|]. destruct (jobPermissions _ "packages") as [v2|]; [|naive_solver]. case_decide as E2; naive_solver. }
  assert (∀ kv, kv ∈ map_range (Jobs wf) ↔ Jobs wf !! kv.1 = Some kv.2) as Hm.
  { intros [k job]. rewrite map_range_perm. apply elem_of_map_to_list. }
  setoid_rewrite Hj. setoid_rewrite Hm. split; [|naive_solver]. intros Hall. split_and!; try done.
  intros k job Hk. by apply (Hall (k, job)).
Qed.
End Workflow.

(** ** Build provenance *)
Module Provenance.
Record slsaSubject := { Name : string; Digest : gmap string any_value }.
Record SLSAProvenance := {
  Type_ : string;
  PredicateType : string;
  Subject : list slsaSubject;
  BuildType : string;
  Builder : gmap string any_value;
  Metadata : gmap string any_value;
}.
Inductive provenance_error :=
  EmptyProvenance | ProvenanceParse (e : string) | BadType | BadPredicateType | SubjectCount (n : nat) | NoSubjectName | NoDigest | DigestLength (n : nat) | DigestChars | NoBuildType | NoBuilder | NoInvocation.
Definition isLowerHex (c : ascii) : bool := let n := code c in ((48 <=? n) && (n <=? 57)) || ((97 <=? n) && (n <=? 102)).
Definition present (m : gmap string any_value) (k : string) : bool :=
  match m !! k with Some v => negb (bool_decide (asString v = "")) | None => false end.
Definition checkProvenance (p : SLSAProvenance) : option provenance_error :=
  if decide (Type_ p ≠ "https://in-toto.io/Statement/v1") then Some BadType
  else if decide (PredicateType p ≠ "https://slsa.dev/provenance/v1") then Some BadPredicateType
  else match Subject p with
  | [s] =>
      if decide (Name s = "") then Some NoSubjectName
      else match Digest s !! "sha256" with
      | Some (AString sha) =>
          if decide (sha = "") then Some NoDigest
          else if decide (String.length sha ≠ 64%nat) then Some (DigestLength (String.length sha))
          else if negb (forallb isLowerHex (list_ascii_of_string sha)) then Some DigestChars
          else if decide (BuildType p = "") then Some NoBuildType
          else if negb (present (Builder p) "id") then Some NoBuilder
          else if negb (present (Metadata p) "invocationId") then Some NoInvocation
          else None
      | _ => Some NoDigest
      end
  | l => Some (SubjectCount (length l))
  end.
Definition ValidateSLSAProvenance (parse : string → result string SLSAProvenance) (data : string) : option provenance_error :=
  if decide (data = "") then Some EmptyProvenance
  else match parse data with Err e => Some (ProvenanceParse e) | Ok p => checkProvenance p end.

(** A provenance document is accepted exactly when it is a statement of
    provenance about one subject with a well-formed digest, made by a named
    builder in a named run. *)
Theorem provenance_accepted_iff p :
  checkProvenance p = None ↔
  Type_ p = "https://in-toto.io/Statement/v1" ∧ PredicateType p = "https://slsa.dev/provenance/v1" ∧
  (∃ s sha, Subject p = [s] ∧ Name s ≠ "" ∧ Digest s !! "sha256" = Some (AString sha) ∧ String.length sha = 64%nat ∧ forallb isLowerHex (list_ascii_of_string sha) = true) ∧
  BuildType p ≠ "" ∧ present (Builder p) "id" = true ∧ present (Metadata p) "invocationId" = true.
Proof.
  unfold checkProvenance. case_decide; [naive_solver|]. case_decide; [naive_solver|]. destruct (Subject p) as [|s [|s2 l]]; [naive_solver| |naive_solver].
  assert ((∃ s' sha, [s] = [s'] ∧ Name s' ≠ "" ∧ Digest s' !! "sha256" = Some (AString sha) ∧ String.length sha = 64%nat ∧
      forallb isLowerHex (list_ascii_of_string sha) = true) ↔
    Name s ≠ "" ∧ ∃ sha, Digest s !! "sha256" = Some (AString sha) ∧ String.length sha = 64%nat ∧ forallb isLowerHex (list_ascii_of_string sha) = true) as ->.
  { split; [|naive_solver]. intros (s' & sha & E & ?). injection E as <-. naive_solver. }
  case_decide; [naive_solver|]. destruct (Digest s !! "sha256") as [[sha|x|]|] eqn:Ed;
    [|split; [done|by intros (_ & _ & (_ & ? & [=] & _) & _)]..].
  case_decide as E0; [split; [done|by intros (_ & _ & (_ & ? & [= <-] & ?%eq_sym & _) & _); subst]|]. case_decide; [naive_solver|].
  destruct (forallb isLowerHex (list_ascii_of_string sha)) eqn:Eh; cbn [negb];
    [|split; [done|intros (_ & _ & (_ & ? & [= <-] & _ & ?) & _); congruence]]. case_decide; [naive_solver|].
  destruct (present (Builder p) "id"); cbn [negb]; [|naive_solver]. destruct (present (Metadata p) "invocationId"); cbn [negb]; [|naive_solver].
  split; [|done]. intros _. split_and!; [done|done|done|by exists sha|done..].
Qed.
End Provenance.
