(* ===== verification/Adr.v ===== *)
(** * Architecture decision records

    Models [internal/adr/adr.go]: parsing a record, the checks of a directory
    of records, and the index that is written and later compared with it. A
    file system is a map from directories to their entries in the order of
    names, the order [os.ReadDir] lists them in; a record keeps the base name
    of its path, the only part of it that is used. [filepath.Join] is a
    parameter. *)
From Stdlib Require Import ZArith Lia Ascii String.
From stdpp Require Import base gmap strings list.
From S2P Require Import Prelude GoStrings GoRegexp.
#[local] Open Scope string_scope.
#[local] Open Scope Z_scope.

(** ** Files *)
Inductive io_error := NotExist | IOError (e : string).
(** A file that can be written need not be readable. *)
Inductive entry := Dir | File (unreadable : option string) (content : string).
Notation listing := (list (string * entry)).
Notation filesystem := (gmap string listing).

Fixpoint lookup_name (n : string) (l : listing) : option entry :=
  match l with [] => None | (n', e) :: l => if decide (n = n') then Some e else lookup_name n l end.
Definition ReadFile (fs : filesystem) (d n : string) : result io_error string :=
  match fs !! d ≫= lookup_name n with
  | None => Err NotExist
  | Some Dir => Err (IOError "is a directory")
  | Some (File (Some e) _) => Err (IOError e)
  | Some (File None s) => Ok s
  end.
Fixpoint write_entry (n c : string) (l : listing) : listing :=
  match l with
  | [] => [(n, File None c)]
  | (n', e) :: l' =>
      if decide (n = n') then (n, match e with File r _ => File r c | Dir => Dir end) :: l'
      else if String.ltb n n' then (n, File None c) :: l
      else (n', e) :: write_entry n c l'
  end.
(** [os.WriteFile]; [denied] is the error the system gives, if it gives one. *)
Definition WriteFile (denied : option string) (fs : filesystem) (d n c : string) : result io_error filesystem :=
  match denied, fs !! d with
  | Some e, _ => Err (IOError e)
  | None, None => Err NotExist
  | None, Some l => match lookup_name n l with Some Dir => Err (IOError "is a directory") | _ => Ok (<[d := write_entry n c l]> fs) end
  end.

(** ** Names and expressions *)
Definition DefaultDir : string := "docs/adr".
Definition TemplateName : string := "0000-template.md".
Definition IndexName : string := "README.md".
Definition AdrDirFileName : string := ".adr-dir".

Definition digits4 : re := Group 1 (Seq (Class is_digit) (Seq (Class is_digit) (Seq (Class is_digit) (Class is_digit)))).
Definition spaces : re := Plus (Class is_space).
Definition rest_of_line (i : nat) : re := Group i (Plus (Class (λ c, negb (bool_decide (c = "010"%char))))).
Definition kebab_char (c : ascii) : bool := between "a" "z" c || is_digit c.
Definition fileNameRE : re :=
  Seq TextStart (Seq digits4 (Seq (lit "-")
    (Seq (Group 2 (Seq (Plus (Class kebab_char)) (Star (Seq (lit "-") (Plus (Class kebab_char)))))) (Seq (lit ".md") TextEnd)))).
Definition titleRE : re :=
  Seq TextStart (Seq (lit "#") (Seq spaces (Seq digits4 (Seq (lit ".") (Seq spaces (Seq (rest_of_line 2) TextEnd)))))).
Definition h2RE : re := Seq TextStart (Seq (lit "##") (Seq spaces (Seq (rest_of_line 1) TextEnd))).
(** [FindStringSubmatch] of an expression anchored at the start. *)
Definition submatch (r : re) (s : string) : option groups := match match_here r None s with Some (_, _, g) => Some g | None => None end.
Definition group (g : groups) (i : nat) : string := default "" (g !! i).
(** [strconv.Atoi] of four digits. *)
Definition Atoi (s : string) : Z := default 0 (ParseInt s).

Definition AllowedStatuses : list string := ["Proposed"; "Accepted"; "Deprecated"; "Superseded"; "Rejected"].
Definition requiredSections : list string := ["Status"; "Context"; "Decision"; "Consequences"].

Record Record_ := { Base : string; Number : Z; Slug : string; Title : string; Status : string; IsTemplate : bool }.
Inductive adr_error :=
| BadFileName
| ReadFailed (e : io_error)
| TitleMismatch (title num : Z)
| LineTooLong
| NoTitle (num : Z)
| MissingSection (s : string)
| EmptyStatus
| InvalidStatus (s : string)
| InFile (name : string) (e : adr_error)
| DuplicateNumber (n : Z) (a b : string)
| NoTemplate
| StaleIndex.

(** ** One record *)
(** [bufio.ScanLines]: the lines with their length as read and without a
    final carriage return; nothing after a last line feed is no line. *)
Definition drop_cr (s : string) : string :=
  if has_suffix (String "013" "") s then substring 0 (String.length s - 1) s else s.
Fixpoint drop_last_empty (l : list string) : list string :=
  match l with [] => [] | [x] => if decide (x = "") then [] else [x] | x :: l => x :: drop_last_empty l end.
Definition lines (raw : string) : list string := drop_last_empty (split_char "010" raw).

Record scan := { s_title : option string; s_section : string; s_status : list string; s_h2s : list string }.
Definition scan0 : scan := {| s_title := None; s_section := ""; s_status := []; s_h2s := [] |}.
Definition scan_line (num : Z) (line : string) (s : scan) : result adr_error scan :=
  match s_title s with
  | None =>
      match submatch titleRE (TrimSpace line) with
      | Some tm =>
          if decide (Atoi (group tm 1) ≠ num) then Err (TitleMismatch (Atoi (group tm 1)) num)
          else Ok {| s_title := Some (TrimSpace (group tm 2)); s_section := s_section s; s_status := s_status s; s_h2s := s_h2s s |}
      | None => Ok s
      end
  | Some _ =>
      match submatch h2RE line with
      | Some hm =>
          let section := TrimSpace (group hm 1) in
          Ok {| s_title := s_title s; s_section := section; s_status := s_status s; s_h2s := s_h2s s ++ [section] |}
      | None =>
          if decide (s_section s = "Status") then
            let trim := TrimSpace line in
            if decide (trim = "") then Ok s
            else if HasPrefix trim "<!--" then Ok s
            else Ok {| s_title := s_title s; s_section := s_section s; s_status := s_status s ++ [trim]; s_h2s := s_h2s s |}
          else Ok s
      end
  end.
Fixpoint scan_lines (num : Z) (ls : list string) (s : scan) : result adr_error scan :=
  match ls with
  | [] => Ok s
  | l :: ls =>
      if 1024 * 1024 <=? Z.of_nat (String.length l) then Err LineTooLong
      else match scan_line num (drop_cr l) s with Err e => Err e | Ok s => scan_lines num ls s end
  end.

(** The sections still to be found, from the wanted one on. *)
Fixpoint skip_to (want : string) (h2s : list string) : option (list string) :=
  match h2s with [] => None | h :: l => if decide (h = want) then Some l else skip_to want l end.
Fixpoint find_sections (wanted h2s : list string) : option adr_error :=
  match wanted with
  | [] => None
  | w :: ws => match skip_to w h2s with None => Some (MissingSection w) | Some l => find_sections ws l end
  end.
Definition validateSections (h2s : list string) : option adr_error := find_sections requiredSections h2s.

Definition parse_content (base slug : string) (num : Z) (raw : string) : result adr_error Record_ :=
  match scan_lines num (lines raw) scan0 with
  | Err e => Err e
  | Ok s =>
      match s_title s with
      | None => Err (NoTitle num)
      | Some title =>
          match validateSections (s_h2s s) with
          | Some e => Err e
          | None =>
              match s_status s with
              | [] => Err EmptyStatus
              | status :: _ =>
                  let word := default "" (head (Fields status)) in
                  if decide (word ∈ AllowedStatuses) then
                    Ok {| Base := base; Number := num; Slug := slug; Title := title; Status := word;
                          IsTemplate := (num =? 0) && bool_decide (base = TemplateName) |}
                  else Err (InvalidStatus status)
              end
          end
      end
  end.
(** [ParseFile], of a file of a directory. *)
Definition ParseFile (base : string) (e : entry) : result adr_error Record_ :=
  match submatch fileNameRE base with
  | None => Err BadFileName
  | Some m =>
      match e with
      | Dir => Err (ReadFailed (IOError "is a directory"))
      | File (Some err) _ => Err (ReadFailed (IOError err))
      | File None raw => parse_content base (group m 2) (Atoi (group m 1)) raw
      end
  end.

(** ** A directory *)
Definition considered (ent : string * entry) : bool :=
  match ent.2 with Dir => false | File _ _ => true end && has_suffix ".md" ent.1 &&
  negb (bool_decide (ent.1 = IndexName ∨ ent.1 = "ADR_TOOLS.md" ∨ ent.1 = "VERIFICATION.md")).
Fixpoint parse_all (l : listing) : result adr_error (list Record_) :=
  match l with
  | [] => Ok []
  | (n, e) :: l =>
      match ParseFile n e with
      | Err err => Err (InFile n err)
      | Ok r => match parse_all l with Err err => Err err | Ok rs => Ok (r :: rs) end
      end
  end.
Fixpoint unique_from (seen : list (Z * string)) (recs : list Record_) : option adr_error :=
  match recs with
  | [] => None
  | r :: recs =>
      match List.find (λ kv, kv.1 =? Number r) seen with
      | Some kv => Some (DuplicateNumber (Number r) kv.2 (Base r))
      | None => unique_from ((Number r, Base r) :: seen) recs
      end
  end.
Definition ValidateUniqueNumbers (recs : list Record_) : option adr_error := unique_from [] recs.
Definition ValidateTemplatePresent (recs : list Record_) : option adr_error :=
  if existsb IsTemplate recs then None else Some NoTemplate.

Definition nl : string := String "010" "".
Definition pad4 (n : Z) : string := let s := Itoa n in substring 0 (4 - String.length s) "0000" +:+ s.
Definition row (r : Record_) : string :=
  "| [" +:+ pad4 (Number r) +:+ "](" +:+ Base r +:+ ") | " +:+ Title r +:+ " | " +:+ Status r +:+ " |" +:+ nl.
Definition index_head : string :=
  "# Architecture Decision Records" +:+ nl +:+ nl +:+
  "Nygard-style ADRs for Stellabill backend." +:+ nl +:+ nl +:+
  "> This index is **auto-generated** by `make adr-index` / `go run ./cmd/adr-lint -write-index`." +:+ nl +:+
  "> Do not edit by hand — update individual ADR files instead." +:+ nl +:+ nl +:+
  "See [ADR_TOOLS.md](ADR_TOOLS.md) for authoring rules and [0000-template.md](0000-template.md) for the template." +:+ nl +:+ nl +:+
  "| ADR | Title | Status |" +:+ nl +:+ "| --- | --- | --- |" +:+ nl.
Definition index_tail : string :=
  nl +:+ "## Template" +:+ nl +:+ nl +:+ "| File | Purpose |" +:+ nl +:+ "| --- | --- |" +:+ nl +:+
  "| [0000-template.md](0000-template.md) | Copy this file when adding a new ADR |" +:+ nl.
Definition GenerateIndex (recs : list Record_) : string :=
  index_head +:+ foldr (λ r s, (if IsTemplate r then "" else row r) +:+ s) "" recs +:+ index_tail.
(** [strings.ReplaceAll] of a carriage return and line feed by the latter. *)
Fixpoint unify_newlines (s : string) : string :=
  match s with
  | String "013" (String "010" s) => String "010" (unify_newlines s)
  | String c s => String c (unify_newlines s)
  | EmptyString => EmptyString
  end.
Definition normalize (s : string) : string := TrimSpace (unify_newlines s) +:+ nl.

Section lint.
Context `{GoRuntime} (Join : string → string → string).
Definition ReadAdrDir (fs : filesystem) (repoRoot : string) : result io_error string :=
  match ReadFile fs repoRoot AdrDirFileName with
  | Err NotExist => Ok (Join repoRoot DefaultDir)
  | Err e => Err e
  | Ok data =>
      let line := TrimSpace data in
      if decide (line = "") then Ok (Join repoRoot DefaultDir)
      else if HasPrefix line "/" then Ok line
      else Ok (Join repoRoot line)
  end.
Definition LoadDir (fs : filesystem) (dir : string) : result adr_error (list Record_) :=
  match fs !! dir with
  | None => Err (ReadFailed NotExist)
  | Some l =>
      match parse_all (List.filter considered l) with
      | Err e => Err e
      | Ok out => Ok (sort_slice (λ a b, Number a <? Number b) out)
      end
  end.
Definition Lint (fs : filesystem) (repoRoot : string) (checkIndex : bool) : result adr_error (list Record_) :=
  match ReadAdrDir fs repoRoot with
  | Err e => Err (ReadFailed e)
  | Ok dir =>
      match LoadDir fs dir with
      | Err e => Err e
      | Ok recs =>
          match ValidateTemplatePresent recs with
          | Some e => Err e
          | None =>
              match ValidateUniqueNumbers recs with
              | Some e => Err e
              | None =>
                  if checkIndex then
                    match ReadFile fs dir IndexName with
                    | Err e => Err (ReadFailed e)
                    | Ok got => if decide (normalize got ≠ normalize (GenerateIndex recs)) then Err StaleIndex else Ok recs
                    end
                  else Ok recs
              end
          end
      end
  end.
Definition WriteIndex (denied : option string) (fs : filesystem) (repoRoot : string) : result adr_error filesystem :=
  match ReadAdrDir fs repoRoot with
  | Err e => Err (ReadFailed e)
  | Ok dir =>
      match LoadDir fs dir with
      | Err e => Err e
      | Ok recs =>
          match ValidateUniqueNumbers recs with
          | Some e => Err e
          | None =>
              match WriteFile denied fs dir IndexName (GenerateIndex recs) with
              | Err e => Err (ReadFailed e)
              | Ok fs => Ok fs
              end
          end
      end
  end.

(** *** Properties *)
Lemma lookup_written n c l :
  (∀ e s, lookup_name n l ≠ Some (File (Some e) s)) → lookup_name n l ≠ Some Dir → lookup_name n (write_entry n c l) = Some (File None c).
Proof.
  induction l as [|[n' e] l IH]; cbn; [by rewrite decide_True by done|]. destruct (decide (n = n')) as [->|Hn].
  - intros Hu Hd. cbn. rewrite decide_True by done. destruct e as [|[r|] s]; [done|by edestruct Hu|done].
  - intros Hu Hd. destruct (String.ltb n n'); cbn; [by rewrite decide_True by done|]. rewrite decide_False by done. by apply IH.
Qed.
Lemma lookup_other n m c l : m ≠ n → lookup_name m (write_entry n c l) = lookup_name m l.
Proof.
  intros Hm. induction l as [|[n' e] l IH]; cbn; [by rewrite decide_False|]. destruct (decide (n = n')) as [->|Hn]; cbn.
  - by rewrite decide_False, decide_False.
  - destruct (String.ltb n n'); cbn; [by rewrite decide_False|]. by rewrite IH.
Qed.
(** Writing the index does not change which files are records. *)
Lemma considered_written c l : List.filter considered (write_entry IndexName c l) = List.filter considered l.
Proof.
  assert (∀ e, considered (IndexName, e) = false) as Hx by (intros [|]; done).
  induction l as [|[n' e] l IH]; [done|]. cbn [write_entry]. destruct (decide (IndexName = n')) as [<-|Hn].
  - cbn [List.filter]. by rewrite !Hx.
  - destruct (String.ltb IndexName n'); cbn [List.filter]; rewrite ?Hx, ?IH; done.
Qed.
Lemma ReadFile_other d n m c l fs d' :
  fs !! d = Some l → m ≠ n → ReadFile (<[d := write_entry n c l]> fs) d' m = ReadFile fs d' m.
Proof.
  intros Hl Hm. unfold ReadFile. destruct (decide (d' = d)) as [->|Hd]; [|by rewrite lookup_insert_ne by done].
  rewrite lookup_insert_eq, Hl. cbn. by rewrite lookup_other.
Qed.
Lemma LoadDir_written d c l fs : fs !! d = Some l → LoadDir (<[d := write_entry IndexName c l]> fs) d = LoadDir fs d.
Proof. intros Hl. unfold LoadDir. by rewrite lookup_insert_eq, Hl, considered_written. Qed.

(** After the index has been written the directory passes the check of its
    index, if it has a template and the index is a file that can be read. *)
Theorem index_written_passes denied fs fs' repoRoot dir recs :
  ReadAdrDir fs repoRoot = Ok dir → LoadDir fs dir = Ok recs → ValidateTemplatePresent recs = None →
  (∀ e, ReadFile fs dir IndexName ≠ Err (IOError e)) →
  WriteIndex denied fs repoRoot = Ok fs' → Lint fs' repoRoot true = Ok recs.
Proof.
  intros Hd Hl Ht Hr Hw. unfold WriteIndex in Hw. rewrite Hd, Hl in Hw. destruct (ValidateUniqueNumbers recs) eqn:Hu; [done|].
  unfold WriteFile in Hw. destruct denied; [done|]. destruct (fs !! dir) as [l|] eqn:El; [|done].
  destruct (lookup_name IndexName l) as [e|] eqn:En; [destruct e as [|u s]; [done|]|]; simplify_eq;
  (unfold Lint, ReadAdrDir; rewrite (ReadFile_other _ _ _ _ _ _ _ El) by done; fold (ReadAdrDir fs repoRoot); rewrite Hd;
   rewrite (LoadDir_written _ _ _ _ El), Hl, Ht, Hu; unfold ReadFile; rewrite lookup_insert_eq; cbn [mbind option_bind];
   rewrite lookup_written; [by rewrite decide_False by (intros []; done)| |]).
  - intros e s' Hs. rewrite En in Hs. simplify_eq. apply (Hr e). unfold ReadFile. by rewrite El; cbn; rewrite En.
  - congruence.
  - intros e s' Hs. congruence.
  - congruence.
Qed.
End lint.

Lemma skip_to_spec w h2s l : skip_to w h2s = Some l → ∀ ws, ws `sublist_of` l → w :: ws `sublist_of` h2s.
Proof.
  induction h2s as [|h h2s IH]; cbn; [done|]. case_decide as E; intros Hs ws Hl; simplify_eq; [by constructor|].
  apply sublist_cons. by apply IH.
Qed.
Lemma skip_to_greedy w ws h2s : w :: ws `sublist_of` h2s → ∃ l, skip_to w h2s = Some l ∧ ws `sublist_of` l.
Proof.
  induction h2s as [|h h2s IH]; [intros Hs; by inversion Hs|]. intros Hs. cbn. case_decide as E.
  - exists h2s. split; [done|]. apply sublist_cons_r in Hs as [Hs|(? & ? & ?)]; simplify_eq; [|done]. etrans; [|exact Hs]. by apply sublist_cons.
  - apply sublist_cons_r in Hs as [Hs|(? & ? & ?)]; [by apply IH|]. simplify_eq.
Qed.
(** The headings are accepted exactly when the required ones are among them
    in their order: looking for each behind the one before misses nothing. *)
Theorem sections_in_order h2s : validateSections h2s = None ↔ requiredSections `sublist_of` h2s.
Proof.
  unfold validateSections. generalize requiredSections as ws. intros ws. revert h2s. induction ws as [|w ws IH]; intros h2s; cbn.
  { split; [intros _; apply sublist_nil_l|done]. }
  split.
  - destruct (skip_to w h2s) as [l|] eqn:E; [|done]. intros Hf. apply (skip_to_spec _ _ _ E). by apply IH.
  - intros Hs. destruct (skip_to_greedy _ _ _ Hs) as (l & -> & Hl). by apply IH.
Qed.

Lemma unique_from_spec seen recs :
  unique_from seen recs = None ↔ NoDup (map Number recs) ∧ ∀ r, r ∈ recs → Number r ∉ map fst seen.
Proof.
  revert seen. induction recs as [|r recs IH]; intros seen; cbn; [split; [intros _; split; [constructor|set_solver]|done]|].
  destruct (List.find _ seen) as [kv|] eqn:Ef.
  - apply List.find_some in Ef as [Hin He]. apply Z.eqb_eq in He. split; [done|]. intros [_ Hs]. exfalso. apply (Hs r); [by left|].
    rewrite <- He. change (map fst seen) with (fst <$> seen). apply list_elem_of_fmap_2, list_elem_of_In. done.
  - assert (Number r ∉ map fst seen) as Hr.
    { intros Hin. change (map fst seen) with (fst <$> seen) in Hin. apply list_elem_of_fmap in Hin as (kv & Ek & Hin).
      pose proof (List.find_none _ _ Ef kv (proj1 (list_elem_of_In _ _) Hin)) as Hn. cbn in Hn. lia. }
    rewrite IH, NoDup_cons. cbn [map fst]. split.
    + intros [Hnd Hs]. split; [split; [|done]|].
      * intros Hin. change (map Number recs) with (Number <$> recs) in Hin. apply list_elem_of_fmap in Hin as (r' & E & Hin).
        apply (Hs r' Hin). rewrite E. by left.
      * intros r' [->|Hin]%elem_of_cons; [done|]. specialize (Hs r' Hin). set_solver.
    + intros [[Hn Hnd] Hs]. split; [done|]. intros r' Hin [E|Hx]%elem_of_cons; [|by apply (Hs r'); [by right|]].
      apply Hn. rewrite <- E. change (map Number recs) with (Number <$> recs). by apply list_elem_of_fmap_2.
Qed.
(** The numbers are accepted exactly when no two records have the same. *)
Theorem numbers_unique recs : ValidateUniqueNumbers recs = None ↔ NoDup (map Number recs).
Proof. unfold ValidateUniqueNumbers. rewrite unique_from_spec. split; [by intros []|]. intros ?. split; [done|]. intros r _ Hx. by apply elem_of_nil in Hx. Qed.

(** A directory with two records, and its index after it was written. *)
Definition sample (title : string) (status : string) : string :=
  "# " +:+ title +:+ nl +:+ "## Status" +:+ nl +:+ status +:+ nl +:+ "## Context" +:+ nl +:+ "## Decision" +:+ nl +:+ "## Consequences" +:+ nl.
Definition sample_fs : filesystem :=
  {["docs/adr" := [("0000-template.md", File None (sample "0000. Title" "Proposed"));
                   ("0001-use-go.md", File None (sample "0001. Use Go" "Superseded by 2"));
                   ("notes", Dir)]]}.
Lemma index_written_passes_witness :
  match WriteIndex (H := reference_runtime) (λ _ d, d) None sample_fs "." with
  | Ok fs' => ∃ recs, length recs = 2%nat ∧ Lint (H := reference_runtime) (λ _ d, d) fs' "." true = Ok recs
  | Err _ => False
  end.
Proof.
  destruct (WriteIndex (H := reference_runtime) (λ _ d, d) None sample_fs ".") as [fs'|e] eqn:Ew; [|vm_compute in Ew; discriminate Ew].
  destruct (LoadDir (H := reference_runtime) sample_fs "docs/adr") as [recs|e] eqn:El; [|vm_compute in El; discriminate El].
  exists recs. split; [vm_compute in El; injection El as <-; reflexivity|].
  apply (index_written_passes (H := reference_runtime) (λ _ d, d) None sample_fs fs' "." "docs/adr" recs); [reflexivity|exact El| | |exact Ew].
  - vm_compute in El. injection El as <-. reflexivity.
  - intros e. vm_compute. discriminate.
Defined.
(** A heading inside a block of code counts, and a title is looked for in
    every line until one is found. *)
Theorem headings_in_code_count :
  validateSections ["Example"; "Status"; "Context"; "Decision"; "Consequences"] = None ∧
  match ParseFile "0002-x.md" (File None ("Notes" +:+ nl +:+ "# 0002. X" +:+ nl +:+ "```" +:+ nl +:+ "## Status" +:+ nl +:+ "Accepted" +:+ nl +:+ "## Context" +:+ nl +:+
    "## Decision" +:+ nl +:+ "## Consequences" +:+ nl +:+ "```" +:+ nl)) with
  | Ok r => Number r = 2 ∧ Status r = "Accepted"
  | Err _ => False
  end ∧ ParseFile "0002-X.md" (File None "") = Err BadFileName ∧
  ParseFile "0002-x.md" (File None "# 0003. X") = Err (TitleMismatch 3 2) ∧
  ParseFile "0002-x.md" (File None (sample "0002. X" "Done")) = Err (InvalidStatus "Done").
Proof. vm_compute. auto. Qed.
