(* ===== verification/LabelGuard.v ===== *)
(** * Guard of metric labels

    Models [internal/metrics/guard.go]: the checks of a metric when it is
    registered and the count of label combinations. A descriptor is the text
    its [String] method gives, which is Prometheus's; the registry behind the
    guard is a parameter. *)
From Stdlib Require Import ZArith Lia Ascii String.
From stdpp Require Import base gmap strings list.
From S2P Require Import Prelude GoStrings.
#[local] Open Scope string_scope.
#[local] Open Scope Z_scope.

Definition quote : ascii := "034".
Definition quoted (s : string) : string := String quote (s +:+ String quote "").

(** ** Reading a descriptor *)
(** The text behind the first occurrence, [strings.Index] and the slice after
    it; [None] when there is none. *)
Fixpoint after (sub s : string) : option string :=
  if HasPrefix s sub then Some (drop_str (String.length sub) s)
  else match s with String _ s => after sub s | EmptyString => None end.
Definition label_name (part : string) : string :=
  match cut_char "=" (TrimSpace part) with Some (k, _) => k | None => TrimSpace part end.
Definition extractLabelSet (raw section : string) : list string :=
  match after (section +:+ ": {") raw with
  | None => []
  | Some rest =>
      match cut_char "}" rest with
      | None => []
      | Some (inner, _) =>
          if decide (TrimSpace inner = "") then []
          else List.filter (λ n, negb (bool_decide (n = ""))) (map label_name (split_char "," inner))
      end
  end.
Definition fqLabels (raw : string) : list string := extractLabelSet raw "constLabels" ++ extractLabelSet raw "variableLabels".
Definition nameFromDesc (raw : string) : string :=
  match after ("fqName: " +:+ String quote "") raw with
  | None => raw
  | Some rest => match cut_char quote rest with None => raw | Some (name, _) => name end
  end.

(** ** The guard *)
Definition defaultCardinalityLimit : Z := 500.
Definition blockedLabelValues : list string :=
  ["raw_path"; "user_id"; "customer_id"; "subscriber"; "email"; "ip"; "ip_address"; "session_id"; "request_id"; "trace_id"; "span_id"; "bearer_token"].
Record Guard (R : Type) := {
  inner : R;
  observedComboCount : gmap string Z;
  cardinalityLimit : Z;
  maxLabelsPerMetric : Z;
}.
Arguments inner {R}.
Arguments observedComboCount {R}.
Arguments cardinalityLimit {R}.
Arguments maxLabelsPerMetric {R}.
Inductive guard_error := NoDescriptor | TooManyLabels (name : string) (n : Z) | BlockedLabel (name l : string) | InnerError (e : string)
  | LimitExceeded (name : string) | AtLimit (name : string).
(** Registering ends, or never does. *)
Inductive outcome (A : Type) := Returned (a : A) | Blocks | Panics (e : guard_error).
Arguments Returned {A}.
Arguments Blocks {A}.
Arguments Panics {A}.

Section guard.
Context {R : Type} (register : R → list string → result string R) (unregister : R → list string → R * bool).
Notation Guard := (Guard R).
Definition set_inner (r : R) (g : Guard) : Guard :=
  {| inner := r; observedComboCount := observedComboCount g; cardinalityLimit := cardinalityLimit g; maxLabelsPerMetric := maxLabelsPerMetric g |}.
Definition set_counts (m : gmap string Z) (g : Guard) : Guard :=
  {| inner := inner g; observedComboCount := m; cardinalityLimit := cardinalityLimit g; maxLabelsPerMetric := maxLabelsPerMetric g |}.
Definition WithCardinalityLimit (limit : Z) (g : Guard) : Guard :=
  if 0 <? limit then {| inner := inner g; observedComboCount := observedComboCount g; cardinalityLimit := limit; maxLabelsPerMetric := maxLabelsPerMetric g |} else g.
Definition WithMaxLabelsPerMetric (n : Z) (g : Guard) : Guard :=
  if 0 <? n then {| inner := inner g; observedComboCount := observedComboCount g; cardinalityLimit := cardinalityLimit g; maxLabelsPerMetric := n |} else g.
Definition NewGuard (r : R) (opts : list (Guard → Guard)) : Guard :=
  foldl (λ g opt, opt g) {| inner := r; observedComboCount := ∅; cardinalityLimit := defaultCardinalityLimit; maxLabelsPerMetric := 5 |} opts.

Definition first_blocked (labels : list string) : option string := List.find (λ l, bool_decide (ToLower l ∈ blockedLabelValues)) labels.
Definition validateDesc (g : Guard) (raw : string) : option guard_error :=
  let labels := fqLabels raw in
  if maxLabelsPerMetric g <? Z.of_nat (length labels) then Some (TooManyLabels (nameFromDesc raw) (Z.of_nat (length labels)))
  else match first_blocked labels with Some l => Some (BlockedLabel (nameFromDesc raw) l) | None => None end.
(** A collector is the descriptors it sends. The channel holds one and
    nobody receives until all are sent, and it is never closed: none and
    several both block for ever. *)
Definition collectorDesc (c : list string) : option string := match c with [raw] => Some raw | _ => None end.
Definition Register (g : Guard) (c : list string) : outcome (Guard * option guard_error) :=
  match collectorDesc c with
  | None => Blocks
  | Some raw =>
      match validateDesc g raw with
      | Some e => Returned (g, Some e)
      | None => match register (inner g) c with Ok r => Returned (set_inner r g, None) | Err e => Returned (g, Some (InnerError e)) end
      end
  end.
Fixpoint MustRegister (g : Guard) (cs : list (list string)) : outcome Guard :=
  match cs with
  | [] => Returned g
  | c :: cs =>
      match Register g c with
      | Returned (g, None) => MustRegister g cs
      | Returned (_, Some e) => Panics e
      | Blocks => Blocks
      | Panics e => Panics e
      end
  end.
Definition Unregister (g : Guard) (c : list string) : outcome (Guard * bool) :=
  match collectorDesc c with
  | None => Blocks
  | Some raw => let '(r, ok) := unregister (inner g) c in Returned (set_inner r (set_counts (delete (nameFromDesc raw) (observedComboCount g)) g), ok)
  end.
(** [NewCounterVec], [NewGaugeVec] and [NewHistogramVec]. *)
Definition NewVec (g : Guard) (c : list string) : outcome (Guard * result guard_error (list string)) :=
  match Register g c with
  | Returned (g, Some e) => Returned (g, Err e)
  | Returned (g, None) => Returned (g, Ok c)
  | Blocks => Blocks
  | Panics e => Panics e
  end.

Definition count_of (g : Guard) (m : string) : Z := default 0 (observedComboCount g !! m).
Definition AddLabelCombination (g : Guard) (m : string) : Guard * option guard_error :=
  let n := wrap64 (count_of g m + 1) in
  (set_counts (<[m := n]> (observedComboCount g)) g, if cardinalityLimit g <? n then Some (LimitExceeded m) else None).
Definition CheckLabelCombination (g : Guard) (m : string) : option guard_error :=
  if cardinalityLimit g <=? count_of g m then Some (AtLimit m) else None.
Fixpoint adds (g : Guard) (ms : list string) : Guard * list (string * option guard_error) :=
  match ms with
  | [] => (g, [])
  | m :: ms => let '(g, e) := AddLabelCombination g m in let '(g, es) := adds g ms in (g, (m, e) :: es)
  end.
End guard.

(** ** Properties *)
Section properties.
Context {R : Type} (register : R → list string → result string R).
Implicit Types g : Guard R.

Lemma count_add g m m' :
  0 ≤ count_of g m < 2 ^ 63 - 1 → count_of (AddLabelCombination g m).1 m' = if decide (m' = m) then count_of g m + 1 else count_of g m'.
Proof.
  intros Hb. unfold AddLabelCombination, count_of in *. cbn. case_decide as E; [subst; rewrite lookup_insert_eq|by rewrite lookup_insert_ne].
  cbn. apply wrap64_id. unfold in_int64, min_int64, max_int64. lia.
Qed.
(** A look ahead says what the next call will. *)
Theorem check_foretells_add g m :
  0 ≤ count_of g m < 2 ^ 63 - 1 → (CheckLabelCombination g m = None ↔ (AddLabelCombination g m).2 = None).
Proof.
  intros Hb. unfold CheckLabelCombination, AddLabelCombination. cbn. rewrite wrap64_id by (unfold in_int64, min_int64, max_int64; lia).
  destruct (Z.leb_spec (cardinalityLimit g) (count_of g m)), (Z.ltb_spec (cardinalityLimit g) (count_of g m + 1)); split; intros; congruence || lia.
Qed.
Definition occurrences (m : string) (ms : list string) : Z := Z.of_nat (length (List.filter (λ x, bool_decide (x = m)) ms)).
Lemma occurrences_cons m x ms : occurrences m (x :: ms) = (if decide (x = m) then 1 else 0) + occurrences m ms.
Proof. unfold occurrences. cbn. repeat case_decide; repeat case_bool_decide; cbn; try done; lia. Qed.
Lemma occurrences_nonneg m ms : 0 ≤ occurrences m ms.
Proof. unfold occurrences. lia. Qed.
Lemma adds_limit ms g :
  (∀ m, 0 ≤ count_of g m ∧ count_of g m + occurrences m ms < 2 ^ 63) → ∀ i m, ms !! i = Some m →
  ∃ e, (adds g ms).2 !! i = Some (m, e) ∧ (e = None ↔ count_of g m + occurrences m (take i ms) < cardinalityLimit g).
Proof.
  revert g. induction ms as [|x ms IH]; intros g Hb i m Hi; [done|]. cbn [adds].
  destruct (AddLabelCombination g x) as [g' e] eqn:Ea. destruct (adds g' ms) as [g'' es] eqn:Es. cbn [snd].
  assert (0 ≤ count_of g x < 2 ^ 63 - 1) as Hx.
  { specialize (Hb x). rewrite occurrences_cons, decide_True in Hb by done. pose proof (occurrences_nonneg x ms). lia. }
  destruct i as [|i]; cbn in Hi.
  - simplify_eq. exists e. split; [done|]. cbn [take]. change (occurrences m []) with 0. pose proof (check_foretells_add g m Hx) as Hf.
    rewrite Ea in Hf. cbn [snd] in Hf. rewrite <- Hf.
    unfold CheckLabelCombination. destruct (Z.leb_spec (cardinalityLimit g) (count_of g m)); split; intros; congruence || lia.
  - pose proof (count_add g x) as Hc. rewrite Ea in Hc. cbn [fst] in Hc.
    assert (∀ m, count_of g' m = (if decide (x = m) then 1 else 0) + count_of g m) as Hc'.
    { intros m'. rewrite Hc by done. repeat case_decide; subst; try done; lia. }
    destruct (IH g') with (i := i) (m := m) as (e' & He & Hiff); [|done|].
    + intros m'. rewrite Hc'. specialize (Hb m'). rewrite occurrences_cons in Hb. case_decide; lia.
    + exists e'. rewrite Es in He. split; [done|]. rewrite Hiff, Hc'. cbn [take]. rewrite occurrences_cons.
      replace (cardinalityLimit g') with (cardinalityLimit g) by (unfold AddLabelCombination in Ea; by simplify_eq). case_decide; lia.
Qed.
(** What is limited is the number of calls: the call is refused exactly when
    there were already as many for the metric as the limit allows
    combinations, whatever combinations they were for. *)
Theorem calls_are_counted (r : R) opts ms i m :
  let g := NewGuard r opts in
  (∀ m, count_of g m = 0) → Z.of_nat (length ms) < 2 ^ 63 → ms !! i = Some m →
  ∃ e, (adds g ms).2 !! i = Some (m, e) ∧ (e = None ↔ occurrences m (take i ms) < cardinalityLimit g).
Proof.
  intros g H0 Hl Hi. destruct (adds_limit ms g) with (i := i) (m := m) as (e & He & Hiff); [|done|].
  - intros m'. rewrite H0. split; [done|]. unfold occurrences. pose proof (List.filter_length_le (λ x, bool_decide (x = m')) ms). lia.
  - exists e. split; [done|]. rewrite Hiff, H0. lia.
Qed.

(** *** Labels *)
Lemma after_first sub pre rest : after sub (pre +:+ sub) = Some "" → after sub (pre +:+ sub +:+ rest) = Some rest.
Proof.
  induction pre as [|c pre IH]; intros Ha.
  - clear Ha. change ("" +:+ sub +:+ rest) with (sub +:+ rest). pose proof (prefix_self sub rest) as Hp. pose proof (drop_prefix sub rest) as Hd.
    destruct (sub +:+ rest); cbn [after]; by rewrite Hp, Hd.
  - cbn [after] in Ha. change (String c pre +:+ sub) with (String c (pre +:+ sub)) in Ha.
    change (String c pre +:+ sub +:+ rest) with (String c (pre +:+ sub +:+ rest)). cbn [after] in *.
    assert (HasPrefix (String c (pre +:+ sub +:+ rest)) sub = HasPrefix (String c (pre +:+ sub)) sub) as ->.
    { rewrite <- string_app_assoc. apply (prefix_long sub (String c (pre +:+ sub)) rest). cbn. rewrite length_append. lia. }
    destruct (HasPrefix (String c (pre +:+ sub)) sub) eqn:Ep; [|by apply IH]. exfalso. injection Ha as Ha.
    unfold HasPrefix in Ep. apply prefix_app in Ep. rewrite Ha, append_nil_r in Ep. apply (f_equal String.length) in Ep. cbn in Ep.
    rewrite length_append in Ep. lia.
Qed.
(** A name a metric can have in its list of labels. *)
Definition plain (n : string) : Prop :=
  n ≠ "" ∧ TrimSpace n = n ∧ contains_char "," n = false ∧ contains_char "}" n = false ∧ contains_char "=" n = false.
Lemma label_name_plain n : plain n → label_name n = n.
Proof.
  intros (_ & Ht & _ & _ & He). unfold label_name. rewrite Ht. destruct (cut_char "=" n) as [[a b]|] eqn:Ec; [|done].
  apply cut_char_spec in Ec as [-> _]. rewrite contains_char_app in He. apply orb_false_iff in He as [_ He]. cbn in He. done.
Qed.
Lemma join_clean vs : (∀ v, v ∈ vs → contains_char "}" v = false) → contains_char "}" (Join vs ",") = false.
Proof.
  induction vs as [|v vs IH]; [done|]. intros Hv. destruct vs as [|w vs]; [apply Hv; by left|].
  change (Join (v :: w :: vs) ",") with (v +:+ String "," (Join (w :: vs) ",")). rewrite contains_char_app, (Hv v) by (by left). cbn [contains_char orb].
  rewrite bool_decide_false by done. apply IH. intros x Hx. apply Hv. by right.
Qed.
(** The text of a descriptor: a name, a help text and constant labels, then
    the variable labels. *)
Definition descriptor (before : string) (vs : list string) : string := before +:+ "variableLabels: {" +:+ Join vs "," +:+ "}}".
Lemma variable_labels_read before vs :
  after "variableLabels: {" (before +:+ "variableLabels: {") = Some "" → (∀ v, v ∈ vs → plain v) → TrimSpace (Join vs ",") ≠ "" →
  extractLabelSet (descriptor before vs) "variableLabels" = vs.
Proof.
  intros Ha Hv Hb. unfold extractLabelSet, descriptor. change ("variableLabels" +:+ ": {") with "variableLabels: {".
  rewrite (after_first _ _ _ Ha). change "}}" with (String "}" "}"). rewrite cut_first by (apply join_clean; intros v Hx; apply (Hv v Hx)).
  rewrite decide_False by done. rewrite split_join; [| |intros v Hx; apply (Hv v Hx)].
  - clear Ha Hb. induction vs as [|v vs IH]; [done|]. cbn. rewrite label_name_plain by (apply Hv; by left).
    destruct (Hv v) as (Hn & _); [by left|]. rewrite bool_decide_false by done. cbn. f_equal. apply IH. intros w Hw. apply Hv. by right.
  - intros ->. by vm_compute in Hb.
Qed.
(** A metric with a blocked label is refused, in any case of letters, and
    nothing is registered; provided what comes before the labels does not
    look like them. *)
Theorem blocked_label_refused g before vs l :
  after "variableLabels: {" (before +:+ "variableLabels: {") = Some "" → (∀ v, v ∈ vs → plain v) → TrimSpace (Join vs ",") ≠ "" →
  l ∈ vs → ToLower l ∈ blockedLabelValues →
  ∃ e, Register register g [descriptor before vs] = Returned (g, Some e).
Proof.
  intros Ha Hv Hb Hl Hx. unfold Register. cbn [collectorDesc]. destruct (validateDesc g _) as [e|] eqn:Ev; [by exists e|]. exfalso.
  revert Ev. unfold validateDesc. destruct (_ <? _); [done|]. destruct (first_blocked _) as [b|] eqn:Ef; [done|]. intros _.
  unfold first_blocked in Ef. pose proof (List.find_none _ _ Ef l) as Hn. cbn in Hn. rewrite bool_decide_true in Hn by done.
  discriminate Hn. apply list_elem_of_In. unfold fqLabels. rewrite (variable_labels_read _ _ Ha Hv Hb). apply elem_of_app. by right.
Qed.
(** A collector with no descriptor, or with two, is never answered. *)
Theorem several_descriptors_block g c : length c ≠ 1%nat → Register register g c = Blocks.
Proof. by destruct c as [|? [|? ?]]. Qed.
End properties.

Definition always_ok (r : list (list string)) (c : list string) : result string (list (list string)) := Ok (c :: r).
Definition guard0 : Guard (list (list string)) := NewGuard [] [].
(** Prometheus' text of a descriptor. *)
Definition prometheus_text (name help const : string) (vs : list string) : string :=
  "Desc{fqName: " +:+ quoted name +:+ ", help: " +:+ quoted help +:+ ", constLabels: {" +:+ const +:+ "}, variableLabels: {" +:+ Join vs "," +:+ "}}".
Lemma blocked_label_refused_witness :
  ∃ e, Register always_ok guard0 [prometheus_text "hits" "Hits." "" ["route"; "User_ID"]] = Returned (guard0, Some e).
Proof.
  apply (blocked_label_refused always_ok guard0 ("Desc{fqName: " +:+ quoted "hits" +:+ ", help: " +:+ quoted "Hits." +:+ ", constLabels: {" +:+ "" +:+ "}, ")
    ["route"; "User_ID"] "User_ID"); [reflexivity| |vm_compute; discriminate|set_solver|apply (bool_decide_unpack _); reflexivity].
  intros v Hv. apply elem_of_cons in Hv as [->|Hv]; [by split_and!|]. apply list_elem_of_singleton in Hv as ->. by split_and!.
Defined.
(** The help text can hide the labels from the check, and the limit on
    combinations is one on calls. *)
Theorem help_hides_labels :
  match Register always_ok guard0 [prometheus_text "hits" "Reads variableLabels: {} of a metric." "" ["user_id"; "email"; "ip"; "a"; "b"; "c"; "d"]] with
  | Returned (_, None) => True
  | _ => False
  end ∧
  (adds (NewGuard (R := unit) tt [WithCardinalityLimit 2]) ["hits"; "hits"; "hits"]).2 = [("hits", None); ("hits", None); ("hits", Some (LimitExceeded "hits"))].
Proof. split; vm_compute; done. Qed.
