(* ===== verification/ObjectStorage.v ===== *)
(** * Object storage

    Models [internal/storage/s3/client.go]: uploads with their retries
    ([PutObject]), the signature of a request and presigned addresses; and the
    store in memory of [internal/cache/memory_object_store.go]. SHA-256, HMAC
    and the parsing of an address are parameters; what the service answers
    and when a context ends are given attempt by attempt. *)
From Stdlib Require Import ZArith Lia Ascii String.
From stdpp Require Import base gmap strings list.
From S2P Require Import Prelude GoStrings GoFloat GoTime AdminSigning.
#[local] Open Scope string_scope.
#[local] Open Scope Z_scope.

Definition nl : string := String "010" "".

(** ** The S3 client *)
Module S3.
Record Config := { Region : string; Bucket : string; AccessKeyID : string; SecretAccessKey : string; Endpoint : string; MaxRetries : Z }.
Definition New (cfg : Config) : Config :=
  if MaxRetries cfg =? 0 then
    {| Region := Region cfg; Bucket := Bucket cfg; AccessKeyID := AccessKeyID cfg; SecretAccessKey := SecretAccessKey cfg; Endpoint := Endpoint cfg; MaxRetries := 3 |}
  else cfg.

(** [strings.TrimRight(s, "/")] *)
Fixpoint TrimRight_slash (s : string) : string :=
  match s with
  | EmptyString => ""
  | String c s => match TrimRight_slash s with EmptyString => if decide (c = "/"%char) then "" else String c "" | r => String c r end
  end.
Definition objectURL (cfg : Config) (key : string) : string :=
  if decide (Endpoint cfg ≠ "") then TrimRight_slash (Endpoint cfg) +:+ "/" +:+ Bucket cfg +:+ "/" +:+ key
  else "https://" +:+ Bucket cfg +:+ ".s3." +:+ Region cfg +:+ ".amazonaws.com/" +:+ key.

(** The layouts [20060102] and [20060102T150405Z]. *)
Definition format_date (t : Time) : string := let '(y, m, d) := civil t in pad_year y (pad2 m (pad2 d "")).
Definition format_amz (t : Time) : string :=
  let '(y, m, d) := civil t in let '(hh, mi, ss) := clock t in pad_year y (pad2 m (pad2 d (String "T" (pad2 hh (pad2 mi (pad2 ss "Z")))))).

Record URL := { u_Host : string; u_EscapedPath : string; u_RawQuery : string; u_Query : gmap string (list string); u_render : string → string }.
(** Headers by their name in lower case. *)
Record Request := { r_Method : string; r_URL : URL; r_Header : gmap string string; r_Body : string }.
Definition header_value (h : gmap string string) (k : string) : string := default "" (h !! k).
Definition Set_header (k v : string) (r : Request) : Request :=
  {| r_Method := r_Method r; r_URL := r_URL r; r_Header := <[k := v]> (r_Header r); r_Body := r_Body r |}.

(** *** Signatures *)
Section signing.
Context (hmac : string → string → string) (sha256 : string → string).
Definition deriveSigningKey (secret date region service : string) : string :=
  hmac (hmac (hmac (hmac ("AWS4" +:+ secret) date) region) service) "aws4_request".
Definition credScope (cfg : Config) (date : string) : string := date +:+ "/" +:+ Region cfg +:+ "/s3/aws4_request".
Definition stringToSign (cfg : Config) (now : Time) (canonical : string) : string :=
  Join ["AWS4-HMAC-SHA256"; format_amz now; credScope cfg (format_date now); hex_encode (sha256 canonical)] nl.
Definition signature (cfg : Config) (now : Time) (canonical : string) : string :=
  hex_encode (hmac (deriveSigningKey (SecretAccessKey cfg) (format_date now) (Region cfg) "s3") (stringToSign cfg now canonical)).

Definition signedHeadersList : list string := ["content-type"; "host"; "x-amz-content-sha256"; "x-amz-date"].
Definition signedHeaders : string := Join signedHeadersList ";".
Definition canonicalHeaders (h : gmap string string) : string :=
  foldl (λ s k, s +:+ k +:+ ":" +:+ TrimSpace (header_value h k) +:+ nl) "" signedHeadersList.
Definition canonicalRequest (r : Request) : string :=
  Join [r_Method r; u_EscapedPath (r_URL r); u_RawQuery (r_URL r); canonicalHeaders (r_Header r); signedHeaders; hex_encode (sha256 (r_Body r))] nl.
Definition signRequest (cfg : Config) (now : Time) (r : Request) : Request :=
  let r := Set_header "x-amz-date" (format_amz now) r in
  let r := Set_header "x-amz-content-sha256" (hex_encode (sha256 (r_Body r))) r in
  let r := Set_header "host" (u_Host (r_URL r)) r in
  Set_header "authorization"
    ("AWS4-HMAC-SHA256 Credential=" +:+ AccessKeyID cfg +:+ "/" +:+ credScope cfg (format_date now) +:+ ", SignedHeaders=" +:+ signedHeaders +:+
     ", Signature=" +:+ signature cfg now (canonicalRequest r)) r.

(** *** Uploads *)
Inductive reply := Transport (e : string) | StatusCode (code : Z).
Inductive last_error := HttpError (e : string) | ServerError (code : Z).
Inductive put_error := CtxErr (e : string) | BuildRequest (e : string) | ClientError (code : Z) | Failed (attempts : Z) (last : option last_error).
Inductive put_event := Waited (d : Duration) | Sent (r : Request).
Record environment := { now_at : nat → Time; reply_to : nat → reply; ends_before : nat → option string }.

(** [time.Duration(math.Pow(2, attempt-1)) * 100 * time.Millisecond] *)
Definition backoff (attempt : nat) : Duration :=
  wrap64 (wrap64 (int64_of_float (f_pow (f_of_int 2) (Z.of_nat attempt - 1)) * 100) * Time.Millisecond).
Definition retryable (a : reply) : option last_error :=
  match a with Transport e => Some (HttpError e) | StatusCode c => if 500 <=? c then Some (ServerError c) else None end.
Definition answered (a : reply) : option put_error :=
  match a with StatusCode c => if 400 <=? c then Some (ClientError c) else None | Transport _ => None end.

Section put.
Context (parse : string → result string URL) (cfg : Config) (env : environment).
Definition build (url : string) (body contentType : string) : result string Request :=
  match parse url with
  | Err e => Err e
  | Ok u => Ok {| r_Method := "PUT"; r_URL := u; r_Header := {["content-type" := contentType]}; r_Body := body |}
  end.
Fixpoint put_loop (fuel attempt : nat) (url body contentType : string) (last : option last_error) : list put_event * option put_error :=
  match fuel with
  | O => ([], Some (Failed (MaxRetries cfg + 1) last))
  | S fuel =>
      let go :=
        match build url body contentType with
        | Err e => ([], Some (BuildRequest e))
        | Ok req =>
            let sent := Sent (signRequest cfg (now_at env attempt) req) in
            match retryable (reply_to env attempt) with
            | Some e => let '(tr, r) := put_loop fuel (S attempt) url body contentType (Some e) in (sent :: tr, r)
            | None => ([sent], answered (reply_to env attempt))
            end
        end in
      match attempt with
      | O => go
      | S _ =>
          match ends_before env attempt with
          | Some e => ([], Some (CtxErr e))
          | None => let '(tr, r) := go in (Waited (backoff attempt) :: tr, r)
          end
      end
  end.
(** The loop runs while [attempt <= MaxRetries]. *)
Definition PutObject (key body contentType : string) : list put_event * option put_error :=
  put_loop (Z.to_nat (MaxRetries cfg + 1)) 0 (objectURL cfg key) body (if decide (contentType = "") then "application/octet-stream" else contentType) None.
End put.

(** *** Presigned addresses *)
Section presign.
Context `{GoRuntime} (parse : string → result string URL).
Definition sorted_keys (q : gmap string (list string)) : list string := sort_slice String.ltb (map fst (map_range q)).
Definition value_of (q : gmap string (list string)) (k : string) : string := default "" (head (default [] (q !! k))).
(** [url.Values.Encode] *)
Definition Encode (q : gmap string (list string)) : string :=
  Join (concat (map (λ k, map (λ v, QueryEscape k +:+ "=" +:+ QueryEscape v) (default [] (q !! k))) (sorted_keys q))) "&".
Definition canonicalQueryString (q : gmap string (list string)) : string :=
  Join (map (λ k, QueryEscape k +:+ "=" +:+ QueryEscape (value_of q k)) (sorted_keys q)) "&".
(** [int(math.Round(x))]: halves away from zero. *)
Definition int_of_round (x : float64) : Z :=
  match f_trunc x with
  | None => min_int64
  | Some t =>
      let d := f_sub x (f_of_int t) in
      if f_le (f_lit 1 2) d then t + 1 else if f_le d (f_lit (-1) 2) then t - 1 else t
  end.
Definition presign_query (cfg : Config) (now : Time) (ttl : Duration) (q : gmap string (list string)) : gmap string (list string) :=
  <["X-Amz-SignedHeaders" := ["host"]]>
  (<["X-Amz-Expires" := [Itoa (int_of_round (f_seconds ttl))]]>
  (<["X-Amz-Date" := [format_amz now]]>
  (<["X-Amz-Credential" := [AccessKeyID cfg +:+ "/" +:+ credScope cfg (format_date now)]]>
  (<["X-Amz-Algorithm" := ["AWS4-HMAC-SHA256"]]> q)))).
Definition presign_canonical (u : URL) (q : gmap string (list string)) : string :=
  Join ["GET"; u_EscapedPath u; canonicalQueryString q; "host:" +:+ u_Host u +:+ nl; "host"; "UNSIGNED-PAYLOAD"] nl.
Record PresignedURL := { p_URL : string; ExpiresAt : Time }.
Definition PresignURL (cfg : Config) (now : Time) (key : string) (ttl : Duration) : result string PresignedURL :=
  match parse (objectURL cfg key) with
  | Err e => Err e
  | Ok u =>
      let q := presign_query cfg now ttl (u_Query u) in
      let sig := signature cfg now (presign_canonical u q) in
      Ok {| p_URL := u_render u (Encode (<["X-Amz-Signature" := [sig]]> q)); ExpiresAt := now + ttl |}
  end.
End presign.
End signing.

(** *** Properties *)
Definition accepted (a : reply) : Prop := ∃ c, a = StatusCode c ∧ c < 400.
Lemma accepted_iff a : accepted a ↔ retryable a = None ∧ answered a = None.
Proof.
  unfold accepted. destruct a as [e|c]; cbn; [naive_solver|].
  destruct (Z.leb_spec 500 c), (Z.leb_spec 400 c);
    (split; [intros (c' & [= <-] & ?); first [lia|done]|intros [? ?]; first [done|exists c; split; [done|lia]]]).
Qed.
Definition sends (tr : list put_event) : nat := length (List.filter (λ e, match e with Sent _ => true | _ => false end) tr).

Section put_spec.
Context (hmac : string → string → string) (sha256 : string → string) (parse : string → result string URL) (cfg : Config) (env : environment).
Notation put_loop := (put_loop hmac sha256 parse cfg env).
Notation PutObject := (PutObject hmac sha256 parse cfg env).
(** Attempt [k] is made: every one before it was to be repeated, and no wait
    was cut short. *)
Definition tried (a k : nat) : Prop :=
  (a ≠ 0%nat → ends_before env a = None) ∧ ∀ i, (a ≤ i < k)%nat → retryable (reply_to env i) ≠ None ∧ ends_before env (S i) = None.
Lemma tried_next a k : (a < k)%nat → tried a k ↔ (a ≠ 0%nat → ends_before env a = None) ∧ retryable (reply_to env a) ≠ None ∧ tried (S a) k.
Proof.
  intros Hak. unfold tried. split.
  - intros [H0 Hi]. destruct (Hi a) as [? ?]; [lia|]. split_and!; try done. intros i Hik. apply Hi. lia.
  - intros (H0 & Hr & Hs & Hi). split; [done|]. intros i Hik. destruct (decide (i = a)) as [->|]; [split; [done|by apply Hs]|]. apply Hi. lia.
Qed.
Lemma put_loop_ok url body ct u fuel a last :
  parse url = Ok u →
  (put_loop fuel a url body ct last).2 = None ↔ ∃ k, (a ≤ k < a + fuel)%nat ∧ tried a k ∧ accepted (reply_to env k).
Proof.
  intros Hp. revert a last. induction fuel as [|fuel IH]; intros a last; cbn [ObjectStorage.S3.put_loop]; [split; [done|intros (k & ? & _); lia]|].
  unfold build. rewrite Hp.
  assert (∀ x, (let '(tr, r) := put_loop fuel (S a) url body ct x in (r : option put_error)) = (put_loop fuel (S a) url body ct x).2) as Hlet
    by (intros x; by destruct (put_loop _ _ _ _ _ _)).
  assert (∀ (P : Prop), (a ≠ 0%nat → ends_before env a = None) →
    ((∃ k, (a ≤ k < a + S fuel)%nat ∧ tried a k ∧ accepted (reply_to env k)) ↔
     match retryable (reply_to env a) with Some e => (put_loop fuel (S a) url body ct (Some e)).2 = None | None => answered (reply_to env a) = None end)) as Hgo.
  { intros _ H0. destruct (retryable (reply_to env a)) as [e|] eqn:Er.
    - rewrite IH. split; intros (k & Hk & Ht & Ha).
      + assert (k ≠ a) by (intros ->; apply accepted_iff in Ha as [? _]; congruence). exists k. split; [lia|]. split; [|done]. apply tried_next in Ht; [by destruct Ht as (_ & _ & ?)|lia].
      + exists k. split; [lia|]. split; [|done]. apply tried_next; [lia|]. by rewrite Er.
    - split.
      + intros (k & Hk & Ht & Ha). destruct (decide (k = a)) as [->|]; [by apply accepted_iff in Ha as [_ ?]|].
        apply tried_next in Ht as (_ & Ht & _); [congruence|lia].
      + intros Ha. exists a. split; [lia|]. split; [split; [done|lia]|]. by apply accepted_iff. }
  destruct a as [|a'].
  - rewrite (Hgo True) by done. destruct (retryable _) as [e|]; [|done]. rewrite <- Hlet. by destruct (put_loop _ _ _ _ _ _).
  - destruct (ends_before env (S a')) as [e|] eqn:Ee.
    + split; [done|]. intros (k & _ & [H0 _] & _). by rewrite H0 in Ee.
    + rewrite (Hgo True) by done. destruct (retryable _) as [e|]; [|done]. rewrite <- Hlet. by destruct (put_loop _ _ _ _ _ _).
Qed.
Lemma put_loop_sends url body ct fuel a last : (sends (put_loop fuel a url body ct last).1 ≤ fuel)%nat.
Proof.
  revert a last. induction fuel as [|fuel IH]; intros a last; cbn [ObjectStorage.S3.put_loop]; [done|].
  destruct (build _ _ _ _) as [req|e]; [|destruct a; [cbn; lia|]; destruct (ends_before _ _); cbn; lia].
  destruct (retryable _) as [e|].
  - specialize (IH (S a) (Some e)). destruct (put_loop fuel _ _ _ _ _) as [tr r].
    destruct a; [|destruct (ends_before _ _)]; unfold sends in *; cbn in *; lia.
  - destruct a; [|destruct (ends_before _ _)]; unfold sends; cbn; lia.
Qed.
(** An upload succeeds exactly when one of the attempts allowed is accepted
    and every one before it failed in a way that is tried again, with the
    context still alive; and no more requests are sent than attempts are
    allowed. *)
Theorem upload_outcome key body ct u :
  parse (objectURL cfg key) = Ok u → 0 ≤ MaxRetries cfg →
  ((PutObject key body ct).2 = None ↔ ∃ k, (Z.of_nat k ≤ MaxRetries cfg) ∧ tried 0 k ∧ accepted (reply_to env k)) ∧
  Z.of_nat (sends (PutObject key body ct).1) ≤ MaxRetries cfg + 1.
Proof.
  intros Hp Hm. unfold ObjectStorage.S3.PutObject. split.
  - rewrite (put_loop_ok _ _ _ u) by done. split; intros (k & Hk & ?); exists k; (split; [lia|done]).
  - pose proof (put_loop_sends (objectURL cfg key) body (if decide (ct = "") then "application/octet-stream" else ct) (Z.to_nat (MaxRetries cfg + 1)) 0 None). lia.
Qed.
(** With a negative number of retries nothing is ever sent. *)
Theorem negative_retries_send_nothing key body ct : MaxRetries cfg < 0 → PutObject key body ct = ([], Some (Failed (MaxRetries cfg + 1) None)).
Proof. intros Hm. unfold ObjectStorage.S3.PutObject. by replace (Z.to_nat (MaxRetries cfg + 1)) with 0%nat by lia. Qed.
End put_spec.

Section sign_spec.
Context (sha256 : string → string).
Notation canonicalRequest := (canonicalRequest sha256).
Definition one_line (s : string) : Prop := contains_char "010" s = false.
Definition header_line (r : Request) (k : string) : string := k +:+ ":" +:+ TrimSpace (header_value (r_Header r) k).
Definition request_lines (r : Request) : list string :=
  [r_Method r; u_EscapedPath (r_URL r); u_RawQuery (r_URL r)] ++ map (header_line r) signedHeadersList ++ [""; signedHeaders; hex_encode (sha256 (r_Body r))].
Lemma canonicalRequest_lines r : canonicalRequest r = Join (request_lines r) nl.
Proof.
  unfold ObjectStorage.S3.canonicalRequest, canonicalHeaders, request_lines, header_line. cbn [Join signedHeadersList map app foldl].
  rewrite !string_app_assoc. reflexivity.
Qed.
Definition single_lines (r : Request) : Prop :=
  one_line (r_Method r) ∧ one_line (u_EscapedPath (r_URL r)) ∧ one_line (u_RawQuery (r_URL r)) ∧ ∀ k, k ∈ signedHeadersList → one_line (TrimSpace (header_value (r_Header r) k)).
Lemma request_lines_clean r : single_lines r → ∀ p, p ∈ request_lines r → contains_char "010" p = false.
Proof.
  intros (Hm & Hp & Hq & Hh) p. unfold request_lines. rewrite !elem_of_app. intros [Hin|[Hin|Hin]].
  - by repeat (apply elem_of_cons in Hin as [->|Hin]; [done|]); apply elem_of_nil in Hin.
  - change (map (header_line r) signedHeadersList) with (header_line r <$> signedHeadersList) in Hin. apply list_elem_of_fmap in Hin as (k & -> & Hk).
    unfold header_line. rewrite !contains_char_app. unfold one_line in Hh. rewrite (Hh k Hk).
    by repeat (apply elem_of_cons in Hk as [->|Hk]; [reflexivity|]); apply elem_of_nil in Hk.
  - repeat (apply elem_of_cons in Hin as [->|Hin]; [first [reflexivity|by apply hex_encode_clean]|]); by apply elem_of_nil in Hin.
Qed.
(** The text that is signed determines what is sent: two requests with the
    same one have the same method, path, query and signed headers, and bodies
    with the same hash. *)
Theorem signed_text_determines_request r1 r2 :
  single_lines r1 → single_lines r2 → canonicalRequest r1 = canonicalRequest r2 →
  r_Method r1 = r_Method r2 ∧ u_EscapedPath (r_URL r1) = u_EscapedPath (r_URL r2) ∧ u_RawQuery (r_URL r1) = u_RawQuery (r_URL r2) ∧
  (∀ k, k ∈ signedHeadersList → header_line r1 k = header_line r2 k) ∧ hex_encode (sha256 (r_Body r1)) = hex_encode (sha256 (r_Body r2)).
Proof.
  intros H1 H2 E. rewrite !canonicalRequest_lines in E. apply (f_equal (split_char "010")) in E. unfold nl in E.
  rewrite !split_join in E by (done || by apply request_lines_clean). assert (∀ i, request_lines r1 !! i = request_lines r2 !! i) as Hi by (by rewrite E).
  assert (∀ i x y, request_lines r1 !! i = Some x → request_lines r2 !! i = Some y → x = y) as He by (intros i x y Hx Hy; rewrite Hi, Hy in Hx; by injection Hx).
  split_and!; [by apply (He 0%nat)|by apply (He 1%nat)|by apply (He 2%nat)| |by apply (He 9%nat)]. intros k Hk.
  unfold signedHeadersList in Hk. rewrite !elem_of_cons in Hk. destruct Hk as [->|[->|[->|[->|Hk]]]]; [| | | |by apply elem_of_nil in Hk].
  - by apply (He 3%nat).
  - by apply (He 4%nat).
  - by apply (He 5%nat).
  - by apply (He 6%nat).
Qed.
End sign_spec.

Section presign_spec.
Context `{GoRuntime} (hmac : string → string → string) (sha256 : string → string) (parse : string → result string URL).
Definition single_valued (q : gmap string (list string)) : Prop := ∀ k vs, q !! k = Some vs → ∃ v, vs = [v].
Lemma single_valued_insert q k v : single_valued q → single_valued (<[k := [v]]> q).
Proof. intros Hq k' vs. rewrite lookup_insert_Some. intros [[_ <-]|[_ ?]]; eauto. Qed.
Lemma sorted_keys_in q k : k ∈ sorted_keys q → is_Some (q !! k).
Proof.
  unfold sorted_keys. rewrite elem_of_sort_slice. change (map fst (map_range q)) with (fst <$> map_range q). intros ((k' & vs) & -> & Hin)%list_elem_of_fmap.
  rewrite elem_of_map_range in Hin. by exists vs.
Qed.
(** When no name of the query has several values, the text that is signed is
    the one that is sent. *)
Lemma query_signed_as_sent q : single_valued q → canonicalQueryString q = Encode q.
Proof.
  intros Hq. unfold canonicalQueryString, Encode. f_equal.
  assert (∀ l, (∀ k, k ∈ l → is_Some (q !! k)) →
    map (λ k, QueryEscape k +:+ "=" +:+ QueryEscape (value_of q k)) l =
    concat (map (λ k, map (λ v, QueryEscape k +:+ "=" +:+ QueryEscape v) (default [] (q !! k))) l)) as Hl.
  { induction l as [|k l IH]; intros Hin; [done|]. cbn [map concat]. destruct (Hin k) as [vs Hk]; [by left|]. destruct (Hq k vs Hk) as [v ->].
    unfold value_of at 1. rewrite Hk. cbn. f_equal. apply IH. intros k' Hk'. apply Hin. by right. }
  apply Hl. intros k. apply sorted_keys_in.
Qed.
(** A presigned address carries the parameters that were signed, in the form
    in which they were signed, and the signature of nothing else. *)
Theorem presigned_signs_what_is_sent cfg now key ttl p :
  (∀ u, parse (objectURL cfg key) = Ok u → single_valued (u_Query u)) →
  PresignURL hmac sha256 parse cfg now key ttl = Ok p →
  ∃ u sig, parse (objectURL cfg key) = Ok u ∧
    let q := presign_query cfg now ttl (u_Query u) in
    p_URL p = u_render u (Encode (<["X-Amz-Signature" := [sig]]> q)) ∧ ExpiresAt p = now + ttl ∧
    sig = signature hmac sha256 cfg now (Join ["GET"; u_EscapedPath u; Encode q; "host:" +:+ u_Host u +:+ nl; "host"; "UNSIGNED-PAYLOAD"] nl).
Proof.
  intros Hs Hp. unfold PresignURL in Hp. destruct (parse (objectURL cfg key)) as [u|e] eqn:Ep; [|done]. injection Hp as <-. eexists u, _. split; [done|].
  cbn zeta. split_and!; [reflexivity|done|]. unfold presign_canonical. rewrite query_signed_as_sent; [done|]. unfold presign_query.
  do 5 apply single_valued_insert. by apply Hs.
Qed.
End presign_spec.

(** *** Examples *)
Definition cfg0 : Config := New {| Region := "eu-1"; Bucket := "b"; AccessKeyID := "id"; SecretAccessKey := "key"; Endpoint := ""; MaxRetries := 0 |}.
Definition url0 (s : string) : result string URL :=
  Ok {| u_Host := "b.s3.eu-1.amazonaws.com"; u_EscapedPath := "/k"; u_RawQuery := ""; u_Query := ∅; u_render := λ q, s +:+ "?" +:+ q |}.
Definition env0 (replies : list reply) : environment :=
  {| now_at := λ _, 0; reply_to := λ k, nth k replies (Transport "down"); ends_before := λ _, None |}.
Definition toy_mac (k d : string) : string := k +:+ d.
Lemma upload_outcome_witness :
  (PutObject toy_mac (λ s, s) url0 cfg0 (env0 [Transport "reset"; StatusCode 503; StatusCode 200]) "k" "body" "").2 = None.
Proof.
  destruct (url0 (objectURL cfg0 "k")) as [u|] eqn:Eu; [|discriminate Eu].
  apply (upload_outcome toy_mac (λ s, s) url0 cfg0 (env0 [Transport "reset"; StatusCode 503; StatusCode 200]) "k" "body" "" u Eu); [vm_compute; discriminate|].
  exists 2%nat. split; [vm_compute; discriminate|]. split; [|by exists 200]. split; [done|]. intros [|[|i]] Hi; [| |lia]; cbn; split; done.
Defined.
(** The times waited, and the lives of addresses the program asks for; shorter
    ones are rounded while [ExpiresAt] is not. *)
Theorem waits_and_lives :
  map backoff [1; 2; 3]%nat = [100 * Time.Millisecond; 200 * Time.Millisecond; 400 * Time.Millisecond] ∧
  map (λ d, int_of_round (f_seconds d)) [15 * Time.Minute; 24 * Time.Hour; 400 * Time.Millisecond; 500 * Time.Millisecond] = [900; 86400; 0; 1] ∧
  (PutObject toy_mac (λ s, s) url0 cfg0 (env0 [StatusCode 404; StatusCode 200]) "k" "body" "").2 = Some (ClientError 404) ∧
  objectURL cfg0 "a?b" = "https://b.s3.eu-1.amazonaws.com/a?b" ∧
  canonicalQueryString {["a" := ["1"; "2"]]} = "a=1" ∧ Encode {["a" := ["1"; "2"]]} = "a=1&a=2".
Proof. split_and!; vm_compute; reflexivity. Qed.
End S3.

(** ** The store in memory *)
Module MemoryObjects.
Inductive store_error := ErrNotFound | Ended (e : string).
Definition Objects_Put (ctx : option string) (key data : string) (m : gmap string string) : gmap string string * result store_error string :=
  match ctx with Some e => (m, Err (Ended e)) | None => (<[key := data]> m, Ok key) end.
Definition Objects_Get (ctx : option string) (key : string) (m : gmap string string) : result store_error string :=
  match ctx with Some e => Err (Ended e) | None => match m !! key with Some d => Ok d | None => Err ErrNotFound end end.
Definition Objects_Delete (ctx : option string) (key : string) (m : gmap string string) : gmap string string * option store_error :=
  match ctx with
  | Some e => (m, Some (Ended e))
  | None => match m !! key with None => (m, Some ErrNotFound) | Some _ => (delete key m, None) end
  end.
Definition All (m : gmap string string) : gmap string string := m.
Definition Clear (_ : gmap string string) : gmap string string := ∅.
Inductive op := OPut (key data : string) | ODelete (key : string) | OClear.
Definition run (o : option string * op) (m : gmap string string) : gmap string string :=
  match o with (ctx, OPut k d) => (Objects_Put ctx k d m).1 | (ctx, ODelete k) => (Objects_Delete ctx k m).1 | (_, OClear) => Clear m end.
(** What was put under a key is what is got from it, whatever is done to
    other keys in between. *)
Theorem object_kept key data m ops :
  Forall (λ o, match o with (_, OPut k _) | (_, ODelete k) => k ≠ key | (_, OClear) => False end) ops →
  Objects_Get None key (foldl (λ m o, run o m) (Objects_Put None key data m).1 ops) = Ok data.
Proof.
  intros Hops. unfold Objects_Get. assert ((Objects_Put None key data m).1 !! key = Some data) as Hk by apply lookup_insert_eq.
  revert Hk. generalize (Objects_Put None key data m).1 as m'. induction Hops as [|o ops Ho Hops IH]; cbn; intros m' Hk; [by rewrite Hk|].
  apply IH. destruct o as [[e|] [k d|k|]]; cbn in *; try done; [by rewrite lookup_insert_ne|].
  destruct (m' !! k); [|done]. cbn. by rewrite lookup_delete_ne.
Qed.
(** A second deletion reports that there is nothing, which a comment calls
    idempotent. *)
Theorem second_delete_fails key m : (Objects_Delete None key (Objects_Delete None key m).1).2 = Some ErrNotFound.
Proof. unfold Objects_Delete. destruct (m !! key) eqn:E; cbn; [by rewrite lookup_delete_eq|by rewrite E]. Qed.
End MemoryObjects.
