(* ===== verification/AccountApi.v ===== *)
(** * Smaller endpoints and their services

    - [KeysApi] models [internal/handlers/subscriber_keys.go] over the table
      of subscriber keys;
    - [Inspect] models [internal/handlers/idempotency.go] over the store the
      middleware keeps;
    - [Swaps] models [internal/service/swap_service.go] and
      [internal/handlers/swap.go], in the float arithmetic of the code;
    - [Executor] models [internal/worker/executor.go];
    - [Actors] models who an audit entry names, and what is logged when
      authentication fails, of [internal/audit/middleware.go].

    Decoding of bodies and of identifiers is a parameter. *)
From Stdlib Require Import ZArith Lia Ascii String SpecFloat.
From stdpp Require Import base gmap strings list.
From S2P Require Import Prelude GoStrings GoFloat JobQueue Idempotency HashRing Outbox Encryption AuditLog.
#[local] Open Scope string_scope.
#[local] Open Scope Z_scope.

(** ** Subscriber keys *)
Module KeysApi.
Import Keys.
Record registerSubscriberKeyRequest := { SubscriberID : string; KeyID : string; JWK : string; ExpiresAt : option Time }.
(** Status of the answer, and the key or keys it carries. *)
Inductive answer := Error (status : Z) | Created (k : SubscriberKey) | Found (k : SubscriberKey) | Listed (l : list SubscriberKey) | NoContent.

Section handlers.
Context `{GoRuntime} (parse_uuid : string → option UUID).
(** [db] is whether the database answers, [repo] whether there is one. A body
    is [None] when it does not decode or a required field is empty. *)
Definition RegisterSubscriberKey (repo db : bool) (fresh : UUID) (now : Time) (body : option registerSubscriberKeyRequest) (t : gmap UUID SubscriberKey)
    : gmap UUID SubscriberKey * answer :=
  if negb repo then (t, Error 503)
  else match body with
  | None => (t, Error 400)
  | Some req =>
      let key := {| k_ID := 0; k_SubscriberID := SubscriberID req; k_KeyID := KeyID req; k_JWK := JWK req;
                    k_Status := Some SubscriberKeyActive; k_ExpiresAt := ExpiresAt req; k_CreatedAt := Time.zero; k_UpdatedAt := Time.zero |} in
      if negb db then (t, Error 500)
      else match Create fresh now key t with
      | None => (t, Error 500)
      | Some t' => (t', match t' !! fresh with Some k => Created k | None => Error 500 end)
      end
  end.
Definition ListSubscriberKeys (repo db : bool) (subscriberID : string) (t : gmap UUID SubscriberKey) : answer :=
  if negb repo then Error 503 else if negb db then Error 500 else Listed (ListBySubscriber subscriberID t).
Definition status_of (s : string) : option SubscriberKeyStatus :=
  if decide (s = "active") then Some SubscriberKeyActive
  else if decide (s = "revoked") then Some SubscriberKeyRevoked
  else if decide (s = "expired") then Some SubscriberKeyExpired
  else None.
Definition UpdateSubscriberKey (repo db : bool) (now : Time) (id : string) (body : option string) (t : gmap UUID SubscriberKey)
    : gmap UUID SubscriberKey * answer :=
  if negb repo then (t, Error 503)
  else match parse_uuid id with
  | None => (t, Error 400)
  | Some id =>
      match body ≫= status_of with
      | None => (t, Error 400)
      | Some status =>
          if negb db then (t, Error 404)
          else match UpdateStatus now id status t with None => (t, Error 404) | Some t' => (t', NoContent) end
      end
  end.
Definition GetSubscriberKey (repo db : bool) (id : string) (t : gmap UUID SubscriberKey) : answer :=
  if negb repo then Error 503
  else match parse_uuid id with
  | None => Error 400
  | Some id => if negb db then Error 404 else match GetByID id t with Some k => Found k | None => Error 404 end
  end.

(** Once a change to anything but active is confirmed, the key is not the one
    events are encrypted with, at any later time. *)
Theorem withdrawn_key_not_used repo db now id body t t' s k :
  UpdateSubscriberKey repo db now id (Some body) t = (t', NoContent) → body ≠ "active" → parse_uuid id = Some k →
  (∀ i x, t !! i = Some x → k_ID x = i) → ∀ later x, GetActiveKey later s t' = Some x → k_ID x ≠ k.
Proof.
  intros Hu Hb Hp Hid later x Hx. unfold UpdateSubscriberKey in Hu. destruct repo; [|done]. cbn [negb] in Hu. rewrite Hp in Hu. cbn [mbind option_bind] in Hu.
  destruct (status_of body) as [st|] eqn:Es; [|done]. destruct db; [|done]. cbn [negb] in Hu. unfold UpdateStatus in Hu.
  destruct (t !! k) as [old|] eqn:Eo; [|done]. injection Hu as <-.
  assert (st ≠ SubscriberKeyActive) as Hst by (unfold status_of in Es; repeat case_decide; congruence).
  pose proof (GetActiveKey_exact later s (<[k := {| k_ID := k_ID old; k_SubscriberID := k_SubscriberID old; k_KeyID := k_KeyID old; k_JWK := k_JWK old;
    k_Status := Some st; k_ExpiresAt := k_ExpiresAt old; k_CreatedAt := k_CreatedAt old; k_UpdatedAt := now |}]> t)) as Hn.
  rewrite Hx in Hn. destruct Hn as ((i & Hi) & _ & Ha & _). rewrite lookup_insert_Some in Hi. destruct Hi as [[_ <-]|[Hne Hi]]; [cbn in Ha; congruence|].
  rewrite (Hid i x Hi). done.
Qed.
(** A key that was just registered is the one used, if it has not expired and
    is newer than the others of the subscriber. *)
Theorem registered_key_used repo db fresh now req t t' k :
  RegisterSubscriberKey repo db fresh now (Some req) t = (t', Created k) →
  match ExpiresAt req with Some e => now < e | None => True end →
  (∀ i x, t !! i = Some x → k_SubscriberID x = SubscriberID req → k_CreatedAt x < now) →
  GetActiveKey now (SubscriberID req) t' = Some k.
Proof.
  intros Hr He Ho. unfold RegisterSubscriberKey in Hr. destruct repo; [|done]. destruct db; [|done]. cbn [negb] in Hr.
  destruct (Create fresh now _ t) as [t2|] eqn:Ec; [|done]. unfold Create in Ec. cbn in Ec.
  destruct (t !! fresh) eqn:Ef; [done|]. destruct (existsb _ _); [done|]. injection Ec as <-. rewrite lookup_insert_eq in Hr. injection Hr as <- <-.
  match goal with |- GetActiveKey _ _ (<[_ := ?n]> _) = _ => set (new := n) end.
  pose proof (GetActiveKey_exact now (SubscriberID req) (<[fresh := new]> t)) as Hn.
  assert (usable now new = true) as Hu.
  { unfold usable, new. cbn. rewrite bool_decide_true by done. cbn. destruct (ExpiresAt req); [lia|done]. }
  destruct (GetActiveKey now (SubscriberID req) (<[fresh := new]> t)) as [x|].
  - destruct Hn as ((i & Hi) & Hs & _ & _ & Hmax). rewrite lookup_insert_Some in Hi. destruct Hi as [[_ <-]|[Hne Hi]]; [done|].
    specialize (Ho i x Hi Hs). specialize (Hmax fresh new). rewrite lookup_insert_eq in Hmax. specialize (Hmax eq_refl eq_refl Hu). cbn in Hmax. lia.
  - exfalso. specialize (Hn fresh new). rewrite lookup_insert_eq in Hn. rewrite Hn in Hu by done. done.
Qed.
End handlers.
End KeysApi.

(** ** Inspection of idempotency keys *)
Module Inspect.
Record IdempotencyInspectResponse := { Key : string; i_UsedAt : Time; i_ExpiresAt : Time; i_StatusCode : Z; RequestFingerprint : string }.
Inductive answer := Error (status : Z) | Shown (r : IdempotencyInspectResponse).
(** The switch over the values of the context. *)
Definition resolveScope (tenantID callerID : option string) : string :=
  match tenantID, callerID with
  | Some t, Some c => t +:+ ":" +:+ c
  | Some t, None => t +:+ ":anonymous"
  | None, Some c => "anonymous:" +:+ c
  | None, None => "anonymous"
  end.
Definition InspectKey (lookup : string → string → result string (option IdempotencyRecord)) (key : string) (tenantID callerID : option string) : answer :=
  if decide (key = "") then Error 400
  else if (255 <? String.length key)%nat then Error 400
  else match lookup (resolveScope tenantID callerID) key with
  | Err _ => Error 500
  | Ok None => Error 404
  | Ok (Some rec) => Shown {| Key := key; i_UsedAt := UsedAt rec; i_ExpiresAt := RecExpiresAt rec; i_StatusCode := RecStatusCode rec; RequestFingerprint := RecPayloadHash rec |}
  end.
Definition in_memory (s : InMemoryIdempotencyStore) (scope key : string) : result string (option IdempotencyRecord) := Ok (Lookup scope key s).

Lemma same_scope r : resolveScope (tenantID r) (callerID r) = scope_of r.
Proof. by destruct r as [? ? [?|] [?|] ? ?]. Qed.
(** A request the middleware lets through on a key is what its sender then
    sees under the key: in flight, with the hash of its body. *)
Theorem admitted_key_shown now r s s' :
  Idempotency_before now r s = (s', Proceed) →
  InspectKey (in_memory s') (IdempotencyKey r) (tenantID r) (callerID r) =
    Shown {| Key := IdempotencyKey r; i_UsedAt := now; i_ExpiresAt := now + DefaultIdempotencyTTL; i_StatusCode := 0; RequestFingerprint := BodyHash r |}.
Proof.
  unfold Idempotency_before, GetOrInsert. intros Hb. destruct (is_safe_method _); [done|]. case_decide as Ek; [done|].
  destruct (Z.ltb_spec 255 (Z.of_nat (String.length (IdempotencyKey r)))); [done|]. unfold InspectKey. rewrite decide_False by done.
  replace (255 <? String.length (IdempotencyKey r))%nat with false by (symmetry; apply Nat.ltb_ge; lia).
  unfold in_memory, Lookup. rewrite same_scope.
  assert (s' !! mapKey (scope_of r) (IdempotencyKey r) = Some {| request := fingerprint_of r; statusCode := 0; responseBody := ""; createdAt := now;
    expiresAt := Time.Add now DefaultIdempotencyTTL |}) as ->; [|done].
  destruct (s !! _) as [e|]; [|simplify_eq; apply lookup_insert_eq].
  destruct (Time.After now (expiresAt e)); [simplify_eq; apply lookup_insert_eq|]. repeat case_match; simplify_eq.
Qed.
(** The scope is a text with a colon: a caller of one tenant can have the
    scope of a caller of another, and sees the keys of that one. *)
Theorem scopes_collide :
  resolveScope (Some "acme") (Some "eu:bob") = resolveScope (Some "acme:eu") (Some "bob") ∧
  resolveScope (Some "acme") None = resolveScope (Some "acme") (Some "anonymous").
Proof. done. Qed.
End Inspect.

(** ** Swaps *)
Module Swaps.
Record SwapResult := { TokenIn : string; TokenOut : string; AmountIn : float64; AmountOut : float64; PriceImpact : float64; Fee : float64 }.
Inductive swap_error := NotPositive | ErrInsufficientLiquidity.
Record mockSwapRouter := { reserveA : float64; reserveB : float64; feeRate : float64 }.
Definition NewSwapRouter : mockSwapRouter := {| reserveA := f_of_int 1000000; reserveB := f_of_int 1000000; feeRate := f_lit 3 1000 |}.

(** [math.Round]: halves away from zero; a value too large to have a fraction,
    an infinity and a value that is no number stay. *)
Definition f_round (x : float64) : float64 :=
  match x with
  | S754_finite s m e =>
      if 0 <=? e then x
      else let n := (2 * Z.pos m + 2 ^ (- e)) / 2 ^ (1 - e) in
           if n =? 0 then S754_zero s else f_of_int (if s : bool then - n else n)
  | _ => x
  end.
Definition e8 : float64 := f_of_int 100000000.
Definition round8 (x : float64) : float64 := f_div (f_round (f_mul x e8)) e8.
Definition percent (x : float64) : float64 := f_div (f_round (f_mul x (f_of_int 10000))) (f_of_int 100).

Definition SwapExactTokensForTokens (r : mockSwapRouter) (tokenIn tokenOut : string) (amountIn minAmountOut : float64) : result swap_error SwapResult :=
  if f_le amountIn (f_of_int 0) then Err NotPositive
  else
    let fee := round8 (f_mul amountIn (feeRate r)) in
    let afterFee := f_sub amountIn fee in
    let amountOut := round8 (f_div (f_mul (reserveB r) afterFee) (f_add (reserveA r) afterFee)) in
    if f_lt amountOut minAmountOut then Err ErrInsufficientLiquidity
    else Ok {| TokenIn := tokenIn; TokenOut := tokenOut; AmountIn := amountIn; AmountOut := amountOut;
               PriceImpact := percent (f_div afterFee (f_add (reserveA r) afterFee)); Fee := fee |}.
Definition SwapTokensForExactTokens (r : mockSwapRouter) (tokenIn tokenOut : string) (amountOut maxAmountIn : float64) : result swap_error SwapResult :=
  if f_le amountOut (f_of_int 0) then Err NotPositive
  else if f_le (reserveB r) amountOut then Err ErrInsufficientLiquidity
  else
    let beforeFee := f_div (f_mul (reserveA r) amountOut) (f_sub (reserveB r) amountOut) in
    let fee := round8 (f_mul beforeFee (feeRate r)) in
    let amountIn := round8 (f_add beforeFee fee) in
    if f_lt maxAmountIn amountIn then Err ErrInsufficientLiquidity
    else Ok {| TokenIn := tokenIn; TokenOut := tokenOut; AmountIn := amountIn; AmountOut := amountOut;
               PriceImpact := percent (f_div amountOut (reserveB r)); Fee := fee |}.

(** The handlers: a body that does not decode is [None]. *)
Record swapRequest := { q_in : string; q_out : string; q_amount : float64; q_bound : float64 }.
Definition valid_exact_in (q : swapRequest) : bool :=
  negb (bool_decide (q_in q = "")) && negb (bool_decide (q_out q = "")) && f_lt (f_of_int 0) (q_amount q) && f_le (f_of_int 0) (q_bound q).
Definition valid_exact_out (q : swapRequest) : bool :=
  negb (bool_decide (q_in q = "")) && negb (bool_decide (q_out q = "")) && f_lt (f_of_int 0) (q_amount q) && f_lt (f_of_int 0) (q_bound q).
Definition respond (a : result swap_error SwapResult) : Z * option SwapResult :=
  match a with Ok r => (200, Some r) | Err ErrInsufficientLiquidity => (422, None) | Err NotPositive => (500, None) end.
Definition ExactIn (r : mockSwapRouter) (body : option swapRequest) : Z * option SwapResult :=
  match body with
  | Some q => if valid_exact_in q then respond (SwapExactTokensForTokens r (q_in q) (q_out q) (q_amount q) (q_bound q)) else (400, None)
  | None => (400, None)
  end.
Definition ExactOut (r : mockSwapRouter) (body : option swapRequest) : Z * option SwapResult :=
  match body with
  | Some q => if valid_exact_out q then respond (SwapTokensForExactTokens r (q_in q) (q_out q) (q_amount q) (q_bound q)) else (400, None)
  | None => (400, None)
  end.

(** A swap that is answered with 200 has the amount the caller fixed, and the
    other amount is not on the wrong side of the bound: on the right one, or no
    number at all. *)
Theorem swap_bound_kept r q x :
  (ExactIn r (Some q) = (200, Some x) → f_lt (AmountOut x) (q_bound q) = false ∧ AmountIn x = q_amount q) ∧
  (ExactOut r (Some q) = (200, Some x) → f_lt (q_bound q) (AmountIn x) = false ∧ AmountOut x = q_amount q ∧ f_le (reserveB r) (q_amount q) = false).
Proof.
  unfold ExactIn, ExactOut, SwapExactTokensForTokens, SwapTokensForExactTokens. split; intros Hx.
  - destruct (valid_exact_in q); [|done]. destruct (f_le _ _); [done|]. cbn zeta in Hx. destruct (f_lt _ (q_bound q)) eqn:E; [done|]. cbn in Hx. by injection Hx as <-.
  - destruct (valid_exact_out q); [|done]. destruct (f_le (q_amount q) _); [done|]. destruct (f_le (reserveB r) _) eqn:Eb; [done|]. cbn zeta in Hx.
    destruct (f_lt (q_bound q) _) eqn:E; [done|]. cbn in Hx. by injection Hx as <-.
Qed.
Definition amount_of (a : result swap_error SwapResult) (f : SwapResult → float64) : option float64 := match a with Ok r => Some (f r) | Err _ => None end.
(** Amounts for an exact input of 1000, with the fee of 3; what the exact
    output asks for buys less than it when paid as an input; the smallest
    amounts pay no fee; and a huge amount, whose fee overflows, is answered
    with no number, which passes any bound. *)
Theorem swap_amounts :
  (∃ out, amount_of (SwapExactTokensForTokens NewSwapRouter "a" "b" (f_of_int 1000) (f_of_int 0)) AmountOut = Some out ∧
     f_lt (f_of_int 996) out = true ∧ f_lt out (f_of_int 997) = true) ∧
  amount_of (SwapExactTokensForTokens NewSwapRouter "a" "b" (f_of_int 1000) (f_of_int 0)) Fee = Some (f_of_int 3) ∧
  (∃ need out, amount_of (SwapTokensForExactTokens NewSwapRouter "a" "b" (f_of_int 1000) (f_of_int 2000)) AmountIn = Some need ∧
     amount_of (SwapExactTokensForTokens NewSwapRouter "a" "b" need (f_of_int 0)) AmountOut = Some out ∧ f_lt out (f_of_int 1000) = true) ∧
  amount_of (SwapExactTokensForTokens NewSwapRouter "a" "b" (f_lit 1 1000000) (f_of_int 0)) Fee = Some (S754_zero false) ∧
  amount_of (SwapExactTokensForTokens NewSwapRouter "a" "b" (f_of_int (10 ^ 305)) (f_of_int (10 ^ 300))) AmountOut = Some S754_nan.
Proof.
  split; [exists (S754_finite false 8760970055996400 (-43)); split_and!; vm_compute; reflexivity|]. split; [vm_compute; reflexivity|].
  split; [exists (S754_finite false 8831312613853293 (-43)), (S754_finite false 8796013936535637 (-43)); split_and!; vm_compute; reflexivity|].
  split; vm_compute; reflexivity.
Qed.
End Swaps.

(** ** The executor of billing jobs *)
Module Executor.
Import JobTypes.
Inductive exec_error := UnknownType (t : string) | Cancelled (e : string).
(** Each kind of job waits 100 milliseconds and does nothing else; [ended] is
    the error of the context if that is what the wait ends with. *)
Definition wait_done (ended : option string) : option exec_error := Cancelled <$> ended.
Definition Execute (job : Job) (ended : option string) : option exec_error :=
  if decide (Type_ job = "charge") then wait_done ended
  else if decide (Type_ job = "invoice") then wait_done ended
  else if decide (Type_ job = "reminder") then wait_done ended
  else Some (UnknownType (Type_ job)).
(** A job fails exactly when its type is unknown or its context ends. *)
Theorem execute_succeeds_iff job ended : Execute job ended = None ↔ Type_ job ∈ ["charge"; "invoice"; "reminder"] ∧ ended = None.
Proof.
  unfold Execute, wait_done. rewrite !elem_of_cons, elem_of_nil. destruct ended as [e|]; cbn; repeat case_decide; naive_solver.
Qed.
End Executor.

(** ** Who acted *)
Module Actors.
(** [actor] is the value of the context, if it is text. *)
Record caller := { actor : option string; xActor : string; xUser : string; clientIP : string }.
Definition first_given (l : list string) (otherwise : string) : string :=
  match List.find (λ s, negb (bool_decide (TrimSpace s = ""))) l with Some s => TrimSpace s | None => otherwise end.
Definition ResolveActor (c : option caller) : string :=
  match c with
  | None => "anonymous"
  | Some c => first_given [default "" (actor c); xActor c; xUser c] (clientIP c)
  end.
Record exchange := { e_caller : caller; FullPath : string; e_Method : string; Authorization : string; first_error : option string; e_Status : Z }.
Definition event (x : exchange) (action resource outcome : string) (meta : gmap string string) : AuditEvent string :=
  {| Timestamp := Time.zero; RequestID := ""; Actor := ResolveActor (Some (e_caller x)); Action := action; Resource := resource; Outcome := outcome;
     Metadata := Some meta; PrevHash := ""; Hash := "" |}.
(** [logger] is whether the context holds one. *)
Definition LogAction (logger : bool) (x : exchange) (action target outcome : string) (metadata : option (gmap string string)) : option (AuditEvent string) :=
  if negb logger then None
  else Some (event x action target outcome
    (<["client_ip" := clientIP (e_caller x)]> (<["method" := e_Method x]> (<["path" := FullPath x]> (default ∅ metadata))))).
Definition auth_failure_meta (x : exchange) : gmap string string :=
  let meta := <["auth_header" := Authorization x]> (<["status" := Itoa (e_Status x)]> (<["method" := e_Method x]> (<["path" := FullPath x]> ∅))) in
  match first_error x with Some r => if decide (r = "") then meta else <["reason" := r]> meta | None => meta end.
Definition logAuthFailure (x : exchange) : AuditEvent string := event x "auth_failure" (FullPath x) "failure" (auth_failure_meta x).
(** What is logged once the handler has answered, by the first function of
    that name and by the second. *)
Definition Middleware (logger : bool) (x : exchange) : option (AuditEvent string) :=
  if (e_Status x =? 401) || (e_Status x =? 403) then if logger then Some (logAuthFailure x) else None else None.
Definition RequestMiddleware (x : exchange) (duration userAgent : string) : AuditEvent string :=
  event x "http_request" (FullPath x) (if 400 <=? e_Status x then "failure" else "success")
    (<["user_agent" := userAgent]> (<["client_ip" := clientIP (e_caller x)]> (<["duration" := duration]> (<["status" := Itoa (e_Status x)]>
      (<["method" := e_Method x]> (<["path" := FullPath x]> ∅)))))).

(** The credentials of a request that failed to authenticate never reach the
    log: the logger redacts the value whatever it is. *)
Theorem credentials_not_logged logger hidden x e m :
  Middleware logger x = Some e → redact (λ v, v) hidden (Metadata e) = Some m → m !! "auth_header" = Some hidden.
Proof.
  unfold Middleware. destruct (_ || _); [|done]. destruct logger; [|done]. intros [= <-] Hm. cbn in Hm. injection Hm as <-. rewrite map_lookup_imap.
  assert (∃ v, auth_failure_meta x !! "auth_header" = Some v) as [v ->].
  { unfold auth_failure_meta. eexists. destruct (first_error x) as [r|]; [case_decide; [|rewrite lookup_insert_ne by done]|]; apply lookup_insert_eq. }
  cbn [mbind option_bind]. by destruct (Contains (ToLower v) "bearer").
Qed.
(** Without an actor in the context a header of the request names it. *)
Theorem header_names_actor ip path :
  ResolveActor (Some {| actor := None; xActor := "root"; xUser := ""; clientIP := ip |}) = "root" ∧
  Actor (logAuthFailure {| e_caller := {| actor := None; xActor := ""; xUser := " bob "; clientIP := ip |}; FullPath := path; e_Method := "GET";
    Authorization := ""; first_error := None; e_Status := 401 |}) = "bob".
Proof. split; vm_compute; done. Qed.
End Actors.
